(* ===== verification/_CoqProject ===== *)
-Q . S2P
Prelude.v
Go.v
Amount.v
Policy.v
Routes.v
RouteGraph.v
RouteWalk.v
Pricing.v
PricingFacts.v
RoutingInputs.v
Supply.v
Score.v
Planner.v
PlannerFacts.v
Bounds.v
Admission.v
Attempts.v
Fallback.v
Health.v
Reservation.v
Upstream.v
Source.v
SourceParser.v
SourceGrammar.v
SourceExact.v
SourceSound.v
SourceValues.v
Sse.v
SseFacts.v
SseFrames.v
SseEncode.v
SseRaw.v
Limits.v
LimitsFacts.v
LimitsSystem.v
LimitsReply.v
Civil.v
Calendar.v
CodeMode.v
CodeModeFacts.v
CodeChoice.v
CostAmount.v
CostPending.v
CostScripts.v
CostFacts.v
CostLedger.v
CostClient.v
CostReply.v
CostLease.v
CostSnapshot.v
TokenVocab.v
TokenVocabFacts.v
TokenHeap.v
TokenMerge.v
TokenMergeFacts.v
TokenLarge.v
TokenPiece.v
TokenScan.v
TokenRegex.v
TokenScanExact.v
TokenClasses.v
TokenEncode.v
TokenEncodeFacts.v
TokenMeter.v
TokenPrompt.v
TokenPromptFacts.v
TokenWalk.v
TokenWalkFacts.v
TokenEmbeddings.v
TokenTally.v
Utf8.v
OverlayGrammar.v
TokenTallyFacts.v
Overlay.v
OverlayText.v
OverlayTree.v
OverlayFacts.v
Envelope.v
Dialects.v
IdentityFacts.v
