(* ===== verification/Prelude.v ===== *)
(** * OpenLLMProxy: a verification development

    OpenLLMProxy (OLP) is a gateway in front of language-model providers. A request
    names a route; the gateway admits it, resolves the policy that governs it, plans
    which provider targets and credential slots to try, reserves what they may cost,
    tries them, and moves to fallback routes when they fail. This library models that
    core from the Go sources under [src/] and proves what makes it correct. Every
    definition that models code is executable, and the theorems' witnesses run them.

    ** The parts and the files

    - [Prelude]: notations, tactics, hints and the generic lemmas on lists, options
      and comparisons; [WeakOrder] is the class of comparators that a stable sort may
      use, with instances for the combinators the orders are built from.
    - [Go]: the parts of Go and its library the code uses. Machine integers are [Z]
      with their wrap-around written out ([wrap64]); [float64] is IEEE 754
      ([spec_float]), NaN and infinities included; a [time.Time] is nanoseconds from
      year 1; strings are byte strings; pointers that may be nil are [option].
    - [Amount]: decimal amounts and exact costs ([internal/pricingpolicy],
      the head of [internal/usage/pricing_cost.go]).
    - [Policy]: preferences and their resolution over the installation, route, key and
      request scopes ([internal/routing/policy.go], [internal/priority]).
    - [Routes]: providers, targets, routes and the behaviour a route declares, with its
      validation ([internal/routing/snapshot.go], [behavior.go], [metadata.go],
      [internal/cache/policy.go] and the identity packages).
    - [RouteGraph]: the check that published fallbacks and delegations form a bounded
      acyclic graph, and the caller cost policy over it ([behavior.go],
      [caller_cost.go]).
    - [RouteWalk]: the walk of one request over routes ([walk.go]).
    - [Pricing], [PricingFacts]: what an attempt costs, the bound reserved before it is
      dispatched and the floor a simulation reports ([internal/usage/pricing_cost.go],
      [retained_pricing.go], [pricing.go]).
    - [RoutingInputs]: the price, discount, rate card and performance in force
      ([internal/usage/routing_inputs.go]).
    - [Supply]: quota shares, spend caps and headroom ([internal/routing/supply.go]).
    - [Score]: rendezvous scores, slot ranking and selectors ([selection.go],
      [slots.go], [selectors.go]).
    - [Planner], [PlannerFacts]: evaluation, ordering and explanation of a route's
      targets ([internal/routing/plan.go]).
    - [Bounds]: the run limits of a tool run ([internal/limits/workflow.go]).
    - [Admission]: the request pool and its weighted queue
      ([internal/observability/admission.go], [queue.go]).
    - [Attempts]: the attempt loop of one route ([internal/gateway/attempts.go], with
      the reservation bound of [executor.go] and the verdicts of [dispatch.go]).
    - [Fallback]: planning, delegation and fallback of a whole request
      ([internal/gateway/fallback.go] and [runAttempts]).
    - [Health]: circuits, probes, cooldowns and attempt statistics
      ([internal/gateway/health.go]).
    - [Reservation]: what admission reserves for a route and what its attempts can bill
      ([internal/gateway/cost_reservation.go]).
    - [Upstream]: the classification of upstream failures ([internal/upstream]).
    - [Source], [SourceParser], [SourceGrammar], [SourceExact], [SourceSound],
      [SourceValues]: the parser of request documents, the JSON grammar it is proved
      against and the accessors of its nodes ([internal/oif/source.go]).
    - [Sse], [SseFacts], [SseFrames], [SseEncode], [SseRaw]: decoding and encoding of
      server-sent events over a buffered scanner ([internal/protocols/sse]).
    - [Limits], [LimitsFacts], [LimitsSystem], [LimitsReply]: the request, token and
      concurrency limits replicas share through Valkey, the Lua scripts included
      ([internal/limits/limits.go], [results.go], [scripts/]).
    - [Civil], [Calendar]: civil dates, and the day, week and month of a budget in a time
      zone ([internal/budgetcalendar], [internal/limits/budgets.go]).
    - [CostAmount], [CostPending], [CostScripts], [CostFacts], [CostLedger]: the cost budgets
      in Valkey ([scripts/reserve_cost.lua], [settle_cost.lua], [reconcile_cost.lua]). Amounts
      are the pairs of integers and the decimal text the scripts keep; the estimates of
      requests in flight are leases in a hash and a sorted set, proved to represent a map.
      [CostFacts] is about reserving, [CostLedger] about settling, reconciling and every
      interleaving of the three.
    - [CostClient], [CostReply], [CostLease], [CostSnapshot]: the gateway's side of cost
      budgets: a reservation over a network that may lose a command or a reply, the reading
      of the scripts' replies, the chain of leases of a request and of its groups, and the
      snapshots of durable spend ([internal/limits/limits.go], [results.go], [budgets.go]).
    - [CodeMode], [CodeModeFacts], [CodeChoice]: the allowances coding subscriptions
      report, the account a session is given and when one recovers ([internal/codemode],
      [ObserveAllowance] of [internal/codesessions]).
    - [TokenVocab], [TokenVocabFacts]: the rank file of an encoding and the open-addressing
      table that finds a token in it ([internal/operations/tokenization/estimate/vocab.go]).
    - [TokenHeap], [TokenMerge], [TokenMergeFacts], [TokenLarge], [TokenPiece]: byte-pair merging
      of a piece, by scanning or with a heap and a linked list, against the reference that merges
      the leftmost pair of the lowest rank ([bpe.go]).
    - [TokenScan], [TokenRegex], [TokenScanExact], [TokenClasses]: the classes of runes, the two
      scanners that cut a text into pieces, and the regular expressions they transcribe under
      the rules of a backtracking engine ([classes.go], [scan.go]).
    - [TokenEncode], [TokenEncodeFacts]: loading an encoding once, encoding and counting
      ([encoding.go]).
    - [TokenMeter]: the family and counter of a model, message framing, and the meter that
      counts the first part of a text exactly and charges the rest ([registry.go], [framing.go],
      [meter.go]).
    - [TokenPrompt], [TokenPromptFacts]: what a prompt keeps of its text, when two prompts read
      alike and how one is counted ([walk.go], [prompt.go]). [Tokenizer] is the class a meter
      relies on, with the encodings as its instances.
    - [TokenWalk], [TokenWalkFacts]: the walker that reads the prompt of every dialect from the
      parsed document, as actions over the input ([walk.go], [node.go], [wire/format.go]).
    - [TokenEmbeddings]: parser, walker, meter and encoder together, on an embeddings request.
    - [TokenTally], [TokenTallyFacts]: the counts prompts share, by reference in a store of
      tallies, and the estimate admission reserves ([prompt.go], [walk.go]).
    - [Utf8]: valid UTF-8 by its runes, where it may be cut and put together.
    - [Overlay]: the changes of a document with their provenance, the checks [Apply] makes and
      the printing of the document with them ([internal/oif/envelope.go]).
    - [OverlayGrammar], [OverlayText], [OverlayTree], [OverlayFacts]: that the JSON grammar is
      unambiguous, names and pointers as texts, the edit of a tree an overlay stands for and that
      [render] prints the edited tree, and [Apply] put together.
    - [Envelope]: requests with their source beside their overlays, identity rules and preparing
      under them, results, events, blobs and the registry of contracts ([envelope.go],
      [registry.go], [blob.go] of [internal/oif]).
    - [Dialects]: the dialect and operation of each family, the contracts the gateway registers
      and the identity preparation it runs ([internal/protocols/oif.go],
      [wire/descriptor.go], [wire/request.go]).
    - [IdentityFacts]: what preparing under identity lets through, for any registry and for the
      contracts of the gateway.

    A request runs through them in this order: [Admission] lets it in; [Fallback]
    binds its route and calls the planner, which is [Planner.Select] behind the
    request's surface; [Select] reads [Policy], [Score], [Supply], [RoutingInputs] and
    [Pricing]; [Attempts] tries the plan, asking [Health] and the quotas before each
    dispatch; when the attempts fail, [RouteWalk] names the next route and [Fallback]
    plans it. [TokenTally] estimates the tokens of a request for the
    model of each target, which [Limits] and [Reservation] reserve. [Limits] is what a quota verdict asks and [CostClient] reserves what
    [Reservation] bounds; [CostLease] settles it when the cost is known. [Upstream] classifies what a dispatch
    came back with, [Source] reads the request's body, [Dialects] prepares the document a
    provider of the same dialect is sent, an [Overlay] on the source, and [Sse] reads the streams. [RouteGraph]
    and the validation in [Routes] and [Policy] hold for the routes because publication
    runs them.

    ** State and effects

    Code that mutates a struct becomes a function that returns it. Early returns with
    an error are values of a sum, an option or a pair with the error the code returns.
    The concurrent pool is a step function on a state of shared memory and goroutines,
    one step per access of shared memory; [reachable] closes over every interleaving.
    The health tracker runs each method under one mutex, so a run is a list of
    events. Valkey runs a script at once, so the replicas that share a limit are a step
    relation with one script per step. A scanner's buffer is part of its state, and a
    reader is the list of chunks it will return. Code that is not in the repository, or that only does I/O, is a parameter:
    SHA-256 and the logarithm of a score, [big.Rat.SetString] of a multiplier, the
    digest of a policy, the tz database, [cjson.decode] of budget increases, what [uuid.Parse]
    accepts and normalises to, which commands and replies the network delivers, the range tables of package [unicode], the
    contents of a pooled working set, [strings.ToLower], the factors of the signed catalogue,
    the order [slices.SortFunc] gives equal elements, the callbacks in a planner's options, and, for the attempt
    loop, the [World] of everything it asks, whose answers may differ each time.

    ** What the theorems show

    - Planning: every planned attempt satisfies every check of the code, the plan is
      exactly the eligible targets, in the order of the resolved policy's strategy, and policy
      resolution can only narrow what a wider scope allows.
    - Routes: the graph check accepts exactly the bounded acyclic graphs; caller cost
      exemption is closed under every move; a walk considers each fallback once and
      visits no route twice.
    - Money: costs round exactly as the rational definition does; the reservation of a workflow
      call covers every bill it can meet, in every tier and window, and the bound of one attempt
      covers its bill where no tier it may land in is dearer; amounts survive printing;
      lookups return the most specific, latest record, with or without the index.
    - Execution: a request returns, within the attempt budget of the route it named
      and within what admission reserved; admission never exceeds its bounds and never
      leaves a slot idle while a request waits; the queue serves classes by weight; one
      probe at a time tests an open circuit; statistics count what was recorded.
    - Money and failures meet: a route's reservation covers its attempts when every
      dispatch is reserved, and work an upstream may hold is not repeated when it is to be
      made at most once.
    - Documents: the parser accepts exactly the JSON texts within its limits that name no
      member twice and its nodes represent the tree; pointers find what the tree holds; the
      scan of eight bytes at a time equals the scan of each byte.
    - Streams: the frames decoded do not depend on how the reader cuts the bytes; decoded
      frames survive encoding; raw frames lose nothing.
    - Shared limits: no interleaving of scripts by any replicas goes over a limit, and the
      reader understands every answer the script gives, one combination apart.
    - Cost budgets: the keys always represent a map of leases with its exact sum, whatever
      scripts interleave; a granted reservation has room in every limited window beside all
      that is in flight, and a refused one has none; a settlement counts once; installing
      spend releases its reservation in the same step and never lowers a total; a reply that
      is lost does not leave an estimate behind; the gateway reads a grant, a refusal with its
      dimension and wait, and the state of a balance as the script decided them; a chain of leases is settled whole and growing it loses nothing; the
      scripts and the gateway agree on the calendar.
    - Calendars: the windows of a budget hold their instants and follow one another in
      every zone whose dates never go back; a monthly cycle always has a next reset.
    - Coding accounts: observing an allowance keeps it well formed and each window, count and credit as
      last observed; the account chosen is the preferred one and the reasons given are true.
    - Token counts: a vocabulary finds exactly the tokens of its file; each way of merging a
      piece has the one outcome of the reference; the scanners take what their patterns match
      first; encoding loses nothing and counting agrees with it; what a prompt keeps is enough
      for every count; prompts that read alike are counted alike; the walk of any parsed
      document ends; over any run of calls a shared count is the count, the largest prompt of a
      batch included, made once for a family;
      an embeddings request is counted from its source as its tree says; an estimate is the sum
      it stands for, saturated where the limiter's integers end.
    - Overlays and identity: a text is the JSON of one tree at most; an overlay leaves the tree
      with its values where it points and as it was elsewhere, and fails in the parser only for
      values that are not JSON or where the tree it makes exceeds the limits; a request prepared under identity is its source wherever no rule of its
      dialect covers; preparing a fresh request binds its model, asks for usage in a stream and,
      where its document and any options of its stream are objects, is refused only where a limit is
      exceeded, the rerank of Bedrock apart.
    - Findings: the largest rendezvous sample scores lowest; a fallback skipped before
      planning makes earlier fallbacks be considered twice; a target passed over without
      retry rules lets a route bill more than it reserved; a refusal by a share is misread
      when the allowance was asked for; an allowance stated as a percentage that is not whole
      makes observations of other windows be refused; the lengths of a crafted rank file wrap
      around the check of their sum and make parsing it panic; the contract of a Bedrock rerank has
      no rule for the model that preparing one binds; a price whose higher tier is cheaper lets an
      attempt cost more than the bound reserved for it.

    ** Fuel

    Recursion that is not structural takes fuel, and each theorem about it shows the
    fuel is enough: the graph visits need one more than the number of routes, since a
    nested visit marks a new route; planning needs the same, since each delegation
    visits a new route; [Next] needs the frames and fallbacks it can pop; the slots of
    an attempt need the budget left plus the slots; the fallback loop and the whole
    request return for every fuel from some number on; the parser needs the length of the
    text, and its result is shown not to be an end of fuel; the scanner needs the chunks
    and bytes left to read; the search for a boundary halves four days of seconds; probing needs the size of the table, merging four times the
    length of the piece, scanning the length of the text, and walking a document the number of
    its values, since a value comes after the one that holds it; printing an overlay needs two
    more, for what it adds below the last value. The theorems on overlays assume that the
    pointers of changes are valid UTF-8 and that a limit on nodes is an [int].

    ** What is not modelled

    JSON codecs of structs ([encoding/json], with the raw defaults of a provider that
    the walker decodes with it, the printing of strings apart), SQL, the Valkey client, HTTP, WebAssembly plugins and cryptography; the codecs that
    translate between dialects; durable batches, files and sessions; the rebuilding of a durable exposure that
    Valkey lost ([evalDurableCost]); management and its
    console. Counters of metrics are left at unbounded integers. Of large structs
    only the fields the modelled code reads or writes are kept.

    ** What could follow

    The validation of a whole snapshot and retry back-off; the defaults of a provider in an
    estimate; the preparation of a target through a codec ([PrepareTarget]) and the plans of
    [internal/interaction] above identity preparation; the synchronisation of durable debits; decision records and model aliases of
    coding sessions. *)

From stdpp Require Export base tactics list option strings gmap sets sorting.
From Stdlib Require Export ZArith Lia.
From Stdlib Require Import SpecFloat.

(** ** Notations

    Go's pointers to plain values are read as [option]; the notations below
    read like the code that dereferences them. *)

Declare Scope olp_scope.
Delimit Scope olp_scope with olp.

(** [x <- c ;; k] is the early return on an absent value, [c1 <|> c2] the first
    refusal of a chain of checks. *)
Notation "x <-? c ;; k" := (match c with Some x => k | None => None end)
  (at level 60, c at next level, right associativity) : olp_scope.
Notation "c1 <|> c2" := (match c1 with Some e => Some e | None => c2 end)
  (at level 65, right associativity) : olp_scope.

(** ** Tactics *)

(** Split every boolean connective of the hypotheses. *)
Ltac split_bools :=
  repeat match goal with
    | H : andb _ _ = true |- _ => apply andb_true_iff in H; destruct H
    | H : orb _ _ = false |- _ => apply orb_false_iff in H; destruct H
    | H : negb _ = true |- _ => apply negb_true_iff in H
    | H : negb _ = false |- _ => apply negb_false_iff in H
    end.

(** Case on every [if] and [match] scrutinee of the goal, keeping equations. *)
Ltac case_all := repeat (case_match; simplify_eq/=).

(** Destruct the first scrutinee found in hypothesis [H]. *)
Ltac case_in H :=
  match type of H with
  | context [match ?x with _ => _ end] =>
      let E := fresh "E" in destruct x eqn:E
  end.

(** Turn boolean arithmetic comparisons of the context into propositions. *)
Ltac bool_to_prop :=
  repeat match goal with
    | H : (_ <=? _)%Z = true |- _ => apply Z.leb_le in H
    | H : (_ <=? _)%Z = false |- _ => apply Z.leb_gt in H
    | H : (_ <? _)%Z = true |- _ => apply Z.ltb_lt in H
    | H : (_ <? _)%Z = false |- _ => apply Z.ltb_ge in H
    | H : (_ =? _)%Z = true |- _ => apply Z.eqb_eq in H
    | H : (_ =? _)%Z = false |- _ => apply Z.eqb_neq in H
    | H : String.eqb _ _ = true |- _ => apply String.eqb_eq in H
    | H : String.eqb _ _ = false |- _ => apply String.eqb_neq in H
    end.

(** Automation of the development: membership, order and bound facts. *)
Create HintDb olp.

(** ** Checks

    A check returns the error it refuses with, if any. *)

(** The first refusal of a loop over the elements of a list. *)
Fixpoint first_error {A E} (f : A → option E) (l : list A) : option E :=
  match l with
  | [] => None
  | x :: l' => match f x with Some e => Some e | None => first_error f l' end
  end.

Definition refuse_if {E} (b : bool) (e : E) : option E := if b then Some e else None.

(** A pointer that is not nil. *)
Definition is_some {A} (o : option A) : bool := match o with Some _ => true | None => false end.

(** A test of a value behind a pointer, false at nil. *)
Definition opt_test {A} (o : option A) (f : A → bool) : bool :=
  match o with Some x => f x | None => false end.

Lemma first_error_None {A E} (f : A → option E) l :
  first_error f l = None ↔ Forall (λ x, f x = None) l.
Proof.
  induction l as [|x l IH]; simpl; [done|]. rewrite Forall_cons, <- IH.
  destruct (f x); naive_solver.
Qed.

Lemma first_error_Some {A E} (f : A → option E) l e :
  first_error f l = Some e → ∃ x, x ∈ l ∧ f x = Some e.
Proof.
  induction l as [|x l IH]; simpl; [done|]. destruct (f x) eqn:F.
  - intros [= ->]. exists x. split; [left|done].
  - intros (y & Hy & Fy)%IH. exists y. split; [by right|done].
Qed.

(** ** Three-way comparisons

    Go's comparison functions return a negative, zero or positive int; the model
    returns [comparison]. *)

Definition cmp (A : Type) : Type := A → A → comparison.

(** What [slices.SortStableFunc] and [slices.MaxFunc] ask of a comparison: a
    strict weak ordering. *)
Class WeakOrder {A} (c : cmp A) : Prop := {
  wo_sym : ∀ x y, c y x = CompOpp (c x y);
  wo_eq_trans : ∀ x y z, c x y = Eq → c y z = Eq → c x z = Eq;
  wo_lt_trans : ∀ x y z, c x y = Lt → c y z = Lt → c x z = Lt;
  wo_lt_eq : ∀ x y z, c x y = Lt → c y z = Eq → c x z = Lt;
  wo_eq_lt : ∀ x y z, c x y = Eq → c y z = Lt → c x z = Lt;
}.

#[global] Hint Mode WeakOrder ! ! : typeclass_instances.
Arguments wo_sym {A} c {_} x y.
Arguments wo_eq_trans {A} c {_} x y z _ _.
Arguments wo_lt_trans {A} c {_} x y z _ _.
Arguments wo_lt_eq {A} c {_} x y z _ _.
Arguments wo_eq_lt {A} c {_} x y z _ _.

Definition cmp_le {A} (c : cmp A) (x y : A) : Prop := c x y ≠ Gt.

(** Compare by a key. *)
Definition cmp_on {A B} (f : A → B) (c : cmp B) : cmp A := λ x y, c (f x) (f y).

(** Compare by [c1] and break ties with [c2]. *)
Definition cmp_then {A} (c1 c2 : cmp A) : cmp A :=
  λ x y, match c1 x y with Eq => c2 x y | o => o end.

(** Larger before smaller. *)
Definition cmp_rev {A} (c : cmp A) : cmp A := λ x y, c y x.

(** Values that are known before values that are not. *)
Definition cmp_known {A} (c : cmp A) : cmp (option A) := λ x y,
  match x, y with
  | Some a, Some b => c a b
  | Some _, None => Lt
  | None, Some _ => Gt
  | None, None => Eq
  end.

Definition cmp_const {A} : cmp A := λ _ _, Eq.

(** [true] before [false]. *)
Definition cmp_bool : cmp bool := λ x y,
  match x, y with
  | true, false => Lt
  | false, true => Gt
  | _, _ => Eq
  end.

#[global] Typeclasses Opaque cmp_on cmp_then cmp_rev cmp_known cmp_const cmp_bool.

Section WeakOrders.
Context {A B : Type}.

#[export] Instance wo_Z : WeakOrder Z.compare.
Proof.
  split; intros *; rewrite ?Z.compare_eq_iff, ?Z.compare_lt_iff; try lia.
  apply Z.compare_antisym.
Qed.

#[export] Instance wo_const : WeakOrder (@cmp_const A).
Proof. by split. Qed.

#[export] Instance wo_bool : WeakOrder cmp_bool.
Proof. split; intros [] []; try intros []; done. Qed.

#[export] Instance wo_on (f : A → B) c : WeakOrder c → WeakOrder (cmp_on f c).
Proof. intros [???? ?]; split; unfold cmp_on; eauto. Qed.

#[export] Instance wo_rev (c : cmp A) : WeakOrder c → WeakOrder (cmp_rev c).
Proof.
  intros [S E L LE EL]; split; unfold cmp_rev; intros; eauto.
Qed.

#[export] Instance wo_then (c1 c2 : cmp A) :
  WeakOrder c1 → WeakOrder c2 → WeakOrder (cmp_then c1 c2).
Proof.
  intros [S1 E1 L1 LE1 EL1] [S2 E2 L2 LE2 EL2].
  split; unfold cmp_then.
  - intros x y. rewrite S1. destruct (c1 x y); simpl; auto.
  - intros x y z H1 H2. destruct (c1 x y) eqn:K1; [|done..].
    destruct (c1 y z) eqn:K2; [|done..]. rewrite (E1 _ _ _ K1 K2). eauto.
  - intros x y z H1 H2.
    destruct (c1 x y) eqn:K1; [|clear H1|done]; (destruct (c1 y z) eqn:K2; [|clear H2|done]).
    + rewrite (E1 _ _ _ K1 K2). eauto.
    + by rewrite (EL1 _ _ _ K1 K2).
    + by rewrite (LE1 _ _ _ K1 K2).
    + by rewrite (L1 _ _ _ K1 K2).
  - intros x y z H1 H2. destruct (c1 y z) eqn:K2; [|done..].
    destruct (c1 x y) eqn:K1; [| |done].
    + rewrite (E1 _ _ _ K1 K2). eauto.
    + by rewrite (LE1 _ _ _ K1 K2).
  - intros x y z H1 H2. destruct (c1 x y) eqn:K1; [|done..].
    destruct (c1 y z) eqn:K2; [| |done].
    + rewrite (E1 _ _ _ K1 K2). eauto.
    + by rewrite (EL1 _ _ _ K1 K2).
Qed.

#[export] Instance wo_known (c : cmp A) : WeakOrder c → WeakOrder (cmp_known c).
Proof.
  intros [S E L LE EL]; split.
  - intros [] []; simpl; auto.
  - intros [] [] []; simpl; eauto; done.
  - intros [] [] []; simpl; eauto; done.
  - intros [] [] []; simpl; eauto; done.
  - intros [] [] []; simpl; eauto; done.
Qed.
End WeakOrders.

Lemma WeakOrder_ext {A} (c1 c2 : cmp A) : (∀ a b, c1 a b = c2 a b) → WeakOrder c2 → WeakOrder c1.
Proof.
  intros E [S T L LE EL]. split.
  - intros x y. rewrite !E. auto.
  - intros x y z. rewrite !E. eauto.
  - intros x y z. rewrite !E. eauto.
  - intros x y z. rewrite !E. eauto.
  - intros x y z. rewrite !E. eauto.
Qed.

Section CmpFacts.
Context {A : Type} (c : cmp A) `{!WeakOrder c}.

Lemma cmp_refl x : c x x = Eq.
Proof. pose proof (wo_sym c x x). by destruct (c x x). Qed.

Lemma cmp_le_total x y : cmp_le c x y ∨ cmp_le c y x.
Proof. unfold cmp_le. rewrite (wo_sym c x y). destruct (c x y); auto. Qed.

Lemma cmp_le_trans x y z : cmp_le c x y → cmp_le c y z → cmp_le c x z.
Proof.
  unfold cmp_le. intros H1 H2.
  destruct (c x y) eqn:K1; [| |done]; (destruct (c y z) eqn:K2; [| |done]).
  - by rewrite (wo_eq_trans c _ _ _ K1 K2).
  - by rewrite (wo_eq_lt c _ _ _ K1 K2).
  - by rewrite (wo_lt_eq c _ _ _ K1 K2).
  - by rewrite (wo_lt_trans c _ _ _ K1 K2).
Qed.

Lemma cmp_gt_lt x y : c x y = Gt ↔ c y x = Lt.
Proof. rewrite (wo_sym c x y). destruct (c x y); simpl; naive_solver. Qed.

Lemma cmp_le_lt x y z : cmp_le c x y → c y z = Lt → c x z = Lt.
Proof.
  unfold cmp_le. intros H1 H2. destruct (c x y) eqn:K; [| |done].
  - eapply (wo_eq_lt c); eauto.
  - eapply (wo_lt_trans c); eauto.
Qed.
End CmpFacts.

(** ** Stable sorting

    [slices.SortStableFunc] sorts by a strict weak ordering and keeps the order of
    elements that compare equal. That determines its result, so insertion sort
    models it; [sort_stable_unique] below is that argument. *)

Fixpoint insert_stable {A} (c : cmp A) (x : A) (l : list A) : list A :=
  match l with
  | [] => [x]
  | y :: l' => match c y x with
               | Lt => y :: insert_stable c x l'
               | _ => x :: l
               end
  end.

Definition SortStableFunc {A} (c : cmp A) (l : list A) : list A :=
  foldr (insert_stable c) [] l.

Section StableSort.
Context {A : Type} (c : cmp A) `{!WeakOrder c}.
Implicit Types (x y : A) (l : list A).

Lemma insert_stable_Permutation x l : insert_stable c x l ≡ₚ x :: l.
Proof.
  induction l as [|y l IH]; simpl; [done|].
  destruct (c y x); [done| |done]. rewrite IH. apply Permutation_swap.
Qed.

Lemma SortStableFunc_Permutation l : SortStableFunc c l ≡ₚ l.
Proof.
  induction l as [|x l IH]; simpl; [done|].
  by rewrite insert_stable_Permutation, IH.
Qed.

Lemma insert_stable_sorted x l :
  StronglySorted (cmp_le c) l → StronglySorted (cmp_le c) (insert_stable c x l).
Proof.
  induction l as [|y l IH]; simpl; [by repeat constructor|].
  intros [Hl Hy]%StronglySorted_inv.
  assert (Hx : c y x ≠ Lt → StronglySorted (cmp_le c) (x :: y :: l)).
  { intros Hne. assert (Hxy : cmp_le c x y).
    { unfold cmp_le. rewrite (wo_sym c y x). by destruct (c y x). }
    repeat constructor; auto. eapply Forall_impl; [done|]; simpl.
    intros z Hz. by eapply cmp_le_trans. }
  destruct (c y x) eqn:E; [by apply Hx| |by apply Hx].
  constructor; [by apply IH|].
  rewrite insert_stable_Permutation. constructor; [|done].
  unfold cmp_le. by rewrite E.
Qed.

Lemma SortStableFunc_sorted l : StronglySorted (cmp_le c) (SortStableFunc c l).
Proof. induction l; simpl; [constructor|]. by apply insert_stable_sorted. Qed.

Lemma elem_of_SortStableFunc x l : x ∈ SortStableFunc c l ↔ x ∈ l.
Proof. by rewrite SortStableFunc_Permutation. Qed.

Lemma length_SortStableFunc l : length (SortStableFunc c l) = length l.
Proof. by rewrite SortStableFunc_Permutation. Qed.

(** Elements of one class of equal elements keep their order. *)
Definition same_as (x y : A) : bool := match c x y with Eq => true | _ => false end.

Lemma insert_stable_class x y l :
  List.filter (same_as x) (insert_stable c y l) = List.filter (same_as x) (y :: l).
Proof.
  induction l as [|z l IH]; simpl; [done|].
  destruct (c z y) eqn:E; [done| |done]. simpl. rewrite IH. simpl.
  unfold same_as. destruct (c x z) eqn:Z, (c x y) eqn:Y; try done.
  pose proof (wo_sym c x y) as S. rewrite Y in S. simpl in S.
  pose proof (wo_lt_eq c _ _ _ E S) as K.
  pose proof (wo_sym c x z) as S'. rewrite Z in S'. simpl in S'. congruence.
Qed.

Lemma SortStableFunc_class x l :
  List.filter (same_as x) (SortStableFunc c l) = List.filter (same_as x) l.
Proof.
  induction l as [|y l IH]; simpl; [done|].
  rewrite insert_stable_class. simpl. by rewrite IH.
Qed.

Lemma same_as_refl x : same_as x x = true.
Proof. unfold same_as. by rewrite (cmp_refl c). Qed.

(** A sorted list whose classes agree with those of [l] is the stable sort. *)
Lemma sorted_classes_unique l1 l2 :
  StronglySorted (cmp_le c) l1 → StronglySorted (cmp_le c) l2 →
  (∀ x, List.filter (same_as x) l1 = List.filter (same_as x) l2) → l1 = l2.
Proof.
  revert l2. induction l1 as [|a l1 IH]; intros [|b l2] S1 S2 F; [done|..].
  - specialize (F b). simpl in F. by rewrite same_as_refl in F.
  - specialize (F a). simpl in F. by rewrite same_as_refl in F.
  - apply StronglySorted_inv in S1 as [S1 H1], S2 as [S2 H2].
    assert (Hab : a = b).
    { pose proof (F a) as Fa. pose proof (F b) as Fb. simpl in Fa, Fb.
      rewrite same_as_refl in Fa, Fb.
      destruct (same_as a b) eqn:E; [by simplify_eq|]. exfalso.
      assert (Hb : b ∈ a :: l1).
      { assert (b ∈ List.filter (same_as b) (a :: l1)) as Hin.
        { simpl. rewrite Fb. left. }
        apply list_elem_of_In, List.filter_In in Hin as [Hin _]. by apply list_elem_of_In. }
      assert (Ha : a ∈ b :: l2).
      { assert (a ∈ List.filter (same_as a) (b :: l2)) as Hin.
        { simpl. rewrite E. rewrite <- Fa. left. }
        apply list_elem_of_In, List.filter_In in Hin as [Hin _]. by apply list_elem_of_In. }
      assert (L1 : cmp_le c a b).
      { apply elem_of_cons in Hb as [->|Hb]; [unfold cmp_le; by rewrite (cmp_refl c)|].
        rewrite Forall_forall in H1. auto. }
      assert (L2 : cmp_le c b a).
      { apply elem_of_cons in Ha as [->|Ha]; [unfold cmp_le; by rewrite (cmp_refl c)|].
        rewrite Forall_forall in H2. auto. }
      unfold same_as, cmp_le in *. rewrite (wo_sym c a b) in L2.
      destruct (c a b); simpl in *; congruence. }
    subst b. f_equal. apply IH; [done..|]. intros x. specialize (F x). simpl in F.
    destruct (same_as x a); by simplify_eq.
Qed.

Lemma sort_stable_unique l l' :
  StronglySorted (cmp_le c) l' →
  (∀ x, List.filter (same_as x) l' = List.filter (same_as x) l) →
  l' = SortStableFunc c l.
Proof.
  intros S F. apply sorted_classes_unique; [done|apply SortStableFunc_sorted|].
  intros x. by rewrite F, SortStableFunc_class.
Qed.
End StableSort.

Lemma insert_stable_ext {A} (c1 c2 : cmp A) x l :
  (∀ a b, c1 a b = c2 a b) → insert_stable c1 x l = insert_stable c2 x l.
Proof. intros E. induction l as [|y l IH]; simpl; [done|]. by rewrite E, IH. Qed.

Lemma SortStableFunc_ext {A} (c1 c2 : cmp A) l :
  (∀ a b, c1 a b = c2 a b) → SortStableFunc c1 l = SortStableFunc c2 l.
Proof.
  intros E. induction l as [|y l IH]; simpl; [done|].
  rewrite IH. by apply insert_stable_ext.
Qed.

#[export] Hint Resolve SortStableFunc_Permutation SortStableFunc_sorted : olp.
