(* ===== verification/Go.v ===== *)
(** * The parts of Go and its standard library the modelled code uses

    Integers at their width, [float64] as IEEE 754 values ([spec_float]) with
    [cmp.Compare]'s total preorder, instants as nanoseconds, strings as byte
    strings with the functions of package [strings], anchored regular expressions
    of the shape the repository uses, and the [slices] functions. *)

From S2P Require Import Prelude.
From Stdlib Require Import SpecFloat Ascii QArith.
From Stdlib Require Strings.Byte.
Local Open Scope Z_scope.

(** ** Machine integers *)

Definition MaxInt64 : Z := 2 ^ 63 - 1.
Definition MinInt64 : Z := - 2 ^ 63.

(** Two's complement wrap-around of a 64-bit result. *)
Definition wrap64 (z : Z) : Z := (z + 2 ^ 63) mod 2 ^ 64 - 2 ^ 63.

#[global] Arguments wrap64 : simpl never.

Definition is_int64 (z : Z) : Prop := MinInt64 <= z <= MaxInt64.

Lemma wrap64_small z : is_int64 z → wrap64 z = z.
Proof.
  unfold is_int64, MinInt64, MaxInt64, wrap64. intros H. rewrite Z.mod_small; lia.
Qed.

#[export] Hint Resolve wrap64_small : olp.

(** Unsigned 64-bit words. *)
Definition wrapU64 (z : Z) : Z := z mod 2 ^ 64.

(** ** Instants

    A [time.Time] is the nanoseconds since January 1 of year 1, UTC, so the zero
    [Time] is 0. [Sub] saturates in Go; it is only compared with constants that
    are far inside the range, where saturation changes nothing. *)

Definition Time : Type := Z.
Definition Duration : Type := Z.
Definition zeroTime : Time := 0.
Definition IsZero (t : Time) : bool := t =? zeroTime.
Definition After (t u : Time) : bool := u <? t.
Definition Before (t u : Time) : bool := t <? u.
Definition Nanosecond : Duration := 1.
Definition Millisecond : Duration := 1000000.
Definition Second : Duration := 1000 * Millisecond.
Definition Minute : Duration := 60 * Second.
Definition Hour : Duration := 60 * Minute.

(** Seconds from the zero [Time] to the Unix epoch. *)
Definition unixToInternal : Z := 62135596800.
Definition Unix (t : Time) : Z := t / Second - unixToInternal.

(** ** float64 *)

Definition float64 : Type := spec_float.

Definition IsNaN (f : float64) : bool := match f with S754_nan => true | _ => false end.

(** [cmp.Compare]: NaN is equal to NaN and less than any other value. *)
Definition CompareFloat : cmp float64 := λ a b,
  if IsNaN a then (if IsNaN b then Eq else Lt)
  else if IsNaN b then Gt
  else match SFcompare a b with Some o => o | None => Eq end.

(** The operators [==], [<] and [<=] of float64. *)
Definition feq : float64 → float64 → bool := SFeqb.
Definition flt : float64 → float64 → bool := SFltb.
Definition fle : float64 → float64 → bool := SFleb.

(** The float64 of a small integer constant. *)
Definition fOfZ (z : Z) : float64 := SpecFloat.binary_normalize 53 1024 z 0 false.
Definition fzero : float64 := S754_zero false.

(** A float's position in the order, as a triple compared lexicographically. *)
Definition fkey (f : float64) : Z * (Z * Z) :=
  match f with
  | S754_nan => (-1, (0, 0))
  | S754_infinity true => (0, (0, 0))
  | S754_finite true m e => (1, (- e, Zneg m))
  | S754_zero _ => (2, (0, 0))
  | S754_finite false m e => (3, (e, Zpos m))
  | S754_infinity false => (4, (0, 0))
  end.

Definition cmp_key : cmp (Z * (Z * Z)) :=
  cmp_then (cmp_on fst Z.compare)
    (cmp_then (cmp_on (λ p, fst (snd p)) Z.compare) (cmp_on (λ p, snd (snd p)) Z.compare)).

Lemma CompareFloat_key a b : CompareFloat a b = cmp_key (fkey a) (fkey b).
Proof.
  unfold CompareFloat, cmp_key, cmp_then, cmp_on.
  destruct a as [[]|[]| |[] m1 e1], b as [[]|[]| |[] m2 e2]; simpl; try done.
  rewrite Z.compare_opp. destruct (Z.compare_spec e2 e1), (Z.compare_spec e1 e2); try done; lia.
Qed.

#[export] Instance wo_CompareFloat : WeakOrder CompareFloat.
Proof.
  assert (WeakOrder (cmp_on fkey cmp_key)) as [S E L LE EL] by (unfold cmp_key; apply _).
  unfold cmp_on in *.
  split; intros *; rewrite ?CompareFloat_key; eauto.
Qed.

Lemma feq_compare a b : feq a b = negb (IsNaN a) && match CompareFloat a b with Eq => true | _ => false end.
Proof.
  unfold feq, SFeqb, CompareFloat. destruct a as [sa|sa| |sa ma ea], b as [sb|sb| |sb mb eb]; simpl;
    try (by destruct sa); try (by destruct sb); done.
Qed.

(** Code that compares values with [!=] before [cmp.Compare] takes two values that are
    not numbers as equal and compares nothing after them: the comparison is that of the
    value, then of the rest unless the value is not a number. *)
Definition number_or_none {A} (k : A → option float64) (a : A) : option A :=
  match k a with Some f => if IsNaN f then None else Some a | None => Some a end.

Definition by_value {A} (k : A → option float64) (c : cmp float64) (rest : cmp A) : cmp A :=
  cmp_then (cmp_on k (cmp_known c)) (cmp_on (number_or_none k) (cmp_known rest)).

#[export] Instance wo_by_value {A} (k : A → option float64) c (rest : cmp A) :
  WeakOrder c → WeakOrder rest → WeakOrder (by_value k c rest).
Proof. intros. unfold by_value. apply _. Qed.

Lemma compare_nan_eq x y : CompareFloat x y = Eq → IsNaN x = IsNaN y.
Proof. unfold CompareFloat. by destruct (IsNaN x), (IsNaN y). Qed.

Lemma by_value_spec {A} (k : A → option float64) (c : cmp float64) (rest : cmp A) a b :
  (∀ x y, c x y = Eq ↔ CompareFloat x y = Eq) →
  by_value k c rest a b =
  match k a, k b with
  | Some x, Some y => if negb (feq x y) then c x y else rest a b
  | Some _, None => Lt
  | None, Some _ => Gt
  | None, None => rest a b
  end.
Proof.
  intros Hc. unfold by_value, cmp_then, cmp_on, number_or_none.
  destruct (k a) as [x|], (k b) as [y|]; simpl; try done.
  rewrite feq_compare. pose proof (Hc x y) as E.
  destruct (c x y) eqn:C.
  - assert (CompareFloat x y = Eq) as Z by by apply E. rewrite Z.
    rewrite <- (compare_nan_eq _ _ Z). by destruct (IsNaN x).
  - destruct (CompareFloat x y); [naive_solver|..]; by rewrite andb_false_r.
  - destruct (CompareFloat x y); [naive_solver|..]; by rewrite andb_false_r.
Qed.

(** ** Strings *)

(** [cmp.Compare] on strings compares bytes. *)
Definition CompareString : cmp string := String.compare.

Lemma string_compare_lt_trans a b c :
  String.compare a b = Lt → String.compare b c = Lt → String.compare a c = Lt.
Proof.
  revert b c. induction a as [|x a IH]; intros [|y b] [|z c]; simpl; try done.
  destruct (Ascii.compare x y) eqn:E1; [|clear IH|done];
    (destruct (Ascii.compare y z) eqn:E2; [| |done]); intros H1 H2.
  - apply Ascii.compare_eq_iff in E1 as ->. rewrite E2. eauto.
  - apply Ascii.compare_eq_iff in E1 as ->. by rewrite E2.
  - apply Ascii.compare_eq_iff in E2 as ->. by rewrite E1.
  - unfold Ascii.compare in *. apply N.compare_lt_iff in E1, E2.
    replace (N_of_ascii x ?= N_of_ascii z)%N with Lt; [done|]. symmetry.
    apply N.compare_lt_iff. by etrans.
Qed.

#[export] Instance wo_CompareString : WeakOrder CompareString.
Proof.
  unfold CompareString. split.
  - intros x y. apply String.compare_antisym.
  - intros x y z ->%String.compare_eq_iff. auto.
  - apply string_compare_lt_trans.
  - by intros x y z H ->%String.compare_eq_iff.
  - by intros x y z ->%String.compare_eq_iff.
Qed.

Definition len (s : string) : Z := Z.of_nat (String.length s).

(** [slices.Contains] and the test of membership in a set kept as a list. *)
Definition Contains {A} `{EqDecision A} (l : list A) (x : A) : bool := bool_decide (x ∈ l).

Lemma Contains_true {A} `{EqDecision A} (l : list A) x : Contains l x = true ↔ x ∈ l.
Proof. apply bool_decide_eq_true. Qed.

Lemma Contains_false {A} `{EqDecision A} (l : list A) x : Contains l x = false ↔ x ∉ l.
Proof. apply bool_decide_eq_false. Qed.

(** [strings.Cut] at the first occurrence of a one-byte separator. *)
Fixpoint Cut (s : string) (sep : ascii) : string * string * bool :=
  match s with
  | EmptyString => (EmptyString, EmptyString, false)
  | String c rest =>
      if Ascii.eqb c sep then (EmptyString, rest, true)
      else match Cut rest sep with (b, a, found) => (String c b, a, found) end
  end.

Lemma Cut_spec s sep b a found :
  Cut s sep = (b, a, found) →
  (if found then s = (b +:+ String sep a)%string else s = b ∧ a = EmptyString) ∧
  ∀ c, c ∈ String.list_ascii_of_string b → c ≠ sep.
Proof.
  revert b a found. induction s as [|c s IH]; intros b a found; simpl.
  { intros [= <- <- <-]. split; [done|]. intros c []%not_elem_of_nil. }
  destruct (Ascii.eqb_spec c sep) as [->|Hne].
  { intros [= <- <- <-]. split; [done|]. intros c' []%not_elem_of_nil. }
  destruct (Cut s sep) as [[b' a'] found'] eqn:E. intros [= <- <- <-].
  destruct (IH _ _ _ eq_refl) as [H1 H2]. split.
  - destruct found'; [|naive_solver]. by rewrite H1.
  - intros c'. simpl. rewrite elem_of_cons. naive_solver.
Qed.

(** Whether every byte of a string satisfies a class. *)
Fixpoint all_bytes (p : ascii → bool) (s : string) : bool :=
  match s with
  | EmptyString => true
  | String c rest => p c && all_bytes p rest
  end.

Definition in_range (lo hi c : ascii) : bool :=
  (N_of_ascii lo <=? N_of_ascii c)%N && (N_of_ascii c <=? N_of_ascii hi)%N.

Definition is_digit : ascii → bool := in_range "0" "9".
Definition is_lower : ascii → bool := in_range "a" "z".
Definition is_upper : ascii → bool := in_range "A" "Z".
Definition one_of (set : string) (c : ascii) : bool :=
  Contains (String.list_ascii_of_string set) c.

(** The anchored expression ^[head][tail]{0,bound}$. *)
Definition matches (head tail : ascii → bool) (bound : Z) (s : string) : bool :=
  match s with
  | EmptyString => false
  | String c rest => head c && all_bytes tail rest && (len rest <=? bound)
  end.

(** The anchored expression ^[cls]{n}$. *)
Definition matches_exactly (cls : ascii → bool) (n : Z) (s : string) : bool :=
  all_bytes cls s && (len s =? n).

(** [strings.Trim(s, cutset) == ""]: every byte is in the cutset. *)
Definition trims_to_empty (s cutset : string) : bool := all_bytes (one_of cutset) s.

#[export] Instance byte_eq_dec : EqDecision Byte.byte := Strings.Byte.byte_eq_dec.

(** The UTF-8 encodings of the white space runes [strings.TrimSpace] removes. *)
Definition space_runes : list (list Byte.byte) :=
  [[Byte.x09]; [Byte.x0a]; [Byte.x0b]; [Byte.x0c]; [Byte.x0d]; [Byte.x20];
   [Byte.xc2; Byte.x85]; [Byte.xc2; Byte.xa0]; [Byte.xe1; Byte.x9a; Byte.x80];
   [Byte.xe2; Byte.x80; Byte.x80]; [Byte.xe2; Byte.x80; Byte.x81]; [Byte.xe2; Byte.x80; Byte.x82];
   [Byte.xe2; Byte.x80; Byte.x83]; [Byte.xe2; Byte.x80; Byte.x84]; [Byte.xe2; Byte.x80; Byte.x85];
   [Byte.xe2; Byte.x80; Byte.x86]; [Byte.xe2; Byte.x80; Byte.x87]; [Byte.xe2; Byte.x80; Byte.x88];
   [Byte.xe2; Byte.x80; Byte.x89]; [Byte.xe2; Byte.x80; Byte.x8a]; [Byte.xe2; Byte.x80; Byte.xa8];
   [Byte.xe2; Byte.x80; Byte.xa9]; [Byte.xe2; Byte.x80; Byte.xaf]; [Byte.xe2; Byte.x81; Byte.x9f];
   [Byte.xe3; Byte.x80; Byte.x80]].

Definition strip_rune (s : list Byte.byte) : option (list Byte.byte) :=
  head (omap (λ r, if bool_decide (r `prefix_of` s) then Some (drop (length r) s) else None)
             space_runes).

Fixpoint trim_space_left (fuel : nat) (s : list Byte.byte) : list Byte.byte :=
  match fuel with
  | O => s
  | S fuel' => match strip_rune s with
               | Some rest => trim_space_left fuel' rest
               | None => s
               end
  end.

(** [strings.TrimSpace(s) == ""]: nothing is left once the leading white space is
    removed; each rune takes at least a byte, so the length bounds the runes. *)
Definition blank (s : string) : bool :=
  let bytes := String.list_byte_of_string s in
  match trim_space_left (length bytes) bytes with [] => true | _ => false end.

(** ** slices *)

(** [slices.IndexFunc]: the first index that satisfies the predicate. *)
Definition IndexFunc {A} (p : A → bool) (l : list A) : option nat := fst <$> list_find p l.

(** The first element that satisfies a predicate. *)
Definition find_first {A} (p : A → bool) (l : list A) : option A := List.find p l.

(** [slices.DeleteFunc] keeps the elements the predicate refuses. *)
Definition DeleteFunc {A} (p : A → bool) (l : list A) : list A :=
  List.filter (λ x, negb (p x)) l.

(** [slices.MaxFunc]: the first of the greatest elements. *)
Definition MaxFunc {A} (c : cmp A) (x : A) (l : list A) : A :=
  foldl (λ m y, match c y m with Gt => y | _ => m end) x l.

(** [slices.MinFunc]: the first of the least elements. *)
Definition MinFunc {A} (c : cmp A) (x : A) (l : list A) : A :=
  foldl (λ m y, match c y m with Lt => y | _ => m end) x l.

(** Whether a list of strings has no duplicate, as the code checks with a seen
    set. *)
Fixpoint nodup_strings (seen : list string) (l : list string) : bool :=
  match l with
  | [] => true
  | x :: l' => negb (Contains seen x) && nodup_strings (x :: seen) l'
  end.

Lemma nodup_strings_spec seen l :
  nodup_strings seen l = true ↔ NoDup l ∧ ∀ x, x ∈ l → x ∉ seen.
Proof.
  revert seen. induction l as [|x l IH]; intros seen; simpl.
  { split; [|done]. intros _. split; [constructor|]. by intros x ?%elem_of_nil. }
  rewrite andb_true_iff, negb_true_iff, Contains_false, IH, NoDup_cons.
  set_solver.
Qed.

Section MaxMin.
Context {A : Type} (c : cmp A) `{!WeakOrder c}.

Lemma MaxFunc_elem x l : MaxFunc c x l ∈ x :: l.
Proof.
  unfold MaxFunc. revert x. induction l as [|y l IH]; intros x; simpl; [left|].
  specialize (IH (match c y x with Gt => y | _ => x end)).
  apply elem_of_cons in IH as [->|H]; [|set_solver].
  destruct (c y x); set_solver.
Qed.

Lemma MaxFunc_ge_acc x l : cmp_le c x (MaxFunc c x l).
Proof.
  unfold MaxFunc. revert x. induction l as [|y l IH]; intros x; simpl.
  { unfold cmp_le. by rewrite (cmp_refl c). }
  eapply (cmp_le_trans c); [|apply IH].
  destruct (c y x) eqn:E; unfold cmp_le; rewrite ?(cmp_refl c); try done.
  rewrite (cmp_gt_lt c) in E. by rewrite E.
Qed.

Lemma MaxFunc_ge x l y : y ∈ x :: l → cmp_le c y (MaxFunc c x l).
Proof.
  unfold MaxFunc. revert x. induction l as [|z l IH]; intros x; simpl.
  { intros ->%list_elem_of_singleton. unfold cmp_le. by rewrite (cmp_refl c). }
  intros H. assert (y = x ∨ y = z ∨ y ∈ l) as [->|[->|H']] by set_solver.
  - eapply (cmp_le_trans c); [|apply MaxFunc_ge_acc].
    destruct (c z x) eqn:E; unfold cmp_le; rewrite ?(cmp_refl c); try done.
    rewrite (cmp_gt_lt c) in E. by rewrite E.
  - eapply (cmp_le_trans c); [|apply MaxFunc_ge_acc].
    destruct (c z x) eqn:E; unfold cmp_le; rewrite ?(cmp_refl c), ?E; done.
  - apply IH. set_solver.
Qed.
End MaxMin.

#[export] Hint Resolve MaxFunc_elem MaxFunc_ge : olp.
