(* ===== verification/Amount.v ===== *)
(** * Decimal amounts and exact costs

    [internal/pricingpolicy/policy.go] (the grammar of an amount) and the
    head of [internal/usage/pricing_cost.go]: a cost is a count of 10^-12 units,
    parsed from and printed as decimal text. *)

From S2P Require Import Prelude Go.
From Stdlib Require Import Ascii.
Local Open Scope Z_scope.

(** ** pricingpolicy *)

Definition decimalDigits (value : string) : bool := all_bytes is_digit value.

Definition ValidAmount (value : string) : bool :=
  match Cut value "." with
  | (integer, fraction, hasFraction) =>
      if (len integer <? 1) || (len integer >? 12) || negb (decimalDigits integer) then false
      else if hasFraction &&
              ((len fraction <? 1) || (len fraction >? 12) || negb (decimalDigits fraction))
      then false
      else true
  end.

Definition ValidCurrency (value : string) : bool := matches_exactly is_upper 3 value.

(** ^[1-9][0-9]{0,4}g$ *)
Definition ValidContainerTier (value : string) : bool :=
  match String.list_ascii_of_string value with
  | [] => false
  | c :: rest =>
      in_range "1" "9" c &&
      match last rest with
      | Some g => Ascii.eqb g "g" && forallb is_digit (removelast rest) &&
                  (Z.of_nat (length rest) <=? 5)
      | None => false
      end
  end.

Definition dval (c : ascii) : Z := Z.of_N (N_of_ascii c) - 48.

(** HH:MM as minutes of the day; 24:00 only where a period may end there. *)
Definition WindowMinutes (value : string) (allowEndOfDay : bool) : option Z :=
  match value with
  | String a (String b (String s (String c (String d EmptyString)))) =>
      if negb (Ascii.eqb s ":") || negb (is_digit a) || negb (is_digit b) ||
         negb (is_digit c) || negb (is_digit d) then None
      else
        let hours := dval a * 10 + dval b in
        let minutes := dval c * 10 + dval d in
        if allowEndOfDay && (hours =? 24) && (minutes =? 0) then Some (24 * 60)
        else if (hours >? 23) || (minutes >? 59) then None
        else Some (hours * 60 + minutes)
  | _ => None
  end.

(** ** Decimal text of integers

    [big.Int.SetString] in base ten and [big.Int.String] of an integer that is not
    negative. *)

Fixpoint dec_from (acc : Z) (s : string) : Z :=
  match s with
  | EmptyString => acc
  | String c rest => dec_from (10 * acc + dval c) rest
  end.

Definition dec_value : string → Z := dec_from 0.

Definition digit (d : Z) : ascii := ascii_of_N (Z.to_N (48 + d)).

Fixpoint dec_digits (fuel : nat) (n : Z) (acc : string) : string :=
  match fuel with
  | O => acc
  | S fuel' =>
      let acc' := String (digit (n mod 10)) acc in
      if n <? 10 then acc' else dec_digits fuel' (n / 10) acc'
  end.

(** An integer has no more decimal digits than binary ones. *)
Definition big_String (n : Z) : string := dec_digits (S (Z.to_nat (Z.log2 n))) n EmptyString.

Definition zeros (n : nat) : string := Nat.iter n (String "0") EmptyString.

Fixpoint stake (n : nat) (s : string) : string :=
  match n, s with
  | S n', String c rest => String c (stake n' rest)
  | _, _ => EmptyString
  end.

Fixpoint sdrop (n : nat) (s : string) : string :=
  match n, s with
  | O, _ => s
  | S n', String _ rest => sdrop n' rest
  | _, EmptyString => EmptyString
  end.

(** [strings.TrimRight(s, "0")]. *)
Fixpoint trim_right_zeros (s : string) : string :=
  match s with
  | EmptyString => EmptyString
  | String c rest =>
      match trim_right_zeros rest with
      | EmptyString => if Ascii.eqb c "0" then EmptyString else String c EmptyString
      | rest' => String c rest'
      end
  end.

(** ** Costs *)

Definition costDigits : nat := 12.
Definition mediaDigits : nat := 6.
Definition quotientDigits : nat := costDigits + 6.
Definition costUnit : Z := 10 ^ 12.
Definition perMillion : Z := 1000000.

(** The largest value numeric(24,12) holds. *)
Definition maxCostUnits : Z := 10 ^ 24 - 1.

(** [units] is a pointer: the zero [Cost] has none and is no cost. *)
Record Cost := mkCost { units : option Z }.

Definition MaxCost : Cost := mkCost (Some maxCostUnits).
Definition zeroCost : Cost := mkCost None.

Definition cost_units (c : Cost) : Z := match units c with Some u => u | None => 0 end.

(** A non-negative decimal in units of 10^-digits; more fractional digits than the
    column holds are refused rather than rounded. *)
Definition scaledDecimal (text : string) (digits : nat) : option Z :=
  let text := match text with String "+" rest => rest | _ => text end in
  match Cut text "." with
  | (integer, fraction, hasPoint) =>
      if String.eqb integer "" || (hasPoint && String.eqb fraction "") ||
         (len fraction >? Z.of_nat digits) then None
      else
        let whole := (integer +:+ fraction +:+ zeros (digits - String.length fraction))%string in
        if decimalDigits whole then Some (dec_value whole) else None
  end.

Definition ParseCost (text : string) : option Cost :=
  match scaledDecimal text costDigits with
  | None => None
  | Some u => if u >? maxCostUnits then None else Some (mkCost (Some u))
  end.

Definition Cost_IsZero (c : Cost) : bool :=
  match units c with None => true | Some u => Z.sgn u =? 0 end.

Definition clampCost (u : Z) : Cost :=
  if u >? maxCostUnits then MaxCost else mkCost (Some u).

Definition Cost_Add (c other : Cost) : Cost :=
  if Cost_IsZero other then c
  else if Cost_IsZero c then other
  else clampCost (cost_units c + cost_units other).

Definition Cost_Cmp (c other : Cost) : comparison := cost_units c ?= cost_units other.

Definition Cost_String (c : Cost) : string :=
  if Cost_IsZero c then "0"
  else
    let digits := big_String (cost_units c) in
    let digits :=
      if Nat.leb (String.length digits) costDigits
      then (zeros (costDigits + 1 - String.length digits) +:+ digits)%string else digits in
    let cut := (String.length digits - costDigits)%nat in
    let integer := stake cut digits in
    let fraction := trim_right_zeros (sdrop cut digits) in
    if String.eqb fraction "" then integer else (integer +:+ "." +:+ fraction)%string.

(** ** Lemmas on decimal text *)

Lemma append_cons c (a b : string) : String c a +:+ b = String c (a +:+ b).
Proof. done. Qed.

Lemma append_nil (a : string) : "" +:+ a = a.
Proof. done. Qed.

Lemma dec_from_app acc a b : dec_from acc (a +:+ b) = dec_from (dec_from acc a) b.
Proof. revert acc. induction a as [|c a IH]; intros acc; [done|]. rewrite append_cons. apply IH. Qed.

Lemma dec_from_acc acc s : dec_from acc s = acc * 10 ^ len s + dec_value s.
Proof.
  unfold dec_value, len. revert acc. induction s as [|c s IH]; intros acc; cbn [dec_from String.length]; [simpl; lia|].
  rewrite IH, (IH (10 * 0 + dval c)). replace (Z.of_nat (S (String.length s)))
    with (Z.succ (Z.of_nat (String.length s))) by lia.
  rewrite Z.pow_succ_r by lia. lia.
Qed.

Lemma dec_value_app a b : dec_value (a +:+ b) = dec_value a * 10 ^ len b + dec_value b.
Proof. unfold dec_value. rewrite dec_from_app. apply dec_from_acc. Qed.

Lemma length_append a b : String.length (a +:+ b) = (String.length a + String.length b)%nat.
Proof. induction a as [|c a IH]; [done|]. rewrite append_cons. simpl. by rewrite IH. Qed.

Lemma len_append a b : len (a +:+ b) = len a + len b.
Proof. unfold len. rewrite length_append. lia. Qed.

Lemma append_assoc (a b c : string) : (a +:+ b) +:+ c = a +:+ b +:+ c.
Proof. induction a as [|c' a IH]; [done|]. rewrite !append_cons. by rewrite IH. Qed.

Lemma append_nil_r (a : string) : a +:+ "" = a.
Proof. induction a as [|c' a IH]; [done|]. rewrite !append_cons. by rewrite IH. Qed.

Lemma length_zeros n : String.length (zeros n) = n.
Proof. induction n; simpl; auto. Qed.

Lemma dec_value_zeros n : dec_value (zeros n) = 0.
Proof. unfold dec_value. induction n; simpl; auto. Qed.

Lemma all_bytes_app p a b : all_bytes p (a +:+ b) = all_bytes p a && all_bytes p b.
Proof. induction a as [|c a IH]; [done|]. rewrite append_cons. simpl. rewrite IH. apply andb_assoc. Qed.

Lemma decimalDigits_zeros n : decimalDigits (zeros n) = true.
Proof. unfold decimalDigits. induction n; simpl; auto. Qed.

Lemma stake_sdrop n s : stake n s +:+ sdrop n s = s.
Proof. revert s. induction n as [|n IH]; intros []; simpl; auto. by rewrite append_cons, IH. Qed.

Lemma length_stake n s : String.length (stake n s) = Nat.min n (String.length s).
Proof. revert s. induction n; intros []; simpl; auto. Qed.

Lemma length_sdrop n s : String.length (sdrop n s) = (String.length s - n)%nat.
Proof. revert s. induction n; intros []; simpl; auto. Qed.

Lemma zeros_snoc n : zeros n +:+ "0" = String "0" (zeros n).
Proof. induction n as [|n IH]; simpl; [done|]. by rewrite append_cons, IH. Qed.

Lemma trim_right_zeros_spec s :
  s = trim_right_zeros s +:+ zeros (String.length s - String.length (trim_right_zeros s)).
Proof.
  induction s as [|c s IH]; simpl; [done|].
  destruct (trim_right_zeros s) as [|c' s'] eqn:E; simpl in *.
  - rewrite append_nil, Nat.sub_0_r in IH.
    destruct (Ascii.eqb_spec c "0") as [->|]; simpl; rewrite ?append_cons, ?append_nil.
    + change (String "0" s = String "0" (zeros (String.length s))). congruence.
    + rewrite Nat.sub_0_r. congruence.
  - rewrite !append_cons in *. simpl in *. congruence.
Qed.

Lemma digit_spec d : 0 <= d < 10 → dval (digit d) = d ∧ is_digit (digit d) = true.
Proof.
  intros H. assert (d ∈ seqZ 0 10) as Hin by (apply elem_of_seqZ; lia).
  revert d Hin H. apply (Forall_forall (λ d, 0 <= d < 10 → dval (digit d) = d ∧ is_digit (digit d) = true)).
  repeat constructor.
Qed.

Lemma log2_div10 n : 10 <= n → 0 <= Z.log2 (n / 10) < Z.log2 n.
Proof.
  intros H. split; [apply Z.log2_nonneg|]. apply Z.log2_lt_pow2; [apply Z.div_str_pos; lia|].
  pose proof (Z.log2_spec n ltac:(lia)) as [_ Hlt]. rewrite Z.pow_succ_r in Hlt by apply Z.log2_nonneg.
  apply Z.div_lt_upper_bound; lia.
Qed.

Lemma dec_digits_spec fuel n acc :
  0 <= n → (Z.to_nat (Z.log2 n) < fuel)%nat →
  ∃ s, dec_digits fuel n acc = s +:+ acc ∧ dec_value s = n ∧
       decimalDigits s = true ∧ s ≠ "".
Proof.
  revert n acc. induction fuel as [|fuel IH]; intros n acc Hn Hf; [lia|]. simpl.
  destruct (digit_spec (n mod 10)) as [Hd Hi]; [apply Z.mod_pos_bound; lia|].
  destruct (Z.ltb_spec n 10).
  - exists (String (digit (n mod 10)) ""). repeat split; [|by unfold decimalDigits; simpl; rewrite Hi|done].
    unfold dec_value; simpl. rewrite Hd, Z.mod_small by lia. lia.
  - destruct (IH (n / 10) (String (digit (n mod 10)) acc)) as (s & E & V & D & N).
    + apply Z.div_pos; lia.
    + pose proof (log2_div10 n). lia.
    + exists (s +:+ String (digit (n mod 10)) ""). rewrite append_assoc.
      repeat split; [done| | |by destruct s].
      * rewrite dec_value_app, V. unfold dec_value, len; simpl. rewrite Hd.
        pose proof (Z.div_mod n 10). lia.
      * unfold decimalDigits in *. rewrite all_bytes_app, D. simpl. by rewrite Hi.
Qed.

Lemma big_String_spec n :
  0 <= n → dec_value (big_String n) = n ∧ decimalDigits (big_String n) = true ∧ big_String n ≠ "".
Proof.
  intros Hn. unfold big_String.
  destruct (dec_digits_spec (S (Z.to_nat (Z.log2 n))) n "") as (s & -> & V & D & N); [done|lia|].
  by rewrite append_nil_r.
Qed.

Lemma Cut_digits_none s : decimalDigits s = true → Cut s "." = (s, "", false).
Proof.
  unfold decimalDigits. induction s as [|c s IH]; simpl; [done|]. intros [Hc Hs]%andb_true_iff.
  destruct (Ascii.eqb_spec c ".") as [->|]; [done|]. by rewrite IH.
Qed.

Lemma Cut_digits_point a b : decimalDigits a = true → Cut (a +:+ String "." b) "." = (a, b, true).
Proof.
  unfold decimalDigits. induction a as [|c a IH]; [done|]. rewrite append_cons. simpl. intros [Hc Hs]%andb_true_iff.
  destruct (Ascii.eqb_spec c ".") as [->|]; [done|]. by rewrite IH.
Qed.

Lemma digits_no_plus s : decimalDigits s = true → ∀ r, s ≠ String "+" r.
Proof. unfold decimalDigits. intros H r ->. by simpl in H. Qed.

Lemma scaledDecimal_text integer fraction n text :
  decimalDigits integer = true → decimalDigits fraction = true → integer ≠ "" →
  (String.length fraction ≤ n)%nat →
  text = (if String.eqb fraction "" then integer else integer +:+ "." +:+ fraction) →
  scaledDecimal text n =
    Some (dec_value (integer +:+ fraction +:+ zeros (n - String.length fraction))).
Proof.
  intros Hi Hf Hne Hlen ->. unfold scaledDecimal.
  assert (Hplus : ∀ s, match integer +:+ s with String "+" rest => rest | _ => integer +:+ s end
                       = integer +:+ s).
  { intros s. destruct integer as [|c i]; [done|]. rewrite append_cons.
    pose proof (digits_no_plus _ Hi i) as Hc.
    destruct c as [[] [] [] [] [] [] [] []]; try done. }
  assert (Hw : decimalDigits (integer +:+ fraction +:+ zeros (n - String.length fraction)) = true).
  { unfold decimalDigits in *. rewrite !all_bytes_app, Hi, Hf. simpl.
    apply decimalDigits_zeros. }
  destruct (String.eqb_spec fraction "") as [->|Hfne].
  - specialize (Hplus ""). rewrite append_nil_r in Hplus. rewrite Hplus, Cut_digits_none by done.
    destruct (String.eqb_spec integer ""); [done|]. simpl orb. cbv iota.
    destruct (Z.gtb_spec (len "") (Z.of_nat n)) as [Hgt|_]; [unfold len in Hgt; simpl in Hgt; lia|].
    cbv zeta. by rewrite Hw.
  - rewrite Hplus. change ("." +:+ fraction) with (String "." fraction).
    rewrite Cut_digits_point by done.
    destruct (String.eqb_spec integer ""); [done|].
    destruct (String.eqb_spec fraction ""); [done|]. simpl orb.
    destruct (Z.gtb_spec (len fraction) (Z.of_nat n)) as [Hgt|_]; [unfold len in Hgt; lia|].
    cbv zeta. by rewrite Hw.
Qed.

(** The digits of a positive cost, split at the point. *)
Lemma Cost_String_split u :
  0 < u → ∃ integer fraction,
    Cost_String (mkCost (Some u)) =
      (if String.eqb fraction "" then integer else integer +:+ "." +:+ fraction) ∧
    decimalDigits integer = true ∧ decimalDigits fraction = true ∧ integer ≠ "" ∧
    (String.length fraction ≤ costDigits)%nat ∧
    dec_value (integer +:+ fraction +:+ zeros (costDigits - String.length fraction)) = u.
Proof.
  intros Hu. unfold Cost_String, Cost_IsZero; cbn [units]. destruct (Z.eqb_spec (Z.sgn u) 0); [lia|].
  unfold cost_units; cbn [units]. cbv zeta.
  destruct (big_String_spec u ltac:(lia)) as (V & D & N).
  set (b := big_String u) in *. clearbody b.
  set (p := if Nat.leb (String.length b) costDigits
            then zeros (costDigits + 1 - String.length b) +:+ b else b).
  assert (Hp : dec_value p = u ∧ decimalDigits p = true ∧ (costDigits < String.length p)%nat).
  { unfold p. destruct (Nat.leb_spec (String.length b) costDigits); [|done].
    rewrite dec_value_app, dec_value_zeros, length_append, length_zeros.
    unfold decimalDigits in *. rewrite all_bytes_app, D.
    pose proof (decimalDigits_zeros (costDigits + 1 - String.length b)) as Hz.
    unfold decimalDigits in Hz. rewrite Hz. repeat split; lia. }
  clearbody p. destruct Hp as (Vp & Dp & Lp).
  set (cut := (String.length p - costDigits)%nat).
  assert (Hs : stake cut p +:+ sdrop cut p = p) by apply stake_sdrop.
  pose proof (trim_right_zeros_spec (sdrop cut p)) as Ht.
  set (f := trim_right_zeros (sdrop cut p)) in *.
  rewrite length_sdrop in Ht. replace (String.length p - cut)%nat with costDigits in Ht by lia.
  assert (Hd : decimalDigits (stake cut p) = true ∧ decimalDigits (sdrop cut p) = true).
  { unfold decimalDigits in *. rewrite <- Hs, all_bytes_app in Dp. by apply andb_true_iff. }
  exists (stake cut p), f. split; [done|]. split; [tauto|]. split; [|split; [|split]].
  - destruct Hd as [_ Hd]. unfold decimalDigits in *. rewrite Ht, all_bytes_app in Hd.
    by apply andb_true_iff in Hd as [? _].
  - intros E. apply (f_equal String.length) in E. rewrite length_stake in E. simpl in E. lia.
  - apply (f_equal String.length) in Ht. rewrite length_sdrop, length_append, length_zeros in Ht. lia.
  - by rewrite <- Ht, Hs.
Qed.

Lemma ParseCost_Cost_String u :
  0 <= u <= maxCostUnits →
  ParseCost (Cost_String (mkCost (Some u))) = Some (mkCost (Some u)).
Proof.
  intros Hu. destruct (decide (u = 0)) as [->|Hne]; [done|].
  destruct (Cost_String_split u ltac:(lia)) as (i & f & E & Hi & Hf & Hne' & Hl & V).
  unfold ParseCost. rewrite (scaledDecimal_text i f costDigits _ Hi Hf Hne' Hl E), V.
  destruct (Z.gtb_spec u maxCostUnits); [lia|done].
Qed.

(** A string of digits is below the power of ten of its length. *)
Lemma dec_value_bound s : decimalDigits s = true → 0 <= dec_value s < 10 ^ len s.
Proof.
  unfold decimalDigits. induction s as [|c s IH]; [unfold dec_value, len; simpl; lia|].
  cbn [all_bytes]. intros [Hc Hs]%andb_true_iff. specialize (IH Hs).
  change (String c s) with (String c "" +:+ s). rewrite dec_value_app, len_append.
  rewrite Z.pow_add_r by (unfold len; lia).
  assert (0 <= dval c < 10).
  { unfold is_digit, in_range, dval in *. apply andb_true_iff in Hc as [H1 H2].
    apply N.leb_le in H1, H2. simpl in H1, H2. lia. }
  assert (dec_value (String c "") = dval c) as -> by (unfold dec_value; cbn [dec_from]; lia).
  assert (len (String c "") = 1) as -> by done.
  rewrite Z.pow_1_r. nia.
Qed.

Lemma ValidAmount_scaled s :
  ValidAmount s = true → ∃ u, scaledDecimal s costDigits = Some u ∧ 0 <= u <= maxCostUnits.
Proof.
  unfold ValidAmount. destruct (Cut s ".") as [[i f] p] eqn:E.
  destruct (Cut_spec _ _ _ _ _ E) as [Hs _].
  destruct ((len i <? 1) || (len i >? 12) || negb (decimalDigits i)) eqn:Ei; [done|].
  apply orb_false_iff in Ei as [[Hl1 Hl2]%orb_false_iff Hd%negb_false_iff].
  rewrite Z.gtb_ltb in Hl2. bool_to_prop. intros Hf.
  assert (Hfr : decimalDigits f = true ∧ len f <= 12 ∧ (p = true → f ≠ "") ∧ (p = false → f = "")).
  { destruct p; simpl in Hf.
    - destruct ((len f <? 1) || (len f >? 12) || negb (decimalDigits f)) eqn:Ef; [done|].
      apply orb_false_iff in Ef as [[H1 H2]%orb_false_iff H3%negb_false_iff].
      rewrite Z.gtb_ltb in H2. bool_to_prop. repeat split; [done|lia| |done].
      intros _ ->. by unfold len in H1.
    - destruct Hs as [_ ->]. by unfold len. }
  destruct Hfr as (Df & Lf & Hp1 & Hp2).
  assert (Hlen : (String.length f ≤ costDigits)%nat) by (unfold len, costDigits in *; lia).
  assert (Hne : i ≠ "") by (intros ->; unfold len in *; simpl in *; lia).
  assert (Ht : s = if String.eqb f "" then i else i +:+ "." +:+ f).
  { destruct p.
    - destruct (String.eqb_spec f "") as [->|]; [by destruct Hp1|]. done.
    - rewrite (Hp2 eq_refl). simpl. tauto. }
  rewrite (scaledDecimal_text i f costDigits s Hd Df Hne Hlen Ht). eexists; split; [done|].
  assert (Dw : decimalDigits (i +:+ f +:+ zeros (costDigits - String.length f)) = true).
  { unfold decimalDigits in *. rewrite !all_bytes_app, Hd, Df. apply decimalDigits_zeros. }
  pose proof (dec_value_bound _ Dw) as Hb. rewrite !len_append in Hb.
  assert (len (zeros (costDigits - String.length f)) = 12 - len f) as Hz
    by (unfold len, costDigits in *; rewrite length_zeros; lia).
  rewrite Hz in Hb.
  assert (10 ^ (len i + (len f + (12 - len f))) <= 10 ^ 24) by (apply Z.pow_le_mono_r; lia).
  unfold maxCostUnits. lia.
Qed.

Lemma clampCost_units u : cost_units (clampCost u) = Z.min u maxCostUnits.
Proof. unfold clampCost. destruct (Z.gtb_spec u maxCostUnits); unfold MaxCost, cost_units; cbn [units]; lia. Qed.

Lemma Cost_Add_units a b :
  0 <= cost_units a <= maxCostUnits → 0 <= cost_units b <= maxCostUnits →
  cost_units (Cost_Add a b) = Z.min (cost_units a + cost_units b) maxCostUnits.
Proof.
  destruct a as [[a|]], b as [[b|]]; unfold Cost_Add, Cost_IsZero, cost_units; cbn [units]; intros.
  - destruct (Z.eqb_spec (Z.sgn b) 0); [cbn [units]; lia|].
    destruct (Z.eqb_spec (Z.sgn a) 0); [cbn [units]; lia|]. apply clampCost_units.
  - lia.
  - destruct (Z.eqb_spec (Z.sgn b) 0); cbn [units]; lia.
  - unfold maxCostUnits in *. lia.
Qed.

Lemma dval_digit c : is_digit c = true → 0 <= dval c < 10.
Proof.
  unfold is_digit, in_range, dval. intros [H1 H2]%andb_true_iff.
  apply N.leb_le in H1, H2. simpl in H1, H2. lia.
Qed.

Lemma WindowMinutes_bound s eod m : WindowMinutes s eod = Some m → 0 <= m <= 24 * 60.
Proof.
  unfold WindowMinutes. intros H.
  destruct s as [|a [|b [|c [|d [|e [|]]]]]]; try done. case_in H; [done|].
  split_bools. cbv zeta in H. case_in H; [simplify_eq; lia|].
  case_in H; [done|]. rewrite !Z.gtb_ltb in *. split_bools. bool_to_prop. simplify_eq.
  repeat match goal with H : is_digit _ = true |- _ => apply dval_digit in H end. lia.
Qed.

#[export] Hint Resolve ParseCost_Cost_String : olp.

(** An amount of money survives being written out and read back, and sums are
    exact up to the ceiling: the text of any cost from zero to the largest the
    platform represents parses to that cost, so two costs with the same text are the
    same cost, and the text of the sum of two costs reads back as the sum of their
    units, or as the largest cost where the sum exceeds it. *)
Theorem cost_text_roundtrip a b :
  0 <= a <= maxCostUnits → 0 <= b <= maxCostUnits →
  let A := mkCost (Some a) in
  let B := mkCost (Some b) in
  ParseCost (Cost_String A) = Some A ∧
  (Cost_String A = Cost_String B → a = b) ∧
  ParseCost (Cost_String (Cost_Add A B)) = Some (mkCost (Some (Z.min (a + b) maxCostUnits))).
Proof.
  intros Ha Hb A B. split; [by apply ParseCost_Cost_String|]. split.
  - intros E. pose proof (ParseCost_Cost_String a Ha) as Pa. pose proof (ParseCost_Cost_String b Hb) as Pb.
    fold A in Pa. fold B in Pb. rewrite E, Pb in Pa. by injection Pa.
  - pose proof (Cost_Add_units A B Ha Hb) as U.
    destruct (Cost_Add A B) as [[u|]] eqn:E.
    + unfold cost_units in U. cbn in U. subst u. apply ParseCost_Cost_String. lia.
    + exfalso. unfold Cost_Add, clampCost in E. by repeat case_match.
Qed.

(** Three tenths of a unit and seven tenths, written and summed. *)
Lemma cost_text_roundtrip_witness :
  ParseCost (Cost_String (Cost_Add (mkCost (Some 300000000000)) (mkCost (Some 700000000000)))) =
    Some (mkCost (Some (Z.min (300000000000 + 700000000000) maxCostUnits))) ∧
  Cost_String (mkCost (Some 300000000000)) ≠ "0".
Proof.
  split; [|by vm_compute].
  apply (cost_text_roundtrip 300000000000 700000000000); unfold maxCostUnits; lia.
Defined.
