(* ===== verification/Policy.v ===== *)
(** * Routing policies

    [internal/routing/policy.go], [internal/routing/validation.go] and
    [internal/priority/priority.go]: the preferences a scope declares, their
    validation, and the resolution of the installation, route, key and request
    scopes into one effective policy. JSON decoding, the digest of a policy and
    [big.Rat.SetString] are library code and enter as parameters. *)

From S2P Require Import Prelude Go Amount.
From Stdlib Require Import Ascii QArith.
Local Open Scope Z_scope.
Local Open Scope olp_scope.

(** ** Priorities *)

Record Class_ := mkClass { Class_Name : string; Class_Weight : Z }.

Definition Classes : list Class_ :=
  [mkClass "critical" 8; mkClass "high" 4; mkClass "normal" 2; mkClass "low" 1].

(** The position of a class, -1 for a name that is none. *)
Definition Rank (name : string) : Z :=
  match IndexFunc (λ c, String.eqb (Class_Name c) name) Classes with
  | Some i => Z.of_nat i
  | None => -1
  end.

(** ** Data *)

Record ValidationError := invalidValue { Field : string; Message : string }.

Record PriceCeiling := mkPriceCeiling {
  Ceiling_Input : option string;
  Ceiling_Output : option string;
  Ceiling_Unit : option string;
}.

(** [Only], [Order], [Regions] and [Quantizations] distinguish nil from empty;
    [MaxPrice] is the raw JSON of a ceiling, empty when absent. *)
Record Preferences := mkPreferences {
  P_Strategy : option string;
  P_AllowFallbacks : option bool;
  P_Order : option (list string);
  P_PreferredMaxLatencyMS : option Z;
  P_PreferredMinThroughput : option Z;
  P_DenyDataCollection : option bool;
  P_Ignore : list string;
  P_MaxPrice : string;
  P_MaxCost : option string;
  P_Only : option (list string);
  P_Quantizations : option (list string);
  P_Regions : option (list string);
  P_RequireParameters : option bool;
  P_RequireZeroDataRetention : option bool;
  P_MaxAttempts : option Z;
  P_Priority : option string;
}.

Definition noPreferences : Preferences :=
  mkPreferences None None None None None None [] "" None None None None None None None None.

Record Policy := mkPolicy {
  Pol_AllowedStrategies : option (list string);
  Pol_Constraints : Preferences;
  Pol_Defaults : Preferences;
}.

Record EffectivePolicy := mkEffective {
  E_Strategy : string;
  E_Preferences : Preferences;
  E_Constraints : list Preferences;
  E_Allowed : list string;
  E_Digest : string;
  E_MaxCost : option string;
}.

Definition strategyWeighted : string := "weighted".
Definition strategyPrice : string := "price".
Definition strategyLatency : string := "latency".
Definition strategyThroughput : string := "throughput".
Definition strategyCapacity : string := "capacity".

Definition strategies : list string :=
  [strategyWeighted; strategyPrice; strategyLatency; strategyThroughput; strategyCapacity].

(** ** Library code the policies rely on *)

(** [big.Rat.SetString]. Its law is the documented value of a plain decimal. *)
Class RatLib := Rat_SetString : string → option Q.

Class RatLaws `{RatLib} : Prop := {
  rat_amount : ∀ s u, ValidAmount s = true → scaledDecimal s costDigits = Some u →
    ∃ q, Rat_SetString s = Some q ∧ (q == inject_Z u / inject_Z costUnit)%Q;
}.

(** [encoding/json] on a price ceiling: a strict decoder that refuses unknown
    fields and trailing data, and the lenient [json.Unmarshal], which leaves the
    fields it could not read unset. *)
Class CeilingJSON := {
  ceiling_strict : string → option PriceCeiling;
  ceiling_unmarshal : string → PriceCeiling;
}.

(** The SHA-256 digest of the scopes' JSON. *)
Class PolicyDigest :=
  policy_digest : option Policy → option Policy → option Policy → option Preferences → string.

(** [uuid.Parse] succeeds. *)
Class UUIDLib := {
  uuid : Type;
  uuid_Parse : string → option uuid;
  uuid_String : uuid → string;
  uuid_bytes : uuid → list Byte.byte;
}.

(** ** Selectors *)

Definition required (v : option bool) : bool := match v with Some b => b | None => false end.

Definition SelectorMatches (selector id vendor : string) : bool :=
  String.eqb selector ("provider:" +:+ id) || String.eqb selector ("vendor:" +:+ vendor).

Definition factAllowed (allowed : option (list string)) (fact : option string) : bool :=
  match allowed with
  | None => true
  | Some l => match fact with Some f => Contains l f | None => false end
  end.

Section Validation.
Context `{UUIDLib, CeilingJSON}.

(** "" when the selector is vendor:<catalog-id> or provider:<uuid>. *)
Definition selectorProblem (selector : string) : string :=
  match Cut selector ":" with
  | (kind, value, ok) =>
      if negb ok || String.eqb value "" || (len value >? 200)
      then "Selectors must be vendor:<catalog-id> or provider:<uuid>"
      else if String.eqb kind "provider" then
        match uuid_Parse value with None => "Invalid provider selector" | Some _ => "" end
      else if String.eqb kind "vendor" then
        if all_bytes (λ ch, is_lower ch || is_digit ch || one_of "-_" ch) value then ""
        else "Invalid vendor selector"
      else "Unknown selector kind"
  end.

Definition ValidSelector (selector : string) : bool := String.eqb (selectorProblem selector) "".

Definition Preferences_Validate (p : Preferences) (field : string) : option ValidationError :=
  let invalid message := invalidValue field message in
  refuse_if (opt_test (P_Strategy p) (λ s, negb (Contains strategies s)))
    (invalid "Unknown routing strategy") <|>
  refuse_if (opt_test (P_PreferredMaxLatencyMS p) (λ v, v <? 0) ||
             opt_test (P_PreferredMinThroughput p) (λ v, v <? 0))
    (invalid "Performance preferences must be non-negative") <|>
  refuse_if (opt_test (P_MaxAttempts p) (λ n, (n <? 1) || (n >? 32767)))
    (invalid "max_attempts must be positive and bounded") <|>
  refuse_if (opt_test (P_Priority p) (λ s, Rank s <? 0))
    (invalid "priority must be critical, high, normal or low") <|>
  first_error (λ selectors,
      refuse_if (Z.of_nat (length selectors) >? 128) (invalid "Use at most 128 selectors") <|>
      first_error (λ selector,
          let problem := selectorProblem selector in
          refuse_if (negb (String.eqb problem "")) (invalid problem)) selectors)
    [default [] (P_Only p); P_Ignore p; default [] (P_Order p)] <|>
  first_error (λ values,
      refuse_if (Z.of_nat (length values) >? 128) (invalid "Use at most 128 fact constraints") <|>
      first_error (λ v, refuse_if (blank v || (len v >? 128)) (invalid "Invalid fact constraint"))
        values)
    [default [] (P_Regions p); default [] (P_Quantizations p)] <|>
  refuse_if (opt_test (P_MaxCost p) (λ s, negb (ValidAmount s)))
    (invalid "The maximum cost must be a non-negative decimal string") <|>
  if (len (P_MaxPrice p) >? 0) && negb (String.eqb (P_MaxPrice p) "null") then
    match ceiling_strict (P_MaxPrice p) with
    | None => Some (invalid "Invalid price ceiling")
    | Some c =>
        first_error (λ amount,
            refuse_if (opt_test amount (λ s, negb (ValidAmount s)))
              (invalid "Price ceilings must be non-negative decimal strings"))
          [Ceiling_Input c; Ceiling_Output c; Ceiling_Unit c]
    end
  else None.

Definition Policy_Validate (p : Policy) : option ValidationError :=
  first_error (λ s, refuse_if (negb (Contains strategies s))
      (invalidValue "allowed_strategies" "Unknown routing strategy"))
    (default [] (Pol_AllowedStrategies p)) <|>
  Preferences_Validate (Pol_Constraints p) "constraints" <|>
  Preferences_Validate (Pol_Defaults p) "defaults" <|>
  let c := Pol_Constraints p in
  refuse_if (is_some (P_Strategy c) || is_some (P_AllowFallbacks c) || is_some (P_Order c) ||
             is_some (P_PreferredMaxLatencyMS c) || is_some (P_PreferredMinThroughput c) ||
             is_some (P_MaxAttempts c) || is_some (P_MaxAttempts (Pol_Defaults p)))
    (invalidValue "constraints" "Policy constraints accept hard constraints only") <|>
  refuse_if (is_some (P_Priority c) || is_some (P_Priority (Pol_Defaults p)))
    (invalidValue "defaults" "Priority belongs to API key policies and the routing header").
End Validation.

(** The attempts a plan may spend, given the route's published budget. *)
Definition Preferences_Budget (p : option Preferences) (published : Z) : Z :=
  match p with
  | None => published
  | Some p =>
      let budget := match P_MaxAttempts p with Some n => Z.min published n | None => published end in
      match P_AllowFallbacks p with
      | Some false => if Nat.eqb (length (default [] (P_Order p))) 0 then Z.min budget 1 else budget
      | _ => budget
      end
  end.

Section Resolution.
Context `{RatLib, UUIDLib, CeilingJSON, PolicyDigest}.

(** Whether a decimal is within a ceiling; an absent ceiling admits anything, an
    absent or unreadable value is within none. *)
Definition lessOrEqual (value ceiling : option string) : bool :=
  match ceiling with
  | None => true
  | Some c =>
      match value with
      | None => false
      | Some v =>
          match Rat_SetString v, Rat_SetString c with
          | Some a, Some b => Qle_bool a b
          | _, _ => false
          end
      end
  end.

Definition narrow (maxCost : option string) (e : EffectivePolicy) : EffectivePolicy :=
  match maxCost with
  | None => e
  | Some _ =>
      if negb (is_some (E_MaxCost e)) || lessOrEqual maxCost (E_MaxCost e)
      then mkEffective (E_Strategy e) (E_Preferences e) (E_Constraints e) (E_Allowed e)
             (E_Digest e) maxCost
      else e
  end.

Definition or_else {A} (x y : option A) : option A := match x with Some _ => x | None => y end.

Definition apply_preferences (p : Preferences) (e : EffectivePolicy) : EffectivePolicy :=
  let q := E_Preferences e in
  mkEffective
    (default (E_Strategy e) (P_Strategy p))
    (mkPreferences (P_Strategy q)
       (or_else (P_AllowFallbacks p) (P_AllowFallbacks q))
       (or_else (P_Order p) (P_Order q))
       (or_else (P_PreferredMaxLatencyMS p) (P_PreferredMaxLatencyMS q))
       (or_else (P_PreferredMinThroughput p) (P_PreferredMinThroughput q))
       (P_DenyDataCollection q) (P_Ignore q) (P_MaxPrice q) (P_MaxCost q) (P_Only q)
       (P_Quantizations q) (P_Regions q) (P_RequireParameters q) (P_RequireZeroDataRetention q)
       (or_else (P_MaxAttempts p) (P_MaxAttempts q)) (P_Priority q))
    (E_Constraints e ++ [p]) (E_Allowed e) (E_Digest e) (E_MaxCost e).

Definition add_constraint (p : Preferences) (e : EffectivePolicy) : EffectivePolicy :=
  mkEffective (E_Strategy e) (E_Preferences e) (E_Constraints e ++ [p]) (E_Allowed e)
    (E_Digest e) (E_MaxCost e).

Definition restrict_strategies (allowed : option (list string)) (e : EffectivePolicy)
  : EffectivePolicy :=
  match allowed with
  | None => e
  | Some l =>
      mkEffective (E_Strategy e) (E_Preferences e) (E_Constraints e)
        (DeleteFunc (λ s, negb (Contains l s)) (E_Allowed e)) (E_Digest e) (E_MaxCost e)
  end.

(** One scope of the loop over installation, route and key. *)
Definition resolve_scope (e : EffectivePolicy) (scope : option Policy) : EffectivePolicy :=
  match scope with
  | None => e
  | Some p =>
      apply_preferences (Pol_Defaults p)
        (narrow (P_MaxCost (Pol_Defaults p))
          (narrow (P_MaxCost (Pol_Constraints p))
            (add_constraint (Pol_Constraints p)
              (restrict_strategies (Pol_AllowedStrategies p) e))))
  end.

Definition without_priority (p : Preferences) : Preferences :=
  mkPreferences (P_Strategy p) (P_AllowFallbacks p) (P_Order p) (P_PreferredMaxLatencyMS p)
    (P_PreferredMinThroughput p) (P_DenyDataCollection p) (P_Ignore p) (P_MaxPrice p)
    (P_MaxCost p) (P_Only p) (P_Quantizations p) (P_Regions p) (P_RequireParameters p)
    (P_RequireZeroDataRetention p) (P_MaxAttempts p) None.

Definition initial_policy : EffectivePolicy :=
  mkEffective strategyWeighted noPreferences [] strategies "" None.

Definition with_digest (e : EffectivePolicy) (d : string) : EffectivePolicy :=
  mkEffective (E_Strategy e) (E_Preferences e) (E_Constraints e) (E_Allowed e) d (E_MaxCost e).

Definition ResolvePolicy (installation route key : option Policy) (requested : option Preferences)
  : ValidationError + EffectivePolicy :=
  let e := foldl resolve_scope initial_policy [installation; route; key] in
  let finish (request : option Preferences) (e : EffectivePolicy) :=
    if negb (Contains (E_Allowed e) (E_Strategy e))
    then inl (invalidValue "strategy" "The selected strategy is forbidden by routing policy")
    else inr (with_digest e (policy_digest installation route key request)) in
  match requested with
  | None => finish None e
  | Some r =>
      match Preferences_Validate r "preferences" with
      | Some err => inl err
      | None =>
          let request := without_priority r in
          finish (Some request) (apply_preferences request (narrow (P_MaxCost request) e))
      end
  end.
End Resolution.

#[global] Arguments lessOrEqual {_} _ _ : simpl never.
#[global] Arguments narrow {_} _ _ : simpl never.

(** ** Amounts compare by their units *)

Definition amount_units (s : string) : Z := default 0 (scaledDecimal s costDigits).

(** A parser of plain decimals, which satisfies the law the policies rely on. *)
Definition DecimalRat : RatLib := λ s,
  if ValidAmount s then Some (Qmake (amount_units s) (Z.to_pos costUnit)) else None.

Lemma DecimalRat_laws : @RatLaws DecimalRat.
Proof.
  constructor. intros s u Hv Hs. unfold Rat_SetString, DecimalRat, amount_units. rewrite Hv, Hs.
  eexists; split; [done|]. rewrite Qmake_Qdiv. simpl default. by rewrite Z2Pos.id.
Qed.

Lemma lessOrEqual_units `{RatLib, !RatLaws} a b :
  ValidAmount a = true → ValidAmount b = true →
  lessOrEqual (Some a) (Some b) = (amount_units a <=? amount_units b).
Proof.
  intros Ha Hb. unfold amount_units.
  destruct (ValidAmount_scaled a Ha) as (ua & Ea & _), (ValidAmount_scaled b Hb) as (ub & Eb & _).
  destruct (rat_amount a ua Ha Ea) as (qa & Qa & Va), (rat_amount b ub Hb Eb) as (qb & Qb & Vb).
  unfold lessOrEqual. rewrite Qa, Qb, Ea, Eb. simpl default.
  apply eq_true_iff_eq. rewrite Qle_bool_iff, Z.leb_le, Va, Vb.
  assert (0 < inject_Z costUnit)%Q as Hpos by done.
  split; intros Hle.
  - rewrite Zle_Qle. apply (Qmult_le_r _ _ (/ inject_Z costUnit)); [done|exact Hle].
  - apply (Qmult_le_r _ _ (/ inject_Z costUnit)); [done|]. by rewrite Zle_Qle in Hle.
Qed.

(** ** Resolution

    What each scope contributes: its hard constraints, then its defaults. *)

Definition scope_constraints (scope : option Policy) : list Preferences :=
  match scope with Some p => [Pol_Constraints p; Pol_Defaults p] | None => [] end.

Definition scope_costs (scope : option Policy) : list string :=
  match scope with
  | Some p => option_list (P_MaxCost (Pol_Constraints p)) ++ option_list (P_MaxCost (Pol_Defaults p))
  | None => []
  end.

Definition strategy_allowed (scope : option Policy) (s : string) : Prop :=
  match scope with
  | Some p => match Pol_AllowedStrategies p with Some l => s ∈ l | None => True end
  | None => True
  end.

(** The least of the ceilings seen so far. *)
Definition narrowest (seen : list string) (m : option string) : Prop :=
  match m with
  | None => seen = []
  | Some m => m ∈ seen ∧ ∀ s, s ∈ seen → amount_units m <= amount_units s
  end.

Section Facts.
Context `{RatLib, UUIDLib, CeilingJSON, PolicyDigest}.

Lemma narrow_fields m e :
  E_Strategy (narrow m e) = E_Strategy e ∧ E_Preferences (narrow m e) = E_Preferences e ∧
  E_Constraints (narrow m e) = E_Constraints e ∧ E_Allowed (narrow m e) = E_Allowed e.
Proof. unfold narrow. by repeat case_match. Qed.

Lemma resolve_scope_constraints e scope :
  E_Constraints (resolve_scope e scope) = E_Constraints e ++ scope_constraints scope.
Proof.
  destruct scope as [p|]; [|by rewrite app_nil_r].
  cbn [resolve_scope apply_preferences E_Constraints scope_constraints].
  rewrite !(proj1 (proj2 (proj2 (narrow_fields _ _)))).
  cbn [add_constraint E_Constraints]. rewrite <- app_assoc. f_equal.
  unfold restrict_strategies. by case_match.
Qed.

Lemma resolve_scope_allowed e scope s :
  s ∈ E_Allowed (resolve_scope e scope) ↔ s ∈ E_Allowed e ∧ strategy_allowed scope s.
Proof.
  destruct scope as [p|]; [|simpl; naive_solver].
  cbn [resolve_scope apply_preferences E_Allowed].
  rewrite !(proj2 (proj2 (proj2 (narrow_fields _ _)))). cbn [add_constraint E_Allowed].
  unfold restrict_strategies, strategy_allowed. destruct (Pol_AllowedStrategies p) as [l|]; [|naive_solver].
  simpl. unfold DeleteFunc. rewrite list_elem_of_In, List.filter_In, <- list_elem_of_In.
  rewrite negb_involutive, Contains_true. naive_solver.
Qed.

Lemma narrow_narrowest `{!RatLaws} m e seen :
  narrowest seen (E_MaxCost e) → Forall (λ s, ValidAmount s = true) (seen ++ option_list m) →
  narrowest (seen ++ option_list m) (E_MaxCost (narrow m e)).
Proof.
  intros Hn Hv. destruct m as [m|]; simpl in *; [|by rewrite app_nil_r].
  unfold narrow, narrowest in *. destruct (E_MaxCost e) as [x|] eqn:E; simpl.
  - destruct Hn as [Hin Hmin]. apply Forall_app in Hv as [Hv1 Hv2].
    rewrite Forall_forall in Hv1, Hv2.
    rewrite lessOrEqual_units by (auto || apply Hv2; set_solver).
    destruct (Z.leb_spec (amount_units m) (amount_units x)); simpl; [|rewrite E].
    + split; [set_solver|]. intros s [Hs|Hs]%elem_of_app; [|by apply list_elem_of_singleton in Hs as ->].
      etrans; eauto.
    + split; [set_solver|]. intros s [Hs|Hs]%elem_of_app; [auto|].
      apply list_elem_of_singleton in Hs as ->. lia.
  - subst seen. simpl. split; [set_solver|]. by intros s ->%list_elem_of_singleton.
Qed.

Lemma resolve_scope_cost `{!RatLaws} e scope seen :
  narrowest seen (E_MaxCost e) →
  Forall (λ s, ValidAmount s = true) (seen ++ scope_costs scope) →
  narrowest (seen ++ scope_costs scope) (E_MaxCost (resolve_scope e scope)).
Proof.
  intros Hn Hv. destruct scope as [p|]; [|by rewrite app_nil_r].
  cbn [resolve_scope apply_preferences E_MaxCost scope_costs] in *.
  rewrite (app_assoc seen) in Hv |- *. apply narrow_narrowest; [|done].
  apply Forall_app in Hv as [Hv _]. apply narrow_narrowest; [|done].
  cbn [add_constraint E_MaxCost]. unfold restrict_strategies. by case_match.
Qed.

Definition resolve_scopes (scopes : list (option Policy)) : EffectivePolicy :=
  foldl resolve_scope initial_policy scopes.

Lemma resolve_scopes_spec `{!RatLaws} scopes :
  Forall (λ s, ValidAmount s = true) (concat (map scope_costs scopes)) →
  E_Constraints (resolve_scopes scopes) = concat (map scope_constraints scopes) ∧
  (∀ s, s ∈ E_Allowed (resolve_scopes scopes) ↔
     s ∈ strategies ∧ Forall (λ p, strategy_allowed p s) scopes) ∧
  narrowest (concat (map scope_costs scopes)) (E_MaxCost (resolve_scopes scopes)).
Proof.
  unfold resolve_scopes. induction scopes as [|p l IH] using rev_ind.
  { intros _. repeat split; simpl; try done; naive_solver. }
  rewrite !map_app, !concat_app, foldl_app. simpl. rewrite !app_nil_r.
  intros Hv. pose proof Hv as Hv'. apply Forall_app in Hv' as [Hv' _].
  destruct (IH Hv') as (C & A & N). split; [|split].
  - by rewrite resolve_scope_constraints, C.
  - intros s. rewrite resolve_scope_allowed, A, Forall_app, Forall_singleton. tauto.
  - by apply resolve_scope_cost.
Qed.

(** What resolution returns when it does not refuse. *)
Lemma ResolvePolicy_inr installation route key requested e :
  ResolvePolicy installation route key requested = inr e →
  let base := resolve_scopes [installation; route; key] in
  E_Strategy e ∈ E_Allowed e ∧ E_Allowed e = E_Allowed base ∧
  match requested with
  | None => E_Constraints e = E_Constraints base ∧ E_MaxCost e = E_MaxCost base ∧
            E_Preferences e = E_Preferences base
  | Some r =>
      Preferences_Validate r "preferences" = None ∧
      E_Constraints e = E_Constraints base ++ [without_priority r] ∧
      E_MaxCost e = E_MaxCost (narrow (P_MaxCost r) base) ∧
      E_Preferences e = E_Preferences (apply_preferences (without_priority r) base)
  end.
Proof.
  unfold ResolvePolicy. cbv zeta. change (foldl resolve_scope initial_policy ?l) with (resolve_scopes l).
  set (base := resolve_scopes _). destruct requested as [r|].
  - destruct (Preferences_Validate r "preferences") eqn:V; [done|].
    case_match eqn:A; [done|]. intros [= <-]. apply negb_false_iff, Contains_true in A.
    destruct (narrow_fields (P_MaxCost (without_priority r)) base) as (F1 & F2 & F3 & F4).
    simpl in *. by rewrite ?F1, ?F2, ?F3, ?F4 in *.
  - case_match eqn:A; [done|]. intros [= <-]. by apply negb_false_iff, Contains_true in A.
Qed.

Lemma Preferences_Validate_cost p field :
  Preferences_Validate p field = None →
  Forall (λ s, ValidAmount s = true) (option_list (P_MaxCost p)) ∧
  (∀ n, P_MaxAttempts p = Some n → 1 <= n <= 32767).
Proof.
  unfold Preferences_Validate. cbv zeta. intros V.
  repeat (match type of V with (match ?x with _ => _ end = None) =>
            let E := fresh "R" in destruct x eqn:E; [done|] end).
  split.
  - destruct (P_MaxCost p) as [s|]; simpl in *; [|done].
    unfold refuse_if, opt_test in R5. destruct (ValidAmount s) eqn:Es; [by repeat constructor|done].
  - intros n Hn. rewrite Hn in R1. unfold refuse_if, opt_test in R1.
    rewrite Z.gtb_ltb in R1. destruct (n <? 1) eqn:?, (32767 <? n) eqn:?; simpl in R1; try done.
    bool_to_prop. lia.
Qed.

Lemma Policy_Validate_cost p :
  Policy_Validate p = None → Forall (λ s, ValidAmount s = true) (scope_costs (Some p)).
Proof.
  unfold Policy_Validate. intros V.
  repeat (match type of V with (match ?x with _ => _ end = None) =>
            let E := fresh "R" in destruct x eqn:E; [done|] end).
  simpl. apply Forall_app. split; by eapply Preferences_Validate_cost.
Qed.
End Facts.

(** A scope that is absent or passes validation. *)
Definition scope_valid `{UUIDLib, CeilingJSON} (scope : option Policy) : Prop :=
  match scope with Some p => Policy_Validate p = None | None => True end.

Lemma scopes_valid_costs `{UUIDLib, CeilingJSON} scopes :
  Forall scope_valid scopes → Forall (λ s, ValidAmount s = true) (concat (map scope_costs scopes)).
Proof.
  induction 1 as [|[p|] l Hp Hl IH]; simpl; [done| |done].
  apply Forall_app. split; [|done]. by apply (Policy_Validate_cost p).
Qed.

Lemma Policy_Validate_attempts `{UUIDLib, CeilingJSON} p :
  Policy_Validate p = None → P_MaxAttempts (Pol_Defaults p) = None.
Proof.
  unfold Policy_Validate. intros V.
  repeat (match type of V with (match ?x with _ => _ end = None) =>
            let E := fresh "R" in destruct x eqn:E; [done|] end).
  unfold refuse_if in R2. destruct (P_MaxAttempts (Pol_Defaults p)); [|done].
  by rewrite !orb_true_r in R2.
Qed.

Lemma resolve_scopes_attempts `{RatLib, UUIDLib, CeilingJSON} scopes :
  Forall scope_valid scopes → P_MaxAttempts (E_Preferences (resolve_scopes scopes)) = None.
Proof.
  unfold resolve_scopes. induction scopes as [|p l IH] using rev_ind; [done|].
  rewrite Forall_app, Forall_singleton, foldl_app. intros [Hl Hp]. simpl.
  destruct p as [p|]; [|by apply IH]. cbn [resolve_scope apply_preferences E_Preferences P_MaxAttempts].
  rewrite (Policy_Validate_attempts p Hp). cbn [or_else].
  rewrite !(proj1 (proj2 (narrow_fields _ _))). cbn [add_constraint E_Preferences].
  specialize (IH Hl). unfold restrict_strategies. by case_match.
Qed.

Lemma Preferences_Budget_le p published : Preferences_Budget p published <= published.
Proof. destruct p as [p|]; simpl; [|done]. repeat case_match; lia. Qed.

#[export] Hint Resolve Preferences_Budget_le : olp.

(** ** Concrete library functions, for the examples *)

Definition hex_val (c : ascii) : option Z :=
  if is_digit c then Some (dval c)
  else if in_range "a" "f" c then Some (Z.of_N (N_of_ascii c) - 87)
  else None.

(** The hexadecimal digits of the canonical 8-4-4-4-12 form. *)
Fixpoint hex_digits (i : nat) (s : string) : option (list Z) :=
  match s with
  | EmptyString => Some []
  | String c rest =>
      if Contains [8; 13; 18; 23]%nat i
      then if Ascii.eqb c "-" then hex_digits (S i) rest else None
      else match hex_val c, hex_digits (S i) rest with
           | Some d, Some ds => Some (d :: ds)
           | _, _ => None
           end
  end.

Fixpoint byte_pairs (ds : list Z) : list Byte.byte :=
  match ds with
  | a :: b :: rest =>
      default Byte.x00 (Byte.of_N (Z.to_N (16 * a + b))) :: byte_pairs rest
  | _ => []
  end.

(** A parser of canonical identifiers; an identifier is kept as its text. *)
Definition CanonicalUUID : UUIDLib := {|
  uuid := string;
  uuid_Parse s := if String.length s =? 36
                  then match hex_digits 0 s with Some _ => Some s | None => None end else None;
  uuid_String u := u;
  uuid_bytes u := match hex_digits 0 u with Some ds => byte_pairs ds | None => [] end;
|}%nat.

(** No price ceiling decodes. *)
Definition NoCeiling : CeilingJSON := {|
  ceiling_strict _ := None;
  ceiling_unmarshal _ := mkPriceCeiling None None None;
|}.

Definition NoDigest : PolicyDigest := λ _ _ _ _, "".

(** ** Theorems *)

(** Policy resolution loses nothing: the effective constraints are those of
    every scope in order (installation, route, key, each with its defaults) and
    then the request's, the chosen strategy is one every scope allows, and the
    effective cost ceiling is the least of the ceilings the scopes and the request
    declare, or none when none declares one. *)
Theorem resolve_policy_accumulates `{RatLib, !RatLaws, UUIDLib, CeilingJSON, PolicyDigest}
    (installation route key : option Policy) (requested : option Preferences) (e : EffectivePolicy) :
  Forall scope_valid [installation; route; key] →
  ResolvePolicy installation route key requested = inr e →
  E_Constraints e = concat (map scope_constraints [installation; route; key]) ++
                    option_list (without_priority <$> requested) ∧
  E_Strategy e ∈ strategies ∧
  Forall (λ p, strategy_allowed p (E_Strategy e)) [installation; route; key] ∧
  narrowest (concat (map scope_costs [installation; route; key]) ++
             option_list (requested ≫= P_MaxCost)) (E_MaxCost e).
Proof.
  intros Hv Hr. pose proof (scopes_valid_costs _ Hv) as Hc.
  destruct (resolve_scopes_spec _ Hc) as (C & A & N).
  destruct (ResolvePolicy_inr _ _ _ _ _ Hr) as (S & EA & R).
  rewrite EA in S. destruct (proj1 (A _) S) as [S1 S2].
  destruct requested as [r|]; simpl option_list.
  - destruct R as (V & RC & RM & _). rewrite RC, RM, C.
    destruct (Preferences_Validate_cost _ _ V) as [Vr _].
    repeat split; [done..|]. apply narrow_narrowest; [done|]. apply Forall_app. done.
  - destruct R as (RC & RM & _). rewrite RC, RM, C, !app_nil_r. done.
Qed.

Definition demo_key_policy : Policy :=
  mkPolicy (Some ["price"; "weighted"])
    (mkPreferences None None None None None (Some true) [] "" (Some "2.50") None None None None None
       None None) noPreferences.

Definition demo_request : Preferences :=
  mkPreferences (Some "price") (Some false) None None None None [] "" (Some "0.25") None None
    (Some ["eu"]) None None (Some 2) (Some "low").

Lemma resolve_policy_accumulates_witness :
  let r := @ResolvePolicy DecimalRat CanonicalUUID NoCeiling NoDigest None None (Some demo_key_policy)
             (Some demo_request) in
  ∃ e, r = inr e ∧ E_Strategy e = "price" ∧ E_MaxCost e = Some "0.25" ∧
    narrowest ["2.50"; "0.25"] (E_MaxCost e).
Proof.
  eexists. split; [vm_compute; reflexivity|]. split; [reflexivity|]. split; [reflexivity|].
  refine (proj2 (proj2 (proj2 (@resolve_policy_accumulates DecimalRat DecimalRat_laws CanonicalUUID
    NoCeiling NoDigest None None (Some demo_key_policy) (Some demo_request) _ _ _)))).
  - repeat constructor.
  - vm_compute. reflexivity.
Defined.

(** A request's own preferences only narrow what the published scopes allow:
    they add a constraint and remove none, the allowed strategies are unchanged,
    the cost ceiling does not rise, and the attempt budget stays between one and
    the route's published budget. *)
Theorem request_only_narrows `{RatLib, !RatLaws, UUIDLib, CeilingJSON, PolicyDigest}
    (installation route key : option Policy) (request : Preferences) (e e0 : EffectivePolicy)
    (published : Z) :
  Forall scope_valid [installation; route; key] →
  ResolvePolicy installation route key None = inr e0 →
  ResolvePolicy installation route key (Some request) = inr e →
  1 <= published →
  E_Constraints e = E_Constraints e0 ++ [without_priority request] ∧
  E_Allowed e = E_Allowed e0 ∧
  (∀ c0, E_MaxCost e0 = Some c0 →
     ∃ c, E_MaxCost e = Some c ∧ amount_units c <= amount_units c0) ∧
  1 <= Preferences_Budget (Some (E_Preferences e)) published <= published.
Proof.
  intros Hv HN HS Hp. pose proof (scopes_valid_costs _ Hv) as Hc.
  destruct (resolve_scopes_spec _ Hc) as (C & A & N).
  destruct (ResolvePolicy_inr _ _ _ _ _ HN) as (_ & EA0 & RC0 & RM0 & _).
  destruct (ResolvePolicy_inr _ _ _ _ _ HS) as (_ & EA & V & RC & RM & RP).
  destruct (Preferences_Validate_cost _ _ V) as [Vr Va].
  split; [by rewrite RC, RC0|]. split; [by rewrite EA, EA0|]. split.
  - intros c0 Hc0. rewrite RM0 in Hc0.
    assert (NN := narrow_narrowest (P_MaxCost request) _ _ N ltac:(by apply Forall_app)).
    rewrite <- RM in NN. rewrite Hc0 in N. destruct N as [Nin _].
    destruct (E_MaxCost e) as [c|]; [|apply app_eq_nil in NN as [NN _]; by rewrite NN, elem_of_nil in Nin].
    exists c. split; [done|]. apply NN. apply elem_of_app. by left.
  - split; [|apply Preferences_Budget_le].
    assert (Hbase : P_MaxAttempts (E_Preferences (resolve_scopes [installation; route; key])) = None)
      by (apply resolve_scopes_attempts; done).
    unfold Preferences_Budget. rewrite RP. cbn [apply_preferences E_Preferences P_MaxAttempts].
    rewrite Hbase. cbn [without_priority P_MaxAttempts].
    destruct (P_MaxAttempts request) as [n|] eqn:En; cbn [or_else].
    + specialize (Va _ eq_refl). repeat case_match; lia.
    + repeat case_match; lia.
Qed.

Lemma request_only_narrows_witness :
  ∃ e, @ResolvePolicy DecimalRat CanonicalUUID NoCeiling NoDigest None None (Some demo_key_policy)
         (Some demo_request) = inr e ∧
       1 <= Preferences_Budget (Some (E_Preferences e)) 5 <= 5.
Proof.
  eexists. split; [vm_compute; reflexivity|].
  refine (proj2 (proj2 (proj2 (@request_only_narrows DecimalRat DecimalRat_laws CanonicalUUID
    NoCeiling NoDigest None None (Some demo_key_policy) demo_request _ _ 5 _ _ _ _)))).
  - repeat constructor.
  - vm_compute. reflexivity.
  - vm_compute. reflexivity.
  - lia.
Defined.
