(* ===== verification/Routes.v ===== *)
(** * Routes, providers and the behaviour a route declares

    The data of [internal/routing/snapshot.go] and [internal/routing/behavior.go]
    with the validation of a behaviour: [internal/cache/policy.go],
    [internal/limits/workflow.go] (the bounds of a run),
    [internal/routeidentity], [internal/attribution] (label grammar),
    [internal/bodylimit] and [internal/plugins/identity]. Fields that selection
    and validation never read are left out of the records. *)

From S2P Require Import Prelude Go Amount Policy.
From Stdlib Require Import Ascii SpecFloat.
Local Open Scope Z_scope.
Local Open Scope olp_scope.

(** ** Identifiers *)

Definition slug_tail (c : ascii) : bool := is_lower c || is_digit c || one_of "._-" c.
Definition slug_head (c : ascii) : bool := is_lower c || is_digit c.

(** ^[a-z0-9][a-z0-9._-]{0,99}$ *)
Definition ValidSlug (value : string) : bool := matches slug_head slug_tail 99 value.

(** ^[a-z0-9][a-z0-9-]{0,62}$ *)
Definition ValidSelectorID (value : string) : bool :=
  matches slug_head (λ c, slug_head c || Ascii.eqb c "-") 62 value.

(** ^[a-z0-9][a-z0-9_-]{0,31}$ *)
Definition targetTag (value : string) : bool :=
  matches slug_head (λ c, slug_head c || one_of "_-" c) 31 value.

(** ^[a-z]{1,16}$ *)
Definition effortName (value : string) : bool := matches is_lower is_lower 15 value.

(** ^[A-Za-z][A-Za-z0-9_.-]{0,31}$ *)
Definition ValidKey (key : string) : bool :=
  matches (λ c, is_upper c || is_lower c)
    (λ c, is_upper c || is_lower c || is_digit c || one_of "_.-" c) 31 key.

(** ^[0-9a-f]{64}$ *)
Definition ValidDigest (value : string) : bool :=
  matches_exactly (λ c, is_digit c || in_range "a" "f" c) 64 value.

Definition bodylimit_Maximum : Z := Z.shiftl 1 30.

Definition bodylimit_Valid (value : option Z) : bool :=
  match value with None => true | Some v => (v >? 0) && (v <=? bodylimit_Maximum) end.

(** The route's bound when it lowers the installation's. *)
Definition bodylimit_Lower (installation : Z) (route : option Z) : Z :=
  match route with
  | Some r => if r >? 0 then Z.min installation r else installation
  | None => installation
  end.

(** ** Failure classes that start a fallback *)

Definition FallbackExhausted : string := "exhausted".
Definition FallbackContextWindow : string := "context_window".
Definition FallbackContentFilter : string := "content_filter".
Definition FallbackRateLimit : string := "rate_limit".
Definition FallbackBudget : string := "budget".

Definition fallbackConditions : list string :=
  [FallbackExhausted; FallbackContextWindow; FallbackContentFilter; FallbackRateLimit; FallbackBudget].

Definition retryClasses : list string := ["connect"; "timeout"; "rate_limit"; "upstream_server"].

Definition AffinityLabel : string := "label".
Definition AffinityCacheKey : string := "cache_key".

Definition MaxRouteDepth : Z := 3.
Definition maxFallbacks : Z := 4.
Definition maxSelectors : Z := 16.
Definition maxSelectorTags : Z := 8.
Definition maxTargetTags : Z := 8.
Definition maxRetries : Z := 10.
Definition maxBackoffMS : Z := 60000.
Definition maxClassifierMS : Z := 30000.
Definition maxPredicateList : Z := 16.

(** ** The behaviour of a route *)

Record Fallback := mkFallback { Fallback_Route : string; Fallback_On : list string }.

Record ClassifierPredicate := mkClassifier {
  Classifier_Route : string;
  Classifier_Labels : list string;
  Classifier_MinScore : option float64;
  Classifier_TimeoutMS : Z;
}.

Record PluginPredicate := mkPluginPredicate { Plugin_Digest : string }.

Record Predicate := mkPredicate {
  Pr_Operations : list string;
  Pr_MinInputTokens : option Z;
  Pr_MaxInputTokens : option Z;
  Pr_MinOutputTokens : option Z;
  Pr_MaxOutputTokens : option Z;
  Pr_Streaming : option bool;
  Pr_Tools : option bool;
  Pr_Modalities : list string;
  Pr_StructuredOutput : option bool;
  Pr_ReasoningEffort : list string;
  Pr_Classifier : option ClassifierPredicate;
  Pr_Plugin : option PluginPredicate;
}.

Record Selector := mkSelector {
  Selector_ID : string;
  Selector_When : Predicate;
  Selector_Tags : list string;
  Selector_Route : string;
}.

Record RetryRule := mkRetryRule {
  MaxRetries : Z;
  BaseBackoffMS : Z;
  MaxBackoffMS : Z;
  RespectRetryAfter : bool;
}.

Record Affinity := mkAffinity { Affinity_Source : string; Affinity_Label : string }.

Record CostLimits := mkCostLimits {
  DailyCostLimit : option string;
  MonthlyCostLimit : option string;
}.

Record Shadow := mkShadow { SampleRate : float64 }.

Record Features := mkFeatures {
  F_Operation : string;
  F_InputTokens : Z;
  F_OutputTokens : option Z;
  F_Streaming : bool;
  F_Tools : bool;
  F_Modalities : list string;
  F_StructuredOutput : bool;
  F_ReasoningEffort : string;
}.

Record WorkflowBounds := mkWorkflowBounds {
  MaxIterations : option Z;
  MaxToolCalls : option Z;
  MaxDurationSeconds : option Z;
  MaxConcurrentRuns : option Z;
  MaxRunCost : option string;
}.

Record CachePolicy := mkCachePolicy {
  Cache_Mode : string;
  Cache_TTLSeconds : Z;
  Cache_Scope : string;
  Cache_Operations : list string;
  Cache_Streaming : string;
  Cache_MaxEntryBytes : Z;
  Cache_CountHitsAgainst : list string;
  Cache_EmbeddingRoute : string;
  Cache_SimilarityThreshold : float64;
  Cache_MaxCandidates : Z;
  Cache_AllowUnsealedVectors : bool;
  Cache_AllowMultiturn : bool;
}.

Record PromptPolicy := mkPromptPolicy {
  Prompt_Positions : list string;
  Prompt_TTL : string;
  Prompt_KeySource : string;
  Prompt_SessionLabel : string;
}.

Record PassthroughConfig := mkPassthrough {
  Passthrough_Dialect : string;
  Passthrough_Methods : list string;
  Passthrough_Paths : list string;
  Passthrough_Query : list string;
  Passthrough_Headers : list string;
  AcknowledgeOpaqueUnmetered : bool;
}.

Record Behavior := mkBehavior {
  RunLimits : option WorkflowBounds;
  ToolExecution : string;
  Toolsets : list string;
  ResponsesMCPItems : bool;
  Cache : option CachePolicy;
  PromptCache : option PromptPolicy;
  CallerCostExempt : bool;
  ProviderFetchedDocuments : bool;
  MaxBodyBytes : option Z;
  Fallbacks : list Fallback;
  Selectors : list Selector;
  Retry : gmap string RetryRule;
  Affinity_ : option Affinity;
  Budget : option CostLimits;
  Passthrough : option PassthroughConfig;
}.

Definition zeroBehavior : Behavior :=
  mkBehavior None "" [] false None None false false None [] [] ∅ None None None.

(** ** Providers, targets and routes *)

Record Capability := mkCapability {
  Cap_Model : string;
  Cap_Operation : string;
  Cap_Surface : string;
  Cap_Mode : string;
  Cap_ToolCalls : bool;
}.

Record Shares := mkShares {
  Share_Critical : Z; Share_High : Z; Share_Normal : Z; Share_Low : Z }.

Record Supply := mkSupply {
  Supply_DailyCostLimit : option string;
  Supply_MonthlyCostLimit : option string;
  PriorityShares : option Shares;
  SaturationPercent : option Z;
}.

Definition noSupply : Supply := mkSupply None None None None.

(** A credential slot; its name, credential version and request, token and
    concurrency windows take no part in planning and are left out. *)
Record Slot := mkSlot {
  Slot_ID : string;
  Slot_Enabled : bool;
  Slot_Priority : Z;
  Slot_Weight : Z;
  Slot_CredentialID : option string;
  Slot_AllowedModels : list string;
  Slot_AllowedRoutes : list string;
  Slot_AllowedAPIKeys : list string;
  Slot_Supply : Supply;
}.

Record Commitment := mkCommitment {
  Com_ID : string;
  Com_EffectiveAt : option Time;
  Com_EndsAt : option Time;
  Com_Amount : string;
  Com_Period : string;
}.

Record ModelMetadata := mkMetadata {
  M_ContextLength : option Z;
  M_MaxOutputTokens : option Z;
  M_SupportedParameters : option (list string);
  M_Quantization : option string;
  M_Region : option string;
  M_DataCollection : option bool;
  M_ZeroDataRetention : option bool;
  M_Source : option string;
  M_ObservedAt : option Time;
}.

Definition noMetadata : ModelMetadata := mkMetadata None None None None None None None None None.

(** The serving view of a provider as planning reads it: the connection's own
    configuration (endpoint, headers, bindings, parameter defaults, cloud project,
    batch storage, health probe, plugin options) belongs to the connectors and is
    left out. [Provider_Metadata] is the decoded metadata of each model that
    declares it; [Provider_UnconfinedPlugin] is set when the provider pins a plugin
    profile that is unconfined; of [Limits] only the supply controls are kept. *)
Record Provider := mkProvider {
  Provider_ID : string;
  Provider_Kind : string;
  Provider_Enabled : bool;
  Provider_RevisionID : string;
  Provider_VendorID : string;
  Provider_CredentialSource : string;
  Provider_AuthMode : string;
  Provider_CloudRegion : string;
  Provider_NetworkCredentialID : option string;
  Provider_UnconfinedPlugin : bool;
  Provider_Capabilities : list Capability;
  Provider_Metadata : gmap string ModelMetadata;
  Provider_Limits : option Supply;
  Provider_Commitment : option Commitment;
  Provider_PendingCommitment : option Commitment;
  Provider_Slots : list Slot;
}.

(** The zero provider a failed lookup returns. *)
Definition zeroProvider : Provider :=
  mkProvider "" "" false "" "" "" "" "" None false [] ∅ None None None [].

Record Target := mkTarget {
  Target_ID : string;
  Target_ProviderID : string;
  Target_ProviderModel : string;
  Target_Priority : Z;
  Target_Weight : Z;
  Target_Timeout : Z;
  Target_RoutingID : string;
  Target_Tags : list string;
  Target_Shadow : option Shadow;
}.

(** Route revisions carry also their overall timeout, publication data and content
    policy, which selection does not read. *)
Record Route := mkRoute {
  Route_ID : string;
  Route_Slug : string;
  Route_Operations : list string;
  Route_MaxAttempts : Z;
  Route_Targets : list Target;
  Route_RoutingID : string;
  Route_Policy : option Policy;
  Route_ProjectID : option string;
  Route_FidelityMode : string;
  Route_Behavior : Behavior;
}.

(** The parts of a snapshot selection reads; agents, MCP servers, guardrails, code
    routes and the compiled contract templates are other components' data. *)
Record Snapshot := mkSnapshot {
  Providers : gmap string Provider;
  Snap_Routes : gmap string Route;
  InstallationPolicy : option Policy;
  KeyPolicies : gmap string Policy;
}.

Definition FidelityTransformed : string := "transformed".

(** Only an explicit transformed mode relaxes a route. *)
Definition Strict (mode : string) : bool := negb (String.eqb mode FidelityTransformed).

Definition IsPassthrough (r : Route) : bool := is_some (Passthrough (Route_Behavior r)).

Definition Supports (p : Provider) (model operation surface mode : string) : bool :=
  existsb (λ c, String.eqb (Cap_Model c) model && String.eqb (Cap_Operation c) operation &&
                String.eqb (Cap_Surface c) surface && String.eqb (Cap_Mode c) mode)
    (Provider_Capabilities p).

Definition AllowsModelRoute (s : Slot) (model route : string) : bool :=
  Slot_Enabled s &&
  (Nat.eqb (length (Slot_AllowedModels s)) 0 || Contains (Slot_AllowedModels s) model) &&
  (Nat.eqb (length (Slot_AllowedRoutes s)) 0 || Contains (Slot_AllowedRoutes s) route).

Definition Slot_Allows (s : Slot) (model route keyID : string) : bool :=
  AllowsModelRoute s model route &&
  (Nat.eqb (length (Slot_AllowedAPIKeys s)) 0 ||
   (negb (String.eqb keyID "") && Contains (Slot_AllowedAPIKeys s) keyID)).

(** The commitment in force at an instant: a pending one before the current. *)
Definition CommitmentAt (p : Provider) (at_ : Time) : option Commitment :=
  find_first (λ c,
      (match Com_EffectiveAt c with None => true | Some t => negb (Before at_ t) end) &&
      (match Com_EndsAt c with None => true | Some t => Before at_ t end))
    (option_list (Provider_PendingCommitment p) ++ option_list (Provider_Commitment p)).

(** Authentication modes that send no stored secret; any other mode, registered
    or not, requires one. *)
Definition SecretRequired (mode : string) : bool :=
  negb (Contains ["none"; "adc"; "azure_default"; "default_chain"] mode).

Definition Connector_AuthMode (p : Provider) : string :=
  if String.eqb (Provider_AuthMode p) "" then "api_key" else Provider_AuthMode p.

(** ** Predicates and fallbacks *)

Definition Met (f : Fallback) (conditions : list string) : list string :=
  List.filter (Contains conditions) (Fallback_On f).

Definition Accepts (c : ClassifierPredicate) (label : string) (score : option float64) : bool :=
  Contains (Classifier_Labels c) label &&
  match Classifier_MinScore c, score with
  | Some m, Some s => fle m s
  | _, _ => true
  end.

Definition Static (p : Predicate) : bool :=
  negb (is_some (Pr_Classifier p)) && negb (is_some (Pr_Plugin p)).

Definition within (v : Z) (lo hi : option Z) : bool :=
  (match lo with None => true | Some l => v >=? l end) &&
  (match hi with None => true | Some h => v <=? h end).

Definition bool_test (declared : option bool) (actual : bool) : bool :=
  match declared with Some b => negb (Bool.eqb b actual) | None => false end.

Definition nonempty {A} (l : list A) : bool := negb (Nat.eqb (length l) 0).

(** The feature tests of a predicate; a case that holds refuses the match. *)
Definition Matches (p : Predicate) (f : Features) : bool :=
  if nonempty (Pr_Operations p) && negb (Contains (Pr_Operations p) (F_Operation f)) then false
  else if negb (within (F_InputTokens f) (Pr_MinInputTokens p) (Pr_MaxInputTokens p)) then false
  else if (is_some (Pr_MinOutputTokens p) || is_some (Pr_MaxOutputTokens p)) &&
          match F_OutputTokens f with
          | None => true
          | Some o => negb (within o (Pr_MinOutputTokens p) (Pr_MaxOutputTokens p))
          end then false
  else if bool_test (Pr_Streaming p) (F_Streaming f) then false
  else if bool_test (Pr_Tools p) (F_Tools f) then false
  else if bool_test (Pr_StructuredOutput p) (F_StructuredOutput f) then false
  else if nonempty (Pr_ReasoningEffort p) &&
          negb (Contains (Pr_ReasoningEffort p) (F_ReasoningEffort f)) then false
  else if nonempty (Pr_Modalities p) &&
          negb (existsb (Contains (F_Modalities f)) (Pr_Modalities p)) then false
  else true.

(** The key that keeps a request with its session. *)
Definition SessionKey (a : option Affinity) (labels : gmap string string) (cacheKey : string)
  : string :=
  match a with
  | None => ""
  | Some a =>
      if String.eqb (Affinity_Source a) AffinityLabel then default "" (labels !! Affinity_Label a)
      else if String.eqb (Affinity_Source a) AffinityCacheKey then cacheKey
      else ""
  end.

(** The rendezvous seed: the session key when the request carries one. *)
Definition Seed (a : option Affinity) (labels : gmap string string) (cacheKey : string)
    (seed : list Byte.byte) : list Byte.byte :=
  let key := SessionKey a labels cacheKey in
  if String.eqb key "" then seed
  else String.list_byte_of_string "session" ++ [Byte.x00] ++ String.list_byte_of_string key.

(** ** Validation of a behaviour *)

Definition distinct (values : list string) : bool := nodup_strings [] values.

Definition distinctMembers (values allowed : list string) : bool :=
  distinct values && forallb (Contains allowed) values.

Definition validWorkflowInteger (value : option Z) (minimum maximum : Z) : bool :=
  match value with None => true | Some v => (v >=? minimum) && (v <=? maximum) end.

Definition WorkflowBounds_Valid (b : WorkflowBounds) : bool :=
  validWorkflowInteger (MaxIterations b) 1 32 &&
  validWorkflowInteger (MaxToolCalls b) 0 128 &&
  validWorkflowInteger (MaxDurationSeconds b) 1 600 &&
  validWorkflowInteger (MaxConcurrentRuns b) 1 2147483647 &&
  match MaxRunCost b with None => true | Some s => ValidAmount s end.

(** 0.95 *)
Definition defaultSimilarity : float64 := S754_finite false 8556839292003942 (-53).

Definition Cache_Effective (p : CachePolicy) : CachePolicy :=
  mkCachePolicy (Cache_Mode p)
    (if Cache_TTLSeconds p =? 0 then 3600 else Cache_TTLSeconds p)
    (if String.eqb (Cache_Scope p) "" then "key" else Cache_Scope p)
    (if nonempty (Cache_Operations p) then Cache_Operations p
     else if String.eqb (Cache_Mode p) "semantic" then ["generation"]
     else ["generation"; "embeddings"; "rerank"; "moderation"])
    (if String.eqb (Cache_Streaming p) "" then "replay" else Cache_Streaming p)
    (if Cache_MaxEntryBytes p =? 0 then Z.shiftl 1 20 else Cache_MaxEntryBytes p)
    (if nonempty (Cache_CountHitsAgainst p) then Cache_CountHitsAgainst p else ["requests"])
    (Cache_EmbeddingRoute p)
    (if feq (Cache_SimilarityThreshold p) fzero then defaultSimilarity
     else Cache_SimilarityThreshold p)
    (if Cache_MaxCandidates p =? 0 then 5 else Cache_MaxCandidates p)
    (Cache_AllowUnsealedVectors p) (Cache_AllowMultiturn p).

(** A non-empty subset of [allowed] with no duplicates. *)
Definition uniqueMembers (values allowed : list string) : bool :=
  forallb (Contains allowed) values && distinct values && nonempty values.

Definition Cache_Validate (p : option CachePolicy) : option string :=
  match p with
  | None => None
  | Some p =>
      let e := Cache_Effective p in
      let refuse (b : bool) (m : string) := if b then Some m else None in
      refuse (negb (String.eqb (Cache_Mode e) "exact") && negb (String.eqb (Cache_Mode e) "semantic"))
        "cache.mode must be exact or semantic" <|>
      refuse (negb (Contains ["key"; "project"; "route"] (Cache_Scope e)))
        "cache.scope must be key, project or route" <|>
      refuse ((Cache_TTLSeconds e <? 1) || (Cache_TTLSeconds e >? 604800) ||
              (Cache_MaxEntryBytes e <? 1) || (Cache_MaxEntryBytes e >? Z.shiftl 16 20))
        "cache TTL must be 1–604800 seconds and entries 1–16777216 bytes" <|>
      refuse (negb (String.eqb (Cache_Streaming e) "replay") &&
              negb (String.eqb (Cache_Streaming e) "bypass"))
        "cache.streaming must be replay or bypass" <|>
      refuse (negb (uniqueMembers (Cache_Operations e) ["generation"; "embeddings"; "rerank"; "moderation"]))
        "cache.operations contains unsupported or duplicate operations" <|>
      refuse (negb (uniqueMembers (Cache_CountHitsAgainst e) ["requests"; "tokens"; "budgets"]) ||
              negb (Contains (Cache_CountHitsAgainst e) "requests"))
        "cache.count_hits_against must contain requests and may include tokens and budgets" <|>
      if String.eqb (Cache_Mode e) "semantic" then
        refuse (negb (Cache_AllowUnsealedVectors e) || negb (ValidSlug (Cache_EmbeddingRoute e)))
          "semantic caching requires an embedding route and allow_unsealed_vectors acknowledgement" <|>
        refuse (negb (flt fzero (Cache_SimilarityThreshold e) && fle (Cache_SimilarityThreshold e) (fOfZ 1)) ||
                (Cache_MaxCandidates e <? 1) || (Cache_MaxCandidates e >? 32))
          "semantic similarity must be greater than zero and at most one, with 1–32 candidates" <|>
        refuse (negb (bool_decide (Cache_Operations e = ["generation"])))
          "semantic caching supports only generation; set operations to [generation]"
      else
        refuse (negb (String.eqb (Cache_EmbeddingRoute e) "") || Cache_AllowUnsealedVectors e ||
                Cache_AllowMultiturn e)
          "semantic options require cache.mode semantic"
  end.

Definition Prompt_Validate (p : option PromptPolicy) : option string :=
  match p with
  | None => None
  | Some p =>
      let refuse (b : bool) (m : string) := if b then Some m else None in
      refuse (negb (Contains [""; "5m"; "1h"] (Prompt_TTL p))) "prompt_cache.ttl must be 5m or 1h" <|>
      refuse (nonempty (Prompt_Positions p) &&
              negb (uniqueMembers (Prompt_Positions p) ["system"; "tools"; "last_user"]))
        "prompt_cache.positions must contain unique system, tools or last_user positions" <|>
      refuse (negb (Contains [""; "key"; "session"] (Prompt_KeySource p)))
        "prompt_cache.key_source must be key or session" <|>
      refuse (String.eqb (Prompt_KeySource p) "session" &&
              ((len (Prompt_SessionLabel p) =? 0) || (len (Prompt_SessionLabel p) >? 32)))
        "prompt_cache.session_label is required for session keys"
  end.

Definition RequestModalities : list string := ["text"; "image"; "audio"; "video"; "file"].

Definition exceeds (lo hi : option Z) : bool :=
  match lo, hi with Some a, Some b => a >? b | _, _ => false end.

Definition Predicate_validate (p : Predicate) (slug : string) (invalid : string → ValidationError)
  : option ValidationError :=
  first_error (λ bound, refuse_if (opt_test bound (λ b, b <? 0)) (invalid "token bounds are non-negative"))
    [Pr_MinInputTokens p; Pr_MaxInputTokens p; Pr_MinOutputTokens p; Pr_MaxOutputTokens p] <|>
  refuse_if (exceeds (Pr_MinInputTokens p) (Pr_MaxInputTokens p) ||
             exceeds (Pr_MinOutputTokens p) (Pr_MaxOutputTokens p))
    (invalid "a minimum exceeds its maximum") <|>
  refuse_if ((Z.of_nat (length (Pr_Operations p)) >? maxPredicateList) || negb (distinct (Pr_Operations p)))
    (invalid "operations are distinct") <|>
  refuse_if (nonempty (Pr_Modalities p) && negb (distinctMembers (Pr_Modalities p) RequestModalities))
    (invalid "modalities are distinct among text, image, audio, video and file") <|>
  refuse_if ((Z.of_nat (length (Pr_ReasoningEffort p)) >? maxPredicateList) ||
             negb (distinct (Pr_ReasoningEffort p)))
    (invalid "reasoning efforts are distinct") <|>
  first_error (λ effort, refuse_if (negb (effortName effort))
      (invalid "reasoning efforts are lowercase names")) (Pr_ReasoningEffort p) <|>
  match Pr_Classifier p with
  | None => None
  | Some c =>
      refuse_if (negb (ValidSlug (Classifier_Route c)) || String.eqb (Classifier_Route c) slug)
        (invalid "the classifier is another route") <|>
      refuse_if (negb (nonempty (Classifier_Labels c)) ||
                 (Z.of_nat (length (Classifier_Labels c)) >? maxPredicateList) ||
                 negb (distinct (Classifier_Labels c)))
        (invalid "the classifier matches 1 to 16 distinct labels") <|>
      first_error (λ label, refuse_if (String.eqb label "" || (len label >? 128))
          (invalid "classifier labels are 1 to 128 bytes")) (Classifier_Labels c) <|>
      refuse_if (opt_test (Classifier_MinScore c)
                   (λ s, IsNaN s || flt s fzero || flt (fOfZ 1) s))
        (invalid "min_score is between 0 and 1") <|>
      refuse_if ((Classifier_TimeoutMS c <? 1) || (Classifier_TimeoutMS c >? maxClassifierMS))
        (invalid "the classifier timeout is 1 to 30000 ms")
  end <|>
  refuse_if (opt_test (Pr_Plugin p) (λ q, negb (ValidDigest (Plugin_Digest q))))
    (invalid "the plugin is named by its lowercase SHA-256 digest").

(** The selectors of a behaviour, each with the identifiers seen before it. *)
Fixpoint validate_selectors (slug : string) (tagged : option (string → bool)) (ids : list string)
    (selectors : list Selector) : option ValidationError :=
  match selectors with
  | [] => None
  | s :: rest =>
      let invalid message :=
        invalidValue "selectors" ("Selector `" +:+ Selector_ID s +:+ "`: " +:+ message) in
      refuse_if (negb (ValidSelectorID (Selector_ID s)) || Contains ids (Selector_ID s))
        (invalidValue "selectors" "Each selector has a distinct lowercase identifier") <|>
      (if nonempty (Selector_Tags s) && String.eqb (Selector_Route s) "" then
         refuse_if ((Z.of_nat (length (Selector_Tags s)) >? maxSelectorTags) ||
                    negb (distinct (Selector_Tags s)))
           (invalid "name at most 8 distinct target tags") <|>
         first_error (λ tag,
             refuse_if (negb (targetTag tag) || opt_test tagged (λ t, negb (t tag)))
               (invalid ("tag `" +:+ tag +:+ "` is carried by no target"))) (Selector_Tags s)
       else if negb (nonempty (Selector_Tags s)) && negb (String.eqb (Selector_Route s) "") then
         refuse_if (negb (ValidSlug (Selector_Route s)) || String.eqb (Selector_Route s) slug)
           (invalid "delegate to another route by slug")
       else Some (invalid "choose target tags or delegate to a route")) <|>
      Predicate_validate (Selector_When s) slug invalid <|>
      validate_selectors slug tagged (Selector_ID s :: ids) rest
  end.

Definition validateSelectors (b : Behavior) (slug : string) (tagged : option (string → bool))
  : option ValidationError :=
  refuse_if (Z.of_nat (length (Selectors b)) >? maxSelectors)
    (invalidValue "selectors" "A route declares at most 16 selectors") <|>
  validate_selectors slug tagged [] (Selectors b).

Definition CostLimits_Validate (c : CostLimits) (field : string) : option ValidationError :=
  first_error (λ limit,
      refuse_if (opt_test limit (λ s, negb (ValidAmount s) || trims_to_empty s "0."))
        (invalidValue field "Cost limits are positive decimals with at most 12 fractional digits"))
    [DailyCostLimit c; MonthlyCostLimit c] <|>
  refuse_if (negb (is_some (DailyCostLimit c)) && negb (is_some (MonthlyCostLimit c)))
    (invalidValue field "A budget sets a daily or monthly cost limit").

Definition Shadow_Validate (s : Shadow) : option ValidationError :=
  refuse_if (IsNaN (SampleRate s) || fle (SampleRate s) fzero || flt (fOfZ 1) (SampleRate s))
    (invalidValue "targets" "A shadow sample_rate is greater than 0 and at most 1").

Definition ValidTargetTags (tags : list string) : bool :=
  negb ((Z.of_nat (length tags) >? maxTargetTags) || negb (distinct tags)) && forallb targetTag tags.

Fixpoint validate_fallbacks (slug : string) (seen : list string) (l : list Fallback)
  : option ValidationError :=
  match l with
  | [] => None
  | f :: rest =>
      refuse_if (negb (ValidSlug (Fallback_Route f)) || String.eqb (Fallback_Route f) slug)
        (invalidValue "fallbacks" "Each fallback names another route by slug") <|>
      refuse_if (Contains seen (Fallback_Route f))
        (invalidValue "fallbacks" "Each fallback route appears once") <|>
      refuse_if (negb (nonempty (Fallback_On f)) ||
                 negb (distinctMembers (Fallback_On f) fallbackConditions))
        (invalidValue "fallbacks" "Each fallback names distinct conditions among exhausted, context_window, content_filter, rate_limit and budget") <|>
      validate_fallbacks slug (Fallback_Route f :: seen) rest
  end.

Fixpoint validate_toolsets `{UUIDLib} (seen l : list string) : option ValidationError :=
  match l with
  | [] => None
  | id :: rest =>
      refuse_if (match uuid_Parse id with
                 | None => true
                 | Some parsed => negb (String.eqb (uuid_String parsed) id)
                 end || Contains seen id)
        (invalidValue "toolsets" "Use distinct canonical toolset IDs.") <|>
      validate_toolsets (id :: seen) rest
  end.

(** Go ranges over the retry map in no fixed order; the refusal it returns names
    the same field whichever invalid rule it meets first. *)
Definition validate_retry (r : gmap string RetryRule) : option ValidationError :=
  first_error (λ p,
      refuse_if (negb (Contains retryClasses p.1))
        (invalidValue "retry" "Retries apply to connect, timeout, rate_limit and upstream_server failures") <|>
      refuse_if ((MaxRetries p.2 <? 1) || (MaxRetries p.2 >? maxRetries) || (BaseBackoffMS p.2 <? 1) ||
                 (MaxBackoffMS p.2 <? BaseBackoffMS p.2) || (MaxBackoffMS p.2 >? maxBackoffMS))
        (invalidValue "retry" "Each retry rule allows 1 to 10 retries with a base backoff no larger than its maximum of at most 60000 ms"))
    (map_to_list r).

Definition validate_affinity (a : option Affinity) : option ValidationError :=
  match a with
  | None => None
  | Some a =>
      refuse_if (negb (String.eqb (Affinity_Source a) AffinityLabel && ValidKey (Affinity_Label a)) &&
                 negb (String.eqb (Affinity_Source a) AffinityCacheKey && String.eqb (Affinity_Label a) ""))
        (invalidValue "affinity" "Affinity reads an attribution label or the dialect's cache key")
  end.

Definition on_error (field : string) (e : option string) : option ValidationError :=
  match e with Some m => Some (invalidValue field m) | None => None end.

Definition Behavior_Validate `{UUIDLib} (b : Behavior) (slug : string)
    (tagged : option (string → bool)) : option ValidationError :=
  refuse_if (opt_test (RunLimits b)
               (λ l, negb (WorkflowBounds_Valid l) || negb (String.eqb (ToolExecution b) "gateway")))
    (invalidValue "run_limits" "Use valid workflow limits on a gateway tool route.") <|>
  refuse_if (negb (String.eqb (ToolExecution b) "") && negb (String.eqb (ToolExecution b) "gateway"))
    (invalidValue "tool_execution" "Use gateway or omit tool execution.") <|>
  refuse_if (nonempty (Toolsets b) && negb (String.eqb (ToolExecution b) "gateway"))
    (invalidValue "toolsets" "Toolsets require gateway tool execution.") <|>
  refuse_if (ResponsesMCPItems b && negb (String.eqb (ToolExecution b) "gateway"))
    (invalidValue "responses_mcp_items" "Responses MCP items require gateway tool execution.") <|>
  validate_toolsets [] (Toolsets b) <|>
  on_error "cache" (Cache_Validate (Cache b)) <|>
  on_error "prompt_cache" (Prompt_Validate (PromptCache b)) <|>
  refuse_if (negb (bodylimit_Valid (MaxBodyBytes b)))
    (invalidValue "max_body_bytes" "Use a body limit from 1 to 1073741824 bytes, or null to inherit the installation limit.") <|>
  refuse_if (Z.of_nat (length (Fallbacks b)) >? maxFallbacks)
    (invalidValue "fallbacks" "A route declares at most 4 fallbacks") <|>
  validate_fallbacks slug [] (Fallbacks b) <|>
  validateSelectors b slug tagged <|>
  validate_retry (Retry b) <|>
  validate_affinity (Affinity_ b) <|>
  match Budget b with Some c => CostLimits_Validate c "budget" | None => None end.

Definition Behavior_IsZero (b : Behavior) : bool :=
  negb (is_some (RunLimits b)) && String.eqb (ToolExecution b) "" && negb (nonempty (Toolsets b)) &&
  negb (ResponsesMCPItems b) && negb (is_some (Cache b)) && negb (is_some (PromptCache b)) &&
  negb (CallerCostExempt b) && negb (ProviderFetchedDocuments b) && negb (nonempty (Fallbacks b)) &&
  negb (nonempty (Selectors b)) && Nat.eqb (size (Retry b)) 0 && negb (is_some (Affinity_ b)) &&
  negb (is_some (Budget b)) && negb (is_some (MaxBodyBytes b)) && negb (is_some (Passthrough b)).

(** ** References between routes *)

Record routeEdge := mkEdge { to : string; serving : bool }.

Definition edges (b : Behavior) : list routeEdge :=
  (match Cache b with
   | Some c => if String.eqb (Cache_Mode c) "semantic" then [mkEdge (Cache_EmbeddingRoute c) false] else []
   | None => []
   end) ++
  map (λ f, mkEdge (Fallback_Route f) true) (Fallbacks b) ++
  concat (map (λ s,
    (if negb (String.eqb (Selector_Route s) "") then [mkEdge (Selector_Route s) true] else []) ++
    (match Pr_Classifier (Selector_When s) with
     | Some c => [mkEdge (Classifier_Route c) false]
     | None => []
     end)) (Selectors b)).

(** The routes a behaviour refers to, each once, in declaration order. *)
Definition References (b : Behavior) : list string :=
  foldl (λ out e, if Contains out (to e) then out else out ++ [to e]) [] (edges b).

Definition sameProject (a b : option string) : bool :=
  match a, b with
  | None, None => true
  | Some x, Some y => String.eqb x y
  | _, _ => false
  end.

Record Refusal := mkRefusal { Refusal_Code : string; Refusal_Message : string }.
