(* ===== verification/RouteGraph.v ===== *)
(** * The graph of routes

    [CheckRouteGraph] of [internal/routing/behavior.go] and the caller cost policy
    of [internal/routing/caller_cost.go]. Both walk the fallback, delegation and
    classifier edges of the published routes depth first; Go's recursive closures
    over shared maps become fixpoints that pass the maps along. The fuel is one
    more than the number of routes: a nested visit marks a route no enclosing
    visit has marked. *)

From S2P Require Import Prelude Go Amount Policy Routes.
From stdpp Require Import relations.
Local Open Scope Z_scope.
Local Open Scope olp_scope.

(** A recursive search either finishes with a value, stops at a refusal, or has
    exhausted the model's fuel, which [CheckRouteGraph] never does. *)
Inductive search (A E : Type) : Type :=
  | Done (a : A)
  | Refused (e : E)
  | OutOfFuel.
Arguments Done {A E} a.
Arguments Refused {A E} e.
Arguments OutOfFuel {A E}.

(** ** Checking the graph *)

Definition project_mismatch (slug next : string) : Refusal :=
  mkRefusal "route_graph_project_mismatch"
    ("Route `" +:+ slug +:+ "` refers to `" +:+ next +:+ "` in another project.").

Definition fidelity_mismatch (slug next : string) : Refusal :=
  mkRefusal "route_graph_fidelity_mismatch"
    ("Strict route `" +:+ slug +:+ "` may fall back or delegate only to strict routes; `" +:+
     next +:+ "` is transformed.").

Definition cycle (slug : string) : Refusal :=
  mkRefusal "route_graph_cycle"
    ("Route `" +:+ slug +:+ "` reaches itself through fallbacks, selectors or classifiers.").

Definition too_deep (slug : string) : Refusal :=
  mkRefusal "route_graph_too_deep"
    ("Route `" +:+ slug +:+ "` chains more than 3 routes through fallbacks and selectors.").

Definition route_edges (r : Route) : list routeEdge := edges (Route_Behavior r).

(** The first loop of [CheckRouteGraph] on one edge of [r]. *)
Definition check_edge (routes : gmap string Route) (r : Route) (e : routeEdge) : option Refusal :=
  match routes !! to e with
  | None => None
  | Some next =>
      if negb (sameProject (Route_ProjectID r) (Route_ProjectID next)) then
        Some (project_mismatch (Route_Slug r) (to e))
      else if serving e && Strict (Route_FidelityMode r) && negb (Strict (Route_FidelityMode next)) then
        Some (fidelity_mismatch (Route_Slug r) (to e))
      else None
  end.

Definition check_edges (routes : gmap string Route) (slug : string) : option Refusal :=
  match routes !! slug with
  | None => None
  | Some r => first_error (check_edge routes r) (route_edges r)
  end.

(** The two maps the closure [visit] shares: a missing state is 0. *)
Record visiting := mkVisiting { v_state : gmap string Z; v_depth : gmap string Z }.

Definition state_of (v : visiting) (slug : string) : Z := default 0 (v_state v !! slug).
Definition depth_of (v : visiting) (slug : string) : Z := default 0 (v_depth v !! slug).

Definition mark (v : visiting) (slug : string) : visiting :=
  mkVisiting (<[slug := 1]> (v_state v)) (v_depth v).

Definition finish (v : visiting) (slug : string) (d : Z) : visiting :=
  mkVisiting (<[slug := 2]> (v_state v)) (<[slug := d]> (v_depth v)).

(** The loop of [visit] over a route's edges, [visit] being the recursive call. *)
Fixpoint visit_edges (visit : visiting → string → search visiting Refusal)
    (routes : gmap string Route) (es : list routeEdge) (v : visiting) (longest : Z)
  : search (visiting * Z) Refusal :=
  match es with
  | [] => Done (v, longest)
  | e :: rest =>
      if negb (bool_decide (is_Some (routes !! to e))) then visit_edges visit routes rest v longest
      else match visit v (to e) with
           | Done v' =>
               visit_edges visit routes rest v'
                 (if serving e then Z.max longest (depth_of v' (to e)) else longest)
           | Refused err => Refused err
           | OutOfFuel => OutOfFuel
           end
  end.

Fixpoint visit (fuel : nat) (routes : gmap string Route) (v : visiting) (slug : string)
  : search visiting Refusal :=
  match fuel with
  | O => OutOfFuel
  | S fuel' =>
      if state_of v slug =? 1 then Refused (cycle slug)
      else if state_of v slug =? 2 then Done v
      else
        match visit_edges (visit fuel' routes) routes
                (match routes !! slug with Some r => route_edges r | None => [] end)
                (mark v slug) 0 with
        | Done (v', longest) =>
            if longest + 1 >? MaxRouteDepth then Refused (too_deep slug)
            else Done (finish v' slug (longest + 1))
        | Refused err => Refused err
        | OutOfFuel => OutOfFuel
        end
  end.

(** [for _, slug := range slugs { visit(slug) }] *)
Fixpoint visit_all (fuel : nat) (routes : gmap string Route) (v : visiting) (slugs : list string)
  : search visiting Refusal :=
  match slugs with
  | [] => Done v
  | slug :: rest =>
      match visit fuel routes v slug with
      | Done v' => visit_all fuel routes v' rest
      | other => other
      end
  end.

Definition sorted_slugs (routes : gmap string Route) : list string :=
  SortStableFunc CompareString (map_to_list routes).*1.

Definition CheckRouteGraph (routes : gmap string Route) : search unit Refusal :=
  match first_error (check_edges routes) (sorted_slugs routes) with
  | Some e => Refused e
  | None =>
      match visit_all (S (size routes)) routes (mkVisiting ∅ ∅) (sorted_slugs routes) with
      | Done _ => Done ()
      | Refused e => Refused e
      | OutOfFuel => OutOfFuel
      end
  end.

(** ** What the check is for *)

(** [a] refers to the published route [b], through an edge that serves or not. *)
Definition refers_by (routes : gmap string Route) (sv : bool) (a b : string) : Prop :=
  ∃ r e, routes !! a = Some r ∧ e ∈ route_edges r ∧ to e = b ∧ serving e = sv ∧
         is_Some (routes !! b).

Definition refers (routes : gmap string Route) (a b : string) : Prop :=
  ∃ sv, refers_by routes sv a b.

(** [serving_chain routes a n]: a chain of [n] routes from [a], each serving
    through the next. *)
Inductive serving_chain (routes : gmap string Route) : string → Z → Prop :=
  | chain_one a : serving_chain routes a 1
  | chain_next a b n :
      refers_by routes true a b → serving_chain routes b n → serving_chain routes a (n + 1).

Record graph_ok (routes : gmap string Route) : Prop := {
  ok_project : ∀ a b ra rb, refers routes a b → routes !! a = Some ra → routes !! b = Some rb →
    Route_ProjectID ra = Route_ProjectID rb;
  ok_fidelity : ∀ a b ra rb, refers_by routes true a b →
    routes !! a = Some ra → routes !! b = Some rb →
    Strict (Route_FidelityMode ra) = true → Strict (Route_FidelityMode rb) = true;
  ok_acyclic : ∀ a, ¬ tc (refers routes) a a;
  ok_shallow : ∀ a n, serving_chain routes a n → n <= MaxRouteDepth;
}.

Section VisitFacts.
Context (routes : gmap string Route).
Implicit Types (v : visiting) (s slug : string).

Definition grey v s : Prop := v_state v !! s = Some 1.
Definition black v s : Prop := v_state v !! s = Some 2.

(** What the maps say of the graph while the search runs. *)
Record visit_inv v : Prop := {
  inv_states : ∀ s z, v_state v !! s = Some z → z = 1 ∨ z = 2;
  inv_known : ∀ s, is_Some (v_state v !! s) → is_Some (routes !! s);
  inv_acc : ∀ s, black v s → Acc (flip (refers routes)) s;
  inv_chain : ∀ s, black v s → serving_chain routes s (depth_of v s);
  inv_longest : ∀ s n, black v s → serving_chain routes s n → n <= depth_of v s;
  inv_depth : ∀ s, black v s → depth_of v s <= MaxRouteDepth;
}.

(** A visit keeps the path it is on and what it has finished. *)
Record visit_frame v v' : Prop := {
  frame_grey : ∀ s, grey v' s ↔ grey v s;
  frame_black : ∀ s, black v s → black v' s;
  frame_depth : ∀ s, black v s → depth_of v' s = depth_of v s;
}.

#[local] Instance visit_frame_preorder : PreOrder visit_frame.
Proof.
  split.
  - intros v. split; naive_solver.
  - intros v1 v2 v3 [G1 B1 D1] [G2 B2 D2]. split; [|naive_solver|].
    + intros s. by rewrite G2.
    + intros s H. rewrite D2, D1; auto.
Qed.

(** The routes not reached yet: what bounds the nesting of visits. *)
Definition unvisited v : nat := size (dom routes ∖ dom (v_state v)).

Lemma frame_unvisited v v' :
  visit_inv v → visit_frame v v' → (unvisited v' ≤ unvisited v)%nat.
Proof.
  intros I F. unfold unvisited. apply subseteq_size. intros s. rewrite !elem_of_difference, !elem_of_dom.
  intros [Hr Hn]. split; [done|]. intros [z Hz]. apply Hn.
  destruct (inv_states _ I _ _ Hz) as [->| ->].
  - exists 1. by apply (frame_grey _ _ F).
  - exists 2. by apply (frame_black _ _ F).
Qed.

Lemma mark_unvisited v s :
  is_Some (routes !! s) → v_state v !! s = None → (unvisited (mark v s) < unvisited v)%nat.
Proof.
  intros R N. unfold unvisited. apply subset_size. split.
  - intros t. rewrite !elem_of_difference, !elem_of_dom. simpl. intros [? H]. split; [done|].
    intros Ht. apply H. destruct (decide (s = t)) as [->|]; [by rewrite lookup_insert_eq|].
    by rewrite lookup_insert_ne.
  - intros Sub. specialize (Sub s). rewrite !elem_of_difference, !elem_of_dom in Sub. simpl in Sub.
    rewrite lookup_insert_eq, N in Sub. destruct Sub as [_ Sub]; [split; [done|by intros []]|].
    by apply Sub.
Qed.

Lemma state_of_cases v s :
  visit_inv v →
  (state_of v s = 0 ∧ v_state v !! s = None) ∨ (state_of v s = 1 ∧ grey v s) ∨
  (state_of v s = 2 ∧ black v s).
Proof.
  intros I. unfold state_of, grey, black. destruct (v_state v !! s) as [z|] eqn:E; [|by left].
  destruct (inv_states _ I _ _ E) as [->| ->]; simpl; auto.
Qed.

Lemma black_mark v s t : v_state v !! s = None → black (mark v s) t ↔ black v t.
Proof.
  intros N. unfold black; simpl. destruct (decide (s = t)) as [->|].
  - rewrite lookup_insert_eq, N. naive_solver.
  - by rewrite lookup_insert_ne.
Qed.

Lemma grey_mark v s t : grey (mark v s) t ↔ s = t ∨ grey v t.
Proof.
  unfold grey; simpl. destruct (decide (s = t)) as [->|].
  - rewrite lookup_insert_eq. naive_solver.
  - rewrite lookup_insert_ne by done. naive_solver.
Qed.

Lemma mark_inv v s :
  visit_inv v → is_Some (routes !! s) → v_state v !! s = None → visit_inv (mark v s).
Proof.
  intros [St K A C L D] R N. split.
  - intros t z. simpl. rewrite lookup_insert. case_decide; naive_solver.
  - intros t. simpl. rewrite lookup_insert. case_decide; naive_solver.
  - intros t Ht%black_mark; auto.
  - intros t Ht%black_mark; [|done]. by apply C.
  - intros t n Ht%black_mark; [|done]. by apply L.
  - intros t Ht%black_mark; [|done]. by apply D.
Qed.

(** What the loop over the edges of [slug] has established. *)
Record edges_done slug (es : list routeEdge) v (longest : Z) : Prop := {
  done_black : ∀ e, e ∈ es → is_Some (routes !! to e) → black v (to e);
  done_longest : ∀ e, e ∈ es → is_Some (routes !! to e) → serving e = true →
    depth_of v (to e) <= longest;
  done_attained : longest = 0 ∨
    ∃ e, e ∈ es ∧ is_Some (routes !! to e) ∧ serving e = true ∧ depth_of v (to e) = longest;
}.

Lemma finish_black v s t d : black (finish v s d) t ↔ s = t ∨ black v t.
Proof. unfold black; simpl. rewrite lookup_insert. case_decide; naive_solver. Qed.

Lemma finish_depth v s d : depth_of (finish v s d) s = d.
Proof. unfold depth_of; simpl. by rewrite lookup_insert_eq. Qed.

Lemma finish_depth_ne v s t d : s ≠ t → depth_of (finish v s d) t = depth_of v t.
Proof. intros. unfold depth_of; simpl. by rewrite lookup_insert_ne. Qed.

Lemma serving_chain_inv s n :
  serving_chain routes s n →
  n = 1 ∨ ∃ b m, n = m + 1 ∧ refers_by routes true s b ∧ serving_chain routes b m.
Proof. inversion 1; subst; eauto 10. Qed.

Lemma serving_chain_pos s n : serving_chain routes s n → 1 <= n.
Proof. induction 1; lia. Qed.

Lemma finish_chain v slug r longest :
  visit_inv v → routes !! slug = Some r → edges_done slug (route_edges r) v longest →
  serving_chain routes slug (longest + 1) ∧
  ∀ n, serving_chain routes slug n → n <= longest + 1.
Proof.
  intros I R [B L A]. assert (Hpos : 0 <= longest).
  { destruct A as [->|(e & He & P & Sv & <-)]; [done|].
    pose proof (serving_chain_pos _ _ (inv_chain _ I _ (B e He P))). lia. }
  split.
  - destruct A as [->|(e & He & P & Sv & <-)]; [constructor|].
    econstructor; [|by apply (inv_chain _ I), B]. by exists r, e.
  - intros n [->|(b & m & -> & (r' & e & R' & He & <- & Sv & P) & C)]%serving_chain_inv; [lia|].
    simplify_eq. specialize (L e He P Sv). pose proof (inv_longest _ I _ _ (B e He P) C). lia.
Qed.

Lemma finish_acc v slug r longest :
  visit_inv v → routes !! slug = Some r → edges_done slug (route_edges r) v longest →
  Acc (flip (refers routes)) slug.
Proof.
  intros I R [B _ _]. constructor. intros b (sv & r' & e & R' & He & <- & _ & P).
  simplify_eq. apply (inv_acc _ I). by apply B.
Qed.

Lemma finish_inv v slug r longest :
  visit_inv v → routes !! slug = Some r → edges_done slug (route_edges r) v longest →
  longest + 1 <= MaxRouteDepth → visit_inv (finish v slug (longest + 1)).
Proof.
  intros I R E Hd.
  destruct (finish_chain _ _ _ _ I R E) as [C L]. pose proof (finish_acc _ _ _ _ I R E) as A.
  destruct I as [St K A' C' L' D']. split.
  - intros t z. simpl. rewrite lookup_insert. case_decide; naive_solver.
  - intros t. simpl. rewrite lookup_insert. case_decide; subst; naive_solver.
  - intros t [->|Ht]%finish_black; auto.
  - intros t Ht%finish_black. destruct (decide (slug = t)) as [->|N].
    + by rewrite finish_depth.
    + rewrite finish_depth_ne by done. apply C'. naive_solver.
  - intros t n Ht%finish_black. destruct (decide (slug = t)) as [->|N].
    + rewrite finish_depth. auto.
    + rewrite finish_depth_ne by done. apply L'. naive_solver.
  - intros t Ht%finish_black. destruct (decide (slug = t)) as [->|N].
    + by rewrite finish_depth.
    + rewrite finish_depth_ne by done. apply D'. naive_solver.
Qed.

Lemma finish_frame v v' slug d :
  v_state v !! slug = None → visit_frame (mark v slug) v' → visit_frame v (finish v' slug d).
Proof.
  intros N [G B D]. split.
  - intros s. unfold grey at 1. simpl. rewrite lookup_insert. case_decide as E.
    + subst. unfold grey. rewrite N. naive_solver.
    + fold (grey v' s). rewrite G, grey_mark. naive_solver.
  - intros s Hs. apply finish_black. right. apply B. by apply black_mark.
  - intros s Hs. rewrite finish_depth_ne.
    + rewrite D; [done|by apply black_mark].
    + intros ->. unfold black in Hs. congruence.
Qed.

Lemma edges_done_nil slug v : edges_done slug [] v 0.
Proof. split; [intros e []%elem_of_nil..|by left]. Qed.

(** Extending the loop by one edge, [v'] being the state after its visit. *)
Lemma edges_done_skip slug es e v longest :
  ¬ is_Some (routes !! to e) → edges_done slug es v longest →
  edges_done slug (es ++ [e]) v longest.
Proof.
  intros N [B L A]. split.
  - intros e' [?| ->%list_elem_of_singleton]%elem_of_app; auto. done.
  - intros e' [?| ->%list_elem_of_singleton]%elem_of_app; auto. done.
  - destruct A as [|(e' & ? & ?)]; [by left|right]. exists e'. rewrite elem_of_app. naive_solver.
Qed.

Lemma edges_done_snoc slug es e v v' longest :
  edges_done slug es v longest → visit_frame v v' → black v' (to e) →
  is_Some (routes !! to e) →
  edges_done slug (es ++ [e]) v'
    (if serving e then Z.max longest (depth_of v' (to e)) else longest).
Proof.
  intros [B L A] F Be Pe. split.
  - intros e' [?| ->%list_elem_of_singleton]%elem_of_app P; [|done].
    by apply (frame_black _ _ F), B.
  - intros e' [He'| ->%list_elem_of_singleton]%elem_of_app P Sv.
    + rewrite (frame_depth _ _ F) by auto. specialize (L e' He' P Sv). destruct (serving e); lia.
    + rewrite Sv. lia.
  - assert (Hold : longest = 0 ∨ ∃ e', e' ∈ es ++ [e] ∧ is_Some (routes !! to e') ∧
              serving e' = true ∧ depth_of v' (to e') = longest).
    { destruct A as [|(e' & He' & P & Sv & Hd)]; [by left|right]. exists e'.
      rewrite elem_of_app, (frame_depth _ _ F) by auto. naive_solver. }
    destruct (serving e) eqn:Sv; [|done].
    destruct (Z.max_spec longest (depth_of v' (to e))) as [[_ ->]|[_ ->]]; [|done].
    right. exists e. rewrite elem_of_app, list_elem_of_singleton. auto.
Qed.

(** The contract of [visit]: with fuel for the routes not reached yet, from a
    state whose path leads to [slug], it either finishes [slug] or refuses a
    graph that is not well formed. *)
Definition visit_spec (go : visiting → string → search visiting Refusal) (bound : nat) : Prop :=
  ∀ v slug,
    visit_inv v → is_Some (routes !! slug) → (unvisited v < bound)%nat →
    (∀ g, grey v g → tc (refers routes) g slug) →
    match go v slug with
    | Done v' => visit_inv v' ∧ visit_frame v v' ∧ black v' slug
    | Refused _ => ¬ graph_ok routes
    | OutOfFuel => False
    end.

Lemma visit_edges_spec go bound slug r es pre v longest :
  visit_spec go bound → routes !! slug = Some r → route_edges r = pre ++ es →
  visit_inv v → (unvisited v < bound)%nat →
  (∀ g, grey v g → rtc (refers routes) g slug) → edges_done slug pre v longest →
  match visit_edges go routes es v longest with
  | Done (v', longest') =>
      visit_inv v' ∧ visit_frame v v' ∧ edges_done slug (route_edges r) v' longest'
  | Refused _ => ¬ graph_ok routes
  | OutOfFuel => False
  end.
Proof.
  intros Go R. revert pre v longest.
  induction es as [|e es IH]; intros pre v longest Split I Fuel Path Hd; simpl.
  { rewrite app_nil_r in Split. rewrite Split. split; [done|]. split; [reflexivity|done]. }
  assert (Split' : route_edges r = (pre ++ [e]) ++ es) by by rewrite <- app_assoc.
  case_bool_decide as P; simpl; [|by apply (IH (pre ++ [e])); auto using edges_done_skip].
  assert (Step : refers routes slug (to e)).
  { exists (serving e), r, e. rewrite Split, elem_of_app, elem_of_cons. auto. }
  specialize (Go v (to e) I P Fuel). destruct (go v (to e)) as [v'|err|].
  - destruct Go as (I' & F & B).
    { intros g G. eapply tc_rtc_l; [by apply Path|by apply tc_once]. }
    specialize (IH (pre ++ [e]) v'
      (if serving e then Z.max longest (depth_of v' (to e)) else longest) Split' I').
    pose proof (frame_unvisited _ _ I F).
    assert (G' : ∀ g, grey v' g → rtc (refers routes) g slug).
    { intros g G. apply Path. by apply (frame_grey _ _ F). }
    specialize (IH ltac:(lia) G' (edges_done_snoc _ _ _ _ _ _ Hd F B P)).
    destruct (visit_edges _ _ _ _ _) as [[v2 l2]| |]; [|done..].
    destruct IH as (? & F2 & ?). split; [done|]. split; [by transitivity v'|done].
  - apply Go. intros g G. eapply tc_rtc_l; [by apply Path|by apply tc_once].
  - apply Go. intros g G. eapply tc_rtc_l; [by apply Path|by apply tc_once].
Qed.

Lemma visit_ok fuel : visit_spec (visit fuel routes) fuel.
Proof.
  induction fuel as [|fuel IH]; intros v slug I R Fuel Path; simpl; [lia|].
  destruct (state_of_cases v slug I) as [[-> N]|[[-> G]|[-> B]]]; simpl.
  - destruct R as [r R]. rewrite R.
    pose proof (mark_inv v slug I ltac:(eauto) N) as I1.
    pose proof (mark_unvisited v slug ltac:(eauto) N).
    assert (Path1 : ∀ g, grey (mark v slug) g → rtc (refers routes) g slug).
    { intros g [->|G]%grey_mark; [done|]. by apply tc_rtc, Path. }
    pose proof (visit_edges_spec _ _ slug r (route_edges r) [] _ 0 IH R eq_refl I1
      ltac:(lia) Path1 (edges_done_nil _ _)) as E.
    destruct (visit_edges _ _ _ _ _) as [[v' longest]| |]; [|done..].
    destruct E as (I' & F & Dn).
    destruct (longest + 1 >? MaxRouteDepth) eqn:Deep.
    + intros Ok. destruct (finish_chain _ _ _ _ I' R Dn) as [C _].
      apply (ok_shallow _ Ok) in C. lia.
    + split; [by eapply finish_inv; eauto; lia|]. split; [by eapply finish_frame|].
      apply finish_black. by left.
  - intros Ok. by apply (ok_acyclic _ Ok slug), Path.
  - done.
Qed.

Lemma visit_all_ok fuel v slugs :
  visit_inv v → (unvisited v < fuel)%nat → (∀ g, ¬ grey v g) →
  Forall (λ s, is_Some (routes !! s)) slugs →
  match visit_all fuel routes v slugs with
  | Done v' => visit_inv v' ∧ visit_frame v v' ∧ Forall (black v') slugs
  | Refused _ => ¬ graph_ok routes
  | OutOfFuel => False
  end.
Proof.
  revert v. induction slugs as [|s slugs IH]; intros v I Fuel NG F; simpl; [done|].
  apply Forall_cons in F as [Fs F].
  pose proof (visit_ok fuel v s I Fs Fuel ltac:(intros g G; by destruct (NG g))) as V.
  destruct (visit fuel routes v s) as [v1| |]; [|done..]. destruct V as (I1 & F1 & B1).
  pose proof (frame_unvisited _ _ I F1).
  specialize (IH v1 I1 ltac:(lia) ltac:(intros g G; by apply (NG g), (frame_grey _ _ F1)) F).
  destruct (visit_all fuel routes v1 slugs) as [v2| |]; [|done..].
  destruct IH as (I2 & F2 & B2). split; [done|]. split; [by transitivity v1|].
  constructor; [by apply (frame_black _ _ F2)|done].
Qed.
End VisitFacts.

Section CheckFacts.
Context (routes : gmap string Route).

Lemma elem_of_sorted_slugs s : s ∈ sorted_slugs routes ↔ is_Some (routes !! s).
Proof.
  unfold sorted_slugs. rewrite elem_of_SortStableFunc, list_elem_of_fmap. split.
  - intros ([k r] & -> & H%elem_of_map_to_list). by exists r.
  - intros [r H]. exists (s, r). by rewrite elem_of_map_to_list.
Qed.

Lemma check_edge_None r e :
  check_edge routes r e = None ↔
  ∀ next, routes !! to e = Some next →
    Route_ProjectID r = Route_ProjectID next ∧
    (serving e = true → Strict (Route_FidelityMode r) = true →
     Strict (Route_FidelityMode next) = true).
Proof.
  unfold check_edge. destruct (routes !! to e) as [next|]; [|naive_solver].
  assert (SP : sameProject (Route_ProjectID r) (Route_ProjectID next) = true ↔
               Route_ProjectID r = Route_ProjectID next).
  { unfold sameProject. repeat case_match; rewrite ?String.eqb_eq; naive_solver. }
  destruct (sameProject _ _) eqn:E; simpl; [|naive_solver].
  destruct (serving e), (Strict (Route_FidelityMode r)), (Strict (Route_FidelityMode next)) eqn:?;
    simpl; naive_solver congruence.
Qed.

Lemma check_edges_None :
  first_error (check_edges routes) (sorted_slugs routes) = None ↔
  ∀ a r e, routes !! a = Some r → e ∈ route_edges r → check_edge routes r e = None.
Proof.
  rewrite first_error_None, Forall_forall. split.
  - intros H a r e R He. specialize (H a ltac:(by apply elem_of_sorted_slugs)).
    unfold check_edges in H. rewrite R, first_error_None, Forall_forall in H. auto.
  - intros H a [r R]%elem_of_sorted_slugs. unfold check_edges.
    rewrite R, first_error_None, Forall_forall. eauto.
Qed.

Lemma local_ok :
  first_error (check_edges routes) (sorted_slugs routes) = None ↔
  (∀ a b ra rb, refers routes a b → routes !! a = Some ra → routes !! b = Some rb →
    Route_ProjectID ra = Route_ProjectID rb) ∧
  (∀ a b ra rb, refers_by routes true a b → routes !! a = Some ra → routes !! b = Some rb →
    Strict (Route_FidelityMode ra) = true → Strict (Route_FidelityMode rb) = true).
Proof.
  rewrite check_edges_None. split.
  - intros H. split.
    + intros a b ra rb (sv & r & e & R & He & <- & _ & _) Ra Rb. simplify_eq.
      eapply (proj1 (check_edge_None _ e)); eauto.
    + intros a b ra rb (r & e & R & He & <- & Sv & _) Ra Rb. simplify_eq.
      eapply (proj1 (check_edge_None _ e)); eauto.
  - intros [HP HF] a r e R He. apply check_edge_None. intros next N. split.
    + eapply HP; [|done..]. exists (serving e), r, e. eauto 10.
    + intros Sv. eapply HF; [|done..]. exists r, e. eauto 10.
Qed.

Lemma Acc_no_cycle {A} (R : A → A → Prop) a : Acc (flip R) a → ¬ tc R a a.
Proof.
  induction 1 as [a _ IH]. intros T.
  assert (∃ b, R a b ∧ rtc R b a) as (b & Hb & T').
  { inversion T; subst; eauto using rtc_refl, tc_rtc. }
  apply (IH b Hb). by eapply tc_rtc_l; [|apply tc_once].
Qed.

Lemma unvisited_start : (unvisited routes (mkVisiting ∅ ∅) < S (size routes))%nat.
Proof.
  unfold unvisited. simpl. rewrite dom_empty_L, difference_empty_L, size_dom. lia.
Qed.

Lemma no_marks s z : v_state (mkVisiting ∅ ∅) !! s = Some z → False.
Proof. simpl. by rewrite lookup_empty. Qed.

Lemma visit_inv_start : visit_inv routes (mkVisiting ∅ ∅).
Proof.
  split; simpl.
  - intros s z. by rewrite lookup_empty.
  - intros s [z H]. by rewrite lookup_empty in H.
  - intros s []%no_marks.
  - intros s []%no_marks.
  - intros s n []%no_marks.
  - intros s []%no_marks.
Qed.

Lemma visit_all_start :
  match visit_all (S (size routes)) routes (mkVisiting ∅ ∅) (sorted_slugs routes) with
  | Done v => visit_inv routes v ∧ ∀ s, is_Some (routes !! s) → black v s
  | Refused _ => ¬ graph_ok routes
  | OutOfFuel => False
  end.
Proof.
  assert (K : Forall (λ s, is_Some (routes !! s)) (sorted_slugs routes)).
  { apply Forall_forall. intros s. by rewrite elem_of_sorted_slugs. }
  pose proof (visit_all_ok routes _ _ _ visit_inv_start unvisited_start
    (λ g, no_marks g 1) K) as V.
  destruct (visit_all _ _ _ _); [|done..]. destruct V as (I & _ & B).
  split; [done|]. intros s Hs. rewrite Forall_forall in B. by apply B, elem_of_sorted_slugs.
Qed.
End CheckFacts.

(** C12. [CheckRouteGraph] accepts exactly the well-formed route graphs: it succeeds
    if and only if every reference to a published route stays in its project, no
    strict route is served through a transformed one, no route reaches itself
    through fallbacks, delegations or classifiers, and no chain of serving routes
    is longer than [MaxRouteDepth]. The search always ends: fuel of one more than
    the number of routes is never exhausted. *)
Theorem check_route_graph_exact (routes : gmap string Route) :
  (CheckRouteGraph routes = Done () ↔ graph_ok routes) ∧ CheckRouteGraph routes ≠ OutOfFuel.
Proof.
  unfold CheckRouteGraph. pose proof (local_ok routes) as L.
  destruct (first_error _ _) as [e|] eqn:E.
  { split; [|done]. split; [done|]. intros [P F _ _]. by pose proof (proj2 L (conj P F)). }
  destruct (proj1 L eq_refl) as [P F]. pose proof (visit_all_start routes) as V.
  destruct (visit_all _ _ _ _) as [v| |]; [|by split|done].
  split; [|done]. split; [intros _|done]. destruct V as [I B]. split; [done..| |].
  - intros a T. assert (is_Some (routes !! a)) as K.
    { inversion T as [? ? (sv & r & ? & R & _)|? ? ? (sv & r & ? & R & _)]; by exists r. }
    revert T. apply Acc_no_cycle. by apply (inv_acc _ _ I), B.
  - intros a n C. destruct (routes !! a) as [r|] eqn:R.
    + assert (K : black v a) by (apply B; eauto).
      etrans; [by eapply (inv_longest _ _ I)|by apply (inv_depth _ _ I)].
    + inversion C as [|? b ? (r & e & R' & _)]; subst; [done|congruence].
Qed.

(** ** Caller cost policy *)

Definition credential_source (s : Snapshot) (t : Target) : string :=
  match Providers s !! Target_ProviderID t with
  | Some p => Provider_CredentialSource p
  | None => ""
  end.

Definition from_caller (s : Snapshot) (t : Target) : bool :=
  String.eqb (credential_source s t) "caller".

(** The target loop of [servesWithCallerCredentials]. *)
Definition spends_caller (s : Snapshot) (r : Route) : bool :=
  existsb (λ t, negb (is_some (Target_Shadow t)) && from_caller s t) (Route_Targets r).

(** Its loop over serving edges: it stops at the first edge that serves with
    caller credentials, and every call adds to the shared set. *)
Fixpoint any_serves (go : string → gset string → option (bool * gset string))
    (es : list routeEdge) (seen : gset string) : option (bool * gset string) :=
  match es with
  | [] => Some (false, seen)
  | e :: rest =>
      if serving e then
        match go (to e) seen with
        | Some (true, seen') => Some (true, seen')
        | Some (false, seen') => any_serves go rest seen'
        | None => None
        end
      else any_serves go rest seen
  end.

Fixpoint servesWithCallerCredentials (fuel : nat) (s : Snapshot) (slug : string)
    (seen : gset string) : option (bool * gset string) :=
  match fuel with
  | O => None
  | S fuel' =>
      match Snap_Routes s !! slug with
      | None => Some (false, seen)
      | Some route =>
          if bool_decide (slug ∈ seen) then Some (false, seen)
          else
            let seen := {[slug]} ∪ seen in
            if spends_caller s route then Some (true, seen)
            else any_serves (servesWithCallerCredentials fuel' s) (route_edges route) seen
      end
  end.

Definition search_fuel (s : Snapshot) : nat := S (size (Snap_Routes s)).

Inductive CallerCostError : Type :=
  | ShadowRequiresOperator (route : string)
  | ExemptsOperatorTarget (route : string)
  | ChangesCostPolicy (route next : string)
  | ClassifiesWithCaller (route classifier : string)
  | CallerSearchOutOfFuel.

Definition check_cost_target (s : Snapshot) (route : Route) (t : Target) : option CallerCostError :=
  let caller := from_caller s t in
  match Target_Shadow t with
  | Some _ => refuse_if caller (ShadowRequiresOperator (Route_Slug route))
  | None =>
      refuse_if (CallerCostExempt (Route_Behavior route) && negb caller)
        (ExemptsOperatorTarget (Route_Slug route))
  end.

(** The closure [check]. *)
Definition check_cost_next (s : Snapshot) (route : Route) (slug : string) : option CallerCostError :=
  match Snap_Routes s !! slug with
  | Some next =>
      refuse_if (negb (Bool.eqb (CallerCostExempt (Route_Behavior next))
                         (CallerCostExempt (Route_Behavior route))))
        (ChangesCostPolicy (Route_Slug route) slug)
  | None => None
  end.

Definition check_cost_selector (s : Snapshot) (route : Route) (sel : Selector)
  : option CallerCostError :=
  (if negb (String.eqb (Selector_Route sel) "") then check_cost_next s route (Selector_Route sel)
   else None) <|>
  match Pr_Classifier (Selector_When sel) with
  | None => None
  | Some c =>
      match servesWithCallerCredentials (search_fuel s) s (Classifier_Route c) ∅ with
      | Some (true, _) => Some (ClassifiesWithCaller (Route_Slug route) (Classifier_Route c))
      | Some (false, _) => None
      | None => Some CallerSearchOutOfFuel
      end
  end.

Definition validateCallerCostPolicy (s : Snapshot) (route : Route) : option CallerCostError :=
  first_error (check_cost_target s route) (Route_Targets route) <|>
  first_error (λ f, check_cost_next s route (Fallback_Route f)) (Fallbacks (Route_Behavior route)) <|>
  first_error (check_cost_selector s route) (Selectors (Route_Behavior route)).

Section CallerCost.
Context (s : Snapshot).
Let routes := Snap_Routes s.

(** [a] is served through [b]. *)
Definition serves_through : string → string → Prop := refers_by routes true.

Definition spends (b : string) : Prop := ∃ r, routes !! b = Some r ∧ spends_caller s r = true.

Definition unseen (seen : gset string) : nat := size (dom routes ∖ seen).

(** After an answer [false], what the search has newly seen spends no caller
    credential and leads only to what it has seen. *)
Definition closed_since (before after : gset string) : Prop :=
  before ⊆ after ∧
  ∀ x, x ∈ after → x ∉ before →
    ¬ spends x ∧ ∀ y, serves_through x y → y ∈ after.

Definition serves_spec (go : string → gset string → option (bool * gset string)) (bound : nat)
  : Prop :=
  ∀ slug seen, (unseen seen < bound)%nat →
    match go slug seen with
    | None => False
    | Some (true, _) => ∃ b, rtc serves_through slug b ∧ spends b
    | Some (false, seen') =>
        closed_since seen seen' ∧ (is_Some (routes !! slug) → slug ∈ seen')
    end.

Lemma closed_since_trans a b c : closed_since a b → closed_since b c → closed_since a c.
Proof.
  intros [S1 C1] [S2 C2]. split; [set_solver|]. intros x Hx Nx.
  destruct (decide (x ∈ b)) as [Hb|Hb].
  - destruct (C1 x Hb Nx) as [? N]. split; [done|]. set_solver.
  - auto.
Qed.

Lemma unseen_subseteq a b : a ⊆ b → (unseen b ≤ unseen a)%nat.
Proof. intros. unfold unseen. apply subseteq_size. set_solver. Qed.

Lemma unseen_add slug seen r :
  routes !! slug = Some r → slug ∉ seen → (unseen ({[slug]} ∪ seen) < unseen seen)%nat.
Proof.
  intros R N. unfold unseen. apply subset_size. split; [set_solver|].
  intros Sub. assert (slug ∈ dom routes ∖ seen); [|set_solver].
  apply elem_of_difference. split; [by apply elem_of_dom_2 in R|done].
Qed.

Lemma any_serves_spec go bound a r es pre seen :
  serves_spec go bound → routes !! a = Some r → route_edges r = pre ++ es →
  (unseen seen < bound)%nat →
  (∀ e, e ∈ pre → serving e = true → is_Some (routes !! to e) → to e ∈ seen) →
  match any_serves go es seen with
  | None => False
  | Some (true, _) => ∃ b, tc serves_through a b ∧ spends b
  | Some (false, seen') =>
      closed_since seen seen' ∧ ∀ y, serves_through a y → y ∈ seen'
  end.
Proof.
  intros Go R. revert pre seen.
  induction es as [|e es IH]; intros pre seen Split Fuel Pre; simpl.
  { split; [split; [done|set_solver]|]. intros y (r' & e & R' & He & <- & Sv & P).
    rewrite R in R'. injection R' as <-. rewrite Split, app_nil_r in He. auto. }
  assert (Split' : route_edges r = (pre ++ [e]) ++ es) by by rewrite <- app_assoc.
  destruct (serving e) eqn:Sv.
  - specialize (Go (to e) seen Fuel). destruct (go (to e) seen) as [[[] seen']|]; [| |done].
    + destruct Go as (b & Hr & Hb). exists b. split; [|done].
      assert (is_Some (routes !! to e)).
      { inversion Hr as [|? ? ? (r' & ? & R' & _)]; subst; [|by exists r'].
        destruct Hb as (r' & ? & _). by exists r'. }
      eapply tc_rtc_r; [apply tc_once|done]. exists r, e. rewrite Split, elem_of_app, elem_of_cons.
      auto 10.
    + destruct Go as [C In]. pose proof (unseen_subseteq _ _ (proj1 C)).
      specialize (IH (pre ++ [e]) seen' Split' ltac:(lia)).
      assert (Pre' : ∀ e', e' ∈ pre ++ [e] → serving e' = true → is_Some (routes !! to e') →
                to e' ∈ seen').
      { intros e' [He'| ->%list_elem_of_singleton]%elem_of_app Sv' P; [|auto].
        apply (proj1 C). auto. }
      specialize (IH Pre'). destruct (any_serves go es seen') as [[[] seen2]|]; [done| |done].
      destruct IH as [C2 N]. split; [by eapply closed_since_trans|done].
  - apply (IH (pre ++ [e])); [done..|].
    intros e' [He'| ->%list_elem_of_singleton]%elem_of_app Sv' P; [auto|congruence].
Qed.

Lemma serves_ok fuel : serves_spec (servesWithCallerCredentials fuel s) fuel.
Proof.
  induction fuel as [|fuel IH]; intros slug seen Fuel; simpl; [lia|].
  fold routes. destruct (routes !! slug) as [r|] eqn:R.
  2:{ split; [split; [done|set_solver]|by intros []]. }
  case_bool_decide as Hin; [split; [split; [done|set_solver]|done]|].
  destruct (spends_caller s r) eqn:Sp.
  { exists slug. split; [done|]. by exists r. }
  pose proof (unseen_add slug seen r R Hin).
  pose proof (any_serves_spec _ _ slug r (route_edges r) [] ({[slug]} ∪ seen) IH R eq_refl
    ltac:(lia) ltac:(intros e []%elem_of_nil)) as A.
  destruct (any_serves _ _ _) as [[[] seen']|]; [| |done].
  - destruct A as (b & T & Hb). exists b. eauto using tc_rtc.
  - destruct A as [[Sub C] N]. split; [|set_solver]. split; [set_solver|].
    intros x Hx Nx. destruct (decide (x = slug)) as [->|Ne]; [|apply C; set_solver].
    split; [|done]. intros (r' & R' & Sp'). congruence.
Qed.

(** The search decides whether a route is served with caller credentials. *)
Lemma serves_exact slug :
  ∃ b seen, servesWithCallerCredentials (search_fuel s) s slug ∅ = Some (b, seen) ∧
    (b = true ↔ ∃ x, rtc serves_through slug x ∧ spends x).
Proof.
  assert (Fuel : (unseen ∅ < search_fuel s)%nat).
  { unfold unseen, search_fuel. rewrite difference_empty_L, size_dom. unfold routes. lia. }
  pose proof (serves_ok _ slug ∅ Fuel) as V.
  destruct (servesWithCallerCredentials _ _ _ _) as [[[] seen]|]; [by exists true, seen| |done].
  exists false, seen. split; [done|]. split; [done|]. intros (x & Hr & Hx).
  destruct V as [[_ C] In]. exfalso.
  assert (Hs : slug ∈ seen).
  { apply In. inversion Hr as [|? ? ? (r & ? & R & _)]; subst; [|by exists r].
    destruct Hx as (r & R & _). by exists r. }
  assert (x ∈ seen) as Hxs.
  { clear Hx In. induction Hr as [|a b c Hab Hbc IHr]; [done|].
    apply IHr. by apply (C a Hs). }
  by destruct (C x Hxs).
Qed.

Lemma check_cost_next_None route next r :
  check_cost_next s route next = None → routes !! next = Some r →
  CallerCostExempt (Route_Behavior r) = CallerCostExempt (Route_Behavior route).
Proof.
  unfold check_cost_next. fold routes. intros Hc R. rewrite R in Hc.
  unfold refuse_if in Hc. case_match eqn:E; [done|].
  apply negb_false_iff, Bool.eqb_prop in E. done.
Qed.

Lemma cost_policy_step a b ra rb :
  validateCallerCostPolicy s ra = None → routes !! a = Some ra → routes !! b = Some rb →
  serves_through a b →
  CallerCostExempt (Route_Behavior rb) = CallerCostExempt (Route_Behavior ra).
Proof.
  unfold validateCallerCostPolicy. intros V Ra Rb (r & e & R & He & Hto & Sv & _).
  rewrite Ra in R. injection R as <-.
  destruct (first_error _ (Route_Targets ra)); [done|].
  destruct (first_error _ (Fallbacks _)) eqn:F; [done|].
  rewrite first_error_None, Forall_forall in F. rewrite first_error_None, Forall_forall in V.
  unfold route_edges, edges in He. rewrite !elem_of_app in He. destruct He as [He|[He|He]].
  - repeat case_match; simpl in *; [|by apply elem_of_nil in He..].
    apply list_elem_of_singleton in He. by subst.
  - apply list_elem_of_fmap in He as (f & -> & Hf). simpl in Hto. subst.
    eapply check_cost_next_None; [|done]. by apply F.
  - apply list_elem_of_In, in_concat in He as (l & Hin & Hl).
    apply list_elem_of_In in Hin, Hl. apply list_elem_of_fmap in Hin as (sel & -> & Hsel). specialize (V sel Hsel).
    unfold check_cost_selector in V. rewrite elem_of_app in Hl. destruct Hl as [Hl|Hl].
    + destruct (negb _); [|by apply elem_of_nil in Hl]. apply list_elem_of_singleton in Hl.
      subst. simpl in *. eapply check_cost_next_None; [|done]. by destruct (check_cost_next _ _ _).
    + case_match; [|by apply elem_of_nil in Hl]. apply list_elem_of_singleton in Hl. by subst.
Qed.

Lemma cost_policy_targets r t :
  validateCallerCostPolicy s r = None → t ∈ Route_Targets r →
  match Target_Shadow t with
  | Some _ => from_caller s t = false
  | None => CallerCostExempt (Route_Behavior r) = true → from_caller s t = true
  end.
Proof.
  unfold validateCallerCostPolicy. intros V Ht. destruct (first_error _ (Route_Targets r)) eqn:F; [done|].
  rewrite first_error_None, Forall_forall in F. specialize (F t Ht).
  unfold check_cost_target, refuse_if in F. destruct (Target_Shadow t); [by destruct (from_caller s t)|].
  intros Ex. rewrite Ex in F. by destruct (from_caller s t).
Qed.

Lemma cost_policy_classifier r sel c :
  validateCallerCostPolicy s r = None → sel ∈ Selectors (Route_Behavior r) →
  Pr_Classifier (Selector_When sel) = Some c →
  ¬ ∃ x, rtc serves_through (Classifier_Route c) x ∧ spends x.
Proof.
  unfold validateCallerCostPolicy. intros V Hs Hc.
  destruct (first_error _ (Route_Targets r)); [done|].
  destruct (first_error _ (Fallbacks _)) eqn:F; [done|].
  rewrite first_error_None, Forall_forall in V. specialize (V sel Hs).
  unfold check_cost_selector in V. case_match; [done|]. rewrite Hc in V.
  destruct (serves_exact (Classifier_Route c)) as (b & seen & E & Iff). rewrite E in V.
  destruct b; [done|]. intros X. by apply Iff in X.
Qed.
End CallerCost.

(** Every route of a snapshot passes the check. *)
Definition cost_policies_valid (s : Snapshot) : Prop :=
  map_Forall (λ _ r, validateCallerCostPolicy s r = None) (Snap_Routes s).

Lemma cost_policy_reach (s : Snapshot) a b ra rb :
  cost_policies_valid s → Snap_Routes s !! a = Some ra → Snap_Routes s !! b = Some rb →
  rtc (serves_through s) a b →
  CallerCostExempt (Route_Behavior rb) = CallerCostExempt (Route_Behavior ra).
Proof.
  intros V Ra Rb R. revert ra Ra. induction R as [a|a c b Hac Hcb IH]; intros ra Ra.
  - rewrite Ra in Rb. by injection Rb as ->.
  - destruct Hac as (r & e & R' & He & Hto & Sv & [rc Rc]).
    rewrite (IH Rb rc Rc). eapply (cost_policy_step s a c); eauto.
    exists r, e. eauto 10.
Qed.

(** When every route of a snapshot passes [validateCallerCostPolicy], caller
    cost exemption is closed under serving: a request that enters an exempt route
    and moves along fallbacks and delegations only ever reaches exempt routes, all
    of whose serving targets spend caller credentials. Shadow targets, whatever
    route declares them, never spend them, and no route that classifies a request
    is served, directly or through its own fallbacks, with caller credentials. *)
Theorem caller_cost_closed (s : Snapshot) (a b : string) (ra rb : Route) (t : Target) :
  cost_policies_valid s →
  Snap_Routes s !! a = Some ra → Snap_Routes s !! b = Some rb →
  rtc (serves_through s) a b → t ∈ Route_Targets rb →
  (CallerCostExempt (Route_Behavior ra) = true → Target_Shadow t = None → from_caller s t = true) ∧
  (is_Some (Target_Shadow t) → from_caller s t = false) ∧
  (∀ sel c, sel ∈ Selectors (Route_Behavior ra) → Pr_Classifier (Selector_When sel) = Some c →
     ¬ ∃ x, rtc (serves_through s) (Classifier_Route c) x ∧ spends s x).
Proof.
  intros V Ra Rb R Ht. pose proof (cost_policy_targets s rb t (V b rb Rb) Ht) as T.
  split; [|split].
  - intros Ex N. rewrite N in T. apply T. by rewrite (cost_policy_reach s a b ra rb).
  - intros [sh Sh]. by rewrite Sh in T.
  - intros sel c. by apply cost_policy_classifier, (V a).
Qed.

(** An exempt route that falls back to another one. *)
Definition caller_provider : Provider :=
  mkProvider "p" "openai" true "" "" "caller" "" "" None false [] ∅ None None None [].

Definition exempt_route (slug : string) (fallbacks : list Fallback) : Route :=
  mkRoute slug slug ["generation"] 1 [mkTarget "t" "p" "m" 0 1 1000 "t" [] None] slug None None ""
    (mkBehavior None "" [] false None None true false None fallbacks [] ∅ None None None).

Definition exempt_snapshot : Snapshot :=
  mkSnapshot {["p" := caller_provider]}
    {["first" := exempt_route "first" [mkFallback "second" ["exhausted"]];
      "second" := exempt_route "second" []]} None ∅.

Lemma caller_cost_closed_witness :
  from_caller exempt_snapshot (mkTarget "t" "p" "m" 0 1 1000 "t" [] None) = true.
Proof.
  refine (proj1 (caller_cost_closed exempt_snapshot "first" "second"
    (exempt_route "first" [mkFallback "second" ["exhausted"]]) (exempt_route "second" [])
    (mkTarget "t" "p" "m" 0 1 1000 "t" [] None) _ eq_refl eq_refl _ _) eq_refl eq_refl).
  - intros k r. unfold exempt_snapshot at 1. simpl.
    rewrite lookup_insert_Some, lookup_singleton_Some.
    intros [[_ <-]|[_ [_ <-]]]; vm_compute; reflexivity.
  - apply rtc_once. exists (exempt_route "first" [mkFallback "second" ["exhausted"]]), (mkEdge "second" true).
    repeat split; [left|by eexists].
  - left.
Defined.
