(* ===== verification/RouteWalk.v ===== *)
(** * Walking the fallbacks of a request

    [internal/routing/walk.go]. A walk remembers the routes on the current leg
    (the trail of delegations), every route the request has been on, and a stack
    of frames, one per route that failed, holding the conditions it failed with
    and the next of its fallbacks to consider. The code keeps the top of the
    stack at the end of the slice; so does the model. *)

From S2P Require Import Prelude Go Amount Policy Routes.
Local Open Scope Z_scope.

Record FallbackStep := mkStep {
  Step_From : string;
  Step_Route : string;
  Step_Conditions : list string;
  Step_Outcome : string;
}.

Record routeWalkFrame := mkFrame {
  frame_route : Route;
  frame_conditions : list string;
  frame_next : nat;
}.

Record RouteWalk := mkWalk {
  trail : list Route;
  visited : list string;
  frames : list routeWalkFrame;
}.

Definition route_fallbacks (r : Route) : list Fallback := Fallbacks (Route_Behavior r).

Definition NewRouteWalk (route : Route) : RouteWalk := mkWalk [route] [Route_Slug route] [].

Definition Visited (w : RouteWalk) (slug : string) : bool := Contains (visited w) slug.

Definition Move (w : RouteWalk) (route : Route) (delegated : bool) : RouteWalk :=
  let visited' := visited w ++ [Route_Slug route] in
  if delegated then mkWalk (trail w ++ [route]) visited' (frames w)
  else mkWalk [route] visited' (frames w).

Fixpoint appendWalkFrames (fs : list routeWalkFrame) (routes : list Route)
    (conditions : list string) : list routeWalkFrame :=
  match routes with
  | [] => fs
  | route :: rest =>
      if Nat.eqb (length (route_fallbacks route)) 0 ||
         existsb (λ f, String.eqb (Route_Slug (frame_route f)) (Route_Slug route)) fs
      then appendWalkFrames fs rest conditions
      else appendWalkFrames (fs ++ [mkFrame route conditions 0]) rest conditions
  end.

Definition Failed (w : RouteWalk) (conditions : list string) : RouteWalk :=
  mkWalk (trail w) (visited w) (appendWalkFrames (frames w) (trail w) conditions).

Definition zeroStep : FallbackStep := mkStep "" "" [] "".

(** [Next], with fuel; [None] is fuel exhausted or an index out of range, which
    [Next_scans] rules out. The boolean is Go's third result. *)
Fixpoint Next_fuel (fuel : nat) (w : RouteWalk) : option (RouteWalk * FallbackStep * bool) :=
  match fuel with
  | O => None
  | S fuel' =>
      match last (frames w) with
      | None => Some (w, zeroStep, false)
      | Some top =>
          let prior := removelast (frames w) in
          if Nat.eqb (frame_next top) (length (route_fallbacks (frame_route top))) then
            Next_fuel fuel' (mkWalk (trail w) (visited w) prior)
          else
            match route_fallbacks (frame_route top) !! frame_next top with
            | None => None
            | Some fallback =>
                let frame := mkFrame (frame_route top) (frame_conditions top) (S (frame_next top)) in
                let next := mkWalk (trail w) (visited w) (prior ++ [frame]) in
                let met := Met fallback (frame_conditions top) in
                if Nat.eqb (length met) 0 then Next_fuel fuel' next
                else Some (next, mkStep (Route_Slug (frame_route top)) (Fallback_Route fallback) met "", true)
            end
      end
  end.

(** Calls [Next] may make: one per fallback left and one per frame to drop. *)
Definition frame_work (f : routeWalkFrame) : nat :=
  S (length (route_fallbacks (frame_route f)) - frame_next f).
Definition walk_work (w : RouteWalk) : nat := sum_list_with frame_work (frames w).

Definition Next (w : RouteWalk) : option (RouteWalk * FallbackStep * bool) :=
  Next_fuel (S (walk_work w)) w.

Definition frame_pending (f : routeWalkFrame) : list FallbackStep :=
  map (λ b, mkStep (Route_Slug (frame_route f)) (Fallback_Route b) (Fallback_On b) "")
    (drop (frame_next f) (route_fallbacks (frame_route f))).

(** Every fallback left, from the last frame to the first. *)
Definition Pending (w : RouteWalk) : list FallbackStep :=
  concat (map frame_pending (rev (frames (Failed w [])))).

Definition MayLeave (w : RouteWalk) : bool :=
  nonempty (frames w) || (1 <? Z.of_nat (length (trail w))) ||
  match trail w with [r] => nonempty (route_fallbacks r) | _ => false end.

(** ** Facts *)

(** Indexes in range. *)
Definition walk_ok (w : RouteWalk) : Prop :=
  Forall (λ f, (frame_next f ≤ length (route_fallbacks (frame_route f)))%nat) (frames w).

(** The fallbacks a frame has left, with the conditions they are weighed against. *)
Definition frame_items (f : routeWalkFrame) : list (Route * Fallback * list string) :=
  map (λ b, (frame_route f, b, frame_conditions f))
    (drop (frame_next f) (route_fallbacks (frame_route f))).

Definition items (fs : list routeWalkFrame) : list (Route * Fallback * list string) :=
  concat (map frame_items (rev fs)).

Definition item_met (it : Route * Fallback * list string) : list string := Met it.1.2 it.2.

Definition item_step (it : Route * Fallback * list string) : FallbackStep :=
  mkStep (Route_Slug it.1.1) (Fallback_Route it.1.2) (item_met it) "".

Lemma items_snoc fs f : items (fs ++ [f]) = frame_items f ++ items fs.
Proof. unfold items. by rewrite rev_app_distr. Qed.

Lemma removelast_last {A} (l : list A) x : last l = Some x → l = removelast l ++ [x].
Proof.
  intros H. destruct l as [|y l] using rev_ind; [done|].
  rewrite last_snoc in H. injection H as ->. by rewrite List.removelast_last.
Qed.

Lemma walk_work_snoc fs f : sum_list_with frame_work (fs ++ [f]) = (sum_list_with frame_work fs + frame_work f)%nat.
Proof. rewrite sum_list_with_app. cbn [sum_list_with]. lia. Qed.

(** The result of scanning the remaining items for the first that is met. *)
Definition scan_result (w : RouteWalk) (r : option (RouteWalk * FallbackStep * bool)) : Prop :=
  ∃ w' step ok pre, r = Some (w', step, ok) ∧
    walk_ok w' ∧ trail w' = trail w ∧ visited w' = visited w ∧
    Forall (λ it, item_met it = []) pre ∧
    if ok : bool then
      ∃ it, items (frames w) = pre ++ it :: items (frames w') ∧ item_met it ≠ [] ∧
            step = item_step it ∧ (walk_work w' < walk_work w)%nat
    else items (frames w) = pre ∧ frames w' = [].

Lemma Next_fuel_scans fuel w :
  walk_ok w → (walk_work w < fuel)%nat → scan_result w (Next_fuel fuel w).
Proof.
  revert w. induction fuel as [|fuel IH]; intros w Ok Fuel; [lia|]. cbn [Next_fuel].
  destruct (last (frames w)) as [top|] eqn:L.
  2:{ apply last_None in L. exists w, zeroStep, false, []. rewrite L. auto 10. }
  apply removelast_last in L. remember (removelast (frames w)) as prior eqn:Hp. clear Hp.
  unfold walk_ok in Ok. rewrite L, Forall_app, Forall_singleton in Ok. destruct Ok as [Op Ot].
  unfold walk_work in Fuel. rewrite L, walk_work_snoc in Fuel.
  assert (Ft : frame_work top = S (length (route_fallbacks (frame_route top)) - frame_next top)) by done.
  destruct (Nat.eqb_spec (frame_next top) (length (route_fallbacks (frame_route top)))) as [E|E].
  - destruct (IH (mkWalk (trail w) (visited w) prior) Op) as (w' & step & ok & pre & -> & H).
    { unfold walk_work. cbn [frames]. lia. }
    exists w', step, ok, pre. split; [done|]. destruct H as (H1 & H2 & H3 & H4 & H5).
    repeat (split; [done|]). assert (Items : items (frames w) = items prior).
    { rewrite L, items_snoc. unfold frame_items. by rewrite drop_ge by lia. }
    rewrite Items. destruct ok; [|done].
    destruct H5 as (it & ? & ? & ? & ?). exists it. unfold walk_work in *.
    rewrite L, walk_work_snoc. cbn [frames] in *. eauto with lia.
  - destruct (lookup_lt_is_Some_2 (route_fallbacks (frame_route top)) (frame_next top)) as [b B]; [lia|].
    rewrite B. set (next := mkWalk _ _ _). set (it := (frame_route top, b, frame_conditions top)).
    assert (Split : items (frames w) = it :: items (frames next)).
    { unfold next. simpl. rewrite L, !items_snoc. unfold frame_items. simpl.
      by rewrite (drop_S _ b) by done. }
    assert (Work : (walk_work next < walk_work w)%nat).
    { unfold walk_work, next. cbn [frames]. rewrite L, !walk_work_snoc, Ft.
      unfold frame_work at 2. simpl. lia. }
    assert (Ok' : walk_ok next).
    { unfold walk_ok, next. simpl. rewrite Forall_app, Forall_singleton. simpl. split; [done|lia]. }
    destruct (Nat.eqb_spec (length (Met b (frame_conditions top))) 0) as [M|M].
    + destruct (IH next Ok') as (w' & step & ok & pre & -> & H).
      { unfold walk_work in *. rewrite L, walk_work_snoc in Work. lia. }
      exists w', step, ok, (it :: pre). destruct H as (H1 & H2 & H3 & H4 & H5).
      repeat (split; [done|]). split.
      { constructor; [by apply nil_length_inv|done]. }
      rewrite Split. destruct ok; [|by destruct H5 as [<- ?]].
      destruct H5 as (it' & E' & ? & ? & ?). exists it'. rewrite E'.
      split; [done|]. split; [done|]. split; [done|lia].
    + exists next, (item_step it), true, []. repeat (split; [done|]).
      exists it. split; [done|]. split; [|by split].
      unfold item_met. simpl. intros Z. by rewrite Z in M.
Qed.

Lemma appendWalkFrames_ok fs routes conditions :
  Forall (λ f, (frame_next f ≤ length (route_fallbacks (frame_route f)))%nat) fs →
  Forall (λ f, (frame_next f ≤ length (route_fallbacks (frame_route f)))%nat)
    (appendWalkFrames fs routes conditions).
Proof.
  revert fs. induction routes as [|r routes IH]; intros fs F; simpl; [done|].
  destruct (_ || _); [by apply IH|]. apply IH. rewrite Forall_app, Forall_singleton. simpl.
  split; [done|lia].
Qed.

Lemma Failed_ok w conditions : walk_ok w → walk_ok (Failed w conditions).
Proof. apply appendWalkFrames_ok. Qed.

Lemma Move_ok w route delegated : walk_ok w → walk_ok (Move w route delegated).
Proof. unfold Move. by destruct delegated. Qed.

Lemma Next_ok w : walk_ok w → scan_result w (Next w).
Proof. intros Ok. apply Next_fuel_scans; [done|lia]. Qed.

(** Frames of distinct routes: a route that failed is not pushed twice. *)
Definition frame_slugs (fs : list routeWalkFrame) : list string := map (λ f, Route_Slug (frame_route f)) fs.

Lemma appendWalkFrames_NoDup fs routes conditions :
  NoDup (frame_slugs fs) → NoDup (frame_slugs (appendWalkFrames fs routes conditions)).
Proof.
  revert fs. induction routes as [|r routes IH]; intros fs F; simpl; [done|].
  destruct (Nat.eqb _ 0); simpl; [by apply IH|].
  destruct (existsb _ fs) eqn:E; [by apply IH|]. apply IH. unfold frame_slugs.
  rewrite map_app, NoDup_app. simpl. split; [done|]. split; [|apply NoDup_singleton].
  intros s (f & -> & Hf)%list_elem_of_fmap Hs%list_elem_of_singleton.
  assert (existsb (λ f, String.eqb (Route_Slug (frame_route f)) (Route_Slug r)) fs = true); [|congruence].
  apply existsb_exists. exists f. split; [by apply list_elem_of_In|]. by apply String.eqb_eq.
Qed.

(** Every pending fallback, with the conditions dropped. *)
Lemma Pending_items w :
  Pending w = map (λ it, mkStep (Route_Slug it.1.1) (Fallback_Route it.1.2) (Fallback_On it.1.2) "")
                (items (frames (Failed w []))).
Proof.
  unfold Pending, items. rewrite concat_map, !map_map. f_equal. apply map_ext. intros f.
  unfold frame_pending, frame_items. by rewrite map_map.
Qed.

(** ** The walks of a request

    A request starts on its primary route, moves only to routes it has not been
    on, records failures and asks for the next fallback, in any order. *)
Inductive walks : RouteWalk → Prop :=
  | walks_new route : walks (NewRouteWalk route)
  | walks_move w route delegated :
      walks w → Visited w (Route_Slug route) = false → walks (Move w route delegated)
  | walks_failed w conditions : walks w → walks (Failed w conditions)
  | walks_next w w' step ok : walks w → Next w = Some (w', step, ok) → walks w'.

Definition trail_slugs (w : RouteWalk) : list string := map Route_Slug (trail w).

Record walk_inv (w : RouteWalk) : Prop := {
  inv_ok : walk_ok w;
  inv_once : NoDup (visited w);
  inv_frames : NoDup (frame_slugs (frames w));
  inv_frames_visited : frame_slugs (frames w) ⊆ visited w;
  inv_trail : trail w ≠ [] ∧ trail_slugs w ⊆ visited w;
}.

Lemma appendWalkFrames_slugs fs routes conditions :
  frame_slugs (appendWalkFrames fs routes conditions) ⊆ frame_slugs fs ++ map Route_Slug routes.
Proof.
  revert fs. induction routes as [|r routes IH]; intros fs; simpl; [set_solver|].
  destruct (_ || _); [set_solver|]. rewrite IH. unfold frame_slugs. rewrite map_app. set_solver.
Qed.

(** [Next] only advances or drops frames. *)
Lemma Next_fuel_frames fuel w w' step ok :
  Next_fuel fuel w = Some (w', step, ok) → ∃ rest, frame_slugs (frames w) = frame_slugs (frames w') ++ rest.
Proof.
  revert w. induction fuel as [|fuel IH]; intros w; cbn [Next_fuel]; [done|].
  destruct (last (frames w)) as [top|] eqn:L.
  2:{ intros [= <- _ _]. exists []. by rewrite app_nil_r. }
  apply removelast_last in L. remember (removelast (frames w)) as prior eqn:Hp. clear Hp.
  destruct (Nat.eqb _ _).
  { intros [rest E]%IH. simpl in E. rewrite L. unfold frame_slugs in *. rewrite map_app, E.
    eexists. by rewrite <- app_assoc. }
  destruct (_ !! _) as [b|]; [|done].
  assert (Same : frame_slugs (frames w) =
    frame_slugs (prior ++ [mkFrame (frame_route top) (frame_conditions top) (S (frame_next top))])).
  { rewrite L. unfold frame_slugs. by rewrite !map_app. }
  destruct (Nat.eqb _ 0).
  - intros [rest E]%IH. rewrite Same. eauto.
  - intros [= <- _ _]. exists []. by rewrite app_nil_r, Same.
Qed.

Lemma walks_inv w : walks w → walk_inv w.
Proof.
  induction 1 as [route|w route d Hw [O N F FV [T TV]] V|w conditions Hw [O N F FV [T TV]]
                 |w w' step ok Hw [O N F FV [T TV]] E].
  - split; unfold walk_ok, NewRouteWalk, trail_slugs; simpl; auto using NoDup_nil_2, NoDup_singleton.
    set_solver.
  - apply Contains_false in V. unfold Move. split.
    + by destruct d.
    + assert (NoDup (visited w ++ [Route_Slug route])); [|by destruct d].
      apply NoDup_app. split; [done|]. split; [set_solver|apply NoDup_singleton].
    + by destruct d.
    + destruct d; simpl; set_solver.
    + unfold trail_slugs in *. destruct d; simpl; [|set_solver].
      rewrite map_app. split; [by destruct (trail w)|set_solver].
  - split; simpl; [by apply Failed_ok|done|by apply appendWalkFrames_NoDup| |done].
    rewrite appendWalkFrames_slugs. unfold trail_slugs in TV. set_solver.
  - destruct (Next_ok w O) as (w1 & step1 & ok1 & pre & E1 & O1 & T1 & V1 & _).
    rewrite E in E1. injection E1 as <- <- <-.
    destruct (Next_fuel_frames _ _ _ _ _ E) as [rest R].
    split; [done|by rewrite V1| | |unfold trail_slugs; by rewrite T1, V1].
    + rewrite R in F. by apply NoDup_app in F as (? & _).
    + rewrite V1. rewrite R in FV. set_solver.
Qed.

(** C27. On every walk a request can take, [Next] returns the first fallback left,
    from the route that failed last back to the first, that names a condition its
    route failed with, and reports exactly the conditions met. The call always
    returns; it leaves the trail and the visited routes alone, it skips only
    fallbacks none of whose conditions is met, and what is left afterwards is what
    followed the fallback it returned, so repeated calls consume every fallback
    once. The request is on no route twice and no failed route has two frames. *)
Theorem walk_next_scans (w : RouteWalk) :
  walks w →
  scan_result w (Next w) ∧ NoDup (visited w) ∧ NoDup (frame_slugs (frames w)) ∧
  frame_slugs (frames w) ⊆ visited w.
Proof. intros []%walks_inv. eauto using Next_ok. Qed.

Definition plain_route (slug : string) (fallbacks : list Fallback) : Route :=
  mkRoute slug slug [] 1 [] slug None None ""
    (mkBehavior None "" [] false None None false false None fallbacks [] ∅ None None None).

Lemma walk_next_scans_witness :
  let w := Failed (NewRouteWalk (plain_route "a" [mkFallback "b" ["budget"]; mkFallback "c" ["exhausted"]]))
             ["exhausted"] in
  NoDup (visited w) ∧
  snd <$> Next w = Some true ∧
  (λ r, Step_Route r.1.2) <$> Next w = Some "c".
Proof.
  intros w. split; [|by split].
  apply (walk_next_scans w). apply walks_failed, walks_new.
Defined.
