(* ===== verification/Pricing.v ===== *)
(** * What an attempt costs

    [internal/usage/pricing_cost.go] and [internal/usage/retained_pricing.go]: the
    price of an attempt's usage, the bound admission reserves before dispatch and
    the floor a simulation reports. Rates are integers in units of 10^-12, as
    PostgreSQL's numeric(24,12) stores them; charges are in units of 10^-18. *)

From S2P Require Import Prelude Go Amount.
From Stdlib Require Import Ascii QArith Qround.
Local Open Scope Z_scope.
Local Open Scope olp_scope.

(** ** Prices *)

(** The per-million rates a price or one of its tiers names. *)
Record PerMillion := mkPerMillion {
  InputPerMillion : option string;
  CachedInputPerMillion : option string;
  CacheWriteInputPerMillion : option string;
  CacheWrite5MInputPerMillion : option string;
  CacheWrite1HInputPerMillion : option string;
  OutputPerMillion : option string;
  AudioInputPerMillion : option string;
  CachedAudioInputPerMillion : option string;
  AudioOutputPerMillion : option string;
  ImageInputPerMillion : option string;
  CachedImageInputPerMillion : option string;
  ImageOutputPerMillion : option string;
}.

Record PriceTier := mkTier { AboveInputTokens : Z; Tier_rates : PerMillion }.

Record PriceWindowPeriod := mkPeriod {
  Period_Days : list Z;
  Period_Start : string;
  Period_End : string;
  Period_Multiplier : string;
}.

Record PriceWindows := mkWindows { TimeZone : string; Periods : list PriceWindowPeriod }.

Record Price := mkPrice {
  TrainingPerMillion : option string;
  StoragePerGiBDay : option string;
  CacheStoragePerMillionTokenHour : option string;
  ContainerPerSession : gmap string string;
  Price_VendorID : option string;
  Price_ProviderKind : string;
  Price_ProviderID : option string;
  Price_Model : string;
  Price_Operation : string;
  Price_rates : PerMillion;
  UnitPrice : option string;
  PerRequest : option string;
  BatchMultiplier : option string;
  Price_ToolCalls : gmap string string;
  Tiers : list PriceTier;
  Windows : option PriceWindows;
  Currency : string;
}.

Definition noRates : PerMillion :=
  mkPerMillion None None None None None None None None None None None None.

Definition zeroPrice : Price :=
  mkPrice None None None ∅ None "" None "" "" noRates None None None ∅ [] None "".

(** ** Parsed rates *)

Record rateSet := mkRateSet {
  input : option Z;
  cached : option Z;
  cacheWrite : option Z;
  cacheWrite5m : option Z;
  cacheWrite1h : option Z;
  output : option Z;
  audioInput : option Z;
  cachedAudioInput : option Z;
  audioOutput : option Z;
  imageInput : option Z;
  cachedImageInput : option Z;
  imageOutput : option Z;
}.

Definition zeroRateSet : rateSet :=
  mkRateSet None None None None None None None None None None None None.

Definition inputHead (s : rateSet) : bool :=
  is_some (input s) || is_some (audioInput s) || is_some (imageInput s).

Definition outputHead (s : rateSet) : bool :=
  is_some (output s) || is_some (audioOutput s) || is_some (imageOutput s).

Record rateField := mkField { field_name : string; field_of : rateSet → option Z }.

(** The first rate present in a fallback chain, with its field's name. *)
Fixpoint firstRate (s : rateSet) (chain : list rateField) : option (Z * string) :=
  match chain with
  | [] => None
  | f :: rest => match field_of f s with Some r => Some (r, field_name f) | None => firstRate s rest end
  end.

Definition fieldInput := mkField "input_per_million" input.
Definition fieldCached := mkField "cached_input_per_million" cached.
Definition fieldCacheWrite := mkField "cache_write_input_per_million" cacheWrite.
Definition fieldCacheWrite5m := mkField "cache_write_5m_input_per_million" cacheWrite5m.
Definition fieldCacheWrite1h := mkField "cache_write_1h_input_per_million" cacheWrite1h.
Definition fieldOutput := mkField "output_per_million" output.
Definition fieldAudioInput := mkField "audio_input_per_million" audioInput.
Definition fieldCachedAudioInput := mkField "cached_audio_input_per_million" cachedAudioInput.
Definition fieldAudioOutput := mkField "audio_output_per_million" audioOutput.
Definition fieldImageInput := mkField "image_input_per_million" imageInput.
Definition fieldCachedImageInput := mkField "cached_image_input_per_million" cachedImageInput.
Definition fieldImageOutput := mkField "image_output_per_million" imageOutput.

Definition chainText := [fieldInput].
Definition chainCached := [fieldCached; fieldInput].
Definition chainCachedAudio := [fieldCachedAudioInput; fieldCached; fieldInput].
Definition chainCachedImage := [fieldCachedImageInput; fieldCached; fieldInput].
Definition chainAudio := [fieldAudioInput; fieldInput].
Definition chainImage := [fieldImageInput; fieldInput].
Definition chainWrite := [fieldCacheWrite; fieldInput].
Definition chainWrite5m := [fieldCacheWrite5m; fieldCacheWrite; fieldInput].
Definition chainWrite1h := [fieldCacheWrite1h; fieldCacheWrite; fieldInput].
Definition chainOutput := [fieldOutput].
Definition chainAudioOut := [fieldAudioOutput; fieldOutput].
Definition chainImageOut := [fieldImageOutput; fieldOutput].

Record parsedTier := mkParsedTier { above : Z; tier_set : rateSet }.

Record parsedWindow := mkParsedWindow {
  days : list Z;
  win_start : Z;
  win_end : Z;
  multiplier : Z;
}.

(** A location gives an instant's offset from UTC in seconds. *)
Definition Location : Type := Time → Z.

Record priceRates := mkPriceRates {
  retained : Price;
  valid : bool;
  rates_set : rateSet;
  unit_rate : option Z;
  perRequest : option Z;
  batch : option Z;
  tools : gmap string Z;
  tiers : list parsedTier;
  location : option Location;
  windows : list parsedWindow;
}.

(** [&priceRates{}]: a price with a rate PostgreSQL could not have stored. *)
Definition failedRates : priceRates :=
  mkPriceRates zeroPrice false zeroRateSet None None None ∅ [] None [].

(** The zones of the tz database, which the binary embeds. *)
Class TimeZones := { LoadLocation : string → option Location }.

Definition parse_rate (text : option string) : option (option Z) :=
  match text with
  | None => Some None
  | Some t => r <-? scaledDecimal t costDigits ;; Some (Some r)
  end.

Definition parseRateSet (p : PerMillion) : option rateSet :=
  i <-? parse_rate (InputPerMillion p) ;;
  c <-? parse_rate (CachedInputPerMillion p) ;;
  w <-? parse_rate (CacheWriteInputPerMillion p) ;;
  w5 <-? parse_rate (CacheWrite5MInputPerMillion p) ;;
  w1 <-? parse_rate (CacheWrite1HInputPerMillion p) ;;
  o <-? parse_rate (OutputPerMillion p) ;;
  ai <-? parse_rate (AudioInputPerMillion p) ;;
  ca <-? parse_rate (CachedAudioInputPerMillion p) ;;
  ao <-? parse_rate (AudioOutputPerMillion p) ;;
  ii <-? parse_rate (ImageInputPerMillion p) ;;
  ci <-? parse_rate (CachedImageInputPerMillion p) ;;
  io <-? parse_rate (ImageOutputPerMillion p) ;;
  Some (mkRateSet i c w w5 w1 o ai ca ao ii ci io).

Fixpoint parse_all {A B} (f : A → option B) (l : list A) : option (list B) :=
  match l with
  | [] => Some []
  | x :: l' => y <-? f x ;; ys <-? parse_all f l' ;; Some (y :: ys)
  end.

Definition parse_tool (p : string * string) : option (string * Z) :=
  r <-? scaledDecimal p.2 costDigits ;; Some (p.1, r).

Definition parse_tier (t : PriceTier) : option parsedTier :=
  r <-? parseRateSet (Tier_rates t) ;; Some (mkParsedTier (AboveInputTokens t) r).

(** Days are ISO weekdays, which the catalogue checks when a price is stored. *)
Definition parse_period (p : PriceWindowPeriod) : option parsedWindow :=
  start <-? WindowMinutes (Period_Start p) false ;;
  stop <-? WindowMinutes (Period_End p) true ;;
  m <-? scaledDecimal (Period_Multiplier p) costDigits ;;
  Some (mkParsedWindow (Period_Days p) start stop m).

Definition parse_windows `{TimeZones} (w : option PriceWindows)
  : option (option Location * list parsedWindow) :=
  match w with
  | None => Some (None, [])
  | Some w =>
      loc <-? LoadLocation (TimeZone w) ;;
      ps <-? parse_all parse_period (Periods w) ;;
      Some (Some loc, ps)
  end.

(** The retained rates are only checked here; [retainedCost] parses them again. *)
Definition retained_rates_ok (p : Price) : bool :=
  forallb (λ r, is_some (parse_rate r))
    [TrainingPerMillion p; StoragePerGiBDay p; CacheStoragePerMillionTokenHour p] &&
  forallb (λ e, ValidContainerTier e.1 && is_some (scaledDecimal e.2 costDigits))
    (map_to_list (ContainerPerSession p)).

Definition parse_price `{TimeZones} (p : Price) : option priceRates :=
  if negb (retained_rates_ok p) then None
  else
    rs <-? parseRateSet (Price_rates p) ;;
    u <-? parse_rate (UnitPrice p) ;;
    pr <-? parse_rate (PerRequest p) ;;
    b <-? parse_rate (BatchMultiplier p) ;;
    ts <-? parse_all parse_tool (map_to_list (Price_ToolCalls p)) ;;
    tr <-? parse_all parse_tier (Tiers p) ;;
    lw <-? parse_windows (Windows p) ;;
    Some (mkPriceRates p true rs u pr b (list_to_map ts) tr lw.1 lw.2).

Definition parseRates `{TimeZones} (p : Price) : priceRates :=
  match parse_price p with Some r => r | None => failedRates end.

(** ** Usage *)

Record AttemptUsage := mkUsage {
  InvocationCount : option Z;
  TrainingTokens : option Z;
  StorageByteSeconds : option string;
  CacheTokenSeconds : option string;
  ContainerSessions : gmap string Z;
  InputTokens : option Z;
  OutputTokens : option Z;
  CachedInputTokens : option Z;
  CacheWriteInputTokens : option Z;
  CacheWrite5MInputTokens : option Z;
  CacheWrite1HInputTokens : option Z;
  AudioInputTokens : option Z;
  CachedAudioInputTokens : option Z;
  AudioOutputTokens : option Z;
  ImageInputTokens : option Z;
  CachedImageInputTokens : option Z;
  ImageOutputTokens : option Z;
  MediaUnits : option string;
  Usage_ToolCalls : gmap string Z;
  Batch : bool;
  Complete : bool;
  Deferred : bool;
}.

(** ** Rounding a charge *)

Fixpoint atoi (acc : Z) (digits : string) : Z :=
  match digits with
  | EmptyString => acc
  | String c rest => atoi (acc * 10 + dval c) rest
  end.

(** The first group of four digits that is not 0000, from [group] on. *)
Fixpoint leading_group (fuel : nat) (group : Z) (fraction : string) : Z * string :=
  match fuel with
  | S fuel' =>
      if String.eqb (stake 4 fraction) "0000" then leading_group fuel' (group + 1) (sdrop 4 fraction)
      else (group, stake 4 fraction)
  | O => (group, stake 4 fraction)
  end.

(** The scale PostgreSQL's numeric division selects for a charge over a million. *)
Definition quotientScale (charge : Z) : Z :=
  let digits := big_String charge in
  let '(weight, leading) :=
    if Nat.ltb costDigits (String.length digits) then
      let integer := (String.length digits - costDigits)%nat in
      let weight := Z.of_nat (integer - 1) / 4 in
      (weight, atoi 0 (stake (integer - 4 * Z.to_nat weight) digits))
    else
      let fraction := zeros (costDigits - String.length digits) +:+ digits in
      let '(group, text) := leading_group 2 0 fraction in
      (- (group + 1), atoi 0 text) in
  let quotientWeight := weight - 1 in
  let quotientWeight := if leading <=? 100 then quotientWeight - 1 else quotientWeight in
  Z.min (Z.max (16 - quotientWeight * 4) (Z.of_nat costDigits)) 1000.

(** A charge in units of 10^-12 over a million, in units of 10^-18, rounded half
    up at the scale the database keeps. *)
Definition quotient (charge : Z) : Z :=
  if Z.sgn charge =? 0 then charge
  else
    let scale := quotientScale charge in
    if scale >=? Z.of_nat quotientDigits then charge
    else
      let unit := 10 ^ (Z.of_nat quotientDigits - scale) in
      let rounded := Z.quot charge unit in
      let remainder := Z.rem charge unit in
      let rounded := if 2 * remainder >=? unit then rounded + 1 else rounded in
      rounded * unit.

(** ** Charges *)

Definition count (tokens : option Z) : Z := match tokens with Some t => t | None => 0 end.

(** The shares of the input, in 64-bit arithmetic. *)
Definition input_shares (total : Z) (u : AttemptUsage) : list (Z * list rateField) :=
  let cached := count (CachedInputTokens u) in
  let write := count (CacheWriteInputTokens u) in
  let write5m := count (CacheWrite5MInputTokens u) in
  let write1h := count (CacheWrite1HInputTokens u) in
  let audio := count (AudioInputTokens u) in
  let cachedAudio := count (CachedAudioInputTokens u) in
  let image := count (ImageInputTokens u) in
  let cachedImage := count (CachedImageInputTokens u) in
  [(wrap64 (total - cached - write - (audio - cachedAudio) - (image - cachedImage)), chainText);
   (wrap64 (cached - cachedAudio - cachedImage), chainCached);
   (cachedAudio, chainCachedAudio);
   (cachedImage, chainCachedImage);
   (wrap64 (audio - cachedAudio), chainAudio);
   (wrap64 (image - cachedImage), chainImage);
   (wrap64 (write - write5m - write1h), chainWrite);
   (write5m, chainWrite5m);
   (write1h, chainWrite1h)].

Definition output_shares (total : Z) (u : AttemptUsage) : list (Z * list rateField) :=
  let audio := count (AudioOutputTokens u) in
  let image := count (ImageOutputTokens u) in
  [(wrap64 (total - audio - image), chainOutput); (audio, chainAudioOut); (image, chainImageOut)].

(** The loop both charges share: a negative share, or a share no rate bills, leaves
    the attempt unpriced. *)
Fixpoint shares_charge (s : rateSet) (shares : list (Z * list rateField)) (charge : Z) : option Z :=
  match shares with
  | [] => Some charge
  | (tokens, chain) :: rest =>
      if tokens <? 0 then None
      else if tokens =? 0 then shares_charge s rest charge
      else
        match firstRate s chain with
        | None => None
        | Some (rate, _) => shares_charge s rest (charge + tokens * rate)
        end
  end.

Definition inputCharge (s : rateSet) (total : Z) (u : AttemptUsage) : option Z :=
  shares_charge s (input_shares total u) 0.

Definition outputCharge (s : rateSet) (total : Z) (u : AttemptUsage) : option Z :=
  shares_charge s (output_shares total u) 0.

Definition inputSharesAbsent (u : AttemptUsage) : bool :=
  negb (is_some (CachedInputTokens u)) && negb (is_some (CacheWriteInputTokens u)) &&
  negb (is_some (CacheWrite5MInputTokens u)) && negb (is_some (CacheWrite1HInputTokens u)) &&
  negb (is_some (AudioInputTokens u)) && negb (is_some (CachedAudioInputTokens u)) &&
  negb (is_some (ImageInputTokens u)) && negb (is_some (CachedImageInputTokens u)).

(** ** Tiers and windows *)

Definition selectRates (r : priceRates) (input : option Z) : rateSet :=
  match input with
  | None => rates_set r
  | Some i =>
      foldl (λ selected t, if above t <? i then tier_set t else selected) (rates_set r) (tiers r)
  end.

(** Civil fields of an instant in a location; 1 January of year 1 is a Monday. *)
Definition local_seconds (loc : Location) (at_ : Time) : Z := at_ / Second + loc at_.
Definition Weekday (s : Z) : Z := (s / 86400 + 1) mod 7.
Definition Hour_ (s : Z) : Z := (s mod 86400) / 3600.
Definition Minute_ (s : Z) : Z := (s mod 3600) / 60.

Definition windowAt (r : priceRates) (at_ : Time) : option Z :=
  match location r with
  | None => None
  | Some loc =>
      let local := local_seconds loc at_ in
      let day := (Weekday local + 6) mod 7 + 1 in
      let minutes := Hour_ local * 60 + Minute_ local in
      multiplier <$> find_first (λ w, Contains (days w) day && (minutes >=? win_start w) &&
                                      (minutes <? win_end w)) (windows r)
  end.

(** ** Retained quantities *)

Definition retainedValues (u : AttemptUsage) : bool :=
  is_some (InvocationCount u) || is_some (TrainingTokens u) || is_some (StorageByteSeconds u) ||
  is_some (CacheTokenSeconds u) || negb (Nat.eqb (size (ContainerSessions u)) 0).

(** ^[0-9]+(?:\.[0-9]+)?$ *)
Definition retainedQuantityPattern (text : string) : bool :=
  match Cut text "." with
  | (integer, fraction, hasPoint) =>
      negb (String.eqb integer "") && decimalDigits integer &&
      (negb hasPoint || negb (String.eqb fraction "") && decimalDigits fraction)
  end.

Definition MaxContainerTiers : Z := 16.

Definition negative (o : option Z) : bool := match o with Some v => v <? 0 | None => false end.

Definition valid_quantity (o : option string) : bool :=
  match o with None => true | Some q => (len q <=? 128) && retainedQuantityPattern q end.

Definition validateRetainedUsage (u : AttemptUsage) : bool :=
  negb (negative (InvocationCount u)) && negb (negative (TrainingTokens u)) &&
  valid_quantity (StorageByteSeconds u) && valid_quantity (CacheTokenSeconds u) &&
  (Z.of_nat (size (ContainerSessions u)) <=? MaxContainerTiers) &&
  forallb (λ e, ValidContainerTier e.1 && (e.2 >=? 0)) (map_to_list (ContainerSessions u)).

(** [big.Rat.SetString] on decimal text with an optional leading plus, the only
    text the checks above and [parseRates] let through. *)
Definition rat_SetString (text : string) : option Q :=
  let text := match text with String "+" rest => rest | _ => text end in
  if retainedQuantityPattern text then
    match Cut text "." with
    | (integer, fraction, _) =>
        Some (inject_Z (dec_value (integer +:+ fraction)) / inject_Z (10 ^ len fraction))%Q
    end
  else None.

(** The closure [add]: quantity times rate over divisor, both needed. *)
Definition add_retained (total : Q) (quantity : option string) (rate : option string) (divisor : Z)
  : option Q :=
  match quantity with
  | None => Some total
  | Some q =>
      rate <-? rate ;;
      q <-? rat_SetString q ;;
      v <-? rat_SetString rate ;;
      Some (total + q * v / inject_Z divisor)%Q
  end.

(** The same with an integer quantity, which the code prints and parses back. *)
Definition add_count (total : Q) (quantity : Z) (rate : string) (divisor : Z) : option Q :=
  v <-? rat_SetString rate ;; Some (total + inject_Z quantity * v / inject_Z divisor)%Q.

Fixpoint add_sessions (fees : gmap string string) (total : Q) (l : list (string * Z)) : option Q :=
  match l with
  | [] => Some total
  | (tier, n) :: rest =>
      rate <-? fees !! tier ;; total' <-? add_count total n rate 1 ;; add_sessions fees total' rest
  end.

(** A multiplier in units of 10^-12, when one applies. *)
Definition scale_rat (total : Q) (m : option Z) : Q :=
  match m with Some w => (total * (inject_Z w / inject_Z costUnit))%Q | None => total end.

Definition round_rat (total : Q) : Cost :=
  let t := Qred (total * inject_Z costUnit + (1 # 2))%Q in
  clampCost (Z.quot (Qnum t) (Zpos (Qden t))).

(** [base] is the usage charge in units of 10^-18. *)
Definition retainedCost (r : priceRates) (base : Z) (u : AttemptUsage) (at_ : Time) (discount : option Z)
  : option Cost :=
  if negb (validateRetainedUsage u) then None
  else
    let p := retained r in
    let total := (inject_Z base / inject_Z (10 ^ 18))%Q in
    total <-? match TrainingTokens u with
              | None => Some total
              | Some n => rate <-? TrainingPerMillion p ;; add_count total n rate 1000000
              end ;;
    total <-? add_retained total (StorageByteSeconds u) (StoragePerGiBDay p) (Z.shiftl 1 30 * 86400) ;;
    total <-? add_retained total (CacheTokenSeconds u) (CacheStoragePerMillionTokenHour p) (1000000 * 3600) ;;
    total <-? add_sessions (ContainerPerSession p) total (map_to_list (ContainerSessions u)) ;;
    let total := scale_rat total (windowAt r at_) in
    total <-? (if Batch u then b <-? batch r ;; Some (scale_rat total (Some b)) else Some total) ;;
    Some (round_rat (scale_rat total discount)).

(** ** The cost of an attempt *)

(** The token charges of the usage, in units of 10^-18. *)
Definition input_charge (rates : rateSet) (u : AttemptUsage) : option Z :=
  match InputTokens u with
  | None => if inputSharesAbsent u then Some 0 else None
  | Some total =>
      if negb (inputHead rates) then None
      else charge <-? inputCharge rates total u ;; Some (quotient charge)
  end.

Definition output_charge (rates : rateSet) (u : AttemptUsage) : option Z :=
  match OutputTokens u with
  | None => if is_some (AudioOutputTokens u) || is_some (ImageOutputTokens u) then None else Some 0
  | Some total =>
      if negb (outputHead rates) then None
      else charge <-? outputCharge rates total u ;; Some (quotient charge)
  end.

Definition media_charge (r : priceRates) (u : AttemptUsage) : option Z :=
  match MediaUnits u with
  | None => Some 0
  | Some text =>
      unit <-? unit_rate r ;;
      units <-? scaledDecimal text mediaDigits ;;
      Some (units * unit)
  end.

Definition invocations (u : AttemptUsage) : Z :=
  match InvocationCount u with
  | Some n => n
  | None => if Deferred u then 0 else 1
  end.

Definition request_charge (r : priceRates) (u : AttemptUsage) (successful : bool) : Z :=
  match perRequest r with
  | Some fee => if successful && (invocations u >? 0) then fee * perMillion * invocations u else 0
  | None => 0
  end.

Fixpoint tools_charge (fees : gmap string Z) (calls : list (string * Z)) (total : Z) : option Z :=
  match calls with
  | [] => Some total
  | (tool, n) :: rest =>
      if n <=? 0 then tools_charge fees rest total
      else fee <-? fees !! tool ;; tools_charge fees rest (total + n * fee * perMillion)
  end.

(** The multipliers of the whole charge, each in units of 10^-12. *)
Definition multipliers (r : priceRates) (u : AttemptUsage) (at_ : Time) (discount : option Z)
  : list Z :=
  option_list (windowAt r at_) ++ (if Batch u then option_list (batch r) else []) ++
  option_list discount.

(** The charge before the multipliers, in units of 10^-18: the body of the code's
    [cost] up to the test for retained quantities. *)
Definition usage_total (r : priceRates) (u : AttemptUsage) (successful : bool) : option Z :=
  if negb (Complete u) || negb (valid r) then None
  else if Deferred u && match InvocationCount u with Some n => n >? 1 | None => false end &&
          negb (Nat.eqb (length (tiers r)) 0) then None
  else
    let rates := selectRates r (InputTokens u) in
    i <-? input_charge rates u ;;
    o <-? output_charge rates u ;;
    m <-? media_charge r u ;;
    if invocations u <? 0 then None
    else tools_charge (tools r) (map_to_list (Usage_ToolCalls u))
           (i + o + m + request_charge r u successful).

(** The multipliers and the one rounding, in integers. *)
Definition integer_cost (r : priceRates) (total : Z) (u : AttemptUsage) (startedAt : Time)
    (discount : option Z) : option Cost :=
  if Batch u && negb (is_some (batch r)) then None
  else
    let ms := multipliers r u startedAt discount in
    match ms with
    | [] => Some (clampCost (Z.quot (total + 500000) perMillion))
    | _ =>
        let total := foldl Z.mul total ms in
        let divisor := 10 ^ (6 + 12 * Z.of_nat (length ms)) in
        Some (clampCost (Z.quot (total + Z.quot divisor 2) divisor))
    end.

Definition cost (r : priceRates) (u : AttemptUsage) (startedAt : Time) (successful : bool)
    (discount : option Z) : option Cost :=
  total <-? usage_total r u successful ;;
  if retainedValues u then retainedCost r total u startedAt discount
  else integer_cost r total u startedAt discount.

Definition Price_Cost `{TimeZones} (p : Price) (u : AttemptUsage) (startedAt : Time)
    (successful : bool) : option Cost :=
  cost (parseRates p) u startedAt successful None.

(** ** Prices, discounts and cards as routing reads them *)

(** [rp_rates] is the parsed price, set when the routing inputs are loaded. *)
Record RoutingPrice := mkRoutingPrice {
  rp_price : Price;
  RevisionID : string;
  Revision : Z;
  EffectiveAt : Time;
  ScopePriority : Z;
  rp_rates : option priceRates;
}.

Record RoutingDiscount := mkDiscount {
  Discount_ID : string;
  Discount_ProviderKind : string;
  Discount_VendorID : option string;
  Discount_ProviderID : option string;
  Discount_Multiplier : string;
  Discount_EffectiveAt : Time;
  Discount_CreatedAt : Time;
  discount_multiplier : option Z;
}.

Record RoutingCardRevision := mkCardRevision {
  Card_ID : string;
  Card_Revision : Z;
  Card_Markup : string;
  Card_EffectiveAt : Time;
  Card_Prices : list RoutingPrice;
  card_markup : option Z;
}.

(** Nil when the text is no decimal. *)
Definition parsedMultiplier (d : RoutingDiscount) : option Z :=
  match discount_multiplier d with
  | Some m => Some m
  | None => scaledDecimal (Discount_Multiplier d) costDigits
  end.

Definition parsedMarkup (r : RoutingCardRevision) : option Z :=
  match card_markup r with
  | Some m => Some m
  | None => scaledDecimal (Card_Markup r) costDigits
  end.

Definition parsed `{TimeZones} (p : RoutingPrice) : priceRates :=
  match rp_rates p with Some r => r | None => parseRates (rp_price p) end.

Definition RoutingPrice_Cost `{TimeZones} (p : option RoutingPrice) (u : AttemptUsage)
    (startedAt : Time) (successful : bool) (discount : option RoutingDiscount) : option Cost :=
  p <-? p ;;
  cost (parsed p) u startedAt successful
    (match discount with Some d => parsedMultiplier d | None => None end).

(** ** Bounds *)

Definition maxRate (rates : list (option Z)) : option Z :=
  foldl (λ highest rate,
      match rate with
      | None => highest
      | Some r => match highest with
                  | None => Some r
                  | Some h => if r >? h then Some r else highest
                  end
      end) None rates.

Definition minRate (rates : list (option Z)) : option Z :=
  foldl (λ lowest rate,
      match rate with
      | None => lowest
      | Some r => match lowest with
                  | None => Some r
                  | Some l => if r <? l then Some r else lowest
                  end
      end) None rates.

Definition ceilPerMillion (tokens rate : Z) : Z := Z.quot (tokens * rate + 999999) perMillion.

(** The product of an amount and a multiplier in units of 10^-12, rounded up. *)
Definition scale_up (amount m : Z) : Z := Z.quot (amount * m + (costUnit - 1)) costUnit.
Definition scale_down (amount m : Z) : Z := Z.quot (amount * m) costUnit.

Definition input_rates (s : rateSet) : list (option Z) :=
  [input s; cached s; cacheWrite s; cacheWrite5m s; cacheWrite1h s; audioInput s;
   cachedAudioInput s; imageInput s; cachedImageInput s].

Definition output_rates (s : rateSet) : list (option Z) := [output s; audioOutput s; imageOutput s].

Definition maximumWindow (r : priceRates) : option Z :=
  if negb (valid r) then None
  else
    match windows r with
    | [] => None
    | w :: ws =>
        let m := multiplier (MaxFunc (cmp_on multiplier Z.compare) w ws) in
        if m <=? costUnit then None else Some m
    end.

(** Rates to bound with are present once the heads are, so [maxRate] is never nil;
    a discount whose multiplier is no decimal is nil in the code, which the model
    reports as no bound. *)
Definition costBound (r : priceRates) (inp outp : Z) (generation : bool)
    (discount : option RoutingDiscount) (window : option Z) : option Cost :=
  if negb (valid r) then None
  else
    let rates := selectRates r (Some inp) in
    if negb (inputHead rates) || (generation && negb (outputHead rates)) then None
    else
      rate <-? maxRate (input_rates rates) ;;
      let bound := ceilPerMillion (Z.max inp 0) rate in
      bound <-? (if generation then
                   orate <-? maxRate (output_rates rates) ;;
                   Some (bound + ceilPerMillion (Z.max outp 0) orate)
                 else Some bound) ;;
      let bound := match perRequest r with Some fee => bound + fee | None => bound end in
      let bound := match window with Some w => scale_up bound w | None => bound end in
      match discount with
      | None => Some (clampCost bound)
      | Some d => m <-? parsedMultiplier d ;; Some (clampCost (scale_up bound m))
      end.

Definition CostBound `{TimeZones} (p : option RoutingPrice) (inp outp : Z) (generation : bool)
    (at_ : Time) (discount : option RoutingDiscount) : option Cost :=
  p <-? p ;; costBound (parsed p) inp outp generation discount (windowAt (parsed p) at_).

Definition MaximumWindowCostBound `{TimeZones} (p : option RoutingPrice) (inp outp : Z)
    (generation : bool) (discount : option RoutingDiscount) : option Cost :=
  p <-? p ;; costBound (parsed p) inp outp generation discount (maximumWindow (parsed p)).

Definition CostFloor `{TimeZones} (p : option RoutingPrice) (inp : Z) (at_ : Time)
    (discount : option RoutingDiscount) : option Cost :=
  p <-? p ;;
  let r := parsed p in
  if negb (valid r) then None
  else
    let rates := selectRates r (Some inp) in
    if negb (inputHead rates) then None
    else
      rate <-? minRate (input_rates rates) ;;
      let floor := Z.quot (Z.max inp 0 * rate) perMillion in
      let floor := match perRequest r with Some fee => floor + fee | None => floor end in
      let floor := match windowAt r at_ with Some w => scale_down floor w | None => floor end in
      match discount with
      | None => Some (clampCost floor)
      | Some d => m <-? parsedMultiplier d ;; Some (clampCost (scale_down floor m))
      end.

(** The highest bound at any tier boundary below [inp] or at [inp] itself. *)
Fixpoint workflowModelCostThroughTiers `{TimeZones} (price : RoutingPrice)
    (discount : option RoutingDiscount) (inp outp : Z) (ts : list PriceTier) : option Cost :=
  match ts with
  | [] => MaximumWindowCostBound (Some price) inp outp true discount
  | t :: rest =>
      bound <-? workflowModelCostThroughTiers price discount inp outp rest ;;
      if AboveInputTokens t >=? inp then Some bound
      else
        prior <-? MaximumWindowCostBound (Some price) (AboveInputTokens t) outp true discount ;;
        match Cost_Cmp prior bound with Gt => Some prior | _ => Some bound end
  end.

Definition free_tool (fee : string) : bool :=
  match ParseCost fee with Some c => Cost_IsZero c | None => false end.

Definition WorkflowModelCostBound `{TimeZones} (p : option RoutingPrice) (inp outp : Z)
    (discount : option RoutingDiscount) : option Cost :=
  p <-? p ;;
  if (inp <? 1) || (outp <? 1) then None
  else if negb (forallb (λ e, free_tool e.2) (map_to_list (Price_ToolCalls (rp_price p)))) then None
  else workflowModelCostThroughTiers p discount inp outp (Tiers (rp_price p)).

(** ** Consumer charges *)

Definition explicit_match (kind vendor model op : string) (p : RoutingPrice) : bool :=
  String.eqb (Price_ProviderKind (rp_price p)) kind && String.eqb (Price_Model (rp_price p)) model &&
  String.eqb (Price_Operation (rp_price p)) op &&
  match Price_VendorID (rp_price p) with Some v => String.eqb v vendor | None => true end.

Definition Explicit (r : option RoutingCardRevision) (kind vendor model op : string)
  : option RoutingPrice :=
  r <-? r ;;
  foldl (λ found p,
      if negb (explicit_match kind vendor model op p) then found
      else if negb (is_some found) || is_some (Price_VendorID (rp_price p)) then Some p else found)
    None (Card_Prices r).

(** The already-rounded cost times the markup, half up. A markup that is no decimal
    is nil in the code; the model reports no charge. *)
Definition Charge `{TimeZones} (r : RoutingCardRevision) (u : AttemptUsage) (startedAt : Time)
    (successful : bool) (c : option Cost) (kind vendor model op : string) : option Cost :=
  match Explicit (Some r) kind vendor model op with
  | Some e => cost (parsed e) u startedAt successful None
  | None =>
      c <-? c ;;
      match units c with
      | None => Some (mkCost (Some 0))
      | Some units =>
          m <-? parsedMarkup r ;;
          Some (clampCost (Z.quot (units * m + Z.quot costUnit 2) costUnit))
      end
  end.

Definition ChargeBound `{TimeZones} (r : RoutingCardRevision) (inp outp : Z) (generation : bool)
    (at_ : Time) (bound : Cost) (kind vendor model op : string) : option Cost :=
  match Explicit (Some r) kind vendor model op with
  | Some e => CostBound (Some e) inp outp generation at_ None
  | None =>
      match units bound with
      | None => Some (mkCost (Some 0))
      | Some units => m <-? parsedMarkup r ;; Some (clampCost (scale_up units m))
      end
  end.
