(* ===== verification/PricingFacts.v ===== *)
(** * What the prices guarantee

    The bound reserved before dispatch covers what the attempt is billed, in every
    tier and window, and the integer rounding of [cost] agrees with the exact rational
    rounding of [retainedCost]. *)

From S2P Require Import Prelude Go Amount Pricing.
From Stdlib Require Import Ascii QArith Qround.
Local Open Scope Z_scope.

(** ** Arithmetic of the roundings *)

Lemma quot_le_of_scaled T C D : 0 <= T → 0 < D → T <= C * D → Z.quot (T + Z.quot D 2) D <= C.
Proof.
  intros HT HD H. rewrite (Z.quot_div_nonneg D 2) by lia.
  assert (0 <= D / 2) by (apply Z.div_pos; lia).
  rewrite Z.quot_div_nonneg by lia.
  assert (D / 2 < D) by (apply Z.div_lt; lia).
  assert ((T + D / 2) / D < C + 1); [|lia].
  apply Z.div_lt_upper_bound; nia.
Qed.

Lemma scale_up_spec a m : 0 <= a → 0 <= m → 0 <= scale_up a m ∧ a * m <= scale_up a m * costUnit.
Proof.
  intros Ha Hm. unfold scale_up, costUnit. rewrite Z.quot_div_nonneg by nia.
  pose proof (Z.mul_div_le (a * m + (10 ^ 12 - 1)) (10 ^ 12) ltac:(lia)).
  pose proof (Z.mod_pos_bound (a * m + (10 ^ 12 - 1)) (10 ^ 12) ltac:(lia)).
  pose proof (Z.div_mod (a * m + (10 ^ 12 - 1)) (10 ^ 12) ltac:(lia)).
  split; [apply Z.div_pos; nia|lia].
Qed.

Lemma ceilPerMillion_spec t r :
  0 <= t → 0 <= r → 0 <= ceilPerMillion t r ∧ t * r <= ceilPerMillion t r * perMillion.
Proof.
  intros Ht Hr. unfold ceilPerMillion, perMillion. rewrite Z.quot_div_nonneg by nia.
  pose proof (Z.mod_pos_bound (t * r + 999999) 1000000 ltac:(lia)).
  pose proof (Z.div_mod (t * r + 999999) 1000000 ltac:(lia)).
  split; [apply Z.div_pos; nia|lia].
Qed.

Lemma ceilPerMillion_mono t t' r : 0 <= t <= t' → 0 <= r → ceilPerMillion t r <= ceilPerMillion t' r.
Proof.
  intros Ht Hr. unfold ceilPerMillion, perMillion. rewrite !Z.quot_div_nonneg by nia.
  apply Z.div_le_mono; nia.
Qed.

Lemma quotientScale_min c : 12 <= quotientScale c.
Proof.
  unfold quotientScale, costDigits. destruct (Nat.ltb _ _).
  - destruct (_ <=? 100); lia.
  - destruct (leading_group _ _ _) as [g t]. destruct (_ <=? 100); lia.
Qed.

(** Rounding a charge at a scale of at least twelve places never passes the next
    whole unit of 10^-12. *)
Lemma quotient_le c K : 0 <= c → c <= K * perMillion → 0 <= quotient c <= K * perMillion.
Proof.
  intros Hc H. unfold quotient. destruct (Z.sgn c =? 0); [lia|].
  pose proof (quotientScale_min c) as Hs. remember (quotientScale c) as s eqn:E. clear E.
  change (Z.of_nat quotientDigits) with 18.
  destruct (s >=? 18) eqn:G; [lia|].
  assert (Hs' : 12 <= s < 18) by lia.
  assert (Hu : 10 ^ (18 - s) * 10 ^ (s - 12) = perMillion).
  { rewrite <- Z.pow_add_r by lia. replace (18 - s + (s - 12)) with 6 by lia. done. }
  assert (H0 : 0 < 10 ^ (18 - s)) by (apply Z.pow_pos_nonneg; lia).
  assert (H1 : 0 < 10 ^ (s - 12)) by (apply Z.pow_pos_nonneg; lia).
  set (unit := 10 ^ (18 - s)) in *. set (k := 10 ^ (s - 12)) in *.
  rewrite Z.quot_div_nonneg, Z.rem_mod_nonneg by lia.
  pose proof (Z.div_mod c unit ltac:(lia)) as Dm. pose proof (Z.mod_pos_bound c unit H0) as Mb.
  pose proof (Z.div_pos c unit Hc H0).
  destruct (2 * (c mod unit) >=? unit) eqn:R; [|nia].
  assert (c / unit < K * k); [|nia].
  apply Z.div_lt_upper_bound; [done|]. rewrite Z.mul_comm in Hu.
  assert (c mod unit > 0) by lia.
  assert (c <= K * k * unit) by nia.
  destruct (Z.eq_dec c (K * k * unit)) as [E|]; [|lia].
  rewrite E, Z.mod_mul in * by lia. lia.
Qed.

(** ** Rates *)

Definition nonneg (o : option Z) : Prop := match o with Some v => 0 <= v | None => True end.

Record set_nonneg (s : rateSet) : Prop := {
  sn_in : Forall nonneg (input_rates s);
  sn_out : Forall nonneg (output_rates s);
}.

Lemma maxRate_spec l :
  match maxRate l with
  | Some m => Some m ∈ l ∧ ∀ v, Some v ∈ l → v <= m
  | None => Forall (λ o, o = None) l
  end.
Proof.
  unfold maxRate. induction l as [|x l IH] using rev_ind; [simpl; constructor|].
  rewrite foldl_app. cbn [foldl]. set (h := foldl _ _ l) in *. clearbody h.
  destruct x as [r|], h as [m|].
  - destruct IH as [Hin Hle]. destruct (Z.gtb_spec r m); (split; [set_solver|]).
    + intros v [Hv|[= ->]%list_elem_of_singleton]%elem_of_app; [|lia]. specialize (Hle v Hv). lia.
    + intros v [Hv|[= ->]%list_elem_of_singleton]%elem_of_app; [auto|lia].
  - split; [set_solver|]. intros v [Hv|[= ->]%list_elem_of_singleton]%elem_of_app; [|lia].
    rewrite Forall_forall in IH. by specialize (IH _ Hv).
  - destruct IH as [Hin Hle]. split; [set_solver|].
    intros v [Hv|Hv%list_elem_of_singleton]%elem_of_app; [auto|done].
  - rewrite Forall_app, Forall_singleton. done.
Qed.

Lemma firstRate_elem s chain r name :
  firstRate s chain = Some (r, name) → ∃ f, f ∈ chain ∧ field_of f s = Some r.
Proof.
  induction chain as [|f chain IH]; simpl; [done|]. destruct (field_of f s) eqn:E.
  - intros [= -> _]. exists f. split; [left|done].
  - intros (g & ? & ?)%IH. exists g. split; [by right|done].
Qed.

(** Every rate a chain may reach is among [rates]. *)
Definition chain_within (s : rateSet) (rates : list (option Z)) (chain : list rateField) : Prop :=
  Forall (λ f, field_of f s ∈ rates) chain.

Definition share_total (shares : list (Z * list rateField)) : Z := foldr (λ sh t, sh.1 + t) 0 shares.

Lemma shares_charge_le s rates shares m acc c :
  shares_charge s shares acc = Some c →
  Forall (λ sh, chain_within s rates sh.2) shares →
  (∀ v, Some v ∈ rates → 0 <= v <= m) → 0 <= acc → 0 <= m →
  acc <= c <= acc + share_total shares * m.
Proof.
  intros E W M. revert acc E. induction shares as [|[t chain] shares IH]; intros acc E Ha Hm.
  { injection E as ->. simpl. lia. }
  apply Forall_cons in W as [Wc W]. cbn [shares_charge] in E. cbn [share_total foldr fst].
  fold (share_total shares).
  destruct (t <? 0) eqn:Neg; [done|]. destruct (t =? 0) eqn:Z0.
  { specialize (IH W acc E Ha Hm). nia. }
  destruct (firstRate s chain) as [[r name]|] eqn:F; [|done].
  apply firstRate_elem in F as (f & Hf & Fr). unfold chain_within in Wc.
  rewrite Forall_forall in Wc. specialize (Wc f Hf). simpl in Wc. rewrite Fr in Wc.
  specialize (M r Wc). specialize (IH W (acc + t * r) E ltac:(nia) Hm). nia.
Qed.

Lemma input_chains s total u :
  Forall (λ sh, chain_within s (input_rates s) sh.2) (input_shares total u).
Proof.
  unfold input_shares, chain_within, chainText, chainCached, chainCachedAudio, chainCachedImage,
    chainAudio, chainImage, chainWrite, chainWrite5m, chainWrite1h.
  repeat constructor; cbn [snd]; repeat constructor; unfold input_rates;
    repeat first [left; reflexivity | right].
Qed.

Lemma output_chains s total u :
  Forall (λ sh, chain_within s (output_rates s) sh.2) (output_shares total u).
Proof.
  unfold output_shares, chain_within, chainOutput, chainAudioOut, chainImageOut.
  repeat constructor; cbn [snd]; repeat constructor; unfold output_rates;
    repeat first [left; reflexivity | right].
Qed.

(** Counts a reported usage can hold without wrapping 64 bits when they are added. *)
Definition counts_bounded (u : AttemptUsage) : Prop :=
  Forall (λ o, 0 <= count o <= 2 ^ 58)
    [InputTokens u; OutputTokens u; CachedInputTokens u; CacheWriteInputTokens u;
     CacheWrite5MInputTokens u; CacheWrite1HInputTokens u; AudioInputTokens u;
     CachedAudioInputTokens u; AudioOutputTokens u; ImageInputTokens u;
     CachedImageInputTokens u; ImageOutputTokens u].

Lemma input_shares_total total u :
  counts_bounded u → InputTokens u = Some total → share_total (input_shares total u) = total.
Proof.
  intros B E. unfold counts_bounded in B. rewrite E in B. rewrite !Forall_cons in B. simpl in B.
  unfold input_shares. cbn [share_total foldr fst].
  rewrite !wrap64_small by (unfold is_int64, MinInt64, MaxInt64; lia). lia.
Qed.

Lemma output_shares_total total u :
  counts_bounded u → OutputTokens u = Some total → share_total (output_shares total u) = total.
Proof.
  intros B E. unfold counts_bounded in B. rewrite E in B. rewrite !Forall_cons in B. simpl in B.
  unfold output_shares. cbn [share_total foldr fst].
  rewrite !wrap64_small by (unfold is_int64, MinInt64, MaxInt64; lia). lia.
Qed.

(** One side of the bill is covered by its tokens at the highest rate. *)
Lemma charge_covered s rates shares m total limit c :
  shares_charge s shares 0 = Some c →
  Forall (λ sh, chain_within s rates sh.2) shares → share_total shares = total →
  Forall nonneg rates → maxRate rates = Some m → 0 <= total <= limit →
  0 <= quotient c <= ceilPerMillion limit m * perMillion.
Proof.
  intros E W T N M L. pose proof (maxRate_spec rates) as Mx. rewrite M in Mx.
  destruct Mx as [Hin Hle]. rewrite Forall_forall in N.
  assert (Hm : 0 <= m) by apply (N _ Hin).
  assert (Hr : ∀ v, Some v ∈ rates → 0 <= v <= m).
  { intros v Hv. split; [apply (N _ Hv)|auto]. }
  pose proof (shares_charge_le s rates shares m 0 c E W Hr ltac:(lia) Hm) as B.
  rewrite T in B. destruct (ceilPerMillion_spec total m ltac:(lia) Hm) as [P1 P2].
  pose proof (ceilPerMillion_mono total limit m ltac:(lia) Hm).
  apply quotient_le; [lia|]. unfold perMillion in *. nia.
Qed.

(** ** The bound covers the cost *)

Record rates_ok (r : priceRates) : Prop := {
  ro_set : set_nonneg (rates_set r);
  ro_tiers : Forall (λ t, set_nonneg (tier_set t)) (tiers r);
  ro_request : nonneg (perRequest r);
  ro_windows : Forall (λ w, 0 <= multiplier w) (windows r);
}.

Lemma selectRates_nonneg r i : rates_ok r → set_nonneg (selectRates r i).
Proof.
  intros [S T _ _]. destruct i as [i|]; [|done]. unfold selectRates.
  remember (rates_set r) as s eqn:E. clear E. revert s S.
  induction T as [|t ts Ht T IH]; intros s S; simpl; [done|]. apply IH. by destruct (_ <? _).
Qed.

Lemma windowAt_elem r t w : windowAt r t = Some w → ∃ p, p ∈ windows r ∧ multiplier p = w.
Proof.
  unfold windowAt. destruct (location r); [|done].
  intros (p & F & ->)%fmap_Some. exists p. split; [|done].
  apply find_some in F as [F _]. by apply list_elem_of_In.
Qed.

(** A window multiplier the bound may use in place of the one in force; nil is one. *)
Definition dominates (w W : option Z) : Prop :=
  match w, W with
  | None, None => True
  | None, Some W => costUnit <= W
  | Some w, Some W => w <= W
  | Some w, None => w <= costUnit
  end.

Lemma dominates_refl w : dominates w w.
Proof. by destruct w; simpl. Qed.

Lemma maximumWindow_dominates r t : valid r = true → dominates (windowAt r t) (maximumWindow r).
Proof.
  intros V. unfold maximumWindow. rewrite V. simpl.
  destruct (windowAt r t) as [w|] eqn:W.
  - apply windowAt_elem in W as (p & Hp & <-). destruct (windows r) as [|q ws]; [by apply elem_of_nil in Hp|].
    pose proof (MaxFunc_ge (cmp_on multiplier Z.compare) q ws p Hp) as G.
    remember (MaxFunc (cmp_on multiplier Z.compare) q ws) as best eqn:Eb. clear Eb.
    unfold cmp_le, cmp_on in G.
    assert (multiplier p <= multiplier best).
    { destruct (Z.compare_spec (multiplier p) (multiplier best)); [lia|lia|done]. }
    destruct (multiplier best <=? costUnit) eqn:E; simpl; lia.
  - destruct (windows r) as [|q ws]; [done|]. destruct (_ <=? costUnit) eqn:E; simpl; [done|lia].
Qed.

(** A total [T] over a divisor [D], covered by a bound [C], is still covered after
    both are multiplied, the bound rounding up. *)
Lemma multiplied_covered T C D m :
  0 <= T → 0 <= C → 0 < D → 0 <= m → T <= C * D →
  0 <= T * m ∧ 0 <= scale_up C m ∧ T * m <= scale_up C m * (D * costUnit).
Proof. intros HT HC HD Hm H. destruct (scale_up_spec C m HC Hm). nia. Qed.

Lemma window_covered T C w W :
  0 <= T → 0 <= C → T <= C * perMillion → dominates w W → nonneg w →
  let C' := match W with Some W => scale_up C W | None => C end in
  let T' := match w with Some w => T * w | None => T end in
  let D' := match w with Some _ => perMillion * costUnit | None => perMillion end in
  0 <= T' ∧ 0 <= C' ∧ T' <= C' * D'.
Proof.
  intros HT HC H Dom Hw. unfold perMillion in *. destruct w as [w|], W as [W|]; simpl in *.
  - destruct (scale_up_spec C W HC ltac:(lia)). unfold costUnit in *. nia.
  - unfold costUnit in *. nia.
  - unfold costUnit in Dom. destruct (scale_up_spec C W HC ltac:(lia)) as [? S]. unfold costUnit in *. nia.
  - done.
Qed.

Lemma tools_charge_free fees calls total total' :
  map_Forall (λ _ f, f = 0) fees → tools_charge fees calls total = Some total' → total' = total.
Proof.
  intros F. revert total. induction calls as [|[tool n] calls IH]; intros total; simpl; [by intros [= ->]|].
  destruct (n <=? 0); [apply IH|]. destruct (fees !! tool) as [fee|] eqn:L; [|done].
  intros E%IH. rewrite (F _ _ L) in E. lia.
Qed.

(** Usage priced by tokens, requests and tools alone. *)
Record plain_usage (u : AttemptUsage) : Prop := {
  pu_counts : counts_bounded u;
  pu_media : MediaUnits u = None;
  pu_batch : Batch u = false;
  pu_retained : retainedValues u = false;
}.

(** Tool calls that add nothing to the bill. *)
Definition tools_free (r : priceRates) (u : AttemptUsage) : Prop :=
  Usage_ToolCalls u = ∅ ∨ map_Forall (λ _ f, f = 0) (tools r).

Lemma tools_free_charge r u total total' :
  tools_free r u → tools_charge (tools r) (map_to_list (Usage_ToolCalls u)) total = Some total' →
  total' = total.
Proof.
  intros [E|F]; [|by apply tools_charge_free]. rewrite E, map_to_list_empty. by intros [= ->].
Qed.

Lemma cost_plain r u at_ ok d c :
  plain_usage u → tools_free r u → cost r u at_ ok d = Some c →
  valid r = true ∧
  ∃ i o, input_charge (selectRates r (InputTokens u)) u = Some i ∧
    output_charge (selectRates r (InputTokens u)) u = Some o ∧
    let ms := option_list (windowAt r at_) ++ option_list d in
    let D := 10 ^ (6 + 12 * Z.of_nat (length ms)) in
    c = clampCost (Z.quot (foldl Z.mul (i + o + request_charge r u ok) ms + Z.quot D 2) D).
Proof.
  intros [_ M B R] F. unfold cost, usage_total. destruct (negb (Complete u)); [done|].
  destruct (valid r); simpl; [|done]. destruct (_ && _); [done|].
  destruct (input_charge _ u) as [i|]; [|done]. destruct (output_charge _ u) as [o|]; [|done].
  unfold media_charge. rewrite M. destruct (invocations u <? 0); [done|].
  destruct (tools_charge _ _ _) as [total|] eqn:T; [|done].
  apply tools_free_charge in T as ->; [|done]. rewrite R. unfold integer_cost. rewrite B. simpl. intros E.
  split; [done|]. exists i, o. split; [done|]. split; [done|].
  unfold multipliers in E. rewrite B in E. simpl in E. rewrite Z.add_0_r in E.
  destruct (option_list (windowAt r at_) ++ option_list d) as [|m ms]; by injection E as <-.
Qed.

Lemma request_charge_le r u ok :
  rates_ok r → plain_usage u →
  0 <= request_charge r u ok <= match perRequest r with Some fee => fee * perMillion | None => 0 end.
Proof.
  intros [_ _ N _] [_ _ _ R]. unfold request_charge. destruct (perRequest r) as [fee|]; [|lia].
  simpl in N. assert (invocations u <= 1 ∧ 0 <= invocations u) as [I0 I1].
  { unfold invocations. unfold retainedValues in R. apply orb_false_iff in R as [R _].
    destruct (InvocationCount u); [done|]. destruct (Deferred u); lia. }
  unfold perMillion. destruct (ok && _) eqn:E; nia.
Qed.

Definition discount_of (d : option RoutingDiscount) : option Z :=
  match d with Some d => parsedMultiplier d | None => None end.

(** What costBound computes before the multipliers. *)
Lemma costBound_inv r inp outp g d W B :
  costBound r inp outp g d W = Some B →
  let s := selectRates r (Some inp) in
  ∃ rate ob, maxRate (input_rates s) = Some rate ∧
    (if g : bool then ∃ orate, maxRate (output_rates s) = Some orate ∧ ob = ceilPerMillion (Z.max outp 0) orate
     else ob = 0) ∧
    let C := ceilPerMillion (Z.max inp 0) rate + ob +
             match perRequest r with Some fee => fee | None => 0 end in
    let C := match W with Some w => scale_up C w | None => C end in
    (d = None ∨ is_Some (discount_of d)) ∧
    B = clampCost (match discount_of d with Some m => scale_up C m | None => C end).
Proof.
  unfold costBound. destruct (negb (valid r)); [done|]. destruct (_ || _); [done|]. cbv zeta.
  destruct (maxRate (input_rates _)) as [rate|]; [|done].
  set (tail := λ C0 : Z, match d with
    | Some d0 => match parsedMultiplier d0 with Some m => Some (clampCost (scale_up C0 m)) | None => None end
    | None => Some (clampCost C0) end).
  assert (Tail : ∀ C0, tail C0 = Some B →
    (d = None ∨ is_Some (discount_of d)) ∧
    B = clampCost (match discount_of d with Some m => scale_up C0 m | None => C0 end)).
  { intros C0. unfold tail, discount_of. destruct d as [d0|]; [|intros [= <-]; auto].
    destruct (parsedMultiplier d0) as [m|]; [|done]. intros [= <-]. eauto. }
  destruct g.
  - destruct (maxRate (output_rates _)) as [orate|]; [|done]. intros E.
    exists rate, (ceilPerMillion (Z.max outp 0) orate). split; [done|]. split; [by exists orate|].
    apply Tail. unfold tail. rewrite <- E. destruct (perRequest r); [done|by rewrite Z.add_0_r].
  - intros E. exists rate, 0. split; [done|]. split; [done|].
    apply Tail. unfold tail. rewrite <- E, Z.add_0_r. destruct (perRequest r); [done|by rewrite Z.add_0_r].
Qed.

Lemma output_covered u s limit orate o :
  set_nonneg s → plain_usage u → count (OutputTokens u) <= limit →
  output_charge s u = Some o → maxRate (output_rates s) = Some orate →
  0 <= o <= ceilPerMillion limit orate * perMillion.
Proof.
  intros [_ N] [B _ _ _] L E M. pose proof (maxRate_spec (output_rates s)) as Mx. rewrite M in Mx.
  destruct Mx as [Hin _]. assert (Ho : 0 <= orate).
  { rewrite Forall_forall in N. apply (N _ Hin). }
  unfold output_charge in E. destruct (OutputTokens u) as [t|] eqn:T.
  - assert (Hc : 0 <= t).
    { unfold counts_bounded in B. rewrite T, !Forall_cons in B. simpl in B. lia. }
    destruct (negb _); [done|]. unfold outputCharge in E. destruct (shares_charge _ _ _) as [ch|] eqn:C; [|done].
    injection E as <-. simpl in L.
    eapply (charge_covered _ _ _ _ t); eauto using output_chains, output_shares_total, conj.
  - destruct (_ || _); [done|]. injection E as <-.
    destruct (ceilPerMillion_spec limit orate) as [? _]; [simpl in L; lia|done|].
    unfold perMillion. lia.
Qed.

Lemma input_covered u s t limit rate i :
  set_nonneg s → plain_usage u → InputTokens u = Some t → t <= limit →
  input_charge s u = Some i → maxRate (input_rates s) = Some rate →
  0 <= i <= ceilPerMillion limit rate * perMillion.
Proof.
  intros [N _] [B _ _ _] T L E M. unfold input_charge in E. rewrite T in E.
  assert (Hc : 0 <= t).
  { unfold counts_bounded in B. rewrite T, !Forall_cons in B. simpl in B. lia. }
  destruct (negb _); [done|]. unfold inputCharge in E. destruct (shares_charge _ _ _) as [ch|] eqn:C; [|done].
  injection E as <-. eapply (charge_covered _ _ _ _ t); eauto using input_chains, input_shares_total, conj.
Qed.

Lemma pow_6_12 n : 10 ^ (6 + 12 * Z.of_nat n) = perMillion * costUnit ^ Z.of_nat n.
Proof. unfold perMillion, costUnit. rewrite Z.pow_add_r, <- Z.pow_mul_r by lia. done. Qed.

(** The rounded cost of a covered total is within the bound. *)
Lemma rounded_covered X C w W d :
  0 <= X → 0 <= C → X <= C * perMillion → dominates w W → nonneg w → nonneg d →
  let ms := option_list w ++ option_list d in
  let D := 10 ^ (6 + 12 * Z.of_nat (length ms)) in
  let C' := match W with Some W => scale_up C W | None => C end in
  cost_units (clampCost (Z.quot (foldl Z.mul X ms + Z.quot D 2) D)) <=
  cost_units (clampCost (match d with Some m => scale_up C' m | None => C' end)).
Proof.
  intros HX HC H Dom Hw Hd. cbv zeta. rewrite !clampCost_units.
  pose proof (window_covered X C w W HX HC H Dom Hw) as (T1 & T2 & T3). cbv zeta in *.
  set (C' := match W with Some W => scale_up C W | None => C end) in *. clearbody C'.
  apply Z.min_le_compat_r. rewrite pow_6_12.
  assert (HU : 0 < costUnit) by done. assert (HP : 0 < perMillion) by done.
  destruct w as [w|], d as [m|]; simpl length; simpl foldl; simpl app in *.
  - change (costUnit ^ Z.of_nat 2) with (costUnit * costUnit). simpl in Hd.
    destruct (multiplied_covered (X * w) C' (perMillion * costUnit) m) as (? & ? & ?); try done.
    rewrite Z.mul_assoc. apply quot_le_of_scaled; [done|lia|done].
  - change (costUnit ^ Z.of_nat 1) with costUnit. apply quot_le_of_scaled; [done|lia|done].
  - change (costUnit ^ Z.of_nat 1) with costUnit. simpl in Hd.
    destruct (multiplied_covered X C' perMillion m) as (? & ? & ?); try done.
    apply quot_le_of_scaled; [done|lia|done].
  - change (costUnit ^ Z.of_nat 0) with 1. rewrite Z.mul_1_r. apply quot_le_of_scaled; done.
Qed.

(** Every rate of a list is at most some rate of another. *)
Definition no_dearer (l l' : list (option Z)) : Prop := ∀ v, Some v ∈ l → ∃ v', Some v' ∈ l' ∧ v <= v'.

Lemma no_dearer_refl l : no_dearer l l.
Proof. intros v H. by exists v. Qed.

Lemma no_dearer_test l l' :
  forallb (λ o, match o with Some v => existsb (λ o', match o' with Some v' => v <=? v' | None => false end) l' | None => true end) l = true →
  no_dearer l l'.
Proof.
  intros H v Hv. rewrite forallb_forall in H. apply list_elem_of_In, H, existsb_exists in Hv as ([v'|] & Hin & Hle); [|done].
  exists v'. split; [by apply list_elem_of_In|by apply Z.leb_le].
Qed.

Lemma no_dearer_max l l' m m' : no_dearer l l' → maxRate l = Some m → maxRate l' = Some m' → m <= m'.
Proof.
  intros H E E'. pose proof (maxRate_spec l) as M. pose proof (maxRate_spec l') as M'. rewrite E in M. rewrite E' in M'.
  destruct M as [Hin _]. destruct M' as [_ Hle]. destruct (H m Hin) as (v & Hv & ?). specialize (Hle v Hv). lia.
Qed.

Lemma maxRate_present l v : Some v ∈ l → is_Some (maxRate l).
Proof.
  intros H. pose proof (maxRate_spec l) as M. destruct (maxRate l); [done|]. rewrite Forall_forall in M. by apply M in H.
Qed.

Lemma inputHead_max s : inputHead s = true → is_Some (maxRate (input_rates s)).
Proof.
  unfold inputHead. intros H. destruct (input s) as [v|] eqn:E1; [|destruct (audioInput s) as [v|] eqn:E2; [|destruct (imageInput s) as [v|] eqn:E3; [|done]]];
    apply (maxRate_present _ v); unfold input_rates; rewrite ?E1, ?E2, ?E3; set_solver.
Qed.

Lemma outputHead_max s : outputHead s = true → is_Some (maxRate (output_rates s)).
Proof.
  unfold outputHead. intros H. destruct (output s) as [v|] eqn:E1; [|destruct (audioOutput s) as [v|] eqn:E2; [|destruct (imageOutput s) as [v|] eqn:E3; [|done]]];
    apply (maxRate_present _ v); unfold output_rates; rewrite ?E1, ?E2, ?E3; set_solver.
Qed.

Lemma ceilPerMillion_rate t r r' : 0 <= t → 0 <= r <= r' → ceilPerMillion t r <= ceilPerMillion t r'.
Proof.
  intros Ht Hr. unfold ceilPerMillion, perMillion. rewrite !Z.quot_div_nonneg by nia. apply Z.div_le_mono; nia.
Qed.

Lemma maxRate_nonneg l m : Forall nonneg l → maxRate l = Some m → 0 <= m.
Proof.
  intros F E. pose proof (maxRate_spec l) as M. rewrite E in M. destruct M as [Hin _]. rewrite Forall_forall in F. apply (F _ Hin).
Qed.

Lemma cost_le_bound r u at_ ok t inp outp (g : bool) d W c B :
  rates_ok r → plain_usage u → tools_free r u → nonneg (discount_of d) →
  InputTokens u = Some t → t <= inp → count (OutputTokens u) <= outp →
  (g = true ∨ OutputTokens u = None) →
  no_dearer (input_rates (selectRates r (Some t))) (input_rates (selectRates r (Some inp))) →
  (g = true → no_dearer (output_rates (selectRates r (Some t))) (output_rates (selectRates r (Some inp)))) →
  dominates (windowAt r at_) W →
  costBound r inp outp g d W = Some B → cost r u at_ ok (discount_of d) = Some c →
  cost_units c <= cost_units B.
Proof.
  intros R U F Nd T Lt Lo G Hin Hout Dom Eb Ec.
  destruct (cost_plain _ _ _ _ _ _ U F Ec) as (_ & i & o & Ei & Eo & ->). clear Ec.
  destruct (costBound_inv _ _ _ _ _ _ _ Eb) as (rate & ob & Mr & Ob & _ & ->). clear Eb.
  rewrite T in Ei, Eo. pose proof (selectRates_nonneg r (Some t) R) as Ns.
  set (s := selectRates r (Some t)) in *. set (s' := selectRates r (Some inp)) in *.
  assert (Hlim : 0 <= t ∧ 0 <= count (OutputTokens u)).
  { destruct U as [Bd _ _ _]. unfold counts_bounded in Bd. rewrite T, !Forall_cons in Bd. simpl in Bd. lia. }
  assert (Ci : 0 <= i <= ceilPerMillion (Z.max inp 0) rate * perMillion).
  { destruct (inputHead s) eqn:Hd; [|unfold input_charge in Ei; by rewrite T, Hd in Ei]. destruct (inputHead_max s Hd) as [m Hm].
    pose proof (input_covered u s t (Z.max inp 0) m i Ns U T ltac:(lia) Ei Hm). pose proof (no_dearer_max _ _ _ _ Hin Hm Mr).
    pose proof (maxRate_nonneg _ _ (sn_in _ Ns) Hm). pose proof (ceilPerMillion_rate (Z.max inp 0) m rate). unfold perMillion in *. lia. }
  assert (Co : 0 <= o <= ob * perMillion).
  { destruct g.
    - destruct Ob as (orate & Mo & ->). destruct (OutputTokens u) as [ot|] eqn:To.
      + destruct (outputHead s) eqn:Hd; [|unfold output_charge in Eo; by rewrite To, Hd in Eo]. destruct (outputHead_max s Hd) as [m Hm].
        pose proof (output_covered u s (Z.max outp 0) m o Ns U ltac:(rewrite To in *; simpl in *; lia) Eo Hm). pose proof (no_dearer_max _ _ _ _ (Hout eq_refl) Hm Mo).
        pose proof (maxRate_nonneg _ _ (sn_out _ Ns) Hm). pose proof (ceilPerMillion_rate (Z.max outp 0) m orate). unfold perMillion in *. lia.
      + unfold output_charge in Eo. rewrite To in Eo. destruct (_ || _); [done|]. injection Eo as <-.
        pose proof (maxRate_nonneg _ _ (sn_out _ (selectRates_nonneg r (Some inp) R)) Mo).
        destruct (ceilPerMillion_spec (Z.max outp 0) orate) as [? _]; [lia|done|]. unfold perMillion. lia.
    - destruct G as [|G]; [done|]. subst ob. unfold output_charge in Eo. rewrite G in Eo.
      destruct (_ || _); [done|]. injection Eo as <-. lia. }
  pose proof (request_charge_le r u ok R U) as Cr.
  assert (Hw : nonneg (windowAt r at_)).
  { destruct (windowAt r at_) as [w|] eqn:E; [|done]. apply windowAt_elem in E as (p & Hp & <-).
    destruct R as [_ _ _ Wn]. rewrite Forall_forall in Wn. by apply Wn. }
  apply rounded_covered; try done.
  - lia.
  - destruct R as [_ _ Rq _]. unfold perMillion in *. destruct (perRequest r); simpl in *; lia.
  - unfold perMillion in *. destruct (perRequest r); lia.
Qed.

(** ** Parsed prices *)

Lemma scaledDecimal_nonneg text n v : scaledDecimal text n = Some v → 0 <= v.
Proof.
  unfold scaledDecimal. set (t := match text with String "+" rest => rest | _ => text end). clearbody t.
  destruct (Cut t ".") as [[i f] hp]. destruct (_ || _); [done|].
  destruct (decimalDigits _) eqn:D; [|done]. intros [= <-]. by destruct (dec_value_bound _ D).
Qed.

Lemma parse_rate_nonneg text r : parse_rate text = Some r → nonneg r.
Proof.
  unfold parse_rate. destruct text as [t|]; [|by intros [= <-]].
  destruct (scaledDecimal t costDigits) eqn:E; [|done]. intros [= <-]. by eapply scaledDecimal_nonneg.
Qed.

Lemma parseRateSet_nonneg p s : parseRateSet p = Some s → set_nonneg s.
Proof.
  unfold parseRateSet. intros E.
  repeat match type of E with
    | match parse_rate ?x with _ => _ end = Some _ =>
        let K := fresh "K" in destruct (parse_rate x) eqn:K; [apply parse_rate_nonneg in K|done]
    end.
  injection E as <-. split; repeat constructor; done.
Qed.

Lemma parse_all_elem {A B} (f : A → option B) l l' y :
  parse_all f l = Some l' → y ∈ l' → ∃ x, x ∈ l ∧ f x = Some y.
Proof.
  revert l'. induction l as [|x l IH]; intros l'; simpl; [intros [= <-] []%elem_of_nil|].
  destruct (f x) eqn:F; [|done]. destruct (parse_all f l); [|done].
  intros [= <-] [->|H]%elem_of_cons; [exists x; split; [left|done]|].
  destruct (IH _ eq_refl H) as (z & ? & ?). exists z. split; [by right|done].
Qed.

Lemma parse_all_map {A B C} (f : A → option B) (g : A → C) (h : B → C) l l' :
  parse_all f l = Some l' → (∀ x y, f x = Some y → h y = g x) → map h l' = map g l.
Proof.
  intros E H. revert l' E. induction l as [|x l IH]; intros l'; simpl; [by intros [= <-]|].
  destruct (f x) eqn:F; [|done]. destruct (parse_all f l); [|done].
  intros [= <-]. simpl. f_equal; [by apply H|by apply IH].
Qed.

Section Parsed.
Context `{TimeZones}.

Lemma parse_price_inv p r :
  parse_price p = Some r →
  ∃ rs ts tr lw pr, parseRateSet (Price_rates p) = Some rs ∧ parse_rate (PerRequest p) = Some pr ∧
    parse_all parse_tool (map_to_list (Price_ToolCalls p)) = Some ts ∧
    parse_all parse_tier (Tiers p) = Some tr ∧ parse_windows (Windows p) = Some lw ∧
    rates_set r = rs ∧ perRequest r = pr ∧ tools r = list_to_map ts ∧ tiers r = tr ∧
    windows r = lw.2.
Proof.
  unfold parse_price. destruct (negb _); [done|].
  destruct (parseRateSet _) as [rs|]; [|done]. destruct (parse_rate (UnitPrice p)); [|done].
  destruct (parse_rate (PerRequest p)) as [pr|]; [|done]. destruct (parse_rate (BatchMultiplier p)); [|done].
  destruct (parse_all parse_tool _) as [ts|]; [|done]. destruct (parse_all parse_tier _) as [tr|]; [|done].
  destruct (parse_windows _) as [lw|]; [|done]. intros [= <-]. exists rs, ts, tr, lw, pr. auto 15.
Qed.

Lemma parseRates_ok p : rates_ok (parseRates p).
Proof.
  unfold parseRates. destruct (parse_price p) as [r|] eqn:E.
  2:{ split; simpl; [split; repeat constructor|constructor|done|constructor]. }
  destruct (parse_price_inv p r E) as (rs & ts & tr & lw & pr & E1 & E2 & _ & E4 & E5 & R1 & R2 & _ & R4 & R5).
  split.
  - rewrite R1. by eapply parseRateSet_nonneg.
  - rewrite R4. apply Forall_forall. intros t Ht.
    destruct (parse_all_elem _ _ _ _ E4 Ht) as (x & _ & Ex). unfold parse_tier in Ex.
    destruct (parseRateSet (Tier_rates x)) eqn:P; [|done]. injection Ex as <-.
    by eapply parseRateSet_nonneg.
  - rewrite R2. by eapply parse_rate_nonneg.
  - rewrite R5. unfold parse_windows in E5. destruct (Windows p) as [w|]; [|injection E5 as <-; constructor].
    destruct (LoadLocation _); [|done].
    destruct (parse_all parse_period (Periods w)) as [ps|] eqn:P; [|done].
    injection E5 as <-. apply Forall_forall. intros q Hq.
    destruct (parse_all_elem _ _ _ _ P Hq) as (x & _ & Ex). unfold parse_period in Ex.
    destruct (WindowMinutes _ _); [|done]. destruct (WindowMinutes _ _); [|done].
    destruct (scaledDecimal _ _) eqn:Sc; [|done]. injection Ex as <-. by eapply scaledDecimal_nonneg.
Qed.

Lemma parsed_tiers p : valid (parseRates p) = true →
  map above (tiers (parseRates p)) = map AboveInputTokens (Tiers p).
Proof.
  unfold parseRates. destruct (parse_price p) as [r|] eqn:E; [|done]. intros _.
  destruct (parse_price_inv p r E) as (rs & ts & tr & lw & pr & _ & _ & _ & E4 & _ & _ & _ & _ & -> & _).
  eapply parse_all_map; [done|]. intros x y. unfold parse_tier.
  destruct (parseRateSet _); [|done]. by intros [= <-].
Qed.

Lemma free_tool_zero fee v : free_tool fee = true → scaledDecimal fee costDigits = Some v → v = 0.
Proof.
  unfold free_tool, ParseCost. intros F E. rewrite E in F. destruct (v >? maxCostUnits); [done|].
  unfold Cost_IsZero in F. simpl in F. lia.
Qed.

Lemma parsed_tools_free p :
  forallb (λ e, free_tool e.2) (map_to_list (Price_ToolCalls p)) = true →
  map_Forall (λ _ f, f = 0) (tools (parseRates p)).
Proof.
  intros F. unfold parseRates. destruct (parse_price p) as [r|] eqn:E; [|intros k v; simpl; by rewrite lookup_empty].
  destruct (parse_price_inv p r E) as (rs & ts & tr & lw & pr & _ & _ & E3 & _ & _ & _ & _ & -> & _).
  intros k v L%elem_of_list_to_map_2. destruct (parse_all_elem _ _ _ _ E3 L) as (x & Hx & Ex).
  rewrite forallb_forall in F. specialize (F x (proj1 (list_elem_of_In _ _) Hx)).
  unfold parse_tool in Ex. destruct (scaledDecimal x.2 costDigits) eqn:Sc; [|done].
  injection Ex as _ <-. by eapply free_tool_zero.
Qed.
End Parsed.

(** ** Reservations *)

(** A price as the routing inputs hold it: its rates, when cached, are those parsed
    from a price with the same tiers and tools (pinning a price to a provider
    changes only its scope). *)
Definition price_loaded `{TimeZones} (p : RoutingPrice) : Prop :=
  ∃ q, parsed p = parseRates q ∧ Tiers q = Tiers (rp_price p) ∧
       Price_ToolCalls q = Price_ToolCalls (rp_price p).

Definition discount_loaded (d : option RoutingDiscount) : Prop :=
  match d with
  | None => True
  | Some d => discount_multiplier d = None ∨
              discount_multiplier d = scaledDecimal (Discount_Multiplier d) costDigits
  end.

Lemma discount_loaded_nonneg d : discount_loaded d → nonneg (discount_of d).
Proof.
  destruct d as [d|]; simpl; [|done]. unfold parsedMultiplier. intros [->| ->].
  - destruct (scaledDecimal _ _) eqn:E; simpl; [by eapply scaledDecimal_nonneg|done].
  - destruct (scaledDecimal _ _) eqn:E; simpl; [by eapply scaledDecimal_nonneg|done].
Qed.

Lemma costBound_valid r inp outp g d W B : costBound r inp outp g d W = Some B → valid r = true.
Proof. unfold costBound. by destruct (valid r). Qed.

Lemma RoutingPrice_Cost_discount `{TimeZones} p u at_ ok d :
  RoutingPrice_Cost (Some p) u at_ ok d = cost (parsed p) u at_ ok (discount_of d).
Proof. done. Qed.

(** Rate sets agree on inputs no tier boundary separates. *)
Lemma selectRates_same r a b :
  (∀ x, x ∈ map above (tiers r) → (x < a ↔ x < b)) → selectRates r (Some a) = selectRates r (Some b).
Proof.
  unfold selectRates. generalize (rates_set r).
  induction (tiers r) as [|t ts IH]; intros s Hs; simpl; [done|].
  assert ((above t <? a) = (above t <? b)) as ->.
  { specialize (Hs (above t) ltac:(left)). destruct (Z.ltb_spec (above t) a), (Z.ltb_spec (above t) b); lia. }
  apply IH. intros x Hx. apply Hs. by right.
Qed.

(** The first boundary at or above [t] and below [inp], or [inp]. *)
Lemma boundary_above (l : list Z) t inp :
  t <= inp →
  ∃ x, (x = inp ∨ x ∈ l ∧ x < inp) ∧ t <= x ∧ ∀ a, a ∈ l → (a < t ↔ a < x).
Proof.
  intros L. induction l as [|a l IH].
  { exists inp. split; [by left|]. split; [done|]. intros a []%elem_of_nil. }
  destruct IH as (x & Hx & Ht & Hl). assert (Hxi : x <= inp) by (destruct Hx as [->|[_ ?]]; lia).
  destruct (decide (t <= a < x)) as [Ha|Ha].
  - exists a. split; [right; split; [left|lia]|]. split; [lia|].
    intros b [->|Hb]%elem_of_cons; [lia|]. specialize (Hl b Hb). lia.
  - exists x. split; [destruct Hx as [->|[Hx ?]]; [by left|right; split; [by right|done]]|].
    split; [done|]. intros b [->|Hb]%elem_of_cons; [lia|auto].
Qed.

Lemma through_tiers `{TimeZones} p d inp outp ts B :
  workflowModelCostThroughTiers p d inp outp ts = Some B →
  ∀ x, x = inp ∨ x ∈ map AboveInputTokens ts ∧ x < inp →
    ∃ b, MaximumWindowCostBound (Some p) x outp true d = Some b ∧ cost_units b <= cost_units B.
Proof.
  revert B. induction ts as [|t ts IH]; intros B.
  { cbn [workflowModelCostThroughTiers]. intros E x [->|[[]%elem_of_nil _]]. eauto with lia. }
  cbn [workflowModelCostThroughTiers map].
  destruct (workflowModelCostThroughTiers p d inp outp ts) as [b|]; [|done].
  specialize (IH b eq_refl). destruct (AboveInputTokens t >=? inp) eqn:G.
  { intros [= <-] x [->|[[->|Hx]%elem_of_cons Lx]]; [by apply IH; left|lia|by apply IH; right]. }
  destruct (MaximumWindowCostBound (Some p) (AboveInputTokens t) outp true d) as [prior|] eqn:P; [|done].
  intros E. assert (HB : cost_units b <= cost_units B ∧ cost_units prior <= cost_units B).
  { unfold Cost_Cmp in E.
    destruct (Z.compare_spec (cost_units prior) (cost_units b)); injection E as <-; lia. }
  intros x [->|[[->|Hx]%elem_of_cons Lx]].
  - destruct (IH inp ltac:(by left)) as (b' & ? & ?). exists b'. split; [done|lia].
  - exists prior. split; [done|lia].
  - destruct (IH x ltac:(by right)) as (b' & ? & ?). exists b'. split; [done|lia].
Qed.

(** C14. The bound admission reserves covers the bill. For a loaded price and
    discount, usage billed by tokens and requests whose tool calls are free and whose
    token counts stay within the reserved counts, the cost of the attempt at the
    instant of the reservation, with the cache, audio and image shares the provider
    chooses to report, successful or not, and after every database rounding, is at
    most [CostBound], as long as the tier the usage lands in has no rate above all
    those of the tier the reservation was priced at: so always within one tier, and
    across tiers that only get dearer. A price may declare a cheaper tier above a
    dearer one, and then a bound can be exceeded ([cheaper_tier_escapes_bound]). *)
Theorem cost_bound_covers `{TimeZones} (p : RoutingPrice) (d : option RoutingDiscount)
    (u : AttemptUsage) (t inp outp : Z) (generation : bool) (at_ : Time) (ok : bool) (c B : Cost) :
  price_loaded p → discount_loaded d → plain_usage u → tools_free (parsed p) u →
  InputTokens u = Some t → t <= inp → count (OutputTokens u) <= outp →
  (generation = true ∨ OutputTokens u = None) →
  no_dearer (input_rates (selectRates (parsed p) (Some t))) (input_rates (selectRates (parsed p) (Some inp))) →
  (generation = true → no_dearer (output_rates (selectRates (parsed p) (Some t))) (output_rates (selectRates (parsed p) (Some inp)))) →
  CostBound (Some p) inp outp generation at_ d = Some B →
  RoutingPrice_Cost (Some p) u at_ ok d = Some c →
  Cost_Cmp c B ≠ Gt.
Proof.
  intros (q & Pq & _) D U Tc T Lt Lo G Hin Hout Eb Ec.
  rewrite RoutingPrice_Cost_discount in Ec. unfold Cost_Cmp.
  apply Z.compare_le_iff. eapply cost_le_bound; eauto using discount_loaded_nonneg, dominates_refl.
  rewrite Pq. apply parseRates_ok.
Qed.

(** C4. The bound a workflow reserves for a model call covers the call wherever it
    lands: for any actual input up to the reserved input, whichever tier it
    selects, any output up to the reserved output, any pricing window in force
    when it starts, and any free tools it calls, the cost is at most
    [WorkflowModelCostBound]. Tiers may be declared in any order. *)
Theorem workflow_bound_covers `{TimeZones} (p : RoutingPrice) (d : option RoutingDiscount)
    (u : AttemptUsage) (t inp outp : Z) (at_ : Time) (ok : bool) (c B : Cost) :
  price_loaded p → discount_loaded d → plain_usage u →
  InputTokens u = Some t → t <= inp → count (OutputTokens u) <= outp →
  WorkflowModelCostBound (Some p) inp outp d = Some B →
  RoutingPrice_Cost (Some p) u at_ ok d = Some c →
  Cost_Cmp c B ≠ Gt.
Proof.
  intros (q & Pq & Tq & Cq) D U T Lt Lo Eb Ec. unfold WorkflowModelCostBound in Eb.
  destruct (_ || _); [done|]. destruct (forallb _ _) eqn:F; simpl in Eb; [|done].
  rewrite RoutingPrice_Cost_discount in Ec.
  assert (V : valid (parsed p) = true).
  { destruct (through_tiers p d inp outp _ B Eb inp ltac:(by left)) as (b & E & _).
    by eapply costBound_valid. }
  assert (Tm : map above (tiers (parsed p)) = map AboveInputTokens (Tiers (rp_price p))).
  { rewrite <- Tq, Pq. apply parsed_tiers. by rewrite <- Pq. }
  destruct (boundary_above (map above (tiers (parsed p))) t inp Lt) as (x & Hx & Htx & Hs).
  rewrite Tm in Hx. destruct (through_tiers p d inp outp _ B Eb x Hx) as (b & Ebx & Hb).
  unfold Cost_Cmp. apply Z.compare_le_iff. etrans; [|exact Hb].
  eapply (cost_le_bound _ _ _ _ _ _ _ true);
    eauto using discount_loaded_nonneg, maximumWindow_dominates.
  - rewrite Pq. apply parseRates_ok.
  - right. rewrite Pq. apply parsed_tools_free. by rewrite Cq.
  - rewrite (selectRates_same _ _ _ Hs). apply no_dearer_refl.
  - intros _. rewrite (selectRates_same _ _ _ Hs). apply no_dearer_refl.
Qed.

(** A price with a tier, a window and a per-request fee, in UTC. *)
#[local] Instance UTC : TimeZones := {| LoadLocation := λ _, Some (λ _, 0) |}.

Definition sample_rates (i c o : string) : PerMillion :=
  mkPerMillion (Some i) (Some c) None None None (Some o) None None None None None None.

Definition sample_price : RoutingPrice :=
  mkRoutingPrice
    (mkPrice None None None ∅ None "openai" None "m" "generation" (sample_rates "2.5" "0.25" "10")
       None (Some "0.001") None {["search" := "0"]}
       [mkTier 200000 (sample_rates "5" "0.5" "15")]
       (Some (mkWindows "UTC" [mkPeriod [1; 2; 3; 4; 5; 6; 7] "00:00" "24:00" "1.5"])) "USD")
    "r" 1 0 0 None.

Definition sample_usage (calls : gmap string Z) : AttemptUsage :=
  mkUsage None None None None ∅ (Some 1000) (Some 500) (Some 400) None None None None None None
    None None None None calls false true false.

Definition sample_discount : RoutingDiscount := mkDiscount "d" "openai" None None "0.9" 0 0 None.

Lemma sample_plain calls : plain_usage (sample_usage calls).
Proof.
  split; [|done..]. unfold counts_bounded. repeat constructor; simpl; lia.
Qed.

Lemma sample_loaded : price_loaded sample_price.
Proof. by exists (rp_price sample_price). Qed.

Lemma cost_bound_covers_witness :
  Cost_String <$> RoutingPrice_Cost (Some sample_price) (sample_usage ∅) 0 true (Some sample_discount)
    = Some "0.01026" ∧
  Cost_Cmp (mkCost (Some 10260000000)) (mkCost (Some 2036880000000)) ≠ Gt.
Proof.
  split; [vm_compute; reflexivity|].
  apply (cost_bound_covers sample_price (Some sample_discount) (sample_usage ∅) 1000 300000 520 true 0 true).
  - exact sample_loaded.
  - by left.
  - exact (sample_plain ∅).
  - by left.
  - done.
  - lia.
  - simpl. lia.
  - by left.
  - apply no_dearer_test. vm_compute. reflexivity.
  - intros _. apply no_dearer_test. vm_compute. reflexivity.
  - vm_compute. reflexivity.
  - vm_compute. reflexivity.
Defined.

(** A tier that is cheaper above its threshold: the bound reserved above it is exceeded
    by an attempt that stays below. *)
Definition cheaper_price : RoutingPrice :=
  mkRoutingPrice
    (mkPrice None None None ∅ None "openai" None "m" "generation" (sample_rates "5" "0.5" "15")
       None None None ∅ [mkTier 200000 (sample_rates "2.5" "0.25" "10")] None "USD")
    "r" 1 0 0 None.

Lemma cheaper_tier_escapes_bound :
  let u := mkUsage None None None None ∅ (Some 199999) (Some 1) None None None None None None None
    None None None None ∅ false true false in
  ∃ c B, CostBound (Some cheaper_price) 300000 1 true 0 None = Some B ∧
    RoutingPrice_Cost (Some cheaper_price) u 0 true None = Some c ∧ Cost_Cmp c B = Gt.
Proof. cbv zeta. eexists _, _. split; [vm_compute; reflexivity|]. split; [vm_compute; reflexivity|]. vm_compute. reflexivity. Qed.

Lemma workflow_bound_covers_witness :
  Cost_Cmp (mkCost (Some 10260000000)) (mkCost (Some 2036880000000)) ≠ Gt.
Proof.
  apply (workflow_bound_covers sample_price (Some sample_discount) (sample_usage {["search" := 3]})
    1000 300000 520 0 true).
  - exact sample_loaded.
  - by left.
  - exact (sample_plain _).
  - done.
  - lia.
  - simpl. lia.
  - vm_compute. reflexivity.
  - vm_compute. reflexivity.
Defined.

(** ** One rounding, two computations *)

Lemma quot_Qeq (a b : Q) :
  (a == b)%Q → Z.quot (Qnum a) (Zpos (Qden a)) = Z.quot (Qnum b) (Zpos (Qden b)).
Proof.
  destruct a as [n1 d1], b as [n2 d2]. unfold Qeq. simpl. intros E.
  rewrite <- (Z.quot_mul_cancel_r n1 (Zpos d1) (Zpos d2)) by lia. rewrite E.
  rewrite (Z.mul_comm (Zpos d1) (Zpos d2)). by apply Z.quot_mul_cancel_r.
Qed.

Lemma round_rat_frac (q : Q) T D :
  0 < D → (q * inject_Z costUnit == inject_Z T / inject_Z (2 * D))%Q →
  round_rat q = clampCost (Z.quot (T + D) (2 * D)).
Proof.
  intros HD E. unfold round_rat. f_equal. set (t := (q * inject_Z costUnit + (1 # 2))%Q).
  destruct (2 * D) as [|D2|] eqn:ED; [lia| |lia].
  rewrite (quot_Qeq (Qred t) ((T + D) # D2)); [done|].
  rewrite Qred_correct. unfold t. rewrite E. unfold Qdiv, Qinv, Qeq, Qplus, Qmult, inject_Z.
  simpl. nia.
Qed.

(** The exact total after the multipliers, as a fraction. *)
Lemma scale_rat_frac (q : Q) T n m :
  0 <= n → (q == inject_Z T / inject_Z (10 ^ 18 * costUnit ^ n))%Q →
  (scale_rat q (Some m) == inject_Z (T * m) / inject_Z (10 ^ 18 * costUnit ^ (n + 1)))%Q.
Proof.
  intros Hn E. unfold scale_rat. rewrite E, Z.pow_add_r, Z.pow_1_r, !inject_Z_mult by lia.
  field. split; [done|]. split; [|done].
  intros Z0. unfold Qeq, inject_Z in Z0. simpl in Z0.
  assert (0 < costUnit ^ n) by (apply Z.pow_pos_nonneg; [done|lia]). lia.
Qed.

Lemma final_round (q : Q) T n :
  0 <= n → (q == inject_Z T / inject_Z (10 ^ 18 * costUnit ^ n))%Q →
  let D := 10 ^ (6 + 12 * n) in
  round_rat q = clampCost (Z.quot (T + Z.quot D 2) D).
Proof.
  intros Hn E. cbv zeta.
  assert (ED : 10 ^ (6 + 12 * n) = 2 * (500000 * costUnit ^ n)).
  { rewrite Z.pow_add_r, Z.pow_mul_r by lia. change (10 ^ 12) with costUnit. lia. }
  assert (0 < costUnit ^ n) by (apply Z.pow_pos_nonneg; [done|lia]).
  rewrite ED. rewrite (Z.mul_comm 2), Z.quot_mul by lia. rewrite (Z.mul_comm _ 2).
  apply round_rat_frac; [lia|]. rewrite E.
  replace (10 ^ 18 * costUnit ^ n) with (costUnit * (2 * (500000 * costUnit ^ n))) by (unfold costUnit; lia).
  rewrite (inject_Z_mult costUnit). field. split; [|done].
  intros Z0. unfold Qeq, inject_Z in Z0. simpl in Z0. lia.
Qed.

Lemma scales_frac (ms : list Z) (q : Q) T n :
  0 <= n → (q == inject_Z T / inject_Z (10 ^ 18 * costUnit ^ n))%Q →
  (foldl (λ q m, scale_rat q (Some m)) q ms ==
   inject_Z (foldl Z.mul T ms) / inject_Z (10 ^ 18 * costUnit ^ (n + Z.of_nat (length ms))))%Q.
Proof.
  revert q T n. induction ms as [|m ms IH]; intros q T n Hn E; cbn [foldl length].
  { by rewrite Z.add_0_r. }
  replace (n + Z.of_nat (S (length ms))) with (n + 1 + Z.of_nat (length ms)) by lia.
  apply IH; [lia|]. by apply scale_rat_frac.
Qed.

Lemma retained_nothing r total u at_ d :
  retainedValues u = false →
  retainedCost r total u at_ d =
  if Batch u && negb (is_some (batch r)) then None
  else Some (round_rat (foldl (λ q m, scale_rat q (Some m)) (inject_Z total / inject_Z (10 ^ 18))%Q
                          (multipliers r u at_ d))).
Proof.
  unfold retainedValues. intros R. split_bools.
  destruct (InvocationCount u) eqn:E1; [done|]. destruct (TrainingTokens u) eqn:E2; [done|].
  destruct (StorageByteSeconds u) eqn:E3; [done|]. destruct (CacheTokenSeconds u) eqn:E4; [done|].
  assert (E5 : ContainerSessions u = ∅) by (apply map_size_empty_inv; by apply Nat.eqb_eq).
  unfold retainedCost, validateRetainedUsage, multipliers. rewrite E1, E2, E3, E4, E5, map_to_list_empty.
  simpl. destruct (windowAt r at_), (Batch u), (batch r), d; reflexivity.
Qed.

(** C13. The integer arithmetic that prices an attempt agrees with exact rational
    arithmetic: multiplying the charge by the window, batch and discount
    multipliers in integers and dividing once by a power of ten, rounding half up,
    gives the amount [retainedCost] computes with rationals, whatever the usage,
    the price and the multipliers, so usage with and without retained quantities
    is rounded the same way. *)
Theorem cost_rounding_exact (r : priceRates) (u : AttemptUsage) (startedAt : Time) (successful : bool)
    (discount : option Z) :
  cost r u startedAt successful discount =
  match usage_total r u successful with
  | Some total => retainedCost r total u startedAt discount
  | None => None
  end.
Proof.
  unfold cost. destruct (usage_total r u successful) as [total|]; [|done].
  destruct (retainedValues u) eqn:R; [done|]. rewrite retained_nothing by done.
  unfold integer_cost. destruct (_ && _); [done|]. cbv zeta.
  set (ms := multipliers r u startedAt discount).
  rewrite (final_round _ (foldl Z.mul total ms) (Z.of_nat (length ms))).
  - by destruct ms.
  - lia.
  - by apply (scales_frac ms _ total 0).
Qed.
