(* ===== verification/RoutingInputs.v ===== *)
(** * The rates and measurements routing reads

    [internal/usage/routing_inputs.go] without its SQL: the price, discount and
    rate card in force for an attempt, and the measured performance of a target.
    Loading fills the records from PostgreSQL and is left out; the index of prices
    it builds is modelled, with the proof that using it changes nothing. *)

From S2P Require Import Prelude Go Amount Policy Pricing.
From Stdlib Require Import QArith SpecFloat.
Local Open Scope Z_scope.
Local Open Scope olp_scope.

Definition PerformanceMaxAge : Duration := 60 * Second.
Definition PerformanceMinSamples : Z := 20.

(** [time.Time.Sub] saturates at the range of a duration. *)
Definition time_Sub (t u : Time) : Duration := Z.max MinInt64 (Z.min MaxInt64 (t - u)).

Record Performance := mkPerformance {
  SampleCount : Z;
  LatencyMS : float64;
  Throughput : option float64;
  ObservedAt : Time;
}.

Record RoutingRateCard := mkRateCard {
  RateCard_ID : string;
  RateCard_OrganizationID : option string;
  RateCard_ProjectID : option string;
  RateCard_Revisions : list RoutingCardRevision;
}.

(** kind, model, operation *)
Definition routingPriceKey : Type := string * string * string.

Record RoutingInputs := mkInputs {
  priceIndex : option (gmap routingPriceKey (list RoutingPrice));
  Prices : list RoutingPrice;
  Performance_ : gmap string Performance;
  Discounts : list RoutingDiscount;
  RateCards : list RoutingRateCard;
  ProjectOrganizations : gmap string string;
  RefreshedAt : Time;
}.

Definition price_key (p : RoutingPrice) : routingPriceKey :=
  (Price_ProviderKind (rp_price p), Price_Model (rp_price p), Price_Operation (rp_price p)).

Definition index_add (index : gmap routingPriceKey (list RoutingPrice)) (p : RoutingPrice)
  : gmap routingPriceKey (list RoutingPrice) :=
  <[price_key p := match index !! price_key p with Some l => l | None => [] end ++ [p]]> index.

(** Short catalogues are scanned. *)
Definition indexRoutingPrices (prices : list RoutingPrice)
  : option (gmap routingPriceKey (list RoutingPrice)) :=
  if Z.of_nat (length prices) <? 2 then None else Some (foldl index_add ∅ prices).

Definition pricesFor (i : RoutingInputs) (key : routingPriceKey) : list RoutingPrice :=
  match priceIndex i with
  | Some index => match index !! key with Some l => l | None => [] end
  | None => Prices i
  end.

Definition scopePriority (p : RoutingPrice) : Z :=
  match Price_ProviderID (rp_price p), Price_VendorID (rp_price p) with
  | Some _, Some _ => 3
  | Some _, None => 2
  | None, Some _ => 1
  | None, None => 0
  end.

(** The loop of the lookups: keep the first element, and each later one that is
    better than what is kept. *)
Definition pick_best {A} (better : A → A → bool) (l : list A) : option A :=
  foldl (λ found v, match found with
                    | None => Some v
                    | Some f => if better v f then Some v else found
                    end) None l.

Definition scope_is (scope : option string) (value : string) : bool :=
  match scope with Some s => String.eqb s value | None => true end.

Definition price_matches (kind provider vendor model op : string) (now : Time) (v : RoutingPrice) : bool :=
  String.eqb (Price_ProviderKind (rp_price v)) kind && String.eqb (Price_Model (rp_price v)) model &&
  String.eqb (Price_Operation (rp_price v)) op && negb (After (EffectiveAt v) now) &&
  scope_is (Price_ProviderID (rp_price v)) provider && scope_is (Price_VendorID (rp_price v)) vendor.

Definition better_price (v found : RoutingPrice) : bool :=
  (scopePriority v >? scopePriority found) ||
  (scopePriority v =? scopePriority found) &&
  (After (EffectiveAt v) (EffectiveAt found) ||
   (EffectiveAt v =? EffectiveAt found) && (Revision v >? Revision found)).

(** The copy the attempt keeps is scoped to its provider. *)
Definition pin (provider : string) (found : RoutingPrice) : RoutingPrice :=
  let p := rp_price found in
  mkRoutingPrice
    (mkPrice (TrainingPerMillion p) (StoragePerGiBDay p) (CacheStoragePerMillionTokenHour p)
       (ContainerPerSession p) (Price_VendorID p) (Price_ProviderKind p) (Some provider)
       (Price_Model p) (Price_Operation p) (Price_rates p) (UnitPrice p) (PerRequest p)
       (BatchMultiplier p) (Price_ToolCalls p) (Tiers p) (Windows p) (Currency p))
    (RevisionID found) (Revision found) (EffectiveAt found) (scopePriority found) (rp_rates found).

Definition stale (i : RoutingInputs) (now : Time) : bool :=
  time_Sub now (RefreshedAt i) >? PerformanceMaxAge.

Definition Inputs_Price (i : option RoutingInputs) (kind provider vendor model op : string)
    (now : Time) : option RoutingPrice :=
  i <-? i ;;
  if stale i now then None
  else
    pin provider <$>
      pick_best better_price
        (List.filter (price_matches kind provider vendor model op now) (pricesFor i (kind, model, op))).

(** The scalar the price strategy orders by: nil when an amount it needs is
    missing or unreadable. *)
Definition scalar_amounts (p : RoutingPrice) (op : string) : list (option string) :=
  let r := Price_rates (rp_price p) in
  if String.eqb op "search" then [PerRequest (rp_price p)]
  else if String.eqb op "embeddings" then [InputPerMillion r]
  else if String.eqb op "generation" || String.eqb op "decision" then
    [InputPerMillion r; OutputPerMillion r]
  else [UnitPrice (rp_price p)].

Fixpoint sum_amounts `{RatLib} (amounts : list (option string)) (total : Q) : option Q :=
  match amounts with
  | [] => Some total
  | amount :: rest =>
      amount <-? amount ;; v <-? Rat_SetString amount ;; sum_amounts rest (total + v)%Q
  end.

Definition Scalar `{RatLib} (p : option RoutingPrice) (op : string) : option Q :=
  p <-? p ;; sum_amounts (scalar_amounts p op) 0%Q.

Definition discount_matches (kind provider vendor : string) (now : Time) (d : RoutingDiscount) : bool :=
  String.eqb (Discount_ProviderKind d) kind && negb (After (Discount_EffectiveAt d) now) &&
  scope_is (Discount_ProviderID d) provider && scope_is (Discount_VendorID d) vendor.

Definition discount_priority (d : RoutingDiscount) : Z :=
  (if is_some (Discount_VendorID d) then 1 else 0) + (if is_some (Discount_ProviderID d) then 2 else 0).

Definition better_discount (v found : RoutingDiscount) : bool :=
  (discount_priority v >? discount_priority found) ||
  (discount_priority v =? discount_priority found) &&
  (After (Discount_EffectiveAt v) (Discount_EffectiveAt found) ||
   (Discount_EffectiveAt v =? Discount_EffectiveAt found) &&
   (After (Discount_CreatedAt v) (Discount_CreatedAt found) ||
    (Discount_CreatedAt v =? Discount_CreatedAt found) &&
    match CompareString (Discount_ID v) (Discount_ID found) with Gt => true | _ => false end)).

Definition Inputs_Discount (i : option RoutingInputs) (kind provider vendor : string) (now : Time)
  : option RoutingDiscount :=
  i <-? i ;;
  if stale i now then None
  else pick_best better_discount (List.filter (discount_matches kind provider vendor now) (Discounts i)).

Definition better_revision (v found : RoutingCardRevision) : bool :=
  After (Card_EffectiveAt v) (Card_EffectiveAt found) ||
  (Card_EffectiveAt v =? Card_EffectiveAt found) && (Card_Revision v >? Card_Revision found).

(** The closure [inForce]. *)
Definition inForce (now : Time) (card : option RoutingRateCard) : option RoutingCardRevision :=
  card <-? card ;;
  pick_best better_revision
    (List.filter (λ c, negb (After (Card_EffectiveAt c) now)) (RateCard_Revisions card)).

Definition is_project_card (projectID : option string) (c : RoutingRateCard) : bool :=
  match projectID, RateCard_ProjectID c with Some p, Some q => String.eqb q p | _, _ => false end.

Definition is_organization_card (organization : string) (c : RoutingRateCard) : bool :=
  negb (String.eqb organization "") &&
  match RateCard_OrganizationID c with Some o => String.eqb o organization | None => false end.

Definition is_installation_card (c : RoutingRateCard) : bool :=
  negb (is_some (RateCard_ProjectID c)) && negb (is_some (RateCard_OrganizationID c)).

(** The last card of each scope the loop over cards leaves. *)
Definition last_card (p : RoutingRateCard → bool) (l : list RoutingRateCard) : option RoutingRateCard :=
  last (List.filter p l).

(** The first result is the revision, the second whether the inputs can tell. *)
Definition RateCardRevision (i : option RoutingInputs) (projectID : option string) (now : Time)
  : option RoutingCardRevision * bool :=
  match i with
  | None => (None, false)
  | Some i =>
      if stale i now then (None, false)
      else
        let organization :=
          match projectID with
          | Some p => match ProjectOrganizations i !! p with Some o => o | None => "" end
          | None => ""
          end in
        let project := is_project_card projectID in
        let org c := negb (project c) && is_organization_card organization c in
        let inst c := negb (project c) && negb (is_organization_card organization c) &&
                      is_installation_card c in
        (match inForce now (last_card project (RateCards i)) with
         | Some r => Some r
         | None =>
             match inForce now (last_card org (RateCards i)) with
             | Some r => Some r
             | None => inForce now (last_card inst (RateCards i))
             end
         end, true)
  end.

Definition nul : string := String (Ascii.ascii_of_nat 0) EmptyString.

Definition PerformanceKey (provider model op mode : string) : string :=
  provider +:+ nul +:+ model +:+ nul +:+ op +:+ nul +:+ mode.

Definition Metrics (i : option RoutingInputs) (provider model op mode : string) (now : Time)
  : option Performance :=
  i <-? i ;;
  if stale i now then None
  else
    p <-? Performance_ i !! PerformanceKey provider model op mode ;;
    if (SampleCount p <? PerformanceMinSamples) || (time_Sub now (ObservedAt p) >? 5 * Minute) then None
    else Some p.

(** ** The lookups find the greatest match *)

Section Best.
Context {A : Type} (c : cmp A) `{!WeakOrder c} (better : A → A → bool).
Context (Hbetter : ∀ v f, better v f = true ↔ c v f = Gt).

(** [x] is the first of the greatest elements of [l]. *)
Definition greatest (l : list A) (x : A) : Prop :=
  ∃ l1 l2, l = l1 ++ x :: l2 ∧ Forall (λ y, c y x = Lt) l1 ∧ Forall (λ y, cmp_le c y x) l2.

Lemma pick_best_spec l :
  match pick_best better l with Some x => greatest l x | None => l = [] end.
Proof.
  unfold pick_best. induction l as [|y l IH] using rev_ind; [done|].
  rewrite foldl_app. cbn [foldl]. set (f := foldl _ _ l) in *. clearbody f.
  destruct f as [x|]; [|subst l; by exists [], []].
  destruct IH as (l1 & l2 & -> & H1 & H2). pose proof (Hbetter y x) as Hb.
  destruct (better y x) eqn:B.
  - assert (G : c y x = Gt) by by apply Hb. apply (cmp_gt_lt c) in G.
    exists (l1 ++ x :: l2), []. split; [by rewrite <- app_assoc|]. split; [|constructor].
    rewrite Forall_app, Forall_cons. split; [|split; [done|]].
    + eapply Forall_impl; [exact H1|]. intros z Hz. exact (wo_lt_trans c z x y Hz G).
    + eapply Forall_impl; [exact H2|]. intros z Hz. exact (cmp_le_lt c z x y Hz G).
  - exists l1, (l2 ++ [y]). split; [by rewrite <- app_assoc|]. split; [done|].
    rewrite Forall_app, Forall_singleton. split; [done|]. intros G. apply Hb in G. done.
Qed.

Lemma greatest_elem l x : greatest l x → x ∈ l ∧ ∀ y, y ∈ l → cmp_le c y x.
Proof.
  intros (l1 & l2 & -> & H1 & H2). rewrite Forall_forall in H1, H2. split; [set_solver|].
  intros y [Hy|[->|Hy]%elem_of_cons]%elem_of_app; [|unfold cmp_le; by rewrite (cmp_refl c)|auto].
  unfold cmp_le. by rewrite (H1 y Hy).
Qed.
End Best.

(** More specific scope, then later, then higher revision. *)
Definition price_order : cmp RoutingPrice :=
  cmp_then (cmp_on scopePriority Z.compare)
    (cmp_then (cmp_on EffectiveAt Z.compare) (cmp_on Revision Z.compare)).

Definition discount_order : cmp RoutingDiscount :=
  cmp_then (cmp_on discount_priority Z.compare)
    (cmp_then (cmp_on Discount_EffectiveAt Z.compare)
       (cmp_then (cmp_on Discount_CreatedAt Z.compare) (cmp_on Discount_ID CompareString))).

Definition revision_order : cmp RoutingCardRevision :=
  cmp_then (cmp_on Card_EffectiveAt Z.compare) (cmp_on Card_Revision Z.compare).

#[local] Instance wo_price_order : WeakOrder price_order := _.
#[local] Instance wo_discount_order : WeakOrder discount_order := _.
#[local] Instance wo_revision_order : WeakOrder revision_order := _.

Lemma gtb_compare a b : (a >? b) = match a ?= b with Gt => true | _ => false end.
Proof. unfold Z.gtb. by destruct (a ?= b). Qed.

Lemma eqb_compare a b : (a =? b) = match a ?= b with Eq => true | _ => false end.
Proof. destruct (Z.compare_spec a b), (Z.eqb_spec a b); lia || done. Qed.

Lemma after_compare a b : After a b = match a ?= b with Gt => true | _ => false end.
Proof. unfold After. destruct (Z.compare_spec a b), (Z.ltb_spec b a); lia || done. Qed.

Lemma better_price_order v f : better_price v f = true ↔ price_order v f = Gt.
Proof.
  unfold better_price, price_order, cmp_then, cmp_on. rewrite !gtb_compare, !eqb_compare, after_compare.
  destruct (scopePriority v ?= scopePriority f), (EffectiveAt v ?= EffectiveAt f), (Revision v ?= Revision f);
    simpl; naive_solver.
Qed.

Lemma better_discount_order v f : better_discount v f = true ↔ discount_order v f = Gt.
Proof.
  unfold better_discount, discount_order, cmp_then, cmp_on.
  rewrite !gtb_compare, !eqb_compare, !after_compare.
  destruct (discount_priority v ?= discount_priority f),
    (Discount_EffectiveAt v ?= Discount_EffectiveAt f), (Discount_CreatedAt v ?= Discount_CreatedAt f),
    (CompareString (Discount_ID v) (Discount_ID f)); simpl; naive_solver.
Qed.

Lemma better_revision_order v f : better_revision v f = true ↔ revision_order v f = Gt.
Proof.
  unfold better_revision, revision_order, cmp_then, cmp_on. rewrite !gtb_compare, !eqb_compare, after_compare.
  destruct (Card_EffectiveAt v ?= Card_EffectiveAt f), (Card_Revision v ?= Card_Revision f);
    simpl; naive_solver.
Qed.

(** ** The index *)

Definition has_key (key : routingPriceKey) (p : RoutingPrice) : bool := bool_decide (price_key p = key).

Lemma index_lookup prices key :
  match foldl index_add ∅ prices !! key with Some l => l | None => [] end =
  List.filter (has_key key) prices.
Proof.
  induction prices as [|p prices IH] using rev_ind; [simpl; by rewrite lookup_empty|].
  rewrite foldl_app, List.filter_app. cbn [foldl List.filter]. unfold index_add at 1, has_key at 2.
  rewrite <- IH. case_bool_decide as E.
  - subst key. by rewrite lookup_insert_eq.
  - rewrite lookup_insert_ne by done. by rewrite app_nil_r.
Qed.

Lemma filter_filter_impl {A} (f g : A → bool) l :
  (∀ x, f x = true → g x = true) → List.filter f (List.filter g l) = List.filter f l.
Proof.
  intros I. induction l as [|x l IH]; simpl; [done|]. destruct (g x) eqn:G; simpl; [by rewrite IH|].
  destruct (f x) eqn:F; [|done]. apply I in F. congruence.
Qed.

Lemma price_matches_key kind provider vendor model op now v :
  price_matches kind provider vendor model op now v = true → has_key (kind, model, op) v = true.
Proof.
  unfold price_matches, has_key, price_key. intros M. split_bools. bool_to_prop.
  apply bool_decide_eq_true. by repeat f_equal.
Qed.

(** Inputs as loading leaves them. *)
Definition inputs_loaded (i : RoutingInputs) : Prop :=
  priceIndex i = None ∨ priceIndex i = indexRoutingPrices (Prices i).

Lemma pricesFor_matching i kind provider vendor model op now :
  inputs_loaded i →
  List.filter (price_matches kind provider vendor model op now) (pricesFor i (kind, model, op)) =
  List.filter (price_matches kind provider vendor model op now) (Prices i).
Proof.
  unfold pricesFor. intros [->|E]; [done|]. rewrite E. unfold indexRoutingPrices.
  destruct (_ <? 2); [done|]. rewrite index_lookup.
  apply filter_filter_impl. intros v. apply price_matches_key.
Qed.

(** [Price] finds the price of an attempt: with inputs fresh enough to use, it
    returns the most specific of the loaded prices that match the attempt's kind,
    model and operation, are in force and whose provider and vendor scopes the
    attempt satisfies, preferring among equally specific ones the latest and then
    the highest revision, the first of those in catalogue order; it returns
    nothing exactly when no price matches. The answer is the same with the index
    as without. *)
Theorem price_lookup_best (i : RoutingInputs) (kind provider vendor model op : string) (now : Time) :
  inputs_loaded i → stale i now = false →
  let matching := List.filter (price_matches kind provider vendor model op now) (Prices i) in
  match Inputs_Price (Some i) kind provider vendor model op now with
  | Some p => ∃ found, p = pin provider found ∧ greatest price_order matching found
  | None => matching = []
  end.
Proof.
  intros L S. cbv zeta. unfold Inputs_Price. rewrite S, pricesFor_matching by done.
  pose proof (pick_best_spec price_order better_price better_price_order
    (List.filter (price_matches kind provider vendor model op now) (Prices i))) as P.
  destruct (pick_best _ _) as [found|]; simpl; [by exists found|done].
Qed.

Lemma in_force_spec now card r :
  inForce now card = Some r →
  ∃ c, card = Some c ∧
    greatest revision_order (List.filter (λ v, negb (After (Card_EffectiveAt v) now)) (RateCard_Revisions c)) r.
Proof.
  unfold inForce. destruct card as [c|]; [|done].
  pose proof (pick_best_spec revision_order better_revision better_revision_order
    (List.filter (λ v, negb (After (Card_EffectiveAt v) now)) (RateCard_Revisions c))) as P.
  intros E. rewrite E in P. by exists c.
Qed.

(** [Discount] pins the multiplier of the most specific scope in force: among
    the discounts that match the attempt it returns the greatest by scope, then
    effective time, creation time and identifier, and none exactly when none
    matches or the inputs are stale. *)
Theorem discount_lookup_best (i : RoutingInputs) (kind provider vendor : string) (now : Time) :
  let matching := List.filter (discount_matches kind provider vendor now) (Discounts i) in
  match Inputs_Discount (Some i) kind provider vendor now with
  | Some d => stale i now = false ∧ greatest discount_order matching d
  | None => stale i now = true ∨ matching = []
  end.
Proof.
  cbv zeta. unfold Inputs_Discount. destruct (stale i now); [by left|].
  pose proof (pick_best_spec discount_order better_discount better_discount_order
    (List.filter (discount_matches kind provider vendor now) (Discounts i))) as P.
  destruct (pick_best _ _); [done|by right].
Qed.

Definition scoped_price (provider : option string) (revision : Z) (at_ : Time) : RoutingPrice :=
  mkRoutingPrice
    (mkPrice None None None ∅ None "openai" provider "m" "generation" noRates None None None ∅ [] None "USD")
    "r" revision at_ 0 None.

Definition sample_inputs : RoutingInputs :=
  let prices := [scoped_price None 3 100; scoped_price (Some "p") 1 50; scoped_price (Some "p") 2 50;
                 scoped_price (Some "q") 9 60] in
  mkInputs (indexRoutingPrices prices) prices ∅ [] [] ∅ 1000.

Lemma price_lookup_best_witness :
  ∃ found,
    Inputs_Price (Some sample_inputs) "openai" "p" "v" "m" "generation" 1500 = Some (pin "p" found) ∧
    Revision (pin "p" found) = 2 ∧
    greatest price_order
      [scoped_price None 3 100; scoped_price (Some "p") 1 50; scoped_price (Some "p") 2 50] found.
Proof.
  destruct (price_lookup_best sample_inputs "openai" "p" "v" "m" "generation" 1500
    (or_intror eq_refl) eq_refl) as (found & E & G).
  exists found. rewrite <- E. split; [reflexivity|]. split; [reflexivity|exact G].
Defined.
