(* ===== verification/Supply.v ===== *)
(** * Supply: spend caps, shares and live headroom

    [internal/routing/supply.go] up to the parts that edit planning rows, which
    [Planner.v] holds. *)

From S2P Require Import Prelude Go Amount Policy Routes.
From Stdlib Require Import SpecFloat.
Local Open Scope Z_scope.
Local Open Scope olp_scope.

Definition PriorityCritical : string := "critical".
Definition PriorityHigh : string := "high".
Definition PriorityNormal : string := "normal".
Definition PriorityLow : string := "low".

(** The share of one priority; an unknown class has the normal share. *)
Definition Shares_Of (s : Shares) (priority : string) : Z :=
  if String.eqb priority "critical" then Share_Critical s
  else if String.eqb priority "high" then Share_High s
  else if String.eqb priority "low" then Share_Low s
  else Share_Normal s.

Definition Costs (s : Supply) : option CostLimits :=
  match Supply_DailyCostLimit s, Supply_MonthlyCostLimit s with
  | None, None => None
  | d, m => Some (mkCostLimits d m)
  end.

Definition Shared (s : Supply) : bool := is_some (PriorityShares s).

Definition share_list (s : Shares) : list Z := [Share_Critical s; Share_High s; Share_Normal s; Share_Low s].

(** The running 64-bit total of the loop over the shares. *)
Definition shares_total (s : Shares) : Z := foldl (λ t x, wrap64 (t + x)) 0 (share_list s).

Definition Supply_Validate (s : Supply) (field : string) : option ValidationError :=
  match Costs s with Some c => CostLimits_Validate c field | None => None end <|>
  refuse_if (negb (Bool.eqb (is_some (PriorityShares s)) (is_some (SaturationPercent s))))
    (invalidValue (field +:+ ".priority_shares") "Declare priority_shares and saturation_percent together.") <|>
  match PriorityShares s, SaturationPercent s with
  | Some shares, Some saturation =>
      first_error (λ share, refuse_if ((share <? 0) || (share >? 100))
          (invalidValue (field +:+ ".priority_shares") "Use shares from 0 to 100 percent."))
        (share_list shares) <|>
      refuse_if (negb (shares_total shares =? 100))
        (invalidValue (field +:+ ".priority_shares") "Use shares that sum to 100 percent.") <|>
      refuse_if ((saturation <? 1) || (saturation >? 100))
        (invalidValue (field +:+ ".saturation_percent") "Use a saturation threshold from 1 to 100 percent.")
  | _, _ => None
  end.

(** ** Live state *)

Inductive Spend := SpendUnknown | SpendAvailable | SpendExhausted.

#[export] Instance Spend_eq_dec : EqDecision Spend.
Proof. solve_decision. Defined.

Record SupplyState := mkSupplyState {
  Headroom : gmap string float64;
  Spend_ : gmap string Spend;
}.

Definition headroom (s : option SupplyState) (slotID : string) : option float64 :=
  s <-? s ;; Headroom s !! slotID.

(** Why a capped owner may not spend, empty when it may. *)
Definition spendReason (s : option SupplyState) (ownerID kind : string) : string :=
  let spend := match s with
               | None => SpendUnknown
               | Some s => match Spend_ s !! ownerID with Some x => x | None => SpendUnknown end
               end in
  match spend with
  | SpendAvailable => ""
  | SpendExhausted => kind +:+ "_budget_exhausted"
  | SpendUnknown => kind +:+ "_budget_unavailable"
  end.

Definition BudgetReason (reason : string) : bool :=
  Contains ["connection_budget_exhausted"; "slot_budget_exhausted"; "route_budget_exhausted";
            "connection_budget_unavailable"; "slot_budget_unavailable"; "route_budget_unavailable"] reason.

Record SpendCap := mkSpendCap { OwnerID : string; Cap_Limits : CostLimits }.

Record SupplySlot := mkSupplySlot { SupplySlot_Provider : Provider; SupplySlot_Slot : Slot }.

Record SupplyQuery := mkSupplyQuery { Query_Slots : list SupplySlot; Query_Caps : list SpendCap }.

Definition query_empty (q : SupplyQuery) : bool :=
  negb (nonempty (Query_Slots q)) && negb (nonempty (Query_Caps q)).

Definition provider_supply (p : Provider) : Supply :=
  match Provider_Limits p with Some s => s | None => noSupply end.

(** ** Ordering slots *)

(** Known before unknown, larger before smaller. *)
Definition compareKnown : cmp (option float64) := cmp_known (cmp_rev CompareFloat).

(** The comparison of [OrderSlots]. *)
Definition slot_order (state : option SupplyState) : cmp Slot :=
  cmp_then (cmp_on Slot_Priority Z.compare) (cmp_on (λ s, headroom state (Slot_ID s)) compareKnown).

Definition OrderSlots (slots : list Slot) (state : option SupplyState) : list Slot :=
  SortStableFunc (slot_order state) slots.

Definition slotIDs (slots : list Slot) : list string := map Slot_ID slots.

(** The slots an attempt's plan left it, in the plan's order. *)
Definition ArrangeSlots (slots : list Slot) (order : list string) : list Slot :=
  concat (map (λ id, option_list (find_first (λ s, String.eqb (Slot_ID s) id) slots)) order).

#[export] Instance wo_compareKnown : WeakOrder compareKnown.
Proof. unfold compareKnown. apply _. Qed.

#[export] Instance wo_slot_order state : WeakOrder (slot_order state).
Proof. unfold slot_order. apply _. Qed.

(** ** Facts *)

Lemma find_first_unique slots s :
  NoDup (slotIDs slots) → s ∈ slots → find_first (λ x, String.eqb (Slot_ID x) (Slot_ID s)) slots = Some s.
Proof.
  induction slots as [|x slots IH]; simpl; [intros _ []%elem_of_nil|].
  intros [N D]%NoDup_cons [->|Hs]%elem_of_cons; [by rewrite String.eqb_refl|].
  destruct (String.eqb_spec (Slot_ID x) (Slot_ID s)) as [E|E]; [|by apply IH].
  destruct N. rewrite E. by apply list_elem_of_fmap_2.
Qed.

(** The executor tries the slots the plan ranked, in the plan's order: whatever
    order the provider lists its slots in, arranging them by the identifiers of a
    selection of them restores exactly that selection. *)
Theorem arrange_slots_roundtrip (slots planned : list Slot) :
  NoDup (slotIDs slots) → planned ⊆ slots → ArrangeSlots slots (slotIDs planned) = planned.
Proof.
  intros N. unfold ArrangeSlots, slotIDs. induction planned as [|s planned IH]; intros Sub; [done|].
  simpl. rewrite find_first_unique by set_solver. simpl. f_equal. apply IH. set_solver.
Qed.

Definition sample_slot (id : string) (priority : Z) : Slot :=
  mkSlot id true priority 1 None [] [] [] noSupply.

Lemma arrange_slots_roundtrip_witness :
  ArrangeSlots [sample_slot "a" 0; sample_slot "b" 1; sample_slot "c" 0]
    (slotIDs [sample_slot "c" 0; sample_slot "a" 0]) = [sample_slot "c" 0; sample_slot "a" 0].
Proof.
  apply arrange_slots_roundtrip.
  - apply (bool_decide_eq_true_1 _). vm_compute. reflexivity.
  - intros x. rewrite !elem_of_cons, !elem_of_nil. tauto.
Defined.

Lemma shares_total_exact s :
  Forall (λ x, 0 <= x <= 100) (share_list s) → shares_total s = foldr Z.add 0 (share_list s).
Proof.
  unfold shares_total, share_list. rewrite !Forall_cons. intros (H1 & H2 & H3 & H4 & _).
  assert (W : ∀ x, 0 <= x <= 400 → wrap64 x = x).
  { intros x Hx. apply wrap64_small. unfold is_int64, MinInt64, MaxInt64. lia. }
  destruct s as [a b c d]. cbn [foldl foldr Share_Critical Share_High Share_Normal Share_Low] in *.
  rewrite (W (0 + a)) by lia. rewrite (W (0 + a + b)) by lia. rewrite (W (0 + a + b + c)) by lia.
  rewrite W by lia. lia.
Qed.

(** A validated quota that divides itself declares four shares between 0 and
    100 that sum to exactly 100, with a saturation threshold between 1 and 100;
    the 64-bit sum cannot wrap past the range check, and no priority, known or
    not, is given more than the whole. *)
Theorem supply_shares_partition (s : Supply) (field : string) (shares : Shares) :
  Supply_Validate s field = None → PriorityShares s = Some shares →
  Forall (λ x, 0 <= x <= 100) (share_list shares) ∧ foldr Z.add 0 (share_list shares) = 100 ∧
  (∃ saturation, SaturationPercent s = Some saturation ∧ 1 <= saturation <= 100) ∧
  ∀ priority, 0 <= Shares_Of shares priority <= 100.
Proof.
  unfold Supply_Validate. intros V Sh. rewrite Sh in V. destruct (match Costs s with Some _ => _ | None => _ end); [done|].
  destruct (SaturationPercent s) as [sat|]; [|done]. cbn [is_some Bool.eqb negb refuse_if] in V.
  destruct (first_error _ _) eqn:R; [done|].
  assert (F : Forall (λ x, 0 <= x <= 100) (share_list shares)).
  { apply first_error_None in R. eapply Forall_impl; [exact R|]. intros x Hx. cbv beta in Hx.
    unfold refuse_if in Hx. destruct ((x <? 0) || (x >? 100)) eqn:E; [done|]. split_bools. lia. }
  rewrite (shares_total_exact shares F) in V. unfold refuse_if in V.
  destruct (negb _) eqn:Sum; [done|]. destruct (_ || _) eqn:E5; [done|]. split_bools.
  split; [done|]. split; [lia|]. split; [exists sat; split; [done|lia]|].
  intros p. unfold share_list in F. rewrite !Forall_cons in F. unfold Shares_Of. repeat case_match; lia.
Qed.

Lemma supply_shares_partition_witness :
  Forall (λ x, 0 <= x <= 100) (share_list (mkShares 40 30 20 10)).
Proof.
  exact (proj1 (supply_shares_partition
    (mkSupply None None (Some (mkShares 40 30 20 10)) (Some 80)) "limits" (mkShares 40 30 20 10)
    eq_refl eq_refl)).
Defined.
