(* ===== verification/Score.v ===== *)
(** * Rendezvous scores, slots and selectors

    [internal/routing/selection.go], [slots.go] and [selectors.go], with the shadow
    sample of [behavior.go]. SHA-256 and the logarithm are parameters: nothing
    below depends on their values. *)

From S2P Require Import Prelude Go Amount Policy Routes Supply.
From Stdlib Require Import SpecFloat Strings.Byte.
Local Open Scope Z_scope.
Local Open Scope olp_scope.

Class ScoreLib := {
  sha256 : list byte → list byte;
  Log : float64 → float64;
}.

Definition fadd : float64 → float64 → float64 := SFadd 53 1024.
Definition fdiv : float64 → float64 → float64 := SFdiv 53 1024.
Definition fneg : float64 → float64 := SFopp.

(** ** Scores *)

Definition byte_of_Z (z : Z) : byte :=
  match Byte.of_N (Z.to_N (z mod 256)) with Some b => b | None => x00 end.
Definition Z_of_byte (b : byte) : Z := Z.of_N (Byte.to_N b).

(** [n] bytes of [z], most significant first. *)
Fixpoint be_bytes (n : nat) (z : Z) : list byte :=
  match n with
  | O => []
  | S n' => byte_of_Z (Z.shiftr z (8 * Z.of_nat n')) :: be_bytes n' z
  end.

(** [binary.BigEndian.PutUint64] *)
Definition PutUint64 (z : Z) : list byte := be_bytes 8 z.

(** [binary.BigEndian.Uint64] of the first eight bytes. *)
Definition Uint64 (l : list byte) : Z :=
  foldl (λ acc b, Z.lor (Z.shiftl acc 8) (Z_of_byte b)) 0 (take 8 l).

Definition bytes (s : string) : list byte := String.list_byte_of_string s.

Definition length_prefixed (input : list byte) : list byte :=
  PutUint64 (wrapU64 (Z.of_nat (length input))) ++ input.

(** What the hash reads. *)
Definition score_message `{UUIDLib} (routeID targetID : uuid) (op surface mode : string)
    (affinity : list byte) : list byte :=
  bytes "olp-weighted-rendezvous" ++ [x00] ++ uuid_bytes routeID ++ uuid_bytes targetID ++
  concat (map length_prefixed [bytes op; bytes surface; bytes mode; affinity]).

(** The uniform sample drawn from the first 53 bits of the digest. *)
Definition score_sample (raw : Z) : float64 :=
  fdiv (fadd (fOfZ (Z.shiftr raw 11)) (fOfZ 1)) (fadd (fOfZ (Z.shiftl 1 53)) (fOfZ 1)).

Definition Score `{ScoreLib, UUIDLib} (routeID targetID : uuid) (weight : Z)
    (op surface mode : string) (affinity : list byte) : float64 :=
  let raw := Uint64 (sha256 (score_message routeID targetID op surface mode affinity)) in
  let effective := if weight <? 1 then 1 else weight in
  fdiv (fOfZ effective) (fneg (Log (score_sample raw))).

(** Whether a shadow target mirrors the request. *)
Definition Sampled `{ScoreLib} (targetID : string) (seed : list byte) (rate : float64) : bool :=
  if fle (fOfZ 1) rate then true
  else
    let message := bytes "olp-shadow-sample" ++ [x00] ++ bytes targetID ++ [x00] ++ seed in
    let u := fdiv (fOfZ (Z.shiftr (Uint64 (sha256 message)) 11)) (fOfZ (Z.shiftl 1 53)) in
    flt u rate.

(** ** Slots *)

(** By priority, then by score, larger first. *)
Definition ranked_order : cmp (Slot * float64) :=
  cmp_then (cmp_on (λ r, Slot_Priority r.1) Z.compare) (cmp_on snd (cmp_rev CompareFloat)).

#[export] Instance wo_ranked_order : WeakOrder ranked_order.
Proof. unfold ranked_order. apply _. Qed.

Definition slot_usable (provider : Provider) (model slug keyID : string) (s : Slot) : bool :=
  Slot_Allows s model slug keyID &&
  negb (SecretRequired (Connector_AuthMode provider) && negb (is_some (Slot_CredentialID s))).

Definition rank_slots `{ScoreLib, UUIDLib} (routeID : uuid) (provider : Provider)
    (model slug keyID op surface mode : string) (affinity : list byte) : list (Slot * float64) :=
  concat (map (λ s,
      if negb (slot_usable provider model slug keyID s) then []
      else match uuid_Parse (Slot_ID s) with
           | None => []
           | Some id => [(s, Score routeID id (Slot_Weight s) op surface mode affinity)]
           end) (Provider_Slots provider)).

Definition SelectSlots `{ScoreLib, UUIDLib} (provider : Provider) (model : string) (route : Route)
    (keyID op surface mode : string) (affinity : list byte) : list Slot :=
  match uuid_Parse (Route_RoutingID route) with
  | None => []
  | Some routeID =>
      map fst (SortStableFunc ranked_order
        (rank_slots routeID provider model (Route_Slug route) keyID op surface mode affinity))
  end.

(** ** Selectors *)

Record PredicateResult := mkPredicateResult {
  Result_Matched : bool;
  Result_Label : string;
  Result_Failure : string;
}.

Record SelectorOutcome := mkOutcome {
  Outcome_ID : string;
  Outcome_Matched : bool;
  Outcome_Outcome : string;
  Outcome_Label : option string;
}.

Record selection := mkSelection { sel_selector : option Selector; sel_trace : list SelectorOutcome }.

(** Where planning reads the published configuration: a snapshot or a view of it. *)
Class selectionSource (Src : Type) := {
  lookupRoute : Src → string → option Route;
  lookupProvider : Src → string → option Provider;
  selectionPolicies : Src → string → option Policy * option Policy;
}.

#[export] Instance Snapshot_source : selectionSource Snapshot := {|
  lookupRoute s slug := Snap_Routes s !! slug;
  lookupProvider s id := Providers s !! id;
  selectionPolicies s key := (InstallationPolicy s, KeyPolicies s !! key);
|}.

Definition evaluateSelector `{selectionSource Src} (s : Src) (sel : Selector) (features : Features)
    (evaluate : option (Selector → PredicateResult)) (permitted : option (Route → bool))
  : SelectorOutcome :=
  let out matched outcome label := mkOutcome (Selector_ID sel) matched outcome label in
  let delegate label :=
    if String.eqb (Selector_Route sel) "" then out true "matched" label
    else match lookupRoute s (Selector_Route sel) with
         | None => out false "selector_route_unavailable" label
         | Some next =>
             if negb (Contains (Route_Operations next) (F_Operation features))
             then out false "selector_route_unavailable" label
             else if opt_test permitted (λ p, negb (p next))
             then out false "selector_route_forbidden" label
             else out true "matched" label
         end in
  if negb (Matches (Selector_When sel) features) then out false "not_matched" None
  else if Static (Selector_When sel) then delegate None
  else
    match evaluate with
    | None => out false "predicate_unavailable" None
    | Some ev =>
        let result := ev sel in
        let label := if String.eqb (Result_Label result) "" then None else Some (Result_Label result) in
        if negb (String.eqb (Result_Failure result) "") then out false (Result_Failure result) label
        else if negb (Result_Matched result) then out false "not_matched" label
        else delegate label
    end.

Fixpoint select_loop `{selectionSource Src} (s : Src) (selectors : list Selector) (features : Features)
    (evaluate : option (Selector → PredicateResult)) (permitted : option (Route → bool)) : selection :=
  match selectors with
  | [] => mkSelection None []
  | sel :: rest =>
      let outcome := evaluateSelector s sel features evaluate permitted in
      if Outcome_Matched outcome then mkSelection (Some sel) [outcome]
      else
        let tail := select_loop s rest features evaluate permitted in
        mkSelection (sel_selector tail) (outcome :: sel_trace tail)
  end.

Definition with_operation (f : Features) (op : string) : Features :=
  mkFeatures op (F_InputTokens f) (F_OutputTokens f) (F_Streaming f) (F_Tools f) (F_Modalities f)
    (F_StructuredOutput f) (F_ReasoningEffort f).

Definition selectTargets `{selectionSource Src} (s : Src) (route : Route) (op : string)
    (features : option Features) (evaluate : option (Selector → PredicateResult))
    (permitted : option (Route → bool)) : selection :=
  match features with
  | None => mkSelection None []
  | Some f =>
      select_loop s (Selectors (Route_Behavior route)) (with_operation f op) evaluate permitted
  end.

Definition admits (sel : selection) (t : Target) : bool :=
  match sel_selector sel with
  | None => true
  | Some s => if nonempty (Selector_Tags s) then existsb (Contains (Target_Tags t)) (Selector_Tags s)
              else true
  end.

(** ** Facts *)

Lemma length_be_bytes n z : length (be_bytes n z) = n.
Proof. induction n; simpl; auto. Qed.

Lemma byte_of_Z_inj a b : byte_of_Z a = byte_of_Z b → a mod 256 = b mod 256.
Proof.
  unfold byte_of_Z. pose proof (Z.mod_pos_bound a 256 ltac:(lia)). pose proof (Z.mod_pos_bound b 256 ltac:(lia)).
  destruct (Byte.of_N (Z.to_N (a mod 256))) as [x|] eqn:A.
  2:{ apply Byte.of_N_None_iff in A. exfalso. lia. }
  destruct (Byte.of_N (Z.to_N (b mod 256))) as [y|] eqn:B.
  2:{ apply Byte.of_N_None_iff in B. exfalso. lia. }
  intros ->. apply Byte.to_of_N in A, B. lia.
Qed.

Lemma testbit_high a m i : 0 <= a < 2 ^ m → 0 <= m <= i → Z.testbit a i = false.
Proof.
  intros Ha Hm. destruct (decide (a = 0)) as [->|]; [apply Z.testbit_0_l|].
  apply Z.bits_above_log2; [lia|]. apply Z.log2_lt_pow2; [lia|].
  eapply Z.lt_le_trans; [apply Ha|]. apply Z.pow_le_mono_r; lia.
Qed.

Lemma be_bytes_inj n a b :
  0 <= a < 2 ^ (8 * Z.of_nat n) → 0 <= b < 2 ^ (8 * Z.of_nat n) → be_bytes n a = be_bytes n b → a = b.
Proof.
  intros Ha Hb E. apply Z.bits_inj'. intros i Hi.
  assert (K : ∀ k, (k < n)%nat → Z.shiftr a (8 * Z.of_nat k) mod 256 = Z.shiftr b (8 * Z.of_nat k) mod 256).
  { clear Ha Hb. induction n as [|n IH]; intros k Hk; [lia|]. simpl in E. injection E as E0 E.
    destruct (decide (k = n)) as [->|]; [by apply byte_of_Z_inj|apply IH; [done|lia]]. }
  destruct (decide (i < 8 * Z.of_nat n)) as [Hi'|Hi'].
  - specialize (K (Z.to_nat (i / 8))). rewrite Z2Nat.id in K by (apply Z.div_pos; lia).
    assert (i / 8 < Z.of_nat n) by (apply Z.div_lt_upper_bound; lia).
    specialize (K ltac:(lia)). change 256 with (2 ^ 8) in K. rewrite <- !Z.land_ones in K by lia.
    apply (f_equal (λ z, Z.testbit z (i mod 8))) in K.
    pose proof (Z.mod_pos_bound i 8 ltac:(lia)). pose proof (Z.div_mod i 8 ltac:(lia)).
    rewrite !Z.land_spec, !Z.shiftr_spec, !Z.ones_spec_low, !andb_true_r in K by lia.
    by replace (i mod 8 + 8 * (i / 8)) with i in K by lia.
  - rewrite !(testbit_high _ (8 * Z.of_nat n)) by lia. done.
Qed.

Definition fits (l : list byte) : Prop := Z.of_nat (length l) < 2 ^ 64.

(** A length prefix delimits what it precedes. *)
Lemma length_prefixed_inj a b ra rb :
  fits a → fits b → length_prefixed a ++ ra = length_prefixed b ++ rb → a = b ∧ ra = rb.
Proof.
  unfold fits, length_prefixed, PutUint64, wrapU64. intros Fa Fb E. rewrite <- !app_assoc in E.
  apply app_inj_1 in E as [E1 E2]; [|by rewrite !length_be_bytes].
  apply be_bytes_inj in E1; [|apply Z.mod_pos_bound; lia..].
  rewrite !Z.mod_small in E1 by lia. apply app_inj_1 in E2; [done|lia].
Qed.

Lemma list_byte_inj a b : bytes a = bytes b → a = b.
Proof.
  unfold bytes. intros E. rewrite <- (String.string_of_list_byte_of_string a), E.
  apply String.string_of_list_byte_of_string.
Qed.

(** No two requests are scored with the same hash input: for identifiers of
    sixteen bytes, the bytes [Score] hashes determine the route, the target, the
    operation, the surface, the mode and the affinity seed, so adjacent values
    cannot alias one another. *)
Theorem score_message_injective `{UUIDLib} (r r' t t' : uuid) (op op' surface surface' mode mode' : string)
    (affinity affinity' : list byte) :
  Forall (λ id, length (uuid_bytes id) = 16%nat) [r; r'; t; t'] →
  Forall (λ s, fits (bytes s)) [op; op'; surface; surface'; mode; mode'] →
  fits affinity → fits affinity' →
  score_message r t op surface mode affinity = score_message r' t' op' surface' mode' affinity' →
  uuid_bytes r = uuid_bytes r' ∧ uuid_bytes t = uuid_bytes t' ∧ op = op' ∧ surface = surface' ∧
  mode = mode' ∧ affinity = affinity'.
Proof.
  rewrite !Forall_cons. intros (Lr & Lr' & Lt & Lt' & _) (F1 & F1' & F2 & F2' & F3 & F3' & _) F4 F4' E.
  unfold score_message in E. cbn [map concat] in E. rewrite !app_nil_r in E.
  apply app_inv_head, app_inv_head in E.
  apply app_inj_1 in E as [E1 E]; [|by rewrite Lr, Lr'].
  apply app_inj_1 in E as [E2 E]; [|by rewrite Lt, Lt'].
  apply length_prefixed_inj in E as [E3 E]; [|done..].
  apply length_prefixed_inj in E as [E4 E]; [|done..].
  apply length_prefixed_inj in E as [E5 E]; [|done..].
  rewrite <- (app_nil_r (length_prefixed affinity)), <- (app_nil_r (length_prefixed affinity')) in E.
  apply length_prefixed_inj in E as [E6 _]; [|done..].
  by rewrite (list_byte_inj _ _ E3), (list_byte_inj _ _ E4), (list_byte_inj _ _ E5).
Qed.

Lemma score_message_injective_witness :
  let id : @uuid CanonicalUUID := "00000000-0000-4000-8000-000000000001" in
  let sent := bytes "key" in
  @score_message CanonicalUUID id id "generation" "openai" "unary" sent =
  @score_message CanonicalUUID id id "generation" "openai" "unary" (bytes "k" ++ bytes "ey") ∧
  sent = bytes "k" ++ bytes "ey".
Proof.
  intros id sent. assert (E : @score_message CanonicalUUID id id "generation" "openai" "unary" sent =
    @score_message CanonicalUUID id id "generation" "openai" "unary" (bytes "k" ++ bytes "ey")).
  { vm_compute. reflexivity. }
  split; [exact E|].
  refine (proj2 (proj2 (proj2 (proj2 (proj2 (@score_message_injective CanonicalUUID
    id id id id "generation" "generation" "openai" "openai" "unary" "unary" sent (bytes "k" ++ bytes "ey")
    _ _ _ _ E)))))).
  - repeat constructor; vm_compute; reflexivity.
  - repeat constructor; vm_compute; reflexivity.
  - vm_compute. reflexivity.
  - vm_compute. reflexivity.
Defined.

(** The sample is not below one: 2^53 + 1 has no float64, so the divisor rounds to
    2^53 and the largest draws give exactly one. *)
Lemma score_sample_one raw : 2 ^ 64 - 2 ^ 11 <= raw < 2 ^ 64 → score_sample raw = fOfZ 1.
Proof.
  intros R. unfold score_sample. assert (Z.shiftr raw 11 = 2 ^ 53 - 1) as ->.
  { rewrite Z.shiftr_div_pow2 by lia. symmetry. apply Z.div_unique with (raw - (2 ^ 53 - 1) * 2 ^ 11); lia. }
  vm_compute. reflexivity.
Qed.

Lemma small_weight_over_zero w : 1 <= w <= 1000 → fdiv (fOfZ w) (fneg fzero) = S754_infinity true.
Proof.
  intros W.
  assert (C : forallb (λ n, match fdiv (fOfZ (Z.of_nat n)) (fneg fzero) with
                            | S754_infinity true => true | _ => false end) (seq 1 1000) = true)
    by (vm_compute; reflexivity).
  rewrite forallb_forall in C. specialize (C (Z.to_nat w)). rewrite Z2Nat.id in C by lia.
  assert (In (Z.to_nat w) (seq 1 1000)) as I by (apply in_seq; lia). specialize (C I).
  by destruct (fdiv (fOfZ w) (fneg fzero)) as [|[]| |].
Qed.

(** The target that draws the largest sample is ranked last. When the first 53
    bits of the digest are all ones, the sample is exactly one, its logarithm is
    zero, and the score of a target of any weight up to 1000 is minus infinity,
    where a larger sample otherwise means a larger score. *)
Theorem largest_sample_ranks_last `{ScoreLib, UUIDLib} (routeID targetID : uuid) (weight : Z)
    (op surface mode : string) (affinity : list byte) :
  Log (fOfZ 1) = fzero → weight <= 1000 →
  2 ^ 64 - 2 ^ 11 <= Uint64 (sha256 (score_message routeID targetID op surface mode affinity)) < 2 ^ 64 →
  Score routeID targetID weight op surface mode affinity = S754_infinity true ∧
  ∀ x, cmp_le CompareFloat (S754_infinity true) x ∨ IsNaN x = true.
Proof.
  intros L W R. unfold Score. rewrite score_sample_one by done. rewrite L. split.
  - apply small_weight_over_zero. destruct (Z.ltb_spec weight 1); lia.
  - intros x. unfold cmp_le. destruct x as [[]|[]| |[] m e]; auto; left; vm_compute; done.
Qed.

(** A digest of ones and a logarithm that is zero at one. *)
Lemma largest_sample_ranks_last_witness :
  let lib := {| sha256 := λ _, repeat xff 32; Log := λ _, fzero |} in
  let id : @uuid CanonicalUUID := "00000000-0000-4000-8000-000000000001" in
  @Score lib CanonicalUUID id id 5 "generation" "openai" "unary" [] = S754_infinity true.
Proof.
  intros lib id. apply (@largest_sample_ranks_last lib CanonicalUUID); [reflexivity|lia|].
  vm_compute. by split.
Defined.
