(* ===== verification/Planner.v ===== *)
(** * Planning a request

    [internal/routing/plan.go] with the row editing of [supply.go]: evaluate the
    targets of a route, order the eligible ones and explain the credential attempts
    within the budget. The request's callbacks (preparation, demand, credential
    eligibility, health, live supply, cost bounds) are fields of the options, as in
    the code. *)

From S2P Require Import Prelude Go Amount Policy Routes Pricing RoutingInputs Supply Score.
From Stdlib Require Import QArith SpecFloat Strings.Byte.
Local Open Scope Z_scope.
Local Open Scope olp_scope.

(** ** Data *)

Record TokenDemand := mkDemand {
  EstimatedInputTokens : Z;
  Demand_MaxOutputTokens : option Z;
  CostInputTokens : option Z;
}.

(** The names of the controls a request uses; nil lists none. *)
Definition Names : Type := option (list string).
Definition names_list (n : Names) : list string := match n with Some l => l | None => [] end.

Record CandidatePreparation := mkPreparation {
  Prep_Parameters : Names;
  Prep_Demand : option TokenDemand;
}.

Record Incompatibility := mkIncompatibility {
  Inc_Code : string;
  Inc_Field : string;
  Inc_Requirement : string;
  Inc_Message : string;
}.

(** Preparation fails, with the obligation it could not meet when it names one, or
    succeeds, with or without a preparation. *)
Inductive prepare_result : Type :=
  | PrepareFailed (detail : option Incompatibility)
  | PrepareOK (prepared : option CandidatePreparation).

Definition Eligible_ : string := "".

Definition WorstCostFunc : Type :=
  Provider → Target → option RoutingPrice → option RoutingDiscount → option Cost.

Record Options := mkOptions {
  O_Region : string;
  O_KeyID : string;
  O_Preferences : option Preferences;
  O_Parameters : Names;
  O_Inputs : option RoutingInputs;
  O_TokenDemand : option TokenDemand;
  O_Demand : option (Provider → Target → option TokenDemand);
  O_Now : Time;
  O_CheckSlots : bool;
  O_CredentialEligibility : option (string → string);
  O_UnconfinedPlugins : bool;
  O_Prepare : option (Provider → Target → prepare_result);
  O_Supply : option (SupplyQuery → option SupplyState);
  O_Unhealthy : option (string → bool);
  O_Features : option Features;
  O_Evaluate : option (Selector → PredicateResult);
  O_Permitted : option (Route → bool);
  O_Mirror : option (list byte);
  O_EstimateCost : bool;
  O_WorstCost : option WorstCostFunc;
}.

Record EstimatedCost := mkEstimated {
  Est_Minimum : string;
  Est_Maximum : string;
  Est_Currency : string;
}.

Record Decision := mkDecision {
  D_Incompatibility : option Incompatibility;
  D_TargetID : string;
  D_ProviderID : string;
  D_UpstreamModel : string;
  D_Eligible : bool;
  D_Priority : Z;
  D_Strategy : string;
  D_Attempt : option Z;
  D_CredentialSlotID : option string;
  D_Reason : option string;
  D_Price : option RoutingPrice;
  D_Performance : option Performance;
  D_VendorID : option string;
  D_MetadataObservedAt : option Time;
  D_EstimatedInputTokens : option Z;
  D_RequestedOutputTokens : option Z;
  D_ContextLength : option Z;
  D_MaxOutputTokens : option Z;
  D_Selector : option string;
  D_Shadow : bool;
  D_Unhealthy : bool;
  D_Headroom : option float64;
  D_EstimatedCost : option EstimatedCost;
}.

Record Attempt := mkAttempt {
  A_TargetID : string;
  A_ProviderID : string;
  A_ProviderRevisionID : string;
  A_ProviderKind : string;
  A_UpstreamModel : string;
  A_Timeout : Duration;
  A_Priority : Z;
  A_Score : float64;
  A_Strategy : string;
  A_PolicyDigest : string;
  A_VendorID : string;
  A_Price : option RoutingPrice;
  A_Discount : option RoutingDiscount;
  A_Performance : option Performance;
  A_Slots : option (list string);
}.

Record Baseline := mkBaseline {
  Baseline_ProviderID : string;
  Baseline_UpstreamModel : string;
  Baseline_VendorID : string;
}.

Record Plan := mkPlan {
  Attempts : list Attempt;
  Decisions : list Decision;
  Plan_Policy : option EffectivePolicy;
  Plan_Budget : Z;
  Plan_Selectors : list SelectorOutcome;
  Delegate : string;
  Shadows : list Attempt;
  Plan_Baseline : option Baseline;
}.

Record skippedSlot := mkSkipped { skipped_id : string; skipped_reason : string }.

Record rankedCandidate := mkRow {
  provider : Provider;
  slots : list Slot;
  skipped : list skippedSlot;
  attempt : Attempt;
  decision : Decision;
  order : Z;
  preference : Z;
  locality : Z;
  shadow : bool;
  allowed : bool;
}.

Inductive SelectError : Type :=
  | SelectionError (code : string)
  | PolicyError (e : ValidationError).

Definition RouteNotFound : string := "route_not_found".
Definition OperationNotSupported : string := "operation_not_supported".
Definition NoEligibleTargets : string := "no_eligible_targets".
Definition unsupportedBudget : SelectError := SelectionError "attempt_budget_increase_forbidden".

(** ** Reasons a target is refused *)

Definition saturatingSum (a b : Z) : Z :=
  if a >? wrap64 (MaxInt64 - b) then MaxInt64 else wrap64 (a + b).

Definition capacityReason (m : ModelMetadata) (demand : option TokenDemand) : string :=
  match demand with
  | None => ""
  | Some d =>
      if match M_ContextLength m with
         | None => false
         | Some c =>
             (EstimatedInputTokens d >? c) ||
             match Demand_MaxOutputTokens d with
             | Some o => saturatingSum (EstimatedInputTokens d) o >? c
             | None => false
             end
         end then "context_length_exceeded"
      else if match M_MaxOutputTokens m, Demand_MaxOutputTokens d with
              | Some limit, Some o => o >? limit
              | _, _ => false
              end then "max_output_tokens_exceeded"
      else ""
  end.

Definition selectorMatches (selector : string) (p : Provider) : bool :=
  SelectorMatches selector (Provider_ID p) (Provider_VendorID p).

Definition anySelector (selectors : list string) (p : Provider) : bool :=
  existsb (λ s, selectorMatches s p) selectors.

Definition option_strings (l : option (list string)) : list string :=
  match l with Some l => l | None => [] end.

(** The claim of a privacy fact, with its source and date. *)
Definition attested (m : ModelMetadata) (fact : bool) : bool :=
  fact && is_some (M_Source m) && is_some (M_ObservedAt m).

Definition parameter_reason (names : list string) (m : ModelMetadata) : string :=
  if nonempty names then
    match M_SupportedParameters m with
    | None => "parameters_unknown"
    | Some supported => if forallb (Contains supported) names then "" else "parameter_not_supported"
    end
  else "".

(** The scopes' constraints, one at a time; the first that refuses names why. *)
Definition one_constraint `{RatLib, CeilingJSON} (c : Preferences) (p : Provider) (m : ModelMetadata)
    (price : option RoutingPrice) (parameters : Names) : string :=
  if match P_Only c with Some only => negb (anySelector only p) | None => false end
  then "provider_not_allowed"
  else if anySelector (P_Ignore c) p then "provider_ignored"
  else if negb (factAllowed (P_Regions c) (M_Region m)) then "region_not_allowed"
  else if negb (factAllowed (P_Quantizations c) (M_Quantization m)) then "quantization_not_allowed"
  else if required (P_DenyDataCollection c) &&
          negb (attested m (match M_DataCollection m with Some b => negb b | None => false end))
  then "data_collection_not_allowed"
  else if required (P_RequireZeroDataRetention c) &&
          negb (attested m (match M_ZeroDataRetention m with Some b => b | None => false end))
  then "zero_data_retention_required"
  else
    let why := if required (P_RequireParameters c) then parameter_reason (names_list parameters) m else "" in
    if negb (String.eqb why "") then why
    else if String.eqb (P_MaxPrice c) "" || String.eqb (P_MaxPrice c) "null" then ""
    else
      let ceiling := ceiling_unmarshal (P_MaxPrice c) in
      match price with
      | None => "price_ceiling_exceeded_or_unknown"
      | Some price =>
          let r := Price_rates (rp_price price) in
          if negb (lessOrEqual (InputPerMillion r) (Ceiling_Input ceiling)) ||
             negb (lessOrEqual (OutputPerMillion r) (Ceiling_Output ceiling)) ||
             negb (lessOrEqual (UnitPrice (rp_price price)) (Ceiling_Unit ceiling))
          then "price_ceiling_exceeded_or_unknown" else ""
      end.

Fixpoint first_reason {A} (f : A → string) (l : list A) : string :=
  match l with
  | [] => ""
  | x :: l' => if negb (String.eqb (f x) "") then f x else first_reason f l'
  end.

Definition constraintReason `{RatLib, CeilingJSON} (policy : EffectivePolicy) (p : Provider)
    (m : ModelMetadata) (price : option RoutingPrice) (parameters : Names) : string :=
  first_reason (λ c, one_constraint c p m price parameters) (E_Constraints policy).

(** ** Evaluating one target *)

(** The first of the named reasons that applies. *)
Definition orReason (reason : string) (next : string) : string :=
  if String.eqb reason "" then next else reason.

Definition PassthroughOperation : string := "passthrough".

Definition Metadata (p : Provider) (model : string) : ModelMetadata :=
  match Provider_Metadata p !! model with Some m => m | None => noMetadata end.

(** Slots whose credential versions may serve, and the rest with their reasons. *)
Definition slot_ineligible (eligibility : string → string) (s : Slot) : option string :=
  match Slot_CredentialID s with
  | None => None
  | Some id => let e := eligibility id in if String.eqb e Eligible_ then None else Some e
  end.

Definition eligibleSlots (l : list Slot) (eligibility : option (string → string))
  : list Slot * list skippedSlot :=
  match eligibility with
  | None => (l, [])
  | Some f =>
      (DeleteFunc (λ s, is_some (slot_ineligible f s)) l,
       concat (map (λ s, match slot_ineligible f s with
                         | Some e => [mkSkipped (Slot_ID s) ("credential_" +:+ e)]
                         | None => []
                         end) l))
  end.

Definition noSlotReason (l : list skippedSlot) : string :=
  match l with
  | [] => "no_eligible_credentials"
  | first :: _ =>
      if existsb (λ s, negb (String.eqb (skipped_reason s) (skipped_reason first))) l
      then "no_eligible_credentials" else skipped_reason first
  end.

(** The bound pair a simulation reports. *)
Definition estimatedCost `{TimeZones} (p : Provider) (price : option RoutingPrice)
    (discount : option RoutingDiscount) (demand : option TokenDemand) (now : Time)
    (worst : WorstCostFunc) (t : Target) : option EstimatedCost :=
  match price, demand with
  | Some price', Some d =>
      let estimated lo hi := mkEstimated lo hi (Currency (rp_price price')) in
      if is_some (CommitmentAt p now) then Some (estimated "0" "0")
      else
        bound <-? worst p t price discount ;;
        let input := match CostInputTokens d with Some c => c | None => EstimatedInputTokens d end in
        floor <-? CostFloor price input now discount ;;
        Some (estimated (Cost_String floor) (Cost_String bound))
  | _, _ => None
  end.

Section Evaluate.
Context `{RatLib, CeilingJSON, UUIDLib, ScoreLib, TimeZones}.

(** What every target of a request is evaluated against. *)
Record evaluation := mkEvaluation {
  ev_route : Route;
  ev_routeID : uuid;
  ev_operation : string;
  ev_surface : string;
  ev_mode : string;
  ev_affinity : list byte;
  ev_policy : EffectivePolicy;
  ev_chosen : selection;
  ev_options : Options;
  ev_now : Time;
}.

(** Published eligibility: the [switch] on the target and its provider. *)
Definition publishedReason (ev : evaluation) (t : Target) (found : option Provider) : string :=
  let o := ev_options ev in
  match found with
  | None => "target_unknown"
  | Some p =>
      if negb (Provider_Enabled p) then "provider_not_active"
      else if Provider_UnconfinedPlugin p && negb (O_UnconfinedPlugins o) then "plugin_unconfined_disabled"
      else if negb (IsPassthrough (ev_route ev) && String.eqb (ev_operation ev) PassthroughOperation) &&
              negb (Supports p (Target_ProviderModel t) (ev_operation ev) (ev_surface ev) (ev_mode ev))
      then "capability_not_certified"
      else match Target_Shadow t with
           | Some sh =>
               match O_Mirror o with
               | Some seed => if Sampled (Target_ID t) seed (SampleRate sh) then "" else "shadow_not_sampled"
               | None => "shadow_not_sampled"
               end
           | None => if admits (ev_chosen ev) t then "" else "selector_excluded"
           end
  end.

Definition order_index (prefer : list string) (p : Provider) : Z :=
  match IndexFunc (λ s, selectorMatches s p) prefer with
  | Some i => Z.of_nat i
  | None => Z.of_nat (length prefer)
  end.

Definition networkReason (o : Options) (p : Provider) : string :=
  match Provider_NetworkCredentialID p, O_CredentialEligibility o with
  | Some id, Some f =>
      if String.eqb id "" then ""
      else let e := f id in if String.eqb e Eligible_ then "" else "network_credential_" +:+ e
  | _, _ => ""
  end.

(** Preparation, with the demand and parameters it found. *)
Definition prepare (ev : evaluation) (p : Provider) (t : Target) (m : ModelMetadata)
    (price : option RoutingPrice) : string * option Incompatibility * option TokenDemand :=
  match O_Prepare (ev_options ev) with
  | None => ("", None, None)
  | Some f =>
      match f p t with
      | PrepareFailed None => ("unsupported_request_semantics", None, None)
      | PrepareFailed (Some detail) => (Inc_Code detail, Some detail, None)
      | PrepareOK None => ("", None, None)
      | PrepareOK (Some c) =>
          (orReason (capacityReason m (Prep_Demand c))
             (constraintReason (ev_policy ev) p m price (Prep_Parameters c)),
           None, Prep_Demand c)
      end
  end.

Definition costReason (ev : evaluation) (p : Provider) (t : Target) (price : option RoutingPrice)
    (discount : option RoutingDiscount) : string :=
  match E_MaxCost (ev_policy ev), O_WorstCost (ev_options ev) with
  | Some ceiling, Some worst =>
      if is_some (CommitmentAt p (ev_now ev)) then ""
      else match worst p t price discount with
           | Some bound => if lessOrEqual (Some (Cost_String bound)) (Some ceiling) then ""
                           else "cost_limit_exceeded"
           | None => "cost_limit_exceeded"
           end
  | _, _ => ""
  end.

Definition preference_of (policy : EffectivePolicy) (perf : option Performance) : Z :=
  let q := E_Preferences policy in
  if String.eqb (E_Strategy policy) strategyLatency &&
     match P_PreferredMaxLatencyMS q with
     | None => false
     | Some limit => match perf with None => true | Some p => flt (fOfZ limit) (LatencyMS p) end
     end then 1
  else if String.eqb (E_Strategy policy) strategyThroughput &&
          match P_PreferredMinThroughput q with
          | None => false
          | Some least =>
              match perf with
              | None => true
              | Some p => match Throughput p with None => true | Some v => flt v (fOfZ least) end
              end
          end then 1
  else 0.

(** The facts of a target the loop body computes first. *)
Definition provider_of (found : option Provider) : Provider :=
  match found with Some p => p | None => zeroProvider end.

Definition target_metadata (found : option Provider) (t : Target) : ModelMetadata :=
  Metadata (provider_of found) (Target_ProviderModel t).

Definition target_demand (ev : evaluation) (found : option Provider) (t : Target) : option TokenDemand :=
  match O_Demand (ev_options ev) with
  | Some f => f (provider_of found) t
  | None => O_TokenDemand (ev_options ev)
  end.

Definition target_price (ev : evaluation) (found : option Provider) (t : Target) : option RoutingPrice :=
  let p := provider_of found in
  Inputs_Price (O_Inputs (ev_options ev)) (Provider_Kind p) (Provider_ID p) (Provider_VendorID p)
    (Target_ProviderModel t) (ev_operation ev) (ev_now ev).

Definition target_discount (ev : evaluation) (found : option Provider) : option RoutingDiscount :=
  let p := provider_of found in
  Inputs_Discount (O_Inputs (ev_options ev)) (Provider_Kind p) (Provider_ID p) (Provider_VendorID p)
    (ev_now ev).

Definition target_metrics (ev : evaluation) (found : option Provider) (t : Target) : option Performance :=
  Metrics (O_Inputs (ev_options ev)) (Provider_ID (provider_of found)) (Target_ProviderModel t)
    (ev_operation ev) (ev_mode ev) (ev_now ev).

Definition target_locality (ev : evaluation) (found : option Provider) (t : Target) : Z :=
  let p := provider_of found in
  let region := if String.eqb (Provider_CloudRegion p) ""
                then match M_Region (target_metadata found t) with Some r => r | None => "" end
                else Provider_CloudRegion p in
  let want := O_Region (ev_options ev) in
  if negb (String.eqb want "") && negb (String.eqb region want) then 1 else 0.

(** Whether the declared limits and the scopes' constraints admit the request. *)
Definition fitReason (ev : evaluation) (found : option Provider) (t : Target) : string :=
  let m := target_metadata found t in
  orReason (capacityReason m (target_demand ev found t))
    (constraintReason (ev_policy ev) (provider_of found) m (target_price ev found t)
       (O_Parameters (ev_options ev))).

Definition preferred_order (ev : evaluation) : list string :=
  match P_Order (E_Preferences (ev_policy ev)) with Some l => l | None => [] end.

Definition orderReason (ev : evaluation) (p : Provider) : string :=
  let prefer := preferred_order ev in
  if match P_AllowFallbacks (E_Preferences (ev_policy ev)) with Some false => true | _ => false end &&
     nonempty prefer && (order_index prefer p =? Z.of_nat (length prefer))
  then "outside_preferred_order" else "".

(** Every test before the credential slots. *)
Definition earlyReason (ev : evaluation) (found : option Provider) (t : Target) : string :=
  orReason (publishedReason ev t found)
    (orReason (fitReason ev found t)
       (orReason (orderReason ev (provider_of found))
          (if O_CheckSlots (ev_options ev) then networkReason (ev_options ev) (provider_of found) else ""))).

(** The slots, ranked and split by eligibility, when the plan checks them. *)
Definition pick_slots (ev : evaluation) (found : option Provider) (t : Target)
  : list Slot * list skippedSlot :=
  let o := ev_options ev in
  if String.eqb (earlyReason ev found t) "" && O_CheckSlots o then
    eligibleSlots (SelectSlots (provider_of found) (Target_ProviderModel t) (ev_route ev) (O_KeyID o)
                     (ev_operation ev) (ev_surface ev) (ev_mode ev) (ev_affinity ev))
      (O_CredentialEligibility o)
  else ([], []).

Definition slotReason (ev : evaluation) (found : option Provider) (t : Target) : string :=
  let early := earlyReason ev found t in
  let picked := pick_slots ev found t in
  if String.eqb early "" && O_CheckSlots (ev_options ev) && negb (nonempty picked.1)
  then noSlotReason picked.2 else early.

Definition prepared_target (ev : evaluation) (found : option Provider) (t : Target)
  : string * option Incompatibility * option TokenDemand :=
  if String.eqb (slotReason ev found t) ""
  then prepare ev (provider_of found) t (target_metadata found t) (target_price ev found t)
  else ("", None, None).

Definition finalReason (ev : evaluation) (found : option Provider) (t : Target) : string :=
  let reason := orReason (slotReason ev found t)
    (orReason (prepared_target ev found t).1.1
       (costReason ev (provider_of found) t (target_price ev found t) (target_discount ev found))) in
  if is_some (uuid_Parse (Target_RoutingID t)) then reason else "target_unknown".

(** The demand the decision records: the prepared one when there is one. *)
Definition recorded_demand (ev : evaluation) (found : option Provider) (t : Target) : option TokenDemand :=
  match (prepared_target ev found t).2 with Some d => Some d | None => target_demand ev found t end.

Definition recorded_cost (ev : evaluation) (found : option Provider) (t : Target) : option EstimatedCost :=
  if O_EstimateCost (ev_options ev) then
    worst <-? O_WorstCost (ev_options ev) ;;
    estimatedCost (provider_of found) (target_price ev found t) (target_discount ev found)
      (recorded_demand ev found t) (ev_now ev) worst t
  else None.

(** [uuid.UUID{}], what a failed parse leaves; the row it scores is ineligible. *)
Context (uuid_Nil : uuid).

Definition candidate_attempt (ev : evaluation) (found : option Provider) (t : Target) : Attempt :=
  let p := provider_of found in
  mkAttempt (Target_ID t) (Target_ProviderID t) (Provider_RevisionID p) (Provider_Kind p)
    (Target_ProviderModel t) (wrap64 (Target_Timeout t * Millisecond)) (Target_Priority t)
    (Score (ev_routeID ev)
       (match uuid_Parse (Target_RoutingID t) with Some id => id | None => uuid_Nil end) (Target_Weight t)
       (ev_operation ev) (ev_surface ev) (ev_mode ev) (ev_affinity ev))
    (E_Strategy (ev_policy ev)) (E_Digest (ev_policy ev)) (Provider_VendorID p)
    (target_price ev found t) (target_discount ev found) (target_metrics ev found t) None.

Definition candidate_decision (ev : evaluation) (found : option Provider) (t : Target) : Decision :=
  let p := provider_of found in
  let m := target_metadata found t in
  let reason := finalReason ev found t in
  let demand := recorded_demand ev found t in
  mkDecision (prepared_target ev found t).1.2 (Target_ID t) (Target_ProviderID t) (Target_ProviderModel t)
    (String.eqb reason "") (Target_Priority t) (E_Strategy (ev_policy ev)) None None
    (if String.eqb reason "" then None else Some reason)
    (target_price ev found t) (target_metrics ev found t)
    (if String.eqb (Provider_VendorID p) "" then None else Some (Provider_VendorID p))
    (M_ObservedAt m) (EstimatedInputTokens <$> demand)
    (match demand with Some d => Demand_MaxOutputTokens d | None => None end)
    (M_ContextLength m) (M_MaxOutputTokens m)
    (if is_some (Target_Shadow t) then None else Selector_ID <$> sel_selector (ev_chosen ev))
    (is_some (Target_Shadow t))
    (opt_test (O_Unhealthy (ev_options ev)) (λ f, f (Target_ProviderID t)))
    None (recorded_cost ev found t).

(** The body of the loop over the route's targets. *)
Definition evaluateCandidate (ev : evaluation) (found : option Provider) (t : Target) : rankedCandidate :=
  let p := provider_of found in
  let picked := pick_slots ev found t in
  mkRow p picked.1 picked.2 (candidate_attempt ev found t) (candidate_decision ev found t)
    (order_index (preferred_order ev) p)
    (preference_of (ev_policy ev) (target_metrics ev found t))
    (target_locality ev found t) (is_some (Target_Shadow t))
    (String.eqb (publishedReason ev t found) "selector_excluded" &&
     String.eqb (fitReason ev found t) "").

Definition evaluateCandidates `{selectionSource Src} (s : Src) (ev : evaluation) : list rankedCandidate :=
  map (λ t, evaluateCandidate ev (lookupProvider s (Target_ProviderID t)) t) (Route_Targets (ev_route ev)).
End Evaluate.

(** ** Supply *)

Definition exempt (route : Route) : bool := CallerCostExempt (Route_Behavior route).

(** The caps of an owner, unless the caller pays or the owner was already listed. *)
Definition add_cap (route : Route) (seen : list string) (owner : string) (costs : option CostLimits)
  : list string * list SpendCap :=
  match costs with
  | Some c => if negb (exempt route) && negb (Contains seen owner)
              then (owner :: seen, [mkSpendCap owner c]) else (seen, [])
  | None => (seen, [])
  end.

Fixpoint slot_caps (route : Route) (seen : list string) (l : list Slot) : list string * list SpendCap :=
  match l with
  | [] => (seen, [])
  | s :: rest =>
      let '(seen1, caps1) := add_cap route seen (Slot_ID s) (Costs (Slot_Supply s)) in
      let '(seen2, caps2) := slot_caps route seen1 rest in
      (seen2, caps1 ++ caps2)
  end.

Fixpoint rows_query (route : Route) (capacity : bool) (seen : list string) (rows : list rankedCandidate)
  : SupplyQuery :=
  match rows with
  | [] => mkSupplyQuery [] []
  | row :: rest =>
      if negb (D_Eligible (decision row)) then rows_query route capacity seen rest
      else
        let p := provider row in
        let '(seen1, caps1) := add_cap route seen (Provider_ID p) (Costs (provider_supply p)) in
        let '(seen2, caps2) := slot_caps route seen1 (slots row) in
        let q := rows_query route capacity seen2 rest in
        mkSupplyQuery
          ((if capacity then map (mkSupplySlot p) (slots row) else []) ++ Query_Slots q)
          (caps1 ++ caps2 ++ Query_Caps q)
  end.

Definition supplyQuery (route : Route) (rows : list rankedCandidate) (capacity : bool) : SupplyQuery :=
  let q := rows_query route capacity [] rows in
  match Budget (Route_Behavior route) with
  | Some b => if negb (exempt route)
              then mkSupplyQuery (Query_Slots q) (mkSpendCap (Route_ID route) b :: Query_Caps q) else q
  | None => q
  end.

Definition with_eligible (d : Decision) (eligible : bool) (reason : option string) : Decision :=
  mkDecision (D_Incompatibility d) (D_TargetID d) (D_ProviderID d) (D_UpstreamModel d) eligible
    (D_Priority d) (D_Strategy d) (D_Attempt d) (D_CredentialSlotID d) reason (D_Price d)
    (D_Performance d) (D_VendorID d) (D_MetadataObservedAt d) (D_EstimatedInputTokens d)
    (D_RequestedOutputTokens d) (D_ContextLength d) (D_MaxOutputTokens d) (D_Selector d) (D_Shadow d)
    (D_Unhealthy d) (D_Headroom d) (D_EstimatedCost d).

Definition with_headroom (d : Decision) (h : option float64) : Decision :=
  mkDecision (D_Incompatibility d) (D_TargetID d) (D_ProviderID d) (D_UpstreamModel d) (D_Eligible d)
    (D_Priority d) (D_Strategy d) (D_Attempt d) (D_CredentialSlotID d) (D_Reason d) (D_Price d)
    (D_Performance d) (D_VendorID d) (D_MetadataObservedAt d) (D_EstimatedInputTokens d)
    (D_RequestedOutputTokens d) (D_ContextLength d) (D_MaxOutputTokens d) (D_Selector d) (D_Shadow d)
    (D_Unhealthy d) h (D_EstimatedCost d).

Definition with_slot (d : Decision) (slot : option string) (n : option Z) : Decision :=
  mkDecision (D_Incompatibility d) (D_TargetID d) (D_ProviderID d) (D_UpstreamModel d) (D_Eligible d)
    (D_Priority d) (D_Strategy d) n slot (D_Reason d) (D_Price d)
    (D_Performance d) (D_VendorID d) (D_MetadataObservedAt d) (D_EstimatedInputTokens d)
    (D_RequestedOutputTokens d) (D_ContextLength d) (D_MaxOutputTokens d) (D_Selector d) (D_Shadow d)
    (D_Unhealthy d) (D_Headroom d) (D_EstimatedCost d).

Definition set_row (row : rankedCandidate) (sl : list Slot) (sk : list skippedSlot) (a : Attempt)
    (d : Decision) : rankedCandidate :=
  mkRow (provider row) sl sk a d (order row) (preference row) (locality row) (shadow row) (allowed row).

(** The best known headroom of the slots that are left. *)
Definition best_headroom (state : option SupplyState) (h : option float64) (l : list Slot) : option float64 :=
  foldl (λ h s, match headroom state (Slot_ID s) with
                | None => h
                | Some f => match h with
                            | None => Some f
                            | Some b => if flt b f then Some f else h
                            end
                end) h l.

(** Why a slot may not spend, empty when it may. *)
Definition slot_spend (state : option SupplyState) (s : Slot) : string :=
  match Costs (Slot_Supply s) with None => "" | Some _ => spendReason state (Slot_ID s) "slot" end.

Definition connection_reason (route : Route) (state : option SupplyState) (reason : string)
    (row : rankedCandidate) : string :=
  if negb (exempt route) && String.eqb reason "" && is_some (Costs (provider_supply (provider row)))
  then spendReason state (A_ProviderID (attempt row)) "connection" else reason.

(** The slots that may spend, those that may not, and the reason when none is left. *)
Definition supply_slots (route : Route) (state : option SupplyState) (reason : string)
    (row : rankedCandidate) : list Slot * list skippedSlot * string :=
  if negb (exempt route) && String.eqb reason "" && nonempty (slots row) then
    let kept := DeleteFunc (λ s, negb (String.eqb (slot_spend state s) "")) (slots row) in
    let sk := skipped row ++
      map (λ s, mkSkipped (Slot_ID s) (slot_spend state s))
        (List.filter (λ s, negb (String.eqb (slot_spend state s) "")) (slots row)) in
    (kept, sk, if nonempty kept then reason else noSlotReason sk)
  else (slots row, skipped row, reason).

Definition supply_row (route : Route) (state : option SupplyState) (routeReason : string)
    (row : rankedCandidate) : rankedCandidate :=
  if negb (D_Eligible (decision row)) then row
  else
    let '(sl, sk, reason) :=
      supply_slots route state (connection_reason route state routeReason row) row in
    if negb (String.eqb reason "")
    then set_row row sl sk (attempt row) (with_eligible (decision row) false (Some reason))
    else set_row row sl sk (attempt row)
           (with_headroom (decision row) (best_headroom state (D_Headroom (decision row)) sl)).

Definition applySupply (route : Route) (rows : list rankedCandidate) (state : option SupplyState)
  : list rankedCandidate :=
  let routeReason :=
    match Budget (Route_Behavior route) with
    | Some _ => if negb (exempt route) then spendReason state (Route_ID route) "route" else ""
    | None => ""
    end in
  map (supply_row route state routeReason) rows.

(** ** Ordering *)

(** The last comparison of each strategy; float values that are not equal decide,
    otherwise the score does. *)
Definition by_score : cmp rankedCandidate := cmp_on (λ r, A_Score (attempt r)) (cmp_rev CompareFloat).

Definition compare_latency (a b : rankedCandidate) : comparison :=
  match D_Performance (decision a), D_Performance (decision b) with
  | Some ap, Some bp =>
      if negb (feq (LatencyMS ap) (LatencyMS bp)) then CompareFloat (LatencyMS ap) (LatencyMS bp)
      else by_score a b
  | Some _, None => Lt
  | None, Some _ => Gt
  | None, None => by_score a b
  end.

Definition throughput_of (r : rankedCandidate) : option float64 :=
  match D_Performance (decision r) with Some p => Throughput p | None => None end.

Definition compare_throughput (a b : rankedCandidate) : comparison :=
  match throughput_of a, throughput_of b with
  | Some x, Some y => if negb (feq x y) then CompareFloat y x else by_score a b
  | Some _, None => Lt
  | None, Some _ => Gt
  | None, None => by_score a b
  end.

Definition CompareRat : cmp Q := Qcompare.

Definition compare_strategy `{RatLib} (strategy op : string) (a b : rankedCandidate) : comparison :=
  if String.eqb strategy strategyCapacity then
    cmp_then (cmp_on (λ r, D_Headroom (decision r)) compareKnown) by_score a b
  else if String.eqb strategy strategyPrice then
    cmp_then (cmp_on (λ r, Scalar (D_Price (decision r)) op) (cmp_known CompareRat)) by_score a b
  else if String.eqb strategy strategyLatency then compare_latency a b
  else if String.eqb strategy strategyThroughput then compare_throughput a b
  else by_score a b.

Definition candidate_order `{RatLib} (strategy op : string) : cmp rankedCandidate :=
  cmp_then (cmp_on (λ r, D_Eligible (decision r)) cmp_bool)
  (cmp_then (cmp_on (λ r, negb (D_Unhealthy (decision r))) cmp_bool)
  (cmp_then (cmp_on (λ r, A_Priority (attempt r)) Z.compare)
  (cmp_then (cmp_on locality Z.compare)
  (cmp_then (cmp_on order Z.compare)
  (cmp_then (cmp_on preference Z.compare)
     (compare_strategy strategy op)))))).

Definition orderCandidates `{RatLib} (rows : list rankedCandidate) (strategy op : string)
  : list rankedCandidate := SortStableFunc (candidate_order strategy op) rows.

(** ** The plan *)

Definition Selected (p : Plan) : string :=
  match find_first Outcome_Matched (Plan_Selectors p) with Some o => Outcome_ID o | None => "" end.

Definition decision_condition (d : Decision) : string :=
  match D_Reason d with
  | None => ""
  | Some r =>
      if D_Shadow d then ""
      else if String.eqb r "context_length_exceeded" || String.eqb r "max_output_tokens_exceeded"
      then FallbackContextWindow
      else if BudgetReason r then FallbackBudget else ""
  end.

Definition Conditions (p : Plan) : list string :=
  if nonempty (Attempts p) || negb (String.eqb (Delegate p) "") then []
  else foldl (λ out d, let c := decision_condition d in
                       if negb (String.eqb c "") && negb (Contains out c) then out ++ [c] else out)
         [] (Decisions p).

(** The most expensive known-price target that would serve but for the selector. *)
Definition baseline `{RatLib} (rows : list rankedCandidate) (op : string) : option Baseline :=
  let most := foldl (λ (best : option (rankedCandidate * Q)) row,
      if shadow row || (negb (D_Eligible (decision row)) && negb (allowed row)) then best
      else match Scalar (D_Price (decision row)) op with
           | None => best
           | Some p =>
               match best with
               | None => Some (row, p)
               | Some (_, q) => match CompareRat p q with Gt => Some (row, p) | _ => best end
               end
           end) None rows in
  (λ b, let a := attempt b.1 in mkBaseline (A_ProviderID a) (A_UpstreamModel a) (A_VendorID a)) <$> most.

(** The decisions of a row's slots: each spends an ordinal, and one past the budget
    is explained as exhausted. *)
Fixpoint slot_decisions (d : Decision) (budget : Z) (ordinal : Z) (ids : list (option string))
  : list Decision * Z :=
  match ids with
  | [] => ([], ordinal)
  | id :: rest =>
      let n := ordinal + 1 in
      let this := if n <=? budget then with_slot d id (Some n)
                  else with_eligible (with_slot d id (D_Attempt d)) false (Some "attempt_budget_exhausted") in
      let '(ds, last) := slot_decisions d budget n rest in
      (this :: ds, last)
  end.

Definition skipped_decision (d : Decision) (s : skippedSlot) : Decision :=
  with_eligible (with_slot d (Some (skipped_id s)) (D_Attempt d)) false (Some (skipped_reason s)).

Definition row_ids (checkSlots : bool) (row : rankedCandidate) : list (option string) :=
  if checkSlots then map (λ s, Some (Slot_ID s)) (slots row) else [D_CredentialSlotID (decision row)].

Definition add_row (checkSlots : bool) (acc : Plan * Z) (row : rankedCandidate) : Plan * Z :=
  let '(plan, ordinal) := acc in
  let add attempts decisions shadows :=
    mkPlan (Attempts plan ++ attempts) (Decisions plan ++ decisions) (Plan_Policy plan) (Plan_Budget plan)
      (Plan_Selectors plan) (Delegate plan) (Shadows plan ++ shadows) (Plan_Baseline plan) in
  if shadow row then
    (add [] [decision row] (if D_Eligible (decision row) then [attempt row] else []), ordinal)
  else if negb (D_Eligible (decision row)) then (add [] [decision row] [], ordinal)
  else
    let '(ds, ordinal') := slot_decisions (decision row) (Plan_Budget plan) ordinal (row_ids checkSlots row) in
    (add [attempt row] (ds ++ map (skipped_decision (decision row)) (skipped row)) [], ordinal').

Definition addCandidates (plan : Plan) (rows : list rankedCandidate) (checkSlots : bool) : Plan :=
  (foldl (add_row checkSlots) (plan, 0) rows).1.

Definition with_slots (a : Attempt) (ids : list string) : Attempt :=
  mkAttempt (A_TargetID a) (A_ProviderID a) (A_ProviderRevisionID a) (A_ProviderKind a) (A_UpstreamModel a)
    (A_Timeout a) (A_Priority a) (A_Score a) (A_Strategy a) (A_PolicyDigest a) (A_VendorID a) (A_Price a)
    (A_Discount a) (A_Performance a) (Some ids).

(** The rows after live supply state is applied, when the plan needs any. *)
Definition supplied (route : Route) (o : Options) (capacity : bool) (rows : list rankedCandidate)
  : list rankedCandidate :=
  let query := supplyQuery route rows (capacity && O_CheckSlots o) in
  if query_empty query then rows
  else
    let state := match O_Supply o with Some read => read query | None => None end in
    map (λ row,
        let sl := if capacity then OrderSlots (slots row) state else slots row in
        set_row row sl (skipped row) (with_slots (attempt row) (slotIDs sl)) (decision row))
      (applySupply route rows state).

Definition emptyPlan : Plan := mkPlan [] [] None 0 [] "" [] None.

Definition Select `{RatLib, CeilingJSON, UUIDLib, ScoreLib, TimeZones, PolicyDigest} `{selectionSource Src}
    (uuid_Nil : uuid) (wallClock : Time) (s : Src) (slug op surface mode : string) (affinity : list byte)
    (o : Options) : Plan * option SelectError :=
  match lookupRoute s slug with
  | None => (emptyPlan, Some (SelectionError RouteNotFound))
  | Some route =>
      if negb (Contains (Route_Operations route) op)
      then (emptyPlan, Some (SelectionError OperationNotSupported))
      else
        let '(installationPolicy, keyPolicy) := selectionPolicies s (O_KeyID o) in
        match ResolvePolicy installationPolicy (Route_Policy route) keyPolicy (O_Preferences o) with
        | inl e => (emptyPlan, Some (PolicyError e))
        | inr policy =>
            let plan b sels del base := mkPlan [] [] (Some policy) b sels del [] base in
            if match O_Preferences o with
               | Some q => match P_MaxAttempts q with Some n => n >? Route_MaxAttempts route | None => false end
               | None => false
               end
            then (plan 0 [] "" None, Some unsupportedBudget)
            else
              let budget := Preferences_Budget (Some (E_Preferences policy)) (Route_MaxAttempts route) in
              let chosen := selectTargets s route op (O_Features o) (O_Evaluate o) (O_Permitted o) in
              let delegate := match sel_selector chosen with Some sel => Selector_Route sel | None => "" end in
              if negb (String.eqb delegate "") then (plan budget (sel_trace chosen) delegate None, None)
              else
                match uuid_Parse (Route_RoutingID route) with
                | None => (plan budget (sel_trace chosen) "" None, Some (SelectionError NoEligibleTargets))
                | Some routeID =>
                    let now := if IsZero (O_Now o) then wallClock else O_Now o in
                    let ev := mkEvaluation route routeID op surface mode affinity policy chosen o now in
                    let rows := evaluateCandidates uuid_Nil s ev in
                    let rows := supplied route o (String.eqb (E_Strategy policy) strategyCapacity) rows in
                    let base := match sel_selector chosen with
                                | Some sel => if nonempty (Selector_Tags sel) then baseline rows op else None
                                | None => None
                                end in
                    let rows := orderCandidates rows (E_Strategy policy) op in
                    (addCandidates (plan budget (sel_trace chosen) "" base) rows (O_CheckSlots o), None)
                end
        end
  end.
