(* ===== verification/PlannerFacts.v ===== *)
(** * What a plan guarantees

    The checks a candidate passed stay true of every attempt [Select] plans, and the
    plan lists the eligible candidates in the order of the effective policy. *)

From S2P Require Import Prelude Go Amount Policy Routes Pricing RoutingInputs Supply Score Planner.
From Stdlib Require Import QArith SpecFloat Strings.Byte.
Local Open Scope Z_scope.

(** ** The order of candidates *)

#[export] Instance wo_CompareRat : WeakOrder CompareRat.
Proof.
  unfold CompareRat. split.
  - intros x y. by rewrite <- Qcompare_antisym.
  - intros x y z H1%Qeq_alt H2%Qeq_alt. apply Qeq_alt. by rewrite H1.
  - intros x y z H1%Qlt_alt H2%Qlt_alt. apply Qlt_alt. by eapply Qlt_trans.
  - intros x y z H1%Qlt_alt H2%Qeq_alt. apply Qlt_alt. by rewrite <- H2.
  - intros x y z H1%Qeq_alt H2%Qlt_alt. apply Qlt_alt. by rewrite H1.
Qed.

#[export] Instance wo_by_score : WeakOrder by_score.
Proof. unfold by_score. apply _. Qed.

Definition latency_of (r : rankedCandidate) : option float64 := LatencyMS <$> D_Performance (decision r).

Lemma rev_compare_eq x y : cmp_rev CompareFloat x y = Eq ↔ CompareFloat x y = Eq.
Proof. unfold cmp_rev. rewrite (wo_sym CompareFloat x y). destruct (CompareFloat x y); simpl; naive_solver. Qed.

Lemma compare_latency_spec a b : compare_latency a b = by_value latency_of CompareFloat by_score a b.
Proof.
  rewrite by_value_spec by done. unfold compare_latency, latency_of.
  by destruct (D_Performance (decision a)), (D_Performance (decision b)).
Qed.

Lemma compare_throughput_spec a b :
  compare_throughput a b = by_value throughput_of (cmp_rev CompareFloat) by_score a b.
Proof. by rewrite by_value_spec by apply rev_compare_eq. Qed.

#[export] Instance wo_compare_strategy `{RatLib} strategy op : WeakOrder (compare_strategy strategy op).
Proof.
  unfold compare_strategy.
  destruct (String.eqb strategy strategyCapacity).
  { exact (_ : WeakOrder (cmp_then (cmp_on (λ r, D_Headroom (decision r)) compareKnown) by_score)). }
  destruct (String.eqb strategy strategyPrice).
  { exact (_ : WeakOrder (cmp_then (cmp_on (λ r, Scalar (D_Price (decision r)) op)
                                      (cmp_known CompareRat)) by_score)). }
  destruct (String.eqb strategy strategyLatency).
  { apply (WeakOrder_ext _ (by_value latency_of CompareFloat by_score)); [apply compare_latency_spec|apply _]. }
  destruct (String.eqb strategy strategyThroughput); [|exact (_ : WeakOrder by_score)].
  apply (WeakOrder_ext _ (by_value throughput_of (cmp_rev CompareFloat) by_score));
    [apply compare_throughput_spec|apply _].
Qed.

#[export] Instance wo_candidate_order `{RatLib} strategy op : WeakOrder (candidate_order strategy op).
Proof. unfold candidate_order. apply _. Qed.

(** ** The rows of a plan *)

Definition serves (row : rankedCandidate) : bool := D_Eligible (decision row) && negb (shadow row).

(** The ordinals a list of decisions assigns, in order. *)
Definition ordinals (ds : list Decision) : list Z := omap D_Attempt ds.

(** 1, 2, ..., n *)
Definition seqZ (start n : Z) : list Z := map Z.of_nat (seq (Z.to_nat start) (Z.to_nat n)).

(** Rows as evaluation leaves them have no ordinal yet. *)
Definition fresh_row (row : rankedCandidate) : Prop := D_Attempt (decision row) = None.

Definition row_count (checkSlots : bool) (row : rankedCandidate) : Z :=
  Z.of_nat (length (row_ids checkSlots row)).

Lemma slot_decisions_spec d budget n ids :
  D_Attempt d = None → 0 <= n →
  let r := slot_decisions d budget n ids in
  r.2 = n + Z.of_nat (length ids) ∧ length r.1 = length ids ∧
  ordinals r.1 = seqZ (n + 1) (Z.max 0 (Z.min budget (n + Z.of_nat (length ids)) - n)).
Proof.
  intros Hd. revert n. induction ids as [|id ids IH]; intros n Hn; cbn [slot_decisions].
  { cbv zeta. simpl length. split; [simpl; lia|]. split; [done|].
    replace (Z.max 0 _) with 0 by lia. done. }
  specialize (IH (n + 1) ltac:(lia)). cbv zeta in IH.
  destruct (slot_decisions d budget (n + 1) ids) as [ds last]. simpl in IH.
  destruct IH as (-> & L & O). cbv zeta. cbn [fst snd length].
  split; [lia|]. split; [by rewrite L|]. unfold ordinals in *. cbn [omap list_omap].
  destruct (Z.leb_spec (n + 1) budget).
  - simpl. rewrite O. unfold seqZ.
    replace (Z.to_nat (Z.max 0 (Z.min budget (n + Z.of_nat (S (length ids))) - n)))
      with (S (Z.to_nat (Z.max 0 (Z.min budget (n + 1 + Z.of_nat (length ids)) - (n + 1))))) by lia.
    cbn [seq map]. f_equal; [lia|]. by replace (S (Z.to_nat (n + 1))) with (Z.to_nat (n + 1 + 1)) by lia.
  - simpl. rewrite Hd, O. unfold seqZ.
    replace (Z.to_nat (Z.max 0 (Z.min budget (n + Z.of_nat (S (length ids))) - n))) with 0%nat by lia.
    by replace (Z.to_nat (Z.max 0 (Z.min budget (n + 1 + Z.of_nat (length ids)) - (n + 1)))) with 0%nat by lia.
Qed.

Lemma seqZ_app a n m : 0 <= a → 0 <= n → 0 <= m → seqZ a n ++ seqZ (a + n) m = seqZ a (n + m).
Proof.
  intros. unfold seqZ. rewrite <- map_app, Z2Nat.inj_add, (Z2Nat.inj_add n) by lia.
  by rewrite seq_app.
Qed.

Lemma skipped_ordinals d l : D_Attempt d = None → ordinals (map (skipped_decision d) l) = [].
Proof. intros Hd. unfold ordinals. induction l; simpl; [done|]. by rewrite Hd. Qed.

(** What adding the rows leaves, [total] credential attempts having been counted. *)
Record added (checkSlots : bool) (plan0 : Plan) (rows : list rankedCandidate) (plan : Plan) (total : Z)
  : Prop := {
  ad_attempts : Attempts plan = Attempts plan0 ++ map attempt (List.filter serves rows);
  ad_shadows : Shadows plan = Shadows plan0 ++
    map attempt (List.filter (λ r, shadow r && D_Eligible (decision r)) rows);
  ad_total : total = foldr Z.add 0 (map (row_count checkSlots) (List.filter serves rows));
  ad_ordinals : ordinals (Decisions plan) = ordinals (Decisions plan0) ++
    seqZ 1 (Z.min (Plan_Budget plan0) total);
  ad_rest : Plan_Policy plan = Plan_Policy plan0 ∧ Plan_Budget plan = Plan_Budget plan0 ∧
    Plan_Selectors plan = Plan_Selectors plan0 ∧ Delegate plan = Delegate plan0 ∧
    Plan_Baseline plan = Plan_Baseline plan0;
}.

(** One row. *)
Record added_row (checkSlots : bool) (plan0 : Plan) (n : Z) (row : rankedCandidate) (plan : Plan) (n' : Z)
  : Prop := {
  ar_attempts : Attempts plan = Attempts plan0 ++ (if serves row then [attempt row] else []);
  ar_shadows : Shadows plan = Shadows plan0 ++
    (if shadow row && D_Eligible (decision row) then [attempt row] else []);
  ar_total : n' = n + (if serves row then row_count checkSlots row else 0);
  ar_ordinals : ordinals (Decisions plan) = ordinals (Decisions plan0) ++
    seqZ (n + 1) (Z.max 0 (Z.min (Plan_Budget plan0) n' - n));
  ar_rest : Plan_Policy plan = Plan_Policy plan0 ∧ Plan_Budget plan = Plan_Budget plan0 ∧
    Plan_Selectors plan = Plan_Selectors plan0 ∧ Delegate plan = Delegate plan0 ∧
    Plan_Baseline plan = Plan_Baseline plan0;
}.

Lemma ordinals_app a b : ordinals (a ++ b) = ordinals a ++ ordinals b.
Proof. apply omap_app. Qed.

Lemma ordinals_none d : D_Attempt d = None → ordinals [d] = [].
Proof. intros E. unfold ordinals. simpl. by rewrite E. Qed.

Lemma seqZ_0 a k : k <= 0 → seqZ a k = [].
Proof. intros. unfold seqZ. by replace (Z.to_nat k) with 0%nat by lia. Qed.

Lemma add_row_spec checkSlots plan n row :
  fresh_row row → 0 <= n →
  let r := add_row checkSlots (plan, n) row in added_row checkSlots plan n row r.1 r.2.
Proof.
  unfold fresh_row. intros F Hn. unfold add_row. cbv zeta. unfold serves.
  destruct (shadow row) eqn:Sh; [|destruct (D_Eligible (decision row)) eqn:El; cbn [negb]].
  - split; unfold serves; rewrite ?Sh, ?andb_false_r; cbn; rewrite ?app_nil_r; try done; [lia|].
    rewrite ordinals_app, ordinals_none, app_nil_r by done. by rewrite seqZ_0, app_nil_r by lia.
  - pose proof (slot_decisions_spec (decision row) (Plan_Budget plan) n (row_ids checkSlots row) F Hn) as Sd.
    cbv zeta in Sd. destruct (slot_decisions _ _ _ _) as [ds last]. cbn [fst snd] in Sd.
    destruct Sd as (-> & _ & Od).
    split; unfold serves; rewrite ?Sh, ?El; cbn; rewrite ?app_nil_r; try done.
    by rewrite !ordinals_app, skipped_ordinals, app_nil_r, Od by done.
  - split; unfold serves; rewrite ?Sh, ?El; cbn; rewrite ?app_nil_r; try done; [lia|].
    rewrite ordinals_app, ordinals_none, app_nil_r by done. by rewrite seqZ_0, app_nil_r by lia.
Qed.

Lemma sum_snoc l (x : Z) : foldr Z.add 0 (l ++ [x]) = foldr Z.add 0 l + x.
Proof. induction l; simpl; lia. Qed.

Lemma filter_snoc {A} (f : A → bool) l x :
  List.filter f (l ++ [x]) = List.filter f l ++ if f x then [x] else [].
Proof. rewrite List.filter_app. simpl. by destruct (f x). Qed.

Lemma added_rows checkSlots plan0 rows :
  Forall fresh_row rows →
  let r := foldl (add_row checkSlots) (plan0, 0) rows in added checkSlots plan0 rows r.1 r.2 ∧ 0 <= r.2.
Proof.
  intros F. cbv zeta. induction rows as [|row rows IH] using rev_ind.
  { split; [|done]. split; simpl; rewrite ?app_nil_r; try done. by rewrite seqZ_0, app_nil_r by lia. }
  rewrite Forall_app, Forall_singleton in F. destruct F as [F Fr]. specialize (IH F).
  rewrite foldl_app. cbn [foldl]. destruct (foldl (add_row checkSlots) (plan0, 0) rows) as [plan n].
  cbn [fst snd] in IH. destruct IH as [[A S T O R] Hn]. pose proof R as (_ & Rb & _).
  pose proof (add_row_spec checkSlots plan n row Fr Hn) as H. cbv zeta in H.
  destruct (add_row checkSlots (plan, n) row) as [plan' n']. cbn [fst snd] in *.
  destruct H as [A' S' T' O' R'].
  assert (Hc : 0 <= if serves row then row_count checkSlots row else 0).
  { unfold row_count. destruct (serves row); lia. }
  split; [|lia]. split.
  - rewrite A', A, filter_snoc, map_app, app_assoc. by destruct (serves row).
  - rewrite S', S, filter_snoc, map_app, app_assoc. by destruct (shadow row && _).
  - rewrite T', T, filter_snoc, map_app. destruct (serves row); simpl; [by rewrite sum_snoc|].
    rewrite app_nil_r. lia.
  - rewrite O', O, <- app_assoc, Rb. f_equal.
    destruct (Z.leb_spec (Plan_Budget plan0) n).
    + rewrite (Z.min_l _ n), (Z.min_l _ n') by lia. by rewrite (seqZ_0 (n + 1)), app_nil_r by lia.
    + rewrite (Z.min_r _ n), (Z.add_comm n 1), seqZ_app by lia. f_equal. lia.
  - naive_solver congruence.
Qed.

(** ** Eligible rows *)

Lemma orReason_empty a b : orReason a b = "" ↔ a = "" ∧ b = "".
Proof. unfold orReason. destruct (String.eqb_spec a ""); naive_solver. Qed.

Lemma first_reason_empty {A} (f : A → string) l : first_reason f l = "" ↔ Forall (λ x, f x = "") l.
Proof.
  induction l as [|x l IH]; simpl; [done|]. rewrite Forall_cons, <- IH.
  destruct (String.eqb_spec (f x) ""); simpl; naive_solver.
Qed.

Lemma noSlotReason_nonempty sk :
  Forall (λ s, skipped_reason s ≠ "") sk → noSlotReason sk ≠ "".
Proof. destruct sk as [|s sk]; simpl; [done|]. intros [N _]%Forall_cons. by destruct (_ || _). Qed.

Lemma eligibleSlots_reasons l f : Forall (λ s, skipped_reason s ≠ "") (eligibleSlots l f).2.
Proof.
  unfold eligibleSlots. destruct f as [f|]; simpl; [|constructor].
  induction l as [|s l IH]; simpl; [constructor|]. apply Forall_app. split; [|done].
  destruct (slot_ineligible f s); by repeat constructor.
Qed.

Section Eligible.
Context `{RatLib, CeilingJSON, UUIDLib, ScoreLib, TimeZones} (nil_id : uuid).

(** Everything an eligible target satisfies. *)
Record target_admitted (ev : evaluation) (p : Provider) (t : Target) : Prop := {
  ta_enabled : Provider_Enabled p = true;
  ta_plugin : Provider_UnconfinedPlugin p = true → O_UnconfinedPlugins (ev_options ev) = true;
  ta_certified :
    (IsPassthrough (ev_route ev) = true ∧ ev_operation ev = PassthroughOperation) ∨
    Supports p (Target_ProviderModel t) (ev_operation ev) (ev_surface ev) (ev_mode ev) = true;
  ta_selected : Target_Shadow t = None → admits (ev_chosen ev) t = true;
  ta_sampled : ∀ sh, Target_Shadow t = Some sh →
    ∃ seed, O_Mirror (ev_options ev) = Some seed ∧ Sampled (Target_ID t) seed (SampleRate sh) = true;
  ta_capacity : capacityReason (Metadata p (Target_ProviderModel t)) (target_demand ev (Some p) t) = "";
  ta_constraints : Forall (λ c,
    one_constraint c p (Metadata p (Target_ProviderModel t)) (target_price ev (Some p) t)
      (O_Parameters (ev_options ev)) = "") (E_Constraints (ev_policy ev));
  ta_order : orderReason ev p = "";
  ta_slots : O_CheckSlots (ev_options ev) = true → (pick_slots ev (Some p) t).1 ≠ [];
  ta_cost : costReason ev p t (target_price ev (Some p) t) (target_discount ev (Some p)) = "";
}.

Lemma slotReason_empty ev found t :
  slotReason ev found t = "" →
  earlyReason ev found t = "" ∧ (O_CheckSlots (ev_options ev) = true → (pick_slots ev found t).1 ≠ []).
Proof.
  unfold slotReason. destruct (String.eqb_spec (earlyReason ev found t) "") as [E|E]; [|done].
  destruct (O_CheckSlots (ev_options ev)) eqn:C; [|done].
  destruct (nonempty (pick_slots ev found t).1) eqn:N; simpl.
  - intros _. split; [done|]. intros _ Z. by rewrite Z in N.
  - intros Z. exfalso. revert Z. apply noSlotReason_nonempty.
    unfold pick_slots. rewrite E, C. apply eligibleSlots_reasons.
Qed.

Lemma publishedReason_empty ev t found :
  publishedReason ev t found = "" →
  ∃ p, found = Some p ∧ Provider_Enabled p = true ∧
    (Provider_UnconfinedPlugin p = true → O_UnconfinedPlugins (ev_options ev) = true) ∧
    ((IsPassthrough (ev_route ev) = true ∧ ev_operation ev = PassthroughOperation) ∨
     Supports p (Target_ProviderModel t) (ev_operation ev) (ev_surface ev) (ev_mode ev) = true) ∧
    (Target_Shadow t = None → admits (ev_chosen ev) t = true) ∧
    (∀ sh, Target_Shadow t = Some sh →
      ∃ seed, O_Mirror (ev_options ev) = Some seed ∧ Sampled (Target_ID t) seed (SampleRate sh) = true).
Proof.
  unfold publishedReason. destruct found as [p|]; [|done]. intros E. exists p. split; [done|].
  destruct (Provider_Enabled p); [|done]. split; [done|]. simpl in E.
  destruct (Provider_UnconfinedPlugin p && _) eqn:U; [done|]. split.
  { intros Hu. rewrite Hu in U. simpl in U. by apply negb_false_iff. }
  destruct (negb (IsPassthrough (ev_route ev) && _) && _) eqn:S; [done|]. split.
  { apply andb_false_iff in S as [S%negb_false_iff|S%negb_false_iff]; [left|by right].
    apply andb_true_iff in S as [? ?%String.eqb_eq]. done. }
  destruct (Target_Shadow t) as [sh|].
  - split; [done|]. intros sh' [= <-]. destruct (O_Mirror (ev_options ev)) as [seed|]; [|done].
    exists seed. split; [done|]. by destruct (Sampled _ _ _).
  - split; [|done]. intros _. by destruct (admits _ _).
Qed.

Lemma eligible_admitted ev found t :
  D_Eligible (candidate_decision ev found t) = true → ∃ p, found = Some p ∧ target_admitted ev p t.
Proof.
  unfold candidate_decision. cbn [D_Eligible]. intros E%String.eqb_eq. unfold finalReason in E.
  destruct (is_some (uuid_Parse (Target_RoutingID t))); [|done].
  apply orReason_empty in E as [[E1 Sl]%slotReason_empty [_ E3]%orReason_empty].
  unfold earlyReason in E1. rewrite !orReason_empty in E1. destruct E1 as (P & F & O & _).
  apply publishedReason_empty in P as (p & -> & P1 & P2 & P3 & P4 & P5).
  unfold fitReason in F. apply orReason_empty in F as [F1 F2]. unfold constraintReason in F2.
  apply first_reason_empty in F2. exists p. split; [done|]. by split.
Qed.
(** Everything an eligible target satisfies, and nothing more: also its network
    credential, its preparation and its identifier. *)
Record target_eligible (ev : evaluation) (p : Provider) (t : Target) : Prop := {
  te_admitted : target_admitted ev p t;
  te_network : O_CheckSlots (ev_options ev) = true → networkReason (ev_options ev) p = "";
  te_prepared : (prepare ev p t (Metadata p (Target_ProviderModel t)) (target_price ev (Some p) t)).1.1 = "";
  te_id : is_Some (uuid_Parse (Target_RoutingID t));
}.

Lemma orb_false_neg (a b : bool) : (a = true ∨ b = true) → negb a && negb b = false.
Proof. by destruct a, b; intros []. Qed.

Lemma publishedReason_admits ev t p :
  Provider_Enabled p = true →
  (Provider_UnconfinedPlugin p = true → O_UnconfinedPlugins (ev_options ev) = true) →
  (IsPassthrough (ev_route ev) = true ∧ ev_operation ev = PassthroughOperation) ∨
    Supports p (Target_ProviderModel t) (ev_operation ev) (ev_surface ev) (ev_mode ev) = true →
  (Target_Shadow t = None → admits (ev_chosen ev) t = true) →
  (∀ sh, Target_Shadow t = Some sh →
    ∃ seed, O_Mirror (ev_options ev) = Some seed ∧ Sampled (Target_ID t) seed (SampleRate sh) = true) →
  publishedReason ev t (Some p) = "".
Proof.
  intros En Un Ce Se Sa. unfold publishedReason. rewrite En. cbn [negb].
  destruct (Provider_UnconfinedPlugin p); simpl; [rewrite Un by done; simpl|].
  all: rewrite orb_false_neg by
    (destruct Ce as [[-> ->]|Ce]; [left; by rewrite String.eqb_refl|by right]).
  all: destruct (Target_Shadow t) as [sh|]; [|by rewrite Se].
  all: by destruct (Sa sh eq_refl) as (seed & -> & ->).
Qed.

(** Eligibility of an evaluated target, decided. *)
Lemma eligible_exact ev found t :
  D_Eligible (candidate_decision ev found t) = true ↔ ∃ p, found = Some p ∧ target_eligible ev p t.
Proof.
  split.
  - intros El. pose proof (eligible_admitted _ _ _ El) as (p & -> & Ad). exists p. split; [done|].
    unfold candidate_decision in El. cbn [D_Eligible] in El. apply String.eqb_eq in El. unfold finalReason in El.
    destruct (is_some (uuid_Parse (Target_RoutingID t))) eqn:Id; [|done].
    apply orReason_empty in El as [Es [Ep _]%orReason_empty]. split; [done|..].
    + intros Ck. apply slotReason_empty in Es as [Ee _]. unfold earlyReason in Ee.
      rewrite !orReason_empty, Ck in Ee. tauto.
    + unfold prepared_target in Ep. rewrite Es in Ep. exact Ep.
    + by destruct (uuid_Parse _).
  - intros (p & -> & [[T1 T2 T3 T4 T5 T6 T7 T8 T9 T10] Nw Pr [id Id]]).
    unfold candidate_decision. cbn [D_Eligible]. apply String.eqb_eq. unfold finalReason. rewrite Id. cbn [is_some].
    assert (earlyReason ev (Some p) t = "") as Ee.
    { unfold earlyReason, fitReason, constraintReason. rewrite !orReason_empty.
      split; [by apply publishedReason_admits|]. split; [split; [exact T6|by apply first_reason_empty]|].
      split; [exact T8|]. destruct (O_CheckSlots (ev_options ev)); [by apply Nw|done]. }
    assert (slotReason ev (Some p) t = "") as Es.
    { unfold slotReason. rewrite Ee. destruct (O_CheckSlots (ev_options ev)) eqn:Ck; [|done].
      specialize (T9 eq_refl). by destruct (pick_slots ev (Some p) t).1. }
    rewrite !orReason_empty. split; [done|]. split; [|exact T10]. unfold prepared_target. by rewrite Es.
Qed.
End Eligible.

(** ** What the reasons say *)

(** A scope's constraint holds of a target; a claim about privacy counts only with
    its source and date. *)
Record constraint_met `{RatLib, CeilingJSON} (c : Preferences) (p : Provider) (m : ModelMetadata)
    (price : option RoutingPrice) (names : list string) : Prop := {
  cm_only : ∀ only, P_Only c = Some only → ∃ s, s ∈ only ∧ selectorMatches s p = true;
  cm_ignore : ∀ s, s ∈ P_Ignore c → selectorMatches s p = false;
  cm_region : ∀ l, P_Regions c = Some l → ∃ r, M_Region m = Some r ∧ r ∈ l;
  cm_quantization : ∀ l, P_Quantizations c = Some l → ∃ q, M_Quantization m = Some q ∧ q ∈ l;
  cm_collection : required (P_DenyDataCollection c) = true →
    M_DataCollection m = Some false ∧ is_Some (M_Source m) ∧ is_Some (M_ObservedAt m);
  cm_retention : required (P_RequireZeroDataRetention c) = true →
    M_ZeroDataRetention m = Some true ∧ is_Some (M_Source m) ∧ is_Some (M_ObservedAt m);
  cm_parameters : required (P_RequireParameters c) = true → names ≠ [] →
    ∃ supported, M_SupportedParameters m = Some supported ∧ names ⊆ supported;
  cm_price : P_MaxPrice c ≠ "" → P_MaxPrice c ≠ "null" →
    ∃ pr, price = Some pr ∧
      lessOrEqual (InputPerMillion (Price_rates (rp_price pr))) (Ceiling_Input (ceiling_unmarshal (P_MaxPrice c))) = true ∧
      lessOrEqual (OutputPerMillion (Price_rates (rp_price pr))) (Ceiling_Output (ceiling_unmarshal (P_MaxPrice c))) = true ∧
      lessOrEqual (UnitPrice (rp_price pr)) (Ceiling_Unit (ceiling_unmarshal (P_MaxPrice c))) = true;
}.

Lemma anySelector_false l p : anySelector l p = false → ∀ s, s ∈ l → selectorMatches s p = false.
Proof.
  unfold anySelector. intros E s Hs. destruct (selectorMatches s p) eqn:M; [|done].
  assert (existsb (λ s, selectorMatches s p) l = true); [|congruence].
  apply existsb_exists. exists s. split; [by apply list_elem_of_In|done].
Qed.

Lemma anySelector_true l p : anySelector l p = true → ∃ s, s ∈ l ∧ selectorMatches s p = true.
Proof. intros (s & Hs & M)%existsb_exists. exists s. split; [by apply list_elem_of_In|done]. Qed.

Lemma factAllowed_true l f : factAllowed (Some l) f = true → ∃ x, f = Some x ∧ x ∈ l.
Proof. unfold factAllowed. destruct f as [x|]; [|done]. intros E%Contains_true. eauto. Qed.

Lemma attested_true m b : attested m b = true → b = true ∧ is_Some (M_Source m) ∧ is_Some (M_ObservedAt m).
Proof.
  unfold attested. destruct (M_Source m), (M_ObservedAt m), b; simpl; done || eauto.
Qed.

Lemma one_constraint_met `{RatLib, CeilingJSON} c p m price names :
  one_constraint c p m price names = "" → constraint_met c p m price (names_list names).
Proof.
  unfold one_constraint. intros E.
  destruct (match P_Only c with Some _ => _ | None => _ end) eqn:E1; [done|].
  destruct (anySelector (P_Ignore c) p) eqn:E2; [done|].
  destruct (negb (factAllowed (P_Regions c) _)) eqn:E3; [done|]. apply negb_false_iff in E3.
  destruct (negb (factAllowed (P_Quantizations c) _)) eqn:E4; [done|]. apply negb_false_iff in E4.
  destruct (required (P_DenyDataCollection c) && _) eqn:E5; [done|].
  destruct (required (P_RequireZeroDataRetention c) && _) eqn:E6; [done|].
  destruct (negb (String.eqb (if required (P_RequireParameters c) then _ else _) "")) eqn:E7.
  { apply negb_true_iff, String.eqb_neq in E7. done. }
  apply negb_false_iff, String.eqb_eq in E7. split.
  - intros only Ho. rewrite Ho in E1. apply negb_false_iff in E1. by apply anySelector_true.
  - by apply anySelector_false.
  - intros l Hl. rewrite Hl in E3. by apply factAllowed_true.
  - intros l Hl. rewrite Hl in E4. by apply factAllowed_true.
  - intros R. rewrite R in E5. simpl in E5. apply negb_false_iff, attested_true in E5 as (D & ?).
    split; [|done]. by destruct (M_DataCollection m) as [[]|].
  - intros R. rewrite R in E6. simpl in E6. apply negb_false_iff, attested_true in E6 as (D & ?).
    split; [|done]. by destruct (M_ZeroDataRetention m) as [[]|].
  - intros R N. rewrite R in E7. unfold parameter_reason in E7.
    destruct (names_list names) as [|n l] eqn:L; [done|]. cbn [nonempty] in E7.
    destruct (M_SupportedParameters m) as [sup|]; [|done]. exists sup. split; [done|].
    change (nonempty (n :: l)) with true in E7. cbv iota in E7.
    destruct (forallb (Contains sup) (n :: l)) eqn:Fb; [|done].
    rewrite forallb_forall in Fb. intros x Hx. apply Contains_true, Fb. by apply list_elem_of_In.
  - intros N1 N2. apply String.eqb_neq in N1, N2. rewrite N1, N2 in E. simpl in E.
    destruct price as [pr|]; [|done]. exists pr. split; [done|]. destruct (_ || _) eqn:B; [done|].
    split_bools. done.
Qed.

(** The token demand is within the model's declared limits. *)
Definition demand_fits (m : ModelMetadata) (d : TokenDemand) : Prop :=
  (∀ c, M_ContextLength m = Some c →
     EstimatedInputTokens d <= c ∧
     ∀ o, Demand_MaxOutputTokens d = Some o → Z.min MaxInt64 (EstimatedInputTokens d + o) <= c) ∧
  (∀ l o, M_MaxOutputTokens m = Some l → Demand_MaxOutputTokens d = Some o → o <= l).

Lemma saturatingSum_spec a b : 0 <= a <= MaxInt64 → 0 <= b <= MaxInt64 → saturatingSum a b = Z.min MaxInt64 (a + b).
Proof.
  intros Ha Hb. unfold saturatingSum.
  rewrite (wrap64_small (MaxInt64 - b)) by (unfold is_int64, MinInt64, MaxInt64 in *; lia).
  destruct (Z.gtb_spec a (MaxInt64 - b)); [lia|].
  rewrite wrap64_small by (unfold is_int64, MinInt64, MaxInt64 in *; lia). lia.
Qed.

Lemma capacity_fits m d :
  0 <= EstimatedInputTokens d <= MaxInt64 →
  (∀ o, Demand_MaxOutputTokens d = Some o → 0 <= o <= MaxInt64) →
  capacityReason m (Some d) = "" → demand_fits m d.
Proof.
  intros Hi Ho. unfold capacityReason.
  destruct (match M_ContextLength m with Some _ => _ | None => _ end) eqn:E1; [done|].
  destruct (match M_MaxOutputTokens m with Some _ => _ | None => _ end) eqn:E2; [done|]. intros _. split.
  - intros c Hc. rewrite Hc in E1. apply orb_false_iff in E1 as [E1 E3]. split; [lia|].
    intros o Eo. rewrite Eo in E3. rewrite saturatingSum_spec in E3 by auto. lia.
  - intros l o Hl Eo. rewrite Hl, Eo in E2. lia.
Qed.

(** ** From evaluated rows to the plan *)

(** What live supply may do to a row: take eligibility and slots away, never give. *)
Record derived (row row' : rankedCandidate) : Prop := {
  dv_provider : provider row' = provider row;
  dv_shadow : shadow row' = shadow row;
  dv_eligible : D_Eligible (decision row') = true → D_Eligible (decision row) = true;
  dv_attempt : D_Attempt (decision row') = D_Attempt (decision row);
  dv_target : A_TargetID (attempt row') = A_TargetID (attempt row);
  dv_owner : A_ProviderID (attempt row') = A_ProviderID (attempt row);
  dv_price : A_Price (attempt row') = A_Price (attempt row);
  dv_discount : A_Discount (attempt row') = A_Discount (attempt row);
  dv_slots : slots row' ⊆ slots row;
}.

Lemma derived_refl row : derived row row.
Proof. by split. Qed.

Lemma DeleteFunc_subseteq {A} (f : A → bool) l : DeleteFunc f l ⊆ l.
Proof. intros x Hx. unfold DeleteFunc in Hx. apply list_elem_of_In, filter_In in Hx as [? _]. by apply list_elem_of_In. Qed.

(** The owners a plan may spend on: the caps of the route, the connection and every
    slot left still allow it, when the caller does not pay for itself. *)
Definition may_spend (route : Route) (state : option SupplyState) (row : rankedCandidate) : Prop :=
  exempt route = false →
  (is_Some (Budget (Route_Behavior route)) → spendReason state (Route_ID route) "route" = "") ∧
  (is_Some (Costs (provider_supply (provider row))) →
     spendReason state (A_ProviderID (attempt row)) "connection" = "") ∧
  ∀ s, s ∈ slots row → is_Some (Costs (Slot_Supply s)) → spendReason state (Slot_ID s) "slot" = "".

Definition route_reason (route : Route) (state : option SupplyState) : string :=
  match Budget (Route_Behavior route) with
  | Some _ => if negb (exempt route) then spendReason state (Route_ID route) "route" else ""
  | None => ""
  end.

Lemma kept_may_spend state l s :
  s ∈ DeleteFunc (λ s, negb (String.eqb (slot_spend state s) "")) l →
  is_Some (Costs (Slot_Supply s)) → spendReason state (Slot_ID s) "slot" = "".
Proof.
  intros Hs [c Hc]. unfold DeleteFunc in Hs. apply list_elem_of_In, filter_In in Hs as [_ Hk].
  rewrite negb_involutive in Hk. apply String.eqb_eq in Hk. unfold slot_spend in Hk. by rewrite Hc in Hk.
Qed.

Lemma supply_slots_subseteq route state reason row : (supply_slots route state reason row).1.1 ⊆ slots row.
Proof. unfold supply_slots. destruct (_ && _); simpl; [apply DeleteFunc_subseteq|done]. Qed.

Lemma supply_row_derived route state reason row : derived row (supply_row route state reason row).
Proof.
  unfold supply_row. destruct (D_Eligible (decision row)) eqn:El; cbn [negb]; [|apply derived_refl].
  pose proof (supply_slots_subseteq route state (connection_reason route state reason row) row) as S.
  destruct (supply_slots _ _ _ _) as [[sl sk] why]. destruct (negb _); by split.
Qed.

Lemma connection_reason_empty route state reason row :
  connection_reason route state reason row = "" →
  reason = "" ∧
  (exempt route = false → is_Some (Costs (provider_supply (provider row))) →
   spendReason state (A_ProviderID (attempt row)) "connection" = "").
Proof.
  unfold connection_reason. destruct (exempt route); simpl; [by intros ->|].
  destruct (String.eqb_spec reason "") as [->|]; simpl; [|done].
  destruct (Costs (provider_supply (provider row))); simpl; [done|].
  intros _. split; [done|]. by intros _ [].
Qed.

Lemma supply_slots_empty route state reason row :
  (supply_slots route state reason row).2 = "" → reason = "" ∧
  (exempt route = false → ∀ s, s ∈ (supply_slots route state reason row).1.1 →
   is_Some (Costs (Slot_Supply s)) → spendReason state (Slot_ID s) "slot" = "").
Proof.
  unfold supply_slots. destruct (exempt route); simpl; [by intros ->|].
  destruct (String.eqb_spec reason "") as [->|]; simpl; [|done].
  destruct (nonempty (slots row)) eqn:N; simpl; intros _; (split; [done|]); intros _ s.
  - apply kept_may_spend.
  - destruct (slots row); [intros []%elem_of_nil|done].
Qed.

Lemma supply_row_may_spend route state row :
  D_Eligible (decision (supply_row route state (route_reason route state) row)) = true →
  may_spend route state (supply_row route state (route_reason route state) row).
Proof.
  unfold supply_row. destruct (D_Eligible (decision row)) eqn:El; cbn [negb]; [|congruence].
  pose proof (supply_slots_empty route state (connection_reason route state (route_reason route state) row) row) as S.
  destruct (supply_slots _ _ _ _) as [[sl sk] why]. cbn [fst snd] in S.
  destruct (String.eqb_spec why "") as [->|]; cbn [negb]; [|done]. intros _ Ex.
  destruct (S eq_refl) as [C Sl]. apply connection_reason_empty in C as [R C]. cbn.
  split; [|split]; [|by apply C|by apply Sl]. intros [b Hb]. unfold route_reason in R. by rewrite Hb, Ex in R.
Qed.

(** An empty query means no cap applies to any eligible row. *)
Lemma add_cap_none route seen owner costs :
  (add_cap route seen owner costs).2 = [] → exempt route = false →
  (add_cap route seen owner costs).1 = seen ∧ (is_Some costs → owner ∈ seen).
Proof.
  unfold add_cap. intros E Ex. rewrite Ex in *. destruct costs as [c|]; simpl in *; [|by split; [|intros []]].
  destruct (Contains seen owner) eqn:C; [|done]. split; [done|]. intros _. by apply Contains_true.
Qed.

Lemma slot_caps_none route seen l :
  (slot_caps route seen l).2 = [] → exempt route = false →
  (slot_caps route seen l).1 = seen ∧ ∀ s, s ∈ l → is_Some (Costs (Slot_Supply s)) → Slot_ID s ∈ seen.
Proof.
  intros E Ex. revert seen E. induction l as [|s l IH]; intros seen E; simpl in *.
  { split; [done|]. intros s []%elem_of_nil. }
  pose proof (add_cap_none route seen (Slot_ID s) (Costs (Slot_Supply s))) as A.
  destruct (add_cap _ _ _ _) as [seen1 caps1]. specialize (IH seen1).
  destruct (slot_caps route seen1 l) as [seen2 caps2]. simpl in *.
  apply app_nil in E as [-> ->]. destruct (A eq_refl Ex) as [-> A2]. destruct (IH eq_refl) as [-> I2].
  split; [done|]. intros x [->|Hx]%elem_of_cons; auto.
Qed.

Lemma rows_query_none route capacity seen rows row :
  Query_Caps (rows_query route capacity seen rows) = [] → exempt route = false → row ∈ rows →
  D_Eligible (decision row) = true →
  (is_Some (Costs (provider_supply (provider row))) → Provider_ID (provider row) ∈ seen) ∧
  ∀ s, s ∈ slots row → is_Some (Costs (Slot_Supply s)) → Slot_ID s ∈ seen.
Proof.
  intros E Ex. revert seen E. induction rows as [|r rows IH]; intros seen E Hr El; [by apply elem_of_nil in Hr|].
  cbn [rows_query] in E. apply elem_of_cons in Hr as [<-|Hr].
  - rewrite El in E. cbn [negb] in E.
    pose proof (add_cap_none route seen (Provider_ID (provider row)) (Costs (provider_supply (provider row)))) as A.
    destruct (add_cap _ _ _ _) as [seen1 caps1].
    pose proof (slot_caps_none route seen1 (slots row)) as S. destruct (slot_caps _ _ _) as [seen2 caps2].
    simpl in *. apply app_nil in E as [-> E]. apply app_nil in E as [-> _].
    destruct (A eq_refl Ex) as [-> A2]. destruct (S eq_refl Ex) as [_ S2]. done.
  - destruct (D_Eligible (decision r)); cbn [negb] in E; [|by apply IH].
    pose proof (add_cap_none route seen (Provider_ID (provider r)) (Costs (provider_supply (provider r)))) as A.
    destruct (add_cap _ _ _ _) as [seen1 caps1].
    pose proof (slot_caps_none route seen1 (slots r)) as S. destruct (slot_caps _ _ _) as [seen2 caps2].
    simpl in *. apply app_nil in E as [-> E]. apply app_nil in E as [-> E].
    destruct (A eq_refl Ex) as [-> _]. destruct (S eq_refl Ex) as [-> _]. by apply IH.
Qed.

Lemma empty_query_may_spend route rows capacity row state :
  query_empty (supplyQuery route rows capacity) = true → row ∈ rows → D_Eligible (decision row) = true →
  may_spend route state row.
Proof.
  unfold query_empty, supplyQuery. intros [_ Q]%andb_true_iff Hr El Ex. rewrite Ex in Q. cbn [negb] in Q.
  destruct (Budget (Route_Behavior route)) as [b|]; [done|].
  destruct (Query_Caps (rows_query route capacity [] rows)) as [|x l] eqn:E; [|done].
  destruct (rows_query_none _ _ _ _ _ E Ex Hr El) as [P S]. split; [by intros []|]. split.
  - intros Hc. by apply P, elem_of_nil in Hc.
  - intros s Hs Hc. by apply (S s Hs), elem_of_nil in Hc.
Qed.

(** The live state a plan reads. *)
Definition plan_state (route : Route) (o : Options) (capacity : bool) (rows : list rankedCandidate)
  : option SupplyState :=
  match O_Supply o with
  | Some read => read (supplyQuery route rows (capacity && O_CheckSlots o))
  | None => None
  end.

Lemma supplied_spec route o capacity rows row' :
  row' ∈ supplied route o capacity rows →
  ∃ row, row ∈ rows ∧ derived row row' ∧
    (D_Eligible (decision row') = true → may_spend route (plan_state route o capacity rows) row').
Proof.
  unfold supplied. destruct (query_empty _) eqn:Q.
  { intros Hr. exists row'. split; [done|]. split; [apply derived_refl|]. intros El.
    by eapply empty_query_may_spend. }
  intros (mid & -> & Hm)%list_elem_of_fmap. unfold applySupply in Hm.
  apply list_elem_of_fmap in Hm as (row & -> & Hr). exists row. split; [done|].
  fold (plan_state route o capacity rows) in *. set (state := plan_state route o capacity rows).
  fold (route_reason route state). set (mid := supply_row route state (route_reason route state) row).
  pose proof (supply_row_derived route state (route_reason route state) row) as D. fold mid in D.
  pose proof (supply_row_may_spend route state row) as M. fold mid in M.
  assert (Sub : (if capacity then OrderSlots (slots mid) state else slots mid) ≡ₚ slots mid).
  { destruct capacity; [apply SortStableFunc_Permutation|done]. }
  split.
  - destruct D as [D1 D2 D3 D4 D5 D6 D7 D8 D9]. split; try done. simpl. by rewrite Sub.
  - cbn. intros El Ex. destruct (M El Ex) as (M1 & M2 & M3). split; [done|]. split; [done|].
    intros s Hs. apply M3. by rewrite <- Sub.
Qed.

(** ** What live supply leaves of a row *)

(** The state live supply answers, when the plan needs any. *)
Definition live_state (route : Route) (o : Options) (capacity : bool) (rows : list rankedCandidate)
  : option SupplyState :=
  if query_empty (supplyQuery route rows (capacity && O_CheckSlots o)) then None
  else plan_state route o capacity rows.

(** The slots of a row that may spend. *)
Definition open_slots (route : Route) (state : option SupplyState) (row : rankedCandidate) : list Slot :=
  List.filter (λ s, exempt route || String.eqb (slot_spend state s) "") (slots row).

(** The caps of the route and the connection allow spending, and so does a slot
    when the row has any; a caller that pays for itself meets no cap. *)
Definition spend_open (route : Route) (state : option SupplyState) (row : rankedCandidate) : Prop :=
  exempt route = false →
  (is_Some (Budget (Route_Behavior route)) → spendReason state (Route_ID route) "route" = "") ∧
  (is_Some (Costs (provider_supply (provider row))) →
     spendReason state (A_ProviderID (attempt row)) "connection" = "") ∧
  (slots row = [] ∨ open_slots route state row ≠ []).

(** A row after live supply: still eligible exactly when its owners may spend, with
    the slots that may; everything else it was evaluated to stays. *)
Record fed_row (route : Route) (state : option SupplyState) (row row' : rankedCandidate) : Prop := {
  fr_provider : provider row' = provider row;
  fr_attempt : attempt row' = attempt row ∨ attempt row' = with_slots (attempt row) (slotIDs (slots row'));
  fr_keys : Planner.order row' = Planner.order row ∧ preference row' = preference row ∧ locality row' = locality row ∧
    shadow row' = shadow row;
  fr_decision : D_Unhealthy (decision row') = D_Unhealthy (decision row) ∧
    D_Price (decision row') = D_Price (decision row) ∧
    D_Performance (decision row') = D_Performance (decision row);
  fr_eligible : D_Eligible (decision row') = true ↔
    D_Eligible (decision row) = true ∧ spend_open route state row;
  fr_slots : D_Eligible (decision row') = true →
    slots row' ≡ₚ open_slots route state row ∧
    D_Headroom (decision row') = best_headroom state (D_Headroom (decision row)) (open_slots route state row);
}.

(** Every skipped slot names why. *)
Definition explained (row : rankedCandidate) : Prop := Forall (λ s, skipped_reason s ≠ "") (skipped row).

Lemma connection_reason_exact route state row :
  connection_reason route state (route_reason route state) row = "" ↔
  (exempt route = false →
   (is_Some (Budget (Route_Behavior route)) → spendReason state (Route_ID route) "route" = "") ∧
   (is_Some (Costs (provider_supply (provider row))) →
     spendReason state (A_ProviderID (attempt row)) "connection" = "")).
Proof.
  split.
  - intros C Ex. apply connection_reason_empty in C as [R C]. split; [|by apply C].
    intros [b Hb]. unfold route_reason in R. by rewrite Hb, Ex in R.
  - intros A. unfold connection_reason, route_reason. destruct (exempt route); simpl.
    { by destruct (Budget (Route_Behavior route)). }
    destruct (A eq_refl) as [A1 A2].
    assert (match Budget (Route_Behavior route) with Some _ => spendReason state (Route_ID route) "route" | None => "" end = "")
      as -> by (destruct (Budget (Route_Behavior route)); [by apply A1|done]).
    simpl. destruct (Costs (provider_supply (provider row))); simpl; [by apply A2|done].
Qed.

Lemma DeleteFunc_filter {A} (f : A → bool) l : DeleteFunc (λ x, negb (f x)) l = List.filter f l.
Proof. unfold DeleteFunc. apply List.filter_ext. intros x. apply negb_involutive. Qed.

Lemma open_slots_nil route state row :
  exempt route = false → slots row ≠ [] → open_slots route state row = [] →
  explained row →
  noSlotReason (skipped row ++ map (λ s, mkSkipped (Slot_ID s) (slot_spend state s))
    (List.filter (λ s, negb (String.eqb (slot_spend state s) "")) (slots row))) ≠ "".
Proof.
  intros Ex Sl Op F.
  assert (Forall (λ s, skipped_reason s ≠ "") (skipped row ++ map (λ s, mkSkipped (Slot_ID s) (slot_spend state s))
    (List.filter (λ s, negb (String.eqb (slot_spend state s) "")) (slots row)))) as G.
  { apply Forall_app. split; [exact F|]. apply Forall_forall. intros x Hx.
    apply list_elem_of_fmap in Hx as (s & -> & Hs). apply list_elem_of_In, filter_In in Hs as [_ Hs].
    cbn. by apply String.eqb_neq, negb_true_iff. }
  by apply noSlotReason_nonempty.
Qed.

Lemma all_open_exempt route state row : exempt route = true → open_slots route state row = slots row.
Proof.
  intros Ex. unfold open_slots. rewrite Ex. simpl. induction (slots row) as [|s l IH]; simpl; [done|].
  by rewrite IH.
Qed.

Lemma supply_slots_exact route state reason row :
  explained row → reason = "" →
  let r := supply_slots route state reason row in
  r.1.1 = open_slots route state row ∧
  (r.2 = "" ↔ (exempt route = false → slots row = [] ∨ open_slots route state row ≠ [])).
Proof.
  intros F ->. cbv zeta. unfold supply_slots. destruct (exempt route) eqn:Ex; simpl.
  { by rewrite all_open_exempt. }
  destruct (slots row) as [|s l] eqn:Sl; cbn [nonempty].
  { cbn. unfold open_slots. rewrite Sl. split; [done|]. split; auto. }
  change (nonempty (s :: l)) with true. cbv iota. cbn [fst snd].
  rewrite (DeleteFunc_filter (λ s, String.eqb (slot_spend state s) "")).
  assert (open_slots route state row = List.filter (λ s, String.eqb (slot_spend state s) "") (s :: l)) as Op.
  { unfold open_slots. by rewrite Ex, Sl. }
  rewrite <- Op. split; [done|].
  destruct (nonempty (open_slots route state row)) eqn:N.
  - split; [|done]. intros _ _. right. intros Z. by rewrite Z in N.
  - assert (open_slots route state row = []) as Z by (by destruct (open_slots route state row)).
    pose proof (open_slots_nil route state row Ex ltac:(by rewrite Sl) Z F) as Ne. rewrite Sl in Ne.
    split; [done|]. intros H. by destruct (H eq_refl).
Qed.

Lemma supply_row_fed route state row :
  explained row → fed_row route state row (supply_row route state (route_reason route state) row).
Proof.
  intros F. unfold supply_row. destruct (D_Eligible (decision row)) eqn:El; cbn [negb].
  2:{ split; rewrite ?El; try done; auto. split; [done|by intros []]. }
  pose proof (connection_reason_exact route state row) as C.
  pose proof (supply_slots_exact route state (connection_reason route state (route_reason route state) row) row F) as S.
  pose proof (supply_slots_empty route state (connection_reason route state (route_reason route state) row) row) as S0.
  destruct (supply_slots _ _ _ _) as [[sl sk] why]. cbn [fst snd] in S, S0.
  destruct (String.eqb_spec why "") as [->|W]; cbn [negb].
  - destruct (S0 eq_refl) as [Cn _]. destruct (S Cn) as [-> Sw]. pose proof (proj1 C Cn) as C1.
    pose proof (proj1 Sw eq_refl) as S1.
    split; cbn; try done; auto. split; [|done]. intros _. split; [done|].
    intros Ex. destruct (C1 Ex). by split_and!; auto.
  - split; cbn; try done; auto. split; [done|]. intros [_ Sp]. exfalso. apply W.
    assert (connection_reason route state (route_reason route state) row = "") as Cn.
    { apply C. intros Ex. by destruct (Sp Ex) as (? & ? & _). }
    destruct (S Cn) as [_ Sw]. apply Sw. intros Ex. by destruct (Sp Ex) as (_ & _ & ?).
Qed.

Lemma best_headroom_none h l : best_headroom None h l = h.
Proof. induction l; [done|]. exact IHl. Qed.

(** Where nothing is read no owner is capped, and every slot is open. *)
Lemma empty_query_fed route rows capacity row :
  query_empty (supplyQuery route rows capacity) = true → row ∈ rows → fed_row route None row row.
Proof.
  intros Q Hr.
  assert (D_Eligible (decision row) = true → open_slots route None row = slots row) as Op.
  { intros El. destruct (exempt route) eqn:Ex; [by apply all_open_exempt|].
    pose proof (empty_query_may_spend _ _ _ _ None Q Hr El Ex) as (_ & _ & M).
    unfold open_slots. rewrite Ex. simpl. revert M. induction (slots row) as [|s l IH]; intros M; simpl; [done|].
    assert (slot_spend None s = "") as ->.
    { unfold slot_spend. destruct (Costs (Slot_Supply s)) eqn:Cs; [|done]. apply M; [left|by rewrite Cs]. }
    simpl. f_equal. apply IH. intros x Hx. apply M. by right. }
  split; try done; auto.
  - split; [|by intros []]. intros El. split; [done|]. intros Ex.
    destruct (empty_query_may_spend _ _ _ _ None Q Hr El Ex) as (M1 & M2 & _). split; [done|]. split; [done|].
    rewrite (Op El). destruct (slots row); auto.
  - intros El. rewrite (Op El). by rewrite best_headroom_none.
Qed.

Lemma reorder_fed route state row mid sl :
  fed_row route state row mid → sl ≡ₚ slots mid → attempt mid = attempt row →
  fed_row route state row
    (set_row mid sl (skipped mid) (with_slots (attempt mid) (slotIDs sl)) (decision mid)).
Proof.
  intros [F1 F2 F3 F4 F5 F6] P At. split; cbn; try done.
  - right. by rewrite At.
  - intros El. destruct (F6 El) as [S Hd]. split; [by rewrite P|done].
Qed.

Lemma supply_row_attempt route state reason row : attempt (supply_row route state reason row) = attempt row.
Proof.
  unfold supply_row. destruct (negb _); [done|]. destruct (supply_slots _ _ _ _) as [[sl sk] why].
  by destruct (negb _).
Qed.

Lemma supplied_fed route o capacity rows :
  Forall explained rows →
  Forall2 (fed_row route (live_state route o capacity rows)) rows (supplied route o capacity rows).
Proof.
  intros F. unfold supplied, live_state. destruct (query_empty _) eqn:Q.
  - apply Forall2_same_length_lookup_2; [done|]. intros i x y Hx Hy. simplify_eq.
    eapply empty_query_fed; [exact Q|]. by apply list_elem_of_lookup_2 in Hx.
  - unfold applySupply. rewrite map_map. fold (plan_state route o capacity rows).
    fold (route_reason route (plan_state route o capacity rows)).
    apply Forall2_fmap_r, Forall_Forall2_diag. eapply Forall_impl; [exact F|]. intros row Ex. cbn beta.
    apply reorder_fed; [by apply supply_row_fed| |by apply supply_row_attempt].
    destruct capacity; [apply SortStableFunc_Permutation|done].
Qed.

(** ** Plans *)

Section Plans.
Context `{RatLib, CeilingJSON, UUIDLib, ScoreLib, TimeZones, PolicyDigest} `{selectionSource Src}.
Context (nil_id : uuid) (wall : Time).

(** A successful selection that delegates to no route, taken apart. *)
Lemma Select_inv (s : Src) slug op surface mode affinity o plan :
  Select nil_id wall s slug op surface mode affinity o = (plan, None) → Delegate plan = "" →
  ∃ route policy routeID base,
    lookupRoute s slug = Some route ∧ op ∈ Route_Operations route ∧
    ResolvePolicy (selectionPolicies s (O_KeyID o)).1 (Route_Policy route)
      (selectionPolicies s (O_KeyID o)).2 (O_Preferences o) = inr policy ∧
    uuid_Parse (Route_RoutingID route) = Some routeID ∧
    let chosen := selectTargets s route op (O_Features o) (O_Evaluate o) (O_Permitted o) in
    let now := if IsZero (O_Now o) then wall else O_Now o in
    let ev := mkEvaluation route routeID op surface mode affinity policy chosen o now in
    let rows := orderCandidates
      (supplied route o (String.eqb (E_Strategy policy) strategyCapacity) (evaluateCandidates nil_id s ev))
      (E_Strategy policy) op in
    plan = addCandidates
      (mkPlan [] [] (Some policy)
         (Preferences_Budget (Some (E_Preferences policy)) (Route_MaxAttempts route))
         (sel_trace chosen) "" [] base) rows (O_CheckSlots o).
Proof.
  unfold Select. destruct (lookupRoute s slug) as [route|]; [|done].
  destruct (Contains (Route_Operations route) op) eqn:Op; [|done]. apply Contains_true in Op. cbn [negb].
  destruct (selectionPolicies s (O_KeyID o)) as [ip kp]. cbn [fst snd].
  destruct (ResolvePolicy ip (Route_Policy route) kp (O_Preferences o)) as [|policy] eqn:P; [done|].
  destruct (match O_Preferences o with Some _ => _ | None => _ end); [done|].
  destruct (negb _) eqn:Dl; [intros [= <-]; cbn; intros D; by rewrite D in Dl|].
  destruct (uuid_Parse (Route_RoutingID route)) as [routeID|] eqn:Ri; [|done].
  intros [= <-] _. exists route, policy, routeID. eexists. split; [done|]. split; [done|].
  split; [exact P|]. split; [exact Ri|]. reflexivity.
Qed.

Lemma evaluated_fresh (s : Src) ev : Forall fresh_row (evaluateCandidates nil_id s ev).
Proof. unfold evaluateCandidates. apply Forall_forall. by intros r (t & -> & _)%list_elem_of_fmap. Qed.

Lemma planned_fresh (s : Src) ev route o capacity strategy op :
  Forall fresh_row (orderCandidates (supplied route o capacity (evaluateCandidates nil_id s ev)) strategy op).
Proof.
  apply Forall_forall. intros row' Hr. unfold orderCandidates in Hr. apply elem_of_SortStableFunc in Hr.
  apply supplied_spec in Hr as (row & Hr & D & _). unfold fresh_row. rewrite (dv_attempt _ _ D).
  pose proof (evaluated_fresh s ev) as F. rewrite Forall_forall in F. by apply F.
Qed.

(** The row a plan makes of a target: eligible exactly when the provider is known,
    the target passes every test and its owners may spend; the keys it is ordered by
    are those of the target. *)
Record planned_row (s : Src) (ev : evaluation) (state : option SupplyState) (t : Target)
    (row : rankedCandidate) : Prop := {
  pr_target : A_TargetID (attempt row) = Target_ID t ∧ A_ProviderID (attempt row) = Target_ProviderID t ∧
    shadow row = is_some (Target_Shadow t);
  pr_keys :
    let found := lookupProvider s (Target_ProviderID t) in
    A_Priority (attempt row) = Target_Priority t ∧
    D_Unhealthy (decision row) = opt_test (O_Unhealthy (ev_options ev)) (λ f, f (Target_ProviderID t)) ∧
    locality row = target_locality ev found t ∧
    Planner.order row = order_index (preferred_order ev) (provider_of found) ∧
    preference row = preference_of (ev_policy ev) (target_metrics ev found t) ∧
    D_Price (decision row) = target_price ev found t ∧
    D_Performance (decision row) = target_metrics ev found t ∧
    A_Score (attempt row) =
      Score (ev_routeID ev)
        (match uuid_Parse (Target_RoutingID t) with Some id => id | None => nil_id end) (Target_Weight t)
        (ev_operation ev) (ev_surface ev) (ev_mode ev) (ev_affinity ev);
  pr_eligible : D_Eligible (decision row) = true ↔
    ∃ p, lookupProvider s (Target_ProviderID t) = Some p ∧ target_eligible ev p t ∧
      spend_open (ev_route ev) state (evaluateCandidate nil_id ev (Some p) t);
  pr_slots : ∀ p, lookupProvider s (Target_ProviderID t) = Some p → D_Eligible (decision row) = true →
    slots row ≡ₚ open_slots (ev_route ev) state (evaluateCandidate nil_id ev (Some p) t) ∧
    D_Headroom (decision row) =
      best_headroom state None (open_slots (ev_route ev) state (evaluateCandidate nil_id ev (Some p) t));
}.

Lemma fed_planned (s : Src) ev state t row :
  fed_row (ev_route ev) state (evaluateCandidate nil_id ev (lookupProvider s (Target_ProviderID t)) t) row →
  planned_row s ev state t row.
Proof.
  intros [F1 F2 (K1 & K2 & K3 & K4) (D1 & D2 & D3) El Sl].
  assert (∀ (B : Type) (f : Attempt → B), (∀ a ids, f (with_slots a ids) = f a) →
    f (attempt row) = f (candidate_attempt nil_id ev (lookupProvider s (Target_ProviderID t)) t)) as A.
  { intros B f Hf. by destruct F2 as [->| ->]; rewrite ?Hf. }
  split.
  - by rewrite !A, K4.
  - cbv zeta. by rewrite !A, D1, D2, D3, K1, K2, K3.
  - rewrite El. cbn [evaluateCandidate decision]. rewrite eligible_exact. split.
    + intros [(p & E & T) Sp]. exists p. by rewrite E in Sp.
    + intros (p & E & T & Sp). rewrite E. split; [by exists p|done].
  - intros p E Ey. by rewrite E in Sl; apply Sl.
Qed.

Lemma pick_slots_explained ev found t : Forall (λ s, skipped_reason s ≠ "") (pick_slots ev found t).2.
Proof. unfold pick_slots. destruct (_ && _); [apply eligibleSlots_reasons|constructor]. Qed.

Lemma supplied_planned (s : Src) ev o capacity :
  Forall2 (planned_row s ev (live_state (ev_route ev) o capacity (evaluateCandidates nil_id s ev)))
    (Route_Targets (ev_route ev)) (supplied (ev_route ev) o capacity (evaluateCandidates nil_id s ev)).
Proof.
  assert (Forall explained (evaluateCandidates nil_id s ev)) as F.
  { apply Forall_forall. intros row (t & -> & _)%list_elem_of_fmap. apply pick_slots_explained. }
  pose proof (supplied_fed (ev_route ev) o capacity _ F) as S. revert S.
  generalize (supplied (ev_route ev) o capacity (evaluateCandidates nil_id s ev)) as rows.
  generalize (live_state (ev_route ev) o capacity (evaluateCandidates nil_id s ev)) as state.
  intros state rows S. unfold evaluateCandidates in S.
  eapply Forall2_impl; [eapply Forall2_fmap_l, S|]. intros t row. apply fed_planned.
Qed.

(** A plan that delegates has no attempts of its own. *)
Lemma select_delegate_empty (s : Src) slug op surface mode affinity o plan :
  Select nil_id wall s slug op surface mode affinity o = (plan, None) → Delegate plan ≠ "" →
  Attempts plan = [].
Proof.
  unfold Select. destruct (lookupRoute s slug) as [route|]; [|done].
  destruct (negb _); [done|]. destruct (selectionPolicies s (O_KeyID o)) as [ip kp].
  destruct (ResolvePolicy _ _ _ _) as [|policy]; [done|].
  destruct (match O_Preferences o with Some _ => _ | None => _ end); [done|].
  destruct (negb _) eqn:Dl; [by intros [= <-]|].
  destruct (uuid_Parse (Route_RoutingID route)) as [routeID|]; [|done].
  intros [= <-] D. exfalso. apply D. unfold addCandidates.
  edestruct added_rows as [Ad _]; [apply planned_fresh|].
  apply ad_rest in Ad as (_ & _ & _ & Dq & _). exact Dq.
Qed.

(** The answer of the supply reader to a query. *)
Definition supply_answer (o : Options) (q : SupplyQuery) : option SupplyState :=
  match O_Supply o with Some read => read q | None => None end.

(** The query named the route's cap, and the answer lets the route and the
    connection spend. *)
Definition spend_allowed (route : Route) (o : Options) (p : Provider) (a : Attempt) (q : SupplyQuery) : Prop :=
  (∀ b, Budget (Route_Behavior route) = Some b →
     mkSpendCap (Route_ID route) b ∈ Query_Caps q ∧
     spendReason (supply_answer o q) (Route_ID route) "route" = "") ∧
  (is_Some (Costs (provider_supply p)) →
     spendReason (supply_answer o q) (A_ProviderID a) "connection" = "").

Lemma may_spend_allowed route o capacity rows row :
  may_spend route (plan_state route o capacity rows) row → exempt route = false →
  spend_allowed route o (provider row) (attempt row) (supplyQuery route rows (capacity && O_CheckSlots o)).
Proof.
  intros M Ex. destruct (M Ex) as (M1 & M2 & _). split; [|done]. intros b Hb. split; [|apply M1; eauto].
  unfold supplyQuery. rewrite Hb, Ex. left.
Qed.

(** Why an attempt of a plan may be made. *)
Record attempt_sound (s : Src) (route : Route) (policy : EffectivePolicy) (op surface mode : string)
    (o : Options) (a : Attempt) (t : Target) (p : Provider) : Prop := {
  as_target : t ∈ Route_Targets route ∧ A_TargetID a = Target_ID t ∧ Target_Shadow t = None;
  as_provider : lookupProvider s (Target_ProviderID t) = Some p ∧ A_ProviderID a = Target_ProviderID t ∧
    Provider_Enabled p = true;
  as_certified : (IsPassthrough route = true ∧ op = PassthroughOperation) ∨
    Supports p (Target_ProviderModel t) op surface mode = true;
  as_selected :
    admits (selectTargets s route op (O_Features o) (O_Evaluate o) (O_Permitted o)) t = true;
  as_constraints : Forall (λ c,
    constraint_met c p (Metadata p (Target_ProviderModel t)) (A_Price a) (names_list (O_Parameters o)))
    (E_Constraints policy);
  as_ceiling : ∀ ceiling worst, E_MaxCost policy = Some ceiling → O_WorstCost o = Some worst →
    CommitmentAt p (if IsZero (O_Now o) then wall else O_Now o) = None →
    ∃ bound, worst p t (A_Price a) (A_Discount a) = Some bound ∧
             lessOrEqual (Some (Cost_String bound)) (Some ceiling) = true;
  as_spend : exempt route = false → ∃ q, spend_allowed route o p a q;
}.

Lemma admitted_sound (s : Src) ev p t a route policy op surface mode o :
  target_admitted ev p t → ev_route ev = route → ev_operation ev = op → ev_surface ev = surface →
  ev_mode ev = mode → ev_policy ev = policy → ev_options ev = o →
  ev_chosen ev = selectTargets s route op (O_Features o) (O_Evaluate o) (O_Permitted o) →
  ev_now ev = (if IsZero (O_Now o) then wall else O_Now o) →
  t ∈ Route_Targets route → A_TargetID a = Target_ID t → Target_Shadow t = None →
  lookupProvider s (Target_ProviderID t) = Some p → A_ProviderID a = Target_ProviderID t →
  A_Price a = target_price ev (Some p) t → A_Discount a = target_discount ev (Some p) →
  (exempt route = false → ∃ q, spend_allowed route o p a q) →
  attempt_sound s route policy op surface mode o a t p.
Proof.
  intros [T1 T2 T3 T4 T5 T6 T7 T8 T9 T10] <- <- <- <- <- <- Ec En Ht Ea Es Lp Eo Ep Ed Sp.
  split; try done.
  - rewrite <- Ec. auto.
  - rewrite Ep. eapply Forall_impl; [exact T7|]. intros c. apply one_constraint_met.
  - intros ceiling worst Mc Wc Cm. unfold costReason in T10. rewrite Mc, Wc, En, Cm in T10. simpl in T10.
    rewrite Ep, Ed. destruct (worst p t _ _) as [bound|]; [|done]. exists bound. split; [done|].
    by destruct (lessOrEqual _ _).
Qed.
End Plans.

(** C1. Every attempt a plan makes is allowed. When [Select] plans attempts, each of
    them is a non-shadow target of the named route, on a published and enabled
    provider certified for the operation (or the passthrough operation of a
    passthrough route), admitted by the selector that matched; it satisfies every
    constraint of every scope of the effective policy; its worst cost is known
    and within the lowest cost ceiling, unless the provider is committed; and
    unless the caller pays for itself, the live state read for the plan lets the
    route and the connection spend where they declare a cap. *)
Theorem select_attempts_sound `{RatLib, CeilingJSON, UUIDLib, ScoreLib, TimeZones, PolicyDigest}
    `{selectionSource Src} (nil_id : uuid) (wall : Time) (s : Src) (slug op surface mode : string)
    (affinity : list byte) (o : Options) (plan : Plan) (a : Attempt) :
  Select nil_id wall s slug op surface mode affinity o = (plan, None) → a ∈ Attempts plan →
  ∃ route policy t p,
    lookupRoute s slug = Some route ∧ op ∈ Route_Operations route ∧
    ResolvePolicy (selectionPolicies s (O_KeyID o)).1 (Route_Policy route)
      (selectionPolicies s (O_KeyID o)).2 (O_Preferences o) = inr policy ∧
    attempt_sound wall s route policy op surface mode o a t p.
Proof.
  intros E Ha. destruct (String.eqb_spec (Delegate plan) "") as [Dl|Dl].
  2:{ exfalso. apply select_delegate_empty in E; [|done]. rewrite E in Ha. by apply elem_of_nil in Ha. }
  destruct (Select_inv _ _ _ _ _ _ _ _ _ _ E Dl) as (route & policy & routeID & base & L & Op & P & _ & Pl).
  cbv zeta in Pl. remember (mkEvaluation _ _ _ _ _ _ _ _ _ _) as ev eqn:Ev.
  destruct (added_rows (O_CheckSlots o) (mkPlan [] [] (Some policy)
     (Preferences_Budget (Some (E_Preferences policy)) (Route_MaxAttempts route))
     (sel_trace (selectTargets s route op (O_Features o) (O_Evaluate o) (O_Permitted o))) "" [] base) _
     (planned_fresh nil_id s ev route o (String.eqb (E_Strategy policy) strategyCapacity) (E_Strategy policy) op))
    as [Ad _].
  apply ad_attempts in Ad. rewrite Pl in Ha. unfold addCandidates in Ha. rewrite Ad in Ha. clear Ad Pl E.
  simpl in Ha. apply list_elem_of_fmap in Ha as (row' & -> & Hr).
  apply list_elem_of_In, filter_In in Hr as [Hr Sv]. apply list_elem_of_In, elem_of_SortStableFunc in Hr.
  apply supplied_spec in Hr as (row & Hr & D & Ms). unfold serves in Sv. apply andb_true_iff in Sv as [El Sh].
  unfold evaluateCandidates in Hr. apply list_elem_of_fmap in Hr as (t & -> & Ht).
  pose proof (dv_eligible _ _ D El) as El'. cbn [evaluateCandidate decision] in El'.
  apply eligible_admitted in El' as (p & Lp & Adm).
  rewrite (dv_shadow _ _ D) in Sh. cbn in Sh. destruct (Target_Shadow t) eqn:Sd; [done|].
  exists route, policy, t, p. split; [done|]. split; [done|]. split; [done|].
  eapply (admitted_sound wall s ev); try (by subst ev); try done.
  - by rewrite (dv_target _ _ D).
  - by rewrite (dv_owner _ _ D).
  - by rewrite (dv_price _ _ D), Lp.
  - by rewrite (dv_discount _ _ D), Lp.
  - intros Ex. eexists. pose proof (may_spend_allowed _ _ _ _ _ (Ms El) Ex) as Sa.
    rewrite (dv_provider _ _ D) in Sa. cbn in Sa. rewrite Lp in Sa. exact Sa.
Qed.

(** C2. A plan tries exactly the eligible targets, in the order of the route's
    effective policy, within its budget. When [Select] plans a route, every target
    has one row, eligible exactly when its provider is published and the target
    passes every test (publication, capability, selector, mirror sampling, limits,
    constraints, preferred order, credentials, preparation, cost ceiling,
    identifier) and the caps of the route, the connection and some slot allow
    spending. The rows are ordered by eligibility, health, priority, locality,
    preferred order, preference and then the measure of the effective policy's
    strategy and the rendezvous score, a strict weak order whatever the
    measurements, NaN included. The attempts are the eligible rows that are not
    shadows, in that order, and the mirrors the eligible shadows. The explained
    ordinals count 1, 2, ... through the credential attempts, one for each slot
    that may spend when the plan checks slots, and stop at the policy's budget,
    which is at most the published one. *)
Theorem select_plan_ordered `{RatLib, CeilingJSON, UUIDLib, ScoreLib, TimeZones, PolicyDigest}
    `{selectionSource Src} (nil_id : uuid) (wall : Time) (s : Src) (slug op surface mode : string)
    (affinity : list byte) (o : Options) (plan : Plan) :
  Select nil_id wall s slug op surface mode affinity o = (plan, None) → Delegate plan = "" →
  ∃ route policy routeID fed rows,
    lookupRoute s slug = Some route ∧
    ResolvePolicy (selectionPolicies s (O_KeyID o)).1 (Route_Policy route)
      (selectionPolicies s (O_KeyID o)).2 (O_Preferences o) = inr policy ∧
    uuid_Parse (Route_RoutingID route) = Some routeID ∧
    let chosen := selectTargets s route op (O_Features o) (O_Evaluate o) (O_Permitted o) in
    let now := if IsZero (O_Now o) then wall else O_Now o in
    let ev := mkEvaluation route routeID op surface mode affinity policy chosen o now in
    let capacity := String.eqb (E_Strategy policy) strategyCapacity in
    let state := live_state route o capacity (evaluateCandidates nil_id s ev) in
    let by_policy := candidate_order (E_Strategy policy) op in
    Forall2 (planned_row nil_id s ev state) (Route_Targets route) fed ∧
    WeakOrder by_policy ∧ rows ≡ₚ fed ∧ StronglySorted (cmp_le by_policy) rows ∧
    Attempts plan = map attempt (List.filter serves rows) ∧
    Shadows plan = map attempt (List.filter (λ r, shadow r && D_Eligible (decision r)) rows) ∧
    Plan_Budget plan = Preferences_Budget (Some (E_Preferences policy)) (Route_MaxAttempts route) ∧
    Plan_Budget plan <= Route_MaxAttempts route ∧
    ordinals (Decisions plan) =
      seqZ 1 (Z.min (Plan_Budget plan)
                (foldr Z.add 0 (map (row_count (O_CheckSlots o)) (List.filter serves rows)))).
Proof.
  intros E Dl.
  destruct (Select_inv _ _ _ _ _ _ _ _ _ _ E Dl) as (route & policy & routeID & base & L & _ & P & Id & Pl).
  cbv zeta in Pl. remember (mkEvaluation _ _ _ _ _ _ _ _ _ _) as ev eqn:Ev.
  pose proof (planned_fresh nil_id s ev route o (String.eqb (E_Strategy policy) strategyCapacity)
    (E_Strategy policy) op) as F.
  pose proof (supplied_planned nil_id s ev o (String.eqb (E_Strategy policy) strategyCapacity)) as Fed.
  assert (ev_route ev = route) as Er by (by subst ev). rewrite Er in Fed.
  set (rows := orderCandidates _ _ _) in *.
  destruct (added_rows (O_CheckSlots o) (mkPlan [] [] (Some policy)
     (Preferences_Budget (Some (E_Preferences policy)) (Route_MaxAttempts route))
     (sel_trace (selectTargets s route op (O_Features o) (O_Evaluate o) (O_Permitted o))) "" [] base) rows F)
    as [[A S T O (_ & Rb & _)] _].
  exists route, policy, routeID. eexists _, rows. split; [exact L|]. split; [exact P|]. split; [exact Id|].
  cbv zeta. rewrite <- Ev. split; [exact Fed|]. split; [apply _|].
  split; [apply SortStableFunc_Permutation|]. split; [by apply SortStableFunc_sorted; apply _|].
  rewrite Pl. unfold addCandidates. rewrite A, S, O, T, Rb. cbn [Attempts Shadows Decisions Plan_Budget app].
  split_and!; try done. apply Preferences_Budget_le.
Qed.

(** ** A route with two providers *)

#[local] Instance demo_rat : RatLib := DecimalRat.
#[local] Instance demo_ceiling : CeilingJSON := NoCeiling.
#[local] Instance demo_uuid : UUIDLib := CanonicalUUID.
#[local] Instance demo_digest : PolicyDigest := NoDigest.
#[local] Instance demo_zones : TimeZones := {| LoadLocation := λ _, None |}.

(** A checksum in place of SHA-256 and a logarithm that is never zero. *)
#[local] Instance demo_score : ScoreLib := {|
  sha256 m := be_bytes 8 (foldl (λ acc b, 31 * acc + Z_of_byte b) 7 m);
  Log _ := fOfZ (-1);
|}.

Definition demo_id (n : string) : string := "00000000-0000-4000-8000-00000000000" +:+ n.

Definition demo_nil : @uuid demo_uuid := demo_id "0".
Definition demo_routing_id : @uuid demo_uuid := demo_id "7".

Definition demo_provider (n : string) (enabled : bool) : Provider :=
  mkProvider (demo_id n) "openai" enabled "rev" "acme" "operator" "api_key" "" None false
    [mkCapability "m" "generation" "openai" "unary" false]
    {["m" := mkMetadata (Some 1000) (Some 500) None None (Some "eu") None (Some true) (Some "vendor") (Some 5)]}
    None None None
    [mkSlot (demo_id "8") true 0 1 (Some "cred-a") [] [] [] noSupply;
     mkSlot (demo_id "9") true 0 1 (Some "cred-b") [] [] [] noSupply].

Definition demo_target (n : string) (priority : Z) : Target :=
  mkTarget n (demo_id n) "m" priority 1 30000 (demo_id n) [] None.

Definition demo_route : Route :=
  mkRoute (demo_id "7") "chat" ["generation"] 3 [demo_target "1" 1; demo_target "2" 0; demo_target "3" 0]
    (demo_id "7") None None "transformed" zeroBehavior.

(** The installation requires zero retention in the EU. *)
Definition demo_installation : Policy :=
  mkPolicy None
    (mkPreferences None None None None None None [] "" None None None (Some ["eu"]) None (Some true) None None)
    noPreferences.

Definition demo_snapshot : Snapshot :=
  mkSnapshot {[demo_id "1" := demo_provider "1" true; demo_id "2" := demo_provider "2" true;
               demo_id "3" := demo_provider "3" false]}
    {["chat" := demo_route]} (Some demo_installation) ∅.

Definition demo_options : Options :=
  mkOptions "" "key" None None None (Some (mkDemand 100 (Some 50) None)) None 10 true
    (Some (λ id, if String.eqb id "cred-b" then "revoked" else "")) false None None None None None None None
    false None.

Definition demo_plan : Plan :=
  (Select demo_nil 0 demo_snapshot "chat" "generation" "openai" "unary" (bytes "key") demo_options).1.

Definition demo_attempt : Attempt :=
  match Attempts demo_plan with a :: _ => a | [] => candidate_attempt demo_nil
    (mkEvaluation demo_route demo_routing_id "" "" "" [] initial_policy (mkSelection None []) demo_options 0)
    None (demo_target "1" 1) end.

Lemma select_attempts_sound_witness :
  A_TargetID demo_attempt = "2" ∧
  ∃ route policy t p,
    lookupRoute demo_snapshot "chat" = Some route ∧ "generation" ∈ Route_Operations route ∧
    ResolvePolicy (selectionPolicies demo_snapshot (O_KeyID demo_options)).1 (Route_Policy route)
      (selectionPolicies demo_snapshot (O_KeyID demo_options)).2 (O_Preferences demo_options) = inr policy ∧
    attempt_sound 0 demo_snapshot route policy "generation" "openai" "unary" demo_options demo_attempt t p.
Proof.
  split; [vm_compute; reflexivity|].
  apply (select_attempts_sound demo_nil 0 demo_snapshot "chat" "generation" "openai" "unary" (bytes "key")
    demo_options demo_plan demo_attempt).
  - vm_compute. reflexivity.
  - vm_compute. left.
Defined.

Lemma select_plan_ordered_witness :
  map A_TargetID (Attempts demo_plan) = ["2"; "1"] ∧
  ordinals (Decisions demo_plan) = [1; 2] ∧
  ∃ route policy fed rows,
    lookupRoute demo_snapshot "chat" = Some route ∧
    ResolvePolicy (selectionPolicies demo_snapshot (O_KeyID demo_options)).1 (Route_Policy route)
      (selectionPolicies demo_snapshot (O_KeyID demo_options)).2 (O_Preferences demo_options) = inr policy ∧
    length fed = length (Route_Targets route) ∧ rows ≡ₚ fed ∧
    StronglySorted (cmp_le (candidate_order (E_Strategy policy) "generation")) rows ∧
    Attempts demo_plan = map attempt (List.filter serves rows).
Proof.
  split; [vm_compute; reflexivity|]. split; [vm_compute; reflexivity|].
  destruct (select_plan_ordered demo_nil 0 demo_snapshot "chat" "generation" "openai" "unary" (bytes "key")
    demo_options demo_plan) as (route & policy & routeID & fed & rows & L & P & _ & F & _ & Pm & S & A & _).
  - vm_compute. reflexivity.
  - vm_compute. reflexivity.
  - exists route, policy, fed, rows. split; [exact L|]. split; [exact P|].
    split; [symmetry; exact (Forall2_length _ _ _ F)|]. split; [exact Pm|]. split; [exact S|exact A].
Defined.
