(* ===== verification/Bounds.v ===== *)
(** * The bounds of a tool run

    [internal/limits/workflow.go]: the run limits of the prior step, the route, the
    key and the caller resolve to the narrowest of each. *)

From S2P Require Import Prelude Go Amount Policy Routes.
From Stdlib Require Import QArith.
Local Open Scope Z_scope.

(** The least value declared. *)
Fixpoint minWorkflowInteger (values : list (option Z)) : option Z :=
  match values with
  | [] => None
  | v :: rest =>
      let remaining := minWorkflowInteger rest in
      match v with
      | None => remaining
      | Some x => match remaining with
                  | Some r => if r <? x then remaining else v
                  | None => v
                  end
      end
  end.

Definition MinWorkflowInteger (fallback : Z) (values : list (option Z)) : Z :=
  match minWorkflowInteger values with Some v => v | None => fallback end.

(** The least amount declared; amounts are decimals by then, so both parse. *)
Fixpoint MinWorkflowCost `{RatLib} (values : list (option string)) : option string :=
  match values with
  | [] => None
  | v :: rest =>
      let remaining := MinWorkflowCost rest in
      match v, remaining with
      | None, _ => remaining
      | Some _, None => v
      | Some x, Some r =>
          match Rat_SetString x, Rat_SetString r with
          | Some candidate, Some current =>
              match Qcompare candidate current with Lt => v | _ => remaining end
          | _, _ => remaining
          end
      end
  end.

Definition noBounds : WorkflowBounds := mkWorkflowBounds None None None None None.

Definition workflowBoundsOrZero (b : option WorkflowBounds) : WorkflowBounds :=
  match b with Some b => b | None => noBounds end.

Definition workflowConcurrency (value : Z) : option Z := if value =? 0 then None else Some value.

Definition ResolveWorkflowBounds `{RatLib} (prior route key caller : option WorkflowBounds) : WorkflowBounds :=
  let scopes := map workflowBoundsOrZero [prior; route; key; caller] in
  mkWorkflowBounds
    (Some (MinWorkflowInteger 8 (map MaxIterations scopes)))
    (Some (MinWorkflowInteger 32 (map MaxToolCalls scopes)))
    (Some (MinWorkflowInteger 120 (map MaxDurationSeconds scopes)))
    (workflowConcurrency (MinWorkflowInteger 0 (map MaxConcurrentRuns scopes)))
    (MinWorkflowCost (map MaxRunCost scopes)).

(** ** Facts *)

Lemma minWorkflowInteger_spec l :
  match minWorkflowInteger l with
  | Some m => Some m ∈ l ∧ ∀ v, Some v ∈ l → m <= v
  | None => Forall (λ o, o = None) l
  end.
Proof.
  induction l as [|[x|] l IH]; simpl; [constructor|..].
  - destruct (minWorkflowInteger l) as [r|].
    + destruct IH as [Hin Hle]. destruct (Z.ltb_spec r x).
      * split; [by right|]. intros v [[= ->]|Hv]%elem_of_cons; [lia|auto].
      * split; [left|]. intros v [[= ->]|Hv]%elem_of_cons; [lia|]. specialize (Hle v Hv). lia.
    + split; [left|]. intros v [[= ->]|Hv]%elem_of_cons; [lia|].
      rewrite Forall_forall in IH. by specialize (IH _ Hv).
  - destruct (minWorkflowInteger l) as [r|].
    + destruct IH as [Hin Hle]. split; [by right|]. intros v [Hv|Hv]%elem_of_cons; [done|auto].
    + by constructor.
Qed.

Lemma MinWorkflowInteger_range fallback l lo hi :
  lo <= fallback <= hi → Forall (λ o, validWorkflowInteger o lo hi = true) l →
  lo <= MinWorkflowInteger fallback l <= hi ∧ ∀ v, Some v ∈ l → MinWorkflowInteger fallback l <= v.
Proof.
  intros Hf F. unfold MinWorkflowInteger. pose proof (minWorkflowInteger_spec l) as M.
  rewrite Forall_forall in F. destruct (minWorkflowInteger l) as [m|].
  - destruct M as [Hin Hle]. specialize (F _ Hin). simpl in F. split; [lia|done].
  - split; [lia|]. intros v Hv. rewrite Forall_forall in M. by specialize (M _ Hv).
Qed.

Lemma units_compare a b :
  Qcompare (inject_Z a / inject_Z costUnit) (inject_Z b / inject_Z costUnit) = Z.compare a b.
Proof.
  assert (HU : (0 < / inject_Z costUnit)%Q) by done.
  destruct (Z.compare_spec a b) as [->|L|L].
  - by apply Qeq_alt.
  - apply Qlt_alt. apply Qmult_lt_r; [done|]. by rewrite <- Zlt_Qlt.
  - apply Qgt_alt. apply Qmult_lt_r; [done|]. by rewrite <- Zlt_Qlt.
Qed.

Lemma MinWorkflowCost_spec `{RatLib, !RatLaws} l :
  Forall (λ o, match o with None => true | Some s => ValidAmount s end = true) l →
  match MinWorkflowCost l with
  | Some m => Some m ∈ l ∧ ∀ v, Some v ∈ l → amount_units m <= amount_units v
  | None => Forall (λ o, o = None) l
  end.
Proof.
  induction l as [|[x|] l IH]; simpl; [constructor|..].
  - intros [Vx F]%Forall_cons. specialize (IH F). destruct (MinWorkflowCost l) as [r|].
    + destruct IH as [Hin Hle].
      assert (Vr : ValidAmount r = true) by (rewrite Forall_forall in F; by apply (F _ Hin)).
      destruct (ValidAmount_scaled x Vx) as (ux & Ex & _), (ValidAmount_scaled r Vr) as (ur & Er & _).
      destruct (rat_amount x ux Vx Ex) as (qx & -> & Qx), (rat_amount r ur Vr Er) as (qr & -> & Qr).
      assert (Ux : amount_units x = ux) by (unfold amount_units; by rewrite Ex).
      assert (Ur : amount_units r = ur) by (unfold amount_units; by rewrite Er).
      assert (Cmp : Qcompare qx qr = Z.compare ux ur) by (rewrite Qx, Qr; apply units_compare).
      rewrite Cmp. destruct (Z.compare_spec ux ur).
      * split; [by right|]. intros v [[= ->]|Hv]%elem_of_cons; [lia|auto].
      * split; [left|]. intros v [[= ->]|Hv]%elem_of_cons; [lia|]. specialize (Hle v Hv). lia.
      * split; [by right|]. intros v [[= ->]|Hv]%elem_of_cons; [lia|auto].
    + split; [left|]. intros v [[= ->]|Hv]%elem_of_cons; [lia|].
      rewrite Forall_forall in IH. by specialize (IH _ Hv).
  - intros [_ F]%Forall_cons. specialize (IH F). destruct (MinWorkflowCost l) as [r|].
    + destruct IH as [Hin Hle]. split; [by right|]. intros v [Hv|Hv]%elem_of_cons; [done|auto].
    + by constructor.
Qed.

(** A bound is no wider than another, where the other declares one. *)
Record within_bounds (r b : WorkflowBounds) : Prop := {
  wb_iterations : ∀ v, MaxIterations b = Some v → ∃ w, MaxIterations r = Some w ∧ w <= v;
  wb_tools : ∀ v, MaxToolCalls b = Some v → ∃ w, MaxToolCalls r = Some w ∧ w <= v;
  wb_duration : ∀ v, MaxDurationSeconds b = Some v → ∃ w, MaxDurationSeconds r = Some w ∧ w <= v;
  wb_concurrency : ∀ v, MaxConcurrentRuns b = Some v → ∃ w, MaxConcurrentRuns r = Some w ∧ w <= v;
  wb_cost : ∀ v, MaxRunCost b = Some v → ∃ w, MaxRunCost r = Some w ∧ amount_units w <= amount_units v;
}.

Lemma scope_field {A} (f : WorkflowBounds → A) (P : A → Prop) scopes :
  Forall (λ b, P (f (workflowBoundsOrZero b))) scopes → Forall P (map f (map workflowBoundsOrZero scopes)).
Proof. intros F. rewrite map_map. by apply Forall_fmap. Qed.

Lemma concurrency_range l hi :
  Forall (λ o, validWorkflowInteger o 1 hi = true) l →
  validWorkflowInteger (workflowConcurrency (MinWorkflowInteger 0 l)) 1 hi = true ∧
  ∀ v, Some v ∈ l → ∃ w, workflowConcurrency (MinWorkflowInteger 0 l) = Some w ∧ w <= v.
Proof.
  intros F. unfold MinWorkflowInteger, workflowConcurrency. pose proof (minWorkflowInteger_spec l) as M.
  rewrite Forall_forall in F. destruct (minWorkflowInteger l) as [m|].
  - destruct M as [Hin Hle]. specialize (F _ Hin). simpl in F.
    destruct (Z.eqb_spec m 0); [lia|]. split; [done|]. intros v Hv. exists m. auto.
  - split; [done|]. intros v Hv. rewrite Forall_forall in M. by specialize (M _ Hv).
Qed.

Lemma cost_range `{RatLib, !RatLaws} l :
  Forall (λ o, match o with None => true | Some s => ValidAmount s end = true) l →
  match MinWorkflowCost l with None => true | Some s => ValidAmount s end = true ∧
  ∀ v, Some v ∈ l → ∃ w, MinWorkflowCost l = Some w ∧ amount_units w <= amount_units v.
Proof.
  intros F. pose proof (MinWorkflowCost_spec l F) as M. rewrite Forall_forall in F.
  destruct (MinWorkflowCost l) as [m|].
  - destruct M as [Hin Hle]. split; [exact (F _ Hin)|]. intros v Hv. exists m. auto.
  - split; [done|]. intros v Hv. rewrite Forall_forall in M. by specialize (M _ Hv).
Qed.

Lemma scope_declares {A} (f : WorkflowBounds → option A) b v scopes :
  Some b ∈ scopes → f b = Some v → Some v ∈ map f (map workflowBoundsOrZero scopes).
Proof.
  intros Hb Hv. rewrite map_map. apply list_elem_of_In, in_map_iff. exists (Some b).
  split; [done|]. by apply list_elem_of_In.
Qed.

(** The run limits a request resolves to are the narrowest of every scope. When
    the prior step's, the route's, the key's and the caller's bounds are valid,
    the resolved ones are valid too and no wider than any of them in iterations,
    tool calls, duration, concurrent runs and cost; so no caller, and no later
    step, can widen what an operator set. *)
Theorem workflow_bounds_narrow `{RatLib, !RatLaws} (prior route key caller : option WorkflowBounds) :
  Forall (λ b, WorkflowBounds_Valid (workflowBoundsOrZero b) = true) [prior; route; key; caller] →
  WorkflowBounds_Valid (ResolveWorkflowBounds prior route key caller) = true ∧
  ∀ b, Some b ∈ [prior; route; key; caller] →
    within_bounds (ResolveWorkflowBounds prior route key caller) b.
Proof.
  intros V. set (scopes := [prior; route; key; caller]) in *.
  assert (V' : Forall (λ b, let w := workflowBoundsOrZero b in
    validWorkflowInteger (MaxIterations w) 1 32 = true ∧ validWorkflowInteger (MaxToolCalls w) 0 128 = true ∧
    validWorkflowInteger (MaxDurationSeconds w) 1 600 = true ∧
    validWorkflowInteger (MaxConcurrentRuns w) 1 2147483647 = true ∧
    match MaxRunCost w with None => true | Some s => ValidAmount s end = true) scopes).
  { eapply Forall_impl; [exact V|]. intros b Hb. unfold WorkflowBounds_Valid in Hb. split_bools. auto 10. }
  rewrite !Forall_and in V'. destruct V' as (V1 & V2 & V3 & V4 & V5). cbv zeta in *.
  apply (scope_field MaxIterations (λ o, validWorkflowInteger o 1 32 = true)) in V1.
  apply (scope_field MaxToolCalls (λ o, validWorkflowInteger o 0 128 = true)) in V2.
  apply (scope_field MaxDurationSeconds (λ o, validWorkflowInteger o 1 600 = true)) in V3.
  apply (scope_field MaxConcurrentRuns (λ o, validWorkflowInteger o 1 2147483647 = true)) in V4.
  apply (scope_field MaxRunCost (λ o, match o with None => true | Some s => ValidAmount s end = true)) in V5.
  destruct (MinWorkflowInteger_range 8 _ 1 32 ltac:(lia) V1) as [R1 N1].
  destruct (MinWorkflowInteger_range 32 _ 0 128 ltac:(lia) V2) as [R2 N2].
  destruct (MinWorkflowInteger_range 120 _ 1 600 ltac:(lia) V3) as [R3 N3].
  destruct (concurrency_range _ _ V4) as [R4 N4]. destruct (cost_range _ V5) as [R5 N5].
  split.
  - unfold ResolveWorkflowBounds. fold scopes. unfold WorkflowBounds_Valid. cbv zeta.
    cbn [MaxIterations MaxToolCalls MaxDurationSeconds MaxConcurrentRuns MaxRunCost].
    rewrite R4, R5. unfold validWorkflowInteger. lia.
  - intros b Hb. split; intros v Hv; eapply (scope_declares _ _ _ _ Hb) in Hv; simpl; eauto.
Qed.

(** A key that caps tool calls and cost, and a caller that asks for more of one and
    less of the other. *)
Lemma workflow_bounds_narrow_witness :
  let key := Some (mkWorkflowBounds None (Some 10) None (Some 4) (Some "2.50")) in
  let caller := Some (mkWorkflowBounds (Some 20) (Some 64) None None (Some "0.75")) in
  @ResolveWorkflowBounds DecimalRat None None key caller =
    mkWorkflowBounds (Some 20) (Some 10) (Some 120) (Some 4) (Some "0.75") ∧
  WorkflowBounds_Valid (@ResolveWorkflowBounds DecimalRat None None key caller) = true.
Proof.
  split; [vm_compute; reflexivity|].
  apply (@workflow_bounds_narrow DecimalRat DecimalRat_laws). repeat constructor.
Defined.
