(* ===== verification/Admission.v ===== *)
(** * Request admission

    [internal/observability/admission.go] and [internal/observability/queue.go]: a
    pool of slots with a queue of four priority classes, used by every request
    goroutine at once. The model interleaves the goroutines: a state holds the
    shared memory and, for each goroutine, where it is in the code and the buffered
    channel its waiter owns; a step runs one goroutine up to its next access of
    shared memory. The critical sections of the queue's mutex are single steps, and
    so is each channel or atomic operation outside them; the timer of a waiter and
    the calls a handler makes are choices of the environment. *)

From S2P Require Import Prelude Go Policy.
Local Open Scope Z_scope.

(** ** Classes *)

Definition classCount : nat := 4.
Definition ClassNormal : Z := 2.

Definition ClassOf (name : string) : Z :=
  let class := Rank name in if class >=? 0 then class else ClassNormal.

Definition weights : list Z := map Class_Weight Classes.

(** ** Shared memory

    A waiter is named by the goroutine that joined the line. *)

Record Pool := mkPool {
  sem : Z;
  admitted : Z;
  rejected : Z;
  reserved : Z;
  waiting : Z;
  lines : list (list nat);
  credit : list Z;
}.

Definition NewPool : Pool := mkPool 0 0 0 0 0 [[]; []; []; []] [0; 0; 0; 0].

Definition with_sem (p : Pool) (n : Z) : Pool :=
  mkPool n (admitted p) (rejected p) (reserved p) (waiting p) (lines p) (credit p).
Definition with_admitted (p : Pool) (n : Z) : Pool :=
  mkPool (sem p) n (rejected p) (reserved p) (waiting p) (lines p) (credit p).
Definition with_rejected (p : Pool) (n : Z) : Pool :=
  mkPool (sem p) (admitted p) n (reserved p) (waiting p) (lines p) (credit p).
Definition with_reserved (p : Pool) (n : Z) : Pool :=
  mkPool (sem p) (admitted p) (rejected p) n (waiting p) (lines p) (credit p).
Definition with_queue (p : Pool) (w : Z) (ls : list (list nat)) (cs : list Z) : Pool :=
  mkPool (sem p) (admitted p) (rejected p) (reserved p) w ls cs.

(** The send on the semaphore channel, which fails when the buffer is full. *)
Definition tryAcquire (capacity : Z) (p : Pool) : option Pool :=
  if sem p <? capacity then Some (with_sem p (sem p + 1)) else None.

(** ** The queue under its mutex *)

(** The loop of [next]: every line with a waiter earns its weight, and the greatest
    credit, the first of equals, is the best. *)
Fixpoint next_scan (class : nat) (ls : list (list nat)) (cs ws : list Z)
    (best : option (nat * Z)) (total : Z) : list Z * option (nat * Z) * Z :=
  match ls, cs, ws with
  | l :: ls', c :: cs', w :: ws' =>
      match l with
      | [] => let '(cs'', b, t) := next_scan (S class) ls' cs' ws' best total in (c :: cs'', b, t)
      | _ :: _ =>
          let c' := c + w in
          let best' := match best with
                       | Some (_, cb) => if cb <? c' then Some (class, c') else best
                       | None => Some (class, c')
                       end in
          let '(cs'', b, t) := next_scan (S class) ls' cs' ws' best' (total + w) in
          (c' :: cs'', b, t)
      end
  | _, _, _ => (cs, best, total)
  end.

(** The line to serve, with the credit after it paid; none when all are empty. *)
Definition next (ls : list (list nat)) (cs : list Z) : list Z * option nat :=
  match next_scan 0 ls cs weights None 0 with
  | (cs', Some (k, _), total) => (alter (λ c, c - total) k cs', Some k)
  | (cs', None, _) => (cs', None)
  end.

(** A waiter leaves the line of a class, whose credit an emptied line forgets. *)
Definition left_ (p : Pool) (ls : list (list nat)) (cs : list Z) (class : nat) : Pool :=
  let cs := match ls !! class with Some [] => <[class := 0]> cs | _ => cs end in
  with_queue p (waiting p - 1) ls cs.

(** Take the next waiter out of its line. *)
Definition handoff (p : Pool) : Pool * option nat :=
  match next (lines p) (credit p) with
  | (cs, Some class) =>
      match lines p !! class with
      | Some (w :: rest) => (left_ p (<[class := rest]> (lines p)) cs class, Some w)
      | _ => (p, None)
      end
  | (_, None) => (p, None)
  end.

Fixpoint delete_first (w : nat) (l : list nat) : option (list nat) :=
  match l with
  | [] => None
  | x :: l' => if Nat.eqb x w then Some l' else cons x <$> delete_first w l'
  end.

(** Take a waiter that gave up out of its line; none when a handoff already did. *)
Definition withdraw (p : Pool) (class w : nat) : option Pool :=
  l ← lines p !! class;
  rest ← delete_first w l;
  Some (left_ p (<[class := rest]> (lines p)) (credit p) class).

(** Append a waiter to the line of a class. *)
Definition join (p : Pool) (class w : nat) : Pool :=
  with_queue p (waiting p + 1) (alter (λ l, l ++ [w]) class (lines p)) (credit p).

(** ** Goroutines *)

(** What a goroutine does once [Pool.Release] returns: its permit is released, or,
    in [await], it settles with the other of two slots. *)
Inductive after := ToGone | ToSettling.

(** Where [tryAcquire] counts the slot it took. *)
Inductive counted := AsHeld | AsSettling | AsWithdrawing (class : nat) | AsReleasing (k : after).

Inductive pc :=
  | Acquiring | Entering | Reserving | Unreserving | Rejecting | Refused
  | Queued | Returning | Gone | Held
  | Awaiting (class : nat) | Joining (class : nat) | Joined (class : nat)
  | Withdrawing (class : nat) | Doubled | Waiting (class : nat) | Expiring (class : nat)
  | Collecting | Settling
  | Releasing (k : after) | Handing (k : after) | Sending (w : nat) (k : after)
  | Uncounting (k : after) | Freeing (k : after) | Checking (k : after) | Retaking (k : after)
  | Counting (k : counted).

Definition resume (k : after) : pc := match k with ToGone => Gone | ToSettling => Settling end.

Definition resume_counted (k : counted) : pc :=
  match k with
  | AsHeld => Held
  | AsSettling => Settling
  | AsWithdrawing c => Withdrawing c
  | AsReleasing k => Releasing k
  end.

(** A goroutine and whether a slot waits in its waiter's channel. *)
Notation thread := (pc * bool)%type.

Record state := mkState { pool : Pool; threads : list thread }.

(** Run on; let a waiter's timer or context end; call [Permit.Await] or
    [Permit.Release]; start a request with [Pool.Enter] or [Pool.AcquirePermit]. *)
Inductive action := Go | Expire | CallAwait (class : Z) | CallRelease.

Definition await_class (class : Z) : nat :=
  Z.to_nat (if (class <? 0) || (class >=? Z.of_nat classCount) then ClassNormal else class).

Section Steps.
Context (capacity depth : Z).

(** [p.queue != nil]: [Queue] makes one only for a positive depth. *)
Definition has_queue : bool := depth >? 0.

(** What goroutine [i], at a point of the code with its channel, does next: the
    shared memory, its new point and its channel, or nothing while it is blocked. *)
Definition run (p : Pool) (i : nat) (at_ : pc) (tok : bool) (a : action) : option (Pool * pc * bool) :=
  match at_, a with
  | Acquiring, Go =>
      match tryAcquire capacity p with
      | Some p' => Some (p', Counting AsHeld, tok)
      | None => Some (p, Rejecting, tok)
      end
  | Entering, Go =>
      match tryAcquire capacity p with
      | Some p' => Some (p', Counting AsHeld, tok)
      | None => Some (p, if has_queue then Reserving else Rejecting, tok)
      end
  | Reserving, Go =>
      let n := reserved p + 1 in
      Some (with_reserved p n, if n <=? depth then Queued else Unreserving, tok)
  | Unreserving, Go => Some (with_reserved p (reserved p - 1), Rejecting, tok)
  | Rejecting, Go => Some (with_rejected p (rejected p + 1), Refused, tok)
  | Queued, CallAwait class => Some (p, Awaiting (await_class class), tok)
  | Queued, CallRelease => Some (p, Returning, tok)
  | Returning, Go => Some (with_reserved p (reserved p - 1), Gone, tok)
  | Held, CallRelease => Some (p, Releasing ToGone, tok)
  | Awaiting c, Go =>
      match tryAcquire capacity p with
      | Some p' => Some (p', Counting AsSettling, tok)
      | None => Some (p, Joining c, tok)
      end
  | Joining c, Go => Some (join p c i, Joined c, false)
  | Joined c, Go =>
      match tryAcquire capacity p with
      | Some p' => Some (p', Counting (AsWithdrawing c), tok)
      | None => Some (p, Waiting c, tok)
      end
  | Withdrawing c, Go =>
      match withdraw p c i with
      | Some p' => Some (p', Settling, tok)
      | None => Some (p, Doubled, tok)
      end
  | Doubled, Go => if tok then Some (p, Releasing ToSettling, false) else None
  | Waiting c, Go => if tok then Some (p, Settling, false) else None
  | Waiting c, Expire => Some (p, Expiring c, tok)
  | Expiring c, Go =>
      match withdraw p c i with
      | Some p' => Some (p', Queued, tok)
      | None => Some (p, Collecting, tok)
      end
  | Collecting, Go => if tok then Some (p, Settling, false) else None
  | Settling, Go => Some (with_reserved p (reserved p - 1), Held, tok)
  | Releasing k, Go => Some (p, if has_queue && (waiting p >? 0) then Handing k else Uncounting k, tok)
  | Handing k, Go =>
      match handoff p with
      | (p', Some w) => Some (p', Sending w k, tok)
      | (p', None) => Some (p', Uncounting k, tok)
      end
  | Sending w k, Go => Some (p, resume k, tok)
  | Uncounting k, Go => Some (with_admitted p (admitted p - 1), Freeing k, tok)
  | Freeing k, Go => Some (with_sem p (sem p - 1), Checking k, tok)
  | Checking k, Go =>
      Some (p, if negb has_queue || (waiting p =? 0) then resume k else Retaking k, tok)
  | Retaking k, Go =>
      match tryAcquire capacity p with
      | Some p' => Some (p', Counting (AsReleasing k), tok)
      | None => Some (p, resume k, tok)
      end
  | Counting k, Go => Some (with_admitted p (admitted p + 1), resume_counted k, tok)
  | _, _ => None
  end.

(** The send on a waiter's channel fills it. *)
Definition deliver (at_ : pc) (ts : list thread) : list thread :=
  match at_ with
  | Sending w _ => alter (λ t, (t.1, true)) w ts
  | _ => ts
  end.

Definition step (i : nat) (a : action) (s : state) : option state :=
  match threads s !! i with
  | Some (at_, tok) =>
      match run (pool s) i at_ tok a with
      | Some (p, at', tok') => Some (mkState p (deliver at_ (<[i := (at', tok')]> (threads s))))
      | None => None
      end
  | None => None
  end.

(** The states the pool can reach. *)
Inductive reachable : state → Prop :=
  | reach_new : reachable (mkState NewPool [])
  | reach_enter s : reachable s → reachable (mkState (pool s) (threads s ++ [(Entering, false)]))
  | reach_acquire s : reachable s → reachable (mkState (pool s) (threads s ++ [(Acquiring, false)]))
  | reach_step s i a s' : reachable s → step i a s = Some s' → reachable s'.

End Steps.

(** ** Facts about lines *)

Fixpoint zsum {A} (f : A → Z) (l : list A) : Z :=
  match l with [] => 0 | x :: l' => f x + zsum f l' end.

Lemma zsum_app {A} (f : A → Z) l k : zsum f (l ++ k) = zsum f l + zsum f k.
Proof. induction l; simpl; lia. Qed.

Lemma zsum_insert {A} (f : A → Z) l i x y :
  l !! i = Some x → zsum f (<[i := y]> l) = zsum f l - f x + f y.
Proof.
  revert i. induction l as [|z l IH]; intros [|i] E; simplify_eq/=; [lia|].
  rewrite (IH i) by done. lia.
Qed.

Lemma zsum_alter {A} (f : A → Z) (g : A → A) l i x :
  l !! i = Some x → zsum f (alter g i l) = zsum f l - f x + f (g x).
Proof.
  revert i. induction l as [|z l IH]; intros [|i] E; simplify_eq/=; [lia|].
  change (list_alter g i l) with (alter g i l). rewrite (IH i) by done. lia.
Qed.

Lemma zsum_nonneg {A} (f : A → Z) l : (∀ x, 0 <= f x) → 0 <= zsum f l.
Proof. intros F. induction l as [|x l IH]; simpl; [lia|]. specialize (F x). lia. Qed.

Lemma zsum_ge {A} (f : A → Z) l i x : (∀ x, 0 <= f x) → l !! i = Some x → f x <= zsum f l.
Proof.
  intros F. revert i. induction l as [|y l IH]; intros [|i] E; simplify_eq/=.
  - pose proof (zsum_nonneg f l F). lia.
  - specialize (IH i E). specialize (F y). lia.
Qed.

Lemma zsum_le {A} (f g : A → Z) l : (∀ x, f x <= g x) → zsum f l <= zsum g l.
Proof. intros F. induction l as [|x l IH]; simpl; [lia|]. specialize (F x). lia. Qed.

Lemma zsum_add {A} (f g : A → Z) l : zsum (λ x, f x + g x) l = zsum f l + zsum g l.
Proof. induction l; simpl; lia. Qed.

Lemma zsum_zero {A} (f : A → Z) l : (∀ x, x ∈ l → f x = 0) → zsum f l = 0.
Proof.
  induction l as [|x l IH]; intros F; simpl; [done|].
  rewrite F by left. rewrite IH; [done|]. intros y Hy. apply F. by right.
Qed.

(** The waiters of every line, summed. *)
Definition lsum (f : nat → Z) (ls : list (list nat)) : Z := zsum (zsum f) ls.

Definition one (w x : nat) : Z := if Nat.eqb x w then 1 else 0.

Lemma delete_first_Some w l rest :
  delete_first w l = Some rest →
  (∀ f, zsum f rest = zsum f l - f w) ∧ ∀ x, x ∈ rest → x ∈ l.
Proof.
  revert rest. induction l as [|x l IH]; intros rest E; simplify_eq/=.
  destruct (Nat.eqb_spec x w) as [->|N]; simplify_eq.
  - split; [intros f; lia|]. intros y Hy. by right.
  - destruct (delete_first w l) as [r|]; simplify_eq/=. destruct (IH r eq_refl) as [S M].
    split; [intros f; simpl; rewrite S; lia|]. intros y [->|Hy]%elem_of_cons; [left|right; auto].
Qed.

Lemma delete_first_None w l : delete_first w l = None → w ∉ l.
Proof.
  induction l as [|x l IH]; intros E; simplify_eq/=; [apply not_elem_of_nil|].
  destruct (Nat.eqb_spec x w) as [->|N]; simplify_eq.
  destruct (delete_first w l); simplify_eq/=. apply not_elem_of_cons. auto.
Qed.

Lemma zsum_one w l : w ∉ l → zsum (one w) l = 0.
Proof.
  intros N. apply zsum_zero. intros x Hx. unfold one. destruct (Nat.eqb_spec x w); congruence.
Qed.

Lemma one_nonneg w x : 0 <= one w x.
Proof. unfold one. destruct (Nat.eqb x w); lia. Qed.

Lemma lsum_one_le w ls : 0 <= lsum (one w) ls <= lsum (λ _, 1) ls.
Proof.
  split; [|apply zsum_le; intros l; apply zsum_le; intros x; unfold one; destruct (Nat.eqb x w); lia].
  apply zsum_nonneg. intros l. apply zsum_nonneg, one_nonneg.
Qed.

(** A waiter is in no line when no line holds it. *)
Lemma lsum_one_zero w ls : (∀ c l, ls !! c = Some l → w ∉ l) → lsum (one w) ls = 0.
Proof.
  intros H. apply zsum_zero. intros l (c & Hc)%list_elem_of_lookup. apply zsum_one. eauto.
Qed.

(** [next] serves a line with a waiter, and none only when every line is empty. *)
Lemma next_scan_spec class ls cs ws best total cs' b t :
  length cs = length ls → length ws = length ls →
  next_scan class ls cs ws best total = (cs', b, t) →
  length cs' = length cs ∧
  match b with
  | Some (k, _) => b = best ∨ ∃ j l, k = (class + j)%nat ∧ ls !! j = Some l ∧ l ≠ []
  | None => best = None ∧ Forall (λ l, l = []) ls
  end.
Proof.
  revert class cs ws best total cs' b t.
  induction ls as [|l ls IH]; intros class [|c cs] [|w ws] best total cs' b t L1 L2 E; simplify_eq/=.
  - split; [done|]. destruct b as [[k x]|]; auto.
  - destruct l as [|x l].
    + destruct (next_scan (S class) ls cs ws best total) as [[cs2 b2] t2] eqn:N. simplify_eq/=.
      apply IH in N as [-> N]; [|lia..]. split; [done|]. destruct b as [[k v]|].
      * destruct N as [->|(j & l' & -> & Hj & Hl)]; [auto|right]. exists (S j), l'. split; [lia|done].
      * destruct N. auto.
    + destruct (next_scan (S class) ls cs ws _ _) as [[cs2 b2] t2] eqn:N in E. simplify_eq/=.
      apply IH in N as [-> N]; [|lia..]. split; [done|].
      destruct b as [[k v]|].
      * destruct N as [N|(j & l' & -> & Hj & Hl)].
        -- destruct best as [[kb cb]|]; [destruct (cb <? c + w); [|by left]|];
             (right; exists 0%nat, (x :: l); simplify_eq; split; [lia|done]).
        -- right. exists (S j), l'. split; [lia|done].
      * destruct N as [N _]. destruct best as [[kb cb]|]; [destruct (cb <? c + w)|]; done.
Qed.

Lemma lsum_concat f ls : lsum f ls = zsum f (concat ls).
Proof. induction ls as [|l ls IH]; [done|]. unfold lsum in *. simpl. by rewrite zsum_app, IH. Qed.

Lemma lsum_length ls : lsum (λ _, 1) ls = Z.of_nat (length (concat ls)).
Proof. rewrite lsum_concat. induction (concat ls) as [|x l IH]; [done|]. simpl length. simpl. lia. Qed.

Lemma lsum_NoDup ls : (∀ j, lsum (one j) ls <= 1) → NoDup (concat ls).
Proof.
  intros H. assert (H' : ∀ j, zsum (one j) (concat ls) <= 1) by (intros j; by rewrite <- lsum_concat).
  clear H. induction (concat ls) as [|x l IH]; [constructor|]. constructor.
  - intros (n & Hn)%list_elem_of_lookup. specialize (H' x). simpl in H'.
    pose proof (zsum_ge (one x) l n x (one_nonneg x) Hn). unfold one in H at 1. rewrite Nat.eqb_refl in H.
    unfold one in H' at 1. rewrite Nat.eqb_refl in H'. lia.
  - apply IH. intros j. specialize (H' j). simpl in H'. pose proof (one_nonneg j x). lia.
Qed.

Definition queue_shaped (p : Pool) : Prop :=
  length (lines p) = classCount ∧ length (credit p) = classCount.

(** What leaves the rest of the pool alone. *)
Definition same_slots (p p' : Pool) : Prop :=
  sem p' = sem p ∧ admitted p' = admitted p ∧ reserved p' = reserved p.

Lemma left_spec p class l rest cs :
  lines p !! class = Some l → length cs = length (credit p) →
  let p' := left_ p (<[class := rest]> (lines p)) cs class in
  lines p' = <[class := rest]> (lines p) ∧ length (credit p') = length (credit p) ∧
  waiting p' = waiting p - 1 ∧ same_slots p p'.
Proof.
  intros L C. unfold left_. simpl. repeat split; [|done..].
  case_match; [|done]. case_match; [|done]. by rewrite length_insert.
Qed.

Lemma handoff_Some p p' w :
  queue_shaped p → handoff p = (p', Some w) →
  ∃ class rest, lines p !! class = Some (w :: rest) ∧ lines p' = <[class := rest]> (lines p) ∧
    waiting p' = waiting p - 1 ∧ same_slots p p' ∧ queue_shaped p'.
Proof.
  intros [L1 L2] E. unfold handoff, next in E.
  destruct (next_scan 0 (lines p) (credit p) weights None 0) as [[cs b] t] eqn:N.
  apply next_scan_spec in N as [N _]; [|by rewrite L1, L2|by rewrite L1].
  destruct b as [[k v]|]; [|done]. destruct (lines p !! k) as [[|x rest]|] eqn:K; simplify_eq.
  exists k, rest. destruct (left_spec p k (w :: rest) rest (alter (λ c, c - t) k cs) K) as (-> & C & -> & S).
  { by rewrite length_alter. }
  split; [done|]. split; [done|]. split; [done|]. split; [done|]. split; [|congruence].
  unfold left_. simpl. by rewrite length_insert.
Qed.

Lemma handoff_None p p' :
  queue_shaped p → handoff p = (p', None) → p' = p ∧ Forall (λ l, l = []) (lines p).
Proof.
  intros [L1 L2] E. unfold handoff, next in E.
  destruct (next_scan 0 (lines p) (credit p) weights None 0) as [[cs b] t] eqn:N.
  apply next_scan_spec in N as [_ N]; [|by rewrite L1, L2|by rewrite L1].
  destruct b as [[k v]|]; simplify_eq; [|tauto].
  destruct N as [|(j & l & -> & K & Hl)]; [done|]. simpl in E. rewrite K in E.
  destruct l; simplify_eq.
Qed.

Lemma withdraw_Some p class w p' :
  queue_shaped p → withdraw p class w = Some p' →
  ∃ l rest, lines p !! class = Some l ∧ delete_first w l = Some rest ∧
    lines p' = <[class := rest]> (lines p) ∧
    waiting p' = waiting p - 1 ∧ same_slots p p' ∧ queue_shaped p'.
Proof.
  intros [L1 L2] E. unfold withdraw in E. destruct (lines p !! class) as [l|] eqn:K; [|done].
  simpl in E. destruct (delete_first w l) as [rest|] eqn:D; [|done]. injection E as <-.
  exists l, rest. destruct (left_spec p class l rest (credit p) K eq_refl) as (-> & C & -> & S).
  do 5 (split; [done|]). split; [|congruence]. unfold left_. simpl. by rewrite length_insert.
Qed.

Lemma withdraw_None p class w l :
  lines p !! class = Some l → withdraw p class w = None → w ∉ l.
Proof.
  intros K E. unfold withdraw in E. rewrite K in E. simpl in E.
  destruct (delete_first w l) eqn:D; [done|]. by apply delete_first_None.
Qed.

(** ** The invariant *)

Definition slots_after (k : after) : Z := match k with ToGone => 0 | ToSettling => 1 end.

(** The slots of the semaphore a goroutine answers for. *)
Definition slots (p : pc) : Z :=
  match p with
  | Held | Settling | Withdrawing _ | Doubled => 1
  | Releasing k | Handing k | Sending _ k | Uncounting k | Freeing k => 1 + slots_after k
  | Checking k | Retaking k => slots_after k
  | Counting (AsReleasing k) => 1 + slots_after k
  | Counting _ => 1
  | _ => 0
  end.

Definition tokens (tok : bool) : Z := if tok then 1 else 0.

Definition owns (t : thread) : Z := slots t.1 + tokens t.2.

(** Slots taken and not yet counted, or uncounted and not yet returned. *)
Definition uncounted (t : thread) : Z :=
  match t.1 with Counting _ | Freeing _ => 1 | _ => 0 end.

(** Permits that hold a queue position. *)
Definition queued (t : thread) : Z :=
  match t.1 with
  | Queued | Returning | Awaiting _ | Joining _ | Joined _ | Withdrawing _ | Doubled | Waiting _
  | Expiring _ | Collecting | Settling | Counting AsSettling | Counting (AsWithdrawing _) => 1
  | Releasing k | Handing k | Sending _ k | Uncounting k | Freeing k | Checking k | Retaking k
  | Counting (AsReleasing k) => slots_after k
  | _ => 0
  end.

Definition reserving (t : thread) : Z := queued t + match t.1 with Unreserving => 1 | _ => 0 end.

(** The line a goroutine's waiter may be in. *)
Definition line_class (p : pc) : option nat :=
  match p with
  | Joined c | Withdrawing c | Waiting c | Expiring c | Counting (AsWithdrawing c) => Some c
  | _ => None
  end.

Definition pc_class (p : pc) : option nat :=
  match p with Awaiting c | Joining c => Some c | _ => line_class p end.

(** Whether the goroutine's waiter is somewhere: in a line, about to be sent a
    slot, or with a slot in its channel. *)
Definition expects (p : pc) : Z :=
  match p with Doubled | Collecting => 1 | _ => if line_class p then 1 else 0 end.

Definition sends (w : nat) (t : thread) : Z :=
  match t.1 with Sending x _ => one w x | _ => 0 end.

(** Goroutines that freed a slot and will look at the lines again. *)
Definition checks (t : thread) : Z := match t.1 with Checking _ | Retaking _ => 1 | _ => 0 end.

(** A waiter blocked in its line. *)
Definition stuck (s : state) : Prop :=
  ∃ j c tok, threads s !! j = Some (Waiting c, tok) ∧ 0 < lsum (one j) (lines (pool s)).

Record pool_inv (capacity depth : Z) (s : state) : Prop := {
  inv_sem : sem (pool s) = zsum owns (threads s);
  inv_cap : sem (pool s) <= capacity;
  inv_admitted : admitted (pool s) + zsum uncounted (threads s) = sem (pool s);
  inv_waiting : waiting (pool s) = lsum (λ _, 1) (lines (pool s));
  inv_reserved : reserved (pool s) = zsum reserving (threads s);
  inv_queued : zsum queued (threads s) <= Z.max depth 0;
  inv_shape : queue_shaped (pool s);
  inv_class : ∀ i p tok c, threads s !! i = Some (p, tok) → pc_class p = Some c → (c < classCount)%nat;
  inv_lines : ∀ c l j, lines (pool s) !! c = Some l → j ∈ l →
    ∃ p tok, threads s !! j = Some (p, tok) ∧ line_class p = Some c;
  inv_sends : ∀ i w k tok, threads s !! i = Some (Sending w k, tok) → is_Some (threads s !! w);
  inv_place : ∀ i p tok, threads s !! i = Some (p, tok) →
    lsum (one i) (lines (pool s)) + zsum (sends i) (threads s) + tokens tok = expects p;
  inv_idle : stuck s → capacity - sem (pool s) <= zsum checks (threads s);
}.

Lemma queued_nonneg t : 0 <= queued t.
Proof.
  destruct t as [p tok]. unfold queued. simpl. repeat case_match; try lia;
    match goal with k : after |- _ => destruct k; simpl; lia end.
Qed.

Lemma reserving_bounds t : queued t <= reserving t <= queued t + 1.
Proof. unfold reserving. destruct (t.1); lia. Qed.

Lemma sends_nonneg w t : 0 <= sends w t.
Proof. destruct t as [[] tok]; unfold sends; simpl; try lia. apply one_nonneg. Qed.

Lemma owns_nonneg t : 0 <= owns t.
Proof.
  destruct t as [p []]; unfold owns; simpl; assert (0 <= slots p); try lia;
    destruct p; simpl; repeat case_match; simpl; try lia;
    match goal with k : after |- _ => destruct k; simpl; lia end.
Qed.

Lemma line_class_pc p c : line_class p = Some c → pc_class p = Some c.
Proof. by destruct p. Qed.

Lemma line_class_queued p c tok : line_class p = Some c → queued (p, tok) = 1 ∧ expects p = 1.
Proof. unfold expects. intros E. rewrite E. destruct p as [| | | | | | | | | | | | | | | | | | | | | | | | | |[]]; done. Qed.

Section Invariant.
Context (capacity depth : Z).
Notation inv := (pool_inv capacity depth).

(** Without a queue there is no waiter. *)
Lemma no_queue_waiting s : inv s → has_queue depth = false → waiting (pool s) = 0.
Proof.
  intros I H. unfold has_queue in H. rewrite (inv_waiting _ _ _ I).
  apply zsum_zero. intros l (c & Hc)%list_elem_of_lookup. apply zsum_zero. intros j Hj.
  destruct (inv_lines _ _ _ I c l j Hc Hj) as (p & tok & T & L).
  apply (line_class_queued _ _ tok) in L as [Q _].
  pose proof (zsum_ge queued _ _ _ queued_nonneg T). pose proof (inv_queued _ _ _ I). lia.
Qed.

Lemma waiting_zero_not_stuck s : inv s → waiting (pool s) = 0 → ¬ stuck s.
Proof.
  intros I W (j & c & tok & _ & L). pose proof (lsum_one_le j (lines (pool s))).
  rewrite (inv_waiting _ _ _ I) in W. lia.
Qed.

(** A goroutine whose waiter is in no line. *)
Lemma not_in_line s i p tok :
  inv s → threads s !! i = Some (p, tok) → line_class p = None → lsum (one i) (lines (pool s)) = 0.
Proof.
  intros I T N. apply lsum_one_zero. intros c l Hc Hin.
  destruct (inv_lines _ _ _ I c l i Hc Hin) as (p' & tok' & T' & L). simplify_eq.
Qed.

(** A step that moves one goroutine, and perhaps a waiter in or out of a line. *)
Lemma inv_move s i p tok p' tok' P :
  inv s → threads s !! i = Some (p, tok) →
  sem P = sem (pool s) + owns (p', tok') - owns (p, tok) → sem P <= capacity →
  admitted P + uncounted (p', tok') - uncounted (p, tok) =
    admitted (pool s) + owns (p', tok') - owns (p, tok) →
  reserved P = reserved (pool s) + reserving (p', tok') - reserving (p, tok) →
  (queued (p', tok') <= queued (p, tok) ∨ reserved P <= depth) →
  (∀ c, pc_class p' = Some c → (c < classCount)%nat) →
  queue_shaped P → waiting P = lsum (λ _, 1) (lines P) →
  (∀ j, lsum (one j) (lines P) + sends j (p', tok') - sends j (p, tok) =
        lsum (one j) (lines (pool s)) +
        (if Nat.eqb i j then expects p' - tokens tok' - expects p + tokens tok else 0)) →
  (∀ c l j, lines P !! c = Some l → j ∈ l →
     if Nat.eqb i j then line_class p' = Some c
     else ∃ l0, lines (pool s) !! c = Some l0 ∧ j ∈ l0) →
  (∀ w k, p' = Sending w k → is_Some (threads s !! w)) →
  (capacity <= sem P ∨ waiting P = 0 ∨
   ((∀ c, p' ≠ Waiting c) ∧ (∀ j, i ≠ j → lsum (one j) (lines P) <= lsum (one j) (lines (pool s))) ∧
    checks (p, tok) - checks (p', tok') <= sem P - sem (pool s))) →
  inv (mkState P (<[i := (p', tok')]> (threads s))).
Proof.
  intros I T ES EP EA ER EQ CL SH EW PL LN SD ID.
  pose proof (lookup_lt_Some _ _ _ T) as Hi.
  split; cbn [pool threads].
  - rewrite (zsum_insert _ _ _ _ _ T), <- (inv_sem _ _ _ I). lia.
  - done.
  - rewrite (zsum_insert _ _ _ _ _ T). pose proof (inv_admitted _ _ _ I). lia.
  - done.
  - rewrite (zsum_insert _ _ _ _ _ T), <- (inv_reserved _ _ _ I). lia.
  - rewrite (zsum_insert _ _ _ _ _ T). pose proof (inv_queued _ _ _ I).
    destruct EQ as [EQ|EQ]; [lia|].
    pose proof (zsum_le queued reserving (<[i:=(p', tok')]> (threads s))) as B.
    rewrite !(zsum_insert _ _ _ _ _ T), <- (inv_reserved _ _ _ I) in B.
    specialize (B (λ x, proj1 (reserving_bounds x))). lia.
  - done.
  - intros j q t c Hj Hc. apply list_lookup_insert_Some in Hj as [(<- & [= <- <-] & _)|[N Hj]]; [eauto|].
    by eapply (inv_class _ _ _ I).
  - intros c l j Hc Hj. pose proof (LN c l j Hc Hj) as L. destruct (Nat.eqb_spec i j) as [<-|N].
    + rewrite list_lookup_insert_eq by done. eauto.
    + rewrite list_lookup_insert_ne by done. destruct L as (l0 & Hl & Hin). by eapply (inv_lines _ _ _ I).
  - intros j w k t Hj.
    assert (is_Some (threads s !! w)) as W.
    { apply list_lookup_insert_Some in Hj as [(<- & E & _)|[N Hj]]; [injection E as E _; by eapply SD|].
      by apply (inv_sends _ _ _ I) in Hj. }
    apply lookup_lt_is_Some. rewrite length_insert. by apply lookup_lt_is_Some.
  - intros j q t Hj. rewrite (zsum_insert _ _ _ _ _ T). specialize (PL j).
    apply list_lookup_insert_Some in Hj as [(<- & [= <- <-] & _)|[N Hj]].
    + rewrite Nat.eqb_refl in PL. pose proof (inv_place _ _ _ I _ _ _ T). lia.
    + destruct (Nat.eqb_spec i j); [done|]. pose proof (inv_place _ _ _ I _ _ _ Hj). lia.
  - intros (j & c & t & Hj & Hin). simpl in Hj, Hin. rewrite (zsum_insert _ _ _ _ _ T).
    assert (0 <= zsum checks (<[i:=(p', tok')]> (threads s))) as C0.
    { apply zsum_nonneg. intros x. unfold checks. case_match; lia. }
    rewrite (zsum_insert _ _ _ _ _ T) in C0. pose proof (lsum_one_le j (lines P)).
    destruct ID as [ID|[ID|(NW & LE & ID)]]; [lia|lia|].
    assert (stuck s) as St.
    { apply list_lookup_insert_Some in Hj as [(<- & E & _)|[N Hj]]; [injection E as E _; by destruct (NW c)|].
      exists j, c, t. specialize (LE j N). split; [done|lia]. }
    apply (inv_idle _ _ _ I) in St. lia.
Qed.

(** A step that leaves the lines alone. *)
Lemma inv_local s i p tok p' tok' P :
  inv s → threads s !! i = Some (p, tok) →
  lines P = lines (pool s) → credit P = credit (pool s) → waiting P = waiting (pool s) →
  sem P = sem (pool s) + owns (p', tok') - owns (p, tok) → sem P <= capacity →
  admitted P + uncounted (p', tok') - uncounted (p, tok) =
    admitted (pool s) + owns (p', tok') - owns (p, tok) →
  reserved P = reserved (pool s) + reserving (p', tok') - reserving (p, tok) →
  (queued (p', tok') <= queued (p, tok) ∨ reserved P <= depth) →
  (∀ c, pc_class p' = Some c → (c < classCount)%nat) →
  (line_class p' = line_class p ∨ lsum (one i) (lines (pool s)) = 0) →
  (∀ w, sends w (p', tok') = 0) → (∀ w, sends w (p, tok) = 0) →
  expects p' - tokens tok' = expects p - tokens tok →
  (capacity <= sem P ∨ waiting (pool s) = 0 ∨
   ((∀ c, p' ≠ Waiting c) ∧ checks (p, tok) - checks (p', tok') <= sem P - sem (pool s))) →
  inv (mkState P (<[i := (p', tok')]> (threads s))).
Proof.
  intros I T EL EC EW ES EP EA ER EQ CL LC NS' NS EX ID.
  apply (inv_move s i p tok p' tok' P); try done.
  - destruct (inv_shape _ _ _ I). split; congruence.
  - rewrite EW, EL. apply I.
  - intros j. rewrite EL, NS, NS'. destruct (Nat.eqb i j); lia.
  - intros c l j Hc Hj. rewrite EL in Hc. destruct (Nat.eqb_spec i j) as [<-|N]; [|by exists l].
    destruct (inv_lines _ _ _ I c l i Hc Hj) as (q & t & Tj & L). simplify_eq.
    destruct LC as [->|LC]; [done|]. exfalso. apply list_elem_of_lookup in Hj as [n Hn].
    pose proof (zsum_ge (one i) l n i (one_nonneg i) Hn) as G. unfold one at 1 in G.
    rewrite Nat.eqb_refl in G.
    pose proof (zsum_ge (zsum (one i)) _ c l (λ l, zsum_nonneg _ l (one_nonneg i)) Hc). unfold lsum in LC. lia.
  - intros w k ->. specialize (NS' w). unfold sends, one in NS'. simpl in NS'. by rewrite Nat.eqb_refl in NS'.
  - rewrite EW, EL. destruct ID as [ID|[ID|[ID1 ID2]]]; auto. right. right. split; [done|]. split; [|done]. lia.
Qed.

(** A waiter joins the line of its class. *)
Lemma inv_join s i c tok :
  inv s → threads s !! i = Some (Joining c, tok) →
  inv (mkState (join (pool s) c i) (<[i := (Joined c, false)]> (threads s))).
Proof.
  intros I T. pose proof (inv_class _ _ _ I _ _ _ c T eq_refl) as Hc.
  pose proof (inv_place _ _ _ I _ _ _ T) as PL. simpl in PL.
  pose proof (not_in_line s i _ _ I T eq_refl) as Z0.
  assert (0 <= zsum (sends i) (threads s)) as S0 by apply zsum_nonneg, sends_nonneg.
  assert (tok = false) as -> by (destruct tok; simpl in PL; [lia|done]).
  destruct (inv_shape _ _ _ I) as [L1 L2].
  assert (is_Some (lines (pool s) !! c)) as [l Hl] by (apply lookup_lt_is_Some; by rewrite L1).
  assert (LS : ∀ f, lsum f (lines (join (pool s) c i)) = lsum f (lines (pool s)) + f i).
  { intros f. unfold lsum, join. simpl. rewrite (zsum_alter _ _ _ _ _ Hl), zsum_app. simpl. lia. }
  pose proof (inv_cap _ _ _ I).
  apply (inv_move s i (Joining c) false (Joined c) false); unfold owns, uncounted, reserving, queued;
    cbn [fst snd]; try done; try (simpl; lia).
  - intros c' [= <-]. done.
  - split; [|done]. simpl. by rewrite length_alter.
  - rewrite LS, <- (inv_waiting _ _ _ I). done.
  - intros j. rewrite LS. unfold sends, one, expects. simpl. destruct (Nat.eqb i j); lia.
  - intros c' l' j Hl' Hj. destruct (decide (c = c')) as [<-|N].
    + simpl in Hl'. rewrite list_lookup_alter_eq, Hl in Hl'. simplify_eq/=.
      apply elem_of_app in Hj as [Hj|Hj%list_elem_of_singleton].
      * destruct (Nat.eqb_spec i j) as [<-|N]; [done|]. by exists l.
      * subst j. by rewrite Nat.eqb_refl.
    + simpl in Hl'. rewrite list_lookup_alter_ne in Hl' by done. destruct (Nat.eqb_spec i j) as [<-|N']; [|by exists l'].
      destruct (inv_lines _ _ _ I c' l' i Hl' Hj) as (q & t & Tj & L). simplify_eq.
  - right. right. split; [done|]. split; [|unfold checks; simpl; lia]. intros j N. rewrite LS. unfold one.
    destruct (Nat.eqb_spec i j); [done|lia].
Qed.

(** Taking one occurrence of a waiter out of a line. *)
Lemma lsum_insert ls c l rest w f :
  ls !! c = Some l → zsum f rest = zsum f l - f w → lsum f (<[c := rest]> ls) = lsum f ls - f w.
Proof. intros Hl R. unfold lsum. rewrite (zsum_insert _ _ _ _ _ Hl). lia. Qed.

(** A waiter leaves its line; [p'] is where its goroutine goes on. *)
Lemma inv_withdraw s i c p p' P :
  inv s → threads s !! i = Some (p, false) → p = Withdrawing c ∧ p' = Settling ∨ p = Expiring c ∧ p' = Queued →
  withdraw (pool s) c i = Some P →
  inv (mkState P (<[i := (p', false)]> (threads s))).
Proof.
  intros I T PP (l & rest & Hl & D & EL & EW & (S1 & S2 & S3) & SH)%withdraw_Some; [|apply I].
  destruct (delete_first_Some _ _ _ D) as [R M].
  assert (LS : ∀ f, lsum f (lines P) = lsum f (lines (pool s)) - f i).
  { intros f. rewrite EL. by eapply lsum_insert. }
  pose proof (inv_place _ _ _ I _ _ _ T) as PL.
  assert (0 <= zsum (sends i) (threads s)) as S0 by apply zsum_nonneg, sends_nonneg.
  assert (Z0 : lsum (one i) (lines P) = 0).
  { pose proof (lsum_one_le i (lines P)). pose proof (LS (one i)) as LSi. unfold one at 3 in LSi.
    rewrite Nat.eqb_refl in LSi. destruct PP as [[-> ->]|[-> ->]]; simpl in PL; lia. }
  pose proof (inv_cap _ _ _ I).
  apply (inv_move s i p false p' false); [done|done|..].
  - destruct PP as [[-> ->]|[-> ->]]; unfold owns; simpl; lia.
  - lia.
  - destruct PP as [[-> ->]|[-> ->]]; unfold owns, uncounted; simpl; lia.
  - destruct PP as [[-> ->]|[-> ->]]; unfold reserving, queued; simpl; lia.
  - left. by destruct PP as [[-> ->]|[-> ->]].
  - by destruct PP as [[-> ->]|[-> ->]].
  - done.
  - rewrite EW, LS, (inv_waiting _ _ _ I). done.
  - intros j. rewrite LS. unfold sends, one.
    destruct PP as [[-> ->]|[-> ->]]; simpl; destruct (Nat.eqb i j); unfold expects; simpl; lia.
  - intros c' l' j Hl' Hj. destruct (Nat.eqb_spec i j) as [<-|N].
    + exfalso. apply list_elem_of_lookup in Hj as [n Hn].
      pose proof (zsum_ge (one i) l' n i (one_nonneg i) Hn) as G. unfold one at 1 in G.
      rewrite Nat.eqb_refl in G.
      pose proof (zsum_ge (zsum (one i)) _ c' l' (λ l, zsum_nonneg _ l (one_nonneg i)) Hl'). unfold lsum in Z0. lia.
    + rewrite EL in Hl'. apply list_lookup_insert_Some in Hl' as [(<- & <- & _)|[_ Hl']]; eauto.
  - by destruct PP as [[-> ->]|[-> ->]].
  - right. right. split; [by destruct PP as [[-> ->]|[-> ->]]|]. split; [|destruct PP as [[-> ->]|[-> ->]]; unfold checks; simpl; lia].
    intros j N. rewrite LS. pose proof (one_nonneg j i). lia.
Qed.

(** A released slot is taken for the next waiter. *)
Lemma inv_handoff s i k tok P w :
  inv s → threads s !! i = Some (Handing k, tok) → handoff (pool s) = (P, Some w) →
  inv (mkState P (<[i := (Sending w k, tok)]> (threads s))).
Proof.
  intros I T (c & rest & Hl & EL & EW & (S1 & S2 & S3) & SH)%handoff_Some; [|apply I].
  assert (LS : ∀ f, lsum f (lines P) = lsum f (lines (pool s)) - f w).
  { intros f. rewrite EL. eapply lsum_insert; [done|]. simpl. lia. }
  assert (Hw : w ∈ w :: rest) by left.
  destruct (inv_lines _ _ _ I c _ w Hl Hw) as (pw & tw & Tw & Lw).
  pose proof (inv_cap _ _ _ I).
  apply (inv_move s i (Handing k) tok (Sending w k) tok);
    unfold owns, uncounted, reserving, queued; cbn [fst snd]; try done; try (simpl; lia).
  - rewrite EW, LS, (inv_waiting _ _ _ I). done.
  - intros j. rewrite LS. unfold sends, one, expects. simpl. destruct (Nat.eqb w j), (Nat.eqb i j); lia.
  - intros c' l' j Hl' Hj. rewrite EL in Hl'.
    assert (∃ l0, lines (pool s) !! c' = Some l0 ∧ j ∈ l0) as (l0 & Hl0 & Hj0).
    { apply list_lookup_insert_Some in Hl' as [(<- & <- & _)|[_ Hl']]; [|eauto].
      exists (w :: rest). split; [done|by right]. }
    destruct (Nat.eqb_spec i j) as [<-|N]; [|eauto].
    destruct (inv_lines _ _ _ I c' l0 i Hl0 Hj0) as (q & t & Tj & L). simplify_eq.
  - intros w' k' [= <- <-]. eauto.
  - right. right. split; [done|]. split; [|unfold checks; simpl; lia].
    intros j N. rewrite LS. pose proof (one_nonneg j w). lia.
Qed.

(** The slot arrives in the waiter's channel. *)
Lemma inv_send s i w k tok :
  inv s → threads s !! i = Some (Sending w k, tok) →
  inv (mkState (pool s) (alter (λ t : thread, (t.1, true)) w (<[i := (resume k, tok)]> (threads s)))).
Proof.
  intros I T. destruct (inv_sends _ _ _ I _ _ _ _ T) as [[pw tw] Tw].
  pose proof (inv_place _ _ _ I _ _ _ T) as Pi. pose proof (inv_place _ _ _ I _ _ _ Tw) as Pw.
  pose proof (zsum_ge (sends w) _ _ _ (sends_nonneg w) T) as G1.
  assert (sends w (Sending w k, tok) = 1) as E1 by (unfold sends, one; simpl; by rewrite Nat.eqb_refl).
  pose proof (lsum_one_le w (lines (pool s))). pose proof (lsum_one_le i (lines (pool s))).
  assert (0 <= zsum (sends i) (threads s)) by apply zsum_nonneg, sends_nonneg.
  assert (N : i ≠ w) by (intros ->; simplify_eq; unfold expects in Pi; simpl in Pi; destruct tok; simpl in Pi; lia).
  assert (tw = false) as -> by (destruct tw; [|done]; simpl in Pw; unfold expects in Pw; repeat case_match; lia).
  set (ts := <[i := (resume k, tok)]> (threads s)).
  assert (Tw' : ts !! w = Some (pw, false)) by (unfold ts; by rewrite list_lookup_insert_ne).
  assert (SUM : ∀ f : thread → Z, zsum f (alter (λ t : thread, (t.1, true)) w ts) =
     zsum f (threads s) - f (Sending w k, tok) + f (resume k, tok) - f (pw, false) + f (pw, true)).
  { intros f. rewrite (zsum_alter f _ ts w _ Tw'). unfold ts. rewrite (zsum_insert f _ _ _ _ T). simpl. lia. }
  assert (LK : ∀ j q t, alter (λ t : thread, (t.1, true)) w ts !! j = Some (q, t) →
     j = w ∧ q = pw ∧ t = true ∨ j = i ∧ q = resume k ∧ t = tok ∨ threads s !! j = Some (q, t) ∧ j ≠ i ∧ j ≠ w).
  { intros j q t Hj. destruct (decide (w = j)) as [<-|Nj].
    - rewrite list_lookup_alter_eq, Tw' in Hj. simplify_eq/=. auto.
    - rewrite list_lookup_alter_ne in Hj by done. unfold ts in Hj.
      apply list_lookup_insert_Some in Hj as [(<- & E & _)|[Ni Hj]]; [simplify_eq; auto|].
      right. right. auto. }
  pose proof (inv_cap _ _ _ I). pose proof (inv_admitted _ _ _ I). pose proof (inv_queued _ _ _ I).
  split; cbn [pool threads]; [..|apply I| | | | |].
  - rewrite SUM, (inv_sem _ _ _ I).
    assert (owns (pw, true) = owns (pw, false) + 1) as -> by (unfold owns; simpl; lia).
    assert (owns (Sending w k, tok) = owns (resume k, tok) + 1) as -> by (unfold owns; destruct k; simpl; lia). lia.
  - done.
  - rewrite SUM. assert (uncounted (pw, true) = uncounted (pw, false)) as -> by done.
    assert (uncounted (Sending w k, tok) = uncounted (resume k, tok)) as -> by (by destruct k). lia.
  - apply I.
  - rewrite SUM, (inv_reserved _ _ _ I). assert (reserving (pw, true) = reserving (pw, false)) as -> by done.
    assert (reserving (Sending w k, tok) = reserving (resume k, tok)) as -> by (by destruct k). lia.
  - rewrite SUM. assert (queued (pw, true) = queued (pw, false)) as -> by done.
    assert (queued (resume k, tok) = queued (Sending w k, tok)) as -> by (by destruct k). lia.
  - intros j q t c [(-> & -> & ->)|[(-> & -> & ->)|(Hj & _ & _)]]%LK Hc.
    + by eapply (inv_class _ _ _ I).
    + by destruct k.
    + by eapply (inv_class _ _ _ I).
  - intros c l j Hc Hj. destruct (inv_lines _ _ _ I c l j Hc Hj) as (q & t & Tj & L).
    destruct (decide (w = j)) as [<-|Nj].
    + simplify_eq. eexists _, true. rewrite list_lookup_alter_eq, Tw'. done.
    + exists q, t. rewrite list_lookup_alter_ne by done. unfold ts. rewrite list_lookup_insert_ne; [done|].
      intros <-. simplify_eq.
  - intros j w' k' t Hj. apply lookup_lt_is_Some. rewrite length_alter. unfold ts. rewrite length_insert.
    apply lookup_lt_is_Some. apply LK in Hj as [(-> & <- & ->)|[(-> & E & ->)|(Hj & _ & _)]].
    + by eapply (inv_sends _ _ _ I).
    + by destruct k.
    + by eapply (inv_sends _ _ _ I).
  - intros j q t Hj. rewrite SUM.
    assert (sends j (resume k, tok) = 0) as -> by (by destruct k).
    assert (sends j (pw, true) = sends j (pw, false)) as -> by done.
    assert (sends j (Sending w k, tok) = one j w) as -> by done. unfold one at 2.
    apply LK in Hj as [(-> & -> & ->)|[(-> & -> & ->)|(Hj & Ni & Nw)]].
    + rewrite Nat.eqb_refl. simpl. simpl in Pw. lia.
    + destruct (Nat.eqb_spec w i); [done|]. assert (expects (resume k) = 0) as -> by (by destruct k).
      unfold expects in Pi. simpl in Pi. lia.
    + destruct (Nat.eqb_spec w j); [done|]. pose proof (inv_place _ _ _ I _ _ _ Hj). lia.
  - intros (j & c & t & Hj & Hin). simpl in Hj, Hin. rewrite SUM.
    assert (stuck s) as St%(inv_idle _ _ _ I).
    { apply LK in Hj as [(-> & <- & ->)|[(-> & E & ->)|(Hj & _ & _)]]; [by exists w, c, false|by destruct k|].
      by exists j, c, t. }
    assert (checks (resume k, tok) = 0) as -> by (by destruct k).
    assert (checks (pw, true) = checks (pw, false)) as -> by done.
    assert (checks (Sending w k, tok) = 0) as -> by done. lia.
Qed.

Lemma await_class_lt class : (await_class class < classCount)%nat.
Proof.
  unfold await_class, classCount, ClassNormal. destruct ((class <? 0) || _) eqn:E; [lia|].
  apply orb_false_iff in E as [E1 E2]. rewrite Z.geb_leb in E2. bool_to_prop. simpl in *. lia.
Qed.

Lemma tryAcquire_Some P P' :
  tryAcquire capacity P = Some P' → P' = with_sem P (sem P + 1) ∧ sem P + 1 <= capacity.
Proof. unfold tryAcquire. destruct (Z.ltb_spec (sem P) capacity); intros [= <-]. split; [done|lia]. Qed.

Lemma tryAcquire_None P : tryAcquire capacity P = None → capacity <= sem P.
Proof. unfold tryAcquire. destruct (Z.ltb_spec (sem P) capacity); done. Qed.

(** A waiter whose channel holds a slot, or whose withdrawal fails, is in no line. *)
Lemma granted_no_line s i p :
  inv s → threads s !! i = Some (p, true) → lsum (one i) (lines (pool s)) = 0.
Proof.
  intros I T. pose proof (inv_place _ _ _ I _ _ _ T) as PL. simpl in PL.
  pose proof (lsum_one_le i (lines (pool s))).
  assert (0 <= zsum (sends i) (threads s)) by apply zsum_nonneg, sends_nonneg.
  assert (expects p <= 1) by (unfold expects; repeat case_match; lia). lia.
Qed.

Lemma withdraw_None_no_line s i p c tok :
  inv s → threads s !! i = Some (p, tok) → line_class p = Some c →
  withdraw (pool s) c i = None → lsum (one i) (lines (pool s)) = 0.
Proof.
  intros I T L W. apply lsum_one_zero. intros c' l Hl Hin.
  destruct (inv_lines _ _ _ I c' l i Hl Hin) as (p' & tok' & T' & L'). simplify_eq.
  by apply (withdraw_None _ _ _ _ Hl W).
Qed.

Lemma withdraw_Some_waits s i p c tok P :
  inv s → threads s !! i = Some (p, tok) → withdraw (pool s) c i = Some P → tok = false.
Proof.
  intros I T W. destruct tok; [|done]. exfalso. pose proof (granted_no_line s i p I T) as Z0.
  apply withdraw_Some in W as (l & rest & Hl & D & _); [|apply I].
  destruct (delete_first_Some _ _ _ D) as [R _]. specialize (R (one i)).
  assert (one i i = 1) as E by (unfold one; by rewrite Nat.eqb_refl). rewrite E in R.
  pose proof (zsum_nonneg (one i) rest (one_nonneg i)).
  pose proof (zsum_ge (zsum (one i)) _ c l (λ l, zsum_nonneg _ l (one_nonneg i)) Hl). unfold lsum in Z0. lia.
Qed.

Ltac settle :=
  unfold owns, uncounted, reserving, queued, sends, checks, expects; simpl;
  try match goal with k : after |- _ => destruct k; simpl end;
  first [done | lia | by left | by right | (left; lia) | (by intros; simplify_eq) | (right; right; split; [done|lia]) | idtac].

(** The side conditions of [inv_local], where they are arithmetic. *)
Ltac move_local :=
  eapply inv_local; [eassumption|eassumption|settle..].

Lemma inv_step s i a s' : inv s → step capacity depth i a s = Some s' → inv s'.
Proof.
  intros I E. unfold step in E. destruct (threads s !! i) as [[p tok]|] eqn:T; [|done].
  destruct (run capacity depth (pool s) i p tok a) as [[[P p'] tok']|] eqn:R; [|done].
  injection E as <-. pose proof (inv_cap _ _ _ I) as CAP.
  destruct p, a; simpl in R; try done.
  - destruct (tryAcquire capacity (pool s)) as [Q|] eqn:A; simplify_eq; simpl; [|by move_local].
    apply tryAcquire_Some in A as [-> A]. by move_local.
  - destruct (tryAcquire capacity (pool s)) as [Q|] eqn:A; simplify_eq; simpl.
    + apply tryAcquire_Some in A as [-> A]. by move_local.
    + destruct (has_queue depth); by move_local.
  - injection R as <- <- <-. simpl. destruct (Z.leb_spec (reserved (pool s) + 1) depth); by move_local.
  - simplify_eq. simpl. by move_local.
  - simplify_eq. simpl. by move_local.
  - simplify_eq. simpl. move_local. intros c [= <-]. apply await_class_lt.
  - simplify_eq. simpl. by move_local.
  - simplify_eq. simpl. by move_local.
  - simplify_eq. simpl. by move_local.
  - pose proof (inv_class _ _ _ I _ _ _ _ T eq_refl).
    destruct (tryAcquire capacity (pool s)) as [Q|] eqn:A; simplify_eq; simpl; [|by move_local].
    apply tryAcquire_Some in A as [-> A]. by move_local.
  - simplify_eq. simpl. by eapply inv_join.
  - pose proof (inv_class _ _ _ I _ _ _ _ T eq_refl).
    destruct (tryAcquire capacity (pool s)) as [Q|] eqn:A; simplify_eq; simpl.
    + apply tryAcquire_Some in A as [-> A]. by move_local.
    + apply tryAcquire_None in A. by move_local.
  - destruct (withdraw (pool s) class i) as [Q|] eqn:W; simplify_eq; simpl.
    + pose proof (withdraw_Some_waits s i _ _ _ _ I T W) as ->. eapply inv_withdraw; eauto.
    + pose proof (withdraw_None_no_line s i _ _ _ I T eq_refl W). by move_local.
  - destruct tok; simplify_eq. simpl. by move_local.
  - destruct tok; simplify_eq. simpl. pose proof (granted_no_line s i _ I T). by move_local.
  - simplify_eq. simpl. pose proof (inv_class _ _ _ I _ _ _ _ T eq_refl). by move_local.
  - destruct (withdraw (pool s) class i) as [Q|] eqn:W; simplify_eq; simpl.
    + pose proof (withdraw_Some_waits s i _ _ _ _ I T W) as ->. eapply inv_withdraw; eauto.
    + pose proof (withdraw_None_no_line s i _ _ _ I T eq_refl W). by move_local.
  - destruct tok; simplify_eq. simpl. by move_local.
  - simplify_eq. simpl. by move_local.
  - simplify_eq. simpl. destruct (has_queue depth && _); by move_local.
  - destruct (handoff (pool s)) as [Q [w|]] eqn:H; simplify_eq; simpl.
    + by eapply inv_handoff.
    + apply handoff_None in H as [-> _]; [|apply I]. by move_local.
  - injection R as <- <- <-. by apply inv_send.
  - simplify_eq. simpl. by move_local.
  - simplify_eq. simpl. by move_local.
  - injection R as <- <- <-. simpl. destruct (negb (has_queue depth) || _) eqn:Q; [|by move_local].
    assert (waiting (pool s) = 0).
    { apply orb_true_iff in Q as [Q|Q]; [|lia]. apply (no_queue_waiting s I). by apply negb_true_iff. }
    by move_local.
  - destruct (tryAcquire capacity (pool s)) as [Q|] eqn:A; simplify_eq; simpl.
    + apply tryAcquire_Some in A as [-> A]. by move_local.
    + apply tryAcquire_None in A. by move_local.
  - injection R as <- <- <-. simpl. destruct k as [| |c|k']; move_local.
    intros c' [= <-]. by apply (inv_class _ _ _ I _ _ _ c T).
Qed.

Lemma inv_spawn s p :
  inv s → p = Entering ∨ p = Acquiring → inv (mkState (pool s) (threads s ++ [(p, false)])).
Proof.
  intros I PP. assert (Z0 : ∀ f, f (p, false) = 0 → zsum f (threads s ++ [(p, false)]) = zsum f (threads s)).
  { intros f F. rewrite zsum_app. simpl. lia. }
  assert (LK : ∀ j q t, (threads s ++ [(p, false)]) !! j = Some (q, t) →
    threads s !! j = Some (q, t) ∨ j = length (threads s) ∧ q = p ∧ t = false).
  { intros j q t [Hj|[Hl Hj]]%lookup_app_Some; [auto|]. right.
    apply list_lookup_singleton_Some in Hj as [Hj [= <- <-]]. split; [lia|done]. }
  assert (KL : ∀ j x, threads s !! j = Some x → (threads s ++ [(p, false)]) !! j = Some x).
  { intros j x Hj. by apply lookup_app_l_Some. }
  split; cbn [pool threads]; try apply I.
  - rewrite Z0; [apply I|by destruct PP as [-> | ->]].
  - rewrite Z0; [apply I|by destruct PP as [-> | ->]].
  - rewrite Z0; [apply I|by destruct PP as [-> | ->]].
  - rewrite Z0; [apply I|by destruct PP as [-> | ->]].
  - intros j q t c [Hj|(_ & -> & _)]%LK Hc; [by eapply (inv_class _ _ _ I)|by destruct PP as [-> | ->]].
  - intros c l j Hc Hj. destruct (inv_lines _ _ _ I c l j Hc Hj) as (q & t & Tj & L). eauto.
  - intros j w k t [Hj|(_ & <- & _)]%LK; [|by destruct PP].
    apply (inv_sends _ _ _ I) in Hj as [x Hx]. eauto.
  - intros j q t Hj. rewrite Z0 by (by destruct PP as [-> | ->]).
    apply LK in Hj as [Hj|(-> & -> & ->)]; [by apply (inv_place _ _ _ I)|].
    assert (lsum (one (length (threads s))) (lines (pool s)) = 0) as ->.
    { apply lsum_one_zero. intros c l Hl Hin. destruct (inv_lines _ _ _ I c l _ Hl Hin) as (q & t & Tj & _).
      apply lookup_lt_Some in Tj. lia. }
    assert (zsum (sends (length (threads s))) (threads s) = 0) as ->; [|by destruct PP as [-> | ->]].
    apply zsum_zero. intros [q t] (j & Hj)%list_elem_of_lookup. unfold sends, one. simpl. destruct q; try done.
    destruct (Nat.eqb_spec w (length (threads s))) as [->|]; [|done].
    apply (inv_sends _ _ _ I) in Hj as [x Hx]. apply lookup_lt_Some in Hx. lia.
  - intros (j & c & t & Hj & Hin). simpl in Hj, Hin. rewrite Z0 by (by destruct PP as [-> | ->]).
    apply (inv_idle _ _ _ I). apply LK in Hj as [Hj|(_ & <- & _)]; [by exists j, c, t|by destruct PP].
Qed.

Lemma inv_reachable s : 0 <= capacity → reachable capacity depth s → inv s.
Proof.
  intros C. induction 1 as [|s R IH|s R IH|s i a s' R IH E].
  - split; simpl; try done; try lia.
    + intros c l j Hc Hj. destruct c as [|[|[|[|c]]]]; simplify_eq/=; by apply elem_of_nil in Hj.
    + intros (j & c & t & Hj & _). done.
  - apply inv_spawn; auto.
  - apply inv_spawn; auto.
  - by eapply inv_step.
Qed.
End Invariant.

(** ** Capacity and wake-ups *)

Definition holds (t : thread) : Z := match t.1 with Held => 1 | _ => 0 end.

(** The permits that hold a position of the queue. *)
Definition holds_position (t : thread) : Z := queued t.

(** C5. Admission never exceeds its bounds, whatever the interleaving of requests:
    the permits held at once are at most the slots taken, which are at most the
    capacity; the gauge of admitted requests never overstates the slots taken; the
    requests held in the queue are at most its depth; the count of waiters is the
    length of the lines together and no waiter is in two lines or in one twice. *)
Theorem admission_bounded (capacity depth : Z) (s : state) :
  0 <= capacity → reachable capacity depth s →
  zsum holds (threads s) <= sem (pool s) <= capacity ∧
  admitted (pool s) <= sem (pool s) ∧
  zsum holds_position (threads s) <= Z.max depth 0 ∧
  waiting (pool s) = Z.of_nat (length (concat (lines (pool s)))) ∧
  NoDup (concat (lines (pool s))).
Proof.
  intros C R. pose proof (inv_reachable _ _ _ C R) as I. split; [|split; [|split; [|split]]].
  - split; [|apply I]. rewrite (inv_sem _ _ _ I). apply zsum_le. intros t.
    pose proof (owns_nonneg t). destruct t as [[] []]; unfold holds, owns in *; simpl in *; lia.
  - pose proof (inv_admitted _ _ _ I).
    assert (0 <= zsum uncounted (threads s)); [|lia]. apply zsum_nonneg. intros x. unfold uncounted. case_match; lia.
  - apply I.
  - rewrite (inv_waiting _ _ _ I). apply lsum_length.
  - apply lsum_NoDup. intros j. destruct (threads s !! j) as [[p tok]|] eqn:T.
    + pose proof (inv_place _ _ _ I _ _ _ T). assert (expects p <= 1) by (unfold expects; repeat case_match; lia).
      assert (0 <= zsum (sends j) (threads s)) by apply zsum_nonneg, sends_nonneg. destruct tok; simpl in *; lia.
    + rewrite lsum_one_zero; [lia|]. intros c l Hl Hin.
      destruct (inv_lines _ _ _ I c l j Hl Hin) as (p & tok & T' & _). congruence.
Qed.

(** A goroutine with nothing to do until the environment or another goroutine acts. *)
Definition blocked (t : thread) : bool :=
  match t with
  | (Refused, _) | (Queued, _) | (Gone, _) | (Held, _)
  | (Waiting _, false) | (Doubled, false) | (Collecting, false) => true
  | _ => false
  end.

(** A goroutine between calls, or in the line. *)
Definition resting (t : thread) : bool :=
  match t with
  | (Refused, false) | (Queued, false) | (Gone, false) | (Held, false) | (Waiting _, false) => true
  | _ => false
  end.

Lemma run_blocked capacity depth p i t : blocked t = false → run capacity depth p i t.1 t.2 Go ≠ None.
Proof. destruct t as [[] []]; simpl; try done; intros _; repeat case_match; done. Qed.

Lemma zsum_pos {A} (f : A → Z) l : 0 < zsum f l → ∃ i x, l !! i = Some x ∧ 0 < f x.
Proof.
  induction l as [|y l IH]; simpl; [lia|]. intros H. destruct (decide (0 < f y)).
  - by exists 0%nat, y.
  - destruct IH as (i & x & Hi & Hx); [lia|]. by exists (S i), x.
Qed.

(** A goroutine that waits for a slot already taken for it has a sender. *)
Lemma blocked_resting capacity depth s :
  pool_inv capacity depth s → forallb blocked (threads s) = true → forallb resting (threads s) = true.
Proof.
  intros I B. rewrite forallb_forall in B |- *. intros [p tok] Hin. pose proof (B _ Hin) as Bt.
  apply list_elem_of_In, list_elem_of_lookup in Hin as [i Hi].
  assert (N : expects p = 1 → line_class p = None → tok = false → False).
  { intros E L ->. pose proof (inv_place _ _ _ I _ _ _ Hi) as PL.
    rewrite (not_in_line _ _ s i _ _ I Hi L), E in PL. simpl in PL.
    destruct (zsum_pos (sends i) (threads s)) as (j & [q t] & Hj & Sj); [lia|].
    destruct q; unfold sends in Sj; simpl in Sj; try lia.
    apply list_elem_of_lookup_2, list_elem_of_In in Hj. by specialize (B _ Hj). }
  assert (M : expects p = 0 → tok = true → False).
  { intros E ->. pose proof (inv_place _ _ _ I _ _ _ Hi) as PL. rewrite E in PL. simpl in PL.
    pose proof (lsum_one_le i (lines (pool s))).
    assert (0 <= zsum (sends i) (threads s)) by apply zsum_nonneg, sends_nonneg. lia. }
  destruct p, tok; try done; first [by destruct N | by destruct M].
Qed.

Lemma find_index s :
  (∃ i t, threads s !! i = Some t ∧ blocked t = false) ∨ ∀ t, In t (threads s) → blocked t = true.
Proof.
  destruct (forallb blocked (threads s)) eqn:B; [right; by rewrite forallb_forall in B|left].
  induction (threads s) as [|t l IH]; [done|]. simpl in B. apply andb_false_iff in B as [B|B].
  - by exists 0%nat, t.
  - destruct (IH B) as (i & x & Hi & Hx). by exists (S i), x.
Qed.

(** C6. No slot is left idle while a request waits for one. In every state the pool
    can reach, either some goroutine can run on, or all of them rest and then, if
    any request waits in a line, every slot of the pool is held by a request: a
    release that races with a waiter joining its line, a waiter that times out as
    it is handed a slot and one that acquires a slot itself lose no wake-up and no
    slot, and no goroutine waits for a channel that stays empty. *)
Theorem admission_no_idle_slot (capacity depth : Z) (s : state) :
  0 <= capacity → reachable capacity depth s →
  (∃ i s', step capacity depth i Go s = Some s') ∨
  (forallb resting (threads s) = true ∧
   ∀ i c tok, threads s !! i = Some (Waiting c, tok) → zsum holds (threads s) = capacity).
Proof.
  intros C R. pose proof (inv_reachable _ _ _ C R) as I.
  destruct (forallb blocked (threads s)) eqn:B; [right|left].
  - pose proof (blocked_resting _ _ _ I B) as Rs. split; [done|]. intros i c tok T.
    rewrite forallb_forall in Rs.
    assert (Rz : ∀ f : thread → Z, (∀ t, resting t = true → f t = 0) → zsum f (threads s) = 0).
    { intros f F. apply zsum_zero. intros t Ht. apply F, Rs. by apply list_elem_of_In. }
    assert (St : stuck s).
    { exists i, c, tok. split; [done|]. pose proof (inv_place _ _ _ I _ _ _ T) as PL.
      rewrite (Rz (sends i)) in PL by (by intros [[] []]). unfold expects in PL. simpl in PL.
      assert (tok = false) as ->; [|simpl in PL; lia].
      apply list_elem_of_lookup_2, list_elem_of_In in T. specialize (Rs _ T). by destruct tok. }
    pose proof (inv_idle _ _ _ I St) as Id. rewrite (Rz checks) in Id by (by intros [[] []]).
    pose proof (inv_cap _ _ _ I). assert (sem (pool s) = zsum holds (threads s)) as <-; [|lia].
    rewrite (inv_sem _ _ _ I).
    assert (zsum owns (threads s) = zsum (λ t, holds t + (owns t - holds t)) (threads s)) as ->.
    { clear. induction (threads s); simpl; lia. }
    rewrite (zsum_add holds (λ t, owns t - holds t)), (Rz (λ t, owns t - holds t)); [lia|].
    intros [[] []]; done.
  - apply not_true_iff_false in B. rewrite forallb_forall in B.
    assert (∃ i t, threads s !! i = Some t ∧ blocked t = false) as (i & [p tok] & T & Bt).
    { destruct (find_index s) as [H|H]; [done|]. by destruct B. }
    exists i. unfold step. rewrite T. pose proof (run_blocked capacity depth (pool s) i _ Bt) as Rn. simpl in Rn.
    destruct (run capacity depth (pool s) i p tok Go) as [[[P p'] tok']|]; [eauto|done].
Qed.

(** ** Runs *)

Inductive command := SpawnEnter | SpawnAcquire | Run (i : nat) (a : action).

Fixpoint exec (capacity depth : Z) (cs : list command) (s : state) : option state :=
  match cs with
  | [] => Some s
  | SpawnEnter :: cs' => exec capacity depth cs' (mkState (pool s) (threads s ++ [(Entering, false)]))
  | SpawnAcquire :: cs' => exec capacity depth cs' (mkState (pool s) (threads s ++ [(Acquiring, false)]))
  | Run i a :: cs' =>
      match step capacity depth i a s with Some s' => exec capacity depth cs' s' | None => None end
  end.

Lemma exec_reachable capacity depth cs s s' :
  reachable capacity depth s → exec capacity depth cs s = Some s' → reachable capacity depth s'.
Proof.
  revert s. induction cs as [|[| |i a] cs IH]; intros s R E; simplify_eq/=; [done|..].
  - eapply IH; [by apply reach_enter|done].
  - eapply IH; [by apply reach_acquire|done].
  - destruct (step capacity depth i a s) as [s1|] eqn:S; [|done]. eapply IH; [by eapply reach_step|done].
Qed.

(** One slot, held by the first request; the second waits in the high line, having
    joined while the first was releasing, and the third holds the slot now. *)
Definition contended : option state :=
  exec 1 2
    [SpawnEnter; Run 0 Go; Run 0 Go;
     SpawnEnter; Run 1 Go; Run 1 Go; Run 1 (CallAwait 1); Run 1 Go;
     Run 0 CallRelease; Run 0 Go; Run 0 Go; Run 0 Go;
     SpawnAcquire; Run 2 Go; Run 2 Go;
     Run 1 Go; Run 1 Go; Run 0 Go; Run 0 Go]
    (mkState NewPool []).

Lemma admission_bounded_witness :
  match contended with
  | Some s => zsum holds (threads s) <= sem (pool s) <= 1 ∧ waiting (pool s) = 1
  | None => False
  end.
Proof.
  destruct contended as [s|] eqn:E; [|vm_compute in E; done].
  assert (R : reachable 1 2 s) by (eapply exec_reachable; [apply reach_new|exact E]).
  split; [apply (admission_bounded 1 2 s ltac:(lia) R)|].
  assert (Some (waiting (pool s)) = Some 1) as [= ->]; [|done].
  change (Some (waiting (pool s))) with ((λ s, waiting (pool s)) <$> Some s). rewrite <- E.
  vm_compute. reflexivity.
Defined.

Lemma admission_no_idle_slot_witness :
  match contended with
  | Some s => forallb resting (threads s) = true ∧ nth_error (threads s) 1 = Some (Waiting 1, false) ∧
      ((∃ i s', step 1 2 i Go s = Some s') ∨
       (forallb resting (threads s) = true ∧
        ∀ i c tok, threads s !! i = Some (Waiting c, tok) → zsum holds (threads s) = 1))
  | None => False
  end.
Proof.
  destruct contended as [s|] eqn:E; [|vm_compute in E; done].
  assert (R : reachable 1 2 s) by (eapply exec_reachable; [apply reach_new|exact E]).
  assert (F : ∀ (A : Type) (f : state → A) a, f <$> contended = Some a → f s = a)
    by (intros A f a Fa; rewrite E in Fa; by injection Fa).
  split; [apply (F _ (λ s, forallb resting (threads s))); vm_compute; reflexivity|].
  split; [apply (F _ (λ s, nth_error (threads s) 1)); vm_compute; reflexivity|].
  exact (admission_no_idle_slot 1 2 s ltac:(lia) R).
Defined.

(** ** Fairness *)

(** The lines [next] serves while the same lines have waiters. *)
Fixpoint serve (n : nat) (ls : list (list nat)) (cs : list Z) : list nat * list Z :=
  match n with
  | O => ([], cs)
  | S n' =>
      match next ls cs with
      | (cs', Some k) => let '(ks, cs'') := serve n' ls cs' in (k :: ks, cs'')
      | (cs', None) => ([], cs')
      end
  end.

(** The weight of a class among the lines with waiters. *)
Definition share (ls : list (list nat)) (class : nat) : nat :=
  match ls !! class, weights !! class with
  | Some (_ :: _), Some w => Z.to_nat w
  | _, _ => 0%nat
  end.

Definition round (ls : list (list nat)) : nat := (share ls 0 + share ls 1 + share ls 2 + share ls 3)%nat.

Definition served (class : nat) (ks : list nat) : nat := count_occ Nat.eq_dec ks class.

Lemma serve_add n m ls cs :
  (∃ c l, ls !! c = Some l ∧ l ≠ []) → length ls = classCount → length cs = classCount →
  serve (n + m) ls cs =
  ((serve n ls cs).1 ++ (serve m ls (serve n ls cs).2).1, (serve m ls (serve n ls cs).2).2).
Proof.
  intros Ex L1. revert cs. induction n as [|n IH]; intros cs L2; simpl; [by destruct (serve m ls cs)|].
  destruct (next ls cs) as [cs' [k|]] eqn:N.
  - assert (length cs' = classCount).
    { unfold next in N. destruct (next_scan 0 ls cs weights None 0) as [[cs1 b] t] eqn:Sc.
      apply next_scan_spec in Sc as [Sc _]; [|congruence|by rewrite L1].
      destruct b as [[k0 v]|]; simplify_eq. rewrite length_alter. congruence. }
    rewrite IH by done. by destruct (serve n ls cs').
  - exfalso. unfold next in N. destruct (next_scan 0 ls cs weights None 0) as [[cs1 b] t] eqn:Sc.
    apply next_scan_spec in Sc as [_ Sc]; [|congruence|by rewrite L1].
    destruct b as [[k0 v]|]; simplify_eq. destruct Sc as [_ F], Ex as (c & l & Hl & Ne).
    rewrite Forall_forall in F. apply Ne, F. by eapply list_elem_of_lookup_2.
Qed.

(** One round from even credit, by cases on which lines have waiters. *)
Lemma serve_round ls :
  length ls = classCount →
  (serve (round ls) ls [0; 0; 0; 0]).2 = [0; 0; 0; 0] ∧
  ∀ class, (class < classCount)%nat →
    served class (serve (round ls) ls [0; 0; 0; 0]).1 = share ls class.
Proof.
  intros L. unfold classCount in *. destruct ls as [|a [|b [|c [|d [|e l]]]]]; simplify_eq/=.
  destruct a, b, c, d; (split; [vm_compute; reflexivity|]);
    intros [|[|[|[|class]]]] H; (lia || (vm_compute; reflexivity)).
Qed.

(** Released slots are shared in proportion to the weights. While the same lines
    have waiters, from even credit, every round of as many handoffs as the weights
    of those lines together serves each of them exactly its weight, however many
    rounds follow, so no class starves another; and after each round the credit is
    even again. *)
Theorem queue_weighted_fair (ls : list (list nat)) (n : nat) :
  length ls = classCount → (∃ c l, ls !! c = Some l ∧ l ≠ []) →
  (serve (n * round ls) ls [0; 0; 0; 0]).2 = [0; 0; 0; 0] ∧
  ∀ class, (class < classCount)%nat →
    served class (serve (n * round ls) ls [0; 0; 0; 0]).1 = (n * share ls class)%nat.
Proof.
  intros L Ex. destruct (serve_round ls L) as [R1 R2]. induction n as [|n [IH1 IH2]]; [by split|].
  change (S n * round ls)%nat with (round ls + n * round ls)%nat. rewrite serve_add, R1 by done. simpl.
  split; [done|]. intros class Hc. unfold served in *. rewrite count_occ_app, R2, IH2 by done. lia.
Qed.

(** Three critical waiters and one low waiter: nine handoffs a round. *)
Lemma queue_weighted_fair_witness :
  let ls := [[1; 2; 3]; []; []; [4]]%nat in
  round ls = 9%nat ∧ served 0 (serve (2 * round ls) ls [0; 0; 0; 0]).1 = 16%nat ∧
  served 3 (serve (2 * round ls) ls [0; 0; 0; 0]).1 = 2%nat.
Proof.
  intros ls. split; [reflexivity|].
  assert (Ex : ∃ c l, ls !! c = Some l ∧ l ≠ []) by (by exists 0%nat, [1; 2; 3]%nat).
  split; apply (queue_weighted_fair ls 2 eq_refl Ex); unfold classCount; lia.
Defined.
