(* ===== verification/Attempts.v ===== *)
(** * The attempt loop

    [internal/gateway/attempts.go] with the bounds of [internal/gateway/executor.go]:
    the loop that tries the planned attempts of one route, credential slot by
    credential slot, within the request's attempt budget. What the loop asks of the
    rest of the gateway (the snapshot, health, admission, the upstream exchange,
    the clock) is a parameter, [World], whose answers may change from one question
    to the next: every answer is a function of the moment it is asked at. *)

From S2P Require Import Prelude Go Policy Routes Planner.
Local Open Scope Z_scope.
Local Open Scope olp_scope.

(** ** Failures and verdicts *)

(** The fields of a failure the loop decides by. *)
Record attemptFailure := mkFailure {
  F_class : string;
  F_committed : bool;
  F_overall : bool;
  F_dispatched : bool;
  F_quota : string;
  F_retryAfter : Duration;
}.

Definition quotaConnection : string := "connection".
Definition quotaRoute : string := "route".

(** A verdict with what is attached to it. *)
Inductive gateResult :=
  | GateSkip
  | GateDenied
  | GateRejected (rejection : attemptFailure)
  | GateUnmeterable (quota : string)
  | GateExpired
  | GateAdmitted.

Definition failoverAllowed (class : string) (committed : bool) : bool :=
  negb committed &&
  Contains ["connect"; "timeout"; "rate_limit"; "upstream_server"; "credential"; "context_window"] class.

(** The fallback condition a failure class meets. *)
Definition fallbackCondition (class : string) : string :=
  if Contains [FallbackRateLimit; FallbackContextWindow; FallbackContentFilter; FallbackBudget] class
  then class else "".

Definition meet (met : list string) (class : string) : list string :=
  let condition := fallbackCondition class in
  if negb (String.eqb condition "") && negb (Contains met condition) then met ++ [condition] else met.

(** ** The rest of the gateway *)

(** What one dispatch ended with: its failure, if any, and the refusals of the
    request's authority and, for a step of a tool run, of its accounting. *)
Record Dispatched := mkDispatched {
  Disp_failure : option attemptFailure;
  Disp_authority : option string;
  Disp_settlement : option string;
  Disp_abandon : option string;
  Disp_lease : option string;
  Disp_committed : bool;
}.

Record World := mkWorld {
  ctxErr : nat → bool;
  deadlineExceeded : nat → bool;
  providerFound : nat → Attempt → bool;
  circuitOpen : nat → Attempt → bool;
  checkCallerTarget : nat → Attempt → option string;
  attemptSlots : nat → Attempt → list string;
  servingAllowed : nat → Attempt → string → bool → bool;
  gateAttempt : nat → Attempt → string → gateResult;
  workflowAuthority : nat → option string;
  reserveSessionDebit : nat → Attempt → string → option string;
  dispatchWithAuthority : nat → Attempt → string → Dispatched;
  cooldownFailure : nat → Attempt → string → attemptFailure → bool;
  pastDeadline : nat → RetryRule → attemptFailure → bool;
  pauses : nat → bool;
}.

(** The request as the loop sees it; [X_workflow] marks a step of a tool run. *)
Record leg := mkLeg {
  X_attempts : list Attempt;
  X_budget : Z;
  X_retry : gmap string RetryRule;
  X_workflow : bool;
}.

(** ** The loop *)

(** One upstream or locally refused attempt: the fields the loop itself fills in. *)
Record AttemptFact := mkFact {
  Fact_Ordinal : Z;
  Fact_TargetID : string;
  Fact_SlotID : string;
  Fact_Retry : Z;
  Fact_Rejected : bool;
}.

Inductive call_error :=
  | ErrLimitsUnavailable | ErrUpstreamUnavailable | ErrCostLimit
  | ErrFailure (class : string)
  | ErrRefused (code : string).

Record attemptOutcome := mkOutcome { Out_err : option call_error; Out_committed : bool; Out_cancelled : bool }.

Definition fails (e : call_error) : attemptOutcome := mkOutcome (Some e) false false.

Record running := mkRunning {
  spent : Z;
  facts : list AttemptFact;
  tick : nat;
  last_ : option attemptFailure;
  met : list string;
  unmeterable : bool;
}.

Definition ticked (r : running) : running :=
  mkRunning (spent r) (facts r) (S (tick r)) (last_ r) (met r) (unmeterable r).
Definition spend (r : running) (f : AttemptFact) : running :=
  mkRunning (spent r + 1) (facts r ++ [f]) (tick r) (last_ r) (met r) (unmeterable r).
Definition failed (r : running) (f : attemptFailure) : running :=
  mkRunning (spent r) (facts r) (tick r) (Some f) (meet (met r) (F_class f)) (unmeterable r).
Definition unmetered (r : running) : running :=
  mkRunning (spent r) (facts r) (tick r) (last_ r) (met r) true.

(** What a slot's turn leads to: the next slot, the same slot again, the next
    attempt, the end of the route's attempts, or the end of the loop. *)
Inductive flow := NextSlot | SameSlot | NextAttempt | BreakRoute | Return (o : attemptOutcome) (conditions : list string).

Section Loop.
Context (w : World) (x : leg).

(** How long to wait before trying the slot again, here only whether. *)
Definition retryWait (r : running) (a : Attempt) (f : attemptFailure) (retries : Z) : bool :=
  match X_retry x !! F_class f with
  | None => false
  | Some rule =>
      negb ((retries >=? MaxRetries rule) || (spent r >=? X_budget x) || circuitOpen w (tick r) a) &&
      negb (pastDeadline w (tick r) rule f)
  end.

(** After a dispatch: a settled result, a refusal, a failure to report, a retry of
    the slot, or the next candidate. *)
Definition afterDispatch (r : running) (a : Attempt) (slot : string) (retry : Z) (d : Dispatched)
  : running * flow :=
  let refused e := (r, Return (fails (ErrRefused e)) []) in
  match Disp_failure d with
  | None =>
      match (if X_workflow x then Disp_settlement d <|> Disp_lease d else None) <|> Disp_authority d with
      | Some e => refused e
      | None => (r, Return (mkOutcome None (Disp_committed d) false) [])
      end
  | Some f =>
      let report := mkOutcome (Some (ErrFailure (F_class f))) (F_committed f) (String.eqb (F_class f) "cancelled") in
      let stopped := mkOutcome (Some (ErrFailure (F_class f))) false (String.eqb (F_class f) "cancelled") in
      match (if X_workflow x
             then (if F_dispatched f then None else Disp_abandon d) <|> Disp_lease d else None)
            <|> Disp_authority d with
      | Some e => refused e
      | None =>
          if X_workflow x && F_dispatched f then (r, Return stopped [])
          else if F_overall f || negb (failoverAllowed (F_class f) (F_committed f)) then
            (r, Return report (if String.eqb (F_class f) FallbackContentFilter && negb (F_committed f)
                               then [FallbackContentFilter] else []))
          else if retryWait r a f retry then
            (r, if pauses w (tick r) then SameSlot else NextSlot)
          else
            (failed r f, if cooldownFailure w (tick r) a slot f then NextAttempt else NextSlot)
      end
  end.

(** A slot's turn. *)
Definition trySlot (r : running) (a : Attempt) (slot : string) (retry : Z) : running * flow :=
  if negb (servingAllowed w (tick r) a slot false) then (r, NextSlot)
  else
    match gateAttempt w (tick r) a slot with
    | GateSkip => (r, NextSlot)
    | GateExpired => (r, Return (fails (ErrFailure "timeout")) [])
    | GateDenied => (r, NextAttempt)
    | GateRejected f =>
        let r := failed (spend r (mkFact (spent r + 1) (A_TargetID a) slot 0 true)) f in
        (r, if String.eqb (F_quota f) quotaRoute then BreakRoute
            else if String.eqb (F_quota f) quotaConnection then NextAttempt else NextSlot)
    | GateUnmeterable quota =>
        (unmetered r, if String.eqb quota quotaRoute then BreakRoute
                      else if String.eqb quota quotaConnection then NextAttempt else NextSlot)
    | GateAdmitted =>
        if negb (servingAllowed w (tick r) a slot true) then (r, NextSlot)
        else
          match (if X_workflow x
                 then workflowAuthority w (tick r) <|> reserveSessionDebit w (tick r) a slot else None) with
          | Some e => (r, Return (fails (ErrRefused e)) [])
          | None =>
              let d := dispatchWithAuthority w (tick r) a slot in
              afterDispatch (spend r (mkFact (spent r + 1) (A_TargetID a) slot retry false)) a slot retry d
          end
    end.

(** The slots of one attempt; [retry] counts the repeats of the first one left. *)
Fixpoint slotLoop (fuel : nat) (r : running) (a : Attempt) (slots : list string) (retry : Z)
  : option (running * flow) :=
  match fuel with
  | O => None
  | S fuel' =>
      match slots with
      | [] => Some (r, NextAttempt)
      | slot :: rest =>
          let r := ticked r in
          if (spent r >=? X_budget x) || ctxErr w (tick r) then Some (r, NextAttempt)
          else
            match trySlot r a slot retry with
            | (r, NextSlot) => slotLoop fuel' r a rest 0
            | (r, SameSlot) => slotLoop fuel' r a slots (retry + 1)
            | (r, f) => Some (r, f)
            end
      end
  end.

(** A slot is tried again only after it spent, so what is left of the budget and
    of the slots bounds the turns. *)
Definition slot_fuel (r : running) (slots : list string) : nat :=
  S (Z.to_nat (X_budget x - spent r) + length slots).

Definition tryAttempt (r : running) (a : Attempt) : option (running * flow) :=
  if negb (providerFound w (tick r) a) || circuitOpen w (tick r) a then Some (r, NextAttempt)
  else
    match checkCallerTarget w (tick r) a with
    | Some e => Some (r, Return (fails (ErrRefused e)) [])
    | None =>
        let slots := attemptSlots w (tick r) a in
        slotLoop (slot_fuel r slots) r a slots 0
    end.

(** The route's attempts; [inr] is an early return. *)
Fixpoint attemptLoop (r : running) (attempts : list Attempt)
  : option (running * option (attemptOutcome * list string)) :=
  match attempts with
  | [] => Some (r, None)
  | a :: rest =>
      let r := ticked r in
      if (spent r >=? X_budget x) || ctxErr w (tick r) then Some (r, None)
      else
        match tryAttempt r a with
        | None => None
        | Some (r, Return o c) => Some (r, Some (o, c))
        | Some (r, BreakRoute) => Some (r, None)
        | Some (r, _) => attemptLoop r rest
        end
  end.

(** How the route ends when no attempt ended it. *)
Definition routeOutcome (r : running) : attemptOutcome * list string :=
  let r := ticked r in
  if ctxErr w (tick r) then
    (if deadlineExceeded w (tick r) then fails (ErrFailure "timeout")
     else mkOutcome (Some (ErrFailure "cancelled")) false true, [])
  else
    let conditions := met r ++ [FallbackExhausted] in
    match last_ r with
    | Some f => (fails (ErrFailure (F_class f)), conditions)
    | None => (fails (if unmeterable r then ErrLimitsUnavailable else ErrUpstreamUnavailable), conditions)
    end.

Definition start (spent0 : Z) (facts0 : list AttemptFact) (tick0 : nat) : running :=
  mkRunning spent0 facts0 tick0 None [] false.

Definition runRoute (spent0 : Z) (facts0 : list AttemptFact) (tick0 : nat)
  : option (running * (attemptOutcome * list string)) :=
  match attemptLoop (start spent0 facts0 tick0) (X_attempts x) with
  | None => None
  | Some (r, Some oc) => Some (r, oc)
  | Some (r, None) => Some (r, routeOutcome r)
  end.

End Loop.

(** ** The bound of the dispatches *)

(** The dispatches of one slot across the route's retry rules. *)
Definition retryDispatches (rules : gmap string RetryRule) : Z :=
  1 + map_fold (λ _ rule n, Z.max n (MaxRetries rule)) 0 rules.

(** The slots of a provider, each available or not. *)
Fixpoint walkSlots (repeats remaining available : Z) (slots : list bool) : Z :=
  match slots with
  | [] => available
  | ok :: rest =>
      let available := if ok then available + Z.max 0 (Z.min repeats (remaining - available)) else available in
      if available =? remaining then available else walkSlots repeats remaining available rest
  end.

(** The targets, each with the slots of its provider if that is known. *)
Fixpoint walkTargets (repeats remaining available : Z) (targets : list (option (list bool))) : Z :=
  match targets with
  | [] => available
  | None :: rest => walkTargets repeats remaining available rest
  | Some slots :: rest =>
      let available := walkSlots repeats remaining available slots in
      if available =? remaining then available else walkTargets repeats remaining available rest
  end.

Definition walkDispatchable (budget spent0 : Z) (rules : gmap string RetryRule)
    (targets : list (option (list bool))) : Z :=
  let remaining := budget - spent0 in
  if remaining <=? 0 then 0 else walkTargets (retryDispatches rules) remaining 0 targets.

(** ** Facts *)

Lemma retryDispatches_ge rules class rule :
  rules !! class = Some rule → MaxRetries rule < retryDispatches rules.
Proof.
  intros E. unfold retryDispatches.
  assert (MaxRetries rule <= map_fold (λ _ rule n, Z.max n (MaxRetries rule)) 0 rules); [|lia].
  revert E. apply (map_fold_weak_ind (λ n m, m !! class = Some rule → MaxRetries rule <= n)); [done|].
  intros i y m n Hi IH E. destruct (decide (i = class)) as [->|N].
  - rewrite lookup_insert_eq in E. simplify_eq. lia.
  - rewrite lookup_insert_ne in E by done. specialize (IH E). lia.
Qed.

Lemma retryDispatches_pos rules : 1 <= retryDispatches rules.
Proof.
  unfold retryDispatches.
  assert (0 <= map_fold (λ _ rule n, Z.max n (MaxRetries rule)) 0 rules); [|lia].
  apply (map_fold_weak_ind (λ n _, 0 <= n)); [lia|]. intros. lia.
Qed.

(** What the loop adds to the record of a request. *)
Record extends (repeats : Z) (r r' : running) : Prop := {
  ext_facts : ∃ new, facts r' = facts r ++ new ∧ spent r' = spent r + Z.of_nat (length new) ∧
    map Fact_Ordinal new = seqZ (spent r + 1) (Z.of_nat (length new)) ∧
    Forall (λ f, 0 <= Fact_Retry f < repeats) new;
}.

#[export] Instance extends_refl repeats : Reflexive (extends repeats).
Proof. intros r. constructor. exists []. rewrite app_nil_r. split; [done|]. split; [simpl; lia|]. by split. Qed.

#[export] Instance extends_trans repeats : Transitive (extends repeats).
Proof.
  intros r1 r2 r3 [(n1 & F1 & S1 & O1 & R1)] [(n2 & F2 & S2 & O2 & R2)]. constructor.
  exists (n1 ++ n2). rewrite F2, F1, <- app_assoc. split; [done|]. rewrite length_app.
  split; [lia|]. rewrite map_app, O1, O2, Nat2Z.inj_add, seqZ_app by lia. split; [|by apply Forall_app].
  rewrite S1. do 2 f_equal. lia.
Qed.

Lemma extends_spent repeats r r' : extends repeats r r' → spent r <= spent r'.
Proof. intros [(new & _ & S & _)]. lia. Qed.

Lemma extends_same repeats r r' : spent r' = spent r → facts r' = facts r → extends repeats r r'.
Proof. intros S F. constructor. exists []. rewrite app_nil_r. simpl. split; [done|]. split; [lia|done]. Qed.

Lemma extends_spend repeats r f r' :
  facts r' = facts r ++ [f] → Fact_Ordinal f = spent r + 1 → 0 <= Fact_Retry f < repeats →
  spent r' = spent r + 1 → extends repeats r r'.
Proof. intros F O R S. constructor. exists [f]. simpl. rewrite O. auto. Qed.

Section LoopFacts.
Context (w : World) (x : leg).
Notation repeats := (retryDispatches (X_retry x)).

Lemma retryWait_bound r a f retry : retryWait w x r a f retry = true → retry + 1 < repeats.
Proof.
  unfold retryWait. destruct (X_retry x !! F_class f) as [rule|] eqn:E; [|done].
  intros H. split_bools. pose proof (retryDispatches_ge _ _ _ E). lia.
Qed.

Lemma afterDispatch_spec r a slot retry d r' f :
  afterDispatch w x r a slot retry d = (r', f) →
  spent r' = spent r ∧ facts r' = facts r ∧ tick r' = tick r ∧ (f = SameSlot → retry + 1 < repeats).
Proof.
  unfold afterDispatch. intros E.
  repeat (case_match; simplify_eq; try by (repeat split)).
  all: repeat split; intros _; by eapply retryWait_bound.
Qed.

Lemma trySlot_spec r a slot retry r' f :
  0 <= retry < repeats → trySlot w x r a slot retry = (r', f) →
  extends repeats r r' ∧ spent r' <= spent r + 1 ∧
  (f = SameSlot → spent r' = spent r + 1 ∧ retry + 1 < repeats).
Proof.
  intros R E. unfold trySlot in E. pose proof (retryDispatches_pos (X_retry x)) as RP.
  repeat (case_match; simplify_eq;
          try by (split; [by apply extends_same|]; split; [simpl; lia|done])).
  1-3: split; [eapply extends_spend; [reflexivity|done|simpl; lia|done]|];
    split; [simpl; lia|done].
  all: apply afterDispatch_spec in E as (S & F & _ & Sm); simpl in S, F;
    split; [eapply extends_spend; [exact F|done|simpl; lia|done]|]; split; [lia|]; auto.
Qed.

(** A slot's turns spend at most its retries and one turn for each slot left. *)
Lemma slotLoop_spec fuel r a slots retry :
  0 <= retry < repeats → (slot_fuel x r slots <= fuel)%nat →
  ∃ r' f, slotLoop w x fuel r a slots retry = Some (r', f) ∧ extends repeats r r' ∧
    spent r' <= Z.max (spent r) (X_budget x) ∧
    spent r' - spent r <= (match slots with [] => 0 | _ => repeats - retry + repeats * (Z.of_nat (length slots) - 1) end) ∧
    f ≠ SameSlot ∧ f ≠ NextSlot.
Proof.
  pose proof (retryDispatches_pos (X_retry x)) as RP.
  revert r slots retry. induction fuel as [|fuel IH]; intros r slots retry R Fu;
    [unfold slot_fuel in Fu; lia|].
  destruct slots as [|slot rest].
  { exists r, NextAttempt. split; [done|]. split; [reflexivity|]. split; [lia|]. split; [lia|done]. }
  assert (W : 0 <= repeats * (Z.of_nat (length (slot :: rest)) - 1)) by (simpl length; lia).
  cbn [slotLoop]. set (r1 := ticked r).
  assert (X1 : extends repeats r r1) by (by apply extends_same).
  assert (S1 : spent r1 = spent r) by done. clearbody r1.
  destruct ((spent r1 >=? X_budget x) || _) eqn:Stop.
  { exists r1, NextAttempt. split; [done|]. split; [done|]. split; [lia|]. split; [lia|done]. }
  assert (Lt : spent r < X_budget x) by (split_bools; lia).
  destruct (trySlot w x r1 a slot retry) as [r2 f] eqn:T.
  destruct (trySlot_spec _ _ _ _ _ _ R T) as (X2 & B2 & Sm).
  pose proof (extends_spent _ _ _ X2) as M2.
  assert (X12 : extends repeats r r2) by (by transitivity r1).
  unfold slot_fuel in *. destruct f;
    try (exists r2; eexists; split; [reflexivity|]; split; [done|]; split; [lia|]; split; [lia|done]).
  - destruct (IH r2 rest 0) as (r' & f' & E & X' & B' & Q & N); [lia|simpl length in Fu; lia|].
    exists r', f'. split; [done|]. split; [by transitivity r2|]. split; [lia|]. split; [|done].
    destruct rest as [|s0 rest0]; [lia|]. simpl length in *. nia.
  - destruct (Sm eq_refl) as [Sp Re].
    destruct (IH r2 (slot :: rest) (retry + 1)) as (r' & f' & E & X' & B' & Q & N); [lia|lia|].
    exists r', f'. split; [done|]. split; [by transitivity r2|]. split; [lia|]. split; [|done]. lia.
Qed.

(** Conditions never follow a committed response. *)
Definition may_move_on (o : attemptOutcome) (conditions : list string) : Prop :=
  conditions ≠ [] → is_Some (Out_err o) ∧ Out_committed o = false.

Lemma afterDispatch_return r a slot retry d r' o c :
  afterDispatch w x r a slot retry d = (r', Return o c) → may_move_on o c.
Proof.
  unfold afterDispatch, may_move_on. intros E C.
  repeat (case_match; simplify_eq; try done); split_bools; (split; [by eexists|done]).
Qed.

Lemma trySlot_return r a slot retry r' o c :
  trySlot w x r a slot retry = (r', Return o c) → may_move_on o c.
Proof.
  unfold trySlot. intros E. repeat (case_match; simplify_eq; try done); by eapply afterDispatch_return.
Qed.

Lemma slotLoop_return fuel r a slots retry r' o c :
  slotLoop w x fuel r a slots retry = Some (r', Return o c) → may_move_on o c.
Proof.
  revert r slots retry. induction fuel as [|fuel IH]; intros r slots retry E; [done|].
  destruct slots as [|slot rest]; [done|]. cbn [slotLoop] in E.
  destruct (_ || _); [done|]. destruct (trySlot w x (ticked r) a slot retry) as [r2 f] eqn:T.
  destruct f; simplify_eq; eauto. by eapply trySlot_return.
Qed.

Lemma tryAttempt_spec r a :
  ∃ r' f, tryAttempt w x r a = Some (r', f) ∧ extends repeats r r' ∧
    spent r' <= Z.max (spent r) (X_budget x) ∧ (∀ o c, f = Return o c → may_move_on o c) ∧
    ∀ n, 0 <= n → (providerFound w (tick r) a = true → Z.of_nat (length (attemptSlots w (tick r) a)) <= n) →
      spent r' - spent r <= repeats * n.
Proof.
  pose proof (retryDispatches_pos (X_retry x)) as RP. unfold tryAttempt.
  assert (Stay : ∀ f, (∀ o c, f = Return o c → may_move_on o c) → ∃ r' f',
    Some (r, f) = Some (r', f') ∧ extends repeats r r' ∧
    spent r' <= Z.max (spent r) (X_budget x) ∧ (∀ o c, f' = Return o c → may_move_on o c) ∧
    ∀ n, 0 <= n → (providerFound w (tick r) a = true → Z.of_nat (length (attemptSlots w (tick r) a)) <= n) →
      spent r' - spent r <= repeats * n).
  { intros f Hf. exists r, f. split; [done|]. split; [reflexivity|]. split; [lia|]. split; [done|]. nia. }
  destruct (providerFound w (tick r) a); simpl; [|by apply Stay].
  destruct (circuitOpen w (tick r) a); [by apply Stay|].
  destruct (checkCallerTarget w (tick r) a) as [e|]; [apply Stay; by intros o c [= <- <-]|].
  set (slots := attemptSlots w (tick r) a) in *.
  destruct (slotLoop_spec (slot_fuel x r slots) r a slots 0) as (r' & f & E & X & B & Q & N & N'); [lia|lia|].
  exists r', f. split; [done|]. split; [done|]. split; [done|]. split; [intros o c ->; by eapply slotLoop_return|].
  intros n H0 Hn. specialize (Hn eq_refl).
  destruct slots as [|s0 rest]; [simpl in *; nia|]. simpl length in *. nia.
Qed.
End LoopFacts.

(** The slots of a target that were available when the request was admitted. *)
Definition usable (slots : option (list bool)) : Z :=
  match slots with Some l => Z.of_nat (length (List.filter (λ b, b) l)) | None => 0 end.

Lemma usable_nonneg o : 0 <= usable o.
Proof. destruct o; simpl; lia. Qed.

Definition total_usable (targets : list (option (list bool))) : Z := foldr (λ o n, usable o + n) 0 targets.

Lemma total_usable_nonneg targets : 0 <= total_usable targets.
Proof. induction targets as [|o l IH]; simpl; [lia|]. pose proof (usable_nonneg o). lia. Qed.

Lemma walkSlots_eq repeats remaining available slots :
  1 <= repeats → available < remaining →
  walkSlots repeats remaining available slots =
  Z.min remaining (available + repeats * usable (Some slots)).
Proof.
  intros R. revert available. induction slots as [|[] rest IH]; intros available A; cbn [walkSlots].
  - simpl. lia.
  - change (usable (Some (true :: rest))) with (Z.of_nat (S (length (List.filter (λ b, b) rest)))).
    rewrite Z.max_r by lia. destruct (Z.eqb_spec (available + Z.min repeats (remaining - available)) remaining).
    + nia.
    + rewrite IH by lia. simpl usable. nia.
  - change (usable (Some (false :: rest))) with (usable (Some rest)).
    destruct (Z.eqb_spec available remaining); [lia|]. by rewrite IH.
Qed.

Lemma walkTargets_eq repeats remaining available targets :
  1 <= repeats → available < remaining →
  walkTargets repeats remaining available targets =
  Z.min remaining (available + repeats * total_usable targets).
Proof.
  intros R. revert available. induction targets as [|[slots|] rest IH]; intros available A; cbn [walkTargets].
  - simpl. lia.
  - rewrite walkSlots_eq by done. pose proof (usable_nonneg (Some slots)).
    pose proof (total_usable_nonneg rest).
    change (total_usable (Some slots :: rest)) with (usable (Some slots) + total_usable rest).
    destruct (Z.eqb_spec (Z.min remaining (available + repeats * usable (Some slots))) remaining); [nia|].
    rewrite IH by lia. nia.
  - change (total_usable (None :: rest)) with (0 + total_usable rest). by rewrite IH.
Qed.

(** The slots a target still has when it is tried are among those that were
    available when the request was admitted. *)
Definition slots_within (w : World) (a : Attempt) (slots : option (list bool)) : Prop :=
  ∀ t, providerFound w t a = true → Z.of_nat (length (attemptSlots w t a)) <= usable slots.

Lemma attemptLoop_spec w x r attempts :
  ∃ r' o, attemptLoop w x r attempts = Some (r', o) ∧ extends (retryDispatches (X_retry x)) r r' ∧
    spent r' <= Z.max (spent r) (X_budget x) ∧ (∀ out c, o = Some (out, c) → may_move_on out c) ∧
    ∀ targets, Forall2 (slots_within w) attempts targets →
      spent r' - spent r <= retryDispatches (X_retry x) * total_usable targets.
Proof.
  pose proof (retryDispatches_pos (X_retry x)) as RP. revert r.
  induction attempts as [|a attempts IH]; intros r.
  { exists r, None. split; [done|]. split; [reflexivity|]. split; [lia|]. split; [done|].
    intros targets ->%Forall2_nil_inv_l. simpl. lia. }
  cbn [attemptLoop]. set (r1 := ticked r).
  assert (X1 : extends (retryDispatches (X_retry x)) r r1) by (by apply extends_same).
  assert (S1 : spent r1 = spent r) by done. clearbody r1.
  assert (T0 : ∀ targets, Forall2 (slots_within w) (a :: attempts) targets → ∃ slots rest,
    targets = slots :: rest ∧ slots_within w a slots ∧ Forall2 (slots_within w) attempts rest ∧
    total_usable targets = usable slots + total_usable rest ∧ 0 <= usable slots ∧ 0 <= total_usable rest).
  { intros targets (slots & rest & Fa & F & ->)%Forall2_cons_inv_l. exists slots, rest.
    pose proof (usable_nonneg slots). pose proof (total_usable_nonneg rest). done. }
  destruct ((spent r1 >=? X_budget x) || _).
  { exists r1, None. split; [done|]. split; [done|]. split; [lia|]. split; [done|].
    intros targets (slots & rest & -> & _ & _ & -> & ? & ?)%T0. nia. }
  destruct (tryAttempt_spec w x r1 a) as (r2 & f & E & X2 & B2 & M2 & Q2).
  rewrite E. assert (X12 : extends (retryDispatches (X_retry x)) r r2) by (by transitivity r1).
  assert (Q2' : ∀ targets, Forall2 (slots_within w) (a :: attempts) targets →
    spent r2 - spent r <= retryDispatches (X_retry x) * total_usable targets).
  { intros targets (slots & rest & -> & Fa & _ & -> & U1 & U2)%T0.
    specialize (Q2 (usable slots) U1 (Fa _)). nia. }
  destruct (IH r2) as (r' & o & E' & X' & B' & M' & Q').
  destruct f as [| | | |out c];
    try (exists r', o; split; [done|]; split; [by transitivity r2|]; split; [lia|]; split; [done|];
         intros targets (slots & rest & -> & Fa & F & -> & U1 & U2)%T0;
         specialize (Q' _ F); specialize (Q2 (usable slots) U1 (Fa _)); nia).
  - exists r2, None. split; [done|]. split; [done|]. split; [lia|]. by split.
  - exists r2, (Some (out, c)). split; [done|]. split; [done|]. split; [lia|]. split; [|done].
    intros out' c' [= <- <-]. by apply M2.
Qed.

(** The loop ends, within the budget. *)
Lemma runRoute_spec w x spent0 facts0 tick0 :
  ∃ r o conditions, runRoute w x spent0 facts0 tick0 = Some (r, (o, conditions)) ∧
    extends (retryDispatches (X_retry x)) (start spent0 facts0 tick0) r ∧
    spent r <= Z.max spent0 (X_budget x) ∧ may_move_on o conditions ∧
    ∀ targets, Forall2 (slots_within w) (X_attempts x) targets →
      spent r - spent0 <= retryDispatches (X_retry x) * total_usable targets.
Proof.
  destruct (attemptLoop_spec w x (start spent0 facts0 tick0) (X_attempts x)) as (r & o & E & X & B & M & Q).
  unfold runRoute. rewrite E. destruct o as [[out c]|].
  - exists r, out, c. split; [done|]. split; [done|]. split; [done|]. split; [by apply M|done].
  - destruct (routeOutcome w r) as [out c] eqn:RO. exists r, out, c. split; [done|]. split; [done|].
    split; [done|]. split; [|done]. unfold routeOutcome in RO. intros _.
    repeat (case_match; simplify_eq; try by (split; [eexists|])).
Qed.

(** C15. A route's attempts stay within what admission reserved for them. Whatever the
    providers, the circuits, the quotas, the upstreams and the clock answer, the
    loop over a route's attempts ends; the attempts it makes, upstream or refused
    by a quota, are numbered consecutively after those made before, none is a
    retry beyond what a rule of the route allows, and together they are at most
    [walkDispatchable], the number the request reserved tokens and cost for, as
    long as no target gained a slot since. Fallback conditions are reported only
    after a failure with nothing committed to the client. *)
Theorem run_route_within_reservation (w : World) (x : leg) (spent0 : Z) (facts0 : list AttemptFact)
    (tick0 : nat) (targets : list (option (list bool))) :
  Forall2 (slots_within w) (X_attempts x) targets →
  ∃ r o conditions new,
    runRoute w x spent0 facts0 tick0 = Some (r, (o, conditions)) ∧
    facts r = facts0 ++ new ∧ spent r = spent0 + Z.of_nat (length new) ∧
    map Fact_Ordinal new = seqZ (spent0 + 1) (Z.of_nat (length new)) ∧
    Forall (λ f, 0 <= Fact_Retry f < retryDispatches (X_retry x)) new ∧
    Z.of_nat (length new) <= walkDispatchable (X_budget x) spent0 (X_retry x) targets ∧
    (conditions ≠ [] → is_Some (Out_err o) ∧ Out_committed o = false).
Proof.
  intros F. destruct (runRoute_spec w x spent0 facts0 tick0) as (r & o & c & E & [X] & B & M & Q).
  destruct X as (new & Ef & Es & Eo & Er). simpl in *. specialize (Q _ F). exists r, o, c, new.
  do 5 (split; [done|]). split; [|done].
  unfold walkDispatchable. destruct (Z.leb_spec (X_budget x - spent0) 0); [lia|].
  rewrite walkTargets_eq by (pose proof (retryDispatches_pos (X_retry x)); lia). lia.
Qed.

(** A target with two slots whose first upstream call times out and is retried once;
    then the second slot serves. *)
Definition sample_attempt : Attempt :=
  mkAttempt "t1" "p1" "r1" "openai" "gpt" 1000 0 fzero "weighted" "" "" None None None (Some ["s1"; "s2"]).

Definition sample_leg : leg :=
  mkLeg [sample_attempt] 4 {["timeout" := mkRetryRule 1 100 1000 false]} false.

Definition sample_world : World := {|
  ctxErr := λ _, false; deadlineExceeded := λ _, false;
  providerFound := λ _ _, true; circuitOpen := λ _ _, false; checkCallerTarget := λ _ _, None;
  attemptSlots := λ _ _, ["s1"; "s2"]; servingAllowed := λ _ _ _ _, true;
  gateAttempt := λ _ _ _, GateAdmitted; workflowAuthority := λ _, None;
  reserveSessionDebit := λ _ _ _, None;
  dispatchWithAuthority := λ _ _ slot,
    mkDispatched (if String.eqb slot "s1" then Some (mkFailure "timeout" false false true "" 0) else None)
      None None None None true;
  cooldownFailure := λ _ _ _ _, false; pastDeadline := λ _ _ _, false; pauses := λ _, true |}.

Lemma run_route_within_reservation_witness :
  ∃ r o conditions new,
    runRoute sample_world sample_leg 0 [] 0 = Some (r, (o, conditions)) ∧ facts r = new ∧
    map Fact_SlotID new = ["s1"; "s1"; "s2"] ∧ Out_err o = None ∧
    Z.of_nat (length new) <= walkDispatchable 4 0 (X_retry sample_leg) [Some [true; false; true]].
Proof.
  destruct (run_route_within_reservation sample_world sample_leg 0 [] 0 [Some [true; false; true]])
    as (r & o & conditions & new & E & F & _ & _ & _ & W & _).
  { repeat constructor. intros t _. vm_compute. discriminate. }
  simpl in F. subst new. exists r, o, conditions, (facts r). split; [exact E|]. split; [reflexivity|].
  vm_compute in E. injection E as <- <- <-. split; [reflexivity|]. split; [reflexivity|]. exact W.
Defined.
