(* ===== verification/Fallback.v ===== *)
(** * Moving a request between routes

    [internal/gateway/fallback.go] and the outer loop of
    [internal/gateway/attempts.go]: a request plans the route it is on, moves to the
    route a selector delegates to, and when a route's attempts fail, walks the
    fallbacks of the routes it has been on, within one attempt budget. The request's
    planner is a parameter: what it answers for a route, each time it is asked, and
    whether it excluded one of the route's candidates for cost. *)

From S2P Require Import Prelude Go Policy Routes RouteWalk Planner Attempts.
Local Open Scope Z_scope.

Definition FallbackPlanned : string := "planned".
Definition FallbackUnavailable : string := "fallback_route_unavailable".
Definition FallbackForbidden : string := "fallback_route_forbidden".
Definition FallbackRepeated : string := "fallback_route_repeated".

Definition ViaSelector : string := "selector".
Definition ViaFallback : string := "fallback".

(** What planning a route leads to: a refusal before any plan, a plan that
    delegates, or a plan the request adopts and perhaps refuses after that (a plan
    without attempts, or the content policy). *)
Inductive planned :=
  | PlanRefused (e : string)
  | PlanDelegates (plan : Plan)
  | PlanAdopted (plan : Plan) (refusal : option string).

(** The request: of the fields of [call] and its [routeLeg], those that moving
    between routes reads or writes, with the number of the next question asked. *)
Record call := mkCall {
  C_primary : option Route;
  C_fixed : bool;
  C_route : Route;
  C_via : option string;
  C_walk : RouteWalk;
  C_spent : Z;
  C_allowance : Z;
  C_budget : Z;
  C_attempts : list Attempt;
  C_conditions : list string;
  C_selector : string;
  C_fallbacks : list FallbackStep;
  C_tick : nat;
}.

(** [bind]: the route becomes the request's primary. *)
Definition bind (route : Route) (fixed : bool) (spent0 : Z) : call :=
  mkCall (Some route) fixed route None (NewRouteWalk route) spent0 0 0 [] [] "" [] 0.

Definition initAllowance (x : call) (budget : Z) : call :=
  if C_allowance x =? 0 then
    mkCall (C_primary x) (C_fixed x) (C_route x) (C_via x) (C_walk x) (C_spent x) (C_spent x + budget)
      (C_budget x) (C_attempts x) (C_conditions x) (C_selector x) (C_fallbacks x) (C_tick x)
  else x.

Definition adoptPlan (x : call) (plan : Plan) : call :=
  let x := initAllowance x (Plan_Budget plan) in
  mkCall (C_primary x) (C_fixed x) (C_route x) (C_via x) (C_walk x) (C_spent x) (C_allowance x)
    (C_spent x + Z.min (Plan_Budget plan) (C_allowance x - C_spent x))
    (Attempts plan)
    (if nonempty (Attempts plan) then C_conditions x else Conditions plan)
    (Selected plan) (C_fallbacks x) (C_tick x).

(** The leg starts over on another route. *)
Definition useRoute (x : call) (route : Route) (via : string) : call :=
  mkCall (C_primary x) (C_fixed x) route (Some via) (Move (C_walk x) route (String.eqb via ViaSelector))
    (C_spent x) (C_allowance x) 0 [] [] "" (C_fallbacks x) (C_tick x).

Definition with_walk (x : call) (w : RouteWalk) : call :=
  mkCall (C_primary x) (C_fixed x) (C_route x) (C_via x) w (C_spent x) (C_allowance x)
    (C_budget x) (C_attempts x) (C_conditions x) (C_selector x) (C_fallbacks x) (C_tick x).
Definition with_selector (x : call) (selector : string) : call :=
  mkCall (C_primary x) (C_fixed x) (C_route x) (C_via x) (C_walk x) (C_spent x) (C_allowance x)
    (C_budget x) (C_attempts x) (C_conditions x) selector (C_fallbacks x) (C_tick x).
Definition with_step (x : call) (step : FallbackStep) : call :=
  mkCall (C_primary x) (C_fixed x) (C_route x) (C_via x) (C_walk x) (C_spent x) (C_allowance x)
    (C_budget x) (C_attempts x) (C_conditions x) (C_selector x) (C_fallbacks x ++ [step]) (C_tick x).
(** The start of [replan]: the conditions of an earlier plan are forgotten. *)
Definition replanned (x : call) : call :=
  mkCall (C_primary x) (C_fixed x) (C_route x) (C_via x) (C_walk x) (C_spent x) (C_allowance x)
    (C_budget x) (C_attempts x) [] (C_selector x) (C_fallbacks x) (S (C_tick x)).
Definition with_outcome (s : FallbackStep) (outcome : string) : FallbackStep :=
  mkStep (Step_From s) (Step_Route s) (Step_Conditions s) outcome.

Section Moves.
Context (routes : gmap string Route) (authorize : Route → bool).
Context (planRoute : nat → Route → planned) (costExcluded : Route → bool) (ctxErr : nat → bool).

(** [adopt], [plan] being [replan]: the outcome a step records and the refusal. *)
Definition adopt (plan : call → option (call * option string)) (x : call) (slug via : string)
  : option (call * string * option string) :=
  if Visited (C_walk x) slug then Some (x, FallbackRepeated, None)
  else
    match routes !! slug with
    | None => Some (x, FallbackUnavailable, None)
    | Some route =>
        if negb (authorize route) then Some (x, FallbackForbidden, None)
        else
          match plan (useRoute x route via) with
          | None => None
          | Some (x, Some e) => Some (x, e, Some e)
          | Some (x, None) => Some (x, FallbackPlanned, None)
          end
    end.

(** [delegate]: the request moves to the route its selector names. *)
Definition delegate (plan : call → option (call * option string)) (x : call) (p : Plan)
  : option (call * option string) :=
  match adopt plan (initAllowance x (Plan_Budget p)) (Delegate p) ViaSelector with
  | None => None
  | Some (x, _, Some e) => Some (x, Some e)
  | Some (x, outcome, None) =>
      if negb (String.eqb outcome FallbackPlanned)
      then Some (x, Some (if costExcluded (C_route x) then "cost_limit_exceeded" else NoEligibleTargets))
      else Some (if String.eqb (C_selector x) "" then with_selector x (Selected p) else x, None)
  end.

(** Plan the route the request is on; each delegation moves to a route it has not
    been on, so the routes left bound the nesting. *)
Fixpoint replan (fuel : nat) (x : call) : option (call * option string) :=
  match fuel with
  | O => None
  | S fuel' =>
      let x := replanned x in
      match planRoute (C_tick x) (C_route x) with
      | PlanRefused e => Some (x, Some e)
      | PlanDelegates p => delegate (replan fuel') x p
      | PlanAdopted p e => Some (adoptPlan x p, e)
      end
  end.

Definition plan_fuel : nat := S (size routes).

(** The loop of [fallBack]. *)
Fixpoint fallBackLoop (fuel : nat) (x : call) : option (call * bool) :=
  match fuel with
  | O => None
  | S fuel' =>
      let x := mkCall (C_primary x) (C_fixed x) (C_route x) (C_via x) (C_walk x) (C_spent x) (C_allowance x)
                 (C_budget x) (C_attempts x) (C_conditions x) (C_selector x) (C_fallbacks x) (S (C_tick x)) in
      if negb (C_spent x <? C_allowance x) || ctxErr (C_tick x) then Some (x, false)
      else
        match Next (C_walk x) with
        | None => None
        | Some (w, step, ok) =>
            let x := with_walk x w in
            if negb ok then Some (x, false)
            else
              match adopt (replan plan_fuel) x (Step_Route step) ViaFallback with
              | None => None
              | Some (x, outcome, _) =>
                  let x := with_step x (with_outcome step outcome) in
                  if String.eqb outcome FallbackPlanned then Some (x, true)
                  else
                    fallBackLoop fuel'
                      (if nonempty (C_conditions x)
                       then with_walk x (Failed (C_walk x) (C_conditions x)) else x)
              end
        end
  end.

Definition fallBack (fuel : nat) (x : call) (conditions : list string) : option (call * bool) :=
  if negb (is_some (C_primary x)) || C_fixed x then Some (x, false)
  else fallBackLoop fuel (with_walk x (Failed (C_walk x) conditions)).

(** Plan the named route, moving on when one of its fallbacks names the reason. *)
Definition planNamed (fuel : nat) (x : call) : option (call * option string) :=
  match replan plan_fuel x with
  | None => None
  | Some (x, None) => Some (x, None)
  | Some (x, Some e) =>
      if negb (nonempty (C_conditions x)) then Some (x, Some e)
      else match fallBack fuel x (C_conditions x) with
           | None => None
           | Some (x, moved) => Some (x, if moved then None else Some e)
           end
  end.
End Moves.

(** ** The whole request *)

Section Requests.
Context (routes : gmap string Route) (authorize : Route → bool).
Context (planRoute : nat → Route → planned) (w : World) (workflow : bool).
Context (reserveFallbackCost : nat → Route → option string) (costExcluded : Route → bool)
        (serverStatus : call_error → bool).

Definition leg_of (x : call) : leg :=
  mkLeg (C_attempts x) (C_budget x) (Retry (Route_Behavior (C_route x))) workflow.

Definition with_spent (x : call) (n : Z) (t : nat) : call :=
  mkCall (C_primary x) (C_fixed x) (C_route x) (C_via x) (C_walk x) n (C_allowance x)
    (C_budget x) (C_attempts x) (C_conditions x) (C_selector x) (C_fallbacks x) t.

(** When nothing served, an exclusion for cost explains a server error. *)
Definition finalOutcome (x : call) (o : attemptOutcome) : attemptOutcome :=
  match Out_err o with
  | Some e => if costExcluded (C_route x) && serverStatus e then fails ErrCostLimit else o
  | None => o
  end.

(** Try the route's attempts, then those of the fallback it moves to. *)
Fixpoint runAttempts (fuel : nat) (x : call) (fs : list AttemptFact)
  : option (call * list AttemptFact * attemptOutcome) :=
  match fuel with
  | O => None
  | S fuel' =>
      match runRoute w (leg_of x) (C_spent x) fs (C_tick x) with
      | None => None
      | Some (r, (o, conditions)) =>
          let x := with_spent x (spent r) (tick r) in
          if negb (nonempty conditions) then Some (x, facts r, finalOutcome x o)
          else
            match fallBack routes authorize planRoute costExcluded (ctxErr w) fuel' x conditions with
            | None => None
            | Some (x, false) => Some (x, facts r, finalOutcome x o)
            | Some (x, true) =>
                match reserveFallbackCost (C_tick x) (C_route x) with
                | Some e => Some (x, facts r, fails (ErrRefused e))
                | None => runAttempts fuel' x (facts r)
                end
            end
      end
  end.

(** Plan the named route and run the request; admission, between the two, can only
    refuse it. *)
Definition serveRequest (fuel : nat) (x : call) : option (call * list AttemptFact * attemptOutcome) :=
  match planNamed routes authorize planRoute costExcluded (ctxErr w) fuel x with
  | None => None
  | Some (x, Some e) => Some (x, [], fails (ErrRefused e))
  | Some (x, None) => runAttempts fuel x []
  end.
End Requests.

(** ** What [Next] and [Failed] do to the frames *)

(** [Next] drops frames and advances the one below them. *)
Lemma Next_fuel_step fuel w w' step :
  Next_fuel fuel w = Some (w', step, true) →
  ∃ pfx f rest m, frames w = pfx ++ f :: rest ∧
    frames w' = pfx ++ [mkFrame (frame_route f) (frame_conditions f) m] ∧
    (frame_next f < m <= length (route_fallbacks (frame_route f)))%nat.
Proof.
  revert w. induction fuel as [|fuel IH]; intros w; cbn [Next_fuel]; [done|].
  destruct (last (frames w)) as [top|] eqn:L; [|done].
  apply removelast_last in L. remember (removelast (frames w)) as prior eqn:Hp. clear Hp.
  destruct (Nat.eqb _ _).
  { intros (pfx & f & rest & m & E & E' & M)%IH. simpl in E. exists pfx, f, (rest ++ [top]), m.
    rewrite L, E, <- app_assoc. done. }
  destruct (_ !! frame_next top) as [b|] eqn:B; [|done]. apply lookup_lt_Some in B.
  destruct (Nat.eqb _ 0).
  - intros (pfx & f & rest & m & E & E' & M)%IH. simpl in E.
    destruct rest as [|g rest _] using rev_ind.
    + apply app_inj_tail in E as [<- <-]. simpl in *. exists prior, top, [], m. rewrite L. split; [done|].
      split; [done|lia].
    + rewrite app_comm_cons, app_assoc in E. apply app_inj_tail in E as [-> _].
      exists pfx, f, (rest ++ [top]), m. rewrite L, <- app_assoc. done.
  - intros [= <- _]. exists prior, top, [], (S (frame_next top)). split; [done|]. split; [done|lia].
Qed.

Lemma appendWalkFrames_app fs rs conditions :
  ∃ pushed, appendWalkFrames fs rs conditions = fs ++ pushed ∧
    Forall (λ f, frame_route f ∈ rs ∧ frame_next f = 0%nat) pushed.
Proof.
  revert fs. induction rs as [|r rs IH]; intros fs; simpl; [exists []; by rewrite app_nil_r|].
  assert (M : ∀ l, Forall (λ f, frame_route f ∈ rs ∧ frame_next f = 0%nat) l →
                   Forall (λ f, frame_route f ∈ r :: rs ∧ frame_next f = 0%nat) l).
  { intros l F. eapply Forall_impl; [exact F|]. simpl. intros f [? ?]. split; [by right|done]. }
  destruct (_ || _).
  - destruct (IH fs) as (pushed & E & F). exists pushed. auto.
  - destruct (IH (fs ++ [mkFrame r conditions 0])) as (pushed & E & F).
    exists (mkFrame r conditions 0 :: pushed). rewrite E, <- app_assoc. split; [done|].
    constructor; [|auto]. split; [left|done].
Qed.

(** ** A measure of the frames

    Read from the first frame to the last, the fallbacks each has left are the
    digits of a number: dropping frames, advancing the next one and pushing others
    above it makes it smaller. *)

Definition left (f : routeWalkFrame) : nat := length (route_fallbacks (frame_route f)) - frame_next f.

Section Measure.
Context (base : nat).
Definition small (f : routeWalkFrame) : Prop := (S (S (length (route_fallbacks (frame_route f)))) <= base)%nat.

Fixpoint digits (n : nat) (fs : list routeWalkFrame) : nat :=
  match n, fs with
  | S n', f :: fs' => S (left f) * base ^ n' + digits n' fs'
  | _, _ => 0
  end.

Lemma digits_bound n fs : (2 <= base)%nat → Forall small fs → (digits n fs < base ^ n)%nat.
Proof.
  intros B. revert fs. induction n as [|n IH]; intros [|f fs] F; simpl; try lia.
  - pose proof (Nat.pow_nonzero base n). nia.
  - apply Forall_cons in F as [Sf F]. specialize (IH fs F). unfold small, left in *.
    assert (S (length (route_fallbacks (frame_route f)) - frame_next f) <= base - 1)%nat by lia. nia.
Qed.

Lemma digits_decrease n pfx f f' rest rest' :
  (2 <= base)%nat → Forall small rest' → (length pfx < n)%nat → (left f' < left f)%nat →
  (digits n (pfx ++ f' :: rest') < digits n (pfx ++ f :: rest))%nat.
Proof.
  intros B F. revert n. induction pfx as [|g pfx IH]; intros [|n] L D; simpl in *; try lia.
  - pose proof (digits_bound n rest' B F). nia.
  - specialize (IH n ltac:(lia) D). lia.
Qed.
End Measure.

(** ** The invariant of a request *)

Section Request.
Context (routes : gmap string Route) (authorize : Route → bool).
Context (planRoute : nat → Route → planned) (costExcluded : Route → bool) (ctxErr : nat → bool).

(** What publication checks of a snapshot: each route is filed under its slug. *)
Definition keyed : Prop := ∀ slug r, routes !! slug = Some r → Route_Slug r = slug.

(** Plans have an attempt to spend. *)
Definition plans_positive : Prop := ∀ n r,
  match planRoute n r with
  | PlanDelegates p | PlanAdopted p _ => 1 <= Plan_Budget p
  | PlanRefused _ => True
  end.

(** The routes the request has not been on. *)
Definition unvisited (x : call) : nat :=
  size (base.filter (λ kv : string * Route, kv.1 ∉ visited (C_walk x)) routes).

(** Every route the request moved to is published and allowed. *)
Definition moved_allowed (x : call) : Prop :=
  ∀ slug, slug ∈ visited (C_walk x) → (∃ p, C_primary x = Some p ∧ Route_Slug p = slug) ∨
    ∃ r, routes !! slug = Some r ∧ authorize r = true.

(** What a request keeps as it moves: [B] is the allowance once it is set. *)
Record call_inv (B : Z) (x : call) : Prop := {
  ci_walks : walks (C_walk x);
  ci_allowed : moved_allowed x;
  ci_spent : 0 <= C_spent x;
  ci_allowance : C_allowance x = 0 ∨ C_allowance x = B;
  ci_budget : C_budget x <= Z.max (C_spent x) (C_allowance x);
}.

(** How moves relate two states of a request. *)
Record moves (x x' : call) : Prop := {
  mv_primary : C_primary x' = C_primary x;
  mv_fixed : C_fixed x' = C_fixed x;
  mv_spent : C_spent x' = C_spent x;
  mv_unvisited : (unvisited x' <= unvisited x)%nat;
  mv_allowance : C_allowance x ≠ 0 → C_allowance x' = C_allowance x;
}.

#[local] Instance moves_preorder : PreOrder moves.
Proof.
  split; [by intros x; split|]. intros x y z [P1 F1 S1 U1 A1] [P2 F2 S2 U2 A2].
  split; [congruence..|lia|]. intros N. rewrite A2; [auto|]. by rewrite A1.
Qed.

Lemma moves_trans x y z : moves x y → moves y z → moves x z.
Proof. intros H1 H2. by transitivity y. Qed.

Lemma moves_same x x' :
  C_primary x' = C_primary x → C_fixed x' = C_fixed x → C_spent x' = C_spent x →
  visited (C_walk x') = visited (C_walk x) → C_allowance x' = C_allowance x → moves x x'.
Proof. intros P F S V A. split; try done. unfold unvisited. by rewrite V. Qed.

Lemma unvisited_move x x' slug r :
  routes !! slug = Some r → slug ∉ visited (C_walk x) →
  visited (C_walk x') = visited (C_walk x) ++ [slug] → (unvisited x' < unvisited x)%nat.
Proof.
  intros E N V. unfold unvisited. rewrite V.
  set (m := base.filter (λ kv : string * Route, kv.1 ∉ visited (C_walk x)) routes).
  assert (M : m !! slug = Some r) by (apply map_lookup_filter_Some; auto).
  assert (base.filter (λ kv : string * Route, kv.1 ∉ visited (C_walk x) ++ [slug]) routes ⊆ delete slug m) as Sub.
  { apply map_subseteq_spec. intros s v (Es & Ns)%map_lookup_filter_Some. simpl in Ns.
    rewrite lookup_delete_ne by set_solver. apply map_lookup_filter_Some. split; [done|]. simpl. set_solver. }
  apply map_subseteq_size in Sub. rewrite map_size_delete_Some in Sub by (by eexists).
  assert (size m ≠ 0%nat) by (apply map_size_ne_0_lookup_2 with slug; by eexists). lia.
Qed.

Lemma moved_allowed_same x x' :
  C_primary x' = C_primary x → visited (C_walk x') = visited (C_walk x) → moved_allowed x → moved_allowed x'.
Proof. intros P V M slug. rewrite P, V. apply M. Qed.

(** A change of bookkeeping only. *)
Lemma call_inv_same B x x' :
  call_inv B x → C_primary x' = C_primary x → C_walk x' = C_walk x → C_spent x' = C_spent x →
  C_allowance x' = C_allowance x → C_budget x' <= Z.max (C_spent x) (C_allowance x) → call_inv B x'.
Proof.
  intros [W M S A Bd] EP EW ES EA EB. split; [by rewrite EW| |lia|by rewrite EA|lia].
  by apply (moved_allowed_same x); [|rewrite EW|].
Qed.

Lemma use_route_inv B x slug route via :
  keyed → call_inv B x → routes !! slug = Some route → Visited (C_walk x) slug = false →
  authorize route = true →
  call_inv B (useRoute x route via) ∧ (unvisited (useRoute x route via) < unvisited x)%nat ∧
  moves x (useRoute x route via).
Proof.
  intros K [W M S A Bd] E V Au. pose proof (K _ _ E) as Sl. pose proof V as V'. apply Contains_false in V'.
  assert (Vi : visited (C_walk (useRoute x route via)) = visited (C_walk x) ++ [slug]).
  { unfold useRoute, Move. simpl. rewrite Sl. by destruct (String.eqb via ViaSelector). }
  assert (U : (unvisited (useRoute x route via) < unvisited x)%nat) by (by eapply unvisited_move).
  split; [|split; [done|split; try done; lia]].
  split; simpl; [|..|done|lia].
  - apply walks_move; [done|]. by rewrite Sl.
  - intros s. rewrite Vi. simpl. intros [Hs|Hs%list_elem_of_singleton]%elem_of_app; [by apply M|].
    subst s. right. eauto.
  - done.
Qed.

Definition plans_to (B : Z) (plan : call → option (call * option string)) (y : call) : Prop :=
  ∃ y' e, plan y = Some (y', e) ∧ call_inv B y' ∧ moves y y'.

Lemma adopt_spec B plan x slug via :
  keyed → call_inv B x → C_allowance x ≠ 0 →
  (∀ y, call_inv B y → (unvisited y < unvisited x)%nat → C_allowance y ≠ 0 → plans_to B plan y) →
  ∃ x' outcome e, adopt routes authorize plan x slug via = Some (x', outcome, e) ∧
    call_inv B x' ∧ moves x x' ∧
    ((unvisited x' < unvisited x)%nat ∨ x' = x ∧ outcome ≠ FallbackPlanned).
Proof.
  intros K I N P. unfold adopt. destruct (Visited (C_walk x) slug) eqn:V.
  { exists x, FallbackRepeated, None. split; [done|]. split; [done|]. split; [reflexivity|]. by right. }
  destruct (routes !! slug) as [route|] eqn:E.
  2: { exists x, FallbackUnavailable, None. split; [done|]. split; [done|]. split; [reflexivity|]. by right. }
  destruct (authorize route) eqn:Au; simpl.
  2: { exists x, FallbackForbidden, None. split; [done|]. split; [done|]. split; [reflexivity|]. by right. }
  destruct (use_route_inv B x slug route via K I E V Au) as (Iu & Uu & Mu).
  destruct (P _ Iu Uu N) as (y & e & -> & Iy & My).
  assert (unvisited y < unvisited x)%nat by (pose proof (mv_unvisited _ _ My); lia).
  destruct e as [e|]; eexists y, _, _; (split; [reflexivity|]; split; [done|]; split; [by transitivity (useRoute x route via)|by left]).
Qed.

(** The allowance a plan sets. *)
Lemma initAllowance_spec B x n :
  call_inv B x → (C_allowance x = 0 → C_spent x + n = B) → 1 <= n →
  call_inv B (initAllowance x n) ∧ moves x (initAllowance x n) ∧ C_allowance (initAllowance x n) = B ∧
  unvisited (initAllowance x n) = unvisited x ∧ B ≠ 0.
Proof.
  intros I E N. pose proof (ci_spent _ _ I). pose proof (ci_budget _ _ I). unfold initAllowance.
  destruct (Z.eqb_spec (C_allowance x) 0) as [Z0|NZ].
  - specialize (E Z0). split; [|split; [|split; [done|split; [done|lia]]]].
    + split; simpl; [apply I| |done|by right|lia]. by apply (moved_allowed_same x); [| |apply I].
    + by split.
  - destruct (ci_allowance _ _ I) as [|A]; [done|]. split; [done|]. split; [reflexivity|]. split; [done|]. split; [done|lia].
Qed.

Lemma replan_spec B fuel x :
  keyed → plans_positive → call_inv B x → (unvisited x < fuel)%nat →
  (C_allowance x = 0 → match planRoute (S (C_tick x)) (C_route x) with
                       | PlanDelegates p | PlanAdopted p _ => C_spent x + Plan_Budget p = B
                       | PlanRefused _ => True end) →
  plans_to B (replan routes authorize planRoute costExcluded fuel) x.
Proof.
  intros K PP. revert x. induction fuel as [|fuel IH]; intros x I U A0; [lia|].
  unfold plans_to. cbn [replan]. set (x1 := replanned x).
  assert (I1 : call_inv B x1) by (by apply (call_inv_same B x); [| | | | |apply I]).
  assert (M1 : moves x x1) by (by apply moves_same).
  assert (U1 : unvisited x1 = unvisited x) by done.
  change (planRoute (C_tick x1) (C_route x1)) with (planRoute (S (C_tick x)) (C_route x)).
  pose proof (PP (S (C_tick x)) (C_route x)) as Pos.
  destruct (planRoute (S (C_tick x)) (C_route x)) as [e|p|p e].
  - by exists x1, (Some e).
  - destruct (initAllowance_spec B x1 (Plan_Budget p) I1 A0 Pos) as (I2 & M2 & A2 & U2 & NZ).
    set (x2 := initAllowance x1 (Plan_Budget p)) in *. unfold delegate. fold x2.
    destruct (adopt_spec B (replan routes authorize planRoute costExcluded fuel) x2 (Delegate p) ViaSelector K I2)
      as (x3 & outcome & e & -> & I3 & M3 & _); [by rewrite A2| |].
    { intros y Iy Uy Ny. apply IH; [done|lia|done]. }
    assert (M : moves x x3) by (transitivity x1; [done|by transitivity x2]).
    destruct e as [e|]; [by exists x3, (Some e)|].
    destruct (String.eqb outcome FallbackPlanned); simpl; [|by eexists x3, _].
    destruct (String.eqb (C_selector x3) ""); [|by exists x3, None].
    exists (with_selector x3 (Selected p)), None. split; [done|].
    split; [by apply (call_inv_same B x3); [| | | | |apply I3]|].
    transitivity x3; [done|by apply moves_same].
  - destruct (initAllowance_spec B x1 (Plan_Budget p) I1 A0 Pos) as (I2 & M2 & A2 & U2 & NZ).
    exists (adoptPlan x1 p), e. split; [done|]. set (x2 := initAllowance x1 (Plan_Budget p)) in *.
    split; [apply (call_inv_same B x2); [done..|]; unfold adoptPlan; fold x2; simpl; lia|].
    transitivity x1; [done|]. transitivity x2; [done|by apply moves_same].
Qed.

Lemma unvisited_le x : (unvisited x < plan_fuel routes)%nat.
Proof.
  unfold unvisited, plan_fuel.
  assert (base.filter (λ kv : string * Route, kv.1 ∉ visited (C_walk x)) routes ⊆ routes)
    as F%map_subseteq_size by apply map_filter_subseteq. lia.
Qed.

(** The loop returns, with enough fuel, a state [x'] of the request. *)
Definition returns (B : Z) (run : nat → option (call * bool)) (x : call) : Prop :=
  ∃ n x' b, (∀ fuel, (n <= fuel)%nat → run fuel = Some (x', b)) ∧
    call_inv B x' ∧ moves x x' ∧ (b = true → (unvisited x' < unvisited x)%nat).

(** Frames and trail with few enough fallbacks for the base. *)
Record sized (base : nat) (w : RouteWalk) : Prop := {
  sz_base : (2 <= base)%nat;
  sz_frames : Forall (small base) (frames w);
  sz_trail : Forall (λ r, (S (S (length (route_fallbacks r))) <= base)%nat) (trail w);
}.

Lemma sized_exists w : ∃ base, sized base w.
Proof.
  set (rs := map frame_route (frames w) ++ trail w).
  set (base := S (S (sum_list_with (λ r, length (route_fallbacks r)) rs))).
  assert (H : ∀ r, r ∈ rs → (S (S (length (route_fallbacks r))) <= base)%nat).
  { intros r Hr. unfold base. pose proof (sum_list_with_in r (λ r, length (route_fallbacks r)) rs Hr). lia. }
  exists base. split; [unfold base; lia|..].
  - apply Forall_forall. intros f Hf. apply H. unfold rs. rewrite elem_of_app. left.
    apply list_elem_of_fmap. eauto.
  - apply Forall_forall. intros r Hr. apply H. unfold rs. rewrite elem_of_app. by right.
Qed.

(** Consuming a fallback and pushing the trail again makes the frames smaller. *)
Lemma next_failed_smaller base w w' step w'' conditions :
  walks w → sized base w → Next w = Some (w', step, true) → w'' = w' ∨ w'' = Failed w' conditions →
  sized base w'' ∧ trail w'' = trail w ∧ visited w'' = visited w ∧
  (digits base (length (visited w)) (frames w'') < digits base (length (visited w)) (frames w))%nat.
Proof.
  intros W [B F T] N W''. pose proof (walks_inv _ W) as [O V FN FV TV].
  pose proof (Next_ok w O) as (w1 & s1 & ok1 & pre & N1 & O1 & T1 & V1 & _).
  rewrite N in N1. injection N1 as <- <- <-.
  destruct (Next_fuel_step _ _ _ _ N) as (pfx & f & rest & m & Ef & Ef' & M).
  set (f' := mkFrame (frame_route f) (frame_conditions f) m) in *.
  assert (∃ pushed, frames w'' = pfx ++ f' :: pushed ∧ Forall (small base) pushed) as (pushed & Ep & Sp).
  { destruct W'' as [-> | ->]; [exists []; by rewrite Ef'|]. unfold Failed. simpl.
    destruct (appendWalkFrames_app (frames w') (trail w') conditions) as (pushed & -> & Fp).
    exists pushed. rewrite Ef', <- app_assoc. split; [done|]. eapply Forall_impl; [exact Fp|].
    intros g [Hg _]. rewrite T1 in Hg. rewrite Forall_forall in T. by apply T. }
  assert (T'' : trail w'' = trail w) by (destruct W'' as [-> | ->]; done).
  assert (V'' : visited w'' = visited w) by (destruct W'' as [-> | ->]; done).
  rewrite Ef in F. apply Forall_app in F as [Fp [Ff Fr]%Forall_cons].
  split; [|split; [done|split; [done|]]].
  - split; [done| |by rewrite T'']. rewrite Ep. apply Forall_app. split; [done|]. by constructor.
  - rewrite Ep, Ef. apply digits_decrease; [done|done| |unfold left, f'; simpl; lia].
    assert (length (frame_slugs (frames w)) <= length (visited w))%nat as L.
    { apply submseteq_length, NoDup_submseteq; [done|exact FV]. }
    unfold frame_slugs in L. rewrite length_map, Ef, length_app in L. simpl in L. lia.
Qed.

Lemma fallBackLoop_spec B x :
  keyed → plans_positive → call_inv B x →
  returns B (λ fuel, fallBackLoop routes authorize planRoute costExcluded ctxErr fuel x) x.
Proof.
  intros K PP. remember (unvisited x) as u eqn:Hu. revert x Hu.
  induction u as [u IHu] using lt_wf_ind. intros x Hu I.
  destruct (sized_exists (C_walk x)) as [base Sz].
  remember (digits base (length (visited (C_walk x))) (frames (C_walk x))) as d eqn:Hd.
  revert x Hu I Sz Hd. induction d as [d IHd] using lt_wf_ind. intros x -> I Sz ->.
  set (x0 := mkCall (C_primary x) (C_fixed x) (C_route x) (C_via x) (C_walk x) (C_spent x) (C_allowance x)
    (C_budget x) (C_attempts x) (C_conditions x) (C_selector x) (C_fallbacks x) (S (C_tick x))).
  assert (I0 : call_inv B x0) by (by apply (call_inv_same B x); [| | | | |apply I]).
  assert (M0 : moves x x0) by (by apply moves_same).
  assert (Done : ∀ y, call_inv B y → moves x y →
    (∀ fuel, fallBackLoop routes authorize planRoute costExcluded ctxErr (S fuel) x = Some (y, false)) →
    returns B (λ fuel, fallBackLoop routes authorize planRoute costExcluded ctxErr fuel x) x).
  { intros y Iy My E. exists 1%nat, y, false. split; [intros [|fuel] Hf; [lia|apply E]|]. split; [done|]. by split. }
  destruct (negb (C_spent x0 <? C_allowance x0) || ctxErr (C_tick x0)) eqn:Stop.
  { apply (Done x0); [done|done|]. intros fuel. cbn [fallBackLoop]. fold x0. by rewrite Stop. }
  assert (NZ : C_allowance x ≠ 0).
  { pose proof (ci_spent _ _ I). simpl in Stop. intros Z0. rewrite Z0 in Stop.
    apply orb_false_iff in Stop as [Stop _]. lia. }
  destruct (Next_ok (C_walk x)) as (w & step & ok & pre & N & _ & T1 & V1 & _);
    [by apply walks_inv, I|].
  set (x1 := with_walk x0 w).
  assert (I1 : call_inv B x1).
  { split; simpl; [eapply walks_next; [apply I|exact N]| |apply I..].
    apply (moved_allowed_same x); [done|done|apply I]. }
  assert (M1 : moves x x1) by (by apply moves_same).
  destruct ok; simpl in N.
  2: { apply (Done x1); [done|done|]. intros fuel. cbn [fallBackLoop]. fold x0. rewrite Stop.
       change (C_walk x0) with (C_walk x). by rewrite N. }
  destruct (adopt_spec B (replan routes authorize planRoute costExcluded (plan_fuel routes)) x1 (Step_Route step) ViaFallback K I1)
    as (x2 & outcome & e & A & I2 & M2 & Mv); [done| |].
  { intros y Iy Uy Ny. apply replan_spec; [done|done|done|apply unvisited_le|done]. }
  set (x3 := with_step x2 (with_outcome step outcome)).
  set (x4 := if nonempty (C_conditions x3) then with_walk x3 (Failed (C_walk x3) (C_conditions x3)) else x3).
  assert (I3 : call_inv B x3) by (by apply (call_inv_same B x2); [| | | | |apply I2]).
  assert (M3 : moves x x3) by (transitivity x1; [done|transitivity x2; [done|by apply moves_same]]).
  assert (U3 : unvisited x3 = unvisited x2) by done.
  assert (U1 : unvisited x1 = unvisited x) by (unfold unvisited, x1; simpl; by rewrite V1).
  assert (I4 : call_inv B x4).
  { unfold x4. destruct (nonempty _); [|done]. split; simpl; [apply walks_failed, I3| |apply I3..].
    by apply (moved_allowed_same x3); [| |apply I3]. }
  assert (M4 : moves x x4).
  { transitivity x3; [done|]. unfold x4. destruct (nonempty _); [by apply moves_same|reflexivity]. }
  assert (Eq : ∀ fuel, fallBackLoop routes authorize planRoute costExcluded ctxErr (S fuel) x =
    if String.eqb outcome FallbackPlanned then Some (x3, true)
    else fallBackLoop routes authorize planRoute costExcluded ctxErr fuel x4).
  { intros fuel. cbn [fallBackLoop]. fold x0. rewrite Stop. change (C_walk x0) with (C_walk x). rewrite N.
    simpl negb. cbv iota. fold x1. by rewrite A. }
  destruct (String.eqb_spec outcome FallbackPlanned) as [Pl|Pl].
  { exists 1%nat, x3, true. split; [intros [|fuel] Hf; [lia|apply Eq]|]. split; [done|].
    split; [done|]. intros _. destruct Mv as [Mv|[_ Mv]]; [lia|done]. }
  assert (R4 : returns B (λ fuel, fallBackLoop routes authorize planRoute costExcluded ctxErr fuel x4) x4).
  { destruct Mv as [Mv|[-> _]].
    - apply (IHu (unvisited x4)); [|done|done].
      assert (unvisited x4 = unvisited x3) as -> by (unfold x4; by destruct (nonempty _)). lia.
    - destruct (next_failed_smaller base (C_walk x) w step (C_walk x4) (C_conditions x3)) as (Sz' & T' & V' & D');
        [apply I|done|exact N| |].
      { unfold x4. destruct (nonempty _); [by right|by left]. }
      assert (U4 : unvisited x4 = unvisited x) by (unfold unvisited; by rewrite V').
      rewrite <- V' in D' at 1. apply (IHd _ D'); [done|done|done|done]. }
  destruct R4 as (n & x' & b & E & I' & M' & Ub). exists (S n), x', b.
  split; [intros [|fuel] Hf; [lia|rewrite Eq; apply E; lia]|]. split; [done|]. split; [by transitivity x4|]. intros Hb. specialize (Ub Hb).
  pose proof (mv_unvisited _ _ M4). lia.
Qed.

Lemma fallBack_spec B x conditions :
  keyed → plans_positive → call_inv B x →
  returns B (λ fuel, fallBack routes authorize planRoute costExcluded ctxErr fuel x conditions) x.
Proof.
  intros K PP I. unfold fallBack. destruct (negb (is_some (C_primary x)) || C_fixed x).
  { exists 0%nat, x, false. split; [done|]. split; [done|]. by split. }
  set (x1 := with_walk x (Failed (C_walk x) conditions)).
  assert (I1 : call_inv B x1).
  { split; simpl; [apply walks_failed, I| |apply I..]. by apply (moved_allowed_same x); [| |apply I]. }
  assert (M1 : moves x x1) by (by apply moves_same).
  destruct (fallBackLoop_spec B x1 K PP I1) as (n & x' & b & E & I' & M' & U). exists n, x', b.
  split; [done|]. split; [done|]. split; [by transitivity x1|]. intros Hb. exact (U Hb).
Qed.
End Request.

(** ** The request as a whole *)

Section Whole.
Context (routes : gmap string Route) (authorize : Route → bool).
Context (planRoute : nat → Route → planned) (w : World) (workflow : bool).
Context (reserveFallbackCost : nat → Route → option string) (costExcluded : Route → bool)
        (serverStatus : call_error → bool).
Notation inv := (call_inv routes authorize).
Notation run := (runAttempts routes authorize planRoute w workflow reserveFallbackCost costExcluded serverStatus).

(** The attempts recorded are the budget spent. *)
Definition accounted (x : call) (fs : list AttemptFact) (x' : call) (fs' : list AttemptFact) : Prop :=
  ∃ new, fs' = fs ++ new ∧ C_spent x' = C_spent x + Z.of_nat (length new) ∧
    map Fact_Ordinal new = seqZ (C_spent x + 1) (Z.of_nat (length new)).

Lemma accounted_trans x fs y fy z fz :
  accounted x fs y fy → accounted y fy z fz → accounted x fs z fz.
Proof.
  intros (n1 & -> & S1 & O1) (n2 & -> & S2 & O2). exists (n1 ++ n2). rewrite <- app_assoc, length_app.
  split; [done|]. split; [lia|]. rewrite map_app, O1, O2, Nat2Z.inj_add, seqZ_app by lia.
  rewrite S1. do 2 f_equal. lia.
Qed.

Lemma accounted_moves x fs y : C_spent y = C_spent x → accounted x fs y fs.
Proof. intros E. exists []. rewrite app_nil_r. simpl. split; [done|]. split; [lia|done]. Qed.

Lemma runAttempts_spec B x fs :
  keyed routes → plans_positive planRoute → inv B x →
  ∃ n, ∀ fuel, (n <= fuel)%nat → ∃ x' fs' o, run fuel x fs = Some (x', fs', o) ∧
    inv B x' ∧ C_primary x' = C_primary x ∧ accounted x fs x' fs' ∧
    C_spent x' <= Z.max (C_spent x) (Z.max 0 B).
Proof.
  intros K PP. remember (unvisited routes x) as u eqn:Hu. revert x fs Hu.
  induction u as [u IH] using lt_wf_ind. intros x fs Hu I.
  destruct (runRoute_spec w (leg_of workflow x) (C_spent x) fs (C_tick x))
    as (r & o & conditions & Er & [X] & Bd & _). simpl in Bd.
  destruct X as (new & Ef & Es & Eo & _). simpl in Ef, Es, Eo.
  set (x1 := with_spent x (spent r) (tick r)). pose proof (ci_budget _ _ _ _ I).
  assert (Ac : accounted x fs x1 (facts r)) by (by exists new).
  assert (I1 : inv B x1).
  { split; simpl; [apply I| | |apply I|lia].
    - by apply (moved_allowed_same routes authorize x); [| |apply I].
    - pose proof (ci_spent _ _ _ _ I). lia. }
  assert (S1 : C_spent x1 <= Z.max (C_spent x) (Z.max 0 B)).
  { simpl. destruct (ci_allowance _ _ _ _ I) as [Al|Al]; rewrite Al in *; lia. }
  destruct (nonempty conditions) eqn:Nc.
  2: { exists 1%nat. intros [|fuel] Hf; [lia|]. exists x1, (facts r), (finalOutcome costExcluded serverStatus x1 o).
       split; [cbn [runAttempts]; rewrite Er; fold x1; by rewrite Nc|]. auto. }
  destruct (fallBack_spec routes authorize planRoute costExcluded (ctxErr w) B x1 conditions K PP I1)
    as (n1 & x2 & b & R1 & I2 & M2 & U2).
  assert (Eq : ∀ fuel, (n1 <= fuel)%nat → run (S fuel) x fs =
    if b then match reserveFallbackCost (C_tick x2) (C_route x2) with
              | Some e => Some (x2, facts r, fails (ErrRefused e))
              | None => run fuel x2 (facts r)
              end
    else Some (x2, facts r, finalOutcome costExcluded serverStatus x2 o)).
  { intros fuel Hf. cbn [runAttempts]. rewrite Er. fold x1. rewrite Nc. simpl negb. cbv iota.
    rewrite (R1 fuel Hf). by destruct b. }
  assert (Ac2 : accounted x fs x2 (facts r)).
  { eapply accounted_trans; [exact Ac|]. by apply accounted_moves, (mv_spent routes). }
  assert (S2 : C_spent x2 <= Z.max (C_spent x) (Z.max 0 B)) by (rewrite (mv_spent routes _ _ M2); done).
  assert (P2 : C_primary x2 = C_primary x) by (by rewrite (mv_primary routes _ _ M2)).
  destruct b.
  2: { exists (S n1). intros [|fuel] Hf; [lia|]. eexists x2, _, _. split; [apply Eq; lia|]. auto. }
  destruct (reserveFallbackCost (C_tick x2) (C_route x2)) as [e|].
  { exists (S n1). intros [|fuel] Hf; [lia|]. eexists x2, _, _. split; [apply Eq; lia|]. auto. }
  assert (Lt : (unvisited routes x2 < u)%nat) by (subst u; exact (U2 eq_refl)).
  destruct (IH _ Lt x2 (facts r) eq_refl I2) as [n2 R2].
  exists (S (Nat.max n1 n2)). intros [|fuel] Hf; [lia|].
  destruct (R2 fuel ltac:(lia)) as (x3 & fs3 & o3 & E3 & I3 & P3 & Ac3 & S3).
  exists x3, fs3, o3. split; [rewrite Eq by lia; exact E3|]. split; [done|]. split; [congruence|].
  split; [by eapply accounted_trans|lia].
Qed.
End Whole.

(** The attempt budget of the plan of the named route. *)
Definition first_budget (p : planned) : Z :=
  match p with
  | PlanRefused _ => 0
  | PlanDelegates p | PlanAdopted p _ => Plan_Budget p
  end.

(** What holds of a request that ended, having made the attempts [fs]. *)
Record request_ok (routes : gmap string Route) (authorize : Route → bool) (primary : Route)
    (spent0 budget : Z) (x : call) (fs : list AttemptFact) : Prop := {
  rq_spent : C_spent x = spent0 + Z.of_nat (length fs);
  rq_ordinals : map Fact_Ordinal fs = seqZ (spent0 + 1) (Z.of_nat (length fs));
  rq_budget : Z.of_nat (length fs) <= budget;
  rq_once : NoDup (visited (C_walk x));
  rq_allowed : ∀ slug, slug ∈ visited (C_walk x) →
    slug = Route_Slug primary ∨ ∃ r, routes !! slug = Some r ∧ authorize r = true;
}.

Lemma request_ok_intro routes authorize primary fixed spent0 budget x fs :
  0 <= spent0 → 0 <= budget → call_inv routes authorize (spent0 + budget) x →
  C_primary x = Some primary → accounted (bind primary fixed spent0) [] x fs →
  C_spent x <= Z.max spent0 (Z.max 0 (spent0 + budget)) → request_ok routes authorize primary spent0 budget x fs.
Proof.
  intros S0 B0 I P (new & -> & S & O) L. simpl in *. split; simpl; [done|done|lia| |].
  - apply walks_inv, I.
  - intros slug [(p & Hp & <-)|H]%(ci_allowed _ _ _ _ I); [|by right]. left. congruence.
Qed.

(** C3. The named route's attempt budget bounds the whole request, whichever routes
    it moves on to. Whatever planning, the providers, the upstreams and the clock
    answer, a request ends: planning, delegation and fallbacks terminate without
    waiting for the deadline, on any route graph, cyclic or not. The attempts it
    made are numbered consecutively after those spent before and are at most the
    budget of the named route's plan; it has been on no route twice, and every
    route it moved to is published and allowed to the caller. *)
Theorem request_within_budget (routes : gmap string Route) (authorize : Route → bool)
    (planRoute : nat → Route → planned) (w : World) (workflow : bool)
    (reserveFallbackCost : nat → Route → option string) (costExcluded : Route → bool)
    (serverStatus : call_error → bool) (primary : Route) (fixed : bool) (spent0 : Z) :
  keyed routes → plans_positive planRoute → 0 <= spent0 →
  ∃ n, ∀ fuel, (n <= fuel)%nat → ∃ x fs o,
    serveRequest routes authorize planRoute w workflow reserveFallbackCost costExcluded serverStatus
      fuel (bind primary fixed spent0) = Some (x, fs, o) ∧
    request_ok routes authorize primary spent0 (first_budget (planRoute 1%nat primary)) x fs.
Proof.
  intros K PP S0. set (b := first_budget (planRoute 1%nat primary)).
  set (x0 := bind primary fixed spent0).
  assert (FB : 0 <= b).
  { specialize (PP 1%nat primary). unfold b, first_budget. destruct (planRoute 1%nat primary); lia. }
  assert (I0 : call_inv routes authorize (spent0 + b) x0).
  { split; simpl; [apply walks_new| |done|by left|lia].
    intros slug Hs. left. exists primary. simpl in Hs. apply list_elem_of_singleton in Hs. by subst. }
  destruct (replan_spec routes authorize planRoute costExcluded (spent0 + b) (plan_fuel routes) x0 K PP I0
    (unvisited_le routes x0)) as (x1 & e & E1 & I1 & M1).
  { intros _. unfold b, first_budget. simpl. destruct (planRoute 1%nat primary); done. }
  (* from a planned state the attempts run *)
  assert (Go : ∀ x, call_inv routes authorize (spent0 + b) x → moves routes x0 x → ∃ n, ∀ fuel, (n <= fuel)%nat →
    ∃ y fs o, runAttempts routes authorize planRoute w workflow reserveFallbackCost costExcluded serverStatus
      fuel x [] = Some (y, fs, o) ∧ request_ok routes authorize primary spent0 b y fs).
  { intros x I M. pose proof (mv_spent _ _ _ M) as Sx. simpl in Sx.
    destruct (runAttempts_spec routes authorize planRoute w workflow reserveFallbackCost costExcluded
      serverStatus (spent0 + b) x [] K PP I) as [n R].
    exists n. intros fuel Hf. destruct (R fuel Hf) as (y & fs & o & E & Iy & Py & Ay & Sy).
    exists y, fs, o. split; [done|]. eapply (request_ok_intro _ _ _ fixed); try done.
    - rewrite Py. apply (mv_primary _ _ _ M).
    - eapply accounted_trans; [apply accounted_moves|exact Ay]. done.
    - lia. }
  (* a refused request has made no attempt *)
  assert (Stop : ∀ x, call_inv routes authorize (spent0 + b) x → moves routes x0 x →
    request_ok routes authorize primary spent0 b x []).
  { intros x I M. pose proof (mv_spent _ _ _ M) as Sx. simpl in Sx.
    eapply (request_ok_intro _ _ _ fixed); try done.
    - apply (mv_primary _ _ _ M).
    - by apply accounted_moves.
    - lia. }
  unfold serveRequest, planNamed. fold x0. rewrite E1. destruct e as [e|]; [|by apply Go].
  destruct (nonempty (C_conditions x1)); simpl; [|exists 0%nat; intros fuel _; eauto 10].
  destruct (fallBack_spec routes authorize planRoute costExcluded (ctxErr w) (spent0 + b) x1 (C_conditions x1) K PP I1)
    as (n1 & x2 & moved & R1 & I2 & M2 & _).
  assert (M12 : moves routes x0 x2) by (by eapply moves_trans).
  destruct moved.
  - destruct (Go x2 I2 M12) as [n2 R2]. exists (Nat.max n1 n2). intros fuel Hf. rewrite R1 by lia.
    apply R2. lia.
  - exists n1. intros fuel Hf. rewrite R1 by lia. eauto 10.
Qed.

(** ** Examples *)

(** A named route with one fallback; every upstream call fails. *)
Definition example_routes : gmap string Route :=
  {["a" := plain_route "a" [mkFallback "b" ["exhausted"]]; "b" := plain_route "b" []]}.

Definition example_plan (n : nat) (r : Route) : planned :=
  PlanAdopted (mkPlan [sample_attempt] [] None 3 [] "" [] None) None.

Definition failing_world : World := {|
  ctxErr := λ _, false; deadlineExceeded := λ _, false;
  providerFound := λ _ _, true; circuitOpen := λ _ _, false; checkCallerTarget := λ _ _, None;
  attemptSlots := λ _ _, ["s1"; "s2"]; servingAllowed := λ _ _ _ _, true;
  gateAttempt := λ _ _ _, GateAdmitted; workflowAuthority := λ _, None;
  reserveSessionDebit := λ _ _ _, None;
  dispatchWithAuthority := λ _ _ _,
    mkDispatched (Some (mkFailure "upstream_server" false false true "" 0)) None None None None false;
  cooldownFailure := λ _ _ _ _, false; pastDeadline := λ _ _ _, false; pauses := λ _, true |}.

Lemma request_within_budget_witness :
  let serve fuel := serveRequest example_routes (λ _, true) example_plan failing_world false
                      (λ _ _, None) (λ _, false) (λ _, true) fuel
                      (bind (plain_route "a" [mkFallback "b" ["exhausted"]]) false 0) in
  (∃ n, ∀ fuel, (n <= fuel)%nat → ∃ x fs o, serve fuel = Some (x, fs, o) ∧
     request_ok example_routes (λ _, true) (plain_route "a" [mkFallback "b" ["exhausted"]]) 0 3 x fs) ∧
  match serve 10%nat with
  | Some (x, fs, o) => map Fact_SlotID fs = ["s1"; "s2"; "s1"] ∧ visited (C_walk x) = ["a"; "b"]
  | None => False
  end.
Proof.
  intros serve. split; [|vm_compute; split; reflexivity].
  apply (request_within_budget example_routes (λ _, true) example_plan failing_world false
    (λ _ _, None) (λ _, false) (λ _, true) (plain_route "a" [mkFallback "b" ["exhausted"]]) false 0).
  - intros slug r H. unfold example_routes in H. rewrite lookup_insert_Some, lookup_singleton_Some in H.
    destruct H as [[<- <-]|[_ [<- <-]]]; reflexivity.
  - intros n r. simpl. lia.
  - lia.
Defined.

(** A route no target of which may spend. *)
Definition capped_plan (n : nat) (r : Route) : planned :=
  PlanAdopted
    (mkPlan [] [mkDecision None "t" "p" "m" false 0 "weighted" None None (Some "route_budget_exhausted")
                  None None None None None None None None None false false None None]
       None 2 [] "" [] None) (Some NoEligibleTargets).

(** The conditions of the last plan outlive the step they were met in. When a
    fallback is skipped before it is planned, [fallBack] records the failure of the
    route the request is still on again, with the conditions of its earlier plan;
    by then that route's fallbacks may all have been considered, and they are
    considered and recorded a second time. Here route [b], the first fallback of
    [a], is refused for its budget; the key may use neither its own fallback [c]
    nor [d], the second fallback of [a]; the step from [b] to [c] is recorded twice. *)
Theorem stale_conditions_repeat_fallbacks :
  let a := plain_route "a" [mkFallback "b" ["budget"]; mkFallback "d" ["budget"]] in
  let b := plain_route "b" [mkFallback "c" ["budget"]] in
  let c := plain_route "c" [] in
  let d := plain_route "d" [] in
  (λ r, C_fallbacks r.1) <$>
    planNamed {["a" := a; "b" := b; "c" := c; "d" := d]} (λ r, Contains ["a"; "b"] (Route_Slug r))
      capped_plan (λ _, false) (λ _, false) 10 (bind a false 0) =
  Some [mkStep "a" "b" ["budget"] NoEligibleTargets;
        mkStep "b" "c" ["budget"] FallbackForbidden;
        mkStep "a" "d" ["budget"] FallbackForbidden;
        mkStep "b" "c" ["budget"] FallbackForbidden].
Proof. vm_compute. reflexivity. Qed.
