(* ===== verification/Health.v ===== *)
(** * Provider health

    [internal/gateway/health.go]: the circuit of each provider, the cooldowns of its
    credential slots and the windowed counts of its attempts. Every method holds the
    tracker's mutex, so each is one atomic operation; [now] is the clock it reads. *)

From S2P Require Import Prelude Go.
Local Open Scope Z_scope.

Definition circuitFailures : Z := 5.
Definition circuitWindow : Duration := 30 * Second.
Definition circuitOpenFor : Duration := 30 * Second.
Definition credentialCooldown : Duration := Minute.
Definition rateLimitCooldown : Duration := 10 * Second.
Definition maxCooldown : Duration := Minute.
Definition healthRetention : Duration := 24 * Hour.

(** ** State *)

Record bucket := mkBucket {
  B_attempts : Z; B_successes : Z; B_rateLimits : Z; B_serverErrors : Z; B_transportErrors : Z;
  B_latency : Duration;
}.

Definition emptyBucket : bucket := mkBucket 0 0 0 0 0 0.

Record providerHealth := mkHealth {
  buckets : gmap Z bucket;
  last_attempt : Time;
  failures : Z;
  firstFailure : Time;
  openUntil : Time;
  probing : bool;
  cooldowns : gmap string Time;
}.

Definition newProvider : providerHealth := mkHealth ∅ zeroTime 0 zeroTime zeroTime false ∅.

(** A circuit transition: open until a moment, or closed when it is zero. *)
Record circuitChange := mkChange { change_provider : string; change_until : Time }.

(** [changes] is the buffered channel to the fleet, with its capacity. *)
Record healthTracker := mkTracker {
  providers : gmap string providerHealth;
  changes : option (nat * list circuitChange);
}.

Definition newHealthTracker : healthTracker := mkTracker ∅ None.

(** What [record] reads of an attempt: [Fact_interaction] is set for a strict
    interaction, [Fact_carried] for traffic a plugin carries. *)
Record healthFact := mkHealthFact {
  Fact_class : string;
  Fact_duration : Duration;
  Fact_status : Z;
  Fact_localRefusal : bool;
  Fact_interaction : bool;
  Fact_carried : bool;
}.

(** ** Operations *)

Definition provider_ (h : healthTracker) (id : string) : providerHealth :=
  match providers h !! id with Some p => p | None => newProvider end.

Definition put (h : healthTracker) (id : string) (p : providerHealth) : healthTracker :=
  mkTracker (<[id := p]> (providers h)) (changes h).

(** The circuit rejects attempts. *)
Definition rejects (p : providerHealth) (now : Time) : bool := probing p || Before now (openUntil p).

Definition open (h : healthTracker) (now : Time) (id : string) : healthTracker * bool :=
  let p := provider_ h id in (put h id p, rejects p now).

Definition openCircuits (h : healthTracker) (now : Time) : Z :=
  Z.of_nat (size (base.filter (λ kv : string * providerHealth, rejects kv.2 now = true) (providers h))).

Definition coolingDown (h : healthTracker) (now : Time) (id slot : string) : healthTracker * bool :=
  let p := provider_ h id in
  (put h id p, Before now (default zeroTime (cooldowns p !! slot))).

(** How long one rejection sidelines a slot. *)
Definition cooldownDuration (d : Duration) : Duration :=
  if d <=? 0 then rateLimitCooldown else Z.min d maxCooldown.

Definition with_cooldowns (p : providerHealth) (c : gmap string Time) : providerHealth :=
  mkHealth (buckets p) (last_attempt p) (failures p) (firstFailure p) (openUntil p) (probing p) c.

Definition cooldown (h : healthTracker) (now : Time) (id slot : string) (d : Duration) : healthTracker :=
  let p := provider_ h id in
  put h id (with_cooldowns p (<[slot := now + cooldownDuration d]> (cooldowns p))).

Definition endCooldown (h : healthTracker) (id slot : string) : healthTracker :=
  let p := provider_ h id in put h id (with_cooldowns p (delete slot (cooldowns p))).

(** A full queue drops the transition. *)
Definition publish (h : healthTracker) (id : string) (until : Time) : healthTracker :=
  match changes h with
  | Some (room, sent) =>
      if (length sent <? room)%nat
      then mkTracker (providers h) (Some (room, sent ++ [mkChange id until])) else h
  | None => h
  end.

(** What an attempt's class says of the endpoint. *)
Inductive evidence := Works | Limited | ServerFailed | TransportFailed | Silent.

Definition evidence_of (f : healthFact) : evidence :=
  if Fact_localRefusal f && negb (String.eqb (Fact_class f) "success") then Silent
  else if String.eqb (Fact_class f) "success" then Works
  else if String.eqb (Fact_class f) "rate_limit" then Limited
  else if String.eqb (Fact_class f) "upstream_server" then ServerFailed
  else if existsb (String.eqb (Fact_class f)) ["connect"; "timeout"; "protocol"] then TransportFailed
  else if String.eqb (Fact_class f) "ambiguous" then
    if negb (Fact_interaction f) && negb (Fact_carried f) then Silent
    else if Fact_status f >=? 500 then ServerFailed else TransportFailed
  else Silent.

Definition failed_endpoint (e : evidence) : bool :=
  match e with ServerFailed | TransportFailed => true | _ => false end.

Definition one_if (b : bool) : Z := if b then 1 else 0.

(** The attempt is counted in its minute. *)
Definition count_attempt (b : bucket) (f : healthFact) : bucket :=
  let e := evidence_of f in
  mkBucket (B_attempts b + 1)
    (B_successes b + one_if (match e with Works => true | _ => false end))
    (B_rateLimits b + one_if (match e with Limited => true | _ => false end))
    (B_serverErrors b + one_if (match e with ServerFailed => true | _ => false end))
    (B_transportErrors b + one_if (match e with TransportFailed => true | _ => false end))
    (B_latency b + Fact_duration f).

(** A new minute drops the buckets past retention and the cooldowns that ended. *)
Definition open_bucket (p : providerHealth) (now minute : Z) : gmap Z bucket * gmap string Time :=
  match buckets p !! minute with
  | Some _ => (buckets p, cooldowns p)
  | None =>
      (base.filter (λ kv : Z * bucket, ¬ kv.1 < minute - healthRetention / Minute)
         (<[minute := emptyBucket]> (buckets p)),
       base.filter (λ kv : string * Time, Before now kv.2 = true) (cooldowns p))
  end.

(** The circuit after the evidence of an attempt, with the moment to publish. *)
Definition advance (p : providerHealth) (now : Time) (e : evidence) (probe : bool)
  : Z * Time * Time * option Time :=
  match e with
  | Works =>
      (0, firstFailure p, zeroTime, if IsZero (openUntil p) then None else Some zeroTime)
  | Limited | Silent => (failures p, firstFailure p, openUntil p, None)
  | ServerFailed | TransportFailed =>
      let until := now + circuitOpenFor in
      if probe then (0, firstFailure p, until, Some until)
      else
        let '(n, first) := if (failures p =? 0) || (now - firstFailure p >? circuitWindow)
                           then (0, now) else (failures p, firstFailure p) in
        let n := n + 1 in
        if n >=? circuitFailures then (0, first, until, Some until)
        else (n, first, openUntil p, None)
  end.

Definition record (h : healthTracker) (now : Time) (id : string) (f : healthFact) (probe : bool)
  : healthTracker :=
  let p := provider_ h id in
  let minute := Z.quot (Unix now) 60 in
  let '(bs, cs) := open_bucket p now minute in
  let b := default emptyBucket (bs !! minute) in
  let '(n, first, until, change) := advance p now (evidence_of f) probe in
  let h := put h id (mkHealth (<[minute := count_attempt b f]> bs) now n first until
                       (if probe then false else probing p) cs) in
  match change with Some t => publish h id t | None => h end.

(** The half-open probe, and whether the attempt may go on. *)
Definition claim (h : healthTracker) (now : Time) (id : string) : healthTracker * bool * bool :=
  let p := provider_ h id in
  if rejects p now then (put h id p, false, false)
  else
    let probed := negb (IsZero (openUntil p)) in
    (put h id (if probed then mkHealth (buckets p) (last_attempt p) (failures p) (firstFailure p)
                                (openUntil p) true (cooldowns p) else p), probed, true).

Definition releaseProbe (h : healthTracker) (id : string) : healthTracker :=
  let p := provider_ h id in
  put h id (mkHealth (buckets p) (last_attempt p) (failures p) (firstFailure p) (openUntil p) false (cooldowns p)).

Record HealthStats := mkStats {
  S_attempts : Z; S_successes : Z; S_rateLimits : Z; S_serverErrors : Z; S_transportErrors : Z;
  S_latency : Duration; S_last : Time;
}.

(** The counts of the buckets of the window, for providers that had attempts. *)
Definition ProviderHealth (h : healthTracker) (now : Time) (window : Duration) : gmap string HealthStats :=
  let since := Z.quot (Unix (now - window)) 60 in
  omap (λ p : providerHealth,
      let total (get : bucket → Z) :=
        map_fold (λ minute b n, if minute <? since then n else n + get b) 0 (buckets p) in
      if total B_attempts >? 0
      then Some (mkStats (total B_attempts) (total B_successes) (total B_rateLimits)
                   (total B_serverErrors) (total B_transportErrors) (total B_latency) (last_attempt p))
      else None) (providers h).

(** ** Interleaved attempts

    A run of the gateway as the tracker sees it: attempts claim their provider
    ([gateSlot]), and each hold is later settled once, by recording its outcome or
    by abandoning it before dispatch ([releaseHold], [settlePinHold]). Polls of
    durable work record without a hold; cooldowns and reads interleave freely. *)

Record hold := mkHold { hold_provider : string; hold_probed : bool }.

Inductive event :=
  | EvClaim (now : Time) (id : string)
  | EvLand (i : nat) (now : Time) (f : healthFact)
  | EvAbandon (i : nat)
  | EvStray (now : Time) (id : string) (f : healthFact)
  | EvOpen (now : Time) (id : string)
  | EvCooling (now : Time) (id slot : string)
  | EvCooldown (now : Time) (id slot : string) (d : Duration)
  | EvEndCooldown (id slot : string).

(** [releaseHold] *)
Definition releaseHold (h : healthTracker) (o : hold) : healthTracker :=
  if hold_probed o then releaseProbe h (hold_provider o) else h.

Definition happen (s : healthTracker * list hold) (e : event) : healthTracker * list hold :=
  let '(h, holds) := s in
  match e with
  | EvClaim now id =>
      let '(h', probed, granted) := claim h now id in
      (h', if granted then mkHold id probed :: holds else holds)
  | EvLand i now f =>
      match holds !! i with
      | Some o => (record h now (hold_provider o) f (hold_probed o), delete i holds)
      | None => s
      end
  | EvAbandon i =>
      match holds !! i with
      | Some o => (releaseHold h o, delete i holds)
      | None => s
      end
  | EvStray now id f => (record h now id f false, holds)
  | EvOpen now id => ((open h now id).1, holds)
  | EvCooling now id slot => ((coolingDown h now id slot).1, holds)
  | EvCooldown now id slot d => (cooldown h now id slot d, holds)
  | EvEndCooldown id slot => (endCooldown h id slot, holds)
  end.

Definition history (events : list event) : healthTracker * list hold :=
  fold_left happen events (newHealthTracker, []).

(** The holds on a provider that carry its half-open probe. *)
Definition probes (id : string) (holds : list hold) : nat :=
  length (base.filter (λ o, hold_provider o = id ∧ hold_probed o = true) holds).

(** *** The probe is exclusive *)

Lemma provider_put h id p id' : provider_ (put h id p) id' = if decide (id = id') then p else provider_ h id'.
Proof.
  unfold provider_, put; simpl. case_decide as E; [subst; by rewrite lookup_insert_eq|].
  by rewrite lookup_insert_ne.
Qed.

Lemma provider_publish h id t id' : provider_ (publish h id t) id' = provider_ h id'.
Proof. unfold publish. repeat case_match; done. Qed.

Lemma probing_record h now id f probe id' :
  probing (provider_ (record h now id f probe) id')
  = if decide (id = id' ∧ probe = true) then false else probing (provider_ h id').
Proof.
  unfold record. destruct (open_bucket _ _ _), (advance _ _ _ _) as [[[? ?] ?] [?|]];
    rewrite ?provider_publish, provider_put; destruct probe; repeat case_decide; naive_solver.
Qed.

Lemma probes_cons id o holds :
  probes id (o :: holds)
  = (probes id holds + if decide (hold_provider o = id ∧ hold_probed o = true) then 1 else 0)%nat.
Proof. unfold probes. rewrite filter_cons. case_decide; simpl; lia. Qed.

Lemma probes_delete id holds i o :
  holds !! i = Some o →
  probes id holds
  = (probes id (delete i holds) + if decide (hold_provider o = id ∧ hold_probed o = true) then 1 else 0)%nat.
Proof.
  intros H. rewrite <- probes_cons. unfold probes. apply Permutation_length.
  apply filter_Permutation. by apply delete_Permutation.
Qed.

Definition probe_held (s : healthTracker * list hold) : Prop :=
  ∀ id, probes id s.2 = if probing (provider_ s.1 id) then 1%nat else 0%nat.

Lemma probe_held_same h h' holds :
  (∀ id, probing (provider_ h' id) = probing (provider_ h id)) →
  probe_held (h, holds) → probe_held (h', holds).
Proof. intros E H id. specialize (H id). simpl in *. by rewrite E. Qed.

Lemma probing_put_same h id p :
  probing p = probing (provider_ h id) →
  ∀ id', probing (provider_ (put h id p) id') = probing (provider_ h id').
Proof. intros E id'. rewrite provider_put. by case_decide; subst. Qed.

#[local] Hint Resolve probe_held_same probing_put_same : olp.

(** Settling a hold clears the flag exactly when the hold carries the probe. *)
Lemma probe_held_settle h h' holds i o :
  holds !! i = Some o →
  (∀ id, probing (provider_ h' id)
         = if decide (hold_provider o = id ∧ hold_probed o = true) then false else probing (provider_ h id)) →
  probe_held (h, holds) → probe_held (h', delete i holds).
Proof.
  intros Hi E H id. specialize (H id). specialize (E id). simpl in *. rewrite E.
  rewrite (probes_delete id holds i o Hi) in H. case_decide; [|lia].
  destruct (probing (provider_ h id)); lia.
Qed.

Lemma probe_held_claim h holds now id :
  probe_held (h, holds) → probe_held (happen (h, holds) (EvClaim now id)).
Proof.
  intros H. unfold happen, claim, rejects. destruct (probing (provider_ h id)) eqn:P; simpl.
  { eauto with olp. }
  destruct (Before now _); simpl; [eauto with olp|].
  intros id'. simpl. rewrite probes_cons, provider_put. specialize (H id'). simpl in *.
  destruct (IsZero _); simpl; repeat case_decide; simplify_eq/=; try naive_solver lia.
  all: rewrite P in H; try lia; naive_solver.
Qed.

Lemma probe_held_happen s e : probe_held s → probe_held (happen s e).
Proof.
  destruct s as [h holds]. intros H. destruct e; [by apply probe_held_claim| ..]; simpl;
    try (eauto with olp; fail).
  - destruct (holds !! i) as [o|] eqn:Hi; [|done]. eapply probe_held_settle; eauto.
    intros. apply probing_record.
  - destruct (holds !! i) as [o|] eqn:Hi; [|done]. eapply probe_held_settle; eauto.
    intros id. unfold releaseHold, releaseProbe. destruct (hold_probed o); rewrite ?provider_put;
      repeat case_decide; naive_solver.
  - eapply probe_held_same; [|done]. intros. rewrite probing_record. by rewrite decide_False by naive_solver.
Qed.

Lemma history_snoc events e : history (events ++ [e]) = happen (history events) e.
Proof. unfold history. by rewrite fold_left_app. Qed.

Lemma probe_held_history events : probe_held (history events).
Proof.
  induction events as [|e events IH] using rev_ind; [done|]. rewrite history_snoc.
  by apply probe_held_happen.
Qed.

(** C40. Whatever attempts interleave, at most one of a provider's unsettled
    attempts carries its half-open probe; and a claim is granted exactly when no
    unsettled attempt carries the probe and the circuit is not open, so a settled
    probe never leaves the provider wedged. A granted claim carries the probe
    exactly when the circuit had opened and not closed since. *)
Theorem half_open_probe_exclusive events now id :
  let '(h, holds) := history events in
  let until := openUntil (provider_ h id) in
  let '(_, probed, granted) := claim h now id in
  (probes id holds <= 1)%nat ∧
  granted = (probes id holds =? 0)%nat && negb (Before now until) ∧
  probed = granted && negb (IsZero until).
Proof.
  pose proof (probe_held_history events id) as H. destruct (history events) as [h holds]. simpl in *.
  unfold claim, rejects. rewrite H. destruct (probing _), (Before now _); simpl; naive_solver lia.
Qed.

(** *** The circuit opens at the fifth endpoint failure *)

(** Attempts on one provider, none of them its probe, in the order they land. *)
Definition land_all (h : healthTracker) (id : string) (l : list (Time * healthFact)) : healthTracker :=
  fold_left (λ h a, record h a.1 id a.2 false) l h.

Definition endpoint_failures (l : list (Time * healthFact)) : list (Time * healthFact) :=
  base.filter (λ a, failed_endpoint (evidence_of a.2) = true) l.

Lemma land_all_snoc h id l a : land_all h id (l ++ [a]) = record (land_all h id l) a.1 id a.2 false.
Proof. unfold land_all. by rewrite fold_left_app. Qed.

Lemma endpoint_failures_snoc l a :
  endpoint_failures (l ++ [a])
  = endpoint_failures l ++ (if failed_endpoint (evidence_of a.2) then [a] else []).
Proof.
  unfold endpoint_failures. rewrite filter_app, filter_cons. simpl.
  destruct (failed_endpoint _); [rewrite decide_True | rewrite decide_False]; done.
Qed.

(** The circuit of the provider an attempt lands on. *)
Lemma circuit_record h now id f probe :
  let p := provider_ (record h now id f probe) id in
  (failures p, firstFailure p, openUntil p) = (advance (provider_ h id) now (evidence_of f) probe).1.
Proof.
  unfold record. destruct (open_bucket _ _ _), (advance _ _ _ _) as [[[? ?] ?] [?|]];
    rewrite ?provider_publish, provider_put, decide_True; done.
Qed.

(** The circuit after fewer than five endpoint failures, and at the fifth. *)
Definition circuit_after (start : Time) (l : list (Time * healthFact)) (p : providerHealth) : Prop :=
  match endpoint_failures l with
  | [] => failures p = 0 ∧ openUntil p = start
  | [a; _; _; _; b] => failures p = 0 ∧ openUntil p = b.1 + circuitOpenFor
  | a :: _ => failures p = Z.of_nat (length (endpoint_failures l)) ∧ firstFailure p = a.1 ∧ openUntil p = start
  end.

Lemma circuit_after_step start l p p' a :
  (length (endpoint_failures (l ++ [a])) <= 5)%nat →
  evidence_of a.2 ≠ Works →
  (∀ b : Time * healthFact, b ∈ endpoint_failures l → a.1 - b.1 <= circuitWindow) →
  (failures p', firstFailure p', openUntil p') = (advance p a.1 (evidence_of a.2) false).1 →
  circuit_after start l p → circuit_after start (l ++ [a]) p'.
Proof.
  unfold circuit_after. rewrite endpoint_failures_snoc. intros HL HW HF HC HA.
  destruct (failed_endpoint (evidence_of a.2)) eqn:F.
  - rewrite length_app in HL.
    assert (HC' : (failures p', firstFailure p', openUntil p') = (advance p a.1 ServerFailed false).1)
      by (by destruct (evidence_of a.2)).
    clear HC HW F. unfold advance in HC'. simpl in HC', HL.
    destruct (endpoint_failures l) as [|b [|b2 [|b3 [|b4 [|b5 t]]]]]; simpl in HL; try lia;
      [destruct HA as [H1 H2]; rewrite H1, ?H2 in HC'
      | destruct HA as (H1 & H2 & H3); rewrite H1, H2, ?H3 in HC' ..]; simpl in HC';
      try (specialize (HF b ltac:(left)); rewrite Z.gtb_ltb, (proj2 (Z.ltb_ge _ _) HF) in HC'; simpl in HC');
      simplify_eq/=; done.
  - rewrite app_nil_r in *. destruct (evidence_of a.2); try done;
      injection HC as -> -> ->; apply HA.
Qed.

Lemma circuit_after_land h id l :
  failures (provider_ h id) = 0 →
  Forall (λ a, evidence_of a.2 ≠ Works) l →
  (∀ a b : Time * healthFact, a ∈ l → b ∈ l → a.1 - b.1 <= circuitWindow) →
  (length (endpoint_failures l) <= 5)%nat →
  circuit_after (openUntil (provider_ h id)) l (provider_ (land_all h id l) id).
Proof.
  intros H0. induction l as [|a l IH] using rev_ind; [done|].
  intros [HW Ha]%Forall_app HT HL. apply Forall_inv in Ha. rewrite land_all_snoc.
  eapply circuit_after_step; [exact HL | exact Ha | | apply circuit_record |].
  - intros b [_ Hb]%list_elem_of_filter. apply HT; set_solver.
  - apply IH; [done| set_solver |]. rewrite endpoint_failures_snoc, length_app in HL. lia.
Qed.

(** From a provider with no failure pending, over attempts that land within
    one window with no success among them, fewer than five endpoint failures leave
    the circuit as it was, whatever rate limits and refusals lie between, and the
    fifth opens it for exactly [circuitOpenFor] after it landed. *)
Theorem circuit_opens_at_fifth_failure h id l
  (Hclean : failures (provider_ h id) = 0)
  (Hnone : Forall (λ a, evidence_of a.2 ≠ Works) l)
  (Hwindow : ∀ a b : Time * healthFact, a ∈ l → b ∈ l → a.1 - b.1 <= circuitWindow)
  (Hfive : (length (endpoint_failures l) <= 5)%nat) :
  openUntil (provider_ (land_all h id l) id)
  = match endpoint_failures l !! 4%nat with
    | Some (t, _) => t + circuitOpenFor
    | None => openUntil (provider_ h id)
    end.
Proof.
  pose proof (circuit_after_land h id l Hclean Hnone Hwindow Hfive) as H. unfold circuit_after in H.
  destruct (endpoint_failures l) as [|b [|b2 [|b3 [|b4 [|b5 [|b6 t]]]]]]; simpl in *; try lia; try tauto.
  destruct b5; tauto.
Qed.

Definition sample_fact (class : string) : healthFact := mkHealthFact class Second 500 false false false.

Definition sample_failures : list (Time * healthFact) :=
  [(100, sample_fact "timeout"); (200, sample_fact "upstream_server"); (300, sample_fact "rate_limit");
   (400, sample_fact "connect"); (500, sample_fact "protocol"); (600, sample_fact "timeout")].

Lemma circuit_opens_at_fifth_failure_witness :
  openUntil (provider_ (land_all newHealthTracker "p" sample_failures) "p") = 600 + circuitOpenFor
  ∧ rejects (provider_ (land_all newHealthTracker "p" sample_failures) "p") 700 = true.
Proof.
  assert (openUntil (provider_ (land_all newHealthTracker "p" sample_failures) "p") = 600 + circuitOpenFor) as E.
  { rewrite (circuit_opens_at_fifth_failure newHealthTracker "p" sample_failures).
    - vm_compute. reflexivity.
    - reflexivity.
    - unfold sample_failures. repeat constructor; vm_compute; discriminate.
    - unfold sample_failures. intros a b Ha Hb.
      assert (Bd : ∀ x, x ∈ sample_failures → 0 <= x.1 <= 600).
      { apply Forall_forall. unfold sample_failures. repeat constructor; simpl; lia. }
      apply Bd in Ha. apply Bd in Hb. unfold circuitWindow, Second, Millisecond, Time in *. lia.
    - vm_compute. lia. }
  split; [exact E|]. vm_compute. reflexivity.
Defined.

(** *** Cooldowns *)

(** A slot's cooldown ends exactly [cooldownDuration] after it was set, which
    is never more than [maxCooldown] and always positive, and neither touches
    another slot's cooldown nor the circuit. *)
Theorem cooldown_bounded h now id slot d t id' slot' :
  (coolingDown (cooldown h now id slot d) t id slot).2 = (t <? now + cooldownDuration d) ∧
  0 < cooldownDuration d <= maxCooldown ∧
  rejects (provider_ (cooldown h now id slot d) id') t = rejects (provider_ h id') t ∧
  (id' ≠ id ∨ slot' ≠ slot →
   (coolingDown (cooldown h now id slot d) t id' slot').2 = (coolingDown h t id' slot').2).
Proof.
  unfold coolingDown, cooldown, cooldownDuration, Before; simpl. rewrite !provider_put.
  rewrite decide_True by done. simpl. rewrite lookup_insert_eq. simpl.
  change maxCooldown with 60000000000. change rateLimitCooldown with 10000000000.
  split_and!; [done| case_match; lia | | |].
  - case_match; lia.
  - unfold rejects. by case_decide; subst.
  - intros N. case_decide; [|done]. subst. simpl. rewrite lookup_insert_ne; naive_solver.
Qed.

(** *** The window counts the attempts that landed *)

(** An attempt recorded against a provider. *)
Record landing := mkLanding { land_provider : string; land_time : Time; land_fact : healthFact }.

(** What an event records. *)
Definition landed (holds : list hold) (e : event) : list landing :=
  match e with
  | EvLand i now f => match holds !! i with Some o => [mkLanding (hold_provider o) now f] | None => [] end
  | EvStray now id f => [mkLanding id now f]
  | _ => []
  end.

(** A history with the attempts recorded so far, oldest first. *)
Definition logged (events : list event) : (healthTracker * list hold) * list landing :=
  fold_left (λ sl e, (happen sl.1 e, sl.2 ++ landed sl.1.2 e)) events ((newHealthTracker, []), []).

Definition minute_of (t : Time) : Z := Z.quot (Unix t) 60.

Definition sum_since (since : Z) (get : bucket → Z) (bs : gmap Z bucket) : Z :=
  map_fold (λ minute b n, if minute <? since then n else n + get b) 0 bs.

(** The same sum over the log. *)
Definition log_sum (since : Z) (get : bucket → Z) (id : string) (log : list landing) : Z :=
  foldr (λ a n, if String.eqb (land_provider a) id && negb (minute_of (land_time a) <? since)
                then get (count_attempt emptyBucket (land_fact a)) + n else n) 0 log.

Lemma sum_since_insert_new since get m b bs :
  bs !! m = None →
  sum_since since get (<[m := b]> bs) = sum_since since get bs + (if m <? since then 0 else get b).
Proof.
  intros H. unfold sum_since. rewrite map_fold_insert_L; [|intros; repeat case_match; lia|done].
  case_match; lia.
Qed.

Lemma sum_since_delete since get m b bs :
  bs !! m = Some b →
  sum_since since get bs = sum_since since get (delete m bs) + (if m <? since then 0 else get b).
Proof.
  intros H. rewrite <- sum_since_insert_new by apply lookup_delete_eq. by rewrite insert_delete_id.
Qed.

Lemma sum_since_insert since get m b bs :
  sum_since since get (<[m := b]> bs)
  = sum_since since get bs
    + (if m <? since then 0 else get b - default 0 (get <$> bs !! m)).
Proof.
  destruct (bs !! m) as [b0|] eqn:E; simpl.
  - rewrite <- insert_delete_eq, sum_since_insert_new by apply lookup_delete_eq.
    rewrite (sum_since_delete since get m b0 bs E). case_match; lia.
  - rewrite sum_since_insert_new by done. case_match; lia.
Qed.

(** Dropping minutes before the window does not change the sum. *)
Lemma sum_since_filter since c get bs :
  c <= since →
  sum_since since get (base.filter (λ kv : Z * bucket, ¬ kv.1 < c) bs) = sum_since since get bs.
Proof.
  intros Hc. induction bs as [|m b bs Hm IH] using map_ind; [done|].
  destruct (decide (m < c)).
  - rewrite map_filter_insert_False by naive_solver. rewrite delete_id by done.
    rewrite IH, sum_since_insert_new by done. case_match; lia.
  - rewrite map_filter_insert_True by done. rewrite !sum_since_insert_new; [lia|done|].
    apply map_lookup_filter_None. by left.
Qed.

(** A field of a bucket that recording adds to. *)
Definition additive (get : bucket → Z) : Prop :=
  get emptyBucket = 0 ∧ ∀ b f, get (count_attempt b f) = get b + get (count_attempt emptyBucket f).

Lemma buckets_record h now id f probe id' :
  buckets (provider_ (record h now id f probe) id')
  = if decide (id = id') then
      let bs := (open_bucket (provider_ h id) now (minute_of now)).1 in
      <[minute_of now := count_attempt (default emptyBucket (bs !! minute_of now)) f]> bs
    else buckets (provider_ h id').
Proof.
  unfold record. fold (minute_of now).
  destruct (open_bucket _ _ _), (advance _ _ _ _) as [[[? ?] ?] [?|]];
    rewrite ?provider_publish, provider_put; by case_decide.
Qed.

Lemma sum_since_open since get p now minute :
  get emptyBucket = 0 → minute - healthRetention / Minute <= since →
  sum_since since get (open_bucket p now minute).1 = sum_since since get (buckets p).
Proof.
  intros H0 Hs. unfold open_bucket. destruct (buckets p !! minute) eqn:E; simpl; [done|].
  rewrite sum_since_filter, sum_since_insert_new by done. case_match; lia.
Qed.

Lemma sum_since_record since get h now id f probe id' :
  additive get → minute_of now - healthRetention / Minute <= since →
  sum_since since get (buckets (provider_ (record h now id f probe) id'))
  = sum_since since get (buckets (provider_ h id')) + log_sum since get id' [mkLanding id now f].
Proof.
  intros [H0 HA] Hs. rewrite buckets_record. unfold log_sum; simpl.
  destruct (String.eqb_spec id id') as [->|N]; [rewrite decide_True by done | rewrite decide_False by done; simpl; lia].
  rewrite sum_since_insert, sum_since_open, HA by done. simpl.
  destruct (minute_of now <? since); simpl; [lia|].
  destruct (_ !! minute_of now); simpl; lia.
Qed.

Lemma log_sum_app since get id l l' : log_sum since get id (l ++ l') = log_sum since get id l + log_sum since get id l'.
Proof. unfold log_sum. induction l as [|a l IH]; simpl; [done|]. case_match; lia. Qed.

Lemma buckets_put_same h id p :
  buckets p = buckets (provider_ h id) → ∀ id', buckets (provider_ (put h id p) id') = buckets (provider_ h id').
Proof. intros E id'. rewrite provider_put. by case_decide; subst. Qed.

(** One event adds to the sum what it records. *)
Lemma sum_since_happen since get s e id :
  additive get →
  (∀ a, a ∈ landed s.2 e → minute_of (land_time a) - healthRetention / Minute <= since) →
  sum_since since get (buckets (provider_ (happen s e).1 id))
  = sum_since since get (buckets (provider_ s.1 id)) + log_sum since get id (landed s.2 e).
Proof.
  destruct s as [h holds]. intros Ha Hs. destruct e; simpl in *.
  - rewrite Z.add_0_r. unfold claim. destruct (rejects _ _); simpl; rewrite buckets_put_same; try done.
    by destruct (IsZero (openUntil (provider_ h id0))).
  - destruct (holds !! i) as [o|]; [|simpl; lia]. apply sum_since_record; [done|].
    apply (Hs (mkLanding (hold_provider o) now f)). set_solver.
  - rewrite Z.add_0_r. destruct (holds !! i) as [o|]; [|done]. unfold releaseHold, releaseProbe.
    destruct (hold_probed o); simpl; rewrite ?buckets_put_same; done.
  - apply sum_since_record; [done|]. apply (Hs (mkLanding id0 now f)). set_solver.
  - rewrite Z.add_0_r, buckets_put_same; done.
  - rewrite Z.add_0_r, buckets_put_same; done.
  - rewrite Z.add_0_r. unfold cooldown. rewrite buckets_put_same; done.
  - rewrite Z.add_0_r. unfold endCooldown. rewrite buckets_put_same; done.
Qed.

Lemma logged_snoc events e :
  logged (events ++ [e]) = (happen (logged events).1 e, (logged events).2 ++ landed (logged events).1.2 e).
Proof. unfold logged. by rewrite fold_left_app. Qed.

Lemma sum_since_logged since get events id :
  additive get →
  (∀ a, a ∈ (logged events).2 → minute_of (land_time a) - healthRetention / Minute <= since) →
  sum_since since get (buckets (provider_ (logged events).1.1 id)) = log_sum since get id (logged events).2.
Proof.
  intros Ha. induction events as [|e events IH] using rev_ind; [done|]. rewrite logged_snoc; simpl.
  intros H. rewrite log_sum_app, <- IH, sum_since_happen; set_solver.
Qed.

(** The window of a moment reaches no further back than what is retained. *)
Lemma window_retained now window t :
  window <= healthRetention → t <= now →
  minute_of t - healthRetention / Minute <= minute_of (now - window).
Proof.
  intros Hw Ht. change (healthRetention / Minute) with 1440.
  change healthRetention with (86400 * Second) in Hw.
  assert (Unix t - 86400 <= Unix (now - window)) as HU.
  { unfold Unix. assert (0 < Second) by done.
    enough (t / Second - 86400 <= (now - window) / Second) by lia.
    replace (t / Second - 86400) with ((t + (-86400) * Second) / Second)
      by (rewrite Z.div_add by lia; lia).
    apply Z.div_le_mono; lia. }
  unfold minute_of. Z.to_euclidean_division_equations. lia.
Qed.

(** However attempts interleave, the health of a provider over a window within
    the retention counts exactly the attempts recorded against it whose minute
    lies in the window, each in its own column, and a provider without such
    attempts has no row. *)
Theorem provider_health_counts_log events now window id
  (Hwindow : window <= healthRetention)
  (Hclock : Forall (λ a, land_time a <= now) (logged events).2) :
  let h := (logged events).1.1 in
  let total get := log_sum (minute_of (now - window)) get id (logged events).2 in
  ProviderHealth h now window !! id
  = if total B_attempts >? 0
    then Some (mkStats (total B_attempts) (total B_successes) (total B_rateLimits)
                 (total B_serverErrors) (total B_transportErrors) (total B_latency)
                 (last_attempt (provider_ h id)))
    else None.
Proof.
  assert (HS : ∀ get, additive get →
    sum_since (minute_of (now - window)) get (buckets (provider_ (logged events).1.1 id))
    = log_sum (minute_of (now - window)) get id (logged events).2).
  { intros get Ha. apply sum_since_logged; [done|]. intros a Hin. apply window_retained; [done|].
    by apply (proj1 (Forall_forall _ _) Hclock). }
  cbv beta zeta. rewrite <- !HS by (split; intros; simpl; lia).
  unfold ProviderHealth. fold (minute_of (now - window)). rewrite lookup_omap.
  unfold provider_. destruct (providers _ !! id) as [p|]; simpl; done.
Qed.

Definition sample_events : list event :=
  [EvClaim 100 "p"; EvLand 0 (2 * Minute) (sample_fact "success"); EvClaim 200 "p"; EvAbandon 0;
   EvStray (3 * Minute) "p" (sample_fact "timeout")].

Lemma provider_health_counts_log_witness :
  ProviderHealth (logged sample_events).1.1 (4 * Minute) (2 * Minute) !! "p"
  = Some (mkStats 2 1 0 0 1 (2 * Second) (3 * Minute)).
Proof.
  rewrite (provider_health_counts_log sample_events (4 * Minute) (2 * Minute) "p").
  - vm_compute. reflexivity.
  - vm_compute. discriminate.
  - apply (bool_decide_unpack _). vm_compute. exact I.
Defined.
