(* ===== verification/Reservation.v ===== *)
(** * The cost reserved for a route's attempts

    [routeBound] of [internal/gateway/cost_reservation.go]: before a request is
    dispatched, it reserves the sum of the bounds of the dispatches it may make,
    which [walkDispatchable] of [internal/gateway/executor.go] visits one by one.
    The bound of one attempt is a parameter; [PricingFacts] shows that it covers
    what the attempt is billed. *)

From S2P Require Import Prelude Go Amount Policy Routes Planner Attempts.
Local Open Scope Z_scope.

(** ** The visits of [walkDispatchable] *)

Notation candidate := (Attempt * option (list bool))%type.

Definition zlength {A} (l : list A) : Z := Z.of_nat (length l).

(** The slots of one provider, with the attempts visited so far. *)
Fixpoint visitSlots (repeats remaining : Z) (a : Attempt) (visits : list Attempt) (slots : list bool)
  : list Attempt :=
  match slots with
  | [] => visits
  | ok :: rest =>
      let visits := if ok then visits ++ replicate (Z.to_nat (Z.min repeats (remaining - zlength visits))) a
                    else visits in
      if zlength visits =? remaining then visits else visitSlots repeats remaining a visits rest
  end.

Fixpoint visitTargets (repeats remaining : Z) (visits : list Attempt) (targets : list candidate)
  : list Attempt :=
  match targets with
  | [] => visits
  | (_, None) :: rest => visitTargets repeats remaining visits rest
  | (a, Some slots) :: rest =>
      let visits := visitSlots repeats remaining a visits slots in
      if zlength visits =? remaining then visits else visitTargets repeats remaining visits rest
  end.

Definition walkVisits (budget spent0 : Z) (rules : gmap string RetryRule) (targets : list candidate)
  : list Attempt :=
  let remaining := budget - spent0 in
  if remaining <=? 0 then [] else visitTargets (retryDispatches rules) remaining [] targets.

(** ** The bound *)

(** With retries the dearest attempts are visited first. *)
Definition arranged (rules : gmap string RetryRule) (boundOf : Attempt → Cost) (targets : list candidate)
  : list candidate :=
  if retryDispatches rules >? 1
  then SortStableFunc (λ a b, Cost_Cmp (boundOf b.1) (boundOf a.1)) targets else targets.

Definition routeBound (budget spent0 : Z) (rules : gmap string RetryRule) (targets : list candidate)
    (boundOf : Attempt → Cost) : Cost :=
  foldl (λ bound a, Cost_Add bound (boundOf a)) zeroCost
    (walkVisits budget spent0 rules (arranged rules boundOf targets)).

(** ** The visits are a prefix of every possible dispatch *)

(** All dispatches of the candidates: each usable slot, with its repeats. *)
Definition dispatches (repeats : Z) (targets : list candidate) : list Attempt :=
  flat_map (λ c : candidate, replicate (Z.to_nat (repeats * usable c.2)) c.1) targets.

Lemma map_replicate {A B} (f : A → B) n x : map f (replicate n x) = replicate n (f x).
Proof. induction n; simpl; congruence. Qed.

Lemma take_all_app {A} n (l k : list A) : length l = n → take n (l ++ k) = l.
Proof. intros <-. apply take_app_length. Qed.

Lemma visitSlots_eq repeats remaining a visits slots :
  1 <= repeats → zlength visits < remaining →
  visitSlots repeats remaining a visits slots
  = take (Z.to_nat remaining) (visits ++ replicate (Z.to_nat (repeats * usable (Some slots))) a).
Proof.
  unfold zlength. intros R. revert visits. induction slots as [|[] rest IH]; intros visits V; cbn [visitSlots].
  - simpl. rewrite Z.mul_0_r. simpl. rewrite app_nil_r, take_ge by lia. done.
  - change (usable (Some (true :: rest))) with (Z.of_nat (S (length (List.filter (λ b, b) rest)))).
    unfold zlength. rewrite length_app, length_replicate.
    assert (U : usable (Some rest) = Z.of_nat (length (List.filter (λ b, b) rest))) by done.
    set (u := length (List.filter (λ b, b) rest)) in *. clearbody u.
    replace (Z.to_nat (repeats * Z.of_nat (S u))) with (Z.to_nat repeats + Z.to_nat (repeats * Z.of_nat u))%nat by nia.
    destruct (Z.eqb_spec (Z.of_nat (length visits + Z.to_nat (Z.min repeats (remaining - Z.of_nat (length visits))))) remaining) as [E|N].
    + set (k := Z.to_nat (Z.min repeats (remaining - Z.of_nat (length visits)))) in *.
      replace (Z.to_nat repeats + Z.to_nat (repeats * Z.of_nat u))%nat
        with (k + (Z.to_nat repeats - k + Z.to_nat (repeats * Z.of_nat u)))%nat by lia.
      rewrite replicate_add, app_assoc, take_all_app; [done|]. rewrite length_app, length_replicate. lia.
    + rewrite IH; rewrite ?length_app, ?length_replicate; [|lia].
      rewrite Z.min_l by lia. rewrite U, replicate_add, app_assoc. done.
  - change (usable (Some (false :: rest))) with (usable (Some rest)).
    unfold zlength. destruct (Z.eqb_spec (Z.of_nat (length visits)) remaining); [lia|]. by rewrite IH.
Qed.

Lemma visitTargets_eq repeats remaining visits targets :
  1 <= repeats → zlength visits < remaining →
  visitTargets repeats remaining visits targets
  = take (Z.to_nat remaining) (visits ++ dispatches repeats targets).
Proof.
  intros R. revert visits. induction targets as [|[a [slots|]] rest IH]; intros visits V; cbn [visitTargets].
  - unfold zlength in V. simpl. rewrite app_nil_r, take_ge by lia. done.
  - rewrite visitSlots_eq by done.
    change (dispatches repeats ((a, Some slots) :: rest))
      with (replicate (Z.to_nat (repeats * usable (Some slots))) a ++ dispatches repeats rest).
    set (l := visits ++ replicate (Z.to_nat (repeats * usable (Some slots))) a).
    rewrite app_assoc. fold l. unfold zlength in *.
    destruct (Z.eqb_spec (Z.of_nat (length (take (Z.to_nat remaining) l))) remaining) as [E|N].
    + rewrite length_take in E. rewrite take_app_le by lia. done.
    + rewrite length_take in N. rewrite take_ge by lia. apply IH. lia.
  - rewrite IH by done. unfold dispatches. simpl flat_map. by rewrite Z.mul_0_r.
Qed.

Lemma walkVisits_eq budget spent0 rules targets :
  walkVisits budget spent0 rules targets
  = take (Z.to_nat (budget - spent0)) (dispatches (retryDispatches rules) targets).
Proof.
  unfold walkVisits. pose proof (retryDispatches_pos rules). destruct (Z.leb_spec (budget - spent0) 0).
  - by replace (Z.to_nat (budget - spent0)) with 0%nat by lia.
  - rewrite visitTargets_eq; [done|done|]. unfold zlength. simpl. lia.
Qed.

Lemma length_dispatches repeats targets :
  1 <= repeats → Z.of_nat (length (dispatches repeats targets)) = repeats * total_usable (map snd targets).
Proof.
  intros R. induction targets as [|[a o] rest IH]; [simpl; lia|].
  unfold dispatches in *. simpl. rewrite length_app, length_replicate, Nat2Z.inj_add, IH.
  pose proof (usable_nonneg o). unfold total_usable; simpl. nia.
Qed.

(** The visits are as many as admission counts. *)
Lemma walkVisits_length budget spent0 rules targets :
  zlength (walkVisits budget spent0 rules targets) = walkDispatchable budget spent0 rules (map snd targets).
Proof.
  rewrite walkVisits_eq. unfold zlength, walkDispatchable. rewrite length_take.
  pose proof (retryDispatches_pos rules). pose proof (length_dispatches (retryDispatches rules) targets).
  destruct (Z.leb_spec (budget - spent0) 0); [lia|]. rewrite walkTargets_eq by lia. lia.
Qed.

(** ** Which target each attempt belongs to *)

(** The loop appended attempts of one target. *)
Definition grew (a : Attempt) (r r' : running) : Prop :=
  ∃ seg, facts r' = facts r ++ seg ∧ Forall (λ f, Fact_TargetID f = A_TargetID a) seg.

Lemma grew_same a r r' : facts r' = facts r → grew a r r'.
Proof. intros E. exists []. by rewrite app_nil_r. Qed.

#[export] Instance grew_trans a : Transitive (grew a).
Proof.
  intros r1 r2 r3 (s1 & E1 & F1) (s2 & E2 & F2). exists (s1 ++ s2).
  rewrite E2, E1, app_assoc. split; [done|]. by apply Forall_app.
Qed.

Lemma grew_one a r r' f :
  facts r' = facts r ++ [f] → Fact_TargetID f = A_TargetID a → grew a r r'.
Proof. intros E T. exists [f]. auto. Qed.

#[local] Hint Resolve grew_same : olp.

Lemma trySlot_grew w x r a slot retry r' f : trySlot w x r a slot retry = (r', f) → grew a r r'.
Proof.
  intros E. unfold trySlot in E.
  repeat (case_match; simplify_eq; try by apply grew_same).
  1: by eexists; split; [reflexivity|]; repeat constructor.
  all: apply afterDispatch_spec in E as (_ & F & _); by (eapply grew_one; [exact F|]).
Qed.

Lemma slotLoop_grew w x fuel r a slots retry r' f :
  slotLoop w x fuel r a slots retry = Some (r', f) → grew a r r'.
Proof.
  revert r slots retry. induction fuel as [|fuel IH]; intros r slots retry E; [done|].
  destruct slots as [|slot rest]; simplify_eq/=; [by apply grew_same|].
  assert (grew a r (ticked r)) as G1 by (by apply grew_same).
  destruct (_ || _); simplify_eq; [done|].
  destruct (trySlot w x (ticked r) a slot retry) as [r2 g] eqn:T. apply trySlot_grew in T.
  assert (grew a r r2) as G2 by (by transitivity (ticked r)).
  destruct g; simplify_eq; eauto; etransitivity; eauto.
Qed.

Lemma tryAttempt_grew w x r a r' f : tryAttempt w x r a = Some (r', f) → grew a r r'.
Proof.
  unfold tryAttempt. intros E. repeat (case_match; simplify_eq; try by apply grew_same).
  by eapply slotLoop_grew.
Qed.

(** The attempts of a run split by planned attempt, each part within the slots and
    repeats of its target. *)
Definition split_by (repeats : Z) (targets : list candidate) (new : list AttemptFact) : Prop :=
  ∃ segs, new = concat segs ∧
    Forall2 (λ (c : candidate) seg, Forall (λ f, Fact_TargetID f = A_TargetID c.1) seg ∧
               zlength seg <= repeats * usable c.2) targets segs.

Lemma split_by_nil repeats targets : 0 <= repeats → split_by repeats targets [].
Proof.
  intros R. exists (replicate (length targets) []). split.
  - by induction targets.
  - induction targets as [|c l IH]; constructor; [|done]. split; [done|].
    unfold zlength. simpl. pose proof (usable_nonneg c.2). nia.
Qed.

Lemma split_by_cons repeats c targets seg new :
  Forall (λ f, Fact_TargetID f = A_TargetID c.1) seg → zlength seg <= repeats * usable c.2 →
  split_by repeats targets new → split_by repeats (c :: targets) (seg ++ new).
Proof. intros F L (segs & -> & S). exists (seg :: segs). split; [done|]. by constructor. Qed.

(** The slots of each candidate are those it had when it was reserved for. *)
Definition reserved_for (w : World) (attempts : list Attempt) (targets : list candidate) : Prop :=
  Forall2 (λ a (c : candidate), a = c.1 ∧ slots_within w a c.2) attempts targets.

Lemma attemptLoop_split w x r attempts targets r' o :
  reserved_for w attempts targets → attemptLoop w x r attempts = Some (r', o) →
  ∃ new, facts r' = facts r ++ new ∧ split_by (retryDispatches (X_retry x)) targets new.
Proof.
  pose proof (retryDispatches_pos (X_retry x)) as RP. intros W.
  revert r. induction W as [|a c attempts targets [-> Wa] W IH]; intros r E; simpl in E; simplify_eq.
  { exists []. rewrite app_nil_r. split; [done|]. apply split_by_nil. lia. }
  destruct (_ || _); simplify_eq.
  { exists []. rewrite app_nil_r. split; [done|]. apply split_by_nil. lia. }
  destruct (tryAttempt_spec w x (ticked r) c.1) as (r2 & f & E2 & [(n2 & F2 & S2 & _)] & _ & _ & Q2).
  rewrite E2 in E. destruct (tryAttempt_grew _ _ _ _ _ _ E2) as (seg & Fs & T).
  assert (seg = n2) as -> by (rewrite F2 in Fs; by simplify_list_eq).
  assert (L : zlength n2 <= retryDispatches (X_retry x) * usable c.2).
  { unfold zlength. specialize (Q2 (usable c.2) (usable_nonneg _) (Wa _)). lia. }
  assert (Last : ∃ new, facts r2 = facts r ++ new ∧ split_by (retryDispatches (X_retry x)) (c :: targets) new).
  { exists (n2 ++ []). rewrite app_nil_r at 1. split; [done|]. apply split_by_cons; [done|done|].
    apply split_by_nil. lia. }
  assert (Rest : attemptLoop w x r2 attempts = Some (r', o) →
    ∃ new, facts r' = facts r ++ new ∧ split_by (retryDispatches (X_retry x)) (c :: targets) new).
  { intros E'. destruct (IH r2 E') as (n & Fn & Sn). exists (n2 ++ n).
    rewrite Fn, F2, app_assoc. split; [done|]. by apply split_by_cons. }
  destruct f; simplify_eq; auto.
Qed.

(** ** Sums over dispatches *)

Definition sum_of (l : list Z) : Z := foldr Z.add 0 l.

Lemma sum_of_app l k : sum_of (l ++ k) = sum_of l + sum_of k.
Proof. unfold sum_of. induction l; simpl; lia. Qed.

Lemma sum_of_nonneg l : Forall (λ z, 0 <= z) l → 0 <= sum_of l.
Proof. unfold sum_of. induction 1; simpl; lia. Qed.

#[export] Instance sum_of_proper : Proper ((≡ₚ) ==> (=)) sum_of.
Proof. intros l k P. unfold sum_of. induction P; simpl; lia. Qed.

(** Of a list in descending order the first [n] values are the greatest sum [n] of
    its values can have. *)
Lemma sum_of_prefix n (l k : list Z) :
  StronglySorted (λ a b, b <= a) k → Forall (λ z, 0 <= z) k →
  l ⊆+ k → (length l <= n)%nat → sum_of l <= sum_of (take n k).
Proof.
  revert n l. induction k as [|u k IH]; intros n l S N L B.
  { apply submseteq_nil_r in L as ->. rewrite take_nil. reflexivity. }
  apply StronglySorted_inv in S as [S Fu]. inversion N as [|? ? Nu Nk]; subst.
  destruct n as [|n]; [destruct l; simpl in B; [reflexivity|lia]|]. simpl take.
  change (sum_of (u :: take n k)) with (u + sum_of (take n k)).
  apply submseteq_cons_r in L as [L|(l' & P & L)].
  - destruct l as [|y l'].
    + assert (0 <= sum_of (take n k)) by (apply sum_of_nonneg; by apply Forall_take).
      unfold sum_of at 1. simpl. lia.
    + assert (y <= u).
      { rewrite Forall_forall in Fu. apply Fu. eapply elem_of_submseteq; [|exact L]. left. }
      assert (sum_of l' <= sum_of (take n k)).
      { apply IH; [done|done| |simpl in B; lia]. etransitivity; [|exact L]. by apply submseteq_cons. }
      change (sum_of (y :: l')) with (y + sum_of l'). lia.
  - rewrite P. change (sum_of (u :: l')) with (u + sum_of l').
    assert (sum_of l' <= sum_of (take n k)); [|lia].
    apply IH; [done|done|done|]. rewrite P in B. simpl in B. lia.
Qed.

(** ** The reservation covers the route *)

Section Covers.
Context (price : string → Cost).
Hypothesis priced : ∀ id, 0 <= cost_units (price id) <= maxCostUnits.

(** The bound of an attempt, by its target. *)
Definition bound_of (a : Attempt) : Cost := price (A_TargetID a).

Definition value (a : Attempt) : Z := cost_units (bound_of a).

(** What the attempts of a run may be billed together. *)
Definition billed (new : list AttemptFact) : Z :=
  sum_of (map (λ f, cost_units (price (Fact_TargetID f))) new).

Lemma fold_bound l c :
  0 <= cost_units c <= maxCostUnits →
  cost_units (foldl (λ bound a, Cost_Add bound (bound_of a)) c l)
  = Z.min (cost_units c + sum_of (map value l)) maxCostUnits.
Proof.
  revert c. induction l as [|a l IH]; intros c Hc; [cbn; lia|].
  pose proof (priced (A_TargetID a)) as Pa. fold (bound_of a) in Pa.
  cbn [foldl map]. rewrite IH; rewrite Cost_Add_units by done; [|lia].
  change (sum_of (value a :: map value l)) with (value a + sum_of (map value l)).
  assert (0 <= sum_of (map value l)).
  { apply sum_of_nonneg, Forall_map, Forall_forall. intros b _. apply priced. }
  assert (value a = cost_units (bound_of a)) by done. lia.
Qed.

Lemma routeBound_units budget spent0 rules targets :
  cost_units (routeBound budget spent0 rules targets bound_of)
  = Z.min (sum_of (map value (walkVisits budget spent0 rules (arranged rules bound_of targets)))) maxCostUnits.
Proof. unfold routeBound. rewrite fold_bound; [done|]. cbn. unfold maxCostUnits. lia. Qed.

Lemma segment_billed (c : candidate) seg :
  Forall (λ f, Fact_TargetID f = A_TargetID c.1) seg →
  map (λ f, cost_units (price (Fact_TargetID f))) seg = replicate (length seg) (value c.1).
Proof. induction 1 as [|f seg E F IH]; simpl; [done|]. by rewrite E, IH. Qed.

(** What a run may be billed is among the values of all dispatches. *)
Lemma split_by_values repeats targets new :
  split_by repeats targets new →
  map (λ f, cost_units (price (Fact_TargetID f))) new ⊆+ map value (dispatches repeats targets).
Proof.
  intros (segs & -> & S). induction S as [|c seg targets segs [F L] S IH]; [done|].
  unfold dispatches in *. simpl. rewrite !map_app. apply submseteq_app; [|done].
  rewrite (segment_billed c seg F), map_replicate. unfold zlength in L.
  replace (Z.to_nat (repeats * usable c.2))
    with (length seg + (Z.to_nat (repeats * usable c.2) - length seg))%nat by lia.
  rewrite replicate_add. by apply submseteq_inserts_r.
Qed.

Lemma dispatches_sorted repeats targets :
  StronglySorted (λ a b, value b.1 <= value a.1) targets →
  StronglySorted (λ a b, b <= a) (map value (dispatches repeats targets)).
Proof.
  induction 1 as [|c targets S IH F]; [constructor|]. unfold dispatches in *. simpl.
  rewrite map_app, map_replicate. generalize (Z.to_nat (repeats * usable c.2)). intros n.
  assert (B : Forall (λ z, z <= value c.1)
    (map value (flat_map (λ c : candidate, replicate (Z.to_nat (repeats * usable c.2)) c.1) targets))).
  { apply Forall_map, Forall_forall. intros a (d & Hd & Ha)%list_elem_of_In%in_flat_map.
    apply list_elem_of_In, elem_of_replicate in Ha as [-> _]. rewrite Forall_forall in F. apply F. by apply list_elem_of_In. }
  induction n as [|n IHn]; [done|]. simpl. constructor; [done|].
  apply Forall_app. split; [|done]. apply Forall_forall. intros z (-> & _)%elem_of_replicate. lia.
Qed.

Lemma dispatches_Permutation repeats l k : l ≡ₚ k → dispatches repeats l ≡ₚ dispatches repeats k.
Proof. intros P. unfold dispatches. by apply Permutation_flat_map. Qed.
End Covers.

Lemma runRoute_split w x spent0 facts0 tick0 targets r oc :
  reserved_for w (X_attempts x) targets → runRoute w x spent0 facts0 tick0 = Some (r, oc) →
  ∃ new, facts r = facts0 ++ new ∧ split_by (retryDispatches (X_retry x)) targets new.
Proof.
  unfold runRoute. intros W E.
  destruct (attemptLoop w x (start spent0 facts0 tick0) (X_attempts x)) as [[r' [o|]]|] eqn:L; simplify_eq;
    by apply (attemptLoop_split w x _ _ targets) in L.
Qed.

Lemma reserved_slots w attempts targets :
  reserved_for w attempts targets → Forall2 (slots_within w) attempts (map snd targets).
Proof. induction 1 as [|a c l k [-> S] F IH]; simpl; constructor; done. Qed.

Lemma sum_of_submseteq l k : Forall (λ z, 0 <= z) k → l ⊆+ k → sum_of l <= sum_of k.
Proof.
  intros N (m & P)%submseteq_Permutation. rewrite P in N |- *. rewrite sum_of_app.
  apply Forall_app in N as [_ N]. pose proof (sum_of_nonneg m N). lia.
Qed.

#[local] Instance wo_dearest (boundOf : Attempt → Cost) :
  WeakOrder (λ a b : candidate, Cost_Cmp (boundOf b.1) (boundOf a.1)).
Proof.
  change (WeakOrder (cmp_rev (cmp_on (λ c : candidate, cost_units (boundOf c.1)) Z.compare))). apply _.
Qed.

Lemma arranged_Permutation rules boundOf targets : arranged rules boundOf targets ≡ₚ targets.
Proof. unfold arranged. destruct (_ >? 1); [apply SortStableFunc_Permutation|done]. Qed.

Lemma arranged_sorted rules price targets :
  1 < retryDispatches rules →
  StronglySorted (λ a b, value price b.1 <= value price a.1) (arranged rules (bound_of price) targets).
Proof.
  intros R. unfold arranged. rewrite (proj2 (Z.gtb_lt _ _) R).
  pose proof (SortStableFunc_sorted (λ a b : candidate, Cost_Cmp (bound_of price b.1) (bound_of price a.1))
                targets) as S.
  induction S as [|a l S IH F]; constructor; [done|]. eapply Forall_impl; [exact F|].
  intros b. unfold cmp_le, Cost_Cmp, value. by rewrite Z.compare_le_iff.
Qed.

(** C16. What admission reserves covers what the route can be billed. Whatever the
    gateway answers during the run, the attempts it makes, each at the bound of its
    target, sum to no more than [routeBound] when the route has retry rules, whose
    dearest dispatches are reserved for first, or when the budget reaches every
    dispatch; the sum saturates as the reserved amount does. *)
Theorem reservation_covers_route (price : string → Cost) (w : World) (x : leg) (spent0 : Z)
    (facts0 : list AttemptFact) (tick0 : nat) (targets : list candidate)
    (Hprice : ∀ id, 0 <= cost_units (price id) <= maxCostUnits)
    (Hslots : reserved_for w (X_attempts x) targets)
    (Hreach : 1 < retryDispatches (X_retry x) ∨
              zlength (dispatches (retryDispatches (X_retry x)) targets) <= X_budget x - spent0) :
  ∃ r o conditions new,
    runRoute w x spent0 facts0 tick0 = Some (r, (o, conditions)) ∧ facts r = facts0 ++ new ∧
    Z.min (billed price new) maxCostUnits
      <= cost_units (routeBound (X_budget x) spent0 (X_retry x) targets (bound_of price)).
Proof.
  destruct (runRoute_spec w x spent0 facts0 tick0) as (r & o & c & E & [(n & F & Sp & _)] & B & _ & _).
  destruct (runRoute_split w x spent0 facts0 tick0 targets _ _ Hslots E) as (new & F' & S).
  simpl in F. rewrite F in F'. simplify_list_eq. exists r, o, c, new. split; [done|]. split; [done|].
  rewrite routeBound_units by done. rewrite walkVisits_eq. apply Z.min_le_compat_r. unfold billed.
  set (T := arranged _ _ _). pose proof (split_by_values price _ _ _ S) as Sub.
  assert (P : dispatches (retryDispatches (X_retry x)) T ≡ₚ dispatches (retryDispatches (X_retry x)) targets).
  { apply dispatches_Permutation, arranged_Permutation. }
  rewrite <- P in Sub. rewrite <- firstn_map.
  assert (N : Forall (λ z, 0 <= z) (map (value price) (dispatches (retryDispatches (X_retry x)) T))).
  { apply Forall_map, Forall_forall. intros a _. apply Hprice. }
  assert (L : (length new <= Z.to_nat (X_budget x - spent0))%nat) by (simpl in *; lia).
  destruct Hreach as [R|Full].
  - apply sum_of_prefix; [by apply dispatches_sorted, arranged_sorted|done|done|by rewrite length_map].
  - rewrite take_ge; [by apply sum_of_submseteq|]. rewrite length_map, P. unfold zlength in Full. lia.
Qed.

(** Two targets of one slot each; the second costs a hundred times the first. *)
Definition target_attempt (id : string) : Attempt :=
  mkAttempt id "p1" "r1" "openai" "gpt" 1000 0 fzero "weighted" "" "" None None None None.

Definition sample_candidates : list candidate :=
  [(target_attempt "cheap", Some [true]); (target_attempt "dear", Some [true])].

Definition sample_price (id : string) : Cost :=
  mkCost (Some (if String.eqb id "cheap" then 1 else 100)).

(** Every upstream call fails; the circuit of the first target may be open. *)
Definition sample_gateway (cheap_open : bool) : World := {|
  ctxErr := λ _, false; deadlineExceeded := λ _, false;
  providerFound := λ _ _, true;
  circuitOpen := λ _ a, cheap_open && String.eqb (A_TargetID a) "cheap";
  checkCallerTarget := λ _ _, None;
  attemptSlots := λ _ _, ["s1"]; servingAllowed := λ _ _ _ _, true;
  gateAttempt := λ _ _ _, GateAdmitted; workflowAuthority := λ _, None;
  reserveSessionDebit := λ _ _ _, None;
  dispatchWithAuthority := λ _ _ _,
    mkDispatched (Some (mkFailure "timeout" false false true "" 0)) None None None None false;
  cooldownFailure := λ _ _ _ _, false; pastDeadline := λ _ _ _, false; pauses := λ _, true |}.

(** With a retry rule and a budget of three, a request whose cheap target is open
    makes both dispatches of the dear one, which is what was reserved first. *)
Lemma reservation_covers_route_witness :
  ∃ r o conditions,
    runRoute (sample_gateway true)
      (mkLeg (map fst sample_candidates) 3 {["timeout" := mkRetryRule 1 100 1000 false]} false) 0 [] 0
      = Some (r, (o, conditions)) ∧
    map Fact_TargetID (facts r) = ["dear"; "dear"] ∧
    Z.min (billed sample_price (facts r)) maxCostUnits
      <= cost_units (routeBound 3 0 {["timeout" := mkRetryRule 1 100 1000 false]} sample_candidates
                       (bound_of sample_price)).
Proof.
  destruct (reservation_covers_route sample_price (sample_gateway true)
    (mkLeg (map fst sample_candidates) 3 {["timeout" := mkRetryRule 1 100 1000 false]} false) 0 [] 0
    sample_candidates) as (r & o & conditions & new & E & F & B).
  - intros id. unfold sample_price, cost_units, maxCostUnits. simpl. destruct (String.eqb id "cheap"); lia.
  - repeat constructor; intros t _; vm_compute; discriminate.
  - left. vm_compute. reflexivity.
  - simpl in F. subst new. exists r, o, conditions. split; [exact E|]. split; [|exact B].
    vm_compute in E. injection E as <- <- <-. reflexivity.
Defined.

(** Without retry rules the reservation can fall short. The walk visits slots in
    plan order up to the budget, but the loop passes over an open circuit without
    spending an attempt: with a budget of one and the circuit of the cheap target
    open, only the cheap target is reserved for and only the dear one is billed. *)
Theorem skipped_target_exceeds_reservation :
  let x := mkLeg (map fst sample_candidates) 1 ∅ false in
  match runRoute (sample_gateway true) x 0 [] 0 with
  | Some (r, _) =>
      map Fact_TargetID (facts r) = ["dear"] ∧ billed sample_price (facts r) = 100 ∧
      cost_units (routeBound 1 0 ∅ sample_candidates (bound_of sample_price)) = 1
  | None => False
  end.
Proof. vm_compute. split; [reflexivity|]. split; reflexivity. Qed.
