(* ===== verification/Upstream.v ===== *)
(** * How an exchange with a provider ended

    [internal/upstream/upstream.go]: the failure class that governs failover and
    cooldown, and what is known about the provider's work. [strings.ToLower] is a
    parameter outside ASCII; the errors an exchange ended with enter as what
    [errors.Is] and [errors.As] find in them. The last section joins the classifier
    to the attempt loop, whose failures carry its classes. *)

From S2P Require Import Prelude Go Policy Routes Planner Attempts.
From Stdlib Require Import Ascii.
Local Open Scope Z_scope.

(** ** Classes and acceptance *)

Definition Connect : string := "connect".
Definition Timeout : string := "timeout".
Definition RateLimit : string := "rate_limit".
Definition ServerError : string := "upstream_server".
Definition ClientError : string := "upstream_client".
Definition Credential : string := "credential".
Definition Protocol : string := "protocol".
Definition Cancelled : string := "cancelled".
Definition ContextWindow : string := "context_window".
Definition ContentFilter : string := "content_filter".
Definition Ambiguous : string := "ambiguous".

Inductive Acceptance := NotSent | Unknown | Accepted | Terminal.

Definition Unresolved (a : Acceptance) : bool :=
  match a with Unknown | Accepted => true | _ => false end.

(** ** Evidence *)

Record UpstreamError := mkUpstreamError { UE_Type : string; UE_Code : string; UE_Message : string }.

(** Why this side ended the exchange. *)
Inductive interruption := Canceled | DeadlineExceeded | OtherInterruption.

(** The error that otherwise ended it, by what the classifier asks of it: a protocol
    error or an event that is too large is in its chain, or neither. *)
Inductive ended := MalformedExchange | OtherError.

Record Evidence := mkEvidence {
  Ev_Reached : bool;
  Ev_Status : Z;
  Ev_Accepted : bool;
  Ev_Settled : bool;
  Ev_Error : option UpstreamError;
  Ev_Committed : bool;
  Ev_Interrupted : option interruption;
  Ev_Err : option ended;
}.

Definition Evidence_Acceptance (e : Evidence) : Acceptance :=
  if Ev_Settled e then Terminal
  else if Ev_Status e >=? 500 then Unknown
  else if negb (Ev_Status e =? 0) then Terminal
  else if Ev_Accepted e then Accepted
  else if Ev_Reached e then Unknown
  else NotSent.

(** ** The classifier *)

Record Rule := mkRule { Rule_Status : Z; Rule_Code : string; Rule_Type : string; Rule_Class : string }.

Record Classifier := mkClassifier {
  Cl_ContextWindow : bool;
  Cl_AtMostOnce : bool;
  Cl_Declared : list Rule;
}.

Record Outcome := mkClassified { Oc_Class : string; Oc_Acceptance : Acceptance; Oc_CredentialRefused : bool }.

(** A field a rule sets equals the failure's. *)
Definition states (want : string) (get : UpstreamError → string) (e : option UpstreamError) : bool :=
  String.eqb want "" || match e with Some e => String.eqb (get e) want | None => false end.

Definition rule_matches (r : Rule) (e : Evidence) : bool :=
  if negb (Rule_Status r =? 0) && negb (Rule_Status r =? Ev_Status e) then false
  else states (Rule_Code r) UE_Code (Ev_Error e) && states (Rule_Type r) UE_Type (Ev_Error e).

Fixpoint first_match (rules : list Rule) (e : Evidence) : option string :=
  match rules with
  | [] => None
  | r :: rest => if rule_matches r e then Some (Rule_Class r) else first_match rest e
  end.

Definition declared (c : Classifier) (e : Evidence) : option string :=
  if (Ev_Status e =? 0) && negb (is_some (Ev_Error e)) then None else first_match (Cl_Declared c) e.

(** [codeFold]: the replacer that drops the separators. *)
Fixpoint codeFold (s : string) : string :=
  match s with
  | EmptyString => EmptyString
  | String c s' =>
      if existsb (Ascii.eqb c) ["_"; "-"; " "]%char then codeFold s' else String c (codeFold s')
  end.

Fixpoint prefix_of (p s : string) : bool :=
  match p, s with
  | EmptyString, _ => true
  | String a p', String b s' => Ascii.eqb a b && prefix_of p' s'
  | _, EmptyString => false
  end.

(** [strings.Contains] *)
Fixpoint substring_of (p s : string) : bool :=
  prefix_of p s || match s with EmptyString => false | String _ s' => substring_of p s' end.

Definition contextWindowCodes : list string :=
  ["contextlengthexceeded"; "contextwindowexceeded"; "maxcontextlengthexceeded"; "prompttoolong"].

Definition contentFilterCodes : list string :=
  ["contentfilter"; "contentfiltered"; "contentpolicyviolation"; "contentmoderation";
   "responsibleaipolicyviolation"].

(** [strings.ToLower]: on ASCII text, the lower case of each letter. *)
Definition lower_byte (c : ascii) : ascii :=
  let n := N_of_ascii c in if (65 <=? n)%N && (n <=? 90)%N then ascii_of_N (n + 32) else c.

Fixpoint lower_ascii (s : string) : string :=
  match s with EmptyString => EmptyString | String c s' => String (lower_byte c) (lower_ascii s') end.

Fixpoint is_ascii (s : string) : bool :=
  match s with EmptyString => true | String c s' => (N_of_ascii c <? 128)%N && is_ascii s' end.

Class UnicodeLib := {
  ToLower : string → string;
  ToLower_ascii : ∀ s, is_ascii s = true → ToLower s = lower_ascii s;
}.

Section Classify.
Context `{UnicodeLib}.

Definition folded (s : string) : string := codeFold (ToLower s).

Definition contextRejected (e : option UpstreamError) : bool :=
  match e with
  | Some e => Contains contextWindowCodes (folded (UE_Code e)) || Contains contextWindowCodes (folded (UE_Type e))
  | None => false
  end.

Definition filterRejected (e : option UpstreamError) : bool :=
  match e with
  | Some e => Contains contentFilterCodes (folded (UE_Code e)) || Contains contentFilterCodes (folded (UE_Type e))
  | None => false
  end.

Definition contextClass (c : Classifier) : string :=
  if Cl_ContextWindow c then ContextWindow else ClientError.

Definition rejection (c : Classifier) (status : Z) (stated : option UpstreamError) : string :=
  if (status =? 401) || (status =? 403) then Credential
  else if status =? 429 then RateLimit
  else if status >=? 500 then ServerError
  else if contextRejected stated then contextClass c
  else if filterRejected stated then ContentFilter
  else ClientError.

Definition inBand (c : Classifier) (stated : UpstreamError) (committed : bool) : string :=
  let kind := folded (UE_Type stated ++ " " ++ UE_Code stated) in
  let has := existsb (λ name, substring_of name kind) in
  let code := String.eqb (UE_Code stated) in
  if contextRejected (Some stated) then contextClass c
  else if filterRejected (Some stated) then ContentFilter
  else if has ["authentication"; "unauthenticated"; "invalidapikey"; "accessdenied"; "permissiondenied"]
          || code "401" || code "403" then Credential
  else if has ["ratelimit"; "resourceexhausted"; "throttl"] || code "429" then RateLimit
  else if has ["timeout"; "deadlineexceeded"] || code "504" then Timeout
  else if has ["invalidrequest"; "invalidargument"; "validationexception"; "notfound"]
          || code "400" || code "404" then ClientError
  else if committed then Protocol else ServerError.

Definition class (c : Classifier) (e : Evidence) : string :=
  match Ev_Interrupted e with
  | Some DeadlineExceeded => Timeout
  | Some _ => Cancelled
  | None =>
      match declared c e with
      | Some class => class
      | None =>
          if negb (Ev_Status e =? 0) then rejection c (Ev_Status e) (Ev_Error e)
          else match Ev_Error e with
               | Some stated => inBand c stated (Ev_Committed e)
               | None =>
                   if Ev_Committed e then Protocol
                   else match Ev_Err e with Some MalformedExchange => Protocol | _ => Connect end
               end
      end
  end.

Definition Classify (c : Classifier) (e : Evidence) : Outcome :=
  let class := class c e in
  let acceptance := Evidence_Acceptance e in
  mkClassified
    (if Cl_AtMostOnce c && Unresolved acceptance &&
        Contains [Connect; Timeout; RateLimit; ServerError; Credential; ContextWindow] class
     then Ambiguous else class)
    acceptance (String.eqb class Credential).

(** ** Unresolved work is not repeated *)

(** Only resolved work may fail over on a call that is made at most once. *)
Lemma Classify_failover c e committed :
  Cl_AtMostOnce c = true →
  failoverAllowed (Oc_Class (Classify c e)) committed = true → Unresolved (Evidence_Acceptance e) = false.
Proof.
  intros A F. unfold Classify in F. simpl in F. rewrite A in F. simpl in F.
  destruct (Unresolved (Evidence_Acceptance e)); [|done]. simpl in F. unfold failoverAllowed in F.
  set (cl := class c e) in *. clearbody cl. split_bools.
  destruct (Contains [Connect; Timeout; RateLimit; ServerError; Credential; ContextWindow] cl) eqn:C.
  - by vm_compute in H1.
  - apply Contains_true in H1. apply Contains_false in C. by destruct C.
Qed.

(** What the loop does next with a failure that unresolved work left. *)
Definition moves_on (f : flow) : bool :=
  match f with NextSlot | SameSlot | NextAttempt | BreakRoute => true | Return _ _ => false end.

(** C17. A call that must be made at most once is never repeated while the upstream may
    hold its work. When the attempt loop receives a failure of the classifier for
    such a call and goes on to another slot, the same slot or another target, the
    exchange established that nothing was sent or that the provider stated its
    outcome; a failure of unresolved work ends the request, and asks for no fallback
    unless the provider refused the content. *)
Theorem at_most_once_not_repeated (c : Classifier) (e : Evidence) (w : World) (x : leg) (r r' : running)
    (a : Attempt) (slot : string) (retry : Z) (d : Dispatched) (f : attemptFailure) (next : flow)
    (Honce : Cl_AtMostOnce c = true)
    (Hfail : Disp_failure d = Some f)
    (Hclass : F_class f = Oc_Class (Classify c e))
    (Hafter : afterDispatch w x r a slot retry d = (r', next))
    (Hopen : Unresolved (Evidence_Acceptance e) = true) :
  moves_on next = false ∧
  (∀ o conditions, next = Return o conditions → conditions = [] ∨ conditions = [FallbackContentFilter]).
Proof.
  pose proof (Classify_failover c e (F_committed f) Honce) as NF. rewrite <- Hclass, Hopen in NF.
  unfold afterDispatch in Hafter. rewrite Hfail in Hafter.
  destruct (failoverAllowed (F_class f) (F_committed f)); [by discriminate NF|].
  rewrite orb_true_r in Hafter. split.
  - repeat (case_match; simplify_eq; try done).
  - intros o conditions ->. repeat (case_match; simplify_eq; try by auto).
Qed.
End Classify.

#[export] Instance ascii_lib : UnicodeLib := {| ToLower := lower_ascii; ToLower_ascii := λ s _, eq_refl |}.

(** A server failure on a call made at most once, which the loop would otherwise fail
    over. *)
Definition lost_exchange : Evidence := mkEvidence true 502 false false None false None None.

Definition once : Classifier := mkClassifier true true [].

Lemma at_most_once_not_repeated_witness :
  let f := mkFailure (Oc_Class (Classify once lost_exchange)) false false true "" 0 in
  let d := mkDispatched (Some f) None None None None false in
  let out := afterDispatch sample_world sample_leg (start 0 [] 0) sample_attempt "s1" 0 d in
  F_class f = Ambiguous ∧ Oc_Class (Classify (mkClassifier true false []) lost_exchange) = ServerError ∧
  moves_on out.2 = false.
Proof.
  intros f d out. split; [reflexivity|]. split; [reflexivity|].
  exact (proj1 (at_most_once_not_repeated once lost_exchange sample_world sample_leg (start 0 [] 0) out.1
    sample_attempt "s1" 0 d f out.2 eq_refl eq_refl eq_refl eq_refl eq_refl)).
Defined.
