(* ===== verification/Source.v ===== *)
(** * Source documents: scanning

    The scanner of [internal/oif/source.go], the parser that keeps a request's JSON
    text while indexing its values: [plainEnd], which skips the plain bytes of a
    string eight at a time with word arithmetic, and the small scanners of the
    parser. Text is a list of bytes. *)

From S2P Require Import Prelude Go.
From Stdlib Require Import Ascii.
Local Open Scope Z_scope.

Definition code (c : ascii) : Z := Z.of_N (N_of_ascii c).

Lemma code_bound c : 0 <= code c < 256.
Proof. unfold code. pose proof (N_ascii_bounded c). lia. Qed.

Lemma code_inj c d : code c = code d → c = d.
Proof.
  unfold code. intros E. rewrite <- (ascii_N_embedding c), <- (ascii_N_embedding d).
  f_equal. lia.
Qed.

(** ** Words of eight bytes *)

Definition ones : Z := 0x0101010101010101.
Definition highs : Z := 0x8080808080808080.

(** The little-endian word of the bytes. *)
Definition word (bs : list ascii) : Z := foldr (λ c w, Z.lor (code c) (Z.shiftl w 8)) 0 bs.

(** Go's [x &^ y]. *)
Definition andnot (x y : Z) : Z := Z.ldiff x y.

(** The word holds a byte a string cannot hold as it is. *)
Definition flagged (w : Z) : bool :=
  let quote := Z.lxor w (wrapU64 (ones * 34)) in
  let slash := Z.lxor w (wrapU64 (ones * 92)) in
  negb (Z.land (Z.lor (Z.lor (andnot (wrapU64 (w - wrapU64 (ones * 0x20))) w)
                             (andnot (wrapU64 (quote - ones)) quote))
                      (andnot (wrapU64 (slash - ones)) slash)) highs =? 0).

Definition plain (c : ascii) : bool :=
  negb (Ascii.eqb c "034" || Ascii.eqb c "092" || (code c <? 0x20)).

(** The bytes skipped a word at a time. *)
Fixpoint skip_words (fuel : nat) (s : list ascii) (i : nat) : nat :=
  match fuel with
  | O => i
  | S fuel' =>
      if (8 <=? length s - i)%nat then
        if flagged (word (take 8 (drop i s))) then i else skip_words fuel' s (i + 8)
      else i
  end.

(** The bytes skipped one by one. *)
Fixpoint skip_bytes (s : list ascii) : nat :=
  match s with
  | [] => 0
  | c :: s' => if plain c then S (skip_bytes s') else 0
  end.

Definition plainEnd (s : list ascii) (i : nat) : nat :=
  let i := skip_words (length s) s i in (i + skip_bytes (drop i s))%nat.

(** ** The word test is exact *)

(** The word of byte values, as a sum. *)
Fixpoint number (bs : list Z) : Z := match bs with [] => 0 | b :: bs' => b + 256 * number bs' end.

Definition is_byte (b : Z) : Prop := 0 <= b < 256.

(** Bits of a number split below its first byte. *)
Lemma bits_low x y n : 0 <= n < 8 → Z.testbit (x + 256 * y) n = Z.testbit (x mod 256) n.
Proof.
  intros H. change 256 with (2 ^ 8). rewrite <- (Z.mod_pow2_bits_low (x + 2 ^ 8 * y) 8) by lia.
  rewrite (Z.mul_comm (2 ^ 8)), Z_mod_plus_full. done.
Qed.

Lemma bits_high x y n : 8 <= n → Z.testbit (x + 256 * y) n = Z.testbit (x / 256 + y) (n - 8).
Proof.
  intros H. replace (x / 256 + y) with ((x + 256 * y) / 2 ^ 8).
  - rewrite Z.div_pow2_bits by lia. f_equal. lia.
  - change (2 ^ 8) with 256. rewrite (Z.mul_comm 256). apply Z_div_plus_full. lia.
Qed.

Lemma byte_small b : is_byte b → b mod 256 = b ∧ b / 256 = 0.
Proof. unfold is_byte. intros. split; [apply Z.mod_small|apply Z.div_small]; lia. Qed.

(** The high bit of a byte. *)
Lemma byte_high b : is_byte b → Z.testbit b 7 = (128 <=? b).
Proof.
  unfold is_byte. intros B. rewrite <- (Z.mod_small b 256) at 1 by lia.
  destruct (Z.leb_spec 128 b).
  - apply Z.testbit_true; [lia|]. change (2 ^ 7) with 128. Z.to_euclidean_division_equations. lia.
  - apply Z.testbit_false; [lia|]. change (2 ^ 7) with 128. Z.to_euclidean_division_equations. lia.
Qed.

Lemma word_number bs : word bs = number (map code bs).
Proof.
  induction bs as [|c bs IH]; [done|]. cbn [word foldr map number]. fold (word bs). rewrite IH.
  apply Z.bits_inj'. intros n Hn. rewrite Z.lor_spec. pose proof (code_bound c) as B.
  destruct (byte_small (code c) B) as [Em Ed].
  destruct (Z.ltb_spec n 8).
  - rewrite bits_low, Em, Z.shiftl_spec_low by lia. apply orb_false_r.
  - rewrite bits_high, Ed, Z.shiftl_spec by lia. rewrite <- (Z.add_0_r (code c)).
    change (code c + 0) with (code c + 256 * 0). rewrite bits_high, Ed, Z.bits_0 by lia. done.
Qed.

(** Bit [8 j + 7] of the difference is set and that of the word is not, for some
    byte [j], exactly when a byte is below [k]: up to the first such byte nothing is
    borrowed. *)
Definition borrows (x y : Z) (n : nat) : Prop :=
  ∃ j, 0 <= j < Z.of_nat n ∧ Z.testbit x (8 * j + 7) = true ∧ Z.testbit y (8 * j + 7) = false.

Lemma borrows_exact k bs :
  1 <= k <= 128 → Forall is_byte bs →
  borrows (number bs - k * number (replicate (length bs) 1)) (number bs) (length bs) ↔ Exists (λ b, b < k) bs.
Proof.
  intros K. induction 1 as [|b bs B F IH].
  { split; [intros (j & Hj & _); simpl in Hj; lia|by intros ?%Exists_nil]. }
  cbn [length replicate number]. set (o := number (replicate (length bs) 1)) in *. set (w := number bs) in *.
  replace (b + 256 * w - k * (1 + 256 * o)) with ((b - k) + 256 * (w - k * o)) by lia.
  destruct (byte_small b B) as [Em Ed]. rewrite Exists_cons. unfold is_byte in B.
  destruct (Z.ltb_spec b k) as [L|L].
  - split; [by left|]. intros _. exists 0. split; [lia|]. change (8 * 0 + 7) with 7.
    rewrite !bits_low, Em by lia.
    replace ((b - k) mod 256) with (b - k + 256) by (Z.to_euclidean_division_equations; lia).
    rewrite !byte_high by (unfold is_byte; lia). lia.
  - rewrite <- IH. split.
    + intros (j & Hj & H1 & H2). right. destruct (Z.eq_dec j 0) as [->|].
      * exfalso. change (8 * 0 + 7) with 7 in *. rewrite bits_low, Z.mod_small, byte_high in H1, H2
          by (unfold is_byte; lia). lia.
      * exists (j - 1). split; [lia|]. rewrite bits_high in H1, H2 by lia.
        rewrite Z.div_small in H1 by lia. rewrite Ed in H2.
        replace (8 * (j - 1) + 7) with (8 * j + 7 - 8) by lia. split; [apply H1|apply H2].
    + intros [?|(j & Hj & H1 & H2)]; [lia|]. exists (j + 1). split; [lia|].
      rewrite !bits_high by lia. rewrite Z.div_small by lia. rewrite Ed.
      replace (8 * (j + 1) + 7 - 8) with (8 * j + 7) by lia. by split.
Qed.

Lemma xor_byte b k : is_byte b → is_byte k → is_byte (Z.lxor b k).
Proof.
  unfold is_byte. intros B K. assert (0 <= Z.lxor b k) by (apply Z.lxor_nonneg; lia). split; [done|].
  destruct (Z.eq_dec (Z.lxor b k) 0) as [->|]; [lia|].
  change 256 with (2 ^ 8). apply Z.log2_lt_pow2; [lia|].
  eapply Z.le_lt_trans; [apply Z.log2_lxor; lia|].
  assert (L : ∀ x, 0 <= x < 256 → Z.log2 x < 8).
  { intros x Hx. destruct (Z.eq_dec x 0) as [->|]; [done|]. apply Z.log2_lt_pow2; lia. }
  pose proof (L b B). pose proof (L k K). lia.
Qed.

Lemma xor_number k bs :
  is_byte k → Forall is_byte bs →
  Z.lxor (number bs) (number (replicate (length bs) k)) = number (map (λ b, Z.lxor b k) bs).
Proof.
  intros K. induction 1 as [|b bs B F IH]; [done|]. cbn [length replicate number map]. rewrite <- IH.
  apply Z.bits_inj'. intros n Hn. rewrite Z.lxor_spec.
  destruct (byte_small b B) as [Em Ed], (byte_small k K) as [Km Kd],
    (byte_small _ (xor_byte b k B K)) as [Xm Xd].
  destruct (Z.ltb_spec n 8).
  - rewrite !bits_low, Em, Km, Xm by lia. by rewrite Z.lxor_spec.
  - rewrite !bits_high, Ed, Kd, Xd by lia. by rewrite !Z.add_0_l, Z.lxor_spec.
Qed.

Lemma high_bits n : 0 <= n → Z.testbit highs n = true → ∃ j, 0 <= j < 8 ∧ n = 8 * j + 7.
Proof.
  intros Hn T. assert (n < 64).
  { destruct (Z.lt_ge_cases n 64); [done|]. rewrite Z.bits_above_log2 in T; [done|done|].
    change (Z.log2 highs) with 63. lia. }
  assert (Forall (λ n, Z.testbit highs n = true → n mod 8 = 7) (seqZ 0 64)) as A.
  { apply (bool_decide_unpack _). vm_compute. exact I. }
  rewrite Forall_forall in A. assert (n mod 8 = 7) by (apply A; [apply elem_of_seqZ; lia|done]).
  exists (n / 8). Z.to_euclidean_division_equations. lia.
Qed.

Lemma highs_bit j : 0 <= j < 8 → Z.testbit highs (8 * j + 7) = true.
Proof.
  intros H. assert (Forall (λ j, Z.testbit highs (8 * j + 7) = true) (seqZ 0 8)) as A.
  { apply (bool_decide_unpack _). vm_compute. exact I. }
  rewrite Forall_forall in A. apply A, elem_of_seqZ. lia.
Qed.

Lemma land_highs x : Z.land x highs ≠ 0 ↔ ∃ j, 0 <= j < 8 ∧ Z.testbit x (8 * j + 7) = true.
Proof.
  split.
  - intros N. assert (0 <= Z.land x highs) by (apply Z.land_nonneg; by right).
    pose proof (Z.bit_log2 (Z.land x highs) ltac:(lia)) as B. rewrite Z.land_spec in B.
    apply andb_true_iff in B as [Bx Bh]. apply high_bits in Bh as (j & Hj & E); [|apply Z.log2_nonneg].
    exists j. by rewrite <- E.
  - intros (j & Hj & T) E. apply (f_equal (λ z, Z.testbit z (8 * j + 7))) in E.
    by rewrite Z.land_spec, T, highs_bit, Z.bits_0 in E.
Qed.

(** One of the three tests: a byte of the word is below [k]. *)
Lemma test_exact k bs :
  1 <= k <= 128 → Forall is_byte bs → length bs = 8%nat →
  (∃ j, 0 <= j < 8 ∧ Z.testbit (andnot (wrapU64 (number bs - k * ones)) (number bs)) (8 * j + 7) = true)
  ↔ Exists (λ b, b < k) bs.
Proof.
  intros K F L. rewrite <- borrows_exact by done. unfold borrows, andnot, wrapU64. rewrite L.
  change (number (replicate 8 1)) with ones.
  split; intros (j & Hj & T); exists j; (split; [lia|]).
  - rewrite Z.ldiff_spec, Z.mod_pow2_bits_low in T by lia. apply andb_true_iff in T as [? ?%negb_true_iff]. done.
  - rewrite Z.ldiff_spec, Z.mod_pow2_bits_low by lia. destruct T as [-> ->]. done.
Qed.

Lemma is_byte_code s : Forall is_byte (map code s).
Proof. apply Forall_map, Forall_forall. intros c _. apply code_bound. Qed.

Lemma Exists_same {A} (P Q : A → Prop) l : (∀ x, P x ↔ Q x) → Exists P l ↔ Exists Q l.
Proof. intros E. rewrite !Exists_exists. setoid_rewrite E. done. Qed.

Lemma Exists_either {A} (P Q : A → Prop) l : Exists P l ∨ Exists Q l ↔ Exists (λ x, P x ∨ Q x) l.
Proof. rewrite !Exists_exists. naive_solver. Qed.

Lemma xor_zero b k : is_byte b → is_byte k → Z.lxor b k < 1 ↔ b = k.
Proof.
  intros B K. pose proof (xor_byte b k B K) as X. unfold is_byte in X. rewrite <- Z.lxor_eq_0_iff. lia.
Qed.

(** The second and third tests find one byte. *)
Lemma test_byte k s :
  is_byte k → length s = 8%nat →
  let v := Z.lxor (number (map code s)) (wrapU64 (ones * k)) in
  (∃ j, 0 <= j < 8 ∧ Z.testbit (andnot (wrapU64 (v - ones)) v) (8 * j + 7) = true)
  ↔ Exists (λ c, code c = k) s.
Proof.
  intros K L v. assert (v = number (map (λ b, Z.lxor b k) (map code s))) as ->.
  { rewrite <- xor_number by (done || apply is_byte_code). unfold v. do 2 f_equal.
    rewrite length_map, L. unfold wrapU64, is_byte in *. cbn [replicate number]. unfold ones.
    rewrite Z.mod_small by lia. lia. }
  rewrite <- (Z.mul_1_l ones), test_exact; [|lia| |by rewrite !length_map].
  - rewrite map_map, Exists_map. apply Exists_same. intros c. apply xor_zero; [apply code_bound|done].
  - apply Forall_map, (Forall_impl _ _ _ (is_byte_code s)). intros b B. by apply xor_byte.
Qed.

(** A word is flagged exactly when one of its bytes is not plain. *)
Lemma flagged_exact s : length s = 8%nat → flagged (word s) = true ↔ Exists (λ c, plain c = false) s.
Proof.
  intros L. unfold flagged. rewrite word_number, negb_true_iff, Z.eqb_neq, land_highs.
  pose proof (test_byte 34 s ltac:(unfold is_byte; lia) L) as Q.
  pose proof (test_byte 92 s ltac:(unfold is_byte; lia) L) as B.
  pose proof (test_exact 32 (map code s) ltac:(lia) (is_byte_code s) ltac:(by rewrite length_map)) as C.
  rewrite Exists_map in C. change (32 * ones) with (wrapU64 (ones * 32)) in C. cbv zeta in *.
  set (x1 := andnot (wrapU64 (number (map code s) - _)) _) in *.
  set (x2 := andnot (wrapU64 (_ - ones)) _) in Q. set (x3 := andnot (wrapU64 (_ - ones)) _) in B.
  fold x2 x3. transitivity ((∃ j, 0 <= j < 8 ∧ Z.testbit x1 (8 * j + 7) = true) ∨
    (∃ j, 0 <= j < 8 ∧ Z.testbit x2 (8 * j + 7) = true) ∨ (∃ j, 0 <= j < 8 ∧ Z.testbit x3 (8 * j + 7) = true)).
  - clearbody x1 x2 x3. split.
    + intros (j & Hj & T). rewrite !Z.lor_spec, !orb_true_iff in T. destruct T as [[T|T]|T]; eauto 6.
    + intros [(j & Hj & T)|[(j & Hj & T)|(j & Hj & T)]]; exists j; (split; [done|]);
        by rewrite !Z.lor_spec, T, ?orb_true_r.
  - rewrite C, Q, B, !Exists_either. apply Exists_same. intros c. unfold plain.
    rewrite negb_false_iff, !orb_true_iff, !Ascii.eqb_eq. split.
    + intros [H|[H|H]]; [right; lia| |]; left; [left|right]; by apply code_inj.
    + intros [ [-> | ->] | ?]; [auto|auto|left; lia].
Qed.

(** ** [plainEnd] scans byte by byte *)

Lemma skip_bytes_plain s k : forallb plain s = true → skip_bytes (s ++ k) = (length s + skip_bytes k)%nat.
Proof. induction s as [|c s IH]; simpl; [done|]. intros [-> ?]%andb_true_iff. simpl. rewrite IH; auto. Qed.

Lemma unflagged_plain s : length s = 8%nat → flagged (word s) = false → forallb plain s = true.
Proof.
  intros L F. apply forallb_forall. intros c Hc. destruct (plain c) eqn:E; [done|].
  exfalso. apply not_true_iff_false in F. apply F, flagged_exact; [done|]. apply Exists_exists.
  exists c. split; [by apply list_elem_of_In|done].
Qed.

Lemma skip_words_exact fuel s i :
  (i <= length s)%nat →
  let k := skip_words fuel s i in
  (i <= k <= length s)%nat ∧ (k + skip_bytes (drop k s) = i + skip_bytes (drop i s))%nat.
Proof.
  revert i. induction fuel as [|fuel IH]; intros i Hi; cbn [skip_words]; [cbv zeta; lia|].
  destruct (Nat.leb_spec 8 (length s - i)) as [W|W]; [|cbv zeta; lia].
  destruct (flagged _) eqn:F; [cbv zeta; lia|].
  assert (L : length (take 8 (drop i s)) = 8%nat) by (rewrite length_take, length_drop; lia).
  pose proof (unflagged_plain _ L F) as P. destruct (IH (i + 8)%nat) as [B E]; [lia|].
  cbv zeta. split; [lia|]. rewrite E. rewrite <- (take_drop 8 (drop i s)), skip_bytes_plain, L, drop_drop by done.
  lia.
Qed.

Lemma plainEnd_eq s i : (i <= length s)%nat → plainEnd s i = (i + skip_bytes (drop i s))%nat.
Proof. intros Hi. unfold plainEnd. cbv zeta. by apply (skip_words_exact (length s) s i). Qed.

(** Skipping eight bytes at a time with word arithmetic finds the byte that a scan
    one by one finds: [plainEnd] is the index of the first quotation mark, backslash
    or control character from [i] on, and the length of the text when there is none.
    The word test is exact in both directions, borrows between bytes included. *)
Theorem plain_end_exact (s : list ascii) (i : nat) :
  (i <= length s)%nat →
  plainEnd s i = (i + skip_bytes (drop i s))%nat ∧
  (∀ b, length b = 8%nat → flagged (word b) = true ↔ Exists (λ c, plain c = false) b).
Proof.
  intros Hi. split; [by apply plainEnd_eq|apply flagged_exact].
Qed.

Lemma plain_end_exact_witness :
  plainEnd (String.list_ascii_of_string "plain text\ and more") 0 = 10%nat.
Proof.
  rewrite (proj1 (plain_end_exact (String.list_ascii_of_string "plain text\ and more") 0
                    ltac:(simpl; lia))).
  reflexivity.
Defined.
