(* ===== verification/SourceParser.v ===== *)
(** * Source documents: the parser

    [ParseJSON] of [internal/oif/source.go] with its parser and the values it
    indexes. The parser's position is kept as the text left to read, which is the
    document from [p.at] on. A document's values are nodes of one array, in the order
    they begin; a container refers to its members and elements by index.
    [json.Unmarshal] of a member's name decodes a string the parser has accepted, as
    [Value.text] does. *)

From S2P Require Import Prelude Go Source.
From Stdlib Require Import Ascii.
Local Open Scope Z_scope.

Notation text := (list ascii).

Definition txt (s : string) : text := String.list_ascii_of_string s.

(** ** Documents *)

Inductive Kind := Absent | Null | Boolean | Number | KString | Array | Object.

Record Limits := mkLimits { MaxBytes : Z; MaxDepth : Z; MaxNodes : Z }.

Definition effective (l : Limits) : Limits :=
  mkLimits (if MaxBytes l <=? 0 then Z.shiftl 64 20 else MaxBytes l)
    (if MaxDepth l <=? 0 then 128 else MaxDepth l)
    (if MaxNodes l <=? 0 then Z.shiftl 1 16 else MaxNodes l).

Record SourceError := mkSourceError { SE_Code : string; SE_Offset : nat }.

Record node := mkNode {
  n_start : nat; n_end : nat; n_kind : Kind;
  n_members : list (text * nat); n_elements : list nat;
}.

Record document := mkDocument { d_raw : text; d_nodes : list node; d_limits : Limits }.

(** ** UTF-8 *)

Definition continuation (c : ascii) (lo hi : Z) : bool := (lo <=? code c) && (code c <=? hi).

(** [utf8.Valid] *)
Fixpoint utf8_Valid (s : text) : bool :=
  match s with
  | [] => true
  | a :: s1 =>
      let x := code a in
      if x <? 0x80 then utf8_Valid s1
      else match s1 with
      | [] => false
      | b :: s2 =>
          if (0xC2 <=? x) && (x <=? 0xDF) then continuation b 0x80 0xBF && utf8_Valid s2
          else match s2 with
          | [] => false
          | c :: s3 =>
              if x =? 0xE0 then continuation b 0xA0 0xBF && continuation c 0x80 0xBF && utf8_Valid s3
              else if x =? 0xED then continuation b 0x80 0x9F && continuation c 0x80 0xBF && utf8_Valid s3
              else if (0xE1 <=? x) && (x <=? 0xEF)
              then continuation b 0x80 0xBF && continuation c 0x80 0xBF && utf8_Valid s3
              else match s3 with
              | [] => false
              | d :: s4 =>
                  let tail := continuation c 0x80 0xBF && continuation d 0x80 0xBF && utf8_Valid s4 in
                  if x =? 0xF0 then continuation b 0x90 0xBF && tail
                  else if x =? 0xF4 then continuation b 0x80 0x8F && tail
                  else if (0xF1 <=? x) && (x <=? 0xF3) then continuation b 0x80 0xBF && tail
                  else false
              end
          end
      end
  end.

Definition byte_of (z : Z) : ascii := ascii_of_N (Z.to_N z).

(** [strings.Builder.WriteRune] of a valid rune. *)
Definition encode_rune (r : Z) : text :=
  if r <? 0x80 then [byte_of r]
  else if r <? 0x800 then [byte_of (0xC0 + r / 64); byte_of (0x80 + r mod 64)]
  else if r <? 0x10000
  then [byte_of (0xE0 + r / 4096); byte_of (0x80 + r / 64 mod 64); byte_of (0x80 + r mod 64)]
  else [byte_of (0xF0 + r / 262144); byte_of (0x80 + r / 4096 mod 64); byte_of (0x80 + r / 64 mod 64);
        byte_of (0x80 + r mod 64)].

(** ** Scanners *)

Definition is_space (c : ascii) : bool := existsb (Ascii.eqb c) [" "; "010"; "013"; "009"]%char.

Fixpoint space (s : text) : text :=
  match s with c :: s' => if is_space c then space s' else s | [] => [] end.

Definition take_ (c : ascii) (s : text) : option text :=
  match s with d :: s' => if Ascii.eqb d c then Some s' else None | [] => None end.

(** The text after a byte that need not be there. *)
Definition skip (c : ascii) (s : text) : text := default s (take_ c s).

Fixpoint literal (word s : text) : option text :=
  match word with
  | [] => Some s
  | c :: word' => match take_ c s with Some s' => literal word' s' | None => None end
  end.

Definition digit_byte (c : ascii) : bool := (48 <=? code c) && (code c <=? 57).

(** The number of digits and the text after them. *)
Fixpoint digits (s : text) : nat * text :=
  match s with
  | c :: s' => if digit_byte c then (let '(n, r) := digits s' in (S n, r)) else (0%nat, s)
  | [] => (0%nat, [])
  end.

Definition hex_digit (c : ascii) : option Z :=
  let x := code c in
  if (48 <=? x) && (x <=? 57) then Some (x - 48)
  else if (97 <=? x) && (x <=? 102) then Some (x - 87)
  else if (65 <=? x) && (x <=? 70) then Some (x - 55) else None.

(** [strconv.ParseUint] of four digits in base 16. *)
Definition hex4 (a b c d : ascii) : option Z :=
  match hex_digit a, hex_digit b, hex_digit c, hex_digit d with
  | Some w, Some x, Some y, Some z => Some (((w * 16 + x) * 16 + y) * 16 + z)
  | _, _, _, _ => None
  end.

(** ** Errors

    [None] is a model out of fuel; [inl] an error of the code. *)

Definition res (A : Type) : Type := option (SourceError + A).
Definition ok {A} (a : A) : res A := Some (inr a).

Definition res_bind {A B} (c : res A) (k : A → res B) : res B :=
  match c with Some (inr a) => k a | Some (inl e) => Some (inl e) | None => None end.

Notation "'let!' x := c 'in' k" := (res_bind c (λ x, k))
  (at level 200, x pattern, c at level 100, k at level 200) : olp_scope.
Local Open Scope olp_scope.

Section Parser.
Context (size : nat) (limits : Limits).

(** [p.at], from the text left. *)
Definition at_ (rest : text) : nat := (size - length rest)%nat.

Definition fail {A} (code : string) (rest : text) : res A := Some (inl (mkSourceError code (at_ rest))).

Definition number (rest : text) : res text :=
  let rest := skip "-" rest in
  match rest with
  | [] => fail "invalid_number" rest
  | c :: _ =>
      let! rest := (match take_ "0" rest with
               | Some rest => ok rest
               | None => if (49 <=? code c) && (code c <=? 57) then ok (digits rest).2
                         else fail "invalid_number" rest
               end) in
      let! rest := (match take_ "." rest with
               | Some rest => match digits rest with
                              | (O, rest) => fail "invalid_number" rest
                              | (_, rest) => ok rest
                              end
               | None => ok rest
               end) in
      match (match take_ "e" rest with Some r => Some r | None => take_ "E" rest end) with
      | None => ok rest
      | Some rest =>
          let rest := match take_ "+" rest with Some r => r | None => skip "-" rest end in
          match digits rest with
          | (O, rest) => fail "invalid_number" rest
          | (_, rest) => ok rest
          end
      end
  end.

Definition hex (rest : text) : res (Z * text) :=
  match rest with
  | a :: b :: c :: d :: rest' =>
      match hex4 a b c d with
      | Some n => ok (n, rest')
      | None => fail "invalid_unicode_escape" rest
      end
  | _ => fail "invalid_unicode_escape" rest
  end.

(** The escape after a backslash. *)
Definition escape (rest : text) : res text :=
  match rest with
  | [] => fail "invalid_escape" rest
  | c :: rest =>
      if existsb (Ascii.eqb c) ["034"; "092"; "/"; "b"; "f"; "n"; "r"; "t"]%char then ok rest
      else if Ascii.eqb c "u" then
        let! (n, rest) := hex rest in
        if (0xDC00 <=? n) && (n <=? 0xDFFF) then fail "unpaired_surrogate" rest
        else if (0xD800 <=? n) && (n <=? 0xDBFF) then
          match take_ "092" rest with
          | None => fail "unpaired_surrogate" rest
          | Some rest =>
              match take_ "u" rest with
              | None => fail "unpaired_surrogate" rest
              | Some rest =>
                  let! (low, rest) := hex rest in
                  if (low <? 0xDC00) || (low >? 0xDFFF) then fail "unpaired_surrogate" rest else ok rest
              end
          end
        else ok rest
      else fail "invalid_escape" rest
  end.

(** The loop of [string], after the opening quotation mark. *)
Fixpoint string_loop (fuel : nat) (rest : text) : res text :=
  match fuel with
  | O => None
  | S fuel' =>
      match drop (plainEnd rest 0) rest with
      | [] => fail "unterminated_string" []
      | c :: rest =>
          if Ascii.eqb c "034" then ok rest
          else if code c <? 0x20 then fail "string_control_character" rest
          else if negb (Ascii.eqb c "092") then string_loop fuel' rest
          else let! rest := escape rest in string_loop fuel' rest
      end
  end.

Definition string_ (rest : text) : res text :=
  match take_ "034" rest with
  | None => fail "expected_string" rest
  | Some rest => string_loop (S (length rest)) rest
  end.

(** The decoded text of a string body, [None] where the code would index past it. *)
Fixpoint unquote (fuel : nat) (body : text) : option text :=
  match fuel with
  | O => None
  | S fuel' =>
      match body with
      | [] => Some []
      | c :: body =>
          if negb (Ascii.eqb c "092") then cons c <$> unquote fuel' body
          else match body with
          | [] => None
          | c :: body =>
              if Ascii.eqb c "b" then cons "008"%char <$> unquote fuel' body
              else if Ascii.eqb c "f" then cons "012"%char <$> unquote fuel' body
              else if Ascii.eqb c "n" then cons "010"%char <$> unquote fuel' body
              else if Ascii.eqb c "r" then cons "013"%char <$> unquote fuel' body
              else if Ascii.eqb c "t" then cons "009"%char <$> unquote fuel' body
              else if Ascii.eqb c "u" then
                match body with
                | h1 :: h2 :: h3 :: h4 :: body =>
                    let r := default 0 (hex4 h1 h2 h3 h4) in
                    if (0xD800 <=? r) && (r <=? 0xDFFF) then
                      match body with
                      | _ :: _ :: l1 :: l2 :: l3 :: l4 :: body =>
                          let low := default 0 (hex4 l1 l2 l3 l4) in
                          let rune := if (r <=? 0xDBFF) && (0xDC00 <=? low) && (low <=? 0xDFFF)
                                      then (r - 0xD800) * 1024 + (low - 0xDC00) + 0x10000 else 0xFFFD in
                          app (encode_rune rune) <$> unquote fuel' body
                      | _ => None
                      end
                    else app (encode_rune r) <$> unquote fuel' body
                | _ => None
                end
              else cons c <$> unquote fuel' body
          end
      end
  end.

Definition decode (body : text) : option text := unquote (S (length body)) body.

(** The name of a member, from its text between the quotation marks. *)
Definition name_of (body : text) : text :=
  if existsb (Ascii.eqb "092") body then default [] (decode body) else body.

(** The text two positions bound. *)
Definition between (from to : text) : text := take (length from - length to) from.

Definition set_node (nodes : list node) (index start : nat) (kind : Kind) (members : list (text * nat))
    (elements : list nat) (rest : text) : list node :=
  <[index := mkNode start (at_ rest) kind members elements]> nodes.

Fixpoint value (fuel : nat) (depth : Z) (nodes : list node) (rest : text) : res (nat * list node * text) :=
  match fuel with
  | O => None
  | S fuel' =>
      let rest := space rest in
      if depth >? MaxDepth limits then fail "depth_limit" rest
      else if Z.of_nat (length nodes) >=? MaxNodes limits then fail "node_limit" rest
      else match rest with
      | [] => fail "unexpected_end" rest
      | c :: tail =>
          let index := length nodes in
          let start := at_ rest in
          let nodes := nodes ++ [mkNode start 0 Absent [] []] in
          let done kind members elements nodes rest :=
            ok (index, set_node nodes index start kind members elements rest, rest) in
          if Ascii.eqb c "{" then
            let rest := space tail in
            match take_ "}" rest with
            | Some rest => done Object [] [] nodes rest
            | None =>
                let! (ms, nodes, rest) := members fuel' depth nodes rest [] in
                done Object ms [] nodes rest
            end
          else if Ascii.eqb c "[" then
            let rest := space tail in
            match take_ "]" rest with
            | Some rest => done Array [] [] nodes rest
            | None =>
                let! (es, nodes, rest) := elements fuel' depth nodes rest [] in
                done Array [] es nodes rest
            end
          else if Ascii.eqb c "034" then
            let! rest := string_ rest in done KString [] [] nodes rest
          else if Ascii.eqb c "n" then
            match literal (txt "null") rest with
            | Some rest => done Null [] [] nodes rest
            | None => fail "invalid_literal" rest
            end
          else if Ascii.eqb c "t" then
            match literal (txt "true") rest with
            | Some rest => done Boolean [] [] nodes rest
            | None => fail "invalid_literal" rest
            end
          else if Ascii.eqb c "f" then
            match literal (txt "false") rest with
            | Some rest => done Boolean [] [] nodes rest
            | None => fail "invalid_literal" rest
            end
          else
            let! rest := number rest in done Number [] [] nodes rest
      end
  end
(** The members of an object; the names seen are those of the members so far. *)
with members (fuel : nat) (depth : Z) (nodes : list node) (rest : text) (acc : list (text * nat))
  : res (list (text * nat) * list node * text) :=
  match fuel with
  | O => None
  | S fuel' =>
      let start := space rest in
      let! rest := string_ start in
      let quoted := between start rest in
      let name := name_of (take (length quoted - 2) (drop 1 quoted)) in
      if Contains (map fst acc) name then fail "duplicate_key" rest
      else
        let rest := space rest in
        match take_ ":" rest with
        | None => fail "expected_colon" rest
        | Some rest =>
            let! (child, nodes, rest) := value fuel' (depth + 1) nodes rest in
            let acc := acc ++ [(name, child)] in
            let rest := space rest in
            match take_ "}" rest with
            | Some rest => ok (acc, nodes, rest)
            | None =>
                match take_ "," rest with
                | Some rest => members fuel' depth nodes rest acc
                | None => fail "expected_object_end" rest
                end
            end
        end
  end
with elements (fuel : nat) (depth : Z) (nodes : list node) (rest : text) (acc : list nat)
  : res (list nat * list node * text) :=
  match fuel with
  | O => None
  | S fuel' =>
      let! (child, nodes, rest) := value fuel' (depth + 1) nodes rest in
      let acc := acc ++ [child] in
      let rest := space rest in
      match take_ "]" rest with
      | Some rest => ok (acc, nodes, rest)
      | None =>
          match take_ "," rest with
          | Some rest => elements fuel' depth nodes rest acc
          | None => fail "expected_array_end" rest
          end
      end
  end.
End Parser.

(** Each value and each member reads a byte. *)
Definition parse_fuel (data : text) : nat := S (S (2 * length data)).

Definition ParseJSON (data : text) (limits : Limits) : res document :=
  let limits := effective limits in
  if Z.of_nat (length data) >? MaxBytes limits then Some (inl (mkSourceError "byte_limit" 0))
  else if negb (utf8_Valid data) then Some (inl (mkSourceError "invalid_utf8" 0))
  else
    let! (_, nodes, rest) := value (length data) limits (parse_fuel data) 0 [] data in
    match space rest with
    | [] => ok (mkDocument data nodes limits)
    | rest => fail (length data) "trailing_data" rest
    end.
