(* ===== verification/SourceGrammar.v ===== *)
(** * Source documents: what the parser accepts

    The grammar of JSON as an inductive relation between a tree of values and its
    text, and the proof that [ParseJSON] accepts exactly the documents of that
    grammar within its limits, indexing their values. *)

From S2P Require Import Prelude Go Source SourceParser.
From Stdlib Require Import Ascii Wf_nat.
Local Open Scope Z_scope.
Local Open Scope olp_scope.

(** ** The grammar *)

Definition blank (w : text) : Prop := forallb is_space w = true.

Definition all_digits (ds : text) : Prop := forallb digit_byte ds = true ∧ ds ≠ [].

Inductive integer : text → Prop :=
  | integer_zero : integer ["0"%char]
  | integer_digits d ds : (49 <=? code d) && (code d <=? 57) = true → forallb digit_byte ds = true →
      integer (d :: ds).

Inductive fraction : text → Prop :=
  | fraction_none : fraction []
  | fraction_digits ds : all_digits ds → fraction ("."%char :: ds).

Inductive exponent : text → Prop :=
  | exponent_none : exponent []
  | exponent_digits e sign ds :
      e = "e"%char ∨ e = "E"%char → sign ∈ [[]; ["+"]; ["-"]]%char → all_digits ds →
      exponent (e :: sign ++ ds).

Inductive numeral : text → Prop :=
  | numeral_intro sign i f e :
      sign ∈ [[]; ["-"]]%char → integer i → fraction f → exponent e → numeral (sign ++ i ++ f ++ e).

(** What follows a backslash. *)
Inductive escaped : text → Prop :=
  | escaped_char c :
      existsb (Ascii.eqb c) ["034"; "092"; "/"; "b"; "f"; "n"; "r"; "t"]%char = true → escaped [c]
  | escaped_unit a b c d n :
      hex4 a b c d = Some n → n < 0xD800 ∨ 0xDFFF < n → escaped ["u"%char; a; b; c; d]
  | escaped_pair a b c d high e f g h low :
      hex4 a b c d = Some high → 0xD800 <= high <= 0xDBFF →
      hex4 e f g h = Some low → 0xDC00 <= low <= 0xDFFF →
      escaped ["u"; a; b; c; d; "092"; "u"; e; f; g; h]%char.

Inductive chars : text → Prop :=
  | chars_nil : chars []
  | chars_plain c s : plain c = true → chars s → chars (c :: s)
  | chars_escape e s : escaped e → chars s → chars ("092"%char :: e ++ s).

(** Trees keep the text of names, strings and numbers. *)
Local Unset Elimination Schemes.
Inductive json :=
  | JNull | JBool (b : bool) | JNumber (t : text) | JString (body : text)
  | JArray (l : list json) | JObject (l : list (text * json)).
Local Set Elimination Schemes.

Definition json_ind (P : json → Prop)
    (Hnull : P JNull) (Hbool : ∀ b, P (JBool b)) (Hnum : ∀ t, P (JNumber t)) (Hstr : ∀ b, P (JString b))
    (Harr : ∀ l, Forall P l → P (JArray l))
    (Hobj : ∀ l, Forall (λ m, P m.2) l → P (JObject l)) : ∀ t, P t :=
  fix go t := match t with
    | JNull => Hnull | JBool b => Hbool b | JNumber n => Hnum n | JString b => Hstr b
    | JArray l => Harr l ((fix all l : Forall P l :=
        match l with [] => Forall_nil_2 _ | t :: l' => Forall_cons_2 _ _ _ (go t) (all l') end) l)
    | JObject l => Hobj l ((fix all l : Forall (λ m, P m.2) l :=
        match l with [] => Forall_nil_2 _ | m :: l' => Forall_cons_2 _ _ _ (go m.2) (all l') end) l)
    end.

Definition quoted (b : text) : text := "034"%char :: b ++ ["034"%char].

Inductive Val : json → text → Prop :=
  | V_null : Val JNull (txt "null")
  | V_true : Val (JBool true) (txt "true")
  | V_false : Val (JBool false) (txt "false")
  | V_number t : numeral t → Val (JNumber t) t
  | V_string b : chars b → Val (JString b) (quoted b)
  | V_array_empty w : blank w → Val (JArray []) ("["%char :: w ++ ["]"%char])
  | V_array l s : Elems l s → Val (JArray l) ("["%char :: s)
  | V_object_empty w : blank w → Val (JObject []) ("{"%char :: w ++ ["}"%char])
  | V_object l s : Mems l s → NoDup (map (λ m, name_of m.1) l) → Val (JObject l) ("{"%char :: s)
with Elems : list json → text → Prop :=
  | E_last t w s w' : blank w → Val t s → blank w' → Elems [t] (w ++ s ++ w' ++ ["]"%char])
  | E_more t l w s w' r : blank w → Val t s → blank w' → Elems l r →
      Elems (t :: l) (w ++ s ++ w' ++ ","%char :: r)
with Mems : list (text * json) → text → Prop :=
  | M_last b t w w1 w2 s w3 : blank w → chars b → blank w1 → blank w2 → Val t s → blank w3 →
      Mems [(b, t)] (w ++ quoted b ++ w1 ++ ":"%char :: w2 ++ s ++ w3 ++ ["}"%char])
  | M_more b t l w w1 w2 s w3 r : blank w → chars b → blank w1 → blank w2 → Val t s → blank w3 → Mems l r →
      Mems ((b, t) :: l) (w ++ quoted b ++ w1 ++ ":"%char :: w2 ++ s ++ w3 ++ ","%char :: r).

Scheme Val_mut := Minimality for Val Sort Prop
  with Elems_mut := Minimality for Elems Sort Prop
  with Mems_mut := Minimality for Mems Sort Prop.
Combined Scheme grammar_ind from Val_mut, Elems_mut, Mems_mut.

(** How deep a tree nests and how many values it has. *)
Fixpoint depth_of (t : json) : Z :=
  match t with
  | JArray l => foldr (λ t n, Z.max (1 + depth_of t) n) 0 l
  | JObject l => foldr (λ m n, Z.max (1 + depth_of m.2) n) 0 l
  | _ => 0
  end.

Fixpoint count_of (t : json) : nat :=
  match t with
  | JArray l => S (foldr (λ t n, count_of t + n) 0 l)
  | JObject l => S (foldr (λ m n, count_of m.2 + n) 0 l)
  | _ => 1
  end%nat.

(** ** Lexical facts *)

Lemma take_Some c s s' : take_ c s = Some s' ↔ s = c :: s'.
Proof.
  destruct s as [|d s]; simpl; [naive_solver|]. destruct (Ascii.eqb_spec d c); naive_solver.
Qed.

Lemma take_cons c s : take_ c (c :: s) = Some s.
Proof. by apply take_Some. Qed.

Lemma take_other c d s : d ≠ c → take_ c (d :: s) = None.
Proof. simpl. by destruct (Ascii.eqb_spec d c). Qed.

Lemma space_spec s : ∃ w, s = w ++ space s ∧ blank w ∧ space (space s) = space s.
Proof.
  induction s as [|c s (w & E & B & I)]; simpl; [by exists []|].
  destruct (is_space c) eqn:C.
  - exists (c :: w). simpl. split; [congruence|]. unfold blank. simpl. by rewrite C.
  - exists []. simpl. by rewrite C.
Qed.

Lemma space_blank w s : blank w → space (w ++ s) = space s.
Proof. unfold blank. induction w as [|c w IH]; simpl; [done|]. by intros [-> ?%IH]%andb_true_iff. Qed.

Lemma space_cons c s : is_space c = false → space (c :: s) = c :: s.
Proof. simpl. by intros ->. Qed.

Lemma length_space s : (length (space s) <= length s)%nat.
Proof. induction s as [|c s IH]; simpl; [done|]. destruct (is_space c); simpl; lia. Qed.

Lemma literal_Some word s s' : literal word s = Some s' ↔ s = word ++ s'.
Proof.
  revert s. induction word as [|c word IH]; intros s; simpl; [naive_solver|].
  destruct (take_ c s) as [s0|] eqn:E.
  - apply take_Some in E as ->. rewrite IH. naive_solver.
  - split; [done|]. intros ->. by rewrite take_cons in E.
Qed.

Lemma digits_spec s :
  ∃ ds, s = ds ++ (digits s).2 ∧ forallb digit_byte ds = true ∧ length ds = (digits s).1 ∧
    (∀ c r, (digits s).2 = c :: r → digit_byte c = false).
Proof.
  induction s as [|c s (ds & E & D & L & N)]; simpl; [by exists []|].
  destruct (digit_byte c) eqn:C.
  - destruct (digits s) as [n r]. simpl in *. exists (c :: ds). simpl. rewrite C. naive_solver.
  - exists []. simpl. naive_solver.
Qed.

(** The digits of a run that no digit follows. *)
Lemma digits_app ds s :
  forallb digit_byte ds = true → (∀ c r, s = c :: r → digit_byte c = false) →
  digits (ds ++ s) = (length ds, s).
Proof.
  intros D N. induction ds as [|c ds IH]; simpl in *.
  - destruct s as [|c s]; simpl; [done|]. by rewrite (N c s eq_refl).
  - apply andb_true_iff in D as [-> D]. by rewrite (IH D).
Qed.

(** What may follow a value. *)
Definition follow (s : text) : Prop :=
  match s with
  | [] => True
  | c :: _ => is_space c = true ∨ c = ","%char ∨ c = "]"%char ∨ c = "}"%char
  end.

(** Bytes a number may go on with. *)
Definition numeric (c : ascii) : bool := digit_byte c || existsb (Ascii.eqb c) ["."; "e"; "E"]%char.

Lemma follow_numeric s c r : follow s → s = c :: r → numeric c = false.
Proof.
  intros F ->. simpl in F. destruct F as [F|[ -> |[ -> | ->]]]; [|done..].
  unfold is_space in F. simpl in F. rewrite !orb_true_iff, !Ascii.eqb_eq in F.
  destruct F as [ -> |[ -> |[ -> |[ -> |?]]]]; done.
Qed.

Lemma blank_follow w s : blank w → follow s → follow (w ++ s).
Proof.
  unfold blank. destruct w as [|c w]; simpl; [done|]. intros [? _]%andb_true_iff _. by left.
Qed.

Section Lexemes.
Context (size : nat).

Lemma all_digits_some ds n : length ds = S n → forallb digit_byte ds = true → all_digits ds.
Proof. intros L D. split; [done|]. by destruct ds. Qed.

(** The three parts of a number, each as the code reads it. *)
Definition number_int (s : text) : res text :=
  match s with
  | [] => fail size "invalid_number" s
  | c :: _ => match take_ "0" s with
              | Some r => ok r
              | None => if (49 <=? code c) && (code c <=? 57) then ok (digits s).2
                        else fail size "invalid_number" s
              end
  end.

Definition number_frac (s : text) : res text :=
  match take_ "." s with
  | Some r => match digits r with (O, r) => fail size "invalid_number" r | (_, r) => ok r end
  | None => ok s
  end.

Definition number_exp (s : text) : res text :=
  match (match take_ "e" s with Some r => Some r | None => take_ "E" s end) with
  | None => ok s
  | Some r =>
      let r := match take_ "+" r with Some r => r | None => skip "-" r end in
      match digits r with (O, r) => fail size "invalid_number" r | (_, r) => ok r end
  end.

Lemma number_parts s :
  number size s = (let! r := number_int (skip "-" s) in let! r := number_frac r in number_exp r).
Proof. unfold number, number_int. destruct (skip "-" s); done. Qed.

(** A scanner that returns reads a text of its grammar. *)
Definition reads (f : text → res text) (G : text → Prop) : Prop :=
  ∀ s, ∃ r, f s = Some r ∧ ∀ s', r = inr s' → ∃ t, G t ∧ s = t ++ s'.

Lemma skip_spec c s : ∃ t, s = t ++ skip c s ∧ t ∈ [[]; [c]].
Proof.
  unfold skip. destruct (take_ c s) as [r|] eqn:E; simpl.
  - apply take_Some in E as ->. exists [c]. set_solver.
  - exists []. set_solver.
Qed.

Lemma number_int_reads : reads number_int integer.
Proof.
  intros [|c s]; simpl; [eexists; split; [done|done]|].
  destruct (Ascii.eqb_spec c "0") as [->|N].
  - eexists. split; [done|]. intros s' [= <-]. exists ["0"%char]. split; [constructor|done].
  - destruct ((49 <=? code c) && (code c <=? 57)) eqn:D; [|by eexists].
    eexists. split; [done|]. intros s' [= <-].
    assert (C : digit_byte c = true) by (unfold digit_byte; split_bools; lia). rewrite C.
    destruct (digits_spec s) as (ds & E & Ds & _ & _). destruct (digits s) as [n r]. simpl in *.
    exists (c :: ds). split; [by constructor|]. simpl. congruence.
Qed.

Lemma digits_read r n r' :
  digits r = (S n, r') → ∃ ds, all_digits ds ∧ r = ds ++ r'.
Proof.
  intros E. destruct (digits_spec r) as (ds & E' & D & L & _). rewrite E in *. simpl in *.
  exists ds. split; [by eapply all_digits_some|done].
Qed.

Lemma number_frac_reads : reads number_frac fraction.
Proof.
  intros s. unfold number_frac. destruct (take_ "." s) as [r|] eqn:E.
  - apply take_Some in E as ->. destruct (digits r) as [[|n] r'] eqn:D; [by eexists|].
    eexists. split; [done|]. intros s' [= <-]. apply digits_read in D as (ds & A & ->).
    exists ("."%char :: ds). split; [by constructor|done].
  - eexists. split; [done|]. intros s' [= <-]. exists []. split; [constructor|done].
Qed.

Lemma number_exp_reads : reads number_exp exponent.
Proof.
  intros s. unfold number_exp.
  destruct (match take_ "e" s with Some r => Some r | None => take_ "E" s end) as [r|] eqn:E.
  - assert (∃ e, (e = "e" ∨ e = "E")%char ∧ s = e :: r) as (e & He & ->).
    { destruct (take_ "e" s) eqn:E1; simplify_eq; apply take_Some in E || apply take_Some in E1; subst; eauto. }
    set (r1 := match take_ "+" r with Some r => r | None => skip "-" r end).
    assert (∃ sign, sign ∈ [[]; ["+"]; ["-"]]%char ∧ r = sign ++ r1) as (sign & Hs & Er).
    { unfold r1. destruct (take_ "+" r) as [r0|] eqn:P.
      - apply take_Some in P as ->. exists ["+"%char]. set_solver.
      - destruct (skip_spec "-" r) as (t & Et & Ht). exists t. split; [set_solver|done]. }
    clearbody r1. subst r. destruct (digits r1) as [[|n] r'] eqn:D; [by eexists|].
    eexists. split; [done|]. intros s' [= <-]. apply digits_read in D as (ds & A & ->).
    exists (e :: sign ++ ds). split; [by constructor|]. simpl. by rewrite app_assoc.
  - eexists. split; [done|]. intros s' [= <-]. exists []. split; [constructor|done].
Qed.

Lemma reads_bind f g F G :
  reads f F → reads g G → reads (λ s, let! r := f s in g r) (λ t, ∃ a b, F a ∧ G b ∧ t = a ++ b).
Proof.
  intros HF HG s. destruct (HF s) as ([e|r] & E & S); rewrite E; simpl; [by eexists|].
  destruct (S r eq_refl) as (a & Fa & ->). destruct (HG r) as (r2 & E2 & S2).
  exists r2. split; [done|]. intros s' ->. destruct (S2 s' eq_refl) as (b & Gb & ->).
  exists (a ++ b). split; [by exists a, b|]. by rewrite app_assoc.
Qed.

Lemma number_reads : reads (number size) numeral.
Proof.
  intros s. rewrite number_parts. destruct (skip_spec "-" s) as (sign & E & Hs).
  destruct (reads_bind _ _ _ _ number_int_reads (reads_bind _ _ _ _ number_frac_reads number_exp_reads)
              (skip "-" s)) as (r & R & S).
  exists r. split; [exact R|]. intros s' Er.
  destruct (S s' Er) as (t & (i & fe & Hi & (f & e & Hf & He & ->) & ->) & E').
  exists (sign ++ i ++ f ++ e). split; [by constructor|]. rewrite E, E' at 1. by rewrite <- !app_assoc.
Qed.

(** A scanner reads the longest text of its grammar. *)
Definition stops (p : ascii → bool) (s : text) : Prop := ∀ c r, s = c :: r → p c = false.

Lemma stops_cons p c s : p c = false → stops p (c :: s).
Proof. by intros H ? ? [= <- <-]. Qed.

Lemma stops_weaken (p q : ascii → bool) s : (∀ c, p c = true → q c = true) → stops q s → stops p s.
Proof.
  intros I S c r E. specialize (S c r E). destruct (p c) eqn:P; [|done]. by rewrite (I c P) in S.
Qed.

Lemma follow_stops s : follow s → stops numeric s.
Proof. intros F c r. by apply follow_numeric. Qed.

Lemma take_stops c s : stops numeric s → numeric c = true → take_ c s = None.
Proof.
  intros S N. destruct s as [|d s]; [done|]. apply take_other. intros ->. by rewrite (S c s eq_refl) in N.
Qed.

Lemma stops_digit s : stops numeric s → stops digit_byte s.
Proof. apply stops_weaken. unfold numeric. by intros c ->. Qed.

Lemma number_exp_complete e s : exponent e → stops numeric s → number_exp (e ++ s) = ok s.
Proof.
  intros [|x sign ds Hx Hs [D N]] S; unfold number_exp; simpl.
  - by rewrite !take_stops.
  - destruct ds as [|d ds]; [done|]. simpl in D. apply andb_true_iff in D as [Dd D].
    assert (M : ∀ r, match take_ "+" (sign ++ d :: r) with Some r => r | None => skip "-" (sign ++ d :: r) end = d :: r).
    { intros r. assert (d ≠ "+"%char ∧ d ≠ "-"%char) as [? ?] by (split; intros ->; done).
      rewrite !elem_of_cons in Hs. destruct Hs as [->|[->|[->|?%elem_of_nil]]]; [|done|done|done].
      change ([] ++ d :: r) with (d :: r). unfold skip. rewrite !take_other by done. done. }
    assert (T : digits ((d :: ds) ++ s) = (length (d :: ds), s)).
    { apply digits_app; [simpl; by rewrite Dd|by apply stops_digit]. }
    rewrite <- app_assoc. transitivity
      (match digits (match take_ "+" (sign ++ d :: ds ++ s) with
                     | Some r => r | None => skip "-" (sign ++ d :: ds ++ s) end) with
       | (O, r) => fail size "invalid_number" r | (_, r) => ok r end);
      [by destruct Hx as [-> | ->]|]. rewrite M. change (d :: ds ++ s) with ((d :: ds) ++ s). by rewrite T.
Qed.

Lemma exponent_stops e s : exponent e → stops numeric s → stops (λ c, digit_byte c || Ascii.eqb c ".") (e ++ s).
Proof.
  intros [|x sign ds [-> | ->] Hs D] S; [|by apply stops_cons..].
  revert S. apply stops_weaken. unfold numeric. intros c [->|H]%orb_true_iff; [done|].
  simpl. rewrite H. by rewrite orb_true_r.
Qed.

Lemma number_frac_complete f s :
  fraction f → stops (λ c, digit_byte c || Ascii.eqb c ".") s → number_frac (f ++ s) = ok s.
Proof.
  intros [|ds [D N]] S; unfold number_frac; simpl.
  - destruct s as [|c s]; [done|]. specialize (S c s eq_refl). simpl in S. apply orb_false_iff in S as [_ S].
    simpl. by rewrite S.
  - rewrite digits_app; [|done|revert S; apply stops_weaken; by intros c ->]. by destruct ds.
Qed.

Lemma number_int_complete i s : integer i → stops digit_byte s → number_int (i ++ s) = ok s.
Proof.
  intros [|d ds Hd D] S; [done|]. unfold number_int. simpl.
  destruct (Ascii.eqb_spec d "0") as [->|_]; [done|]. rewrite Hd.
  assert (digit_byte d = true) as -> by (unfold digit_byte; split_bools; lia). by rewrite digits_app.
Qed.

Lemma number_complete t s : numeral t → follow s → number size (t ++ s) = ok s.
Proof.
  intros [sign i f e Hs Hi Hf He] F%follow_stops. rewrite number_parts.
  assert (skip "-" (sign ++ i ++ f ++ e ++ s) = i ++ f ++ e ++ s) as E.
  { rewrite !elem_of_cons in Hs. destruct Hs as [->|[->|?%elem_of_nil]]; [|done|done].
    simpl. unfold skip. destruct Hi as [|d ds Hd D]; [done|]. simpl.
    destruct (Ascii.eqb_spec d "-") as [->|]; [done|done]. }
  rewrite <- !app_assoc, E. pose proof (exponent_stops e s He F) as Se.
  rewrite number_int_complete; [simpl|done|].
  - rewrite number_frac_complete by done. simpl. by apply number_exp_complete.
  - destruct Hf as [|ds D]; [|by apply stops_cons]. revert Se. apply stops_weaken. by intros c ->.
Qed.

(** ** Strings *)

Lemma hex_reads s :
  ∃ r, hex size s = Some r ∧
    ∀ n s', r = inr (n, s') → ∃ a b c d, s = a :: b :: c :: d :: s' ∧ hex4 a b c d = Some n.
Proof.
  unfold hex. destruct s as [|a [|b [|c [|d s]]]]; try by eexists.
  destruct (hex4 a b c d) as [n|] eqn:E; [|by eexists].
  eexists. split; [done|]. intros n' s' [= <- <-]. eauto 10.
Qed.

Lemma escape_reads : reads (escape size) escaped.
Proof.
  intros [|c s]; [by eexists|]. unfold escape.
  destruct (existsb _ _) eqn:C.
  { eexists. split; [done|]. intros s' [= <-]. exists [c]. split; [by constructor|done]. }
  destruct (Ascii.eqb_spec c "u") as [->|]; [|by eexists].
  destruct (hex_reads s) as ([e|[n s1]] & E & H); rewrite E; simpl; [by eexists|].
  destruct (H n s1 eq_refl) as (a & b & c & d & -> & Hn).
  destruct ((0xDC00 <=? n) && (n <=? 0xDFFF)) eqn:Lo; [by eexists|].
  destruct ((0xD800 <=? n) && (n <=? 0xDBFF)) eqn:Hi.
  - destruct (take_ "092" s1) as [s2|] eqn:T; [|by eexists]. apply take_Some in T as ->.
    destruct (take_ "u" s2) as [s3|] eqn:T; [|by eexists]. apply take_Some in T as ->.
    destruct (hex_reads s3) as ([e|[low s4]] & E' & H'); rewrite E'; simpl; [by eexists|].
    destruct (H' low s4 eq_refl) as (e & f & g & h & -> & Hlow).
    destruct ((low <? 0xDC00) || (low >? 0xDFFF)) eqn:Bl; [by eexists|].
    eexists. split; [done|]. intros s' [= <-]. split_bools.
    exists ["u"; a; b; c; d; "092"; "u"; e; f; g; h]%char. split; [|done].
    eapply escaped_pair; eauto; lia.
  - eexists. split; [done|]. intros s' [= <-]. exists ["u"%char; a; b; c; d]. split; [|done].
    eapply escaped_unit; [eauto|]. lia.
Qed.

Lemma escape_complete e s : escaped e → escape size (e ++ s) = ok s.
Proof.
  intros [c C|a b c d n E N|a b c d n e' f g h low E B E' B']; unfold escape; simpl app; cbv iota.
  - by rewrite C.
  - change (existsb (Ascii.eqb "u") _) with false. change (Ascii.eqb "u" "u") with true. cbv iota. simpl hex.
    unfold hex. rewrite E. simpl.
    destruct ((0xDC00 <=? n) && (n <=? 0xDFFF)) eqn:X; [lia|].
    destruct ((0xD800 <=? n) && (n <=? 0xDBFF)) eqn:Y; [lia|]. done.
  - change (existsb (Ascii.eqb "u") _) with false. change (Ascii.eqb "u" "u") with true. cbv iota.
    unfold hex. rewrite E. cbn [res_bind ok].
    destruct ((0xDC00 <=? n) && (n <=? 0xDFFF)) eqn:X; [lia|].
    destruct ((0xD800 <=? n) && (n <=? 0xDBFF)) eqn:Y; [|lia]. rewrite !take_cons, E'. cbn [res_bind ok].
    destruct ((low <? 0xDC00) || (low >? 0xDFFF)) eqn:Z; [lia|]. done.
Qed.

Lemma escape_length s s' : escape size s = ok s' → (length s' < length s)%nat.
Proof.
  intros E. destruct (escape_reads s) as (r & E' & H). rewrite E in E'. injection E' as <-.
  destruct (H s' eq_refl) as (e & He & ->). rewrite length_app. destruct He; simpl; lia.
Qed.

(** The loop with enough fuel. *)
Definition scan (s : text) : res text := string_loop size (S (length s)) s.

Lemma string_loop_fuel f g s :
  (length s < f)%nat → (length s < g)%nat → string_loop size f s = string_loop size g s.
Proof.
  revert g s. induction f as [|f IH]; intros [|g] s Hf Hg; try lia. cbn [string_loop].
  destruct (drop (plainEnd s 0) s) as [|c r] eqn:E; [done|].
  assert (length r < length s)%nat.
  { apply (f_equal length) in E. rewrite length_drop in E. simpl in E. lia. }
  destruct (Ascii.eqb c "034"); [done|]. destruct (code c <? 0x20); [done|].
  destruct (Ascii.eqb c "092"); simpl; [|apply IH; lia].
  destruct (escape size r) as [[e|r']|] eqn:E'; simpl; try done.
  apply escape_length in E'. apply IH; lia.
Qed.

Lemma plainEnd_skip s : plainEnd s 0 = skip_bytes s.
Proof. by rewrite plainEnd_eq by lia. Qed.

Lemma scan_plain c s : plain c = true → scan (c :: s) = scan s.
Proof.
  intros P. unfold scan. rewrite (string_loop_fuel (S (length s)) (S (length (c :: s))) s) by (simpl; lia).
  simpl length. generalize (S (length s)) at 1 2. intros f. cbn [string_loop].
  rewrite !plainEnd_skip. cbn [skip_bytes]. rewrite P. simpl drop. done.
Qed.

Lemma scan_other c s :
  plain c = false →
  scan (c :: s) = if Ascii.eqb c "034" then ok s
                  else if code c <? 0x20 then fail size "string_control_character" s
                  else let! r := escape size s in scan r.
Proof.
  intros P. unfold scan at 1. cbn [string_loop]. rewrite plainEnd_skip. cbn [skip_bytes]. rewrite P.
  simpl drop. cbv iota beta.
  destruct (Ascii.eqb_spec c "034") as [|Q]; [done|]. destruct (Z.ltb_spec (code c) 0x20) as [|C]; [done|].
  assert (Ascii.eqb c "092" = true) as ->.
  { unfold plain in P. apply negb_false_iff in P. rewrite !orb_true_iff in P.
    destruct P as [[P|P]|P]; [by apply Ascii.eqb_eq in P|done|lia]. }
  change (negb true) with false. cbv iota.
  destruct (escape size s) as [[e|r]|] eqn:E; cbn [res_bind]; try done. apply escape_length in E.
  apply string_loop_fuel; simpl; lia.
Qed.

Lemma scan_nil : scan [] = fail size "unterminated_string" [].
Proof. done. Qed.

Lemma scan_reads s :
  ∃ r, scan s = Some r ∧ ∀ s', r = inr s' → ∃ b, chars b ∧ s = b ++ "034"%char :: s'.
Proof.
  induction s as [s IH] using (induction_ltof1 _ (@length ascii)). unfold ltof in IH.
  destruct s as [|c s]; [rewrite scan_nil; by eexists|].
  destruct (plain c) eqn:P.
  - rewrite scan_plain by done. destruct (IH s) as (r & E & H); [simpl; lia|]. exists r. split; [done|].
    intros s' Er. destruct (H s' Er) as (b & B & ->). exists (c :: b). split; [by constructor|done].
  - rewrite scan_other by done. destruct (Ascii.eqb_spec c "034") as [->|].
    { eexists. split; [done|]. intros s' [= <-]. exists []. split; [constructor|done]. }
    destruct (Z.ltb_spec (code c) 0x20) as [|C]; [by eexists|].
    assert (c = "092"%char) as ->.
    { unfold plain in P. apply negb_false_iff in P. rewrite !orb_true_iff, !Ascii.eqb_eq in P.
      destruct P as [[P|P]|P]; [done|done|lia]. }
    destruct (escape_reads s) as ([e|r] & E & H); rewrite E; simpl; [by eexists|].
    destruct (H r eq_refl) as (e & He & ->).
    destruct (IH r) as (r' & E' & H'); [simpl; rewrite length_app; lia|]. exists r'. split; [done|].
    intros s' Er. destruct (H' s' Er) as (b & B & ->). exists ("092"%char :: e ++ b).
    split; [by constructor|]. simpl. by rewrite app_assoc.
Qed.

Lemma scan_complete b s : chars b → scan (b ++ "034"%char :: s) = ok s.
Proof.
  induction 1 as [|c b P B IH|e b He B IH]; simpl app.
  - by rewrite scan_other.
  - by rewrite scan_plain.
  - rewrite scan_other by done. simpl. rewrite <- app_assoc, escape_complete by done. simpl. apply IH.
Qed.

Lemma string_reads : reads (string_ size) (λ t, ∃ b, chars b ∧ t = quoted b).
Proof.
  intros s. unfold string_. destruct (take_ "034" s) as [r|] eqn:T; [|by eexists].
  apply take_Some in T as ->. destruct (scan_reads r) as (r' & E & H). exists r'. split; [done|].
  intros s' Er. destruct (H s' Er) as (b & B & ->). exists (quoted b). split; [by exists b|].
  unfold quoted. simpl. by rewrite <- app_assoc.
Qed.

Lemma string_complete b s : chars b → string_ size (quoted b ++ s) = ok s.
Proof.
  intros B. unfold string_, quoted. simpl. rewrite <- app_assoc. simpl. by apply scan_complete.
Qed.
End Lexemes.
