(* ===== verification/SourceExact.v ===== *)
(** * Source documents: the parser is exact

    [ParseJSON] returns for every input, accepts a text exactly when the grammar
    gives it a tree within the limits, and the nodes it builds represent that tree. *)

From S2P Require Import Prelude Go Source SourceParser SourceGrammar.
From Stdlib Require Import Ascii.
Local Open Scope Z_scope.
Local Open Scope olp_scope.

(** ** The first byte of a value *)

Definition starts (c : ascii) : Prop := is_space c = false ∧ c ≠ "]"%char ∧ c ≠ "}"%char.

Definition number_start (c : ascii) : Prop := c = "-"%char ∨ digit_byte c = true.

Lemma numeral_start t : numeral t → ∃ c t', t = c :: t' ∧ number_start c.
Proof.
  intros [sign i f e Hs Hi _ _]. rewrite !elem_of_cons in Hs.
  destruct Hs as [->|[->|?%elem_of_nil]]; [|simpl; eexists _, _; split; [done|by left]|done].
  destruct Hi as [|d ds Hd D]; simpl; eexists _, _; (split; [done|]); right; [done|].
  unfold digit_byte. split_bools. lia.
Qed.

Lemma number_start_other c d :
  number_start c → digit_byte d = false → d ≠ "-"%char → c ≠ d.
Proof. intros H D N E. subst d. destruct H as [->|H]; [done|]. by rewrite D in H. Qed.

Lemma number_starts c : number_start c → starts c.
Proof.
  intros H. split; [|by split; apply (number_start_other c _ H)].
  unfold is_space. simpl. rewrite !orb_false_iff, !Ascii.eqb_neq.
  repeat split; by apply (number_start_other c _ H).
Qed.

Lemma Val_starts t s : Val t s → ∃ c s', s = c :: s' ∧ starts c.
Proof.
  intros [ | | |u N|b|w|l r|w|l r]; try (eexists _, _; split; [reflexivity|by repeat split]).
  destruct (numeral_start u N) as (c & u' & -> & S). eexists _, _. split; [done|]. by apply number_starts.
Qed.

Lemma space_Val t s r : Val t s → space (s ++ r) = s ++ r.
Proof. intros (c & s' & -> & S & _)%Val_starts. simpl. by rewrite S. Qed.

Lemma take_Val t s r c : Val t s → c = "]"%char ∨ c = "}"%char → take_ c (s ++ r) = None.
Proof.
  intros (d & s' & -> & _ & N1 & N2)%Val_starts H. simpl app. apply take_other. by destruct H as [-> | ->].
Qed.

Lemma quoted_starts b : ∃ s', quoted b = "034"%char :: s'.
Proof. by eexists. Qed.

Lemma space_quoted b r : space (quoted b ++ r) = quoted b ++ r.
Proof. done. Qed.

(** ** One step of [value] *)

Section Exact.
Context (size : nat) (limits : Limits).

Notation value := (value size limits).
Notation members := (members size limits).
Notation elements := (elements size limits).

Definition fresh (nodes : list node) (rest : text) : list node :=
  nodes ++ [mkNode (at_ size rest) 0 Absent [] []].

Definition finished (nodes0 : list node) (rest0 : text) (kind : Kind) (ms : list (text * nat)) (es : list nat)
    (nodes : list node) (rest : text) : res (nat * list node * text) :=
  ok (length nodes0, set_node size nodes (length nodes0) (at_ size rest0) kind ms es rest, rest).

Section Step.
Context (fuel : nat) (depth : Z) (nodes : list node) (rest : text) (c : ascii) (tail : text).
Hypothesis Hspace : space rest = c :: tail.
Hypothesis Hdepth : depth <= MaxDepth limits.
Hypothesis Hnodes : Z.of_nat (length nodes) < MaxNodes limits.


Lemma value_dispatch :
  value (S fuel) depth nodes rest =
  (if Ascii.eqb c "{" then
     match take_ "}" (space tail) with
     | Some r => finished nodes (c :: tail) Object [] [] (fresh nodes (c :: tail)) r
     | None => let! (ms, ns, r) := members fuel depth (fresh nodes (c :: tail)) (space tail) [] in
               finished nodes (c :: tail) Object ms [] ns r
     end
   else if Ascii.eqb c "[" then
     match take_ "]" (space tail) with
     | Some r => finished nodes (c :: tail) Array [] [] (fresh nodes (c :: tail)) r
     | None => let! (es, ns, r) := elements fuel depth (fresh nodes (c :: tail)) (space tail) [] in
               finished nodes (c :: tail) Array [] es ns r
     end
   else
     let scalar kind r := finished nodes (c :: tail) kind [] [] (fresh nodes (c :: tail)) r in
     let word kind w := match literal (txt w) (c :: tail) with
                        | Some r => scalar kind r
                        | None => fail size "invalid_literal" (c :: tail)
                        end in
     if Ascii.eqb c "034" then let! r := string_ size (c :: tail) in scalar KString r
     else if Ascii.eqb c "n" then word Null "null"
     else if Ascii.eqb c "t" then word Boolean "true"
     else if Ascii.eqb c "f" then word Boolean "false"
     else let! r := number size (c :: tail) in scalar Number r).
Proof.
  cbn [SourceParser.value]. rewrite Hspace.
  destruct (Z.gtb_spec depth (MaxDepth limits)); [lia|].
  destruct (Z.geb_spec (Z.of_nat (length nodes)) (MaxNodes limits)); [lia|]. reflexivity.
Qed.
End Step.

Lemma space_idem s : space (space s) = space s.
Proof. by destruct (space_spec s) as (w & _ & _ & E). Qed.

Lemma value_space fuel depth nodes r : value fuel depth nodes (space r) = value fuel depth nodes r.
Proof. destruct fuel; [done|]. cbn [SourceParser.value]. by rewrite space_idem. Qed.

Lemma elements_space fuel depth nodes r acc :
  elements fuel depth nodes (space r) acc = elements fuel depth nodes r acc.
Proof. destruct fuel; [done|]. cbn [SourceParser.elements]. by rewrite value_space. Qed.

Lemma members_space fuel depth nodes r acc :
  members fuel depth nodes (space r) acc = members fuel depth nodes r acc.
Proof. destruct fuel; [done|]. cbn [SourceParser.members]. by rewrite space_idem. Qed.

Lemma length_fresh nodes r : length (fresh nodes r) = S (length nodes).
Proof. unfold fresh. rewrite length_app. simpl. lia. Qed.

Lemma length_set_node nodes i start k ms es r : length (set_node size nodes i start k ms es r) = length nodes.
Proof. apply length_insert. Qed.

Lemma between_app (q r : text) : between (q ++ r) r = q.
Proof. unfold between. rewrite length_app. by replace (length q + length r - length r)%nat with (length q) by lia; rewrite take_app_length. Qed.

Lemma name_body b : take (length (quoted b) - 2) (drop 1 (quoted b)) = b.
Proof.
  replace (length (quoted b) - 2)%nat with (length b) by (unfold quoted; simpl; rewrite length_app; simpl; lia).
  apply take_app_length.
Qed.

(** ** Completeness *)

Definition sum_counts (l : list json) : nat := foldr (λ t n, count_of t + n)%nat 0%nat l.
Definition sum_member_counts (l : list (text * json)) : nat := foldr (λ m n, count_of m.2 + n)%nat 0%nat l.

(** The tree fits below [depth] and into the nodes left. *)
Definition fits (depth : Z) (nodes : list node) (deep : Z) (count : nat) : Prop :=
  depth + deep <= MaxDepth limits ∧ Z.of_nat (length nodes + count) <= MaxNodes limits.

Definition accepted (t : json) (s : text) : Prop :=
  ∀ fuel depth nodes w rest, blank w → follow rest → fits depth nodes (depth_of t) (count_of t) →
    (2 * length (w ++ s ++ rest) + 1 <= fuel)%nat →
    ∃ nodes', value fuel depth nodes (w ++ s ++ rest) = ok (length nodes, nodes', rest) ∧
      length nodes' = (length nodes + count_of t)%nat.

Definition elements_accepted (l : list json) (s : text) : Prop :=
  ∀ fuel depth nodes rest acc, fits depth nodes (depth_of (JArray l)) (sum_counts l) →
    (2 * length (s ++ rest) + 2 <= fuel)%nat →
    ∃ es nodes', elements fuel depth nodes (s ++ rest) acc = ok (acc ++ es, nodes', rest) ∧
      length nodes' = (length nodes + sum_counts l)%nat.

Definition members_accepted (l : list (text * json)) (s : text) : Prop :=
  ∀ fuel depth nodes rest acc, fits depth nodes (depth_of (JObject l)) (sum_member_counts l) →
    NoDup (map fst acc ++ map (λ m, name_of m.1) l) →
    (2 * length (s ++ rest) + 2 <= fuel)%nat →
    ∃ ms nodes', members fuel depth nodes (s ++ rest) acc = ok (acc ++ ms, nodes', rest) ∧
      length nodes' = (length nodes + sum_member_counts l)%nat.

(** A scalar: [value] reads one lexeme. *)
Lemma depth_nonneg t : 0 <= depth_of t.
Proof.
  destruct t as [| | | |l|l]; simpl; try lia; induction l; simpl; lia.
Qed.

Lemma count_pos t : (1 <= count_of t)%nat.
Proof. destruct t; simpl; lia. Qed.

Lemma scalar_accepted t s kind :
  count_of t = 1%nat → Val t s →
  (∀ fuel depth nodes rest, follow rest → fits depth nodes (depth_of t) 1 →
     value (S fuel) depth nodes (s ++ rest)
     = finished nodes (s ++ rest) kind [] [] (fresh nodes (s ++ rest)) rest) →
  accepted t s.
Proof.
  intros C V H fuel depth nodes w rest B F R L. destruct fuel as [|fuel]; [lia|].
  rewrite <- value_space, space_blank, value_space by done. rewrite C in *.
  eexists. split; [rewrite H by done; reflexivity|]. rewrite length_set_node, length_fresh. lia.
Qed.

Lemma value_Val depth nodes t s rest :
  Val t s → fits depth nodes (depth_of t) (count_of t) → ∀ c tail, s ++ rest = c :: tail →
  space (s ++ rest) = c :: tail ∧ depth <= MaxDepth limits ∧ Z.of_nat (length nodes) < MaxNodes limits.
Proof.
  intros V [D N] c tail E. split; [by rewrite (space_Val t)|]. pose proof (depth_nonneg t). pose proof (count_pos t). lia.
Qed.

Lemma word_accepted t w kind c tail :
  count_of t = 1%nat → depth_of t = 0 → Val t (txt w) → txt w = c :: tail →
  (∀ fuel depth nodes rest, space ((c :: tail) ++ rest) = c :: tail ++ rest → depth <= MaxDepth limits →
     Z.of_nat (length nodes) < MaxNodes limits →
     value (S fuel) depth nodes ((c :: tail) ++ rest) =
     match literal (txt w) ((c :: tail) ++ rest) with
     | Some r => finished nodes ((c :: tail) ++ rest) kind [] [] (fresh nodes ((c :: tail) ++ rest)) r
     | None => fail size "invalid_literal" ((c :: tail) ++ rest)
     end) →
  accepted t (txt w).
Proof.
  intros C D V E H. apply (scalar_accepted t (txt w) kind C V). intros fuel depth nodes rest _ [R1 R2].
  rewrite E, H; [|change (c :: tail ++ rest) with ((c :: tail) ++ rest); rewrite <- E; by apply (space_Val t)|lia|lia].
  rewrite (proj2 (literal_Some (txt w) _ rest)); [done|by rewrite E].
Qed.

Lemma number_accepted t : numeral t → accepted (JNumber t) t.
Proof.
  intros N. apply (scalar_accepted (JNumber t) t Number eq_refl (V_number t N)). intros fuel depth nodes rest F R.
  destruct (numeral_start t N) as (c & t' & E & S).
  destruct (value_Val depth nodes (JNumber t) t rest (V_number t N) R c (t' ++ rest)) as (H1 & H2 & H3);
    [by rewrite E|].
  rewrite (value_dispatch _ _ _ _ c (t' ++ rest)) by done.
  assert (O : ∀ d, digit_byte d = false → d ≠ "-"%char → Ascii.eqb c d = false).
  { intros d D M. apply Ascii.eqb_neq. by apply number_start_other. }
  rewrite !O by done. cbv zeta. change (c :: t' ++ rest) with ((c :: t') ++ rest). rewrite <- E.
  by rewrite number_complete.
Qed.

Lemma string_accepted b : chars b → accepted (JString b) (quoted b).
Proof.
  intros B. apply (scalar_accepted (JString b) (quoted b) KString eq_refl (V_string b B)). intros fuel depth nodes rest F R.
  destruct (value_Val depth nodes (JString b) (quoted b) rest (V_string b B) R "034"%char
              ((b ++ ["034"%char]) ++ rest) eq_refl) as (H1 & H2 & H3).
  rewrite (value_dispatch _ _ _ _ _ _ H1 H2 H3). simpl Ascii.eqb. cbv iota zeta.
  change ("034"%char :: (b ++ ["034"%char]) ++ rest) with (quoted b ++ rest). by rewrite string_complete.
Qed.

Lemma elements_S fuel depth nodes rest acc :
  elements (S fuel) depth nodes rest acc =
  (let! (child, ns, r) := value fuel (depth + 1) nodes rest in
   match take_ "]" (space r) with
   | Some r => ok (acc ++ [child], ns, r)
   | None => match take_ "," (space r) with
             | Some r => elements fuel depth ns r (acc ++ [child])
             | None => fail size "expected_array_end" (space r)
             end
   end).
Proof. reflexivity. Qed.

Lemma elements_last t w s w' :
  blank w → blank w' → accepted t s → elements_accepted [t] (w ++ s ++ w' ++ ["]"%char]).
Proof.
  intros B B' IH fuel depth nodes rest acc [D N] L. destruct fuel as [|fuel]; [lia|].
  simpl in D, N. rewrite <- !app_assoc in L |- *. cbn [app] in L |- *. rewrite elements_S.
  destruct (IH fuel (depth + 1) nodes w (w' ++ "]"%char :: rest)) as (nodes' & E & Ln); [done| | |lia|].
  { apply blank_follow; simpl; auto. }
  { split; lia. }
  rewrite E. cbn [res_bind ok]. rewrite space_blank by done. rewrite space_cons, take_cons by done.
  eexists _, _. split; [reflexivity|]. unfold sum_counts. simpl. lia.
Qed.

Lemma elements_more t l w s w' r :
  blank w → blank w' → accepted t s → elements_accepted l r →
  elements_accepted (t :: l) (w ++ s ++ w' ++ ","%char :: r).
Proof.
  intros B B' IH IHl fuel depth nodes rest acc [D N] L. destruct fuel as [|fuel]; [lia|].
  simpl in D, N. rewrite <- !app_assoc in L |- *. cbn [app] in L |- *. rewrite elements_S.
  assert (0 <= foldr (λ t n, Z.max (1 + depth_of t) n) 0 l) by (apply (depth_nonneg (JArray l))).
  destruct (IH fuel (depth + 1) nodes w (w' ++ ","%char :: r ++ rest)) as (nodes' & E & Ln); [done| | |lia|].
  { apply blank_follow; simpl; auto. }
  { split; lia. }
  rewrite E. cbn [res_bind ok]. rewrite space_blank by done. rewrite space_cons by done.
  rewrite take_other, take_cons by done.
  destruct (IHl fuel depth nodes' rest (acc ++ [length nodes])) as (es & nodes'' & E' & Ln').
  { split; [simpl; lia|]. unfold sum_counts in *. simpl in N. lia. }
  { rewrite !length_app in *. simpl in *. rewrite !length_app in *. lia. }
  exists (length nodes :: es), nodes''. rewrite E'. split; [by rewrite <- app_assoc|].
  unfold sum_counts in *. simpl. lia.
Qed.

Lemma member_step fuel depth nodes w b w1 w2 s rest acc :
  blank w → chars b → blank w1 → name_of b ∉ map fst acc →
  members (S fuel) depth nodes (w ++ quoted b ++ w1 ++ ":"%char :: w2 ++ s ++ rest) acc =
  (let! (child, ns, r) := value fuel (depth + 1) nodes (w2 ++ s ++ rest) in
   match take_ "}" (space r) with
   | Some r => ok (acc ++ [(name_of b, child)], ns, r)
   | None => match take_ "," (space r) with
             | Some r => members fuel depth ns r (acc ++ [(name_of b, child)])
             | None => fail size "expected_object_end" (space r)
             end
   end).
Proof.
  intros B C B1 N. cbn [SourceParser.members]. rewrite space_blank, space_quoted by done.
  rewrite string_complete by done. cbn [res_bind ok]. rewrite between_app, name_body.
  rewrite (proj2 (Contains_false _ _) N). rewrite space_blank by done. by rewrite space_cons, take_cons by done.
Qed.

Lemma members_last b t w w1 w2 s w3 :
  blank w → chars b → blank w1 → blank w2 → blank w3 → accepted t s →
  members_accepted [(b, t)] (w ++ quoted b ++ w1 ++ ":"%char :: w2 ++ s ++ w3 ++ ["}"%char]).
Proof.
  intros B C B1 B2 B3 IH fuel depth nodes rest acc [D N] ND L. destruct fuel as [|fuel]; [lia|].
  simpl in D, N. rewrite !length_app in L. simpl in L. rewrite !length_app in L. simpl in L.
  rewrite <- !app_assoc. cbn [app]. rewrite <- !app_assoc. cbn [app]. rewrite member_step; [|done..|].
  2: { apply NoDup_app in ND as (_ & ND & _). intros Hin. apply (ND _ Hin). simpl. by left. }
  destruct (IH fuel (depth + 1) nodes w2 (w3 ++ "}"%char :: rest)) as (nodes' & E & Ln); [done| | | |].
  { apply blank_follow; simpl; auto. }
  { split; lia. }
  { rewrite !length_app. simpl. lia. }
  rewrite E. cbn [res_bind ok]. rewrite space_blank by done. rewrite space_cons, take_cons by done.
  eexists _, _. split; [reflexivity|]. unfold sum_member_counts. simpl. lia.
Qed.

Lemma members_more b t l w w1 w2 s w3 r :
  blank w → chars b → blank w1 → blank w2 → blank w3 → accepted t s → members_accepted l r →
  members_accepted ((b, t) :: l) (w ++ quoted b ++ w1 ++ ":"%char :: w2 ++ s ++ w3 ++ ","%char :: r).
Proof.
  intros B C B1 B2 B3 IH IHl fuel depth nodes rest acc [D N] ND L. destruct fuel as [|fuel]; [lia|].
  simpl in D, N. rewrite !length_app in L. simpl in L. rewrite !length_app in L. simpl in L.
  assert (0 <= foldr (λ m n, Z.max (1 + depth_of m.2) n) 0 l) by (apply (depth_nonneg (JObject l))).
  rewrite <- !app_assoc. cbn [app]. rewrite <- !app_assoc. cbn [app]. rewrite member_step; [|done..|].
  2: { apply NoDup_app in ND as (_ & ND & _). intros Hin. apply (ND _ Hin). simpl. by left. }
  destruct (IH fuel (depth + 1) nodes w2 (w3 ++ ","%char :: r ++ rest)) as (nodes' & E & Ln); [done| | | |].
  { apply blank_follow; simpl; auto. }
  { split; lia. }
  { rewrite !length_app. simpl. rewrite !length_app. lia. }
  rewrite E. cbn [res_bind ok]. rewrite space_blank by done. rewrite space_cons by done.
  rewrite take_other, take_cons by done.
  destruct (IHl fuel depth nodes' rest (acc ++ [(name_of b, length nodes)])) as (ms & nodes'' & E' & Ln').
  { split; [simpl; lia|]. unfold sum_member_counts in *. simpl in N. lia. }
  { rewrite map_app, <- app_assoc. done. }
  { rewrite !length_app. lia. }
  exists ((name_of b, length nodes) :: ms), nodes''. rewrite E'. split; [by rewrite <- app_assoc|].
  unfold sum_member_counts in *. simpl. lia.
Qed.

Lemma Elems_take l s r : Elems l s → take_ "]" (space (s ++ r)) = None.
Proof.
  intros [t w v w' B V _|t l' w v w' r' B V _ _]; rewrite <- app_assoc, space_blank by done;
    rewrite <- app_assoc; rewrite (space_Val t) by done; apply (take_Val t); auto.
Qed.

Lemma Mems_take l s r : Mems l s → take_ "}" (space (s ++ r)) = None.
Proof.
  intros [b t w w1 w2 v w3 B _ _ _ _ _|b t l' w w1 w2 v w3 r' B _ _ _ _ _ _];
    rewrite <- app_assoc, space_blank by done; reflexivity.
Qed.

(** The value of a bracket, before what it holds. *)
Lemma value_open c fuel depth nodes w s rest :
  blank w → is_space c = false → fits depth nodes 0 1 →
  value (S fuel) depth nodes (w ++ (c :: s) ++ rest) = value (S fuel) depth nodes (c :: s ++ rest) ∧
  space (c :: s ++ rest) = c :: s ++ rest ∧ depth <= MaxDepth limits ∧
  Z.of_nat (length nodes) < MaxNodes limits.
Proof.
  intros B C [D N]. split; [|split; [by apply space_cons|lia]].
  by rewrite <- value_space, space_blank, value_space by done.
Qed.

Lemma array_empty_accepted w : blank w → accepted (JArray []) ("["%char :: w ++ ["]"%char]).
Proof.
  intros B. apply (scalar_accepted (JArray []) _ Array eq_refl (V_array_empty w B)).
  intros fuel depth nodes rest F R.
  destruct (value_open "[" fuel depth nodes [] (w ++ ["]"%char]) rest eq_refl eq_refl R) as (_ & H1 & H2 & H3).
  cbn [app]. rewrite (value_dispatch _ _ _ _ _ _ H1 H2 H3). simpl Ascii.eqb. cbv iota.
  rewrite <- app_assoc, space_blank by done. cbn [app]. by rewrite space_cons, take_cons.
Qed.

Lemma object_empty_accepted w : blank w → accepted (JObject []) ("{"%char :: w ++ ["}"%char]).
Proof.
  intros B. apply (scalar_accepted (JObject []) _ Object eq_refl (V_object_empty w B)).
  intros fuel depth nodes rest F R.
  destruct (value_open "{" fuel depth nodes [] (w ++ ["}"%char]) rest eq_refl eq_refl R) as (_ & H1 & H2 & H3).
  cbn [app]. rewrite (value_dispatch _ _ _ _ _ _ H1 H2 H3). simpl Ascii.eqb. cbv iota.
  rewrite <- app_assoc, space_blank by done. cbn [app]. by rewrite space_cons, take_cons.
Qed.

Lemma array_accepted l s : Elems l s → elements_accepted l s → accepted (JArray l) ("["%char :: s).
Proof.
  intros El IH fuel depth nodes w rest B F [D N] L. destruct fuel as [|fuel]; [lia|].
  pose proof (depth_nonneg (JArray l)). simpl in N.
  destruct (value_open "[" fuel depth nodes w s rest B eq_refl) as (-> & H1 & H2 & H3); [split; lia|].
  rewrite (value_dispatch _ _ _ _ _ _ H1 H2 H3). simpl Ascii.eqb. cbv iota.
  rewrite (Elems_take l), elements_space by done.
  destruct (IH fuel depth (fresh nodes ("["%char :: s ++ rest)) rest []) as (es & nodes' & E & Ln).
  { split; [done|]. rewrite length_fresh. unfold sum_counts. lia. }
  { rewrite !length_app in *. simpl in L. rewrite ?length_app in L. lia. }
  rewrite E. cbn [res_bind ok]. eexists. split; [reflexivity|].
  rewrite length_set_node, Ln, length_fresh. simpl. unfold sum_counts. lia.
Qed.

Lemma object_accepted l s :
  Mems l s → NoDup (map (λ m, name_of m.1) l) → members_accepted l s → accepted (JObject l) ("{"%char :: s).
Proof.
  intros El ND IH fuel depth nodes w rest B F [D N] L. destruct fuel as [|fuel]; [lia|].
  pose proof (depth_nonneg (JObject l)). simpl in N.
  destruct (value_open "{" fuel depth nodes w s rest B eq_refl) as (-> & H1 & H2 & H3); [split; lia|].
  rewrite (value_dispatch _ _ _ _ _ _ H1 H2 H3). simpl Ascii.eqb. cbv iota.
  rewrite (Mems_take l), members_space by done.
  destruct (IH fuel depth (fresh nodes ("{"%char :: s ++ rest)) rest []) as (ms & nodes' & E & Ln).
  { split; [done|]. rewrite length_fresh. unfold sum_member_counts. lia. }
  { done. }
  { rewrite !length_app in *. simpl in L. rewrite ?length_app in L. lia. }
  rewrite E. cbn [res_bind ok]. eexists. split; [reflexivity|].
  rewrite length_set_node, Ln, length_fresh. simpl. unfold sum_member_counts. lia.
Qed.

Lemma grammar_accepted :
  (∀ t s, Val t s → accepted t s) ∧ (∀ l s, Elems l s → elements_accepted l s) ∧
  (∀ l s, Mems l s → members_accepted l s).
Proof.
  apply grammar_ind; intros.
  - apply (word_accepted JNull "null" Null "n" (txt "ull") eq_refl eq_refl V_null eq_refl).
    intros fuel depth nodes rest H1 H2 H3. exact (value_dispatch fuel depth nodes _ _ _ H1 H2 H3).
  - apply (word_accepted (JBool true) "true" Boolean "t" (txt "rue") eq_refl eq_refl V_true eq_refl).
    intros fuel depth nodes rest H1 H2 H3. exact (value_dispatch fuel depth nodes _ _ _ H1 H2 H3).
  - apply (word_accepted (JBool false) "false" Boolean "f" (txt "alse") eq_refl eq_refl V_false eq_refl).
    intros fuel depth nodes rest H1 H2 H3. exact (value_dispatch fuel depth nodes _ _ _ H1 H2 H3).
  - by apply number_accepted.
  - by apply string_accepted.
  - by apply array_empty_accepted.
  - by apply array_accepted.
  - by apply object_empty_accepted.
  - by apply object_accepted.
  - by apply elements_last.
  - by apply elements_more.
  - by apply members_last.
  - by apply members_more.
Qed.
End Exact.
