(* ===== verification/SourceSound.v ===== *)
(** * Source documents: what the nodes represent

    Every document [ParseJSON] accepts has a tree of the grammar, and its nodes
    represent that tree: each value's kind, text, members and elements. *)

From S2P Require Import Prelude Go Source SourceParser SourceGrammar SourceExact.
From Stdlib Require Import Ascii.
Local Open Scope Z_scope.
Local Open Scope olp_scope.

(** [Value.Raw]: the text two offsets bound. *)
Definition slice (raw : text) (a b : nat) : text := take (b - a) (drop a raw).

Definition kind_of (t : json) : Kind :=
  match t with
  | JNull => Null | JBool _ => Boolean | JNumber _ => Number | JString _ => KString
  | JArray _ => Array | JObject _ => Object
  end.

Definition all2 {A B} (P : A → B → Prop) :=
  fix go (l : list A) (k : list B) {struct k} : Prop :=
    match k with
    | [] => l = []
    | y :: k' => match l with [] => False | x :: l' => P x y ∧ go l' k' end
    end.

Fixpoint represents (raw : text) (nodes : list node) (i : nat) (t : json) : Prop :=
  ∃ n, nodes !! i = Some n ∧ n_kind n = kind_of t ∧ Val t (slice raw (n_start n) (n_end n)) ∧
    match t with
    | JArray l => n_members n = [] ∧ all2 (λ e t', (i < e)%nat ∧ represents raw nodes e t') (n_elements n) l
    | JObject l =>
        n_elements n = [] ∧
        all2 (λ m bt, m.1 = name_of bt.1 ∧ (i < m.2)%nat ∧ represents raw nodes m.2 bt.2) (n_members n) l
    | _ => n_members n = [] ∧ n_elements n = []
    end.

Lemma all2_mono {A B} (P Q : A → B → Prop) l k :
  Forall (λ y, ∀ x, P x y → Q x y) k → all2 P l k → all2 Q l k.
Proof.
  intros F. revert l. induction F as [|y k H F IH]; intros [|x l]; simpl; try done.
  intros [HP HA]. split; auto.
Qed.

Lemma all2_snoc {A B} (P : A → B → Prop) l k x y : all2 P l k → P x y → all2 P (l ++ [x]) (k ++ [y]).
Proof.
  revert l. induction k as [|z k IH]; intros l; simpl.
  - intros -> H. simpl. auto.
  - destruct l as [|u l]; [done|]. simpl. intros [? ?] ?. split; auto.
Qed.

(** Later nodes are not touched. *)
Lemma represents_mono raw nodes nodes' t i :
  (∀ j n, (i <= j)%nat → nodes !! j = Some n → nodes' !! j = Some n) →
  represents raw nodes i t → represents raw nodes' i t.
Proof.
  revert i. induction t as [| | | |l IH|l IH] using json_ind; intros i K (n & Hn & Hk & Hv & H);
    exists n; split_and!; try done; try (by apply K); try (by apply H).
  - destruct H as [_ H]. revert H. apply all2_mono. apply (Forall_impl _ _ _ IH).
    intros t Ht e [L R]. split; [done|]. apply Ht; [|done]. intros j m Hj. apply K. lia.
  - destruct H as [_ H]. revert H. apply all2_mono. apply (Forall_impl _ _ _ IH).
    intros t Ht e (N & L & R). split; [done|]. split; [done|]. apply Ht; [|done]. intros j m Hj. apply K. lia.
Qed.

Section Sound.
Context (raw : text) (limits : Limits).

Notation size := (length raw).
Notation value := (value size limits).
Notation members := (members size limits).
Notation elements := (elements size limits).
Notation fits := (fits limits).

(** The nodes that were there stay, and more follow. *)
Definition keeps (nodes nodes' : list node) (added : nat) : Prop :=
  length nodes' = (length nodes + added)%nat ∧ ∀ j, (j < length nodes)%nat → nodes' !! j = nodes !! j.

Lemma keeps_refl nodes : keeps nodes nodes 0.
Proof. split; [lia|done]. Qed.

Lemma keeps_trans n1 n2 n3 a b : keeps n1 n2 a → keeps n2 n3 b → keeps n1 n3 (a + b).
Proof. intros [L1 K1] [L2 K2]. split; [lia|]. intros j Hj. rewrite K2, K1 by lia. done. Qed.

Lemma keeps_represents nodes nodes' k i t :
  keeps nodes nodes' k → represents raw nodes i t → represents raw nodes' i t.
Proof.
  intros [_ K]. apply represents_mono. intros j n _ Hn. rewrite K; [done|]. by eapply lookup_lt_Some.
Qed.

Lemma slice_at p s r : raw = p ++ s ++ r → slice raw (at_ size (s ++ r)) (at_ size r) = s.
Proof.
  intros E. unfold slice, at_. rewrite E, !length_app.
  replace (length p + (length s + length r) - (length s + length r))%nat with (length p) by lia.
  replace (length p + (length s + length r) - length r - length p)%nat with (length s) by lia.
  by rewrite drop_app_length, take_app_length.
Qed.

(** What a returned value is. *)
Definition value_is (depth : Z) (nodes : list node) (rest : text) (out : nat * list node * text) : Prop :=
  let '(i, nodes', rest') := out in
  ∃ w s t, rest = w ++ s ++ rest' ∧ blank w ∧ Val t s ∧ fits depth nodes (depth_of t) (count_of t) ∧
    i = length nodes ∧ keeps nodes nodes' (count_of t) ∧ represents raw nodes' i t.

Definition elements_are (depth : Z) (nodes : list node) (rest : text) (acc : list nat)
    (out : list nat * list node * text) : Prop :=
  let '(es, nodes', rest') := out in
  ∃ s l es0, es = acc ++ es0 ∧ rest = s ++ rest' ∧ Elems l s ∧
    fits depth nodes (depth_of (JArray l)) (sum_counts l) ∧ keeps nodes nodes' (sum_counts l) ∧
    all2 (λ e t, (length nodes <= e)%nat ∧ represents raw nodes' e t) es0 l.

Definition members_are (depth : Z) (nodes : list node) (rest : text) (acc : list (text * nat))
    (out : list (text * nat) * list node * text) : Prop :=
  let '(ms, nodes', rest') := out in
  ∃ s l ms0, ms = acc ++ ms0 ∧ rest = s ++ rest' ∧ Mems l s ∧
    fits depth nodes (depth_of (JObject l)) (sum_member_counts l) ∧
    keeps nodes nodes' (sum_member_counts l) ∧
    (NoDup (map fst acc) → NoDup (map fst acc ++ map (λ m, name_of m.1) l)) ∧
    all2 (λ m bt, m.1 = name_of bt.1 ∧ (length nodes <= m.2)%nat ∧ represents raw nodes' m.2 bt.2) ms0 l.

(** A result, with what it is when there is no error. *)
Definition returns {A} (r : res A) (P : A → Prop) : Prop := ∃ o, r = Some o ∧ ∀ a, o = inr a → P a.

Lemma returns_fail {A} code rest (P : A → Prop) : returns (fail size code rest) P.
Proof. by eexists. Qed.

Lemma returns_ok {A} (a : A) (P : A → Prop) : P a → returns (ok a) P.
Proof. intros H. eexists. split; [done|]. by intros ? [= <-]. Qed.

Lemma returns_bind {A B} (c : res A) (k : A → res B) (P : A → Prop) (Q : B → Prop) :
  returns c P → (∀ a, P a → returns (k a) Q) → returns (res_bind c k) Q.
Proof.
  intros ([e|a] & -> & H) K; simpl; [by eexists|]. by apply K, H.
Qed.

#[local] Hint Resolve returns_fail : olp.

(** The end of [value]: the node is written over the one reserved for it. *)
Lemma finish_is depth nodes pre w s rest t ms es nodes' added :
  raw = pre ++ w ++ s ++ rest → blank w → Val t s → fits depth nodes (depth_of t) (S added) →
  count_of t = S added → keeps (fresh size nodes (s ++ rest)) nodes' added →
  match t with
  | JArray l => ms = [] ∧ all2 (λ e t', (length nodes < e)%nat ∧ represents raw nodes' e t') es l
  | JObject l => es = [] ∧
      all2 (λ m bt, m.1 = name_of bt.1 ∧ (length nodes < m.2)%nat ∧ represents raw nodes' m.2 bt.2) ms l
  | _ => ms = [] ∧ es = []
  end →
  returns (finished size nodes (s ++ rest) (kind_of t) ms es nodes' rest) (value_is depth nodes (w ++ s ++ rest)).
Proof.
  intros E B V F C [L K] H. apply returns_ok. exists w, s, t. rewrite C. rewrite length_fresh in *.
  set (final := mkNode (at_ size (s ++ rest)) (at_ size rest) (kind_of t) ms es).
  assert (Hl : ∀ j n, (length nodes < j)%nat → nodes' !! j = Some n →
    <[length nodes := final]> nodes' !! j = Some n).
  { intros j n Hj Hn. rewrite list_lookup_insert_ne by lia. done. }
  unfold set_node. fold final. split_and!; try done.
  - split; [rewrite length_insert; lia|]. intros j Hj. rewrite list_lookup_insert_ne by lia.
    rewrite K by lia. unfold fresh. by rewrite lookup_app_l by lia.
  - assert (Hn : <[length nodes := final]> nodes' !! length nodes = Some final)
      by (apply list_lookup_insert_eq; lia).
    assert (Hs : Val t (slice raw (n_start final) (n_end final))).
    { simpl. by rewrite (slice_at (pre ++ w)) by (by rewrite <- app_assoc). }
    destruct t; exists final; split_and!; try done; try (by apply H).
    + destruct H as [_ H]. revert H. apply all2_mono. apply Forall_forall. intros t' _ e [Le R].
      split; [done|]. revert R. apply represents_mono. intros j n Hj. apply Hl. lia.
    + destruct H as [_ H]. revert H. apply all2_mono. apply Forall_forall. intros t' _ e (N & Le & R).
      split; [done|]. split; [done|]. revert R. apply represents_mono. intros j n Hj. apply Hl. lia.
Qed.

Lemma blank_app w w' : blank w → blank w' → blank (w ++ w').
Proof. unfold blank. rewrite forallb_app. by intros -> ->. Qed.

Lemma Elems_blank w l s : blank w → Elems l s → Elems l (w ++ s).
Proof.
  intros B [t w0 v w' B0 V B1|t l' w0 v w' r B0 V B1 E]; rewrite app_assoc; constructor; auto using blank_app.
Qed.

Lemma Mems_blank w l s : blank w → Mems l s → Mems l (w ++ s).
Proof. intros B [ ]; rewrite app_assoc; constructor; auto using blank_app. Qed.

Lemma value_cases fuel depth nodes rest P :
  (∀ c tail, space rest = c :: tail → depth <= MaxDepth limits → Z.of_nat (length nodes) < MaxNodes limits →
     returns (value (S fuel) depth nodes rest) P) →
  returns (value (S fuel) depth nodes rest) P.
Proof.
  intros H. cbn [SourceParser.value] in *.
  destruct (Z.gtb_spec depth (MaxDepth limits)); [apply returns_fail|].
  destruct (Z.geb_spec (Z.of_nat (length nodes)) (MaxNodes limits)); [apply returns_fail|].
  destruct (space rest) as [|c tail] eqn:E; [apply returns_fail|]. by apply (H c tail).
Qed.

Section Step.
Context (fuel : nat).
Hypothesis IHelements : ∀ depth nodes rest pre acc,
  raw = pre ++ rest → (2 * length rest + 2 <= fuel)%nat →
  returns (elements fuel depth nodes rest acc) (elements_are depth nodes rest acc).
Hypothesis IHmembers : ∀ depth nodes rest pre acc,
  raw = pre ++ rest → (2 * length rest + 2 <= fuel)%nat →
  returns (members fuel depth nodes rest acc) (members_are depth nodes rest acc).

Context (depth : Z) (nodes : list node) (pre w : text) (tail : text).
Hypothesis Hblank : blank w.
Hypothesis Hdepth : depth <= MaxDepth limits.
Hypothesis Hnodes : Z.of_nat (length nodes) < MaxNodes limits.

Lemma scalar_is t s rest :
  raw = pre ++ w ++ s ++ rest → Val t s → count_of t = 1%nat → depth_of t = 0 →
  match t with JArray l => l = [] | JObject l => l = [] | _ => True end →
  returns (finished size nodes (s ++ rest) (kind_of t) [] [] (fresh size nodes (s ++ rest)) rest)
    (value_is depth nodes (w ++ s ++ rest)).
Proof.
  intros E V C D S.
  apply (finish_is depth nodes pre w s rest t [] [] _ 0); [done|done|done|split; lia|done|apply keeps_refl|].
  destruct t; try done; by subst.
Qed.

Lemma array_is :
  raw = pre ++ w ++ "["%char :: tail → (2 * length tail + 2 <= fuel)%nat →
  returns (match take_ "]" (space tail) with
           | Some r => finished size nodes ("["%char :: tail) Array [] [] (fresh size nodes ("["%char :: tail)) r
           | None => let! (es, ns, r) := elements fuel depth (fresh size nodes ("["%char :: tail)) (space tail) [] in
                     finished size nodes ("["%char :: tail) Array [] es ns r
           end) (value_is depth nodes (w ++ "["%char :: tail)).
Proof.
  intros E L. destruct (space_spec tail) as (w' & Et & B' & _). pose proof (length_space tail).
  destruct (take_ "]" (space tail)) as [r|] eqn:T.
  - apply take_Some in T. rewrite T in Et.
    replace ("["%char :: tail) with (("["%char :: w' ++ ["]"%char]) ++ r) in *
      by (rewrite Et; simpl; by rewrite <- app_assoc).
    by apply (scalar_is (JArray [])); [done|constructor|..].
  - eapply returns_bind.
    { apply (IHelements _ _ _ (pre ++ w ++ "["%char :: w')); [|lia]. rewrite E, Et at 1. by simplify_list_eq. }
    intros [[es ns] r] (s & l & es0 & -> & Es & El & [F1 F2] & K & A). rewrite Es in Et.
    replace ("["%char :: tail) with (("["%char :: w' ++ s) ++ r) in *
      by (rewrite Et; simpl; by rewrite <- app_assoc).
    rewrite length_fresh in *.
    apply (finish_is depth nodes pre w _ r (JArray l) [] es0 ns (sum_counts l)); try done.
    + constructor. by apply Elems_blank.
    + split; [done|]. lia.
Qed.

Lemma object_is :
  raw = pre ++ w ++ "{"%char :: tail → (2 * length tail + 2 <= fuel)%nat →
  returns (match take_ "}" (space tail) with
           | Some r => finished size nodes ("{"%char :: tail) Object [] [] (fresh size nodes ("{"%char :: tail)) r
           | None => let! (ms, ns, r) := members fuel depth (fresh size nodes ("{"%char :: tail)) (space tail) [] in
                     finished size nodes ("{"%char :: tail) Object ms [] ns r
           end) (value_is depth nodes (w ++ "{"%char :: tail)).
Proof.
  intros E L. destruct (space_spec tail) as (w' & Et & B' & _). pose proof (length_space tail).
  destruct (take_ "}" (space tail)) as [r|] eqn:T.
  - apply take_Some in T. rewrite T in Et.
    replace ("{"%char :: tail) with (("{"%char :: w' ++ ["}"%char]) ++ r) in *
      by (rewrite Et; simpl; by rewrite <- app_assoc).
    by apply (scalar_is (JObject [])); [done|constructor|..].
  - eapply returns_bind.
    { apply (IHmembers _ _ _ (pre ++ w ++ "{"%char :: w')); [|lia]. rewrite E, Et at 1. by simplify_list_eq. }
    intros [[ms ns] r] (s & l & ms0 & -> & Es & El & [F1 F2] & K & N & A). rewrite Es in Et.
    replace ("{"%char :: tail) with (("{"%char :: w' ++ s) ++ r) in *
      by (rewrite Et; simpl; by rewrite <- app_assoc).
    rewrite length_fresh in *.
    apply (finish_is depth nodes pre w _ r (JObject l) ms0 [] ns (sum_member_counts l)); try done.
    + constructor; [by apply Mems_blank|]. apply N. constructor.
    + split; [done|]. lia.
Qed.
End Step.

Lemma literal_is depth nodes pre w word t kind c tail :
  kind = kind_of t → raw = pre ++ w ++ c :: tail → blank w → Val t (txt word) → count_of t = 1%nat →
  depth_of t = 0 → match t with JArray l => l = [] | JObject l => l = [] | _ => True end →
  depth <= MaxDepth limits → Z.of_nat (length nodes) < MaxNodes limits →
  returns (match literal (txt word) (c :: tail) with
           | Some r => finished size nodes (c :: tail) kind [] [] (fresh size nodes (c :: tail)) r
           | None => fail size "invalid_literal" (c :: tail)
           end) (value_is depth nodes (w ++ c :: tail)).
Proof.
  intros -> E B V C D S Hd Hn.
  destruct (literal (txt word) (c :: tail)) as [r|] eqn:T; [|apply returns_fail].
  apply literal_Some in T. rewrite T in *. by apply (scalar_is depth nodes pre w B Hd Hn t).
Qed.

Lemma value_step fuel :
  (∀ depth nodes rest pre acc, raw = pre ++ rest → (2 * length rest + 2 <= fuel)%nat →
     returns (elements fuel depth nodes rest acc) (elements_are depth nodes rest acc)) →
  (∀ depth nodes rest pre acc, raw = pre ++ rest → (2 * length rest + 2 <= fuel)%nat →
     returns (members fuel depth nodes rest acc) (members_are depth nodes rest acc)) →
  ∀ depth nodes rest pre, raw = pre ++ rest → (2 * length rest + 1 <= S fuel)%nat →
    returns (value (S fuel) depth nodes rest) (value_is depth nodes rest).
Proof.
  intros IE IM depth nodes rest pre E L. apply value_cases. intros c tail Hs Hd Hn.
  rewrite (value_dispatch _ _ _ _ _ _ _ _ Hs Hd Hn).
  destruct (space_spec rest) as (w & Er & B & _). rewrite Hs in Er.
  assert (Lt : (2 * length tail + 2 <= fuel)%nat).
  { pose proof (length_space rest) as Ls. rewrite Hs in Ls. simpl in Ls. lia. }
  rewrite Er in E |- *. cbv zeta. clear L Er Hs rest.
  destruct (Ascii.eqb_spec c "{") as [->|]; [by eapply object_is|].
  destruct (Ascii.eqb_spec c "[") as [->|]; [by eapply array_is|].
  destruct (Ascii.eqb_spec c "034") as [->|].
  { eapply returns_bind with (P := λ r, ∃ b, chars b ∧ "034"%char :: tail = quoted b ++ r).
    - destruct (string_reads size ("034"%char :: tail)) as (o & Eo & H). exists o. split; [done|].
      intros r Hr. destruct (H r Hr) as (t & (b & Hb & ->) & Et). by exists b.
    - intros r (b & Hb & Et). rewrite Et in *. by apply (scalar_is depth nodes pre w B Hd Hn (JString b));
        [|constructor|..]. }
  destruct (Ascii.eqb_spec c "n") as [->|].
  { by apply (literal_is depth nodes pre w "null" JNull); [..|constructor| | | | |]. }
  destruct (Ascii.eqb_spec c "t") as [->|].
  { by apply (literal_is depth nodes pre w "true" (JBool true)); [..|constructor| | | | |]. }
  destruct (Ascii.eqb_spec c "f") as [->|].
  { by apply (literal_is depth nodes pre w "false" (JBool false)); [..|constructor| | | | |]. }
  eapply returns_bind with (P := λ r, ∃ t, numeral t ∧ c :: tail = t ++ r).
  - destruct (number_reads size (c :: tail)) as (o & Eo & H). exists o. split; [done|].
    intros r Hr. by apply H.
  - intros r (t & Ht & Et). rewrite Et in *.
    by apply (scalar_is depth nodes pre w B Hd Hn (JNumber t)); [|constructor|..].
Qed.

Lemma elements_step fuel :
  (∀ depth nodes rest pre, raw = pre ++ rest → (2 * length rest + 1 <= fuel)%nat →
     returns (value fuel depth nodes rest) (value_is depth nodes rest)) →
  (∀ depth nodes rest pre acc, raw = pre ++ rest → (2 * length rest + 2 <= fuel)%nat →
     returns (elements fuel depth nodes rest acc) (elements_are depth nodes rest acc)) →
  ∀ depth nodes rest pre acc, raw = pre ++ rest → (2 * length rest + 2 <= S fuel)%nat →
    returns (elements (S fuel) depth nodes rest acc) (elements_are depth nodes rest acc).
Proof.
  intros IV IE depth nodes rest pre acc E L. rewrite elements_S.
  eapply returns_bind; [apply (IV _ _ _ pre E); lia|].
  intros [[child ns] r] (w & s & t & -> & B & V & [F1 F2] & -> & K & R). pose proof (depth_nonneg t) as Dn.
  destruct (space_spec r) as (w' & Er & B' & _).
  destruct (take_ "]" (space r)) as [r1|] eqn:T.
  { apply take_Some in T. rewrite T in Er. apply returns_ok.
    exists (w ++ s ++ w' ++ ["]"%char]), [t], [length nodes]. split_and!; try done.
    - rewrite Er. by simplify_list_eq.
    - by constructor.
    - split; simpl; unfold sum_counts; simpl; lia.
    - unfold sum_counts. simpl. by rewrite Nat.add_0_r. }
  destruct (take_ "," (space r)) as [r1|] eqn:T2; [|apply returns_fail].
  apply take_Some in T2. rewrite T2 in Er.
  assert (Lr : (length r1 + 1 < length (w ++ s ++ r))%nat).
  { destruct (Val_starts t s V) as (c & s' & -> & _). rewrite Er, !length_app. simpl. rewrite ?length_app. simpl. lia. }
  destruct (IE depth ns r1 (pre ++ w ++ s ++ w' ++ [","%char]) (acc ++ [length nodes])) as (o & Eo & H).
  { rewrite E, Er. by simplify_list_eq. }
  { lia. }
  exists o. split; [done|]. intros [[es ns'] r2] Ho.
  destruct (H _ Ho) as (s1 & l & es0 & -> & -> & El & [G1 G2] & K' & A).
  exists (w ++ s ++ w' ++ ","%char :: s1), (t :: l), (length nodes :: es0). destruct K as [Kl Kj]. split_and!.
  - by simplify_list_eq.
  - rewrite Er. by simplify_list_eq.
  - by constructor.
  - split; [simpl in *; lia|]. unfold sum_counts in *. simpl. lia.
  - unfold sum_counts. simpl. by apply keeps_trans with ns.
  - simpl. split.
    + split; [lia|]. by eapply keeps_represents.
    + revert A. apply all2_mono. apply Forall_forall. intros t' _ e [? ?]. split; [lia|done].
Qed.

Lemma members_S fuel depth nodes rest acc :
  members (S fuel) depth nodes rest acc =
  (let! r := string_ size (space rest) in
   let quoted := between (space rest) r in
   let name := name_of (take (length quoted - 2) (drop 1 quoted)) in
   if Contains (map fst acc) name then fail size "duplicate_key" r
   else match take_ ":" (space r) with
        | None => fail size "expected_colon" (space r)
        | Some r =>
            let! (child, ns, r) := value fuel (depth + 1) nodes r in
            match take_ "}" (space r) with
            | Some r => ok (acc ++ [(name, child)], ns, r)
            | None => match take_ "," (space r) with
                      | Some r => members fuel depth ns r (acc ++ [(name, child)])
                      | None => fail size "expected_object_end" (space r)
                      end
            end
        end).
Proof. reflexivity. Qed.

Lemma NoDup_snoc {A} (l : list A) x : NoDup l → x ∉ l → NoDup (l ++ [x]).
Proof. intros N H. apply NoDup_app. split_and!; [done|set_solver|apply NoDup_singleton]. Qed.

Lemma members_step fuel :
  (∀ depth nodes rest pre, raw = pre ++ rest → (2 * length rest + 1 <= fuel)%nat →
     returns (value fuel depth nodes rest) (value_is depth nodes rest)) →
  (∀ depth nodes rest pre acc, raw = pre ++ rest → (2 * length rest + 2 <= fuel)%nat →
     returns (members fuel depth nodes rest acc) (members_are depth nodes rest acc)) →
  ∀ depth nodes rest pre acc, raw = pre ++ rest → (2 * length rest + 2 <= S fuel)%nat →
    returns (members (S fuel) depth nodes rest acc) (members_are depth nodes rest acc).
Proof.
  intros IV IM depth nodes rest pre acc E L. rewrite members_S.
  destruct (space_spec rest) as (w & Er & B & _).
  eapply returns_bind with (P := λ r, ∃ b, chars b ∧ space rest = quoted b ++ r).
  { destruct (string_reads size (space rest)) as (o & Eo & H). exists o. split; [done|].
    intros r Hr. destruct (H r Hr) as (t & (b & Hb & ->) & Et). by exists b. }
  intros r (b & Hb & Eb). cbv beta zeta. rewrite Eb, between_app, name_body. rewrite Eb in Er.
  destruct (Contains (map fst acc) (name_of b)) eqn:C; [apply returns_fail|]. apply Contains_false in C.
  destruct (space_spec r) as (w1 & E1 & B1 & _).
  destruct (take_ ":" (space r)) as [r1|] eqn:T; [|apply returns_fail].
  apply take_Some in T. rewrite T in E1. subst r.
  assert (Lq : (2 <= length (quoted b))%nat) by (unfold quoted; simpl; rewrite length_app; simpl; lia).
  assert (L1 : (length r1 + 3 <= length rest)%nat)
    by (rewrite Er, !length_app; cbn [length]; lia).
  eapply returns_bind.
  { apply (IV _ _ _ (pre ++ w ++ quoted b ++ w1 ++ [":"%char])); [|lia]. rewrite E, Er. by simplify_list_eq. }
  intros [[child ns] r] (w2 & s & t & -> & B2 & V & [F1 F2] & -> & K & R). pose proof (depth_nonneg t) as Dn.
  destruct (space_spec r) as (w3 & E3 & B3 & _).
  destruct (take_ "}" (space r)) as [r3|] eqn:T3.
  { apply take_Some in T3. rewrite T3 in E3. apply returns_ok.
    exists (w ++ quoted b ++ w1 ++ ":"%char :: w2 ++ s ++ w3 ++ ["}"%char]), [(b, t)], [(name_of b, length nodes)].
    split_and!; try done.
    - rewrite Er, E3. by simplify_list_eq.
    - by constructor.
    - split; simpl; unfold sum_member_counts; simpl; lia.
    - unfold sum_member_counts. simpl. by rewrite Nat.add_0_r.
    - intros N. by apply NoDup_snoc. }
  destruct (take_ "," (space r)) as [r3|] eqn:T4; [|apply returns_fail].
  apply take_Some in T4. rewrite T4 in E3.
  assert (Lr : (length r3 + 1 < length rest)%nat).
  { rewrite !length_app in L1. rewrite E3, length_app in L1. simpl in L1. lia. }
  destruct (IM depth ns r3 (pre ++ w ++ quoted b ++ w1 ++ ":"%char :: w2 ++ s ++ w3 ++ [","%char])
              (acc ++ [(name_of b, length nodes)])) as (o & Eo & H).
  { rewrite E, Er, E3. by simplify_list_eq. }
  { lia. }
  exists o. split; [done|]. intros [[ms ns'] r2] Ho.
  destruct (H _ Ho) as (s1 & l & ms0 & -> & -> & El & [G1 G2] & K' & N & A).
  exists (w ++ quoted b ++ w1 ++ ":"%char :: w2 ++ s ++ w3 ++ ","%char :: s1), ((b, t) :: l),
    ((name_of b, length nodes) :: ms0). destruct K as [Kl Kj]. split_and!.
  - by simplify_list_eq.
  - rewrite Er, E3. by simplify_list_eq.
  - by constructor.
  - split; [simpl in *; lia|]. unfold sum_member_counts in *. simpl. lia.
  - unfold sum_member_counts. simpl. by apply keeps_trans with ns.
  - intros ND. rewrite map_app, <- app_assoc in N. apply N. by apply NoDup_snoc.
  - simpl. split.
    + split; [done|]. split; [lia|]. by eapply keeps_represents.
    + revert A. apply all2_mono. apply Forall_forall. intros t' _ e (? & ? & ?). split_and!; [done|lia|done].
Qed.

Lemma all_sound fuel :
  (∀ depth nodes rest pre, raw = pre ++ rest → (2 * length rest + 1 <= fuel)%nat →
     returns (value fuel depth nodes rest) (value_is depth nodes rest)) ∧
  (∀ depth nodes rest pre acc, raw = pre ++ rest → (2 * length rest + 2 <= fuel)%nat →
     returns (elements fuel depth nodes rest acc) (elements_are depth nodes rest acc)) ∧
  (∀ depth nodes rest pre acc, raw = pre ++ rest → (2 * length rest + 2 <= fuel)%nat →
     returns (members fuel depth nodes rest acc) (members_are depth nodes rest acc)).
Proof.
  induction fuel as [|fuel (IV & IE & IM)]; [split_and!; intros; lia|].
  split_and!; [by apply value_step|by apply elements_step|by apply members_step].
Qed.
End Sound.

(** ** Documents *)

(** A text of the grammar within the limits. *)
Definition admissible (limits : Limits) (t : json) (data : text) : Prop :=
  Z.of_nat (length data) <= MaxBytes limits ∧ utf8_Valid data = true ∧
  (∃ w s w', data = w ++ s ++ w' ∧ blank w ∧ blank w' ∧ Val t s) ∧
  depth_of t <= MaxDepth limits ∧ Z.of_nat (count_of t) <= MaxNodes limits.

Lemma space_all w : blank w → space w = [].
Proof. intros B. rewrite <- (app_nil_r w). by rewrite space_blank. Qed.

Lemma admissible_value limits t data :
  admissible limits t data →
  ∃ nodes rest, value (length data) limits (parse_fuel data) 0 [] data = ok (0%nat, nodes, rest) ∧ space rest = [].
Proof.
  intros (_ & _ & (w & s & w' & E & B & B' & V) & D & N).
  destruct (proj1 (grammar_accepted (length data) limits) t s V (parse_fuel data) 0 [] w w')
    as (nodes & Ev & _); [done| | |unfold parse_fuel; rewrite E; lia|].
  - rewrite <- (app_nil_r w'). by apply blank_follow.
  - split; simpl; lia.
  - exists nodes, w'. rewrite E at 3. split; [done|]. by apply space_all.
Qed.

(** What [ParseJSON] returns: the document of a tree, or an error when there is none. *)
Lemma ParseJSON_outcome (data : text) (limits : Limits) :
  ∃ o, ParseJSON data limits = Some o ∧
    match o with
    | inr d => d_raw d = data ∧
        ∃ t, admissible (effective limits) t data ∧ represents data (d_nodes d) 0 t ∧
             length (d_nodes d) = count_of t
    | inl _ => ∀ t, ¬ admissible (effective limits) t data
    end.
Proof.
  unfold ParseJSON. set (l := effective limits). cbv zeta.
  destruct (Z.gtb_spec (Z.of_nat (length data)) (MaxBytes l)) as [Hb|Hb].
  { eexists. split; [done|]. intros t (Hl & _). lia. }
  destruct (utf8_Valid data) eqn:U; simpl negb; cbv iota.
  2: { eexists. split; [done|]. intros t (_ & Hu & _). congruence. }
  destruct (proj1 (all_sound data l (parse_fuel data)) 0 [] data [] eq_refl) as ([e|[[i nodes] rest]] & Ev & H).
  { unfold parse_fuel. lia. }
  { rewrite Ev. eexists. split; [done|]. intros t (nodes & rest & Eo & _)%admissible_value.
    by rewrite Ev in Eo. }
  rewrite Ev. cbn [res_bind].
  destruct (H _ eq_refl) as (w & s & t & E & B & V & [D N] & -> & [K _] & R).
  destruct (space_spec rest) as (w' & Er & B' & _).
  destruct (space rest) as [|c tl] eqn:S.
  - eexists. split; [done|]. split; [done|]. exists t. rewrite app_nil_r in Er. subst w'. split_and!; try done.
    split_and!; [lia|done| |lia|exact N]. by exists w, s, rest.
  - eexists. split; [done|]. intros t' (nodes' & rest' & Eo & So)%admissible_value.
    rewrite Ev in Eo. injection Eo as <- <-. congruence.
Qed.

(** C18. [ParseJSON] returns for every input and accepts exactly the JSON documents
    within its limits: valid UTF-8 of at most [MaxBytes] bytes that the grammar
    derives, with no object naming a member twice after decoding, nested at most
    [MaxDepth] deep and of at most [MaxNodes] values. What it returns keeps the
    text, and its nodes represent the tree: kind, source text, decoded member names
    and children of every value, in order. *)
Theorem parse_json_exact (data : text) (limits : Limits) :
  ∃ o, ParseJSON data limits = Some o ∧
    match o with
    | inr d => d_raw d = data ∧
        ∃ t, admissible (effective limits) t data ∧ represents data (d_nodes d) 0 t ∧
             length (d_nodes d) = count_of t
    | inl _ => ∀ t, ¬ admissible (effective limits) t data
    end.
Proof. apply ParseJSON_outcome. Qed.
