(* ===== verification/SourceValues.v ===== *)
(** * Source documents: reading values

    The accessors of [internal/oif/source.go] over a parsed document: kinds, source
    text, decoded strings, members, elements and JSON pointers. A [Value] is a node's
    index in its document. *)

From S2P Require Import Prelude Go Amount Source SourceParser SourceGrammar SourceExact SourceSound.
From Stdlib Require Import Ascii.
Local Open Scope Z_scope.

(** ** Accessors *)

Section Values.
Context (d : document).

Definition node_at (i : nat) : node := default (mkNode 0 0 Absent [] []) (d_nodes d !! i).

Definition Value_Kind (i : nat) : Kind := n_kind (node_at i).
Definition Value_Bounds (i : nat) : nat * nat := (n_start (node_at i), n_end (node_at i)).
Definition Value_Raw (i : nat) : text := slice (d_raw d) (n_start (node_at i)) (n_end (node_at i)).

(** [Value.text]: the decoded text of a string, [None] for a panic of the code, and
    whether there is any. *)
Definition Value_text (i : nat) : option (text * bool) :=
  match Value_Kind i with
  | KString =>
      let raw := Value_Raw i in
      let body := take (length raw - 2) (drop 1 raw) in
      if existsb (Ascii.eqb "092") body then (λ t, (t, true)) <$> decode body else Some (body, true)
  | _ => Some ([], false)
  end.

Definition find_member (name : text) (ms : list (text * nat)) : option nat :=
  snd <$> List.find (λ m, bool_decide (m.1 = name)) ms.

Definition Value_Lookup (i : nat) (name : text) : option nat :=
  match Value_Kind i with Object => find_member name (n_members (node_at i)) | _ => None end.

Definition Elements (i : nat) : list nat :=
  match Value_Kind i with Array => n_elements (node_at i) | _ => [] end.

Definition Members (i : nat) : list (text * nat) :=
  match Value_Kind i with Object => n_members (node_at i) | _ => [] end.

(** The last member of a name wins, as in a Go map; a parsed object has no two. *)
Definition FieldsWithout (names : list text) : gmap text text :=
  match Value_Kind 0 with
  | Object =>
      foldl (λ out m, if Contains names m.1 then out else <[m.1 := Value_Raw m.2]> out) ∅
        (n_members (node_at 0))
  | _ => ∅
  end.

(** ** JSON pointers *)

(** [strings.ReplaceAll] of one byte. *)
Definition replace_byte (c : ascii) (by_ : text) (s : text) : text :=
  flat_map (λ x, if Ascii.eqb x c then by_ else [x]) s.

Definition Pointer (parent name : text) : text :=
  parent ++ "/"%char :: replace_byte "/" (txt "~1") (replace_byte "~" (txt "~0") name).

(** [strings.Split] at slashes. *)
Fixpoint split (s : text) : list text :=
  match s with
  | [] => [[]]
  | c :: s' =>
      if Ascii.eqb c "/" then [] :: split s'
      else match split s' with
           | part :: parts => (c :: part) :: parts
           | [] => [[c]]
           end
  end.

Fixpoint unescape (part : text) : option text :=
  match part with
  | [] => Some []
  | c :: part' =>
      if negb (Ascii.eqb c "~") then cons c <$> unescape part'
      else match part' with
           | e :: part'' =>
               if Ascii.eqb e "0" then cons "~"%char <$> unescape part''
               else if Ascii.eqb e "1" then cons "/"%char <$> unescape part'' else None
           | [] => None
           end
  end.

Definition byte_value (c : ascii) : Z := code c - 48.

(** [strconv.Atoi] of digits. *)
Definition Atoi (name : text) : option Z :=
  let n := foldl (λ acc c, 10 * acc + byte_value c) 0 name in if n >? MaxInt64 then None else Some n.

(** The element a pointer's part names. *)
Definition array_index (name : text) (es : list nat) : option nat :=
  match name with
  | [] => None
  | c :: rest =>
      if negb (Nat.eqb (length rest) 0) && Ascii.eqb c "0" then None
      else if negb (forallb digit_byte name) then None
      else i ← Atoi name; if i >=? Z.of_nat (length es) then None else es !! Z.to_nat i
  end.

Fixpoint lookup_parts (v : nat) (parts : list text) : option nat :=
  match parts with
  | [] => Some v
  | part :: rest =>
      name ← unescape part;
      v' ← match Value_Kind v with
           | Array => array_index name (n_elements (node_at v))
           | _ => Value_Lookup v name
           end;
      lookup_parts v' rest
  end.

Definition Document_Lookup (pointer : text) : option nat :=
  match pointer with
  | [] => Some 0%nat
  | c :: rest => if Ascii.eqb c "/" then lookup_parts 0 (split rest) else None
  end.
End Values.

(** ** Strings decode *)

Lemma plain_backslash c : plain c = true → Ascii.eqb c "092" = false.
Proof.
  intros P. apply not_true_iff_false. intros E%Ascii.eqb_eq. subst c. by vm_compute in P.
Qed.

Lemma unquote_total b fuel : chars b → (length b < fuel)%nat → ∃ t, unquote fuel b = Some t.
Proof.
  intros C. revert fuel. induction C as [|c b P C IH|e b He C IH]; intros [|fuel] L; try (simpl in L; lia).
  - by exists [].
  - destruct (IH fuel) as (t & E); [simpl in L; lia|]. cbn [unquote].
    rewrite (plain_backslash c P). simpl. rewrite E. by eexists.
  - assert (Lb : (length b < fuel)%nat) by (simpl in L; rewrite length_app in L; lia).
    destruct (IH fuel Lb) as (t & E). cbn [unquote].
    change (negb (Ascii.eqb "092" "092")) with false. cbv iota.
    destruct He as [c Hc|h1 h2 h3 h4 n Hn Hs|h1 h2 h3 h4 n l1 l2 l3 l4 low Hn Hh Hl Hw]; cbn [app].
    + rewrite E. repeat (case_match; simpl; try by eexists).
      all: rewrite Ascii.eqb_eq in *; subst; done.
    + simpl Ascii.eqb. cbv iota. rewrite E, Hn. simpl default. case_match; [|by eexists].
      rewrite andb_true_iff, !Z.leb_le in *. lia.
    + simpl Ascii.eqb. cbv iota. rewrite E, Hn, Hl. simpl default.
      rewrite (proj2 (Z.leb_le 0xD800 n)), (proj2 (Z.leb_le n 0xDFFF)) by lia. simpl. by eexists.
Qed.

Lemma unquote_plain b fuel :
  existsb (Ascii.eqb "092") b = false → (length b < fuel)%nat → unquote fuel b = Some b.
Proof.
  revert fuel. induction b as [|c b IH]; intros [|fuel] Hb L; try (simpl in L; lia); [done|].
  cbn [existsb] in Hb. cbn [length] in L. apply orb_false_iff in Hb as [Hc Hb]. cbn [unquote].
  rewrite Ascii.eqb_sym, Hc. simpl. by rewrite IH by (done || lia).
Qed.

(** The text of a represented string is its decoded body. *)
Lemma Value_text_string d i b :
  represents (d_raw d) (d_nodes d) i (JString b) →
  ∃ s, decode b = Some s ∧ Value_text d i = Some (s, true).
Proof.
  intros (n & Hn & Hk & Hv & _). unfold Value_text, Value_Kind, Value_Raw, node_at. rewrite Hn. simpl.
  rewrite Hk. simpl. inversion Hv as [| | | |b' C E| | | |]; subst. rewrite name_body.
  destruct (unquote_total b (S (length b)) C) as (s & Es); [lia|]. exists s. split; [done|].
  destruct (existsb (Ascii.eqb "092") b) eqn:B; [by unfold decode; rewrite Es|].
  rewrite unquote_plain in Es by (done || lia). by simplify_eq.
Qed.

(** ** Pointers split into their names *)

Definition esc (name : text) : text := replace_byte "/" (txt "~1") (replace_byte "~" (txt "~0") name).

(** The pointer of the names from the root down. *)
Definition pointer_of (names : list text) : text := foldl Pointer [] names.

Lemma esc_cons c name :
  esc (c :: name) = (if Ascii.eqb c "~" then txt "~0" else if Ascii.eqb c "/" then txt "~1" else [c]) ++ esc name.
Proof.
  unfold esc, replace_byte. cbn [flat_map]. rewrite flat_map_app. f_equal.
  destruct (Ascii.eqb c "~") eqn:T; [done|]. cbn [flat_map]. apply app_nil_r.
Qed.

Lemma unescape_esc name : unescape (esc name) = Some name.
Proof.
  induction name as [|c name IH]; [done|]. rewrite esc_cons.
  destruct (Ascii.eqb c "~") eqn:T; [apply Ascii.eqb_eq in T; subst c; by simpl; rewrite IH|].
  destruct (Ascii.eqb c "/") eqn:S; [apply Ascii.eqb_eq in S; subst c; by simpl; rewrite IH|].
  cbn [app unescape]. rewrite T. simpl. by rewrite IH.
Qed.

Lemma split_esc name : split (esc name) = [esc name].
Proof.
  induction name as [|c name IH]; [done|]. rewrite esc_cons.
  destruct (Ascii.eqb c "~"); [by simpl; rewrite IH|].
  destruct (Ascii.eqb c "/") eqn:S; [by simpl; rewrite IH|].
  cbn [app split]. by rewrite S, IH.
Qed.

Lemma split_cons name rest : split (esc name ++ "/"%char :: rest) = esc name :: split rest.
Proof.
  induction name as [|c name IH]; [done|]. rewrite esc_cons, <- app_assoc.
  destruct (Ascii.eqb c "~"); [by simpl; rewrite IH|].
  destruct (Ascii.eqb c "/") eqn:S; [by simpl; rewrite IH|].
  cbn [app split]. by rewrite S, IH.
Qed.

Lemma pointer_of_app p names :
  foldl Pointer p names = p ++ flat_map (λ n, "/"%char :: esc n) names.
Proof.
  revert p. induction names as [|n names IH]; intros p; simpl; [by rewrite app_nil_r|].
  rewrite IH. unfold Pointer. fold (esc n). by rewrite <- app_assoc.
Qed.

Lemma split_pointer n names :
  split (esc n ++ flat_map (λ n, "/"%char :: esc n) names) = map esc (n :: names).
Proof.
  revert n. induction names as [|m names IH]; intros n; simpl.
  - by rewrite app_nil_r, split_esc.
  - by rewrite split_cons, IH.
Qed.

Lemma Document_Lookup_pointer d names :
  Document_Lookup d (pointer_of names) = lookup_parts d 0 (map esc names).
Proof.
  unfold pointer_of. rewrite pointer_of_app. destruct names as [|n names]; [done|].
  cbn [flat_map app]. unfold Document_Lookup. simpl Ascii.eqb. cbv iota. by rewrite split_pointer.
Qed.

(** ** Decimal names of elements *)

Definition decimal_name (i : nat) : text := txt (big_String (Z.of_nat i)).

Definition name_value (name : text) : Z := foldl (λ acc c, 10 * acc + byte_value c) 0 name.

(** Digits with no zero before others. *)
Definition canonical (name : text) : bool :=
  match name with
  | [] => false
  | c :: rest => negb (negb (Nat.eqb (length rest) 0) && Ascii.eqb c "0") && forallb digit_byte name
  end.

Lemma digit_byte_value c : digit_byte c = true → 0 <= byte_value c < 10 ∧ digit (byte_value c) = c.
Proof.
  unfold digit_byte, byte_value, digit, code. intros [H1 H2]%andb_true_iff.
  apply Z.leb_le in H1, H2. split; [lia|].
  replace (48 + (Z.of_N (N_of_ascii c) - 48)) with (Z.of_N (N_of_ascii c)) by lia.
  by rewrite N2Z.id, ascii_N_embedding.
Qed.

Lemma name_value_snoc s c : name_value (s ++ [c]) = 10 * name_value s + byte_value c.
Proof. unfold name_value. by rewrite foldl_app. Qed.

Lemma canonical_snoc s c : s ≠ [] → canonical (s ++ [c]) = true →
  canonical s = true ∧ digit_byte c = true ∧ (∃ h r, s = h :: r ∧ h ≠ "0"%char).
Proof.
  destruct s as [|h r]; [done|]. intros _. cbn [canonical app]. rewrite length_app, Nat.add_comm. cbn [length Nat.add Nat.eqb].
  change (h :: r ++ [c]) with ((h :: r) ++ [c]). rewrite forallb_app. simpl negb.
  intros [H [D Hc]%andb_true_iff]%andb_true_iff. cbn [forallb] in Hc. rewrite andb_true_r in Hc.
  apply negb_true_iff in H. cbn [andb] in H. rewrite D, H, andb_false_r. split_and!; [done|done|].
  exists h, r. split; [done|]. by apply Ascii.eqb_neq.
Qed.

Lemma name_value_lower s : canonical s = true →
  0 <= name_value s ∧ ((1 < length s)%nat ∨ (∃ h r, s = h :: r ∧ h ≠ "0"%char) → 2 ^ Z.of_nat (length s - 1) <= name_value s).
Proof.
  induction s as [|c s IH] using rev_ind; [done|]. intros C. destruct (decide (s = [])) as [-> |N].
  - cbn [app canonical forallb length Nat.eqb negb andb] in *. rewrite andb_true_r in C.
    destruct (digit_byte_value c C) as [B E]. unfold name_value. simpl. split; [lia|].
    intros [?|(h & r & [= <- <-] & Hh)]; [lia|]. destruct (decide (byte_value c = 0)) as [Z0|]; [|lia].
    rewrite Z0 in E. by subst c.
  - destruct (canonical_snoc s c N C) as (Cs & D & H). destruct (IH Cs) as [P L].
    destruct (digit_byte_value c D) as [B _]. rewrite name_value_snoc. split; [lia|]. intros _.
    specialize (L (or_intror H)). rewrite length_app. cbn [length].
    assert (1 <= length s)%nat by (destruct s; simpl; [done|lia]).
    replace (Z.of_nat (length s + 1 - 1)) with (Z.succ (Z.of_nat (length s - 1))) by lia.
    rewrite Z.pow_succ_r by lia. lia.
Qed.

Lemma txt_append a b : txt (a +:+ b) = txt a ++ txt b.
Proof. induction a as [|c a IH]; [done|]. change (c :: txt (a +:+ b) = c :: (txt a ++ txt b)). by rewrite IH. Qed.

Lemma dec_digits_canonical s fuel acc : canonical s = true → (length s <= fuel)%nat →
  txt (dec_digits fuel (name_value s) acc) = s ++ txt acc.
Proof.
  revert fuel acc. induction s as [|c s IH] using rev_ind; [done|]. intros [|fuel] acc C L.
  { rewrite length_app in L. simpl in L. lia. }
  cbn [dec_digits]. rewrite name_value_snoc. destruct (decide (s = [])) as [-> |N].
  - cbn [app canonical forallb length Nat.eqb negb andb] in C. rewrite andb_true_r in C.
    destruct (digit_byte_value c C) as [B E]. change (name_value []) with 0.
    rewrite Z.mod_small by lia. rewrite (proj2 (Z.ltb_lt _ _)) by lia.
    replace (10 * 0 + byte_value c) with (byte_value c) by lia. by rewrite E.
  - destruct (canonical_snoc s c N C) as (Cs & D & H). destruct (digit_byte_value c D) as [B E].
    destruct (name_value_lower s Cs) as [P Lo]. specialize (Lo (or_intror H)).
    pose proof (Z.pow_pos_nonneg 2 (Z.of_nat (length s - 1)) ltac:(lia) ltac:(lia)).
    rewrite (proj2 (Z.ltb_ge _ _)) by lia.
    replace ((10 * name_value s + byte_value c) mod 10) with (byte_value c)
      by (apply Z.mod_unique with (name_value s); lia).
    replace ((10 * name_value s + byte_value c) / 10) with (name_value s)
      by (apply Z.div_unique with (byte_value c); lia).
    rewrite IH, E by (done || (rewrite length_app in L; simpl in L; lia)). by rewrite <- app_assoc.
Qed.

(** A canonical name is the decimal of its value. *)
Lemma canonical_decimal s : canonical s = true → txt (big_String (name_value s)) = s.
Proof.
  intros C. unfold big_String. rewrite dec_digits_canonical; [apply app_nil_r|done|].
  destruct (name_value_lower s C) as [P L]. destruct (decide (1 < length s)%nat) as [H|H]; [|lia].
  specialize (L (or_introl H)). apply Z.log2_le_mono in L. rewrite Z.log2_pow2 in L by lia. lia.
Qed.

Lemma dec_digits_head fuel n acc :
  0 < n → (Z.to_nat (Z.log2 n) < fuel)%nat →
  ∃ c r, dec_digits fuel n acc = String c r ∧ c ≠ "0"%char.
Proof.
  revert n acc. induction fuel as [|fuel IH]; intros n acc Hn L; [lia|]. cbn [dec_digits].
  destruct (Z.ltb_spec n 10) as [H|H].
  - do 2 eexists. split; [done|]. rewrite Z.mod_small by lia. intros E.
    destruct (digit_spec n) as [V _]; [lia|]. rewrite E in V. vm_compute in V. lia.
  - apply IH; [apply Z.div_str_pos; lia|].
    pose proof (log2_div10 n). lia.
Qed.

Lemma dec_from_txt acc s : dec_from acc s = foldl (λ acc c, 10 * acc + byte_value c) acc (txt s).
Proof. revert acc. induction s as [|c s IH]; intros acc; [done|]. apply IH. Qed.

Lemma decimalDigits_txt s : decimalDigits s = forallb digit_byte (txt s).
Proof.
  unfold decimalDigits. induction s as [|c s IH]; [done|]. cbn [all_bytes]. rewrite IH.
  change (forallb digit_byte (txt (String c s))) with (digit_byte c && forallb digit_byte (txt s)).
  f_equal. unfold is_digit, in_range, digit_byte, code. simpl.
  f_equal; apply eq_iff_eq_true; rewrite N.leb_le, Z.leb_le; simpl; lia.
Qed.

Lemma decimal_name_canonical i : canonical (decimal_name i) = true ∧ name_value (decimal_name i) = Z.of_nat i.
Proof.
  unfold decimal_name. destruct (big_String_spec (Z.of_nat i)) as (V & D & N); [lia|].
  split; [|by unfold dec_value in V; rewrite dec_from_txt in V].
  destruct i as [|i]; [done|].
  destruct (dec_digits_head (S (Z.to_nat (Z.log2 (Z.of_nat (S i))))) (Z.of_nat (S i)) "") as (c & r & E & Hc); [lia|lia|].
  unfold big_String in D |- *. rewrite E in D |- *. rewrite decimalDigits_txt in D.
  change (txt (String c r)) with (c :: txt r) in D |- *. unfold canonical. rewrite D, andb_true_r.
  by rewrite (proj2 (Ascii.eqb_neq _ _) Hc), andb_false_r.
Qed.

(** The element a decimal name picks. *)
Fixpoint nth_named {A} (k : nat) (name : text) (l : list A) : option A :=
  match l with
  | [] => None
  | x :: l' => if bool_decide (decimal_name k = name) then Some x else nth_named (S k) name l'
  end.

Lemma nth_named_at {A} k i (l : list A) : nth_named k (decimal_name (k + i)) l = l !! i.
Proof.
  revert k i. induction l as [|x l IH]; intros k i; [done|]. cbn [nth_named]. case_bool_decide as E.
  - apply (f_equal name_value) in E. rewrite !(proj2 (decimal_name_canonical _)) in E.
    by replace i with 0%nat by lia.
  - destruct i as [|i]; [by rewrite Nat.add_0_r in E|]. change ((x :: l) !! S i) with (l !! i).
    rewrite <- (IH (S k) i). f_equal. f_equal. lia.
Qed.

Lemma nth_named_not {A} k name (l : list A) : canonical name = false → nth_named k name l = None.
Proof.
  intros C. revert k. induction l as [|x l IH]; intros k; [done|]. cbn [nth_named].
  case_bool_decide as E; [|done]. subst. by rewrite (proj1 (decimal_name_canonical k)) in C.
Qed.

(** [Lookup] finds the element of that name, and no other spelling of an index. *)
Lemma array_index_named name es : Z.of_nat (length es) <= MaxInt64 → array_index name es = nth_named 0 name es.
Proof.
  intros L. destruct (canonical name) eqn:C.
  - pose proof (canonical_decimal name C) as E. destruct (name_value_lower name C) as [P _].
    assert (E' : nth_named 0 name es = es !! Z.to_nat (name_value name)).
    { rewrite <- (nth_named_at 0). f_equal. unfold decimal_name. simpl. by rewrite Z2Nat.id. }
    rewrite E'. destruct name as [|c rest]; [done|]. unfold canonical in C. apply andb_true_iff in C as [C D].
    unfold array_index. apply negb_true_iff in C. rewrite C, D. cbn [negb]. unfold Atoi. fold (name_value (c :: rest)).
    destruct (Z.gtb_spec (name_value (c :: rest)) MaxInt64) as [G|G]; cbn [mbind option_bind].
    + symmetry. apply lookup_ge_None. lia.
    + rewrite Z.geb_leb. destruct (Z.leb_spec (Z.of_nat (length es)) (name_value (c :: rest))); [|done].
      symmetry. apply lookup_ge_None. lia.
  - rewrite nth_named_not by done. unfold array_index. destruct name as [|c rest]; [done|].
    unfold canonical in C. apply andb_false_iff in C as [C|C]; [apply negb_false_iff in C; by rewrite C|].
    rewrite C. by case_match.
Qed.

(** ** Lookup *)

(** The subtree the names reach, from the root down. *)
Fixpoint reach (t : json) (names : list text) : option json :=
  match names with
  | [] => Some t
  | name :: names' =>
      match t with
      | JArray l => t' ← nth_named 0 name l; reach t' names'
      | JObject l => t' ← snd <$> List.find (λ m, bool_decide (name_of m.1 = name)) l; reach t' names'
      | _ => None
      end
  end.

(** The node found, if any, represents the subtree, if any. *)
Definition agrees {A B} (P : A → B → Prop) (o : option A) (o' : option B) : Prop :=
  match o, o' with Some x, Some y => P x y | None, None => True | _, _ => False end.

Lemma agrees_bind {A B A' B'} (P : A → B → Prop) (Q : A' → B' → Prop) o o' f g :
  agrees P o o' → (∀ x y, P x y → agrees Q (f x) (g y)) → agrees Q (o ≫= f) (o' ≫= g).
Proof. destruct o, o'; simpl; naive_solver. Qed.

Lemma nth_named_agrees {A B} (P : A → B → Prop) k name l l' :
  all2 P l l' → agrees P (nth_named k name l) (nth_named k name l').
Proof.
  revert k l'. induction l as [|x l IH]; intros k [|y l']; simpl; try done.
  intros [H HA]. case_bool_decide; [done|]. by apply IH.
Qed.

Lemma find_member_agrees (P : nat → json → Prop) name (ms : list (text * nat)) l :
  all2 (λ m bt, m.1 = name_of bt.1 ∧ P m.2 bt.2) ms l →
  agrees P (find_member name ms) (snd <$> List.find (λ m, bool_decide (name_of m.1 = name)) l).
Proof.
  revert l. unfold find_member. induction ms as [|m ms IH]; intros [|y l]; simpl; try done.
  intros [ [E H] HA]. rewrite E. case_bool_decide; [done|]. by apply IH.
Qed.

Lemma all2_weaken {A B} (P Q : A → B → Prop) l k : (∀ x y, P x y → Q x y) → all2 P l k → all2 Q l k.
Proof. intros H. apply all2_mono, Forall_true. auto. Qed.

Lemma all2_length {A B} (P : A → B → Prop) l k : all2 P l k → length l = length k.
Proof. revert l. induction k as [|y k IH]; intros [|x l]; simpl; try done. intros [_ H]. by f_equal; apply IH. Qed.

Lemma sum_counts_Forall l n : (sum_counts l <= n)%nat → Forall (λ t, (count_of t <= n)%nat) l.
Proof.
  induction l as [|t l IH]; simpl; [done|]. unfold sum_counts in *. intros H. constructor; [lia|]. apply IH. lia.
Qed.

Lemma sum_member_counts_Forall l n : (sum_member_counts l <= n)%nat → Forall (λ m, (count_of m.2 <= n)%nat) l.
Proof.
  induction l as [|t l IH]; simpl; [done|]. unfold sum_member_counts in *. intros H. constructor; [lia|]. apply IH. lia.
Qed.

Lemma length_sum_counts l : (length l <= sum_counts l)%nat.
Proof. induction l as [|t l IH]; simpl; [done|]. pose proof (count_pos t). unfold sum_counts in *. lia. Qed.

(** A document whose size an [int] holds: each pointer finds the node of the subtree
    it names, and nothing else. *)
Lemma lookup_parts_agrees d names i t :
  Z.of_nat (count_of t) <= MaxInt64 →
  represents (d_raw d) (d_nodes d) i t →
  agrees (represents (d_raw d) (d_nodes d)) (lookup_parts d i (map esc names)) (reach t names).
Proof.
  set (P := λ e t', Z.of_nat (count_of t') <= MaxInt64 ∧ represents (d_raw d) (d_nodes d) e t').
  revert i t. induction names as [|name names IH]; intros i t HB R; [done|].
  cbn [map lookup_parts reach]. rewrite unescape_esc. cbn [mbind option_bind].
  destruct t as [|b|u|b|l|l]; destruct R as (n & Hn & Hk & Hv & H); unfold Value_Lookup, Value_Kind, node_at;
    rewrite Hn; simpl default; rewrite Hk; cbn [kind_of mbind option_bind]; try done.
  - destruct H as [_ H]. cbn [count_of] in HB. fold (sum_counts l) in HB. rewrite array_index_named
      by (rewrite (all2_length _ _ _ H); pose proof (length_sum_counts l); lia).
    apply (agrees_bind P); [apply nth_named_agrees|intros e t' [L R']; by apply (IH e t' L R')].
    revert H. apply all2_mono. eapply Forall_impl; [by apply (sum_counts_Forall l (sum_counts l))|].
    simpl. intros t' L e [_ R']. split; [lia|done].
  - destruct H as [_ H]. cbn [count_of] in HB. fold (sum_member_counts l) in HB.
    apply (agrees_bind P); [apply find_member_agrees|intros e t' [L R']; by apply (IH e t' L R')].
    revert H. apply all2_mono. eapply Forall_impl; [by apply (sum_member_counts_Forall l (sum_member_counts l))|].
    simpl. intros t' L e (E & _ & R'). split; [done|]. split; [lia|done].
Qed.

(** C19. Reading a document [ParseJSON] returned, whose node limit is an [int]: the
    pointer made of any names, with [Pointer], finds a value exactly when the tree
    has one there, going down an object by decoded member name and an array by the
    decimal of an index, with no other spelling of it; the value found has the kind
    of that subtree and its source text; and a string's text is its decoded body, so
    the decoder never indexes past it. *)
Theorem pointer_lookup (data : text) (limits : Limits) (d : document) :
  ParseJSON data limits = ok d → MaxNodes limits <= MaxInt64 →
  ∃ t, admissible (effective limits) t data ∧
    ∀ names,
      match reach t names with
      | None => Document_Lookup d (pointer_of names) = None
      | Some t' => ∃ i, Document_Lookup d (pointer_of names) = Some i ∧
          Value_Kind d i = kind_of t' ∧ Val t' (Value_Raw d i) ∧
          ∀ b, t' = JString b → ∃ s, decode b = Some s ∧ Value_text d i = Some (s, true)
      end.
Proof.
  intros E HM. destruct (ParseJSON_outcome data limits) as (o & Eo & H). rewrite E in Eo. injection Eo as <-.
  destruct H as (Hr & t & A & R & _). exists t. split; [done|]. intros names.
  assert (HB : Z.of_nat (count_of t) <= MaxInt64).
  { destruct A as (_ & _ & _ & _ & HN). revert HN. unfold effective. simpl. case_match; [|lia].
    intros HN. transitivity (Z.shiftl 1 16); [done|]. by vm_compute. }
  rewrite <- Hr in R. pose proof (lookup_parts_agrees d names 0 t HB R) as G.
  rewrite Document_Lookup_pointer. destruct (reach t names) as [t'|], (lookup_parts d 0 (map esc names)) as [i|];
    try done. exists i. split; [done|]. unfold Value_Kind, Value_Raw, node_at.
  pose proof G as G'. destruct t'; destruct G as (n & Hn & Hk & Hv & _); rewrite Hn; simpl; split_and!; try done.
  intros b [= ->]. by apply Value_text_string.
Qed.

(** An object with an array under an escaped name: the pointer /a~1b/1 finds the
    string there, and /a~1b/01 nothing. *)
Lemma pointer_lookup_witness :
  let data := txt "{'a/b':[7,'x\u00e9']}" in
  let data := map (λ c, if Ascii.eqb c "'" then "034"%char else c) data in
  ∃ d, ParseJSON data (mkLimits 0 0 0) = ok d ∧
    Document_Lookup d (pointer_of [txt "a/b"; txt "1"]) = Some 3%nat ∧
    ∃ t, admissible (effective (mkLimits 0 0 0)) t data ∧
      reach t [txt "a/b"; txt "01"] = None ∧ is_Some (reach t [txt "a/b"; txt "1"]).
Proof.
  intros data0 data. eexists. split; [vm_compute; reflexivity|]. split; [vm_compute; reflexivity|].
  edestruct (pointer_lookup data (mkLimits 0 0 0)) as (t & A & H); [vm_compute; reflexivity|done|].
  exists t. split; [exact A|].
  pose proof (H [txt "a/b"; txt "01"]) as H1. specialize (H [txt "a/b"; txt "1"]). split.
  - revert H1. destruct (reach t [txt "a/b"; txt "01"]) as [t'|]; [|done]. intros (i & E & _). by vm_compute in E.
  - revert H. destruct (reach t [txt "a/b"; txt "1"]) as [t'|]; [done|]. intros H. by vm_compute in H.
Defined.
