(* ===== verification/Sse.v ===== *)
(** * Server-sent events: the decoder and the encoder

    [internal/protocols/sse]: [lines], the splitter that counts the wire bytes of an
    event, [bufio.Scanner] as it drives it over a reader that delivers a stream in
    pieces of any size, the decoder's [NextFrame] and [Next], the raw decoder, and
    [Frame.Encode]. The scanner's buffer is kept as its bytes between [start] and
    [end] with [start] and the buffer's length. The scanner's guards against a
    splitter that advances past its input, and against empty tokens at the end of the
    input, do not apply to [lines], which advances past each token it returns and
    never past its input. *)

From S2P Require Import Prelude Go Amount Source SourceParser.
From Stdlib Require Import Ascii.
Local Open Scope Z_scope.

(** ** Readers *)

Inductive error :=
  | EOF | ErrTooLong | ErrNoProgress | ErrEventTooLarge | ErrInvalidUTF8 | ErrLimit | ErrOther (what : string).

#[export] Instance error_eq_dec : EqDecision error.
Proof. solve_decision. Defined.

(** What the reads of a stream return, the error of the last with its bytes; after
    them the stream is at its end. *)
Definition reader : Type := list (text * option error).

(** One [Read] into [room] bytes; bytes that do not fit stay for the next. *)
Definition Read (room : nat) (r : reader) : text * option error * reader :=
  match r with
  | [] => ([], Some EOF, [])
  | (b, e) :: r' =>
      if (length b <=? room)%nat then (b, e, r') else (take room b, None, (drop room b, e) :: r')
  end.

(** ** The splitter *)

Record splitter := mkSplitter { size : Z; first : bool; skipLF : bool; provisionalLF : bool }.

Definition newSplitter : splitter := mkSplitter 0 true false false.

Inductive split_result := Advance (n : nat) (token : option text) | TooLarge.

Definition CR : ascii := "013".
Definition LF : ascii := "010".
Definition is_break (c : ascii) : bool := Ascii.eqb c CR || Ascii.eqb c LF.
Definition bom : text := ["239"; "187"; "191"]%char.

(** [bytes.HasPrefix(s, p)] *)
Fixpoint has_prefix (p s : text) : bool :=
  match p, s with
  | [], _ => true
  | c :: p', d :: s' => Ascii.eqb c d && has_prefix p' s'
  | _ :: _, [] => false
  end.

(** The line feed a carriage return at the end of the last call left open. *)
Definition skip_open (st : splitter) (data : text) : splitter * nat :=
  if skipLF st then
    match data with
    | c :: _ =>
        if Ascii.eqb c LF then (mkSplitter (size st) (first st) false false, 1%nat)
        else (mkSplitter (if provisionalLF st then size st - 1 else size st) (first st) false false, 0%nat)
    | [] => (mkSplitter (if provisionalLF st then size st - 1 else size st) (first st) false false, 0%nat)
    end
  else (st, 0%nat).

(** The search for a line end and the accounting, after the byte order mark. *)
Definition split_line (max : Z) (st : splitter) (advance : nat) (data : text) (eof : bool)
  : splitter * split_result :=
  match IndexFunc is_break data with
  | Some i =>
      let n := S i in
      let cr := bool_decide (data !! i = Some CR) in
      let trailingCR := cr && (n =? length data)%nat && negb eof in
      let n := if cr && bool_decide (data !! n = Some LF) then S n else n in
      if Z.of_nat n >? max - size st then (st, TooLarge)
      else if trailingCR && (Z.of_nat n =? max - size st) then (st, Advance advance None)
      else
        let st := if trailingCR
                  then mkSplitter (size st + 1) (first st) true (negb (i =? 0)%nat) else st in
        let st := mkSplitter (if (i =? 0)%nat then 0 else size st + Z.of_nat n)
                    (first st) (skipLF st) (provisionalLF st) in
        (st, Advance (advance + n) (Some (take i data)))
  | None =>
      if Z.of_nat (length data) >? max - size st then (st, TooLarge)
      else if eof && negb (length data =? 0)%nat
      then (st, Advance (advance + length data) (Some data))
      else (st, Advance advance None)
  end.

Definition lines (max : Z) (st : splitter) (data : text) (eof : bool) : splitter * split_result :=
  if skipLF st && (length data =? 0)%nat && negb eof then (st, Advance 0 None)
  else
    let '(st, advance) := skip_open st data in
    let data := drop advance data in
    if first st then
      if negb eof && (length data <? length bom)%nat && has_prefix data bom then (st, Advance advance None)
      else
        let '(data, advance) :=
          if has_prefix bom data then (drop (length bom) data, (advance + length bom)%nat)
          else (data, advance) in
        split_line max (mkSplitter (size st) false (skipLF st) (provisionalLF st)) advance data eof
    else split_line max st advance data eof.

(** ** The scanner *)

Record scanner := mkScanner {
  sc_cap : Z;          (* len(s.buf) *)
  sc_start : Z;
  sc_data : text;      (* s.buf[s.start:s.end] *)
  sc_err : option error;
  sc_split : splitter;
  sc_reader : reader;
  sc_wire : text;      (* the bytes the splitter advanced over, which a raw decoder keeps *)
}.

Definition sc_end (s : scanner) : Z := sc_start s + Z.of_nat (length (sc_data s)).

(** [setErr] keeps an error other than the end of the stream. *)
Definition setErr (old : option error) (e : error) : option error :=
  match old with None | Some EOF => Some e | Some e' => Some e' end.

(** [Scanner.Err] *)
Definition Err (s : scanner) : option error :=
  match sc_err s with Some EOF => None | e => e end.

(** The read loop: empty reads are repeated a hundred times. *)
Fixpoint read_more (empty : nat) (room : nat) (r : reader) : text * option error * reader :=
  match r with
  | ([], None) :: r' => if (100 <? S empty)%nat then ([], Some ErrNoProgress, r') else read_more (S empty) room r'
  | _ => Read room r
  end.

(** Shift the data to the front of the buffer, grow a full buffer, and read. *)
Definition fill (maxTokenSize : Z) (s : scanner) : scanner + scanner :=
  let start := if (0 <? sc_start s) && ((sc_end s =? sc_cap s) || (sc_start s >? sc_cap s / 2))
               then 0 else sc_start s in
  let end_ := start + Z.of_nat (length (sc_data s)) in
  let grown :=
    if end_ =? sc_cap s then
      if (sc_cap s >=? maxTokenSize) || (sc_cap s >? MaxInt64 / 2) then None
      else Some (0, Z.min (if sc_cap s =? 0 then 4096 else sc_cap s * 2) maxTokenSize)
    else Some (start, sc_cap s) in
  match grown with
  | None => inl (mkScanner (sc_cap s) start (sc_data s) (setErr (sc_err s) ErrTooLong) (sc_split s)
              (sc_reader s) (sc_wire s))
  | Some (start, cap) =>
      let room := Z.to_nat (cap - (start + Z.of_nat (length (sc_data s)))) in
      let '(b, e, r) := read_more 0 room (sc_reader s) in
      inr (mkScanner cap start (sc_data s ++ b)
             (match e with Some e => setErr (sc_err s) e | None => sc_err s end) (sc_split s) r (sc_wire s))
  end.

(** [Scanner.Scan]: the next token, [None] at the end; the outer [None] is a model out
    of fuel. *)
Fixpoint Scan (max : Z) (fuel : nat) (s : scanner) : option (scanner * option text) :=
  match fuel with
  | O => None
  | S fuel' =>
      let eof := bool_decide (sc_err s ≠ None) in
      let more (s : scanner) :=
        if eof then Some (mkScanner (sc_cap s) 0 [] (sc_err s) (sc_split s) (sc_reader s) (sc_wire s), None)
        else match fill (wrap64 (max + 4)) s with
             | inl s => Some (s, None)
             | inr s => Scan max fuel' s
             end in
      if (0 <? length (sc_data s))%nat || eof then
        match lines max (sc_split s) (sc_data s) eof with
        | (st, TooLarge) =>
            Some (mkScanner (sc_cap s) (sc_start s) (sc_data s) (setErr (sc_err s) ErrEventTooLarge) st
                    (sc_reader s) (sc_wire s), None)
        | (st, Advance n token) =>
            let s := mkScanner (sc_cap s) (sc_start s + Z.of_nat n) (drop n (sc_data s)) (sc_err s) st (sc_reader s)
                       (sc_wire s ++ take n (sc_data s)) in
            match token with Some t => Some (s, Some t) | None => more s end
        end
      else more s
  end.

(** Every iteration but the last reads a byte or the end of the stream. *)
Definition unread (s : scanner) : nat :=
  (length (sc_data s) + foldr (λ p n, length p.1 + n) 0 (sc_reader s))%nat.
Definition scan_fuel (s : scanner) : nat := S (S (unread s)).

Definition newScanner (max : Z) (r : reader) : scanner :=
  mkScanner (Z.min 4096 (wrap64 (max + 4))) 0 [] None newSplitter r [].

(** ** Frames *)

Record Frame := mkFrame {
  Event : option text; Data : text; ID : option text; RetryMS : option Z; Control : bool;
}.

(** The fields of the frame being read. *)
Record fields := mkFields { f_event : option text; f_id : option text; f_retry : option Z; f_data : list text }.

Definition noFields : fields := mkFields None None None [].

(** [strings.Join(data, "\n")] *)
Fixpoint join (ls : list text) : text :=
  match ls with
  | [] => []
  | [l] => l
  | l :: ls' => l ++ LF :: join ls'
  end.

(** [strings.Split(s, "\n")] *)
Fixpoint split_lines (s : text) : list text :=
  match s with
  | [] => [[]]
  | c :: s' =>
      if Ascii.eqb c LF then [] :: split_lines s'
      else match split_lines s' with
           | l :: ls => (c :: l) :: ls
           | [] => [[c]]
           end
  end.

(** [strings.Cut(line, ":")] *)
Fixpoint cut_colon (s : text) : text * text :=
  match s with
  | [] => ([], [])
  | c :: s' => if Ascii.eqb c ":" then ([], s') else let '(a, b) := cut_colon s' in (c :: a, b)
  end.

Definition trim_space_prefix (v : text) : text :=
  match v with c :: v' => if Ascii.eqb c " " then v' else v | [] => [] end.

Definition decimal (v : text) : Z := foldl (λ acc c, 10 * acc + (code c - 48)) 0 v.

(** The switch over a field's name. *)
Definition set_field (line : text) (f : fields) : fields :=
  let '(name, value) := cut_colon line in
  let value := trim_space_prefix value in
  if bool_decide (name = txt "data") then mkFields (f_event f) (f_id f) (f_retry f) (f_data f ++ [value])
  else if bool_decide (name = txt "event") then
    mkFields (if bool_decide (value = []) then None else Some value) (f_id f) (f_retry f) (f_data f)
  else if bool_decide (name = txt "id") then
    if existsb (Ascii.eqb "000") value then f else mkFields (f_event f) (Some value) (f_retry f) (f_data f)
  else if bool_decide (name = txt "retry") then
    if negb (bool_decide (value = [])) && forallb digit_byte value && (decimal value <? 2 ^ 64)
    then mkFields (f_event f) (f_id f) (Some (decimal value)) (f_data f) else f
  else f.

(** A frame to return: some field was set. *)
Definition sets_fields (f : fields) : bool :=
  negb (length (f_data f) =? 0)%nat || bool_decide (f_event f ≠ None) || bool_decide (f_id f ≠ None) ||
  bool_decide (f_retry f ≠ None).

Definition frame_of (f : fields) : Frame :=
  mkFrame (f_event f) (join (f_data f)) (f_id f) (f_retry f) (length (f_data f) =? 0)%nat.

(** ** The decoder *)

(** [d_comments] are the comment lines [OnComment] has received. *)
Record Decoder := mkDecoder {
  d_scanner : scanner; d_id : option text; d_err : option error; d_comments : list text;
}.

Definition NewDecoder (r : reader) (maxEventBytes : Z) : Decoder :=
  mkDecoder (newScanner maxEventBytes r) None
    (if maxEventBytes <? 1 then Some ErrLimit else None) [].

Section Decoding.
Context (max : Z) (OnComment : option (text → option error)).

Definition with_err (d : Decoder) (e : error) : Decoder :=
  mkDecoder (d_scanner d) (d_id d) (Some e) (d_comments d).

(** What a line that is not blank does: the new fields, the last identifier and the
    comments received, or the error of [OnComment]. *)
Definition read_line (line : text) (f : fields) (id : option text) (comments : list text)
  : option text * list text * (error + fields) :=
  match line with
  | c :: _ =>
      if Ascii.eqb c ":" then
        match OnComment with
        | None => (id, comments, inr f)
        | Some on => (id, comments ++ [line], match on line with Some e => inl e | None => inr f end)
        end
      else
        let f' := set_field line f in
        let sets_id := bool_decide ((cut_colon line).1 = txt "id") &&
                       negb (existsb (Ascii.eqb "000") (trim_space_prefix (cut_colon line).2)) in
        (if sets_id then f_id f' else id, comments, inr f')
  | [] => (id, comments, inr f)
  end.

Fixpoint next_frame (fuel : nat) (f : fields) (d : Decoder) : option (Decoder * (error + Frame)) :=
  match fuel with
  | O => None
  | S fuel' =>
      match Scan max (scan_fuel (d_scanner d)) (d_scanner d) with
      | None => None
      | Some (s, None) =>
          let e := default EOF (Err s) in
          Some (mkDecoder s (d_id d) (Some e) (d_comments d), inl e)
      | Some (s, Some line) =>
          let d := mkDecoder s (d_id d) (d_err d) (d_comments d) in
          if negb (utf8_Valid line) then Some (with_err d ErrInvalidUTF8, inl ErrInvalidUTF8)
          else if bool_decide (line = []) then
            if sets_fields f then Some (d, inr (frame_of f)) else next_frame fuel' noFields d
          else match read_line line f (d_id d) (d_comments d) with
               | (id, comments, inl e) => Some (mkDecoder s id (Some e) comments, inl e)
               | (id, comments, inr f) => next_frame fuel' f (mkDecoder s id (d_err d) comments)
               end
      end
  end.

Definition NextFrame (d : Decoder) : option (Decoder * (error + Frame)) :=
  match d_err d with
  | Some e => Some (d, inl e)
  | None => next_frame (S (unread (d_scanner d))) noFields d
  end.

Fixpoint next_event (fuel : nat) (d : Decoder) : option (Decoder * (error + Frame)) :=
  match fuel with
  | O => None
  | S fuel' =>
      match NextFrame d with
      | None => None
      | Some (d, inl e) => Some (d, inl e)
      | Some (d, inr f) =>
          if negb (Control f)
          then Some (d, inr (mkFrame (Event f) (Data f) (d_id d) (RetryMS f) (Control f)))
          else next_event fuel' d
      end
  end.

Definition Next (d : Decoder) : option (Decoder * (error + Frame)) := next_event (S (unread (d_scanner d))) d.

(** The frames a decoder returns until its error. *)
Fixpoint frames (step : Decoder → option (Decoder * (error + Frame))) (fuel : nat) (d : Decoder)
  : option (list Frame * error * Decoder) :=
  match fuel with
  | O => None
  | S fuel' =>
      match step d with
      | None => None
      | Some (d, inl e) => Some ([], e, d)
      | Some (d, inr f) =>
          match frames step fuel' d with Some (fs, e, d) => Some (f :: fs, e, d) | None => None end
      end
  end.

(** [Decode] without [OnComment]: the frames given to [emit], and the error returned. *)
Fixpoint decode_loop (emit : Frame → option error) (fuel : nat) (d : Decoder)
  : option (list Frame * option error) :=
  match fuel with
  | O => None
  | S fuel' =>
      match Next d with
      | None => None
      | Some (d, inl e) => Some ([], if decide (e = EOF) then None else Some e)
      | Some (d, inr f) =>
          match emit f with
          | Some e => Some ([f], Some e)
          | None =>
              match decode_loop emit fuel' d with Some (fs, e) => Some (f :: fs, e) | None => None end
          end
      end
  end.
End Decoding.

(** A frame takes a byte of the stream. *)
Definition frames_fuel (d : Decoder) : nat := S (unread (d_scanner d)).

Definition Decode (r : reader) (maxEventBytes : Z) (emit : Frame → option error)
  : option (list Frame * option error) :=
  let d := NewDecoder r maxEventBytes in decode_loop maxEventBytes None emit (frames_fuel d) d.

(** ** The raw decoder *)

Record dataRange := mkRange { r_start : Z; r_end : Z; r_wireStart : Z }.

Record RawFrame := mkRawFrame { Bytes : text; RawData : text; HasData : bool; ranges : list dataRange }.

(** [bytes.LastIndex] *)
Definition LastIndex (s sub : text) : Z :=
  match List.find (λ i, bool_decide (take (length sub) (drop i s) = sub)) (rev (seq 0 (S (length s - length sub)))) with
  | Some i => Z.of_nat i
  | None => -1
  end.

(** [s[a:b]], [None] for a slice out of range. *)
Definition slice_of (s : text) (a b : Z) : option text :=
  if (0 <=? a) && (a <=? b) && (b <=? Z.of_nat (length s))
  then Some (take (Z.to_nat (b - a)) (drop (Z.to_nat a) s)) else None.

(** [None] is a slice out of range, [Some None] the error of a replacement that
    crosses data lines. *)
Definition ReplaceData (f : RawFrame) (start end_ : Z) (replacement : text) : option (option text) :=
  match List.find (λ part, (start >=? r_start part) && (end_ <=? r_end part)) (ranges f) with
  | None => Some None
  | Some part =>
      if start >? end_ then Some None
      else
        let wireStart := r_wireStart part + start - r_start part in
        let wireEnd := r_wireStart part + end_ - r_start part in
        match slice_of (Bytes f) 0 wireStart, slice_of (Bytes f) wireEnd (Z.of_nat (length (Bytes f))) with
        | Some a, Some b => Some (Some (a ++ replacement ++ b))
        | _, _ => None
        end
  end.

(** The wire bytes kept are the scanner's [sc_wire]. *)
Record RawDecoder := mkRawDecoder { rd_scanner : scanner; rd_data : text; rd_ranges : list dataRange }.

Definition NewRawDecoder (r : reader) (limit : Z) : RawDecoder :=
  mkRawDecoder (newScanner (Z.max 1 limit) r) [] [].

Definition keep_wire (s : scanner) (w : text) : scanner :=
  mkScanner (sc_cap s) (sc_start s) (sc_data s) (sc_err s) (sc_split s) (sc_reader s) w.

Definition take_frame (d : RawDecoder) (hasData : bool) : RawDecoder * RawFrame :=
  (mkRawDecoder (keep_wire (rd_scanner d) []) [] [],
   mkRawFrame (sc_wire (rd_scanner d)) (rd_data d) hasData (rd_ranges d)).

(** A data line: its content joins the data, with where it lies in the wire bytes. *)
Definition add_data (d : RawDecoder) (line value : text) : RawDecoder :=
  let content := trim_space_prefix value in
  let data := if (0 <? length (rd_ranges d))%nat then rd_data d ++ [LF] else rd_data d in
  let wireStart := LastIndex (sc_wire (rd_scanner d)) line + Z.of_nat (length line) - Z.of_nat (length content) in
  mkRawDecoder (rd_scanner d) (data ++ content)
    (rd_ranges d ++ [mkRange (Z.of_nat (length data)) (Z.of_nat (length (data ++ content))) wireStart]).

Fixpoint raw_next (max : Z) (fuel : nat) (d : RawDecoder) : option (RawDecoder * (error + RawFrame)) :=
  match fuel with
  | O => None
  | S fuel' =>
      match Scan max (scan_fuel (rd_scanner d)) (rd_scanner d) with
      | None => None
      | Some (s, None) =>
          let d := mkRawDecoder s (rd_data d) (rd_ranges d) in
          match Err s with
          | Some e => Some (d, inl e)
          | None =>
              if (0 <? length (sc_wire s))%nat
              then let '(d, f) := take_frame d false in Some (d, inr f) else Some (d, inl EOF)
          end
      | Some (s, Some line) =>
          let d := mkRawDecoder s (rd_data d) (rd_ranges d) in
          if negb (utf8_Valid line) then Some (d, inl ErrInvalidUTF8)
          else if (length line =? 0)%nat
          then let '(d, f) := take_frame d (0 <? length (rd_ranges d))%nat in Some (d, inr f)
          else
            let '(name, value) := cut_colon line in
            if negb (bool_decide (name = txt "data")) then
              if (length (rd_ranges d) =? 0)%nat
              then let '(d, f) := take_frame d false in Some (d, inr f)
              else raw_next max fuel' d
            else raw_next max fuel' (add_data d line value)
      end
  end.

Definition RawNext (limit : Z) (d : RawDecoder) : option (RawDecoder * (error + RawFrame)) :=
  raw_next (Z.max 1 limit) (S (unread (rd_scanner d))) d.

(** The frames a raw decoder returns until its error. *)
Fixpoint raw_frames (limit : Z) (fuel : nat) (d : RawDecoder) : option (list RawFrame * error) :=
  match fuel with
  | O => None
  | S fuel' =>
      match RawNext limit d with
      | None => None
      | Some (_, inl e) => Some ([], e)
      | Some (d, inr f) =>
          match raw_frames limit fuel' d with Some (fs, e) => Some (f :: fs, e) | None => None end
      end
  end.

(** ** The encoder *)

Definition field (name value : text) : text :=
  name ++ (match value with
           | [] => []
           | c :: _ => ":"%char :: (if Ascii.eqb c " " then " "%char :: value else value)
           end) ++ [LF].

Definition Encode (f : Frame) : text :=
  (match Event f with Some e => field (txt "event") e | None => [] end) ++
  (match ID f with Some i => field (txt "id") i | None => [] end) ++
  (match RetryMS f with Some n => field (txt "retry") (txt (big_String n)) | None => [] end) ++
  (if Control f then [] else flat_map (field (txt "data")) (split_lines (Data f))) ++ [LF].
