(* ===== verification/SseFacts.v ===== *)
(** * Server-sent events: the lines of a stream

    What the scanner returns does not depend on how the reader cuts the stream into
    pieces: it is the lines of the whole stream, counted against the limit from one
    blank line to the next. *)

From S2P Require Import Prelude Go Amount Source SourceParser Sse.
From Stdlib Require Import Ascii.
Local Open Scope Z_scope.

(** ** Reference *)

(** The first line, the length of its end and the rest. *)
Fixpoint cut_line (s : text) : option (text * nat * text) :=
  match s with
  | [] => None
  | c :: s' =>
      if Ascii.eqb c LF then Some ([], 1%nat, s')
      else if Ascii.eqb c CR then
        match s' with
        | d :: s'' => if Ascii.eqb d LF then Some ([], 2%nat, s'') else Some ([], 1%nat, s')
        | [] => Some ([], 1%nat, [])
        end
      else match cut_line s' with
           | Some (l, k, r) => Some (c :: l, k, r)
           | None => None
           end
  end.

(** The lines of a stream and how it ends: an event's wire bytes, line ends included,
    stay within [max]. *)
Fixpoint stream_lines (max : Z) (fuel : nat) (size : Z) (s : text) : list text * error :=
  match fuel with
  | O => ([], EOF)
  | S fuel' =>
      match cut_line s with
      | None =>
          if Z.of_nat (length s) >? max - size then ([], ErrEventTooLarge)
          else (match s with [] => [] | _ => [s] end, EOF)
      | Some (l, k, r) =>
          let n := Z.of_nat (length l + k) in
          if n >? max - size then ([], ErrEventTooLarge)
          else
            let '(ls, e) := stream_lines max fuel' (match l with [] => 0 | _ => size + n end) r in
            (l :: ls, e)
      end
  end.

Definition lines_from (max size : Z) (s : text) : list text * error := stream_lines max (S (length s)) size s.

Definition strip_bom (s : text) : text := if has_prefix bom s then drop 3 s else s.

(** The whole stream, with or without a byte order mark. *)
Definition lines_of (max : Z) (s : text) : list text * error := lines_from max 0 (strip_bom s).

(** The bytes a reader delivers, if it ends well: no error but the end of the stream,
    and no more than a hundred empty reads in a row. *)
Fixpoint content (empty : nat) (r : reader) : option text :=
  match r with
  | [] => Some []
  | (b, Some EOF) :: _ => Some b
  | (_, Some _) :: _ => None
  | ([], None) :: r' => if (100 <? S empty)%nat then None else content (S empty) r'
  | (b, None) :: r' => app b <$> content 0 r'
  end.

(** ** Lines *)

Lemma cut_line_spec s l k r : cut_line s = Some (l, k, r) →
  (length s = length l + k + length r)%nat ∧ (1 <= k <= 2)%nat ∧ forallb (λ c, negb (is_break c)) l = true.
Proof.
  revert l k r. induction s as [|c s IH]; intros l k r; [done|]. cbn [cut_line].
  destruct (Ascii.eqb c LF) eqn:L; [intros [= <- <- <-]; simpl; lia|].
  destruct (Ascii.eqb c CR) eqn:C.
  - destruct s as [|d s]; [intros [= <- <- <-]; simpl; lia|].
    destruct (Ascii.eqb d LF); intros [= <- <- <-]; simpl; lia.
  - destruct (cut_line s) as [ [ [l' k'] r']|]; [|done]. intros [= <- <- <-].
    destruct (IH _ _ _ eq_refl) as (H1 & H2 & H3). split; [simpl; lia|]. split; [done|].
    cbn [forallb]. unfold is_break at 1. by rewrite L, C.
Qed.

Lemma stream_lines_fuel max f g size s :
  (length s < f)%nat → (length s < g)%nat → stream_lines max f size s = stream_lines max g size s.
Proof.
  revert g size s. induction f as [|f IH]; intros [|g] size s Hf Hg; try lia. cbn [stream_lines].
  destruct (cut_line s) as [ [ [l k] r]|] eqn:E; [|done].
  destruct (cut_line_spec _ _ _ _ E) as (H & K & _).
  case_match; [done|]. by rewrite (IH g) by lia.
Qed.

Lemma lines_from_eq max size s : lines_from max size s =
  match cut_line s with
  | None => if Z.of_nat (length s) >? max - size then ([], ErrEventTooLarge)
            else (match s with [] => [] | _ => [s] end, EOF)
  | Some (l, k, r) =>
      if Z.of_nat (length l + k) >? max - size then ([], ErrEventTooLarge)
      else let '(ls, e) := lines_from max (match l with [] => 0 | _ => size + Z.of_nat (length l + k) end) r in
           (l :: ls, e)
  end.
Proof.
  unfold lines_from at 1. cbn [stream_lines]. destruct (cut_line s) as [ [ [l k] r]|] eqn:E; [|done].
  destruct (cut_line_spec _ _ _ _ E) as (H & K & _). case_match; [done|].
  unfold lines_from. by rewrite (stream_lines_fuel max (length s) (S (length r))) by lia.
Qed.

(** Where [bytes.IndexAny] finds the end of the first line. *)
Lemma IndexFunc_cut data :
  match IndexFunc is_break data with
  | None => forallb (λ c, negb (is_break c)) data = true
  | Some i => ∃ c, data !! i = Some c ∧ is_break c = true ∧ forallb (λ c, negb (is_break c)) (take i data) = true
  end.
Proof.
  unfold IndexFunc. destruct (list_find is_break data) as [ [i c]|] eqn:E; cbn [fmap option_fmap option_map fst].
  - apply list_find_Some in E as (H1 & H2 & H3). exists c. split_and!; [done|by apply Is_true_true in H2|].
    apply forallb_forall. intros d Hd%list_elem_of_In%list_elem_of_lookup. destruct Hd as [j Hj].
    pose proof (lookup_lt_Some _ _ _ Hj) as L. rewrite length_take in L. rewrite lookup_take in Hj. case_decide; [|done].
    apply negb_true_iff. destruct (is_break d) eqn:B; [|done].
    exfalso. eapply H3; [done|lia|by rewrite B].
  - apply list_find_None in E. apply forallb_forall. intros d Hd%list_elem_of_In.
    rewrite Forall_forall in E. apply negb_true_iff. destruct (is_break d) eqn:B; [|done].
    exfalso. apply (E d Hd). by rewrite B.
Qed.

Lemma cut_line_app l s : forallb (λ c, negb (is_break c)) l = true →
  cut_line (l ++ s) = match cut_line s with Some (l', k, r) => Some (l ++ l', k, r) | None => None end.
Proof.
  induction l as [|c l IH]; [intros _; cbn [app]; by destruct (cut_line s) as [ [ [? ?] ?]|]|]. cbn [forallb].
  intros [H Hl]%andb_true_iff. unfold is_break in H. apply negb_true_iff, orb_false_iff in H as [H1 H2].
  cbn [app cut_line]. rewrite H1, H2, IH by done. by destruct (cut_line s) as [ [ [? ?] ?]|].
Qed.

(** ** One call of the splitter *)

Definition good (st : splitter) : Prop :=
  0 <= size st ∧ (provisionalLF st = true → skipLF st = true ∧ 1 <= size st).

(** What is left to count and to read, in a state between two calls. *)
Definition rest_of (max : Z) (st : splitter) (s : text) : list text * error :=
  let '(st', a) := skip_open st s in
  lines_from max (size st') (if first st' then strip_bom (drop a s) else drop a s).

Lemma rest_settled max st s :
  skipLF st = false → first st = false → rest_of max st s = lines_from max (size st) s.
Proof. intros H1 H2. unfold rest_of, skip_open. by rewrite H1, H2. Qed.

Definition cons_line (t : text) (p : list text * error) : list text * error := (t :: p.1, p.2).

(** The bytes of a line: before it, the line and its end. *)
Definition ends_line (w pre t : text) : Prop :=
  ∃ tl, w = pre ++ t ++ tl ∧ forallb is_break tl = true ∧ forallb (λ c, negb (is_break c)) t = true.

(** A result of the splitter, for [data] in the buffer and [more] behind it. *)
Definition splits (max : Z) (st : splitter) (data more : text) (eof : bool) (out : splitter * split_result) : Prop :=
  match out with
  | (_, TooLarge) => rest_of max st (data ++ more) = ([], ErrEventTooLarge)
  | (st', Advance n None) =>
      (n <= length data)%nat ∧ good st' ∧ rest_of max st' (drop n data ++ more) = rest_of max st (data ++ more) ∧
      Z.of_nat (length (drop n data)) < max + 4 ∧ (eof = true → rest_of max st (data ++ more) = ([], EOF) ∧ drop n data = [])
  | (st', Advance n (Some t)) =>
      (1 <= n <= length data)%nat ∧ good st' ∧
      rest_of max st (data ++ more) = cons_line t (rest_of max st' (drop n data ++ more)) ∧
      ∃ pre, ends_line (take n data) pre t
  end.

Lemma cut_line_None s : forallb (λ c, negb (is_break c)) s = true → cut_line s = None.
Proof. intros H. rewrite <- (app_nil_r s), cut_line_app by done. done. Qed.

Lemma lines_from_line max size l k r s : cut_line s = Some (l, k, r) →
  Z.of_nat (length l + k) <= max - size →
  lines_from max size s = cons_line l (lines_from max (match l with [] => 0 | _ => size + Z.of_nat (length l + k) end) r).
Proof.
  intros E H. rewrite lines_from_eq, E. destruct (Z.gtb_spec (Z.of_nat (length l + k)) (max - size)); [lia|].
  by destruct (lines_from _ _ _).
Qed.

Lemma lines_from_large max size l k r s : cut_line s = Some (l, k, r) →
  max - size < Z.of_nat (length l + k) → lines_from max size s = ([], ErrEventTooLarge).
Proof.
  intros E H. rewrite lines_from_eq, E. by destruct (Z.gtb_spec (Z.of_nat (length l + k)) (max - size)); [|lia].
Qed.

Lemma lines_from_partial max size data more :
  forallb (λ c, negb (is_break c)) data = true → max - size < Z.of_nat (length data) →
  lines_from max size (data ++ more) = ([], ErrEventTooLarge).
Proof.
  intros B H. rewrite lines_from_eq, cut_line_app by done.
  destruct (cut_line more) as [ [ [l k] r]|].
  - rewrite length_app. by destruct (Z.gtb_spec (Z.of_nat (length data + length l + k)) (max - size)); [|lia].
  - rewrite length_app. by destruct (Z.gtb_spec (Z.of_nat (length data + length more)) (max - size)); [|lia].
Qed.

(** The data of a call, split at its first line end. *)
Lemma data_cases data :
  forallb (λ c, negb (is_break c)) data = true ∧ IndexFunc is_break data = None ∨
  ∃ l c tl, data = l ++ c :: tl ∧ (c = LF ∨ c = CR) ∧ forallb (λ c, negb (is_break c)) l = true ∧
    IndexFunc is_break data = Some (length l).
Proof.
  pose proof (IndexFunc_cut data) as H. destruct (IndexFunc is_break data) as [i|]; [right|by left].
  destruct H as (c & Hi & Hc & Hl). exists (take i data), c, (drop (S i) data).
  pose proof (lookup_lt_Some _ _ _ Hi). split_and!.
  - by rewrite take_drop_middle.
  - unfold is_break in Hc. apply orb_true_iff in Hc as [Hc|Hc]; apply Ascii.eqb_eq in Hc; auto.
  - done.
  - rewrite length_take. f_equal. lia.
Qed.

(** The length of the line end at [c :: tl], and the rest. *)
Lemma cut_line_end l c tl : forallb (λ c, negb (is_break c)) l = true → c = LF ∨ c = CR →
  cut_line (l ++ c :: tl) =
    Some (l, if bool_decide (c = CR) && bool_decide (tl !! 0%nat = Some LF) then 2%nat else 1%nat,
          if bool_decide (c = CR) && bool_decide (tl !! 0%nat = Some LF) then drop 1 tl else tl).
Proof.
  intros Hl Hc. rewrite cut_line_app by done. destruct Hc as [-> | ->]; [by cbn; rewrite app_nil_r|].
  destruct tl as [|d tl]; [by cbn; rewrite app_nil_r|]. cbn [cut_line].
  change (Ascii.eqb CR LF) with false. change (Ascii.eqb CR CR) with true. cbv iota.
  change ((d :: tl) !! 0%nat) with (Some d). rewrite bool_decide_true by done. cbn [andb].
  destruct (Ascii.eqb d LF) eqn:N.
  - apply Ascii.eqb_eq in N as ->. rewrite bool_decide_true by done. by rewrite app_nil_r.
  - apply Ascii.eqb_neq in N. rewrite bool_decide_false by congruence. by rewrite app_nil_r.
Qed.

(** The splitter's search, in terms of the line found. *)
Lemma split_line_found max st adv l c tl eof :
  IndexFunc is_break (l ++ c :: tl) = Some (length l) →
  split_line max st adv (l ++ c :: tl) eof =
    let cr := bool_decide (c = CR) in
    let open := cr && (length tl =? 0)%nat && negb eof in
    let n := (length l + if cr && bool_decide (tl !! 0%nat = Some LF) then 2 else 1)%nat in
    if Z.of_nat n >? max - size st then (st, TooLarge)
    else if open && (Z.of_nat n =? max - size st) then (st, Advance adv None)
    else
      (mkSplitter (match l with [] => 0 | _ => (if open then size st + 1 else size st) + Z.of_nat n end) (first st)
         (if open then true else skipLF st) (if open then negb (length l =? 0)%nat else provisionalLF st),
       Advance (adv + n) (Some l)).
Proof.
  intros E. unfold split_line. rewrite E. cbv zeta.
  rewrite list_lookup_middle by done. replace ((l ++ c :: tl) !! S (length l)) with (tl !! 0%nat).
  2: { rewrite lookup_app_r by lia. by replace (S (length l) - length l)%nat with 1%nat by lia. }
  rewrite length_app, take_app_length. cbn [length].
  replace (S (length l) =? length l + S (length tl))%nat with (length tl =? 0)%nat
    by (destruct (Nat.eqb_spec (length tl) 0), (Nat.eqb_spec (S (length l)) (length l + S (length tl))); lia).
  replace (bool_decide (Some c = Some CR)) with (bool_decide (c = CR))
    by (apply bool_decide_ext; split; congruence).
  replace (if bool_decide (c = CR) && bool_decide (tl !! 0%nat = Some LF) then S (S (length l)) else S (length l))
    with (length l + (if bool_decide (c = CR) && bool_decide (tl !! 0%nat = Some LF) then 2 else 1))%nat
    by (case_match; lia).
  destruct (Z.gtb _ _); [done|]. destruct (bool_decide (c = CR) && _ && _) eqn:O; cbn [andb].
  - destruct (Z.eqb _ _); [done|]. by destruct l.
  - by destruct l.
Qed.

Definition settled (st : splitter) : Prop :=
  0 <= size st ∧ first st = false ∧ skipLF st = false ∧ provisionalLF st = false.

(** After a carriage return that ends the data, a line feed may still come. *)
Lemma open_line max size l more (first_ : bool) :
  first_ = false → Z.of_nat (length l + 1) < max - size → 0 <= size →
  forallb (λ c, negb (is_break c)) l = true →
  lines_from max size (l ++ CR :: more) =
    cons_line l (rest_of max (mkSplitter (match l with [] => 0 | _ => size + 1 + Z.of_nat (length l + 1) end)
                                first_ true (negb (length l =? 0)%nat)) more).
Proof.
  intros -> L S B. erewrite lines_from_line; [|apply cut_line_end; auto|repeat case_match; lia].
  f_equal. rewrite bool_decide_true by done. cbn [andb]. unfold rest_of, skip_open. cbn [skipLF].
  destruct more as [|d more].
  - rewrite bool_decide_false by done. destruct l; cbn [length Nat.eqb negb provisionalLF Sse.first Sse.size]; [done|].
    f_equal. lia.
  - change ((d :: more) !! 0%nat) with (Some d). destruct (Ascii.eqb d LF) eqn:E.
    + apply Ascii.eqb_eq in E as ->. rewrite bool_decide_true by done. cbn [Sse.first Sse.size].
      destruct l; [done|]. f_equal. lia.
    + apply Ascii.eqb_neq in E. rewrite bool_decide_false by congruence.
      destruct l; cbn [length Nat.eqb negb provisionalLF Sse.first Sse.size]; [done|]. f_equal. lia.
Qed.

(** The search meets its reference. *)
Lemma split_line_splits max st adv data more eof :
  settled st → (eof = true → more = []) →
  match split_line max st adv data eof with
  | (_, TooLarge) => lines_from max (size st) (data ++ more) = ([], ErrEventTooLarge)
  | (st', Advance n None) => n = adv ∧ st' = st ∧ Z.of_nat (length data) <= max - size st ∧ (eof = true → data = [])
  | (st', Advance n (Some t)) => ∃ k, n = (adv + k)%nat ∧ (1 <= k <= length data)%nat ∧ good st' ∧
      lines_from max (size st) (data ++ more) = cons_line t (rest_of max st' (drop k data ++ more)) ∧
      ends_line (take k data) [] t
  end.
Proof.
  intros (S0 & F & K & P) M. destruct (data_cases data) as [ [B I]|(l & c & tl & -> & Hc & B & I)].
  - unfold split_line. rewrite I. destruct (Z.gtb_spec (Z.of_nat (length data)) (max - size st)) as [H|H].
    { by apply lines_from_partial. }
    destruct eof; cbn [andb]; [|by split_and!].
    rewrite (M eq_refl), !app_nil_r. destruct data as [|c data]; [by split_and!|]. cbn [length Nat.eqb negb].
    exists (length (c :: data)). rewrite drop_all. split_and!; [done|simpl; lia|simpl; lia|split; [done|intros; congruence]| |].
    2: { exists []. rewrite take_ge, app_nil_r by done. by split_and!. }
    rewrite lines_from_eq, cut_line_None by done.
    destruct (Z.gtb_spec (Z.of_nat (length (c :: data))) (max - size st)); [lia|].
    rewrite rest_settled by done. cbn [app]. rewrite lines_from_eq. cbn [cut_line length].
    destruct (Z.gtb_spec (Z.of_nat 0) (max - size st)); [cbn [length] in *; lia|done].
  - rewrite split_line_found by done. cbv zeta. rewrite <- app_assoc. cbn [app].
    destruct (bool_decide (c = CR) && (length tl =? 0)%nat && negb eof) eqn:O.
    + apply andb_true_iff in O as [ [Oc Ot]%andb_true_iff Oe]. apply bool_decide_eq_true in Oc as ->.
      apply Nat.eqb_eq, length_zero_iff_nil in Ot as ->. apply negb_true_iff in Oe as ->. cbn [andb].
      rewrite (bool_decide_false ([] !! 0%nat = Some LF)) by done. rewrite andb_false_r.
      destruct (Z.gtb_spec (Z.of_nat (length l + 1)) (max - size st)) as [H|H].
      * eapply lines_from_large; [apply cut_line_end; auto|]. repeat case_match; lia.
      * destruct (Z.eqb_spec (Z.of_nat (length l + 1)) (max - size st)) as [H'|H'].
        { rewrite length_app. cbn [length]. split_and!; [done|done|lia|done]. }
        exists (length l + 1)%nat. rewrite length_app. cbn [length app].
        split_and!; [done|lia|lia|split; cbn [provisionalLF skipLF size]| | ].
        { destruct l; lia. }
        { destruct l; [done|]. intros _. split; [done|lia]. }
        2: { exists [CR]. rewrite take_ge by (rewrite length_app; simpl; lia). by split_and!. }
        rewrite drop_ge by (rewrite length_app; simpl; lia). apply open_line; [done|lia|done|done].
    + cbn [andb]. set (b := bool_decide (c = CR) && bool_decide (tl !! 0%nat = Some LF)).
      assert (Hcut : cut_line (l ++ c :: tl ++ more) =
        Some (l, if b then 2%nat else 1%nat, (if b then drop 1 tl else tl) ++ more)).
      { rewrite cut_line_end by done. unfold b. destruct tl as [|d tl]; [|by destruct (bool_decide (c = CR)); cbn; repeat case_match].
        cbn [length Nat.eqb andb app] in O |- *. rewrite andb_true_r in O. cbn [lookup list_lookup drop].
        rewrite (bool_decide_false (None = Some LF)), !andb_false_r by done.
        apply andb_false_iff in O as [O|O]; [by rewrite O|].
        apply negb_false_iff in O. rewrite (M O). cbn. by rewrite andb_false_r. }
      destruct (Z.gtb_spec (Z.of_nat (length l + if b then 2 else 1)) (max - size st)) as [H|H].
      { by eapply lines_from_large; [apply Hcut|]. }
      exists (length l + if b then 2 else 1)%nat. rewrite length_app. cbn [length].
      assert (Hb : b = true → ∃ tl', tl = LF :: tl').
      { unfold b. intros [_ Hb%bool_decide_eq_true]%andb_true_iff. destruct tl as [|d tl]; [done|].
        injection Hb as ->. by eexists. }
      split_and!; [done|by destruct b; lia| |split; cbn [provisionalLF size]; [destruct l; lia|by rewrite P]| |].
      { destruct b; [|lia]. destruct (Hb eq_refl) as [tl' ->]. simpl. lia. }
      2: { exists (take (if b then 2 else 1) (c :: tl)). rewrite take_app_add. split_and!; [done| |done].
           destruct b; [destruct (Hb eq_refl) as [tl' ->] |]; destruct Hc as [-> | ->]; done. }
      erewrite lines_from_line; [|apply Hcut|done]. f_equal. rewrite rest_settled by done. cbn [size].
      f_equal. f_equal. rewrite drop_app_ge by lia. replace (length l + (if b then 2 else 1) - length l)%nat with (if b then 2 else 1)%nat by lia.
      by destruct b.
Qed.

Lemma has_prefix_app p d m :
  (length p <= length d)%nat ∨ has_prefix d p = false ∨ m = [] → has_prefix p (d ++ m) = has_prefix p d.
Proof.
  intros [H|[H|H] ]; [| |by rewrite H, app_nil_r].
  - revert d H. induction p as [|c p IH]; intros [|e d] H; simpl in *; try done; [lia|]. by rewrite IH by lia.
  - revert d H. induction p as [|c p IH]; intros [|e d] H; simpl in *; try done.
    rewrite (Ascii.eqb_sym e c) in H. destruct (Ascii.eqb c e); [|done]. cbn [andb] in *. by apply IH.
Qed.

Lemma has_prefix_length p d : has_prefix p d = true → (length p <= length d)%nat.
Proof.
  revert d. induction p as [|c p IH]; intros [|e d]; simpl; try lia; try done.
  intros [_ H%IH]%andb_true_iff. lia.
Qed.

(** Skipping the open line feed decides the same with more behind the data. *)
Lemma skip_open_app st data more :
  good st → (skipLF st = true → data = [] → more = []) →
  ∃ st' a, skip_open st data = (st', a) ∧ skip_open st (data ++ more) = (st', a) ∧ (a <= length data)%nat ∧
    0 <= size st' ∧ skipLF st' = false ∧ provisionalLF st' = false ∧ first st' = first st.
Proof.
  intros [G0 G] H. unfold skip_open. destruct (skipLF st) eqn:K.
  - destruct data as [|c data].
    + rewrite (H eq_refl eq_refl). do 2 eexists. split_and!; try done. cbn [size]. case_match; [|done].
      destruct G; [done|lia].
    + cbn [app]. destruct (Ascii.eqb c LF); do 2 eexists; (split_and!; try done); cbn [size length]; try lia.
      case_match; [|done]. destruct G; [done|lia].
  - exists st, 0%nat. split_and!; try done; [lia|]. destruct (provisionalLF st); [|done]. by destruct G.
Qed.

Lemma split_line_finish max st st2 data more eof k :
  settled st2 → (k <= length data)%nat → (eof = true → more = []) →
  rest_of max st (data ++ more) = lines_from max (size st2) (drop k data ++ more) →
  splits max st data more eof (split_line max st2 k (drop k data) eof).
Proof.
  intros S2 L M R. pose proof S2 as (S0 & F & K & P).
  pose proof (split_line_splits max st2 k (drop k data) more eof S2 M) as H.
  destruct (split_line max st2 k (drop k data) eof) as [st' [n [t|]|] ]; cbn [splits]; [| |by rewrite R].
  - destruct H as (j & -> & [L1 L2] & G & H & tl & Ht & T1 & T2). rewrite length_drop in L2. split; [lia|].
    split; [done|]. split; [by rewrite R, H, drop_drop|]. exists (take k data), tl. split_and!; [|done|done].
    cbn [app] in Ht. rewrite <- Ht. rewrite <- (take_drop k data) at 1. rewrite take_app_add'; [done|].
    rewrite length_take. lia.
  - destruct H as (-> & -> & Hl & He). split; [done|]. split; [split; [done|by rewrite P]|].
    split; [by rewrite rest_settled by done|]. split; [lia|]. intros E. split; [|by apply He]. rewrite R, (He E), (M E).
    rewrite lines_from_eq. cbn [app cut_line length].
    destruct (Z.gtb_spec (Z.of_nat 0) (max - size st2)); [|done]. rewrite (He E) in Hl. simpl in Hl. lia.
Qed.

Lemma lines_splits max st data more eof :
  1 <= max → good st → (eof = true → more = []) → splits max st data more eof (lines max st data eof).
Proof.
  intros Hmax G M. unfold lines.
  destruct (skipLF st && (length data =? 0)%nat && negb eof) eqn:W.
  { apply andb_true_iff in W as [ [W1 W2]%andb_true_iff W3]. apply Nat.eqb_eq, length_zero_iff_nil in W2 as ->.
    apply negb_true_iff in W3 as ->. split_and!; [done|apply G..|done|simpl; lia|done]. }
  destruct (skip_open_app st data more G) as (st1 & a & E1 & E2 & La & S1 & K1 & P1 & F1).
  { intros K ->. destruct eof; [by apply M|]. by rewrite K in W. }
  rewrite E1. set (data' := drop a data).
  assert (R : rest_of max st (data ++ more) =
    lines_from max (size st1) (if first st1 then strip_bom (data' ++ more) else data' ++ more)).
  { unfold rest_of. by rewrite E2, drop_app_le by done. }
  assert (G1 : good st1) by (split; [done|by rewrite P1]).
  destruct (first st1) eqn:F.
  - destruct (negb eof && (length data' <? length bom)%nat && has_prefix data' bom) eqn:Wb.
    + apply andb_true_iff in Wb as [ [We Wl]%andb_true_iff Wp]. apply negb_true_iff in We as ->.
      apply Nat.ltb_lt in Wl. split_and!; [done|apply G1..| |fold data'; change (length bom) with 3%nat in Wl; lia|done].
      rewrite R. unfold rest_of, skip_open. by rewrite K1, F.
    + set (b := has_prefix bom data').
      assert (Hb : strip_bom (data' ++ more) = (if b then drop 3 data' else data') ++ more).
      { unfold strip_bom. rewrite has_prefix_app.
        - fold b. destruct b eqn:Eb; [|done]. apply has_prefix_length in Eb. by rewrite drop_app_le.
        - apply andb_false_iff in Wb as [ [We|Wl]%andb_false_iff|Wp]; [|left|by right; left].
          + right; right. apply M. by apply negb_false_iff.
          + by apply Nat.ltb_ge. }
      rewrite Hb in R. replace (if b then (drop (length bom) data', (a + length bom)%nat) else (data', a))
        with (drop (a + if b then 3 else 0) data, (a + if b then 3 else 0)%nat)
        by (unfold data'; destruct b; rewrite ?drop_drop, ?Nat.add_0_r; done).
      apply split_line_finish; [done| |done|].
      * destruct b eqn:Eb; [|lia]. apply has_prefix_length in Eb. unfold data' in Eb.
        rewrite length_drop in Eb. simpl in Eb. lia.
      * rewrite R. cbn [size]. f_equal. f_equal. unfold data'. destruct b; rewrite ?drop_drop, ?Nat.add_0_r; done.
  - apply split_line_finish; [done|done|done|]. by rewrite R.
Qed.

(** ** The scanner *)

Definition total (r : reader) : nat := foldr (λ p n, length p.1 + n)%nat 0%nat r.

(** What a read of a reader that ends well delivers. *)
Definition delivers (room : nat) (r : reader) (more : text) (out : text * option error * reader) : Prop :=
  let '(b, e, r') := out in
  (length b <= room)%nat ∧ (length b + total r' <= total r)%nat ∧
  (e = None ∧ b ≠ [] ∧ (∃ more', content 0 r' = Some more' ∧ more = b ++ more') ∨ e = Some EOF ∧ more = b).

Lemma content_err k b e r m : content k ((b, Some e) :: r) = Some m → e = EOF ∧ b = m.
Proof. by destruct b, e; intros [= ->]. Qed.

Lemma content_bytes k b r m : b ≠ [] → content k ((b, None) :: r) = Some m → ∃ m', content 0 r = Some m' ∧ m = b ++ m'.
Proof. destruct b; [done|]. intros _. cbn. destruct (content 0 r); [|done]. intros [= <-]. by eexists. Qed.

Lemma Read_delivers room r more k :
  (1 <= room)%nat → content k r = Some more → (∀ r', r ≠ ([], None) :: r') → delivers room r more (Read room r).
Proof.
  intros Hr C N. destruct r as [|[b e] r].
  { injection C as <-. split_and!; simpl; try lia. by right. }
  cbn [Read]. destruct (Nat.leb_spec (length b) room) as [L|L].
  - split; [done|]. split; [simpl; lia|]. destruct e as [e|].
    + right. by apply content_err in C as [-> ->].
    + left. assert (b ≠ []) by (intros ->; by destruct (N r)). split; [done|]. split; [done|].
      destruct (content_bytes _ _ _ _ H C) as (m & ? & ->). by exists m.
  - assert (Lt : length (take room b) = room) by (rewrite length_take; lia).
    assert (D : drop room b ≠ []) by (intros E%(f_equal length); rewrite length_drop in E; simpl in E; lia).
    split; [lia|]. split; [simpl; rewrite Lt, length_drop; lia|].
    left. split; [done|]. split; [intros E; rewrite E in Lt; simpl in Lt; lia|]. destruct e as [e|].
    + apply content_err in C as [-> ->]. exists (drop room more). rewrite take_drop. by destruct (drop room more).
    + apply content_bytes in C as (m & C & ->); [|by intros ->; rewrite drop_nil in D].
      exists (drop room b ++ m). rewrite app_assoc, take_drop. split; [|done].
      destruct (drop room b); [done|]. cbn. by rewrite C.
Qed.

Lemma read_more_delivers room r more k :
  (1 <= room)%nat → content k r = Some more → delivers room r more (read_more k room r).
Proof.
  intros Hr. revert k. induction r as [|[b e] r IH]; intros k C.
  - by apply (Read_delivers _ _ _ k).
  - destruct b as [|c b]; [destruct e as [e|]|].
    + apply (Read_delivers _ _ _ k); [done|done|]. by intros r' [=].
    + cbn [content read_more] in *. destruct (100 <? S k)%nat; [done|]. apply IH in C.
      unfold delivers in *. destruct (read_more (S k) room r) as [ [b' e'] r']. done.
    + replace (read_more k room ((c :: b, e) :: r)) with (Read room ((c :: b, e) :: r)) by (by destruct e).
      by apply (Read_delivers _ _ _ k).
Qed.

(** The buffer of a scanner: its data lie within it, and it grows up to the limit. *)
Definition buffered (max : Z) (s : scanner) : Prop :=
  good (sc_split s) ∧ 0 <= sc_start s ∧ sc_end s <= sc_cap s <= max + 4 ∧ 5 <= sc_cap s.

(** The lines a scanner has still to return, and how they end. *)
Definition holds (max : Z) (s : scanner) (out : list text * error) : Prop :=
  buffered max s ∧
  match sc_err s with
  | None => ∃ more, content 0 (sc_reader s) = Some more ∧ rest_of max (sc_split s) (sc_data s ++ more) = out
  | Some e => e = EOF ∧ rest_of max (sc_split s) (sc_data s) = out
  end.

(** The whole stream: what the splitter advanced over, what is buffered and what the
    reader still has. *)
Definition covers (s : scanner) (whole : text) : Prop :=
  match sc_err s with
  | None => ∃ more, content 0 (sc_reader s) = Some more ∧ sc_wire s ++ sc_data s ++ more = whole
  | Some _ => sc_wire s ++ sc_data s = whole
  end.

Lemma fill_holds max s out :
  1 <= max <= 2 ^ 62 - 4 → holds max s out → sc_err s = None → Z.of_nat (length (sc_data s)) < max + 4 →
  ∃ s', fill (wrap64 (max + 4)) s = inr s' ∧ holds max s' out ∧ (unread s' <= unread s)%nat ∧
    (sc_err s' = None → (total (sc_reader s') < total (sc_reader s))%nat) ∧
    sc_wire s' = sc_wire s ∧ (∀ whole, covers s whole → covers s' whole).
Proof.
  intros Hm [(G & S0 & [E1 E2] & C5) H] N L. rewrite N in H. destruct H as (more & C & R).
  unfold sc_end in *. rewrite wrap64_small by (unfold is_int64, MinInt64, MaxInt64; lia). unfold fill. cbv zeta.
  set (start := if _ : bool then 0 else sc_start s).
  assert (Hs : 0 <= start ∧ start + Z.of_nat (length (sc_data s)) <= sc_cap s).
  { unfold start. case_match; lia. }
  set (grown := if start + _ =? sc_cap s then _ else _).
  assert (Hg : ∃ start' cap', grown = Some (start', cap') ∧ 0 <= start' ∧ 5 <= cap' <= max + 4 ∧
    start' + Z.of_nat (length (sc_data s)) < cap').
  { unfold grown. destruct (Z.eqb_spec (start + Z.of_nat (length (sc_data s))) (sc_cap s)) as [F|F].
    - assert (start = 0).
      { unfold start, sc_end in *. repeat case_match; try done. bool_to_prop. lia. }
      assert (sc_cap s < max + 4) by lia.
      rewrite Z.geb_leb, (proj2 (Z.leb_gt _ _)) by lia. cbn [orb].
      destruct (Z.gtb_spec (sc_cap s) (MaxInt64 / 2)) as [B|B].
      { change (MaxInt64 / 2) with (2 ^ 62 - 1) in B. lia. }
      do 2 eexists. split; [done|]. rewrite (proj2 (Z.eqb_neq (sc_cap s) 0)) by lia. lia.
    - exists start, (sc_cap s). split_and!; [done|lia..]. }
  destruct Hg as (start' & cap' & -> & G1 & G2 & G3).
  pose proof (read_more_delivers (Z.to_nat (cap' - (start' + Z.of_nat (length (sc_data s))))) (sc_reader s) more 0
    ltac:(lia) C) as D.
  destruct (read_more 0 _ (sc_reader s)) as [ [b e] r]. destruct D as (D1 & D2 & D3).
  eexists. split; [done|]. unfold holds, buffered, unread, sc_end. cbn [sc_err sc_reader sc_data sc_split sc_start sc_cap].
  fold (total r) (total (sc_reader s)). rewrite length_app, N. split; [split; [split_and!; [apply G..|lia|lia|lia|lia]|]|].
  - destruct D3 as [(-> & Hb & more' & C' & ->)|(-> & ->)].
    + exists more'. by rewrite <- app_assoc.
    + done.
  - split; [lia|]. split; [destruct D3 as [(-> & Hb & _)|(-> & _)]; [|done]; intros _; destruct b; [done|]; simpl in D2; lia|].
    split; [done|]. intros whole. unfold covers. rewrite N. intros (m & Cm & Hw). rewrite C in Cm. injection Cm as <-.
    cbn. destruct D3 as [(-> & Hb & more' & C' & ->)|(-> & ->)]; [|done]. exists more'. by rewrite <- app_assoc.
Qed.

(** Where the data of a scanner end: behind them comes nothing, or what the reader has. *)
Lemma holds_more max s out : holds max s out →
  ∃ more, rest_of max (sc_split s) (sc_data s ++ more) = out ∧
    (bool_decide (sc_err s ≠ None) = true → more = []) ∧
    (sc_err s = None → content 0 (sc_reader s) = Some more) ∧ (sc_err s = None ∨ sc_err s = Some EOF).
Proof.
  intros [_ H]. destruct (sc_err s) as [e|].
  - destruct H as [-> H]. exists []. rewrite app_nil_r. split_and!; auto; done.
  - destruct H as (more & C & R). exists more. rewrite bool_decide_false by naive_solver. split_and!; auto; done.
Qed.

(** A token leaves the rest. *)
Lemma holds_advance max s st n more out :
  buffered max s → good st → (n <= length (sc_data s))%nat → rest_of max st (drop n (sc_data s) ++ more) = out →
  (bool_decide (sc_err s ≠ None) = true → more = []) → (sc_err s = None → content 0 (sc_reader s) = Some more) →
  (sc_err s = None ∨ sc_err s = Some EOF) →
  holds max (mkScanner (sc_cap s) (sc_start s + Z.of_nat n) (drop n (sc_data s)) (sc_err s) st (sc_reader s)
               (sc_wire s ++ take n (sc_data s))) out.
Proof.
  intros (G & S0 & [E1 E2] & C5) Gs Ln R M C E. unfold sc_end in *. split.
  - unfold buffered, sc_end. cbn. rewrite length_drop. split; [done|]. lia.
  - cbn. destruct E as [E|E]; rewrite E in *.
    + exists more. split; [by apply C|done].
    + split; [done|]. rewrite (M eq_refl), app_nil_r in R. done.
Qed.

(** What one [Scan] returns. *)
Definition scans (max : Z) (s : scanner) (out : list text * error) (r : option (scanner * option text)) : Prop :=
  match out with
  | (l :: ls, e) => ∃ s', r = Some (s', Some l) ∧ holds max s' (ls, e) ∧ (unread s' < unread s)%nat ∧
      (∀ whole, covers s whole → covers s' whole) ∧ ∃ x pre, sc_wire s' = sc_wire s ++ x ∧ ends_line x pre l
  | ([], e) => ∃ s', r = Some (s', None) ∧ default EOF (Err s') = e ∧
      (∀ whole, covers s whole → ∃ left, whole = sc_wire s' ++ left ∧ (Err s' = None →
        left = [] ∧ holds max s' ([], EOF) ∧ covers s' whole ∧ (unread s' <= unread s)%nat)) ∧
      ∃ x, sc_wire s' = sc_wire s ++ x
  end.

Lemma scans_weaken max s s' out r x : (unread s' <= unread s)%nat →
  (∀ whole, covers s whole → covers s' whole) → sc_wire s' = sc_wire s ++ x → scans max s' out r → scans max s out r.
Proof.
  unfold scans. destruct out as [ [|l ls] e]; intros L C W.
  - intros (s1 & ? & ? & H & y & Hy). exists s1. split_and!; [done|done| |].
    + intros whole Hw. destruct (H _ (C _ Hw)) as (left & ? & K). exists left. split; [done|]. intros E.
      destruct (K E) as (? & ? & ? & ?). split_and!; try done. lia.
    + exists (x ++ y). by rewrite Hy, W, app_assoc.
  - intros (s1 & ? & ? & ? & ? & y & pre & Hy & tl & -> & ? & ?). exists s1. split_and!; [done|done|lia|auto|].
    exists (x ++ pre ++ l ++ tl), (x ++ pre). rewrite Hy, W. split; [by rewrite <- !app_assoc|]. exists tl.
    by rewrite <- app_assoc.
Qed.

Lemma covers_advance s st n whole : (n <= length (sc_data s))%nat → covers s whole →
  covers (mkScanner (sc_cap s) (sc_start s + Z.of_nat n) (drop n (sc_data s)) (sc_err s) st (sc_reader s)
            (sc_wire s ++ take n (sc_data s))) whole.
Proof.
  intros L. unfold covers. cbn. destruct (sc_err s).
  - intros <-. by rewrite <- app_assoc, take_drop.
  - intros (more & C & <-). exists more. split; [done|].
    by rewrite <- app_assoc, (app_assoc (take _ _)), take_drop.
Qed.

(** At the end nothing more is held. *)
Lemma finished_scan max s st n : buffered max s → sc_err s = Some EOF → (n <= length (sc_data s))%nat → good st →
  drop n (sc_data s) = [] →
  let s' := mkScanner (sc_cap s) 0 [] (Some EOF) st (sc_reader s) (sc_wire s ++ take n (sc_data s)) in
  rest_of max st [] = ([], EOF) → holds max s' ([], EOF) ∧ (unread s' <= unread s)%nat.
Proof.
  intros (_ & S0 & [E1 E2] & C5) E L G D s' R. split.
  - split; [|done]. unfold buffered, sc_end. cbn. split; [done|]. lia.
  - unfold unread. cbn. lia.
Qed.

Lemma Scan_scans max fuel s out :
  1 <= max <= 2 ^ 62 - 4 → holds max s out →
  (match sc_err s with None => total (sc_reader s) + 2 | Some _ => 1 end <= fuel)%nat →
  scans max s out (Scan max fuel s).
Proof.
  intros Hm. revert s. induction fuel as [|fuel IH]; intros s H Hf; [destruct (sc_err s); lia|].
  assert (FILL : ∀ s1 x, sc_err s1 = None → sc_reader s1 = sc_reader s → sc_err s = None → holds max s1 out →
    (unread s1 <= unread s)%nat → Z.of_nat (length (sc_data s1)) < max + 4 →
    (∀ whole, covers s whole → covers s1 whole) → sc_wire s1 = sc_wire s ++ x →
    scans max s out (match fill (wrap64 (max + 4)) s1 with inl s => Some (s, None) | inr s => Scan max fuel s end)).
  { intros s1 x N1 Er N H1 U L Cv Wx. rewrite N in Hf.
    destruct (fill_holds max s1 out Hm H1 N1 L) as (s2 & -> & H2 & U2 & T & W2 & Cv2).
    apply (scans_weaken _ _ s2 _ _ x); [lia|auto|by rewrite W2|]. apply IH; [done|]. destruct (sc_err s2) eqn:E2; [lia|].
    specialize (T eq_refl). rewrite Er in T. lia. }
  pose proof H as [B _]. destruct (holds_more _ _ _ H) as (more & R & M & C & E). cbn [Scan]. cbv zeta.
  destruct ((0 <? length (sc_data s))%nat || bool_decide (sc_err s ≠ None)) eqn:Q.
  - pose proof (lines_splits max (sc_split s) (sc_data s) more (bool_decide (sc_err s ≠ None)) ltac:(lia)
      (proj1 B) M) as Hl.
    destruct (lines _ _ _ _) as [st [n [t|]|] ]; cbn [splits] in Hl.
    + destruct Hl as ([L1 L2] & G & Hl & pre & He). rewrite R in Hl. destruct (rest_of max st _) as [ls e] eqn:R'. rewrite Hl.
      eexists. split; [done|]. split; [by eapply holds_advance|]. split; [unfold unread; cbn; rewrite length_drop; lia|].
      split; [intros whole; by apply covers_advance|]. exists (take n (sc_data s)), pre. by split.
    + destruct Hl as (L & G & Hl & Lm & He). rewrite R in Hl, He.
      destruct (bool_decide (sc_err s ≠ None)) eqn:Ee.
      * destruct (He eq_refl) as [-> D]. destruct E as [E|E]; [by rewrite E in Ee|].
        rewrite D, (M eq_refl) in Hl. pose proof (finished_scan max s st n B E L G D) as FS. cbv zeta in FS.
        destruct FS as [F1 F2]; [exact Hl|].
        eexists. split; [done|]. unfold Err. cbn. rewrite E. split; [done|]. split; [|by eexists].
        intros whole Hw. exists []. apply (covers_advance s st n) in Hw; [|done]. unfold covers in *. cbn in *.
        rewrite E, D in *. split; [done|]. intros _. split; [done|]. split; [exact F1|]. by split.
      * apply bool_decide_eq_false in Ee. destruct E as [E|E]; [|by destruct Ee; rewrite E].
        eapply FILL; [done|done|done| | |done|intros whole; by apply covers_advance|done].
        -- apply (holds_advance max s st n more); try done; auto. by rewrite E.
        -- unfold unread. cbn. rewrite length_drop. lia.
    + rewrite R in Hl. rewrite Hl. eexists. split; [done|]. unfold Err. cbn. split; [by destruct E as [-> | ->]|].
      split; [|exists []; by rewrite app_nil_r]. intros whole Hw. unfold covers in Hw.
      destruct E as [E|E]; rewrite E in *; cbn.
      * destruct Hw as (m & _ & <-). by eexists.
      * subst whole. by eexists.
  - apply orb_false_iff in Q as [Q1 Q2]. rewrite Q2. apply bool_decide_eq_false in Q2.
    destruct E as [E|E]; [|by destruct Q2; rewrite E]. apply (FILL s []); try done; [apply Nat.ltb_ge in Q1; lia|].
    by rewrite app_nil_r.
Qed.

Lemma Scan_next max s out :
  1 <= max <= 2 ^ 62 - 4 → holds max s out → scans max s out (Scan max (scan_fuel s) s).
Proof.
  intros Hm H. apply Scan_scans; [done|done|]. unfold scan_fuel, unread. fold (total (sc_reader s)).
  destruct (sc_err s); lia.
Qed.

Lemma newScanner_holds max r s :
  1 <= max <= 2 ^ 62 - 4 → content 0 r = Some s → holds max (newScanner max r) (lines_of max s).
Proof.
  intros Hm C. unfold newScanner. rewrite wrap64_small by (unfold is_int64, MinInt64, MaxInt64; lia). split.
  - unfold buffered, sc_end. cbn -[Z.min]. split; [by split|]. lia.
  - exists s. split; [done|]. done.
Qed.
