(* ===== verification/SseFrames.v ===== *)
(** * Server-sent events: frames

    The decoder over any reader returns the frames that the lines of the stream spell,
    and encoding the frames it returned gives a stream that decodes to them within the
    same limit. *)

From S2P Require Import Prelude Go Amount Source SourceParser Sse SseFacts.
From Stdlib Require Import Ascii.
Local Open Scope Z_scope.

(** ** The frames of lines *)

Section Frames.
Context (OnComment : option (text → option error)).

(** Each frame with the last identifier the stream had set by then; how the stream
    ends; and the identifier and the comments at the end. *)
Fixpoint frames_of (f : fields) (id : option text) (comments : list text) (ls : list text) (e : error)
  : list (Frame * option text) * error * (option text * list text) :=
  match ls with
  | [] => ([], e, (id, comments))
  | line :: ls =>
      if negb (utf8_Valid line) then ([], ErrInvalidUTF8, (id, comments))
      else match line with
      | [] =>
          let '(fs, e, fin) := frames_of noFields id comments ls e in
          (if sets_fields f then (frame_of f, id) :: fs else fs, e, fin)
      | _ =>
          match read_line OnComment line f id comments with
          | (id, comments, inl e) => ([], e, (id, comments))
          | (id, comments, inr f) => frames_of f id comments ls e
          end
      end
  end.

Context (max : Z) (Hmax : 1 <= max <= 2 ^ 62 - 4).

Lemma next_frame_reads ls e f d fuel :
  holds max (d_scanner d) (ls, e) → d_err d = None → (unread (d_scanner d) < fuel)%nat →
  match frames_of f (d_id d) (d_comments d) ls e with
  | ([], e', (id, cs)) =>
      ∃ s, next_frame max OnComment fuel f d = Some (mkDecoder s id (Some e') cs, inl e')
  | (p :: fs, e', fin) => ∃ d' ls',
      next_frame max OnComment fuel f d = Some (d', inr p.1) ∧ p.2 = d_id d' ∧ d_err d' = None ∧
      holds max (d_scanner d') (ls', e) ∧ (unread (d_scanner d') < unread (d_scanner d))%nat ∧
      frames_of noFields (d_id d') (d_comments d') ls' e = (fs, e', fin)
  end.
Proof.
  revert f d fuel. induction ls as [|line ls IH]; intros f d [|fuel] H N L; try lia;
    pose proof (Scan_next max (d_scanner d) _ Hmax H) as S; cbn [scans] in S; cbn [frames_of next_frame].
  - destruct S as (s & -> & E & _). rewrite E. by eexists.
  - destruct S as (s & -> & H' & U & _). destruct (utf8_Valid line) eqn:V; cbn [negb]; [|by eexists].
    destruct line as [|c line].
    + rewrite bool_decide_true by done. destruct (sets_fields f) eqn:F.
      * destruct (frames_of _ _ _ _ _) as [ [fs e'] fin] eqn:E.
        do 2 eexists. by split_and!.
      * specialize (IH noFields (mkDecoder s (d_id d) (d_err d) (d_comments d)) fuel H' N). cbn in IH.
        destruct (frames_of _ _ _ _ _) as [ [ [|p fs] e'] [id cs] ] eqn:E; [by apply IH; lia|].
        destruct IH as (d' & ls' & ? & ? & ? & ? & ? & ?); [lia|]. exists d', ls'. split_and!; try done. lia.
    + rewrite bool_decide_false by done. cbn [d_id d_comments d_err].
      destruct (read_line _ _ _ _ _) as [ [id cs] [e'|f'] ]; [by eexists|].
      specialize (IH f' (mkDecoder s id (d_err d) cs) fuel H' N). cbn in IH.
      destruct (frames_of _ _ _ _ _) as [ [ [|p fs] e'] [id' cs'] ] eqn:E; [by apply IH; lia|].
      destruct IH as (d' & ls' & ? & ? & ? & ? & ? & ?); [lia|]. exists d', ls'. split_and!; try done. lia.
Qed.

(** A decoder between two frames, with the frames to come. *)
Definition yields (d : Decoder) (out : list (Frame * option text) * error * (option text * list text)) : Prop :=
  match d_err d with
  | None => ∃ ls e, holds max (d_scanner d) (ls, e) ∧ frames_of noFields (d_id d) (d_comments d) ls e = out
  | Some e => out = ([], e, (d_id d, d_comments d))
  end.

Lemma NextFrame_yields d out : yields d out →
  match out with
  | ([], e, (id, cs)) => ∃ d', NextFrame max OnComment d = Some (d', inl e) ∧
      d_id d' = id ∧ d_comments d' = cs ∧ d_err d' = Some e
  | (p :: fs, e, fin) => ∃ d', NextFrame max OnComment d = Some (d', inr p.1) ∧ p.2 = d_id d' ∧
      (unread (d_scanner d') < unread (d_scanner d))%nat ∧ yields d' (fs, e, fin)
  end.
Proof.
  unfold yields, NextFrame. destruct (d_err d) as [e|] eqn:N.
  - intros ->. by exists d.
  - intros (ls & e & H & <-). pose proof (next_frame_reads ls e noFields d _ H N (Nat.lt_succ_diag_r _)) as R.
    destruct (frames_of _ _ _ _ _) as [ [ [|p fs] e'] [id cs] ].
    + destruct R as (s & ->). by eexists.
    + destruct R as (d' & ls' & ? & ? & N' & ? & ? & ?). exists d'. rewrite N'. split_and!; try done. by exists ls', e.
Qed.

Lemma frames_yields d fs e fin fuel : yields d (fs, e, fin) → (unread (d_scanner d) < fuel)%nat →
  ∃ d', frames (NextFrame max OnComment) fuel d = Some (map fst fs, e, d') ∧ (d_id d', d_comments d') = fin.
Proof.
  revert d fuel. induction fs as [|p fs IH]; intros d [|fuel] Y L; try lia; apply NextFrame_yields in Y; cbn [frames].
  - destruct fin as [id cs]. destruct Y as (d' & -> & <- & <- & _). by exists d'.
  - destruct Y as (d' & -> & _ & U & Y). destruct (IH d' fuel Y) as (d2 & -> & F); [lia|]. by exists d2.
Qed.

(** ** Events *)

(** The frames that dispatch, with the last identifier. *)
Definition events_of (fs : list (Frame * option text)) : list Frame :=
  map (λ p, mkFrame (Event p.1) (Data p.1) p.2 (RetryMS p.1) (Control p.1)) (filter (λ p, Control p.1 = false) fs).

Lemma next_event_yields d fs e fin fuel : yields d (fs, e, fin) → (unread (d_scanner d) < fuel)%nat →
  match events_of fs with
  | [] => ∃ d', next_event max OnComment fuel d = Some (d', inl e) ∧ (d_id d', d_comments d') = fin ∧ d_err d' = Some e
  | ev :: evs => ∃ d' fs', next_event max OnComment fuel d = Some (d', inr ev) ∧
      (unread (d_scanner d') < unread (d_scanner d))%nat ∧ yields d' (fs', e, fin) ∧ events_of fs' = evs
  end.
Proof.
  revert d fuel. induction fs as [|p fs IH]; intros d [|fuel] Y L; try lia; apply NextFrame_yields in Y; cbn [next_event].
  - destruct fin as [id cs]. destruct Y as (d' & -> & <- & <- & ?). by exists d'.
  - destruct Y as (d' & -> & I & U & Y). unfold events_of. rewrite filter_cons. destruct (Control p.1) eqn:C.
    + rewrite decide_False by congruence. cbn [negb]. specialize (IH d' fuel Y ltac:(lia)). fold (events_of fs).
      destruct (events_of fs); [done|]. destruct IH as (d2 & fs' & ? & ? & ? & ?). exists d2, fs'. split_and!; try done. lia.
    + rewrite decide_True by done. cbn [negb map]. rewrite C, I. exists d', fs. by split_and!.
Qed.

Lemma events_yields d fs e fin fuel : yields d (fs, e, fin) → (unread (d_scanner d) < fuel)%nat →
  ∃ d', frames (Next max OnComment) fuel d = Some (events_of fs, e, d') ∧ (d_id d', d_comments d') = fin.
Proof.
  revert d fs. induction fuel as [|fuel IH]; intros d fs Y L; [lia|]. cbn [frames]. unfold Next at 1.
  pose proof (next_event_yields d fs e fin _ Y (Nat.lt_succ_diag_r _)) as H.
  destruct (events_of fs) as [|ev evs].
  - destruct H as (d' & -> & F & _). by exists d'.
  - destruct H as (d' & fs' & -> & U & Y' & <-). destruct (IH d' fs' Y') as (d2 & -> & F); [lia|]. by exists d2.
Qed.

(** What [Decode] gives to [emit], and returns. *)
Fixpoint emitted (emit : Frame → option error) (evs : list Frame) (e : error) : list Frame * option error :=
  match evs with
  | [] => ([], if decide (e = EOF) then None else Some e)
  | f :: evs =>
      match emit f with
      | Some e => ([f], Some e)
      | None => let '(fs, e) := emitted emit evs e in (f :: fs, e)
      end
  end.

Lemma decode_yields emit d fs e fin fuel : yields d (fs, e, fin) → (unread (d_scanner d) < fuel)%nat →
  decode_loop max OnComment emit fuel d = Some (emitted emit (events_of fs) e).
Proof.
  revert d fs. induction fuel as [|fuel IH]; intros d fs Y L; [lia|]. cbn [decode_loop]. unfold Next at 1.
  pose proof (next_event_yields d fs e fin _ Y (Nat.lt_succ_diag_r _)) as H.
  destruct (events_of fs) as [|ev evs]; cbn [emitted].
  - by destruct H as (d' & -> & _).
  - destruct H as (d' & fs' & -> & U & Y' & <-). destruct (emit ev); [done|]. rewrite (IH d' fs' Y') by lia.
    by destruct (emitted _ _ _).
Qed.

Lemma NewDecoder_yields r s : content 0 r = Some s →
  yields (NewDecoder r max) (let '(ls, e) := lines_of max s in frames_of noFields None [] ls e).
Proof.
  intros C. unfold yields, NewDecoder. cbn [d_err]. rewrite (proj2 (Z.ltb_ge max 1)) by lia.
  destruct (lines_of max s) as [ls e] eqn:E. exists ls, e. split; [|done]. cbn [d_scanner]. rewrite <- E.
  by apply newScanner_holds.
Qed.
End Frames.

(** C24. The decoder does not depend on how a reader cuts the stream: for any reader
    that delivers the bytes [s] and ends well, with the end of the stream reported
    alone or with the last bytes, [NextFrame], [Next] and [Decode] return exactly the
    frames that the lines of [s] spell, then the same error, with the same last
    identifier and the same comments received, whether a line ends in CR, LF or CRLF
    and wherever a read falls. The scanner's buffer never overflows. *)
Theorem sse_fragmentation_free (max : Z) (OnComment : option (text → option error)) (emit : Frame → option error)
    (r : reader) (s : text) :
  content 0 r = Some s → 1 <= max <= 2 ^ 62 - 4 →
  let '(ls, e) := lines_of max s in
  let d := NewDecoder r max in
  (let '(fs, e', fin) := frames_of OnComment noFields None [] ls e in
   (∃ d', frames (NextFrame max OnComment) (frames_fuel d) d = Some (map fst fs, e', d') ∧
          (d_id d', d_comments d') = fin) ∧
   (∃ d', frames (Next max OnComment) (frames_fuel d) d = Some (events_of fs, e', d') ∧
          (d_id d', d_comments d') = fin)) ∧
  (let '(fs, e', _) := frames_of None noFields None [] ls e in
   Decode r max emit = Some (emitted emit (events_of fs) e')).
Proof.
  intros C Hmax. pose proof (NewDecoder_yields OnComment max Hmax r s C) as Y.
  pose proof (NewDecoder_yields None max Hmax r s C) as Y'. destruct (lines_of max s) as [ls e]. cbv zeta.
  split.
  - destruct (frames_of OnComment _ _ _ _ _) as [ [fs e'] fin]. split.
    + eapply frames_yields; [done|done|]. unfold frames_fuel. lia.
    + eapply events_yields; [done|done|]. unfold frames_fuel. lia.
  - destruct (frames_of None _ _ _ _ _) as [ [fs e'] fin]. unfold Decode. eapply decode_yields; [done|done|].
    unfold frames_fuel. lia.
Qed.

(** A stream in pieces that cut a CRLF and the byte order mark. *)
Lemma sse_fragmentation_free_witness :
  let r := [(take 1 bom, None); (drop 1 bom ++ txt "id:7" ++ [CR], None); ([], None);
            ([LF] ++ txt "data: a" ++ [CR], None); ([CR], Some EOF)] in
  let s := bom ++ txt "id:7" ++ [CR; LF] ++ txt "data: a" ++ [CR; CR] in
  content 0 r = Some s ∧ Decode r 20 (λ _, None) = Some ([mkFrame None (txt "a") (Some (txt "7")) None false], None).
Proof.
  intros r s. split; [reflexivity|].
  pose proof (sse_fragmentation_free 20 None (λ _, None) r s eq_refl ltac:(lia)) as H.
  vm_compute in H. destruct H as [_ H]. vm_compute. exact H.
Defined.
