(* ===== verification/SseEncode.v ===== *)
(** * Server-sent events: encoding what was decoded

    Frames that the decoder returned, encoded in their shortest form, decode to
    themselves within the same limit: [Frame.Encode] takes no more bytes than the
    lines of the frame did. *)

From S2P Require Import Prelude Go Amount Source SourceParser SourceValues Sse SseFacts SseFrames.
From Stdlib Require Import Ascii.
Local Open Scope Z_scope.

(** ** Clean text *)

Definition unbroken (v : text) : Prop := forallb (λ c, negb (is_break c)) v = true.

Definition clean (v : text) : Prop := unbroken v ∧ utf8_Valid v = true.

Lemma unbroken_app a b : unbroken (a ++ b) ↔ unbroken a ∧ unbroken b.
Proof. unfold unbroken. rewrite forallb_app. apply andb_true_iff. Qed.

Lemma utf8_ascii a b : forallb (λ c, code c <? 0x80) a = true → utf8_Valid (a ++ b) = utf8_Valid b.
Proof.
  induction a as [|c a IH]; [done|]. cbn [forallb app]. intros [H Ha]%andb_true_iff.
  cbn [utf8_Valid]. rewrite H. by apply IH.
Qed.

Lemma cut_colon_spec s : ∃ a b, cut_colon s = (a, b) ∧ (s = a ++ ":"%char :: b ∨ s = a ∧ b = []).
Proof.
  induction s as [|c s IH]; [by exists [], []; auto|]. cbn [cut_colon]. destruct (Ascii.eqb c ":") eqn:E.
  - apply Ascii.eqb_eq in E as ->. exists [], s. auto.
  - destruct IH as (a & b & -> & [-> |[-> ->] ]); do 2 eexists; eauto.
Qed.

Lemma cut_colon_app a b : forallb (λ c, negb (Ascii.eqb c ":")) a = true → cut_colon (a ++ ":"%char :: b) = (a, b).
Proof.
  induction a as [|c a IH]; [done|]. cbn [forallb app cut_colon]. intros [H Ha]%andb_true_iff.
  apply negb_true_iff in H. by rewrite H, IH.
Qed.

Lemma cut_colon_none a : forallb (λ c, negb (Ascii.eqb c ":")) a = true → cut_colon a = (a, []).
Proof.
  induction a as [|c a IH]; [done|]. cbn [forallb cut_colon]. intros [H Ha]%andb_true_iff.
  apply negb_true_iff in H. by rewrite H, IH.
Qed.

(** ** Field lines *)

Definition field_line (name value : text) : text :=
  name ++ match value with
          | [] => []
          | c :: _ => ":"%char :: (if Ascii.eqb c " " then " "%char :: value else value)
          end.

Lemma field_eq name value : field name value = field_line name value ++ [LF].
Proof. unfold field, field_line. by rewrite <- app_assoc. Qed.

(** The names the decoder knows. *)
Definition names : list text := [txt "data"; txt "event"; txt "id"; txt "retry"].

Lemma names_plain name : name ∈ names →
  forallb (λ c, negb (Ascii.eqb c ":")) name = true ∧ forallb (λ c, code c <? 0x80) name = true ∧ unbroken name ∧
  ∃ c r, name = c :: r ∧ Ascii.eqb c ":" = false.
Proof.
  intros H. repeat (apply elem_of_cons in H as [-> |H]; [split_and!; try reflexivity; do 2 eexists; split; reflexivity|]).
  by apply elem_of_nil in H.
Qed.

(** Reading a field line back gives its name and its value. *)
Lemma field_line_cut name value : name ∈ names →
  ∃ v, cut_colon (field_line name value) = (name, v) ∧ trim_space_prefix v = value.
Proof.
  intros (P & _)%names_plain. unfold field_line. destruct value as [|c value].
  - exists []. rewrite app_nil_r. by rewrite cut_colon_none.
  - destruct (Ascii.eqb c " ") eqn:S; eexists; (split; [by apply cut_colon_app|]); [done|].
    cbn [trim_space_prefix]. by rewrite S.
Qed.

Lemma field_line_clean name value : name ∈ names → clean value → clean (field_line name value).
Proof.
  intros (P & A & U & _)%names_plain [V1 V2]. unfold field_line, clean. rewrite unbroken_app, utf8_ascii by done.
  destruct value as [|c value]; [by split|]. destruct (Ascii.eqb c " "); (split; [|done]); split; done.
Qed.

Lemma field_line_start name value : name ∈ names → ∃ c r, field_line name value = c :: r ∧ Ascii.eqb c ":" = false.
Proof.
  intros (_ & _ & _ & c & r & -> & H)%names_plain. by do 2 eexists.
Qed.

(** A line is at least as long as the field line of its value. *)
Lemma field_line_shortest line name v : cut_colon line = (name, v) → name ∈ names → clean line →
  (length (field_line name (trim_space_prefix v)) <= length line)%nat ∧ clean (trim_space_prefix v).
Proof.
  intros E N [L1 L2]. destruct (cut_colon_spec line) as (a & b & E' & H). rewrite E in E'. injection E' as <- <-.
  destruct (names_plain _ N) as (_ & A & _ & _). unfold field_line. rewrite length_app.
  destruct H as [-> |[-> ->] ]; [|simpl; split; [lia|done] ].
  rewrite length_app. apply unbroken_app in L1 as [_ L1]. rewrite utf8_ascii in L2 by done.
  assert (Cv : clean v) by (split; [apply (unbroken_app [":"%char] v) in L1; tauto|exact L2]).
  destruct v as [|c v]; [simpl; split; [lia|done]|]. cbn [trim_space_prefix].
  destruct (Ascii.eqb c " ") eqn:S.
  - apply Ascii.eqb_eq in S as ->. split.
    + destruct v as [|d v]; simpl; [lia|]. destruct (Ascii.eqb d " "); simpl; lia.
    + destruct Cv as [C1 C2]. split; [by apply (unbroken_app [" "%char] v) in C1|exact C2].
  - rewrite S. split; [simpl; lia|done].
Qed.

(** ** Fields *)

(** The lines that encode the fields of a frame. *)
Definition field_lines (f : fields) : list text :=
  match f_event f with Some e => [field_line (txt "event") e] | None => [] end ++
  match f_id f with Some i => [field_line (txt "id") i] | None => [] end ++
  match f_retry f with Some n => [field_line (txt "retry") (txt (big_String n))] | None => [] end ++
  map (field_line (txt "data")) (f_data f).

Definition wire (ls : list text) : text := flat_map (λ l, l ++ [LF]) ls.

(** Fields that lines of valid text can set. *)
Definition clean_fields (f : fields) : Prop :=
  (∀ e, f_event f = Some e → e ≠ [] ∧ clean e) ∧
  (∀ i, f_id f = Some i → clean i ∧ existsb (Ascii.eqb "000") i = false) ∧
  (∀ n, f_retry f = Some n → 0 <= n < 2 ^ 64) ∧ Forall clean (f_data f).

Lemma length_wire_cons l ls : length (wire (l :: ls)) = (length l + 1 + length (wire ls))%nat.
Proof. unfold wire. cbn [flat_map]. rewrite !length_app. done. Qed.

Lemma wire_app a b : wire (a ++ b) = wire a ++ wire b.
Proof. apply flat_map_app. Qed.

Lemma wire_one l : wire [l] = l ++ [LF].
Proof. apply app_nil_r. Qed.

Lemma split_join ds : ds ≠ [] → Forall clean ds → split_lines (join ds) = ds.
Proof.
  assert (S : ∀ l s, unbroken l → split_lines (l ++ LF :: s) = l :: split_lines s).
  { induction l as [|c l IH]; intros s U; [done|]. apply (unbroken_app [c] l) in U as [U1 U2].
    cbn [app split_lines]. destruct (Ascii.eqb c LF) eqn:E; [|by rewrite IH].
    unfold unbroken, is_break in U1. cbn [forallb] in U1. by rewrite E, orb_true_r in U1. }
  assert (S0 : ∀ l, unbroken l → split_lines l = [l]).
  { induction l as [|c l IH]; intros U; [done|]. apply (unbroken_app [c] l) in U as [U1 U2].
    cbn [split_lines]. destruct (Ascii.eqb c LF) eqn:E; [|by rewrite IH].
    unfold unbroken, is_break in U1. cbn [forallb] in U1. by rewrite E, orb_true_r in U1. }
  intros N F. induction F as [|l ds [U _] F IH]; [done|]. destruct ds as [|m ds]; [by apply S0|].
  change (join (l :: m :: ds)) with (l ++ LF :: join (m :: ds)). by rewrite S, IH.
Qed.

(** [Encode] writes the lines of the fields and a blank line. *)
Lemma Encode_wire f : clean_fields f → Encode (frame_of f) = wire (field_lines f ++ [ [] ]).
Proof.
  intros (_ & _ & _ & D). unfold Encode, field_lines, frame_of. cbn [Event ID RetryMS Control Data].
  rewrite !wire_app, <- !app_assoc. f_equal; [destruct (f_event f); [by rewrite wire_one, field_eq|done]|].
  f_equal; [destruct (f_id f); [by rewrite wire_one, field_eq|done]|].
  f_equal; [destruct (f_retry f); [by rewrite wire_one, field_eq|done]|].
  f_equal. destruct (f_data f) as [|d ds] eqn:E; [done|]. cbn [length Nat.eqb].
  rewrite split_join by done. unfold wire. rewrite flat_map_concat_map, flat_map_concat_map, map_map.
  f_equal.
Qed.

(** Decimal text without leading zeros. *)
Lemma canonical_shorter v : forallb digit_byte v = true → v ≠ [] →
  ∃ w, canonical w = true ∧ name_value w = name_value v ∧ (length w <= length v)%nat.
Proof.
  induction v as [|c v IH]; [done|]. intros D _. cbn [forallb] in D. apply andb_true_iff in D as [Dc D].
  destruct v as [|d v].
  { exists [c]. split_and!; [|done|done]. unfold canonical. cbn. by rewrite Dc. }
  destruct (Ascii.eqb c "0") eqn:Z.
  - apply Ascii.eqb_eq in Z as ->. destruct IH as (w & ? & V & L); [done|done|]. exists w.
    split_and!; [done|done|simpl in *; lia].
  - exists (c :: d :: v). split_and!; [|done|done]. unfold canonical. cbn [forallb] in *. rewrite Z, Dc, D. done.
Qed.

Lemma decimal_shorter v : forallb digit_byte v = true → v ≠ [] →
  0 <= decimal v ∧ (length (txt (big_String (decimal v))) <= length v)%nat.
Proof.
  intros D N. destruct (canonical_shorter v D N) as (w & C & V & L). change (decimal v) with (name_value v).
  rewrite <- V, canonical_decimal by done. split; [by apply name_value_lower|done].
Qed.

Lemma big_String_clean n : 0 <= n → clean (txt (big_String n)) ∧ txt (big_String n) ≠ [] ∧
  forallb digit_byte (txt (big_String n)) = true ∧ decimal (txt (big_String n)) = n.
Proof.
  intros Hn. destruct (big_String_spec n Hn) as (V & D & N). rewrite decimalDigits_txt in D.
  assert (H : ∀ v, forallb digit_byte v = true → clean v).
  { intros v Hv. unfold clean, unbroken. induction v as [|c v IH]; [done|]. cbn [forallb] in *.
    apply andb_true_iff in Hv as [Hc Hv]. destruct (IH Hv) as [I1 I2]. unfold digit_byte in Hc.
    apply andb_true_iff in Hc as [H1 H2]. bool_to_prop. split.
    - rewrite I1, andb_true_r. apply negb_true_iff. unfold is_break. apply orb_false_iff.
      split; apply not_true_iff_false; intros E%Ascii.eqb_eq; subst c; vm_compute in H1; by apply H1.
    - cbn [utf8_Valid]. rewrite (proj2 (Z.ltb_lt _ _)) by lia. done. }
  split_and!; [by apply H| |done|by unfold dec_value in V; rewrite dec_from_txt in V].
  by destruct (big_String n).
Qed.

(** ** Lines keep fields clean and within their bytes *)

Lemma length_field_lines f :
  length (wire (field_lines f)) =
    ((match f_event f with Some e => S (length (field_line (txt "event") e)) | None => 0 end) +
     (match f_id f with Some i => S (length (field_line (txt "id") i)) | None => 0 end) +
     (match f_retry f with Some n => S (length (field_line (txt "retry") (txt (big_String n)))) | None => 0 end) +
     length (wire (map (field_line (txt "data")) (f_data f))))%nat.
Proof.
  unfold field_lines. rewrite !wire_app, !length_app.
  destruct (f_event f), (f_id f), (f_retry f); rewrite ?wire_one, ?length_app; simpl; lia.
Qed.

Lemma length_field_line name v w : v ≠ [] → w ≠ [] → head v ≠ Some " "%char → (length v <= length w)%nat →
  (length (field_line name v) <= length (field_line name w))%nat.
Proof.
  intros Nv Nw H L. unfold field_line. rewrite !length_app. destruct v as [|c v]; [done|].
  destruct w as [|d w]; [done|]. rewrite (proj2 (Ascii.eqb_neq c " ")) by (intros ->; done).
  destruct (Ascii.eqb d " "); simpl in *; lia.
Qed.

Lemma digits_no_space v : forallb digit_byte v = true → head v ≠ Some " "%char.
Proof. destruct v as [|c v]; [done|]. cbn. intros H [= ->]. by vm_compute in H. Qed.

Lemma set_field_clean line f : clean line → clean_fields f →
  clean_fields (set_field line f) ∧
  (length (wire (field_lines (set_field line f))) <= length (wire (field_lines f)) + length line + 1)%nat.
Proof.
  intros C (CE & CI & CR & CD). unfold set_field. destruct (cut_colon line) as [name v] eqn:E.
  assert (K : name ∈ names → (length (field_line name (trim_space_prefix v)) <= length line)%nat ∧ clean (trim_space_prefix v))
    by (intros N; by apply field_line_shortest).
  set (value := trim_space_prefix v) in *.
  assert (keep : clean_fields f ∧ (length (wire (field_lines f)) <= length (wire (field_lines f)) + length line + 1)%nat)
    by (split; [by split_and!|lia]).
  destruct (decide (name = txt "data")) as [-> |N1].
  { rewrite bool_decide_true by done. destruct K as [K1 K2]; [set_solver|]. split.
    - split_and!; try done. cbn [f_data]. apply Forall_app. by split; [|constructor].
    - rewrite !length_field_lines. cbn [f_event f_id f_retry f_data]. rewrite map_app, wire_app, length_app.
      cbn [map]. rewrite wire_one, length_app. simpl in *. lia. }
  rewrite (bool_decide_false (name = txt "data")) by done.
  destruct (decide (name = txt "event")) as [-> |N2].
  { rewrite bool_decide_true by done. destruct K as [K1 K2]; [set_solver|]. split.
    - split_and!; try done. cbn [f_event]. case_bool_decide; [done|]. by intros e [= <-].
    - rewrite !length_field_lines. cbn [f_event f_id f_retry f_data]. case_bool_decide; lia. }
  rewrite (bool_decide_false (name = txt "event")) by done.
  destruct (decide (name = txt "id")) as [-> |N3].
  { rewrite bool_decide_true by done. destruct K as [K1 K2]; [set_solver|].
    destruct (existsb (Ascii.eqb "000") value) eqn:X; [done|]. split.
    - split_and!; try done. cbn [f_id]. by intros i [= <-].
    - rewrite !length_field_lines. cbn [f_event f_id f_retry f_data]. lia. }
  rewrite (bool_decide_false (name = txt "id")) by done.
  destruct (decide (name = txt "retry")) as [-> |N4]; [|by rewrite bool_decide_false by done].
  rewrite bool_decide_true by done. destruct K as [K1 K2]; [set_solver|].
  destruct (negb (bool_decide (value = [])) && forallb digit_byte value && (decimal value <? 2 ^ 64)) eqn:X; [|done].
  apply andb_true_iff in X as [ [X1 X2]%andb_true_iff X3%Z.ltb_lt]. apply negb_true_iff, bool_decide_eq_false in X1.
  destruct (decimal_shorter value X2 X1) as [D1 D2]. destruct (big_String_clean _ D1) as (_ & B1 & B2 & _). split.
  - split_and!; try done. cbn [f_retry]. by intros n [= <-].
  - rewrite !length_field_lines. cbn [f_event f_id f_retry f_data].
    pose proof (length_field_line (txt "retry") _ value B1 X1 (digits_no_space _ B2) D2). lia.
Qed.

(** ** Decoded frames fit *)

(** From one blank line to the next, lines and their ends stay within the limit. *)
Fixpoint within (max size : Z) (ls : list text) : Prop :=
  match ls with
  | [] => True
  | l :: ls =>
      match l with
      | [] => size + 1 <= max ∧ within max 0 ls
      | _ => within max (size + Z.of_nat (length l) + 1) ls
      end
  end.

Lemma within_mono max size size' ls : size' <= size → within max size ls → within max size' ls.
Proof.
  revert size size'. induction ls as [|l ls IH]; intros size size' L; [done|]. cbn [within].
  destruct l; [intros [? ?]; split; [lia|done]|]. apply IH. lia.
Qed.

Lemma break_free s : cut_line s = None → unbroken s.
Proof.
  unfold unbroken. induction s as [|c s IH]; [done|]. cbn [cut_line forallb]. unfold is_break at 1.
  destruct (Ascii.eqb c LF); [done|]. destruct (Ascii.eqb c CR).
  { destruct s as [|d s]; [done|]. by destruct (Ascii.eqb d LF). }
  destruct (cut_line s) as [ [ [? ?] ?]|]; [done|]. intros _. by apply IH.
Qed.

Lemma lines_from_within max size s ls e : lines_from max size s = (ls, e) → within max size ls ∧ Forall unbroken ls.
Proof.
  remember (length s) as n eqn:Hn. revert size s Hn ls e. induction (lt_wf n) as [n _ IH].
  intros size s -> ls e. rewrite lines_from_eq. destruct (cut_line s) as [ [ [l k] r]|] eqn:E.
  - destruct (cut_line_spec _ _ _ _ E) as (L & K & U).
    destruct (Z.gtb_spec (Z.of_nat (length l + k)) (max - size)) as [|H]; [by intros [= <- <-]|].
    destruct (lines_from _ _ r) as [ls' e'] eqn:R. intros [= <- <-].
    destruct (IH (length r) ltac:(lia) _ _ eq_refl _ _ R) as [W F]. split; [|by constructor].
    cbn [within]. destruct l as [|c l]; [split; [simpl in H; lia|done]|].
    eapply within_mono; [|exact W]. lia.
  - destruct (Z.gtb _ _); [by intros [= <- <-]|]. apply break_free in E.
    destruct s as [|c s]; intros [= <- <-]; [done|]. split; [done|by repeat constructor].
Qed.

Definition fits_frame (max : Z) (f : fields) : Prop :=
  clean_fields f ∧ sets_fields f = true ∧ Z.of_nat (length (wire (field_lines f))) + 1 <= max.

Lemma noFields_clean : clean_fields noFields.
Proof. by split_and!. Qed.

Lemma read_line_clean line f id cs id' cs' f' : clean line → line ≠ [] → clean_fields f →
  read_line None line f id cs = (id', cs', inr f') →
  clean_fields f' ∧ (length (wire (field_lines f')) <= length (wire (field_lines f)) + length line + 1)%nat.
Proof.
  intros C N Cf. unfold read_line. destruct line as [|c line]; [done|]. destruct (Ascii.eqb c ":").
  - intros [= _ _ <-]. split; [done|lia].
  - intros [= _ _ <-]. by apply set_field_clean.
Qed.

(** The frames of bounded lines are of clean fields, and their encoding fits. *)
Lemma frames_of_fit max ls f id cs e size fs e' fin :
  frames_of None f id cs ls e = (fs, e', fin) → within max size ls → Forall unbroken ls →
  clean_fields f → Z.of_nat (length (wire (field_lines f))) <= size →
  ∃ Fs, map fst fs = map frame_of Fs ∧ Forall (fits_frame max) Fs.
Proof.
  intros H W U. revert f id cs size fs e' fin H W. induction U as [|line ls U1 U IH]; intros f id cs size fs e' fin H W C L.
  - injection H as <- _ _. by exists [].
  - cbn [frames_of] in H. destruct (utf8_Valid line) eqn:V; cbn [negb] in H; [|injection H as <- _ _; by exists [] ].
    destruct line as [|c line].
    + destruct W as [W1 W2]. destruct (frames_of None noFields id cs ls e) as [ [fs' e1] fin'] eqn:R.
      destruct (IH _ _ _ 0 _ _ _ R W2 noFields_clean ltac:(simpl; lia)) as (Fs & E & F).
      injection H as <- _ _. destruct (sets_fields f) eqn:S; [|by exists Fs].
      exists (f :: Fs). split; [by cbn; rewrite E|]. constructor; [|done]. split_and!; [apply C..|done|lia].
    + destruct (read_line None (c :: line) f id cs) as [ [id' cs'] [e1|f'] ] eqn:R; [injection H as <- _ _; by exists [] |].
      apply read_line_clean in R as [C' L']; [|done|done|done].
      eapply IH; [done|exact W|done|]. simpl in *. lia.
Qed.

(** ** Encoded frames decode *)

Definition prepend (ls : list text) (p : list text * error) : list text * error := (ls ++ p.1, p.2).

Lemma lines_from_wire max size ls s : 0 <= size → Forall (λ l, l ≠ [] ∧ unbroken l) ls →
  size + Z.of_nat (length (wire ls)) + 1 <= max →
  lines_from max size (wire (ls ++ [ [] ]) ++ s) = prepend (ls ++ [ [] ]) (lines_from max 0 s).
Proof.
  intros S F. revert size S. induction F as [|l ls [N U] F IH]; intros size S L.
  - erewrite lines_from_line; [|by apply (cut_line_end []); auto|simpl in *; lia].
    cbn. by destruct (lines_from max 0 s).
  - rewrite length_wire_cons in L. cbn [app]. unfold wire. cbn [flat_map]. fold (wire (ls ++ [ [] ])).
    rewrite <- !app_assoc. cbn [app]. erewrite lines_from_line; [|apply cut_line_end; auto|cbn [andb]; simpl; lia].
    rewrite (bool_decide_false (LF = CR)) by done. cbn [andb].
    replace (match l with [] => 0 | _ => size + Z.of_nat (length l + 1) end) with (size + Z.of_nat (length l + 1))
      by (by destruct l).
    rewrite IH by lia. by destruct (lines_from max 0 s).
Qed.

Lemma field_lines_lines f : clean_fields f → Forall (λ l, l ≠ [] ∧ clean l) (field_lines f).
Proof.
  intros (CE & CI & CR & CD).
  assert (H : ∀ name v, name ∈ names → clean v → field_line name v ≠ [] ∧ clean (field_line name v)).
  { intros name v Hn Cv. split; [|by apply field_line_clean].
    destruct (field_line_start name v Hn) as (? & ? & -> & _). done. }
  unfold field_lines. rewrite !Forall_app. split_and!.
  - destruct (f_event f); [|done]. apply Forall_singleton, H; [set_solver|by apply CE].
  - destruct (f_id f); [|done]. apply Forall_singleton, H; [set_solver|by apply CI].
  - destruct (f_retry f) as [n|]; [|done]. destruct (big_String_clean n) as (B & _); [by apply CR|].
    apply Forall_singleton, H; [set_solver|done].
  - apply Forall_map. apply (Forall_impl _ _ _ CD). intros v Cv. apply H; [set_solver|done].
Qed.

(** The frames lines spell, and how they end. *)
Definition spelled (f : fields) (id : option text) (cs : list text) (ls : list text) (e : error) : list Frame * error :=
  let '(fs, e', _) := frames_of None f id cs ls e in (map fst fs, e').

Lemma spelled_field name v f id cs ls e : name ∈ names → clean v →
  ∃ id', spelled f id cs (field_line name v :: ls) e = spelled (set_field (field_line name v) f) id' cs ls e.
Proof.
  intros N C. pose proof (field_line_clean name v N C) as [_ V].
  destruct (field_line_start name v N) as (c & r & E & H). unfold spelled. cbn [frames_of]. rewrite V. cbn [negb].
  rewrite E. unfold read_line. rewrite H. by eexists.
Qed.

Lemma set_field_line name v f : name ∈ names →
  set_field (field_line name v) f =
    if bool_decide (name = txt "data") then mkFields (f_event f) (f_id f) (f_retry f) (f_data f ++ [v])
    else if bool_decide (name = txt "event") then
      mkFields (if bool_decide (v = []) then None else Some v) (f_id f) (f_retry f) (f_data f)
    else if bool_decide (name = txt "id") then
      if existsb (Ascii.eqb "000") v then f else mkFields (f_event f) (Some v) (f_retry f) (f_data f)
    else if bool_decide (name = txt "retry") then
      if negb (bool_decide (v = [])) && forallb digit_byte v && (decimal v <? 2 ^ 64)
      then mkFields (f_event f) (f_id f) (Some (decimal v)) (f_data f) else f
    else f.
Proof. intros N. destruct (field_line_cut name v N) as (w & E & T). unfold set_field. by rewrite E, T. Qed.

Lemma spelled_data ds ev i rt ds0 id cs ls e : Forall clean ds →
  ∃ id', spelled (mkFields ev i rt ds0) id cs (map (field_line (txt "data")) ds ++ ls) e =
         spelled (mkFields ev i rt (ds0 ++ ds)) id' cs ls e.
Proof.
  intros F. revert ds0 id. induction F as [|d ds C F IH]; intros ds0 id.
  - exists id. by rewrite app_nil_r.
  - cbn [map app]. destruct (spelled_field (txt "data") d (mkFields ev i rt ds0) id cs
      (map (field_line (txt "data")) ds ++ ls) e) as [id1 ->]; [set_solver|done|].
    rewrite set_field_line by set_solver. destruct (IH (ds0 ++ [d]) id1) as [id2 E]. exists id2.
    rewrite <- app_assoc in E. exact E.
Qed.

Lemma spelled_event ev i rt ds id cs ls e : (∀ v, ev = Some v → v ≠ [] ∧ clean v) →
  ∃ id', spelled (mkFields None i rt ds) id cs
           (match ev with Some v => [field_line (txt "event") v] | None => [] end ++ ls) e =
         spelled (mkFields ev i rt ds) id' cs ls e.
Proof.
  destruct ev as [v|]; [|by exists id]. intros H. destruct (H v eq_refl) as [N C]. cbn [app].
  destruct (spelled_field (txt "event") v (mkFields None i rt ds) id cs ls e) as [id' ->]; [set_solver|done|].
  exists id'. rewrite set_field_line by set_solver. by rewrite (bool_decide_false (v = [])) by done.
Qed.

Lemma spelled_id ev i rt ds id cs ls e : (∀ v, i = Some v → clean v ∧ existsb (Ascii.eqb "000") v = false) →
  ∃ id', spelled (mkFields ev None rt ds) id cs
           (match i with Some v => [field_line (txt "id") v] | None => [] end ++ ls) e =
         spelled (mkFields ev i rt ds) id' cs ls e.
Proof.
  destruct i as [v|]; [|by exists id]. intros H. destruct (H v eq_refl) as [C N]. cbn [app].
  destruct (spelled_field (txt "id") v (mkFields ev None rt ds) id cs ls e) as [id' ->]; [set_solver|done|].
  exists id'. rewrite set_field_line by set_solver. rewrite N. done.
Qed.

Lemma spelled_retry ev i rt ds id cs ls e : (∀ n, rt = Some n → 0 <= n < 2 ^ 64) →
  ∃ id', spelled (mkFields ev i None ds) id cs
           (match rt with Some n => [field_line (txt "retry") (txt (big_String n))] | None => [] end ++ ls) e =
         spelled (mkFields ev i rt ds) id' cs ls e.
Proof.
  destruct rt as [n|]; [|by exists id]. intros H. specialize (H n eq_refl).
  destruct (big_String_clean n) as (C & N & D & V); [lia|]. cbn [app].
  destruct (spelled_field (txt "retry") (txt (big_String n)) (mkFields ev i None ds) id cs ls e) as [id' ->];
    [set_solver|done|].
  exists id'. rewrite set_field_line by set_solver. rewrite D, V, (bool_decide_false (txt (big_String n) = [])) by done.
  by rewrite (proj2 (Z.ltb_lt _ _)) by lia.
Qed.

Lemma spelled_frame f id cs ls e : clean_fields f → sets_fields f = true →
  ∃ id', spelled noFields id cs (field_lines f ++ [] :: ls) e =
    let '(fs, e') := spelled noFields id' cs ls e in (frame_of f :: fs, e').
Proof.
  intros (CE & CI & CR & CD) S. destruct f as [ev i rt ds]. cbn in CE, CI, CR, CD. unfold field_lines, noFields.
  cbn [f_event f_id f_retry f_data]. rewrite <- !app_assoc.
  edestruct (spelled_event ev) as [id1 ->]; [done|]. edestruct (spelled_id ev i) as [id2 ->]; [done|].
  edestruct (spelled_retry ev i rt) as [id3 ->]; [done|]. edestruct (spelled_data ds ev i rt []) as [id4 ->]; [done|].
  exists id4. unfold spelled. cbn [frames_of utf8_Valid negb app]. fold noFields.
  destruct (frames_of None noFields id4 cs ls e) as [ [fs e'] fin]. rewrite S. done.
Qed.

Lemma spelled_frames Fs id cs e : Forall (λ f, clean_fields f ∧ sets_fields f = true) Fs →
  spelled noFields id cs (flat_map (λ f, field_lines f ++ [ [] ]) Fs) e = (map frame_of Fs, e).
Proof.
  intros F. revert id. induction F as [|f Fs [C S] F IH]; intros id; [done|]. cbn [flat_map map].
  rewrite <- app_assoc. cbn [app]. destruct (spelled_frame f id cs (flat_map (λ f, field_lines f ++ [ [] ]) Fs) e C S)
    as [id' ->]. by rewrite IH.
Qed.

Lemma lines_of_encoded max Fs : 1 <= max → Forall (fits_frame max) Fs →
  lines_of max (flat_map Encode (map frame_of Fs)) = (flat_map (λ f, field_lines f ++ [ [] ]) Fs, EOF).
Proof.
  intros Hm F. unfold lines_of.
  assert (B : strip_bom (flat_map Encode (map frame_of Fs)) = flat_map Encode (map frame_of Fs)).
  { unfold strip_bom. destruct F as [|f Fs (C & S & _) F]; [done|]. cbn [map flat_map].
    rewrite Encode_wire by done. destruct f as [ev i rt ds]. unfold field_lines. cbn [f_event f_id f_retry f_data].
    destruct ev; [done|]. destruct i; [done|]. destruct rt; [done|]. by destruct ds. }
  rewrite B. clear B. induction F as [|f Fs (C & S & L) F IH].
  - rewrite lines_from_eq. cbn [flat_map map cut_line length].
    destruct (Z.gtb_spec (Z.of_nat 0) (max - 0)); [lia|done].
  - cbn [map flat_map]. rewrite Encode_wire by done. rewrite lines_from_wire; [by rewrite IH|done| |lia].
    apply (Forall_impl _ _ _ (field_lines_lines f C)). by intros l [? [? _] ].
Qed.

(** C25. Re-encoding preserves the frames and their byte limit: whatever frames the
    decoder returned for a stream, control frames included, the encodings of those
    frames, delivered by any reader, decode within the same limit to the same frames
    and end well; and each encoding is within the limit. *)
Theorem sse_reencode (max : Z) (r r' : reader) (s : text) (fs : list Frame) (e : error) (d : Decoder) :
  1 <= max <= 2 ^ 62 - 4 → content 0 r = Some s →
  frames (NextFrame max None) (frames_fuel (NewDecoder r max)) (NewDecoder r max) = Some (fs, e, d) →
  content 0 r' = Some (flat_map Encode fs) →
  (∃ d', frames (NextFrame max None) (frames_fuel (NewDecoder r' max)) (NewDecoder r' max) = Some (fs, EOF, d')) ∧
  Forall (λ f, Z.of_nat (length (Encode f)) <= max) fs.
Proof.
  intros Hmax C D C'. pose proof (NewDecoder_yields None max Hmax r s C) as Y.
  destruct (lines_of max s) as [ls e0] eqn:L. destruct (frames_of None _ _ _ ls e0) as [ [ps e1] fin] eqn:F.
  destruct (frames_yields None max Hmax _ _ _ _ _ Y (Nat.lt_succ_diag_r _)) as (d0 & D0 & _).
  unfold frames_fuel in D. rewrite D0 in D. injection D as <- <- <-.
  unfold lines_of in L. apply lines_from_within in L as [W U].
  destruct (frames_of_fit max ls _ _ _ _ 0 _ _ _ F W U noFields_clean ltac:(simpl; lia)) as (Fs & E & FF).
  rewrite E in C' |- *. split.
  - pose proof (NewDecoder_yields None max Hmax r' _ C') as Y'. rewrite lines_of_encoded in Y' by (done || lia).
    pose proof (spelled_frames Fs None [] EOF) as P. unfold spelled in P.
    destruct (frames_of None noFields None [] _ EOF) as [ [ps' e2] fin2]. 
    destruct (frames_yields None max Hmax _ _ _ _ _ Y' (Nat.lt_succ_diag_r _)) as (d1 & D1 & _).
    unfold frames_fuel. rewrite D1. rewrite P by (apply (Forall_impl _ _ _ FF); intros f (? & ? & _); done). by eexists.
  - apply Forall_map. apply (Forall_impl _ _ _ FF). intros f (Cf & _ & Lf). cbv beta. rewrite Encode_wire by done.
    rewrite wire_app, length_app. simpl. lia.
Qed.

(** A stream whose frames fill the limit once encoded. *)
Lemma sse_reencode_witness :
  let max := 14 in
  let r := [(txt "retry: 007" ++ [CR; LF; LF] ++ txt "data:  b" ++ [CR; CR], Some EOF)] in
  let fs := [mkFrame None [] None (Some 7) true; mkFrame None (txt " b") None None false] in
  (∃ d, frames (NextFrame max None) (frames_fuel (NewDecoder r max)) (NewDecoder r max) = Some (fs, EOF, d)) ∧
  Forall (λ f, Z.of_nat (length (Encode f)) <= max) fs.
Proof.
  intros max r fs.
  assert (E : ∃ d, frames (NextFrame max None) (frames_fuel (NewDecoder r max)) (NewDecoder r max) = Some (fs, EOF, d))
    by (eexists; vm_compute; reflexivity).
  split; [exact E|]. destruct E as [d E].
  destruct (sse_reencode max r [(flat_map Encode fs, None)] _ fs EOF d ltac:(vm_compute; split; discriminate) eq_refl E eq_refl)
    as [_ H]. exact H.
Defined.
