(* ===== verification/SseRaw.v ===== *)
(** * Server-sent events: the raw decoder

    The raw decoder keeps every byte of the stream, and knows where in them the data
    of a frame lies, so that a replacement in the data replaces those bytes of the
    wire and no others. *)

From S2P Require Import Prelude Go Amount Source SourceParser Sse SseFacts SseFrames.
From Stdlib Require Import Ascii.
Local Open Scope Z_scope.

(** ** Where a line lies *)

Lemma find_rev_seq (p : nat → bool) n i : (i <= n)%nat → p i = true → (∀ j, (i < j <= n)%nat → p j = false) →
  List.find p (rev (seq 0 (S n))) = Some i.
Proof.
  induction n as [|n IH]; intros L Hi Hj.
  - replace i with 0%nat in * by lia. cbn. by rewrite Hi.
  - rewrite seq_S, rev_app_distr. cbn [rev app List.find]. rewrite Nat.add_0_l.
    destruct (decide (i = S n)) as [-> |N]; [by rewrite Hi|]. rewrite Hj by lia. apply IH; [lia|done|].
    intros j Hn. apply Hj. lia.
Qed.

(** A line is found where it was read last: what follows it is only its end. *)
Lemma LastIndex_line w pre line : ends_line w pre line → line ≠ [] → LastIndex w line = Z.of_nat (length pre).
Proof.
  intros (tl & -> & B & U) N. unfold LastIndex. rewrite (find_rev_seq _ _ (length pre)); [done|..].
  - rewrite !length_app. lia.
  - rewrite drop_app_length, take_app_length. by apply bool_decide_eq_true.
  - intros j [J1 J2]. rewrite !length_app in J2. apply bool_decide_eq_false. intros E.
    destruct (exists_last N) as (l' & c & El).
    assert (Hc : (pre ++ line ++ tl) !! (j + length l')%nat = Some c).
    { assert (Ht : take (length line) (drop j (pre ++ line ++ tl)) !! length l' = Some c)
        by (rewrite E, El; by apply list_lookup_middle).
      rewrite lookup_take in Ht. case_decide; [|done]. by rewrite lookup_drop in Ht. }
    rewrite lookup_app_r in Hc by lia. rewrite lookup_app_r in Hc by (rewrite El, length_app; simpl; lia).
    apply list_elem_of_lookup_2, list_elem_of_In in Hc. rewrite forallb_forall in B, U. apply B in Hc.
    assert (Hl : In c line) by (rewrite El; apply in_or_app; right; by left). apply U in Hl. by rewrite Hc in Hl.
Qed.

(** ** Ranges *)

(** The bytes of a range, in the wire and in the data, are the same. *)
Definition range_of (wire data : text) (r : dataRange) : Prop :=
  ∃ c, 0 <= r_start r ∧ 0 <= r_wireStart r ∧ r_end r = r_start r + Z.of_nat (length c) ∧
    (∃ a b, data = a ++ c ++ b ∧ Z.of_nat (length a) = r_start r) ∧
    (∃ a b, wire = a ++ c ++ b ∧ Z.of_nat (length a) = r_wireStart r).

Lemma range_of_app wire data r x y : range_of wire data r → range_of (wire ++ x) (data ++ y) r.
Proof.
  intros (c & H1 & H2 & H3 & (a & b & -> & L) & (a' & b' & -> & L')). exists c.
  split_and!; try done; [exists a, (b ++ y)|exists a', (b' ++ x)]; by rewrite <- !app_assoc.
Qed.

Definition ranged (d : RawDecoder) : Prop :=
  Forall (range_of (sc_wire (rd_scanner d)) (rd_data d)) (rd_ranges d).

Lemma cut_suffix line name value : cut_colon line = (name, value) →
  ∃ p, line = p ++ trim_space_prefix value.
Proof.
  assert (T : ∀ v, ∃ p, v = p ++ trim_space_prefix v).
  { intros [|c v]; [by exists []|]. cbn [trim_space_prefix]. destruct (Ascii.eqb c " "); [by exists [c]|by exists [] ]. }
  revert name value. induction line as [|c line IH]; intros name value; cbn [cut_colon].
  - intros [= <- <-]. by exists [].
  - destruct (Ascii.eqb c ":").
    + intros [= <- <-]. destruct (T line) as [p E]. exists (c :: p). cbn [app]. by rewrite <- E.
    + destruct (cut_colon line) as [a b]. intros [= <- <-]. destruct (IH a b eq_refl) as [p E].
      exists (c :: p). cbn [app]. by rewrite <- E.
Qed.

Lemma add_data_ranged d line name value pre :
  ranged d → ends_line (sc_wire (rd_scanner d)) pre line → line ≠ [] → cut_colon line = (name, value) →
  ranged (add_data d line value).
Proof.
  intros R H N C. unfold ranged, add_data. cbn [rd_scanner rd_data rd_ranges].
  set (data := if _ : bool then rd_data d ++ [LF] else rd_data d).
  assert (Hd : ∃ x, data = rd_data d ++ x).
  { unfold data. case_match; [by eexists|]. exists []. by rewrite app_nil_r. }
  destruct Hd as [x Hd]. rewrite (LastIndex_line _ _ _ H N). destruct (cut_suffix _ _ _ C) as [p Hp].
  set (content := trim_space_prefix value) in *. apply Forall_app. split.
  - apply (Forall_impl _ _ _ R). intros r Hr. rewrite Hd, <- app_assoc.
    rewrite <- (app_nil_r (sc_wire _)). by apply range_of_app.
  - apply Forall_singleton. destruct H as (tl & Hw & _). exists content. cbn. rewrite length_app.
    split_and!; [lia| |lia| |].
    + rewrite Hp, length_app. lia.
    + exists data, []. by rewrite app_nil_r.
    + exists (pre ++ p), tl. rewrite Hw. rewrite Hp at 1. rewrite length_app, <- !app_assoc. split; [done|].
      rewrite Hp, length_app. lia.
Qed.

(** A replacement in the data of a frame: the bytes of the wire it replaces are those
    of the data, and the rest of the wire stays. *)
Definition replaces (f : RawFrame) : Prop :=
  ∀ start end_ replacement,
    match ReplaceData f start end_ replacement with
    | None => False
    | Some None => ∀ part, part ∈ ranges f → ¬ (r_start part <= start <= end_ ∧ end_ <= r_end part)
    | Some (Some out) => ∃ a c b a' b', Bytes f = a ++ c ++ b ∧ out = a ++ replacement ++ b ∧
        RawData f = a' ++ c ++ b' ∧ Z.of_nat (length a') = start ∧ Z.of_nat (length a') + Z.of_nat (length c) = end_
    end.

Lemma slice_of_app (a b : text) :
  slice_of (a ++ b) 0 (Z.of_nat (length a)) = Some a ∧
  slice_of (a ++ b) (Z.of_nat (length a)) (Z.of_nat (length (a ++ b))) = Some b.
Proof.
  unfold slice_of. rewrite length_app. split.
  - rewrite !(proj2 (Z.leb_le _ _)) by lia. cbn [andb]. rewrite Z.sub_0_r, Nat2Z.id. change (Z.to_nat 0) with 0%nat.
    by rewrite drop_0, take_app_length.
  - rewrite !(proj2 (Z.leb_le _ _)) by lia. cbn [andb]. rewrite Nat2Z.id, drop_app_length, take_ge by lia. done.
Qed.

(** The part of a range from [start] to [end_]. *)
Lemma range_sub wire data r start end_ : range_of wire data r → r_start r <= start <= end_ → end_ <= r_end r →
  ∃ a c b a' b', wire = a ++ c ++ b ∧ Z.of_nat (length a) = r_wireStart r + start - r_start r ∧
    Z.of_nat (length c) = end_ - start ∧ data = a' ++ c ++ b' ∧ Z.of_nat (length a') = start.
Proof.
  intros (c & S0 & W0 & E & (a & b & -> & La) & (a' & b' & -> & La')) [H1 H2] H3.
  set (i := Z.to_nat (start - r_start r)). set (j := Z.to_nat (end_ - start)).
  assert (Hc : c = take i c ++ take j (drop i c) ++ drop (i + j) c).
  { rewrite <- (take_drop i c) at 1. f_equal. rewrite <- (take_drop j (drop i c)) at 1. by rewrite drop_drop. }
  exists (a' ++ take i c), (take j (drop i c)), (drop (i + j) c ++ b'), (a ++ take i c), (drop (i + j) c ++ b).
  rewrite !length_app, !length_take, length_drop.
  split_and!; [rewrite Hc at 1; by rewrite <- !app_assoc|lia|lia|rewrite Hc at 1; by rewrite <- !app_assoc|lia].
Qed.

Lemma ranges_replace f : Forall (range_of (Bytes f) (RawData f)) (ranges f) → replaces f.
Proof.
  intros R start end_ repl. unfold ReplaceData. destruct (List.find _ (ranges f)) as [part|] eqn:F.
  - apply List.find_some in F as [Hin H]. apply andb_true_iff in H as [H1 H2]. rewrite Z.geb_leb in H1. bool_to_prop.
    destruct (Z.gtb_spec start end_) as [G|G]; [intros p Hp ?; lia|].
    rewrite Forall_forall in R. apply list_elem_of_In, R in Hin.
    destruct (range_sub _ _ _ start end_ Hin) as (a & c & b & a' & b' & Hw & L1 & L2 & Hd & L3); [lia|lia|].
    pose proof (slice_of_app a (c ++ b)) as [S1 _]. pose proof (slice_of_app (a ++ c) b) as [_ S2].
    rewrite <- app_assoc, <- Hw in S2. rewrite <- Hw in S1. rewrite length_app in S2.
    rewrite <- L1, S1. replace (r_wireStart part + end_ - r_start part) with (Z.of_nat (length a + length c)) by lia.
    rewrite S2. exists a, c, b, a', b'. split_and!; try done. lia.
  - intros p Hp [ [? ?] ?]. apply list_elem_of_In in Hp. apply (List.find_none _ _ F) in Hp.
    apply andb_false_iff in Hp. rewrite Z.geb_leb in Hp. destruct Hp as [Hp|Hp]; bool_to_prop; lia.
Qed.

(** ** The stream of frames *)

Lemma holds_keep max s w out : holds max s out → holds max (keep_wire s w) out.
Proof. done. Qed.

Lemma covers_keep s whole : covers s whole → ∃ rest, whole = sc_wire s ++ rest ∧ covers (keep_wire s []) rest.
Proof.
  unfold covers. cbn. destruct (sc_err s).
  - intros <-. by eexists.
  - intros (more & C & <-). exists (sc_data s ++ more). split; [done|]. by exists more.
Qed.

(** A raw decoder between two frames or within one, with the bytes still to return. *)
Definition raw_ok (max : Z) (d : RawDecoder) (whole : text) : Prop :=
  (∃ out, holds max (rd_scanner d) out) ∧ covers (rd_scanner d) whole ∧ ranged d.

Lemma take_frame_ok max d b whole d' f : raw_ok max d whole → take_frame d b = (d', f) →
  ∃ rest, whole = Bytes f ++ rest ∧ raw_ok max d' rest ∧ replaces f.
Proof.
  intros ((out & H) & C & R) [= <- <-]. destruct (covers_keep _ _ C) as (rest & E & C'). exists rest.
  split; [done|]. split; [|by apply ranges_replace]. split_and!; [by exists out|done|by constructor].
Qed.

(** What is left to return, for the fuel: the bytes and a last frame of them. *)
Definition left_of (d : RawDecoder) (whole : text) : nat :=
  (unread (rd_scanner d) + match whole with [] => 0 | _ => 1 end)%nat.

(** One call of [Next] in a stream whose bytes [whole] are still to return. *)
Definition raw_step (max : Z) (d : RawDecoder) (whole : text) (out : option (RawDecoder * (error + RawFrame))) : Prop :=
  ∃ d' o, out = Some (d', o) ∧
    match o with
    | inr f => ∃ rest, whole = Bytes f ++ rest ∧ raw_ok max d' rest ∧ replaces f ∧ (left_of d' rest < left_of d whole)%nat
    | inl e => e = EOF → whole = []
    end.

Lemma raw_step_weaken max d1 d whole out :
  (unread (rd_scanner d1) <= unread (rd_scanner d))%nat → raw_step max d1 whole out → raw_step max d whole out.
Proof.
  intros L (d' & o & E & H). exists d', o. split; [done|]. destruct o; [done|].
  destruct H as (rest & ? & ? & ? & U). exists rest. unfold left_of in *. split_and!; try done. lia.
Qed.

Lemma take_frame_step max d d1 b whole : raw_ok max d1 whole →
  (unread (rd_scanner d1) < unread (rd_scanner d))%nat ∨
    (unread (rd_scanner d1) <= unread (rd_scanner d))%nat ∧ whole ≠ [] ∧ whole = sc_wire (rd_scanner d1) →
  raw_step max d whole (let '(d', f) := take_frame d1 b in Some (d', inr f)).
Proof.
  intros K U. destruct (take_frame d1 b) as [d' f] eqn:T. do 2 eexists. split; [done|].
  destruct (take_frame_ok _ _ _ _ _ _ K T) as (rest & E & K' & R). exists rest. split_and!; try done.
  unfold left_of. injection T as <- <-. cbn [rd_scanner Bytes] in *.
  change (unread (keep_wire (rd_scanner d1) [])) with (unread (rd_scanner d1)).
  destruct U as [U|(U & N & W)].
  - destruct whole as [|c whole]; [|destruct rest; lia]. symmetry in E. apply app_nil in E as [_ ->]. lia.
  - assert (rest = []) as -> by (apply (app_inv_head whole); by rewrite app_nil_r, W at 1).
    destruct whole; [done|lia].
Qed.

Section Raw.
Context (max : Z) (Hmax : 1 <= max <= 2 ^ 62 - 4).

(** A token keeps the bytes, and the ranges into them. *)
Lemma scanned_ok d whole s x pre l ls e : raw_ok max d whole → holds max s (ls, e) →
  (∀ whole, covers (rd_scanner d) whole → covers s whole) → sc_wire s = sc_wire (rd_scanner d) ++ x → ends_line x pre l →
  raw_ok max (mkRawDecoder s (rd_data d) (rd_ranges d)) whole ∧
  ends_line (sc_wire s) (sc_wire (rd_scanner d) ++ pre) l.
Proof.
  intros (_ & C & R) H Cv W (tl & -> & B & U). split.
  - split_and!; [by exists (ls, e)|by apply Cv|]. apply (Forall_impl _ _ _ R). intros r Hr. cbn. rewrite W.
    rewrite <- (app_nil_r (rd_data d)). by apply range_of_app.
  - exists tl. by rewrite W, <- app_assoc.
Qed.

Lemma raw_next_step fuel d whole : raw_ok max d whole → (unread (rd_scanner d) < fuel)%nat →
  raw_step max d whole (raw_next max fuel d).
Proof.
  revert d. induction fuel as [|fuel IH]; intros d K L; [lia|]. cbn [raw_next].
  destruct (proj1 K) as [ [ls e] H]. pose proof (Scan_next max (rd_scanner d) _ Hmax H) as S.
  destruct ls as [|line ls]; cbn [scans] in S.
  - destruct S as (s & -> & _ & Hw & x & Wx). destruct (Hw whole (proj1 (proj2 K))) as (left & E & Hl).
    cbv zeta. destruct (Err s) as [e'|] eqn:Ee.
    { do 2 eexists. split; [done|]. intros ->. unfold Err in Ee. by destruct (sc_err s) as [ []|]. }
    destruct (Hl eq_refl) as (-> & H' & C' & U). rewrite app_nil_r in E.
    destruct (Nat.ltb_spec 0 (length (sc_wire s))) as [N|N].
    + apply take_frame_step.
      * split_and!; [by exists ([], EOF)|done|]. destruct K as (_ & _ & R). apply (Forall_impl _ _ _ R). intros r Hr.
        cbn. rewrite Wx, <- (app_nil_r (rd_data d)). by apply range_of_app.
      * right. split_and!; [done| |done]. intros ->. rewrite <- E in N. simpl in N. lia.
    + do 2 eexists. split; [done|]. intros _. rewrite E. apply length_zero_iff_nil. lia.
  - destruct S as (s & -> & H' & U & Cv & x & pre & Wx & En).
    destruct (scanned_ok d whole s x pre line ls e K H' Cv Wx En) as [K' En']. cbv zeta.
    destruct (utf8_Valid line); cbn [negb]; [|by do 2 eexists].
    destruct (Nat.eqb_spec (length line) 0) as [Z|Z]; [apply take_frame_step; [done|by left]|].
    assert (Nl : line ≠ []) by (by intros ->).
    destruct (cut_colon line) as [name value] eqn:Cc. case_bool_decide as Hn; cbn [negb].
    + apply (raw_step_weaken _ (add_data (mkRawDecoder s (rd_data d) (rd_ranges d)) line value)); [simpl; lia|].
      apply IH; [|simpl; lia]. destruct K' as (K1 & K2 & K3). split_and!; [done|done|].
      eapply add_data_ranged; [done|exact En'|done|exact Cc].
    + destruct (length _ =? 0)%nat; [apply take_frame_step; [done|by left]|].
      eapply raw_step_weaken; [|apply IH; [exact K'|]]; simpl; lia.
Qed.

Lemma raw_frames_whole limit fuel d whole : max = Z.max 1 limit → raw_ok max d whole → (left_of d whole < fuel)%nat →
  ∃ fs e rest, raw_frames limit fuel d = Some (fs, e) ∧ whole = concat (map Bytes fs) ++ rest ∧
    (e = EOF → rest = []) ∧ Forall replaces fs.
Proof.
  intros Em. revert d whole. induction fuel as [|fuel IH]; intros d whole K L; [lia|]. cbn [raw_frames]. unfold RawNext.
  rewrite <- Em. destruct (raw_next_step _ d whole K (Nat.lt_succ_diag_r _)) as (d' & o & -> & H). destruct o as [e|f].
  - exists [], e, whole. by split_and!.
  - destruct H as (rest & -> & K' & R & U). destruct (IH d' rest K') as (fs & e & rest' & E & -> & He & F); [lia|].
    unfold RawNext in E. rewrite E. exists (f :: fs), e, rest'. split_and!; [done|by cbn; rewrite app_assoc|done|by constructor].
Qed.
End Raw.

(** C26. The raw decoder loses nothing: over any reader that delivers the bytes [s] and
    ends well, the bytes of its frames in order are a prefix of [s], all of it when
    the stream ends with no error; and in each frame a replacement in the data is
    refused exactly when no data line holds it, and otherwise replaces, in the wire
    bytes, exactly the bytes the data has there. *)
Theorem raw_decoder_lossless (limit : Z) (r : reader) (s : text) :
  content 0 r = Some s → Z.max 1 limit <= 2 ^ 62 - 4 →
  let d := NewRawDecoder r limit in
  ∃ fs e rest, raw_frames limit (S (S (unread (rd_scanner d)))) d = Some (fs, e) ∧
    s = concat (map Bytes fs) ++ rest ∧ (e = EOF → rest = []) ∧ Forall replaces fs.
Proof.
  intros C Hm d. apply (raw_frames_whole (Z.max 1 limit) ltac:(lia) limit _ d s eq_refl).
  - split_and!; [exists (lines_of (Z.max 1 limit) s); by apply newScanner_holds; [lia|]| |by constructor].
    exists s. done.
  - unfold left_of. case_match; lia.
Qed.

(** A frame of two data lines, cut within a CRLF, and a replacement in the second. *)
Lemma raw_decoder_lossless_witness :
  let r := [(txt "data: ab" ++ [CR], None); ([LF] ++ txt "data:cd" ++ [LF; CR], None); ([LF], None)] in
  ∃ f g, raw_frames 100 (S (S (unread (rd_scanner (NewRawDecoder r 100))))) (NewRawDecoder r 100) = Some ([f; g], EOF) ∧
    RawData f = txt "ab" ++ [LF] ++ txt "cd" ∧
    ReplaceData f 3 4 (txt "XY") = Some (Some (txt "data: ab" ++ [CR; LF] ++ txt "data:XYd" ++ [LF; CR])) ∧
    concat (map Bytes [f; g]) = txt "data: ab" ++ [CR; LF] ++ txt "data:cd" ++ [LF; CR; LF].
Proof.
  intros r. destruct (raw_decoder_lossless 100 r _ eq_refl ltac:(lia)) as (fs & e & rest & E & Hs & He & _).
  vm_compute in E. injection E as <- <-. specialize (He eq_refl). subst rest. rewrite app_nil_r in Hs.
  do 2 eexists. split; [vm_compute; reflexivity|]. split; [vm_compute; reflexivity|].
  split; [vm_compute; reflexivity|]. etransitivity; [symmetry; exact Hs|]. vm_compute. reflexivity.
Defined.
