(* ===== verification/Limits.v ===== *)
(** * Shared rate limits

    The request, token and concurrency limits that replicas share through Valkey
    ([internal/limits]): the Lua scripts that decide atomically from the server's
    clock, the request the gateway sends and the strict reading of what they answer.
    A script runs as one step on the two keys of a lookup: the rate hash, whose fields
    hold decimal text, and the sorted set of concurrency leases, whose scores are whole
    milliseconds. A key has an expiry, past which commands do not see it. Numbers that
    Lua and Redis write are integers of at most 53 bits, so their text is decimal. *)

From S2P Require Import Prelude Go Amount.
From Stdlib Require Import Ascii.
Local Open Scope Z_scope.
Local Open Scope olp_scope.

(** ** Valkey *)

Inductive key (A : Type) := Missing | Holds (value : A) (expiry : option Z) | Foreign.
Arguments Missing {A}. Arguments Holds {A} value expiry. Arguments Foreign {A}.

Notation hash := (gmap string string).
Notation zset := (gmap string Z).

Record valkey := mkValkey { rate : key hash; concurrency : key zset }.

(** A key as commands see it at a time in milliseconds. *)
Definition live {A} (now : Z) (k : key A) : key A :=
  match k with
  | Holds a (Some e) => if now >? e then Missing else k
  | _ => k
  end.

Definition fields_of (k : key hash) : hash := match k with Holds h _ => h | _ => ∅ end.

(** A sorted set without members is no key. *)
Definition set_zset (z : zset) (e : option Z) : key zset :=
  if bool_decide (z = ∅) then Missing else Holds z e.

Definition decimal_text (n : Z) : string := big_String n.

(** ** The scripts *)

Definition MAX_SAFE_INTEGER : Z := 9007199254740991.
Definition MINUTE_MS : Z := 60000.

(** [parse_safe_unsigned_integer]: digits, and no more than the largest safe integer. *)
Definition parse_safe (raw : string) : option Z :=
  if negb (String.eqb raw "") && decimalDigits raw && (dec_value raw <=? MAX_SAFE_INTEGER)
  then Some (dec_value raw) else None.

Inductive item := RInt (n : Z) | RStr (s : string).

(** What a script answers: an array, an integer or an error reply. *)
Inductive answer := Items (l : list item) | Integer (n : Z) | ErrorReply (s : string).

Record share_args := mkShare { sh_class : string; sh_percent : Z; sh_saturation : Z }.

Record reserve_args := mkArgs {
  a_rpm : Z; a_tpm : Z; a_tokens : Z; a_concurrency : Z; a_lease : string; a_ttl : Z;
  a_report : bool; a_share : option share_args; a_track : bool;
}.

Definition failure (reason : string) (window : Z) : answer :=
  Items [RInt 2; RInt (-1); RStr reason; RInt 0; RInt window; RInt 0].

Definition is_class (s : string) : bool := negb (String.eqb s "") && all_bytes is_lower s.

Definition safe (n : Z) : bool := (0 <=? n) && (n <=? MAX_SAFE_INTEGER).

Definition args_ok (a : reserve_args) : bool :=
  match a_share a with
  | None => true
  | Some s => is_class (sh_class s) && (len (sh_class s) <=? 16) && (0 <=? sh_percent s) && (sh_percent s <=? 100) &&
              (1 <=? sh_saturation s) && (sh_saturation s <=? 100) &&
              String.prefix (sh_class s +:+ ".") (a_lease a)
  end &&
  safe (a_rpm a) && safe (a_tpm a) && safe (a_tokens a) && safe (a_concurrency a) && safe (a_ttl a) &&
  negb ((a_tpm a >? 0) && (a_tokens a <? 1)) && (1 <=? a_ttl a) &&
  (1 <=? len (a_lease a)) && (len (a_lease a) <=? 128).

Definition allowance (limit used : Z) : Z := if (limit =? 0) || (used >=? limit) then 0 else limit - used.

Definition portion (limit percent : Z) : Z := limit / 100 * percent + limit mod 100 * percent / 100.

Definition within_share (s : share_args) (limit total class : Z) : bool :=
  (total <=? portion limit (sh_saturation s)) || (class <=? portion limit (sh_percent s)).

(** [HINCRBY] of a field that holds the decimal text of an integer; [None] is the
    error of one that does not. *)
Definition HINCRBY (h : hash) (f : string) (n : Z) : option hash :=
  match h !! f with
  | None => Some (<[f := decimal_text n]> h)
  | Some t => if String.eqb t (decimal_text (dec_value t)) then Some (<[f := decimal_text (dec_value t + n)]> h) else None
  end.

Section Reserve.
Context (a : reserve_args) (now_us : Z).

Definition seconds : Z := now_us / 1000000.
Definition now_ms : Z := now_us / 1000.
Definition window_id : Z := seconds / 60.
Definition window_remaining_ms : Z := MINUTE_MS - (seconds mod 60 * 1000 + now_us mod 1000000 / 1000).

Definition track_concurrency : bool := (a_concurrency a >? 0) || a_track a.
Definition rate_enabled : bool := (a_rpm a >? 0) || (a_tpm a >? 0).

Definition decision (status : Z) (detail : string) (retry lease rpm tpm : Z) : answer :=
  Items ([RInt 2; RInt status; RStr detail; RInt retry; RInt window_id; RInt lease] ++
         if a_report a then
           [RInt (a_rpm a); RInt (allowance (a_rpm a) rpm); RInt (a_tpm a); RInt (allowance (a_tpm a) tpm);
            RInt (if rate_enabled then window_remaining_ms else 0)]
         else []).

(** The counters in force: whether the hash is of this window, its counts and those of
    the class. *)
Definition read_class (h : hash) (f : string) : option Z :=
  match h !! f with None => Some 0 | Some t => parse_safe t end.

Definition read_rate (k : key hash) : option (bool * Z * Z * Z * Z) :=
  if negb rate_enabled then Some (false, 0, 0, 0, 0)
  else match k with
  | Foreign => None
  | _ =>
      let h := fields_of k in
      let current :=
        match h !! "window"%string, h !! "rpm"%string, h !! "tpm"%string with
        | None, None, None => Some (false, 0, 0)
        | Some w, Some r, Some t =>
            match parse_safe w, parse_safe r, parse_safe t with
            | Some w, Some r, Some t =>
                if w >? window_id then None else if w =? window_id then Some (true, r, t) else Some (false, 0, 0)
            | _, _, _ => None
            end
        | _, _, _ => None
        end in
      match current with
      | None => None
      | Some (current, rpm, tpm) =>
          match a_share a with
          | Some s =>
              if current then
                match read_class h ("rpm:" +:+ sh_class s), read_class h ("tpm:" +:+ sh_class s) with
                | Some cr, Some ct => Some (current, rpm, tpm, cr, ct)
                | _, _ => None
                end
              else Some (current, rpm, tpm, 0, 0)
          | None => Some (current, rpm, tpm, 0, 0)
          end
      end
  end.

(** The refusal of the rate limits, if any. *)
Definition refuse_rate (rpm tpm class_rpm class_tpm : Z) : option string :=
  if (a_rpm a >? 0) && (rpm >=? a_rpm a) then Some "rpm"%string
  else if (a_tpm a >? 0) && ((a_tokens a >? a_tpm a) || (tpm >? a_tpm a - a_tokens a)) then Some "tpm"%string
  else match a_share a with
  | None => None
  | Some s =>
      if (a_rpm a >? 0) && negb (within_share s (a_rpm a) (rpm + 1) (class_rpm + 1)) then Some "rpm"%string
      else if (a_tpm a >? 0) && negb (within_share s (a_tpm a) (tpm + a_tokens a) (class_tpm + a_tokens a))
      then Some "tpm"%string else None
  end.

Definition scores (z : zset) : list Z := (map_to_list z).*2.
Definition least (z : zset) (d : Z) : Z := foldr Z.min d (scores z).
Definition greatest (z : zset) : Z := foldr Z.max 0 (scores z).

Definition purge (z : zset) : zset := filter (λ p, now_ms < p.2) z.

Definition class_leases (s : share_args) (z : zset) : Z :=
  Z.of_nat (size (filter (λ p, String.prefix (sh_class s +:+ ".") p.1 = true) z)).

(** The concurrency leases held: a failure, a refusal with the time to wait, or the
    latest expiry. *)
Definition check_concurrency (z : zset) : unit + (Z + Z) :=
  let held := Z.of_nat (size z) in
  let oldest := least z MAX_SAFE_INTEGER in
  let newest := greatest z in
  if (held >? 0) && negb (safe oldest && safe newest) then inl ()
  else if (held >? 0) && (a_concurrency a >? 0) && (held >=? a_concurrency a) then inr (inl (oldest - now_ms))
  else
    match a_share a with
    | Some s =>
        if (a_concurrency a >? 0) && negb (within_share s (a_concurrency a) (held + 1) (class_leases s z + 1))
        then inr (inl (if held >? 0 then oldest - now_ms else 1000)) else inr (inr newest)
    | None => inr (inr newest)
    end.

(** Counting a request that every dimension admitted. *)
Definition bump (h : hash) (class : option string) : option hash :=
  let incr (b : bool) (f : string) (n : Z) (h : hash) := if b then HINCRBY h f n else Some h in
  h ← match class with None => incr (a_rpm a >? 0) "rpm"%string 1 h | Some c => incr (a_rpm a >? 0) ("rpm:" +:+ c) 1 h end;
  match class with
  | None => incr (a_tpm a >? 0) "tpm"%string (a_tokens a) h
  | Some c => incr (a_tpm a >? 0) ("tpm:" +:+ c) (a_tokens a) h
  end.

Definition count_rate (k : key hash) (current : bool) : option (key hash) :=
  if negb rate_enabled then Some k
  else
    let class := sh_class <$> a_share a in
    if negb current then
      let h : hash := <["window" := decimal_text window_id]> (<["rpm" := decimal_text (if a_rpm a >? 0 then 1 else 0)]>
                (<["tpm" := decimal_text (if a_tpm a >? 0 then a_tokens a else 0)]> ∅)) in
      h ← match class with Some c => bump h (Some c) | None => Some h end;
      Some (Holds h (Some (now_ms + window_remaining_ms)))
    else
      match k with
      | Holds h e =>
          h ← bump h None;
          let e := match e with
                   | Some e => if e - now_ms <? 1 then now_ms + window_remaining_ms else e
                   | None => now_ms + window_remaining_ms
                   end in
          h ← match class with Some c => bump h (Some c) | None => Some h end;
          Some (Holds h (Some e))
      | k => Some k
      end.

(** [reserve_limits.lua]. The error of [HINCRBY] comes from text with leading zeros,
    which no script writes; the increments before it are left out. *)
Definition reserve_limits (v : valkey) : valkey * answer :=
  let lease_expires_at := if track_concurrency then now_ms + a_ttl a else 0 in
  if negb (args_ok a) then (v, failure "invalid_arguments" 0)
  else if seconds >? 9007199254739 then (v, failure "invalid_server_time" 0)
  else if track_concurrency && (a_ttl a >? MAX_SAFE_INTEGER - now_ms) then (v, failure "invalid_arguments" 0)
  else
    let k := live now_ms (rate v) in
    match read_rate k with
    | None => (v, failure "malformed_rate_state" window_id)
    | Some (current, rpm, tpm, class_rpm, class_tpm) =>
        match refuse_rate rpm tpm class_rpm class_tpm with
        | Some dimension => (v, decision 0 dimension window_remaining_ms 0 rpm tpm)
        | None =>
            let commit (v : valkey) :=
              match count_rate k current with
              | None => (v, ErrorReply "ERR hash value is not an integer")
              | Some k => (mkValkey k (concurrency v), decision 1 "ok" 0 lease_expires_at (rpm + 1) (tpm + a_tokens a))
              end in
            if negb track_concurrency then commit v
            else match live now_ms (concurrency v) with
            | Foreign => (v, failure "malformed_concurrency_state" window_id)
            | kc =>
                let '(z, e) := match kc with Holds z e => (purge z, e) | _ => (∅, None) end in
                let v := mkValkey (rate v) (set_zset z e) in
                match check_concurrency z with
                | inl _ => (v, failure "malformed_concurrency_state" window_id)
                | inr (inl retry) => (v, decision 0 "concurrency" retry 0 rpm tpm)
                | inr (inr newest) =>
                    let '(v, r) := commit v in
                    match r with
                    | ErrorReply _ => (v, r)
                    | _ => (mkValkey (rate v) (Holds (<[a_lease a := lease_expires_at]> z) (Some (Z.max newest lease_expires_at))), r)
                    end
                end
            end
        end
    end.
End Reserve.

(** [refund_limits.lua] for the arguments a lease gives. *)
Definition refund_limits (now : Z) (window : string) (requests tokens : Z) (lease : string) (class : option string)
    (v : valkey) : valkey * answer :=
  if (requests >? 1) || negb (safe tokens) || negb (safe requests) || (len lease <? 1) || (len lease >? 128) ||
     match class with Some c => negb (is_class c) | None => false end
  then (v, ErrorReply "invalid refund arguments")
  else
    let release (v : valkey) :=
      match live now (concurrency v) with
      | Holds z e => (mkValkey (rate v) (set_zset (delete lease z) e), Integer 1)
      | Missing => (v, Integer 1)
      | Foreign => (v, ErrorReply "WRONGTYPE")
      end in
    match live now (rate v) with
    | Foreign => (v, ErrorReply "WRONGTYPE")
    | Missing => release v
    | Holds h e =>
        if bool_decide (h !! "window"%string = Some window) && bool_decide (h !! ("refunded:" +:+ lease) = None) then
          if bool_decide (h !! ("reconciled:" +:+ lease) ≠ None) then (v, ErrorReply "cannot refund a reconciled lease")
          else
            match h !! "rpm"%string ≫= parse_safe, h !! "tpm"%string ≫= parse_safe with
            | Some rpm, Some tpm =>
                let h := <["rpm" := decimal_text (Z.max 0 (rpm - requests))]> (<["tpm" := decimal_text (Z.max 0 (tpm - tokens))]>
                         (<["refunded:" +:+ lease := "1"]> (<["reconciled:" +:+ lease := "1"]> h))) in
                let h := match class with
                         | None => h
                         | Some c =>
                             let held f := default 0 (h !! f ≫= parse_safe) in
                             <["rpm:" +:+ c := decimal_text (Z.max 0 (held ("rpm:" +:+ c)%string - requests))]>
                               (<["tpm:" +:+ c := decimal_text (Z.max 0 (held ("tpm:" +:+ c)%string - tokens))]> h)
                         end in
                release (mkValkey (Holds h e) (concurrency v))
            | _, _ => (v, ErrorReply "invalid rate state")
            end
        else release v
    end.

(** [reconcile_limits.lua] *)
Definition adjusted (adjustment current : Z) : Z :=
  if (adjustment >? 0) && (current >? MAX_SAFE_INTEGER - adjustment) then MAX_SAFE_INTEGER
  else Z.max 0 (current + adjustment).

Definition reconcile_limits (now : Z) (window : string) (adjustment : Z) (lease : string) (class : option string)
    (v : valkey) : valkey * answer :=
  match live now (rate v) with
  | Foreign => (v, ErrorReply "WRONGTYPE")
  | Missing => (v, Integer 0)
  | Holds h e =>
      if negb (bool_decide (h !! "window"%string = Some window)) then (v, Integer 0)
      else if (adjustment <? - MAX_SAFE_INTEGER) || (adjustment >? MAX_SAFE_INTEGER) || (adjustment =? 0) then (v, Integer 0)
      else if (len lease <? 1) || (len lease >? 128) then (v, ErrorReply "invalid lease ID")
      else if bool_decide (h !! ("reconciled:" +:+ lease) ≠ None) then (v, Integer 0)
      else if match class with Some c => negb (is_class c) | None => false end then (v, ErrorReply "invalid share class")
      else match h !! "tpm"%string ≫= parse_safe with
      | None => (v, ErrorReply "invalid token state")
      | Some tpm =>
          let done (h : hash) :=
            (mkValkey (Holds (<["tpm" := decimal_text (adjusted adjustment tpm)]> (<["reconciled:" +:+ lease := "1"]> h)) e)
               (concurrency v), Integer 1) in
          match class with
          | None => done h
          | Some c =>
              match read_class h ("tpm:" +:+ c) with
              | None => (v, ErrorReply "invalid token state")
              | Some held => done (<["tpm:" +:+ c := decimal_text (adjusted adjustment held)]> h)
              end
          end
      end
  end.

(** [release_concurrency.lua] *)
Definition release_concurrency (now : Z) (lease : string) (v : valkey) : valkey * answer :=
  match live now (concurrency v) with
  | Holds z e => (mkValkey (rate v) (set_zset (delete lease z) e), Integer (if bool_decide (z !! lease = None) then 0 else 1))
  | Missing => (v, Integer 0)
  | Foreign => (v, ErrorReply "WRONGTYPE")
  end.

(** [provider_usage.lua] *)
Definition provider_usage (now_us : Z) (v : valkey) : answer :=
  let now := now_ms now_us in
  match live now (rate v), live now (concurrency v) with
  | Foreign, _ | _, Foreign => ErrorReply "WRONGTYPE"
  | kr, kc =>
      let h := fields_of kr in
      let held := match kc with Holds z _ => Z.of_nat (size (purge now_us z)) | _ => 0 end in
      match h !! "window"%string, h !! "rpm"%string, h !! "tpm"%string with
      | None, None, None => Items [RInt 0; RInt 0; RInt held]
      | w, r, t =>
          match w ≫= parse_safe, r ≫= parse_safe, t ≫= parse_safe with
          | Some w, Some r, Some t =>
              if w >? window_id now_us then ErrorReply "invalid rate state"
              else if w =? window_id now_us then Items [RInt r; RInt t; RInt held]
              else Items [RInt 0; RInt 0; RInt held]
          | _, _, _ => ErrorReply "invalid rate state"
          end
      end
  end.

(** ** The request *)

Record Share := mkShareOf { Class : string; Percent : Z; SaturationPercent : Z }.

Record Request := mkRequest {
  CostBasis : string; CostOwnerID : string; LookupID : string;
  RequestsPerMinute : option Z; TokensPerMinute : option Z; MaxConcurrency : option Z; TrackConcurrency : bool;
  DailyCostLimit : option string; MonthlyCostLimit : option string; WeeklyCostLimit : option string;
  RequestedTokens : Z; LeaseTTL : Duration; CostEstimate : string; RequestID : string; CostGrace : Duration;
  ReportRate : bool; Req_Share : Share;
}.

Definition divides (s : Share) : bool := negb (String.eqb (Class s) "").

Definition validClass (class : string) : bool :=
  negb (String.eqb class "") && (len class <=? 16) && all_bytes is_lower class.

Definition Share_valid (s : Share) : bool :=
  validClass (Class s) && (0 <=? Percent s) && (Percent s <=? 100) && (1 <=? SaturationPercent s) && (SaturationPercent s <=? 100).

Definition HasCostBudget (r : Request) : bool :=
  is_some (DailyCostLimit r) || is_some (MonthlyCostLimit r) || is_some (WeeklyCostLimit r).

Definition HasHardLimits (r : Request) : bool :=
  is_some (RequestsPerMinute r) || is_some (TokensPerMinute r) || is_some (MaxConcurrency r) || HasCostBudget r.

Definition HasRateLimits (r : Request) : bool :=
  is_some (RequestsPerMinute r) || is_some (TokensPerMinute r) || is_some (MaxConcurrency r) || TrackConcurrency r.

Definition reportsRate (r : Request) : bool :=
  ReportRate r && (is_some (RequestsPerMinute r) || is_some (TokensPerMinute r)).

Definition validBasis (b : string) : bool := String.eqb b "" || String.eqb b "cost" || String.eqb b "charge".

Definition validLookup (lookup : string) : bool :=
  (8 <=? len lookup) && (len lookup <=? 40) &&
  all_bytes (λ c, is_digit c || is_lower c || is_upper c || Ascii.eqb c "_") lookup.

Definition ValidCostLimit (value : string) : bool := ValidAmount value && negb (trims_to_empty value "0.").

Definition Milliseconds (d : Duration) : Z := Z.quot d Millisecond.

Definition check_limit (limit : option Z) (name : string) : option string :=
  match limit with
  | None => None
  | Some n =>
      if n <? 1 then Some (name +:+ " must be positive")
      else if n >? MAX_SAFE_INTEGER then Some (name +:+ " exceeds the Valkey Lua integer range") else None
  end.

Definition check_cost_limit (limit : option string) (name : string) : option string :=
  match limit with
  | Some v => refuse_if (negb (ValidCostLimit v))
                (name +:+ " cost limit must be a positive decimal with at most 12 integer and 12 fractional digits")
  | None => None
  end.

(** The reason a request is refused with; [uuid_ok] is what [uuid.Parse] accepts. *)
Definition Validate (uuid_ok : string → bool) (r : Request) : option string :=
  refuse_if (negb (validLookup (LookupID r))) "lookup ID must be 8-40 ASCII letters, digits, or underscores" <|>
  refuse_if (negb (uuid_ok (CostOwnerID r))) "cost owner ID must be a UUID" <|>
  check_limit (RequestsPerMinute r) "requests per minute" <|>
  check_limit (TokensPerMinute r) "tokens per minute" <|>
  check_limit (MaxConcurrency r) "max concurrency" <|>
  refuse_if (RequestedTokens r <? 0) "requested tokens cannot be negative" <|>
  refuse_if (RequestedTokens r >? MAX_SAFE_INTEGER) "requested tokens exceed the Valkey Lua integer range" <|>
  refuse_if (is_some (TokensPerMinute r) && (RequestedTokens r <? 1)) "requested tokens must be positive when a token limit applies" <|>
  refuse_if (divides (Req_Share r) && negb (Share_valid (Req_Share r)))
    "a share names a lowercase class, a percent from 0 to 100 and a saturation from 1 to 100" <|>
  check_cost_limit (DailyCostLimit r) "daily" <|>
  check_cost_limit (MonthlyCostLimit r) "monthly" <|>
  check_cost_limit (WeeklyCostLimit r) "weekly" <|>
  refuse_if (Milliseconds (LeaseTTL r) <? 1) "lease TTL must be at least one millisecond" <|>
  refuse_if (CostGrace r <? 0) "cost grace cannot be negative" <|>
  (if String.eqb (CostEstimate r) "" then None
   else
     refuse_if (negb (HasCostBudget r)) "a cost estimate needs a cost budget to reserve against" <|>
     refuse_if (negb (ValidCostLimit (CostEstimate r)))
       "cost estimate must be a positive decimal with at most 12 integer and 12 fractional digits" <|>
     refuse_if (negb (uuid_ok (RequestID r))) "a cost estimate needs the request ID it will be accounted under") <|>
  refuse_if (negb (validBasis (CostBasis r))) "cost basis must be cost or charge".

Definition limitValue (limit : option Z) : Z := default 0 limit.

(** The identifier of a lease, with the class it is counted in. *)
Definition lease_id (r : Request) (id : string) : string :=
  if divides (Req_Share r) then Class (Req_Share r) +:+ "." +:+ id else id.

(** The arguments [reserveRate] gives to the script. *)
Definition args_of (r : Request) (id : string) : reserve_args :=
  mkArgs (limitValue (RequestsPerMinute r)) (limitValue (TokensPerMinute r)) (RequestedTokens r)
    (limitValue (MaxConcurrency r)) id (Milliseconds (LeaseTTL r)) (reportsRate r)
    (if divides (Req_Share r)
     then Some (mkShare (Class (Req_Share r)) (Percent (Req_Share r)) (SaturationPercent (Req_Share r))) else None)
    (TrackConcurrency r).

(** ** Reading replies *)

Inductive Dimension := Requests | Tokens | Concurrency.
Inductive resultKind := Granted | Rejected | Malformed | ScriptFailure.

Record RateState := mkRateState {
  RequestLimit : Z; RequestRemaining : Z; TokenLimit : Z; TokenRemaining : Z; ResetAfter : Duration; ResetAt : Z;
}.

Definition noRate : RateState := mkRateState 0 0 0 0 0 0.

(** [ResetAt] is in milliseconds of the Unix epoch. *)
Definition rateState (window requestLimit requestRemaining tokenLimit tokenRemaining resetMS : Z) : RateState :=
  if (requestLimit =? 0) && (tokenLimit =? 0) then noRate
  else mkRateState requestLimit requestRemaining tokenLimit tokenRemaining (resetMS * Millisecond) ((window + 1) * MINUTE_MS).

Record scriptResult := mkResult {
  s_kind : resultKind; s_dimension : option Dimension; s_retry : Z; s_window : Z; s_expiry : Z; s_rate : RateState;
}.

Definition luaSafe (n : Z) : bool := (n >=? 0) && (n <=? MAX_SAFE_INTEGER).

Definition replyInt (i : item) : option Z := match i with RInt n => Some n | RStr _ => None end.

Definition maxWindowID : Z := MAX_SAFE_INTEGER / MINUTE_MS.

(** The allowance a stated reply appends, if it fits the decision. *)
Definition parseAllowance (items : list item) (window : Z) (decision : scriptResult) : option RateState :=
  match mapM replyInt items with
  | Some [requestLimit; requestRemaining; tokenLimit; tokenRemaining; reset] =>
      let limited := (requestLimit >? 0) || (tokenLimit >? 0) in
      let inWindow := (reset >=? 1) && (reset <=? MINUTE_MS) in
      if negb (forallb luaSafe [requestLimit; requestRemaining; tokenLimit; tokenRemaining; reset]) then None
      else if (requestRemaining >? requestLimit) || (tokenRemaining >? tokenLimit) ||
         (limited && (negb inWindow || (window >=? maxWindowID))) || (negb limited && negb (reset =? 0)) then None
      else if
        match s_kind decision, s_dimension decision with
        | Granted, _ => (requestLimit >? 0) && (requestRemaining >=? requestLimit) ||
                        (tokenLimit >? 0) && (tokenRemaining >=? tokenLimit)
        | _, Some Requests => (requestLimit =? 0) || negb (requestRemaining =? 0) || negb (s_retry decision =? reset)
        | _, Some Tokens => (tokenLimit =? 0) || negb (s_retry decision =? reset)
        | _, _ => false
        end then None
      else Some (rateState window requestLimit requestRemaining tokenLimit tokenRemaining reset)
  | _ => None
  end.

(** The decision a reply's first six fields make. *)
Definition parse_head (status : Z) (detail : string) (retry window expiry : Z) : option scriptResult :=
  if (status =? 1) && String.eqb detail "ok" && (retry =? 0) && (window >? 0)
  then Some (mkResult Granted None 0 window expiry noRate)
  else if (status =? 0) && (String.eqb detail "rpm" || String.eqb detail "tpm") && (retry >=? 1) && (retry <=? MINUTE_MS) &&
          (window >? 0) && (expiry =? 0)
  then Some (mkResult Rejected (Some (if String.eqb detail "tpm" then Tokens else Requests)) retry 0 0 noRate)
  else if (status =? 0) && String.eqb detail "concurrency" && (retry >=? 1) && (window >? 0) && (expiry =? 0)
  then Some (mkResult Rejected (Some Concurrency) retry 0 0 noRate)
  else if (status =? -1) && (String.eqb detail "malformed_rate_state" || String.eqb detail "malformed_concurrency_state") &&
          (retry =? 0) && (window >? 0) && (expiry =? 0)
  then Some (mkResult Malformed None 0 0 0 noRate)
  else if (status =? -1) && (String.eqb detail "invalid_arguments" || String.eqb detail "invalid_server_time") &&
          (retry =? 0) && (window =? 0) && (expiry =? 0)
  then Some (mkResult ScriptFailure None 0 0 0 noRate)
  else None.

(** [None] is [ErrUnexpectedResponse]. *)
Definition parseReservation (value : answer) (stated : bool) : option scriptResult :=
  match value with
  | Items (RInt version :: RInt status :: RStr detail :: RInt retry :: RInt window :: RInt expiry :: rest) =>
      if negb (version =? 2) || negb (luaSafe retry) || negb (luaSafe window) || negb (luaSafe expiry) then None
      else match parse_head status detail retry window expiry with
      | None => None
      | Some result =>
          if negb stated || (status =? -1) then match rest with [] => Some result | _ => None end
          else if negb (length rest =? 5)%nat then None
          else match parseAllowance rest window result with
               | None => None
               | Some rate => Some (mkResult (s_kind result) (s_dimension result) (s_retry result) (s_window result) (s_expiry result) rate)
               end
      end
  | _ => None
  end.

(** ** Reservations *)

Inductive limit_error :=
  | InvalidRequestError (Reason : string)
  | ServiceError (what : string)
  | ExceededError (d : Dimension) (RetryAfter : Duration) (Rate : RateState)
  | ErrMalformedState | ErrUnexpectedResponse.

(** A lease of the rate and concurrency limits. *)
Record Lease := mkLease {
  le_id : string; le_windowID : Z; le_reservedTokens : Z; le_hasToken : bool; le_hasRequest : bool; le_hasRate : bool;
  le_concurrencyExpiresAtMS : Z; le_class : option string; le_rate : option RateState;
}.

(** [reserveRate], with the script run at the server's time. *)
Definition reserveRate (now_us : Z) (r : Request) (id : string) (v : valkey) : valkey * (limit_error + scriptResult) :=
  let '(v, value) := reserve_limits (args_of r id) now_us v in
  (v,
   match value with
   | ErrorReply s => inl (ServiceError s)
   | _ =>
       match parseReservation value (reportsRate r) with
       | None => inl ErrUnexpectedResponse
       | Some result =>
           let decided := match s_kind result with Granted | Rejected => true | _ => false end in
           if reportsRate r && decided &&
              (negb (RequestLimit (s_rate result) =? limitValue (RequestsPerMinute r)) ||
               negb (TokenLimit (s_rate result) =? limitValue (TokensPerMinute r))) then inl ErrUnexpectedResponse
           else match s_kind result with
           | Granted =>
               if Bool.eqb (is_some (MaxConcurrency r) || TrackConcurrency r) (s_expiry result >? 0)
               then inr result else inl ErrUnexpectedResponse
           | Rejected =>
               match s_dimension result with
               | Some d => inl (ExceededError d (s_retry result * Millisecond) (s_rate result))
               | None => inl ErrUnexpectedResponse
               end
           | Malformed => inl ErrMalformedState
           | ScriptFailure => inl ErrUnexpectedResponse
           end
       end
   end).

(** [Limiter.Reserve]: the lease of the rate and concurrency limits. [cost] is what
    [reserveCost] answers for a request with a cost budget; it keeps other keys. *)
Definition Reserve (uuid_ok : string → bool) (cost : Request → option limit_error) (now_us : Z) (r : Request) (uuid : string)
    (v : valkey) : valkey * (limit_error + Lease) :=
  match Validate uuid_ok r with
  | Some reason => (v, inl (InvalidRequestError reason))
  | None =>
      match (if HasCostBudget r then cost r else None) with
      | Some e => (v, inl e)
      | None =>
          if negb (HasRateLimits r)
          then (v, inr (mkLease "" 0 (RequestedTokens r) (is_some (TokensPerMinute r)) (is_some (RequestsPerMinute r))
                          false 0 None None))
          else
            let class := if divides (Req_Share r) then Some (Class (Req_Share r)) else None in
            let id := lease_id r uuid in
            match reserveRate now_us r id v with
            | (v, inl e) => (v, inl e)
            | (v, inr granted) =>
                (v, inr (mkLease id (s_window granted) (RequestedTokens r) (is_some (TokensPerMinute r))
                           (is_some (RequestsPerMinute r)) true (s_expiry granted) class
                           (if reportsRate r then Some (s_rate granted) else None)))
            end
      end
  end.

(** [Refund], [Reconcile] and [Release] of such a lease; an error reply is an error. *)
Definition Refund (now : Z) (le : Lease) (v : valkey) : valkey * answer :=
  if negb (le_hasRate le) then (v, Integer 1)
  else refund_limits now (decimal_text (le_windowID le)) (if le_hasRequest le then 1 else 0)
         (if le_hasToken le then le_reservedTokens le else 0) (le_id le) (le_class le) v.

(** [None] is the refusal of a count the scripts do not represent. *)
Definition Reconcile (now : Z) (actualTokens : Z) (le : Lease) (v : valkey) : option (valkey * answer) :=
  if negb (le_hasToken le) then Some (v, Integer 0)
  else if (actualTokens <? 0) || (actualTokens >? MAX_SAFE_INTEGER) then None
  else Some (reconcile_limits now (decimal_text (le_windowID le)) (Z.max 0 (actualTokens - le_reservedTokens le)) (le_id le)
               (le_class le) v).

Definition Release (now : Z) (le : Lease) (v : valkey) : valkey * answer :=
  if le_concurrencyExpiresAtMS le =? 0 then (v, Integer 0) else release_concurrency now (le_id le) v.
