(* ===== verification/LimitsFacts.v ===== *)
(** * Shared rate limits: what the scripts do

    The counters and leases a script leaves: a reservation that grants counts itself in
    the window of the server's clock and adds its lease to those still held, one that
    does not only drops leases past their time; a refund takes back what its lease
    counted, once; a reconciliation only raises the token count of its window. *)

From S2P Require Import Prelude Go Amount Limits.
From Stdlib Require Import Ascii.
Local Open Scope Z_scope.
Local Open Scope olp_scope.

(** ** Text of counters *)

Lemma dec_value_text n : 0 <= n → dec_value (decimal_text n) = n.
Proof. intros H. by apply big_String_spec. Qed.

Lemma parse_text n : 0 <= n <= MAX_SAFE_INTEGER → parse_safe (decimal_text n) = Some n.
Proof.
  intros H. destruct (big_String_spec n ltac:(lia)) as (V & D & N). unfold parse_safe, decimal_text.
  rewrite (proj2 (String.eqb_neq _ _) N), D, V. cbn [negb andb]. by rewrite (proj2 (Z.leb_le _ _)) by lia.
Qed.

Lemma parse_safe_bounds t n : parse_safe t = Some n → 0 <= n <= MAX_SAFE_INTEGER.
Proof.
  unfold parse_safe. destruct (_ && _ && _) eqn:E; [|done]. intros [= <-].
  apply andb_true_iff in E as [ [E1 E2]%andb_true_iff E3]. apply Z.leb_le in E3. split; [|done].
  by apply dec_value_bound.
Qed.

Lemma HINCRBY_text h f m n : h !! f = Some (decimal_text m) → 0 <= m →
  HINCRBY h f n = Some (<[f := decimal_text (m + n)]> h).
Proof. intros E H. unfold HINCRBY. by rewrite E, dec_value_text, String.eqb_refl. Qed.

Lemma HINCRBY_other h f g n h' : HINCRBY h f n = Some h' → f ≠ g → h' !! g = h !! g.
Proof. unfold HINCRBY. repeat case_match; intros [= <-] N; by rewrite lookup_insert_ne. Qed.

(** ** The clock *)

Lemma window_bounds now : 0 <= now →
  0 <= window_id now ∧ window_id now * 60000 <= now_ms now < (window_id now + 1) * 60000 ∧
  now_ms now + window_remaining_ms now = (window_id now + 1) * 60000.
Proof.
  intros H. unfold window_remaining_ms, window_id, seconds, now_ms, MINUTE_MS.
  assert (E : now / 1000 = now / 1000000 * 1000 + now mod 1000000 / 1000).
  { rewrite (Z.div_mod now 1000000) at 1 by lia.
    replace (1000000 * (now / 1000000) + now mod 1000000) with (now mod 1000000 + (now / 1000000 * 1000) * 1000) by lia.
    rewrite Z.div_add by lia. lia. }
  pose proof (Z.mod_pos_bound now 1000000 ltac:(lia)).
  assert (0 <= now mod 1000000 / 1000 < 1000).
  { split; [apply Z.div_pos; lia|]. apply Z.div_lt_upper_bound; lia. }
  pose proof (Z.div_mod (now / 1000000) 60 ltac:(lia)). pose proof (Z.mod_pos_bound (now / 1000000) 60 ltac:(lia)).
  assert (0 <= now / 1000000 / 60) by (apply Z.div_pos; [apply Z.div_pos|]; lia).
  split_and!; lia.
Qed.

Lemma window_mono now now' : now <= now' → window_id now <= window_id now' ∧ now_ms now <= now_ms now'.
Proof.
  intros H. unfold window_id, seconds, now_ms. split; repeat apply Z.div_le_mono; lia.
Qed.

(** ** The rate hash *)

(** A hash of window [w] that counts [rpm] requests and [tpm] tokens. *)
Definition counts (h : hash) (w rpm tpm : Z) : Prop :=
  h !! "window"%string = Some (decimal_text w) ∧ h !! "rpm"%string = Some (decimal_text rpm) ∧
  h !! "tpm"%string = Some (decimal_text tpm) ∧
  0 <= w <= MAX_SAFE_INTEGER ∧ 0 <= rpm <= MAX_SAFE_INTEGER ∧ 0 <= tpm <= MAX_SAFE_INTEGER.

(** A rate key the scripts have written: it does not expire before its window ends. *)
Definition rate_ok (now : Z) (k : key hash) : Prop :=
  k = Missing ∨ ∃ h e w rpm tpm, k = Holds h (Some e) ∧ counts h w rpm tpm ∧ w <= window_id now ∧ (w + 1) * 60000 <= e.

Lemma rate_live now (h : hash) e w : 0 <= now → w = window_id now → (w + 1) * 60000 <= e →
  live (now_ms now) (Holds h (Some e)) = Holds h (Some e).
Proof.
  intros H -> E. pose proof (window_bounds now H). cbn.
  by destruct (Z.gtb_spec (now_ms now) e); [lia|].
Qed.

Lemma live_cases {A} now (k : key A) : live now k = k ∨ live now k = Missing.
Proof. destruct k as [|a [e|]|]; cbn; auto. destruct (now >? e); auto. Qed.

(** What the script reads from such a key. *)
Lemma read_rate_ok a now k cur rpm tpm cr ct : 0 <= now → rate_ok now k → rate_enabled a = true →
  read_rate a now (live (now_ms now) k) = Some (cur, rpm, tpm, cr, ct) →
  (cur = false ∧ rpm = 0 ∧ tpm = 0 ∧ ∀ h e, k = Holds h e → h !! "window"%string ≠ Some (decimal_text (window_id now))) ∨
  (cur = true ∧ live (now_ms now) k = k ∧ ∃ h e, k = Holds h (Some e) ∧ counts h (window_id now) rpm tpm ∧ (window_id now + 1) * 60000 <= e).
Proof.
  intros Hn K En. unfold read_rate. rewrite En. cbn [negb].
  assert (Hs : ∀ (b : bool) r t h, match a_share a with
    | Some s => if b then match read_class h ("rpm:" +:+ sh_class s), read_class h ("tpm:" +:+ sh_class s) with
                          | Some cr, Some ct => Some (b, r, t, cr, ct) | _, _ => None end
                else Some (b, r, t, 0, 0)
    | None => Some (b, r, t, 0, 0) end = Some (cur, rpm, tpm, cr, ct) → cur = b ∧ rpm = r ∧ tpm = t).
  { intros b r t h. repeat case_match; intros [= <- <- <- _ _]; auto. }
  destruct K as [-> |(h & e & w & r & t & -> & (C1 & C2 & C3 & B) & W & E)].
  - cbn. intros Hx. apply (Hs false 0 0 ∅) in Hx as (-> & -> & ->). left. by split_and!.
  - destruct (decide (w = window_id now)) as [Ew|Nw].
    + rewrite (rate_live now h e w) by done. cbn [fields_of]. rewrite C1, C2, C3, !parse_text by tauto.
      destruct (Z.gtb_spec w (window_id now)); [lia|]. rewrite (proj2 (Z.eqb_eq _ _)) by done.
      intros Hx. apply (Hs true r t h) in Hx as (-> & -> & ->). right. split; [done|]. split; [done|]. exists h, e. rewrite <- Ew. by split_and!.
    + assert (Hw : ∀ h' e', Holds h (Some e) = Holds h' e' → h' !! "window"%string ≠ Some (decimal_text (window_id now))).
      { intros ? ? [= <- _] Eq. rewrite C1 in Eq. injection Eq as Eq. apply (f_equal dec_value) in Eq.
        pose proof (window_bounds now Hn). rewrite !dec_value_text in Eq by lia. lia. }
      destruct (live_cases (now_ms now) (Holds h (Some e))) as [-> | ->]; cbn [fields_of].
      * rewrite C1, C2, C3, !parse_text by tauto.
        destruct (Z.gtb_spec w (window_id now)); [lia|]. rewrite (proj2 (Z.eqb_neq _ _)) by done.
        intros Hx. apply (Hs false 0 0 h) in Hx as (-> & -> & ->). left. by split_and!.
      * rewrite !lookup_empty. intros Hx. apply (Hs false 0 0 ∅) in Hx as (-> & -> & ->). left. by split_and!.
Qed.

(** ** A grant *)

Definition b2z (b : bool) (n : Z) : Z := if b then n else 0.

Lemma bump_class a h c h' : bump a h (Some c) = Some h' →
  ∀ f, f ≠ ("rpm:" +:+ c)%string → f ≠ ("tpm:" +:+ c)%string → h' !! f = h !! f.
Proof.
  unfold bump. intros E f N1 N2.
  destruct (a_rpm a >? 0); cbn [mbind option_bind] in E.
  - destruct (HINCRBY h _ 1) as [h1|] eqn:E1; cbn in E; [|done].
    rewrite <- (HINCRBY_other _ _ f _ _ E1) by done.
    destruct (a_tpm a >? 0); [by apply (HINCRBY_other _ _ f _ _ E)|by injection E as <-].
  - destruct (a_tpm a >? 0); [by apply (HINCRBY_other _ _ f _ _ E)|by injection E as <-].
Qed.

Lemma bump_counts a h w rpm tpm h' : counts h w rpm tpm →
  rpm + b2z (a_rpm a >? 0) 1 <= MAX_SAFE_INTEGER → 0 <= tpm + b2z (a_tpm a >? 0) (a_tokens a) <= MAX_SAFE_INTEGER →
  bump a h None = Some h' →
  counts h' w (rpm + b2z (a_rpm a >? 0) 1) (tpm + b2z (a_tpm a >? 0) (a_tokens a)) ∧
  ∀ f, f ≠ "rpm"%string → f ≠ "tpm"%string → h' !! f = h !! f.
Proof.
  intros (C1 & C2 & C3 & B1 & B2 & B3) Br Bt. unfold bump, b2z in *.
  assert (K : ∀ n h', h' = <["tpm" := decimal_text (tpm + n)]> (<["rpm" := decimal_text (rpm + if a_rpm a >? 0 then 1 else 0)]> h) →
    n = (if a_tpm a >? 0 then a_tokens a else 0) →
    counts h' w (rpm + if a_rpm a >? 0 then 1 else 0) (tpm + if a_tpm a >? 0 then a_tokens a else 0) ∧
    ∀ f, f ≠ "rpm"%string → f ≠ "tpm"%string → h' !! f = h !! f).
  { intros n h1 -> ->. split; [|intros f N1 N2; by rewrite !lookup_insert_ne].
    unfold counts. split_and!; try (by simplify_map_eq); destruct (a_rpm a >? 0), (a_tpm a >? 0); lia. }
  assert (Hr : h = <["rpm" := decimal_text (rpm + 0)]> h) by (by rewrite Z.add_0_r, insert_id).
  assert (Ht : ∀ h2 : hash, h2 !! "tpm"%string = Some (decimal_text tpm) → h2 = <["tpm" := decimal_text (tpm + 0)]> h2)
    by (intros; by rewrite Z.add_0_r, insert_id).
  intros E. apply (K (if a_tpm a >? 0 then a_tokens a else 0)); [|done]. clear K.
  destruct (a_rpm a >? 0), (a_tpm a >? 0); cbn [mbind option_bind] in E.
  - rewrite (HINCRBY_text h "rpm" rpm) in E by (done || lia). cbn in E.
    rewrite (HINCRBY_text _ "tpm" tpm) in E by (lia || by rewrite lookup_insert_ne). by injection E as <-.
  - rewrite (HINCRBY_text h "rpm" rpm) in E by (done || lia). cbn in E. injection E as <-.
    apply Ht. by rewrite lookup_insert_ne.
  - rewrite (HINCRBY_text h "tpm" tpm) in E by (done || lia). injection E as <-. by rewrite Hr at 1.
  - injection E as <-. rewrite <- Hr. by apply Ht.
Qed.

Lemma class_fields c f : f ∈ ["window"; "rpm"; "tpm"]%string ∨ (∃ l, f = "refunded:" +:+ l)%string →
  f ≠ ("rpm:" +:+ c)%string ∧ f ≠ ("tpm:" +:+ c)%string.
Proof.
  intros [H|[l ->] ]; [|by split].
  repeat (apply elem_of_cons in H as [-> |H]; [by split|]). by apply elem_of_nil in H.
Qed.

Lemma counts_class a h c h' w rpm tpm : bump a h (Some c) = Some h' → counts h w rpm tpm → counts h' w rpm tpm.
Proof.
  intros E (C1 & C2 & C3 & B). pose proof (bump_class _ _ _ _ E) as F.
  split_and!; rewrite ?F by (apply class_fields; left; set_solver); tauto.
Qed.

(** Counting a request keeps the key a window's, with the request counted. *)
Lemma count_rate_ok a now k cur rpm tpm k' : 0 <= now → window_id now <= MAX_SAFE_INTEGER → rate_enabled a = true →
  (cur = false ∧ rpm = 0 ∧ tpm = 0 ∨
   cur = true ∧ ∃ h e, k = Holds h (Some e) ∧ counts h (window_id now) rpm tpm ∧ (window_id now + 1) * 60000 <= e) →
  rpm + b2z (a_rpm a >? 0) 1 <= MAX_SAFE_INTEGER → 0 <= tpm + b2z (a_tpm a >? 0) (a_tokens a) <= MAX_SAFE_INTEGER →
  count_rate a now k cur = Some k' →
  ∃ h' e', k' = Holds h' (Some e') ∧
    counts h' (window_id now) (rpm + b2z (a_rpm a >? 0) 1) (tpm + b2z (a_tpm a >? 0) (a_tokens a)) ∧
    (window_id now + 1) * 60000 <= e' ∧
    (cur = true → ∀ l, h' !! ("refunded:" +:+ l)%string = fields_of k !! ("refunded:" +:+ l)%string).
Proof.
  intros Hn Hw En K Br Bt. unfold count_rate. rewrite En. cbn [negb]. pose proof (window_bounds now Hn) as (W0 & W1 & W2).
  destruct K as [(-> & -> & ->)|(-> & h & e & -> & C & E)]; cbn [negb].
  - set (h0 := <["window":=_]> _).
    assert (C0 : counts h0 (window_id now) (0 + b2z (a_rpm a >? 0) 1) (0 + b2z (a_tpm a >? 0) (a_tokens a))).
    { unfold b2z in *. split_and!; try (by unfold h0; simplify_map_eq); lia || (repeat case_match; lia). }
    destruct (a_share a) as [s|]; cbn [fmap option_fmap option_map mbind option_bind].
    + destruct (bump a h0 (Some (sh_class s))) as [h1|] eqn:B; cbn; [|done]. intros [= <-].
      do 2 eexists. split; [done|]. split; [by eapply counts_class|]. split; [lia|done].
    + intros [= <-]. do 2 eexists. split; [done|]. split; [done|]. split; [lia|done].
  - destruct (bump a h None) as [h1|] eqn:B; cbn [mbind option_bind]; [|done].
    destruct (bump_counts a h _ _ _ _ C Br Bt B) as [C1 F1].
    set (e1 := if e - now_ms now <? 1 then _ else e).
    assert (He : (window_id now + 1) * 60000 <= e1) by (unfold e1; case_match; lia).
    destruct (a_share a) as [s|]; cbn [fmap option_fmap option_map mbind option_bind].
    + destruct (bump a h1 (Some (sh_class s))) as [h2|] eqn:B2; cbn; [|done]. intros [= <-].
      do 2 eexists. split; [done|]. split; [by eapply counts_class|]. split; [done|]. intros _ l.
      rewrite (bump_class _ _ _ _ B2) by (apply class_fields; right; by eexists). by apply F1.
    + intros [= <-]. do 2 eexists. split; [done|]. split; [done|]. split; [done|]. intros _ l. by apply F1.
Qed.

(** What a reservation leaves of the leases when it grants nothing. *)
Definition purged (now : Z) (c c' : key zset) : Prop :=
  c' = c ∨ (∃ z e, live (now_ms now) c = Holds z e ∧ c' = set_zset (purge now z) e) ∨
  (live (now_ms now) c = Missing ∧ c' = Missing).

Definition grants (ans : answer) : Prop := ∃ rest, ans = Items (RInt 2 :: RInt 1 :: rest).

(** The leases a reservation counts against, of those held. *)
Definition held_leases (now : Z) (c : key zset) (z : zset) : Prop :=
  (∃ z0 e, live (now_ms now) c = Holds z0 e ∧ z = purge now z0) ∨ (live (now_ms now) c = Missing ∧ z = ∅).

Definition lease_expiry (a : reserve_args) (now : Z) : Z := if track_concurrency a then now_ms now + a_ttl a else 0.

(** A reservation that grants. *)
Definition granted (a : reserve_args) (now : Z) (v v' : valkey) (ans : answer) : Prop :=
  args_ok a = true ∧ seconds now <= 9007199254739 ∧
  (∃ cur rpm tpm cr ct, read_rate a now (live (now_ms now) (rate v)) = Some (cur, rpm, tpm, cr, ct) ∧
     refuse_rate a rpm tpm cr ct = None ∧ count_rate a now (live (now_ms now) (rate v)) cur = Some (rate v') ∧
     ans = decision a now 1 "ok" 0 (lease_expiry a now) (rpm + 1) (tpm + a_tokens a)) ∧
  (track_concurrency a = false ∧ concurrency v' = concurrency v ∨
   track_concurrency a = true ∧ ∃ z newest, held_leases now (concurrency v) z ∧
     check_concurrency a now z = inr (inr newest) ∧
     concurrency v' = Holds (<[a_lease a := now_ms now + a_ttl a]> z) (Some (Z.max newest (now_ms now + a_ttl a)))).

Lemma reserve_cases a now v v' ans : reserve_limits a now v = (v', ans) →
  (rate v' = rate v ∧ purged now (concurrency v) (concurrency v') ∧ ¬ grants ans) ∨ granted a now v v' ans.
Proof.
  unfold reserve_limits. fold (lease_expiry a now).
  assert (F : ∀ r w, ¬ grants (failure r w)) by (by intros r w [rest [=] ]).
  assert (D : ∀ d x y r t, ¬ grants (decision a now 0 d x y r t)) by (by intros d x y r t [rest [=] ]).
  assert (E : ∀ s, ¬ grants (ErrorReply s)) by (by intros s [rest [=] ]).
  assert (P : purged now (concurrency v) (concurrency v)) by (by left).
  destruct (args_ok a) eqn:A; cbn [negb]; [|intros [= <- <-]; left; by split_and!].
  destruct (Z.gtb_spec (seconds now) 9007199254739) as [|S]; [intros [= <- <-]; left; by split_and!|].
  destruct (track_concurrency a && (a_ttl a >? MAX_SAFE_INTEGER - now_ms now)); [intros [= <- <-]; left; by split_and!|].
  destruct (read_rate a now _) as [ [ [ [ [cur rpm] tpm] cr] ct]|] eqn:R; [|intros [= <- <-]; left; by split_and!].
  destruct (refuse_rate a rpm tpm cr ct) as [d|] eqn:Rf; [intros [= <- <-]; left; by split_and!|]. cbv zeta.
  destruct (track_concurrency a) eqn:T; cbn [negb].
  - assert (K : ∀ z e, held_leases now (concurrency v) z →
      purged now (concurrency v) (set_zset z e) →
      (match check_concurrency a now z with
       | inl _ => (mkValkey (rate v) (set_zset z e), failure "malformed_concurrency_state" (window_id now))
       | inr (inl retry) => (mkValkey (rate v) (set_zset z e), decision a now 0 "concurrency" retry 0 rpm tpm)
       | inr (inr newest) =>
           let '(v, r) := match count_rate a now (live (now_ms now) (rate v)) cur with
             | None => (mkValkey (rate v) (set_zset z e), ErrorReply "ERR hash value is not an integer")
             | Some k => (mkValkey k (set_zset z e), decision a now 1 "ok" 0 (lease_expiry a now) (rpm + 1) (tpm + a_tokens a))
             end in
           match r with
           | ErrorReply _ => (v, r)
           | _ => (mkValkey (rate v) (Holds (<[a_lease a := lease_expiry a now]> z) (Some (Z.max newest (lease_expiry a now)))), r)
           end
       end = (v', ans)) → (rate v' = rate v ∧ purged now (concurrency v) (concurrency v') ∧ ¬ grants ans) ∨ granted a now v v' ans).
    { intros z e Hh Hp. destruct (check_concurrency a now z) as [u|[retry|newest] ] eqn:C;
        [intros [= <- <-]; left; by split_and!..|].
      destruct (count_rate a now _ cur) as [k|] eqn:Ck; [|intros [= <- <-]; left; by split_and!].
      cbv iota beta. unfold decision at 1. intros [= <- <-]. right. split; [done|]. split; [done|]. split.
      - exists cur, rpm, tpm, cr, ct. by split_and!.
      - right. split; [done|]. exists z, newest. split; [done|]. split; [done|]. cbn.
        unfold lease_expiry. by rewrite T. }
    unfold lease_expiry in K. rewrite T in K. unfold lease_expiry. rewrite T.
    destruct (live (now_ms now) (concurrency v)) as [|z0 e|] eqn:L.
    + apply (K ∅ None); [by right|]. right. right. by rewrite L.
    + apply (K (purge now z0) e); [left; by exists z0, e|]. right. left. by exists z0, e.
    + intros [= <- <-]. left. by split_and!.
  - destruct (count_rate a now _ cur) as [k|] eqn:Ck; intros [= <- <-]; [right|left; by split_and!].
    split; [done|]. split; [done|]. split; [|by left]. exists cur, rpm, tpm, cr, ct. by split_and!.
Qed.

(** ** Leases *)

Lemma decision_granted a now x r t stated res :
  parseReservation (decision a now 1 "ok" 0 x r t) stated = Some res →
  s_kind res = Granted ∧ s_window res = window_id now ∧ s_expiry res = x.
Proof.
  unfold parseReservation, decision. cbn [app].
  assert (P : ∀ w, parse_head 1 "ok" 0 w x = if w >? 0 then Some (mkResult Granted None 0 w x noRate) else None)
    by (intros w; unfold parse_head; by destruct (w >? 0)).
  destruct (_ || _ || _ || _); [done|]. rewrite P. destruct (window_id now >? 0); [|done].
  destruct (negb stated || _); [destruct (a_report a); [done|]; by intros [= <-]|].
  destruct (negb _); [done|]. destruct (parseAllowance _ _ _); [|done]. by intros [= <-].
Qed.

Lemma parse_grants ans stated res : parseReservation ans stated = Some res → s_kind res = Granted → grants ans.
Proof.
  unfold parseReservation. destruct ans as [l| |]; try done.
  destruct l as [|[version|] [|[status|] [|[|detail] [|[retry|] [|[window|] [|[expiry|] rest] ] ] ] ] ]; try done.
  destruct (negb (version =? 2) || _ || _ || _) eqn:V; [done|].
  apply orb_false_iff in V as [ [ [V _]%orb_false_iff _]%orb_false_iff _]. apply negb_false_iff, Z.eqb_eq in V as ->.
  destruct (parse_head status detail retry window expiry) as [p|] eqn:P; [|done]. intros E K.
  assert (Kp : s_kind p = Granted).
  { repeat (case_match; simplify_eq/=; try done). }
  unfold parse_head in P. destruct ((status =? 1) && _ && _ && _) eqn:S.
  - apply andb_true_iff in S as [ [ [S _]%andb_true_iff _]%andb_true_iff _]. apply Z.eqb_eq in S as ->. by eexists.
  - repeat (case_match; simplify_eq/=; try done).
Qed.

(** What [Reserve] does to Valkey, and the lease of a grant. *)
Lemma Reserve_spec uuid_ok cost now r uuid v v' o : HasRateLimits r = true → Reserve uuid_ok cost now r uuid v = (v', o) →
  let a := args_of r (lease_id r uuid) in
  (v' = v ∧ ∃ e, o = inl e) ∨ ∃ ans, reserve_limits a now v = (v', ans) ∧
    ∀ le, o = inr le → grants ans ∧ le_id le = lease_id r uuid ∧ le_hasRate le = true ∧
      le_hasToken le = is_some (TokensPerMinute r) ∧ le_hasRequest le = is_some (RequestsPerMinute r) ∧
      le_reservedTokens le = RequestedTokens r ∧
      (∀ x rp tp, ans = decision a now 1 "ok" 0 x rp tp → le_windowID le = window_id now ∧ le_concurrencyExpiresAtMS le = x).
Proof.
  intros HR. unfold Reserve. destruct (Validate uuid_ok r); [intros [= <- <-]; left; eauto|].
  destruct (if HasCostBudget r then cost r else None); [intros [= <- <-]; left; eauto|]. rewrite HR. cbn [negb]. unfold reserveRate.
  destruct (reserve_limits _ now v) as [v1 ans] eqn:E. intros H. right. exists ans.
  assert (v1 = v') as -> by (repeat (case_match; simplify_eq/=; try done)). split; [done|]. intros le ->.
  destruct ans as [l|n|s]; try (by simplify_eq/=).
  - destruct (parseReservation (Items l) (reportsRate r)) as [res|] eqn:P; [|by simplify_eq/=].
    destruct (_ && _ && _); [by simplify_eq/=|].
    destruct (s_kind res) eqn:K; try (by repeat (case_match; simplify_eq/=; try done)).
    destruct (Bool.eqb _ _); [|by simplify_eq/=]. injection H as <-. split; [by eapply parse_grants|].
    cbn. split_and!; try done. intros x rp tp Ed. rewrite Ed in P. by apply decision_granted in P as (_ & -> & ->).
Qed.

(** ** Refunds, reconciliations and releases *)

(** The leases after one is removed. *)
Definition removed (now : Z) (id : string) (c c' : key zset) : Prop :=
  (∃ z e, live now c = Holds z e ∧ c' = set_zset (delete id z) e) ∨ (live now c = Missing ∧ c' = c).

Definition done_ok (ans : answer) : bool := match ans with Integer _ => true | _ => false end.

(** A refund that changed the counters. *)
Definition refunds (now : Z) (win : string) (req tok : Z) (id : string) (k k' : key hash) : Prop :=
  ∃ h e h' rpm tpm, live now k = Holds h e ∧ k' = Holds h' e ∧
    h !! "window"%string = Some win ∧ h !! ("refunded:" +:+ id)%string = None ∧
    h !! "rpm"%string ≫= parse_safe = Some rpm ∧ h !! "tpm"%string ≫= parse_safe = Some tpm ∧
    h' !! "window"%string = Some win ∧ h' !! "rpm"%string = Some (decimal_text (Z.max 0 (rpm - req))) ∧
    h' !! "tpm"%string = Some (decimal_text (Z.max 0 (tpm - tok))) ∧
    h' !! ("refunded:" +:+ id)%string = Some "1"%string ∧
    ∀ l, l ≠ id → h' !! ("refunded:" +:+ l)%string = h !! ("refunded:" +:+ l)%string.

Lemma append_inj a b c : (a +:+ b)%string = (a +:+ c)%string → b = c.
Proof. induction a as [|x a IH]; [done|]. by intros [= H%IH]. Qed.

Lemma refund_cases now win req tok id class v v' ans : live now (concurrency v) ≠ Foreign →
  refund_limits now win req tok id class v = (v', ans) →
  (v' = v ∧ done_ok ans = false) ∨
  (ans = Integer 1 ∧ removed now id (concurrency v) (concurrency v') ∧
   (rate v' = rate v ∧ (∀ h e, live now (rate v) = Holds h e → h !! "window"%string = Some win →
      is_Some (h !! ("refunded:" +:+ id)%string)) ∨
    refunds now win req tok id (rate v) (rate v'))).
Proof.
  intros NF. unfold refund_limits. destruct (_ || _ || _ || _ || _ || _); [intros [= <- <-]; by left|]. cbv zeta.
  assert (R : ∀ w, concurrency w = concurrency v → ∀ w',
    match live now (concurrency w) with
    | Holds z e => (mkValkey (rate w) (set_zset (delete id z) e), Integer 1)
    | Missing => (w, Integer 1)
    | Foreign => (w, ErrorReply "WRONGTYPE")
    end = (w', ans) → ans = Integer 1 ∧ removed now id (concurrency v) (concurrency w') ∧ rate w' = rate w).
  { intros w Ew w'. rewrite Ew. destruct (live now (concurrency v)) as [|z e|] eqn:L; [..|done]; intros [= <- <-].
    - split_and!; [done|right; by rewrite Ew|done].
    - split_and!; [done|left; by exists z, e|done]. }
  destruct (live now (rate v)) as [|h e|] eqn:L.
  - intros (-> & ? & E)%R; [|done]. right. split_and!; [done|done|]. left. by split.
  - destruct (bool_decide (h !! "window"%string = Some win) && _) eqn:B.
    + apply andb_true_iff in B as [B1%bool_decide_eq_true B2%bool_decide_eq_true].
      destruct (bool_decide (h !! ("reconciled:" +:+ id)%string ≠ None)); [intros [= <- <-]; by left|].
      destruct (h !! "rpm"%string ≫= parse_safe) as [rpm|] eqn:Pr; [|intros [= <- <-]; by left].
      destruct (h !! "tpm"%string ≫= parse_safe) as [tpm|] eqn:Pt; [|intros [= <- <-]; by left].
      intros (-> & ? & E)%R; [|done]. right. split_and!; [done|done|]. right. rewrite E. cbn [rate].
      unfold refunds. rewrite L. do 5 eexists. split; [done|]. split; [done|].
      destruct class as [c|]; split_and!; try done;
        repeat first [rewrite lookup_insert_eq | rewrite lookup_insert_ne by done]; try done;
        intros l Nl; repeat (rewrite lookup_insert_ne by (intros Heq; first [discriminate Heq | apply append_inj in Heq; congruence])); done.
    + intros (-> & ? & E)%R; [|done]. right. split_and!; [done|done|]. left. split; [done|].
      intros h' e' [= <- <-] Hw. apply andb_false_iff in B as [B|B].
      * by apply bool_decide_eq_false in B.
      * apply bool_decide_eq_false in B. destruct (h !! ("refunded:" +:+ id)%string); [by eexists|done].
  - intros [= <- <-]. by left.
Qed.

(** A reconciliation changes the token count of its window, upwards. *)
Lemma reconcile_cases now win adj id class v v' ans : 0 <= adj →
  reconcile_limits now win adj id class v = (v', ans) →
  concurrency v' = concurrency v ∧
  (rate v' = rate v ∨ ∃ h e h' tpm tpm', live now (rate v) = Holds h e ∧ rate v' = Holds h' e ∧
     h !! "tpm"%string ≫= parse_safe = Some tpm ∧ h' !! "tpm"%string = Some (decimal_text tpm') ∧
     tpm <= tpm' <= MAX_SAFE_INTEGER ∧
     h' !! "window"%string = h !! "window"%string ∧ h' !! "rpm"%string = h !! "rpm"%string ∧
     ∀ l, h' !! ("refunded:" +:+ l)%string = h !! ("refunded:" +:+ l)%string).
Proof.
  intros Ha. unfold reconcile_limits. destruct (live now (rate v)) as [|h e|] eqn:L; [intros [= <- <-]; auto| |intros [= <- <-]; auto].
  repeat (match goal with |- context [if ?b then (v, _) else _] => destruct b; [intros [= <- <-]; by auto|] end).
  destruct (h !! "tpm"%string ≫= parse_safe) as [tpm|] eqn:Pt; [|intros [= <- <-]; by auto].
  assert (Bt : 0 <= tpm <= MAX_SAFE_INTEGER).
  { destruct (h !! "tpm"%string) as [t|]; cbn in Pt; [|done]. by apply parse_safe_bounds in Pt. }
  assert (Bj : tpm <= adjusted adj tpm <= MAX_SAFE_INTEGER).
  { unfold adjusted. destruct (_ && _) eqn:A; [lia|]. apply andb_false_iff in A as [A|A].
    - rewrite Z.gtb_ltb in A. apply Z.ltb_ge in A. lia.
    - rewrite Z.gtb_ltb in A. apply Z.ltb_ge in A. lia. }
  assert (D : ∀ h1 : hash, (∀ f, (∀ c, f ≠ "tpm:" +:+ c)%string → h1 !! f = h !! f) →
    (mkValkey (Holds (<["tpm":=decimal_text (adjusted adj tpm)]> (<["reconciled:" +:+ id:="1"]> h1)) e) (concurrency v), Integer 1) = (v', ans) →
    concurrency v' = concurrency v ∧ (rate v' = rate v ∨ ∃ h0 e0 h' tpm0 tpm', Holds h e = Holds h0 e0 ∧ rate v' = Holds h' e0 ∧
     h0 !! "tpm"%string ≫= parse_safe = Some tpm0 ∧ h' !! "tpm"%string = Some (decimal_text tpm') ∧
     tpm0 <= tpm' <= MAX_SAFE_INTEGER ∧
     h' !! "window"%string = h0 !! "window"%string ∧ h' !! "rpm"%string = h0 !! "rpm"%string ∧
     ∀ l, h' !! ("refunded:" +:+ l)%string = h0 !! ("refunded:" +:+ l)%string)).
  { intros h1 H1 [= <- <-]. split; [done|]. right. exists h, e. do 3 eexists. split; [done|]. split; [done|].
    split; [exact Pt|]. split; [by rewrite lookup_insert_eq|]. split; [exact Bj|].
    split_and!; intros; rewrite !lookup_insert_ne by done; by apply H1. }
  destruct class as [c|].
  - destruct (read_class h ("tpm:" +:+ c)) as [held|]; [|intros [= <- <-]; by auto]. apply D.
    intros f Hf. rewrite lookup_insert_ne; [done|]. intros E. by apply (Hf c).
  - by apply D.
Qed.
