(* ===== verification/LimitsSystem.v ===== *)
(** * Shared rate limits: replicas

    The replicas that share one lookup: each step is one script, run by any of them, or
    the passing of time. The limits of the lookup stay the same; requests, token counts,
    lifetimes and shares vary, and a finished lease may be finished again, as a retried
    cleanup does. The invariant has two parts: the rate hash counts at least the grants
    of its window, and the sorted set holds every lease that has its slot. *)

From S2P Require Import Prelude Go Amount Limits LimitsFacts.
From Stdlib Require Import Ascii.
Local Open Scope Z_scope.
Local Open Scope olp_scope.

(** A lease some replica was granted, and what has become of it. *)
Record grant := mkGrant { g_lease : Lease; g_refunded : bool; g_released : bool }.

Record system := mkSystem { y_now : Z; y_valkey : valkey; y_grants : list grant }.

Definition id_of (g : grant) : string := le_id (g_lease g).
Definition window_of (g : grant) : Z := le_windowID (g_lease g).

Section Replicas.
Context (L T C : option Z).

Definition limited_by (r : Request) : Prop :=
  RequestsPerMinute r = L ∧ TokensPerMinute r = T ∧ MaxConcurrency r = C.

Inductive step : system → system → Prop :=
  | step_time y now : y_now y <= now → step y (mkSystem now (y_valkey y) (y_grants y))
  | step_reserve y uuid_ok cost r uuid v o :
      limited_by r → HasRateLimits r = true → lease_id r uuid ∉ map id_of (y_grants y) →
      Reserve uuid_ok cost (y_now y) r uuid (y_valkey y) = (v, o) →
      step y (mkSystem (y_now y) v
                (match o with inr le => mkGrant le false false :: y_grants y | inl _ => y_grants y end))
  | step_refund y pre g post v ans :
      y_grants y = pre ++ g :: post → Refund (now_ms (y_now y)) (g_lease g) (y_valkey y) = (v, ans) →
      step y (mkSystem (y_now y) v
                (pre ++ mkGrant (g_lease g) (g_refunded g || done_ok ans) (g_released g || done_ok ans) :: post))
  | step_reconcile y g actual v ans :
      g ∈ y_grants y → Reconcile (now_ms (y_now y)) actual (g_lease g) (y_valkey y) = Some (v, ans) →
      step y (mkSystem (y_now y) v (y_grants y))
  | step_release y pre g post v ans :
      y_grants y = pre ++ g :: post → Release (now_ms (y_now y)) (g_lease g) (y_valkey y) = (v, ans) →
      step y (mkSystem (y_now y) v (pre ++ mkGrant (g_lease g) (g_refunded g) (g_released g || done_ok ans) :: post)).

(** Runs from an empty Valkey. *)
Inductive reachable : system → Prop :=
  | reach_start now : 0 <= now → reachable (mkSystem now (mkValkey Missing Missing) [])
  | reach_step y y' : reachable y → step y y' → reachable y'.

(** Grants of a window that were not refunded, and the tokens they reserved. *)
Definition counted (w : Z) (gs : list grant) : list grant :=
  filter (λ g, window_of g = w ∧ g_refunded g = false) gs.
Definition requests_in (w : Z) (gs : list grant) : Z := Z.of_nat (length (counted w gs)).
Definition tokens_in (w : Z) (gs : list grant) : Z :=
  foldr (λ g n, le_reservedTokens (g_lease g) + n) 0 (counted w gs).

(** Leases that hold a concurrency slot. *)
Definition holding (now : Z) (gs : list grant) : list grant :=
  filter (λ g, g_released g = false ∧ now_ms now < le_concurrencyExpiresAtMS (g_lease g)) gs.

(** ** Invariants *)

Definition rated : bool := (limitValue L >? 0) || (limitValue T >? 0).

(** The hash of the current window counts its grants. *)
Definition hash_counts (now : Z) (gs : list grant) (k : key hash) : Prop :=
  ∃ h e rpm tpm, k = Holds h (Some e) ∧ counts h (window_id now) rpm tpm ∧ (window_id now + 1) * 60000 <= e ∧
    (limitValue L > 0 → requests_in (window_id now) gs <= rpm) ∧
    (limitValue T > 0 → tokens_in (window_id now) gs <= tpm) ∧
    (∀ g, g ∈ gs → window_of g = window_id now → g_refunded g = true → is_Some (h !! ("refunded:" +:+ id_of g)%string)).

(** The leases: each fits the request that made it. *)
Definition lease_ok (now : Z) (g : grant) : Prop :=
  0 <= window_of g <= window_id now ∧ le_hasRate (g_lease g) = true ∧ le_hasToken (g_lease g) = is_some T ∧
  le_hasRequest (g_lease g) = is_some L ∧ 0 <= le_reservedTokens (g_lease g).

Definition set_ok (c : key zset) : Prop :=
  c = Missing ∨ ∃ z e, c = Holds z (Some e) ∧ ∀ i x, z !! i = Some x → x <= e.

Record rate_inv (y : system) : Prop := mkRateInv {
  ri_now : 0 <= y_now y;
  ri_set : set_ok (concurrency (y_valkey y));
  ri_key : rated = true → rate_ok (y_now y) (rate (y_valkey y));
  ri_leases : Forall (lease_ok (y_now y)) (y_grants y);
  ri_current : rated = true → Exists (λ g, window_of g = window_id (y_now y)) (y_grants y) →
    hash_counts (y_now y) (y_grants y) (rate (y_valkey y));
  ri_requests : limitValue L > 0 → ∀ w, requests_in w (y_grants y) <= limitValue L;
  ri_tokens : limitValue T > 0 → ∀ w, tokens_in w (y_grants y) <= limitValue T;
}.

Record lease_inv (y : system) : Prop := mkLeaseInv {
  li_set : set_ok (concurrency (y_valkey y));
  li_ids : NoDup (map id_of (y_grants y));
  li_held : ∀ g, g ∈ holding (y_now y) (y_grants y) →
    ∃ z e, concurrency (y_valkey y) = Holds z (Some e) ∧ z !! id_of g = Some (le_concurrencyExpiresAtMS (g_lease g));
  li_bound : limitValue C > 0 → Z.of_nat (length (holding (y_now y) (y_grants y))) <= limitValue C;
}.

(** ** Counting *)

Lemma tokens_in_cons w g gs : tokens_in w (g :: gs) =
  (if decide (window_of g = w ∧ g_refunded g = false) then le_reservedTokens (g_lease g) else 0) + tokens_in w gs.
Proof. unfold tokens_in, counted. rewrite filter_cons. case_decide; [done|lia]. Qed.

Lemma requests_in_cons w g gs : requests_in w (g :: gs) =
  (if decide (window_of g = w ∧ g_refunded g = false) then 1 else 0) + requests_in w gs.
Proof. unfold requests_in, counted. rewrite filter_cons. case_decide; cbn [length]; lia. Qed.

Lemma requests_in_app w a b : requests_in w (a ++ b) = requests_in w a + requests_in w b.
Proof. unfold requests_in, counted. rewrite filter_app, length_app. lia. Qed.

Lemma tokens_in_app w a b : tokens_in w (a ++ b) = tokens_in w a + tokens_in w b.
Proof.
  induction a as [|g a IH]; [done|]. cbn [app]. rewrite !tokens_in_cons, IH. lia.
Qed.

Lemma tokens_in_nonneg now w gs : Forall (lease_ok now) gs → 0 <= tokens_in w gs.
Proof.
  induction 1 as [|g gs (_ & _ & _ & _ & H) F IH]; [done|]. rewrite tokens_in_cons. case_decide; lia.
Qed.

(** A grant in a list, changed: what it counts. *)
Definition weigh (w : Z) (g : grant) (n : Z) : Z := if decide (window_of g = w ∧ g_refunded g = false) then n else 0.

Lemma change_grant w pre g g' post :
  requests_in w (pre ++ g' :: post) = requests_in w (pre ++ g :: post) - weigh w g 1 + weigh w g' 1 ∧
  tokens_in w (pre ++ g' :: post) = tokens_in w (pre ++ g :: post) - weigh w g (le_reservedTokens (g_lease g)) +
    weigh w g' (le_reservedTokens (g_lease g')).
Proof. rewrite !requests_in_app, !tokens_in_app, !requests_in_cons, !tokens_in_cons. unfold weigh. lia. Qed.

(** ** Time *)

Lemma lease_ok_mono now now' g : now <= now' → lease_ok now g → lease_ok now' g.
Proof. intros H (W & R). apply window_mono in H as [H _]. split; [lia|done]. Qed.

Lemma rate_ok_mono now now' k : now <= now' → rate_ok now k → rate_ok now' k.
Proof.
  intros H [-> |(h & e & w & r & t & -> & Cn & W & E)]; [by left|]. apply window_mono in H as [H _].
  right. exists h, e, w, r, t. split_and!; try done; lia || apply Cn.
Qed.

Lemma rate_inv_time y now : rate_inv y → y_now y <= now → rate_inv (mkSystem now (y_valkey y) (y_grants y)).
Proof.
  intros [N S K F Cu R Tk] H. constructor; cbn; try done; [lia|by intros Hr; apply (rate_ok_mono (y_now y)); [|apply K]| |].
  - apply (Forall_impl _ _ _ F). intros g. by apply lease_ok_mono.
  - intros Hr Ex. assert (E : window_id now = window_id (y_now y)).
    { apply Exists_exists in Ex as (g & Hg & Eg). rewrite Forall_forall in F. destruct (F g Hg) as [ [? ?] _].
      apply window_mono in H as [H _]. lia. }
    rewrite E in Ex. destruct (Cu Hr Ex) as (h & e & rpm & tpm & P). exists h, e, rpm, tpm. by rewrite E.
Qed.

(** ** Counters are texts *)

Lemma text_inj m n : 0 <= m → 0 <= n → decimal_text m = decimal_text n → m = n.
Proof. intros Hm Hn E. apply (f_equal dec_value) in E. by rewrite !dec_value_text in E. Qed.

Lemma counts_inj h w r t w' r' t' : counts h w r t → counts h w' r' t' → w = w' ∧ r = r' ∧ t = t'.
Proof.
  intros (A1 & A2 & A3 & [B1 _] & [B2 _] & [B3 _]) (C1 & C2 & C3 & [D1 _] & [D2 _] & [D3 _]).
  rewrite A1 in C1. rewrite A2 in C2. rewrite A3 in C3. injection C1 as C1. injection C2 as C2. injection C3 as C3.
  split_and!; by apply text_inj.
Qed.

Lemma none_in_window w gs : ¬ Exists (λ g, window_of g = w) gs → requests_in w gs = 0 ∧ tokens_in w gs = 0.
Proof.
  intros N. assert (counted w gs = []) as E.
  { unfold counted. apply elem_of_nil_inv. intros g [ [E _] Hg]%list_elem_of_filter.
    apply N, Exists_exists. by exists g. }
  unfold requests_in, tokens_in. by rewrite E.
Qed.

Lemma args_tokens a : args_ok a = true →
  0 <= a_tokens a ∧ a_rpm a <= MAX_SAFE_INTEGER ∧ a_tpm a <= MAX_SAFE_INTEGER.
Proof.
  unfold args_ok, safe. intros H. repeat (apply andb_true_iff in H as [H ?]). repeat match goal with
    H : _ && _ = true |- _ => apply andb_true_iff in H as [? ?] end. bool_to_prop. lia.
Qed.

Lemma refuse_none a rpm tpm cr ct : refuse_rate a rpm tpm cr ct = None →
  (a_rpm a > 0 → rpm < a_rpm a) ∧ (a_tpm a > 0 → tpm + a_tokens a <= a_tpm a).
Proof.
  unfold refuse_rate. rewrite !Z.gtb_ltb, !Z.geb_leb. intros H. split; intros P.
  - destruct (Z.leb_spec (a_rpm a) rpm); [|done]. rewrite (proj2 (Z.ltb_lt 0 (a_rpm a))) in H by lia. done.
  - destruct (_ && _); [done|]. rewrite (proj2 (Z.ltb_lt 0 (a_tpm a))) in H by lia. cbn [andb] in H.
    destruct (Z.ltb_spec (a_tpm a) (a_tokens a)); [done|]. cbn [orb] in H.
    destruct (Z.ltb_spec (a_tpm a - a_tokens a) tpm); [done|]. lia.
Qed.

(** ** A granted reservation *)

(** The hash after a grant, with the counts before it. *)
Lemma granted_hash y r id v' ans : rate_inv y → limited_by r → rated = true →
  let a := args_of r id in
  granted a (y_now y) (y_valkey y) v' ans →
  ∃ rpm tpm h' e', rate v' = Holds h' (Some e') ∧
    counts h' (window_id (y_now y)) (rpm + b2z (limitValue L >? 0) 1) (tpm + b2z (limitValue T >? 0) (a_tokens a)) ∧
    (window_id (y_now y) + 1) * 60000 <= e' ∧
    (limitValue L > 0 → requests_in (window_id (y_now y)) (y_grants y) <= rpm ∧ rpm + 1 <= limitValue L) ∧
    (limitValue T > 0 → tokens_in (window_id (y_now y)) (y_grants y) <= tpm ∧ tpm + a_tokens a <= limitValue T) ∧
    (∀ g, g ∈ y_grants y → window_of g = window_id (y_now y) → g_refunded g = true → is_Some (h' !! ("refunded:" +:+ id_of g)%string)).
Proof.
  intros I (LB1 & LB2 & LB3) Hr a (A & S & (cur & rpm & tpm & cr & ct & Rd & Rf & Ck & _) & _).
  assert (Er : rate_enabled a = true) by (unfold rate_enabled, a; cbn; rewrite LB1, LB2; exact Hr).
  assert (El : a_rpm a = limitValue L) by (unfold a; cbn; by rewrite LB1).
  assert (Et : a_tpm a = limitValue T) by (unfold a; cbn; by rewrite LB2).
  destruct (args_tokens a A) as (At & Al & Att). destruct (refuse_none _ _ _ _ _ Rf) as [Rl Rt].
  pose proof (ri_now y I) as Hn. pose proof (window_bounds _ Hn) as (W0 & _).
  assert (Wm : window_id (y_now y) <= MAX_SAFE_INTEGER).
  { unfold window_id, MAX_SAFE_INTEGER. pose proof (Z.div_le_mono _ _ 60 ltac:(lia) S). change (9007199254739 / 60) with 150119987578 in *. lia. }
  pose proof (read_rate_ok a _ _ _ _ _ _ _ Hn (ri_key y I Hr) Er Rd) as Rk.
  set (w := window_id (y_now y)) in *.
  assert (Hc : (limitValue L > 0 → requests_in w (y_grants y) <= rpm) ∧ (limitValue T > 0 → tokens_in w (y_grants y) <= tpm) ∧
    0 <= rpm <= MAX_SAFE_INTEGER ∧ 0 <= tpm <= MAX_SAFE_INTEGER).
  { destruct (decide (Exists (λ g, window_of g = w) (y_grants y))) as [Ex|Nx].
    - destruct (ri_current y I Hr Ex) as (h & e & r0 & t0 & Ek & Cn & _ & C1 & C2 & _).
      destruct Rk as [(_ & _ & _ & Nw)|(_ & _ & h1 & e1 & Ek1 & Cn1 & _)].
      + destruct (Nw h (Some e) Ek). apply Cn.
      + rewrite Ek in Ek1. injection Ek1 as <- <-. destruct (counts_inj _ _ _ _ _ _ _ Cn Cn1) as (_ & <- & <-).
        split_and!; try done; apply Cn.
    - destruct (none_in_window w _ Nx) as [-> ->].
      destruct Rk as [(_ & -> & -> & _)|(_ & _ & h1 & e1 & _ & Cn1 & _)].
      + split_and!; try done; lia.
      + destruct Cn1 as (_ & _ & _ & _ & B1 & B2). split_and!; lia. }
  destruct Hc as (H1 & H2 & B1 & B2).
  destruct (count_rate_ok a _ (live (now_ms (y_now y)) (rate (y_valkey y))) cur rpm tpm (rate v') Hn Wm Er)
    as (h' & e' & Ek & Cn & He & Mk); [| | |done|].
  - destruct Rk as [(-> & -> & -> & _)|(-> & -> & h1 & e1 & Ek1 & Cn1 & E1)]; [by left|right].
    split; [done|]. by exists h1, e1.
  - unfold b2z. destruct (Z.gtb_spec (a_rpm a) 0); lia.
  - unfold b2z. destruct (Z.gtb_spec (a_tpm a) 0); lia.
  - rewrite El, Et in Cn. exists rpm, tpm, h', e'. split_and!; try done.
    + intros P. rewrite El in Rl. split; [by apply H1|]. specialize (Rl P). lia.
    + intros P. rewrite Et in Rt. split; [by apply H2|]. by apply Rt.
    + intros g Hg Wg Rg. assert (Ex : Exists (λ g, window_of g = w) (y_grants y)) by (apply Exists_exists; by exists g).
      destruct (ri_current y I Hr Ex) as (h & e & r0 & t0 & Ek0 & Cn0 & _ & _ & _ & M0).
      destruct Rk as [(_ & _ & _ & Nw)|(-> & El1 & h1 & e1 & Ek1 & Cn1 & _)].
      * destruct (Nw h (Some e) Ek0). apply Cn0.
      * rewrite Mk by done. rewrite El1, Ek0. cbn. by apply M0.
Qed.

(** ** The set of leases *)

Lemma set_zset_ok z e : (∀ i x, z !! i = Some x → x <= e) → set_ok (set_zset z (Some e)).
Proof. unfold set_zset. case_bool_decide; [by left|]. right. by exists z, e. Qed.

Lemma set_live now c z e : set_ok c → live now c = Holds z e →
  ∃ e', e = Some e' ∧ c = Holds z (Some e') ∧ ∀ i x, z !! i = Some x → x <= e'.
Proof.
  intros [-> |(z' & e' & -> & H)] E; [done|]. destruct (live_cases now (Holds z' (Some e'))) as [Lv|Lv]; rewrite Lv in E; [|done].
  injection E as <- <-. by exists e'.
Qed.

Lemma set_not_foreign now c : set_ok c → live now c ≠ Foreign.
Proof. intros [-> |(z & e & -> & _)]; [done|]. cbn. by case_match. Qed.

Lemma purged_ok now c c' : set_ok c → purged now c c' → set_ok c'.
Proof.
  intros S [-> |[(z & e & E & ->)|[_ ->] ] ]; [done| |by left].
  destruct (set_live _ _ _ _ S E) as (e' & -> & _ & H). apply set_zset_ok.
  intros i x [Hx _]%map_lookup_filter_Some. by eapply H.
Qed.

Lemma removed_ok now id c c' : set_ok c → removed now id c c' → set_ok c'.
Proof.
  intros S [(z & e & E & ->)|[_ ->] ]; [|done]. destruct (set_live _ _ _ _ S E) as (e' & -> & _ & H).
  apply set_zset_ok. intros i x [_ Hx]%lookup_delete_Some. by eapply H.
Qed.

Lemma greatest_le z i x : z !! i = Some x → x <= greatest z.
Proof.
  intros H. unfold greatest, scores. apply elem_of_map_to_list in H.
  assert (Hx : x ∈ (map_to_list z).*2) by (apply list_elem_of_fmap; by exists (i, x)).
  clear H. induction (map_to_list z).*2 as [|b l IH]; [by apply elem_of_nil in Hx|].
  cbn. apply elem_of_cons in Hx as [-> |Hx]; [lia|]. apply IH in Hx. lia.
Qed.

Lemma check_newest a now z newest : check_concurrency a now z = inr (inr newest) →
  newest = greatest z ∧ (a_concurrency a > 0 → Z.of_nat (size z) < a_concurrency a).
Proof.
  unfold check_concurrency. rewrite !Z.gtb_ltb, Z.geb_leb. destruct (_ && negb _); [done|].
  destruct ((0 <? Z.of_nat (size z)) && (0 <? a_concurrency a) && _) eqn:Q; [done|]. intros E.
  split; [by repeat (case_match; simplify_eq/=)|]. intros P.
  rewrite (proj2 (Z.ltb_lt 0 (a_concurrency a))) in Q by lia. rewrite andb_true_r in Q.
  apply andb_false_iff in Q as [Q|Q]; bool_to_prop; lia.
Qed.

Lemma granted_set_ok a now v v' ans : set_ok (concurrency v) → granted a now v v' ans → set_ok (concurrency v').
Proof.
  intros S (_ & _ & _ & [ [_ ->]|(_ & z & newest & _ & Ch & ->)]); [done|].
  apply check_newest in Ch as [-> _]. right. do 2 eexists. split; [done|].
  intros i x [ [_ <-]|[_ Hx] ]%lookup_insert_Some; [lia|]. apply greatest_le in Hx. lia.
Qed.

(** ** The counters are kept *)

Lemma rate_inv_reserve y uuid_ok cost r uuid v o : rate_inv y → limited_by r → HasRateLimits r = true →
  Reserve uuid_ok cost (y_now y) r uuid (y_valkey y) = (v, o) →
  rate_inv (mkSystem (y_now y) v (match o with inr le => mkGrant le false false :: y_grants y | inl _ => y_grants y end)).
Proof.
  intros I LB HR E. destruct (Reserve_spec _ _ _ _ _ _ _ _ HR E) as [ [-> [e ->] ]|(ans & Es & Ho)]; [by destruct y|].
  set (a := args_of r (lease_id r uuid)) in *. pose proof I as [N S K F Cu R Tk].
  destruct (reserve_cases _ _ _ _ _ Es) as [(Er & P & Ng)|G].
  { destruct o as [e|le]; [|by destruct (Ho le eq_refl) as [? _]]. constructor; cbn; rewrite ?Er; try done.
    by eapply purged_ok. }
  pose proof (granted_set_ok _ _ _ _ _ S G) as S'. pose proof (window_bounds _ N) as (W0 & _).
  assert (Kt : rated = true → rate_ok (y_now y) (rate v) ∧ True).
  { intros Hr. destruct (granted_hash _ _ _ _ _ I LB Hr G) as (rpm & tpm & h' & e' & Ek & Cn & He & _). split; [|done].
    right. do 5 eexists. by split_and!. }
  destruct o as [e|le].
  - constructor; cbn; try done; [by intros Hr; apply Kt|]. intros Hr Ex.
    destruct (granted_hash _ _ _ _ _ I LB Hr G) as (rpm & tpm & h' & e' & Ek & Cn & He & H1 & H2 & H3).
    fold a in Cn, H2.
    destruct (args_tokens a (proj1 G)) as (At & _). do 4 eexists. split; [done|]. split; [done|]. split; [done|].
    split_and!; [|..|done]; unfold b2z.
    + intros P. destruct (H1 P). destruct (limitValue L >? 0); lia.
    + intros P. destruct (H2 P). destruct (limitValue T >? 0); lia.
  - destruct (Ho le eq_refl) as (_ & Hid & Hra & Hto & Hrq & Hre & Hw).
    destruct (args_tokens a (proj1 G)) as (At & _).
    pose proof G as (_ & _ & (cur & rp & tp & cr & ct & _ & _ & _ & Ea) & _).
    destruct (Hw _ _ _ Ea) as [Hwin _].
    assert (Hl : lease_ok (y_now y) (mkGrant le false false)).
    { destruct LB as (LB1 & LB2 & _). unfold lease_ok, window_of. cbn. rewrite Hwin, Hra, Hto, Hrq, Hre, LB1, LB2.
      split_and!; try done; lia. }
    constructor; cbn [y_now y_valkey y_grants]; try done.
    + by intros Hr; apply Kt.
    + by constructor.
    + intros Hr _. destruct (granted_hash _ _ _ _ _ I LB Hr G) as (rpm & tpm & h' & e' & Ek & Cn & He & H1 & H2 & H3).
    fold a in Cn, H2.
      do 4 eexists. split; [done|]. split; [done|]. split; [done|]. rewrite requests_in_cons, tokens_in_cons.
      rewrite !decide_True by done. cbn [g_lease]. rewrite Hre. unfold b2z. split_and!.
      * intros P. destruct (H1 P). rewrite (proj2 (Z.gtb_lt _ _)) by lia. lia.
      * intros P. destruct (H2 P). rewrite (proj2 (Z.gtb_lt _ _)) by lia. cbn. lia.
      * intros g [-> |Hg]%elem_of_cons Wg Rg; [done|]. by apply H3.
    + intros P w. rewrite requests_in_cons. case_decide as D; [|specialize (R P w); lia].
      assert (Hr : rated = true) by (unfold rated; by rewrite (proj2 (Z.gtb_lt _ _)) by lia).
      destruct (granted_hash _ _ _ _ _ I LB Hr G) as (rpm & tpm & h' & e' & _ & _ & _ & H1 & _).
      destruct D as [<- _]. unfold window_of. cbn [g_lease]. rewrite Hwin. destruct (H1 P). lia.
    + intros P w. rewrite tokens_in_cons. case_decide as D; [|specialize (Tk P w); lia].
      assert (Hr : rated = true) by (unfold rated; rewrite (proj2 (Z.gtb_lt (limitValue T) _)) by lia; apply orb_true_r).
      destruct (granted_hash _ _ _ _ _ I LB Hr G) as (rpm & tpm & h' & e' & _ & _ & _ & _ & H2 & _). fold a in H2.
      destruct D as [<- _]. unfold window_of. cbn [g_lease]. rewrite Hwin, Hre. destruct (H2 P). cbn in *. lia.
Qed.

(** A grant changed in place: the windows stay. *)
Lemma Exists_change w pre g g' post : window_of g' = window_of g →
  Exists (λ g, window_of g = w) (pre ++ g' :: post) → Exists (λ g, window_of g = w) (pre ++ g :: post).
Proof. intros E. rewrite !Exists_app, !Exists_cons, E. done. Qed.

(** The counts with one grant refunded or not as before. *)
Lemma counts_change w pre g b c post now : lease_ok now g →
  let g' := mkGrant (g_lease g) (g_refunded g || b) c in
  requests_in w (pre ++ g' :: post) <= requests_in w (pre ++ g :: post) ∧
  tokens_in w (pre ++ g' :: post) <= tokens_in w (pre ++ g :: post).
Proof.
  intros (_ & _ & _ & _ & H) g'. destruct (change_grant w pre g g' post) as [-> ->]. unfold weigh, g', window_of. cbn.
  destruct (g_refunded g); cbn; repeat case_decide; naive_solver lia.
Qed.

Lemma Forall_change {A} (P : A → Prop) pre x y post : P y → Forall P (pre ++ x :: post) → Forall P (pre ++ y :: post).
Proof. rewrite !Forall_app, !Forall_cons. naive_solver. Qed.

(** Fields after a refund. *)
Lemma refunds_counts now y id win req tok k' w r t h e : rate_ok (y_now y) (rate (y_valkey y)) →
  refunds (now_ms now) win req tok id (rate (y_valkey y)) k' →
  rate (y_valkey y) = Holds h (Some e) → counts h w r t → 0 <= req → 0 <= tok →
  ∃ h', k' = Holds h' (Some e) ∧ win = decimal_text w ∧ counts h' w (Z.max 0 (r - req)) (Z.max 0 (t - tok)) ∧
    h !! ("refunded:" +:+ id)%string = None ∧ is_Some (h' !! ("refunded:" +:+ id)%string) ∧
    ∀ l, is_Some (h !! ("refunded:" +:+ l)%string) → is_Some (h' !! ("refunded:" +:+ l)%string).
Proof.
  intros K (h0 & e0 & h' & rpm & tpm & Lv & -> & W & M & Pr & Pt & W' & R' & T' & M' & O) E (C1 & C2 & C3 & B1 & B2 & B3) Q1 Q2.
  rewrite E in Lv. destruct (live_cases (now_ms now) (Holds h (Some e))) as [Lc|Lc]; rewrite Lc in Lv; [|done].
  injection Lv as <- <-. rewrite C1 in W. injection W as <-. rewrite C2 in Pr. rewrite C3 in Pt. cbn [mbind option_bind] in Pr, Pt.
  rewrite parse_text in Pr by done. rewrite parse_text in Pt by done. injection Pr as <-. injection Pt as <-.
  exists h'. split; [done|]. split; [done|]. split; [split_and!; try done; lia|]. split; [done|].
  split; [rewrite M'; by eexists|]. intros l Hl. destruct (decide (l = id)) as [-> |Nl]; [rewrite M'; by eexists|]. by rewrite O.
Qed.

Lemma rate_inv_refund y pre g post v ans : rate_inv y → y_grants y = pre ++ g :: post →
  Refund (now_ms (y_now y)) (g_lease g) (y_valkey y) = (v, ans) →
  rate_inv (mkSystem (y_now y) v
    (pre ++ mkGrant (g_lease g) (g_refunded g || done_ok ans) (g_released g || done_ok ans) :: post)).
Proof.
  intros I E. pose proof I as [N S K F Cu R Tk]. rewrite E in F, Cu, R, Tk.
  assert (Lg : lease_ok (y_now y) g) by (rewrite Forall_app, Forall_cons in F; tauto).
  pose proof Lg as ( [W0 W1] & Hra & Hto & Hrq & Hre). unfold Refund. rewrite Hra. cbn [negb]. intros Er.
  set (g' := mkGrant _ _ _). set (gs' := pre ++ g' :: post).
  assert (F' : Forall (lease_ok (y_now y)) gs') by (apply (Forall_change _ _ g); done).
  assert (Ch : ∀ w, requests_in w gs' <= requests_in w (pre ++ g :: post) ∧ tokens_in w gs' <= tokens_in w (pre ++ g :: post))
    by (intros w; by eapply counts_change).
  assert (R' : limitValue L > 0 → ∀ w, requests_in w gs' <= limitValue L)
    by (intros P w; specialize (R P w); destruct (Ch w); lia).
  assert (T' : limitValue T > 0 → ∀ w, tokens_in w gs' <= limitValue T)
    by (intros P w; specialize (Tk P w); destruct (Ch w); lia).
  destruct (refund_cases _ _ _ _ _ _ _ _ _ (set_not_foreign _ _ S) Er) as [ [-> Ok]|(-> & Rm & Rt)].
  { assert (gs' = pre ++ mkGrant (g_lease g) (g_refunded g) (g_released g) :: post) as Eg
      by (unfold gs', g'; by rewrite Ok, !orb_false_r).
    destruct g as [le b1 b2]. cbn [g_lease g_refunded g_released] in Eg. rewrite Eg in *.
    constructor; cbn [y_now y_valkey y_grants]; done. }
  pose proof (removed_ok _ _ _ _ S Rm) as S'.
  destruct Rt as [ [Ek Mk]|Rf].
  - constructor; cbn [y_now y_valkey y_grants]; rewrite ?Ek; try done. intros Hr Ex.
    destruct (Cu Hr) as (h & e & rpm & tpm & Eh & Cn & He & H1 & H2 & H3); [by eapply Exists_change; [|exact Ex]|].
    exists h, e, rpm, tpm. split; [done|]. split; [done|]. split; [done|]. destruct (Ch (window_id (y_now y))).
    split_and!; [intros P; specialize (H1 P); lia|intros P; specialize (H2 P); lia|].
    intros g0 Hg Wg Rg. apply elem_of_app in Hg as [Hg|Hg]; [apply H3; try done; apply elem_of_app; auto|].
    apply elem_of_cons in Hg as [-> |Hg]; [|apply H3; try done; apply elem_of_app; right; by right].
    eapply (Mk h (Some e)); [rewrite Eh; by apply (rate_live (y_now y) h e (window_id (y_now y)))|].
    unfold window_of in Wg. cbn in Wg. rewrite Wg. apply Cn.
  - assert (Qr : 0 <= (if le_hasRequest (g_lease g) then 1 else 0)) by (destruct (le_hasRequest _); lia).
    assert (Qt : 0 <= (if le_hasToken (g_lease g) then le_reservedTokens (g_lease g) else 0)) by (destruct (le_hasToken _); lia).
    constructor; cbn [y_now y_valkey y_grants]; try done.
    + intros Hr. pose proof (K Hr) as Ko. destruct (K Hr) as [Km|(h & e & w & r & t & Eh & Cn & W & He)].
      { destruct Rf as (h0 & e0 & _ & _ & _ & Lv & _). by rewrite Km in Lv. }
      destruct (refunds_counts _ y _ _ _ _ _ _ _ _ _ _ Ko Rf Eh Cn Qr Qt) as (h' & -> & _ & Cn' & _).
      right. do 5 eexists. by split_and!.
    + intros Hr Ex. destruct (Cu Hr) as (h & e & rpm & tpm & Eh & Cn & He & H1 & H2 & H3); [by eapply Exists_change; [|exact Ex]|].
      destruct (refunds_counts _ y _ _ _ _ _ _ _ _ _ _ (K Hr) Rf Eh Cn Qr Qt) as (h' & -> & Ew & Cn' & M & M' & O).
      apply text_inj in Ew; [|done|lia].
      assert (Ng : g_refunded g = false).
      { destruct (g_refunded g) eqn:Eg; [|done]. destruct (H3 g) as [x Hx]; [apply elem_of_app; right; by left|done|done|].
        unfold id_of in Hx. by rewrite M in Hx. }
      destruct (change_grant (window_id (y_now y)) pre g g' post) as [C1 C2].
      unfold weigh in C1, C2. rewrite decide_True in C1, C2 by done.
      rewrite decide_False in C1, C2 by (unfold g'; cbn; rewrite orb_true_r; naive_solver).
      exists h', e, (Z.max 0 (rpm - (if le_hasRequest (g_lease g) then 1 else 0))),
        (Z.max 0 (tpm - (if le_hasToken (g_lease g) then le_reservedTokens (g_lease g) else 0))).
      split; [done|]. split; [done|]. split; [done|]. split_and!.
      * intros P. specialize (H1 P). rewrite Hrq. destruct L; [|cbn in P; lia]. cbn. unfold gs'. lia.
      * intros P. specialize (H2 P). rewrite Hto. destruct T; [|cbn in P; lia]. cbn. unfold gs'. lia.
      * intros g0 Hg Wg Rg. apply elem_of_app in Hg as [Hg|Hg]; [apply O, H3; try done; apply elem_of_app; auto|].
        apply elem_of_cons in Hg as [-> |Hg]; [done|apply O, H3; try done; apply elem_of_app; right; by right].
Qed.

Lemma rate_inv_reconcile y g actual v ans : rate_inv y → g ∈ y_grants y →
  Reconcile (now_ms (y_now y)) actual (g_lease g) (y_valkey y) = Some (v, ans) →
  rate_inv (mkSystem (y_now y) v (y_grants y)).
Proof.
  intros I Hg. pose proof I as [N S K F Cu R Tk]. unfold Reconcile. destruct (negb _).
  { intros [= <- <-]. by constructor. }
  destruct (_ || _); [done|]. intros [= E]. apply reconcile_cases in E as [Ec Er]; [|lia].
  destruct Er as [Er|(h & e & h' & tpm & tpm' & Lv & Ev & Pt & Ht & Hb & Hw & Hr & Hm)].
  { constructor; cbn [y_now y_valkey y_grants]; rewrite ?Ec, ?Er; done. }
  assert (Up : ∀ e0 w r t, rate (y_valkey y) = Holds h (Some e0) → counts h w r t →
    rate v = Holds h' (Some e0) ∧ counts h' w r tpm' ∧ t <= tpm').
  { intros e0 w r t Eh (C1 & C2 & C3 & B1 & B2 & B3). rewrite Eh in Lv.
    destruct (live_cases (now_ms (y_now y)) (Holds h (Some e0))) as [Lc|Lc]; rewrite Lc in Lv; [|done]. injection Lv as <-.
    rewrite C3 in Pt. cbn [mbind option_bind] in Pt. rewrite parse_text in Pt by done. injection Pt as <-.
    split; [done|]. split; [|lia]. split_and!; try done; rewrite ?Hw, ?Hr; try done; lia. }
  assert (Eh : ∀ h1 e1, rate (y_valkey y) = Holds h1 e1 → h1 = h).
  { intros h1 e1 E1. rewrite E1 in Lv. destruct (live_cases (now_ms (y_now y)) (Holds h1 e1)) as [Lc|Lc]; rewrite Lc in Lv; congruence. }
  constructor; cbn [y_now y_valkey y_grants]; rewrite ?Ec; try done.
  - intros Hra. destruct (K Hra) as [Km|(h1 & e1 & w & r & t & E1 & Cn & W & He)]; [by rewrite Km in Lv|].
    pose proof (Eh _ _ E1). subst h1. destruct (Up _ _ _ _ E1 Cn) as (-> & Cn' & _). right. do 5 eexists. by split_and!.
  - intros Hra Ex. destruct (Cu Hra Ex) as (h1 & e1 & rpm & t & E1 & Cn & He & H1 & H2 & H3).
    pose proof (Eh _ _ E1). subst h1. destruct (Up _ _ _ _ E1 Cn) as (-> & Cn' & Le). do 4 eexists. split; [done|]. split; [done|].
    split; [done|]. split_and!; [done|intros P; specialize (H2 P); lia|]. intros g0 Hg0 Wg Rg. rewrite Hm. by apply H3.
Qed.

Lemma release_cases now id v v' ans : live now (concurrency v) ≠ Foreign →
  release_concurrency now id v = (v', ans) →
  done_ok ans = true ∧ rate v' = rate v ∧ removed now id (concurrency v) (concurrency v').
Proof.
  intros NF. unfold release_concurrency. destruct (live now (concurrency v)) as [|z e|] eqn:Lv; [..|done]; intros [= <- <-].
  - split_and!; try done. right. by split.
  - split_and!; try done. left. by exists z, e.
Qed.

Lemma rate_inv_release y pre g post v ans : rate_inv y → y_grants y = pre ++ g :: post →
  Release (now_ms (y_now y)) (g_lease g) (y_valkey y) = (v, ans) →
  rate_inv (mkSystem (y_now y) v (pre ++ mkGrant (g_lease g) (g_refunded g) (g_released g || done_ok ans) :: post)).
Proof.
  intros I E. pose proof I as [N S K F Cu R Tk]. rewrite E in F, Cu, R, Tk. unfold Release. intros Er.
  set (g' := mkGrant _ _ _).
  assert (Ev : rate v = rate (y_valkey y) ∧ set_ok (concurrency v)).
  { destruct (_ =? 0); [by injection Er as <- _|].
    destruct (release_cases _ _ _ _ _ (set_not_foreign _ _ S) Er) as (_ & -> & Rm). split; [done|]. by eapply removed_ok. }
  destruct Ev as [Ev S'].
  assert (Ch : ∀ w, requests_in w (pre ++ g' :: post) = requests_in w (pre ++ g :: post) ∧
    tokens_in w (pre ++ g' :: post) = tokens_in w (pre ++ g :: post)).
  { intros w. destruct (change_grant w pre g g' post) as [-> ->]. unfold weigh, g', window_of. cbn. case_decide; lia. }
  constructor; cbn [y_now y_valkey y_grants]; rewrite ?Ev; try done.
  - apply (Forall_change _ _ g); [|done]. rewrite Forall_app, Forall_cons in F. tauto.
  - intros Hr Ex. destruct (Cu Hr) as (h & e & rpm & tpm & Eh & Cn & He & H1 & H2 & H3); [by eapply Exists_change; [|exact Ex]|].
    exists h, e, rpm, tpm. destruct (Ch (window_id (y_now y))) as [-> ->]. split; [done|]. split; [done|]. split; [done|].
    split_and!; [done|done|]. intros g0 Hg Wg Rg. apply elem_of_app in Hg as [Hg|Hg]; [apply H3; try done; apply elem_of_app; auto|].
    apply elem_of_cons in Hg as [-> |Hg]; [apply (H3 g); try done; apply elem_of_app; right; by left|].
    apply H3; try done. apply elem_of_app. right. by right.
  - intros P w. rewrite (proj1 (Ch w)). by apply R.
  - intros P w. rewrite (proj2 (Ch w)). by apply Tk.
Qed.

Lemma reachable_rate y : reachable y → rate_inv y.
Proof.
  induction 1 as [now Hn|y y' _ IH St].
  - constructor; cbn; [done|by left|by left|by constructor|by intros _ Ex; inversion Ex|..];
      intros P w; unfold requests_in, tokens_in, counted; simpl; lia.
  - destruct St; [by apply rate_inv_time|by eapply rate_inv_reserve|by eapply rate_inv_refund|
                  by eapply rate_inv_reconcile|by eapply rate_inv_release].
Qed.

(** ** Live leases are held *)

Definition holds_slot (now : Z) (g : grant) : Prop :=
  g_released g = false ∧ now_ms now < le_concurrencyExpiresAtMS (g_lease g).

(** The leases of a set that keeps every member still held. *)
Definition keeps_held (now : Z) (c c' : key zset) (id : option string) : Prop :=
  ∀ z e i x, c = Holds z (Some e) → z !! i = Some x → now_ms now < x → x <= e → Some i ≠ id →
    ∃ z' e', c' = Holds z' (Some e') ∧ z' !! i = Some x.

Lemma set_zset_in z e i x : z !! i = Some x → set_zset z e = Holds z e.
Proof. intros H. unfold set_zset. rewrite bool_decide_false; [done|]. intros ->. by rewrite lookup_empty in H. Qed.

Lemma live_held now (z : zset) e x : now_ms now < x → x <= e → live (now_ms now) (Holds z (Some e)) = Holds z (Some e).
Proof. intros H1 H2. cbn. by destruct (Z.gtb_spec (now_ms now) e); [lia|]. Qed.

Lemma purged_keeps now c c' : purged now c c' → keeps_held now c c' None.
Proof.
  intros P z e i x -> Hi Hx Le _. pose proof (live_held now z e x Hx Le) as Lv.
  destruct P as [-> |[(z0 & e0 & E & ->)|[E _] ] ]; [by exists z, e| |by rewrite Lv in E].
  rewrite Lv in E. injection E as <- <-.
  assert (Hp : purge now z !! i = Some x) by (unfold purge; apply map_lookup_filter_Some; by split).
  exists (purge now z), e. split; [by eapply set_zset_in|done].
Qed.

Lemma removed_keeps now id c c' : removed (now_ms now) id c c' → keeps_held now c c' (Some id).
Proof.
  intros P z e i x -> Hi Hx Le Ni. pose proof (live_held now z e x Hx Le) as Lv.
  destruct P as [(z0 & e0 & E & ->)|[E _] ]; [|by rewrite Lv in E]. rewrite Lv in E. injection E as <- <-.
  assert (Hp : delete id z !! i = Some x) by (rewrite lookup_delete_ne; [done|congruence]).
  exists (delete id z), e. split; [by eapply set_zset_in|done].
Qed.

Lemma held_in y g : lease_inv y → g ∈ holding (y_now y) (y_grants y) →
  ∃ z e, concurrency (y_valkey y) = Holds z (Some e) ∧ z !! id_of g = Some (le_concurrencyExpiresAtMS (g_lease g)) ∧
    le_concurrencyExpiresAtMS (g_lease g) <= e ∧ now_ms (y_now y) < le_concurrencyExpiresAtMS (g_lease g).
Proof.
  intros I Hg. destruct (li_held y I g Hg) as (z & e & E & Hz). exists z, e. split_and!; try done.
  - destruct (li_set y I) as [Em|(z' & e' & E' & H)]; [by rewrite Em in E|]. rewrite E in E'. injection E' as <- <-. by eapply H.
  - by apply list_elem_of_filter in Hg as [ [_ ?] _].
Qed.

(** A change of the set that keeps the held leases of the others. *)
Lemma held_kept y v gs id : lease_inv y → keeps_held (y_now y) (concurrency (y_valkey y)) (concurrency v) id →
  (∀ g, g ∈ holding (y_now y) gs → g ∈ holding (y_now y) (y_grants y) ∧ Some (id_of g) ≠ id) →
  ∀ g, g ∈ holding (y_now y) gs → ∃ z e, concurrency v = Holds z (Some e) ∧ z !! id_of g = Some (le_concurrencyExpiresAtMS (g_lease g)).
Proof.
  intros I Kp Sub g Hg. destruct (Sub g Hg) as [Hg' Ni]. destruct (held_in y g I Hg') as (z & e & E & Hz & Le & Lt).
  by apply (Kp z e (id_of g) _ E Hz Lt Le Ni).
Qed.

Lemma holding_ids y : lease_inv y → NoDup (map id_of (holding (y_now y) (y_grants y))).
Proof.
  intros I. eapply sublist_NoDup; [apply (li_ids y I)|]. apply fmap_sublist, sublist_filter.
Qed.

(** The held leases are among those the script counts. *)
Lemma in_held_leases y z g : lease_inv y → held_leases (y_now y) (concurrency (y_valkey y)) z →
  g ∈ holding (y_now y) (y_grants y) → z !! id_of g = Some (le_concurrencyExpiresAtMS (g_lease g)).
Proof.
  intros I Hz Hg. destruct (held_in y g I Hg) as (z0 & e & E & Hl & Le & Lt).
  pose proof (live_held (y_now y) z0 e _ Lt Le) as Lv.
  destruct Hz as [(z1 & e1 & E1 & ->)|[E1 _] ]; rewrite E, Lv in E1; [|done]. injection E1 as <- <-.
  unfold purge. apply map_lookup_filter_Some. by split.
Qed.

Lemma holding_size y z : lease_inv y → held_leases (y_now y) (concurrency (y_valkey y)) z →
  (length (holding (y_now y) (y_grants y)) <= size z)%nat.
Proof.
  intros I Hz. rewrite <- (length_map id_of). rewrite <- size_dom, <- (size_list_to_set (C := gset string)) by by apply holding_ids.
  apply subseteq_size. intros i Hi. apply elem_of_list_to_set, list_elem_of_fmap in Hi as (g & -> & Hg).
  apply elem_of_dom. eexists. by apply (in_held_leases y).
Qed.

(** ** The leases are kept *)

Lemma holding_cons now g gs : holding now (g :: gs) =
  if decide (holds_slot now g) then g :: holding now gs else holding now gs.
Proof. unfold holding. by rewrite filter_cons. Qed.

Lemma holding_later now now' gs : now_ms now <= now_ms now' → sublist (holding now' gs) (holding now gs).
Proof.
  intros H. induction gs as [|g gs IH]; [done|]. rewrite !holding_cons. unfold holds_slot.
  destruct (decide _) as [ [R1 L1]|N1], (decide _) as [ [R2 L2]|N2]; [by constructor| |by constructor|done].
  destruct N2. split; [done|lia].
Qed.

Lemma lease_inv_time y now : lease_inv y → y_now y <= now → lease_inv (mkSystem now (y_valkey y) (y_grants y)).
Proof.
  intros [S Ids Hd Bd] H. apply window_mono in H as [_ H]. pose proof (holding_later _ _ (y_grants y) H) as Sub.
  constructor; cbn [y_now y_valkey y_grants]; try done.
  - intros g Hg. apply Hd. by eapply elem_of_sublist.
  - intros P. specialize (Bd P). apply sublist_length in Sub. lia.
Qed.

(** The slots of fewer grants, in a set that keeps theirs. *)
Lemma lease_inv_fewer y v gs id : lease_inv y → set_ok (concurrency v) → map id_of gs = map id_of (y_grants y) →
  keeps_held (y_now y) (concurrency (y_valkey y)) (concurrency v) id →
  sublist (holding (y_now y) gs) (holding (y_now y) (y_grants y)) →
  (∀ g, g ∈ holding (y_now y) gs → Some (id_of g) ≠ id) → lease_inv (mkSystem (y_now y) v gs).
Proof.
  intros I S Ei Kp Sub Ni. constructor; cbn [y_now y_valkey y_grants]; [done|rewrite Ei; apply I|..].
  - apply (held_kept y v gs id I Kp). intros g Hg. split; [by eapply elem_of_sublist|by apply Ni].
  - intros P. pose proof (li_bound y I P). apply sublist_length in Sub. lia.
Qed.

Lemma lease_inv_reserve y uuid_ok cost r uuid v o : 0 <= y_now y → lease_inv y → limited_by r → HasRateLimits r = true →
  lease_id r uuid ∉ map id_of (y_grants y) → Reserve uuid_ok cost (y_now y) r uuid (y_valkey y) = (v, o) →
  lease_inv (mkSystem (y_now y) v (match o with inr le => mkGrant le false false :: y_grants y | inl _ => y_grants y end)).
Proof.
  intros Hn I (_ & _ & LB) HR Fr E. destruct (Reserve_spec _ _ _ _ _ _ _ _ HR E) as [ [-> [e ->] ]|(ans & Es & Ho)]; [by destruct y|].
  set (a := args_of r (lease_id r uuid)) in *. pose proof I as [S Ids Hd Bd].
  destruct (reserve_cases _ _ _ _ _ Es) as [(_ & P & Ng)|G].
  { destruct o as [e|le]; [|by destruct (Ho le eq_refl) as [? _]].
    apply (lease_inv_fewer y v _ None); try done; [by eapply purged_ok|by apply purged_keeps]. }
  pose proof (granted_set_ok _ _ _ _ _ S G) as S'. pose proof G as (_ & _ & (cur & rp & tp & cr & ct & _ & _ & _ & Ea) & Gc).
  assert (Hg : ∀ g, g ∈ holding (y_now y) (y_grants y) → id_of g ≠ lease_id r uuid).
  { intros g [_ Hg]%list_elem_of_filter Eq. apply Fr. rewrite <- Eq. by apply list_elem_of_fmap_2. }
  assert (Kp : keeps_held (y_now y) (concurrency (y_valkey y)) (concurrency v) (Some (lease_id r uuid)) ∧
    (track_concurrency a = true → limitValue C > 0 → Z.of_nat (length (holding (y_now y) (y_grants y))) + 1 <= limitValue C) ∧
    (track_concurrency a = true → ∃ z e, concurrency v = Holds z (Some e) ∧ z !! lease_id r uuid = Some (lease_expiry a (y_now y)))).
  { destruct Gc as [ [Tr ->]|(Tr & z & newest & Hz & Ch & ->)].
    - rewrite Tr. split; [|by split]. intros z e i x Ez Hx _ _ _. by exists z, e.
    - apply check_newest in Ch as [_ Ch]. pose proof (holding_size y z I Hz). split; [|split].
      + intros z0 e i x Ez Hx Lt Le Ni. do 2 eexists. split; [done|]. cbn [a_lease a args_of].
        rewrite lookup_insert_ne by congruence. rewrite Ez in Hz. pose proof (live_held (y_now y) z0 e x Lt Le) as Lv.
        destruct Hz as [(z1 & e1 & E1 & ->)|[E1 _] ]; rewrite Lv in E1; [|done]. injection E1 as <- <-.
        by apply map_lookup_filter_Some.
      + intros _ P. replace (limitValue C) with (a_concurrency a) by (unfold a; cbn; by rewrite LB). rewrite <- LB in P.
        specialize (Ch P). lia.
      + intros _. do 2 eexists. split; [done|]. unfold lease_expiry. rewrite Tr. by rewrite lookup_insert_eq. }
  destruct Kp as (Kp & Room & Slot). destruct o as [e|le].
  { apply (lease_inv_fewer y v _ (Some (lease_id r uuid))); try done. intros g Hg' [= Eq]. by apply (Hg g). }
  destruct (Ho le eq_refl) as (_ & Hid & _ & _ & _ & _ & Hw). destruct (Hw _ _ _ Ea) as [_ Hx].
  assert (Tr : holds_slot (y_now y) (mkGrant le false false) → track_concurrency a = true).
  { intros [_ Lt]. cbn in Lt. rewrite Hx in Lt. unfold lease_expiry in Lt. destruct (track_concurrency a); [done|].
    assert (0 <= now_ms (y_now y)) by (apply Z.div_pos; lia). lia. }
  constructor; cbn [y_now y_valkey y_grants]; [done| | |].
  - cbn [map]. constructor; [|done]. unfold id_of at 1. cbn. by rewrite Hid.
  - intros g. rewrite holding_cons. case_decide as D.
    + intros [-> |Hg']%elem_of_cons; [unfold id_of; cbn; rewrite Hid, Hx; by apply Slot, Tr|].
      apply (held_kept y v (y_grants y) _ I Kp); [|done]. intros g0 Hg0. split; [done|]. intros [= Eq]. by apply (Hg g0).
    + apply (held_kept y v (y_grants y) _ I Kp). intros g0 Hg0. split; [done|]. intros [= Eq]. by apply (Hg g0).
  - intros P. rewrite holding_cons. case_decide as D; [|by apply Bd]. cbn [length]. specialize (Room (Tr D) P). lia.
Qed.

(** A grant changed in place that gives up its slot. *)
Lemma frees_slot y pre g g' post v : lease_inv y → y_grants y = pre ++ g :: post → id_of g' = id_of g → g_released g' = true →
  removed (now_ms (y_now y)) (id_of g) (concurrency (y_valkey y)) (concurrency v) →
  lease_inv (mkSystem (y_now y) v (pre ++ g' :: post)).
Proof.
  intros I E Ei Er Rm. pose proof I as [S Ids Hd Bd]. rewrite E in Ids.
  assert (Hh : holding (y_now y) (pre ++ g' :: post) = holding (y_now y) pre ++ holding (y_now y) post).
  { unfold holding. rewrite filter_app, filter_cons, decide_False by (rewrite Er; naive_solver). done. }
  apply (lease_inv_fewer y v _ (Some (id_of g))); [done|by eapply removed_ok| |by apply removed_keeps|..].
  - by rewrite E, !map_app; cbn [map]; rewrite Ei.
  - rewrite Hh, E. unfold holding. rewrite (filter_app _ _ (g :: post)), filter_cons. apply sublist_app; [done|]. case_decide; [by constructor|done].
  - intros x Hx [= Eq]. rewrite Hh in Hx. rewrite map_app in Ids. cbn [map] in Ids.
    apply NoDup_app in Ids as (_ & N1 & [N2 _]%NoDup_cons).
    apply elem_of_app in Hx as [ [_ Hx]%list_elem_of_filter|[_ Hx]%list_elem_of_filter].
    + apply (N1 (id_of x)); [by apply list_elem_of_fmap_2|]. rewrite Eq. by left.
    + apply N2. rewrite <- Eq. by apply list_elem_of_fmap_2.
Qed.

Lemma lease_inv_refund y pre g post v ans : rate_inv y → lease_inv y → y_grants y = pre ++ g :: post →
  Refund (now_ms (y_now y)) (g_lease g) (y_valkey y) = (v, ans) →
  lease_inv (mkSystem (y_now y) v
    (pre ++ mkGrant (g_lease g) (g_refunded g || done_ok ans) (g_released g || done_ok ans) :: post)).
Proof.
  intros IR I E. pose proof (ri_leases y IR) as F. rewrite E, Forall_app, Forall_cons in F.
  destruct F as (_ & (_ & Hra & _) & _). unfold Refund. rewrite Hra. cbn [negb]. intros Er.
  destruct (refund_cases _ _ _ _ _ _ _ _ _ (set_not_foreign _ _ (li_set y I)) Er) as [ [-> Ok]|(-> & Rm & _)].
  - rewrite Ok, !orb_false_r. destruct y as [now w gs], g. cbn in *. by subst gs.
  - apply (frees_slot y pre g); try done. cbn. by rewrite orb_true_r.
Qed.

Lemma lease_inv_release y pre g post v ans : lease_inv y → y_grants y = pre ++ g :: post →
  Release (now_ms (y_now y)) (g_lease g) (y_valkey y) = (v, ans) → 0 <= y_now y →
  lease_inv (mkSystem (y_now y) v (pre ++ mkGrant (g_lease g) (g_refunded g) (g_released g || done_ok ans) :: post)).
Proof.
  intros I E Er Hn. unfold Release in Er. destruct (Z.eqb_spec (le_concurrencyExpiresAtMS (g_lease g)) 0) as [X|X].
  - injection Er as <- <-. cbn [done_ok]. rewrite orb_true_r.
    set (g' := mkGrant _ _ true).
    assert (0 <= now_ms (y_now y)) by (apply Z.div_pos; lia).
    assert (Hh : holding (y_now y) (pre ++ g' :: post) = holding (y_now y) (y_grants y)).
    { rewrite E. unfold holding. rewrite !filter_app, !filter_cons, !decide_False by (cbn; rewrite ?X; naive_solver lia). done. }
    apply (lease_inv_fewer y _ _ None); [done|apply I|by rewrite E, !map_app| |by rewrite Hh|done].
    intros z e i x Ez Hx _ _ _. by exists z, e.
  - destruct (release_cases _ _ _ _ _ (set_not_foreign _ _ (li_set y I)) Er) as (Ok & _ & Rm).
    apply (frees_slot y pre g); try done. cbn. by rewrite Ok, orb_true_r.
Qed.

Lemma lease_inv_reconcile y g actual v ans : lease_inv y →
  Reconcile (now_ms (y_now y)) actual (g_lease g) (y_valkey y) = Some (v, ans) →
  lease_inv (mkSystem (y_now y) v (y_grants y)).
Proof.
  intros I. unfold Reconcile. destruct (negb _).
  { intros [= <- _]. by destruct y. }
  destruct (_ || _); [done|]. intros [= E]. apply reconcile_cases in E as [Ec _]; [|lia].
  apply (lease_inv_fewer y v _ None); try done; rewrite Ec; [apply I|]. intros z e i x Ez Hx _ _ _. by exists z, e.
Qed.

Lemma reachable_leases y : reachable y → lease_inv y.
Proof.
  induction 1 as [now Hn|y y' R IH St].
  - constructor; cbn; [by left|by constructor|by intros g Hg; inversion Hg|]. unfold holding. simpl. lia.
  - pose proof (reachable_rate y R) as IR. pose proof (ri_now y IR).
    destruct St; [by apply lease_inv_time|by eapply lease_inv_reserve|by eapply lease_inv_refund|
                  by eapply lease_inv_reconcile|by eapply lease_inv_release].
Qed.

(** C7. Replicas that share a lookup never go over its limits, however their
    reservations, refunds, reconciliations and releases interleave and whatever shares
    and token counts they ask for: in every window the requests granted and not refunded
    are at most the request limit and the tokens they reserved at most the token limit,
    and at every moment the granted leases that are neither released nor expired are at
    most the concurrency limit. *)
Theorem limits_never_exceeded y : reachable y →
  (∀ l, L = Some l → 0 < l → ∀ w, requests_in w (y_grants y) <= l) ∧
  (∀ t, T = Some t → 0 < t → ∀ w, tokens_in w (y_grants y) <= t) ∧
  (∀ c, C = Some c → 0 < c → Z.of_nat (length (holding (y_now y) (y_grants y))) <= c).
Proof.
  intros R. pose proof (reachable_rate y R) as [_ _ _ _ _ Hr Ht]. pose proof (reachable_leases y R) as [_ _ _ Hc].
  split_and!; intros n En P; rewrite En in *; cbn in *; [intros w..|]; [apply Hr|apply Ht|apply Hc]; lia.
Qed.
End Replicas.

(** ** A run *)

Definition demo_request : Request :=
  mkRequest "cost" "" "lookup_1" (Some 2) (Some 100) (Some 1) false None None None 40 (30 * Second) "" "" 0 false
    (mkShareOf "" 0 0).

(** The state after a reservation. *)
Definition reserved (y : system) (r : Request) (uuid : string) : system :=
  let '(v, o) := Reserve (λ _, true) (λ _, None) (y_now y) r uuid (y_valkey y) in
  mkSystem (y_now y) v (match o with inr le => mkGrant le false false :: y_grants y | inl _ => y_grants y end).

Lemma reachable_reserved L T C y r uuid : reachable L T C y → limited_by L T C r → HasRateLimits r = true →
  lease_id r uuid ∉ map id_of (y_grants y) → reachable L T C (reserved y r uuid).
Proof.
  intros R LB HR Fr. unfold reserved. destruct (Reserve _ _ _ _ _ _) as [v o] eqn:E.
  apply (reach_step _ _ _ y); [done|]. by eapply step_reserve.
Qed.

Definition demo_start : system := mkSystem 1700000000000000 (mkValkey Missing Missing) [].
Definition demo_run : system := reserved (reserved demo_start demo_request "one") demo_request "two".

Lemma limits_never_exceeded_witness :
  length (y_grants demo_run) = 1%nat ∧ length (holding (y_now demo_run) (y_grants demo_run)) = 1%nat ∧
  (∀ t, Some 100 = Some t → 0 < t → ∀ w, tokens_in w (y_grants demo_run) <= t).
Proof.
  split; [vm_compute; reflexivity|]. split; [vm_compute; reflexivity|].
  assert (R : reachable (Some 2) (Some 100) (Some 1) demo_run).
  { apply reachable_reserved; [apply reachable_reserved|..]; try (done || (unfold limited_by; done)).
    - by constructor.
    - vm_compute. by inversion 1.
    - assert (E : map id_of (y_grants (reserved demo_start demo_request "one")) = ["one"%string]) by (vm_compute; reflexivity).
      rewrite E. intros H%list_elem_of_singleton. done. }
  apply (limits_never_exceeded (Some 2) (Some 100) (Some 1) demo_run R).
Defined.
