(* ===== verification/LimitsReply.v ===== *)
(** * Shared rate limits: replies

    The script and the code that reads its replies agree: whatever Valkey holds, a
    reservation of a validated request ends in a lease, a refusal, a report of malformed
    state or a service error, and never in a reply the reader does not understand. The
    exception is a request that divides its limits and asks for the allowance: refused by
    its share, it is told of capacity that the reader does not expect. *)

From S2P Require Import Prelude Go Amount Limits LimitsFacts.
From Stdlib Require Import Ascii.
Local Open Scope Z_scope.
Local Open Scope olp_scope.

(** ** Validated requests *)

Definition limit_in_range (limit : option Z) : Prop := ∀ n, limit = Some n → 1 <= n <= MAX_SAFE_INTEGER.

Record validated (r : Request) : Prop := mkValidated {
  vd_rpm : limit_in_range (RequestsPerMinute r);
  vd_tpm : limit_in_range (TokensPerMinute r);
  vd_concurrency : limit_in_range (MaxConcurrency r);
  vd_tokens : 0 <= RequestedTokens r <= MAX_SAFE_INTEGER;
  vd_counted : is_some (TokensPerMinute r) = true → 1 <= RequestedTokens r;
  vd_share : divides (Req_Share r) = true → Share_valid (Req_Share r) = true;
  vd_ttl : 1 <= Milliseconds (LeaseTTL r);
}.

Lemma refuse_if_none {E} b (e : E) : refuse_if b e = None → b = false.
Proof. by destruct b. Qed.

Lemma otherwise_none {E} (a b : option E) : a <|> b = None ↔ a = None ∧ b = None.
Proof. destruct a; naive_solver. Qed.

Lemma check_limit_none limit name : check_limit limit name = None → limit_in_range limit.
Proof.
  unfold check_limit. intros H n ->. rewrite Z.gtb_ltb in H. destruct (Z.ltb_spec n 1); [done|].
  destruct (Z.ltb_spec MAX_SAFE_INTEGER n); [done|lia].
Qed.

Lemma Validate_ok uuid_ok r : Validate uuid_ok r = None → validated r.
Proof.
  unfold Validate. rewrite !otherwise_none.
  intros (_ & _ & H1%check_limit_none & H2%check_limit_none & H3%check_limit_none & H4%refuse_if_none &
          H5%refuse_if_none & H6%refuse_if_none & H7%refuse_if_none & _ & _ & _ & H8%refuse_if_none & _).
  rewrite Z.gtb_ltb in H5. bool_to_prop. constructor; try done.
  - intros E. rewrite E in H6. cbn in H6. bool_to_prop. lia.
  - intros E. rewrite E in H7. cbn in H7. by apply negb_false_iff in H7.
Qed.

Lemma limitValue_range limit : limit_in_range limit → 0 <= limitValue limit <= MAX_SAFE_INTEGER.
Proof. intros H. destruct limit as [n|]; cbn; [specialize (H n eq_refl); lia|unfold MAX_SAFE_INTEGER; lia]. Qed.

Lemma limitValue_pos limit : limit_in_range limit → (limitValue limit >? 0) = is_some limit.
Proof.
  intros H. destruct limit as [n|]; cbn; [|done]. specialize (H n eq_refl). destruct (Z.gtb_spec n 0); [done|lia].
Qed.

Lemma prefix_app a b : String.prefix a (a +:+ b) = true.
Proof.
  induction a as [|c a IH]; [by destruct b|]. rewrite append_cons. cbn [String.prefix]. by destruct (ascii_dec c c).
Qed.

Lemma safe_ok n : 0 <= n <= MAX_SAFE_INTEGER → safe n = true.
Proof. intros H. unfold safe. by rewrite !(proj2 (Z.leb_le _ _)) by lia. Qed.

(** The script takes the arguments of a validated request. *)
Lemma args_of_ok r uuid : validated r → len uuid = 36 → Milliseconds (LeaseTTL r) <= MAX_SAFE_INTEGER →
  args_ok (args_of r (lease_id r uuid)) = true.
Proof.
  intros [R1 R2 R3 R4 R5 R6 R7] Hu Ht. unfold args_ok, args_of. cbn [a_rpm a_tpm a_tokens a_concurrency a_ttl a_lease a_share].
  rewrite !safe_ok by (try apply limitValue_range; done || lia). rewrite limitValue_pos by done.
  rewrite (proj2 (Z.leb_le 1 _)) by lia. rewrite !andb_true_r.
  assert (E : negb (is_some (TokensPerMinute r) && (RequestedTokens r <? 1)) = true).
  { destruct (is_some _); [|done]. specialize (R5 eq_refl). by rewrite (proj2 (Z.ltb_ge _ _)) by lia. }
  rewrite E, andb_true_r. unfold lease_id. destruct (divides (Req_Share r)).
  - specialize (R6 eq_refl). unfold Share_valid, validClass in R6. repeat (apply andb_true_iff in R6 as [R6 ?]).
    cbn [sh_class sh_percent sh_saturation]. unfold is_class. repeat (apply andb_true_iff; split); try done.
    + rewrite <- append_assoc. apply prefix_app.
    + apply Z.leb_le. rewrite !len_append. change (len ".") with 1. unfold len at 1. lia.
    + apply Z.leb_le. rewrite !len_append. change (len ".") with 1. bool_to_prop. lia.
  - by rewrite Hu.
Qed.

(** ** What the script answers *)

Lemma least_bounds now z : now_ms now < MAX_SAFE_INTEGER → (∀ i x, z !! i = Some x → now_ms now < x) →
  now_ms now < least z MAX_SAFE_INTEGER <= MAX_SAFE_INTEGER.
Proof.
  intros Hn H. unfold least, scores.
  assert (Hx : ∀ x, x ∈ (map_to_list z).*2 → now_ms now < x).
  { intros x Hx. apply list_elem_of_fmap in Hx as ([i y] & -> & Hy). apply elem_of_map_to_list in Hy. by eapply H. }
  induction (map_to_list z).*2 as [|x l IH]; cbn; [lia|].
  pose proof (Hx x ltac:(left)). destruct IH as [I1 I2]; [intros; apply Hx; by right|]. lia.
Qed.

Lemma check_retry a now z retry : now_ms now < MAX_SAFE_INTEGER → 0 <= now_ms now →
  (∀ i x, z !! i = Some x → now_ms now < x) →
  check_concurrency a now z = inr (inl retry) → 1 <= retry <= MAX_SAFE_INTEGER.
Proof.
  intros Hn H0 H. pose proof (least_bounds now z Hn H). unfold check_concurrency. cbv zeta.
  destruct (_ && negb (_ && _)); [done|]. destruct (_ && _ && _); [intros [= <-]; lia|].
  destruct (a_share a); [|done]. destruct (_ && _); [|done]. intros [= <-].
  destruct (_ >? 0); unfold MAX_SAFE_INTEGER in *; lia.
Qed.

Lemma purge_later now z i x : purge now z !! i = Some x → now_ms now < x.
Proof. unfold purge. by intros [_ ?]%map_lookup_filter_Some. Qed.

(** The counts the script reads. *)
Lemma read_rate_bounds a now k cur rpm tpm cr ct : read_rate a now k = Some (cur, rpm, tpm, cr, ct) → 0 <= rpm ∧ 0 <= tpm.
Proof.
  unfold read_rate. destruct (negb _); [intros [= _ <- <- _ _]; lia|].
  assert (K : ∀ o : option (bool * Z * Z), (∀ b r t, o = Some (b, r, t) → 0 <= r ∧ 0 <= t) →
    match o with
    | Some (current, rpm, tpm) =>
        match a_share a with
        | Some s => if current then
            match read_class (fields_of k) ("rpm:" +:+ sh_class s), read_class (fields_of k) ("tpm:" +:+ sh_class s) with
            | Some cr, Some ct => Some (current, rpm, tpm, cr, ct) | _, _ => None end
            else Some (current, rpm, tpm, 0, 0)
        | None => Some (current, rpm, tpm, 0, 0)
        end
    | None => None
    end = Some (cur, rpm, tpm, cr, ct) → 0 <= rpm ∧ 0 <= tpm).
  { intros [ [ [b r] t]|] Ho; [|done]. specialize (Ho b r t eq_refl). repeat case_match; intros [= _ <- <- _ _]; done. }
  assert (P : ∀ b r t, match fields_of k !! "window"%string, fields_of k !! "rpm"%string, fields_of k !! "tpm"%string with
        | None, None, None => Some (false, 0, 0)
        | Some w, Some r, Some t =>
            match parse_safe w, parse_safe r, parse_safe t with
            | Some w, Some r, Some t =>
                if w >? window_id now then None else if w =? window_id now then Some (true, r, t) else Some (false, 0, 0)
            | _, _, _ => None
            end
        | _, _, _ => None
        end = Some (b, r, t) → 0 <= r ∧ 0 <= t).
  { intros b r t. destruct (fields_of k !! "window"%string) as [w|], (fields_of k !! "rpm"%string) as [x|],
      (fields_of k !! "tpm"%string) as [z|]; try done;
      [|by intros [= _ <- <-] ].
    destruct (parse_safe w), (parse_safe x) as [x'|] eqn:Ex, (parse_safe z) as [z'|] eqn:Ez; try done.
    apply parse_safe_bounds in Ex, Ez. destruct (_ >? _); [done|]. destruct (_ =? _); intros [= _ <- <-]; lia. }
  destruct k as [|h e|]; [| |done]; cbv zeta; apply K, P.
Qed.

Section Answers.
Context (a : reserve_args) (now : Z).

Inductive answers : answer → Prop :=
  | answers_malformed_rate : answers (failure "malformed_rate_state" (window_id now))
  | answers_malformed_leases : answers (failure "malformed_concurrency_state" (window_id now))
  | answers_error s : answers (ErrorReply s)
  | answers_refused d rpm tpm cr ct : 0 <= rpm → 0 <= tpm → refuse_rate a rpm tpm cr ct = Some d →
      answers (decision a now 0 d (window_remaining_ms now) 0 rpm tpm)
  | answers_full retry rpm tpm : 0 <= rpm → 0 <= tpm → 1 <= retry <= MAX_SAFE_INTEGER →
      answers (decision a now 0 "concurrency" retry 0 rpm tpm)
  | answers_granted rpm tpm : 0 <= rpm → 0 <= tpm →
      answers (decision a now 1 "ok" 0 (lease_expiry a now) (rpm + 1) (tpm + a_tokens a)).

Lemma reserve_answers v v' ans : args_ok a = true → seconds now <= 9007199254739 → 0 <= now_ms now →
  a_ttl a <= MAX_SAFE_INTEGER - now_ms now → now_ms now < MAX_SAFE_INTEGER →
  reserve_limits a now v = (v', ans) → answers ans.
Proof.
  intros A S N Tt Nm. unfold reserve_limits. fold (lease_expiry a now). rewrite A. cbn [negb].
  destruct (Z.gtb_spec (seconds now) 9007199254739); [lia|].
  destruct (Z.gtb_spec (a_ttl a) (MAX_SAFE_INTEGER - now_ms now)); [lia|]. rewrite andb_false_r.
  destruct (read_rate a now _) as [ [ [ [ [cur rpm] tpm] cr] ct]|] eqn:R; [|intros [= _ <-]; constructor].
  apply read_rate_bounds in R as [R1 R2].
  destruct (refuse_rate a rpm tpm cr ct) as [d|] eqn:Rf; [intros [= _ <-]; by econstructor|]. cbv zeta.
  set (k := count_rate _ _ _ _). clearbody k.
  assert (K : ∀ z e, (∀ i x, z !! i = Some x → now_ms now < x) →
    (let '(z, e) := (z, e) in
     match check_concurrency a now z with
     | inl _ => (mkValkey (rate v) (set_zset z e), failure "malformed_concurrency_state" (window_id now))
     | inr (inl retry) => (mkValkey (rate v) (set_zset z e), decision a now 0 "concurrency" retry 0 rpm tpm)
     | inr (inr newest) =>
         let '(v, r) := match k with
           | None => (mkValkey (rate v) (set_zset z e), ErrorReply "ERR hash value is not an integer")
           | Some k => (mkValkey k (set_zset z e), decision a now 1 "ok" 0 (lease_expiry a now) (rpm + 1) (tpm + a_tokens a))
           end in
         match r with
         | ErrorReply _ => (v, r)
         | _ => (mkValkey (rate v) (Holds (<[a_lease a := lease_expiry a now]> z) (Some (Z.max newest (lease_expiry a now)))), r)
         end
     end) = (v', ans) → answers ans).
  { intros z e Hz. destruct (check_concurrency a now z) as [u|[retry|newest] ] eqn:Ch; [intros [= _ <-]; constructor|..].
    - intros [= _ <-]. constructor; try done. by eapply check_retry.
    - destruct k; intros [= _ <-]; by constructor. }
  destruct (negb (track_concurrency a)).
  - destruct k; intros [= _ <-]; by constructor.
  - destruct (live (now_ms now) (concurrency v)) as [|z e|]; [|..|intros [= _ <-]; constructor].
    + apply (K ∅ None). intros i x. by rewrite lookup_empty.
    + apply (K (purge now z) e). apply purge_later.
Qed.
End Answers.

(** ** Reading the answers *)

Lemma allowance_bounds limit used : 0 <= limit → 0 <= used →
  0 <= allowance limit used <= limit ∧ (limit > 0 → 1 <= used → allowance limit used < limit) ∧
  (limit <= used → allowance limit used = 0).
Proof.
  intros H1 H2. unfold allowance. destruct (Z.eqb_spec limit 0), (Z.geb_spec used limit); cbn [orb]; lia.
Qed.

Lemma head_refused d retry w : d = "rpm"%string ∨ d = "tpm"%string → 1 <= retry <= 60000 → 0 < w →
  parse_head 0 d retry w 0 = Some (mkResult Rejected (Some (if String.eqb d "tpm" then Tokens else Requests)) retry 0 0 noRate).
Proof.
  intros D Hr Hw. unfold parse_head, MINUTE_MS. rewrite Z.geb_leb, Z.gtb_ltb.
  rewrite (proj2 (Z.leb_le 1 _)), (proj2 (Z.leb_le _ 60000)), (proj2 (Z.ltb_lt 0 w)) by lia. by destruct D as [-> | ->].
Qed.

Lemma head_full retry w : 1 <= retry → 0 < w →
  parse_head 0 "concurrency" retry w 0 = Some (mkResult Rejected (Some Concurrency) retry 0 0 noRate).
Proof.
  intros Hr Hw. unfold parse_head. rewrite Z.geb_leb, Z.gtb_ltb. by rewrite (proj2 (Z.leb_le 1 _)), (proj2 (Z.ltb_lt 0 w)) by lia.
Qed.

Lemma head_granted w expiry : 0 < w → parse_head 1 "ok" 0 w expiry = Some (mkResult Granted None 0 w expiry noRate).
Proof. intros Hw. unfold parse_head. by rewrite (proj2 (Z.gtb_lt w 0)) by lia. Qed.

Lemma luaSafe_ok n : 0 <= n <= MAX_SAFE_INTEGER → luaSafe n = true.
Proof. intros H. unfold luaSafe. by rewrite Z.geb_leb, !(proj2 (Z.leb_le _ _)) by lia. Qed.

(** The refusal of limits that no share divides. *)
Lemma refused_why a rpm tpm cr ct d : refuse_rate a rpm tpm cr ct = Some d → (d = "rpm" ∨ d = "tpm")%string ∧
  (d = "rpm"%string → a_share a = None → a_rpm a > 0 ∧ a_rpm a <= rpm) ∧ (d = "tpm"%string → a_tpm a > 0).
Proof.
  unfold refuse_rate. rewrite !Z.gtb_ltb, !Z.geb_leb.
  destruct (Z.ltb_spec 0 (a_rpm a)), (Z.leb_spec (a_rpm a) rpm), (Z.ltb_spec 0 (a_tpm a)); cbn [andb];
    repeat case_match; intros [= <-]; split; auto; split; intros; simplify_eq; split || lia; lia.
Qed.

Section Reading.
Context (r : Request) (id : string) (now : Z).
Context (V : validated r) (N : 60000 <= now_ms now) (B : now_ms now + Milliseconds (LeaseTTL r) + 60000 <= MAX_SAFE_INTEGER).

Let a : reserve_args := args_of r id.

Lemma reply_clock : 0 < window_id now < maxWindowID ∧ luaSafe (window_id now) = true ∧
  1 <= window_remaining_ms now <= 60000 ∧ seconds now <= 9007199254739.
Proof using N B V.
  assert (H : 0 <= now).
  { destruct (Z.le_gt_cases 0 now) as [|Neg]; [done|]. unfold now_ms in N.
    pose proof (Z.div_lt_upper_bound now 1000 0 ltac:(lia) ltac:(lia)). lia. }
  pose proof (window_bounds now H) as (W0 & W1 & W2). pose proof (vd_ttl r V).
  assert (Wm : (window_id now + 1) * 60000 <= MAX_SAFE_INTEGER) by lia.
  assert (window_id now < maxWindowID).
  { unfold maxWindowID, MINUTE_MS. apply Z.lt_le_pred. unfold MAX_SAFE_INTEGER in Wm.
    change (MAX_SAFE_INTEGER / 60000) with 150119987579. lia. }
  split; [lia|]. split; [unfold luaSafe, MAX_SAFE_INTEGER in *; rewrite Z.geb_leb, !(proj2 (Z.leb_le _ _)) by lia; done|].
  split; [lia|]. unfold now_ms in B. unfold seconds, MAX_SAFE_INTEGER in *.
  assert (now / 1000000 = now / 1000 / 1000) as -> by (rewrite Z.div_div by lia; done).
  apply Z.lt_succ_r, Z.div_lt_upper_bound; lia.
Qed.

(** An allowance that fits the decision it comes with. *)
Definition fits (rpm tpm : Z) (res : scriptResult) : Prop :=
  match s_kind res, s_dimension res with
  | Granted, _ => 1 <= rpm ∧ (is_some (TokensPerMinute r) = true → 1 <= tpm)
  | _, Some Requests => a_rpm a > 0 ∧ a_rpm a <= rpm ∧ s_retry res = window_remaining_ms now
  | _, Some Tokens => a_tpm a > 0 ∧ s_retry res = window_remaining_ms now
  | _, _ => True
  end.

Lemma allowance_read rpm tpm res : 0 <= rpm → 0 <= tpm → rate_enabled a = true → fits rpm tpm res →
  ∃ st, parseAllowance [RInt (a_rpm a); RInt (allowance (a_rpm a) rpm); RInt (a_tpm a); RInt (allowance (a_tpm a) tpm);
            RInt (window_remaining_ms now)] (window_id now) res = Some st ∧ RequestLimit st = a_rpm a ∧ TokenLimit st = a_tpm a.
Proof using N B V.
  intros Hr Ht En F. destruct reply_clock as (W & _ & R & _).
  pose proof (limitValue_range _ (vd_rpm r V) : 0 <= a_rpm a <= _) as Lr.
  pose proof (limitValue_range _ (vd_tpm r V) : 0 <= a_tpm a <= _) as Lt.
  assert (Pt : a_tpm a > 0 → is_some (TokensPerMinute r) = true)
    by (intros P; rewrite <- (limitValue_pos _ (vd_tpm r V)); apply Z.gtb_lt; unfold a in P; cbn in P; lia).
  destruct (allowance_bounds (a_rpm a) rpm ltac:(lia) Hr) as (A1 & A2 & A3).
  destruct (allowance_bounds (a_tpm a) tpm ltac:(lia) Ht) as (B1 & B2 & B3).
  unfold parseAllowance. cbn [mapM replyInt mbind option_bind mret option_ret forallb].
  assert (S : ∀ n, 0 <= n <= MAX_SAFE_INTEGER → luaSafe n = true)
    by (intros n Hn; unfold luaSafe; rewrite Z.geb_leb, !(proj2 (Z.leb_le _ _)) by lia; done).
  rewrite !S by (unfold MAX_SAFE_INTEGER in *; lia). cbn [negb andb].
  fold (rate_enabled a). rewrite En. cbn [negb andb].
  rewrite !Z.gtb_ltb, !Z.geb_leb.
  rewrite (proj2 (Z.ltb_ge (a_rpm a) _)), (proj2 (Z.ltb_ge (a_tpm a) _)), (proj2 (Z.leb_le 1 (window_remaining_ms now))),
    (proj2 (Z.leb_le (window_remaining_ms now) MINUTE_MS)), (proj2 (Z.leb_gt maxWindowID _)) by (unfold MINUTE_MS; lia).
  cbn [negb andb orb].
  match goal with |- context [if ?b then None else Some ?st] => assert (Hb : b = false); [|rewrite Hb; exists st] end.
  - unfold fits in F. destruct (s_kind res), (s_dimension res) as [ [| |]|]; try done.
    all: try (destruct F as [F1 F2]; assert (F3 : a_tpm a > 0 → 1 <= tpm) by auto;
              rewrite orb_false_iff, !andb_false_iff, !Z.ltb_ge, !Z.leb_gt; lia).
    all: rewrite ?orb_false_iff, ?negb_false_iff, ?Z.eqb_neq, ?Z.eqb_eq; lia.
  - split; [done|]. unfold rateState. unfold rate_enabled in En.
    destruct ((a_rpm a =? 0) && (a_tpm a =? 0)) eqn:Z0; [|done].
    apply andb_true_iff in Z0 as [Z1%Z.eqb_eq Z2%Z.eqb_eq]. by rewrite Z1, Z2 in En.
Qed.

Lemma reports_rated : reportsRate r = true → rate_enabled a = true.
Proof using V.
  unfold reportsRate, rate_enabled, a. cbn [a_rpm a_tpm args_of]. rewrite !limitValue_pos by apply V.
  by intros [_ ?]%andb_true_iff.
Qed.

(** A decision is read as made. *)
Lemma decision_read status detail retry expiry rpm tpm res :
  0 <= status → luaSafe retry = true → luaSafe expiry = true → 0 <= rpm → 0 <= tpm →
  parse_head status detail retry (window_id now) expiry = Some res → (reportsRate r = true → fits rpm tpm res) →
  ∃ res', parseReservation (decision a now status detail retry expiry rpm tpm) (reportsRate r) = Some res' ∧
    s_kind res' = s_kind res ∧ s_dimension res' = s_dimension res ∧ s_expiry res' = s_expiry res ∧
    (reportsRate r = true → RequestLimit (s_rate res') = limitValue (RequestsPerMinute r) ∧
       TokenLimit (s_rate res') = limitValue (TokensPerMinute r)).
Proof using N B V.
  intros Hs Sr Se Hr Ht P F. destruct reply_clock as (W & Sw & _ & _).
  unfold parseReservation, decision. cbn [app]. rewrite Sr, Sw, Se. cbn [negb orb Z.eqb Pos.eqb]. rewrite P.
  change (a_report a) with (reportsRate r). destruct (reportsRate r) eqn:Rp; cbn [negb orb].
  - rewrite (proj2 (Z.eqb_neq status (-1))) by lia. rewrite (reports_rated Rp). cbn [length Nat.eqb negb].
    destruct (allowance_read rpm tpm res Hr Ht (reports_rated Rp) (F eq_refl)) as (st & -> & E1 & E2).
    eexists. split; [done|]. by split_and!.
  - eexists. split; [done|]. by split_and!.
Qed.

(** The answers a validated request may get are all understood. *)
Lemma answers_understood ans : (divides (Req_Share r) = false ∨ reportsRate r = false) → answers a now ans →
  (∃ s, ans = ErrorReply s) ∨
  ∃ res, parseReservation ans (reportsRate r) = Some res ∧
    match s_kind res with
    | Malformed => True
    | ScriptFailure => False
    | Rejected => is_Some (s_dimension res)
    | Granted => (s_expiry res >? 0) = is_some (MaxConcurrency r) || TrackConcurrency r
    end ∧
    (reportsRate r = true → s_kind res = Granted ∨ s_kind res = Rejected →
       RequestLimit (s_rate res) = limitValue (RequestsPerMinute r) ∧ TokenLimit (s_rate res) = limitValue (TokensPerMinute r)).
Proof using N B V.
  intros Ns An. destruct reply_clock as (W & Sw & R & _). pose proof (vd_ttl r V) as Tl. pose proof (vd_tokens r V) as Tk.
  assert (Wp : (window_id now >? 0) = true) by (apply Z.gtb_lt; lia).
  destruct An as [| |s|d rpm tpm cr ct Hr Ht Rf|retry rpm tpm Hr Ht Hx|rpm tpm Hr Ht]; [| |by left; eexists|..]; right.
  - exists (mkResult Malformed None 0 0 0 noRate). split; [|by split; [|intros ? [?|?] ] ]. unfold parseReservation, failure. rewrite Sw. cbn [negb orb].
    unfold parse_head. rewrite Wp. cbn. by rewrite orb_true_r.
  - exists (mkResult Malformed None 0 0 0 noRate). split; [|by split; [|intros ? [?|?] ] ]. unfold parseReservation, failure. rewrite Sw. cbn [negb orb].
    unfold parse_head. rewrite Wp. cbn. by rewrite orb_true_r.
  - apply refused_why in Rf as (D & Dr & Dt).
    edestruct (decision_read 0 d (window_remaining_ms now) 0 rpm tpm) as (res & -> & K & Dm & E & Rt); [done| |done|done|done|..].
    + apply luaSafe_ok. unfold MAX_SAFE_INTEGER. lia.
    + apply head_refused; [done|lia|lia].
    + intros Rp. destruct Ns as [Ns|Ns]; [|congruence]. unfold fits. cbn.
      destruct D as [-> | ->]; cbn; [|by split; [apply Dt|] ]. unfold a in Dr. cbn in Dr. rewrite Ns in Dr. naive_solver.
    + exists res. rewrite K, Dm. cbn. eauto.
  - edestruct (decision_read 0 "concurrency" retry 0 rpm tpm) as (res & -> & K & Dm & E & Rt); [done| |done|done|done|..].
    + by apply luaSafe_ok; lia.
    + apply head_full; lia.
    + done.
    + exists res. rewrite K, Dm. cbn. eauto.
  - assert (X : 0 <= lease_expiry a now <= MAX_SAFE_INTEGER).
    { unfold lease_expiry. change (a_ttl a) with (Milliseconds (LeaseTTL r)). case_match; [|unfold MAX_SAFE_INTEGER]; lia. }
    change (a_tokens a) with (RequestedTokens r).
    edestruct (decision_read 1 "ok" 0 (lease_expiry a now) (rpm + 1) (tpm + RequestedTokens r)) as (res & -> & K & Dm & E & Rt);
      [done|done|by apply luaSafe_ok|lia|lia|apply head_granted; lia| |].
    + intros _. unfold fits. cbn. split; [lia|]. intros Ht'%(vd_counted r V). lia.
    + exists res. rewrite K, E. cbn. split; [done|]. split; [|eauto]. unfold lease_expiry, track_concurrency.
      unfold a at 1 2. cbn [a_concurrency a_track args_of]. rewrite limitValue_pos by apply V.
      change (a_ttl a) with (Milliseconds (LeaseTTL r)).
      destruct (_ || _); [apply Z.gtb_lt; lia|done].
Qed.
End Reading.

(** Whatever the two keys hold in Valkey, the reservation of a validated request is
    never answered with something it does not understand: it ends in a lease, a
    refusal, a report of malformed state or an error of the service. The clock is past
    the first minute, the lease ends in the range of safe integers, the answer for a cost
    budget is understood, and a request that divides its limits does not also ask for the
    allowance. *)
Theorem reserve_understood uuid_ok cost r uuid now v : Validate uuid_ok r = None → len uuid = 36 → 60000 <= now_ms now →
  now_ms now + Milliseconds (LeaseTTL r) + 60000 <= MAX_SAFE_INTEGER →
  divides (Req_Share r) = false ∨ reportsRate r = false → cost r ≠ Some ErrUnexpectedResponse →
  match snd (Reserve uuid_ok cost now r uuid v) with inl ErrUnexpectedResponse => False | _ => True end.
Proof.
  intros Ev Hu N B Ns Hc. pose proof (Validate_ok _ _ Ev) as Hv. pose proof (vd_ttl r Hv) as Tl. unfold Reserve. rewrite Ev.
  destruct (if HasCostBudget r then cost r else None) as [e|] eqn:Ec.
  { destruct (HasCostBudget r); [|done]. rewrite Ec in Hc. by destruct e. }
  destruct (negb _); [done|].
  assert (U : ∀ v' o, reserveRate now r (lease_id r uuid) v = (v', o) → o ≠ inl ErrUnexpectedResponse).
  { intros v' o. unfold reserveRate. destruct (reserve_limits _ now v) as [v1 ans] eqn:E.
    destruct (reply_clock r now Hv N B) as (_ & _ & _ & S).
    assert (A : answers (args_of r (lease_id r uuid)) now ans).
    { eapply reserve_answers; [by apply args_of_ok; [..|lia]|done|lia| |lia|exact E]. cbn. lia. }
    destruct (answers_understood r (lease_id r uuid) now Hv N B ans Ns A) as [ [s ->]|(res & P & K & Rt)]; [by intros [= _ <-]|].
    destruct ans as [l|n|s]; [|done|by intros [= _ <-] ]. rewrite P. intros [= _ <-].
    destruct (s_kind res) eqn:Kd; [| | |done]; rewrite ?andb_true_r, ?andb_false_r; cbn [andb].
    - destruct (reportsRate r); cbn [andb]; [destruct (Rt eq_refl (or_introl eq_refl)) as [-> ->]; rewrite !Z.eqb_refl; cbn [negb orb]|];
        rewrite K, eqb_reflx; done.
    - destruct K as [d Hd]. rewrite Hd.
      destruct (reportsRate r); cbn [andb]; [destruct (Rt eq_refl (or_intror eq_refl)) as [-> ->]; rewrite !Z.eqb_refl; cbn [negb orb]|];
        done.
    - done. }
  destruct (reserveRate now r (lease_id r uuid) v) as [v' [e|res] ]; [|done]. specialize (U v' _ eq_refl). by destruct e.
Qed.

(** A request for the allowance of limits that no share divides. *)
Definition stated_request (s : Share) : Request :=
  mkRequest "cost" "" "lookup_1" (Some 10) (Some 100) (Some 1) false None None None 40 (30 * Second) "" "" 0 true s.

Definition any_uuid : string := "01890a5d-ac96-774b-bcce-b302099a8057".

Definition full_window : valkey :=
  mkValkey (Holds (<["window" := "28333333"]> (<["rpm" := "10"]> (<["tpm" := "0"]> ∅))) (Some 1700000040000)) Missing.

Lemma reserve_understood_witness :
  match snd (Reserve (λ _, true) (λ _, None) 1700000000000000 (stated_request (mkShareOf "" 0 0)) any_uuid full_window) with
  | inl ErrUnexpectedResponse => False | _ => True end ∧
  match snd (Reserve (λ _, true) (λ _, None) 1700000000000000 (stated_request (mkShareOf "" 0 0)) any_uuid full_window) with
  | inl (ExceededError Requests _ _) => True | _ => False end.
Proof.
  split; [|vm_compute; done].
  apply (reserve_understood (λ _, true) (λ _, None)); [vm_compute; reflexivity|reflexivity|vm_compute; discriminate|vm_compute; discriminate|left; reflexivity|discriminate].
Defined.

(** A request that divides its limits and asks for the allowance, refused by its
    share while the limit has room, is not told it went over: the reader takes the
    remaining requests for a contradiction and reports an unexpected response. *)
Theorem share_refusal_misread :
  let r := stated_request (mkShareOf "batch" 10 20) in
  let v := mkValkey (Holds (<["window" := "28333333"]> (<["rpm" := "5"]> (<["tpm" := "0"]> (<["rpm:batch" := "1"]>
             (<["tpm:batch" := "0"]> ∅))))) (Some 1700000040000)) Missing in
  Validate (λ _, true) r = None ∧
  (∃ retry rest, snd (reserve_limits (args_of r (lease_id r any_uuid)) 1700000000000000 v) =
     Items (RInt 2 :: RInt 0 :: RStr "rpm" :: RInt retry :: rest)) ∧
  snd (Reserve (λ _, true) (λ _, None) 1700000000000000 r any_uuid v) = inl ErrUnexpectedResponse.
Proof. split_and!; [vm_compute; reflexivity|do 2 eexists; vm_compute; reflexivity|vm_compute; reflexivity]. Qed.
