(* ===== verification/Civil.v ===== *)
(** * Civil dates

    The proleptic Gregorian calendar as [time.Date] and [Time.Date] use it: a day is its
    number since 1970-01-01, a date a year, month and day. Years are counted from March,
    so that the leap day ends one. *)

From S2P Require Import Prelude Go.
Local Open Scope Z_scope.
Local Open Scope olp_scope.

(** Days before the first of March of a year, from that of year 0. *)
Definition days_before (y : Z) : Z := 365 * y + y / 4 - y / 100 + y / 400.

(** The day 1970-01-01, from the first of March of year 0. *)
Definition epoch_shift : Z := 719468.

(** The year from March that holds a day. *)
Definition year_of (z : Z) : Z :=
  let y := z * 400 / 146097 in
  if z <? days_before y then y - 1 else if z <? days_before (y + 1) then y else y + 1.

(** Days of a year from March before its [mp]-th month. *)
Definition month_start (mp : Z) : Z := (153 * mp + 2) / 5.
Definition month_of (doy : Z) : Z := (5 * doy + 2) / 153.

(** The date of a day. *)
Definition civil (day : Z) : Z * Z * Z :=
  let z := day + epoch_shift in
  let y := year_of z in
  let doy := z - days_before y in
  let mp := month_of doy in
  let d := doy - month_start mp + 1 in
  if mp <? 10 then (y, mp + 3, d) else (y + 1, mp - 9, d).

(** The day of the first of a month, from 1 to 12. *)
Definition month_first (y m : Z) : Z :=
  (if m >? 2 then days_before y + month_start (m - 3) else days_before (y - 1) + month_start (m + 9)) - epoch_shift.

(** [time.Date] at midnight UTC: any month and any day are carried over. *)
Definition Date (y m d : Z) : Z := month_first (y + (m - 1) / 12) ((m - 1) mod 12 + 1) + (d - 1).

Definition dateNumber (t : Z * Z * Z) : Z := let '(y, m, d) := t in y * 10000 + m * 100 + d.

Definition year_at (day : Z) : Z := (civil day).1.1.
Definition month_at (day : Z) : Z := (civil day).1.2.
Definition day_at (day : Z) : Z := (civil day).2.

(** [Time.Weekday], with Sunday 0. *)
Definition Weekday (day : Z) : Z := (day + 4) mod 7.

Arguments days_before : simpl never.
Arguments month_start : simpl never.

(** ** Years *)

Ltac div_lia := Z.to_euclidean_division_equations; lia.

Lemma days_before_step y : 365 <= days_before (y + 1) - days_before y <= 366.
Proof. unfold days_before. div_lia. Qed.

Lemma days_before_mono y y' : y <= y' → days_before y + 365 * (y' - y) <= days_before y'.
Proof. unfold days_before. intros H. div_lia. Qed.

Lemma days_before_near y : 146097 * y - 600 <= 400 * days_before y <= 146097 * y + 600.
Proof. unfold days_before. div_lia. Qed.

Lemma year_of_spec z : days_before (year_of z) <= z < days_before (year_of z + 1).
Proof.
  unfold year_of. set (y := z * 400 / 146097).
  assert (E : 146097 * y <= z * 400 < 146097 * y + 146097).
  { subst y. pose proof (Z.div_mod (z * 400) 146097 ltac:(lia)). pose proof (Z.mod_pos_bound (z * 400) 146097 ltac:(lia)). lia. }
  pose proof (days_before_near (y - 1)). pose proof (days_before_near (y + 1 + 1)). pose proof (days_before_step (y - 1)).
  pose proof (days_before_step (y + 1)). pose proof (days_before_near y). pose proof (days_before_near (y + 1)).
  destruct (Z.ltb_spec z (days_before y)).
  - replace (y - 1 + 1) with y in * by lia. lia.
  - destruct (Z.ltb_spec z (days_before (y + 1))); lia.
Qed.

Lemma year_of_unique z y : days_before y <= z < days_before (y + 1) → year_of z = y.
Proof.
  intros H. pose proof (year_of_spec z) as S. destruct (Z.lt_trichotomy (year_of z) y) as [L|[E|L] ]; [|done|].
  - pose proof (days_before_mono (year_of z + 1) y ltac:(lia)). lia.
  - pose proof (days_before_mono (y + 1) (year_of z) ltac:(lia)). lia.
Qed.

(** ** Months *)

Lemma month_of_spec doy : 0 <= doy <= 365 →
  0 <= month_of doy <= 11 ∧ month_start (month_of doy) <= doy < month_start (month_of doy + 1).
Proof. unfold month_of, month_start. intros H. div_lia. Qed.

Lemma month_of_unique doy mp : month_start mp <= doy < month_start (mp + 1) → month_of doy = mp.
Proof. unfold month_of, month_start. intros H. div_lia. Qed.

Lemma month_start_step mp : 0 <= mp → 30 <= month_start (mp + 1) - month_start mp <= 31.
Proof. unfold month_start. intros H. div_lia. Qed.

Lemma month_start_values : month_start 0 = 0 ∧ month_start 9 = 275 ∧ month_start 10 = 306 ∧ month_start 11 = 337 ∧ month_start 12 = 367.
Proof. done. Qed.

Lemma month_first_late y m mp : 2 < m → mp = m - 3 → month_first y m = days_before y + month_start mp - epoch_shift.
Proof. intros H ->. unfold month_first. by rewrite Z.gtb_ltb, (proj2 (Z.ltb_lt _ _)). Qed.

Lemma month_first_early y m y' mp : m <= 2 → y' = y - 1 → mp = m + 9 →
  month_first y m = days_before y' + month_start mp - epoch_shift.
Proof. intros H -> ->. unfold month_first. by rewrite Z.gtb_ltb, (proj2 (Z.ltb_ge _ _)). Qed.

(** ** Months, counted from January of year 0 *)

Definition first_of (i : Z) : Z := month_first (i / 12) (i mod 12 + 1).

Lemma Date_first y m d : Date y m d = first_of (12 * y + m - 1) + (d - 1).
Proof.
  unfold Date, first_of. replace (12 * y + m - 1) with ((m - 1) + y * 12) by lia.
  by rewrite Z.div_add, Z.mod_add, (Z.add_comm ((m - 1) / 12)) by lia.
Qed.

Lemma first_of_month y m : 1 <= m <= 12 → first_of (12 * y + m - 1) = month_first y m.
Proof.
  intros H. unfold first_of. replace (12 * y + m - 1) with ((m - 1) + y * 12) by lia.
  rewrite Z.div_add, Z.mod_add, Z.div_small, Z.mod_small by lia. f_equal; lia.
Qed.

Lemma first_of_step i : 28 <= first_of (i + 1) - first_of i <= 31.
Proof.
  pose proof (Z.mod_pos_bound i 12 ltac:(lia)) as R. pose proof (Z.div_mod i 12 ltac:(lia)) as D.
  pose proof month_start_values as (E0 & E9 & E10 & E11 & _).
  set (y := i / 12) in *. set (r := i mod 12) in *.
  replace i with (12 * y + (r + 1) - 1) by lia. rewrite (first_of_month y (r + 1)) by lia.
  destruct (decide (r = 11)) as [E|N].
  - replace (12 * y + (r + 1) - 1 + 1) with (12 * (y + 1) + 1 - 1) by lia. rewrite first_of_month by lia.
    rewrite (month_first_early _ 1 y 10), (month_first_late _ _ 9) by lia. lia.
  - replace (12 * y + (r + 1) - 1 + 1) with (12 * y + (r + 2) - 1) by lia. rewrite first_of_month by lia.
    assert (C : r = 0 ∨ r = 1 ∨ 2 <= r < 11) by lia. destruct C as [C|[C|C] ].
    + rewrite (month_first_early _ _ (y - 1) 11), (month_first_early _ _ (y - 1) 10) by lia. lia.
    + rewrite (month_first_late _ _ 0), (month_first_early _ _ (y - 1) 11) by lia.
      pose proof (days_before_step (y - 1)) as S. replace (y - 1 + 1) with y in S by lia. lia.
    + rewrite (month_first_late _ _ (r - 2 + 1)), (month_first_late _ _ (r - 2)) by lia.
      pose proof (month_start_step (r - 2) ltac:(lia)). lia.
Qed.

Lemma first_of_mono i j : i <= j → first_of i + 28 * (j - i) <= first_of j.
Proof.
  intros H. replace j with (i + Z.of_nat (Z.to_nat (j - i))) by lia. generalize (Z.to_nat (j - i)) as n.
  induction n as [|n IH]; [rewrite Z.add_0_r; lia|]. pose proof (first_of_step (i + Z.of_nat n)).
  replace (i + Z.of_nat (S n)) with (i + Z.of_nat n + 1) by lia. lia.
Qed.

(** The month of a date, counted from January of year 0. *)
Definition month_index (t : Z * Z * Z) : Z := let '(y, m, _) := t in 12 * y + m - 1.

(** A date is the day counted from the first of its month. *)
Lemma civil_spec day : let '(y, m, d) := civil day in
  1 <= m <= 12 ∧ day = first_of (12 * y + m - 1) + (d - 1) ∧ 1 <= d ∧ day < first_of (12 * y + m - 1 + 1).
Proof.
  unfold civil. set (z := day + epoch_shift). set (y := year_of z). set (doy := z - days_before y).
  pose proof (year_of_spec z) as Y. fold y in Y. pose proof (days_before_step y) as S.
  destruct (month_of_spec doy ltac:(lia)) as [M1 M2]. set (mp := month_of doy) in *.
  pose proof month_start_values as (E0 & E9 & E10 & E11 & E12).
  assert (W : z = day + epoch_shift) by done.
  destruct (Z.ltb_spec mp 10) as [L|L].
  - rewrite (first_of_month y (mp + 3)), (month_first_late _ _ mp) by lia.
    assert (G : first_of (12 * y + (mp + 3) - 1 + 1) = days_before y + month_start (mp + 1) - epoch_shift).
    { destruct (decide (mp = 9)) as [Eq|N].
      - replace (12 * y + (mp + 3) - 1 + 1) with (12 * (y + 1) + 1 - 1) by lia.
        by rewrite first_of_month, (month_first_early _ _ y (mp + 1)) by lia.
      - replace (12 * y + (mp + 3) - 1 + 1) with (12 * y + (mp + 4) - 1) by lia.
        by rewrite first_of_month, (month_first_late _ _ (mp + 1)) by lia. }
    lia.
  - rewrite (first_of_month (y + 1) (mp - 9)), (month_first_early _ _ y mp) by lia.
    assert (G : day < first_of (12 * (y + 1) + (mp - 9) - 1 + 1)).
    { assert (mp = 10 ∨ mp = 11) as [C|C] by lia.
      - replace (12 * (y + 1) + (mp - 9) - 1 + 1) with (12 * (y + 1) + 2 - 1) by lia.
        rewrite first_of_month, (month_first_early _ _ y 11) by lia. rewrite C in M2. change (10 + 1) with 11 in M2. lia.
      - replace (12 * (y + 1) + (mp - 9) - 1 + 1) with (12 * (y + 1) + 3 - 1) by lia.
        rewrite first_of_month, (month_first_late _ _ 0) by lia. lia. }
    lia.
Qed.

(** The month a day falls in determines its date. *)
Lemma civil_in_month day i : first_of i <= day < first_of (i + 1) → civil day = (i / 12, i mod 12 + 1, day - first_of i + 1).
Proof.
  intros H. pose proof (civil_spec day) as S. destruct (civil day) as [ [y m] d]. destruct S as (Hm & E & Hd & L).
  assert (Ei : i = 12 * y + m - 1).
  { destruct (Z.lt_trichotomy i (12 * y + m - 1)) as [Lt|[?|Lt] ]; [|done|].
    - pose proof (first_of_mono (i + 1) (12 * y + m - 1) ltac:(lia)). lia.
    - pose proof (first_of_mono (12 * y + m - 1 + 1) i ltac:(lia)). lia. }
  subst i. replace (12 * y + m - 1) with ((m - 1) + y * 12) at 1 2 by lia.
  rewrite Z.div_add, Z.mod_add, Z.div_small, Z.mod_small by lia. f_equal; [f_equal|]; lia.
Qed.

(** Dates are numbered in the order of days. *)
Lemma civil_mono day day' : day < day' → dateNumber (civil day) < dateNumber (civil day').
Proof.
  intros H. pose proof (civil_spec day) as S. pose proof (civil_spec day') as S'.
  destruct (civil day) as [ [y m] d], (civil day') as [ [y' m'] d']. destruct S as (Hm & E & Hd & L), S' as (Hm' & E' & Hd' & L').
  pose proof (first_of_step (12 * y + m - 1)). pose proof (first_of_step (12 * y' + m' - 1)). unfold dateNumber.
  destruct (Z.lt_trichotomy (12 * y + m - 1) (12 * y' + m' - 1)) as [Lt|[Eq|Lt] ].
  - lia.
  - assert (y = y' ∧ m = m') as [-> ->] by lia. lia.
  - pose proof (first_of_mono (12 * y' + m' - 1 + 1) (12 * y + m - 1) ltac:(lia)). lia.
Qed.

Lemma civil_Date day : let '(y, m, d) := civil day in Date y m d = day.
Proof. pose proof (civil_spec day) as S. destruct (civil day) as [ [y m] d]. rewrite Date_first. lia. Qed.

Lemma Date_civil y m d : 1 <= m <= 12 → 1 <= d → d <= Date y (m + 1) 1 - Date y m 1 → civil (Date y m d) = (y, m, d).
Proof.
  rewrite !Date_first. intros Hm Hd Hl. replace (12 * y + (m + 1) - 1) with (12 * y + m - 1 + 1) in Hl by lia.
  rewrite (civil_in_month _ (12 * y + m - 1)) by lia.
  replace (12 * y + m - 1) with ((m - 1) + y * 12) at 1 2 by lia.
  rewrite Z.div_add, Z.mod_add, Z.div_small, Z.mod_small by lia. f_equal; [f_equal|]; lia.
Qed.

(** The epoch and a leap day. *)
Lemma civil_samples : civil 0 = (1970, 1, 1) ∧ civil 19782 = (2024, 2, 29) ∧ Date 2024 3 0 = 19782 ∧ civil (-1) = (1969, 12, 31).
Proof. done. Qed.
