(* ===== verification/Calendar.v ===== *)
(** * Budget calendar

    The day, week and month a budget is measured over in a time zone
    ([internal/budgetcalendar], [BudgetWindows] of [internal/limits/budgets.go]). A zone
    is the offset the tz database gives at each second of the Unix epoch, a parameter:
    what the code relies on is that it is at most a day and that civil dates never go
    back, as its comment says. [None] is [time.UTC]. *)

From S2P Require Import Prelude Go Civil.
From Stdlib Require Import Ascii.
Local Open Scope Z_scope.
Local Open Scope olp_scope.

Definition zone : Type := Z → Z.

Record Calendar := mkCalendar { cal_name : string; location : option zone }.
Record Window := mkWindow { Start : Time; End_ : Time }.
Record Windows := mkWindows { Day : Window; Week : Window; Month : Window }.

Fixpoint contains_dots (s : string) : bool :=
  match s with
  | String c ((String d _) as r) => (Ascii.eqb c "." && Ascii.eqb d ".") || contains_dots r
  | _ => false
  end.

(** [LoadLocation] is [time.LoadLocation]. *)
Definition New (LoadLocation : string → option (option zone)) (name : string) : string + Calendar :=
  if String.eqb name "" || String.eqb name "Local" || String.prefix "/" name || contains_dots name
  then inl "use an IANA time zone"%string
  else match LoadLocation name with
       | None => inl ("unknown IANA time zone " +:+ name)
       | Some location => inr (mkCalendar name location)
       end.

Definition Name (c : Calendar) : string := if String.eqb (cal_name c) "" then "UTC" else cal_name c.

(** The day a second falls on. *)
Definition day_in (l : option zone) (unix : Z) : Z :=
  match l with None => unix / 86400 | Some z => (unix + z unix) / 86400 end.

(** [time.Unix(seconds, 0)] *)
Definition at_second (unix : Z) : Time := (unix + unixToInternal) * Second.

Definition AddDate (day years months days : Z) : Z :=
  let '(y, m, d) := civil day in Date (y + years) (m + months) (d + days).

(** The least second of a range that is not before: each round halves the range. *)
Fixpoint bisect (before : Z → bool) (fuel : nat) (low high : Z) : Z :=
  match fuel with
  | O => low
  | S fuel =>
      if low <? high then
        let mid := low + Z.quot (high - low) 2 in
        if before mid then bisect before fuel (mid + 1) high else bisect before fuel low mid
      else low
  end.

(** The first instant of a civil date, given by its day. *)
Definition boundary_second (day : Z) (l : option zone) : Z :=
  match l with
  | None => day * 86400
  | Some _ =>
      let target := dateNumber (civil day) in
      bisect (λ t, dateNumber (civil (day_in l t)) <? target) 32 (day * 86400 - 48 * 3600) (day * 86400 + 48 * 3600)
  end.

Definition boundary (day : Z) (l : option zone) : Time := at_second (boundary_second day l).

Definition Windows_at (c : Calendar) (at_ : Time) : Windows :=
  let l := location c in
  let '(y, m, d) := civil (day_in l (Unix at_)) in
  let date := Date y m d in
  let monday := AddDate date 0 0 (Z.rem (- (Weekday date + 6)) 7) in
  let first := Date y m 1 in
  let makeWindow start end_ := mkWindow (boundary start l) (boundary end_ l) in
  mkWindows (makeWindow date (AddDate date 0 0 1)) (makeWindow monday (AddDate monday 0 0 7))
    (makeWindow first (AddDate first 0 1 0)).

(** [BudgetWindows] *)
Record BudgetWindow := mkBudget {
  WeeklyStart : Time; WeeklyEnd : Time; WeeklyID : Z; DailyStart : Time; DailyEnd : Time;
  MonthlyStart : Time; MonthlyEnd : Time; DailyID : Z; MonthlyID : Z;
}.

Definition midnight (day : Z) : Time := at_second (day * 86400).

Definition BudgetWindows (now : Time) : BudgetWindow :=
  let '(y, m, d) := civil (day_in None (Unix now)) in
  let dailyStart := Date y m d in
  let monthlyStart := Date y m 1 in
  let civil := Windows_at (mkCalendar "" None) now in
  mkBudget (Start (Week civil)) (End_ (Week civil)) (Z.quot (Z.quot (Unix (Start (Week civil))) 86400 + 3) 7)
    (midnight dailyStart) (midnight (AddDate dailyStart 0 0 1))
    (midnight monthlyStart) (midnight (AddDate monthlyStart 0 1 0))
    (Z.quot (Unix (midnight dailyStart)) 86400) (y * 12 + m - 1).

(** ** Zones *)

Definition zone_ok (l : option zone) : Prop :=
  match l with
  | None => True
  | Some z => (∀ t, -86400 <= z t <= 86400) ∧ (∀ t t', t <= t' → day_in l t <= day_in l t')
  end.

(** ** The search *)

(** With fuel for its range, the search finds the least point that is not before. *)
Lemma bisect_least before fuel low high : high - low < 2 ^ Z.of_nat fuel → low <= high →
  (∀ t t', t <= t' → before t' = true → before t = true) →
  let r := bisect before fuel low high in
  low <= r <= high ∧ (∀ t, low <= t < r → before t = true) ∧ (r < high → before r = false).
Proof.
  revert low high. induction fuel as [|fuel IH]; intros low high Hf Hl Mono; cbn [bisect].
  - assert (low = high) by (cbn in Hf; lia). subst. split_and!; lia.
  - destruct (Z.ltb_spec low high) as [L|L]; [|split_and!; lia].
    assert (Hm : 0 <= Z.quot (high - low) 2 < high - low ∧ 2 * Z.quot (high - low) 2 <= high - low <= 2 * Z.quot (high - low) 2 + 1)
      by (rewrite Z.quot_div_nonneg by lia; div_lia).
    set (mid := low + _). rewrite Nat2Z.inj_succ, Z.pow_succ_r in Hf by lia.
    destruct (before mid) eqn:B.
    + destruct (IH (mid + 1) high) as (H1 & H2 & H3); [lia|lia|done|]. split_and!; [lia|lia| |done].
      intros t Ht. destruct (Z.le_gt_cases (mid + 1) t); [apply H2; lia|]. apply (Mono t mid); [lia|done].
    + destruct (IH low mid) as (H1 & H2 & H3); [lia|lia|done|]. split_and!; [lia|lia|done|].
      intros Hr. destruct (Z.eq_dec (bisect before fuel low mid) mid) as [-> |N]; [done|]. apply H3. lia.
Qed.

Lemma dateNumber_lt a b : (dateNumber (civil a) <? dateNumber (civil b)) = (a <? b).
Proof.
  destruct (Z.ltb_spec a b) as [L|L].
  - apply Z.ltb_lt. by apply civil_mono.
  - apply Z.ltb_ge. destruct (Z.eq_dec b a) as [-> |N]; [lia|]. pose proof (civil_mono b a ltac:(lia)). lia.
Qed.

(** The boundary of a date is the first second of that date or a later one. *)
Lemma boundary_first l day t : zone_ok l → boundary_second day l <= t ↔ day <= day_in l t.
Proof.
  destruct l as [z|]; cbn [zone_ok boundary_second].
  - intros [Bd Mono].
    set (before := λ t, dateNumber (civil (day_in (Some z) t)) <? dateNumber (civil day)).
    assert (Eb : ∀ t, before t = (day_in (Some z) t <? day)) by (intros; apply dateNumber_lt).
    set (low := day * 86400 - 48 * 3600). set (high := day * 86400 + 48 * 3600).
    destruct (bisect_least before 32 low high) as (H1 & H2 & H3); [unfold low, high; cbn; lia|unfold low, high; lia| |].
    { intros a b Hab. rewrite !Eb. intros Hb%Z.ltb_lt. apply Z.ltb_lt. specialize (Mono a b Hab). lia. }
    set (r := bisect before 32 low high) in *.
    assert (Hlow : day_in (Some z) low < day).
    { cbn. specialize (Bd low). apply Z.div_lt_upper_bound; unfold low in *; lia. }
    assert (Hhigh : day <= day_in (Some z) high).
    { cbn. specialize (Bd high). apply Z.div_le_lower_bound; unfold high in *; lia. }
    assert (Hr : day <= day_in (Some z) r).
    { destruct (Z.eq_dec r high) as [-> |N]; [done|]. specialize (H3 ltac:(lia)). rewrite Eb in H3. by apply Z.ltb_ge. }
    split; intros H.
    + specialize (Mono r t H). lia.
    + destruct (Z.le_gt_cases r t) as [|Lt]; [done|]. destruct (Z.le_gt_cases low t) as [Ge|Lo].
      * specialize (H2 t ltac:(lia)). rewrite Eb in H2. apply Z.ltb_lt in H2. lia.
      * specialize (Mono t low ltac:(lia)). lia.
  - intros _. cbn. split; intros H; [apply Z.div_le_lower_bound; lia|]. pose proof (Z.mul_div_le t 86400 ltac:(lia)). lia.
Qed.

Lemma at_second_le s t : at_second s <= t ↔ s <= Unix t.
Proof.
  unfold at_second, Unix, Second, Millisecond. split; intros H.
  - apply Z.le_add_le_sub_r, Z.div_le_lower_bound; lia.
  - apply Z.le_add_le_sub_r in H. pose proof (Z.mul_div_le t (1000 * 1000000) ltac:(lia)). lia.
Qed.

Lemma boundary_le l day t : zone_ok l → boundary day l <= t ↔ day <= day_in l (Unix t).
Proof. intros H. unfold boundary. by rewrite at_second_le, boundary_first. Qed.

(** ** Days, weeks and months *)

Lemma AddDate_days day n : AddDate day 0 0 n = day + n.
Proof.
  unfold AddDate. pose proof (civil_Date day) as E. destruct (civil day) as [ [y m] d].
  rewrite !Z.add_0_r. rewrite Date_first in *. lia.
Qed.

Lemma AddDate_month i : AddDate (first_of i) 0 1 0 = first_of (i + 1).
Proof.
  pose proof (first_of_step i). unfold AddDate. rewrite (civil_in_month _ i) by lia. rewrite Date_first.
  pose proof (Z.div_mod i 12 ltac:(lia)).
  replace (12 * (i / 12 + 0) + (i mod 12 + 1 + 1) - 1) with (i + 1) by lia. lia.
Qed.

(** The Monday of a day. *)
Definition monday_of (day : Z) : Z := day - (Weekday day + 6) mod 7.

Lemma monday_spec day : monday_of day <= day < monday_of day + 7 ∧ Weekday (monday_of day) = 1.
Proof. unfold monday_of, Weekday. div_lia. Qed.

Lemma monday_unique day k : Weekday k = 1 → k <= day < k + 7 → monday_of day = k.
Proof. unfold monday_of, Weekday. div_lia. Qed.

Definition month_of_day (day : Z) : Z := month_index (civil day).

Lemma month_of_day_spec day : first_of (month_of_day day) <= day < first_of (month_of_day day + 1).
Proof.
  unfold month_of_day. pose proof (civil_spec day) as S. destruct (civil day) as [ [y m] d]. cbn. lia.
Qed.

Lemma month_of_day_unique day i : first_of i <= day < first_of (i + 1) → month_of_day day = i.
Proof. intros H. unfold month_of_day. rewrite (civil_in_month _ _ H). cbn. div_lia. Qed.

Lemma Windows_at_days c at_ : let l := location c in let n := day_in l (Unix at_) in
  Windows_at c at_ =
    mkWindows (mkWindow (boundary n l) (boundary (n + 1) l))
      (mkWindow (boundary (monday_of n) l) (boundary (monday_of n + 7) l))
      (mkWindow (boundary (first_of (month_of_day n)) l) (boundary (first_of (month_of_day n + 1)) l)).
Proof.
  intros l n. unfold Windows_at. fold l n. pose proof (civil_Date n) as E. pose proof (civil_spec n) as S.
  assert (Em : month_of_day n = month_index (civil n)) by done.
  destruct (civil n) as [ [y m] d]. cbn in Em. rewrite E, !AddDate_days, Em.
  assert (W : n + Z.rem (- (Weekday n + 6)) 7 = monday_of n).
  { unfold monday_of. rewrite Z.rem_opp_l by lia. rewrite Z.rem_mod_nonneg; [lia| |lia].
    unfold Weekday. pose proof (Z.mod_pos_bound (n + 4) 7 ltac:(lia)). lia. }
  rewrite W, Date_first. replace (1 - 1) with 0 by lia. rewrite Z.add_0_r.
  by rewrite AddDate_month.
Qed.

(** ** Windows *)

Definition inside (w : Window) (t : Time) : Prop := Start w <= t < End_ w.

Section Zone.
Context (l : option zone) (Z_ok : zone_ok l).

Lemma inside_days a b t : inside (mkWindow (boundary a l) (boundary b l)) t ↔ a <= day_in l (Unix t) < b.
Proof using Z_ok.
  unfold inside. cbn. rewrite boundary_le by done.
  pose proof (boundary_le l b t Z_ok). rewrite (Z.lt_nge t). rewrite (Z.lt_nge (day_in _ _)). tauto.
Qed.

Lemma boundary_day day : day <= day_in l (Unix (boundary day l)).
Proof using Z_ok. by apply boundary_le. Qed.

(** A boundary that a later date shares. *)
Lemma boundary_shared e s : e <= s → s <= day_in l (Unix (boundary e l)) → boundary s l = boundary e l.
Proof using Z_ok.
  intros H1 H2. apply Z.le_antisymm; apply boundary_le; [done|done|done|]. pose proof (boundary_day s). lia.
Qed.
End Zone.

(** In a zone whose offsets are at most a day and whose dates never go back, skipped
    and repeated midnights included, the day, week and month of an instant hold it and are
    the same for every instant they hold, each is followed by the one that starts where it
    ends, the day lies in the week and the month, and a week starts on a Monday. *)
Theorem calendar_windows_tile c at_ : zone_ok (location c) →
  let w := Windows_at c at_ in
  Forall (λ X : Windows → Window,
    inside (X w) at_ ∧ (∀ t, inside (X w) t → X (Windows_at c t) = X w) ∧
    Start (X (Windows_at c (End_ (X w)))) = End_ (X w)) [Day; Week; Month] ∧
  (∀ t, inside (Day w) t → inside (Week w) t ∧ inside (Month w) t) ∧
  (∃ monday, Weekday monday = 1 ∧ Week w = mkWindow (boundary monday (location c)) (boundary (monday + 7) (location c))).
Proof.
  intros Hz w. pose proof (Windows_at_days c at_) as Ew. cbv zeta in Ew. fold w in Ew.
  set (l := location c) in *. set (n := day_in l (Unix at_)) in *.
  pose proof (monday_spec n) as (M1 & M2). pose proof (month_of_day_spec n) as M3.
  assert (Eq : ∀ t, Windows_at c t = let n := day_in l (Unix t) in
    mkWindows (mkWindow (boundary n l) (boundary (n + 1) l)) (mkWindow (boundary (monday_of n) l) (boundary (monday_of n + 7) l))
      (mkWindow (boundary (first_of (month_of_day n)) l) (boundary (first_of (month_of_day n + 1)) l)))
    by (intros t; apply Windows_at_days).
  split; [|split; [|rewrite Ew; by exists (monday_of n)] ].
  - rewrite !Forall_cons. split_and!; [..|done]; rewrite Ew; cbn [Day Week Month End_ Start].
    + apply inside_days; [done|]. fold n. lia.
    + intros t Ht%inside_days; [|done]. rewrite Eq. cbn. by replace (day_in l (Unix t)) with n by lia.
    + rewrite Eq. cbn. apply boundary_shared; [done|by apply boundary_day|lia].
    + apply inside_days; [done|]. fold n. lia.
    + intros t Ht%inside_days; [|done]. rewrite Eq. cbn. by rewrite (monday_unique _ (monday_of n)).
    + rewrite Eq. cbn. set (e := boundary (monday_of n + 7) l). pose proof (boundary_day l Hz (monday_of n + 7)) as D. fold e in D.
      pose proof (monday_spec (day_in l (Unix e))) as (A1 & A2). apply boundary_shared; [done| |fold e; lia].
      unfold Weekday in M2, A2. div_lia.
    + apply inside_days; [done|]. fold n. lia.
    + intros t Ht%inside_days; [|done]. rewrite Eq. cbn. by rewrite (month_of_day_unique _ (month_of_day n)).
    + rewrite Eq. cbn. set (e := boundary (first_of (month_of_day n + 1)) l). pose proof (boundary_day l Hz (first_of (month_of_day n + 1))) as D. fold e in D.
      pose proof (month_of_day_spec (day_in l (Unix e))) as A. apply boundary_shared; [done| |fold e; lia].
      destruct (Z.le_gt_cases (month_of_day n + 1) (month_of_day (day_in l (Unix e)))) as [G|G];
        [pose proof (first_of_mono _ _ G); lia|].
      pose proof (first_of_mono (month_of_day (day_in l (Unix e)) + 1) (month_of_day n + 1) ltac:(lia)). lia.
  - intros t. rewrite Ew. cbn [Day Week Month]. rewrite !inside_days by done. lia.
Qed.

(** A zone that springs forward over midnight: from 2024-03-30 22:00 UTC it is three hours
    ahead, before two. *)
Definition beirut : zone := λ t, if t <? 1711836000 then 7200 else 10800.

Lemma beirut_ok : zone_ok (Some beirut).
Proof.
  split.
  - intros t. unfold beirut. destruct (_ <? _); lia.
  - intros t t' H. cbn. unfold beirut. apply Z.div_le_mono; [lia|]. destruct (Z.ltb_spec t 1711836000), (Z.ltb_spec t' 1711836000); lia.
Qed.

(** There 2024-03-31 starts at 01:00 local time, which is 22:00 UTC. *)
Lemma calendar_windows_tile_witness :
  let c := mkCalendar "Asia/Beirut" (Some beirut) in
  let w := Windows_at c (at_second 1711900000) in
  Start (Day w) = at_second 1711836000 ∧ inside (Day w) (at_second 1711900000) ∧
  Start (Day (Windows_at c (End_ (Day w)))) = End_ (Day w).
Proof.
  split; [vm_compute; reflexivity|].
  pose proof (calendar_windows_tile (mkCalendar "Asia/Beirut" (Some beirut)) (at_second 1711900000) beirut_ok) as (F & _).
  apply Forall_cons in F as [(H1 & _ & H2) _]. by split.
Defined.

(** ** Budget windows *)

Lemma at_second_inj s t : at_second s = at_second t → s = t.
Proof. unfold at_second, Second, Millisecond. lia. Qed.

Lemma Unix_at_second s : Unix (at_second s) = s.
Proof. unfold Unix, at_second. rewrite Z.div_mul by done. lia. Qed.

(** From 1970 on, the windows are those of the UTC calendar, and each is named by its
    identifier. *)
Lemma budget_windows_named now : 0 <= Unix now →
  let w := BudgetWindows now in let n := Unix now / 86400 in
  mkWindows (mkWindow (DailyStart w) (DailyEnd w)) (mkWindow (WeeklyStart w) (WeeklyEnd w))
    (mkWindow (MonthlyStart w) (MonthlyEnd w)) = Windows_at (mkCalendar "" None) now ∧
  DailyStart w = midnight (DailyID w) ∧ WeeklyStart w = midnight (7 * WeeklyID w - 3) ∧
  MonthlyStart w = midnight (first_of (MonthlyID w)).
Proof.
  intros H w n. pose proof (Windows_at_days (mkCalendar "" None) now) as E. cbn [location day_in] in E. cbv zeta in E.
  fold n in E. unfold w, BudgetWindows. cbn [day_in]. fold n. rewrite E.
  assert (Em : month_of_day n = month_index (civil n)) by done.
  pose proof (civil_Date n) as D. destruct (civil n) as [ [y m] d]. cbn in Em. rewrite D, AddDate_days.
  rewrite (Date_first y m 1). replace (1 - 1) with 0 by lia. rewrite Z.add_0_r, AddDate_month.
  cbn [DailyStart DailyEnd WeeklyStart WeeklyEnd MonthlyStart MonthlyEnd DailyID WeeklyID MonthlyID Start End_ Week].
  unfold boundary, midnight, boundary_second. rewrite !Unix_at_second, !Z.quot_mul by lia.
  split; [by rewrite Em|]. split; [done|]. split.
  - f_equal. assert (0 <= n) by (apply Z.div_pos; lia). pose proof (monday_spec n) as (M & W). unfold Weekday in W.
    rewrite Z.quot_div_nonneg; [div_lia| |lia]. unfold monday_of, Weekday. div_lia.
  - replace (y * 12 + m - 1) with (12 * y + m - 1) by lia. done.
Qed.
