(* ===== verification/CodeMode.v ===== *)
(** * Coding-agent accounts

    The allowance a subscription reports and how observations of it are merged, the band
    it puts an account in, the account a coding session is given and when an exhausted one
    recovers ([internal/codemode]). Percentages and amounts are [float64].
    [slices.SortedFunc] is not stable: it is an operation with the laws of sorting. *)

From S2P Require Import Prelude Go Amount Civil Calendar.
From Stdlib Require Import Ascii SpecFloat.
Local Open Scope Z_scope.
Local Open Scope olp_scope.

(** ** Sorting *)

Class Sorting (sort : ∀ A, cmp A → list A → list A) : Prop := {
  sort_Permutation : ∀ A c (l : list A), sort A c l ≡ₚ l;
  sort_sorted : ∀ A c (l : list A), WeakOrder c → StronglySorted (cmp_le c) (sort A c l);
}.

(** ** Observations *)

Definition MaxAllowanceWindows : Z := 128.
Definition allowancePrimary : string := "primary".

Definition AllowanceUnitPercent : string := "percent".
Definition AllowanceUnitCount : string := "count".
Definition AllowanceUnitCredits : string := "credits".
Definition AllowanceUnitCents : string := "cents".

Definition AllowanceEvidencePassive : string := "passive".
Definition AllowanceEvidenceActive : string := "active".

Definition AllowanceWindowNames : list string := [allowancePrimary; "secondary"; "five_hour"; "weekly"; "monthly"]%string.

Definition limitID : string → bool :=
  matches (λ c, is_lower c || is_digit c) (λ c, is_lower c || is_digit c || Ascii.eqb c "_" || Ascii.eqb c ".") 99.

(** The expression ^-?[0-9]{1,20}(\.[0-9]{1,12})?$. *)
Definition creditBalance (s : string) : bool :=
  let s := match s with String "-" r => r | _ => s end in
  let '(whole, fraction, found) := Cut s "." in
  (1 <=? len whole) && (len whole <=? 20) && all_bytes is_digit whole &&
  (if found then (1 <=? len fraction) && (len fraction <=? 12) && all_bytes is_digit fraction else true).

Record CountObservation := mkCountObservation { Co_ResetsAt : option Time; Co_ObservedAt : Time }.

Record AllowanceWindow := mkAllowanceWindow {
  LimitID : string; Aw_Window : string; Unit : string; Evidence_ : string;
  UsedPercent : float64; RemainingPercent : float64; UsedValue : option float64; RemainingValue : option float64;
  WindowMinutes_ : option Z; Aw_ResetsAt : option Time; Aw_ObservedAt : Time;
}.

Record Credits := mkCredits { HasCredits : bool; Unlimited : bool; Balance : option string; Cr_ObservedAt : Time }.

Record Allowance := mkAllowance {
  Al_Windows : list AllowanceWindow; Al_Credits : option Credits;
  RemainingTokens : option Z; RemainingRequests : option Z;
  TokenObservation : option CountObservation; RequestObservation : option CountObservation;
  Al_RemainingPercent : option float64; Al_ResetsAt : option Time; Al_ObservedAt : Time;
}.

Definition zeroAllowance : Allowance := mkAllowance [] None None None None None None None zeroTime.

Definition EffectiveUnit (w : AllowanceWindow) : string := if String.eqb (Unit w) "" then AllowanceUnitPercent else Unit w.
Definition EffectiveEvidence (w : AllowanceWindow) : string :=
  if String.eqb (Evidence_ w) "" then AllowanceEvidencePassive else Evidence_ w.

Definition normalized (w : AllowanceWindow) : AllowanceWindow :=
  mkAllowanceWindow (LimitID w) (Aw_Window w) (EffectiveUnit w) (EffectiveEvidence w) (UsedPercent w) (RemainingPercent w)
    (UsedValue w) (RemainingValue w) (WindowMinutes_ w) (Aw_ResetsAt w) (Aw_ObservedAt w).

(** *** Validation *)

Definition max_float_integer : float64 := fOfZ (2 ^ 53 - 1).
Definition hundred : float64 := fOfZ 100.

Definition fsub : float64 → float64 → float64 := SFsub 53 1024.
Definition IsInf (f : float64) : bool := match f with S754_infinity _ => true | _ => false end.

(** [max(0, x)] *)
Definition fmax_zero (x : float64) : float64 := if IsNaN x then x else if flt fzero x then x else fzero.

(** Not a number, infinite, negative or over a bound. *)
Definition out_of_range (x bound : float64) : bool := IsNaN x || IsInf x || flt x fzero || flt bound x.

Definition value_invalid (v : option float64) : bool :=
  match v with Some x => out_of_range x max_float_integer | None => false end.

Definition Window_Validate (w : AllowanceWindow) : option string :=
  let bad := Some "invalid provider allowance window"%string in
  if negb (limitID (LimitID w)) || negb (Contains AllowanceWindowNames (Aw_Window w)) || IsZero (Aw_ObservedAt w) ||
     negb (Contains [""%string; AllowanceEvidencePassive; AllowanceEvidenceActive] (Evidence_ w)) ||
     match WindowMinutes_ w with Some n => (n <? 0) || (n >? 2 ^ 53 - 1) | None => false end ||
     match Aw_ResetsAt w with Some r => (Unix r <=? 0) || (Unix r >=? 253402300800) | None => false end
  then bad
  else if String.eqb (EffectiveUnit w) AllowanceUnitPercent then
    if is_some (UsedValue w) || is_some (RemainingValue w) || out_of_range (UsedPercent w) max_float_integer ||
       negb (feq (RemainingPercent w) (fmax_zero (fsub hundred (UsedPercent w))))
    then bad else None
  else if Contains [AllowanceUnitCount; AllowanceUnitCredits; AllowanceUnitCents] (EffectiveUnit w) then
    if negb (feq (UsedPercent w) fzero) || negb (feq (RemainingPercent w) fzero) ||
       value_invalid (UsedValue w) || value_invalid (RemainingValue w)
    then bad else None
  else bad.

Definition Credits_Validate (c : Credits) : option string :=
  refuse_if (IsZero (Cr_ObservedAt c) || match Balance c with Some b => negb (creditBalance b) | None => false end)
    "invalid provider credits"%string.

Definition window_key (w : AllowanceWindow) : string := LimitID w +:+ ":" +:+ Aw_Window w +:+ ":" +:+ EffectiveEvidence w.

(** The windows in turn, with the keys seen. *)
Fixpoint validate_windows (observed : Time) (seen : list string) (l : list AllowanceWindow) : option string :=
  match l with
  | [] => None
  | w :: l =>
      if Contains seen (window_key w) || After (Aw_ObservedAt w) observed then Some "invalid provider allowance observation"%string
      else match Window_Validate w with
           | Some e => Some e
           | None => validate_windows observed (window_key w :: seen) l
           end
  end.

Definition validateObservations (a : Allowance) : option string :=
  if Z.of_nat (length (Al_Windows a)) >? MaxAllowanceWindows then Some "too many provider allowance windows"%string
  else validate_windows (Al_ObservedAt a) [] (Al_Windows a) <|>
       match Al_Credits a with
       | Some c => if After (Cr_ObservedAt c) (Al_ObservedAt a) then Some "invalid provider credits observation"%string
                   else Credits_Validate c
       | None => None
       end.

Definition count_invalid (a : Allowance) (remaining : option Z) (o : option CountObservation) : bool :=
  match o with
  | Some o => negb (is_some remaining) || IsZero (Co_ObservedAt o) || After (Co_ObservedAt o) (Al_ObservedAt a)
  | None => false
  end.

Definition remaining_invalid (n : option Z) : bool := match n with Some n => (n <? 0) || (n >? 2 ^ 53 - 1) | None => false end.

Definition Allowance_Validate (a : Allowance) : option string :=
  refuse_if (count_invalid a (RemainingTokens a) (TokenObservation a) || count_invalid a (RemainingRequests a) (RequestObservation a))
    "invalid provider count observation"%string <|>
  refuse_if (remaining_invalid (RemainingTokens a) || remaining_invalid (RemainingRequests a)) "invalid provider allowance"%string <|>
  refuse_if (IsZero (Al_ObservedAt a) ||
             match Al_RemainingPercent a with Some p => out_of_range p hundred | None => false end)
    "invalid provider allowance"%string <|>
  validateObservations a.

(** *** Merging *)

(** The windows of an allowance; one that only states a percentage has one. *)
Definition allowanceWindows (a : Allowance) : list AllowanceWindow :=
  match Al_Windows a, Al_RemainingPercent a with
  | [], Some p => [mkAllowanceWindow "codex" allowancePrimary AllowanceUnitPercent AllowanceEvidencePassive
                     (fsub hundred p) p None None None (Al_ResetsAt a) (Al_ObservedAt a)]
  | l, _ => l
  end.

Definition mergeAllowanceReset (current incoming : option Time) (observedAt : Time) : option Time :=
  match incoming with
  | Some r => Some r
  | None => match current with Some c => if After c observedAt then current else None | None => None end
  end.

Definition allowanceCountObservation (value : option Z) (o : option CountObservation) (a : Allowance) : option CountObservation :=
  match o, value with
  | Some o, _ => Some o
  | None, None => None
  | None, Some _ => Some (mkCountObservation (Al_ResetsAt a) (Al_ObservedAt a))
  end.

Definition mergeAllowanceCount (current : option Z) (o : option CountObservation) (incoming : option Z)
    (incomingO : option CountObservation) : option Z * option CountObservation :=
  match incoming, incomingO with
  | Some n, Some i =>
      if match o with Some o => negb (After (Co_ObservedAt i) (Co_ObservedAt o)) | None => false end then (current, o)
      else
        let reset := o ≫= Co_ResetsAt in
        (Some n, Some (mkCountObservation (mergeAllowanceReset reset (Co_ResetsAt i) (Co_ObservedAt i)) (Co_ObservedAt i)))
  | _, _ => (current, o)
  end.

Definition same_window (x y : AllowanceWindow) : bool :=
  String.eqb (LimitID x) (LimitID y) && String.eqb (Aw_Window x) (Aw_Window y) && String.eqb (EffectiveEvidence x) (EffectiveEvidence y).

Definition with_reset (w : AllowanceWindow) (r : option Time) : AllowanceWindow :=
  mkAllowanceWindow (LimitID w) (Aw_Window w) (Unit w) (Evidence_ w) (UsedPercent w) (RemainingPercent w)
    (UsedValue w) (RemainingValue w) (WindowMinutes_ w) r (Aw_ObservedAt w).

Definition merge_window (incoming : list AllowanceWindow) (old : AllowanceWindow) : AllowanceWindow :=
  match find_first (same_window old) incoming with
  | Some next =>
      if After (Aw_ObservedAt next) (Aw_ObservedAt old) then
        let next := normalized next in
        with_reset next (mergeAllowanceReset (Aw_ResetsAt old) (Aw_ResetsAt next) (Aw_ObservedAt next))
      else normalized old
  | None => normalized old
  end.

Definition mergedAllowanceWindows (current incoming : list AllowanceWindow) : list AllowanceWindow :=
  map (merge_window incoming) current ++
  map normalized (DeleteFunc (λ next, existsb (λ old, same_window old next) current) incoming).

(** Windows in the order of their limit and name. *)
Definition window_order : cmp AllowanceWindow := cmp_on (λ w, LimitID w +:+ ":" +:+ Aw_Window w) CompareString.

Definition is_primary (w : AllowanceWindow) : bool := String.eqb (LimitID w) "codex" && String.eqb (Aw_Window w) allowancePrimary.

Section Merging.
Context (sort : ∀ A, cmp A → list A → list A).

Definition Merge (a incoming : Allowance) : Allowance :=
  let '(tokens, tokenObservation) :=
    mergeAllowanceCount (RemainingTokens a) (allowanceCountObservation (RemainingTokens a) (TokenObservation a) a)
      (RemainingTokens incoming) (allowanceCountObservation (RemainingTokens incoming) (TokenObservation incoming) incoming) in
  let '(requests, requestObservation) :=
    mergeAllowanceCount (RemainingRequests a) (allowanceCountObservation (RemainingRequests a) (RequestObservation a) a)
      (RemainingRequests incoming) (allowanceCountObservation (RemainingRequests incoming) (RequestObservation incoming) incoming) in
  let windows := sort _ window_order (mergedAllowanceWindows (allowanceWindows a) (allowanceWindows incoming)) in
  let observedAt := if After (Al_ObservedAt incoming) (Al_ObservedAt a) then Al_ObservedAt incoming else Al_ObservedAt a in
  let credits :=
    match Al_Credits incoming with
    | Some c =>
        if match Al_Credits a with Some old => After (Cr_ObservedAt c) (Cr_ObservedAt old) | None => true end
        then Some c else Al_Credits a
    | None => Al_Credits a
    end in
  let '(percent, reset) :=
    let stated := find_first (λ w, is_primary w && String.eqb (EffectiveEvidence w) AllowanceEvidencePassive) windows in
    let otherwise :=
      if existsb (λ w, is_primary w && String.eqb (EffectiveEvidence w) AllowanceEvidenceActive) windows then (None, None)
      else (Al_RemainingPercent a, Al_ResetsAt a) in
    match stated with
    | Some w => if String.eqb (EffectiveUnit w) AllowanceUnitPercent then (Some (RemainingPercent w), Aw_ResetsAt w) else otherwise
    | None => otherwise
    end in
  mkAllowance windows credits tokens requests tokenObservation requestObservation percent reset observedAt.

(** [ObserveAllowance] on the stored allowance, which is zero before the first. *)
Definition ObserveAllowance (current allowance : Allowance) : string + Allowance :=
  match Allowance_Validate allowance with
  | Some e => inl e
  | None =>
      let merged := Merge current allowance in
      match Allowance_Validate merged with Some e => inl e | None => inr merged end
  end.
End Merging.
