(* ===== verification/CodeModeFacts.v ===== *)
(** * Coding-agent accounts: allowances

    Merging keeps an allowance well formed, and each window, count and credit in it is the newer
    of the two observations, field by field. *)

From S2P Require Import Prelude Go Amount Civil Calendar CodeMode.
From Stdlib Require Import Ascii SpecFloat.
Local Open Scope Z_scope.
Local Open Scope olp_scope.

#[export] Instance sorting_stable : Sorting (λ A c l, SortStableFunc c l).
Proof. split; intros; [apply SortStableFunc_Permutation|by apply SortStableFunc_sorted]. Qed.

(** ** Windows *)

Lemma EffectiveUnit_normalized w : EffectiveUnit (normalized w) = EffectiveUnit w.
Proof.
  unfold EffectiveUnit at 1, normalized. cbn [Unit]. unfold EffectiveUnit.
  destruct (String.eqb_spec (Unit w) ""); [done|]. by destruct (String.eqb_spec (Unit w) "").
Qed.

Lemma EffectiveEvidence_normalized w : EffectiveEvidence (normalized w) = EffectiveEvidence w.
Proof.
  unfold EffectiveEvidence at 1, normalized. cbn [Evidence_]. unfold EffectiveEvidence.
  destruct (String.eqb_spec (Evidence_ w) ""); [done|]. by destruct (String.eqb_spec (Evidence_ w) "").
Qed.

Lemma window_key_normalized w : window_key (normalized w) = window_key w.
Proof. unfold window_key. by rewrite EffectiveEvidence_normalized. Qed.

Definition reset_ok (r : option Time) : bool :=
  match r with Some r => negb ((Unix r <=? 0) || (Unix r >=? 253402300800)) | None => true end.

Lemma Window_Validate_reset w : Window_Validate w = None → reset_ok (Aw_ResetsAt w) = true.
Proof.
  unfold Window_Validate, reset_ok. destruct (Aw_ResetsAt w) as [r|]; [|done].
  destruct (_ || _ || _ || _ || _ || _) eqn:E; [done|]. intros _. apply orb_false_iff in E as [_ ->]. done.
Qed.

Lemma Window_Validate_with w r : Window_Validate w = None → reset_ok r = true → Window_Validate (with_reset w r) = None.
Proof.
  unfold Window_Validate, reset_ok, with_reset.
  cbn [LimitID Aw_Window Unit Evidence_ UsedPercent RemainingPercent UsedValue RemainingValue WindowMinutes_ Aw_ResetsAt Aw_ObservedAt].
  unfold EffectiveUnit at 2. cbn [Unit]. intros H R.
  assert (E : match r with Some r => (Unix r <=? 0) || (Unix r >=? 253402300800) | None => false end = false)
    by (destruct r; [by apply negb_true_iff in R|done]).
  rewrite E, orb_false_r. destruct (_ || _ || _ || _ || _ || _) eqn:Q in H; [done|].
  apply orb_false_iff in Q as [-> _]. exact H.
Qed.

Lemma Window_Validate_normalized w : Window_Validate w = None → Window_Validate (normalized w) = None.
Proof.
  intros H. unfold Window_Validate in *. rewrite EffectiveUnit_normalized.
  unfold normalized at 1 2 3 4 5 6 7.
  cbn [LimitID Aw_Window Unit Evidence_ UsedPercent RemainingPercent UsedValue RemainingValue WindowMinutes_ Aw_ResetsAt Aw_ObservedAt].
  assert (E : Contains [""%string; AllowanceEvidencePassive; AllowanceEvidenceActive] (Evidence_ w) = true →
    Contains [""%string; AllowanceEvidencePassive; AllowanceEvidenceActive] (EffectiveEvidence w) = true).
  { rewrite !Contains_true. unfold EffectiveEvidence. destruct (String.eqb_spec (Evidence_ w) ""); [set_solver|done]. }
  destruct (Contains _ (Evidence_ w)) eqn:Q in H, E;
    [rewrite (E eq_refl)|cbn [negb] in H; rewrite !orb_true_r in H; done]. exact H.
Qed.

Lemma validate_windows_None observed seen l : validate_windows observed seen l = None ↔
  NoDup (map window_key l) ∧ (∀ w, w ∈ l → window_key w ∉ seen) ∧
  Forall (λ w, Aw_ObservedAt w <= observed ∧ Window_Validate w = None) l.
Proof.
  revert seen. induction l as [|w l IH]; intros seen; cbn [validate_windows map].
  { split; [|done]. intros _. split; [constructor|]. split; [by intros w ?%elem_of_nil|constructor]. }
  destruct (Contains seen (window_key w)) eqn:Cs; cbn [orb].
  { apply Contains_true in Cs. split; [done|]. intros (_ & H & _). by destruct (H w ltac:(left)). }
  apply Contains_false in Cs. unfold After at 1. destruct (Z.ltb_spec observed (Aw_ObservedAt w)).
  { split; [done|]. intros (_ & _ & [ [? _] _]%Forall_cons). lia. }
  destruct (Window_Validate w) eqn:V.
  { split; [done|]. by intros (_ & _ & [ [_ ?] _]%Forall_cons); rewrite V in *. }
  rewrite IH, NoDup_cons, Forall_cons. split.
  - intros (H1 & H2 & H3). split_and!; try done.
    + intros Hin%list_elem_of_fmap. destruct Hin as (w' & E & Hw). apply (H2 w' Hw). rewrite <- E. by left.
    + intros w' [-> |Hw]%elem_of_cons; [done|]. specialize (H2 w' Hw). set_solver.
  - intros ((H1 & H2) & H3 & _ & H4). split_and!; try done. intros w' Hw [E|Hs]%elem_of_cons.
    + apply H1. rewrite <- E. by apply list_elem_of_fmap_2.
    + by apply (H3 w'); [right|].
Qed.

(** ** Keys *)

Definition no_colon (s : string) : Prop := all_bytes (λ c, negb (Ascii.eqb c ":")) s = true.

Lemma cut_colon_unique a b x y : no_colon a → no_colon b → (a +:+ String ":" x = b +:+ String ":" y)%string → a = b ∧ x = y.
Proof.
  revert b. induction a as [|c a IH]; intros b Ha Hb E; destruct b as [|d b]; rewrite ?append_cons in E.
  - by injection E as ->.
  - injection E as <- E. by unfold no_colon in Hb.
  - injection E as -> E. by unfold no_colon in Ha.
  - injection E as <- E. unfold no_colon in *. cbn in Ha, Hb. apply andb_true_iff in Ha as [_ Ha]. apply andb_true_iff in Hb as [_ Hb].
    destruct (IH b Ha Hb E) as [-> ->]. done.
Qed.

Lemma all_bytes_weaken p q s : (∀ c, p c = true → q c = true) → all_bytes p s = true → all_bytes q s = true.
Proof. intros H. induction s as [|c s IH]; [done|]. cbn. rewrite !andb_true_iff. intros [H1 H2]. auto. Qed.

Lemma not_colon (p : ascii → bool) c : p ":"%char = false → p c = true → negb (Ascii.eqb c ":") = true.
Proof. intros H Hc. destruct (Ascii.eqb_spec c ":"); [congruence|done]. Qed.

Lemma valid_window_parts w : Window_Validate w = None → no_colon (LimitID w) ∧ no_colon (Aw_Window w).
Proof.
  unfold Window_Validate. destruct (_ || _ || _ || _ || _ || _) eqn:E; [done|]. intros _.
  do 4 (apply orb_false_iff in E as [E _]). apply orb_false_iff in E as [E1%negb_false_iff E2%negb_false_iff]. split.
  - unfold limitID, matches in E1. destruct (LimitID w) as [|c r]; [done|]. apply andb_true_iff in E1 as [ [H1 H2]%andb_true_iff _].
    unfold no_colon. cbn [all_bytes]. rewrite (not_colon (λ c, is_lower c || is_digit c) c eq_refl H1). cbn [andb].
    eapply all_bytes_weaken; [|exact H2]. intros d. by apply (not_colon (λ c, is_lower c || is_digit c || Ascii.eqb c "_" || Ascii.eqb c ".")).
  - apply Contains_true in E2. unfold AllowanceWindowNames in E2.
    repeat (apply elem_of_cons in E2 as [-> |E2]; [done|]). by apply elem_of_nil in E2.
Qed.

Lemma same_window_spec x y : same_window x y = true ↔
  LimitID x = LimitID y ∧ Aw_Window x = Aw_Window y ∧ EffectiveEvidence x = EffectiveEvidence y.
Proof. unfold same_window. rewrite !andb_true_iff, !String.eqb_eq. tauto. Qed.

(** Valid windows have the same key exactly when they are the same. *)
Lemma window_key_same x y : Window_Validate x = None → Window_Validate y = None →
  window_key x = window_key y ↔ same_window x y = true.
Proof.
  intros Vx Vy. rewrite same_window_spec. unfold window_key. split; [|by intros (-> & -> & ->)].
  destruct (valid_window_parts x Vx) as [X1 X2], (valid_window_parts y Vy) as [Y1 Y2].
  intros [E1 E]%cut_colon_unique; [|done..]. apply cut_colon_unique in E as [E2 E3]; [|done..]. done.
Qed.

(** ** Merged windows *)

Lemma find_first_Some {A} (p : A → bool) l x : find_first p l = Some x → x ∈ l ∧ p x = true.
Proof. intros H. apply List.find_some in H as [H1 H2]. by split; [apply list_elem_of_In|]. Qed.

(** What merging a window gives: the newer of the two, with a reset it does not state
    carried over. *)
Lemma merge_window_cases incoming old :
  (merge_window incoming old = normalized old ∧
     ∀ next, find_first (same_window old) incoming = Some next → Aw_ObservedAt next <= Aw_ObservedAt old) ∨
  ∃ next, next ∈ incoming ∧ same_window old next = true ∧ Aw_ObservedAt old < Aw_ObservedAt next ∧
    merge_window incoming old = with_reset (normalized next) (mergeAllowanceReset (Aw_ResetsAt old) (Aw_ResetsAt next) (Aw_ObservedAt next)).
Proof.
  unfold merge_window. destruct (find_first _ incoming) as [next|] eqn:F; [|by left].
  destruct (After _ _) eqn:L; unfold After in L; bool_to_prop.
  - right. apply find_first_Some in F as [F1 F2]. exists next. by split_and!.
  - left. split; [done|]. by intros ? [= <-].
Qed.

Lemma merge_window_key incoming old : window_key (merge_window incoming old) = window_key old.
Proof.
  destruct (merge_window_cases incoming old) as [ [-> _]|(next & _ & S & _ & ->)]; [apply window_key_normalized|].
  match goal with |- window_key (with_reset ?w ?r) = _ => change (window_key (with_reset w r)) with (window_key w) end.
  rewrite window_key_normalized. apply same_window_spec in S as (E1 & E2 & E3). unfold window_key. by rewrite E1, E2, E3.
Qed.

Lemma reset_ok_merge a b t : reset_ok a = true → reset_ok b = true → reset_ok (mergeAllowanceReset a b t) = true.
Proof. unfold mergeAllowanceReset. destruct b; [done|]. destruct a; [|done]. by destruct (After _ _). Qed.

Lemma merge_window_valid incoming old : Forall (λ w, Window_Validate w = None) incoming → Window_Validate old = None →
  Window_Validate (merge_window incoming old) = None.
Proof.
  intros F V. destruct (merge_window_cases incoming old) as [ [-> _]|(next & Hn & _ & _ & ->)]; [by apply Window_Validate_normalized|].
  rewrite Forall_forall in F. specialize (F next Hn).
  apply Window_Validate_with; [by apply Window_Validate_normalized|]. apply reset_ok_merge; by apply Window_Validate_reset.
Qed.

Lemma merge_window_observed incoming old t : Forall (λ w, Aw_ObservedAt w <= t) incoming → Aw_ObservedAt old <= t →
  Aw_ObservedAt (merge_window incoming old) <= t.
Proof.
  intros F V. destruct (merge_window_cases incoming old) as [ [-> _]|(next & Hn & _ & _ & ->)]; [done|].
  rewrite Forall_forall in F. exact (F next Hn).
Qed.

Definition fresh_in (current : list AllowanceWindow) (next : AllowanceWindow) : bool := negb (existsb (λ old, same_window old next) current).

Lemma elem_of_DeleteFunc {A} (p : A → bool) l x : x ∈ DeleteFunc p l ↔ x ∈ l ∧ p x = false.
Proof. unfold DeleteFunc. rewrite !list_elem_of_In, List.filter_In, negb_true_iff. done. Qed.

Lemma merged_keys current incoming :
  map window_key (mergedAllowanceWindows current incoming) =
  map window_key current ++ map window_key (DeleteFunc (λ next, existsb (λ old, same_window old next) current) incoming).
Proof.
  unfold mergedAllowanceWindows. rewrite map_app, !map_map. f_equal; apply map_ext; intros w;
    [apply merge_window_key|apply window_key_normalized].
Qed.

Lemma existsb_false {A} (p : A → bool) l : existsb p l = false ↔ ∀ x, x ∈ l → p x = false.
Proof.
  rewrite <- not_true_iff_false, existsb_exists. split.
  - intros H x Hx. apply not_true_iff_false. intros P. apply H. exists x. by split; [apply list_elem_of_In|].
  - intros H (x & Hx%list_elem_of_In & P). by rewrite (H x Hx) in P.
Qed.

Lemma merged_keys_NoDup current incoming : Forall (λ w, Window_Validate w = None) current →
  Forall (λ w, Window_Validate w = None) incoming → NoDup (map window_key current) → NoDup (map window_key incoming) →
  NoDup (map window_key (mergedAllowanceWindows current incoming)).
Proof.
  intros F1 F2 N1 N2. rewrite merged_keys. apply NoDup_app. split_and!; [done| |].
  - intros k (x & -> & Hx)%list_elem_of_fmap (y & E & Hy)%list_elem_of_fmap. apply elem_of_DeleteFunc in Hy as [Hy Nx].
    rewrite Forall_forall in F1, F2. apply window_key_same in E; [|by apply F1|by apply F2].
    rewrite existsb_false in Nx. specialize (Nx x Hx). cbn in Nx. congruence.
  - eapply sublist_NoDup; [exact N2|]. apply fmap_sublist. unfold DeleteFunc.
    clear. induction incoming as [|w l IH]; [done|]. cbn. destruct (negb _); by constructor.
Qed.

Lemma merged_Forall (P : AllowanceWindow → Prop) current incoming :
  (∀ old, old ∈ current → P (merge_window incoming old)) → (∀ next, next ∈ incoming → P (normalized next)) →
  Forall P (mergedAllowanceWindows current incoming).
Proof.
  intros H1 H2. unfold mergedAllowanceWindows. apply Forall_app. rewrite !Forall_map, !Forall_forall. split; [done|].
  intros next [Hn _]%elem_of_DeleteFunc. by apply H2.
Qed.

(** ** Merged allowances *)

(** An allowance that lists its windows, as every adapter's does. *)
Definition states_windows (a : Allowance) : Prop := Al_Windows a ≠ [] ∨ Al_RemainingPercent a = None.

(** A percentage is of a hundred. *)
Definition percent_bounded (w : AllowanceWindow) : bool :=
  negb (String.eqb (EffectiveUnit w) AllowanceUnitPercent) || negb (out_of_range (RemainingPercent w) hundred).

Definition count_ok (t : Time) (remaining : option Z) (o : option CountObservation) : Prop :=
  remaining_invalid remaining = false ∧
  match o with Some o => is_some remaining = true ∧ Co_ObservedAt o ≠ zeroTime ∧ Co_ObservedAt o <= t | None => remaining = None end.

Definition percent_ok (p : option float64) : Prop := match p with Some p => out_of_range p hundred = false | None => True end.

(** The parts of a well-formed allowance, none observed after an instant. *)
Record parts (t : Time) (a : Allowance) : Prop := mkParts {
  pa_tokens : count_ok t (RemainingTokens a) (allowanceCountObservation (RemainingTokens a) (TokenObservation a) a);
  pa_requests : count_ok t (RemainingRequests a) (allowanceCountObservation (RemainingRequests a) (RequestObservation a) a);
  pa_keys : NoDup (map window_key (Al_Windows a));
  pa_windows : Forall (λ w, Aw_ObservedAt w <= t ∧ Window_Validate w = None) (Al_Windows a);
  pa_credits : ∀ c, Al_Credits a = Some c → Cr_ObservedAt c <= t ∧ Credits_Validate c = None;
  pa_percent : percent_ok (Al_RemainingPercent a);
}.

Lemma refuse_if_None {E} b (e : E) (rest : option E) : refuse_if b e <|> rest = None ↔ b = false ∧ rest = None.
Proof. destruct b; cbn; naive_solver. Qed.

Lemma count_parts a t r o : Al_ObservedAt a <= t → Al_ObservedAt a ≠ zeroTime → count_invalid a r o = false →
  remaining_invalid r = false → count_ok t r (allowanceCountObservation r o a).
Proof.
  intros Ht Hz C R. split; [done|]. unfold count_invalid in C. destruct o as [o|]; cbn.
  - apply orb_false_iff in C as [ [C1%negb_false_iff C2]%orb_false_iff C3]. unfold After, IsZero in *. bool_to_prop.
    split_and!; [done|done|lia].
  - destruct r; cbn; [|done]. done.
Qed.

Lemma valid_parts t a : a = zeroAllowance ∨ Allowance_Validate a = None → Al_ObservedAt a <= t → parts t a.
Proof.
  intros [-> |V] Ht. { by constructor; cbn; try constructor. }
  unfold Allowance_Validate in V. rewrite !refuse_if_None in V. destruct V as (C & R & P & O).
  apply orb_false_iff in C as [C1 C2], R as [R1 R2], P as [P1 P2]. unfold IsZero in P1. bool_to_prop.
  unfold validateObservations in O. destruct (_ >? _); [done|].
  destruct (validate_windows _ _ _) eqn:W; [done|]. apply validate_windows_None in W as (N & _ & F).
  constructor; try (by apply count_parts); [done| | |].
  - eapply Forall_impl; [exact F|]. intros w [? ?]. split; [lia|done].
  - intros c Ec. rewrite Ec in O. unfold After in O. destruct (Z.ltb_spec (Al_ObservedAt a) (Cr_ObservedAt c)); [done|]. split; [lia|done].
  - destruct (Al_RemainingPercent a); done.
Qed.

Lemma merge_count_ok t c oc i oi : count_ok t c oc → count_ok t i oi →
  let '(r, o) := mergeAllowanceCount c oc i oi in count_ok t r o.
Proof.
  intros [R1 H1] [R2 H2]. unfold mergeAllowanceCount. destruct i as [n|]; [|done]. destruct oi as [o|]; [|done].
  destruct (match oc with Some o0 => _ | None => false end); [done|]. split; [done|]. cbn. tauto.
Qed.

Lemma count_ok_valid a t r o : count_ok t r o → t = Al_ObservedAt a → count_invalid a r o = false ∧ remaining_invalid r = false.
Proof.
  intros [R H] ->. split; [|done]. unfold count_invalid. destruct o as [o|]; [|done]. destruct H as (-> & H1 & H2).
  unfold IsZero, After. rewrite (proj2 (Z.eqb_neq _ _)), (proj2 (Z.ltb_ge _ _)) by done. done.
Qed.

Lemma NoDup_map_inj {A B} (f : A → B) l x y : NoDup (map f l) → x ∈ l → y ∈ l → f x = f y → x = y.
Proof.
  induction l as [|z l IH]; cbn [map]; intros N Hx Hy E; [by apply elem_of_nil in Hx|]. apply NoDup_cons in N as [Nz N].
  apply elem_of_cons in Hx as [-> |Hx], Hy as [-> |Hy]; [done| | |by apply IH].
  - destruct Nz. rewrite E. by apply list_elem_of_fmap_2.
  - destruct Nz. rewrite <- E. by apply list_elem_of_fmap_2.
Qed.

Section MergeFacts.
Context (sort : ∀ A, cmp A → list A → list A) `{!Sorting sort}.

Lemma allowanceWindows_stated a : states_windows a → allowanceWindows a = Al_Windows a.
Proof. unfold allowanceWindows. intros [H|H]; [by destruct (Al_Windows a)|]. rewrite H. by destruct (Al_Windows a). Qed.

Lemma merged_percent_bounded l l' : Forall (λ w, percent_bounded w = true) (l ++ l') →
  Forall (λ w, percent_bounded w = true) (mergedAllowanceWindows l l').
Proof.
  intros [F1 F2]%Forall_app. rewrite Forall_forall in F1, F2.
  assert (N : ∀ w r, percent_bounded w = true → percent_bounded (with_reset (normalized w) r) = true ∧ percent_bounded (normalized w) = true).
  { intros w r. unfold percent_bounded. change (EffectiveUnit (with_reset (normalized w) r)) with (EffectiveUnit (normalized w)).
    by rewrite EffectiveUnit_normalized. }
  apply (merged_Forall (λ w, percent_bounded w = true)).
  - intros old Ho. destruct (merge_window_cases l' old) as [ [-> _]|(next & Hn & _ & _ & ->)];
      [exact (proj2 (N old None (F1 old Ho)))|exact (proj1 (N next _ (F2 next Hn)))].
  - intros next Hn. exact (proj2 (N next None (F2 next Hn))).
Qed.

(** Merging well-formed parts gives a well-formed allowance. *)
Lemma Merge_valid a b : let t := Z.max (Al_ObservedAt a) (Al_ObservedAt b) in
  parts t a → parts t b → t ≠ zeroTime → states_windows a → states_windows b →
  Forall (λ w, percent_bounded w = true) (Al_Windows a ++ Al_Windows b) →
  Z.of_nat (length (mergedAllowanceWindows (Al_Windows a) (Al_Windows b))) <= MaxAllowanceWindows →
  Allowance_Validate (Merge sort a b) = None.
Proof using Sorting0.
  intros t [T1 R1 K1 W1 C1 P1] [T2 R2 K2 W2 C2 P2] Tz Sa Sb Pb Ln. unfold Merge.
  pose proof (merge_count_ok _ _ _ _ _ T1 T2) as T. destruct (mergeAllowanceCount (RemainingTokens a) _ _ _) as [tokens tokenO].
  pose proof (merge_count_ok _ _ _ _ _ R1 R2) as R. destruct (mergeAllowanceCount (RemainingRequests a) _ _ _) as [requests requestO].
  rewrite !allowanceWindows_stated by done. set (merged := mergedAllowanceWindows _ _) in *.
  set (windows := sort _ window_order merged).
  assert (Pm : windows ≡ₚ merged) by apply sort_Permutation.
  assert (Et : (if After (Al_ObservedAt b) (Al_ObservedAt a) then Al_ObservedAt b else Al_ObservedAt a) = t).
  { unfold After, t. destruct (Z.ltb_spec (Al_ObservedAt a) (Al_ObservedAt b)); lia. }
  rewrite Et. match goal with |- context [let '(percent, reset) := ?p in _] => set (pr := p) end.
  assert (Pr : percent_ok (fst pr)).
  { unfold pr. set (other := if existsb _ windows then _ else _).
    assert (percent_ok (fst other)) by (unfold other; destruct (existsb _ _); done).
    destruct (find_first _ windows) as [w|] eqn:F; [|done]. destruct (String.eqb (EffectiveUnit w) AllowanceUnitPercent) eqn:U; [|done].
    apply find_first_Some in F as [F _]. rewrite Pm in F. apply merged_percent_bounded in Pb. fold merged in Pb.
    rewrite Forall_forall in Pb. specialize (Pb w F). unfold percent_bounded in Pb. rewrite U in Pb. by apply negb_true_iff in Pb. }
  clearbody pr. destruct pr as [percent reset]. cbn in Pr.
  unfold Allowance_Validate. cbn [RemainingTokens RemainingRequests TokenObservation RequestObservation Al_ObservedAt Al_RemainingPercent].
  set (m := mkAllowance _ _ _ _ _ _ _ _ _).
  destruct (count_ok_valid m _ _ _ T eq_refl) as [-> ->], (count_ok_valid m _ _ _ R eq_refl) as [-> ->]. cbn [orb].
  rewrite !refuse_if_None. split; [done|]. split; [done|]. split.
  { unfold IsZero. rewrite (proj2 (Z.eqb_neq _ _)) by done. destruct percent; done. }
  unfold validateObservations, m. cbn [Al_Windows Al_ObservedAt Al_Credits]. rewrite Pm, Z.gtb_ltb, (proj2 (Z.ltb_ge _ _)) by done.
  assert (V : validate_windows t [] windows = None).
  { apply validate_windows_None. split_and!.
    - rewrite Pm. apply merged_keys_NoDup; try done; eapply Forall_impl; try done; naive_solver.
    - intros w _. by apply not_elem_of_nil.
    - rewrite Pm. rewrite Forall_and in W1, W2 |- *. destruct W1 as [O1 V1], W2 as [O2 V2]. split; apply merged_Forall.
      + intros old Ho. rewrite Forall_forall in O1. by apply merge_window_observed; [|apply O1].
      + intros next Hn. rewrite Forall_forall in O2. exact (O2 next Hn).
      + intros old Ho. rewrite Forall_forall in V1. by apply merge_window_valid; [|apply V1].
      + intros next Hn. rewrite Forall_forall in V2. by apply Window_Validate_normalized, V2. }
  rewrite V. assert (Cr : ∀ c, match Al_Credits b with
      | Some c => if match Al_Credits a with Some old => After (Cr_ObservedAt c) (Cr_ObservedAt old) | None => true end then Some c else Al_Credits a
      | None => Al_Credits a end = Some c → Cr_ObservedAt c <= t ∧ Credits_Validate c = None).
  { intros c. destruct (Al_Credits b) as [cb|]; [|apply C1]. destruct (match Al_Credits a with Some _ => _ | None => true end); [|apply C1].
    intros [= <-]. by apply C2. }
  destruct (match Al_Credits b with Some _ => _ | None => _ end) as [c|]; [|done].
  destruct (Cr c eq_refl) as [H1 H2]. unfold After. by rewrite (proj2 (Z.ltb_ge _ _)).
Qed.

End MergeFacts.

(** ** What was last observed *)

(** The window of a limit, a name and an evidence. *)
Definition at_key (limit name evidence : string) (w : AllowanceWindow) : bool :=
  String.eqb (LimitID w) limit && String.eqb (Aw_Window w) name && String.eqb (EffectiveEvidence w) evidence.
Definition window_at (l : list AllowanceWindow) (limit name evidence : string) : option AllowanceWindow :=
  find_first (at_key limit name evidence) l.

(** A reset that the newer observation does not state is kept while it lies ahead of it. *)
Definition kept_reset (old new : option Time) (observed : Time) : option Time :=
  match new, old with
  | Some r, _ => Some r
  | None, Some r => if observed <? r then Some r else None
  | None, None => None
  end.

(** The newer of two observations of a window, every field as it was observed. *)
Definition latest_window (old new : option AllowanceWindow) : option AllowanceWindow :=
  match old, new with
  | Some o, Some n =>
      if Aw_ObservedAt o <? Aw_ObservedAt n then
        Some (mkAllowanceWindow (LimitID n) (Aw_Window n) (EffectiveUnit n) (EffectiveEvidence n) (UsedPercent n) (RemainingPercent n)
                (UsedValue n) (RemainingValue n) (WindowMinutes_ n) (kept_reset (Aw_ResetsAt o) (Aw_ResetsAt n) (Aw_ObservedAt n)) (Aw_ObservedAt n))
      else Some (normalized o)
  | Some o, None => Some (normalized o)
  | None, n => normalized <$> n
  end.

(** A count with its observation, which is that of the allowance when it states none. *)
Definition stated_count (a : Allowance) (value : option Z) (o : option CountObservation) : option (Z * CountObservation) :=
  (λ n, (n, default (mkCountObservation (Al_ResetsAt a) (Al_ObservedAt a)) o)) <$> value.

Definition latest_count (old new : option (Z * CountObservation)) : option (Z * CountObservation) :=
  match old, new with
  | Some (k, o), Some (n, i) =>
      if Co_ObservedAt o <? Co_ObservedAt i
      then Some (n, mkCountObservation (kept_reset (Co_ResetsAt o) (Co_ResetsAt i) (Co_ObservedAt i)) (Co_ObservedAt i)) else Some (k, o)
  | Some (k, o), None => Some (k, o)
  | None, n => n
  end.

(** A count and its observation, as an allowance holds them. *)
Definition told (o : option (Z * CountObservation)) : option Z * option CountObservation :=
  match o with Some (n, o) => (Some n, Some o) | None => (None, None) end.

Definition latest_credits (old new : option Credits) : option Credits :=
  match old, new with
  | Some o, Some n => if Cr_ObservedAt o <? Cr_ObservedAt n then Some n else Some o
  | Some o, None => Some o
  | None, n => n
  end.

(** The percentage of the account is that of the passive primary window; there is none where only
    a probe saw that window, and the one it had where nothing did. *)
Definition primary_percent (a : Allowance) (l : list AllowanceWindow) : option float64 * option Time :=
  match window_at l "codex" allowancePrimary AllowanceEvidencePassive with
  | Some w => if String.eqb (EffectiveUnit w) AllowanceUnitPercent then (Some (RemainingPercent w), Aw_ResetsAt w)
              else if is_some (window_at l "codex" allowancePrimary AllowanceEvidenceActive) then (None, None)
              else (Al_RemainingPercent a, Al_ResetsAt a)
  | None => if is_some (window_at l "codex" allowancePrimary AllowanceEvidenceActive) then (None, None)
            else (Al_RemainingPercent a, Al_ResetsAt a)
  end.

Lemma find_first_ext {A} (p q : A → bool) l : (∀ x, x ∈ l → p x = q x) → find_first p l = find_first q l.
Proof.
  induction l as [|x l IH]; intros H; [done|]. unfold find_first in *. cbn. rewrite (H x) by left. destruct (q x); [done|].
  apply IH. intros y Hy. apply H. by right.
Qed.

Lemma find_first_app {A} (p : A → bool) l k : find_first p (l ++ k) = match find_first p l with Some x => Some x | None => find_first p k end.
Proof. induction l as [|x l IH]; [done|]. unfold find_first in *. cbn. by destruct (p x). Qed.

Lemma find_first_map {A B} (p : B → bool) (f : A → B) l : find_first p (map f l) = f <$> find_first (λ x, p (f x)) l.
Proof. induction l as [|x l IH]; [done|]. unfold find_first in *. cbn. by destruct (p (f x)). Qed.

Lemma find_first_DeleteFunc {A} (p q : A → bool) l : (∀ x, x ∈ l → p x = true → q x = false) → find_first p (DeleteFunc q l) = find_first p l.
Proof.
  induction l as [|x l IH]; intros H; [done|]. assert (∀ y, y ∈ l → p y = true → q y = false) as Hl by (intros y Hy; apply H; by right).
  specialize (IH Hl). unfold find_first, DeleteFunc in *. cbn. destruct (p x) eqn:E.
  - rewrite (H x) by (done || left). cbn. by rewrite E.
  - destruct (q x); cbn; [done|]. by rewrite E.
Qed.

Lemma find_first_None {A} (p : A → bool) l x : find_first p l = None → x ∈ l → p x = false.
Proof. intros H Hx. by apply (List.find_none _ _ H), list_elem_of_In. Qed.

Lemma at_key_normalized limit name evidence w : at_key limit name evidence (normalized w) = at_key limit name evidence w.
Proof. unfold at_key. by rewrite EffectiveEvidence_normalized. Qed.

Lemma at_key_spec limit name evidence w : at_key limit name evidence w = true ↔ LimitID w = limit ∧ Aw_Window w = name ∧ EffectiveEvidence w = evidence.
Proof. unfold at_key. rewrite !andb_true_iff, !String.eqb_eq. tauto. Qed.

Lemma at_key_same limit name evidence x y : at_key limit name evidence x = true → same_window x y = at_key limit name evidence y.
Proof.
  rewrite at_key_spec. intros (<- & <- & <-). unfold same_window, at_key.
  by rewrite (String.eqb_sym (LimitID x)), (String.eqb_sym (Aw_Window x)), (String.eqb_sym (EffectiveEvidence x)).
Qed.

Lemma kept_reset_merge old new t : mergeAllowanceReset old new t = kept_reset old new t.
Proof. unfold mergeAllowanceReset, kept_reset, After. by destruct new, old. Qed.

Lemma kept_reset_none o : mkCountObservation (kept_reset None (Co_ResetsAt o) (Co_ObservedAt o)) (Co_ObservedAt o) = o.
Proof. by destruct o as [ []]. Qed.

(** Merging keeps each window as last observed. *)
Lemma merged_at current incoming limit name evidence :
  window_at (mergedAllowanceWindows current incoming) limit name evidence =
  latest_window (window_at current limit name evidence) (window_at incoming limit name evidence).
Proof.
  unfold mergedAllowanceWindows, window_at. rewrite find_first_app, !find_first_map.
  rewrite (find_first_ext (λ x, at_key limit name evidence (merge_window incoming x)) (at_key limit name evidence)).
  2:{ intros x _. destruct (merge_window_cases incoming x) as [ [-> _]|(next & _ & S & _ & ->)]; [apply at_key_normalized|].
      change (at_key limit name evidence (with_reset ?w ?r)) with (at_key limit name evidence w). rewrite at_key_normalized.
      apply same_window_spec in S as (E1 & E2 & E3). unfold at_key. by rewrite E1, E2, E3. }
  rewrite (find_first_ext (λ x, at_key limit name evidence (normalized x)) (at_key limit name evidence)) by (intros x _; apply at_key_normalized).
  destruct (find_first (at_key limit name evidence) current) as [old|] eqn:E; cbn [fmap option_fmap option_map latest_window].
  - apply find_first_Some in E as [_ K]. unfold merge_window.
    rewrite (find_first_ext (same_window old) (at_key limit name evidence)) by (intros x _; by apply at_key_same).
    destruct (find_first (at_key limit name evidence) incoming) as [next|]; [|done]. unfold After.
    destruct (Aw_ObservedAt old <? Aw_ObservedAt next); [|done]. by rewrite kept_reset_merge.
  - rewrite find_first_DeleteFunc; [done|]. intros x _ K. apply existsb_false. intros old Ho.
    pose proof (find_first_None _ _ old E Ho) as N. destruct (same_window old x) eqn:S; [|done].
    rewrite <- N. apply at_key_spec in K as (<- & <- & <-). apply same_window_spec in S as (E1 & E2 & E3). symmetry. by apply at_key_spec.
Qed.

(** The order of windows does not change which is found. *)
Lemma window_at_Permutation l k limit name evidence : l ≡ₚ k → NoDup (map window_key l) → window_at l limit name evidence = window_at k limit name evidence.
Proof.
  intros P N. unfold window_at. destruct (find_first (at_key limit name evidence) l) as [x|] eqn:E, (find_first (at_key limit name evidence) k) as [y|] eqn:F; [| | |done].
  - apply find_first_Some in E as [E1 E2], F as [F1 F2]. rewrite <- P in F1. f_equal. apply (NoDup_map_inj window_key l); try done.
    apply at_key_spec in E2 as (? & ? & ?), F2 as (? & ? & ?). unfold window_key. congruence.
  - apply find_first_Some in E as [E1 E2]. rewrite P in E1. pose proof (find_first_None _ _ x F E1). congruence.
  - apply find_first_Some in F as [F1 F2]. rewrite <- P in F1. pose proof (find_first_None _ _ y E F1). congruence.
Qed.

(** A count is kept as last observed. *)
Lemma merged_count a b c oc i oi t t' : count_ok t c (allowanceCountObservation c oc a) → count_ok t' i (allowanceCountObservation i oi b) →
  mergeAllowanceCount c (allowanceCountObservation c oc a) i (allowanceCountObservation i oi b) =
  told (latest_count (stated_count a c oc) (stated_count b i oi)).
Proof.
  unfold told, count_ok, allowanceCountObservation, stated_count, mergeAllowanceCount, After. intros [_ H] [_ H'].
  destruct c, oc, i, oi; try naive_solver; cbn [fmap option_fmap option_map latest_count default from_option id mbind option_bind];
    rewrite ?kept_reset_merge; cbn; rewrite ?kept_reset_none; repeat case_match; simplify_eq/=; try done.
  by destruct (Al_ResetsAt b).
Qed.

Lemma existsb_find {A} (p : A → bool) l : existsb p l = is_some (find_first p l).
Proof. induction l as [|x l IH]; [done|]. unfold find_first in *. cbn. by destruct (p x). Qed.

(** The parts of a merged allowance. *)
Lemma Merge_parts sort `{!Sorting sort} a b t : parts t a → parts t b → states_windows a → states_windows b →
  let m := Merge sort a b in
  Al_ObservedAt m = Z.max (Al_ObservedAt a) (Al_ObservedAt b) ∧
  Al_Windows m = sort _ window_order (mergedAllowanceWindows (Al_Windows a) (Al_Windows b)) ∧
  (RemainingTokens m, TokenObservation m) =
    told (latest_count (stated_count a (RemainingTokens a) (TokenObservation a)) (stated_count b (RemainingTokens b) (TokenObservation b))) ∧
  (RemainingRequests m, RequestObservation m) =
    told (latest_count (stated_count a (RemainingRequests a) (RequestObservation a)) (stated_count b (RemainingRequests b) (RequestObservation b))) ∧
  Al_Credits m = latest_credits (Al_Credits a) (Al_Credits b) ∧
  (Al_RemainingPercent m, Al_ResetsAt m) = primary_percent a (Al_Windows m).
Proof.
  intros Pa Pb Sa Sb. unfold Merge. rewrite !allowanceWindows_stated by done.
  rewrite (merged_count a b _ _ _ _ t t (pa_tokens _ _ Pa) (pa_tokens _ _ Pb)), (merged_count a b _ _ _ _ t t (pa_requests _ _ Pa) (pa_requests _ _ Pb)).
  destruct (told (latest_count (stated_count a (RemainingTokens a) _) _)) as [tokens tokenO].
  destruct (told (latest_count (stated_count a (RemainingRequests a) _) _)) as [requests requestO].
  set (windows := sort _ window_order _).
  match goal with |- context [let '(percent, reset) := ?p in _] => assert (Ep : p = primary_percent a windows) end.
  { unfold primary_percent, window_at. rewrite (existsb_find (λ w, is_primary w && _)).
    change (λ w, is_primary w && String.eqb (EffectiveEvidence w) ?e) with (at_key "codex" allowancePrimary e). by repeat case_match. }
  rewrite Ep. destruct (primary_percent a windows) as [percent reset] eqn:Epp. cbn [Al_ObservedAt Al_Windows RemainingTokens TokenObservation RemainingRequests RequestObservation Al_Credits Al_RemainingPercent Al_ResetsAt].
  split; [unfold After; destruct (Z.ltb_spec (Al_ObservedAt a) (Al_ObservedAt b)); lia|]. do 3 (split; [done|]). split; [|done].
  unfold latest_credits, After. by destruct (Al_Credits a), (Al_Credits b).
Qed.

(** C39. Observing an allowance keeps each fact as it was last observed. For an allowance that is
    well formed, on a stored one that is well formed or on none, where both list their windows (or
    state no percentage), a percentage is at most a hundred and at most 128 windows result: the
    observation is accepted and what is stored is well formed, its windows in order, one to each
    limit, name and evidence, whatever order of equal windows the sort leaves. Each is, in every
    field, the newer of the two observations of it, the stored one where they are of one instant,
    with a reset it does not state kept while it lies ahead; so are the counts of tokens and
    requests and the credits; and the account's percentage and reset are those of the passive
    primary window. *)
Theorem observe_allowance_well_formed sort `{!Sorting sort} a b :
  a = zeroAllowance ∧ After (Al_ObservedAt b) zeroTime = true ∨ Allowance_Validate a = None → Allowance_Validate b = None →
  states_windows a → states_windows b →
  Forall (λ w, percent_bounded w = true) (Al_Windows a ++ Al_Windows b) →
  Z.of_nat (length (mergedAllowanceWindows (Al_Windows a) (Al_Windows b))) <= MaxAllowanceWindows →
  ∃ m, ObserveAllowance sort a b = inr m ∧ Allowance_Validate m = None ∧
    Al_ObservedAt m = Z.max (Al_ObservedAt a) (Al_ObservedAt b) ∧
    NoDup (map window_key (Al_Windows m)) ∧ StronglySorted (cmp_le window_order) (Al_Windows m) ∧
    (∀ limit name evidence, window_at (Al_Windows m) limit name evidence =
       latest_window (window_at (Al_Windows a) limit name evidence) (window_at (Al_Windows b) limit name evidence)) ∧
    (RemainingTokens m, TokenObservation m) =
      told (latest_count (stated_count a (RemainingTokens a) (TokenObservation a)) (stated_count b (RemainingTokens b) (TokenObservation b))) ∧
    (RemainingRequests m, RequestObservation m) =
      told (latest_count (stated_count a (RemainingRequests a) (RequestObservation a)) (stated_count b (RemainingRequests b) (RequestObservation b))) ∧
    Al_Credits m = latest_credits (Al_Credits a) (Al_Credits b) ∧
    (Al_RemainingPercent m, Al_ResetsAt m) = primary_percent a (Al_Windows m).
Proof.
  intros Va Vb Sa Sb Pb Ln. set (t := Z.max (Al_ObservedAt a) (Al_ObservedAt b)).
  assert (Pa : parts t a) by (apply valid_parts; [naive_solver|lia]).
  pose proof (valid_parts t b (or_intror Vb) ltac:(lia)) as Pp.
  assert (Nz : ∀ x, Allowance_Validate x = None → Al_ObservedAt x ≠ zeroTime).
  { intros x V. unfold Allowance_Validate in V. rewrite !refuse_if_None in V. destruct V as (_ & _ & [V _]%orb_false_iff & _).
    unfold IsZero in V. by apply Z.eqb_neq in V. }
  assert (Tz : t ≠ zeroTime).
  { pose proof (Nz b Vb). destruct Va as [ [-> L]|Va%Nz]; unfold t, After in *; cbn in *; bool_to_prop; lia. }
  pose proof (Merge_valid sort a b Pa Pp Tz Sa Sb Pb Ln) as V.
  exists (Merge sort a b). unfold ObserveAllowance. rewrite Vb, V. split; [done|]. split; [done|].
  assert (Nk : NoDup (map window_key (Al_Windows (Merge sort a b)))) by (eapply pa_keys, (valid_parts _ _ (or_intror V)); done).
  destruct (Merge_parts sort a b t Pa Pp Sa Sb) as (Et & Ew & Tk & Rq & Cr & Pc).
  split; [done|]. split; [done|]. split; [rewrite Ew; apply sort_sorted, _|]. split; [|done].
  intros limit name evidence. rewrite <- merged_at. apply window_at_Permutation; [|done]. rewrite Ew. apply sort_Permutation.
Qed.

(** An allowance of one window, observed at a time. *)
Definition sample_window (used : Z) (t : Time) : AllowanceWindow :=
  mkAllowanceWindow "codex" "primary" "" "" (fOfZ used) (fOfZ (100 - used)) None None None (Some (at_second 1700003600)) t.
Definition sample_allowance (used : Z) (t : Time) : Allowance :=
  mkAllowance [sample_window used t] None None None None None None None t.

(** The later observation states no reset, and the one it had lies ahead: it is kept. It states a
    count, which the first did not. *)
Definition later_allowance : Allowance :=
  let t := at_second 1700000060 in
  mkAllowance [mkAllowanceWindow "codex" "primary" "" "" (fOfZ 55) (fOfZ 45) None None None None t] None (Some 7) None None None None None t.

Lemma observe_allowance_well_formed_witness :
  let sort := λ A c l, @SortStableFunc A c l in
  let a := sample_allowance 40 (at_second 1700000000) in let b := later_allowance in
  ∃ m, ObserveAllowance sort a b = inr m ∧ Allowance_Validate m = None ∧
    (RemainingPercent <$> window_at (Al_Windows m) "codex" "primary" "passive") = Some (fOfZ 45) ∧
    (Aw_ResetsAt <$> window_at (Al_Windows m) "codex" "primary" "passive") = Some (Some (at_second 1700003600)) ∧
    RemainingTokens m = Some 7.
Proof.
  destruct (observe_allowance_well_formed (λ A c l, @SortStableFunc A c l)
    (sample_allowance 40 (at_second 1700000000)) later_allowance) as (m & H1 & H2 & _ & _ & _ & W & T & _).
  - right. vm_compute. reflexivity.
  - vm_compute. reflexivity.
  - left. discriminate.
  - left. discriminate.
  - repeat constructor.
  - vm_compute. discriminate.
  - exists m. split; [exact H1|]. split; [exact H2|]. rewrite W. split; [vm_compute; reflexivity|]. split; [vm_compute; reflexivity|].
    injection T as T _. rewrite T. vm_compute. reflexivity.
Defined.

(** A tenth of a percent, as a [float64]. *)
Definition tenth : float64 := S754_finite false 7205759403792794 (-56).

(** A stored allowance that only states a percentage that is not whole is valid, and
    makes a later observation of another window be refused: the window made of it subtracts
    twice from a hundred, which is not exact, and no longer says what it left. *)
Theorem fractional_percentage_refuses :
  let a := mkAllowance [] None None None None None (Some tenth) None (at_second 1700000000) in
  let later := at_second 1700000060 in
  let w := mkAllowanceWindow "codex" "weekly" "" "" (fOfZ 55) (fOfZ 45) None None None None later in
  let b := mkAllowance [w] None None None None None None None later in
  Allowance_Validate a = None ∧ feq (fsub hundred (fsub hundred tenth)) tenth = false ∧ Allowance_Validate b = None ∧
  ObserveAllowance (λ A c l, @SortStableFunc A c l) a b = inl "invalid provider allowance window"%string.
Proof. by vm_compute. Qed.
