(* ===== verification/CodeChoice.v ===== *)
(** * Coding-agent accounts: choice and recovery

    The band of an account, the account a session is given, why the others were passed
    over, when an exhausted account recovers and when a monthly cycle resets
    ([internal/codemode/bands.go], [cooldowns.go], [decisions.go], [cycle.go]). *)

From S2P Require Import Prelude Go Amount Civil Calendar CodeMode CodeModeFacts.
From Stdlib Require Import Ascii SpecFloat.
Local Open Scope Z_scope.
Local Open Scope olp_scope.

(** ** Bands *)

Inductive Band := BandHealthy | BandUnknown | BandLow | BandExhausted | BandNone.

#[export] Instance Band_eq_dec : EqDecision Band.
Proof. solve_decision. Defined.

Definition bandFreshness : Duration := 15 * Minute.
Definition bandLowRemaining : float64 := fOfZ 10.

Record BandAssessment := mkAssessment {
  Ba_Band : Band; Ba_Evidence : option string; Ba_ObservedAt : option Time; SoonestReset : option Time;
}.

Definition bandFresh (w : AllowanceWindow) (now : Time) : bool :=
  match Aw_ResetsAt w with
  | Some r => if After r now then true else if After r (Aw_ObservedAt w) then false else now - Aw_ObservedAt w <=? bandFreshness
  | None => now - Aw_ObservedAt w <=? bandFreshness
  end.

Definition zero_value (v : option float64) : bool := match v with Some x => feq x fzero | None => false end.

Definition bandExhausted (w : AllowanceWindow) : bool :=
  if String.eqb (EffectiveUnit w) AllowanceUnitPercent then feq (RemainingPercent w) fzero
  else if String.eqb (EffectiveUnit w) AllowanceUnitCount then zero_value (RemainingValue w)
  else false.

Definition bandFromWindow (b : Band) (w : AllowanceWindow) (reset : option Time) : BandAssessment :=
  mkAssessment b (Some (EffectiveEvidence w)) (Some (Aw_ObservedAt w)) reset.

Definition least_reset (l : list Time) : option Time :=
  match l with [] => None | x :: l => Some (MinFunc Z.compare x l) end.

Definition bandSoonestReset (fresh : list AllowanceWindow) (now : Time) : option Time :=
  least_reset (omap (λ w, match Aw_ResetsAt w with
                          | Some r => if flt bandLowRemaining (RemainingPercent w) || negb (After r now) then None else Some r
                          | None => None
                          end) fresh).

Definition AssessBand (allowance : option Allowance) (family : string) (now : Time) : BandAssessment :=
  let unknown := mkAssessment BandUnknown None None None in
  match allowance with
  | None => unknown
  | Some a =>
      let windows := DeleteFunc (λ w, String.eqb family "" || negb (String.eqb (LimitID w) family) ||
                                      negb (String.eqb (EffectiveEvidence w) AllowanceEvidencePassive)) (allowanceWindows a) in
      match find_first (λ w, bandFresh w now && bandExhausted w) windows with
      | Some w => bandFromWindow BandExhausted w None
      | None =>
          match DeleteFunc (λ w, negb (String.eqb (EffectiveUnit w) AllowanceUnitPercent) || negb (bandFresh w now)) windows with
          | [] => unknown
          | w :: l =>
              let tightest := MinFunc (cmp_on RemainingPercent CompareFloat) w l in
              if flt bandLowRemaining (RemainingPercent tightest) then bandFromWindow BandHealthy tightest None
              else bandFromWindow BandLow tightest (bandSoonestReset (w :: l) now)
          end
      end
  end.

Definition bandRank (b : Band) : Z :=
  match b with BandHealthy => 3 | BandLow => 1 | BandExhausted => 0 | BandUnknown | BandNone => 2 end.

(** ** Recovery *)

Definition EarliestRecovery (now : Time) (times : list (option Time)) : option Time :=
  foldl (λ earliest candidate,
    match candidate with
    | Some c => if negb (After c now) then earliest
                else match earliest with Some e => if Before c e then Some c else earliest | None => Some c end
    | None => earliest
    end) None times.

Definition LatestDeadline (now : Time) (times : list (option Time)) : option Time :=
  foldl (λ latest candidate,
    match candidate with
    | Some c => if negb (After c now) then latest
                else match latest with Some l => if After c l then Some c else latest | None => Some c end
    | None => latest
    end) None times.

Definition observationBlocks (reset : option Time) (observedAt : Time) (bandOrdered : bool) (now : Time) : bool :=
  match reset with
  | Some r => After r now
  | None => negb bandOrdered || (now - observedAt <=? bandFreshness)
  end.

Definition window_exhausted (w : AllowanceWindow) : bool :=
  String.eqb (EffectiveUnit w) AllowanceUnitPercent && feq (RemainingPercent w) fzero ||
  Contains [AllowanceUnitCount; AllowanceUnitCredits; AllowanceUnitCents] (EffectiveUnit w) && zero_value (RemainingValue w).

Definition window_resets (now : Time) (bandOrdered : bool) (family : string) (l : list AllowanceWindow) : list (option Time) :=
  map Aw_ResetsAt (List.filter (λ w,
    String.eqb (EffectiveEvidence w) AllowanceEvidencePassive &&
    (negb bandOrdered || negb (String.eqb family "") && String.eqb (LimitID w) family) && window_exhausted w &&
    observationBlocks (Aw_ResetsAt w) (Aw_ObservedAt w) bandOrdered now) l).

Definition count_resets (now : Time) (bandOrdered : bool) (a : Allowance) (remaining : option Z) (o : option CountObservation)
    : list (option Time) :=
  match remaining, allowanceCountObservation remaining o a with
  | Some 0, Some o =>
      if negb (observationBlocks (Co_ResetsAt o) (Co_ObservedAt o) bandOrdered now) then []
      else if bandOrdered && negb (is_some (Co_ResetsAt o)) then [Some (Co_ObservedAt o + bandFreshness)]
      else [Co_ResetsAt o]
  | _, _ => []
  end.

Definition ExhaustedResets (allowance : option Allowance) (now : Time) (bandOrdered : bool) (family : string) : list (option Time) :=
  match allowance with
  | None => []
  | Some a =>
      window_resets now bandOrdered family (Al_Windows a) ++
      (if match Al_RemainingPercent a with Some p => feq p fzero | None => false end &&
          (negb bandOrdered || String.eqb family "codex") &&
          observationBlocks (Al_ResetsAt a) (Al_ObservedAt a) bandOrdered now &&
          negb (existsb is_primary (Al_Windows a))
       then [Al_ResetsAt a] else []) ++
      count_resets now bandOrdered a (RemainingTokens a) (TokenObservation a) ++
      count_resets now bandOrdered a (RemainingRequests a) (RequestObservation a)
  end.

Definition BlockingDeadline (now : Time) (unavailableUntil cooldownRetryAt : option Time) (allowance : option Allowance)
    (bandOrdered : bool) (family : string) : option Time :=
  let resets := ExhaustedResets allowance now bandOrdered family in
  if existsb (λ r, negb (is_some r)) resets then None
  else LatestDeadline now ([unavailableUntil; cooldownRetryAt] ++ resets).

(** ** Choice *)

Record Candidate := mkCandidate {
  Ca_AccountID : string; Available : bool; Ca_Cooldown : bool; Position : Z; Score : float64; Ca_Band : Band; Ca_ResetAt : option Time;
}.

Definition Eligible (c : Candidate) : bool := Available c && negb (bool_decide (Ca_Band c = BandExhausted)).

Definition candidatePreferred (left right : Candidate) : comparison :=
  if negb (Position left =? Position right) then Z.compare (Position right) (Position left)
  else if negb (Bool.eqb (Eligible left) (Eligible right)) then if Eligible left then Gt else Lt
  else if negb (bandRank (Ca_Band left) =? bandRank (Ca_Band right)) then Z.compare (bandRank (Ca_Band left)) (bandRank (Ca_Band right))
  else if negb (feq (Score left) (Score right)) then CompareFloat (Score left) (Score right)
  else
    let by_account := CompareString (Ca_AccountID right) (Ca_AccountID left) in
    if bool_decide (Ca_Band left = BandLow) && bool_decide (Ca_Band right = BandLow) then
      match Ca_ResetAt left, Ca_ResetAt right with
      | None, Some _ => Lt
      | Some _, None => Gt
      | Some l, Some r => match Z.compare r l with Eq => by_account | o => o end
      | None, None => by_account
      end
    else by_account.

Definition ChooseCandidate (candidates : list Candidate) : option Candidate :=
  match candidates with [] => None | c :: l => Some (MaxFunc candidatePreferred c l) end.

Inductive SkipClass := SkipCooldown | SkipBand | SkipWeight | SkipTree | SkipUnavailable.

Record SkippedAccount := mkSkipped { Sk_AccountID : string; Sk_Class : SkipClass }.

Definition skip_class (chosen candidate : Candidate) : SkipClass :=
  if negb (Available candidate) && Ca_Cooldown candidate then SkipCooldown
  else if negb (Eligible candidate) then SkipUnavailable
  else if Position candidate >? Position chosen then SkipTree
  else if bandRank (Ca_Band candidate) <? bandRank (Ca_Band chosen) then SkipBand
  else SkipWeight.

Definition SkippedAccounts (sort : ∀ A, cmp A → list A → list A) (candidates : list Candidate) (chosen : Candidate)
    : list SkippedAccount :=
  sort _ (cmp_on Sk_AccountID CompareString)
    (map (λ c, mkSkipped (Ca_AccountID c) (skip_class chosen c))
       (DeleteFunc (λ c, String.eqb (Ca_AccountID c) (Ca_AccountID chosen)) candidates)).

(** ** Monthly cycles *)

Definition daysInMonth (y m : Z) : Z := (civil (Date y (m + 1) 0)).2.

(** [time.Parse(time.DateOnly, anchor)], which accepts what it prints: the day. *)
Definition ParseCycleAnchor (anchor : string) : option (Z * Z * Z) :=
  match anchor with
  | String y1 (String y2 (String y3 (String y4 (String "-" (String m1 (String m2 (String "-" (String d1 (String d2 EmptyString))))))))) =>
      if all_bytes is_digit (String y1 (String y2 (String y3 (String y4 (String m1 (String m2 (String d1 (String d2 EmptyString))))))))
      then
        let y := dec_value (String y1 (String y2 (String y3 (String y4 EmptyString)))) in
        let m := dec_value (String m1 (String m2 EmptyString)) in
        let d := dec_value (String d1 (String d2 EmptyString)) in
        if (1 <=? m) && (m <=? 12) && (1 <=? d) && (d <=? daysInMonth y m) then Some (y, m, d) else None
      else None
  | _ => None
  end.

(** The reset of a month with an anchor day. *)
Definition reset_in (anchorDay y m : Z) : Time := midnight (Date y m (Z.min anchorDay (daysInMonth y m))).

Fixpoint first_reset (anchorDay monthStart : Z) (now : Time) (offsets : list Z) : option Time :=
  match offsets with
  | [] => None
  | offset :: offsets =>
      let '(y, m, _) := civil (AddDate monthStart 0 offset 0) in
      let candidate := reset_in anchorDay y m in
      if After candidate now then Some candidate else first_reset anchorDay monthStart now offsets
  end.

Definition NextMonthlyReset (anchor : string) (now : Time) : option Time :=
  match ParseCycleAnchor anchor with
  | None => None
  | Some (_, _, anchorDay) =>
      let '(y, m, _) := civil (day_in None (Unix now)) in
      first_reset anchorDay (Date y m 1) now [0; 1]
  end.

(** ** The order of candidates *)

Definition low_reset (c : Candidate) : option Time := if bool_decide (Ca_Band c = BandLow) then Ca_ResetAt c else None.

Definition by_rest : cmp Candidate :=
  cmp_then (cmp_on low_reset (cmp_rev (cmp_known Z.compare))) (cmp_rev (cmp_on Ca_AccountID CompareString)).

(** Less position, eligible, higher band, higher score, earlier reset of low bands, lesser
    identifier. *)
Definition preference : cmp Candidate :=
  cmp_then (cmp_rev (cmp_on Position Z.compare))
    (cmp_then (cmp_rev (cmp_on Eligible cmp_bool))
       (cmp_then (cmp_on (λ c, bandRank (Ca_Band c)) Z.compare)
          (by_value (λ c, Some (Score c)) CompareFloat by_rest))).

Lemma rank_low b b' : bandRank b = bandRank b' → bool_decide (b = BandLow) = bool_decide (b' = BandLow).
Proof. by destruct b, b'. Qed.

Lemma candidatePreferred_eq l r : candidatePreferred l r = preference l r.
Proof.
  unfold candidatePreferred, preference, cmp_then, cmp_rev, cmp_on. rewrite (Z.eqb_sym (Position l)).
  destruct (Z.compare_spec (Position r) (Position l)) as [P|P|P].
  2, 3: rewrite (proj2 (Z.eqb_neq _ _)) by lia; done.
  rewrite P, Z.eqb_refl. cbn [negb]. destruct (Eligible l), (Eligible r); try done; cbn [Bool.eqb negb cmp_bool].
  all: destruct (Z.compare_spec (bandRank (Ca_Band l)) (bandRank (Ca_Band r))) as [R|R|R];
    [|rewrite (proj2 (Z.eqb_neq _ _)) by lia; done..].
  all: rewrite R, Z.eqb_refl; cbn [negb]; rewrite by_value_spec by done; destruct (negb (feq _ _)); [done|].
  all: unfold by_rest, cmp_then, cmp_on, cmp_rev, low_reset, cmp_known; rewrite (rank_low _ _ R);
    destruct (bool_decide (Ca_Band r = BandLow)); cbn [andb]; [|done]; destruct (Ca_ResetAt l), (Ca_ResetAt r); done.
Qed.

#[export] Instance wo_candidatePreferred : WeakOrder candidatePreferred.
Proof.
  apply (WeakOrder_ext _ preference); [intros; apply candidatePreferred_eq|]. unfold preference, by_rest. apply _.
Qed.

(** What not being preferred over a candidate says. *)
Lemma not_preferred c x : cmp_le candidatePreferred x c →
  Position c <= Position x ∧
  (Position x = Position c → Eligible x = true → Eligible c = true) ∧
  (Position x = Position c → Eligible x = Eligible c → bandRank (Ca_Band x) <= bandRank (Ca_Band c)) ∧
  (Position x = Position c → Eligible x = Eligible c → bandRank (Ca_Band x) = bandRank (Ca_Band c) →
     CompareFloat (Score x) (Score c) ≠ Gt).
Proof.
  unfold cmp_le. rewrite candidatePreferred_eq. unfold preference, cmp_then, cmp_rev, cmp_on. intros H.
  destruct (Z.compare_spec (Position c) (Position x)) as [P|P|P]; [|split_and!; lia|done].
  split; [lia|]. destruct (Eligible x), (Eligible c); cbn [cmp_bool] in H; try done; (split; [done|]).
  all: destruct (Z.compare_spec (bandRank (Ca_Band x)) (bandRank (Ca_Band c))) as [R|R|R]; [|split; lia|done];
    split; [lia|]; intros _ _ _; unfold by_value, cmp_then, cmp_on, cmp_known in H; destruct (CompareFloat _ _); done.
Qed.

Lemma chosen_greatest candidates chosen : ChooseCandidate candidates = Some chosen →
  chosen ∈ candidates ∧ ∀ c, c ∈ candidates → cmp_le candidatePreferred c chosen.
Proof.
  destruct candidates as [|x l]; [done|]. intros [= <-]. split; [apply MaxFunc_elem; apply _|]. intros c Hc. apply MaxFunc_ge; [apply _|done].
Qed.

(** What a reason given for passing over a candidate means. *)
Definition skip_means (chosen c : Candidate) (class : SkipClass) : Prop :=
  match class with
  | SkipCooldown => Available c = false ∧ Ca_Cooldown c = true
  | SkipUnavailable => Eligible c = false
  | SkipTree => Eligible c = true ∧ Position chosen < Position c
  | SkipBand => Eligible c = true ∧ Position c = Position chosen ∧ bandRank (Ca_Band c) < bandRank (Ca_Band chosen)
  | SkipWeight => Eligible c = true ∧ Position c = Position chosen ∧ bandRank (Ca_Band c) = bandRank (Ca_Band chosen) ∧
                  CompareFloat (Score c) (Score chosen) ≠ Gt
  end.

Lemma skip_class_true chosen c : Eligible chosen = true → cmp_le candidatePreferred c chosen →
  skip_means chosen c (skip_class chosen c).
Proof.
  intros E (P & _ & R & S)%not_preferred. unfold skip_class.
  destruct (negb (Available c) && Ca_Cooldown c) eqn:K.
  { apply andb_true_iff in K as [K1%negb_true_iff K2]. done. }
  destruct (Eligible c) eqn:Ec; cbn [negb]; [|done]. rewrite Z.gtb_ltb.
  destruct (Z.ltb_spec (Position chosen) (Position c)); [done|]. assert (Ep : Position c = Position chosen) by lia.
  rewrite E in R, S. specialize (R Ep eq_refl). specialize (S Ep eq_refl).
  destruct (Z.ltb_spec (bandRank (Ca_Band c)) (bandRank (Ca_Band chosen))); [done|].
  assert (Er : bandRank (Ca_Band c) = bandRank (Ca_Band chosen)) by lia. cbn. auto.
Qed.

(** The account chosen for a session is one of the candidates of the first position,
    and it is refused only when none of that position is eligible; when it is not refused,
    every other account is recorded once, in the order of their identifiers, and the reason
    recorded for passing over it is true of it: it cools down, cannot serve, comes later
    in the tree, is in a lower band, or is in the same band and does not score higher. *)
Theorem account_choice_explained sort `{!Sorting sort} candidates chosen :
  ChooseCandidate candidates = Some chosen →
  chosen ∈ candidates ∧ (∀ c, c ∈ candidates → Position chosen <= Position c) ∧
  (Eligible chosen = false → ∀ c, c ∈ candidates → Position c = Position chosen → Eligible c = false) ∧
  let skipped := SkippedAccounts sort candidates chosen in
  map Sk_AccountID skipped ≡ₚ List.filter (λ id, negb (String.eqb id (Ca_AccountID chosen))) (map Ca_AccountID candidates) ∧
  StronglySorted (cmp_le (cmp_on Sk_AccountID CompareString)) skipped ∧
  (Eligible chosen = true → ∀ s, s ∈ skipped →
     ∃ c, c ∈ candidates ∧ Ca_AccountID c = Sk_AccountID s ∧ skip_means chosen c (Sk_Class s)).
Proof.
  intros [Hin Hge]%chosen_greatest. split; [done|].
  split; [intros c Hc; by apply not_preferred, Hge|]. split.
  { intros E c Hc P. destruct (not_preferred _ _ (Hge c Hc)) as (_ & H & _). destruct (Eligible c); [|done]. by rewrite H in E. }
  cbv zeta. unfold SkippedAccounts. split; [|split].
  - etrans; [apply Permutation_map, sort_Permutation|]. rewrite map_map. cbn [Sk_AccountID]. unfold DeleteFunc. clear. induction candidates as [|c l IH]; [done|].
    cbn. destruct (negb _); cbn; by rewrite IH.
  - apply sort_sorted. apply _.
  - intros E s. rewrite sort_Permutation. intros (c & -> & Hc)%list_elem_of_fmap. apply elem_of_DeleteFunc in Hc as [Hc _].
    exists c. split; [done|]. split; [done|]. apply skip_class_true; [done|]. by apply Hge.
Qed.

Definition sample_candidates : list Candidate :=
  [mkCandidate "a" true false 0 (fOfZ 1) BandLow None; mkCandidate "b" true false 0 (fOfZ 1) BandHealthy None;
   mkCandidate "c" false true 0 (fOfZ 5) BandHealthy None; mkCandidate "d" true false 1 (fOfZ 9) BandHealthy None].

Lemma account_choice_explained_witness :
  ChooseCandidate sample_candidates = Some (mkCandidate "b" true false 0 (fOfZ 1) BandHealthy None) ∧
  SkippedAccounts (λ A c l, @SortStableFunc A c l) sample_candidates (mkCandidate "b" true false 0 (fOfZ 1) BandHealthy None) =
    [mkSkipped "a" SkipBand; mkSkipped "c" SkipCooldown; mkSkipped "d" SkipTree] ∧
  ∀ c, c ∈ sample_candidates → 0 <= Position c.
Proof.
  split; [vm_compute; reflexivity|]. split; [vm_compute; reflexivity|].
  apply (account_choice_explained (λ A c l, @SortStableFunc A c l) sample_candidates
    (mkCandidate "b" true false 0 (fOfZ 1) BandHealthy None)). vm_compute. reflexivity.
Defined.

(** ** Monthly resets *)

Definition month_length (i : Z) : Z := first_of (i + 1) - first_of i.

Lemma daysInMonth_length y m : daysInMonth y m = month_length (12 * y + m - 1).
Proof.
  unfold daysInMonth, month_length. rewrite Date_first. replace (12 * y + (m + 1) - 1) with (12 * y + m - 1 + 1) by lia.
  pose proof (first_of_step (12 * y + m - 1)). rewrite (civil_in_month _ (12 * y + m - 1)) by lia. cbn [snd]. lia.
Qed.

(** The day of the reset in a month. *)
Definition reset_day (k i : Z) : Z := first_of i + Z.min k (month_length i) - 1.

Lemma reset_in_day k y m : reset_in k y m = midnight (reset_day k (12 * y + m - 1)).
Proof. unfold reset_in, reset_day. rewrite Date_first, daysInMonth_length. f_equal. lia. Qed.

Lemma reset_day_in k i : 1 <= k → first_of i <= reset_day k i < first_of (i + 1).
Proof. intros H. unfold reset_day, month_length. pose proof (first_of_step i). lia. Qed.

Lemma reset_day_mono k i j : 1 <= k → i <= j → reset_day k i <= reset_day k j.
Proof.
  intros Hk H. destruct (Z.eq_dec i j) as [-> |N]; [lia|]. pose proof (reset_day_in k i Hk). pose proof (reset_day_in k j Hk).
  pose proof (first_of_mono (i + 1) j ltac:(lia)). lia.
Qed.

Lemma midnight_le d t : midnight d <= t ↔ d <= Unix t / 86400.
Proof.
  unfold midnight. rewrite at_second_le. split; intros H.
  - apply Z.div_le_lower_bound; lia.
  - pose proof (Z.mul_div_le (Unix t) 86400 ltac:(lia)). lia.
Qed.

Lemma midnight_mono a b : a <= b → midnight a <= midnight b.
Proof. unfold midnight, at_second, Second, Millisecond. lia. Qed.

Lemma anchor_day anchor y m k : ParseCycleAnchor anchor = Some (y, m, k) → 1 <= k.
Proof.
  unfold ParseCycleAnchor. intros H. repeat (case_match; try done). simplify_eq/=.
  match goal with H : _ && _ = true |- _ => apply andb_true_iff in H as [H _]; apply andb_true_iff in H as [_ H]; by apply Z.leb_le in H end.
Qed.

(** A cycle anchored at a day of the month resets at midnight UTC on that day of each
    month, or on the last day of a shorter month: for any anchor that parses there is a
    next reset, it is after now, and no reset of the cycle lies between. *)
Theorem next_monthly_reset anchor now y0 m0 k : ParseCycleAnchor anchor = Some (y0, m0, k) →
  ∃ r, NextMonthlyReset anchor now = Some r ∧ now < r ∧
    (∃ y m, 1 <= m <= 12 ∧ r = midnight (Date y m (Z.min k (daysInMonth y m))) ∧
       civil (Date y m (Z.min k (daysInMonth y m))) = (y, m, Z.min k (daysInMonth y m))) ∧
    ∀ y m, 1 <= m <= 12 → now < reset_in k y m → r <= reset_in k y m.
Proof.
  intros A. pose proof (anchor_day _ _ _ _ A) as Hk. unfold NextMonthlyReset. rewrite A. cbn [day_in].
  set (n := Unix now / 86400). pose proof (civil_spec n) as S. destruct (civil n) as [ [y m] d]. destruct S as (Hm & E & Hd & L).
  set (i := 12 * y + m - 1) in *.
  assert (Ci : ∀ j, civil (first_of j) = (j / 12, j mod 12 + 1, 1)).
  { intros j. pose proof (first_of_step j). rewrite (civil_in_month _ j) by lia. do 2 f_equal. lia. }
  assert (Ri : ∀ j, reset_in k (j / 12) (j mod 12 + 1) = midnight (reset_day k j)).
  { intros j. rewrite reset_in_day. pose proof (Z.div_mod j 12 ltac:(lia)). do 2 f_equal. lia. }
  assert (Ex : ∀ j, ∃ y m, 1 <= m <= 12 ∧ midnight (reset_day k j) = midnight (Date y m (Z.min k (daysInMonth y m))) ∧
    civil (Date y m (Z.min k (daysInMonth y m))) = (y, m, Z.min k (daysInMonth y m))).
  { intros j. exists (j / 12), (j mod 12 + 1). pose proof (Z.mod_pos_bound j 12 ltac:(lia)). split; [lia|].
    split; [by rewrite <- Ri|]. pose proof (daysInMonth_length (j / 12) (j mod 12 + 1)) as Ed.
    pose proof (first_of_step (12 * (j / 12) + (j mod 12 + 1) - 1)). unfold month_length in Ed.
    apply Date_civil; [lia|lia|]. rewrite !Date_first.
    replace (12 * (j / 12) + (j mod 12 + 1 + 1) - 1) with (12 * (j / 12) + (j mod 12 + 1) - 1 + 1) by lia. lia. }
  assert (Lt : ∀ j, now < midnight (reset_day k j) ↔ n < reset_day k j).
  { intros j. pose proof (midnight_le (reset_day k j) now). fold n in H. lia. }
  assert (Least : ∀ j, n < reset_day k j → i <= j).
  { intros j Hj. destruct (Z.le_gt_cases i j); [done|]. pose proof (reset_day_in k j Hk).
    pose proof (first_of_mono (j + 1) i ltac:(lia)). lia. }
  assert (A0 : AddDate (first_of i) 0 0 0 = first_of i) by (rewrite AddDate_days; lia).
  rewrite Date_first. fold i. replace (1 - 1) with 0 by lia. rewrite Z.add_0_r.
  cbn [first_reset]. rewrite A0, AddDate_month, !Ci, !Ri. unfold After.
  destruct (Z.ltb_spec now (midnight (reset_day k i))) as [H0|H0].
  - exists (midnight (reset_day k i)). split; [done|]. split; [done|]. split; [apply Ex|].
    intros y' m' _ H. rewrite reset_in_day in *. apply midnight_mono, reset_day_mono; [done|]. by apply Least, Lt.
  - assert (H1 : now < midnight (reset_day k (i + 1))) by (apply Lt; pose proof (reset_day_in k (i + 1) Hk); lia).
    rewrite (proj2 (Z.ltb_lt _ _) H1). exists (midnight (reset_day k (i + 1))). split; [done|]. split; [done|]. split; [apply Ex|].
    intros y' m' _ H. rewrite reset_in_day in *. apply midnight_mono, reset_day_mono; [done|].
    apply Lt in H. pose proof (Least _ H). destruct (Z.eq_dec (12 * y' + m' - 1) i) as [Eq|N]; [|lia].
    rewrite Eq in H. apply Lt in H. lia.
Qed.

(** An anchor on the 31st, in a leap year's February. *)
Lemma next_monthly_reset_witness :
  NextMonthlyReset "2023-01-31" (midnight (Date 2024 2 10)) = Some (midnight (Date 2024 2 29)) ∧
  ∃ r, NextMonthlyReset "2023-01-31" (midnight (Date 2024 2 10)) = Some r ∧ midnight (Date 2024 2 10) < r.
Proof.
  split; [vm_compute; reflexivity|].
  destruct (next_monthly_reset "2023-01-31" (midnight (Date 2024 2 10)) 2023 1 31) as (r & H1 & H2 & _); [vm_compute; reflexivity|].
  exists r. split; [exact H1|exact H2].
Defined.
