(* ===== verification/CostAmount.v ===== *)
(** * Amounts of money in the cost scripts

    The arithmetic the cost scripts of [internal/limits/scripts] share. An amount is two
    exact integers, whole units and the fraction in units of 10^-12; it saturates at
    [HUGE] whole units. The reconciliation script compares accrued totals as decimal text
    of any length instead. The lemmas relate both to integers of 10^-12 units: parsing
    and formatting are inverse, addition and subtraction are exact below the ceiling, and
    the comparisons are those of the numbers. *)

From S2P Require Import Prelude Go Amount Limits.
From Stdlib Require Import Ascii.
Local Open Scope Z_scope.
Local Open Scope olp_scope.

(** ** The operations of [cost_pending] *)

Definition amount : Type := Z * Z.

Definition SCALE : nat := 12.
Definition UNIT : Z := 1000000000000.
Definition HUGE : Z := 1000000000000000.

(** Digits, and optionally a point and more digits. Lua reads a number of 16 digits or
    more inexactly, but never one below 10^15 as one above it. *)
Definition parse_amount (raw : string) : option amount :=
  let '(whole, fraction, point) := Cut raw "." in
  if String.eqb whole "" || negb (decimalDigits whole) || negb (decimalDigits fraction) ||
     (point && String.eqb fraction "") then None
  else
    let fraction := if Nat.ltb SCALE (String.length fraction) then trim_right_zeros fraction else fraction in
    if Nat.ltb SCALE (String.length fraction) then None
    else
      let hi := dec_value whole in
      if hi >=? HUGE then Some (HUGE, 0)
      else if String.eqb fraction "" then Some (hi, 0)
      else Some (hi, dec_value fraction * 10 ^ (12 - len fraction)).

(** The verb [%012d]. *)
Definition padded (lo : Z) : string :=
  let digits := decimal_text lo in (zeros (SCALE - String.length digits) +:+ digits)%string.

Definition format_amount (a : amount) : string :=
  let '(hi, lo) := a in
  if lo =? 0 then decimal_text hi else (decimal_text hi +:+ "." +:+ trim_right_zeros (padded lo))%string.

Definition compare_amount (left right : amount) : Z :=
  if negb (left.1 =? right.1) then if left.1 <? right.1 then -1 else 1
  else if negb (left.2 =? right.2) then if left.2 <? right.2 then -1 else 1
  else 0.

Definition add_amount (left right : amount) : amount :=
  let '(hi, lo) := (left.1 + right.1, left.2 + right.2) in
  let '(hi, lo) := if lo >=? UNIT then (hi + 1, lo - UNIT) else (hi, lo) in
  if hi >=? HUGE then (HUGE, 0) else (hi, lo).

(** Floored at zero, so that a drifted sum can never go negative. *)
Definition sub_amount (left right : amount) : amount :=
  if compare_amount left right <=? 0 then (0, 0)
  else
    let '(hi, lo) := (left.1 - right.1, left.2 - right.2) in
    if lo <? 0 then (hi - 1, lo + UNIT) else (hi, lo).

Definition valid_lease (lease_id : string) : bool :=
  (32 <=? len lease_id) && (len lease_id <=? 64) &&
  all_bytes (λ c, is_digit c || in_range "a" "f" c || Ascii.eqb c "-") lease_id.

(** A limit is positive and below 10^12. *)
Definition parse_limit (raw : string) : option amount :=
  match parse_amount raw with
  | Some (hi, lo) => if (hi >=? UNIT) || ((hi =? 0) && (lo =? 0)) then None else Some (hi, lo)
  | None => None
  end.

(** ** Decimal text *)

Fixpoint trim_left_zeros (s : string) : string :=
  match s with
  | String c rest => if Ascii.eqb c "0" then trim_left_zeros rest else s
  | EmptyString => EmptyString
  end.

(** A decimal of at most 96 characters without the zeros that say nothing. *)
Definition normalize_decimal (raw : string) : option string :=
  let '(integer, fraction, point) := Cut raw "." in
  if String.eqb raw "" || (len raw >? 96) || String.eqb integer "" || negb (decimalDigits integer) ||
     negb (decimalDigits fraction) || (point && String.eqb fraction "") then None
  else
    let integer := trim_left_zeros integer in
    let integer := if String.eqb integer "" then "0"%string else integer in
    let fraction := trim_right_zeros fraction in
    Some (if String.eqb fraction "" then integer else (integer +:+ "." +:+ fraction)%string).

Definition decimal_parts (raw : string) : option (string * string) :=
  match normalize_decimal raw with
  | None => None
  | Some normalized => let '(integer, fraction, _) := Cut normalized "." in Some (integer, fraction)
  end.

(** [a < b] of Lua strings in the C locale. *)
Definition string_below (a b : string) : bool :=
  match String.compare a b with Lt => true | _ => false end.

Definition compare_decimal (left right : string) : option Z :=
  match decimal_parts left, decimal_parts right with
  | Some (li, lf), Some (ri, rf) =>
      Some (if negb (Nat.eqb (String.length li) (String.length ri))
            then if Nat.ltb (String.length li) (String.length ri) then -1 else 1
            else if negb (String.eqb li ri) then if string_below li ri then -1 else 1
            else
              let scale := Nat.max (String.length lf) (String.length rf) in
              let lf := (lf +:+ zeros (scale - String.length lf))%string in
              let rf := (rf +:+ zeros (scale - String.length rf))%string in
              if String.eqb lf rf then 0 else if string_below lf rf then -1 else 1)
  | _, _ => None
  end.

(** Every boolean test of the context as a proposition. *)
Ltac bools := rewrite ?Z.geb_leb, ?Z.gtb_ltb in *; split_bools; bool_to_prop.

(** ** Amounts as numbers *)

(** The amount in units of 10^-12. *)
Definition pico (a : amount) : Z := a.1 * UNIT + a.2.

Definition CEILING : Z := HUGE * UNIT.

(** What the operations produce: a proper fraction, at most the ceiling. *)
Definition amount_wf (a : amount) : Prop := 0 <= a.1 ∧ 0 <= a.2 < UNIT ∧ pico a <= CEILING.

Definition of_pico (n : Z) : amount := (n / UNIT, n mod UNIT).

#[global] Arguments parse_amount : simpl never.
#[global] Arguments format_amount : simpl never.
#[global] Arguments of_pico : simpl never.
#[global] Arguments pico : simpl never.

Lemma amount_wf_range a : amount_wf a → 0 <= pico a <= CEILING.
Proof. unfold amount_wf, pico, UNIT. lia. Qed.

Lemma amount_wf_zero : amount_wf (0, 0).
Proof. unfold amount_wf, pico, CEILING, HUGE, UNIT; simpl; lia. Qed.

Lemma pico_inj a b : amount_wf a → amount_wf b → pico a = pico b → a = b.
Proof. destruct a, b. unfold amount_wf, pico, UNIT; simpl. intros. f_equal; lia. Qed.

Lemma pico_of_pico n : pico (of_pico n) = n.
Proof. unfold pico, of_pico, UNIT; cbn [fst snd]. pose proof (Z.div_mod n 1000000000000). lia. Qed.

Lemma of_pico_wf n : 0 <= n <= CEILING → amount_wf (of_pico n).
Proof.
  intros H. unfold amount_wf. rewrite pico_of_pico. unfold of_pico, UNIT; cbn [fst snd].
  split; [apply Z.div_pos; lia|]. split; [apply Z.mod_pos_bound; lia|lia].
Qed.

Lemma compare_amount_spec a b : amount_wf a → amount_wf b →
  compare_amount a b = match pico a ?= pico b with Lt => -1 | Eq => 0 | Gt => 1 end.
Proof.
  unfold amount_wf, pico, UNIT, compare_amount. destruct a as [h l], b as [h' l']; cbn [fst snd]. intros.
  destruct (Z.eqb_spec h h') as [->|]; cbn [negb].
  - destruct (Z.eqb_spec l l') as [->|]; cbn [negb]; [by rewrite Z.compare_refl|].
    destruct (Z.ltb_spec l l'), (Z.compare_spec (h' * 1000000000000 + l) (h' * 1000000000000 + l')); lia.
  - destruct (Z.ltb_spec h h'), (Z.compare_spec (h * 1000000000000 + l) (h' * 1000000000000 + l')); lia.
Qed.

Lemma compare_amount_le a b : amount_wf a → amount_wf b → compare_amount a b <= 0 ↔ pico a <= pico b.
Proof. intros Ha Hb. rewrite compare_amount_spec by done. destruct (Z.compare_spec (pico a) (pico b)); lia. Qed.

Lemma compare_amount_ge a b : amount_wf a → amount_wf b → compare_amount a b > -1 ↔ pico b <= pico a.
Proof. intros Ha Hb. rewrite compare_amount_spec by done. destruct (Z.compare_spec (pico a) (pico b)); lia. Qed.

Lemma add_amount_spec a b : amount_wf a → amount_wf b →
  amount_wf (add_amount a b) ∧ pico (add_amount a b) = Z.min CEILING (pico a + pico b).
Proof.
  unfold amount_wf, pico, CEILING, HUGE, UNIT, add_amount. destruct a as [h l], b as [h' l']; cbn [fst snd]. intros Ha Hb.
  unfold UNIT, HUGE. destruct (l + l' >=? 1000000000000) eqn:E; rewrite Z.geb_leb in E; bool_to_prop; cbn [fst snd].
  all: match goal with |- context [?x >=? 1000000000000000] => destruct (x >=? 1000000000000000) eqn:F end;
    rewrite Z.geb_leb in F; bool_to_prop; cbn [fst snd]; lia.
Qed.

Lemma sub_amount_spec a b : amount_wf a → amount_wf b →
  amount_wf (sub_amount a b) ∧ pico (sub_amount a b) = Z.max 0 (pico a - pico b).
Proof.
  intros Ha Hb. unfold sub_amount. pose proof (compare_amount_le a b Ha Hb) as Hc.
  destruct (Z.leb_spec (compare_amount a b) 0) as [H|H].
  - split; [apply amount_wf_zero|]. apply Hc in H. unfold pico at 1; cbn [fst snd]. lia.
  - assert (pico b < pico a) as Hlt by lia. clear Hc H. revert Hlt Ha Hb.
    unfold amount_wf, pico, CEILING, HUGE, UNIT. destruct a as [h l], b as [h' l']; cbn [fst snd]. intros.
    destruct (Z.ltb_spec (l - l') 0); cbn [fst snd]; lia.
Qed.

(** ** Parsing and formatting *)

Lemma trim_right_zeros_value s n : (String.length s ≤ n)%nat →
  dec_value (trim_right_zeros s +:+ zeros (n - String.length (trim_right_zeros s))) =
  dec_value (s +:+ zeros (n - String.length s)).
Proof.
  intros Hn. pose proof (trim_right_zeros_spec s) as E. set (t := trim_right_zeros s) in *.
  assert (String.length t ≤ String.length s)%nat as Hl.
  { apply (f_equal String.length) in E. rewrite length_append, length_zeros in E. lia. }
  rewrite E at 2. rewrite E, length_append, length_zeros. rewrite E at 1.
  rewrite length_append, length_zeros, !dec_value_app, !dec_value_zeros. unfold len. rewrite !length_zeros.
  rewrite !Z.add_0_r, <- Z.mul_assoc, <- Z.pow_add_r by lia. do 2 f_equal. lia.
Qed.

Lemma trim_right_zeros_length s : (String.length (trim_right_zeros s) ≤ String.length s)%nat.
Proof.
  pose proof (trim_right_zeros_spec s) as E. apply (f_equal String.length) in E.
  rewrite length_append, length_zeros in E. lia.
Qed.

Lemma trim_right_zeros_digits s : decimalDigits s = true → decimalDigits (trim_right_zeros s) = true.
Proof.
  intros H. rewrite (trim_right_zeros_spec s) in H. unfold decimalDigits in *.
  rewrite all_bytes_app in H. by apply andb_true_iff in H as [? _].
Qed.

(** Text in the shape of a decimal of at most twelve fractional digits. *)
Lemma parse_amount_text whole fraction :
  whole ≠ "" → decimalDigits whole = true → decimalDigits fraction = true → (String.length fraction ≤ SCALE)%nat →
  parse_amount (if String.eqb fraction "" then whole else whole +:+ "." +:+ fraction) =
    Some (if dec_value whole >=? HUGE then (HUGE, 0) else (dec_value whole, dec_value (fraction +:+ zeros (SCALE - String.length fraction)))).
Proof.
  intros Hne Dw Df Hl. unfold parse_amount.
  assert (Cut (if String.eqb fraction "" then whole else whole +:+ "." +:+ fraction) "." =
          (whole, fraction, negb (String.eqb fraction ""))) as ->.
  { destruct (String.eqb_spec fraction "") as [->|]; [by apply Cut_digits_none|].
    change ("." +:+ fraction) with (String "." fraction). by apply Cut_digits_point. }
  destruct (String.eqb_spec whole ""); [done|]. rewrite Dw, Df. simpl negb.
  destruct (Nat.ltb_spec SCALE (String.length fraction)); [lia|].
  destruct (String.eqb_spec fraction "") as [->|Hf]; simpl orb; cbv iota zeta.
  - destruct (Nat.ltb_spec SCALE (String.length "")); [simpl in *; lia|].
    by destruct (dec_value whole >=? HUGE).
  - destruct (Nat.ltb_spec SCALE (String.length fraction)); [lia|].
    destruct (dec_value whole >=? HUGE); [done|]. do 2 f_equal.
    rewrite dec_value_app, dec_value_zeros, Z.add_0_r. f_equal. f_equal.
    unfold len. rewrite length_zeros. unfold SCALE in *. lia.
Qed.

(** No leading zeros: the text of a positive number is as long as the number is large. *)
Lemma dec_digits_length fuel n acc : 0 < n →
  ∃ s, dec_digits fuel n acc = s +:+ acc ∧ (s = "" ∨ 10 ^ (len s - 1) <= n).
Proof.
  revert n acc. induction fuel as [|fuel IH]; intros n acc Hn; [exists ""; naive_solver|]. cbn [dec_digits].
  destruct (Z.ltb_spec n 10).
  - exists (String (digit (n mod 10)) ""). split; [done|]. right.
    change (len (String (digit (n mod 10)) "") - 1) with 0. lia.
  - destruct (IH (n / 10) (String (digit (n mod 10)) acc)) as (s & E & Hs); [apply Z.div_str_pos; lia|].
    exists (s +:+ String (digit (n mod 10)) ""). rewrite append_assoc. split; [done|]. right.
    rewrite len_append. change (len (String (digit (n mod 10)) "")) with 1.
    destruct Hs as [->|Hs]; [change (len "") with 0; rewrite Z.add_simpl_r; simpl; lia|].
    assert (0 < len s ∨ s = "") as [Hl| ->] by (destruct s; [by right|left; unfold len; simpl; lia]); [|change (10 ^ (0 + 1 - 1) <= n); change (10 ^ (0 + 1 - 1)) with 1; lia].
    replace (len s + 1 - 1) with (Z.succ (len s - 1)) by lia. rewrite Z.pow_succ_r by lia.
    pose proof (Z.mul_div_le n 10). lia.
Qed.

Lemma big_String_length n k : 0 <= n < 10 ^ Z.of_nat k → (0 < k)%nat → (String.length (big_String n) ≤ k)%nat.
Proof.
  intros H Hk. destruct (decide (n = 0)) as [->|]; [simpl; lia|]. unfold big_String.
  destruct (dec_digits_length (S (Z.to_nat (Z.log2 n))) n "" ltac:(lia)) as (s & -> & [->|Hs]);
    rewrite append_nil_r; [simpl; lia|].
  assert (len s - 1 < Z.of_nat k) by (apply (Z.pow_lt_mono_r_iff 10); lia). unfold len in *. lia.
Qed.

Lemma padded_spec lo : 0 <= lo < UNIT →
  String.length (padded lo) = SCALE ∧ decimalDigits (padded lo) = true ∧ dec_value (padded lo) = lo.
Proof.
  intros H. unfold padded, decimal_text. destruct (big_String_spec lo ltac:(lia)) as (V & D & N).
  set (t := big_String lo) in *.
  assert (String.length t ≤ SCALE)%nat as Hl by (apply big_String_length; [exact H|unfold SCALE; lia]).
  rewrite length_append, length_zeros, dec_value_app, dec_value_zeros, V. unfold decimalDigits in *.
  rewrite all_bytes_app, D. pose proof (decimalDigits_zeros (SCALE - String.length t)) as Hz.
  unfold decimalDigits in Hz. rewrite Hz. repeat split; lia.
Qed.

(** What is written is read back. *)
Lemma parse_format_amount a : amount_wf a → parse_amount (format_amount a) = Some a.
Proof.
  destruct a as [hi lo]. intros (Hhi & Hlo & Hc). unfold format_amount. cbn [fst snd] in *.
  destruct (big_String_spec hi Hhi) as (V & D & N). unfold decimal_text.
  assert (hi < HUGE ∨ hi = HUGE ∧ lo = 0) as Hcap by (unfold pico, CEILING, UNIT, HUGE in *; cbn [fst snd] in *; lia).
  assert (∀ f, dec_value (f +:+ zeros (SCALE - String.length f)) = lo → Some (if dec_value (big_String hi) >=? HUGE then (HUGE, 0)
    else (dec_value (big_String hi), dec_value (f +:+ zeros (SCALE - String.length f)))) = Some (hi, lo)) as Hfin.
  { intros f ->. rewrite V. destruct (hi >=? HUGE) eqn:E; rewrite Z.geb_leb in E; bool_to_prop; [|done].
    destruct Hcap as [| [-> ->] ]; [lia|done]. }
  destruct (Z.eqb_spec lo 0) as [->|Hne].
  - etrans; [|by apply (Hfin "")]. apply (parse_amount_text (big_String hi) ""); [done..|]. simpl; lia.
  - destruct (padded_spec lo Hlo) as (L & Dp & Vp).
    pose proof (trim_right_zeros_length (padded lo)) as Hl.
    set (f := trim_right_zeros (padded lo)) in *.
    assert (dec_value (f +:+ zeros (SCALE - String.length f)) = lo) as Hf.
    { unfold f. rewrite trim_right_zeros_value by lia. rewrite L, Nat.sub_diag. simpl. by rewrite append_nil_r. }
    assert (f ≠ "") as Hfne.
    { intros Ef. rewrite Ef in Hf. simpl in Hf. change (dec_value (zeros SCALE)) with 0 in Hf. by symmetry in Hf. }
    etrans; [|by apply (Hfin f)]. rewrite <- parse_amount_text; [|done|done|by apply trim_right_zeros_digits|lia].
    by destruct (String.eqb_spec f "").
Qed.

Lemma format_amount_inj a b : amount_wf a → amount_wf b → format_amount a = format_amount b → a = b.
Proof. intros Ha Hb E. apply (f_equal parse_amount) in E. rewrite !parse_format_amount in E by done. congruence. Qed.

(** What is read is well formed, whatever the text. *)
Lemma parse_amount_wf raw a : parse_amount raw = Some a → amount_wf a.
Proof.
  unfold parse_amount. destruct (Cut raw ".") as [ [whole fraction] point]. intros H. case_in H; [done|]. bools.
  match goal with H : decimalDigits whole = true |- _ => pose proof (dec_value_bound _ H) end.
  cbv zeta in H. unfold amount_wf.
  set (f := if (SCALE <? String.length fraction)%nat then trim_right_zeros fraction else fraction) in *.
  destruct (Nat.ltb_spec SCALE (String.length f)) as [|Hlf]; [done|].
  case_in H; bools; [simplify_eq; unfold pico, CEILING, HUGE, UNIT; simpl; lia|].
  case_in H; simplify_eq; cbn [fst snd]; [unfold pico, CEILING, HUGE, UNIT in *; simpl; lia|].
  assert (decimalDigits f = true) as Hd.
  { unfold f. case_match; [by apply trim_right_zeros_digits|done]. }
  pose proof (dec_value_bound _ Hd) as Hb.
  assert (0 <= len f <= 12) as Hl by (unfold len, SCALE in *; lia).
  assert (dec_value f * 10 ^ (12 - len f) < UNIT ∧ 0 <= dec_value f * 10 ^ (12 - len f)) as [? ?].
  { split; [|nia].
    replace UNIT with (10 ^ len f * 10 ^ (12 - len f)); [nia|].
    rewrite <- Z.pow_add_r by lia. by replace (len f + (12 - len f)) with 12 by lia. }
  unfold pico, CEILING, HUGE, UNIT in *; cbn [fst snd]. lia.
Qed.

(** A limit or an estimate the gateway accepts is the amount the scripts read. *)
Lemma parse_amount_ValidAmount s u : ValidAmount s = true → scaledDecimal s costDigits = Some u →
  ∃ a, parse_amount s = Some a ∧ amount_wf a ∧ pico a = u ∧ a.1 < UNIT.
Proof.
  intros Hv Hu. unfold ValidAmount in Hv. destruct (Cut s ".") as [ [i f] p] eqn:E.
  destruct (Cut_spec _ _ _ _ _ E) as [Hs _]. case_in Hv; [done|].
  apply orb_false_iff in E0 as [ [Hl1 Hl2]%orb_false_iff Hd%negb_false_iff].
  rewrite Z.gtb_ltb in Hl2. bool_to_prop.
  assert (decimalDigits f = true ∧ len f <= 12 ∧ s = if String.eqb f "" then i else i +:+ "." +:+ f) as (Df & Lf & Ht).
  { destruct p; simpl in Hv.
    - case_in Hv; [done|]. apply orb_false_iff in E0 as [ [H1 H2]%orb_false_iff H3%negb_false_iff].
      rewrite Z.gtb_ltb in H2. bool_to_prop. split; [done|]. split; [lia|].
      destruct (String.eqb_spec f "") as [->|]; [by change (len "") with 0 in H1|done].
    - destruct Hs as [-> ->]. done. }
  assert (i ≠ "") as Hne by (intros ->; change (len "") with 0 in *; lia).
  assert (String.length f ≤ SCALE)%nat as Hlen by (unfold len, SCALE in *; lia).
  rewrite (scaledDecimal_text i f costDigits s Hd Df Hne Hlen Ht) in Hu. injection Hu as <-.
  pose proof (dec_value_bound _ Hd) as Hb.
  assert (dec_value i < UNIT).
  { assert (10 ^ len i <= 10 ^ 12) by (apply Z.pow_le_mono_r; lia). unfold UNIT; lia. }
  pose proof (parse_amount_text i f Hne Hd Df Hlen) as Hp. rewrite <- Ht in Hp.
  destruct (dec_value i >=? HUGE) eqn:Eh; rewrite Z.geb_leb in Eh; bool_to_prop; [unfold HUGE, UNIT in *; lia|].
  eexists. split; [exact Hp|]. split; [by eapply parse_amount_wf|]. split; [|done].
  unfold pico; cbn [fst snd]. rewrite (dec_value_app i), len_append.
  replace (len f + len (zeros (costDigits - String.length f))) with 12; [done|].
  unfold len. rewrite length_zeros. unfold costDigits, SCALE in *. lia.
Qed.

(** ** Decimal text as numbers *)

(** The number a decimal of at most 96 characters stands for, in units of 10^-96. *)
Definition decimal_value (raw : string) : option Z :=
  let '(integer, fraction, point) := Cut raw "." in
  if String.eqb integer "" || negb (decimalDigits integer) || negb (decimalDigits fraction) ||
     (point && String.eqb fraction "") || (len raw >? 96) then None
  else Some (dec_value integer * 10 ^ 96 + dec_value fraction * 10 ^ (96 - len fraction)).

Lemma dec_value_cons c s : dec_value (String c s) = dval c * 10 ^ len s + dec_value s.
Proof. change (String c s) with (String c "" +:+ s). rewrite dec_value_app. unfold dec_value. cbn [dec_from]. lia. Qed.

(** Digit strings of one length are ordered as their numbers are. *)
Lemma compare_digits a b : decimalDigits a = true → decimalDigits b = true → String.length a = String.length b →
  String.compare a b = (dec_value a ?= dec_value b).
Proof.
  unfold decimalDigits. revert b. induction a as [|c a IH]; intros [|c' b]; [done..|].
  cbn [all_bytes String.length String.compare]. intros [Hc Ha]%andb_true_iff [Hc' Hb]%andb_true_iff [= Hl].
  specialize (IH b Ha Hb Hl). rewrite !dec_value_cons. unfold len. rewrite Hl. fold (len b).
  pose proof (dec_value_bound a Ha) as Ba. pose proof (dec_value_bound b Hb) as Bb.
  unfold len in Ba. rewrite Hl in Ba. fold (len b) in Ba.
  unfold Ascii.compare. assert ((N_of_ascii c ?= N_of_ascii c')%N = (dval c ?= dval c')) as ->.
  { unfold dval. rewrite <- N2Z.inj_compare.
    destruct (Z.compare_spec (Z.of_N (N_of_ascii c)) (Z.of_N (N_of_ascii c')));
      destruct (Z.compare_spec (Z.of_N (N_of_ascii c) - 48) (Z.of_N (N_of_ascii c') - 48)); lia || done. }
  destruct (Z.compare_spec (dval c) (dval c')) as [->|H|H].
  - rewrite IH. destruct (Z.compare_spec (dec_value a) (dec_value b)), (Z.compare_spec (dval c' * 10 ^ len b + dec_value a)
      (dval c' * 10 ^ len b + dec_value b)); lia || done.
  - symmetry. apply Z.compare_lt_iff. nia.
  - symmetry. apply Z.compare_gt_iff. nia.
Qed.

Lemma trim_left_zeros_spec s : decimalDigits s = true →
  let t := trim_left_zeros s in
  decimalDigits t = true ∧ dec_value t = dec_value s ∧ (String.length t ≤ String.length s)%nat ∧
  (t = "" ∨ 10 ^ (len t - 1) <= dec_value t).
Proof.
  unfold decimalDigits. induction s as [|c s IH]; cbn [trim_left_zeros]; [naive_solver|].
  cbn [all_bytes]. intros [Hc Hs]%andb_true_iff. destruct (Ascii.eqb_spec c "0") as [->|Hne].
  - destruct (IH Hs) as (D & V & L & B). split; [done|]. split; [|split; [simpl; lia|done]].
    rewrite V, dec_value_cons. change (dval "0") with 0. lia.
  - cbv zeta. cbn [all_bytes]. rewrite Hc. split; [done|]. split; [done|]. split; [done|]. right.
    assert (1 <= dval c).
    { pose proof (dval_digit c Hc). destruct (decide (dval c = 0)) as [E|]; [|lia]. exfalso. apply Hne.
      unfold dval in E. assert (N_of_ascii c = 48%N) as E' by lia. apply (f_equal ascii_of_N) in E'.
      by rewrite ascii_N_embedding in E'. }
    rewrite dec_value_cons. pose proof (dec_value_bound s Hs).
    replace (len (String c s) - 1) with (len s) by (unfold len; simpl; lia). nia.
Qed.

Lemma decimal_parts_spec raw integer fraction : decimal_parts raw = Some (integer, fraction) →
  decimalDigits integer = true ∧ decimalDigits fraction = true ∧ len fraction <= 96 ∧
  (integer = "0"%string ∨ 10 ^ (len integer - 1) <= dec_value integer) ∧ 0 < len integer ∧
  decimal_value raw = Some (dec_value integer * 10 ^ 96 + dec_value fraction * 10 ^ (96 - len fraction)).
Proof.
  unfold decimal_parts, normalize_decimal, decimal_value. destruct (Cut raw ".") as [ [i f] p] eqn:Ec.
  destruct (Cut_spec _ _ _ _ _ Ec) as [Hraw _]. intros H. destruct (_ || _) eqn:E in H; [done|].
  apply orb_false_iff in E as [ [ [ [ [_ El]%orb_false_iff Ei]%orb_false_iff Di]%orb_false_iff Df]%orb_false_iff Ep].
  rewrite Ei, Di, Df, Ep, El. simpl orb. cbv zeta iota in H |- *. apply negb_false_iff in Di, Df. bools.
  destruct (trim_left_zeros_spec i Di) as (Dt & Vt & Lt & Bt).
  set (t := trim_left_zeros i) in *. set (i' := if String.eqb t "" then "0"%string else t) in *.
  assert (decimalDigits i' = true ∧ dec_value i' = dec_value i ∧
    (i' = "0"%string ∨ 10 ^ (len i' - 1) <= dec_value i') ∧ 0 < len i') as (Di' & Vi' & Bi' & Li').
  { unfold i'. destruct (String.eqb_spec t "") as [Et|Et].
    - rewrite Et in Vt. change (dec_value "") with 0 in Vt. rewrite <- Vt. repeat split; [by left].
    - repeat split; [done..| |]; [|destruct t; [done|unfold len; simpl; lia]].
      destruct Bt as [->|]; [done|by right]. }
  pose proof (trim_right_zeros_digits f Df) as Dt'. pose proof (trim_right_zeros_length f) as Ll.
  set (f' := trim_right_zeros f) in *.
  assert (integer = i' ∧ fraction = f') as [-> ->].
  { destruct (String.eqb_spec f' "") as [Ef|Ef].
    - rewrite (Cut_digits_none i') in H by done. rewrite Ef. by simplify_eq.
    - change ("." +:+ f') with (String "." f') in H. rewrite Cut_digits_point in H by done. by simplify_eq. }
  assert (len f <= 96) as Hf.
  { destruct p; [|destruct Hraw as [_ ->]; unfold len; simpl; lia].
    subst raw. rewrite len_append in *. unfold len in *. simpl String.length in *. lia. }
  split; [done|]. split; [done|]. split; [unfold len in *; lia|]. split; [done|]. split; [done|].
  f_equal. rewrite Vi'. f_equal.
  pose proof (trim_right_zeros_value f 96 ltac:(unfold len in *; lia)) as Hv. fold f' in Hv.
  rewrite !dec_value_app, !dec_value_zeros in Hv. unfold len in *. rewrite !length_zeros in Hv.
  rewrite !Nat2Z.inj_sub in Hv by lia. rewrite !Z.add_0_r in Hv. symmetry. exact Hv.
Qed.

(** Without leading zeros a shorter number is a smaller one. *)
Lemma shorter_below a b : decimalDigits a = true → decimalDigits b = true → 0 < len a →
  (b = "0"%string ∨ 10 ^ (len b - 1) <= dec_value b) → len a < len b → dec_value a < dec_value b.
Proof.
  intros Da Db Ha Hb Hl. destruct Hb as [->|Hb]; [change (len "0") with 1 in Hl; lia|].
  pose proof (dec_value_bound a Da). assert (10 ^ len a <= 10 ^ (len b - 1)) by (apply Z.pow_le_mono_r; lia). lia.
Qed.

Lemma scaled_below (x y f g : Z) : x < y → f < 10 ^ 96 → 0 <= g → x * 10 ^ 96 + f < y * 10 ^ 96 + g.
Proof. set (k := 10 ^ 96). assert (0 < k) by done. nia. Qed.

Lemma fraction_range f : decimalDigits f = true → len f <= 96 → 0 <= dec_value f * 10 ^ (96 - len f) < 10 ^ 96.
Proof.
  intros D L. pose proof (dec_value_bound f D).
  replace (10 ^ 96) with (10 ^ len f * 10 ^ (96 - len f)); [nia|].
  rewrite <- Z.pow_add_r by (unfold len in *; lia). by replace (len f + (96 - len f)) with 96 by lia.
Qed.

Lemma string_below_spec a b : decimalDigits a = true → decimalDigits b = true → String.length a = String.length b →
  string_below a b = (dec_value a <? dec_value b) ∧ (String.eqb a b = true ↔ dec_value a = dec_value b).
Proof.
  intros Da Db L. unfold string_below. pose proof (compare_digits a b Da Db L) as E. rewrite E. split.
  - by destruct (Z.compare_spec (dec_value a) (dec_value b)), (Z.ltb_spec (dec_value a) (dec_value b)); try lia.
  - rewrite String.eqb_eq. split; [congruence|]. intros V. rewrite V, Z.compare_refl in E.
    by apply String.compare_eq_iff.
Qed.

Lemma padded_fraction f n : decimalDigits f = true → (String.length f ≤ n)%nat →
  decimalDigits (f +:+ zeros (n - String.length f)) = true ∧
  String.length (f +:+ zeros (n - String.length f)) = n ∧
  ((n ≤ 96)%nat → dec_value (f +:+ zeros (n - String.length f)) * 10 ^ (96 - Z.of_nat n) = dec_value f * 10 ^ (96 - len f)).
Proof.
  intros D L. pose proof (decimalDigits_zeros (n - String.length f)) as Z0. unfold decimalDigits in *.
  rewrite all_bytes_app, D, Z0, length_append, length_zeros. split; [done|]. split; [lia|]. intros H.
  rewrite dec_value_app, dec_value_zeros, Z.add_0_r, <- Z.mul_assoc. f_equal.
  unfold len. rewrite length_zeros, <- Z.pow_add_r by lia. f_equal. lia.
Qed.

Lemma decimal_value_parts raw v : decimal_value raw = Some v → ∃ p, decimal_parts raw = Some p.
Proof.
  unfold decimal_value, decimal_parts, normalize_decimal. destruct (Cut raw ".") as [ [i f] p] eqn:E.
  destruct (Cut_spec _ _ _ _ _ E) as [Hraw _]. intros H. destruct (_ || _) eqn:Ev in H; [done|].
  apply orb_false_iff in Ev as [ [ [ [Ei Di]%orb_false_iff Df]%orb_false_iff Ep]%orb_false_iff El].
  rewrite Ei, Di, Df, Ep, El.
  assert (String.eqb raw "" = false) as ->.
  { destruct (String.eqb_spec raw "") as [->|]; [|done]. by simplify_eq/=. }
  simpl orb. cbv zeta iota. clear E. destruct (Cut _ _) as [ [? ?] ?]; by eexists.
Qed.

(** The comparison of decimal text is that of the numbers. *)
Lemma compare_decimal_value left right l r :
  decimal_value left = Some l → decimal_value right = Some r →
  compare_decimal left right = Some (match l ?= r with Lt => -1 | Eq => 0 | Gt => 1 end).
Proof.
  intros Hl Hr. destruct (decimal_value_parts _ _ Hl) as [ [li lf] El]. destruct (decimal_value_parts _ _ Hr) as [ [ri rf] Er].
  unfold compare_decimal. rewrite El, Er.
  apply decimal_parts_spec in El as (Dli & Dlf & Llf & Bli & Pli & Vl).
  apply decimal_parts_spec in Er as (Dri & Drf & Lrf & Bri & Pri & Vr).
  rewrite Hl in Vl. rewrite Hr in Vr. injection Vl as ->. injection Vr as ->. clear Hl Hr.
  pose proof (fraction_range lf Dlf Llf) as Fl. pose proof (fraction_range rf Drf Lrf) as Fr. f_equal.
  destruct (Nat.eqb_spec (String.length li) (String.length ri)) as [Hlen|Hlen]; simpl negb; cbv iota.
  - destruct (string_below_spec li ri Dli Dri Hlen) as [Hb He].
    destruct (String.eqb li ri) eqn:E; simpl negb; cbv iota.
    + assert (dec_value li = dec_value ri) as -> by tauto.
      set (n := Nat.max (String.length lf) (String.length rf)).
      destruct (padded_fraction lf n Dlf ltac:(lia)) as (D1 & L1 & V1).
      destruct (padded_fraction rf n Drf ltac:(lia)) as (D2 & L2 & V2).
      set (a := lf +:+ _) in *. set (b := rf +:+ _) in *.
      assert (n ≤ 96)%nat as Hn by (unfold len in *; lia). specialize (V1 Hn). specialize (V2 Hn).
      destruct (string_below_spec a b D1 D2 ltac:(congruence)) as [Hb' He']. rewrite Hb'.
      assert (0 < 10 ^ (96 - Z.of_nat n)) by (apply Z.pow_pos_nonneg; lia).
      rewrite <- V1, <- V2. set (k := 10 ^ (96 - Z.of_nat n)) in *. set (base := dec_value ri * 10 ^ 96).
      destruct (String.eqb a b) eqn:E'.
      * assert (dec_value a = dec_value b) as -> by tauto. by rewrite Z.compare_refl.
      * assert (dec_value a ≠ dec_value b) by (intros W; apply He' in W; congruence).
        destruct (Z.ltb_spec (dec_value a) (dec_value b)),
          (Z.compare_spec (base + dec_value a * k) (base + dec_value b * k)); nia || done.
    + assert (dec_value li ≠ dec_value ri) by (intros W; apply He in W; congruence). rewrite Hb.
      destruct (Z.ltb_spec (dec_value li) (dec_value ri)).
      * pose proof (scaled_below (dec_value li) (dec_value ri) _ _ ltac:(lia) (proj2 Fl) (proj1 Fr)) as W.
        apply Z.compare_lt_iff in W. by rewrite W.
      * pose proof (scaled_below (dec_value ri) (dec_value li) _ _ ltac:(lia) (proj2 Fr) (proj1 Fl)) as W.
        apply Z.compare_gt_iff in W. by rewrite W.
  - destruct (Nat.ltb_spec (String.length li) (String.length ri)).
    + pose proof (shorter_below li ri Dli Dri Pli Bri ltac:(unfold len; lia)) as W0.
      pose proof (scaled_below _ _ _ _ W0 (proj2 Fl) (proj1 Fr)) as W. apply Z.compare_lt_iff in W. by rewrite W.
    + pose proof (shorter_below ri li Dri Dli Pri Bli ltac:(unfold len; lia)) as W0.
      pose proof (scaled_below _ _ _ _ W0 (proj2 Fr) (proj1 Fl)) as W. apply Z.compare_gt_iff in W. by rewrite W.
Qed.

Lemma trim_left_zeros_idem s : trim_left_zeros (trim_left_zeros s) = trim_left_zeros s.
Proof.
  induction s as [|c s IH]; cbn [trim_left_zeros]; [done|]. destruct (Ascii.eqb c "0") eqn:E; [done|].
  cbn [trim_left_zeros]. by rewrite E.
Qed.

Lemma trim_right_zeros_idem s : trim_right_zeros (trim_right_zeros s) = trim_right_zeros s.
Proof.
  induction s as [|c s IH]; cbn [trim_right_zeros]; [done|]. destruct (trim_right_zeros s) as [|d r] eqn:E.
  - destruct (Ascii.eqb c "0") eqn:Ec; cbn [trim_right_zeros]; by rewrite ?Ec.
  - cbn [trim_right_zeros] in *. by rewrite IH.
Qed.

(** A normal decimal is its own normal form and stands for the same number. *)
Lemma normalize_decimal_normal raw n : normalize_decimal raw = Some n →
  normalize_decimal n = Some n ∧ decimal_value n = decimal_value raw ∧ is_Some (decimal_value raw).
Proof.
  intros H. assert (∃ p, decimal_parts raw = Some p) as [ [i f] Hp].
  { unfold decimal_parts. rewrite H. destruct (Cut n ".") as [ [? ?] ?]. by eexists. }
  pose proof (decimal_parts_spec _ _ _ Hp) as (Di & Df & Lf & Bi & Li & Vr).
  revert H Hp. unfold decimal_parts, normalize_decimal. destruct (Cut raw ".") as [ [i0 f0] p0] eqn:Ec.
  destruct (Cut_spec _ _ _ _ _ Ec) as [Hraw _]. intros H. destruct (_ || _) eqn:Eo in H; [done|]. rewrite Eo. cbv zeta in H.
  apply orb_false_iff in Eo as [ [ [ [ [Er El]%orb_false_iff Ei0]%orb_false_iff Di0%negb_false_iff]%orb_false_iff Df0%negb_false_iff]%orb_false_iff Ep].
  cbv zeta. set (i' := if String.eqb (trim_left_zeros i0) "" then "0"%string else trim_left_zeros i0) in *.
  set (f' := trim_right_zeros f0) in *. injection H as Hn.
  assert (decimalDigits i' = true ∧ i' ≠ "" ∧ (String.length i' ≤ String.length i0)%nat) as (Di' & Ni' & Li').
  { destruct (trim_left_zeros_spec i0 Di0) as (D & _ & L & _). unfold i'. destruct (String.eqb_spec (trim_left_zeros i0) "").
    - split; [done|]. split; [done|]. destruct i0; [done|simpl; lia].
    - done. }
  pose proof (trim_right_zeros_digits f0 Df0) as Df'. pose proof (trim_right_zeros_length f0) as Lf'. fold f' in Df', Lf'.
  assert (Cut n "." = (i', f', negb (String.eqb f' ""))) as Ecn.
  { subst n. destruct (String.eqb_spec f' "") as [->|]; [by apply Cut_digits_none|].
    change ("." +:+ f') with (String "." f'). by apply Cut_digits_point. }
  rewrite Hn, Ecn. intros [= <- <-].
  assert (len n <= 96) as Ln.
  { bools. destruct p0.
    - subst raw. assert (f0 ≠ "") by (by destruct (String.eqb_spec f0 "")). rewrite len_append in El. unfold len in *.
      subst n. destruct (String.eqb_spec f' ""); [simpl String.length in *; lia|].
      rewrite !length_append. simpl String.length in *. lia.
    - destruct Hraw as [-> ->]. assert (f' = "") as Ef by done. rewrite Ef in Hn. simpl in Hn. subst n. unfold len in *. lia. }
  assert (i' ≠ "" ∧ n ≠ "") as [_ Nn].
  { split; [done|]. intros En. rewrite En in Ecn. simpl in Ecn. congruence. }
  assert ((if String.eqb (trim_left_zeros i') "" then "0"%string else trim_left_zeros i') = i') as Ei'.
  { unfold i'. destruct (String.eqb_spec (trim_left_zeros i0) ""); [done|]. rewrite trim_left_zeros_idem.
    by destruct (String.eqb_spec (trim_left_zeros i0) ""). }
  assert (trim_right_zeros f' = f') as Ef' by apply trim_right_zeros_idem.
  assert (String.eqb n "" = false ∧ (len n >? 96) = false ∧ String.eqb i' "" = false) as (B1 & B2 & B3).
  { split; [by destruct (String.eqb_spec n "")|]. split; [rewrite Z.gtb_ltb; apply Z.ltb_ge; lia|]. by destruct (String.eqb_spec i' ""). }
  assert (negb (String.eqb f' "") && String.eqb f' "" = false) as B4 by (by destruct (String.eqb f' "")).
  split.
  - rewrite B1, B2, B3, Di', Df', B4. cbn [orb negb]. by rewrite Ei', Ef', Hn.
  - split; [|rewrite Vr; eauto]. rewrite Vr. unfold decimal_value. rewrite Ecn, B2, B3, Di', Df', B4. done.
Qed.
