(* ===== verification/CostPending.v ===== *)
(** * Pending cost reservations

    The section [cost_pending] that the cost scripts share: what requests in flight may
    still spend against a cost owner, held in two keys, a hash with the field [sum] and
    one field for each lease, and a sorted set of the leases' expiries in milliseconds.
    The abstract state is a finite map from leases to what they hold and until when. A
    state represents such a map when the hash has the leases' amounts and their exact
    sum, the set has the same leases, and both keys outlive every lease; each operation
    on a state that represents a map is the operation on the map. *)

From S2P Require Import Prelude Go Amount Limits CostAmount.
From Stdlib Require Import Ascii.
Local Open Scope Z_scope.
Local Open Scope olp_scope.

Record pending := mkPending { held : key hash; expiries : key zset }.

Definition members_of (k : key zset) : zset := match k with Holds z _ => z | _ => ∅ end.
Definition expiry_of {A} (k : key A) : option Z := match k with Holds _ e => e | _ => None end.
Definition exists_key {A} (k : key A) : bool := match k with Missing => false | _ => true end.
Definition foreign {A} (k : key A) : bool := match k with Foreign => true | _ => false end.

(** The keys as commands see them. *)
Definition seen (now : Z) (p : pending) : pending := mkPending (live now (held p)) (live now (expiries p)).

Definition set_hash (h : hash) (e : option Z) : key hash := if bool_decide (h = ∅) then Missing else Holds h e.

Definition drop_pending : pending := mkPending Missing Missing.

Definition SWEEP_LIMIT : nat := 256.

(** [ZRANGEBYSCORE key -inf now LIMIT 0 256]: by score, then by member. *)
Definition cmp_entry : cmp (string * Z) := cmp_then (cmp_on snd Z.compare) (cmp_on fst CompareString).

Definition expired_leases (now : Z) (z : zset) : list string :=
  (take SWEEP_LIMIT (SortStableFunc cmp_entry (map_to_list (filter (λ p, p.2 <= now) z)))).*1.

(** A total without an amount read from the hash; text that is none is left out. *)
Definition less (h : hash) (sum : amount) (lease : string) : amount :=
  match h !! lease ≫= parse_amount with Some a => sub_amount sum a | None => sum end.

Definition remove_all {A} (l : list string) (m : gmap string A) : gmap string A := foldr delete m l.

Definition pending_total (now : Z) (read_only : bool) (p : pending) : pending * amount :=
  let drop := if read_only then p else drop_pending in
  if foreign (held p) || foreign (expiries p) then (drop, (0, 0))
  else
    let h := fields_of (held p) in
    let z := members_of (expiries p) in
    match h !! "sum"%string with
    | None => (if negb read_only && ((0 <? Z.of_nat (size z)) || exists_key (held p)) then drop_pending else p, (0, 0))
    | Some stored =>
        match parse_amount stored with
        | None => (drop, (0, 0))
        | Some sum =>
            if Nat.ltb (size z) 1 || negb (Nat.eqb (size h) (size z + 1)) then (drop, (0, 0))
            else
              let expired := expired_leases now z in
              if bool_decide (expired = []) then (p, sum)
              else
                let sum := fold_left (less h) expired sum in
                if read_only then (p, sum)
                else
                  let h := remove_all expired h in
                  let z := remove_all expired z in
                  if Nat.leb (size h) 1 then (drop_pending, (0, 0))
                  else (mkPending (Holds (<["sum" := format_amount sum]> h) (expiry_of (held p)))
                          (set_zset z (expiry_of (expiries p))), sum)
        end
    end.

(** [ZADD], with [LT] for a settlement: a member's score then only falls. *)
Definition ZADD (z : zset) (lease : string) (score : Z) (lower_only : bool) : zset :=
  match z !! lease with
  | Some s => if lower_only && (s <=? score) then z else <[lease := score]> z
  | None => <[lease := score]> z
  end.

Definition store_lease (lease : string) (a total : amount) (expires_ms : Z) (lower_only : bool) (p : pending) : pending :=
  mkPending (Holds (<["sum" := format_amount total]> (<[lease := format_amount a]> (fields_of (held p)))) (expiry_of (held p)))
    (Holds (ZADD (members_of (expiries p)) lease expires_ms lower_only) (expiry_of (expiries p))).

(** [PTTL]: -1 without an expiry, -2 without a key. *)
Definition PTTL {A} (now : Z) (k : key A) : Z :=
  match k with Missing => -2 | Holds _ (Some e) => e - now | _ => -1 end.

Definition PEXPIRE {A} (now ttl : Z) (k : key A) : key A :=
  match k with Holds a _ => Holds a (Some (now + ttl)) | k => k end.

(** [clock] is the server's time, which [now_ms] is but for a test's override. *)
Definition outlive (clock expires_ms now_ms : Z) (p : pending) : pending :=
  let ttl := Z.max (PTTL clock (held p)) (expires_ms - now_ms + 1000) in
  mkPending (PEXPIRE clock ttl (held p)) (PEXPIRE clock ttl (expiries p)).

Definition remove_lease (lease text : string) (sum : amount) (p : pending) : pending :=
  let h := fields_of (held p) in
  if Nat.leb (size h) 2 then drop_pending
  else
    let sum := match parse_amount text with Some a => sub_amount sum a | None => sum end in
    if foreign (expiries p) then drop_pending
    else mkPending (Holds (<["sum" := format_amount sum]> (delete lease h)) (expiry_of (held p)))
           (set_zset (delete lease (members_of (expiries p))) (expiry_of (expiries p))).

Definition release_lease (lease : string) (p : pending) : pending * Z :=
  if foreign (held p) then (drop_pending, 0)
  else
    let h := fields_of (held p) in
    match h !! lease with
    | None => (p, 0)
    | Some text =>
        let sum := default (0, 0) (h !! "sum"%string ≫= parse_amount) in
        (remove_lease lease text sum p, 1)
    end.

(** ** The abstract state *)

(** What a lease holds, in units of 10^-12, and when it lapses. *)
Record lease := mkLease { l_amount : Z; l_expires : Z }.

Notation ledger := (gmap string lease).

Definition total (L : ledger) : Z := map_fold (λ _ l n, l_amount l + n) 0 L.

(** Leases have positive amounts and names that are not the field of the total; their
    sum is below the ceiling at which sums saturate. *)
Definition ledger_wf (L : ledger) : Prop :=
  map_Forall (λ k l, valid_lease k = true ∧ 0 < l_amount l) L ∧ total L < CEILING.

Definition hash_of (L : ledger) : hash :=
  <["sum" := format_amount (of_pico (total L))]> ((λ l, format_amount (of_pico (l_amount l))) <$> L).

Definition represents (p : pending) (L : ledger) : Prop :=
  ledger_wf L ∧
  if bool_decide (L = ∅) then p = drop_pending
  else ∃ e, p = mkPending (Holds (hash_of L) (Some e)) (Holds (l_expires <$> L) (Some e)) ∧
            map_Forall (λ _ l, l_expires l + 1000 <= e) L.

(** The operations on the map. *)
Definition swept (now : Z) (L : ledger) : ledger := remove_all (expired_leases now (l_expires <$> L)) L.

(** ** Sums *)

Lemma total_empty : total ∅ = 0.
Proof. apply map_fold_empty. Qed.

Lemma total_insert L k l : L !! k = None → total (<[k := l]> L) = l_amount l + total L.
Proof. intros H. unfold total. apply (map_fold_insert_L (λ _ l n, l_amount l + n)); [|done]. intros; lia. Qed.

Lemma total_delete L k l : L !! k = Some l → total L = l_amount l + total (delete k L).
Proof. intros H. rewrite <- (insert_delete_id L k l H) at 1. by rewrite total_insert by apply lookup_delete_eq. Qed.

Lemma total_nonneg L : map_Forall (λ _ l, 0 < l_amount l) L → 0 <= total L.
Proof.
  induction L as [|k l L Hk IH] using map_ind; intros H; [by rewrite total_empty|].
  rewrite total_insert by done. apply map_Forall_insert in H as [? ?]; [|done]. specialize (IH H0). lia.
Qed.

Lemma total_delete_le L k : map_Forall (λ _ l, 0 < l_amount l) L → total (delete k L) <= total L.
Proof.
  intros H. destruct (L !! k) as [l|] eqn:E; [|by rewrite delete_id].
  rewrite (total_delete L k l E). pose proof (H k l E). simpl in *. lia.
Qed.

Lemma ledger_wf_positive L : ledger_wf L → map_Forall (λ _ l, 0 < l_amount l) L.
Proof. intros [H _] k l E. by apply (H k l E). Qed.

Lemma ledger_wf_empty : ledger_wf ∅.
Proof. split; [apply map_Forall_empty|]. by rewrite total_empty. Qed.

Lemma ledger_wf_delete L k : ledger_wf L → ledger_wf (delete k L).
Proof.
  intros H. pose proof (total_delete_le L k (ledger_wf_positive L H)). destruct H as [H H'].
  split; [by apply map_Forall_delete|lia].
Qed.

Lemma ledger_wf_insert L k a e : ledger_wf L → valid_lease k = true → 0 < a →
  total (delete k L) + a < CEILING → ledger_wf (<[k := mkLease a e]> L).
Proof.
  intros H Hk Ha Ht. rewrite <- insert_delete_eq. pose proof (ledger_wf_delete L k H) as [H1 H2]. split.
  - apply map_Forall_insert; [apply lookup_delete_eq|]. done.
  - rewrite total_insert by apply lookup_delete_eq. simpl. lia.
Qed.

Lemma valid_lease_sum k : valid_lease k = true → k ≠ "sum"%string.
Proof. intros H ->. by vm_compute in H. Qed.

Lemma ledger_no_sum L : ledger_wf L → L !! "sum"%string = None.
Proof.
  intros [H _]. destruct (L !! "sum"%string) eqn:E; [|done]. apply H in E as [E _]. by vm_compute in E.
Qed.

Lemma lease_in_range L k l : ledger_wf L → L !! k = Some l → amount_wf (of_pico (l_amount l)) ∧ l_amount l <= total L.
Proof.
  intros H E. pose proof (ledger_wf_positive L H k l E) as Hp. simpl in Hp.
  pose proof (total_delete L k l E). pose proof (total_nonneg (delete k L) (ledger_wf_positive _ (ledger_wf_delete L k H))).
  destruct H as [_ H]. split; [apply of_pico_wf; lia|lia].
Qed.

Lemma total_wf L : ledger_wf L → amount_wf (of_pico (total L)).
Proof. intros H. pose proof (total_nonneg L (ledger_wf_positive L H)). destruct H as [_ H]. apply of_pico_wf. lia. Qed.

#[export] Hint Resolve total_wf ledger_wf_delete ledger_wf_empty ledger_wf_positive ledger_no_sum valid_lease_sum : olp.

(** ** Reading the hash *)

Lemma hash_of_sum L : hash_of L !! "sum"%string = Some (format_amount (of_pico (total L))).
Proof. apply lookup_insert_eq. Qed.

Lemma hash_of_lease L k : k ≠ "sum"%string →
  hash_of L !! k = (λ l, format_amount (of_pico (l_amount l))) <$> L !! k.
Proof. intros H. unfold hash_of. by rewrite lookup_insert_ne, lookup_fmap by done. Qed.

Lemma hash_of_read L k : ledger_wf L → k ≠ "sum"%string → hash_of L !! k ≫= parse_amount = of_pico ∘ l_amount <$> L !! k.
Proof.
  intros H Hk. rewrite hash_of_lease by done. destruct (L !! k) as [l|] eqn:E; simpl; [|done].
  apply parse_format_amount. by apply (lease_in_range L k l H).
Qed.

Lemma hash_of_size L : ledger_wf L → size (hash_of L) = S (size L).
Proof.
  intros H. unfold hash_of. rewrite map_size_insert_None; [by rewrite map_size_fmap|].
  rewrite lookup_fmap, ledger_no_sum by done. done.
Qed.

Lemma hash_of_delete L k : k ≠ "sum"%string →
  <["sum" := format_amount (of_pico (total (delete k L)))]> (delete k (hash_of L)) = hash_of (delete k L).
Proof.
  intros H. unfold hash_of. rewrite delete_insert_ne by done.
  rewrite insert_insert_eq. by rewrite fmap_delete.
Qed.

Lemma hash_of_insert L k a e : k ≠ "sum"%string →
  <["sum" := format_amount (of_pico (total (<[k := mkLease a e]> L)))]> (<[k := format_amount (of_pico a)]> (hash_of L)) =
  hash_of (<[k := mkLease a e]> L).
Proof.
  intros H. unfold hash_of. rewrite (insert_insert_ne _ k) by done. by rewrite insert_insert_eq, fmap_insert.
Qed.

(** ** Sweeping lapsed leases *)

Lemma remove_all_delete {A} ks k (m : gmap string A) : remove_all ks (delete k m) = delete k (remove_all ks m).
Proof. induction ks as [|k' ks IH]; simpl; [done|]. by rewrite IH, delete_delete. Qed.

Lemma remove_all_fmap {A B} (f : A → B) ks (m : gmap string A) : remove_all ks (f <$> m) = f <$> remove_all ks m.
Proof. induction ks as [|k ks IH]; simpl; [done|]. by rewrite IH, fmap_delete. Qed.

Lemma remove_all_insert {A} ks k v (m : gmap string A) : k ∉ ks → remove_all ks (<[k := v]> m) = <[k := v]> (remove_all ks m).
Proof.
  induction ks as [|k' ks IH]; simpl; [done|]. intros [? ?]%not_elem_of_cons. rewrite IH by done.
  by rewrite delete_insert_ne.
Qed.

Lemma lookup_remove_all {A} ks (m : gmap string A) k : remove_all ks m !! k = if bool_decide (k ∈ ks) then None else m !! k.
Proof.
  induction ks as [|k' ks IH]; simpl; [done|]. destruct (decide (k = k')) as [->|].
  - rewrite lookup_delete_eq. rewrite bool_decide_true; [done|]. left.
  - rewrite lookup_delete_ne, IH by done.
    destruct (decide (k ∈ ks)); [rewrite !bool_decide_true; [done|by right|done]|].
    rewrite !bool_decide_false; [done| |done]. by rewrite not_elem_of_cons.
Qed.

Lemma expired_leases_spec now (z : zset) :
  NoDup (expired_leases now z) ∧ ∀ k, k ∈ expired_leases now z → ∃ s, z !! k = Some s ∧ s <= now.
Proof.
  unfold expired_leases. set (l := map_to_list _). pose proof (SortStableFunc_Permutation cmp_entry l) as P.
  split.
  - rewrite fmap_take. eapply sublist_NoDup; [|apply sublist_take]. rewrite P. apply NoDup_fst_map_to_list.
  - intros k [ [k' s] [-> H] ]%list_elem_of_fmap. apply subseteq_take in H. rewrite P in H.
    apply elem_of_map_to_list, map_lookup_filter_Some in H. naive_solver.
Qed.

Lemma ledger_wf_remove ks L : ledger_wf L → ledger_wf (remove_all ks L).
Proof. intros H. induction ks; simpl; auto with olp. Qed.

Lemma sub_of_pico x y : 0 <= y <= x → x <= CEILING → sub_amount (of_pico x) (of_pico y) = of_pico (x - y).
Proof.
  intros H Hx. destruct (sub_amount_spec (of_pico x) (of_pico y)) as [Hw Hp]; [apply of_pico_wf; lia..|].
  apply pico_inj; [done|apply of_pico_wf; lia|]. rewrite Hp, !pico_of_pico. lia.
Qed.

Lemma add_of_pico x y : 0 <= x → 0 <= y → x + y <= CEILING → add_amount (of_pico x) (of_pico y) = of_pico (x + y).
Proof.
  intros H Hx Hy. destruct (add_amount_spec (of_pico x) (of_pico y)) as [Hw Hp]; [apply of_pico_wf; lia..|].
  apply pico_inj; [done|apply of_pico_wf; lia|]. rewrite Hp, !pico_of_pico. lia.
Qed.

(** Taking a lease out of the total. *)
Lemma sub_total L k l : ledger_wf L → L !! k = Some l →
  sub_amount (of_pico (total L)) (of_pico (l_amount l)) = of_pico (total (delete k L)).
Proof.
  intros H E. destruct (lease_in_range L k l H E) as [_ Hle]. pose proof (ledger_wf_positive L H k l E).
  rewrite sub_of_pico; [|simpl in *; lia|destruct H; lia]. f_equal. rewrite (total_delete L k l E). lia.
Qed.

Lemma swept_total (h : hash) ks L : ledger_wf L → NoDup ks →
  (∀ k, k ∈ ks → ∃ l, L !! k = Some l ∧ h !! k ≫= parse_amount = Some (of_pico (l_amount l))) →
  fold_left (less h) ks (of_pico (total L)) = of_pico (total (remove_all ks L)).
Proof.
  revert L. induction ks as [|k ks IH]; intros L HL Hnd Hk; simpl; [done|].
  apply NoDup_cons in Hnd as [Hnin Hnd]. destruct (Hk k) as (l & El & Eh); [left|].
  unfold less at 2. rewrite Eh, (sub_total L k l HL El). rewrite IH; [by rewrite remove_all_delete|auto with olp|done|].
  intros k' Hk'. destruct (Hk k') as (l' & El' & Eh'); [by right|]. exists l'. split; [|done].
  rewrite lookup_delete_ne; [done|]. by intros ->.
Qed.

Lemma swept_lookup now L k l : swept now L !! k = Some l → L !! k = Some l.
Proof. unfold swept. rewrite lookup_remove_all. by case_bool_decide. Qed.

(** Every lease that has not lapsed is still held. *)
Lemma swept_live now L k l : L !! k = Some l → now < l_expires l → swept now L !! k = Some l.
Proof.
  intros E H. unfold swept. rewrite lookup_remove_all. case_bool_decide as Hin; [|done].
  apply (expired_leases_spec now) in Hin as (s & Es & Hs). rewrite lookup_fmap, E in Es. simplify_eq/=. lia.
Qed.

Lemma swept_wf now L : ledger_wf L → ledger_wf (swept now L).
Proof. apply ledger_wf_remove. Qed.

Lemma total_remove_le ks L : ledger_wf L → total (remove_all ks L) <= total L.
Proof.
  intros H. induction ks as [|k ks IH]; simpl; [lia|].
  pose proof (total_delete_le (remove_all ks L) k (ledger_wf_positive _ (ledger_wf_remove ks L H))). lia.
Qed.

Lemma total_swept_le now L : ledger_wf L → total (swept now L) <= total L.
Proof. apply total_remove_le. Qed.

#[export] Hint Resolve swept_wf ledger_wf_remove : olp.

Lemma represents_wf p L : represents p L → ledger_wf L.
Proof. by intros [H _]. Qed.

Lemma represents_cases p L : represents p L →
  (L = ∅ ∧ p = drop_pending) ∨
  (L ≠ ∅ ∧ ∃ e, p = mkPending (Holds (hash_of L) (Some e)) (Holds (l_expires <$> L) (Some e)) ∧
     map_Forall (λ _ l, l_expires l + 1000 <= e) L).
Proof. intros [_ H]. case_bool_decide; eauto. Qed.

Lemma represents_held L e : ledger_wf L → L ≠ ∅ → map_Forall (λ _ l, l_expires l + 1000 <= e) L →
  represents (mkPending (Holds (hash_of L) (Some e)) (Holds (l_expires <$> L) (Some e))) L.
Proof. intros H Hne Ha. split; [done|]. rewrite bool_decide_false by done. eauto. Qed.

Lemma represents_empty : represents drop_pending ∅.
Proof. split; [auto with olp|]. by rewrite bool_decide_true. Qed.

#[export] Hint Resolve represents_held represents_empty represents_wf : olp.

(** The keys determine the map. *)
Lemma represents_unique p L L' : represents p L → represents p L' → L = L'.
Proof.
  intros HR HR'. pose proof (represents_wf _ _ HR) as HL. pose proof (represents_wf _ _ HR') as HL'.
  destruct (represents_cases _ _ HR) as [ [-> ->] | (Hne & e & -> & He) ];
    destruct (represents_cases _ _ HR') as [ [-> E] | (Hne' & e' & E & He') ]; try done.
  injection E as Eh _ Ez _. apply map_eq. intros k.
  pose proof (f_equal (.!! k) Eh) as Ek. pose proof (f_equal (.!! k) Ez) as Ezk. simpl in Ek, Ezk. rewrite !lookup_fmap in Ezk.
  destruct (decide (k = "sum"%string)) as [->|Hk]; [by rewrite !ledger_no_sum|].
  rewrite !hash_of_lease in Ek by done.
  destruct (L !! k) as [ [a1 e1] |] eqn:E1, (L' !! k) as [ [a2 e2] |] eqn:E2; simplify_eq/=; [|done]. do 2 f_equal.
  apply format_amount_inj in Ek; [|apply (lease_in_range L k _ HL E1)|apply (lease_in_range L' k _ HL' E2)].
  apply (f_equal pico) in Ek. by rewrite !pico_of_pico in Ek.
Qed.

Lemma remove_all_hash ks L : (∀ k, k ∈ ks → k ≠ "sum"%string) →
  remove_all ks (hash_of L) = <["sum" := format_amount (of_pico (total L))]>
    ((λ l, format_amount (of_pico (l_amount l))) <$> remove_all ks L).
Proof.
  intros H. unfold hash_of. rewrite remove_all_insert, remove_all_fmap; [done|]. intros Hin. by apply (H "sum"%string).
Qed.

(** The pending total is exactly what the leases that survive the sweep hold, and what is
    stored represents them; a reading changes nothing. *)
Lemma pending_total_represents now p L : represents p L →
  let '(p', sum) := pending_total now false p in
  sum = of_pico (total (swept now L)) ∧ represents p' (swept now L) ∧ pending_total now true p = (p, sum).
Proof.
  intros HR. pose proof (represents_wf _ _ HR) as HL. destruct (represents_cases _ _ HR) as [ [-> ->] | (Hne & e & -> & He) ].
  { by vm_compute. }
  unfold pending_total. cbn [held expiries foreign orb negb andb fields_of members_of expiry_of exists_key].
  rewrite hash_of_sum, parse_format_amount by auto with olp.
  rewrite map_size_fmap, hash_of_size by done.
  assert (0 < size L)%nat by (apply Nat.neq_0_lt_0; by rewrite map_size_non_empty_iff).
  destruct (Nat.ltb_spec (size L) 1); [lia|]. rewrite Nat.add_1_r, Nat.eqb_refl. cbn [negb orb].
  set (ks := expired_leases now (l_expires <$> L)).
  destruct (expired_leases_spec now (l_expires <$> L)) as [Hnd Hin]. fold ks in Hnd, Hin.
  case_bool_decide as Ek.
  { assert (swept now L = L) as -> by (unfold swept; fold ks; by rewrite Ek). auto. }
  assert (∀ k, k ∈ ks → ∃ l, L !! k = Some l ∧ hash_of L !! k ≫= parse_amount = Some (of_pico (l_amount l))) as Hks.
  { intros k Hk. destruct (Hin k Hk) as (s & Es & _). rewrite lookup_fmap in Es.
    destruct (L !! k) as [l|] eqn:El; [|done]. exists l. split; [done|].
    rewrite hash_of_read, El; [done..|]. intros ->. by rewrite ledger_no_sum in El. }
  assert (∀ k, k ∈ ks → k ≠ "sum"%string) as Hsum.
  { intros k Hk ->. destruct (Hks _ Hk) as (l & El & _). by rewrite ledger_no_sum in El. }
  rewrite swept_total by done. change (remove_all ks L) with (swept now L).
  rewrite remove_all_hash by done. change (remove_all ks L) with (swept now L).
  rewrite insert_insert_eq, remove_all_fmap. change (remove_all ks L) with (swept now L).
  rewrite map_size_insert_None by (rewrite lookup_fmap, (ledger_no_sum (swept now L)); auto with olp).
  rewrite map_size_fmap. destruct (Nat.leb_spec (S (size (swept now L))) 1) as [Hs|Hs].
  - assert (swept now L = ∅) as -> by (apply map_size_empty_iff; lia). rewrite total_empty. auto with olp.
  - assert (swept now L ≠ ∅) as Hsne by (apply map_size_non_empty_iff; lia).
    split; [done|]. split; [|done]. unfold set_zset. rewrite bool_decide_false by (by rewrite fmap_empty_iff).
    apply represents_held; [auto with olp|done|]. intros k l Hk. apply (He k l). by eapply swept_lookup.
Qed.

(** ** Storing and removing leases *)

Lemma fmap_held_ne L : L ≠ ∅ → l_expires <$> L ≠ (∅ : zset).
Proof. intros H E. by apply fmap_empty_iff in E. Qed.

Lemma remove_lease_represents p L k l : represents p L → L !! k = Some l →
  represents (remove_lease k (format_amount (of_pico (l_amount l))) (of_pico (total L)) p) (delete k L).
Proof.
  intros HR E. pose proof (represents_wf _ _ HR) as HL.
  destruct (represents_cases _ _ HR) as [ [-> ->] | (Hne & e & -> & He) ]; [done|].
  assert (k ≠ "sum"%string) as Hk by (intros ->; by rewrite ledger_no_sum in E).
  assert (size L = S (size (delete k L))) as Hsz.
  { rewrite map_size_delete_Some by eauto. assert (size L ≠ 0)%nat by (by apply map_size_non_empty_iff). lia. }
  unfold remove_lease. cbn [held expiries fields_of members_of foreign expiry_of]. rewrite hash_of_size by done.
  destruct (Nat.leb_spec (S (size L)) 2).
  - assert (delete k L = ∅) as -> by (apply map_size_empty_iff; lia). auto with olp.
  - rewrite parse_format_amount by (by apply (lease_in_range L k l HL)). rewrite (sub_total L k l HL E).
    rewrite hash_of_delete by done. rewrite <- fmap_delete.
    assert (delete k L ≠ ∅) as Hd by (apply map_size_non_empty_iff; lia).
    unfold set_zset. rewrite bool_decide_false by (by apply fmap_held_ne).
    apply represents_held; [auto with olp|done|]. by apply map_Forall_delete.
Qed.

(** Releasing a lease removes it, and is nothing for a lease that is not there. *)
Lemma release_lease_represents p L k : represents p L → valid_lease k = true →
  let '(p', n) := release_lease k p in
  represents p' (delete k L) ∧ n = if bool_decide (is_Some (L !! k)) then 1 else 0.
Proof.
  intros HR Hv. pose proof (represents_wf _ _ HR) as HL. pose proof (valid_lease_sum k Hv) as Hk.
  unfold release_lease. destruct (represents_cases _ _ HR) as [ [-> ->] | (Hne & e & -> & He) ].
  { cbn [held drop_pending foreign fields_of]. rewrite lookup_empty, lookup_empty, delete_empty.
    rewrite bool_decide_false by (by intros [? ?]). auto with olp. }
  cbn [held foreign fields_of]. rewrite hash_of_lease by done.
  destruct (L !! k) as [l|] eqn:E; simpl fmap; cbv iota beta.
  - rewrite hash_of_sum. cbn [mbind option_bind default]. rewrite parse_format_amount by auto with olp.
    rewrite bool_decide_true by eauto. split; [|done]. by apply remove_lease_represents.
  - rewrite bool_decide_false by (by intros [? ?]). rewrite delete_id by done. auto with olp.
Qed.

Lemma total_replace L k a e : total (<[k := mkLease a e]> L) = total (delete k L) + a.
Proof. rewrite <- insert_delete_eq, total_insert by apply lookup_delete_eq. simpl. lia. Qed.

(** A settlement: the amount changes and the expiry only falls. *)
Lemma settle_lease_represents p L k l a expires : represents p L → L !! k = Some l → 0 < a →
  total (delete k L) + a < CEILING →
  represents (store_lease k (of_pico a) (of_pico (total (delete k L) + a)) expires true p)
    (<[k := mkLease a (Z.min (l_expires l) expires)]> L).
Proof.
  intros HR E Ha Ht. pose proof (represents_wf _ _ HR) as HL.
  destruct (represents_cases _ _ HR) as [ [-> ->] | (Hne & e & -> & He) ]; [done|].
  assert (k ≠ "sum"%string) as Hk by (intros ->; by rewrite ledger_no_sum in E).
  unfold store_lease. cbn [held expiries fields_of members_of expiry_of].
  rewrite <- (total_replace L k a (Z.min (l_expires l) expires)), hash_of_insert by done.
  assert (ZADD (l_expires <$> L) k expires true = l_expires <$> <[k := mkLease a (Z.min (l_expires l) expires)]> L) as ->.
  { unfold ZADD. rewrite lookup_fmap, E. simpl. rewrite fmap_insert. simpl. destruct (Z.leb_spec (l_expires l) expires).
    - rewrite Z.min_l, insert_id; [done| |lia]. by rewrite lookup_fmap, E.
    - by rewrite Z.min_r by lia. }
  apply represents_held; [|apply insert_non_empty|].
  - apply ledger_wf_insert; [done| |done|done]. by apply HL in E as [? _].
  - apply map_Forall_insert_2; [|done]. pose proof (He k l E). simpl in *. lia.
Qed.

(** A reservation: the lease is held to its expiry, and the keys outlive it. *)
Lemma store_lease_represents p L k a now ttl : represents p L → valid_lease k = true → 0 < a → 1 <= ttl →
  total (delete k L) + a < CEILING →
  represents (outlive now (now + ttl) now (store_lease k (of_pico a) (of_pico (total (delete k L) + a)) (now + ttl) false p))
    (<[k := mkLease a (now + ttl)]> L).
Proof.
  intros HR Hv Ha Httl Ht. pose proof (represents_wf _ _ HR) as HL. pose proof (valid_lease_sum k Hv) as Hk.
  rewrite <- (total_replace L k a (now + ttl)).
  assert (∀ z, ZADD z k (now + ttl) false = <[k := now + ttl]> z) as HZ by (intros z; unfold ZADD; by destruct (z !! k)).
  assert (ledger_wf (<[k := mkLease a (now + ttl)]> L)) as HL' by (by apply ledger_wf_insert).
  unfold outlive, store_lease. rewrite HZ. destruct (represents_cases _ _ HR) as [ [-> ->] | (Hne & e & -> & He) ].
  - cbn [held expiries drop_pending fields_of members_of expiry_of PTTL PEXPIRE].
    assert (<["sum" := format_amount (of_pico (total (<[k := mkLease a (now + ttl)]> ∅)))]>
        (<[k := format_amount (of_pico a)]> ∅) = hash_of (<[k := mkLease a (now + ttl)]> ∅)) as ->.
    { unfold hash_of. by rewrite fmap_insert, fmap_empty. }
    replace (<[k := now + ttl]> ∅ : zset) with (l_expires <$> (<[k := mkLease a (now + ttl)]> ∅ : ledger))
      by (by rewrite fmap_insert, fmap_empty).
    apply represents_held; [done|apply insert_non_empty|]. apply map_Forall_insert_2; [simpl; lia|apply map_Forall_empty].
  - cbn [held expiries fields_of members_of expiry_of PTTL PEXPIRE].
    rewrite hash_of_insert by done.
    replace (<[k := now + ttl]> (l_expires <$> L) : zset) with (l_expires <$> (<[k := mkLease a (now + ttl)]> L : ledger))
      by (by rewrite fmap_insert).
    apply represents_held; [done|apply insert_non_empty|].
    apply map_Forall_insert_2; [simpl; lia|]. intros k' l' E'. pose proof (He k' l' E'). simpl in *. lia.
Qed.

(** ** Time *)

(** What is left of a ledger: some of the lapsed leases may be gone. *)
Definition lapse (now : Z) (L L' : ledger) : Prop :=
  L' ⊆ L ∧ ∀ k l, L !! k = Some l → now < l_expires l → L' !! k = Some l.

Lemma lapse_refl now L : lapse now L L.
Proof. split; auto. Qed.

Lemma lapse_trans now L L' L'' : lapse now L L' → lapse now L' L'' → lapse now L L''.
Proof. intros [S1 H1] [S2 H2]. split; [by etrans|]. eauto. Qed.

Lemma lapse_swept now L : lapse now L (swept now L).
Proof.
  split; [|intros; by apply swept_live]. apply map_subseteq_spec. intros k l. apply swept_lookup.
Qed.

(** Keys that commands no longer see held only lapsed leases. *)
Lemma seen_represents now p L : represents p L → ∃ L', represents (seen now p) L' ∧ lapse now L L' ∧ total L' <= total L.
Proof.
  intros HR. destruct (represents_cases _ _ HR) as [ [-> ->] | (Hne & e & -> & He) ].
  - exists ∅. split; [apply represents_empty|]. split; [apply lapse_refl|lia].
  - unfold seen. cbn [held expiries live]. destruct (now >? e) eqn:E; bools.
    + exists ∅. split; [apply represents_empty|]. split; [split; [apply map_empty_subseteq|] |].
      * intros k l Hk ?. pose proof (He k l Hk). simpl in *. lia.
      * rewrite total_empty. apply total_nonneg. eauto with olp.
    + exists L. split; [done|]. split; [apply lapse_refl|lia].
Qed.

#[export] Hint Resolve lapse_refl lapse_swept : olp.
