(* ===== verification/CostScripts.v ===== *)
(** * The cost scripts

    [reserve_cost.lua], [settle_cost.lua] and [reconcile_cost.lua]: a reservation is judged
    against what is accrued in the day, the month and the week, the provisional exposure
    that never expires and what requests in flight hold; a settlement replaces what a
    request holds by what it cost; a reconciliation installs the totals the database
    accounts for. A script is one step on the six keys of a cost owner, at the server's
    time in microseconds. [cjson.decode] of the grants is a parameter: it gives the fields
    the script reads of each element, [None] where a field has another type. *)

From S2P Require Import Prelude Go Amount Limits CostAmount CostPending.
From Stdlib Require Import Ascii.
Local Open Scope Z_scope.
Local Open Scope olp_scope.

Record cost_keys := mkCostKeys {
  day_key : key hash; month_key : key hash; week_key : key hash; durable_key : key hash; leases : pending;
}.

Definition seen_keys (clock : Z) (v : cost_keys) : cost_keys :=
  mkCostKeys (live clock (day_key v)) (live clock (month_key v)) (live clock (week_key v)) (live clock (durable_key v))
    (seen clock (leases v)).

Definition with_leases (v : cost_keys) (p : pending) : cost_keys :=
  mkCostKeys (day_key v) (month_key v) (week_key v) (durable_key v) p.

(** ** Calendar *)

Definition DAY_MS : Z := 86400000.

Definition days_from_civil (year month day : Z) : Z :=
  let year := year - (if month <=? 2 then 1 else 0) in
  let era := year / 400 in
  let year_of_era := year - era * 400 in
  let adjusted_month := month + (if month >? 2 then -3 else 9) in
  let day_of_year := (153 * adjusted_month + 2) / 5 + day - 1 in
  let day_of_era := year_of_era * 365 + year_of_era / 4 - year_of_era / 100 + day_of_year in
  era * 146097 + day_of_era - 719468.

Definition civil_month (days : Z) : Z * Z :=
  let shifted := days + 719468 in
  let era := shifted / 146097 in
  let day_of_era := shifted - era * 146097 in
  let year_of_era := (day_of_era - day_of_era / 1460 + day_of_era / 36524 - day_of_era / 146096) / 365 in
  let year := year_of_era + era * 400 in
  let day_of_year := day_of_era - (365 * year_of_era + year_of_era / 4 - year_of_era / 100) in
  let adjusted_month := (5 * day_of_year + 2) / 153 in
  let month := adjusted_month + (if adjusted_month <? 10 then 3 else -9) in
  (year + (if month <=? 2 then 1 else 0), month).

(** The time of a script in milliseconds: the server's but for a test's override. *)
Definition current_time (override now_us : Z) : option Z :=
  if override >? 0 then Some override
  else if now_us / 1000000 >? 9007199254739 then None
  else Some (now_us / 1000000 * 1000 + now_us mod 1000000 / 1000).

(** The day, the month and what remains of each, in milliseconds. *)
Definition windows (now_ms : Z) : Z * Z * Z * Z :=
  let day := now_ms / DAY_MS in
  let '(year, month) := civil_month day in
  let month_id := year * 12 + month - 1 in
  let next_year := year + (if month =? 12 then 1 else 0) in
  let next_month := if month =? 12 then 1 else month + 1 in
  (day, month_id, (day + 1) * DAY_MS - now_ms, days_from_civil next_year next_month 1 * DAY_MS - now_ms).

Definition week_of (now_ms : Z) : Z := (now_ms / DAY_MS + 3) / 7.
Definition week_remaining (now_ms : Z) : Z := (week_of now_ms * 7 + 4) * DAY_MS - now_ms.

(** ** Reading a balance *)

Inductive balance_state := Malformed_state | Missing_state | Stale_state | Current_state.

#[export] Instance balance_state_eq_dec : EqDecision balance_state.
Proof. solve_decision. Defined.

Record balance := mkBalance { b_state : balance_state; b_spent : amount; b_ttl : Z; b_window : Z }.

(** [read_state] of the reservation; [counts] says the key also counts unpriced
    requests, as the month's does. *)
Definition read_state (k : key hash) (counts : bool) (current now_ms fallback : Z) : balance :=
  let malformed := mkBalance Malformed_state (0, 0) fallback current in
  if foreign k then malformed
  else
    let h := fields_of k in
    let values := [h !! "window"%string; h !! "accrued"%string] ++ (if counts then [h !! "unpriced"%string] else []) in
    if forallb (λ v, negb (is_some v)) values then mkBalance Missing_state (0, 0) fallback current
    else if negb (forallb is_some values) then malformed
    else
      let stored := h !! "window"%string ≫= parse_safe in
      let judge (current ttl : Z) :=
        match stored, h !! "accrued"%string ≫= parse_amount with
        | Some w, Some accrued =>
            if (w >? current) || (counts && negb (is_some (h !! "unpriced"%string ≫= parse_safe))) then malformed
            else if negb (w =? current) then mkBalance Stale_state (0, 0) fallback current
            else mkBalance Current_state accrued ttl current
        | _, _ => malformed
        end in
      match h !! "starts_at"%string, h !! "ends_at"%string with
      | None, None => judge current fallback
      | first, last =>
          match first ≫= parse_safe, last ≫= parse_safe with
          | Some first, Some last =>
              if first >=? last then malformed
              else if (now_ms <? first) || (now_ms >=? last) then mkBalance Stale_state (0, 0) fallback current
              else match stored with Some w => judge w (last - now_ms) | None => malformed end
          | _, _ => malformed
          end
      end.

(** ** Reserving *)

(** A window the request has to fit: its limit, if it has one, and its balance. *)
Record window := mkWindow { w_limit : option amount; w_balance : balance }.

Definition w_spent (w : window) : amount := b_spent (w_balance w).
Definition w_ttl (w : window) : Z := b_ttl (w_balance w).
Definition w_id (w : window) : Z := b_window (w_balance w).

(** The balance of a window without a limit is not read. *)
Definition read_window (limit : option amount) (k : key hash) (counts : bool) (current now_ms ttl : Z) : window :=
  mkWindow limit (match limit with
                  | None => mkBalance Missing_state (0, 0) ttl current
                  | Some _ => read_state k counts current now_ms ttl
                  end).

(** The fields of a grant the script reads; [None] is a value of another type. *)
Record grant := mkGrant {
  g_amount : option string; g_window_id : option Z; g_starts_at : option Z; g_expires_at : option Z; g_window : string;
}.

Record cost_args := mkCostArgs {
  c_daily : string; c_monthly : string; c_override : string; c_amount : string; c_lease : string; c_ttl : string;
  c_extra : option (string * option string); c_durable : bool;
}.

Definition PENDING_RETRY_MS : Z := 1000.

Definition cost_failure (reason : string) : answer :=
  Items [RInt 1; RInt (-1); RStr reason; RInt 0; RInt 0; RInt 0].

Definition cost_answer (status : Z) (detail : string) (retry day month : Z) : answer :=
  Items [RInt 1; RInt status; RStr detail; RInt retry; RInt day; RInt month].

(** An optional limit: absent when empty, and [None] when it is no limit. *)
Definition read_limit (raw : string) : option (option amount) :=
  if String.eqb raw "" then Some None else Some <$> parse_limit raw.

Record three := mkThree { w_day : window; w_month : window; w_week : window }.

Definition raise (w : window) (a : amount) : window :=
  match w_limit w with Some l => mkWindow (Some (add_amount l a)) (w_balance w) | None => w end.

Definition grant_ok (g : grant) : option (amount * Z * Z * Z) :=
  match g_amount g ≫= parse_limit, g_window_id g, g_starts_at g, g_expires_at g with
  | Some a, Some id, Some starts, Some expires =>
      if (expires <=? starts) || negb (Contains ["day"; "week"; "month"]%string (g_window g)) then None
      else Some (a, id, starts, expires)
  | _, _, _, _ => None
  end.

Definition apply_grant (now_ms : Z) (g : grant) (t : three) : option three :=
  match grant_ok g with
  | None => None
  | Some (a, id, starts, expires) =>
      Some (if (starts <=? now_ms) && (now_ms <? expires) then
              if String.eqb (g_window g) "day" && (id =? w_id (w_day t)) && is_some (w_limit (w_day t))
              then mkThree (raise (w_day t) a) (w_month t) (w_week t)
              else if String.eqb (g_window g) "week" && (id =? w_id (w_week t)) && is_some (w_limit (w_week t))
              then mkThree (w_day t) (w_month t) (raise (w_week t) a)
              else if String.eqb (g_window g) "month" && (id =? w_id (w_month t)) && is_some (w_limit (w_month t))
              then mkThree (w_day t) (raise (w_month t) a) (w_week t)
              else t
            else t)
  end.

Fixpoint apply_grants (now_ms : Z) (gs : list grant) (t : three) : option three :=
  match gs with
  | [] => Some t
  | g :: rest => match apply_grant now_ms g t with Some t => apply_grants now_ms rest t | None => None end
  end.

Definition spend (a : amount) (w : window) : window :=
  let b := w_balance w in
  mkWindow (w_limit w) (mkBalance (b_state b) (add_amount (b_spent b) a) (b_ttl b) (b_window b)).

(** The provisional exposure: a refusal, or the windows with it spent. *)
Definition read_durable (k : key hash) (t : three) : string + three :=
  let h := fields_of k in
  if foreign k || negb (is_some (h !! "version"%string ≫= parse_safe)) then inl "uninitialized_durable_cost_state"%string
  else
    match h !! "amount"%string ≫= parse_amount, h !! "blocked"%string with
    | Some a, Some blocked =>
        if String.eqb blocked "1" then inl "unsettled_durable_cost_state"%string
        else if String.eqb blocked "0" then inr (mkThree (spend a (w_day t)) (spend a (w_month t)) (spend a (w_week t)))
        else inl "malformed_durable_cost_state"%string
    | _, _ => inl "malformed_durable_cost_state"%string
    end.

(** The first window, in the order the script tests them, that a predicate refuses. *)
Definition first_window (refuses : window → option Z) (t : three) : option (string * Z) :=
  match refuses (w_day t) with
  | Some r => Some ("daily_cost"%string, r)
  | None =>
      match refuses (w_month t) with
      | Some r => Some ("monthly_cost"%string, r)
      | None => match refuses (w_week t) with Some r => Some ("weekly_cost"%string, r) | None => None end
      end
  end.

Definition limited (w : window) (f : amount → option Z) : option Z := match w_limit w with Some l => f l | None => None end.

(** Spent to the limit, or past it for a verification. *)
Definition exhausted (verify : bool) (held : amount) (ttl : window → Z) (w : window) : option Z :=
  limited w (λ l, if compare_amount (add_amount (w_spent w) held) l >? (if verify then 0 else -1) then Some (ttl w) else None).

Definition spent_out (verify : bool) (w : window) : option Z :=
  limited w (λ l, if compare_amount (w_spent w) l >? (if verify then 0 else -1) then Some (w_ttl w) else None).

Definition uninitialized (w : window) : option Z :=
  limited w (λ _, if bool_decide (b_state (w_balance w) = Current_state) then None else Some 0).

Definition malformed (w : window) : option Z :=
  limited w (λ _, if bool_decide (b_state (w_balance w) = Malformed_state) then Some 0 else None).

(** How long to wait before a window that cannot hold the request may admit it. *)
Definition wait_for (held amount : amount) (w : window) : option Z :=
  limited w (λ l,
    if compare_amount (add_amount (w_spent w) held) l <=? 0 then None
    else if compare_amount (add_amount (w_spent w) amount) l <=? 0 then Some (Z.min (w_ttl w) PENDING_RETRY_MS)
    else Some (w_ttl w)).

(** The longest wait, under the window that sets it. *)
Definition longest_wait (held amount : amount) (t : three) : option (string * Z) :=
  let step (name : string) (w : window) (best : option (string * Z)) :=
    match wait_for held amount w with
    | None => best
    | Some wait =>
        match best with
        | None => Some (name, wait)
        | Some (_, retry) => if wait >? retry then Some (name, wait) else best
        end
    end in
  step "weekly_cost"%string (w_week t) (step "monthly_cost"%string (w_month t) (step "daily_cost"%string (w_day t) None)).

(** A balance that is kept stays until its window ends. *)
Definition keep_balance (clock : Z) (w : window) (k : key hash) : key hash :=
  if is_some (w_limit w) && (PTTL clock k <? 1) then PEXPIRE clock (w_ttl w) k else k.

Section Reserve.
Context (decode : string → option (list grant)).

(** What the arguments read as: the limits, the mode, the amount and the lease's life. *)
Record cost_plan := mkPlan {
  p_daily : option amount; p_monthly : option amount; p_weekly : option amount; p_override : Z;
  p_verify : bool; p_read_only : bool; p_amount : amount; p_ttl : Z;
}.

Definition priced (p : cost_plan) : bool := ((p_amount p).1 >? 0) || ((p_amount p).2 >? 0).

Definition read_cost_args (a : cost_args) : option cost_plan :=
  let weekly := match c_extra a with Some (w, _) => w | None => ""%string end in
  let verify := String.eqb (c_amount a) "verify" in
  let read_only := String.eqb (c_amount a) "check" || verify in
  match (if read_only then Some (0, 0) else parse_amount (c_amount a)), parse_safe (c_override a), parse_safe (c_ttl a),
        read_limit (c_daily a), read_limit (c_monthly a), read_limit weekly with
  | Some amount, Some override, Some ttl, Some daily, Some monthly, Some weekly =>
      let p := mkPlan daily monthly weekly override verify read_only amount ttl in
      if (is_some (c_extra a) || negb (c_durable a)) && negb (priced p && ((ttl <? 1) || negb (valid_lease (c_lease a))))
      then Some p else None
  | _, _, _, _, _, _ => None
  end.

(** The balances of the three windows. *)
Definition read_windows (p : cost_plan) (now_ms : Z) (v : cost_keys) : three :=
  let '(day, month, day_ttl, month_ttl) := windows now_ms in
  mkThree (read_window (p_daily p) (day_key v) false day now_ms day_ttl)
    (read_window (p_monthly p) (month_key v) true month now_ms month_ttl)
    (read_window (p_weekly p) (week_key v) false (week_of now_ms) now_ms (week_remaining now_ms)).

(** The limits as the grants in force raise them; [None] refuses the arguments. *)
Definition grant_windows (a : cost_args) (now_ms : Z) (t : three) : option three :=
  match c_extra a with
  | Some (_, Some raw) =>
      if String.eqb raw "" then Some t
      else match decode raw with
      | Some gs => if Nat.ltb 24 (length gs) then None else apply_grants now_ms gs t
      | None => None
      end
  | _ => Some t
  end.

(** The lease the arguments name, as it stands after the sweep: a refusal, a repeated
    delivery that is already covered, or the state and the total without it. *)
Definition without_lease (p : cost_plan) (lease : string) (now_ms : Z) (q : pending) (held_sum : amount) :
    option (option (pending * amount)) :=
  match members_of (expiries q) !! lease with
  | None => Some (Some (q, held_sum))
  | Some recorded =>
      match fields_of (held q) !! lease ≫= parse_amount with
      | None => None
      | Some prior =>
          if recorded >? now_ms then
            if compare_amount (p_amount p) prior <=? 0 then Some None else Some (Some (q, sub_amount held_sum prior))
          else Some (Some ((release_lease lease q).1, sub_amount held_sum prior))
      end
  end.

Definition grant_request (p : cost_plan) (clock : Z) (t : three) (v : cost_keys) (q : pending) : cost_keys :=
  mkCostKeys (keep_balance clock (w_day t) (day_key v)) (keep_balance clock (w_month t) (month_key v))
    (keep_balance clock (w_week t) (week_key v)) (durable_key v) q.

(** The decision on balances that are initialised, spent below their limits. *)
Definition decide_pending (a : cost_args) (p : cost_plan) (clock now_ms : Z) (t : three) (v : cost_keys) : cost_keys * answer :=
  let reply status detail retry := cost_answer status detail retry (w_id (w_day t)) (w_id (w_month t)) in
  if p_read_only p then
    let held_sum := (pending_total now_ms true (leases v)).2 in
    (v, match first_window (exhausted (p_verify p) held_sum (λ w, Z.min (w_ttl w) PENDING_RETRY_MS)) t with
        | Some (detail, retry) => reply 0 detail retry
        | None => reply 1 "ok"%string 0
        end)
  else if negb (priced p) then (grant_request p clock t v (leases v), reply 1 "ok"%string 0)
  else
    let '(q, held_sum) := pending_total now_ms false (leases v) in
    match without_lease p (c_lease a) now_ms q held_sum with
    | None => (with_leases v q, cost_failure "invalid_pending_amount")
    | Some None => (with_leases v q, reply 1 "ok"%string 0)
    | Some (Some (q, others)) =>
        let held_sum := add_amount others (p_amount p) in
        match longest_wait held_sum (p_amount p) t with
        | Some (detail, retry) => (with_leases v q, reply 0 (detail +:+ "_estimate")%string retry)
        | None =>
            let expires_ms := now_ms + p_ttl p in
            let q := outlive clock expires_ms now_ms (store_lease (c_lease a) (p_amount p) held_sum expires_ms false q) in
            (grant_request p clock t v q, reply 1 "ok"%string 0)
        end
    end.

(** [reserve_cost.lua] *)
Definition reserve_cost (a : cost_args) (now_us : Z) (v0 : cost_keys) : cost_keys * answer :=
  let clock := now_us / 1000 in
  let v := seen_keys clock v0 in
  match read_cost_args a with
  | None => (v, cost_failure "invalid_arguments")
  | Some p =>
      match current_time (p_override p) now_us with
      | None => (v, cost_failure "invalid_server_time")
      | Some now_ms =>
          let '(_, month, day_ttl, month_ttl) := windows now_ms in
          if (day_ttl <? 1) || (month_ttl <? 1) then (v, cost_failure "invalid_server_time")
          else
            let t := read_windows p now_ms v in
            let reply status detail retry := cost_answer status detail retry (w_id (w_day t)) (w_id (w_month t)) in
            match first_window malformed t with
            | Some (detail, _) =>
                (* the month has not been read where the day is malformed *)
                let month := if is_some (malformed (w_day t)) then month else w_id (w_month t) in
                (v, cost_answer (-1) ("malformed_" +:+ detail +:+ "_state")%string 0 (w_id (w_day t)) month)
            | None =>
                match grant_windows a now_ms t with
                | None => (v, cost_failure "invalid_arguments")
                | Some t =>
                    match (if c_durable a then read_durable (durable_key v) t else inr t) with
                    | inl detail => (v, reply (-1) detail 0)
                    | inr t =>
                        match first_window (spent_out (p_verify p)) t, first_window uninitialized t with
                        | Some (detail, retry), _ => (v, reply 0 detail retry)
                        | None, Some (detail, _) => (v, reply (-1) ("uninitialized_" +:+ detail +:+ "_state")%string 0)
                        | None, None => decide_pending a p clock now_ms t v
                        end
                    end
                end
            end
      end
  end.
End Reserve.

(** ** Settling *)

Definition settle_answer (settled : Z) : answer := Items [RInt 1; RInt 1; RStr "ok"; RInt settled; RInt 0].
Definition settle_failure (reason : string) : answer := Items [RInt 1; RInt (-1); RStr reason; RInt 0; RInt 0].

(** [settle_cost.lua] *)
Definition settle_cost (lease_id amount_text ttl_text : string) (now_us : Z) (p0 : pending) : pending * answer :=
  let p := seen (now_us / 1000) p0 in
  match parse_amount amount_text, parse_safe ttl_text with
  | Some amount, Some ttl =>
      let release := (amount.1 =? 0) && (amount.2 =? 0) in
      if negb (valid_lease lease_id) || (negb release && (ttl <? 1)) then (p, settle_failure "invalid_arguments")
      else match current_time 0 now_us with
      | None => (p, settle_failure "invalid_server_time")
      | Some now_ms =>
          let '(p, sum) := pending_total now_ms false p in
          match fields_of (held p) !! lease_id with
          | None => (p, settle_answer 0)
          | Some text =>
              if opt_test (members_of (expiries p) !! lease_id) (λ expiry, expiry <=? now_ms)
              then (remove_lease lease_id text sum p, settle_answer 0)
              else if release then (remove_lease lease_id text sum p, settle_answer 1)
              else
                let sum := match parse_amount text with Some a => sub_amount sum a | None => sum end in
                (store_lease lease_id amount (add_amount sum amount) (now_ms + ttl) true p, settle_answer 1)
          end
      end
  | _, _ => (p, settle_failure "invalid_arguments")
  end.

(** ** Reconciling *)

Record reconcile_args := mkReconcileArgs {
  r_day : string; r_daily : string; r_month : string; r_monthly : string; r_unpriced : string; r_override : string;
  r_request : string; r_week : option (string * string); r_bounds : option (string * string * (string * string) * (string * string));
  r_durable : option (string * string * string);
}.

(** The state of a balance: as the reservation reads it, with the accrued total as text
    and the count of unpriced requests. *)
Definition read_accrued (k : key hash) (counts : bool) (current : Z) : balance_state * string * Z :=
  if foreign k then (Malformed_state, "0"%string, 0)
  else
    let h := fields_of k in
    let values := [h !! "window"%string; h !! "accrued"%string] ++ (if counts then [h !! "unpriced"%string] else []) in
    if forallb (λ v, negb (is_some v)) values then (Missing_state, "0"%string, 0)
    else
      match h !! "window"%string ≫= parse_safe, h !! "accrued"%string ≫= normalize_decimal,
            (if counts then h !! "unpriced"%string ≫= parse_safe else Some 0) with
      | Some w, Some accrued, Some unpriced =>
          if w >? current then (Malformed_state, "0"%string, 0)
          else if negb (w =? current) then (Stale_state, "0"%string, 0)
          else (Current_state, accrued, unpriced)
      | _, _, _ => (Malformed_state, "0"%string, 0)
      end.

(** The window a snapshot is for: its identifier, what remains of it, whether it may be
    installed, and the boundaries to record. *)
Record interval_of := mkInterval { i_window : Z; i_ttl : Z; i_active : bool; i_bounds : option (Z * Z) }.

Definition interval (k : key hash) (bounds : option (string * string)) (snapshot : option Z) (fallback ttl now_ms : Z) :
    option interval_of :=
  match bounds with
  | None => Some (mkInterval fallback ttl (foreign k || negb (is_some (fields_of k !! "starts_at"%string))) None)
  | Some (first, last) =>
      match parse_safe first, parse_safe last, snapshot with
      | Some first, Some last, Some snapshot =>
          if first >=? last then None
          else
            let h := fields_of k in
            let conflict :=
              match h !! "starts_at"%string ≫= parse_safe, h !! "ends_at"%string ≫= parse_safe with
              | Some f, Some l =>
                  (f <=? now_ms) && (now_ms <? l) &&
                  (negb (f =? first) || negb (l =? last) ||
                   negb (bool_decide (h !! "window"%string ≫= parse_safe = Some snapshot)))
              | _, _ => false
              end in
            Some (mkInterval snapshot (last - now_ms) ((first <=? now_ms) && (now_ms <? last) && negb conflict) (Some (first, last)))
      | _, _, _ => None
      end
  end.

Definition below (left right : string) : bool :=
  match compare_decimal left right with Some c => c <? 0 | None => false end.

(** Installing an accrued total: a balance of another window is replaced, and that of
    this window only rises. *)
Definition install (clock : Z) (i : interval_of) (accrued : string) (unpriced : option Z) (k : key hash) : key hash :=
  let '(state, stored, count) := read_accrued k (is_some unpriced) (i_window i) in
  let h :=
    if bool_decide (state = Current_state) then
      let h := fields_of k in
      let h := if below stored accrued then <["accrued" := accrued]> h else h in
      match unpriced with Some n => if count <? n then <["unpriced" := decimal_text n]> h else h | None => h end
    else
      let h : hash := <["window" := decimal_text (i_window i)]> {["accrued" := accrued]} in
      match unpriced with Some n => <["unpriced" := decimal_text n]> h | None => h end in
  let h := match i_bounds i with
           | Some (first, last) => <["starts_at" := decimal_text first]> (<["ends_at" := decimal_text last]> h)
           | None => h
           end in
  Holds h (Some (clock + i_ttl i)).

(** Whether a projection of the provisional exposure may replace the one held. *)
Definition durable_ok (k : key hash) (version : Z) (amount blocked : string) : bool :=
  negb (foreign k) &&
  match fields_of k !! "version"%string with
  | None => true
  | Some held =>
      match parse_safe held with
      | None => false
      | Some held =>
          (held <=? version) &&
          (negb (held =? version) ||
           bool_decide (fields_of k !! "amount"%string = Some amount) && bool_decide (fields_of k !! "blocked"%string = Some blocked))
      end
  end.

Definition reconcile_failure (reason : string) : answer := Items [RInt 1; RInt (-1); RStr reason; RInt 0; RInt 0].

(** What a reconciliation's arguments read as. *)
Record snapshot_plan := mkSnapshot {
  n_day : Z; n_daily : string; n_month : Z; n_monthly : string; n_unpriced : Z; n_override : Z;
  n_week : option Z; n_weekly : option string; n_durable : option (string * string * string);
}.

Definition read_snapshot (a : reconcile_args) (v : cost_keys) : option snapshot_plan :=
  let '(week, weekly) := default ("0"%string, ""%string) (r_week a) in
  let shape := (is_some (r_week a) || negb (is_some (r_bounds a))) && (is_some (r_bounds a) || negb (is_some (r_durable a))) in
  let durable :=
    match r_durable a with
    | None => Some None
    | Some (version, amount, blocked) =>
        match parse_safe version, normalize_decimal amount with
        | Some n, Some amount =>
            if (String.eqb blocked "0" || String.eqb blocked "1") && durable_ok (durable_key v) n amount blocked
            then Some (Some (version, amount, blocked)) else None
        | _, _ => None
        end
    end in
  let weekly_accrued :=
    if String.eqb weekly "" then Some None
    else match parse_safe week, normalize_decimal weekly with Some _, Some w => Some (Some w) | _, _ => None end in
  match durable, weekly_accrued, parse_safe (r_day a), normalize_decimal (r_daily a), parse_safe (r_month a),
        normalize_decimal (r_monthly a), parse_safe (r_unpriced a), parse_safe (r_override a) with
  | Some durable, Some weekly, Some day, Some daily, Some month, Some monthly, Some unpriced, Some override =>
      if shape && (String.eqb (r_request a) "" || valid_lease (r_request a))
      then Some (mkSnapshot day daily month monthly unpriced override (parse_safe week) weekly durable) else None
  | _, _, _, _, _, _, _, _ => None
  end.

Definition reconcile_cost (a : reconcile_args) (now_us : Z) (v0 : cost_keys) : cost_keys * answer :=
  let clock := now_us / 1000 in
  let v := seen_keys clock v0 in
  match read_snapshot a v with
  | None => (v, reconcile_failure "invalid_arguments")
  | Some s =>
      match current_time (n_override s) now_us with
      | None => (v, reconcile_failure "invalid_server_time")
      | Some now_ms =>
          let '(day, month, day_ttl, month_ttl) := windows now_ms in
          if (day_ttl <? 1) || (month_ttl <? 1) then (v, reconcile_failure "invalid_server_time")
          else
            let '(db, mb, wb) :=
              match r_bounds a with Some (d, m, w) => (Some d, Some m, Some w) | None => (None, None, None) end in
            match interval (day_key v) db (Some (n_day s)) day day_ttl now_ms,
                  interval (month_key v) mb (Some (n_month s)) month month_ttl now_ms,
                  (if is_some (r_week a)
                   then interval (week_key v) wb (n_week s) (week_of now_ms) (week_remaining now_ms) now_ms
                   else Some (mkInterval (week_of now_ms) 0 false None)) with
            | Some di, Some mi, Some wi =>
                let daily := i_active di && (n_day s =? i_window di) in
                let monthly := i_active mi && (n_month s =? i_window mi) in
                let weekly := i_active wi && bool_decide (n_week s = Some (i_window wi)) in
                let v' := mkCostKeys
                  (if daily then install clock di (n_daily s) None (day_key v) else day_key v)
                  (if monthly then install clock mi (n_monthly s) (Some (n_unpriced s)) (month_key v) else month_key v)
                  (match n_weekly s with
                   | Some accrued => if weekly then install clock wi accrued None (week_key v) else week_key v
                   | None => week_key v
                   end)
                  (match n_durable s with
                   | Some (version, amount, blocked) =>
                       Holds (<["version" := version]> (<["amount" := amount]> (<["blocked" := blocked]>
                         (fields_of (durable_key v))))) None
                   | None => durable_key v
                   end)
                  (if String.eqb (r_request a) "" then leases v else (release_lease (r_request a) (leases v)).1) in
                (v', Items [RInt 1; RInt 1; RStr "ok"; RInt (if daily then 1 else 0); RInt (if monthly then 1 else 0)])
            | _, _, _ => (v, reconcile_failure "invalid_arguments")
            end
      end
  end.
