(* ===== verification/CostFacts.v ===== *)
(** * The cost scripts are correct

    What the scripts of [CostScripts] do to what requests in flight hold and to accrued
    totals: the windows they name are those of the budget calendar, a reservation is
    granted exactly when it fits beside what is spent and held, no lease in force is
    lost, a settlement replaces what a lease holds and never extends it, and an accrued
    total never falls within its window. *)

From S2P Require Import Prelude Go Amount Limits Civil Calendar CostAmount CostPending CostScripts.
From Stdlib Require Import Ascii.
Local Open Scope Z_scope.
Local Open Scope olp_scope.

(** ** Calendar *)

Lemma days_from_civil_spec y m d : days_from_civil y m d = month_first y m + d - 1.
Proof.
  unfold days_from_civil, month_first, days_before, month_start, epoch_shift.
  destruct (Z.leb_spec m 2), (Z.gtb_spec m 2); try lia; cbv zeta; div_lia.
Qed.

Lemma days_before_era e y : days_before (e * 400 + y) = e * 146097 + (365 * y + y / 4 - y / 100 + y / 400).
Proof. unfold days_before. div_lia. Qed.

Lemma year_of_era_spec doe : 0 <= doe < 146097 →
  let yoe := (doe - doe / 1460 + doe / 36524 - doe / 146096) / 365 in
  0 <= yoe < 400 ∧ 365 * yoe + yoe / 4 - yoe / 100 <= doe < 365 * (yoe + 1) + (yoe + 1) / 4 - (yoe + 1) / 100 + (yoe + 1) / 400.
Proof. intros H. cbv zeta. split; div_lia. Qed.

Lemma civil_month_spec days : civil_month days = (civil days).1.
Proof.
  unfold civil_month, civil. change 719468 with epoch_shift.
  set (z := days + epoch_shift). set (e := z / 146097). set (doe := z - e * 146097).
  assert (0 <= doe < 146097) as Hd by (unfold doe, e; div_lia).
  destruct (year_of_era_spec doe Hd) as [H1 H2]. cbv zeta in H2.
  set (yoe := (doe - doe / 1460 + doe / 36524 - doe / 146096) / 365) in *.
  assert (year_of z = e * 400 + yoe) as ->.
  { apply year_of_unique. rewrite <- Z.add_assoc, !days_before_era.
    assert (z = e * 146097 + doe) by (unfold doe; lia). assert (yoe / 400 = 0) by (apply Z.div_small; lia). lia. }
  assert (z - days_before (e * 400 + yoe) = doe - (365 * yoe + yoe / 4 - yoe / 100)) as ->.
  { rewrite days_before_era. unfold doe. assert (yoe / 400 = 0) as -> by (apply Z.div_small; lia). lia. }
  fold (month_of (doe - (365 * yoe + yoe / 4 - yoe / 100))). set (mp := month_of _). cbv zeta.
  assert (0 <= mp <= 11) as Hmp.
  { apply month_of_spec. assert (365 * (yoe + 1) + (yoe + 1) / 4 - (yoe + 1) / 100 + (yoe + 1) / 400 <=
      365 * yoe + yoe / 4 - yoe / 100 + 366) by div_lia. lia. }
  destruct (Z.ltb_spec mp 10); cbn [fst]; destruct (Z.leb_spec (mp + 3) 2), (Z.leb_spec (mp + -9) 2); try lia; f_equal; lia.
Qed.

(** The day, the month and the time to the first of the next. *)
Lemma windows_spec now_ms : let day := now_ms / DAY_MS in let month := month_of_day day in
  windows now_ms = (day, month, (day + 1) * DAY_MS - now_ms, first_of (month + 1) * DAY_MS - now_ms).
Proof.
  cbv zeta. unfold windows. set (day := now_ms / DAY_MS). unfold month_of_day. rewrite civil_month_spec.
  pose proof (civil_spec day) as S. destruct (civil day) as [ [y m] d]. destruct S as (Hm & _). cbn [fst month_index].
  rewrite days_from_civil_spec, Z.add_simpl_r, (Z.mul_comm y). do 2 f_equal. f_equal.
  destruct (Z.eqb_spec m 12) as [->|].
  - replace (12 * y + 12 - 1 + 1) with (12 * (y + 1) + 1 - 1) by lia. by rewrite first_of_month by lia.
  - replace (12 * y + m - 1 + 1) with (12 * (y + 0) + (m + 1) - 1) by lia. by rewrite first_of_month by lia.
Qed.

Lemma windows_bounds now_ms : let '(day, month, day_ttl, month_ttl) := windows now_ms in
  day = now_ms / DAY_MS ∧ month = month_of_day day ∧ 1 <= day_ttl <= DAY_MS ∧ 1 <= month_ttl <= 31 * DAY_MS.
Proof.
  rewrite windows_spec. pose proof (month_of_day_spec (now_ms / DAY_MS)). pose proof (first_of_step (month_of_day (now_ms / DAY_MS))).
  assert (now_ms / DAY_MS * DAY_MS <= now_ms < (now_ms / DAY_MS + 1) * DAY_MS) by (unfold DAY_MS; div_lia).
  unfold DAY_MS in *. lia.
Qed.

Lemma week_bounds now_ms : 1 <= week_remaining now_ms <= 7 * DAY_MS.
Proof. unfold week_remaining, week_of, DAY_MS. div_lia. Qed.

Definition UnixMilli (t : Time) : Z := t / Millisecond - unixToInternal * 1000.

(** [time.UnixMicro] *)
Definition UnixMicro (us : Z) : Time := us * 1000 + unixToInternal * Second.

Lemma UnixMicro_Unix us : Unix (UnixMicro us) = us / 1000000.
Proof. unfold Unix, UnixMicro, Second, Millisecond, unixToInternal. div_lia. Qed.

Lemma UnixMilli_midnight day : UnixMilli (midnight day) = day * DAY_MS.
Proof. unfold UnixMilli, midnight, at_second, DAY_MS, Second, Millisecond, unixToInternal. div_lia. Qed.

Lemma current_time_spec now_us now_ms : current_time 0 now_us = Some now_ms →
  now_ms = now_us / 1000 ∧ now_ms / DAY_MS = now_us / 1000000 / 86400.
Proof.
  unfold current_time. rewrite Z.gtb_ltb. change (0 <? 0) with false. cbv iota. intros H. case_in H; [done|].
  injection H as <-. unfold DAY_MS. split; [div_lia|]. rewrite Z.div_div by lia.
  replace (now_us / 1000000 * 1000 + now_us mod 1000000 / 1000) with (now_us / 1000) by div_lia.
  by rewrite !Z.div_div by lia.
Qed.

(** The server's scripts and the gateway measure budgets over the same windows: at any
    server time the day, month and week the scripts name are the identifiers
    [BudgetWindows] computes with the calendar of package [time], and the time they say
    remains of each ends exactly at the instant [BudgetWindows] gives. *)
Theorem script_windows_calendar now_us now_ms : 0 <= now_us → current_time 0 now_us = Some now_ms →
  let w := BudgetWindows (UnixMicro now_us) in
  let '(day, month, day_ttl, month_ttl) := windows now_ms in
  day = DailyID w ∧ month = MonthlyID w ∧ week_of now_ms = WeeklyID w ∧
  now_ms + day_ttl = UnixMilli (DailyEnd w) ∧ now_ms + month_ttl = UnixMilli (MonthlyEnd w) ∧
  now_ms + week_remaining now_ms = UnixMilli (WeeklyEnd w).
Proof.
  intros H0 Hc w. destruct (current_time_spec _ _ Hc) as [-> Hday]. rewrite windows_spec. cbv zeta.
  rewrite Hday. set (n := now_us / 1000000 / 86400) in *.
  pose proof (Windows_at_days (mkCalendar "" None) (UnixMicro now_us)) as E. cbn [location day_in] in E. cbv zeta in E.
  unfold w, BudgetWindows. cbn [day_in]. rewrite UnixMicro_Unix in E |- *. fold n in E |- *. rewrite E.
  assert (Em : month_of_day n = month_index (civil n)) by done.
  pose proof (civil_Date n) as D. destruct (civil n) as [ [y m] d]. cbn in Em. rewrite D, AddDate_days.
  rewrite (Date_first y m 1). replace (1 - 1) with 0 by lia. rewrite Z.add_0_r, AddDate_month.
  cbn [DailyEnd WeeklyEnd MonthlyEnd DailyID WeeklyID MonthlyID Start End_ Week].
  unfold boundary, boundary_second. change (at_second (?d * 86400)) with (midnight d).
  fold (midnight (monday_of n)) (midnight (monday_of n + 7)).
  rewrite !UnixMilli_midnight. unfold midnight. rewrite !Unix_at_second, !Z.quot_mul by lia.
  pose proof (monday_spec n) as (M & W). unfold Weekday in W.
  assert (0 <= n) by (apply Z.div_pos; [apply Z.div_pos; lia|lia]).
  assert (week_of (now_us / 1000) * 7 = monday_of n + 3) as Hw by (unfold week_of; rewrite Hday; div_lia).
  split; [done|]. split; [lia|]. split; [rewrite Z.quot_div_nonneg; div_lia|].
  split; [lia|]. split; [rewrite Em; lia|]. unfold week_remaining. lia.
Qed.

(** Noon of 31 March 2024, UTC. *)
Lemma script_windows_calendar_witness :
  current_time 0 1711886400000000 = Some 1711886400000 ∧
  let w := BudgetWindows (UnixMicro 1711886400000000) in
  windows 1711886400000 = (19813, 24290, 43200000, 43200000) ∧ week_of 1711886400000 = WeeklyID w ∧
  19813 = DailyID w ∧ 1711886400000 + 43200000 = UnixMilli (MonthlyEnd w).
Proof.
  assert (current_time 0 1711886400000000 = Some 1711886400000) as H by (vm_compute; reflexivity).
  split; [exact H|].
  pose proof (script_windows_calendar 1711886400000000 1711886400000 ltac:(lia) H) as W. cbv zeta in W |- *.
  assert (windows 1711886400000 = (19813, 24290, 43200000, 43200000)) as E by (vm_compute; reflexivity).
  rewrite E in W. destruct W as (W1 & _ & W3 & _ & W5 & _). split; [exact E|]. split; [exact W3|]. split; [exact W1|exact W5].
Defined.

(** ** Windows and limits *)

Definition each (P : window → Prop) (t : three) : Prop := P (w_day t) ∧ P (w_month t) ∧ P (w_week t).

(** Well formed, with a limit below [n] times 10^12 whole units. *)
Definition window_ok (n : nat) (w : window) : Prop :=
  amount_wf (w_spent w) ∧ ∀ l, w_limit w = Some l → amount_wf l ∧ 0 < pico l < Z.of_nat n * (UNIT * UNIT).

Lemma parse_limit_spec raw a : parse_limit raw = Some a → amount_wf a ∧ 0 < pico a < UNIT * UNIT.
Proof.
  unfold parse_limit. destruct (parse_amount raw) as [ [hi lo] |] eqn:E; [|done]. intros H. case_in H; [done|].
  injection H as <-. apply parse_amount_wf in E. split; [done|]. apply orb_false_iff in E0 as [H1 H2]. bools.
  destruct E as (? & ? & _). unfold pico; cbn [fst snd] in *. apply andb_false_iff in H2 as [H2|H2]; bools; unfold UNIT in *; lia.
Qed.

Lemma read_state_wf k counts current now fallback : amount_wf (b_spent (read_state k counts current now fallback)).
Proof.
  assert (∀ b ttl w, amount_wf (b_spent (mkBalance b (0, 0) ttl w))) as H0 by (intros; apply amount_wf_zero).
  unfold read_state. repeat case_match; try done; simplify_eq/=; try apply amount_wf_zero.
  all: match goal with H : _ ≫= parse_amount = Some _ |- _ =>
    apply bind_Some in H as (? & _ & H); by apply parse_amount_wf in H end.
Qed.

Lemma read_window_ok limit k counts current now ttl :
  (∀ l, limit = Some l → amount_wf l ∧ 0 < pico l < UNIT * UNIT) → window_ok 1 (read_window limit k counts current now ttl).
Proof.
  intros H. split.
  - unfold w_spent, read_window; cbn [w_balance]. destruct limit; [apply read_state_wf|apply amount_wf_zero].
  - intros l E. cbn [read_window w_limit] in E. destruct (H l E). split; [done|]. lia.
Qed.

Lemma read_limit_ok raw limit l : read_limit raw = Some limit → limit = Some l → amount_wf l ∧ 0 < pico l < UNIT * UNIT.
Proof.
  unfold read_limit. intros H ->. case_in H; [done|]. apply fmap_Some in H as (a & Ha & [= ->]).
  by apply parse_limit_spec in Ha.
Qed.

Lemma raise_ok n w a : window_ok n w → amount_wf a → 0 < pico a < UNIT * UNIT → window_ok (S n) (raise w a).
Proof.
  intros [Hs Hl] Ha Hb. unfold raise. destruct (w_limit w) as [l|] eqn:E.
  - split; [done|]. cbn [w_limit]. intros l' [= <-]. destruct (Hl l eq_refl) as [Hw Hp].
    destruct (add_amount_spec l a Hw Ha) as [H1 H2]. split; [done|]. rewrite H2. unfold CEILING, HUGE, UNIT in *. lia.
  - split; [done|]. intros l' El. congruence.
Qed.

Lemma window_ok_mono n m w : (n ≤ m)%nat → window_ok n w → window_ok m w.
Proof. intros H [Hs Hl]. split; [done|]. intros l E. destruct (Hl l E). split; [done|]. unfold UNIT in *. lia. Qed.

Lemma apply_grant_ok now g n t t' : each (window_ok n) t → apply_grant now g t = Some t' → each (window_ok (S n)) t'.
Proof.
  intros (H1 & H2 & H3) H. unfold apply_grant in H. destruct (grant_ok g) as [ [ [ [a id] starts] expires] |] eqn:E; [|done].
  assert (amount_wf a ∧ 0 < pico a < UNIT * UNIT) as [Ha Hb].
  { unfold grant_ok in E. destruct (g_amount g ≫= parse_limit) as [a'|] eqn:Ea; [|done].
    apply bind_Some in Ea as (raw & _ & Ea). apply parse_limit_spec in Ea. repeat case_match; by simplify_eq. }
  assert (∀ w, window_ok n w → window_ok (S n) w) as Hm by (intros w; apply window_ok_mono; lia).
  injection H as <-. repeat case_match; (split; [|split]); cbn [w_day w_month w_week]; auto using raise_ok.
Qed.

Lemma apply_grants_ok now gs n t t' : each (window_ok n) t → apply_grants now gs t = Some t' → each (window_ok (length gs + n)) t'.
Proof.
  revert n t. induction gs as [|g gs IH]; intros n t Ht H; simpl in H |- *; [by simplify_eq|].
  destruct (apply_grant now g t) as [t1|] eqn:E; [|done]. rewrite <- Nat.add_succ_r. eapply IH; [|exact H].
  by eapply apply_grant_ok.
Qed.

Lemma spend_ok a n w : amount_wf a → window_ok n w → window_ok n (spend a w).
Proof.
  intros Ha [Hs Hl]. split; [|done]. unfold w_spent, spend; cbn [w_balance b_spent]. by apply add_amount_spec.
Qed.

(** The windows a request is judged by: balances and limits as read, raised by grants and
    charged with the provisional exposure. *)
Definition judged (decode : string → option (list grant)) (a : cost_args) (p : cost_plan) (now_ms : Z) (v : cost_keys) : option three :=
  match grant_windows decode a now_ms (read_windows p now_ms v) with
  | Some t => if c_durable a then match read_durable (durable_key v) t with inr t => Some t | inl _ => None end else Some t
  | None => None
  end.

Lemma read_cost_args_spec a p : read_cost_args a = Some p →
  amount_wf (p_amount p) ∧ (priced p = true → 1 <= p_ttl p ∧ valid_lease (c_lease a) = true ∧ 0 < pico (p_amount p)) ∧
  (∀ l, p_daily p = Some l → amount_wf l ∧ 0 < pico l < UNIT * UNIT) ∧
  (∀ l, p_monthly p = Some l → amount_wf l ∧ 0 < pico l < UNIT * UNIT) ∧
  (∀ l, p_weekly p = Some l → amount_wf l ∧ 0 < pico l < UNIT * UNIT) ∧ 0 <= p_override p.
Proof.
  unfold read_cost_args. intros H.
  set (ro := (String.eqb (c_amount a) "check" || String.eqb (c_amount a) "verify")) in H.
  destruct (if ro then Some (0, 0) else parse_amount (c_amount a)) as [am|] eqn:Ea; [|done].
  destruct (parse_safe (c_override a)) as [ov|] eqn:Eo; [|done]. destruct (parse_safe (c_ttl a)) as [ttl|] eqn:Et; [|done].
  destruct (read_limit (c_daily a)) as [d|] eqn:Ed; [|done]. destruct (read_limit (c_monthly a)) as [m|] eqn:Em; [|done].
  destruct (read_limit (match c_extra a with Some (w, _) => w | None => "" end)) as [w|] eqn:Ew; [|done].
  cbv zeta in H. destruct (_ && _) eqn:Eb in H; [|done]. injection H as <-. cbn [p_amount p_ttl p_daily p_monthly p_weekly p_override].
  assert (amount_wf am) as Hw.
  { destruct ro; [injection Ea as <-; apply amount_wf_zero|by apply parse_amount_wf in Ea]. }
  split; [done|]. split.
  { intros Hp. rewrite Hp in Eb. split_bools. cbn [andb] in *. bools. split; [lia|]. split; [done|].
    unfold priced in Hp; cbn [p_amount] in Hp. destruct am as [hi lo]. destruct Hw as (? & ? & _).
    unfold pico; cbn [fst snd] in *. apply orb_true_iff in Hp as [Hp|Hp]; bools; unfold UNIT in *; lia. }
  split; [exact (λ l, read_limit_ok _ _ l Ed)|]. split; [exact (λ l, read_limit_ok _ _ l Em)|].
  split; [exact (λ l, read_limit_ok _ _ l Ew)|].
  unfold parse_safe in Eo. case_in Eo; [|done]. injection Eo as <-. bools. pose proof (dec_value_bound (c_override a) ltac:(assumption)). lia.
Qed.

Lemma judged_ok decode a p now v t : read_cost_args a = Some p → judged decode a p now v = Some t → each (window_ok 25) t.
Proof.
  intros Hp Hj. apply read_cost_args_spec in Hp as (_ & _ & Hd & Hm & Hw & _).
  assert (each (window_ok 1) (read_windows p now v)) as H0.
  { unfold read_windows. destruct (windows now) as [ [ [? ?] ?] ?].
    split; [|split]; cbn [w_day w_month w_week]; by apply read_window_ok. }
  unfold judged in Hj. destruct (grant_windows decode a now (read_windows p now v)) as [t1|] eqn:Eg; [|done].
  assert (each (window_ok 25) t1) as H1.
  { assert (∀ t, each (window_ok 1) t → each (window_ok 25) t) as Hm1
      by (intros ? (? & ? & ?); split; [|split]; (eapply window_ok_mono; [|done]); lia).
    unfold grant_windows in Eg. destruct (c_extra a) as [ [w [raw|] ] |]; try (simplify_eq; auto).
    destruct (String.eqb raw ""); [simplify_eq; auto|]. destruct (decode raw) as [gs|]; [|done].
    destruct (Nat.ltb_spec 24 (length gs)); [done|]. apply (apply_grants_ok _ _ 1) in Eg; [|done].
    destruct Eg as (? & ? & ?). split; [|split]; (eapply window_ok_mono; [|done]); lia. }
  destruct (c_durable a); [|by simplify_eq]. destruct (read_durable (durable_key v) t1) as [|t2] eqn:Er; [done|]. injection Hj as <-.
  unfold read_durable in Er. case_in Er; [done|].
  destruct (fields_of (durable_key v) !! "amount"%string ≫= parse_amount) as [am|] eqn:Ea; [|done].
  apply bind_Some in Ea as (raw & _ & Ea). apply parse_amount_wf in Ea.
  repeat case_match; simplify_eq. destruct H1 as (? & ? & ?). split; [|split]; cbn [w_day w_month w_week]; by apply spend_ok.
Qed.

(** ** The decision on what is pending *)

(** Whether every window has room for an amount beside what is spent. *)
Definition has_room (w : window) (n : Z) : bool :=
  match w_limit w with Some l => pico (w_spent w) + n <=? pico l | None => true end.

Definition room (t : three) (n : Z) : bool := has_room (w_day t) n && has_room (w_month t) n && has_room (w_week t) n.

Inductive outcome := Covered | Reserved | Refused.

(** The reservation on the map of leases: a lease in force that already holds as much is
    left alone; otherwise it is replaced if the windows have room for the other leases
    and the new amount. *)
Definition spec_reserve (now : Z) (k : string) (n ttl : Z) (room : Z → bool) (L : ledger) : ledger * outcome :=
  let L := swept now L in
  if opt_test (L !! k) (λ l, (now <? l_expires l) && (n <=? l_amount l)) then (L, Covered)
  else if room (total (delete k L) + n) then (<[k := mkLease n (now + ttl)]> L, Reserved)
  else (if opt_test (L !! k) (λ l, l_expires l <=? now) then delete k L else L, Refused).

Lemma of_pico_pico a : amount_wf a → of_pico (pico a) = a.
Proof. intros H. pose proof (amount_wf_range a H). apply pico_inj; [by apply of_pico_wf|done|apply pico_of_pico]. Qed.

Lemma has_room_held w held m : window_ok 25 w → amount_wf held → pico held = Z.min CEILING m → 0 <= m →
  match w_limit w with Some l => compare_amount (add_amount (w_spent w) held) l <=? 0 | None => true end = has_room w m.
Proof.
  intros [Hs Hl] Hh Em Hm. unfold has_room. destruct (w_limit w) as [l|]; [|done]. destruct (Hl l eq_refl) as [Hw Hb].
  destruct (add_amount_spec (w_spent w) held Hs Hh) as [H1 H2]. pose proof (compare_amount_le _ l H1 Hw) as Hc. rewrite H2, Em in Hc.
  pose proof (amount_wf_range _ Hs).
  destruct (Z.leb_spec (compare_amount (add_amount (w_spent w) held) l) 0), (Z.leb_spec (pico (w_spent w) + m) (pico l)); try done;
    unfold CEILING, HUGE, UNIT in *; lia.
Qed.

Lemma wait_for_room w held amount m : window_ok 25 w → amount_wf held → pico held = Z.min CEILING m → 0 <= m →
  is_some (wait_for held amount w) = negb (has_room w m).
Proof.
  intros Hw Hh Em Hm. rewrite <- (has_room_held w held m) by done. unfold wait_for, limited.
  destruct (w_limit w); [|done]. by repeat case_match.
Qed.

Lemma longest_wait_room t held amount m : each (window_ok 25) t → amount_wf held → pico held = Z.min CEILING m → 0 <= m →
  is_some (longest_wait held amount t) = negb (room t m).
Proof.
  intros (H1 & H2 & H3) Hh Em Hm. unfold longest_wait, room.
  pose proof (wait_for_room _ held amount m H1 Hh Em Hm) as E1. pose proof (wait_for_room _ held amount m H2 Hh Em Hm) as E2.
  pose proof (wait_for_room _ held amount m H3 Hh Em Hm) as E3.
  destruct (wait_for held amount (w_day t)), (wait_for held amount (w_month t)), (wait_for held amount (w_week t));
    cbn [is_some] in *; symmetry in E1, E2, E3; split_bools;
    rewrite E1, E2, E3; cbn [andb negb]; repeat case_match; done.
Qed.

Definition has_limit (t : three) : bool :=
  is_some (w_limit (w_day t)) || is_some (w_limit (w_month t)) || is_some (w_limit (w_week t)).

(** Room in a limited window keeps the sum from saturating. *)
Lemma room_ceiling t m : each (window_ok 25) t → has_limit t = true → room t m = true → m < CEILING.
Proof.
  assert (∀ w, window_ok 25 w → is_some (w_limit w) = true → has_room w m = true → m < CEILING) as H.
  { intros w [Hs Hl] Hi Hr. unfold has_room in Hr. destruct (w_limit w) as [l|]; [|done]. destruct (Hl l eq_refl).
    bools. pose proof (amount_wf_range _ Hs). unfold CEILING, HUGE, UNIT in *. lia. }
  intros (H1 & H2 & H3) Hl Hr. unfold room in Hr. split_bools. unfold has_limit in Hl.
  apply orb_true_iff in Hl as [Hl|Hl]; [apply orb_true_iff in Hl as [Hl|Hl] |]; eauto.
Qed.

Definition reply_for (t : three) (o : outcome) (r : answer) : Prop :=
  match o with
  | Covered | Reserved => r = cost_answer 1 "ok" 0 (w_id (w_day t)) (w_id (w_month t))
  | Refused => ∃ held amount detail retry, longest_wait held amount t = Some (detail, retry) ∧
      r = cost_answer 0 (detail +:+ "_estimate")%string retry (w_id (w_day t)) (w_id (w_month t))
  end.

Lemma without_lease_spec p k now q L : represents q L → amount_wf (p_amount p) → valid_lease k = true →
  let n := pico (p_amount p) in
  without_lease p k now q (of_pico (total L)) =
    if opt_test (L !! k) (λ l, (now <? l_expires l) && (n <=? l_amount l)) then Some None
    else Some (Some (if opt_test (L !! k) (λ l, l_expires l <=? now) then (release_lease k q).1 else q,
                     of_pico (total (delete k L)))).
Proof.
  intros HR Ha Hv n. pose proof (represents_wf _ _ HR) as HL. pose proof (valid_lease_sum k Hv) as Hk. unfold without_lease.
  assert (members_of (expiries q) !! k = l_expires <$> L !! k ∧
          fields_of (held q) !! k ≫= parse_amount = of_pico ∘ l_amount <$> L !! k) as [-> ->].
  { destruct (represents_cases _ _ HR) as [ [-> ->] | (Hne & e & -> & He) ]; [done|].
    cbn [held expiries members_of fields_of]. by rewrite lookup_fmap, hash_of_read. }
  destruct (L !! k) as [l|] eqn:E; cbn [fmap option_fmap option_map opt_test].
  - rewrite Z.gtb_ltb. unfold compose. rewrite (sub_total L k l HL E).
    destruct (lease_in_range L k l HL E) as [Hw _].
    pose proof (compare_amount_le (p_amount p) (of_pico (l_amount l)) Ha Hw) as Hc. rewrite pico_of_pico in Hc. fold n in Hc.
    destruct (Z.ltb_spec now (l_expires l)), (Z.leb_spec (l_expires l) now); try lia; cbn [andb]; [|done].
    by destruct (Z.leb_spec (compare_amount (p_amount p) (of_pico (l_amount l))) 0), (Z.leb_spec n (l_amount l)); try lia.
  - by rewrite delete_id.
Qed.

(** The script's decision is the one on the map of leases. *)
Lemma decide_pending_refines a p now t v L :
  p_read_only p = false → priced p = true → amount_wf (p_amount p) → 1 <= p_ttl p → valid_lease (c_lease a) = true →
  0 < pico (p_amount p) → each (window_ok 25) t → has_limit t = true → represents (leases v) L →
  let '(v', r) := decide_pending a p now now t v in
  let '(L', o) := spec_reserve now (c_lease a) (pico (p_amount p)) (p_ttl p) (room t) L in
  represents (leases v') L' ∧ reply_for t o r.
Proof.
  intros Hro Hpr Ha Httl Hv Hpos Ht Hlim HR. unfold decide_pending, spec_reserve. rewrite Hro, Hpr. cbn [negb].
  pose proof (pending_total_represents now (leases v) L HR) as HT.
  destruct (pending_total now false (leases v)) as [q sum]. destruct HT as (-> & HQ & _).
  set (L1 := swept now L) in *. set (k := c_lease a) in *. set (n := pico (p_amount p)) in *.
  rewrite (without_lease_spec p k now q L1 HQ Ha Hv). fold n.
  destruct (opt_test (L1 !! k) _) eqn:Ec; [done|].
  set (q' := if opt_test (L1 !! k) (λ l, l_expires l <=? now) then (release_lease k q).1 else q).
  set (L2 := if opt_test (L1 !! k) (λ l, l_expires l <=? now) then delete k L1 else L1).
  assert (represents q' L2 ∧ delete k L2 = delete k L1) as [HQ2 Ed].
  { clear Ec. unfold q', L2. destruct (opt_test _ _); [|by split]. pose proof (release_lease_represents q L1 k HQ Hv) as Hr.
    destruct (release_lease k q). split; [apply Hr|]. apply delete_delete_eq || apply delete_idemp. }
  pose proof (represents_wf _ _ HQ) as HL1. pose proof (total_wf (delete k L1) ltac:(auto with olp)) as Hw.
  pose proof (total_nonneg (delete k L1) ltac:(auto with olp)) as H0.
  destruct (add_amount_spec _ _ Hw Ha) as [Hwa Hea]. rewrite pico_of_pico in Hea. fold n in Hea.
  pose proof (longest_wait_room t _ (p_amount p) (total (delete k L1) + n) Ht Hwa Hea ltac:(lia)) as Hlw.
  set (m := total (delete k L1) + n) in *.
  destruct (longest_wait _ _ t) as [ [detail retry] |] eqn:Ew; cbn [is_some] in Hlw; symmetry in Hlw; split_bools; rewrite Hlw.
  - split; [done|]. do 4 eexists. split; [exact Ew|done].
  - pose proof (room_ceiling t m Ht Hlim Hlw) as Hm. split; [|done]. cbn [leases grant_request].
    assert (add_amount (of_pico (total (delete k L1))) (p_amount p) = of_pico m) as ->.
    { rewrite <- (of_pico_pico (p_amount p) Ha). apply add_of_pico; fold n; lia. }
    rewrite <- (of_pico_pico (p_amount p) Ha). fold n. rewrite <- (insert_delete_eq L1), <- Ed, insert_delete_eq.
    unfold m. rewrite <- Ed. apply store_lease_represents; [done..|]. rewrite Ed. done.
Qed.

(** ** The reservation *)

Definition granted (r : answer) : bool := match r with Items (_ :: RInt 1 :: _) => true | _ => false end.

Definition limited_by (p : cost_plan) : bool := is_some (p_daily p) || is_some (p_monthly p) || is_some (p_weekly p).

Definition initialised (w : window) : Prop := w_limit w ≠ None → b_state (w_balance w) = Current_state.

(** Grants and exposure change neither which windows are limited nor what was read. *)
Definition same_shape (w w' : window) : Prop :=
  is_some (w_limit w) = is_some (w_limit w') ∧ b_state (w_balance w) = b_state (w_balance w') ∧
  w_ttl w = w_ttl w' ∧ w_id w = w_id w'.

Definition same_shapes (t t' : three) : Prop :=
  same_shape (w_day t) (w_day t') ∧ same_shape (w_month t) (w_month t') ∧ same_shape (w_week t) (w_week t').

#[export] Instance same_shapes_preorder : PreOrder same_shapes.
Proof.
  split; [done|]. intros t1 t2 t3 ( (?&?&?&?) & (?&?&?&?) & (?&?&?&?)) ( (?&?&?&?) & (?&?&?&?) & (?&?&?&?)).
  repeat split; congruence.
Qed.

Lemma raise_shape w a : same_shape w (raise w a).
Proof. unfold raise, same_shape, w_ttl, w_id. destruct (w_limit w) eqn:E; cbn [w_limit w_balance]; by rewrite ?E. Qed.

Lemma apply_grants_shapes now gs t t' : apply_grants now gs t = Some t' → same_shapes t t'.
Proof.
  revert t. induction gs as [|g gs IH]; intros t H; simpl in H; [by simplify_eq|].
  destruct (apply_grant now g t) as [t1|] eqn:E; [|done]. transitivity t1; [|by apply IH]. clear IH H.
  unfold apply_grant in E. destruct (grant_ok g) as [ [ [ [a id] s] e] |]; [|done]. injection E as <-.
  repeat case_match; (split; [|split]); cbn [w_day w_month w_week]; first [apply raise_shape|done].
Qed.

Lemma judged_shapes decode a p now v t : judged decode a p now v = Some t → same_shapes (read_windows p now v) t.
Proof.
  unfold judged. destruct (grant_windows decode a now (read_windows p now v)) as [t1|] eqn:Eg; [|done].
  assert (same_shapes (read_windows p now v) t1) as H1.
  { unfold grant_windows in Eg. destruct (c_extra a) as [ [w [raw|] ] |]; try (by simplify_eq).
    destruct (String.eqb raw ""); [by simplify_eq|]. destruct (decode raw) as [gs|]; [|done]. case_in Eg; [done|].
    by eapply apply_grants_shapes. }
  intros H. destruct (c_durable a); [|by simplify_eq]. destruct (read_durable (durable_key v) t1) as [|t2] eqn:Er; [done|]. injection H as <-.
  transitivity t1; [done|]. unfold read_durable in Er. repeat case_match; by simplify_eq.
Qed.

Lemma read_windows_limits p now v : has_limit (read_windows p now v) = limited_by p.
Proof. unfold read_windows. by destruct (windows now) as [ [ [? ?] ?] ?]. Qed.

Lemma judged_limits decode a p now v t : judged decode a p now v = Some t → has_limit t = limited_by p.
Proof.
  intros H. apply judged_shapes in H as ( [H1 _] & [H2 _] & [H3 _]).
  rewrite <- (read_windows_limits p now v). unfold has_limit. congruence.
Qed.

Lemma first_window_none f t : first_window f t = None → each (λ w, f w = None) t.
Proof. unfold first_window, each. by repeat case_match. Qed.

(** Either the script answers without a decision on what is pending, and changes
    nothing, or it decides on windows that are initialised and not spent out. *)
Lemma reserve_cost_judged decode a now_us v p : read_cost_args a = Some p →
  let v1 := seen_keys (now_us / 1000) v in
  (∃ r, reserve_cost decode a now_us v = (v1, r) ∧ granted r = false) ∨
  (∃ now t, current_time (p_override p) now_us = Some now ∧ judged decode a p now v1 = Some t ∧ each initialised t ∧
     each (λ w, spent_out (p_verify p) w = None) t ∧
     reserve_cost decode a now_us v = decide_pending a p (now_us / 1000) now t v1).
Proof.
  intros Hp v1. unfold reserve_cost. rewrite Hp. fold v1.
  destruct (current_time (p_override p) now_us) as [now|] eqn:Ec; [|left; eauto].
  pose proof (windows_bounds now) as Hb. destruct (windows now) as [ [ [d mo] dt] mt] eqn:Ew.
  destruct ((dt <? 1) || (mt <? 1)) eqn:Et; [left; eauto|].
  destruct (first_window malformed (read_windows p now v1)) as [ [detail z] |]; [left; eauto|].
  unfold judged. destruct (grant_windows decode a now (read_windows p now v1)) as [t|] eqn:Eg; [|left; eauto].
  set (x := if c_durable a then read_durable (durable_key v1) t else inr t).
  assert ((if c_durable a then match read_durable (durable_key v1) t with inr t => Some t | inl _ => None end else Some t) =
          match x with inr t => Some t | inl _ => None end) as Ex by (unfold x; by destruct (c_durable a)).
  destruct x as [detail|t2]; [left; eauto|].
  destruct (first_window (spent_out (p_verify p)) t2) as [ [detail retry] |] eqn:Es; [left; eauto|].
  destruct (first_window uninitialized t2) as [ [detail retry] |] eqn:Eu; [left; eauto|].
  right. exists now, t2. split; [done|]. rewrite Eg, Ex. split; [done|]. split; [|split; [by apply first_window_none|] ].
  - apply first_window_none in Eu. destruct Eu as (U1 & U2 & U3). unfold uninitialized, limited in *.
    assert (∀ w, match w_limit w with Some _ => if bool_decide (b_state (w_balance w) = Current_state) then None else Some 0 | None => None end = None → initialised w) as Hi.
    { intros w H Hw. destruct (w_limit w); [|done]. by case_bool_decide. }
    split; [|split]; by apply Hi.
  - done.
Qed.

(** Windows that are initialised and not spent out are decided on. *)
Lemma reserve_cost_decides decode a now_us v p now t : read_cost_args a = Some p →
  current_time (p_override p) now_us = Some now → judged decode a p now (seen_keys (now_us / 1000) v) = Some t →
  each initialised t → each (λ w, spent_out (p_verify p) w = None) t →
  reserve_cost decode a now_us v = decide_pending a p (now_us / 1000) now t (seen_keys (now_us / 1000) v).
Proof.
  intros Hp Hc Hj (I1 & I2 & I3) (S1 & S2 & S3). unfold reserve_cost. rewrite Hp, Hc. set (v1 := seen_keys (now_us / 1000) v) in *.
  pose proof (windows_bounds now) as Hb. destruct (windows now) as [ [ [d mo] dt] mt] eqn:Ew.
  destruct Hb as (_ & _ & Hd & Hm). destruct (Z.ltb_spec dt 1), (Z.ltb_spec mt 1); try lia. cbn [orb].
  pose proof (judged_shapes _ _ _ _ _ _ Hj) as (T1 & T2 & T3).
  assert (∀ w w', same_shape w w' → initialised w' → malformed w = None) as HM.
  { intros w w' (E1 & E2 & _) Hi. unfold malformed, limited. destruct (w_limit w); [|done]. rewrite E2, Hi; [by rewrite bool_decide_false|].
    by destruct (w_limit w'). }
  unfold first_window. rewrite (HM _ _ T1 I1), (HM _ _ T2 I2), (HM _ _ T3 I3).
  unfold judged in Hj. destruct (grant_windows decode a now (read_windows p now v1)) as [t1|]; [|done].
  set (x := if c_durable a then read_durable (durable_key v1) t1 else inr t1).
  assert (x = inr t) as ->.
  { unfold x. destruct (c_durable a); [|by simplify_eq]. destruct (read_durable (durable_key v1) t1); by simplify_eq. }
  rewrite S1, S2, S3.
  assert (∀ w, initialised w → uninitialized w = None) as HU.
  { intros w Hi. unfold uninitialized, limited. destruct (w_limit w) eqn:E; [|done]. rewrite Hi; [by rewrite bool_decide_true|]. by rewrite E. }
  by rewrite (HU _ I1), (HU _ I2), (HU _ I3).
Qed.

Lemma spec_reserve_keeps now k n ttl room L k' l : k' ≠ k → L !! k' = Some l → now < l_expires l →
  (spec_reserve now k n ttl room L).1 !! k' = Some l.
Proof.
  intros Hk E He. pose proof (swept_live now L k' l E He) as Hs. unfold spec_reserve.
  repeat case_match; cbn [fst]; rewrite ?lookup_insert_ne, ?lookup_delete_ne; done.
Qed.

(** A lease in force falls only to a larger amount. *)
Lemma spec_reserve_self now k n ttl room L l : L !! k = Some l → now < l_expires l →
  ∃ l', (spec_reserve now k n ttl room L).1 !! k = Some l' ∧ l_amount l <= l_amount l'.
Proof.
  intros E He. pose proof (swept_live now L k l E He) as Hs. unfold spec_reserve. rewrite Hs. cbn [opt_test].
  destruct (Z.ltb_spec now (l_expires l)), (Z.leb_spec (l_expires l) now); try lia. cbn [andb].
  destruct (Z.leb_spec n (l_amount l)); cbn [fst]; [eauto with lia|].
  destruct (room _); cbn [fst]; [rewrite lookup_insert_eq; eexists; split; [done|simpl; lia] |eauto with lia].
Qed.

Lemma decide_pending_idle a p clock now t v : p_read_only p || negb (priced p) = true →
  leases (decide_pending a p clock now t v).1 = leases v.
Proof. unfold decide_pending. destruct (p_read_only p); [done|]. intros H. simpl in H. by rewrite H. Qed.

Lemma leases_seen clock v : leases (seen_keys clock v) = seen clock (leases v).
Proof. done. Qed.

(** What a reservation does to the map of leases. *)
Lemma reserve_cost_refines decode a now_us v L p :
  represents (leases v) L → read_cost_args a = Some p → p_override p = 0 → limited_by p = true →
  p_read_only p = false → priced p = true →
  let now := now_us / 1000 in
  let '(v', r) := reserve_cost decode a now_us v in
  ∃ L0, represents (seen now (leases v)) L0 ∧ lapse now L L0 ∧
    ((granted r = false ∧ represents (leases v') L0) ∨
     ∃ t, judged decode a p now (seen_keys now v) = Some t ∧ each initialised t ∧
       let '(L', o) := spec_reserve now (c_lease a) (pico (p_amount p)) (p_ttl p) (room t) L0 in
       represents (leases v') L' ∧ reply_for t o r).
Proof.
  intros HR Hp Ho Hlim Hro Hpr now. destruct (read_cost_args_spec a p Hp) as (Ha & Hpp & _).
  destruct (Hpp Hpr) as (Httl & Hv & Hpos). destruct (seen_represents now _ L HR) as (L0 & HR0 & Hl & _).
  pose proof (reserve_cost_judged decode a now_us v p Hp) as [(r & -> & Hr) | (now' & t & Hc & Hj & Hi & _ & ->) ].
  { exists L0. split; [done|]. split; [done|]. left. done. }
  rewrite Ho in Hc. destruct (current_time_spec _ _ Hc) as [-> _]. fold now in Hj |- *.
  pose proof (decide_pending_refines a p now t (seen_keys now v) L0 Hro Hpr Ha Httl Hv Hpos (judged_ok _ _ _ _ _ _ Hp Hj)
    ltac:(by rewrite (judged_limits _ _ _ _ _ _ Hj)) HR0) as HD.
  destruct (decide_pending a p now now t (seen_keys now v)) as [v' r]. exists L0. split; [done|]. split; [done|]. right. eauto.
Qed.

(** C8. A budget is never promised twice. When a priced reservation is granted, the lease is
    held for at least the amount until it is settled or lapses, every other lease in force is
    still held, and every limited window is initialised and has room, beside what is
    accrued and provisionally exposed, for everything in flight including this request;
    or else a delivery repeated a reservation in force, and nothing more was promised. *)
Theorem cost_reserved_within_budget decode a now_us v L p :
  represents (leases v) L → read_cost_args a = Some p → p_override p = 0 → limited_by p = true →
  p_read_only p = false → priced p = true →
  let now := now_us / 1000 in
  let '(v', r) := reserve_cost decode a now_us v in
  granted r = true →
  ∃ t L', judged decode a p now (seen_keys now v) = Some t ∧ each initialised t ∧ represents (leases v') L' ∧
    (∃ l, L' !! c_lease a = Some l ∧ pico (p_amount p) <= l_amount l ∧ now < l_expires l) ∧
    (∀ k l, k ≠ c_lease a → L !! k = Some l → now < l_expires l → L' !! k = Some l) ∧
    (room t (total L') = true ∨
     ∃ l, L !! c_lease a = Some l ∧ now < l_expires l ∧ pico (p_amount p) <= l_amount l ∧ L' ⊆ L).
Proof.
  intros HR Hp Ho Hlim Hro Hpr now. pose proof (reserve_cost_refines decode a now_us v L p HR Hp Ho Hlim Hro Hpr) as H.
  cbv zeta in H. fold now in H. destruct (reserve_cost decode a now_us v) as [v' r]. destruct H as (L0 & _ & [Hsub Hkeep] & H). intros Hg.
  destruct H as [ [H _] | (t & Hj & Hi & H) ]; [congruence|]. destruct (read_cost_args_spec a p Hp) as (_ & Hpp & _).
  destruct (Hpp Hpr) as (Httl & _ & _).
  set (k := c_lease a) in *. set (n := pico (p_amount p)) in *. pose proof (spec_reserve_keeps now k n (p_ttl p) (room t) L0) as HK.
  assert (∀ L' o, spec_reserve now k n (p_ttl p) (room t) L0 = (L', o) → o ≠ Refused →
    (∃ l, L' !! k = Some l ∧ n <= l_amount l ∧ now < l_expires l) ∧
    (room t (total L') = true ∨ ∃ l, L !! k = Some l ∧ now < l_expires l ∧ n <= l_amount l ∧ L' ⊆ L)) as HS.
  { unfold spec_reserve. set (L1 := swept now L0). intros L' o E Hno.
    destruct (opt_test (L1 !! k) _) eqn:Ec.
    - injection E as <- <-. destruct (L1 !! k) as [l|] eqn:El; [|done]. cbn [opt_test] in Ec. bools.
      split; [eauto|]. right. exists l. pose proof El as El'. unfold L1 in El'. apply swept_lookup in El'.
      split; [by eapply lookup_weaken|]. split; [done|]. split; [done|]. etrans; [apply lapse_swept|done].
    - destruct (room t _) eqn:Er; [|by simplify_eq]. injection E as <- <-. split.
      + eexists. split; [apply lookup_insert_eq|]. simpl. lia.
      + left. by rewrite total_replace. }
  destruct (spec_reserve now k n (p_ttl p) (room t) L0) as [L' o]. destruct H as [HR' Hr].
  assert (o ≠ Refused) as Hno. { intros ->. destruct Hr as (? & ? & ? & ? & _ & ->). done. }
  destruct (HS L' o eq_refl Hno) as [H1 H2]. exists t, L'. do 4 (split; [done|]). split; [|done].
  intros k' l Hne E He. apply (HK k' l Hne); [|done]. by apply Hkeep.
Qed.

(** C10. A reservation is refused only for a reason: on windows that are initialised and
    not spent out, a priced request is granted exactly when its lease already holds as much
    or every limited window has room for the other leases and the request, where sums too
    large to represent count as no room; the refusal names the window with the longest
    wait. *)
Theorem cost_reservation_exact decode a now_us v L p t :
  let now := now_us / 1000 in
  represents (seen now (leases v)) L → read_cost_args a = Some p → p_override p = 0 → limited_by p = true →
  p_read_only p = false → priced p = true → current_time 0 now_us = Some now →
  judged decode a p now (seen_keys now v) = Some t → each initialised t → each (λ w, spent_out (p_verify p) w = None) t →
  let '(v', r) := reserve_cost decode a now_us v in
  let '(L', o) := spec_reserve now (c_lease a) (pico (p_amount p)) (p_ttl p) (room t) L in
  represents (leases v') L' ∧ reply_for t o r ∧ (granted r = true ↔ o ≠ Refused).
Proof.
  intros now HR Hp Ho Hlim Hro Hpr Hc Hj Hi Hs. destruct (read_cost_args_spec a p Hp) as (Ha & Hpp & _).
  destruct (Hpp Hpr) as (Httl & Hv & Hpos).
  rewrite (reserve_cost_decides decode a now_us v p now t Hp ltac:(by rewrite Ho) Hj Hi Hs). fold now.
  pose proof (decide_pending_refines a p now t (seen_keys now v) L Hro Hpr Ha Httl Hv Hpos (judged_ok _ _ _ _ _ _ Hp Hj)
    ltac:(by rewrite (judged_limits _ _ _ _ _ _ Hj)) HR) as HD.
  destruct (decide_pending a p now now t (seen_keys now v)) as [v' r].
  destruct (spec_reserve now (c_lease a) (pico (p_amount p)) (p_ttl p) (room t) L) as [L' o]. destruct HD as [H1 H2].
  split; [done|]. split; [done|]. destruct o; cbn [reply_for] in H2; [subst r; done..|].
  destruct H2 as (? & ? & ? & ? & _ & ->). split; [done|]. by intros [].
Qed.

(** An owner that has spent 9.5 of a daily limit of 10 at noon of 31 March 2024, and a
    request estimated at 0.25. *)
Definition sample_lease : string := "0190c2a0-0000-7000-8000-000000000001".
Definition sample_us : Z := 1711886400000000.
Definition sample_keys : cost_keys :=
  mkCostKeys (Holds (<["window" := "19813"]> {["accrued" := "9.5"]}) (Some 1711929600000)) Missing Missing Missing drop_pending.
Definition sample_args : cost_args := mkCostArgs "10" "" "0" "0.25" sample_lease "60000" None false.
Definition sample_plan : cost_plan := mkPlan (Some (10, 0)) None None 0 false false (0, 250000000000) 60000.
Definition no_grants : string → option (list grant) := λ _, None.

Lemma sample_facts : read_cost_args sample_args = Some sample_plan ∧
  granted (reserve_cost no_grants sample_args sample_us sample_keys).2 = true.
Proof. split; vm_compute; reflexivity. Qed.

Lemma cost_reserved_within_budget_witness :
  ∃ t L', judged no_grants sample_args sample_plan 1711886400000 (seen_keys 1711886400000 sample_keys) = Some t ∧
    represents (leases (reserve_cost no_grants sample_args sample_us sample_keys).1) L' ∧
    (∃ l, L' !! sample_lease = Some l ∧ 250000000000 <= l_amount l) ∧ room t (total L') = true.
Proof.
  destruct sample_facts as [Hp Hg].
  pose proof (cost_reserved_within_budget no_grants sample_args sample_us sample_keys ∅ sample_plan
    represents_empty Hp eq_refl eq_refl eq_refl eq_refl) as H. cbv zeta in H. change (sample_us / 1000) with 1711886400000 in H.
  destruct (reserve_cost no_grants sample_args sample_us sample_keys) as [v' r]. cbn [fst snd] in *.
  destruct (H Hg) as (t & L' & H1 & _ & H3 & (l & H4 & H5 & _) & _ & H6). exists t, L'.
  split; [exact H1|]. split; [exact H3|]. split; [exists l; split; [exact H4|exact H5] |].
  destruct H6 as [H6|(l' & H6 & _)]; [exact H6|]. rewrite lookup_empty in H6. discriminate H6.
Defined.

Definition sample_window : window := mkWindow (Some (10, 0)) (mkBalance Current_state (9, 500000000000) 43200000 19813).
Definition sample_three : three := mkThree sample_window (mkWindow None (mkBalance Missing_state (0, 0) 43200000 24290))
  (mkWindow None (mkBalance Missing_state (0, 0) 43200000 2830)).

Lemma sample_judged : judged no_grants sample_args sample_plan 1711886400000 (seen_keys 1711886400000 sample_keys) = Some sample_three ∧
  each initialised sample_three ∧ each (λ w, spent_out false w = None) sample_three.
Proof.
  split; [vm_compute; reflexivity|]. unfold each, initialised.
  split; (split; [|split]); first [vm_compute; reflexivity | intros _; reflexivity | intros []; reflexivity].
Qed.

Lemma cost_reservation_exact_witness :
  granted (reserve_cost no_grants sample_args sample_us sample_keys).2 = true ∧
  represents (leases (reserve_cost no_grants sample_args sample_us sample_keys).1)
    {[ sample_lease := mkLease 250000000000 1711886460000 ]}.
Proof.
  destruct sample_facts as [Hp Hg]. destruct sample_judged as (Hj & Hi & Hs).
  pose proof (cost_reservation_exact no_grants sample_args sample_us sample_keys ∅ sample_plan sample_three
    represents_empty Hp eq_refl eq_refl eq_refl eq_refl ltac:(vm_compute; reflexivity) Hj Hi Hs) as H.
  change (sample_us / 1000) with 1711886400000 in H.
  assert (spec_reserve 1711886400000 (c_lease sample_args) (pico (p_amount sample_plan)) (p_ttl sample_plan) (room sample_three) ∅ =
    ({[ sample_lease := mkLease 250000000000 1711886460000 ]}, Reserved)) as E by (vm_compute; reflexivity).
  rewrite E in H. destruct (reserve_cost no_grants sample_args sample_us sample_keys) as [v' r]. cbn [fst snd] in *.
  destruct H as (H1 & _ & _). split; [exact Hg|exact H1].
Defined.
