(* ===== verification/CostLedger.v ===== *)
(** * Settlements, reconciliations and their interleavings

    A settlement on the map of leases; the accrued totals a reconciliation installs; and
    the system in which replicas reserve, settle and reconcile in any order and at any
    times, with the invariant that the keys always represent a map of leases whose sum
    they hold exactly, and that no lease in force is lost. *)

From S2P Require Import Prelude Go Amount Limits LimitsFacts CostAmount CostPending CostScripts CostFacts.
From Stdlib Require Import Ascii.
Local Open Scope Z_scope.
Local Open Scope olp_scope.

(** ** Settling *)

(** A lease in force takes the amount, or is released when it is nothing; its expiry
    only falls. A lease that has lapsed is removed, and one that is not held stays so. *)
Definition spec_settle (now : Z) (k : string) (n ttl : Z) (L : ledger) : ledger * bool :=
  let L := swept now L in
  match L !! k with
  | None => (L, false)
  | Some l =>
      if l_expires l <=? now then (delete k L, false)
      else if n =? 0 then (delete k L, true)
      else (<[k := mkLease n (Z.min (l_expires l) (now + ttl))]> L, true)
  end.

Definition settle_args_ok (k amount_text ttl_text : string) : option (amount * Z) :=
  match parse_amount amount_text, parse_safe ttl_text with
  | Some a, Some ttl => if valid_lease k && ((pico a =? 0) || (1 <=? ttl)) then Some (a, ttl) else None
  | _, _ => None
  end.

Lemma pico_zero a : amount_wf a → ((a.1 =? 0) && (a.2 =? 0)) = (pico a =? 0).
Proof.
  intros (H1 & H2 & _). destruct a as [hi lo]. unfold pico; cbn [fst snd] in *.
  destruct (Z.eqb_spec hi 0), (Z.eqb_spec lo 0), (Z.eqb_spec (hi * UNIT + lo) 0); unfold UNIT in *; cbn [andb]; lia || done.
Qed.

Lemma settle_invalid k a ttl now_us p : settle_args_ok k a ttl = None →
  settle_cost k a ttl now_us p = (seen (now_us / 1000) p, settle_failure "invalid_arguments").
Proof.
  unfold settle_args_ok, settle_cost. destruct (parse_amount a) as [am|] eqn:Ea; [|done]. destruct (parse_safe ttl) as [n|]; [|done].
  rewrite (pico_zero am) by (by eapply parse_amount_wf). intros H. case_in H; [done|].
  destruct (valid_lease k); [|done]. cbn [andb negb orb] in *. apply orb_false_iff in E as [-> E2]. bools. cbn [negb andb].
  by rewrite (proj2 (Z.ltb_lt _ _)) by lia.
Qed.

(** The script's settlement is the one on the map. *)
Lemma settle_cost_refines k amount_text ttl_text now_us p L a ttl :
  settle_args_ok k amount_text ttl_text = Some (a, ttl) → current_time 0 now_us = Some (now_us / 1000) →
  represents (seen (now_us / 1000) p) L → total L + pico a < CEILING →
  let '(p', r) := settle_cost k amount_text ttl_text now_us p in
  let '(L', settled) := spec_settle (now_us / 1000) k (pico a) ttl L in
  represents p' L' ∧ r = settle_answer (if settled then 1 else 0).
Proof.
  unfold settle_args_ok. destruct (parse_amount amount_text) as [am|] eqn:Ea; [|done].
  destruct (parse_safe ttl_text) as [n|] eqn:Et; [|done]. intros H. case_in H; [|done]. injection H as -> ->.
  intros Hc HR Hcap. set (now := now_us / 1000) in *. pose proof (parse_amount_wf _ _ Ea) as Ha.
  apply andb_true_iff in E as [Hv Hz]. pose proof (valid_lease_sum k Hv) as Hk.
  unfold settle_cost. rewrite Ea, Et, Hc, (pico_zero a) by done. rewrite Hv. fold now.
  assert (negb (pico a =? 0) && (ttl <? 1) = false) as ->.
  { apply orb_true_iff in Hz as [-> |Hz]; [done|]. bools. rewrite (proj2 (Z.ltb_ge _ _)) by lia. by destruct (_ =? _). }
  cbn [negb orb]. unfold spec_settle. pose proof (pending_total_represents now _ L HR) as HT.
  destruct (pending_total now false (seen now p)) as [q sum]. destruct HT as (-> & HQ & _).
  pose proof (total_swept_le now L (represents_wf _ _ HR)) as Hsw.
  set (L1 := swept now L) in *. pose proof (represents_wf _ _ HQ) as HL1.
  assert (fields_of (held q) !! k = (λ l, format_amount (of_pico (l_amount l))) <$> L1 !! k ∧
          members_of (expiries q) !! k = l_expires <$> L1 !! k) as [-> ->].
  { destruct (represents_cases _ _ HQ) as [ [-> ->] | (Hne & e & -> & He) ]; [done|].
    cbn [held expiries members_of fields_of]. by rewrite lookup_fmap, hash_of_lease. }
  destruct (L1 !! k) as [l|] eqn:El; cbn [fmap option_fmap option_map opt_test]; [|done].
  destruct (Z.leb_spec (l_expires l) now); [split; [by apply remove_lease_represents|done] |].
  destruct (Z.eqb_spec (pico a) 0) as [Hp0|Hp0]; [split; [by apply remove_lease_represents|done] |].
  destruct (lease_in_range L1 k l HL1 El) as [Hw Hle]. pose proof (amount_wf_range a Ha).
  pose proof (total_delete_le L1 k ltac:(auto with olp)). pose proof (total_nonneg (delete k L1) ltac:(auto with olp)).
  rewrite parse_format_amount, (sub_total L1 k l HL1 El) by done. split; [|done].
  rewrite <- (of_pico_pico a Ha). rewrite add_of_pico, pico_of_pico by (rewrite ?pico_of_pico; lia).
  apply settle_lease_represents; [done|done|lia|lia].
Qed.

Lemma spec_settle_keeps now k n ttl L k' l : k' ≠ k → L !! k' = Some l → now < l_expires l →
  (spec_settle now k n ttl L).1 !! k' = Some l.
Proof.
  intros Hk E He. pose proof (swept_live now L k' l E He) as Hs. unfold spec_settle.
  repeat case_match; cbn [fst]; rewrite ?lookup_insert_ne, ?lookup_delete_ne; done.
Qed.

(** C37. A settlement replaces what a request holds by what it cost, once and for all: a lease in
    force then holds exactly the amount, or nothing when it is zero, and the answer says it
    was found; its expiry never grows; a lease that lapsed, was released or was never made
    is not brought back, so that a late or repeated settlement counts nothing twice; and
    every other lease in force is left as it was. *)
Theorem cost_settled_once k amount_text ttl_text now_us p L a ttl :
  let now := now_us / 1000 in
  settle_args_ok k amount_text ttl_text = Some (a, ttl) → current_time 0 now_us = Some now →
  represents p L → total L + pico a < CEILING →
  let '(p', r) := settle_cost k amount_text ttl_text now_us p in
  ∃ L', represents p' L' ∧
    (∀ k' l, k' ≠ k → L !! k' = Some l → now < l_expires l → L' !! k' = Some l) ∧
    (∀ l, L' !! k = Some l → ∃ l0, L !! k = Some l0 ∧ now < l_expires l0 ∧ l_amount l = pico a ∧ pico a ≠ 0 ∧
       l_expires l = Z.min (l_expires l0) (now + ttl)) ∧
    (∀ l0, L !! k = Some l0 → now < l_expires l0 →
       r = settle_answer 1 ∧ (L' !! k = None ↔ pico a = 0)) ∧
    (L !! k = None → r = settle_answer 0 ∧ L' !! k = None).
Proof.
  intros now Hargs Hc HR Hcap. destruct (seen_represents now p L HR) as (L0 & HR0 & [Hsub Hkeep] & Hle).
  pose proof (settle_cost_refines k amount_text ttl_text now_us p L0 a ttl Hargs Hc HR0 ltac:(lia)) as H.
  destruct (settle_cost k amount_text ttl_text now_us p) as [p' r]. fold now in H.
  pose proof (spec_settle_keeps now k (pico a) ttl L0) as HK. unfold spec_settle in *. set (L1 := swept now L0) in *.
  assert (∀ l, L1 !! k = Some l → L !! k = Some l) as Hback.
  { intros l El. unfold L1 in El. apply swept_lookup in El. by eapply lookup_weaken. }
  assert (∀ l0, L !! k = Some l0 → now < l_expires l0 → L1 !! k = Some l0) as Hfwd.
  { intros l0 El He. apply swept_live; [by apply Hkeep|done]. }
  destruct (L1 !! k) as [l|] eqn:El.
  - specialize (Hback l eq_refl). destruct (Z.leb_spec (l_expires l) now) as [Hx|Hx].
    + destruct H as [HR' ->]. exists (delete k L1). rewrite lookup_delete_eq. split; [done|].
      split; [intros k' l' ? ? ?; by apply HK; [|apply Hkeep|] |]. split; [done|]. split; [|congruence].
      intros l0 E0 He. rewrite Hback in E0. injection E0 as <-. lia.
    + destruct (Z.eqb_spec (pico a) 0) as [Hz|Hz]; destruct H as [HR' ->]; eexists; (split; [exact HR'|]);
        rewrite ?lookup_delete_eq, ?lookup_insert_eq; (split; [intros k' l' ? ? ?; by apply HK; [|apply Hkeep|] |]).
      * split; [done|]. split; [done|congruence].
      * split; [intros l' [= <-]; exists l; by repeat split|]. split; [|congruence]. done.
  - destruct H as [HR' ->]. exists L1. split; [done|]. rewrite El. split; [intros k' l' ? ? ?; by apply HK; [|apply Hkeep|] |].
    split; [done|]. split; [|done]. intros l0 E0 He. specialize (Hfwd l0 E0 He). congruence.
Qed.

(** ** Accrued totals *)

(** The total accrued in a window, in units of 10^-96. *)
Definition accrued_in (k : key hash) (counts : bool) (w : Z) : option Z :=
  match read_accrued k counts w with (Current_state, t, _) => decimal_value t | _ => None end.

Lemma below_spec s t x y : decimal_value s = Some x → decimal_value t = Some y → below s t = (x <? y).
Proof.
  intros Hs Ht. unfold below. rewrite (compare_decimal_value s t x y Hs Ht).
  by destruct (Z.compare_spec x y), (Z.ltb_spec x y); try lia.
Qed.

Definition unpriced_ok (u : option Z) : Prop := match u with Some n => 0 <= n <= MAX_SAFE_INTEGER | None => True end.

Ltac looks := repeat first [rewrite lookup_insert_eq | rewrite lookup_insert_ne by done | rewrite lookup_singleton_eq].

Lemma read_accrued_fields (h : hash) e counts w t n v x :
  h !! "window"%string = Some w → parse_safe w = Some n → h !! "accrued"%string = Some t → normalize_decimal t = Some v →
  decimal_value v = Some x → (counts = true → ∃ u c, h !! "unpriced"%string = Some u ∧ parse_safe u = Some c) →
  accrued_in (Holds h e) counts n = Some x.
Proof.
  intros Ew Pw Et Pt Ex Hc. unfold accrued_in, read_accrued. cbn [foreign fields_of]. rewrite Ew, Et.
  cbn [mbind option_bind]. rewrite Pw, Pt. destruct counts; cbn [app forallb is_some negb andb].
  - destruct (Hc eq_refl) as (u & c & Eu & Pu). rewrite Eu. cbn [mbind option_bind]. rewrite Pu.
    destruct (Z.gtb_spec n n); [lia|]. by rewrite Z.eqb_refl.
  - destruct (Z.gtb_spec n n); [lia|]. by rewrite Z.eqb_refl.
Qed.

Lemma read_accrued_current k counts w t c : read_accrued k counts w = (Current_state, t, c) →
  ∃ h e raw tw, k = Holds h e ∧ h !! "window"%string = Some tw ∧ parse_safe tw = Some w ∧
    h !! "accrued"%string = Some raw ∧ normalize_decimal raw = Some t ∧
    (counts = true → ∃ u, h !! "unpriced"%string = Some u ∧ parse_safe u = Some c).
Proof.
  unfold read_accrued. destruct k as [|h e|]; [by destruct counts| |done]. cbn [foreign fields_of]. intros H. case_in H; [done|].
  destruct (h !! "window"%string) as [tw|] eqn:Ew; cbn [mbind option_bind] in H; [|done].
  destruct (parse_safe tw) as [w'|] eqn:Pw; [|done].
  destruct (h !! "accrued"%string) as [raw|] eqn:Ea; cbn [mbind option_bind] in H; [|done].
  destruct (normalize_decimal raw) as [v|] eqn:Pv; [|done].
  destruct (if counts then _ else _) as [c'|] eqn:Ec in H; [|done]. case_in H; [done|]. case_in H; [done|].
  apply negb_false_iff, Z.eqb_eq in E1. simplify_eq. exists h, e, raw, tw. repeat (split; [done|]). intros ->.
  apply bind_Some in Ec as (u & Eu & Pu). eauto.
Qed.

(** What is installed reads back as the larger of what was there and the snapshot. *)
Lemma install_reads clock i accrued unpriced k x :
  0 <= i_window i <= MAX_SAFE_INTEGER → normalize_decimal accrued = Some accrued → decimal_value accrued = Some x →
  unpriced_ok unpriced →
  accrued_in (install clock i accrued unpriced k) (is_some unpriced) (i_window i) =
    Some (match accrued_in k (is_some unpriced) (i_window i) with Some y => Z.max y x | None => x end).
Proof.
  intros Hw Hn Hx Hu. unfold install. unfold accrued_in at 2. set (counts := is_some unpriced).
  destruct (read_accrued k counts (i_window i)) as [ [state stored] count] eqn:Er.
  assert (∀ (h : hash) f, f ≠ "starts_at"%string → f ≠ "ends_at"%string →
    match i_bounds i with
    | Some (first, last) => <["starts_at" := decimal_text first]> (<["ends_at" := decimal_text last]> h)
    | None => h end !! f = h !! f) as Hb.
  { intros h f H1 H2. destruct (i_bounds i) as [ [? ?] |]; [|done]. by rewrite !lookup_insert_ne by done. }
  case_bool_decide as Es; [subst state|].
  - apply read_accrued_current in Er as (h & e & raw & tw & -> & Ew & Pw & Ea & Pa & Hc). cbn [fields_of].
    destruct (normalize_decimal_normal _ _ Pa) as (Ns & Vs & [y Hy]).
    rewrite Vs, Hy. rewrite (below_spec stored accrued y x) by congruence.
    eapply read_accrued_fields with (t := if y <? x then accrued else raw) (v := if y <? x then accrued else stored).
    + rewrite Hb by done. destruct unpriced; [destruct (count <? z)|]; destruct (y <? x); looks; exact Ew.
    + exact Pw.
    + rewrite Hb by done. destruct unpriced; [destruct (count <? z)|]; destruct (y <? x); looks; done.
    + by destruct (y <? x).
    + destruct (Z.ltb_spec y x); [rewrite Z.max_r by lia; done|]. rewrite Z.max_l by lia. congruence.
    + intros Hcc. destruct unpriced as [m|]; [|done]. destruct (Hc Hcc) as (u & Eu & Pu).
      rewrite Hb by done. destruct (count <? m).
      * do 2 eexists. looks. split; [done|]. by apply parse_text.
      * exists u, count. split; [|done]. destruct (y <? x); looks; done.
  - assert (match state with Current_state => decimal_value stored | _ => None end = None) as -> by (by destruct state).
    eapply read_accrued_fields with (t := accrued) (v := accrued); [| |rewrite Hb by done|done|done|].
    + rewrite Hb by done. destruct unpriced; looks; done.
    + by apply parse_text.
    + destruct unpriced; looks; done.
    + intros Hcc. destruct unpriced as [m|]; [|done]. do 2 eexists. rewrite Hb by done. looks. split; [done|]. by apply parse_text.
Qed.

(** Destruct the outermost scrutinee of [H], which must be present. *)
Ltac some_of H :=
  match type of H with
  | match ?x with Some _ => _ | None => _ end = _ => let E := fresh "E" in destruct x eqn:E; [|discriminate H]
  end.

Lemma read_snapshot_spec a v s : read_snapshot a v = Some s →
  0 <= n_day s <= MAX_SAFE_INTEGER ∧ 0 <= n_month s <= MAX_SAFE_INTEGER ∧ 0 <= n_unpriced s <= MAX_SAFE_INTEGER ∧
  normalize_decimal (r_daily a) = Some (n_daily s) ∧ normalize_decimal (r_monthly a) = Some (n_monthly s) ∧
  parse_safe (r_override a) = Some (n_override s) ∧ (r_request a = ""%string ∨ valid_lease (r_request a) = true).
Proof.
  unfold read_snapshot. destruct (default _ (r_week a)) as [week weekly]. intros H. cbv zeta in H.
  do 8 some_of H. case_in H; [|done]. injection H as <-. cbn [n_day n_month n_unpriced n_daily n_monthly n_override].
  apply parse_safe_bounds in E1, E3, E5. do 6 (split; [done|]).
  split_bools. destruct (String.eqb_spec (r_request a) ""); [by left|by right].
Qed.

(** The larger of what a window had accrued and a snapshot. *)
Definition larger (before : option Z) (x : Z) : Z := match before with Some y => Z.max y x | None => x end.

Lemma interval_window k b snapshot fallback ttl now i : interval k b snapshot fallback ttl now = Some i →
  i_window i = fallback ∨ Some (i_window i) = snapshot.
Proof. unfold interval. intros H. repeat case_match; simplify_eq; naive_solver. Qed.

Lemma release_lapse p L k : represents p L → valid_lease k = true → ∃ L', represents (release_lease k p).1 L' ∧ L' = delete k L.
Proof. intros HR Hv. pose proof (release_lease_represents p L k HR Hv) as H. destruct (release_lease k p). naive_solver. Qed.

(** C11. Installing spend and releasing its reservation is one step. A reconciliation that is accepted
    leaves the day and the month, where it reports them, with the larger of the total they had
    accrued and the snapshot's, and where it does not report them as they were, so that an accrued
    total never falls within its window; the lease of the request the snapshot accounts for is no longer
    held, and every other lease in force is. *)
Theorem cost_snapshot_installed a now_us v L v' d m :
  let now := now_us / 1000 in
  represents (leases v) L →
  reconcile_cost a now_us v = (v', Items [RInt 1; RInt 1; RStr "ok"; RInt d; RInt m]) →
  ∃ s daily monthly L', read_snapshot a (seen_keys now v) = Some s ∧
    decimal_value (r_daily a) = Some daily ∧ decimal_value (r_monthly a) = Some monthly ∧
    (if d =? 1 then accrued_in (day_key v') false (n_day s) =
                    Some (larger (accrued_in (day_key (seen_keys now v)) false (n_day s)) daily)
     else day_key v' = day_key (seen_keys now v)) ∧
    (if m =? 1 then accrued_in (month_key v') true (n_month s) =
                    Some (larger (accrued_in (month_key (seen_keys now v)) true (n_month s)) monthly)
     else month_key v' = month_key (seen_keys now v)) ∧
    represents (leases v') L' ∧ L' !! r_request a = None ∧
    (∀ k l, k ≠ r_request a → L !! k = Some l → now < l_expires l → L' !! k = Some l).
Proof.
  intros now HR H. unfold reconcile_cost in H. fold now in H. set (v1 := seen_keys now v) in *.
  destruct (read_snapshot a v1) as [s|] eqn:Es; [|done].
  destruct (read_snapshot_spec _ _ _ Es) as (Rd & Rm & Ru & Nd & Nm & _ & Hreq).
  destruct (current_time (n_override s) now_us) as [now_ms|]; [|done]. destruct (windows now_ms) as [ [ [day month] dt] mt].
  case_in H; [done|]. clear E.
  match type of H with (let '(_, _) := ?x in _) = _ => destruct x as [ [db mb] wb] end.
  destruct (interval (day_key v1) db (Some (n_day s)) day dt now_ms) as [di|]; [|done].
  destruct (interval (month_key v1) mb (Some (n_month s)) month mt now_ms) as [mi|]; [|done].
  match type of H with match ?x with _ => _ end = _ => destruct x as [wi|]; [|done] end.
  set (daily := i_active di && (n_day s =? i_window di)) in H. set (monthly := i_active mi && (n_month s =? i_window mi)) in H.
  injection H as <- Hd Hm. cbn [day_key month_key leases].
  destruct (normalize_decimal_normal _ _ Nd) as (Nd' & Vd & [xd Hxd]).
  destruct (normalize_decimal_normal _ _ Nm) as (Nm' & Vm & [xm Hxm]).
  destruct (seen_represents now _ L HR) as (L0 & HR0 & [Hsub Hkeep] & _).
  assert (∃ L', represents (if String.eqb (r_request a) "" then leases v1 else (release_lease (r_request a) (leases v1)).1) L' ∧
    L' = delete (r_request a) L0) as (L' & HR' & ->).
  { destruct (String.eqb_spec (r_request a) "") as [Er|Er].
    - exists L0. split; [exact HR0|]. symmetry. apply delete_id. rewrite Er.
      destruct (L0 !! ""%string) eqn:E0; [|done]. apply (represents_wf _ _ HR0) in E0 as [E0 _]. done.
    - destruct Hreq; [done|]. by apply release_lapse. }
  exists s, xd, xm, (delete (r_request a) L0). split; [done|]. split; [done|]. split; [done|]. subst d m.
  split; [|split; [|split; [exact HR'|split; [apply lookup_delete_eq|] ] ] ].
  - destruct daily eqn:E; [|done]. subst daily. bools. rewrite H0. apply (install_reads now di (n_daily s) None); [lia|done|congruence|done].
  - destruct monthly eqn:E; [|done]. subst monthly. bools. rewrite H0.
    apply (install_reads now mi (n_monthly s) (Some (n_unpriced s))); [lia|done|congruence|done].
  - intros k l Hk E He. rewrite lookup_delete_ne by done. by apply Hkeep.
Qed.

(** ** Interleavings *)

Lemma reconcile_leases a now_us v :
  let p := seen (now_us / 1000) (leases v) in
  leases (reconcile_cost a now_us v).1 = p ∨
  (valid_lease (r_request a) = true ∧ leases (reconcile_cost a now_us v).1 = (release_lease (r_request a) p).1).
Proof.
  cbv zeta. unfold reconcile_cost. set (v1 := seen_keys (now_us / 1000) v).
  destruct (read_snapshot a v1) as [s|] eqn:Es; [|by left]. destruct (read_snapshot_spec _ _ _ Es) as (_ & _ & _ & _ & _ & _ & Hreq).
  destruct (current_time (n_override s) now_us) as [now_ms|]; [|by left]. destruct (windows now_ms) as [ [ [day month] dt] mt].
  destruct (_ || _); [by left|]. destruct (match r_bounds a with Some (d, m, w) => _ | None => _ end) as [ [db mb] wb].
  destruct (interval (day_key v1) _ _ _ _ _) as [di|]; [|by left].
  destruct (interval (month_key v1) _ _ _ _ _) as [mi|]; [|by left].
  destruct (if is_some (r_week a) then _ else _) as [wi|]; [|by left]. cbn [fst leases].
  destruct (String.eqb_spec (r_request a) ""); [by left|]. destruct Hreq; [done|]. by right.
Qed.

Section System.
Context (decode : string → option (list grant)).

(** What replicas ask of a cost owner's keys, each at a time of the server. *)
Inductive cost_event :=
  | Reserve_cost (a : cost_args) (now_us : Z)
  | Settle_cost (k amount_text ttl_text : string) (now_us : Z)
  | Reconcile_cost (a : reconcile_args) (now_us : Z).

Definition event_ms (e : cost_event) : Z :=
  match e with Reserve_cost _ t | Settle_cost _ _ _ t | Reconcile_cost _ t => t / 1000 end.

(** The lease an event is about. *)
Definition event_lease (e : cost_event) : string :=
  match e with Reserve_cost a _ => c_lease a | Settle_cost k _ _ _ => k | Reconcile_cost a _ => r_request a end.

(** A reservation is made against a budget and without a test's clock, as the gateway
    does; an amount settled keeps the sum below where sums saturate. *)
Inductive cost_step : cost_keys → cost_event → cost_keys → Prop :=
  | step_reserve a now_us v :
      (∀ p, read_cost_args a = Some p → p_override p = 0 ∧ limited_by p = true) →
      cost_step v (Reserve_cost a now_us) (reserve_cost decode a now_us v).1
  | step_settle k amount_text ttl_text now_us v :
      (∀ L a, represents (leases v) L → parse_amount amount_text = Some a → total L + pico a < CEILING) →
      cost_step v (Settle_cost k amount_text ttl_text now_us)
        (with_leases v (settle_cost k amount_text ttl_text now_us (leases v)).1)
  | step_reconcile a now_us v : cost_step v (Reconcile_cost a now_us) (reconcile_cost a now_us v).1.

Inductive cost_run : cost_keys → list cost_event → cost_keys → Prop :=
  | run_nil v : cost_run v [] v
  | run_cons v e v1 es v2 : cost_step v e v1 → cost_run v1 es v2 → cost_run v (e :: es) v2.

Lemma reserve_step_represents a now_us v L :
  (∀ p, read_cost_args a = Some p → p_override p = 0 ∧ limited_by p = true) → represents (leases v) L →
  ∃ L', represents (leases (reserve_cost decode a now_us v).1) L' ∧
    ∀ k l, k ≠ c_lease a → L !! k = Some l → now_us / 1000 < l_expires l → L' !! k = Some l.
Proof.
  intros Hok HR. set (now := now_us / 1000). destruct (seen_represents now _ L HR) as (L0 & HR0 & [_ Hkeep] & _).
  assert (leases (reserve_cost decode a now_us v).1 = seen now (leases v) → ∃ L', represents (leases (reserve_cost decode a now_us v).1) L' ∧
    ∀ k l, k ≠ c_lease a → L !! k = Some l → now < l_expires l → L' !! k = Some l) as Hidle.
  { intros ->. exists L0. split; [done|]. eauto. }
  destruct (read_cost_args a) as [p|] eqn:Hp; [|apply Hidle; unfold reserve_cost; by rewrite Hp].
  destruct (Hok p eq_refl) as [Ho Hlim]. destruct (p_read_only p || negb (priced p)) eqn:Em.
  - apply Hidle. destruct (reserve_cost_judged decode a now_us v p Hp) as [(r & -> & _) | (n & t & _ & _ & _ & _ & ->) ]; [done|].
    by apply decide_pending_idle.
  - apply orb_false_iff in Em as [Hro Hpr%negb_false_iff].
    pose proof (reserve_cost_refines decode a now_us v L p HR Hp Ho Hlim Hro Hpr) as H. cbv zeta in H. fold now in H.
    destruct (reserve_cost decode a now_us v) as [v' r]. cbn [fst]. destruct H as (L1 & _ & [_ Hk1] & [ [_ H] | (t & _ & _ & H) ]).
    + exists L1. split; [done|]. eauto.
    + pose proof (spec_reserve_keeps now (c_lease a) (pico (p_amount p)) (p_ttl p) (room t) L1) as HK.
      destruct (spec_reserve _ _ _ _ _ _) as [L' o]. exists L'. split; [apply H|]. intros k l Hne E He. by apply HK; [|apply Hk1|].
Qed.

Lemma settle_step_represents k amount_text ttl_text now_us p L :
  (∀ a, parse_amount amount_text = Some a → total L + pico a < CEILING) → represents p L →
  ∃ L', represents (settle_cost k amount_text ttl_text now_us p).1 L' ∧
    ∀ k' l, k' ≠ k → L !! k' = Some l → now_us / 1000 < l_expires l → L' !! k' = Some l.
Proof.
  intros Hcap HR. destruct (seen_represents (now_us / 1000) _ L HR) as (L0 & HR0 & [_ Hkeep] & Hle).
  destruct (settle_args_ok k amount_text ttl_text) as [ [a ttl] |] eqn:Ea.
  - destruct (current_time 0 now_us) as [now|] eqn:Ec.
    + destruct (current_time_spec _ _ Ec) as [-> _].
      assert (parse_amount amount_text = Some a) as Pa.
      { unfold settle_args_ok in Ea. repeat case_match; by simplify_eq. }
      specialize (Hcap a Pa).
      pose proof (settle_cost_refines k amount_text ttl_text now_us p L0 a ttl Ea Ec HR0 ltac:(lia)) as H.
      pose proof (spec_settle_keeps (now_us / 1000) k (pico a) ttl L0) as HK.
      destruct (settle_cost _ _ _ _ _) as [p' r], (spec_settle _ _ _ _ _) as [L' b]. exists L'. split; [apply H|].
      intros k' l Hne E He. by apply HK; [|apply Hkeep|].
    + exists L0. split; [|eauto]. unfold settle_cost. rewrite Ec. by repeat case_match.
  - rewrite (settle_invalid k amount_text ttl_text now_us p Ea). exists L0. split; [done|]. eauto.
Qed.

Lemma cost_step_represents v e v' L : cost_step v e v' → represents (leases v) L →
  ∃ L', represents (leases v') L' ∧
    ∀ k l, k ≠ event_lease e → L !! k = Some l → event_ms e < l_expires l → L' !! k = Some l.
Proof.
  intros Hstep HR. destruct Hstep as [a now_us v Hok|k at_ tt now_us v Hok|a now_us v]; cbn [event_lease event_ms].
  - by apply reserve_step_represents.
  - apply settle_step_represents; [|done]. intros a Ha. by apply (Hok L a).
  - destruct (seen_represents (now_us / 1000) _ L HR) as (L0 & HR0 & [_ Hkeep] & _).
    destruct (reconcile_leases a now_us v) as [-> | [Hv ->] ]; [exists L0; split; [done|]; eauto|].
    destruct (release_lapse _ _ _ HR0 Hv) as (L' & HR' & ->). exists (delete (r_request a) L0). split; [done|].
    intros k l Hne E He. rewrite lookup_delete_ne by done. by apply Hkeep.
Qed.

(** C9. What is in flight is never lost or miscounted. However replicas interleave reservations,
    settlements and reconciliations of a cost owner, the keys always represent a map of leases: the
    stored total is exactly the sum of what the leases hold, the set names the same leases,
    and both keys outlive every lease; and a lease that no event is about is held unchanged
    until its expiry. *)
Theorem cost_leases_invariant v es v' L : cost_run v es v' → represents (leases v) L →
  ∃ L', represents (leases v') L' ∧
    ∀ k l, L !! k = Some l → Forall (λ e, event_lease e ≠ k ∧ event_ms e < l_expires l) es → L' !! k = Some l.
Proof.
  intros Hrun. revert L. induction Hrun as [v|v e v1 es v2 Hstep Hrun IH]; intros L HR; [eauto|].
  destruct (cost_step_represents v e v1 L Hstep HR) as (L1 & HR1 & H1). destruct (IH L1 HR1) as (L2 & HR2 & H2).
  exists L2. split; [done|]. intros k l E [ [Hne He] Hes]%Forall_cons. apply H2; [|done]. by apply H1; [congruence| |].
Qed.
End System.

(** The lease of the sample reservation, and keys that hold it. *)
Definition sample_ledger : ledger := {[ sample_lease := mkLease 250000000000 1711886460000 ]}.
Definition sample_pending : pending :=
  mkPending (Holds (hash_of sample_ledger) (Some 1711886461000)) (Holds (l_expires <$> sample_ledger) (Some 1711886461000)).

Lemma sample_represents : represents sample_pending sample_ledger.
Proof.
  apply represents_held; [split|apply map_non_empty_singleton|by apply map_Forall_singleton].
  - apply map_Forall_singleton. split; [vm_compute; reflexivity|done].
  - vm_compute. reflexivity.
Qed.

(** The request cost 0.125, a second later. *)
Lemma cost_settled_once_witness :
  ∃ L', represents (settle_cost sample_lease "0.125" "30000" 1711886401000000 sample_pending).1 L' ∧
    (settle_cost sample_lease "0.125" "30000" 1711886401000000 sample_pending).2 = settle_answer 1 ∧ L' !! sample_lease ≠ None.
Proof.
  pose proof (cost_settled_once sample_lease "0.125" "30000" 1711886401000000 sample_pending sample_ledger (0, 125000000000) 30000
    ltac:(vm_compute; reflexivity) ltac:(vm_compute; reflexivity) sample_represents ltac:(vm_compute; reflexivity)) as H.
  destruct (settle_cost sample_lease "0.125" "30000" 1711886401000000 sample_pending) as [p' r]. cbn [fst snd].
  destruct H as (L' & H1 & _ & _ & H4 & _). exists L'. split; [exact H1|].
  destruct (H4 (mkLease 250000000000 1711886460000)) as [-> H5]; [vm_compute; reflexivity|vm_compute; reflexivity|].
  split; [reflexivity|]. intros E. apply H5 in E. discriminate E.
Defined.

(** The database accounts for the request: 9.625 is spent, its lease is no longer held. *)
Definition sample_snapshot : reconcile_args :=
  mkReconcileArgs "19813" "9.625" "24290" "9.625" "0" "0" sample_lease (Some ("2830", ""))%string None None.
Definition sample_spent : cost_keys := with_leases sample_keys sample_pending.

Lemma cost_snapshot_installed_witness :
  ∃ L', represents (leases (reconcile_cost sample_snapshot sample_us sample_spent).1) L' ∧ L' !! sample_lease = None ∧
    accrued_in (day_key (reconcile_cost sample_snapshot sample_us sample_spent).1) false 19813 = Some (9625 * 10 ^ 93).
Proof.
  assert ((reconcile_cost sample_snapshot sample_us sample_spent).2 = Items [RInt 1; RInt 1; RStr "ok"; RInt 1; RInt 1]) as Hr
    by (vm_compute; reflexivity).
  pose proof (cost_snapshot_installed sample_snapshot sample_us sample_spent sample_ledger
    (reconcile_cost sample_snapshot sample_us sample_spent).1 1 1 sample_represents) as H.
  destruct (H ltac:(rewrite <- Hr; apply surjective_pairing)) as (s & daily & monthly & L' & Hs & Hd & _ & H1 & _ & H3 & H4 & _). exists L'.
  split; [exact H3|]. split; [exact H4|]. cbn [Z.eqb Pos.eqb] in H1.
  assert (n_day s = 19813) as Es by (vm_compute in Hs; injection Hs as <-; reflexivity). rewrite Es in H1.
  vm_compute in Hd. injection Hd as <-. rewrite H1. vm_compute. reflexivity.
Defined.

(** A lease that was never made is released: the lease of the sample request is still
    held. *)
Lemma cost_leases_invariant_witness :
  let es := [Settle_cost "0190c2a0-0000-7000-8000-000000000002" "0" "0" 1711886402000000] in
  ∃ v' L', cost_run no_grants sample_spent es v' ∧ represents (leases v') L' ∧
    L' !! sample_lease = Some (mkLease 250000000000 1711886460000).
Proof.
  intros es. set (v' := with_leases sample_spent
    (settle_cost "0190c2a0-0000-7000-8000-000000000002" "0" "0" 1711886402000000 (leases sample_spent)).1).
  assert (cost_run no_grants sample_spent es v') as Hrun.
  { eapply run_cons; [|apply run_nil]. apply step_settle. intros L a HR Ha. vm_compute in Ha. injection Ha as <-.
    destruct HR as [ [_ HL] _]. change (pico (0, 0)) with 0. lia. }
  destruct (cost_leases_invariant no_grants sample_spent es v' sample_ledger Hrun sample_represents) as (L' & HR' & Hk).
  exists v', L'. split; [exact Hrun|]. split; [exact HR'|]. apply Hk; [vm_compute; reflexivity|].
  constructor; [|constructor]. split; [intros E; discriminate E|vm_compute; reflexivity].
Defined.
