(* ===== verification/CostClient.v ===== *)
(** * Cost reservations of the gateway

    The Go side of the cost scripts ([internal/limits/limits.go], [results.go] and
    [budgets.go]): the arguments a reservation is sent with, the strict reading of the
    replies, the release of an estimate whose reservation may have been made although its
    reply was lost, the settlement of a lease and of the budget group's lease attached to
    it, and the snapshots the database's totals are installed with. Valkey is a map from
    the key prefix of a cost owner to its keys; a command is delivered, runs but its reply
    is lost, is lost before it runs, or is never sent. The text of a UUID in canonical
    form is a parameter. *)

From S2P Require Import Prelude Go Amount Limits LimitsFacts LimitsReply Civil Calendar CostAmount CostPending CostScripts CostFacts CostLedger.
From Stdlib Require Import Ascii.
Local Open Scope Z_scope.
Local Open Scope olp_scope.

(** ** Reading replies *)

Inductive cost_dimension := DailyCost | WeeklyCost | MonthlyCost.

Inductive cost_result :=
  | CostGranted
  | CostRejected (d : cost_dimension) (retryAfterMS : Z) (estimate : bool)
  | CostUninitialized (durableMissing : bool)
  | CostMalformed
  | CostScriptFailure.

Definition dayMS : Z := 86400000.
Definition maxMonthMS : Z := 33 * dayMS.

(** [tuple] for the cost scripts' version of the reply. *)
Definition tuple (value : answer) : option (Z * string * Z * Z * Z) :=
  match value with
  | Items [RInt version; RInt status; RStr detail; RInt retry; RInt first; RInt second] =>
      if negb (version =? 1) || negb (luaSafe retry) || negb (luaSafe first) || negb (luaSafe second) then None
      else Some (status, detail, retry, first, second)
  | _ => None
  end.

Definition refusal (detail : string) (retry : Z) : option cost_result :=
  let case (name : string) (d : cost_dimension) (most : Z) :=
    if (String.eqb detail name || String.eqb detail (name +:+ "_estimate")%string) && (retry >=? 1) && (retry <=? most)
    then Some (CostRejected d retry (String.eqb detail (name +:+ "_estimate")%string)) else None in
  case "daily_cost"%string DailyCost (3 * dayMS) <|> case "weekly_cost"%string WeeklyCost (9 * dayMS) <|>
  case "monthly_cost"%string MonthlyCost maxMonthMS.

(** [None] is [ErrUnexpectedResponse]. *)
Definition parseCostReservation (value : answer) : option cost_result :=
  match tuple value with
  | None => None
  | Some (status, detail, retry, day, month) =>
      if (status =? -1) && (retry =? 0) && (day =? 0) && (month =? 0) && Contains ["invalid_arguments"; "invalid_server_time"]%string detail
      then Some CostScriptFailure
      else if (day <? 1) || (month <? 1) then None
      else if (status =? 1) && String.eqb detail "ok" && (retry =? 0) then Some CostGranted
      else if status =? 0 then refusal detail retry
      else if (status =? -1) && (retry =? 0) &&
              Contains ["unsettled_durable_cost_state"; "uninitialized_durable_cost_state"; "uninitialized_daily_cost_state";
                        "uninitialized_monthly_cost_state"; "uninitialized_weekly_cost_state"]%string detail
      then Some (CostUninitialized (String.eqb detail "uninitialized_durable_cost_state"))
      else if (status =? -1) && (retry =? 0) &&
              Contains ["malformed_durable_cost_state"; "malformed_daily_cost_state"; "malformed_monthly_cost_state";
                        "malformed_weekly_cost_state"]%string detail
      then Some CostMalformed
      else None
  end.

Definition parseReconciliation (value : answer) : limit_error + (bool * bool) :=
  match value with
  | Items [RInt version; RInt status; RStr detail; RInt daily; RInt monthly] =>
      if negb (version =? 1) then inl ErrUnexpectedResponse
      else if (status =? 1) && String.eqb detail "ok" && ((daily =? 0) || (daily =? 1)) && ((monthly =? 0) || (monthly =? 1))
      then inr (daily =? 1, monthly =? 1)
      else if (status =? -1) && (daily =? 0) && (monthly =? 0) &&
              Contains ["malformed_durable_cost_state"; "malformed_daily_cost_state"; "malformed_monthly_cost_state";
                        "malformed_weekly_cost_state"]%string detail
      then inl ErrMalformedState
      else inl ErrUnexpectedResponse
  | _ => inl ErrUnexpectedResponse
  end.

(** Whether the lease was found; [None] is [ErrUnexpectedResponse]. *)
Definition parseSettlement (value : answer) : option bool :=
  match value with
  | Items [RInt version; RInt status; RStr detail; RInt settled; RInt spare] =>
      if negb (version =? 1) || negb (spare =? 0) then None
      else if (status =? 1) && String.eqb detail "ok" && ((settled =? 0) || (settled =? 1)) then Some (settled =? 1)
      else None
  | _ => None
  end.

(** ** Valkey and the network *)

Notation store := (gmap string cost_keys).

Definition no_keys : cost_keys := mkCostKeys Missing Missing Missing Missing drop_pending.
Definition keys_at (s : store) (prefix : string) : cost_keys := default no_keys (s !! prefix).

Inductive delivery := Delivered | ReplyLost | CommandLost | NeverSent.

Inductive cost_error :=
  | CostInvalid (reason : string)
  | CostService (ambiguous : bool)
  | CostExceeded (d : cost_dimension) (RetryAfter : Duration) (Estimate : bool) (Basis : string)
  | CostUninitializedErr | CostMalformedErr | CostUnexpected.

(** A script run on a prefix's keys at the server's time: what the caller is told. *)
Definition eval (d : delivery) (prefix : string) (script : cost_keys → cost_keys * answer) (s : store) : store * (cost_error + answer) :=
  let '(v, r) := script (keys_at s prefix) in
  match d with
  | Delivered => (<[prefix := v]> s, inr r)
  | ReplyLost => (<[prefix := v]> s, inl (CostService true))
  | CommandLost => (s, inl (CostService true))
  | NeverSent => (s, inl (CostService false))
  end.

(** ** Reserving *)

Definition DefaultCostGrace : Duration := 5 * Minute.

Definition costGrace (r : Request) : Duration := if CostGrace r =? 0 then DefaultCostGrace else CostGrace r.

Definition normalized (basis : string) : string := if String.eqb basis "charge" then "charge" else "cost".

Definition Pick (basis cost charge : string) : string := if String.eqb (normalized basis) "charge" then charge else cost.

(** [strconv.FormatInt] *)
Definition FormatInt (n : Z) : string := if n <? 0 then ("-" +:+ decimal_text (- n))%string else decimal_text n.

Section Client.
Context (namespace : string) (simpleUUID canonicalUUID : string → string) (uuid_ok : string → bool).
Context (decode : string → option (list grant)).

Definition costPrefixFor (owner basis : string) : string :=
  (namespace +:+ ":{" +:+ simpleUUID owner +:+ "}:" +:+ normalized basis)%string.

Definition prefix_of (r : Request) : string := costPrefixFor (CostOwnerID r) (CostBasis r).

(** The arguments of the script. A request against durable debits names the key of the
    exposure, one with grants or a weekly limit the week's key. *)
Definition cost_args_of (durable : bool) (increases : string) (r : Request) : cost_args :=
  let limit (o : option string) := default ""%string o in
  let '(amount, lease, ttl) :=
    if String.eqb (CostEstimate r) "" then ("0", "", "0")%string
    else (CostEstimate r, canonicalUUID (RequestID r), FormatInt (Milliseconds (wrap64 (LeaseTTL r + costGrace r)))) in
  let extra :=
    if durable then Some (limit (WeeklyCostLimit r), Some increases)
    else if negb (String.eqb increases "") then Some (limit (WeeklyCostLimit r), Some increases)
    else match WeeklyCostLimit r with None => None | Some w => Some (w, None) end in
  mkCostArgs (limit (DailyCostLimit r)) (limit (MonthlyCostLimit r)) "0" amount lease ttl extra durable.

(** [settleCost]: one run of the settlement script. *)
Definition settleCost (d : delivery) (now_us : Z) (prefix id amount ttl : string) (s : store) : store * option cost_error :=
  match eval d prefix (λ v, let '(p, r) := settle_cost id amount ttl now_us (leases v) in (with_leases v p, r)) s with
  | (s, inl e) => (s, Some e)
  | (s, inr value) => (s, match parseSettlement value with Some _ => None | None => Some CostUnexpected end)
  end.

(** Whether a failed reservation may have been made. *)
Definition ambiguousFailure (e : cost_error) : bool := match e with CostService ambiguous => ambiguous | _ => true end.

Definition reserve_error (basis : string) (value : answer) : option cost_error :=
  match parseCostReservation value with
  | Some CostGranted => None
  | Some (CostRejected d retry estimate) => Some (CostExceeded d (retry * Millisecond) estimate basis)
  | Some (CostUninitialized _) => Some CostUninitializedErr
  | Some CostMalformed => Some CostMalformedErr
  | Some CostScriptFailure | None => Some CostUnexpected
  end.

(** [reserveCost] without durable debits, or against a projection that is installed. A
    refusal the script states is returned as it is; any other failure that may have
    reserved gives the estimate back, with one attempt whose outcome is ignored. *)
Definition reserveCost (durable : bool) (increases : string) (retain : bool) (d d' : delivery) (now_us later_us : Z) (r : Request) (s : store) :
    store * (cost_error + bool) :=
  let '(s, answered) := eval d (prefix_of r) (reserve_cost decode (cost_args_of durable increases r) now_us) s in
  let failed (e : cost_error) :=
    if negb (String.eqb (CostEstimate r) "") && negb retain && ambiguousFailure e
    then ((settleCost d' later_us (prefix_of r) (canonicalUUID (RequestID r)) "0" "0" s).1, inl e)
    else (s, inl e) in
  match answered with
  | inl e => failed e
  | inr value =>
      match reserve_error (CostBasis r) value with
      | None => (s, inr (negb (String.eqb (CostEstimate r) "")))
      | Some CostUnexpected => failed CostUnexpected
      | Some e => (s, inl e)
      end
  end.

(** ** The arguments of a validated request *)

(** What the canonical text of a UUID is: 36 characters, lowercase hexadecimal and dashes. *)
Context (canonical_lease : ∀ id, uuid_ok id = true → valid_lease (canonicalUUID id) = true).

Lemma dec_value_zero s : decimalDigits s = true → dec_value s = 0 → all_bytes (one_of "0.") s = true.
Proof.
  unfold decimalDigits. induction s as [|c s IH]; [done|]. cbn [all_bytes]. intros [Hc Hs]%andb_true_iff.
  rewrite dec_value_cons. pose proof (dec_value_bound s Hs) as Hb. pose proof (dval_digit c Hc) as Hd.
  assert (0 < 10 ^ len s) by (apply Z.pow_pos_nonneg; unfold len; lia). intros Hz.
  assert (dval c = 0) as Ez by nia. rewrite (IH Hs) by nia. rewrite andb_true_r.
  unfold dval in Ez. assert (N_of_ascii c = 48%N) as E' by lia. apply (f_equal ascii_of_N) in E'.
  rewrite ascii_N_embedding in E'. by subst c.
Qed.

Lemma ValidCostLimit_limit v : ValidCostLimit v = true → ∃ a, parse_amount v = Some a ∧ parse_limit v = Some a ∧ 0 < pico a ∧ v ≠ "".
Proof.
  unfold ValidCostLimit. intros [Hv Hz%negb_true_iff]%andb_true_iff.
  destruct (ValidAmount_scaled v Hv) as (u & Hu & _). destruct (parse_amount_ValidAmount v u Hv Hu) as (a & Ha & Hw & Hp & Hl).
  pose proof (amount_wf_range a Hw) as Hr.
  assert (pico a ≠ 0) as Hne.
  { rewrite Hp. intros ->. revert Hz. unfold trims_to_empty.
    unfold scaledDecimal in Hu. unfold ValidAmount in Hv. destruct (Cut v ".") as [ [i f] b] eqn:Ec.
    destruct (Cut_spec _ _ _ _ _ Ec) as [Hs _]. case_in Hv; [done|]. apply orb_false_iff in E as [_ Di%negb_false_iff].
    assert ((match v with String "+" rest => rest | _ => v end) = v) as Ev.
    { destruct v as [|c v']; [done|]. destruct (decide (c = "+"%char)) as [->|Hc]; [|by destruct c as [ [] [] [] [] [] [] [] []] ].
      exfalso. simpl in Ec. destruct (Cut v' ".") as [ [? ?] ?]. injection Ec as <- _ _. done. }
    rewrite Ev, Ec in Hu. case_in Hu; [done|]. cbv zeta in Hu. case_in Hu; [|done]. injection Hu as Hz0.
    assert (decimalDigits i = true ∧ decimalDigits f = true) as [D1 D2].
    { unfold decimalDigits in *. rewrite !all_bytes_app in E0. split_bools. done. }
    rewrite !dec_value_app, dec_value_zeros in Hz0.
    pose proof (dec_value_bound i D1). pose proof (dec_value_bound f D2).
    assert (0 < 10 ^ len (zeros (costDigits - String.length f))) by (apply Z.pow_pos_nonneg; unfold len; lia).
    assert (0 < 10 ^ len (f +:+ zeros (costDigits - String.length f))) by (apply Z.pow_pos_nonneg; unfold len; lia).
    assert (dec_value i = 0 ∧ dec_value f = 0) as [Z1 Z2] by nia.
    destruct b; [subst v|destruct Hs as [-> _] ]; [change (String "." f) with ("." +:+ f); rewrite !all_bytes_app|];
      rewrite ?(dec_value_zero i), ?(dec_value_zero f) by done; by vm_compute. }
  exists a. split; [done|]. split; [|split; [lia|by intros ->] ].
  unfold parse_limit. rewrite Ha. destruct a as [hi lo]. destruct (hi >=? UNIT) eqn:Eh; bools; [simpl in Hl; lia|].
  pose proof (pico_zero (hi, lo) Hw) as Ep. cbn [fst snd] in Ep. rewrite Ep. by destruct (Z.eqb_spec (pico (hi, lo)) 0).
Qed.

Lemma check_cost_limit_none limit name : check_cost_limit limit name = None → ∀ v, limit = Some v → ValidCostLimit v = true.
Proof. intros H v ->. simpl in H. by apply refuse_if_none, negb_false_iff in H. Qed.

Lemma read_limit_valid limit : (∀ v, limit = Some v → ValidCostLimit v = true) →
  ∃ o, read_limit (default ""%string limit) = Some o ∧ is_some o = is_some limit.
Proof.
  intros H. destruct limit as [v|]; [|by exists None]. destruct (ValidCostLimit_limit v (H v eq_refl)) as (a & _ & Hl & _ & Hne).
  exists (Some a). unfold read_limit. simpl. rewrite Hl. by destruct (String.eqb_spec v "").
Qed.

(** What validation ensures of the cost fields. *)
Record cost_validated (r : Request) : Prop := mkCostValidated {
  cv_daily : ∀ v, DailyCostLimit r = Some v → ValidCostLimit v = true;
  cv_monthly : ∀ v, MonthlyCostLimit r = Some v → ValidCostLimit v = true;
  cv_weekly : ∀ v, WeeklyCostLimit r = Some v → ValidCostLimit v = true;
  cv_ttl : 1 <= Milliseconds (LeaseTTL r);
  cv_grace : 0 <= CostGrace r;
  cv_estimate : CostEstimate r ≠ ""%string → ValidCostLimit (CostEstimate r) = true ∧ uuid_ok (RequestID r) = true;
}.

Lemma Validate_cost r : Validate uuid_ok r = None → cost_validated r.
Proof.
  unfold Validate. rewrite !otherwise_none.
  intros (_ & _ & _ & _ & _ & _ & _ & _ & _ & Hd & Hm & Hw & Ht%refuse_if_none & Hg%refuse_if_none & He & _). bools.
  constructor; [by eapply check_cost_limit_none..|lia|lia|].
  intros Hne. destruct (String.eqb_spec (CostEstimate r) ""); [done|]. rewrite !otherwise_none in He.
  destruct He as (_ & H1%refuse_if_none & H2%refuse_if_none). bools. done.
Qed.

(** A lease and its grace that together are a duration. *)
Definition ttl_fits (r : Request) : Prop := LeaseTTL r + costGrace r <= MaxInt64.

Lemma ttl_text r : cost_validated r → ttl_fits r →
  parse_safe (FormatInt (Milliseconds (wrap64 (LeaseTTL r + costGrace r)))) = Some ((LeaseTTL r + costGrace r) ÷ Millisecond) ∧
  1 <= (LeaseTTL r + costGrace r) ÷ Millisecond.
Proof.
  intros Hv Hf. pose proof (cv_ttl r Hv) as Ht. pose proof (cv_grace r Hv) as Hg. unfold ttl_fits in Hf.
  assert (0 <= costGrace r) by (unfold costGrace, DefaultCostGrace, Minute, Second, Millisecond; destruct (_ =? _); lia).
  unfold Milliseconds in *. assert (Millisecond <= LeaseTTL r) as Hl.
  { unfold Millisecond in *. destruct (Z.le_gt_cases 1000000 (LeaseTTL r)); [done|]. exfalso.
    destruct (Z.le_gt_cases 0 (LeaseTTL r)); [rewrite Z.quot_small in Ht; lia|]. pose proof (Z.quot_le_mono (LeaseTTL r) 0 1000000 ltac:(lia) ltac:(lia)).
    rewrite Z.quot_0_l in *; lia. }
  unfold Millisecond in *. rewrite wrap64_small by (unfold is_int64, MinInt64; lia).
  set (d := LeaseTTL r + costGrace r) in *. rewrite Z.quot_div_nonneg by lia.
  assert (1 <= d / 1000000 <= MAX_SAFE_INTEGER) as Hb.
  { unfold MAX_SAFE_INTEGER, MaxInt64 in *. split; [apply Z.div_le_lower_bound; lia|]. apply Z.div_le_upper_bound; lia. }
  split; [|lia]. unfold FormatInt. rewrite (proj2 (Z.ltb_ge _ _)) by lia. apply parse_text. lia.
Qed.

(** A validated request is sent with arguments the script reads. *)
Lemma cost_args_read durable increases r : cost_validated r → ttl_fits r → HasCostBudget r = true →
  let a := cost_args_of durable increases r in
  ∃ p, read_cost_args a = Some p ∧ p_override p = 0 ∧ limited_by p = true ∧ p_read_only p = false ∧ p_verify p = false ∧
    priced p = negb (String.eqb (CostEstimate r) "") ∧
    (CostEstimate r ≠ ""%string → c_lease a = canonicalUUID (RequestID r) ∧ parse_amount (CostEstimate r) = Some (p_amount p)).
Proof.
  intros Hv Hf Hb a. destruct (read_limit_valid _ (cv_daily r Hv)) as (d & Ed & Sd).
  destruct (read_limit_valid _ (cv_monthly r Hv)) as (m & Em & Sm). destruct (read_limit_valid _ (cv_weekly r Hv)) as (w & Ew & Sw).
  destruct (ttl_text r Hv Hf) as [Et Ht].
  assert (c_daily a = default "" (DailyCostLimit r) ∧ c_monthly a = default "" (MonthlyCostLimit r) ∧ c_override a = "0" ∧
    c_durable a = durable ∧ (is_some (c_extra a) || negb durable) = true ∧
    (match c_extra a with Some (w, _) => w | None => "" end) = default "" (WeeklyCostLimit r))%string as (A1 & A2 & A3 & A4 & A5 & A6).
  { unfold a, cost_args_of. destruct (String.eqb (CostEstimate r) ""), durable, (String.eqb increases ""), (WeeklyCostLimit r); done. }
  assert (limited_by (mkPlan d m w 0 false false (0, 0) 0) = true) as Hl.
  { unfold limited_by; cbn [p_daily p_monthly p_weekly]. rewrite Sd, Sm, Sw. exact Hb. }
  unfold read_cost_args. rewrite A1, A2, A3, A4, A6, Ed, Em, Ew.
  destruct (String.eqb_spec (CostEstimate r) "") as [Ee|Ee].
  - assert (c_amount a = "0" ∧ c_ttl a = "0")%string as [-> ->] by (unfold a, cost_args_of; by rewrite Ee).
    change (parse_amount "0") with (Some (0, 0)). change (parse_safe "0") with (Some 0). cbn [String.eqb Ascii.eqb Bool.eqb orb]. cbv zeta.
    rewrite A5. unfold priced at 1. cbn [p_amount fst snd]. change (0 >? 0) with false. cbn [orb andb negb].
    eexists. split; [reflexivity|]. done.
  - destruct (cv_estimate r Hv Ee) as [He Hid]. destruct (ValidCostLimit_limit _ He) as (am & Pa & _ & Hpos & _).
    assert (c_amount a = CostEstimate r ∧ c_lease a = canonicalUUID (RequestID r) ∧
      c_ttl a = FormatInt (Milliseconds (wrap64 (LeaseTTL r + costGrace r)))) as (-> & -> & ->).
    { unfold a, cost_args_of. by destruct (String.eqb_spec (CostEstimate r) ""). }
    rewrite Et. change (parse_safe "0") with (Some 0).
    assert (String.eqb (CostEstimate r) "check" = false ∧ String.eqb (CostEstimate r) "verify" = false) as [-> ->].
    { split; apply String.eqb_neq; intros E; rewrite E in Pa; by vm_compute in Pa. }
    cbn [orb]. rewrite Pa. cbv zeta. rewrite A5, (canonical_lease _ Hid). rewrite (proj2 (Z.ltb_ge _ _)) by lia. cbn [negb orb andb].
    rewrite andb_false_r. cbn [negb]. eexists. split; [reflexivity|]. cbn [p_override p_read_only p_verify p_amount].
    do 4 (split; [done|]). split; [|done]. unfold priced; cbn [p_amount]. pose proof (parse_amount_wf _ _ Pa) as (W1 & W2 & _).
    destruct am as [hi lo]. unfold pico in Hpos; cbn [fst snd] in *. rewrite !Z.gtb_ltb.
    destruct (Z.ltb_spec 0 hi), (Z.ltb_spec 0 lo); try done. unfold UNIT in *. lia.
Qed.

(** ** Reservations over the network *)

Definition reached (d : delivery) : bool := match d with Delivered | ReplyLost => true | _ => false end.

Lemma keys_at_insert s p v : keys_at (<[p := v]> s) p = v.
Proof. unfold keys_at. by rewrite lookup_insert_eq. Qed.

(** A release that reaches the server leaves the lease unheld. *)
Lemma release_reached d now_us prefix id s L : reached d = true → valid_lease id = true → current_time 0 now_us = Some (now_us / 1000) →
  represents (leases (keys_at s prefix)) L →
  ∃ L', represents (leases (keys_at (settleCost d now_us prefix id "0" "0" s).1 prefix)) L' ∧ L' !! id = None ∧
    ∀ k l, k ≠ id → L !! k = Some l → now_us / 1000 < l_expires l → L' !! k = Some l.
Proof.
  intros Hd Hv Hc HR. unfold settleCost, eval. destruct (seen_represents (now_us / 1000) _ L HR) as (L0 & HR0 & [_ Hkeep] & _).
  assert (settle_args_ok id "0" "0" = Some ((0, 0), 0)) as Hargs.
  { unfold settle_args_ok. change (parse_amount "0") with (Some (0, 0)). change (parse_safe "0") with (Some 0). by rewrite Hv. }
  pose proof (represents_wf _ _ HR0) as [_ Hcap].
  pose proof (settle_cost_refines id "0" "0" now_us (leases (keys_at s prefix)) L0 (0, 0) 0 Hargs Hc HR0
    ltac:(change (pico (0, 0)) with 0; lia)) as H.
  pose proof (spec_settle_keeps (now_us / 1000) id (pico (0, 0)) 0 L0) as HK.
  assert ((spec_settle (now_us / 1000) id (pico (0, 0)) 0 L0).1 !! id = None) as Hnone.
  { unfold spec_settle. change (pico (0, 0) =? 0) with true. destruct (swept _ L0 !! id) eqn:E; [|done].
    destruct (_ <=? _); cbn [fst]; apply lookup_delete_eq. }
  destruct (settle_cost id "0" "0" now_us (leases (keys_at s prefix))) as [p' r].
  destruct (spec_settle _ _ _ _ _) as [L' b]. destruct H as [H _]. cbn [fst] in *.
  exists L'. split; [|split; [done|] ]; [|intros k l Hne E He; by apply HK; [|apply Hkeep|] ].
  destruct d; try done; cbn [fst]; by rewrite keys_at_insert.
Qed.

(** What a reservation that was refused or lost leaves of its lease. *)
Lemma reserve_cost_lease durable increases r now_us v L : cost_validated r → ttl_fits r → HasCostBudget r = true →
  CostEstimate r ≠ ""%string → represents (leases v) L →
  let id := canonicalUUID (RequestID r) in
  let '(v', reply) := reserve_cost decode (cost_args_of durable increases r) now_us v in
  ∃ L', represents (leases v') L' ∧ (∀ k l, k ≠ id → L !! k = Some l → now_us / 1000 < l_expires l → L' !! k = Some l) ∧
    if granted reply then ∃ l, L' !! id = Some l ∧ now_us / 1000 < l_expires l
    else ∀ l, L' !! id = Some l → L !! id = Some l.
Proof.
  intros Hv Hf Hb He HR id. destruct (cost_args_read durable increases r Hv Hf Hb) as (p & Hp & Ho & Hl & Hro & _ & Hpr & Hid).
  destruct (Hid He) as [Hlease _]. destruct (String.eqb_spec (CostEstimate r) ""); [done|]. cbn [negb] in Hpr.
  set (a := cost_args_of durable increases r) in *. set (now := now_us / 1000). fold id in Hlease.
  destruct (read_cost_args_spec a p Hp) as (_ & Hpp & _). destruct (Hpp Hpr) as (Httl & _ & _).
  pose proof (reserve_cost_refines decode a now_us v L p HR Hp Ho Hl Hro Hpr) as H. cbv zeta in H. fold now in H.
  destruct (reserve_cost decode a now_us v) as [v' reply]. rewrite Hlease in H. destruct H as (L0 & _ & [Hsub Hkeep] & H).
  destruct H as [ [Hg HR'] | (t & _ & _ & H) ].
  { exists L0. rewrite Hg. split; [done|]. split; [eauto|]. intros l El. by eapply lookup_weaken. }
  pose proof (spec_reserve_keeps now id (pico (p_amount p)) (p_ttl p) (room t) L0) as HK.
  assert (∀ L' o, spec_reserve now id (pico (p_amount p)) (p_ttl p) (room t) L0 = (L', o) →
    match o with Refused => ∀ l, L' !! id = Some l → L !! id = Some l | _ => ∃ l, L' !! id = Some l ∧ now < l_expires l end) as HS.
  { unfold spec_reserve. set (L1 := swept now L0). intros L' o E. destruct (opt_test (L1 !! id) _) eqn:Ec.
    - injection E as <- <-. destruct (L1 !! id) as [l|]; [|done]. cbn [opt_test] in Ec. bools. eauto.
    - destruct (room t _); injection E as <- <-; [eexists; split; [apply lookup_insert_eq|simpl; lia] |].
      intros l. destruct (opt_test _ _) in |- *; [by rewrite lookup_delete_eq|]. intros El. unfold L1 in El. apply swept_lookup in El. by eapply lookup_weaken. }
  destruct (spec_reserve _ _ _ _ _ _) as [L' o]. specialize (HS L' o eq_refl). destruct H as [HR' Hr]. exists L'. split; [done|].
  split; [intros k l Hne E El; by apply HK; [|apply Hkeep|] |].
  destruct o; cbn [reply_for] in Hr; [subst reply; exact HS..|]. by destruct Hr as (? & ? & ? & ? & _ & ->).
Qed.

Lemma tuple_granted value status detail retry day month : tuple value = Some (status, detail, retry, day, month) →
  granted value = (status =? 1).
Proof.
  destruct value as [ [|[v|] [|[st|] [|[|d] [|[rt|] [|[f|] [|[se|] [|] ] ] ] ] ] ] | |]; try done.
  cbn [tuple]. destruct (_ || _); [done|]. intros [= <- <- <- <- <-]. by destruct st as [|[]|].
Qed.

Lemma refusal_rejects detail retry res : refusal detail retry = Some res → ∃ d r e, res = CostRejected d r e.
Proof. unfold refusal. destruct (_ && _); [naive_solver|]. destruct (_ && _); [naive_solver|]. destruct (_ && _); naive_solver. Qed.

(** Only a grant is read as one, and a grant that is read as anything else is unexpected. *)
Lemma parse_granted value :
  (parseCostReservation value = Some CostGranted → granted value = true) ∧
  (granted value = true → parseCostReservation value = Some CostGranted ∨ parseCostReservation value = None).
Proof.
  unfold parseCostReservation. destruct (tuple value) as [ [ [ [ [status detail] retry] day] month] |] eqn:Et; [|split; [done|auto] ].
  rewrite (tuple_granted _ _ _ _ _ _ Et). clear Et.
  destruct (Z.eqb_spec status 1) as [->|Hs]; cbn [Z.eqb Pos.eqb andb].
  { split; [done|]. intros _. destruct (_ || _); [by right|]. destruct (_ && _); [by left|by right]. }
  split; [|done]. destruct (_ && _) in |- *; [done|]. destruct (_ || _); [done|]. destruct (status =? 0).
  { intros (d & r & e & [=])%refusal_rejects. }
  destruct (_ && _); [done|]. by destruct (_ && _).
Qed.

Lemma release_any d now_us prefix id s L : valid_lease id = true → current_time 0 now_us = Some (now_us / 1000) →
  represents (leases (keys_at s prefix)) L →
  ∃ L', represents (leases (keys_at (settleCost d now_us prefix id "0" "0" s).1 prefix)) L' ∧ (reached d = true → L' !! id = None) ∧
    ∀ k l, k ≠ id → L !! k = Some l → now_us / 1000 < l_expires l → L' !! k = Some l.
Proof.
  intros Hv Hc HR. destruct (reached d) eqn:Hd.
  - destruct (release_reached d now_us prefix id s L Hd Hv Hc HR) as (L' & H1 & H2 & H3). exists L'. auto.
  - exists L. split; [|split; [done|auto] ]. unfold settleCost, eval. destruct (settle_cost _ _ _ _ _) as [? ?]. by destruct d.
Qed.

(** Failures after which the estimate is given back. *)
Definition gives_back (e : cost_error) : bool :=
  match e with CostUnexpected | CostService true => true | _ => false end.

(** C36. An estimate is not left behind. Whatever happens on the network, a reservation that
    reports success holds the request's lease; one that the script refused, or that was never
    sent, holds nothing it did not hold before; and one that failed otherwise gives the
    estimate back: if the release reaches the server the lease is no longer held. The
    leases of other requests that are in force stay as they were in every case. *)
Theorem cost_estimate_not_leaked durable increases d d' now_us later_us r s L :
  Validate uuid_ok r = None → ttl_fits r → HasCostBudget r = true → CostEstimate r ≠ ""%string →
  represents (leases (keys_at s (prefix_of r))) L → now_us <= later_us → current_time 0 later_us = Some (later_us / 1000) →
  let id := canonicalUUID (RequestID r) in
  let '(s', out) := reserveCost durable increases false d d' now_us later_us r s in
  ∃ L', represents (leases (keys_at s' (prefix_of r))) L' ∧
    (∀ k l, k ≠ id → L !! k = Some l → later_us / 1000 < l_expires l → L' !! k = Some l) ∧
    match out with
    | inr reserved => reserved = true ∧ ∃ l, L' !! id = Some l ∧ now_us / 1000 < l_expires l
    | inl e => if gives_back e then reached d' = true → L' !! id = None else ∀ l, L' !! id = Some l → L !! id = Some l
    end.
Proof.
  intros Hval Hf Hb He HR Hle Hc id. pose proof (Validate_cost r Hval) as Hv.
  pose proof (canonical_lease _ (proj2 (cv_estimate r Hv He))) as Hvl. fold id in Hvl.
  assert (now_us / 1000 <= later_us / 1000) as Hle' by (apply Z.div_le_mono; lia).
  pose proof (reserve_cost_lease durable increases r now_us _ L Hv Hf Hb He HR) as H.
  unfold reserveCost, eval. destruct (reserve_cost _ _ now_us _) as [v' reply]. destruct H as (L1 & HR1 & Hk1 & Hg).
  assert (Hne : negb (String.eqb (CostEstimate r) "") = true) by (by destruct (String.eqb_spec (CostEstimate r) "")).
  assert (HR1' : represents (leases (keys_at (<[prefix_of r := v']> s) (prefix_of r))) L1) by (by rewrite keys_at_insert).
  assert (Hk1' : ∀ k l, k ≠ id → L !! k = Some l → later_us / 1000 < l_expires l → L1 !! k = Some l).
  { intros k l Hn E El. apply Hk1; [done..|lia]. }
  (* giving the estimate back, from either state *)
  assert (Hback : ∀ s1 L2 e, gives_back e = true → represents (leases (keys_at s1 (prefix_of r))) L2 →
    (∀ k l, k ≠ id → L !! k = Some l → later_us / 1000 < l_expires l → L2 !! k = Some l) →
    ∃ L', represents (leases (keys_at (settleCost d' later_us (prefix_of r) id "0" "0" s1).1 (prefix_of r))) L' ∧
    (∀ k l, k ≠ id → L !! k = Some l → later_us / 1000 < l_expires l → L' !! k = Some l) ∧
    if gives_back e then reached d' = true → L' !! id = None else ∀ l, L' !! id = Some l → L !! id = Some l).
  { intros s1 L2 e Hge HR2 Hk2. destruct (release_any d' later_us (prefix_of r) id s1 L2 Hvl Hc HR2) as (L' & H1 & H2 & H3).
    exists L'. split; [done|]. rewrite Hge. split; [|done]. intros k l Hn E El. apply H3; auto. }
  destruct d; rewrite ?Hne; cbn [ambiguousFailure andb negb].
  - pose proof (parse_granted reply) as [P1 P2]. unfold reserve_error.
    destruct (parseCostReservation reply) as [res|] eqn:Ep; [|by apply (Hback _ L1 CostUnexpected)].
    destruct res as [|dim retry est|miss| |].
    + exists L1. rewrite (P1 eq_refl) in Hg. by split.
    + exists L1. destruct (granted reply); [by destruct (P2 eq_refl)|]. by split.
    + exists L1. destruct (granted reply); [by destruct (P2 eq_refl)|]. by split.
    + exists L1. destruct (granted reply); [by destruct (P2 eq_refl)|]. by split.
    + by apply (Hback _ L1 CostUnexpected).
  - by apply (Hback _ L1 (CostService true)).
  - apply (Hback s L (CostService true)); auto.
  - exists L. split; [done|]. split; [by auto|]. intros l El. exact El.
Qed.
End Client.
