(* ===== verification/CostReply.v ===== *)
(** * Replies of the cost scripts are understood

    What [reserve_cost] decides on a validated request is written without the text it answers
    with ([cost_decision]), in pico-units and on the map of leases, and [parseCostReservation]
    reads the answer as that decision, provided the balances carry windows of the budget
    calendar. *)

From S2P Require Import Prelude Go Amount Limits LimitsFacts LimitsReply Civil Calendar CostAmount CostPending CostScripts CostFacts.
From S2P Require Import CostLedger CostClient.
From Stdlib Require Import Ascii.
Local Open Scope Z_scope.
Local Open Scope olp_scope.

(** A balance whose window, if it has one, is a window of a calendar: numbered from one
    and no longer than the bound the gateway accepts. *)
Definition calendar_ok (most : Z) (k : key hash) : Prop :=
  (∀ w, fields_of k !! "window"%string ≫= parse_safe = Some w → 1 <= w) ∧
  (∀ f l, fields_of k !! "starts_at"%string ≫= parse_safe = Some f →
          fields_of k !! "ends_at"%string ≫= parse_safe = Some l → l - f <= most).

Definition window_sane (most : Z) (w : window) : Prop := 1 <= w_ttl w <= most ∧ 1 <= w_id w <= MAX_SAFE_INTEGER.

Definition windows_sane (t : three) : Prop :=
  window_sane (3 * dayMS) (w_day t) ∧ window_sane maxMonthMS (w_month t) ∧ window_sane (9 * dayMS) (w_week t).

Lemma read_state_sane most k counts current now fallback : calendar_ok most k →
  1 <= fallback <= most → 1 <= current <= MAX_SAFE_INTEGER →
  let b := read_state k counts current now fallback in 1 <= b_ttl b <= most ∧ 1 <= b_window b <= MAX_SAFE_INTEGER.
Proof.
  intros [Hw Hb] Hf Hc. unfold read_state. set (h := fields_of k) in *.
  assert (∀ st a ttl w, 1 <= ttl <= most → 1 <= w <= MAX_SAFE_INTEGER →
    let b := mkBalance st a ttl w in 1 <= b_ttl b <= most ∧ 1 <= b_window b <= MAX_SAFE_INTEGER) as HB by (intros; done).
  destruct (foreign k); [by apply HB|]. destruct (forallb _ _); [by apply HB|]. destruct (negb (forallb _ _)); [by apply HB|].
  set (stored := h !! "window"%string ≫= parse_safe) in *.
  assert (∀ cur ttl, 1 <= cur <= MAX_SAFE_INTEGER → 1 <= ttl <= most →
    let b := match stored, h !! "accrued"%string ≫= parse_amount with
      | Some w, Some accrued =>
          if (w >? cur) || (counts && negb (is_some (h !! "unpriced"%string ≫= parse_safe))) then mkBalance Malformed_state (0, 0) fallback current
          else if negb (w =? cur) then mkBalance Stale_state (0, 0) fallback cur
          else mkBalance Current_state accrued ttl cur
      | _, _ => mkBalance Malformed_state (0, 0) fallback current
      end in 1 <= b_ttl b <= most ∧ 1 <= b_window b <= MAX_SAFE_INTEGER) as HJ.
  { intros cur ttl H1 H2. repeat case_match; by apply HB. }
  specialize (Hb).
  destruct (h !! "starts_at"%string) as [s1|] eqn:E1, (h !! "ends_at"%string) as [s2|] eqn:E2; try (by apply HJ);
    try (cbn [mbind option_bind]; repeat case_match; by apply HB).
  cbn [mbind option_bind]. destruct (parse_safe s1) as [first|] eqn:P1; [|by apply HB]. destruct (parse_safe s2) as [last|] eqn:P2; [|by apply HB].
  specialize (Hb first last). cbn [mbind option_bind] in Hb. specialize (Hb P1 P2).
  destruct (first >=? last) eqn:G1; [by apply HB|]. destruct ((now <? first) || (now >=? last)) eqn:G2; [by apply HB|]. bools.
  destruct stored as [w|] eqn:Es; [|by apply HB]. apply HJ; [|lia].
  specialize (Hw w eq_refl). unfold stored in Es. apply bind_Some in Es as (raw & _ & Es). apply parse_safe_bounds in Es. lia.
Qed.

Lemma read_window_sane most limit k counts current now ttl : calendar_ok most k →
  1 <= ttl <= most → 1 <= current <= MAX_SAFE_INTEGER → window_sane most (read_window limit k counts current now ttl).
Proof.
  intros Hk Ht Hc. unfold window_sane, w_ttl, w_id, read_window. cbn [w_balance].
  destruct limit; [by apply read_state_sane|done].
Qed.

Lemma month_of_day_range day : 1 <= day → 1 <= month_of_day day ∧ 28 * month_of_day day <= day + 719528.
Proof.
  intros H. pose proof (month_of_day_spec day) as S. split.
  - destruct (Z.le_gt_cases 1 (month_of_day day)); [done|]. pose proof (first_of_mono (month_of_day day + 1) 1 ltac:(lia)).
    change (first_of 1) with (-719497) in *. lia.
  - destruct (Z.le_gt_cases 0 (month_of_day day)); [|lia]. pose proof (first_of_mono 0 (month_of_day day) ltac:(lia)).
    change (first_of 0) with (-719528) in *. lia.
Qed.

Lemma current_time_range now_us now : current_time 0 now_us = Some now → now < 9007199254740000.
Proof.
  intros H. destruct (current_time_spec _ _ H) as [-> _]. unfold current_time in H. rewrite Z.gtb_ltb in H. change (0 <? 0) with false in H.
  cbv iota in H. case_in H; [done|]. bools. div_lia.
Qed.

Lemma read_windows_sane p now v : 7 * DAY_MS <= now < 9007199254740000 →
  calendar_ok (3 * dayMS) (day_key v) → calendar_ok maxMonthMS (month_key v) → calendar_ok (9 * dayMS) (week_key v) →
  windows_sane (read_windows p now v).
Proof.
  intros Hn Hd Hm Hw. unfold read_windows. pose proof (windows_bounds now) as B. pose proof (week_bounds now) as W.
  destruct (windows now) as [ [ [day month] dt] mt]. destruct B as (-> & -> & B1 & B2).
  assert (1 <= now / DAY_MS <= now) as Hday by (unfold DAY_MS in *; div_lia).
  pose proof (month_of_day_range _ (proj1 Hday)). unfold windows_sane, maxMonthMS, dayMS, MAX_SAFE_INTEGER, DAY_MS in *. cbn [w_day w_month w_week].
  split; [|split]; apply read_window_sane; try done; unfold MAX_SAFE_INTEGER; try lia. unfold week_of, DAY_MS. div_lia.
Qed.

Lemma same_shapes_sane t t' : same_shapes t t' → windows_sane t → windows_sane t'.
Proof.
  intros ( (_ & _ & T1 & I1) & (_ & _ & T2 & I2) & (_ & _ & T3 & I3) ) (S1 & S2 & S3).
  unfold windows_sane, window_sane in *. rewrite <- T1, <- T2, <- T3, <- I1, <- I2, <- I3. done.
Qed.

(** ** The decision

    What the script decides, without the text it says it in: on the windows as they are read,
    with the totals in pico-units and the leases as a map. *)

Definition cost_name (d : cost_dimension) : string :=
  match d with DailyCost => "daily_cost" | MonthlyCost => "monthly_cost" | WeeklyCost => "weekly_cost" end.

Definition longest_retry (d : cost_dimension) : Z :=
  match d with DailyCost => 3 * dayMS | MonthlyCost => maxMonthMS | WeeklyCost => 9 * dayMS end.

Definition dim_window (t : three) (d : cost_dimension) : window :=
  match d with DailyCost => w_day t | MonthlyCost => w_month t | WeeklyCost => w_week t end.

Definition dimensions : list cost_dimension := [DailyCost; MonthlyCost; WeeklyCost].

(** The first dimension refused, and the one to wait longest for, the first of equals. *)
Definition first_dimension (f : window → option Z) (t : three) : option (cost_dimension * Z) :=
  head (omap (λ d, pair d <$> f (dim_window t d)) dimensions).

Definition longest_dimension (f : window → option Z) (t : three) : option (cost_dimension * Z) :=
  foldl (λ best d,
    match f (dim_window t d), best with
    | Some z, Some (_, most) => if most <? z then Some (d, z) else best
    | Some z, None => Some (d, z)
    | None, _ => best
    end) None dimensions.

(** A window that is spent to its limit, until it ends. *)
Definition full (w : window) : option Z :=
  match w_limit w with Some l => if pico l <=? pico (w_spent w) then Some (w_ttl w) else None | None => None end.

(** A window without room for the other leases and the request: until it ends, or a while if the
    request would fit without them. *)
Definition no_room (others n : Z) (w : window) : option Z :=
  match w_limit w with
  | Some l =>
      if pico (w_spent w) + others + n <=? pico l then None
      else Some (if pico (w_spent w) + n <=? pico l then Z.min (w_ttl w) PENDING_RETRY_MS else w_ttl w)
  | None => None
  end.

(** The provisional exposure: unreadable, blocked or an amount. *)
Definition exposure (k : key hash) : cost_result + amount :=
  let h := fields_of k in
  if foreign k || negb (is_some (h !! "version"%string ≫= parse_safe)) then inl (CostUninitialized true)
  else
    match h !! "amount"%string ≫= parse_amount, h !! "blocked"%string with
    | Some a, Some blocked =>
        if String.eqb blocked "1" then inl (CostUninitialized false)
        else if String.eqb blocked "0" then inr a else inl CostMalformed
    | _, _ => inl CostMalformed
    end.

Definition exposed (durable : bool) (k : key hash) (t : three) : cost_result + three :=
  if durable then
    match exposure k with
    | inl r => inl r
    | inr a => inr (mkThree (spend a (w_day t)) (spend a (w_month t)) (spend a (w_week t)))
    end
  else inr t.

Definition pending_decision (a : cost_args) (p : cost_plan) (now : Z) (t : three) (L : ledger) : cost_result :=
  if negb (priced p) then CostGranted
  else
    let L := swept now L in
    if opt_test (L !! c_lease a) (λ l, (now <? l_expires l) && (pico (p_amount p) <=? l_amount l)) then CostGranted
    else match longest_dimension (no_room (total (delete (c_lease a) L)) (pico (p_amount p))) t with
         | Some (d, wait) => CostRejected d wait true
         | None => CostGranted
         end.

Definition cost_decision (decode : string → option (list grant)) (a : cost_args) (p : cost_plan) (now : Z)
    (v : cost_keys) (L : ledger) : cost_result :=
  let t := read_windows p now v in
  match first_dimension malformed t, grant_windows decode a now t with
  | Some _, _ => CostMalformed
  | None, None => CostScriptFailure
  | None, Some t =>
      match exposed (c_durable a) (durable_key v) t with
      | inl r => r
      | inr t =>
          match first_dimension full t, first_dimension uninitialized t with
          | Some (d, wait), _ => CostRejected d wait false
          | None, Some _ => CostUninitialized false
          | None, None => pending_decision a p now t L
          end
      end
  end.

(** The script's tests, by dimension. *)
Definition named : cost_dimension * Z → string * Z := λ e, (cost_name e.1, e.2).

Lemma first_window_named f t : first_window f t = named <$> first_dimension f t.
Proof. unfold first_window, first_dimension. cbn. repeat case_match; simplify_eq/=; done. Qed.

Lemma longest_wait_named held amount t : longest_wait held amount t = named <$> longest_dimension (wait_for held amount) t.
Proof.
  unfold longest_wait, longest_dimension. cbn.
  destruct (wait_for held amount (w_day t)) as [x|], (wait_for held amount (w_month t)) as [y|], (wait_for held amount (w_week t)) as [z|];
    cbn; rewrite ?Z.gtb_ltb; try done; repeat (case_match; cbn; rewrite ?Z.gtb_ltb); simplify_eq/=; try done; congruence.
Qed.

Lemma first_dimension_ext f g t : each (λ w, f w = g w) t → first_dimension f t = first_dimension g t.
Proof. intros (H1 & H2 & H3). unfold first_dimension. cbn. by rewrite H1, H2, H3. Qed.

Lemma longest_dimension_ext f g t : each (λ w, f w = g w) t → longest_dimension f t = longest_dimension g t.
Proof. intros (H1 & H2 & H3). unfold longest_dimension. cbn. by rewrite H1, H2, H3. Qed.

Lemma first_dimension_some f t d z : first_dimension f t = Some (d, z) → f (dim_window t d) = Some z.
Proof.
  unfold first_dimension. cbn. destruct (f (w_day t)) as [x|] eqn:E1, (f (w_month t)) as [y|] eqn:E2, (f (w_week t)) as [w|] eqn:E3;
    cbn; intros H; by simplify_eq.
Qed.

Lemma longest_dimension_some f t d z : longest_dimension f t = Some (d, z) → f (dim_window t d) = Some z.
Proof.
  unfold longest_dimension. cbn. destruct (f (w_day t)) as [x|] eqn:E1, (f (w_month t)) as [y|] eqn:E2, (f (w_week t)) as [w|] eqn:E3;
    cbn; intros H; repeat case_match; by simplify_eq.
Qed.

Lemma full_spent_out w : window_ok 25 w → spent_out false w = full w.
Proof.
  intros [Hs Hl]. unfold spent_out, full, limited. destruct (w_limit w) as [l|]; [|done]. destruct (Hl l eq_refl) as [Hw _].
  pose proof (compare_amount_ge (w_spent w) l Hs Hw) as Hc. rewrite Z.gtb_ltb.
  destruct (Z.ltb_spec (-1) (compare_amount (w_spent w) l)), (Z.leb_spec (pico l) (pico (w_spent w))); try done; lia.
Qed.

Lemma no_room_wait held amount others n w : window_ok 25 w → amount_wf held → amount_wf amount → pico held = Z.min CEILING (others + n) →
  pico amount = n → 0 <= others → 0 <= n → wait_for held amount w = no_room others n w.
Proof.
  intros Hw Hh Ha Eh En Ho Hn. pose proof (amount_wf_range _ Ha) as Hr. pose proof (has_room_held w held (others + n) Hw Hh Eh ltac:(lia)) as H1.
  pose proof (has_room_held w amount n Hw Ha ltac:(lia) Hn) as H2. unfold wait_for, no_room, limited, has_room in *.
  destruct (w_limit w) as [l|]; [|done]. rewrite H1, H2, Z.add_assoc. by repeat case_match.
Qed.

Lemma exposed_durable (d : bool) (k : key hash) (t : three) : (if d then read_durable k t else inr t) =
  match exposed d k t with
  | inl (CostUninitialized true) => inl "uninitialized_durable_cost_state"%string
  | inl (CostUninitialized false) => inl "unsettled_durable_cost_state"%string
  | inl _ => inl "malformed_durable_cost_state"%string
  | inr t => inr t
  end.
Proof. unfold exposed, exposure, read_durable. by repeat (case_match; simplify_eq). Qed.

(** ** Reading a reply *)

Definition shown (day month : Z) : Prop := 1 <= day <= MAX_SAFE_INTEGER ∧ 1 <= month <= MAX_SAFE_INTEGER.

Lemma tuple_answer status detail retry day month : 0 <= retry <= MAX_SAFE_INTEGER → shown day month →
  tuple (cost_answer status detail retry day month) = Some (status, detail, retry, day, month).
Proof.
  intros Hr [Hd Hm]. unfold tuple, cost_answer, luaSafe. rewrite !Z.geb_leb.
  rewrite !(proj2 (Z.leb_le _ _)) by lia. done.
Qed.

Lemma parse_ok day month : shown day month → parseCostReservation (cost_answer 1 "ok" 0 day month) = Some CostGranted.
Proof.
  intros H. unfold parseCostReservation. rewrite tuple_answer by (unfold MAX_SAFE_INTEGER; done || lia).
  destruct H as [Hd Hm]. cbn [Z.eqb Pos.eqb andb]. rewrite !(proj2 (Z.ltb_ge _ _)) by lia. done.
Qed.

(** The states the script names, and what the gateway takes them for. *)
Definition named_states : list (string * cost_result) :=
  [("unsettled_durable_cost_state", CostUninitialized false); ("uninitialized_durable_cost_state", CostUninitialized true);
   ("malformed_durable_cost_state", CostMalformed)]%string ++
  map (λ d, ("uninitialized_" +:+ cost_name d +:+ "_state", CostUninitialized false)%string) dimensions ++
  map (λ d, ("malformed_" +:+ cost_name d +:+ "_state", CostMalformed)%string) dimensions.

Lemma parse_state detail res day month : shown day month → (detail, res) ∈ named_states →
  parseCostReservation (cost_answer (-1) detail 0 day month) = Some res.
Proof.
  intros H Hd. unfold parseCostReservation. rewrite tuple_answer by (unfold MAX_SAFE_INTEGER; done || lia).
  destruct H as [H1 H2]. rewrite !(proj2 (Z.ltb_ge _ _)), !(proj2 (Z.eqb_neq day 0)) by lia. cbn [Z.eqb Pos.eqb andb orb].
  unfold named_states, dimensions in Hd. cbn [app map cost_name] in Hd.
  repeat (apply elem_of_cons in Hd as [ [= -> ->] |Hd]; [vm_compute; reflexivity|]). by apply not_elem_of_nil in Hd.
Qed.

Lemma dimension_state d prefix res : (prefix = "malformed_"%string ∧ res = CostMalformed) ∨ (prefix = "uninitialized_"%string ∧ res = CostUninitialized false) →
  (prefix +:+ cost_name d +:+ "_state", res)%string ∈ named_states.
Proof. intros [ [-> ->] | [-> ->] ]; unfold named_states; rewrite !elem_of_app; right; [right|left]; destruct d; set_solver. Qed.

Lemma parse_refusal d retry (est : bool) day month : shown day month → 1 <= retry <= longest_retry d →
  parseCostReservation (cost_answer 0 (if est then cost_name d +:+ "_estimate" else cost_name d)%string retry day month) = Some (CostRejected d retry est).
Proof.
  intros H Hd. unfold parseCostReservation. rewrite tuple_answer by (done || (unfold MAX_SAFE_INTEGER, longest_retry, maxMonthMS, dayMS in *; destruct d; lia)).
  destruct H as [H1 H2]. rewrite !(proj2 (Z.ltb_ge _ _)) by lia. cbn [Z.eqb Pos.eqb andb orb].
  unfold refusal. rewrite !Z.geb_leb, (proj2 (Z.leb_le 1 retry)) by lia.
  destruct d; cbn [longest_retry] in Hd.
  - rewrite (proj2 (Z.leb_le retry (3 * dayMS))) by lia. by destruct est.
  - rewrite (proj2 (Z.leb_le retry (9 * dayMS))) by lia. by destruct est.
  - rewrite (proj2 (Z.leb_le retry maxMonthMS)) by lia. by destruct est.
Qed.

(** A window that refuses after its own remaining time, or less than a second. *)
Definition waits (f : window → option Z) : Prop :=
  ∀ w z, f w = Some z → z = w_ttl w ∨ z = Z.min (w_ttl w) PENDING_RETRY_MS.

Lemma full_waits : waits full.
Proof. unfold waits, full. intros w z E. repeat case_match; naive_solver. Qed.

Lemma no_room_waits others n : waits (no_room others n).
Proof. unfold waits, no_room. intros w z E. repeat case_match; naive_solver. Qed.

#[export] Hint Resolve full_waits no_room_waits : olp.

Lemma waits_sane f t d z : waits f → windows_sane t → f (dim_window t d) = Some z → 1 <= z <= longest_retry d.
Proof.
  intros Hf (S1 & S2 & S3) E. assert (window_sane (longest_retry d) (dim_window t d)) as [Ht _] by by destruct d.
  destruct (Hf _ z E) as [-> | ->]; unfold PENDING_RETRY_MS; lia.
Qed.

Lemma sane_shown t : windows_sane t → shown (w_id (w_day t)) (w_id (w_month t)).
Proof. intros ( [_ H1] & [_ H2] & _). done. Qed.

Lemma decide_pending_read a p now t v L : windows_sane t → each (window_ok 25) t → represents (leases v) L → amount_wf (p_amount p) →
  (priced p = true → valid_lease (c_lease a) = true ∧ 0 < pico (p_amount p)) → p_read_only p = false →
  parseCostReservation (decide_pending a p now now t v).2 = Some (pending_decision a p now t L).
Proof.
  intros Ht Hok HR Ha Hv Hro. pose proof (sane_shown t Ht) as Hs. unfold decide_pending, pending_decision. rewrite Hro.
  destruct (priced p) eqn:Hp; cbn [negb snd]; [|by apply parse_ok]. destruct (Hv eq_refl) as [Hl Hpos].
  pose proof (pending_total_represents now (leases v) L HR) as HT. destruct (pending_total now false (leases v)) as [q sum].
  destruct HT as (-> & HQ & _). rewrite (without_lease_spec p (c_lease a) now q _ HQ Ha Hl).
  destruct (opt_test _ _) in |- *; cbn [snd]; [by apply parse_ok|].
  set (L1 := delete (c_lease a) (swept now L)). pose proof (represents_wf _ _ HQ) as HL1.
  pose proof (total_wf L1 ltac:(unfold L1; auto with olp)) as Hw. pose proof (total_nonneg L1 ltac:(unfold L1; auto with olp)) as H0.
  destruct (add_amount_spec _ _ Hw Ha) as [Hwa Hea]. rewrite pico_of_pico in Hea.
  rewrite longest_wait_named, (longest_dimension_ext _ (no_room (total L1) (pico (p_amount p)))).
  2:{ destruct Hok as (O1 & O2 & O3). split; [|split]; apply no_room_wait; done || lia. }
  destruct (longest_dimension _ t) as [ [d wait] |] eqn:E; cbn [fmap option_fmap option_map named fst snd]; [|by apply parse_ok].
  apply (parse_refusal d wait true); [done|]. apply longest_dimension_some in E. eapply waits_sane; [|done|done]. auto with olp.
Qed.

Lemma reserve_cost_read decode a now_us v L p : read_cost_args a = Some p → p_override p = 0 → p_read_only p = false → p_verify p = false →
  let now := now_us / 1000 in
  current_time 0 now_us = Some now → 7 * DAY_MS <= now → represents (seen now (leases v)) L →
  (∀ t, grant_windows decode a now t ≠ None) →
  calendar_ok (3 * dayMS) (live now (day_key v)) → calendar_ok maxMonthMS (live now (month_key v)) →
  calendar_ok (9 * dayMS) (live now (week_key v)) →
  parseCostReservation (reserve_cost decode a now_us v).2 = Some (cost_decision decode a p now (seen_keys now v) L) ∧
  cost_decision decode a p now (seen_keys now v) L ≠ CostScriptFailure.
Proof.
  intros Hp Ho Hro Hve now Hc Hn HR Hg Cd Cm Cw. pose proof (current_time_range _ _ Hc) as Hlt.
  destruct (read_cost_args_spec a p Hp) as (Ha & Hpp & _).
  unfold reserve_cost. rewrite Hp, Ho, Hc. fold now. set (v1 := seen_keys now v) in *.
  pose proof (read_windows_sane p now v1 ltac:(lia) Cd Cm Cw) as Hs. pose proof (sane_shown _ Hs) as Hsh.
  pose proof (windows_bounds now) as B. destruct (windows now) as [ [ [day month] dt] mt]. destruct B as (Ed & Em & B1 & B2).
  rewrite !(proj2 (Z.ltb_ge _ _)) by lia. cbn [orb].
  assert (shown (w_id (w_day (read_windows p now v1))) month) as Hsh'.
  { split; [apply Hsh|]. assert (1 <= day <= now) as Hd by (subst day; unfold DAY_MS in *; div_lia).
    pose proof (month_of_day_range day (proj1 Hd)). unfold MAX_SAFE_INTEGER. lia. }
  unfold cost_decision. rewrite !first_window_named.
  destruct (first_dimension malformed (read_windows p now v1)) as [ [d z] |] eqn:Em1; cbn [fmap option_fmap option_map named fst snd].
  { split; [|done]. destruct (is_some _); (apply parse_state; [done|apply dimension_state; auto]). }
  destruct (grant_windows decode a now (read_windows p now v1)) as [t|] eqn:Eg; [|by destruct (Hg (read_windows p now v1))].
  assert (same_shapes (read_windows p now v1) t) as Hsame.
  { unfold grant_windows in Eg. destruct (c_extra a) as [ [w [raw|] ] |]; try (by simplify_eq).
    destruct (String.eqb raw ""); [by simplify_eq|]. destruct (decode raw) as [gs|]; [|done]. case_in Eg; [done|]. by eapply apply_grants_shapes. }
  pose proof (same_shapes_sane _ _ Hsame Hs) as Ht. pose proof (sane_shown _ Ht) as Htsh.
  rewrite exposed_durable. destruct (exposed (c_durable a) (durable_key v1) t) as [res|t2] eqn:Er.
  { assert (res ≠ CostScriptFailure ∧ (res = CostUninitialized true ∨ res = CostUninitialized false ∨ res = CostMalformed)) as [Hne Hres]
      by (unfold exposed, exposure in Er; repeat (case_match; simplify_eq; auto)).
    split; [|done]. destruct Hres as [-> |[-> | ->] ]; cbn [snd]; (apply parse_state; [done|unfold named_states; set_solver]). }
  assert (judged decode a p now v1 = Some t2) as Hj.
  { unfold judged. rewrite Eg. pose proof (exposed_durable (c_durable a) (durable_key v1) t) as X. rewrite Er in X.
    destruct (c_durable a); [by rewrite X|congruence]. }
  pose proof (judged_ok _ _ _ _ _ _ Hp Hj) as Hok.
  assert (windows_sane t2) as Ht2.
  { apply (same_shapes_sane t); [|done]. unfold exposed in Er. by repeat (case_match; simplify_eq). }
  pose proof (sane_shown _ Ht2) as Htsh2. rewrite !first_window_named, Hve.
  rewrite (first_dimension_ext (spent_out false) full) by (destruct Hok as (O1 & O2 & O3); split; [|split]; by apply full_spent_out).
  destruct (first_dimension full t2) as [ [d wait] |] eqn:Es; cbn [fmap option_fmap option_map named fst snd].
  { split; [|done]. apply (parse_refusal d wait false); [done|]. apply first_dimension_some in Es. eapply waits_sane; [|done|done]. auto with olp. }
  destruct (first_dimension uninitialized t2) as [ [d wait] |] eqn:Eu; cbn [fmap option_fmap option_map named fst snd].
  { split; [|done]. apply parse_state; [done|apply dimension_state; auto]. }
  split; [|unfold pending_decision; by repeat case_match].
  apply decide_pending_read; try done. intros Hpr. by destruct (Hpp Hpr) as (_ & ? & ?).
Qed.

(** The decision as the gateway reports it. *)
Definition reported (basis : string) (decided : cost_result) : option cost_error :=
  match decided with
  | CostGranted => None
  | CostRejected d wait estimate => Some (CostExceeded d (wait * Millisecond) estimate basis)
  | CostUninitialized _ => Some CostUninitializedErr
  | CostMalformed => Some CostMalformedErr
  | CostScriptFailure => Some CostUnexpected
  end.

Lemma granted_parsed r : granted r = true ∧ parseCostReservation r ≠ None ↔ parseCostReservation r = Some CostGranted.
Proof.
  unfold parseCostReservation. split.
  - intros [Hg Hn]. destruct (tuple r) as [ [ [ [ [status detail] retry] day] month] |] eqn:E; [|done].
    assert (status = 1) as ->.
    { unfold tuple in E. unfold granted in Hg. repeat (case_match; simplify_eq; try done). }
    cbn [Z.eqb Pos.eqb andb] in *. destruct ((day <? 1) || (month <? 1)); [done|]. by destruct (String.eqb detail "ok" && (retry =? 0)).
  - intros E. rewrite E. split; [|done]. destruct (tuple r) as [ [ [ [ [status detail] retry] day] month] |] eqn:Et; [|done].
    assert (status = 1) as ->.
    { destruct (Z.eqb_spec status 1) as [|]; [done|]. cbn [andb] in E.
      destruct (_ && Contains ["invalid_arguments"; "invalid_server_time"]%string detail); [done|].
      destruct ((day <? 1) || (month <? 1)); [done|]. destruct (status =? 0); [|by repeat case_match].
      unfold refusal in E. destruct (_ && (retry <=? 3 * dayMS)); [done|]. destruct (_ && (retry <=? 9 * dayMS)); [done|].
      by destruct (_ && (retry <=? maxMonthMS)). }
    unfold tuple in Et. unfold granted. by repeat (case_match; simplify_eq).
Qed.

(** C38. The reply to a reservation is read as the decision it is. For every request that passes
    validation, whose lease and grace are a duration and whose grants the server accepts, at any
    time from the second week of 1970 on, where the leases in flight are those of a map and the
    balances carry windows of a calendar (numbered from one and no longer than three days, 33
    days and nine days), initialised or not, malformed, spent or free: the gateway reads the
    script's reply as what the script decided. It reports no error exactly when the request was
    granted; a refusal as the dimension that refused, with the very wait the script gave and
    whether the estimate was what did not fit: the first window spent to its limit, else the one
    to wait longest for, for the other leases and the request to fit; a balance or an exposure
    that is not initialised, or malformed, as that; and never an unexpected response. *)
Theorem cost_reply_understood uuid_ok canonicalUUID decode durable increases r now_us v L :
  (∀ id, uuid_ok id = true → valid_lease (canonicalUUID id) = true) →
  let now := now_us / 1000 in
  Validate uuid_ok r = None → ttl_fits r → HasCostBudget r = true → current_time 0 now_us = Some now → 7 * DAY_MS <= now →
  (increases ≠ ""%string → ∃ gs, decode increases = Some gs ∧ (length gs ≤ 24)%nat ∧ Forall (λ g, grant_ok g ≠ None) gs) →
  represents (seen now (leases v)) L →
  calendar_ok (3 * dayMS) (live now (day_key v)) → calendar_ok maxMonthMS (live now (month_key v)) →
  calendar_ok (9 * dayMS) (live now (week_key v)) →
  let a := cost_args_of canonicalUUID durable increases r in
  let reply := (reserve_cost decode a now_us v).2 in
  ∃ p, read_cost_args a = Some p ∧ priced p = negb (String.eqb (CostEstimate r) "") ∧
    let decided := cost_decision decode a p now (seen_keys now v) L in
    reserve_error (CostBasis r) reply = reported (CostBasis r) decided ∧
    reserve_error (CostBasis r) reply ≠ Some CostUnexpected ∧
    (granted reply = true ↔ decided = CostGranted).
Proof.
  intros Hcan now Hval Hf Hb Hc Hn Hgs HR Cd Cm Cw a reply.
  destruct (cost_args_read canonicalUUID uuid_ok Hcan durable increases r (Validate_cost uuid_ok r Hval) Hf Hb)
    as (p & Hp & Ho & _ & Hro & Hve & Hpr & _). fold a in Hp.
  assert (∀ t, grant_windows decode a now t ≠ None) as Hg.
  { intros t. unfold grant_windows.
    assert (∀ raw, c_extra a = Some raw → raw.2 = Some increases ∨ raw.2 = None) as Hx.
    { unfold a, cost_args_of. intros raw. destruct (String.eqb (CostEstimate r) ""), durable, (negb (String.eqb increases "")), (WeeklyCostLimit r);
        cbn [c_extra]; naive_solver. }
    destruct (c_extra _) as [ [w [raw|] ] |]; [|done..]. destruct (Hx _ eq_refl) as [ [= ->] |[=] ].
    destruct (String.eqb_spec increases ""); [done|]. destruct (Hgs ltac:(done)) as (gs & -> & Hl & HF).
    destruct (Nat.ltb_spec 24 (length gs)); [lia|]. clear -HF. revert t. induction HF as [|g gs Hg HF IH]; intros t; cbn [apply_grants]; [done|].
    unfold apply_grant. by destruct (grant_ok g) as [ [ [ [? ?] ?] ?] |]. }
  destruct (reserve_cost_read decode a now_us v L p Hp Ho Hro Hve Hc Hn HR Hg Cd Cm Cw) as [Hres Hne]. fold now reply in Hres, Hne.
  exists p. split; [done|]. split; [done|]. cbv zeta. set (decided := cost_decision decode a p now (seen_keys now v) L) in *.
  pose proof (granted_parsed reply) as Hgp. rewrite Hres in Hgp. unfold reserve_error. rewrite Hres.
  split; [by destruct decided|]. split; [by destruct decided|].
  split; [intros Hgr; assert (Some decided = Some CostGranted) as [= ->] by by apply Hgp|intros Hd; apply Hgp; by rewrite Hd]. done.
Qed.

(** A request for 0.25 of a daily limit of 10, with the keys of an owner that has spent 9.5,
    and canonical text that is a UUID. *)
Definition sample_request : Request :=
  mkRequest "cost" "0190c2a0-0000-7000-8000-0000000000aa" "lookup_0001" None None None false (Some "10"%string) None None 0
    (Minute) "0.25" sample_lease 0 false (mkShareOf "" 0 0).

Definition only_sample (id : string) : bool := String.eqb id sample_lease || String.eqb id "0190c2a0-0000-7000-8000-0000000000aa".

Lemma sample_canonical id : only_sample id = true → valid_lease ((λ id : string, id) id) = true.
Proof. unfold only_sample. intros [E|E]%orb_true_iff; apply String.eqb_eq in E; subst id; vm_compute; reflexivity. Qed.

Lemma sample_calendar : calendar_ok (3 * dayMS) (live 1711886400000 (day_key sample_keys)).
Proof.
  split.
  - intros w H. change (fields_of (live 1711886400000 (day_key sample_keys)) !! "window"%string ≫= parse_safe) with (Some 19813) in H.
    injection H as <-. lia.
  - intros f l H. change (fields_of (live 1711886400000 (day_key sample_keys)) !! "starts_at"%string ≫= parse_safe) with (@None Z) in H.
    discriminate H.
Qed.

Lemma missing_calendar most : calendar_ok most Missing.
Proof. split; [intros w H; discriminate H|intros f l H; discriminate H]. Qed.

(** The same balance beside a lease in force of 0.4, so that the request does not fit for now. *)
Definition busy_ledger : ledger := {[ "0190c2a0-0000-7000-8000-000000000002"%string := mkLease 400000000000 1711886460000 ]}.
Definition busy_keys : cost_keys :=
  with_leases sample_keys (mkPending (Holds (hash_of busy_ledger) (Some 1711886461000)) (Holds (l_expires <$> busy_ledger) (Some 1711886461000))).

Lemma busy_represents : represents (seen 1711886400000 (leases busy_keys)) busy_ledger.
Proof.
  change (seen 1711886400000 (leases busy_keys)) with (leases busy_keys). apply represents_held.
  - split; [apply map_Forall_singleton; split; [vm_compute; reflexivity|cbn; lia]|vm_compute; reflexivity].
  - apply map_non_empty_singleton.
  - apply map_Forall_singleton. cbn. lia.
Qed.

Lemma cost_reply_understood_witness :
  let refused := (reserve_cost no_grants (cost_args_of (λ id, id) false "" sample_request) sample_us busy_keys).2 in
  Validate only_sample sample_request = None ∧
  reserve_error "cost" (reserve_cost no_grants (cost_args_of (λ id, id) false "" sample_request) sample_us sample_keys).2 = None ∧
  reserve_error "cost" refused = Some (CostExceeded DailyCost (1000 * Millisecond) true "cost").
Proof.
  intros refused. assert (Validate only_sample sample_request = None) as Hv by (vm_compute; reflexivity). split; [exact Hv|].
  assert (∀ v L, represents (seen 1711886400000 (leases v)) L → day_key v = day_key sample_keys → month_key v = Missing → week_key v = Missing →
    ∃ p, read_cost_args (cost_args_of (λ id, id) false "" sample_request) = Some p ∧
      reserve_error "cost" (reserve_cost no_grants (cost_args_of (λ id, id) false "" sample_request) sample_us v).2 =
      reported "cost" (cost_decision no_grants (cost_args_of (λ id, id) false "" sample_request) p 1711886400000 (seen_keys 1711886400000 v) L)) as H.
  { intros v L HR Ed Em Ew.
    destruct (cost_reply_understood only_sample (λ id, id) no_grants false "" sample_request sample_us v L
      sample_canonical Hv ltac:(vm_compute; discriminate) eq_refl ltac:(vm_compute; reflexivity) ltac:(vm_compute; discriminate)
      ltac:(intros H; destruct (H eq_refl)) HR ltac:(rewrite Ed; exact sample_calendar) ltac:(rewrite Em; exact (missing_calendar _))
      ltac:(rewrite Ew; exact (missing_calendar _))) as (p & Hp & _ & H & _).
    exists p. split; [exact Hp|exact H]. }
  assert (∀ p, read_cost_args (cost_args_of (λ id, id) false "" sample_request) = Some p →
    p = mkPlan (Some (10, 0)) None None 0 false false (0, 250000000000) 360000) as Hp.
  { intros p E. vm_compute in E. injection E as <-. reflexivity. }
  split.
  - destruct (H sample_keys ∅ represents_empty eq_refl eq_refl eq_refl) as (p & Ep & E). rewrite E, (Hp p Ep). vm_compute. reflexivity.
  - destruct (H busy_keys busy_ledger busy_represents eq_refl eq_refl eq_refl) as (p & Ep & E). unfold refused. rewrite E, (Hp p Ep).
    vm_compute. reflexivity.
Defined.

(** The reply of the sample reservation is lost and the estimate given back. *)
Lemma cost_estimate_not_leaked_witness :
  let s : store := {[ prefix_of "olp" (λ id, id) sample_request := sample_keys ]} in
  ∃ L', represents (leases (keys_at (reserveCost "olp" (λ id, id) (λ id, id) no_grants false "" false ReplyLost Delivered
      sample_us sample_us sample_request s).1 (prefix_of "olp" (λ id, id) sample_request))) L' ∧ L' !! sample_lease = None.
Proof.
  intros s. assert (Validate only_sample sample_request = None) as Hv by (vm_compute; reflexivity).
  pose proof (cost_estimate_not_leaked "olp" (λ id, id) (λ id, id) only_sample no_grants sample_canonical false "" ReplyLost Delivered
    sample_us sample_us sample_request s ∅ Hv ltac:(vm_compute; discriminate) eq_refl ltac:(vm_compute; discriminate)
    ltac:(unfold keys_at, s; rewrite lookup_singleton_eq; exact represents_empty) ltac:(lia) ltac:(vm_compute; reflexivity)) as H.
  assert (∃ e, (reserveCost "olp" (λ id, id) (λ id, id) no_grants false "" false ReplyLost Delivered sample_us sample_us sample_request s).2 = inl e ∧
    gives_back e = true) as (e & He & Hg).
  { exists (CostService true). split; [|reflexivity]. unfold reserveCost, eval. destruct (reserve_cost _ _ _ _). reflexivity. }
  destruct (reserveCost "olp" (λ id, id) (λ id, id) no_grants false "" false ReplyLost Delivered sample_us sample_us sample_request s) as [s' out].
  cbn [fst snd] in *. subst out. destruct H as (L' & H1 & _ & H3). rewrite Hg in H3. exists L'. split; [exact H1|exact (H3 eq_refl)].
Defined.
