(* ===== verification/CostLease.v ===== *)
(** * Leases on cost budgets

    A granted reservation as the gateway keeps it ([Lease] of [internal/limits/limits.go]):
    the estimate held against the key's owner and, through [Attach], against the budget
    groups', a chain that one handle grows, settles and gives back. Settlements that
    release are retried, since the script is idempotent for a lease; the others are one
    attempt. The network decides each attempt of each owner: it is a function from the
    owner's key prefix to how its attempts fare and at which times of the server. *)

From S2P Require Import Prelude Go Amount Limits LimitsFacts LimitsReply CostAmount CostPending CostScripts CostFacts CostLedger.
From S2P Require Import CostClient.
From Stdlib Require Import Ascii.
Local Open Scope Z_scope.
Local Open Scope olp_scope.

Record CostLease := mkCostLease {
  costRequest : option Request; costReserved : bool; pendingPrefix : string; costID : string; lease_grace : Duration; actualCost : string;
}.

(** A lease, then the group attached to it, and so on. *)
Notation chain := (list CostLease).

Definition Attach (le group : chain) : chain := match le, group with [], _ | _, [] => le | _, _ => le ++ group end.

Definition HasCostReservation (le : chain) : bool := existsb costReserved le.

Definition CostOwnerIDs (le : chain) : list string :=
  flat_map (λ c, match costRequest c with Some r => [CostOwnerID r] | None => [] end) le.

Definition costBasis (c : CostLease) : string := match costRequest c with Some r => CostBasis r | None => "" end.

Definition SetActualCost (cost charge : string) (le : chain) : chain :=
  (λ c, mkCostLease (costRequest c) (costReserved c) (pendingPrefix c) (costID c) (lease_grace c) (Pick (costBasis c) cost charge)) <$> le.

(** [strings.Replace(s, ".", "", 1)] *)
Definition without_point (s : string) : string := let '(b, a, _) := Cut s "." in (b +:+ a)%string.

Definition zeroAmount (amount : string) : bool :=
  let digits := without_point amount in negb (String.eqb digits "") && trims_to_empty digits "0".

Notation attempts := (list (delivery * Z)).

(** [cleanup] of a release: attempts until one succeeds, and the last error. *)
Fixpoint cleanup (tries : attempts) (prefix id : string) (s : store) : store * option cost_error :=
  match tries with
  | [] => (s, Some (CostService false))
  | (d, now_us) :: rest =>
      match settleCost d now_us prefix id "0" "0" s with
      | (s, None) => (s, None)
      | (s, Some e) => match rest with [] => (s, Some e) | _ => cleanup rest prefix id s end
      end
  end.

Definition cleanupAttempts : nat := 3.

(** [SettleCost] of one lease: its errors are joined. *)
Definition settle_one (net : string → attempts) (c : CostLease) (s : store) : store * list cost_error :=
  if negb (costReserved c) || String.eqb (actualCost c) "" then (s, [])
  else
    let '(s, e) :=
      if zeroAmount (actualCost c) then cleanup (take cleanupAttempts (net (pendingPrefix c))) (pendingPrefix c) (costID c) s
      else match net (pendingPrefix c) with
           | [] => (s, Some (CostService false))
           | (d, now_us) :: _ =>
               settleCost d now_us (pendingPrefix c) (costID c) (actualCost c) (FormatInt (Z.max (Milliseconds (lease_grace c)) 1)) s
           end in
    (s, match e with Some e => [e] | None => [] end).

(** The group's lease first. *)
Fixpoint SettleCost (net : string → attempts) (le : chain) (s : store) : store * list cost_error :=
  match le with
  | [] => (s, [])
  | c :: group =>
      let '(s, errs) := SettleCost net group s in
      let '(s, errs') := settle_one net c s in (s, errs ++ errs')
  end.

(** [abandonCost]: one attempt when the outcome is unknown, else a cleanup. *)
Definition abandonCost (net : string → attempts) (ambiguous : bool) (c : CostLease) (s : store) : store :=
  if negb (costReserved c) then s
  else (cleanup (take (if ambiguous then 1 else cleanupAttempts) (net (pendingPrefix c))) (pendingPrefix c) (costID c) s).1.

(** The cost part of [Refund]. *)
Fixpoint RefundCost (net : string → attempts) (le : chain) (s : store) : store * list cost_error :=
  match le with
  | [] => (s, [])
  | c :: group =>
      let '(s, errs) := RefundCost net group s in
      if negb (costReserved c) then (s, errs)
      else
        let '(s, e) := cleanup (take cleanupAttempts (net (pendingPrefix c))) (pendingPrefix c) (costID c) s in
        (s, errs ++ match e with Some e => [e] | None => [] end)
  end.

Section Grow.
Context (namespace : string) (simpleUUID canonicalUUID : string → string) (decode : string → option (list grant)).

(** The request of a lease at a new total, identifier and life. *)
Definition grown (r : Request) (cost charge requestID : string) (ttl : Duration) : Request :=
  mkRequest (CostBasis r) (CostOwnerID r) (LookupID r) (RequestsPerMinute r) (TokensPerMinute r) (MaxConcurrency r) (TrackConcurrency r)
    (DailyCostLimit r) (MonthlyCostLimit r) (WeeklyCostLimit r) (RequestedTokens r) ttl (Pick (CostBasis r) cost charge) requestID
    (CostGrace r) (ReportRate r) (Req_Share r).

(** [GrowCost]: the group's lease first, and an error stops there. The two attempts of a
    reservation are its own and the release of one that is not retained. *)
Fixpoint GrowCost (durable : bool) (increases : string → string) (net : string → (delivery * Z) * (delivery * Z)) (cost charge requestID : string)
    (ttl : Duration) (le : chain) (s : store) : store * chain * option cost_error :=
  match le with
  | [] => (s, [], None)
  | c :: group =>
      match GrowCost durable increases net cost charge requestID ttl group s with
      | (s, group, Some e) => (s, c :: group, Some e)
      | (s, group, None) =>
          match costRequest c with
          | None => (s, c :: group, None)
          | Some r =>
              let r := grown r cost charge requestID ttl in
              let prefix := prefix_of namespace simpleUUID r in
              let '((d, now_us), (d', later_us)) := net prefix in
              match reserveCost namespace simpleUUID canonicalUUID decode durable (increases (CostOwnerID r)) (costReserved c) d d' now_us later_us r s with
              | (s, inl e) => (s, c :: group, Some e)
              | (s, inr true) =>
                  (s, mkCostLease (costRequest c) true prefix (canonicalUUID requestID) (costGrace r) (actualCost c) :: group, None)
              | (s, inr false) => (s, c :: group, None)
              end
          end
      end
  end.
End Grow.

(** ** Releases that are retried *)

Definition in_time (t : Z) : Prop := current_time 0 t = Some (t / 1000).

Lemma settleCost_frame d now_us prefix id amount ttl s q : q ≠ prefix →
  keys_at (settleCost d now_us prefix id amount ttl s).1 q = keys_at s q.
Proof.
  intros H. unfold settleCost, eval. destruct (settle_cost _ _ _ _ _) as [p r]. unfold keys_at.
  destruct d; cbn [fst]; by rewrite ?lookup_insert_ne by done.
Qed.

Lemma cleanup_frame tries prefix id s q : q ≠ prefix → keys_at (cleanup tries prefix id s).1 q = keys_at s q.
Proof.
  intros H. revert s. induction tries as [|[d t] rest IH]; intros s; cbn [cleanup]; [done|].
  pose proof (settleCost_frame d t prefix id "0" "0" s q H) as F. destruct (settleCost d t prefix id "0" "0" s) as [s' [e|] ]; [|done].
  cbn [fst] in F. destruct rest as [|t' rest]; [done|]. by rewrite IH.
Qed.

(** Attempts whose replies are lost are repeated without harm: once one of them has run,
    the lease is not held, and it is not held again. *)
Lemma cleanup_releases tries prefix id s L : valid_lease id = true → Forall (λ a, in_time a.2) tries →
  represents (leases (keys_at s prefix)) L →
  ∃ L', represents (leases (keys_at (cleanup tries prefix id s).1 prefix)) L' ∧
    (L !! id = None ∨ reached (default (NeverSent, 0) (head tries)).1 = true → L' !! id = None) ∧
    ((cleanup tries prefix id s).2 = None → L' !! id = None) ∧
    ∀ k l, k ≠ id → L !! k = Some l → Forall (λ a, a.2 / 1000 < l_expires l) tries → L' !! k = Some l.
Proof.
  intros Hv. revert s L. induction tries as [|[d t] rest IH]; intros s L Ht HR; cbn [cleanup].
  { exists L. split; [done|]. split; [intros [?|?]; done|]. split; [done|auto]. }
  apply Forall_cons in Ht as [Ht Hrest].
  destruct (release_any d t prefix id s L Hv Ht HR) as (L1 & HR1 & Hr1 & Hk1). cbn [head default fst].
  assert (Hgone : L !! id = None ∨ reached d = true → L1 !! id = None).
  { intros [HN|Hd]; [|auto]. destruct (reached d) eqn:Hd; [auto|].
    (* an attempt that does not reach the server changes nothing *)
    assert (leases (keys_at (settleCost d t prefix id "0" "0" s).1 prefix) = leases (keys_at s prefix)) as E.
    { unfold settleCost, eval. destruct (settle_cost _ _ _ _ _). by destruct d. }
    rewrite E in HR1. by rewrite (represents_unique _ _ _ HR1 HR). }
  assert (Hok : (settleCost d t prefix id "0" "0" s).2 = None → reached d = true).
  { unfold settleCost, eval. destruct (settle_cost _ _ _ _ _). by destruct d. }
  destruct (settleCost d t prefix id "0" "0" s) as [s1 [e|] ]; cbn [fst snd] in *.
  - destruct rest as [|a rest].
    + exists L1. split; [done|]. split; [done|]. split; [done|]. intros k l Hne E HF%Forall_cons. apply Hk1; naive_solver.
    + destruct (IH s1 L1 Hrest HR1) as (L' & HR' & H1 & H2 & H3). exists L'. split; [done|]. split; [|split; [done|] ].
      * intros Hc. apply H1. left. by apply Hgone.
      * intros k l Hne E [HF HF']%Forall_cons. apply H3; [done|by apply Hk1|done].
  - exists L1. split; [done|]. split; [done|]. split; [auto|]. intros k l Hne E [HF _]%Forall_cons. by apply Hk1.
Qed.

(** ** Settling a chain *)

Lemma settle_one_frame net c s q : q ≠ pendingPrefix c → keys_at (settle_one net c s).1 q = keys_at s q.
Proof.
  intros H. unfold settle_one. destruct (_ || _); [done|]. destruct (zeroAmount _).
  - pose proof (cleanup_frame (take cleanupAttempts (net (pendingPrefix c))) (pendingPrefix c) (costID c) s q H) as F. by destruct (cleanup _ _ _ s).
  - destruct (net (pendingPrefix c)) as [|[d t] rest]; [done|].
    pose proof (settleCost_frame d t (pendingPrefix c) (costID c) (actualCost c) (FormatInt (Z.max (Milliseconds (lease_grace c)) 1)) s q H) as F.
    by destruct (settleCost _ _ _ _ _ _ s).
Qed.

Lemma SettleCost_frame net le s q : q ∉ pendingPrefix <$> le → keys_at (SettleCost net le s).1 q = keys_at s q.
Proof.
  induction le as [|c le IH]; cbn [SettleCost]; [done|]. intros [Hc Hle]%not_elem_of_cons. specialize (IH Hle).
  destruct (SettleCost net le s) as [s1 errs]. pose proof (settle_one_frame net c s1 q Hc) as F.
  destruct (settle_one net c s1) as [s2 errs']. cbn [fst] in *. congruence.
Qed.

Lemma grace_text g : is_int64 g → parse_safe (FormatInt (Z.max (Milliseconds g) 1)) = Some (Z.max (Milliseconds g) 1).
Proof.
  intros [_ H]. unfold FormatInt. rewrite (proj2 (Z.ltb_ge _ _)) by lia. apply parse_text.
  unfold Milliseconds, MaxInt64, MAX_SAFE_INTEGER, Millisecond in *. split; [lia|].
  pose proof (Z.quot_le_mono g (2 ^ 63 - 1) 1000000 ltac:(lia) H) as Hq. change ((2 ^ 63 - 1) ÷ 1000000) with 9223372036854 in Hq. lia.
Qed.

(** What the settlement of one lease leaves in its owner's keys. *)
Definition settled (net : string → attempts) (c : CostLease) (L L' : ledger) : Prop :=
  (zeroAmount (actualCost c) = true → L' !! costID c = None) ∧
  ∀ a l0 d t rest, zeroAmount (actualCost c) = false → parse_amount (actualCost c) = Some a → pico a ≠ 0 → total L + pico a < CEILING →
    net (pendingPrefix c) = (d, t) :: rest → L !! costID c = Some l0 → t / 1000 < l_expires l0 →
    L' !! costID c = Some (mkLease (pico a) (Z.min (l_expires l0) (t / 1000 + Z.max (Milliseconds (lease_grace c)) 1))).

Lemma settle_one_settles net c s L : costReserved c = true → actualCost c ≠ ""%string → valid_lease (costID c) = true →
  is_int64 (lease_grace c) → Forall (λ a, in_time a.2) (net (pendingPrefix c)) → represents (leases (keys_at s (pendingPrefix c))) L →
  (∀ a, parse_amount (actualCost c) = Some a → total L + pico a < CEILING) →
  (settle_one net c s).2 = [] → ∃ L', represents (leases (keys_at (settle_one net c s).1 (pendingPrefix c))) L' ∧ settled net c L L'.
Proof.
  intros Hr Ha Hv Hg Ht HR Hcap. unfold settle_one. rewrite Hr. destruct (String.eqb_spec (actualCost c) ""); [done|]. cbn [negb orb].
  unfold settled. destruct (zeroAmount (actualCost c)).
  - destruct (cleanup_releases (take cleanupAttempts (net (pendingPrefix c))) (pendingPrefix c) (costID c) s L Hv) as (L' & HR' & _ & Hok & _);
      [by apply Forall_take|done|]. destruct (cleanup _ _ _ s) as [s1 e]. cbn [fst snd] in *. destruct e; [done|]. intros _.
    exists L'. split; [done|]. split; [auto|done].
  - destruct (net (pendingPrefix c)) as [|[d t] rest] eqn:En; [done|]. apply Forall_cons in Ht as [Ht _]. cbn [snd] in Ht.
    destruct (seen_represents (t / 1000) _ L HR) as (L0 & HR0 & [_ Hkeep] & Hle).
    destruct (settle_args_ok (costID c) (actualCost c) (FormatInt (Z.max (Milliseconds (lease_grace c)) 1))) as [ [a ttl] |] eqn:Eargs.
    + assert (parse_amount (actualCost c) = Some a ∧ ttl = Z.max (Milliseconds (lease_grace c)) 1) as [Pa ->].
      { unfold settle_args_ok in Eargs. rewrite grace_text in Eargs by done. repeat case_match; by simplify_eq. }
      pose proof (settle_cost_refines _ _ _ t (leases (keys_at s (pendingPrefix c))) L0 a _ Eargs Ht HR0 ltac:(specialize (Hcap a Pa); lia)) as H.
      unfold settleCost, eval. destruct (settle_cost _ _ _ _ _) as [p' reply]. destruct d; [|done..]. cbn [fst snd].
      destruct (spec_settle _ _ _ _ _) as [L' b] eqn:Esp. destruct H as [HR' ->]. destruct (parseSettlement _); [|done]. cbn [fst snd]. intros _.
      exists L'. rewrite keys_at_insert. split; [done|]. split; [done|]. intros a' l0 d' t' rest' _ Pa' Hz Htot En' El He. simplify_eq.
      unfold spec_settle in Esp. rewrite (swept_live _ _ _ _ (Hkeep _ _ El He) He) in Esp.
      rewrite (proj2 (Z.leb_gt _ _)), (proj2 (Z.eqb_neq _ _)) in Esp by done. injection Esp as <- _. apply lookup_insert_eq.
    + unfold settleCost, eval. rewrite (settle_invalid _ _ _ t _ Eargs). by destruct d.
Qed.

(** One handle settles the key's and the groups' budgets. When [SettleCost] on a chain of
    leases reports no error, every reserved lease of the chain whose actual cost is known is
    settled with its own owner: a cost of nothing is given back, however often the release
    was repeated because its reply was lost, and any other replaces the estimate of a lease
    in force, which then lasts no longer than it did nor than the grace. *)
Theorem cost_chain_settled net le s Ls :
  NoDup (pendingPrefix <$> le) → (∀ p, Forall (λ a, in_time a.2) (net p)) →
  Forall (λ c, costReserved c = true ∧ actualCost c ≠ ""%string ∧ valid_lease (costID c) = true ∧ is_int64 (lease_grace c) ∧
    represents (leases (keys_at s (pendingPrefix c))) (Ls (pendingPrefix c)) ∧
    ∀ a, parse_amount (actualCost c) = Some a → total (Ls (pendingPrefix c)) + pico a < CEILING) le →
  let '(s', errs) := SettleCost net le s in
  errs = [] → Forall (λ c, ∃ L', represents (leases (keys_at s' (pendingPrefix c))) L' ∧ settled net c (Ls (pendingPrefix c)) L') le.
Proof.
  intros Hnd Ht. induction le as [|c le IH]; cbn [SettleCost]; [done|]. intros [ (H1 & H2 & H3 & H4 & H5 & H6) Hle]%Forall_cons.
  cbn [fmap list_fmap] in Hnd. apply NoDup_cons in Hnd as [Hnin Hnd]. specialize (IH Hnd Hle).
  pose proof (SettleCost_frame net le s (pendingPrefix c) Hnin) as F.
  destruct (SettleCost net le s) as [s1 errs]. cbn [fst] in F.
  pose proof (settle_one_settles net c s1 (Ls (pendingPrefix c)) H1 H2 H3 H4 (Ht _) ltac:(by rewrite F) H6) as Hone.
  pose proof (settle_one_frame net c s1) as Fr. destruct (settle_one net c s1) as [s2 errs']. cbn [fst snd] in *.
  intros [-> ->]%app_eq_nil. apply Forall_cons. split; [by apply Hone|].
  specialize (IH eq_refl). rewrite Forall_forall in IH |- *. intros c' Hc'. destruct (IH c' Hc') as (L' & HR' & HS).
  exists L'. split; [|done]. rewrite Fr; [done|]. intros E. apply Hnin. rewrite <- E. by apply list_elem_of_fmap_2 || apply elem_of_list_fmap_2.
Qed.

(** ** Growing a chain *)

Section Growth.
Context (namespace : string) (simpleUUID canonicalUUID : string → string) (decode : string → option (list grant)).

(** A reservation never takes from a lease in force, and one that is granted holds as
    much as was asked for. *)
Lemma reserve_cost_grows a now_us v L :
  (∀ p, read_cost_args a = Some p → p_override p = 0 ∧ limited_by p = true) → represents (leases v) L →
  let '(v', reply) := reserve_cost decode a now_us v in
  ∃ L', represents (leases v') L' ∧
    (∀ k l, L !! k = Some l → now_us / 1000 < l_expires l → ∃ l', L' !! k = Some l' ∧ l_amount l <= l_amount l') ∧
    (∀ p, granted reply = true → read_cost_args a = Some p → p_read_only p = false → priced p = true →
       ∃ l, L' !! c_lease a = Some l ∧ pico (p_amount p) <= l_amount l).
Proof.
  intros Hok HR. set (now := now_us / 1000). destruct (seen_represents now _ L HR) as (L0 & HR0 & [_ Hkeep] & _).
  destruct (read_cost_args a) as [p|] eqn:Hp.
  2: { unfold reserve_cost. rewrite Hp. exists L0. split; [done|]. split; [eauto with lia|done]. }
  destruct (Hok p eq_refl) as [Ho Hlim]. destruct (p_read_only p || negb (priced p)) eqn:Em.
  - assert (leases (reserve_cost decode a now_us v).1 = seen now (leases v)) as E.
    { destruct (reserve_cost_judged decode a now_us v p Hp) as [(r & -> & _) | (n & t & _ & _ & _ & _ & ->) ]; [done|]. by apply decide_pending_idle. }
    destruct (reserve_cost decode a now_us v) as [v' reply]. cbn [fst] in E. rewrite E. exists L0. split; [done|]. split; [eauto with lia|].
    intros p' _ [= <-] Hro Hpr. by rewrite Hro, Hpr in Em.
  - apply orb_false_iff in Em as [Hro Hpr%negb_false_iff].
    pose proof (reserve_cost_refines decode a now_us v L p HR Hp Ho Hlim Hro Hpr) as H. cbv zeta in H. fold now in H.
    destruct (reserve_cost decode a now_us v) as [v' reply]. destruct H as (L1 & _ & [_ Hk1] & [ [Hg H] | (t & _ & _ & H) ]).
    { exists L1. split; [done|]. split; [eauto with lia|]. intros p' Hg'. congruence. }
    pose proof (spec_reserve_keeps now (c_lease a) (pico (p_amount p)) (p_ttl p) (room t) L1) as HK.
    pose proof (spec_reserve_self now (c_lease a) (pico (p_amount p)) (p_ttl p) (room t) L1) as HS.
    assert (∀ L' o, spec_reserve now (c_lease a) (pico (p_amount p)) (p_ttl p) (room t) L1 = (L', o) → o ≠ Refused →
      ∃ l, L' !! c_lease a = Some l ∧ pico (p_amount p) <= l_amount l) as HG.
    { unfold spec_reserve. intros L' o E Hno. destruct (opt_test (swept now L1 !! _) _) eqn:Ec.
      - injection E as <- <-. destruct (swept now L1 !! c_lease a) as [l|]; [|done]. cbn [opt_test] in Ec. bools. eauto.
      - destruct (room t _); [|by simplify_eq]. injection E as <- <-. eexists. split; [apply lookup_insert_eq|done]. }
    destruct (spec_reserve _ _ _ _ _ _) as [L' o]. destruct H as [HR' Hr]. cbn [fst] in *. exists L'. split; [done|]. split.
    + intros k l E He. destruct (decide (k = c_lease a)) as [->|Hne]; [by apply (HS l); [apply Hk1|] |].
      exists l. split; [by apply HK; [|apply Hk1|]|lia].
    + intros p' Hg [= <-] _ _. apply (HG L' o eq_refl). intros ->. by destruct Hr as (? & ? & ? & ? & _ & ->).
Qed.

(** The limits of a request that was validated with a budget. *)
Definition budgeted (r : Request) : Prop :=
  HasCostBudget r = true ∧ (∀ v, DailyCostLimit r = Some v → ValidCostLimit v = true) ∧
  (∀ v, MonthlyCostLimit r = Some v → ValidCostLimit v = true) ∧ (∀ v, WeeklyCostLimit r = Some v → ValidCostLimit v = true).

Lemma args_limited durable increases r p : budgeted r →
  read_cost_args (cost_args_of canonicalUUID durable increases r) = Some p → p_override p = 0 ∧ limited_by p = true.
Proof.
  intros (Hb & Hd & Hm & Hw) Hp. set (a := cost_args_of canonicalUUID durable increases r) in *.
  destruct (read_limit_valid _ Hd) as (d & Ed & Sd). destruct (read_limit_valid _ Hm) as (m & Em & Sm).
  destruct (read_limit_valid _ Hw) as (w & Ew & Sw).
  assert (c_daily a = default "" (DailyCostLimit r) ∧ c_monthly a = default "" (MonthlyCostLimit r) ∧ c_override a = "0" ∧
    (match c_extra a with Some (w, _) => w | None => "" end) = default "" (WeeklyCostLimit r))%string as (A1 & A2 & A3 & A6).
  { unfold a, cost_args_of. destruct (String.eqb (CostEstimate r) ""), durable, (String.eqb increases ""), (WeeklyCostLimit r); done. }
  unfold read_cost_args in Hp. rewrite A1, A2, A3, A6, Ed, Em, Ew in Hp. change (parse_safe "0") with (Some 0) in Hp.
  do 2 some_of Hp. cbv zeta in Hp. case_in Hp; [|done]. injection Hp as <-. split; [done|].
  unfold limited_by; cbn [p_daily p_monthly p_weekly]. rewrite Sd, Sm, Sw. exact Hb.
Qed.

Lemma reserveCost_frame durable increases retain d d' now_us later_us r s q : q ≠ prefix_of namespace simpleUUID r →
  keys_at (reserveCost namespace simpleUUID canonicalUUID decode durable increases retain d d' now_us later_us r s).1 q = keys_at s q.
Proof.
  intros H. unfold reserveCost, eval. destruct (reserve_cost _ _ _ _) as [v' reply].
  assert (∀ s1, keys_at s1 q = keys_at s q → ∀ e, keys_at (if negb (String.eqb (CostEstimate r) "") && negb retain && ambiguousFailure e
    then ((settleCost d' later_us (prefix_of namespace simpleUUID r) (canonicalUUID (RequestID r)) "0" "0" s1).1, inl e)
    else (s1, inl e) : store * (cost_error + bool)).1 q = keys_at s q) as HF.
  { intros s1 H1 e. destruct (_ && _); cbn [fst]; [|done]. by rewrite settleCost_frame. }
  assert (keys_at (<[prefix_of namespace simpleUUID r := v']> s) q = keys_at s q) as HI by (unfold keys_at; by rewrite lookup_insert_ne).
  destruct d; [|by apply HF..]. destruct (reserve_error _ _) as [e|]; [|done]. destruct e; try done. by apply HF.
Qed.

(** With a reservation that is retained, nothing is given back. *)
Lemma reserveCost_retains durable increases d d' now_us later_us r s L : budgeted r →
  represents (leases (keys_at s (prefix_of namespace simpleUUID r))) L →
  let '(s', out) := reserveCost namespace simpleUUID canonicalUUID decode durable increases true d d' now_us later_us r s in
  ∃ L', represents (leases (keys_at s' (prefix_of namespace simpleUUID r))) L' ∧
    (∀ k l, L !! k = Some l → now_us / 1000 < l_expires l → ∃ l', L' !! k = Some l' ∧ l_amount l <= l_amount l').
Proof.
  intros Hb HR.
  pose proof (reserve_cost_grows (cost_args_of canonicalUUID durable increases r) now_us _ L
    (λ p, args_limited durable increases r p Hb) HR) as H.
  unfold reserveCost, eval. destruct (reserve_cost _ _ now_us _) as [v' reply]. destruct H as (L1 & HR1 & Hk & _).
  rewrite andb_false_r. cbn [andb].
  assert (∃ L', represents (leases (keys_at s (prefix_of namespace simpleUUID r))) L' ∧
    (∀ k l, L !! k = Some l → now_us / 1000 < l_expires l → ∃ l', L' !! k = Some l' ∧ l_amount l <= l_amount l')) as HS by eauto with lia.
  assert (∃ L', represents (leases (keys_at (<[prefix_of namespace simpleUUID r := v']> s) (prefix_of namespace simpleUUID r))) L' ∧
    (∀ k l, L !! k = Some l → now_us / 1000 < l_expires l → ∃ l', L' !! k = Some l' ∧ l_amount l <= l_amount l')) as HI.
  { exists L1. by rewrite keys_at_insert. }
  destruct d; try done. destruct (reserve_error _ _) as [e|]; [|done]. by destruct e.
Qed.

(** Growing a reservation never loses what it held. Whatever the network does and
    wherever the chain of owners stops at a refusal, every lease of the chain that is in force
    when its owner is asked holds afterwards at least what it held before; an owner's keys
    that are not asked are as they were. *)
Theorem cost_growth_keeps durable increases net cost charge requestID ttl le s Ls :
  NoDup (pendingPrefix <$> le) →
  Forall (λ c, costReserved c = true ∧ (∃ r, costRequest c = Some r ∧ budgeted r ∧ pendingPrefix c = prefix_of namespace simpleUUID r) ∧
    represents (leases (keys_at s (pendingPrefix c))) (Ls (pendingPrefix c))) le →
  let '(s', le', e) := GrowCost namespace simpleUUID canonicalUUID decode durable increases net cost charge requestID ttl le s in
  length le' = length le ∧ (∀ q, q ∉ pendingPrefix <$> le → keys_at s' q = keys_at s q) ∧
  Forall (λ c, ∃ L', represents (leases (keys_at s' (pendingPrefix c))) L' ∧
    ∀ k l, Ls (pendingPrefix c) !! k = Some l → (net (pendingPrefix c)).1.2 / 1000 < l_expires l →
      ∃ l', L' !! k = Some l' ∧ l_amount l <= l_amount l') le.
Proof.
  intros Hnd. induction le as [|c le IH]; cbn [GrowCost]; [done|]. intros [ (Hres & (r & Hr & Hb & Hpre) & HR) Hle]%Forall_cons.
  cbn [fmap list_fmap] in Hnd. apply NoDup_cons in Hnd as [Hnin Hnd]. specialize (IH Hnd Hle).
  destruct (GrowCost _ _ _ _ _ _ _ _ _ _ _ le s) as [ [s1 le1] e1]. destruct IH as (Hlen & Hframe & HF).
  pose proof (Hframe _ Hnin) as Fc. cbn [fmap list_fmap].
  assert (∀ s2, (∀ q, q ≠ pendingPrefix c → keys_at s2 q = keys_at s1 q) →
    (∃ L', represents (leases (keys_at s2 (pendingPrefix c))) L' ∧
      ∀ k l, Ls (pendingPrefix c) !! k = Some l → (net (pendingPrefix c)).1.2 / 1000 < l_expires l → ∃ l', L' !! k = Some l' ∧ l_amount l <= l_amount l') →
    (∀ q, q ∉ pendingPrefix c :: (pendingPrefix <$> le) → keys_at s2 q = keys_at s q) ∧
    Forall (λ c, ∃ L', represents (leases (keys_at s2 (pendingPrefix c))) L' ∧
      ∀ k l, Ls (pendingPrefix c) !! k = Some l → (net (pendingPrefix c)).1.2 / 1000 < l_expires l →
        ∃ l', L' !! k = Some l' ∧ l_amount l <= l_amount l') (c :: le)) as Hcons.
  { intros s2 F2 HC. split; [intros q [? ?]%not_elem_of_cons; rewrite F2 by done; by apply Hframe|]. apply Forall_cons. split; [done|].
    rewrite Forall_forall in HF |- *. intros c' Hc'. destruct (HF c' Hc') as (L' & HR' & HL'). exists L'. split; [|done].
    rewrite F2; [done|]. intros E. apply Hnin. rewrite <- E. by apply list_elem_of_fmap_2 || apply elem_of_list_fmap_2. }
  destruct e1 as [e|].
  { split; [by cbn [length]; f_equal|]. apply Hcons; [done|]. rewrite Fc. eauto with lia. }
  rewrite Hr. set (g := grown r cost charge requestID ttl).
  assert (prefix_of namespace simpleUUID g = pendingPrefix c) as Eg by (by rewrite Hpre). rewrite Eg.
  destruct (net (pendingPrefix c)) as [ [d now_us] [d' later_us] ] eqn:En. rewrite Hres.
  assert (budgeted g) as Hbg by done.
  pose proof (reserveCost_retains durable (increases (CostOwnerID g)) d d' now_us later_us g s1 (Ls (pendingPrefix c)) Hbg ltac:(by rewrite Eg, Fc)) as HT.
  pose proof (reserveCost_frame durable (increases (CostOwnerID g)) true d d' now_us later_us g s1) as HFr.
  destruct (reserveCost _ _ _ _ _ _ _ _ _ _ _ g s1) as [s2 out]. cbn [fst snd] in *. rewrite Eg in HT, HFr.
  destruct (Hcons s2 (λ q, HFr q) HT) as [H1 H2]. destruct out as [e|[] ]; (split; [by cbn [length]; f_equal|]); auto.
Qed.
End Growth.

(** The sample request's lease with its owner and with a group, whose replies are lost once. *)
Definition sample_cost_lease (prefix actual : string) (r : option Request) : CostLease :=
  mkCostLease r true prefix sample_lease DefaultCostGrace actual.

Definition sample_chain : chain := [sample_cost_lease "key" "0.125" None; sample_cost_lease "group" "0.00" None].
Definition sample_store : store := <["key" := sample_spent]> {["group" := sample_spent]}.
Definition sample_net (p : string) : attempts :=
  if String.eqb p "group" then [(ReplyLost, 1711886401000000); (Delivered, 1711886402000000)] else [(Delivered, 1711886402000000)].

Lemma cost_chain_settled_witness :
  let '(s', errs) := SettleCost sample_net sample_chain sample_store in
  errs = [] ∧ ∃ L', represents (leases (keys_at s' "group")) L' ∧ L' !! sample_lease = None.
Proof.
  pose proof (cost_chain_settled sample_net sample_chain sample_store (λ _, sample_ledger)) as H.
  assert ((SettleCost sample_net sample_chain sample_store).2 = []) as He by (vm_compute; reflexivity).
  destruct (SettleCost sample_net sample_chain sample_store) as [s' errs]. cbn [snd] in He. split; [exact He|].
  assert (Forall (λ c, ∃ L', represents (leases (keys_at s' (pendingPrefix c))) L' ∧ settled sample_net c sample_ledger L') sample_chain) as HF.
  { apply H; [| | |exact He].
    - apply NoDup_cons. split; [intros E; apply list_elem_of_singleton in E; discriminate E|apply NoDup_singleton].
    - intros p. unfold sample_net. destruct (String.eqb p "group"); repeat (apply Forall_cons; split; [vm_compute; reflexivity|]); apply Forall_nil; exact I.
    - repeat (apply Forall_cons; split).
      + do 2 (split; [done|]). split; [vm_compute; reflexivity|]. split; [by vm_compute|]. split; [exact sample_represents|].
        intros a Ha. vm_compute in Ha. injection Ha as <-. vm_compute. reflexivity.
      + do 2 (split; [done|]). split; [vm_compute; reflexivity|]. split; [by vm_compute|]. split; [exact sample_represents|].
        intros a Ha. vm_compute in Ha. injection Ha as <-. vm_compute. reflexivity.
      + apply Forall_nil. exact I. }
  apply Forall_cons in HF as [_ HF]. apply Forall_cons in HF as [ (L' & HR & HS) _]. exists L'. split; [exact HR|].
  apply HS. vm_compute. reflexivity.
Defined.

(** The estimate grows to 0.75, which does not fit beside 9.5 in a limit of 10: the lease
    still holds 0.25. *)
Definition growing_request : Request :=
  mkRequest "cost" "owner" "lookup_0001" None None None false (Some "10"%string) None None 0 Minute "0.25" sample_lease 0 false (mkShareOf "" 0 0).

Lemma cost_growth_keeps_witness :
  let prefix := prefix_of "olp" (λ id, id) growing_request in
  let s : store := {[ prefix := sample_spent ]} in
  let '(s', _, e) := GrowCost "olp" (λ id, id) (λ id, id) no_grants false (λ _, ""%string)
    (λ _, ((Delivered, 1711886401000000), (Delivered, 1711886401000000))) "0.75" "0.75" sample_lease Minute
    [sample_cost_lease prefix "" (Some growing_request)] s in
  e ≠ None ∧ ∃ L' l, represents (leases (keys_at s' prefix)) L' ∧ L' !! sample_lease = Some l ∧ 250000000000 <= l_amount l.
Proof.
  intros prefix s.
  pose proof (cost_growth_keeps "olp" (λ id, id) (λ id, id) no_grants false (λ _, ""%string)
    (λ _, ((Delivered, 1711886401000000), (Delivered, 1711886401000000))) "0.75" "0.75" sample_lease Minute
    [sample_cost_lease prefix "" (Some growing_request)] s (λ _, sample_ledger)) as H.
  assert ((GrowCost "olp" (λ id, id) (λ id, id) no_grants false (λ _, ""%string)
    (λ _, ((Delivered, 1711886401000000), (Delivered, 1711886401000000))) "0.75" "0.75" sample_lease Minute
    [sample_cost_lease prefix "" (Some growing_request)] s).2 ≠ None) as He by (vm_compute; discriminate).
  destruct (GrowCost _ _ _ _ _ _ _ _ _ _ _ _ s) as [ [s' le'] e]. cbn [snd] in He. split; [exact He|].
  destruct H as (_ & _ & HF).
  - apply NoDup_singleton.
  - apply Forall_cons. split; [|apply Forall_nil; exact I]. split; [reflexivity|]. split.
    + exists growing_request. split; [reflexivity|]. split; [|reflexivity]. split; [reflexivity|].
      split; [intros v E; injection E as <-; vm_compute; reflexivity|]. split; intros v E; discriminate E.
    + change (represents (leases (keys_at s prefix)) sample_ledger). unfold keys_at, s. rewrite lookup_singleton_eq. exact sample_represents.
  - apply Forall_cons in HF as [ (L' & HR & HL) _]. destruct (HL sample_lease (mkLease 250000000000 1711886460000)) as (l' & El & Hl).
    + vm_compute. reflexivity.
    + vm_compute. reflexivity.
    + exists L', l'. split; [exact HR|]. split; [exact El|exact Hl].
Defined.
