(* ===== verification/CostSnapshot.v ===== *)
(** * Snapshots of durable spend

    What the database holds of a cost owner's spend, as the gateway installs it in Valkey
    ([CostSnapshot], [validDecimal] and [ApplyCostSnapshot] of [internal/limits/budgets.go]):
    the checks that refuse a snapshot Valkey could not store exactly, the arguments of
    the reconciliation script, and the reading of its reply. *)

From S2P Require Import Prelude Go Amount Limits LimitsFacts LimitsReply Civil Calendar CostAmount CostPending CostScripts CostFacts.
From S2P Require Import CostLedger CostClient.
From Stdlib Require Import Ascii.
Local Open Scope Z_scope.
Local Open Scope olp_scope.

(** A non-negative decimal the scripts compare exactly. *)
Definition validDecimal (value : string) : bool :=
  if (len value <? 1) || (len value >? 96) then false
  else
    let '(integer, fraction, found) := Cut value "." in
    if found && ((len fraction <? 1) || (len fraction >? 12)) then false
    else if len integer <? 1 then false
    else decimalDigits integer && decimalDigits fraction.

Record debitProjection := mkProjection { Version : Z; Projected : string; Blocked : bool }.

Record Snapshot := mkSnap {
  durable : option debitProjection; Basis : string; Daily : Time * Time; Monthly : Time * Time; Weekly : Time * Time;
  WeeklyWindowID : Z; WeeklyAccrued : string; Owner : string; DailyWindowID : Z; DailyAccrued : string; MonthlyWindowID : Z;
  MonthlyAccrued : string; UnpricedAttempts : Z; SnapshotRequest : string;
}.

Definition lua_range (n : Z) : bool := (0 <=? n) && (n <=? MAX_SAFE_INTEGER).

Definition period_ok (p : Time * Time) : bool :=
  negb (IsZero p.1) && After p.2 p.1 && (0 <=? UnixMilli p.1) && (UnixMilli p.2 <=? MAX_SAFE_INTEGER).

Definition has_periods (s : Snapshot) : bool := negb (IsZero (Daily s).1) || negb (IsZero (Monthly s).1) || negb (IsZero (Weekly s).1).

(** [validate]: the reason a snapshot is refused with. *)
Definition validate (uuid_ok : string → bool) (s : Snapshot) : option string :=
  refuse_if (negb (validBasis (Basis s))) "cost snapshot basis is not valid" <|>
  refuse_if (negb (uuid_ok (Owner s))) "cost snapshot owner ID is not a UUID" <|>
  refuse_if (negb (lua_range (DailyWindowID s)) || negb (lua_range (MonthlyWindowID s)))
    "cost snapshot window IDs exceed the Valkey Lua integer range" <|>
  refuse_if (negb (String.eqb (WeeklyAccrued s) "") && (negb (lua_range (WeeklyWindowID s)) || negb (validDecimal (WeeklyAccrued s))))
    "invalid weekly cost snapshot" <|>
  refuse_if (negb (validDecimal (DailyAccrued s))) "daily accrued cost is not a non-negative decimal" <|>
  refuse_if (negb (validDecimal (MonthlyAccrued s))) "monthly accrued cost is not a non-negative decimal" <|>
  refuse_if (negb (lua_range (UnpricedAttempts s))) "unpriced attempt count exceeds the Valkey Lua integer range" <|>
  refuse_if (has_periods s && negb (forallb period_ok [Daily s; Monthly s; Weekly s])) "invalid budget calendar bounds" <|>
  refuse_if (negb (String.eqb (SnapshotRequest s) "") && negb (uuid_ok (SnapshotRequest s))) "cost snapshot request ID is not a UUID".

Inductive snapshot_error := SnapshotInvalid (reason : string) | ErrDebitConflict | SnapshotReply (e : limit_error).

(** A time of the server the scripts accept. *)
Definition in_time_us (now_us : Z) : Prop := ∃ now, current_time 0 now_us = Some now.

Section Apply.
Context (canonicalUUID : string → string) (uuid_ok : string → bool).

Definition switchArg (on : bool) : string := if on then "1" else "0".

Definition period_text (p : Time * Time) : string * string := (FormatInt (UnixMilli p.1), FormatInt (UnixMilli p.2)).

(** The arguments of the script; [None] is the refusal of a projection that cannot be
    represented or comes without the calendar. *)
Definition snapshot_args (s : Snapshot) : option reconcile_args :=
  let bounds := if IsZero (Daily s).1 then None else Some (period_text (Daily s), period_text (Monthly s), period_text (Weekly s)) in
  let args (d : option (string * string * string)) :=
    mkReconcileArgs (FormatInt (DailyWindowID s)) (DailyAccrued s) (FormatInt (MonthlyWindowID s)) (MonthlyAccrued s)
      (FormatInt (UnpricedAttempts s)) "0" (if String.eqb (SnapshotRequest s) "" then "" else canonicalUUID (SnapshotRequest s))
      (Some (FormatInt (WeeklyWindowID s), WeeklyAccrued s)) bounds d in
  match durable s with
  | None => Some (args None)
  | Some p =>
      if negb (lua_range (Version p)) || negb (validDecimal (Projected p)) || negb (is_some bounds) then None
      else Some (args (Some (FormatInt (Version p), Projected p, switchArg (Blocked p))))
  end.

(** [ApplyCostSnapshot], with the script run at the server's time. *)
Definition ApplyCostSnapshot (now_us : Z) (s : Snapshot) (v : cost_keys) : cost_keys * (snapshot_error + (bool * bool)) :=
  match validate uuid_ok s with
  | Some reason => (v, inl (SnapshotInvalid reason))
  | None =>
      match snapshot_args s with
      | None => (v, inl ErrDebitConflict)
      | Some a =>
          let '(v, value) := reconcile_cost a now_us v in
          (v, match parseReconciliation value with inl e => inl (SnapshotReply e) | inr r => inr r end)
      end
  end.

Context (canonical_lease : ∀ id, uuid_ok id = true → valid_lease (canonicalUUID id) = true).

Lemma validDecimal_normal value : validDecimal value = true → ∃ n, normalize_decimal value = Some n.
Proof.
  unfold validDecimal, normalize_decimal. intros H. case_in H; [done|]. apply orb_false_iff in E as [E1 E2].
  destruct (Cut value ".") as [ [i f] found]. case_in H; [done|]. case_in H; [done|]. apply andb_true_iff in H as [Hi Hf].
  rewrite Hi, Hf, E2. assert (String.eqb value "" = false ∧ String.eqb i "" = false) as [-> ->].
  { bools. split; apply String.eqb_neq; intros ->; change (len "") with 0 in *; lia. }
  assert (found && String.eqb f "" = false) as ->.
  { destruct found; [|done]. cbn [andb] in *. apply orb_false_iff in E as [E _]. bools. apply String.eqb_neq. intros ->. change (len "") with 0 in *. lia. }
  cbn [negb orb]. eauto.
Qed.

Lemma FormatInt_safe n : lua_range n = true → parse_safe (FormatInt n) = Some n.
Proof. unfold lua_range, FormatInt. intros H. bools. rewrite (proj2 (Z.ltb_ge _ _)) by lia. apply parse_text. lia. Qed.

Record snapshot_valid (s : Snapshot) : Prop := mkSnapshotValid {
  sv_day : lua_range (DailyWindowID s) = true; sv_month : lua_range (MonthlyWindowID s) = true;
  sv_week : WeeklyAccrued s = ""%string ∨ lua_range (WeeklyWindowID s) = true ∧ validDecimal (WeeklyAccrued s) = true;
  sv_daily : validDecimal (DailyAccrued s) = true; sv_monthly : validDecimal (MonthlyAccrued s) = true;
  sv_unpriced : lua_range (UnpricedAttempts s) = true;
  sv_periods : (Daily s).1 ≠ zeroTime → period_ok (Daily s) = true ∧ period_ok (Monthly s) = true ∧ period_ok (Weekly s) = true;
  sv_request : SnapshotRequest s = ""%string ∨ uuid_ok (SnapshotRequest s) = true;
}.

Lemma validate_valid s : validate uuid_ok s = None → snapshot_valid s.
Proof.
  unfold validate. rewrite !otherwise_none.
  intros (_ & _ & H1%refuse_if_none & H2%refuse_if_none & H3%refuse_if_none & H4%refuse_if_none & H5%refuse_if_none & H6%refuse_if_none & H7%refuse_if_none).
  apply orb_false_iff in H1 as [H1%negb_false_iff H1'%negb_false_iff]. apply negb_false_iff in H3, H4, H5.
  constructor; try done.
  - destruct (String.eqb_spec (WeeklyAccrued s) ""); [by left|right]. cbn [negb andb] in H2.
    by apply orb_false_iff in H2 as [?%negb_false_iff ?%negb_false_iff].
  - intros Hz. unfold has_periods in H6. assert (IsZero (Daily s).1 = false) as E by (by apply Z.eqb_neq). rewrite E in H6.
    cbn [negb orb andb forallb] in H6. apply negb_false_iff in H6. rewrite !andb_true_iff in H6. tauto.
  - destruct (String.eqb_spec (SnapshotRequest s) ""); [by left|right]. cbn [negb andb] in H7. by apply negb_false_iff in H7.
Qed.

(** Periods that do not start and end within one millisecond. *)
Definition periods_apart (s : Snapshot) : Prop :=
  (Daily s).1 ≠ zeroTime → Forall (λ p : Time * Time, UnixMilli p.1 < UnixMilli p.2) [Daily s; Monthly s; Weekly s].

Lemma period_text_ok p : period_ok p = true → UnixMilli p.1 < UnixMilli p.2 →
  parse_safe (FormatInt (UnixMilli p.1)) = Some (UnixMilli p.1) ∧ parse_safe (FormatInt (UnixMilli p.2)) = Some (UnixMilli p.2).
Proof. unfold period_ok. intros H Hlt. bools. split; apply FormatInt_safe; unfold lua_range; rewrite !(proj2 (Z.leb_le _ _)) by lia; done. Qed.

Lemma interval_ok k b snapshot fallback ttl now : (∀ f l, b = Some (f, l) → ∃ x y, parse_safe f = Some x ∧ parse_safe l = Some y ∧ x < y) →
  (b = None ∨ snapshot ≠ None) → interval k b snapshot fallback ttl now ≠ None.
Proof.
  intros H Hs. unfold interval. destruct b as [ [f l] |]; [|done]. destruct (H f l eq_refl) as (x & y & -> & -> & Hlt).
  destruct snapshot; [|by destruct Hs]. by rewrite Z.geb_leb, (proj2 (Z.leb_gt _ _)).
Qed.

(** A snapshot that passes validation is installed, not refused: the script reads every
    argument of it as the number the snapshot states, accepts it at any server time, and
    its reply is read as which windows were installed. That holds when no provisional exposure
    is projected and the periods of the calendar last at least a millisecond, as those the
    database gives do. *)
Theorem snapshot_accepted s now_us v :
  validate uuid_ok s = None → durable s = None → periods_apart s → lua_range (WeeklyWindowID s) = true → in_time_us now_us →
  ∃ a plan d m, snapshot_args s = Some a ∧ read_snapshot a (seen_keys (now_us / 1000) v) = Some plan ∧
    n_day plan = DailyWindowID s ∧ n_month plan = MonthlyWindowID s ∧ n_unpriced plan = UnpricedAttempts s ∧
    decimal_value (n_daily plan) = decimal_value (DailyAccrued s) ∧ decimal_value (n_monthly plan) = decimal_value (MonthlyAccrued s) ∧
    (ApplyCostSnapshot now_us s v).2 = inr (d, m) ∧
    ∃ v', reconcile_cost a now_us v = (v', Items [RInt 1; RInt 1; RStr "ok"; RInt (if d then 1 else 0); RInt (if m then 1 else 0)]).
Proof.
  intros Hval Hd Hap Hwk Ht. pose proof (validate_valid s Hval) as [V1 V2 V3 V4 V5 V6 V7 V8].
  destruct (validDecimal_normal _ V4) as [nd Nd]. destruct (validDecimal_normal _ V5) as [nm Nm].
  destruct (normalize_decimal_normal _ _ Nd) as (_ & Ed & _). destruct (normalize_decimal_normal _ _ Nm) as (_ & Em & _).
  unfold ApplyCostSnapshot. rewrite Hval. unfold snapshot_args. rewrite Hd.
  set (b := if IsZero (Daily s).1 then None else _). set (rq := if String.eqb (SnapshotRequest s) "" then _ else _).
  set (a := mkReconcileArgs _ _ _ _ _ _ _ _ _ _).
  assert (rq = ""%string ∨ valid_lease rq = true) as Hrq.
  { unfold rq. destruct (String.eqb_spec (SnapshotRequest s) ""); [by left|right]. destruct V8; [done|]. by apply canonical_lease. }
  assert (∃ weekly, read_snapshot a (seen_keys (now_us / 1000) v) =
    Some (mkSnapshot (DailyWindowID s) nd (MonthlyWindowID s) nm (UnpricedAttempts s) 0 (Some (WeeklyWindowID s)) weekly None)) as [weekly Hread].
  { unfold read_snapshot. cbn [a r_week r_durable r_bounds r_day r_daily r_month r_monthly r_unpriced r_override r_request default is_some orb andb negb].
    cbn [from_option id]. rewrite !FormatInt_safe, Nd, Nm by done. change (parse_safe "0") with (Some 0).
    rewrite orb_true_r. cbn [andb].
    assert (String.eqb rq "" || valid_lease rq = true) as -> by (destruct Hrq as [-> |Hq]; [done|]; by rewrite Hq, orb_true_r).
    destruct (String.eqb_spec (WeeklyAccrued s) ""); [eauto|]. destruct V3 as [|[_ V3] ]; [done|].
    destruct (validDecimal_normal _ V3) as [nw ->]. eauto. }
  assert (∃ d m v', reconcile_cost a now_us v = (v', Items [RInt 1; RInt 1; RStr "ok"; RInt (if d : bool then 1 else 0); RInt (if m : bool then 1 else 0)]))
    as (d & m & v' & Hrec).
  { unfold reconcile_cost. rewrite Hread. cbn [n_override]. destruct Ht as [now ->].
    pose proof (windows_bounds now) as B. destruct (windows now) as [ [ [day month] dt] mt]. destruct B as (_ & _ & B1 & B2).
    rewrite !(proj2 (Z.ltb_ge _ _)) by lia. cbn [orb a r_bounds r_week is_some].
    assert (∀ p : Time * Time, b = None ∨ (period_ok p = true ∧ UnixMilli p.1 < UnixMilli p.2) → ∀ f l,
      (match b with Some _ => Some (period_text p) | None => None end) = Some (f, l) → ∃ x y, parse_safe f = Some x ∧ parse_safe l = Some y ∧ x < y) as HB.
    { intros p Hp f l E. destruct b; [|done]. injection E as <- <-. destruct Hp as [|[Hp Hlt] ]; [done|].
      destruct (period_text_ok p Hp Hlt) as [-> ->]. eauto. }
    assert (b = None ∨ (period_ok (Daily s) = true ∧ UnixMilli (Daily s).1 < UnixMilli (Daily s).2) ∧
      (period_ok (Monthly s) = true ∧ UnixMilli (Monthly s).1 < UnixMilli (Monthly s).2) ∧
      (period_ok (Weekly s) = true ∧ UnixMilli (Weekly s).1 < UnixMilli (Weekly s).2)) as Hall.
    { unfold b. destruct (IsZero (Daily s).1) eqn:Ez; [by left|right]. apply Z.eqb_neq in Ez. destruct (V7 Ez) as (P1 & P2 & P3).
      specialize (Hap Ez). rewrite !Forall_cons in Hap. naive_solver. }
    assert ((match b with Some (d, m, w) => (Some d, Some m, Some w) | None => (None, None, None) end) =
      (match b with Some _ => Some (period_text (Daily s)) | None => None end, match b with Some _ => Some (period_text (Monthly s)) | None => None end,
       match b with Some _ => Some (period_text (Weekly s)) | None => None end)) as -> by (unfold b; by destruct (IsZero _)).
    assert (∀ k p sn fb tt, b = None ∨ (period_ok p = true ∧ UnixMilli p.1 < UnixMilli p.2) →
      interval k (match b with Some _ => Some (period_text p) | None => None end) (Some sn) fb tt now ≠ None) as HI.
    { intros k p sn fb tt Hp. apply interval_ok; [by apply HB|by right]. }
    cbn [n_day n_month n_week].
    destruct (interval (day_key _) _ _ _ _ _) as [di|] eqn:E1; [|exfalso; eapply HI; [|exact E1]; tauto].
    destruct (interval (month_key _) _ _ _ _ _) as [mi|] eqn:E2; [|exfalso; eapply HI; [|exact E2]; tauto].
    destruct (interval (week_key _) _ _ _ _ _) as [wi|] eqn:E3; [|exfalso; eapply HI; [|exact E3]; tauto]. do 3 eexists. reflexivity. }
  exists a. eexists. exists d, m. split; [done|]. split; [exact Hread|]. do 3 (split; [done|]). split; [done|]. split; [done|]. rewrite Hrec. split; [|eauto].
  cbn [snd]. by destruct d, m.
Qed.
End Apply.

(** ** What requests in flight hold *)

(** [Reserved], on the keys of the owner's cost basis as the server sees them. *)
Definition Reserved (uuid_ok : string → bool) (owner : string) (p : pending) : limit_error + string :=
  if negb (uuid_ok owner) then inl (InvalidRequestError "cost owner ID must be a UUID")
  else match held p with
  | Foreign => inl (ServiceError "WRONGTYPE")
  | k =>
      match fields_of k !! "sum"%string with
      | None => inr "0"%string
      | Some total => if validDecimal total then inr total else inl ErrMalformedState
      end
  end.

Lemma validDecimal_format a : amount_wf a → validDecimal (format_amount a) = true.
Proof.
  destruct a as [hi lo]. intros (Hhi & Hlo & Hc). unfold format_amount, decimal_text. cbn [fst snd] in *.
  destruct (big_String_spec hi Hhi) as (V & D & N).
  assert (String.length (big_String hi) ≤ 16)%nat as Hl16
    by (apply big_String_length; [unfold pico, CEILING, UNIT, HUGE in *; cbn [fst snd] in *; lia|lia]).
  assert (1 <= len (big_String hi)) as H1 by (destruct (big_String hi); [done|]; unfold len; cbn [String.length]; lia).
  unfold validDecimal. destruct (Z.eqb_spec lo 0) as [->|Hne].
  - rewrite Cut_digits_none by done. rewrite Z.gtb_ltb, !(proj2 (Z.ltb_ge _ _)) by (unfold len in *; lia). cbn [orb andb]. by rewrite D.
  - destruct (padded_spec lo Hlo) as (L & Dp & Vp). pose proof (trim_right_zeros_length (padded lo)) as Hl.
    pose proof (trim_right_zeros_digits _ Dp) as Df. pose proof (trim_right_zeros_value (padded lo) SCALE ltac:(lia)) as Hv.
    set (f := trim_right_zeros (padded lo)) in *.
    assert (1 <= len f) as Hf.
    { destruct f; [|unfold len; cbn [String.length]; lia]. rewrite L, Nat.sub_diag in Hv. simpl in Hv.
      rewrite append_nil_r, Vp in Hv. change (dec_value (zeros SCALE)) with 0 in Hv. by symmetry in Hv. }
    change ("." +:+ f)%string with (String "." f). rewrite Cut_digits_point by done.
    rewrite len_append. change (len (String "." f)) with (Z.of_nat (S (String.length f))). unfold len, SCALE in *.
    rewrite !Z.gtb_ltb, !(proj2 (Z.ltb_ge _ _)) by lia. cbn [orb andb]. by rewrite D, Df.
Qed.

(** What is reported is the exact sum of the leases held, lapsed ones included. *)
Lemma Reserved_total uuid_ok owner p L : uuid_ok owner = true → represents p L →
  ∃ text, Reserved uuid_ok owner p = inr text ∧ parse_amount text = Some (of_pico (total L)).
Proof.
  intros Hu HR. pose proof (represents_wf _ _ HR) as HL. unfold Reserved. rewrite Hu. cbn [negb].
  destruct (represents_cases _ _ HR) as [ [-> ->] | (Hne & e & -> & He) ]; [by exists "0"%string|].
  cbn [held fields_of]. rewrite hash_of_sum. assert (amount_wf (of_pico (total L))) as W by auto with olp.
  rewrite validDecimal_format by done. eexists; split; [done|]. by apply parse_format_amount.
Qed.

(** ** A snapshot installed *)

Definition sample_snapshot : Snapshot :=
  mkSnap None "cost" (0, 0) (0, 0) (0, 0) 2830 "9.7" sample_lease 19813 "9.625" 24290 "12" 0 sample_lease.

Lemma sample_lease_only id : String.eqb id sample_lease = true → valid_lease ((λ id : string, id) id) = true.
Proof. intros ->%String.eqb_eq. vm_compute; reflexivity. Qed.

Lemma snapshot_accepted_witness :
  ∃ d m, (ApplyCostSnapshot (λ id, id) (λ id, String.eqb id sample_lease) sample_us sample_snapshot sample_keys).2 = inr (d, m).
Proof.
  destruct (snapshot_accepted (λ id, id) (λ id, String.eqb id sample_lease) sample_lease_only sample_snapshot sample_us sample_keys
    ltac:(vm_compute; reflexivity) eq_refl ltac:(intros H; destruct (H eq_refl)) ltac:(vm_compute; reflexivity)
    ltac:(exists 1711886400000; vm_compute; reflexivity)) as (a & plan & d & m & _ & _ & _ & _ & _ & _ & _ & H & _).
  exists d, m. exact H.
Defined.
