(* ===== verification/TokenVocab.v ===== *)
(** * Token vocabularies

    The vocabulary of a byte-pair encoding ([internal/operations/tokenization/estimate/vocab.go]):
    [newVocab] reads a rank file and builds three lookups, an array for single bytes, one for
    pairs and an open addressing table for longer tokens, and [rank] answers from them. The
    table packs a rank and fourteen bits of a hash into 32 bits. Arrays are lists; a slice
    out of range panics. *)

From S2P Require Import Prelude Go Source SourceParser.
From Stdlib Require Import Ascii.
Local Open Scope Z_scope.

(** ** Rank files *)

Definition rankMagic : text := txt "OLPRANK1".
Definition rankBits : Z := 18.
Definition rankMask : Z := Z.shiftl 1 rankBits - 1.
Definition tagBits : Z := 32 - rankBits.
Definition MaxUint32 : Z := 2 ^ 32 - 1.
Definition noRank : Z := MaxUint32.

Definition size_of (t : text) : Z := Z.of_nat (length t).

Record vocab := mkVocab {
  blob : text; offsets : list Z; table : list Z; mask : Z; longest : Z; bytes : list Z; pairs : list Z;
}.

Definition at_ (l : list Z) (i : Z) : Z := default 0 (l !! Z.to_nat i).
Definition put_ (l : list Z) (i x : Z) : list Z := <[Z.to_nat i := x]> l.

(** [uvarint], from its [i]th byte on. *)
Fixpoint uvarint_from (i : nat) (value : Z) (s : text) : Z * Z :=
  match s with
  | [] => (0, 0)
  | b :: rest =>
      if Nat.ltb i 10 then
        let value := Z.lor value (wrapU64 (Z.shiftl (Z.land (code b) 0x7f) (7 * Z.of_nat i))) in
        if code b <? 0x80 then (value, Z.of_nat (S i)) else uvarint_from (S i) value rest
      else (0, 0)
  end.

Definition uvarint (s : text) : Z * Z := uvarint_from 0 0 s.

(** ** Tokens *)

(** [blob[offsets[rank]:offsets[rank+1]]], and whether the slice is in range. *)
Definition token (v : vocab) (r : Z) : text :=
  take (Z.to_nat (at_ (offsets v) (r + 1) - at_ (offsets v) r)) (drop (Z.to_nat (at_ (offsets v) r)) (blob v)).

Definition token_in_range (v : vocab) (r : Z) : bool :=
  (at_ (offsets v) r <=? at_ (offsets v) (r + 1)) && (at_ (offsets v) (r + 1) <=? size_of (blob v)).

(** ** Hashing *)

Definition hashMul1 : Z := 0xa0761d6478bd642f.
Definition hashMul2 : Z := 0xe7037ed1a0b428db.

Definition byte_at (s : text) (i : nat) : Z := match s !! i with Some c => code c | None => 0 end.

Definition load32 (s : text) (i : nat) : Z :=
  Z.lor (Z.lor (Z.lor (byte_at s i) (Z.shiftl (byte_at s (i + 1)) 8)) (Z.shiftl (byte_at s (i + 2)) 16)) (Z.shiftl (byte_at s (i + 3)) 24).

Definition load64 (s : text) (i : nat) : Z := Z.lor (load32 s i) (Z.shiftl (load32 s (i + 4)) 32).

(** The two halves of [bits.Mul64], folded. *)
Definition mul_fold (x y : Z) : Z := Z.lxor (Z.shiftr (x * y) 64) (wrapU64 (x * y)).

(** The words of sixteen bytes before the last. *)
Fixpoint hash_words (fuel : nat) (s : text) (h : Z) : text * Z :=
  match fuel with
  | O => (s, h)
  | S fuel =>
      if Nat.ltb 16 (length s)
      then hash_words fuel (drop 16 s) (mul_fold (Z.lxor (load64 s 0) hashMul1) (Z.lxor (load64 s 8) h))
      else (s, h)
  end.

Definition hashToken (s : text) : Z :=
  let '(s, h) := hash_words (length s) s (size_of s) in
  let n := length s in
  let '(a, b) :=
    if Nat.leb 8 n then (load64 s 0, load64 s (n - 8))
    else if Nat.leb 4 n then (load32 s 0, load32 s (n - 4))
    else if Nat.ltb 0 n
    then (Z.lor (Z.lor (Z.shiftl (byte_at s 0) 16) (Z.shiftl (byte_at s (Nat.div2 n)) 8)) (byte_at s (n - 1)), 0)
    else (0, 0) in
  mul_fold (Z.lxor a hashMul2) (Z.lxor (Z.lxor b h) hashMul1).

(** [hash]: the slot where probing starts, and the tag. *)
Definition hash_of (v : vocab) (t : text) : Z * Z :=
  let h := hashToken t in
  (Z.land (h mod 2 ^ 32) (mask v), Z.land (Z.shiftr h 40 mod 2 ^ 32) (Z.shiftl 1 tagBits - 1)).

(** ** The table *)

Definition entry (tag r : Z) : Z := Z.lor (Z.shiftl tag rankBits) (r + 1).
Definition entry_rank (e : Z) : Z := Z.land e rankMask - 1.
Definition entry_tag (e : Z) : Z := Z.shiftr e rankBits.

(** Probing from a slot: the first slot that is empty, or else holds the token; [None] when
    neither comes within the fuel. *)
Fixpoint probe (v : vocab) (t : text) (tag : Z) (fuel : nat) (slot : Z) : option (Z + Z) :=
  match fuel with
  | O => None
  | S fuel =>
      let e := at_ (table v) slot in
      if e =? 0 then Some (inl slot)
      else if (entry_tag e =? tag) && bool_decide (token v (entry_rank e) = t) then Some (inr (entry_rank e))
      else probe v t tag fuel (Z.land (slot + 1) (mask v))
  end.

Definition with_table (v : vocab) (t : list Z) : vocab := mkVocab (blob v) (offsets v) t (mask v) (longest v) (bytes v) (pairs v).
Definition with_longest (v : vocab) (n : Z) : vocab := mkVocab (blob v) (offsets v) (table v) (mask v) n (bytes v) (pairs v).
Definition with_bytes (v : vocab) (b : list Z) : vocab := mkVocab (blob v) (offsets v) (table v) (mask v) (longest v) b (pairs v).
Definition with_pairs (v : vocab) (p : list Z) : vocab := mkVocab (blob v) (offsets v) (table v) (mask v) (longest v) (bytes v) p.

(** [insert]: [None] when the probing does not end, [Some None] when the table already holds
    the token. *)
Definition insert_token (v : vocab) (t : text) (r : Z) : option (option vocab) :=
  let '(slot, tag) := hash_of v t in
  match probe v t tag (length (table v)) slot with
  | None => None
  | Some (inr _) => Some None
  | Some (inl slot) => Some (Some (with_table v (put_ (table v) slot (entry tag r))))
  end.

Definition pair_slot (a b : ascii) : Z := Z.lor (Z.shiftl (code a) 8) (code b).

(** [rank]; [None] when the probing does not end. *)
Definition vocab_rank (v : vocab) (t : text) : option Z :=
  match t with
  | [] => Some noRank
  | [a] => Some (at_ (bytes v) (code a))
  | [a; b] => let r := at_ (pairs v) (pair_slot a b) in Some (if r =? 0 then noRank else r - 1)
  | _ =>
      if longest v <? size_of t then Some noRank
      else
        let '(slot, tag) := hash_of v t in
        match probe v t tag (length (table v)) slot with
        | None => None
        | Some (inl _) => Some noRank
        | Some (inr r) => Some r
        end
  end.

(** ** Building *)

Inductive rank_error :=
  | NotARankFile | BadTokenCount | BadLength (i : Z) | TooLarge | WrongSize | Repeats (t : text) | NoTokenForByte (b : Z).

Inductive built := Built (v : vocab) | Refused (e : rank_error) | Panicked | Endless.

(** The lengths of the tokens, as the offsets where each ends. *)
Fixpoint read_lengths (count : nat) (i total : Z) (rest : text) : rank_error + (text * list Z * Z) :=
  match count with
  | O => inr (rest, [], total)
  | S count =>
      let '(length, n) := uvarint rest in
      if (n <=? 0) || (length =? 0) then inl (BadLength i)
      else
        let rest := drop (Z.to_nat n) rest in
        let total := wrapU64 (total + length) in
        if total >? MaxUint32 then inl TooLarge
        else match read_lengths count (i + 1) total rest with
             | inl e => inl e
             | inr (rest, ends, last) => inr (rest, total :: ends, last)
             end
  end.

(** The least power of two from [size] on that is at least [n]. *)
Fixpoint table_size (fuel : nat) (size n : Z) : Z :=
  match fuel with
  | O => size
  | S fuel => if size <? n then table_size fuel (Z.shiftl size 1) n else size
  end.

Definition add_token (v : vocab) (r : Z) : built :=
  if negb (token_in_range v r) then Panicked
  else
    let t := token v r in
    let v := with_longest v (Z.max (longest v) (size_of t)) in
    match t with
    | [a] => if negb (at_ (bytes v) (code a) =? noRank) then Refused (Repeats t) else Built (with_bytes v (put_ (bytes v) (code a) r))
    | [a; b] =>
        let slot := pair_slot a b in
        if negb (at_ (pairs v) slot =? 0) then Refused (Repeats t) else Built (with_pairs v (put_ (pairs v) slot (r + 1)))
    | _ =>
        match insert_token v t r with
        | None => Endless
        | Some None => Refused (Repeats t)
        | Some (Some v) => Built v
        end
    end.

Fixpoint add_tokens (n : nat) (r : Z) (v : vocab) : built :=
  match n with
  | O => Built v
  | S n => match add_token v r with Built v => add_tokens n (r + 1) v | other => other end
  end.

Definition missing_byte (v : vocab) : option nat := IndexFunc (λ r, r =? noRank) (bytes v).

Definition empty_vocab (rest : text) (ends : list Z) (count : Z) : vocab :=
  let size := table_size 32 (Z.shiftl 1 8) (count * 5 / 2) in
  mkVocab rest (0 :: ends) (replicate (Z.to_nat size) 0) (size - 1) 0 (replicate 256 noRank) (replicate (Z.to_nat (Z.shiftl 1 16)) 0).

Definition newVocab (data : text) : built :=
  if negb (bool_decide (take (length rankMagic) data = rankMagic)) then Refused NotARankFile
  else
    let rest := drop (length rankMagic) data in
    let '(count, n) := uvarint rest in
    if (n <=? 0) || (count =? 0) || (count >=? rankMask) then Refused BadTokenCount
    else
      match read_lengths (Z.to_nat count) 0 0 (drop (Z.to_nat n) rest) with
      | inl e => Refused e
      | inr (rest, ends, total) =>
          if negb (size_of rest =? total) then Refused WrongSize
          else
            match add_tokens (Z.to_nat count) 0 (empty_vocab rest ends count) with
            | Built v => match missing_byte v with Some b => Refused (NoTokenForByte (Z.of_nat b)) | None => Built v end
            | other => other
            end
      end.
