(* ===== verification/TokenVocabFacts.v ===== *)
(** * Token vocabularies: lookups are exact

    A vocabulary built from a rank file finds exactly the tokens of the file, each with the
    rank it has there: the open addressing table always has an empty slot, so probing ends, and
    the slots between a token's first and its own stay full. *)

From S2P Require Import Prelude Go Source SourceParser TokenVocab.
From Stdlib Require Import Ascii.
Local Open Scope Z_scope.

(** ** Words made of two parts *)

Lemma lor_shiftl_add a b n : 0 <= n → 0 <= b < 2 ^ n → Z.lor (Z.shiftl a n) b = a * 2 ^ n + b.
Proof.
  intros Hn Hb. rewrite <- Z.shiftl_mul_pow2 by done.
  assert (Z.land (Z.shiftl a n) b = 0) as E.
  { apply Z.bits_inj'. intros i Hi. rewrite Z.land_spec, Z.bits_0. destruct (Z.ltb_spec i n).
    - by rewrite Z.shiftl_spec_low.
    - rewrite <- (Z.mod_small b (2 ^ n)) by done. rewrite Z.mod_pow2_bits_high by lia. apply andb_false_r. }
  rewrite <- Z.lxor_lor by done. symmetry. by apply Z.add_nocarry_lxor.
Qed.

Lemma split_word a b n : 0 <= n → 0 <= b < 2 ^ n →
  Z.shiftr (Z.lor (Z.shiftl a n) b) n = a ∧ Z.land (Z.lor (Z.shiftl a n) b) (Z.ones n) = b.
Proof.
  intros Hn Hb. rewrite lor_shiftl_add by done. rewrite Z.shiftr_div_pow2, Z.land_ones by done. split.
  - rewrite Z.div_add_l by lia. rewrite Z.div_small by lia. lia.
  - rewrite Z.add_comm, Z_mod_plus_full. by apply Z.mod_small.
Qed.

Lemma rankMask_ones : rankMask = Z.ones rankBits.
Proof. done. Qed.

Lemma entry_parts tag r : 0 <= r < rankMask - 1 → entry_tag (entry tag r) = tag ∧ entry_rank (entry tag r) = r.
Proof.
  intros Hr. unfold entry_tag, entry_rank, entry. rewrite rankMask_ones.
  destruct (split_word tag (r + 1) rankBits) as [-> ->]; [done|change rankMask with (2 ^ rankBits - 1) in Hr; lia|]. split; lia.
Qed.

Lemma entry_nonzero tag r : 0 <= tag → 0 <= r < rankMask - 1 → entry tag r ≠ 0.
Proof.
  intros Ht Hr. unfold entry. rewrite lor_shiftl_add; [|done|change rankMask with (2 ^ rankBits - 1) in Hr; lia].
  unfold rankBits. lia.
Qed.

Lemma pair_slot_inj a b a' b' : pair_slot a b = pair_slot a' b' → a = a' ∧ b = b'.
Proof.
  unfold pair_slot. pose proof (code_bound a). pose proof (code_bound b). pose proof (code_bound a'). pose proof (code_bound b').
  rewrite !lor_shiftl_add by lia. intros E. split; apply code_inj; lia.
Qed.

Lemma pair_slot_bound a b : 0 <= pair_slot a b < 65536.
Proof. unfold pair_slot. pose proof (code_bound a). pose proof (code_bound b). rewrite lor_shiftl_add by lia. lia. Qed.

(** ** Arrays *)

Lemma at_put l i j x : 0 <= i < Z.of_nat (length l) → 0 <= j → at_ (put_ l i x) j = if j =? i then x else at_ l j.
Proof.
  intros Hi Hj. unfold at_, put_. destruct (Z.eqb_spec j i) as [->|].
  - by rewrite list_lookup_insert_eq by lia.
  - by rewrite list_lookup_insert_ne by lia.
Qed.

Lemma put_length l i x : length (put_ l i x) = length l.
Proof. apply length_insert. Qed.

Lemma at_replicate n x i : 0 <= i < Z.of_nat n → at_ (replicate n x) i = x.
Proof. intros. unfold at_. by rewrite lookup_replicate_2 by lia. Qed.

Definition full (l : list Z) : nat := length (filter (λ e, e ≠ 0) l).

Lemma full_put_exact l i x : at_ l i = 0 → 0 <= i < Z.of_nat (length l) → full (put_ l i x) = (full l + if decide (x ≠ 0)%Z then 1 else 0)%nat.
Proof.
  unfold at_, put_, full. intros H Hi. assert (∃ n, Z.to_nat i = n ∧ (n < length l)%nat) as (n & En & Hn) by (eexists; split; [done|lia]).
  rewrite En in *. clear En Hi i. revert n H Hn. induction l as [|y l IH]; intros n H Hn; [simpl in Hn; lia|].
  destruct n as [|n].
  - change (<[0%nat := x]> (y :: l)) with (x :: l). simpl in H. subst y. rewrite (filter_cons_False _ 0) by auto. destruct (decide (x ≠ 0)).
    + rewrite filter_cons_True by done. cbn [length]. lia.
    + rewrite filter_cons_False by done. lia.
  - cbn [length] in Hn. specialize (IH n H ltac:(lia)). change (<[S n := x]> (y :: l)) with (y :: <[n := x]> l). destruct (decide (y ≠ 0)).
    + rewrite !filter_cons_True by done. cbn [length]. lia.
    + by rewrite !filter_cons_False by done.
Qed.

Lemma full_put l i x : at_ l i = 0 → 0 <= i < Z.of_nat (length l) → (full (put_ l i x) ≤ S (full l))%nat.
Proof. intros H Hi. rewrite full_put_exact by done. destruct (decide _); lia. Qed.

Lemma full_free l : (full l < length l)%nat → ∃ i, 0 <= i < Z.of_nat (length l) ∧ at_ l i = 0.
Proof.
  unfold full. induction l as [|y l IH]; simpl; [lia|]. intros H. destruct (decide (y ≠ 0)) as [|E].
  - rewrite filter_cons_True in H by done. simpl in H. destruct IH as (i & Hi & E); [lia|]. exists (i + 1). split; [lia|].
    unfold at_ in *. replace (Z.to_nat (i + 1)) with (S (Z.to_nat i)) by lia. done.
  - exists 0. split; [lia|]. unfold at_. simpl. by apply dec_stable.
Qed.

(** ** Probing *)

Definition slots (v : vocab) : Z := Z.of_nat (length (table v)).

(** The table's size is a power of two, and the mask takes the remainder by it. *)
Definition masked (v : vocab) : Prop := ∃ m, 0 <= m ∧ mask v = Z.ones m ∧ slots v = 2 ^ m.

Lemma masked_mod v x : masked v → Z.land x (mask v) = x mod slots v.
Proof. intros (m & Hm & -> & ->). by apply Z.land_ones. Qed.

Lemma masked_pos v : masked v → 0 < slots v.
Proof. intros (m & Hm & _ & ->). lia. Qed.

Definition found_at (v : vocab) (t : text) (tag : Z) (slot : Z) : bool :=
  (entry_tag (at_ (table v) slot) =? tag) && bool_decide (token v (entry_rank (at_ (table v) slot)) = t).

(** The [k]th slot probed from [slot]. *)
Definition nth_slot (v : vocab) (slot k : Z) : Z := (slot + k) mod slots v.

Definition passed (v : vocab) (t : text) (tag slot k : Z) : Prop :=
  ∀ j, 0 <= j < k → at_ (table v) (nth_slot v slot j) ≠ 0 ∧ found_at v t tag (nth_slot v slot j) = false.

Lemma nth_slot_next v slot k : masked v → nth_slot v (Z.land (slot + 1) (mask v)) k = nth_slot v slot (k + 1).
Proof.
  intros Hm. pose proof (masked_pos v Hm). rewrite masked_mod by done. unfold nth_slot.
  rewrite Z.add_mod_idemp_l by lia. f_equal. lia.
Qed.

Lemma probe_spec v t tag fuel slot : masked v → 0 <= slot < slots v →
  match probe v t tag fuel slot with
  | None => passed v t tag slot (Z.of_nat fuel)
  | Some (inl s) => ∃ k, 0 <= k < Z.of_nat fuel ∧ s = nth_slot v slot k ∧ at_ (table v) s = 0 ∧ passed v t tag slot k
  | Some (inr r) => ∃ k, 0 <= k < Z.of_nat fuel ∧ let s := nth_slot v slot k in
      at_ (table v) s ≠ 0 ∧ r = entry_rank (at_ (table v) s) ∧ found_at v t tag s = true
  end.
Proof.
  intros Hm. pose proof (masked_pos v Hm) as Hpos. revert slot.
  induction fuel as [|fuel IH]; intros slot Hs; cbn [probe]; [intros j Hj; lia|].
  assert (nth_slot v slot 0 = slot) as E0 by (unfold nth_slot; rewrite Z.add_0_r; by apply Z.mod_small).
  destruct (Z.eqb_spec (at_ (table v) slot) 0) as [Ez|Ez].
  { exists 0. rewrite E0. split; [lia|]. split; [done|]. split; [done|]. intros j Hj; lia. }
  destruct (_ && _) eqn:Ef.
  { exists 0. rewrite E0. cbv zeta. split; [lia|]. done. }
  assert (∀ k, passed v t tag (Z.land (slot + 1) (mask v)) k → passed v t tag slot (k + 1)) as HP.
  { intros k H j Hj. destruct (decide (j = 0)) as [->|]; [by rewrite E0|]. specialize (H (j - 1) ltac:(lia)).
    rewrite nth_slot_next in H by done. by replace (j - 1 + 1) with j in H by lia. }
  specialize (IH (Z.land (slot + 1) (mask v)) ltac:(rewrite masked_mod by done; by apply Z.mod_pos_bound)).
  destruct (probe _ _ _ _ _) as [ [s|r] |].
  - destruct IH as (k & Hk & -> & H0 & Hp). exists (k + 1). rewrite nth_slot_next in * by done. split; [lia|]. auto.
  - destruct IH as (k & Hk & IH). exists (k + 1). rewrite nth_slot_next in IH by done. split; [lia|]. done.
  - rewrite Nat2Z.inj_succ. by apply HP.
Qed.

Lemma every_slot v slot i : masked v → 0 <= i < slots v → ∃ k, 0 <= k < slots v ∧ nth_slot v slot k = i.
Proof.
  intros Hm Hi. pose proof (masked_pos v Hm). exists ((i - slot) mod slots v). split; [by apply Z.mod_pos_bound|].
  unfold nth_slot. rewrite Z.add_mod_idemp_r by lia. replace (slot + (i - slot)) with i by lia. by apply Z.mod_small.
Qed.

(** ** The invariant of a vocabulary with its first tokens *)

Definition long (t : text) : Prop := (3 ≤ length t)%nat.

Definition home (v : vocab) (t : text) : Z := (hash_of v t).1.
Definition tag_of (v : vocab) (t : text) : Z := (hash_of v t).2.

(** The table holds a token's entry, and the slots probed before it are full. *)
Definition stored (v : vocab) (r : Z) : Prop :=
  ∃ k, 0 <= k < slots v ∧ at_ (table v) (nth_slot v (home v (token v r)) k) = entry (tag_of v (token v r)) r ∧
    ∀ j, 0 <= j < k → at_ (table v) (nth_slot v (home v (token v r)) j) ≠ 0.

Record vocab_ok (n : Z) (v : vocab) : Prop := mkVocabOk {
  ok_masked : masked v;
  ok_bound : n <= rankMask - 1 ∧ n < slots v;
  ok_bytes_len : length (bytes v) = 256%nat;
  ok_pairs_len : Z.of_nat (length (pairs v)) = 65536;
  ok_distinct : ∀ r r', 0 <= r < n → 0 <= r' < n → token v r = token v r' → r = r';
  ok_nonempty : ∀ r, 0 <= r < n → token v r ≠ [];
  ok_longest : ∀ r, 0 <= r < n → size_of (token v r) <= longest v;
  ok_bytes : ∀ a r, at_ (bytes v) (code a) = r → r ≠ noRank → 0 <= r < n ∧ token v r = [a];
  ok_bytes' : ∀ a r, 0 <= r < n → token v r = [a] → at_ (bytes v) (code a) = r;
  ok_pairs : ∀ a b r, at_ (pairs v) (pair_slot a b) = r → r ≠ 0 → 0 <= r - 1 < n ∧ token v (r - 1) = [a; b];
  ok_pairs' : ∀ a b r, 0 <= r < n → token v r = [a; b] → at_ (pairs v) (pair_slot a b) = r + 1;
  ok_table : ∀ s, 0 <= s < slots v → at_ (table v) s ≠ 0 →
    ∃ r, 0 <= r < n ∧ long (token v r) ∧ at_ (table v) s = entry (tag_of v (token v r)) r;
  ok_table' : ∀ r, 0 <= r < n → long (token v r) → stored v r;
  ok_full : Z.of_nat (full (table v)) <= n;
}.

Lemma home_bound v t : masked v → 0 <= home v t < slots v.
Proof. intros Hm. unfold home, hash_of. cbn [fst]. rewrite masked_mod by done. apply Z.mod_pos_bound. by apply masked_pos. Qed.

Lemma tag_bound v t : 0 <= tag_of v t.
Proof. unfold tag_of, hash_of. cbn [snd]. apply Z.land_nonneg. right. unfold tagBits. vm_compute. discriminate. Qed.

Lemma nth_slot_bound v slot k : masked v → 0 <= nth_slot v slot k < slots v.
Proof. intros Hm. apply Z.mod_pos_bound. by apply masked_pos. Qed.

(** What probing for a text finds. *)
Lemma probe_ok n v t : vocab_ok n v →
  match probe v t (tag_of v t) (length (table v)) (home v t) with
  | None => False
  | Some (inl s) => (¬ ∃ r, 0 <= r < n ∧ long t ∧ token v r = t) ∧
      0 <= s < slots v ∧ at_ (table v) s = 0 ∧
      ∃ k, 0 <= k < slots v ∧ s = nth_slot v (home v t) k ∧ ∀ j, 0 <= j < k → at_ (table v) (nth_slot v (home v t) j) ≠ 0
  | Some (inr r) => 0 <= r < n ∧ token v r = t
  end.
Proof.
  intros V. pose proof (ok_masked _ _ V) as Hm. pose proof (probe_spec v t (tag_of v t) (length (table v)) (home v t) Hm (home_bound v t Hm)) as P.
  fold (slots v) in P. destruct (probe _ _ _ _ _) as [ [s|r] |].
  - destruct P as (k & Hk & -> & H0 & Hp). split; [|].
    + intros (r & Hr & Hl & Et). destruct (ok_table' _ _ V r Hr ltac:(by rewrite Et)) as (k' & Hk' & He & Hpre). rewrite Et in *.
      pose proof (ok_bound _ _ V) as [Hb _]. destruct (entry_parts (tag_of v t) r ltac:(lia)) as [E1 E2].
      destruct (Z.lt_total k k') as [Hlt|[->|Hlt] ].
      * by apply (Hpre k ltac:(lia)).
      * rewrite H0 in He. by apply (entry_nonzero (tag_of v t) r (tag_bound _ _) ltac:(lia)).
      * destruct (Hp k' ltac:(lia)) as [_ Hf]. unfold found_at in Hf. rewrite He, E1, E2, Z.eqb_refl, bool_decide_true in Hf by done. done.
    + split; [by apply nth_slot_bound|]. split; [done|]. exists k. split; [done|]. split; [done|]. intros j Hj. by apply (Hp j Hj).
  - destruct P as (k & Hk & Hnz & -> & Hf). destruct (ok_table _ _ V (nth_slot v (home v t) k) (nth_slot_bound v _ k Hm) Hnz) as (r & Hr & Hl & He).
    pose proof (ok_bound _ _ V) as [Hb _]. unfold found_at in Hf. rewrite He in *.
    destruct (entry_parts (tag_of v (token v r)) r ltac:(lia)) as [E1 E2]. rewrite E2 in *. split; [done|].
    apply andb_true_iff in Hf as [_ Hf]. by apply bool_decide_eq_true in Hf.
  - destruct (full_free (table v)) as (i & Hi & E).
    { pose proof (ok_full _ _ V). pose proof (ok_bound _ _ V). unfold slots in *. lia. }
    destruct (every_slot v (home v t) i Hm Hi) as (k & Hk & <-). destruct (P k Hk) as [Hn _]. done.
Qed.

(** ** Ranks *)

Definition no_token (v : vocab) (n : Z) (t : text) : Prop := ∀ r, 0 <= r < n → token v r ≠ t.

Lemma vocab_rank_ok n v t : vocab_ok n v →
  ∃ r, vocab_rank v t = Some r ∧ (r = noRank ∧ no_token v n t ∨ 0 <= r < n ∧ token v r = t).
Proof.
  intros V. pose proof (ok_bound _ _ V) as [Hb _]. unfold vocab_rank. destruct t as [|a [|b [|c t] ] ].
  - exists noRank. split; [done|]. left. split; [done|]. intros r Hr. by apply (ok_nonempty _ _ V).
  - eexists; split; [done|]. destruct (decide (at_ (bytes v) (code a) = noRank)) as [E|E].
    + left. split; [done|]. intros r Hr Et. rewrite (ok_bytes' _ _ V a r Hr Et) in E. subst r.
      change (rankMask - 1) with 262142 in Hb. change noRank with 4294967295 in Hr. lia.
    + right. by apply (ok_bytes _ _ V a).
  - eexists; split; [done|]. destruct (Z.eqb_spec (at_ (pairs v) (pair_slot a b)) 0) as [E|E].
    + left. split; [done|]. intros r Hr Et. rewrite (ok_pairs' _ _ V a b r Hr Et) in E. lia.
    + right. by apply (ok_pairs _ _ V a b).
  - destruct (Z.ltb_spec (longest v) (size_of (a :: b :: c :: t))) as [H|H].
    + eexists; split; [done|]. left. split; [done|]. intros r Hr Et. pose proof (ok_longest _ _ V r Hr) as Hl. rewrite Et in Hl. lia.
    + pose proof (probe_ok n v (a :: b :: c :: t) V) as P. unfold home, tag_of in P.
      destruct (hash_of v (a :: b :: c :: t)) as [slot tag]. cbn [fst snd] in P.
      destruct (probe _ _ _ _ _) as [ [s|r] |]; [| |done]; (eexists; split; [done|]).
      * left. split; [done|]. intros r Hr Et. destruct P as [P _]. apply P. exists r. split; [done|]. split; [|done]. unfold long. simpl. lia.
      * by right.
Qed.

(** ** Adding a token *)

Lemma long_not_short t : long t → ∀ a b, t ≠ [a] ∧ t ≠ [a; b].
Proof. unfold long. intros H a b. split; intros ->; simpl in H; lia. Qed.

(** The parts of the invariant that the next token adds to alike in each case. *)
Lemma tokens_extend n v : vocab_ok n v → no_token v n (token v n) →
  ∀ r r', 0 <= r < n + 1 → 0 <= r' < n + 1 → token v r = token v r' → r = r'.
Proof.
  intros V Hno r r' Hr Hr' E. destruct (decide (r = n)) as [->|], (decide (r' = n)) as [->|]; [done| | |].
  - exfalso. by apply (Hno r' ltac:(lia)).
  - exfalso. by apply (Hno r ltac:(lia)).
  - apply (ok_distinct _ _ V); [lia..|done].
Qed.

Lemma add_short n v v' : vocab_ok n v → n + 1 <= rankMask - 1 → n + 1 < slots v → token v n ≠ [] → ¬ long (token v n) →
  no_token v n (token v n) →
  blob v' = blob v → offsets v' = offsets v → table v' = table v → mask v' = mask v →
  longest v' = Z.max (longest v) (size_of (token v n)) →
  length (bytes v') = 256%nat → Z.of_nat (length (pairs v')) = 65536 →
  (∀ a, at_ (bytes v') (code a) = if bool_decide (token v n = [a]) then n else at_ (bytes v) (code a)) →
  (∀ a b, at_ (pairs v') (pair_slot a b) = if bool_decide (token v n = [a; b]) then n + 1 else at_ (pairs v) (pair_slot a b)) →
  vocab_ok (n + 1) v'.
Proof.
  intros V Hn Hs Hne Hsh Hno Eb Eo Et Em El Lb Lp Hbytes Hpairs.
  assert (∀ r, token v' r = token v r) as ET by (intros r; unfold token; by rewrite Eb, Eo).
  assert (slots v' = slots v) as ES by (unfold slots; by rewrite Et).
  assert (∀ t, hash_of v' t = hash_of v t) as EH by (intros t; unfold hash_of; by rewrite Em).
  assert (∀ r, 0 <= r < n + 1 → r ≠ n → 0 <= r < n) as Hlt by lia.
  constructor.
  - destruct (ok_masked _ _ V) as (m & ? & ? & ?). exists m. by rewrite Em, ES.
  - by rewrite ES.
  - done.
  - done.
  - intros r r'. rewrite !ET. by apply tokens_extend.
  - intros r Hr. rewrite ET. destruct (decide (r = n)) as [->|]; [done|]. apply (ok_nonempty _ _ V). auto.
  - intros r Hr. rewrite ET, El. destruct (decide (r = n)) as [->|]; [lia|]. pose proof (ok_longest _ _ V r ltac:(auto)). lia.
  - intros a r. rewrite Hbytes, ET. case_bool_decide as E; [intros <- _; split; [pose proof (ok_full _ _ V); lia|done]|].
    intros H Hr. destruct (ok_bytes _ _ V a r H Hr) as [? ?]. split; [lia|done].
  - intros a r Hr. rewrite ET, Hbytes. intros E. destruct (decide (r = n)) as [->|]; [by rewrite bool_decide_true|].
    rewrite bool_decide_false; [apply (ok_bytes' _ _ V); auto|]. intros E'. apply (Hno r ltac:(auto)). congruence.
  - intros a b r. rewrite Hpairs, ET. case_bool_decide as E.
    { intros <- _. replace (n + 1 - 1) with n by lia. split; [pose proof (ok_full _ _ V); lia|done]. }
    intros H Hr. destruct (ok_pairs _ _ V a b r H Hr) as [? ?]. split; [lia|done].
  - intros a b r Hr. rewrite ET, Hpairs. intros E. destruct (decide (r = n)) as [->|]; [by rewrite bool_decide_true|].
    rewrite bool_decide_false; [apply (ok_pairs' _ _ V); auto|]. intros E'. apply (Hno r ltac:(auto)). congruence.
  - intros s Hs' Hz. rewrite Et, ES in *. destruct (ok_table _ _ V s Hs' Hz) as (r & Hr & Hl & E). exists r. rewrite ET.
    unfold tag_of. rewrite EH. split; [lia|done].
  - intros r Hr Hl. rewrite ET in Hl. destruct (decide (r = n)) as [->|]; [done|].
    destruct (ok_table' _ _ V r ltac:(auto) Hl) as (k & Hk & E & Hp). exists k.
    unfold home, tag_of, nth_slot in *. rewrite ET, EH, Et, ES. done.
  - rewrite Et. pose proof (ok_full _ _ V). lia.
Qed.

Lemma add_long n v v' s k : vocab_ok n v → n + 1 <= rankMask - 1 → n + 1 < slots v → long (token v n) → no_token v n (token v n) →
  0 <= s < slots v → at_ (table v) s = 0 → 0 <= k < slots v → s = nth_slot v (home v (token v n)) k →
  (∀ j, 0 <= j < k → at_ (table v) (nth_slot v (home v (token v n)) j) ≠ 0) →
  v' = with_table (with_longest v (Z.max (longest v) (size_of (token v n)))) (put_ (table v) s (entry (tag_of v (token v n)) n)) →
  vocab_ok (n + 1) v'.
Proof.
  intros V Hn Hs Hlong Hno Hs' Hz Hk -> Hpre ->. set (s := nth_slot v _ k) in *. set (e := entry _ n).
  pose proof (ok_full _ _ V) as Hfull. assert (0 <= n) as Hn0 by lia.
  assert (e ≠ 0) as He by (apply entry_nonzero; [apply tag_bound|lia]).
  assert (∀ j, 0 <= j < slots v → at_ (put_ (table v) s e) j = if j =? s then e else at_ (table v) j) as HP
    by (intros j Hj; apply at_put; [done|lia]).
  assert (slots (with_table (with_longest v (Z.max (longest v) (size_of (token v n)))) (put_ (table v) s e)) = slots v) as ES
    by (unfold slots; cbn [table with_table]; by rewrite put_length).
  assert (∀ r, 0 <= r < n + 1 → r ≠ n → 0 <= r < n) as Hlt by lia.
  pose proof (long_not_short _ Hlong) as Hshort. pose proof (ok_masked _ _ V) as Hm.
  constructor.
  - destruct Hm as (m & ? & ? & ?). exists m. by rewrite ES.
  - by rewrite ES.
  - exact (ok_bytes_len _ _ V).
  - exact (ok_pairs_len _ _ V).
  - exact (tokens_extend n v V Hno).
  - intros r Hr. destruct (decide (r = n)) as [->|]; [intros E; change (token v n = []) in E; rewrite E in Hlong; unfold long in Hlong; simpl in Hlong; lia|].
    apply (ok_nonempty _ _ V). auto.
  - intros r Hr. cbn [longest with_table with_longest]. change (size_of (token v r) <= Z.max (longest v) (size_of (token v n))).
    destruct (decide (r = n)) as [->|]; [lia|]. pose proof (ok_longest _ _ V r ltac:(auto)). lia.
  - intros a r H Hr. destruct (ok_bytes _ _ V a r H Hr) as [? ?]. split; [lia|done].
  - intros a r Hr E. destruct (decide (r = n)) as [->|]; [by destruct (Hshort a a)|]. apply (ok_bytes' _ _ V a r); auto.
  - intros a b r H Hr. destruct (ok_pairs _ _ V a b r H Hr) as [? ?]. split; [lia|done].
  - intros a b r Hr E. destruct (decide (r = n)) as [->|]; [by destruct (Hshort a b)|]. apply (ok_pairs' _ _ V a b r); auto.
  - intros j Hj. rewrite ES in Hj. cbn [table with_table]. rewrite HP by done. destruct (Z.eqb_spec j s) as [->|].
    + intros _. exists n. split; [lia|]. done.
    + intros H. destruct (ok_table _ _ V j Hj H) as (r & Hr & Hl & E). exists r. split; [lia|]. done.
  - intros r Hr Hl. unfold stored. rewrite ES. destruct (decide (r = n)) as [->|].
    + exists k. split; [done|]. unfold nth_slot. rewrite ES. cbn [table with_table]. split.
      * change (at_ (put_ (table v) s e) s = e). rewrite HP by done. by rewrite Z.eqb_refl.
      * intros j Hj. change (at_ (put_ (table v) s e) (nth_slot v (home v (token v n)) j) ≠ 0).
        rewrite HP by (by apply nth_slot_bound). destruct (_ =? s); [done|]. by apply Hpre.
    + destruct (ok_table' _ _ V r ltac:(auto) Hl) as (k' & Hk' & E & Hp). exists k'. split; [done|]. unfold nth_slot. rewrite ES. cbn [table with_table]. split.
      * change (at_ (put_ (table v) s e) (nth_slot v (home v (token v r)) k') = entry (tag_of v (token v r)) r).
        rewrite HP by (by apply nth_slot_bound). destruct (Z.eqb_spec (nth_slot v (home v (token v r)) k') s) as [Ek|]; [|done].
        rewrite Ek, Hz in E. exfalso. symmetry in E. revert E. apply entry_nonzero; [apply tag_bound|lia].
      * intros j Hj. change (at_ (put_ (table v) s e) (nth_slot v (home v (token v r)) j) ≠ 0).
        rewrite HP by (by apply nth_slot_bound). destruct (_ =? s); [done|]. by apply Hp.
  - cbn [table with_table]. pose proof (full_put (table v) s e Hz Hs'). lia.
Qed.

Lemma token_nonempty v r : token_in_range v r = true → 0 <= at_ (offsets v) r → at_ (offsets v) r ≠ at_ (offsets v) (r + 1) → token v r ≠ [].
Proof.
  unfold token_in_range, token, size_of. intros H H0 Hne E. split_bools. bool_to_prop. apply (f_equal length) in E.
  rewrite length_take, length_drop in E. simpl in E. lia.
Qed.

Definition same_tokens (v v' : vocab) : Prop := blob v' = blob v ∧ offsets v' = offsets v ∧ slots v' = slots v.

Lemma add_token_ok n v : vocab_ok n v → n + 1 <= rankMask - 1 → n + 1 < slots v →
  0 <= at_ (offsets v) n → at_ (offsets v) n ≠ at_ (offsets v) (n + 1) →
  match add_token v n with
  | Built v' => vocab_ok (n + 1) v' ∧ same_tokens v v' ∧ token_in_range v n = true
  | Endless => False
  | _ => True
  end.
Proof.
  intros V Hn Hs H0 Hne. unfold add_token. destruct (token_in_range v n) eqn:R; [|done]. cbn [negb].
  pose proof (token_nonempty v n R H0 Hne) as Hem. pose proof (ok_full _ _ V) as Hf. set (v1 := with_longest v _).
  destruct (token v n) as [|a [|b [|c t] ] ] eqn:Et; [done| | |].
  - destruct (Z.eqb_spec (at_ (bytes v1) (code a)) noRank) as [Eb|]; [|done]. cbn [negb]. split; [|done].
    pose proof (code_bound a) as Ba. pose proof (ok_bytes_len _ _ V) as Lb.
    eapply (add_short n v); try done; rewrite ?Et; try done.
    + unfold long. simpl. lia.
    + intros r Hr E. pose proof (ok_bytes' _ _ V a r Hr E) as Ea. change (at_ (bytes v) (code a) = noRank) in Eb.
      rewrite Eb in Ea. subst r. change noRank with 4294967295 in Hr. change (rankMask - 1) with 262142 in Hn. lia.
    + cbn [bytes with_bytes v1 with_longest]. by rewrite put_length.
    + exact (ok_pairs_len _ _ V).
    + intros x. cbn [bytes with_bytes]. pose proof (code_bound x). rewrite at_put by (change (length (bytes v1)) with (length (bytes v)); lia).
      destruct (Z.eqb_spec (code x) (code a)) as [Ec|Ec]; [apply code_inj in Ec as ->; by rewrite bool_decide_true|].
      rewrite bool_decide_false by congruence. done.
    + intros x y. by rewrite bool_decide_false.
  - destruct (Z.eqb_spec (at_ (pairs v1) (pair_slot a b)) 0) as [Eb|]; [|done]. cbn [negb]. split; [|done].
    pose proof (pair_slot_bound a b) as Ba. pose proof (ok_pairs_len _ _ V) as Lb.
    eapply (add_short n v); try done; rewrite ?Et; try done.
    + unfold long. simpl. lia.
    + intros r Hr E. pose proof (ok_pairs' _ _ V a b r Hr E) as Ea. change (at_ (pairs v) (pair_slot a b) = 0) in Eb. lia.
    + exact (ok_bytes_len _ _ V).
    + cbn [pairs with_pairs v1 with_longest]. by rewrite put_length.
    + intros x. by rewrite bool_decide_false.
    + intros x y. cbn [pairs with_pairs]. pose proof (pair_slot_bound x y).
      rewrite at_put by (change (length (pairs v1)) with (length (pairs v)); lia).
      destruct (Z.eqb_spec (pair_slot x y) (pair_slot a b)) as [Ec|Ec];
        [apply pair_slot_inj in Ec as [-> ->]; by rewrite bool_decide_true|].
      rewrite bool_decide_false by congruence. done.
  - pose proof (probe_ok n v (a :: b :: c :: t) V) as P. unfold insert_token.
    change (hash_of v1 (a :: b :: c :: t)) with (hash_of v (a :: b :: c :: t)).
    assert (∀ slot tag fuel, probe v1 (a :: b :: c :: t) tag fuel slot = probe v (a :: b :: c :: t) tag fuel slot) as Epr.
    { intros slot tag fuel. revert slot. induction fuel as [|fuel IH]; intros slot; cbn [probe]; [done|].
      change (table v1) with (table v). change (mask v1) with (mask v). by rewrite IH. }
    unfold home, tag_of in P. change (table v1) with (table v). destruct (hash_of v (a :: b :: c :: t)) as [slot tag] eqn:Eh. cbn [fst snd] in P.
    rewrite Epr. destruct (probe _ _ _ _ _) as [ [s|r] |]; [|done|done]. destruct P as (Pno & Ps & Pz & k & Pk & Pe & Pp).
    assert (long (a :: b :: c :: t)) as Hl by (unfold long; simpl; lia).
    split; [|split; [|done] ].
    + eapply (add_long n v _ s k); try done; rewrite ?Et; try done.
      * intros r Hr E. apply Pno. eauto.
      * unfold home. by rewrite Eh.
      * unfold home. by rewrite Eh.
      * unfold tag_of. rewrite Eh. done.
    + split; [done|]. split; [done|]. unfold slots. cbn [table with_table]. by rewrite put_length.
Qed.

Lemma same_tokens_refl v : same_tokens v v.
Proof. done. Qed.

Lemma add_tokens_ok k n v : vocab_ok n v → 0 <= n → n + Z.of_nat k <= rankMask - 1 → n + Z.of_nat k < slots v →
  (∀ r, n <= r < n + Z.of_nat k → 0 <= at_ (offsets v) r ∧ at_ (offsets v) r ≠ at_ (offsets v) (r + 1)) →
  match add_tokens k n v with
  | Built v' => vocab_ok (n + Z.of_nat k) v' ∧ same_tokens v v' ∧ ∀ r, n <= r < n + Z.of_nat k → token_in_range v r = true
  | Endless => False
  | _ => True
  end.
Proof.
  revert n v. induction k as [|k IH]; intros n v V H0 Hb Hs Ho; cbn [add_tokens].
  { rewrite Z.add_0_r. split; [done|]. split; [done|]. lia. }
  pose proof (add_token_ok n v V ltac:(lia) ltac:(lia)) as H. destruct (Ho n ltac:(lia)) as [O1 O2]. specialize (H O1 O2).
  destruct (add_token v n) as [v1|e| |]; try done. destruct H as (V1 & (Eb & Eo & Es) & R).
  specialize (IH (n + 1) v1 V1 ltac:(lia) ltac:(lia) ltac:(lia) ltac:(intros r Hr; rewrite Eo; apply Ho; lia)).
  destruct (add_tokens k (n + 1) v1) as [v2|e| |]; try done. destruct IH as (V2 & (Eb' & Eo' & Es') & R').
  replace (n + Z.of_nat (S k)) with (n + 1 + Z.of_nat k) by lia. split; [done|].
  split; [unfold same_tokens; rewrite Eb', Eo', Es'; done|].
  intros r Hr. destruct (decide (r = n)) as [->|]; [done|]. specialize (R' r ltac:(lia)). unfold token_in_range in *. by rewrite Eb, Eo in R'.
Qed.

(** ** The tokens of a file *)

Lemma wrapU64_bound z : 0 <= wrapU64 z < 2 ^ 64.
Proof. unfold wrapU64. apply Z.mod_pos_bound. lia. Qed.

Lemma lor_bound a b n : 0 <= n → 0 <= a < 2 ^ n → 0 <= b < 2 ^ n → 0 <= Z.lor a b < 2 ^ n.
Proof.
  intros Hn Ha Hb. assert (Z.lor a b = Z.lor a b mod 2 ^ n) as ->; [|apply Z.mod_pos_bound; lia].
  apply Z.bits_inj'. intros i Hi. destruct (Z.ltb_spec i n).
  - by rewrite Z.mod_pow2_bits_low.
  - rewrite Z.mod_pow2_bits_high, Z.lor_spec by lia.
    rewrite <- (Z.mod_small a (2 ^ n)), <- (Z.mod_small b (2 ^ n)) by done. by rewrite !Z.mod_pow2_bits_high by lia.
Qed.

Lemma uvarint_bound s : 0 <= (uvarint s).1 < 2 ^ 64.
Proof.
  unfold uvarint. assert (∀ i v, 0 <= v < 2 ^ 64 → 0 <= (uvarint_from i v s).1 < 2 ^ 64) as H; [|by apply H].
  induction s as [|b s IH]; intros i v Hv; cbn [uvarint_from]; [done|]. destruct (Nat.ltb i 10); [|done].
  pose proof (lor_bound v _ 64 ltac:(lia) Hv (wrapU64_bound (Z.shiftl (Z.land (code b) 0x7f) (7 * Z.of_nat i)))) as Hl.
  destruct (code b <? 0x80); [done|]. by apply IH.
Qed.

Lemma at_cons x l j : 0 <= j → at_ (x :: l) (j + 1) = at_ l j.
Proof. intros. unfold at_. by replace (Z.to_nat (j + 1)) with (S (Z.to_nat j)) by lia. Qed.

Lemma read_lengths_ends k i total rest rest' ends last : 0 <= total < 2 ^ 64 → read_lengths k i total rest = inr (rest', ends, last) →
  length ends = k ∧ at_ (total :: ends) (Z.of_nat k) = last ∧
  ∀ j, 0 <= j < Z.of_nat k → 0 <= at_ (total :: ends) j ∧ at_ (total :: ends) j ≠ at_ (total :: ends) (j + 1).
Proof.
  revert i total rest ends. induction k as [|k IH]; intros i total rest ends Ht; cbn [read_lengths].
  { intros [= <- <- <-]. split; [done|]. split; [done|]. lia. }
  pose proof (uvarint_bound rest) as Hu. destruct (uvarint rest) as [n w]. cbn [fst] in Hu.
  destruct (w <=? 0); [done|]. cbn [orb]. destruct (Z.eqb_spec n 0) as [|Hn]; [done|].
  set (total' := wrapU64 (total + n)). destruct (total' >? MaxUint32); [done|].
  destruct (read_lengths k (i + 1) total' _) as [e|[ [r' ends'] l'] ] eqn:E; [done|]. intros [= <- <- <-].
  apply IH in E as (El & Ea & Eo); [|apply wrapU64_bound]. split; [simpl; by rewrite El|]. split.
  { rewrite <- Ea. rewrite Nat2Z.inj_succ. apply at_cons. lia. }
  intros j Hj. destruct (decide (j = 0)) as [->|].
  - change (0 <= total ∧ total ≠ total'). split; [lia|]. unfold total', wrapU64. intros Et.
    destruct (Z.lt_ge_cases (total + n) (2 ^ 64)).
    + rewrite Z.mod_small in Et by lia. lia.
    + assert (total + n - 2 ^ 64 = (total + n) mod 2 ^ 64) as Em by (apply (Z.mod_unique _ _ 1); lia). lia.
  - specialize (Eo (j - 1) ltac:(lia)). pose proof (at_cons total (total' :: ends') (j - 1) ltac:(lia)) as E1.
    pose proof (at_cons total (total' :: ends') j ltac:(lia)) as E2. replace (j - 1 + 1) with j in * by lia. by rewrite E1, E2.
Qed.

Lemma table_size_pow fuel m n : 0 <= m → ∃ m', m <= m' ∧ table_size fuel (2 ^ m) n = 2 ^ m' ∧
  (n <= 2 ^ (m + Z.of_nat fuel) → n <= 2 ^ m').
Proof.
  revert m. induction fuel as [|fuel IH]; intros m Hm; cbn [table_size].
  { exists m. rewrite Z.add_0_r. lia. }
  destruct (Z.ltb_spec (2 ^ m) n).
  - rewrite Z.shiftl_mul_pow2, <- Z.pow_add_r by lia. destruct (IH (m + 1) ltac:(lia)) as (m' & H1 & H2 & H3).
    exists m'. split; [lia|]. split; [done|]. intros Hn. apply H3. by replace (m + 1 + Z.of_nat fuel) with (m + Z.of_nat (S fuel)) by lia.
  - exists m. split; [lia|]. split; [done|]. lia.
Qed.

Lemma empty_vocab_ok rest ends count : 0 < count < rankMask →
  vocab_ok 0 (empty_vocab rest ends count) ∧ count < slots (empty_vocab rest ends count).
Proof.
  intros Hc. unfold empty_vocab. change (Z.shiftl 1 8) with (2 ^ 8).
  destruct (table_size_pow 32 8 (count * 5 / 2)) as (m & Hm & -> & Hs); [lia|].
  change rankMask with 262143 in Hc. specialize (Hs ltac:(change (2 ^ (8 + Z.of_nat 32)) with 1099511627776; apply Z.div_le_upper_bound; lia)).
  assert (2 ^ 8 <= 2 ^ m) as H256 by (apply Z.pow_le_mono_r; lia). change (2 ^ 8) with 256 in H256.
  assert (0 < 2 ^ m) as Hpos by lia. set (v := mkVocab _ _ _ _ _ _ _).
  assert (slots v = 2 ^ m) as ES by (unfold slots, v; cbn [table]; rewrite length_replicate; lia).
  assert (∀ s, 0 <= s < slots v → at_ (table v) s = 0) as HZ by (intros s Hs'; apply at_replicate; rewrite ES in Hs'; lia).
  split; [|rewrite ES; Z.to_euclidean_division_equations; lia].
  constructor; try (intros; lia).
  - exists m. split; [lia|]. split; [by rewrite Z.ones_equiv|done].
  - rewrite ES. change (rankMask - 1) with 262142. lia.
  - unfold v. cbn [bytes]. apply length_replicate.
  - unfold v. cbn [pairs]. rewrite length_replicate. done.
  - intros a r. pose proof (code_bound a). unfold v. cbn [bytes]. rewrite at_replicate by lia. congruence.
  - intros a b r. pose proof (pair_slot_bound a b). unfold v. cbn [pairs]. rewrite at_replicate by (change (Z.shiftl 1 16) with 65536; lia). congruence.
  - intros s Hs' H. by rewrite HZ in H.
  - unfold v, full. cbn [table]. clear. induction (Z.to_nat (2 ^ m)) as [|k IH]; simpl; [done|]. by rewrite filter_cons_False by auto.
Qed.

(** The tokens of a vocabulary, in rank order. *)
Definition tokens (v : vocab) (n : nat) : list text := (λ r, token v (Z.of_nat r)) <$> seq 0 n.

Lemma tokens_tile v n : at_ (offsets v) 0 = 0 → (∀ r, 0 <= r < Z.of_nat n → token_in_range v r = true) →
  concat (tokens v n) = take (Z.to_nat (at_ (offsets v) (Z.of_nat n))) (blob v).
Proof.
  intros H0 HR. unfold tokens. induction n as [|n IH]; [change (Z.of_nat 0) with 0; by rewrite H0|].
  rewrite seq_S, fmap_app, concat_app, IH by (intros; apply HR; lia). cbn [Nat.add fmap list_fmap concat]. rewrite app_nil_r.
  pose proof (HR (Z.of_nat n) ltac:(lia)) as R. unfold token_in_range, token in *. split_bools. bool_to_prop.
  replace (Z.of_nat (S n)) with (Z.of_nat n + 1) by lia. set (a := at_ (offsets v) (Z.of_nat n)) in *. set (b := at_ (offsets v) (Z.of_nat n + 1)) in *.
  assert (0 <= a) as Ha.
  { unfold a. clear -H0 HR. assert (∀ k, (k ≤ n)%nat → 0 <= at_ (offsets v) (Z.of_nat k)) as H; [|by apply H].
    induction k as [|k IH]; intros Hk; [change (Z.of_nat 0) with 0; by rewrite H0|]. specialize (IH ltac:(lia)). specialize (HR (Z.of_nat k) ltac:(lia)).
    unfold token_in_range in HR. split_bools. bool_to_prop. replace (Z.of_nat (S k)) with (Z.of_nat k + 1) by lia. lia. }
  replace (Z.to_nat b) with (Z.to_nat a + Z.to_nat (b - a))%nat by lia. apply take_take_drop.
Qed.

(** What the lookup structures built from rank data promise. *)
Definition vocab_exact (data : text) : Prop :=
  match newVocab data with
  | Built v =>
      ∃ n, 0 < Z.of_nat n < rankMask ∧ concat (tokens v n) = blob v ∧
        (∀ t, ∃ r, vocab_rank v t = Some r ∧ ((r = noRank ∧ t ∉ tokens v n) ∨ tokens v n !! Z.to_nat r = Some t ∧ 0 <= r < Z.of_nat n)) ∧
        (∀ r t, tokens v n !! r = Some t → vocab_rank v t = Some (Z.of_nat r)) ∧
        (∀ a, [a] ∈ tokens v n)
  | Endless => False
  | Refused _ | Panicked => True
  end.

Lemma newVocab_exact data : vocab_exact data.
Proof.
  unfold vocab_exact, newVocab. destruct (negb (bool_decide _)); [done|]. set (rest0 := drop _ data). pose proof (uvarint_bound rest0) as Hu.
  destruct (uvarint rest0) as [count w]. cbn [fst] in Hu. destruct (w <=? 0); [done|]. cbn [orb].
  destruct (Z.eqb_spec count 0); [done|]. cbn [orb]. rewrite Z.geb_leb. destruct (Z.leb_spec rankMask count) as [|Hc]; [done|].
  destruct (read_lengths _ _ _ _) as [e|[ [rest ends] total] ] eqn:ER; [done|]. destruct (Z.eqb_spec (size_of rest) total) as [Et|]; [|done].
  cbn [negb]. apply read_lengths_ends in ER as (El & Elast & Eo); [|lia]. rewrite Z2Nat.id in * by lia.
  destruct (empty_vocab_ok rest ends count ltac:(lia)) as [V0 Hs].
  pose proof (add_tokens_ok (Z.to_nat count) 0 _ V0 ltac:(lia) ltac:(lia) ltac:(lia)) as A.
  rewrite Z2Nat.id in A by lia. specialize (A Eo). destruct (add_tokens _ _ _) as [v|e| |]; try done.
  destruct A as (V & (Eb & Eoff & _) & R). destruct (missing_byte v) eqn:EM; [done|]. exists (Z.to_nat count).
  assert (∀ r t, tokens v (Z.to_nat count) !! r = Some t ↔ 0 <= Z.of_nat r < count ∧ token v (Z.of_nat r) = t) as HT.
  { intros r t. unfold tokens. rewrite list_lookup_fmap_Some. split.
    - intros (i & -> & [-> Hi]%lookup_seq). split; [lia|done].
    - intros [Hr <-]. exists r. split; [done|]. apply lookup_seq. lia. }
  assert (∀ t, t ∈ tokens v (Z.to_nat count) ↔ ∃ r, 0 <= r < count ∧ token v r = t) as HE.
  { intros t. rewrite list_elem_of_lookup. split; [intros (i & Hi%HT); naive_solver|]. intros (r & Hr & E). exists (Z.to_nat r). apply HT. by rewrite Z2Nat.id by lia. }
  split; [lia|]. split.
  { rewrite tokens_tile.
    - rewrite Z2Nat.id by lia. rewrite Eoff, Eb. cbn [blob offsets empty_vocab]. rewrite Elast. apply take_ge. unfold size_of in Et. lia.
    - by rewrite Eoff.
    - intros r Hr. specialize (R r ltac:(lia)). unfold token_in_range in *. by rewrite Eb, Eoff. }
  split; [|split].
  - intros t. destruct (vocab_rank_ok _ _ t V) as (r & Er & H). exists r. split; [done|]. destruct H as [ [-> Hn] | [Hr E] ].
    + left. split; [done|]. rewrite HE. intros (r & Hr & E). by apply (Hn r).
    + right. rewrite HT, Z2Nat.id by lia. split; [done|lia].
  - intros r t [Hr E]%HT. destruct (vocab_rank_ok _ _ t V) as (r' & Er & H). destruct H as [ [-> Hn] | [Hr' E'] ].
    + by destruct (Hn _ Hr).
    + rewrite Er. f_equal. apply (ok_distinct _ _ V); [done..|]. congruence.
  - intros a. rewrite HE. exists (at_ (bytes v) (code a)). apply (ok_bytes _ _ V); [done|]. intros Ea.
    unfold missing_byte, IndexFunc in EM. apply fmap_None, list_find_None in EM. rewrite Forall_lookup in EM.
    pose proof (code_bound a). pose proof (ok_bytes_len _ _ V) as Lb.
    destruct (bytes v !! Z.to_nat (code a)) as [x|] eqn:Ex; [|apply lookup_ge_None in Ex; lia].
    apply (EM _ _ Ex). unfold at_ in Ea. rewrite Ex in Ea. change (x = noRank) in Ea. subst x. done.
Qed.

(** C31. A vocabulary finds exactly the tokens of its rank file. Building one from any data ends;
    when it is built, every lookup of any text ends, and gives a rank exactly when the file has a
    token of these bytes, the rank the token has in the file; every single byte has one; and the
    tokens, in rank order, are the bytes the file holds after the lengths. *)
Theorem vocab_rank_exact data :
  match newVocab data with
  | Built v =>
      ∃ n, 0 < Z.of_nat n < rankMask ∧ concat (tokens v n) = blob v ∧
        (∀ t, ∃ r, vocab_rank v t = Some r ∧ ((r = noRank ∧ t ∉ tokens v n) ∨ tokens v n !! Z.to_nat r = Some t ∧ 0 <= r < Z.of_nat n)) ∧
        (∀ r t, tokens v n !! r = Some t → vocab_rank v t = Some (Z.of_nat r)) ∧
        (∀ a, [a] ∈ tokens v n)
  | Endless => False
  | Refused _ | Panicked => True
  end.
Proof. exact (newVocab_exact data). Qed.

(** ** Rank files that are built, and one that panics *)

Definition of_codes (l : list Z) : text := (λ z, ascii_of_N (Z.to_N z)) <$> l.

(** Every single byte, then [ab] and [abc]. *)
Definition sample_ranks : text :=
  rankMagic ++ of_codes [0x82; 0x02] ++ of_codes (replicate 256 1) ++ of_codes [2; 3] ++ of_codes (Z.of_nat <$> seq 0 256) ++ txt "ababc".

Lemma sample_ranks_built :
  match newVocab sample_ranks with
  | Built v => vocab_rank v (txt "abc") = Some 257 ∧ vocab_rank v (txt "ab") = Some 256 ∧ vocab_rank v (txt "a") = Some 97 ∧
      vocab_rank v (txt "bc") = Some noRank ∧ vocab_rank v (txt "bca") = Some noRank
  | _ => False
  end.
Proof. vm_compute. auto. Qed.

(** A length that wraps the running total around passes the check of its size, and slicing
    the first token panics. *)
Lemma wrapped_lengths_panic :
  newVocab (rankMagic ++ of_codes [2; 5; 0xFD; 0xFF; 0xFF; 0xFF; 0xFF; 0xFF; 0xFF; 0xFF; 0xFF; 0x01] ++ txt "xy") = Panicked.
Proof. vm_compute. reflexivity. Qed.
