(* ===== verification/TokenHeap.v ===== *)
(** * The heap of mergeable pairs

    The binary min-heap of [internal/operations/tokenization/estimate/bpe.go], written out on
    an array, and that it is one: its operations keep every parent at or below its children and
    neither lose nor invent entries, so that the first entry is the least. *)

From S2P Require Import Prelude.
Local Open Scope Z_scope.

Definition hget (h : list Z) (i : nat) : Z := default 0 (h !! i).
Definition swap (h : list Z) (i j : nat) : list Z := <[i := hget h j]> (<[j := hget h i]> h).

Fixpoint siftDown (fuel : nat) (h : list Z) (i : nat) : list Z :=
  match fuel with
  | O => h
  | S fuel =>
      let child := (2 * i + 1)%nat in
      if Nat.leb (length h) child then h
      else
        let child := if Nat.ltb (child + 1) (length h) && (hget h (child + 1) <? hget h child) then (child + 1)%nat else child in
        if hget h i <=? hget h child then h else siftDown fuel (swap h i child) child
  end.

(** [siftDown] of the entries from [n - 1] down to the first. *)
Fixpoint heapify_from (n : nat) (h : list Z) : list Z :=
  match n with
  | O => h
  | S n => heapify_from n (siftDown (length h) h n)
  end.

Definition heapify (h : list Z) : list Z := heapify_from (Nat.div2 (length h)) h.

Fixpoint siftUp (fuel : nat) (h : list Z) (i : nat) : list Z :=
  match fuel with
  | O => h
  | S fuel =>
      if Nat.eqb i 0 then h
      else
        let parent := Nat.div2 (i - 1) in
        if hget h parent <=? hget h i then h else siftUp fuel (swap h parent i) parent
  end.

Definition pushHeap (h : list Z) (e : Z) : list Z := let h := h ++ [e] in siftUp (length h) h (length h - 1).

Definition popHeap (h : list Z) : list Z :=
  let last := (length h - 1)%nat in
  let h := take last (<[0%nat := hget h last]> h) in siftDown (length h) h 0.

(** ** Swapping *)

Lemma hget_lookup h i : (i < length h)%nat → h !! i = Some (hget h i).
Proof. intros H. unfold hget. by destruct (lookup_lt_is_Some_2 h i H) as [x ->]. Qed.

Lemma swap_length h i j : length (swap h i j) = length h.
Proof. unfold swap. by rewrite !length_insert. Qed.

Lemma hget_swap h i j k : (i < length h)%nat → (j < length h)%nat →
  hget (swap h i j) k = if decide (k = i) then hget h j else if decide (k = j) then hget h i else hget h k.
Proof.
  intros Hi Hj. unfold swap. unfold hget at 1. destruct (decide (k = i)) as [->|].
  - by rewrite list_lookup_insert_eq by (by rewrite length_insert).
  - rewrite list_lookup_insert_ne by done. destruct (decide (k = j)) as [->|].
    + by rewrite list_lookup_insert_eq.
    + by rewrite list_lookup_insert_ne by done.
Qed.

Lemma swap_Permutation h i j : (i < length h)%nat → (j < length h)%nat → swap h i j ≡ₚ h.
Proof.
  intros Hi Hj. apply Permutation_inj. split; [apply swap_length|].
  exists (λ k, if decide (k = i) then j else if decide (k = j) then i else k). split.
  - intros a b. repeat case_decide; congruence.
  - intros k. destruct (decide (k < length h)%nat) as [Hk|Hk].
    + rewrite hget_lookup by (by rewrite swap_length). rewrite hget_swap by done. repeat case_decide; by rewrite hget_lookup.
    + rewrite (lookup_ge_None_2 (swap h i j)) by (rewrite swap_length; lia). repeat case_decide; subst; try lia.
      symmetry. apply lookup_ge_None_2. lia.
Qed.

(** ** Order *)

Definition edge (a j : nat) : Prop := (j = 2 * a + 1 ∨ j = 2 * a + 2)%nat.

Definition ordered_from (k : nat) (h : list Z) : Prop :=
  ∀ a j, (k ≤ a)%nat → edge a j → (j < length h)%nat → hget h a <= hget h j.

Definition ordered (h : list Z) : Prop := ordered_from 0 h.

(** All edges are in order but those from [i], and what is above [i] is at or below what is
    under it. *)
Definition sinking (k : nat) (h : list Z) (i : nat) : Prop :=
  (∀ a j, (k ≤ a)%nat → a ≠ i → edge a j → (j < length h)%nat → hget h a <= hget h j) ∧
  (∀ a j, (k ≤ a)%nat → edge a i → edge i j → (j < length h)%nat → hget h a <= hget h j).

Lemma siftDown_ok fuel k h i : (k ≤ i)%nat → (length h ≤ fuel + i)%nat → sinking k h i →
  ordered_from k (siftDown fuel h i) ∧ siftDown fuel h i ≡ₚ h.
Proof.
  revert h i. induction fuel as [|fuel IH]; intros h i Hk Hf [H1 H2]; cbn [siftDown].
  { split; [|done]. intros a j Ha He Hj. unfold edge in He. apply H1; [done|lia|done..]. }
  destruct (Nat.leb_spec (length h) (2 * i + 1)) as [Hl|Hl].
  { split; [|done]. intros a j Ha He Hj. unfold edge in He. apply H1; [done|lia|done..]. }
  set (c := if _ && _ then _ else _).
  assert (edge i c ∧ (c < length h)%nat ∧ ∀ j, edge i j → (j < length h)%nat → hget h c <= hget h j) as (Hc & Hcl & Hmin).
  { unfold c, edge. destruct (Nat.ltb_spec (2 * i + 1 + 1) (length h)); cbn [andb].
    - destruct (Z.ltb_spec (hget h (2 * i + 1 + 1)) (hget h (2 * i + 1))).
      + split; [lia|]. split; [lia|]. intros j [-> | ->] Hj; [lia|]. replace (2 * i + 2)%nat with (2 * i + 1 + 1)%nat by lia. lia.
      + split; [lia|]. split; [lia|]. intros j [-> | ->] Hj; [lia|]. replace (2 * i + 2)%nat with (2 * i + 1 + 1)%nat by lia. lia.
    - split; [lia|]. split; [lia|]. intros j [-> | ->] Hj; lia. }
  clearbody c. destruct (Z.leb_spec (hget h i) (hget h c)) as [Hle|Hgt].
  { split; [|done]. intros a j Ha He Hj. destruct (decide (a = i)) as [->|]; [|by apply H1]. specialize (Hmin j He Hj). lia. }
  assert (i < length h)%nat as Hi by (unfold edge in Hc; lia).
  destruct (IH (swap h i c) c) as [IH1 IH2].
  - unfold edge in Hc. lia.
  - rewrite swap_length. unfold edge in Hc. lia.
  - split.
    + intros a j Ha Hne He Hj. rewrite swap_length in Hj. rewrite !hget_swap by done.
      destruct (decide (a = i)) as [->|].
      * destruct (decide (j = i)) as [->|]; [unfold edge in He; lia|]. destruct (decide (j = c)); [lia|]. by apply Hmin.
      * destruct (decide (a = c)); [done|]. destruct (decide (j = i)) as [->|]; [by apply H2|].
        destruct (decide (j = c)) as [->|]; [unfold edge in *; lia|]. by apply H1.
    + intros a j Ha He1 He2 Hj. rewrite swap_length in Hj. assert (a = i) as -> by (unfold edge in *; lia).
      rewrite !hget_swap by done. rewrite decide_True by done. destruct (decide (j = i)); [unfold edge in *; lia|].
      destruct (decide (j = c)); [unfold edge in *; lia|]. apply H1; [unfold edge in *; lia..|done|done].
  - split; [done|]. by rewrite IH2, swap_Permutation.
Qed.

Lemma heapify_ok h : ordered (heapify h) ∧ heapify h ≡ₚ h.
Proof.
  unfold heapify, ordered. assert (∀ n h, ordered_from n h → ordered_from 0 (heapify_from n h) ∧ heapify_from n h ≡ₚ h) as H.
  { clear h. induction n as [|n IH]; intros h Hh; cbn [heapify_from]; [done|].
    destruct (siftDown_ok (length h) n h n) as [S1 S2]; [lia|lia| |].
    - split; [intros a j Ha Hne; apply Hh; lia|]. unfold edge. lia.
    - destruct (IH _ S1) as [? E]. split; [done|]. by rewrite E. }
  apply H. intros a j Ha He Hj. exfalso. unfold edge in He. pose proof (Nat.div2_odd (length h)). destruct (Nat.odd (length h)); simpl in *; lia.
Qed.

Lemma parent_edge i : i ≠ 0%nat → edge (Nat.div2 (i - 1)) i.
Proof. intros H. unfold edge. pose proof (Nat.div2_odd (i - 1)). destruct (Nat.odd (i - 1)); simpl in *; lia. Qed.

(** All edges are in order but the one to [i], and what is above it is at or below what is
    under it. *)
Definition rising (h : list Z) (i : nat) : Prop :=
  (∀ a j, j ≠ i → edge a j → (j < length h)%nat → hget h a <= hget h j) ∧
  (∀ a j, edge a i → edge i j → (j < length h)%nat → hget h a <= hget h j).

Lemma siftUp_ok fuel h i : (i < length h)%nat → (i < fuel)%nat → rising h i → ordered (siftUp fuel h i) ∧ siftUp fuel h i ≡ₚ h.
Proof.
  revert h i. induction fuel as [|fuel IH]; intros h i Hi Hf [H1 H2]; cbn [siftUp]; [lia|].
  destruct (Nat.eqb_spec i 0) as [->|Hne].
  { split; [|done]. intros a j _ He Hj. apply H1; [unfold edge in He; lia|done..]. }
  pose proof (parent_edge i Hne) as Hp. set (p := Nat.div2 (i - 1)) in *. assert (p < length h)%nat as Hpl by (unfold edge in Hp; lia).
  destruct (Z.leb_spec (hget h p) (hget h i)).
  { split; [|done]. intros a j _ He Hj. destruct (decide (j = i)) as [->|]; [|by apply H1].
    replace a with p; [done|]. unfold edge in *. lia. }
  destruct (IH (swap h p i) p) as [IH1 IH2].
  - by rewrite swap_length.
  - unfold edge in Hp. lia.
  - split.
    + intros a j Hj He Hjl. rewrite swap_length in Hjl. rewrite !hget_swap by done. destruct (decide (a = p)) as [->|].
      * rewrite (decide_False (P := j = p)) by done. destruct (decide (j = i)) as [->|]; [lia|]. pose proof (H1 p j ltac:(done) He Hjl). lia.
      * rewrite (decide_False (P := j = p)) by done. destruct (decide (j = i)) as [->|]; [unfold edge in *; lia|].
        destruct (decide (a = i)) as [->|]; [|by apply H1]. apply (H2 p j); done.
    + intros a j He1 He2 Hjl. rewrite swap_length in Hjl. rewrite !hget_swap by done.
      destruct (decide (a = p)); [unfold edge in *; lia|]. destruct (decide (a = i)); [unfold edge in *; lia|].
      destruct (decide (j = p)); [unfold edge in *; lia|]. pose proof (H1 a p ltac:(unfold edge in *; lia) He1 Hpl).
      destruct (decide (j = i)) as [->|]; [lia|]. pose proof (H1 p j ltac:(done) He2 Hjl). lia.
  - split; [done|]. by rewrite IH2, swap_Permutation.
Qed.

Lemma hget_app_l h e i : (i < length h)%nat → hget (h ++ [e]) i = hget h i.
Proof. intros. unfold hget. by rewrite lookup_app_l. Qed.

Lemma pushHeap_ok h e : ordered h → ordered (pushHeap h e) ∧ pushHeap h e ≡ₚ e :: h.
Proof.
  intros Ho. unfold pushHeap. rewrite length_app. cbn [length]. replace (length h + 1 - 1)%nat with (length h) by lia.
  destruct (siftUp_ok (length h + 1) (h ++ [e]) (length h)) as [S1 S2].
  - rewrite length_app. simpl. lia.
  - lia.
  - split; intros a j; rewrite length_app; cbn [length]; unfold edge.
    + intros. rewrite !hget_app_l by lia. apply Ho; [lia|done|lia].
    + lia.
  - split; [done|]. rewrite S2. symmetry. apply Permutation_cons_append.
Qed.

Lemma popHeap_ok h : ordered h → h ≠ [] → ordered (popHeap h) ∧ h ≡ₚ hget h 0 :: popHeap h.
Proof.
  intros Ho Hne. unfold popHeap. destruct h as [|x h]; [done|]. cbn [length]. replace (S (length h) - 1)%nat with (length h) by lia.
  change (hget (x :: h) 0) with x. change (<[0%nat := hget (x :: h) (length h)]> (x :: h)) with (hget (x :: h) (length h) :: h).
  set (l := hget (x :: h) (length h)). set (g := take (length h) (l :: h)).
  assert (length g = length h) as Lg by (unfold g; rewrite length_take; simpl; lia).
  assert (∀ i, i ≠ 0%nat → (i < length h)%nat → hget g i = hget (x :: h) i) as Hg.
  { intros i Hi Hil. unfold hget, g. rewrite lookup_take_lt by done. destruct i; [done|]. done. }
  destruct (siftDown_ok (length g) 0 g 0) as [S1 S2]; [lia|lia| |].
  - split; [|unfold edge; lia]. intros a j _ Ha He Hj. rewrite Lg in Hj. unfold edge in He. rewrite !Hg by lia.
    apply Ho; [lia|unfold edge; lia|simpl; lia].
  - split; [done|]. f_equiv. rewrite S2. unfold g, l. destruct h as [|y h]; [done|]. cbn [length take].
    change (take (length h) (y :: h)) with (take (length h) (y :: h)).
    assert (hget (x :: y :: h) (S (length h)) = default 0 (last (y :: h))) as ->.
    { unfold hget. cbn [lookup list_lookup]. rewrite last_lookup. done. }
    destruct (exists_last (l := y :: h)) as (h' & z & E); [done|]. rewrite E, last_snoc. cbn [default from_option].
    replace (length h) with (length h'); [|apply (f_equal length) in E; rewrite length_app in E; simpl in E; lia].
    rewrite take_app_length. by rewrite Permutation_app_comm.
Qed.

Lemma ordered_least h i : ordered h → (i < length h)%nat → hget h 0 <= hget h i.
Proof.
  intros Ho. induction i as [i IH] using lt_wf_ind. intros Hi. destruct (decide (i = 0%nat)) as [->|Hne]; [done|].
  pose proof (parent_edge i Hne) as He. set (p := Nat.div2 (i - 1)) in *. pose proof (Ho p i ltac:(lia) He Hi).
  specialize (IH p ltac:(unfold edge in He; lia) ltac:(unfold edge in He; lia)). lia.
Qed.

Lemma ordered_least_elem h x : ordered h → x ∈ h → hget h 0 <= x.
Proof.
  intros Ho (i & Hi)%list_elem_of_lookup. pose proof (lookup_lt_Some _ _ _ Hi) as Hl. pose proof (ordered_least h i Ho Hl) as H.
  unfold hget at 2 in H. by rewrite Hi in H.
Qed.
