(* ===== verification/TokenMerge.v ===== *)
(** * Byte-pair merging

    How a piece of text becomes tokens ([internal/operations/tokenization/estimate/bpe.go]):
    from single bytes, the adjacent pair whose concatenation has the lowest rank is merged,
    the leftmost of equals, until no concatenation is a token. [mergeSmall] scans an array for
    the pair after each merge; [mergeLarge] keeps a linked list of parts and a heap of pairs
    from which stale entries are dropped when they come up. [bpe] is the definition both are
    proved to compute. *)

From S2P Require Import Prelude Go Source SourceParser TokenVocab TokenHeap.
From Stdlib Require Import Ascii.
Local Open Scope Z_scope.

(** [p[i:j]] *)
Definition sub (p : text) (i j : Z) : text := take (Z.to_nat (j - i)) (drop (Z.to_nat i) p).

(** [copy(l[dst:dst+n], l[src:src+n])] *)
Definition copy {A} (l : list A) (dst src n : nat) : list A := take dst l ++ take n (drop src l) ++ drop (dst + n) l.

Definition smallPiece : nat := 32.
Definition maxPiece : Z := Z.shiftl 1 18.
Definition maxPooledPiece : Z := Z.shiftl 1 14.
Definition UTFMax : nat := 4.

(** [utf8.RuneStart] *)
Definition RuneStart (c : ascii) : bool := negb (Z.land (code c) 0xC0 =? 0x80).

(** How much of a longer piece the next merge takes, trying [maxPiece - k] for [k] from [i] on. *)
Fixpoint chunk_from (tries : nat) (p : text) (n : Z) : Z :=
  match tries with
  | O => maxPiece
  | S tries => if opt_test (p !! Z.to_nat n) RuneStart then n else chunk_from tries p (n - 1)
  end.

Definition chunkLen (p : text) : Z := chunk_from UTFMax p maxPiece.

Record scratch := mkScratch { sc_next : list Z; sc_prev : list Z; sc_rank : list Z; sc_heap : list Z }.

(** [bits.Len] *)
Definition bits_Len (x : Z) : Z := if x =? 0 then 0 else Z.log2 x + 1.

(** A scratch of [n] entries from one of the pool, whose arrays are as long as their capacity. *)
Definition getScratch (pooled : scratch) (n : nat) : scratch :=
  let sc :=
    if Nat.ltb (length (sc_next pooled)) n then
      let size := Z.to_nat (Z.max 256 (Z.shiftl 1 (bits_Len (Z.of_nat n - 1)))) in
      mkScratch (replicate size 0) (replicate size 0) (replicate size 0) []
    else pooled in
  mkScratch (take n (sc_next sc)) (take n (sc_prev sc)) (take n (sc_rank sc)) [].

(** [uint64(r)<<32 | uint64(i)] *)
Definition pair_entry (r i : Z) : Z := Z.lor (Z.shiftl r 32) i.

Section Merge.
Context (rank : text → Z).

(** ** Short pieces *)

(** The leftmost of the lowest ranks below [best]. *)
Fixpoint scan_best (ranks : list Z) (i : nat) (best : Z) (found : option nat) : option nat :=
  match ranks with
  | [] => found
  | r :: rest => if r <? best then scan_best rest (S i) r (Some i) else scan_best rest (S i) best found
  end.

Definition bound (bounds : list Z) (i : nat) : Z := default 0 (bounds !! i).

Fixpoint small_loop (fuel : nat) (p : text) (parts : nat) (bounds ranks : list Z) : nat * list Z :=
  match fuel with
  | O => (parts, bounds)
  | S fuel =>
      if Nat.leb parts 1 then (parts, bounds)
      else match scan_best (take (parts - 1) ranks) 0 noRank None with
      | None => (parts, bounds)
      | Some at_ =>
          let bounds := copy bounds (at_ + 1) (at_ + 2) (parts - (at_ + 1)) in
          let ranks := if Nat.ltb (at_ + 2) parts
                       then copy ranks (at_ + 1) (at_ + 2) (Nat.min (length ranks - (at_ + 1)) (parts - 1 - (at_ + 2))) else ranks in
          let parts := (parts - 1)%nat in
          let ranks := if Nat.ltb 0 at_ then <[(at_ - 1)%nat := rank (sub p (bound bounds (at_ - 1)) (bound bounds (at_ + 1)))]> ranks else ranks in
          let ranks := if Nat.ltb at_ (parts - 1) then <[at_ := rank (sub p (bound bounds at_) (bound bounds (at_ + 2)))]> ranks else ranks in
          small_loop fuel p parts bounds ranks
      end
  end.

(** The number of parts, and their boundaries. *)
Definition mergeSmall (p : text) : nat * list Z :=
  let parts := length p in
  let bounds := (Z.of_nat <$> seq 0 (S parts)) ++ replicate (smallPiece - parts) 0 in
  let ranks := ((λ i, rank (sub p (Z.of_nat i) (Z.of_nat i + 2))) <$> seq 0 (parts - 1)) ++ replicate (smallPiece - (parts - 1)) 0 in
  small_loop parts p parts bounds ranks.

(** ** Long pieces *)

(** The arrays of [mergeLarge] and its heap. *)
Record large := mkLarge { l_next : list Z; l_prev : list Z; l_rank : list Z; l_heap : list Z; l_parts : Z }.

(** Setting a pair's rank, and offering it to the heap when it is one. *)
Definition offer (ranks heap : list Z) (i merged : Z) : list Z * list Z :=
  if negb (merged =? noRank) then (put_ ranks i merged, pushHeap heap (pair_entry merged i)) else (ranks, heap).

(** One entry popped off the heap. *)
Definition large_step (p : text) (s : large) : large :=
  let n := size_of p in
  let e := hget (l_heap s) 0 in
  let heap := popHeap (l_heap s) in
  let i := e mod 2 ^ 32 in
  let r := Z.shiftr e 32 in
  if negb (at_ (l_rank s) i =? r) then mkLarge (l_next s) (l_prev s) (l_rank s) heap (l_parts s)
  else
    let j := at_ (l_next s) i in
    let k := at_ (l_next s) j in
    let next := put_ (l_next s) i k in
    let ranks := put_ (l_rank s) j noRank in
    let prev := if k <? n then put_ (l_prev s) k i else l_prev s in
    let ranks := put_ ranks i noRank in
    let '(ranks, heap) := if k <? n then offer ranks heap i (rank (sub p i (at_ next k))) else (ranks, heap) in
    let q := at_ prev i in
    let '(ranks, heap) := if q >=? 0 then offer (put_ ranks q noRank) heap q (rank (sub p q k)) else (ranks, heap) in
    mkLarge next prev ranks heap (l_parts s - 1).

Fixpoint large_loop (fuel : nat) (p : text) (s : large) : option large :=
  match l_heap s with
  | [] => Some s
  | _ => match fuel with O => None | S fuel => large_loop fuel p (large_step p s) end
  end.

(** [f(0)], ..., [f(n-1)] written to the first entries of an array. *)
Definition fill (l : list Z) (n : nat) (f : nat → Z) : list Z := fold_left (λ l i, <[i := f i]> l) (seq 0 n) l.

Definition large_start (p : text) (sc : scratch) : large :=
  let n := length p in
  let pair (i : nat) := rank (sub p (Z.of_nat i) (Z.of_nat i + 2)) in
  let ranks := fill (put_ (sc_rank sc) (Z.of_nat n - 1) noRank) (n - 1) pair in
  let heap := sc_heap sc ++ omap (λ i, if negb (pair i =? noRank) then Some (pair_entry (pair i) (Z.of_nat i)) else None) (seq 0 (n - 1)) in
  mkLarge (fill (sc_next sc) n (λ i, Z.of_nat i + 1)) (fill (sc_prev sc) n (λ i, Z.of_nat i - 1)) ranks (heapify heap) (Z.of_nat n).

(** [None] when the fuel does not empty the heap. *)
Definition mergeLarge (p : text) (sc : scratch) : option large := large_loop (4 * length p) p (large_start p sc).

(** The ranks of the parts, from offset [i] on. *)
Fixpoint walk_parts (fuel : nat) (p : text) (next : list Z) (i : Z) : list Z :=
  match fuel with
  | O => []
  | S fuel => if i <? size_of p then rank (sub p i (at_ next i)) :: walk_parts fuel p next (at_ next i) else []
  end.

(** ** Pieces *)

Context (pool : text → scratch).

Definition countLarge (p : text) : option Z := l_parts <$> mergeLarge p (getScratch (pool p) (length p)).

Definition appendLarge (dst : list Z) (p : text) : option (list Z) :=
  s ← mergeLarge p (getScratch (pool p) (length p)); Some (dst ++ walk_parts (length p) p (l_next s) 0).

(** The chunks of a piece longer than [maxPiece], then the rest. *)
Fixpoint chunks (fuel : nat) (p : text) : list text :=
  match fuel with
  | O => [p]
  | S fuel =>
      if size_of p >? maxPiece
      then take (Z.to_nat (chunkLen p)) p :: chunks fuel (drop (Z.to_nat (chunkLen p)) p)
      else [p]
  end.

Definition add_count (count : option Z) (p : text) : option Z := n ← count; m ← countLarge p; Some (n + m).
Definition add_piece (dst : option (list Z)) (p : text) : option (list Z) := dst ← dst; appendLarge dst p.

(** The number of tokens of a piece; [None] when a merge does not end. *)
Definition countPiece (p : text) : option Z :=
  if negb (rank p =? noRank) then Some 1
  else if Nat.leb (length p) smallPiece then Some (Z.of_nat (mergeSmall p).1)
  else fold_left add_count (chunks (length p) p) (Some 0).

Definition appendPiece (dst : list Z) (p : text) : option (list Z) :=
  if negb (rank p =? noRank) then Some (dst ++ [rank p])
  else if Nat.leb (length p) smallPiece then
    let '(n, bounds) := mergeSmall p in
    Some (dst ++ ((λ i, rank (sub p (bound bounds i) (bound bounds (i + 1)))) <$> seq 0 n))
  else fold_left add_piece (chunks (length p) p) (Some dst).

(** ** The definition *)

(** The ranks of the pairs of adjacent parts. *)
Definition pair_ranks (ps : list text) : list Z := zip_with (λ a b, rank (a ++ b)) ps (tail ps).

Definition merge_at (k : nat) (ps : list text) : list text :=
  take k ps ++ (default [] (ps !! k) ++ default [] (ps !! S k)) :: drop (k + 2) ps.

(** The leftmost pair of the lowest rank. *)
Definition best_pair (ps : list text) (k : nat) : Prop :=
  ∃ r, pair_ranks ps !! k = Some r ∧ r < noRank ∧
    ∀ j r', pair_ranks ps !! j = Some r' → r <= r' ∧ ((j < k)%nat → r < r').

Inductive bpe : list text → list text → Prop :=
  | bpe_done ps : (∀ j r, pair_ranks ps !! j = Some r → r = noRank) → bpe ps ps
  | bpe_merge ps qs k : best_pair ps k → bpe (merge_at k ps) qs → bpe ps qs.

Definition singles (p : text) : list text := (λ c, [c]) <$> p.
End Merge.
