(* ===== verification/TokenMergeFacts.v ===== *)
(** * Byte-pair merging: both routines compute the definition

    The parts of a piece are described by their boundaries. A merge deletes a boundary. The
    array of [mergeSmall] and the linked list of [mergeLarge] are shown to hold the boundaries
    and the ranks of the pairs, and the heap every pair that can merge, at every merge. *)

From S2P Require Import Prelude Go Source SourceParser TokenVocab TokenVocabFacts TokenHeap TokenMerge.
From Stdlib Require Import Ascii.
Local Open Scope Z_scope.

(** ** Slices and boundaries *)

Lemma sub_app p i j k : 0 <= i <= j → j <= k → sub p i j ++ sub p j k = sub p i k.
Proof.
  intros H1 H2. unfold sub. replace (Z.to_nat (k - i)) with (Z.to_nat (j - i) + Z.to_nat (k - j))%nat by lia.
  rewrite <- take_take_drop, drop_drop. do 3 f_equal. lia.
Qed.

Lemma sub_length p i j : 0 <= i <= j → j <= size_of p → Z.of_nat (length (sub p i j)) = j - i.
Proof. unfold sub, size_of. intros. rewrite length_take, length_drop. lia. Qed.

Definition parts_of (p : text) (bs : list Z) : list text := zip_with (sub p) bs (tail bs).

(** Boundaries of a piece: from its start to its end, rising. *)
Record boundaries (p : text) (bs : list Z) : Prop := mkBoundaries {
  b_sorted : ∀ i j, (i < j)%nat → (j < length bs)%nat → bound bs i < bound bs j;
  b_first : bs !! 0%nat = Some 0;
  b_last : bound bs (length bs - 1) = size_of p;
}.

Lemma bound_lookup bs i : (i < length bs)%nat → bs !! i = Some (bound bs i).
Proof. intros H. unfold bound. by destruct (lookup_lt_is_Some_2 bs i H) as [x ->]. Qed.

Lemma bound_le p bs i j : boundaries p bs → (i ≤ j)%nat → (j < length bs)%nat → bound bs i <= bound bs j.
Proof. intros B H Hj. destruct (decide (i = j)) as [->|]; [done|]. pose proof (b_sorted _ _ B i j ltac:(lia) Hj). lia. Qed.

Lemma bound_range p bs i : boundaries p bs → (i < length bs)%nat → 0 <= bound bs i <= size_of p.
Proof.
  intros B Hi. pose proof (bound_le p bs 0 i B ltac:(lia) Hi) as H0. pose proof (bound_le p bs i (length bs - 1) B ltac:(lia) ltac:(lia)) as H1.
  rewrite (b_last _ _ B) in H1. unfold bound in H0 at 1. rewrite (b_first _ _ B) in H0. done.
Qed.

Lemma boundaries_length p bs : boundaries p bs → (0 < length bs)%nat.
Proof. intros B. exact (lookup_lt_Some _ _ _ (b_first _ _ B)). Qed.

Lemma boundaries_inj p bs i j : boundaries p bs → (i < length bs)%nat → (j < length bs)%nat → bound bs i = bound bs j → i = j.
Proof.
  intros B Hi Hj E. destruct (Nat.lt_total i j) as [H|[H|H] ]; [|done|].
  - pose proof (b_sorted _ _ B i j H Hj). lia.
  - pose proof (b_sorted _ _ B j i H Hi). lia.
Qed.

Lemma parts_of_length p bs : length (parts_of p bs) = (length bs - 1)%nat.
Proof. unfold parts_of. rewrite length_zip_with. destruct bs as [|b bs]; [done|]. cbn [tail length]. lia. Qed.

Lemma parts_of_lookup p bs k : (S k < length bs)%nat → parts_of p bs !! k = Some (sub p (bound bs k) (bound bs (S k))).
Proof.
  intros H. unfold parts_of. rewrite lookup_zip_with, (bound_lookup bs k) by lia. assert (tail bs !! k = bs !! S k) as -> by (by destruct bs).
  by rewrite bound_lookup.
Qed.

Lemma delete_bound bs k i : (k < length bs)%nat → bound (delete k bs) i = bound bs (if decide (i < k)%nat then i else S i).
Proof.
  intros Hk. unfold bound. destruct (decide (i < k)%nat); [by rewrite list_lookup_delete_lt|by rewrite list_lookup_delete_ge by lia].
Qed.

Lemma boundaries_delete p bs k : boundaries p bs → (k + 2 < length bs)%nat → boundaries p (delete (k + 1)%nat bs).
Proof.
  intros B Hk. assert (length (delete (k + 1)%nat bs) = (length bs - 1)%nat) as L by (apply length_delete; apply lookup_lt_is_Some_2; lia).
  constructor.
  - intros i j Hij Hj. rewrite L in Hj. rewrite !delete_bound by lia. apply (b_sorted _ _ B); repeat case_decide; lia.
  - rewrite list_lookup_delete_lt by lia. apply (b_first _ _ B).
  - rewrite L, delete_bound, decide_False by lia. rewrite <- (b_last _ _ B). f_equal. lia.
Qed.

Lemma merge_at_lookup k ps j : (S k < length ps)%nat →
  merge_at k ps !! j = if decide (j < k)%nat then ps !! j else if decide (j = k) then Some (default [] (ps !! k) ++ default [] (ps !! S k)) else ps !! S j.
Proof.
  intros H. unfold merge_at. destruct (decide (j < k)%nat).
  - rewrite lookup_app_l by (rewrite length_take; lia). by rewrite lookup_take_lt.
  - rewrite lookup_app_r by (rewrite length_take; lia). rewrite length_take. replace (j - k `min` length ps)%nat with (j - k)%nat by lia.
    destruct (decide (j = k)) as [->|]; [by rewrite Nat.sub_diag|]. destruct (j - k)%nat as [|m] eqn:E; [lia|].
    change (drop (k + 2) ps !! m = ps !! S j). rewrite lookup_drop. f_equal. lia.
Qed.

Lemma parts_of_delete p bs k : boundaries p bs → (k + 2 < length bs)%nat → parts_of p (delete (k + 1)%nat bs) = merge_at k (parts_of p bs).
Proof.
  intros B Hk. assert (length (delete (k + 1)%nat bs) = (length bs - 1)%nat) as L by (apply length_delete; apply lookup_lt_is_Some_2; lia).
  apply list_eq. intros j. rewrite merge_at_lookup by (rewrite parts_of_length; lia).
  destruct (decide (S j < length bs - 1)%nat) as [Hj|Hj].
  - rewrite parts_of_lookup, !delete_bound by lia. destruct (decide (j < k)%nat).
    + rewrite !decide_True by lia. by rewrite parts_of_lookup by lia.
    + destruct (decide (j = k)) as [->|].
      * rewrite decide_True, decide_False by lia. rewrite !parts_of_lookup by lia. cbn [default from_option]. f_equal.
        symmetry. pose proof (bound_range p bs k B ltac:(lia)). apply sub_app.
        -- split; [lia|]. apply (bound_le p); [done|lia..].
        -- apply (bound_le p); [done|lia..].
      * rewrite !decide_False by lia. by rewrite parts_of_lookup by lia.
  - rewrite lookup_ge_None_2 by (rewrite parts_of_length; lia). rewrite !decide_False by lia. symmetry. apply lookup_ge_None_2. rewrite parts_of_length. lia.
Qed.

(** The boundaries of single bytes. *)
Definition byte_bounds (p : text) : list Z := Z.of_nat <$> seq 0 (S (length p)).

Lemma byte_bound p i : (i ≤ length p)%nat → bound (byte_bounds p) i = Z.of_nat i.
Proof. intros H. unfold bound, byte_bounds. rewrite list_lookup_fmap, lookup_seq_lt by lia. done. Qed.

Lemma byte_bounds_length p : length (byte_bounds p) = S (length p).
Proof. unfold byte_bounds. by rewrite length_fmap, length_seq. Qed.

Lemma byte_boundaries p : boundaries p (byte_bounds p).
Proof.
  constructor.
  - intros i j H Hj. rewrite byte_bounds_length in Hj. rewrite !byte_bound by lia. lia.
  - done.
  - rewrite byte_bounds_length, byte_bound by lia. unfold size_of. lia.
Qed.

Lemma byte_parts p : parts_of p (byte_bounds p) = singles p.
Proof.
  apply list_eq. intros j. unfold singles. rewrite list_lookup_fmap. destruct (decide (j < length p)%nat) as [H|H].
  - rewrite parts_of_lookup by (rewrite byte_bounds_length; lia). rewrite !byte_bound by lia.
    destruct (lookup_lt_is_Some_2 p j H) as [c E]. rewrite E. cbn [fmap option_fmap option_map]. f_equal. unfold sub.
    replace (Z.to_nat (Z.of_nat (S j) - Z.of_nat j)) with 1%nat by lia. rewrite Nat2Z.id. by rewrite (drop_S p c j E).
  - rewrite lookup_ge_None_2 by (rewrite parts_of_length, byte_bounds_length; lia). by rewrite lookup_ge_None_2 by lia.
Qed.

Lemma parts_concat p bs : boundaries p bs → concat (parts_of p bs) = p.
Proof.
  intros B. assert (∀ m, (m < length bs)%nat → concat (take m (parts_of p bs)) = sub p 0 (bound bs m)) as H.
  { induction m as [|m IH]; intros Hm.
    - unfold bound. by rewrite (b_first _ _ B).
    - erewrite take_S_r by (apply parts_of_lookup; lia). rewrite concat_app, IH by lia. cbn [concat]. rewrite app_nil_r.
      pose proof (bound_range p bs m B ltac:(lia)). apply sub_app; [lia|]. apply (bound_le p); [done|lia..]. }
  pose proof (boundaries_length p bs B). specialize (H (length bs - 1)%nat ltac:(lia)).
  rewrite take_ge in H by (rewrite parts_of_length; lia). rewrite H, (b_last _ _ B). unfold sub, size_of. rewrite Z.sub_0_r, Nat2Z.id.
  by rewrite take_ge by done.
Qed.

Lemma copy_length {A} (l : list A) dst src n : (dst + n ≤ length l)%nat → (src + n ≤ length l)%nat → length (copy l dst src n) = length l.
Proof. intros. unfold copy. rewrite !length_app, !length_take, !length_drop. lia. Qed.

Lemma copy_lookup {A} (l : list A) dst src n i : (dst + n ≤ length l)%nat → (src + n ≤ length l)%nat →
  copy l dst src n !! i = if decide (dst ≤ i < dst + n)%nat then l !! (src + (i - dst))%nat else l !! i.
Proof.
  intros H1 H2. unfold copy. destruct (decide (i < dst)%nat).
  - rewrite lookup_app_l by (rewrite length_take; lia). rewrite decide_False by lia. by rewrite lookup_take_lt.
  - rewrite lookup_app_r by (rewrite length_take; lia). rewrite length_take. replace (i - dst `min` length l)%nat with (i - dst)%nat by lia.
    destruct (decide (dst ≤ i < dst + n)%nat).
    + rewrite lookup_app_l by (rewrite length_take, length_drop; lia). by rewrite lookup_take_lt, lookup_drop by lia.
    + rewrite lookup_app_r by (rewrite length_take, length_drop; lia). rewrite length_take, length_drop, lookup_drop. f_equal. lia.
Qed.

Section Facts.
Context (rank : text → Z) (rank_range : ∀ t, rank t <= noRank).

(** The rank of the pair of parts that starts at a boundary. *)
Definition pair_at (p : text) (bs : list Z) (k : nat) : Z := rank (sub p (bound bs k) (bound bs (k + 2))).

Lemma pair_ranks_lookup p bs k : boundaries p bs → (k + 2 < length bs)%nat → pair_ranks rank (parts_of p bs) !! k = Some (pair_at p bs k).
Proof.
  intros B H. unfold pair_ranks. rewrite lookup_zip_with, (parts_of_lookup p bs k) by lia.
  assert (tail (parts_of p bs) !! k = parts_of p bs !! S k) as -> by (by destruct (parts_of p bs)). rewrite parts_of_lookup by lia.
  cbn [mbind option_bind]. f_equal. unfold pair_at. f_equal. replace (k + 2)%nat with (S (S k)) by lia.
  pose proof (bound_range p bs k B ltac:(lia)). apply sub_app; [|apply (bound_le p); [done|lia..] ].
  split; [lia|]. apply (bound_le p); [done|lia..].
Qed.

Lemma pair_ranks_length ps : length (pair_ranks rank ps) = (length ps - 1)%nat.
Proof. unfold pair_ranks. rewrite length_zip_with. destruct ps as [|x ps]; [done|]. cbn [tail length]. lia. Qed.

Lemma best_pair_bounds p bs k : boundaries p bs → (k + 2 < length bs)%nat → pair_at p bs k < noRank →
  (∀ j, (j + 2 < length bs)%nat → pair_at p bs k <= pair_at p bs j ∧ ((j < k)%nat → pair_at p bs k < pair_at p bs j)) →
  best_pair rank (parts_of p bs) k.
Proof.
  intros B Hk Hr H. exists (pair_at p bs k). split; [by apply pair_ranks_lookup|]. split; [done|]. intros j r' E.
  pose proof (lookup_lt_Some _ _ _ E) as Hj. rewrite pair_ranks_length, parts_of_length in Hj.
  rewrite pair_ranks_lookup in E by (done || lia). injection E as <-. apply H. lia.
Qed.

Lemma bpe_done_bounds p bs : boundaries p bs → (∀ j, (j + 2 < length bs)%nat → noRank <= pair_at p bs j) → bpe rank (parts_of p bs) (parts_of p bs).
Proof.
  intros B H. apply bpe_done. intros j r E. pose proof (lookup_lt_Some _ _ _ E) as Hj. rewrite pair_ranks_length, parts_of_length in Hj.
  rewrite pair_ranks_lookup in E by (done || lia). injection E as <-. specialize (H j ltac:(lia)).
  pose proof (rank_range (sub p (bound bs j) (bound bs (j + 2)))). unfold pair_at in *. lia.
Qed.

(** The definition is a function. *)
Lemma best_pair_unique ps k k' : best_pair rank ps k → best_pair rank ps k' → k = k'.
Proof.
  intros (r & E & _ & H) (r' & E' & _ & H'). destruct (H _ _ E') as [H1 H2]. destruct (H' _ _ E) as [H3 H4].
  destruct (Nat.lt_total k k') as [L|[L|L] ]; [|done|]; [specialize (H4 L)|specialize (H2 L)]; lia.
Qed.

Lemma bpe_unique ps qs qs' : bpe rank ps qs → bpe rank ps qs' → qs = qs'.
Proof.
  intros H. revert qs'. induction H as [ps Hd|ps qs k Hb H IH]; intros qs' H'.
  - inversion H' as [|? ? k (r & E & Hr & _) _]; subst; [done|]. apply Hd in E. lia.
  - inversion H' as [? Hd|? ? k' Hb' Hm]; subst.
    + destruct Hb as (r & E & Hr & _). apply Hd in E. lia.
    + rewrite (best_pair_unique _ _ _ Hb Hb') in IH. auto.
Qed.

Lemma best_pair_length ps k : best_pair rank ps k → (S k < length ps)%nat.
Proof. intros (r & E & _). apply lookup_lt_Some in E. rewrite pair_ranks_length in E. lia. Qed.

(** Merging keeps the bytes, and merges only into tokens. *)
Lemma merge_at_concat k ps : (S k < length ps)%nat → concat (merge_at k ps) = concat ps.
Proof.
  intros H. unfold merge_at. destruct (lookup_lt_is_Some_2 ps k ltac:(lia)) as [a Ea]. destruct (lookup_lt_is_Some_2 ps (S k) H) as [b Eb].
  rewrite Ea, Eb. rewrite <- (take_drop k ps) at 3. rewrite !concat_app. f_equal.
  rewrite (drop_S ps a k Ea), (drop_S ps b (S k) Eb). replace (k + 2)%nat with (S (S k)) by lia. cbn [concat default from_option]. by rewrite <- app_assoc.
Qed.

Lemma bpe_concat ps qs : bpe rank ps qs → concat qs = concat ps.
Proof. induction 1 as [|ps qs k Hb H IH]; [done|]. rewrite IH. apply merge_at_concat. by apply best_pair_length. Qed.

Lemma bpe_ranked ps qs : bpe rank ps qs → Forall (λ t, rank t ≠ noRank) ps → Forall (λ t, rank t ≠ noRank) qs.
Proof.
  induction 1 as [|ps qs k Hb H IH]; intros Hf; [done|]. apply IH. rewrite Forall_forall. intros t.
  pose proof (best_pair_length _ _ Hb) as Hk. rewrite list_elem_of_lookup. intros (j & Ej). rewrite merge_at_lookup in Ej by done.
  rewrite Forall_lookup in Hf. destruct (decide (j < k)%nat); [by apply (Hf j)|]. destruct (decide (j = k)) as [->|]; [|by apply (Hf (S j))].
  injection Ej as <-. destruct Hb as (r & E & Hr & _). unfold pair_ranks in E. rewrite lookup_zip_with in E.
  assert (tail ps !! k = ps !! S k) as Et by (by destruct ps). rewrite Et in E.
  destruct (ps !! k) as [a|], (ps !! S k) as [b|]; cbn [mbind option_bind] in E; try done. injection E as E. cbn [default from_option]. unfold id in *. lia.
Qed.

(** ** Short pieces *)

Lemma scan_best_spec l i best found :
  (scan_best l i best found = found ∧ ∀ j r, l !! j = Some r → best <= r) ∨
  ∃ j r, scan_best l i best found = Some (i + j)%nat ∧ l !! j = Some r ∧ r < best ∧
    ∀ j' r', l !! j' = Some r' → r <= r' ∧ ((j' < j)%nat → r < r').
Proof.
  revert i best found. induction l as [|x l IH]; intros i best found; cbn [scan_best].
  { left. split; [done|]. intros j r H. done. }
  destruct (Z.ltb_spec x best) as [Hx|Hx].
  - right. destruct (IH (S i) x (Some i)) as [ [-> H] | (j & r & -> & E & Hr & H) ].
    + exists 0%nat, x. rewrite Nat.add_0_r. do 3 (split; [done|]). intros [|j'] r' E; cbn in E; [injection E as ->; lia|].
      specialize (H _ _ E). lia.
    + exists (S j), r. split; [f_equal; lia|]. split; [done|]. split; [lia|]. intros [|j'] r' E'; cbn in E'; [injection E' as ->; lia|].
      destruct (H _ _ E'). split; [done|]. intros. apply H1. lia.
  - destruct (IH (S i) best found) as [ [-> H] | (j & r & -> & E & Hr & H) ].
    + left. split; [done|]. intros [|j'] r' E; cbn in E; [injection E as ->; lia|]. by apply (H j').
    + right. exists (S j), r. split; [f_equal; lia|]. split; [done|]. split; [lia|]. intros [|j'] r' E'; cbn in E'; [injection E' as ->; lia|].
      destruct (H _ _ E'). split; [done|]. intros. apply H1. lia.
Qed.

Lemma bounds_delete (bounds : list Z) parts k : (S parts ≤ length bounds)%nat → (k + 1 < parts)%nat →
  take (S (parts - 1)) (copy bounds (k + 1) (k + 2) (parts - (k + 1))) = delete (k + 1)%nat (take (S parts) bounds).
Proof.
  intros Hl Hk. apply list_eq. intros i. destruct (decide (i < S (parts - 1))%nat) as [Hi|Hi].
  - rewrite lookup_take_lt, copy_lookup by lia. destruct (decide (i < k + 1)%nat).
    + rewrite decide_False, list_lookup_delete_lt, lookup_take_lt by lia. done.
    + rewrite decide_True, list_lookup_delete_ge, lookup_take_lt by lia. f_equal. lia.
  - rewrite !lookup_ge_None_2; [done| |].
    + rewrite length_delete by (apply lookup_lt_is_Some_2; rewrite length_take; lia). rewrite length_take. lia.
    + rewrite length_take, copy_length by lia. lia.
Qed.

Lemma take_bound bounds n i : (i < n)%nat → bound (take n bounds) i = bound bounds i.
Proof. intros H. unfold bound. by rewrite lookup_take_lt. Qed.

(** The pairs after the boundary between part [k] and the next is dropped. *)
Lemma pair_at_delete p bs k j : (k + 1 < length bs)%nat → j ≠ k → S j ≠ k →
  pair_at p (delete (k + 1)%nat bs) j = pair_at p bs (if decide (j < k)%nat then j else S j).
Proof.
  intros Hk H1 H2. unfold pair_at. rewrite !delete_bound by lia. destruct (decide (j < k)%nat).
  - by rewrite !decide_True by lia.
  - by rewrite !decide_False by lia.
Qed.

Definition small_ranks (p : text) (bounds ranks : list Z) (parts : nat) : Prop :=
  ∀ j, (j + 1 < parts)%nat → ranks !! j = Some (pair_at p (take (S parts) bounds) j).

(** The ranks after one merge. *)
Lemma small_ranks_step p bounds ranks parts k : length ranks = smallPiece → (parts ≤ smallPiece)%nat → (S parts ≤ length bounds)%nat →
  (k + 1 < parts)%nat → small_ranks p bounds ranks parts →
  let bounds' := copy bounds (k + 1) (k + 2) (parts - (k + 1)) in
  let ranks1 := if Nat.ltb (k + 2) parts then copy ranks (k + 1) (k + 2) (Nat.min (length ranks - (k + 1)) (parts - 1 - (k + 2))) else ranks in
  let ranks2 := if Nat.ltb 0 k then <[(k - 1)%nat := rank (sub p (bound bounds' (k - 1)) (bound bounds' (k + 1)))]> ranks1 else ranks1 in
  let ranks3 := if Nat.ltb k (parts - 1 - 1) then <[k := rank (sub p (bound bounds' k) (bound bounds' (k + 2)))]> ranks2 else ranks2 in
  length ranks3 = smallPiece ∧ small_ranks p bounds' ranks3 (parts - 1).
Proof.
  intros Lr Hp Lb Hk HR bounds' ranks1 ranks2 ranks3.
  assert (length ranks1 = smallPiece) as L1 by (unfold ranks1; case_match; rewrite ?copy_length by lia; lia).
  assert (length ranks2 = smallPiece) as L2 by (unfold ranks2; case_match; by rewrite ?length_insert).
  assert (length ranks3 = smallPiece) as L3 by (unfold ranks3; case_match; by rewrite ?length_insert).
  split; [done|]. intros j Hj.
  assert (∀ i, (i < S (parts - 1))%nat → bound (take (S (parts - 1)) bounds') i = bound bounds' i) as HB by (intros; by apply take_bound).
  assert (take (S (parts - 1)) bounds' = delete (k + 1)%nat (take (S parts) bounds)) as ED by (by apply bounds_delete).
  assert (j ≠ k → S j ≠ k → ranks1 !! j = Some (pair_at p (take (S (parts - 1)) bounds') j)) as H1.
  { intros Hjk Hsj. rewrite ED, pair_at_delete by (done || (rewrite length_take; lia)). unfold ranks1.
    destruct (Nat.ltb_spec (k + 2) parts) as [Hlt|Hge].
    - rewrite copy_lookup by lia. destruct (decide (j < k)%nat).
      + rewrite decide_False by lia. apply HR. lia.
      + rewrite decide_True by lia. replace (k + 2 + (j - (k + 1)))%nat with (S j) by lia. apply HR. lia.
    - rewrite decide_True by lia. apply HR. lia. }
  assert (j ≠ k → ranks2 !! j = Some (pair_at p (take (S (parts - 1)) bounds') j)) as H2.
  { intros Hjk. unfold ranks2. destruct (Nat.ltb_spec 0 k) as [Hk0|Hk0]; [|apply H1; [done|lia] ].
    destruct (decide (j = k - 1)%nat) as [->|Hne].
    - rewrite list_lookup_insert_eq by lia. unfold pair_at. rewrite !HB by lia. do 4 f_equal. lia.
    - rewrite list_lookup_insert_ne by done. apply H1; [done|lia]. }
  unfold ranks3. destruct (Nat.ltb_spec k (parts - 1 - 1)) as [Hk1|Hk1]; [|apply H2; lia].
  destruct (decide (j = k)) as [->|Hne].
  - rewrite list_lookup_insert_eq by lia. unfold pair_at. by rewrite !HB by lia.
  - rewrite list_lookup_insert_ne by done. by apply H2.
Qed.

Lemma small_loop_ok fuel p parts bounds ranks : (parts ≤ S fuel)%nat → (1 ≤ parts ≤ smallPiece)%nat →
  (S parts ≤ length bounds)%nat → length ranks = smallPiece →
  boundaries p (take (S parts) bounds) → small_ranks p bounds ranks parts →
  let '(n, bounds') := small_loop rank fuel p parts bounds ranks in
  (S n ≤ length bounds')%nat ∧ boundaries p (take (S n) bounds') ∧ bpe rank (parts_of p (take (S parts) bounds)) (parts_of p (take (S n) bounds')).
Proof.
  revert parts bounds ranks. induction fuel as [|fuel IH]; intros parts bounds ranks Hf Hp Lb Lr B HR.
  { cbn [small_loop]. split; [done|]. split; [done|]. apply bpe_done_bounds; [done|]. intros j. rewrite length_take. lia. }
  cbn [small_loop]. destruct (Nat.leb_spec parts 1) as [Hp1|Hp1].
  { split; [done|]. split; [done|]. apply bpe_done_bounds; [done|]. intros j. rewrite length_take. lia. }
  assert (∀ j, take (parts - 1) ranks !! j = if decide (j + 1 < parts)%nat then Some (pair_at p (take (S parts) bounds) j) else None) as HT.
  { intros j. destruct (decide (j + 1 < parts)%nat).
    - rewrite lookup_take_lt by lia. by apply HR.
    - apply lookup_ge_None_2. rewrite length_take. lia. }
  assert (∀ j, (j + 2 < length (take (S parts) bounds))%nat → (j + 1 < parts)%nat) as HL by (intros j; rewrite length_take; lia).
  destruct (scan_best_spec (take (parts - 1) ranks) 0 noRank None) as [ [-> H] | (k & r & -> & E & Hr & H) ].
  - split; [done|]. split; [done|]. apply bpe_done_bounds; [done|]. intros j Hj. apply (H j). by rewrite HT, decide_True by auto.
  - rewrite Nat.add_0_l. rewrite HT in E. destruct (decide (k + 1 < parts)%nat) as [Hk|]; [|done]. injection E as <-.
    pose proof (small_ranks_step p bounds ranks parts k Lr ltac:(lia) Lb Hk HR) as [L3 R3]. cbv zeta in L3, R3.
    pose proof (bounds_delete bounds parts k Lb Hk) as ED.
    set (bounds' := copy bounds (k + 1) (k + 2) (parts - (k + 1))) in *.
    assert (length bounds' = length bounds) as Lb' by (apply copy_length; lia).
    assert (k + 2 < length (take (S parts) bounds))%nat as Hk2 by (rewrite length_take; lia).
    pose proof (boundaries_delete p _ k B Hk2) as B'. rewrite <- ED in B'.
    specialize (IH (parts - 1)%nat bounds' _ ltac:(lia) ltac:(lia) ltac:(lia) L3 B' R3).
    cbv zeta. destruct (small_loop _ _ _ _ _ _) as [n b']. destruct IH as (I1 & I2 & I3). split; [done|]. split; [done|].
    apply (bpe_merge _ _ _ k); [|by rewrite <- parts_of_delete, <- ED].
    apply best_pair_bounds; [done|done|done|]. intros j Hj. apply (H j). by rewrite HT, decide_True by auto.
Qed.

Lemma mergeSmall_ok p : p ≠ [] → (length p ≤ smallPiece)%nat →
  let '(n, bounds) := mergeSmall rank p in
  ∃ bs, bs = take (S n) bounds ∧ (S n ≤ length bounds)%nat ∧ boundaries p bs ∧ bpe rank (singles p) (parts_of p bs).
Proof.
  intros Hne Hl. unfold mergeSmall. fold (byte_bounds p). assert (1 ≤ length p)%nat as H1 by (destruct p; [done|]; simpl; lia).
  assert (∀ m, take (S (length p)) (byte_bounds p ++ replicate m 0) = byte_bounds p) as ET.
  { intros m. rewrite take_app_le by (rewrite byte_bounds_length; lia). apply take_ge. by rewrite byte_bounds_length. }
  pose proof (small_loop_ok (length p) p (length p) (byte_bounds p ++ replicate (smallPiece - length p) 0)
    (((λ i, rank (sub p (Z.of_nat i) (Z.of_nat i + 2))) <$> seq 0 (length p - 1)) ++ replicate (smallPiece - (length p - 1)) 0)) as H.
  rewrite ET in H. rewrite byte_parts in H. destruct (small_loop _ _ _ _ _ _) as [n b].
  destruct H as (H2 & H3 & H4); [lia|lia| | |apply byte_boundaries| |eauto 6].
  - rewrite length_app, byte_bounds_length. lia.
  - rewrite length_app, length_fmap, length_seq, length_replicate. unfold smallPiece in *. lia.
  - intros j Hj. rewrite ET. rewrite lookup_app_l by (rewrite length_fmap, length_seq; lia).
    rewrite list_lookup_fmap, lookup_seq_lt by lia. cbn [fmap option_fmap option_map]. unfold pair_at. rewrite !byte_bound by lia.
    do 3 f_equal. lia.
Qed.
End Facts.
