(* ===== verification/TokenLarge.v ===== *)
(** * Byte-pair merging of long pieces

    [mergeLarge] computes the definition: its linked list holds the boundaries of the parts, its
    ranks are those of the pairs, every pair that can merge is in the heap, and an entry whose
    pair has changed since is recognised when it is popped. *)

From S2P Require Import Prelude Go Source SourceParser TokenVocab TokenVocabFacts TokenHeap TokenMerge TokenMergeFacts.
From Stdlib Require Import Ascii.
Local Open Scope Z_scope.

Lemma pair_entry_add r i : 0 <= i < 2 ^ 32 → pair_entry r i = r * 2 ^ 32 + i.
Proof. intros. unfold pair_entry. by rewrite lor_shiftl_add by lia. Qed.

Lemma pair_entry_split r i : 0 <= i < 2 ^ 32 → pair_entry r i mod 2 ^ 32 = i ∧ Z.shiftr (pair_entry r i) 32 = r.
Proof.
  intros H. split; [|by apply split_word; lia]. rewrite pair_entry_add, Z.add_comm, Z_mod_plus_full by done. by apply Z.mod_small.
Qed.

Lemma pair_entry_inj r i r' i' : 0 <= i < 2 ^ 32 → 0 <= i' < 2 ^ 32 → pair_entry r i = pair_entry r' i' → r = r' ∧ i = i'.
Proof. intros H H' E. rewrite !pair_entry_add in E by done. lia. Qed.

Lemma omap_length_le {A B} (f : A → option B) l : (length (omap f l) ≤ length l)%nat.
Proof. induction l as [|x l IH]; [done|]. cbn [omap list_omap]. destruct (f x); simpl; lia. Qed.

Section Large.
Context (rank : text → Z) (rank_range : ∀ t, 0 <= rank t <= noRank).

Notation pair_at := (pair_at rank).

(** The rank kept at the start of part [k]: that of its pair, or none for the last part. *)
Definition rank_kept (p : text) (bs : list Z) (k : nat) : Z := if decide (k + 2 < length bs)%nat then pair_at p bs k else noRank.

Record large_ok (p : text) (bs : list Z) (s : large) : Prop := mkLargeOk {
  lo_bounds : boundaries p bs;
  lo_next_len : size_of p = Z.of_nat (length (l_next s));
  lo_prev_len : size_of p = Z.of_nat (length (l_prev s));
  lo_rank_len : size_of p = Z.of_nat (length (l_rank s));
  lo_next : ∀ k, (k + 1 < length bs)%nat → at_ (l_next s) (bound bs k) = bound bs (k + 1);
  lo_prev : ∀ k, (k + 1 < length bs)%nat → at_ (l_prev s) (bound bs k) = if decide (k = 0%nat) then -1 else bound bs (k - 1);
  lo_rank : ∀ k, (k + 1 < length bs)%nat → at_ (l_rank s) (bound bs k) = rank_kept p bs k;
  lo_dead : ∀ i, 0 <= i < size_of p → (∀ k, (k + 1 < length bs)%nat → bound bs k ≠ i) → at_ (l_rank s) i = noRank;
  lo_ordered : ordered (l_heap s);
  lo_entries : ∀ e, e ∈ l_heap s → ∃ r i, e = pair_entry r i ∧ 0 <= i < size_of p ∧ 0 <= r < noRank;
  lo_live : ∀ k, (k + 2 < length bs)%nat → pair_at p bs k < noRank → pair_entry (pair_at p bs k) (bound bs k) ∈ l_heap s;
  lo_parts : l_parts s = Z.of_nat (length bs) - 1;
}.

Lemma offer_spec ranks heap i merged n : n = Z.of_nat (length ranks) → 0 <= i < n → at_ ranks i = noRank → 0 <= merged <= noRank → ordered heap →
  let '(ranks', heap') := offer ranks heap i merged in
  n = Z.of_nat (length ranks') ∧ (∀ x, 0 <= x < n → at_ ranks' x = if decide (x = i) then merged else at_ ranks x) ∧
  ordered heap' ∧ (∀ e, e ∈ heap → e ∈ heap') ∧ (merged < noRank → pair_entry merged i ∈ heap') ∧
  (∀ e, e ∈ heap' → e ∈ heap ∨ e = pair_entry merged i ∧ merged < noRank) ∧ (length heap' ≤ S (length heap))%nat.
Proof.
  intros Hn Hi Hr Hm Ho. unfold offer. destruct (Z.eqb_spec merged noRank) as [->|Hne]; cbn [negb].
  - split; [done|]. split; [intros x Hx; by destruct (decide (x = i)) as [->|] |]. split; [done|]. split; [done|]. split; [lia|]. split; [auto|lia].
  - destruct (pushHeap_ok heap (pair_entry merged i) Ho) as [P1 P2]. split; [by rewrite put_length|]. split.
    { intros x Hx. rewrite at_put by lia. destruct (Z.eqb_spec x i), (decide (x = i)); done. }
    split; [done|]. assert (∀ e, e ∈ pushHeap heap (pair_entry merged i) ↔ e = pair_entry merged i ∨ e ∈ heap) as HE
      by (intros e; by rewrite P2, elem_of_cons).
    split; [intros e He; apply HE; by right|]. split; [intros _; apply HE; by left|]. split.
    + intros e [-> | He]%HE; [right|by left]. split; [done|lia].
    + apply Permutation_length in P2. rewrite P2. done.
Qed.

Section Step.
Context (p : text) (bs : list Z) (s : large) (V : large_ok p bs s) (small : size_of p <= maxPiece).

Let n := size_of p.

Lemma size_bound : size_of p < 2 ^ 32.
Proof. clear -small. change maxPiece with 262144 in small. lia. Qed.

(** What a pop leaves in the heap. *)
Lemma popped : l_heap s ≠ [] → let e := hget (l_heap s) 0 in
  ordered (popHeap (l_heap s)) ∧ e ∈ l_heap s ∧ (∀ x, x ∈ popHeap (l_heap s) → x ∈ l_heap s) ∧
  (∀ x, x ∈ l_heap s → x ≠ e → x ∈ popHeap (l_heap s)) ∧ length (l_heap s) = S (length (popHeap (l_heap s))) ∧
  ∀ x, x ∈ l_heap s → e <= x.
Proof.
  intros Hne e. destruct (popHeap_ok _ (lo_ordered _ _ _ V) Hne) as [P1 P2]. fold e in P2. split; [done|].
  assert (∀ x, x ∈ l_heap s ↔ x = e ∨ x ∈ popHeap (l_heap s)) as HE
    by (intros x; rewrite <- elem_of_cons; split; intros Hx; [by rewrite <- P2|by rewrite P2]).
  split; [apply HE; by left|]. split; [intros; apply HE; by right|]. split; [intros x Hx ?; apply HE in Hx as [|]; done|].
  split; [by apply Permutation_length in P2|]. intros x Hx. apply ordered_least_elem; [apply V|done].
Qed.

Lemma stale_step : l_heap s ≠ [] → let e := hget (l_heap s) 0 in at_ (l_rank s) (e mod 2 ^ 32) ≠ Z.shiftr e 32 →
  large_ok p bs (large_step rank p s) ∧ length (l_heap s) = S (length (l_heap (large_step rank p s))).
Proof.
  intros Hne e Hst. destruct (popped Hne) as (P1 & P2 & P3 & P4 & P5 & P6). fold e in P2, P4, P6.
  unfold large_step. fold e. rewrite (proj2 (Z.eqb_neq _ _)) by done. cbn [negb]. split; [|done].
  pose proof size_bound as HS. destruct V. constructor; try done; cbn [l_heap l_rank].
  - intros x Hx. by apply lo_entries0, P3.
  - intros k Hk Hr. apply P4; [by apply lo_live0|]. intros E. apply Hst. rewrite <- E.
    pose proof (bound_range p bs k lo_bounds0 ltac:(lia)) as R. destruct (pair_entry_split (pair_at p bs k) (bound bs k) ltac:(lia)) as [-> ->].
    rewrite lo_rank0 by lia. unfold rank_kept. by rewrite decide_True.
Qed.

(** A valid entry names the leftmost pair of the lowest rank. *)
Lemma valid_entry : l_heap s ≠ [] → let e := hget (l_heap s) 0 in at_ (l_rank s) (e mod 2 ^ 32) = Z.shiftr e 32 →
  ∃ k, (k + 2 < length bs)%nat ∧ e = pair_entry (pair_at p bs k) (bound bs k) ∧ e mod 2 ^ 32 = bound bs k ∧ best_pair rank (parts_of p bs) k.
Proof.
  intros Hne e Hr. destruct (popped Hne) as (_ & P2 & _ & _ & _ & P6). fold e in P2, P6. pose proof size_bound as HS.
  destruct (lo_entries _ _ _ V _ P2) as (r & i & E & Hi & Hrr). destruct (pair_entry_split r i ltac:(lia)) as [E1 E2].
  rewrite <- E in E1, E2. rewrite E1, E2 in Hr. pose proof (lo_bounds _ _ _ V) as B.
  destruct (decide (i ∈ take (length bs - 1) bs)) as [Hin|Hout].
  2: { exfalso. rewrite (lo_dead _ _ _ V i Hi) in Hr; [lia|]. intros k Hk Ek. apply Hout. apply list_elem_of_lookup. exists k.
       rewrite lookup_take_lt by lia. rewrite bound_lookup by lia. by rewrite Ek. }
  apply list_elem_of_lookup in Hin as (k & Ek). pose proof (lookup_lt_Some _ _ _ Ek) as Hk. rewrite length_take in Hk.
  rewrite lookup_take_lt in Ek by lia. rewrite bound_lookup in Ek by lia. injection Ek as <-.
  rewrite (lo_rank _ _ _ V) in Hr by lia. unfold rank_kept in Hr. destruct (decide (k + 2 < length bs)%nat) as [Hk2|]; [|lia]. subst r.
  exists k. do 3 (split; [done|]). apply (best_pair_bounds rank); [done|done|lia|]. intros j Hj.
  destruct (decide (pair_at p bs j < noRank)) as [Hj'|]; [|lia].
  pose proof (P6 _ (lo_live _ _ _ V j Hj Hj')) as Hle. rewrite E in Hle.
  pose proof (bound_range p bs j B ltac:(lia)). pose proof (bound_range p bs k B ltac:(lia)).
  rewrite !pair_entry_add in Hle by lia. split; [lia|]. intros Hjk. pose proof (b_sorted _ _ B j k Hjk ltac:(lia)). lia.
Qed.

(** The boundaries after the merge of part [k] with the next. *)
Lemma after_bound k m : (k + 2 < length bs)%nat → bound (delete (k + 1)%nat bs) m = bound bs (if decide (m ≤ k)%nat then m else S m).
Proof. intros Hk. rewrite delete_bound by lia. f_equal. repeat case_decide; lia. Qed.

Lemma after_length k : (k + 2 < length bs)%nat → length (delete (k + 1)%nat bs) = (length bs - 1)%nat.
Proof. intros. apply length_delete, lookup_lt_is_Some_2. lia. Qed.

Lemma after_kept k m : (k + 2 < length bs)%nat → m ≠ k → S m ≠ k →
  rank_kept p (delete (k + 1)%nat bs) m = rank_kept p bs (if decide (m < k)%nat then m else S m).
Proof.
  intros Hk H1 H2. unfold rank_kept. rewrite after_length by done. rewrite pair_at_delete by lia.
  destruct (decide (m < k)%nat); repeat case_decide; try lia; done.
Qed.

(** The ranks after the merge, wherever they were stored. *)
Lemma after_ranks k ranks : (k + 2 < length bs)%nat → n = Z.of_nat (length ranks) →
  (∀ x, 0 <= x < n → at_ ranks x =
    if decide (x = bound bs k) then rank_kept p (delete (k + 1)%nat bs) k
    else if decide (x = bound bs (k + 1)) then noRank
    else if decide ((0 < k)%nat ∧ x = bound bs (k - 1)) then rank_kept p (delete (k + 1)%nat bs) (k - 1)
    else at_ (l_rank s) x) →
  (∀ m, (m + 1 < length bs - 1)%nat → at_ ranks (bound (delete (k + 1)%nat bs) m) = rank_kept p (delete (k + 1)%nat bs) m) ∧
  (∀ i, 0 <= i < n → (∀ m, (m + 1 < length bs - 1)%nat → bound (delete (k + 1)%nat bs) m ≠ i) → at_ ranks i = noRank).
Proof.
  intros Hk Hn HR. pose proof (lo_bounds _ _ _ V) as B. pose proof (boundaries_inj p bs) as Inj.
  assert (∀ i, (i + 1 < length bs)%nat → 0 <= bound bs i < n) as Range.
  { intros i Hi. pose proof (bound_range p bs i B ltac:(lia)). pose proof (b_sorted _ _ B i (length bs - 1) ltac:(lia) ltac:(lia)) as H1.
    rewrite (b_last _ _ B) in H1. unfold n. lia. }
  split.
  - intros m Hm. rewrite (after_bound k m Hk). destruct (decide (m ≤ k)%nat) as [Hle|Hgt].
    + rewrite HR by (apply Range; lia). destruct (decide (bound bs m = bound bs k)) as [E|Hne].
      { by apply Inj in E as ->; [..|done|lia|lia]. }
      rewrite decide_False by (intros E; apply Inj in E; [lia|done|lia..]).
      destruct (decide (m = k)) as [->|Hmk]; [done|]. destruct (decide ((0 < k)%nat ∧ bound bs m = bound bs (k - 1))) as [ [H0 E] |Hno].
      { apply Inj in E; [|done|lia|lia]. by subst m. }
      assert (S m ≠ k) as Hsm. { intros <-. apply Hno. split; [lia|]. f_equal. lia. }
      rewrite after_kept, decide_True by lia. apply (lo_rank _ _ _ V). lia.
    + rewrite HR by (apply Range; lia). rewrite !decide_False.
      * rewrite after_kept, decide_False by lia. apply (lo_rank _ _ _ V). lia.
      * intros [_ E]. apply Inj in E; [lia|done|lia..].
      * intros E. apply Inj in E; [lia|done|lia..].
      * intros E. apply Inj in E; [lia|done|lia..].
  - intros i Hi Hno. assert (∀ m, (m + 1 < length bs)%nat → m ≠ S k → bound bs m ≠ i) as Hlive.
    { intros m Hm Hmk. destruct (decide (m ≤ k)%nat).
      - specialize (Hno m ltac:(lia)). by rewrite after_bound, decide_True in Hno by done.
      - specialize (Hno (m - 1)%nat ltac:(lia)). rewrite after_bound, decide_False in Hno by lia. by replace (S (m - 1)) with m in Hno by lia. }
    rewrite HR by done. rewrite decide_False by (intros E; apply (Hlive k); [lia|lia|done]).
    destruct (decide (i = bound bs (k + 1))) as [|Hj]; [done|].
    rewrite decide_False by (intros [H0 E]; apply (Hlive (k - 1)%nat); [lia|lia|done]).
    apply (lo_dead _ _ _ V); [done|]. intros m Hm E. destruct (decide (m = S k)) as [->|].
    + apply Hj. rewrite <- E. f_equal. lia.
    + by apply (Hlive m Hm).
Qed.

Lemma next_range i : (i + 1 < length bs)%nat → 0 <= bound bs i < n.
Proof.
  intros Hi. pose proof (lo_bounds _ _ _ V) as B. pose proof (bound_range p bs i B ltac:(lia)).
  pose proof (b_sorted _ _ B i (length bs - 1) ltac:(lia) ltac:(lia)) as H1. rewrite (b_last _ _ B) in H1. unfold n. lia.
Qed.

(** The links after the merge. *)
Lemma after_next k m : (k + 2 < length bs)%nat → (m + 1 < length bs - 1)%nat →
  at_ (put_ (l_next s) (bound bs k) (bound bs (k + 2))) (bound (delete (k + 1)%nat bs) m) = bound (delete (k + 1)%nat bs) (m + 1).
Proof.
  intros Hk Hm. pose proof (lo_bounds _ _ _ V) as B. pose proof (lo_next_len _ _ _ V) as L. pose proof (next_range k ltac:(lia)) as Rk. unfold n in Rk.
  rewrite !after_bound by done. set (a := if decide (m ≤ k)%nat then m else S m).
  assert (a + 1 < length bs)%nat as Ha by (unfold a; case_decide; lia). pose proof (next_range a Ha) as Ra.
  rewrite at_put by lia. destruct (Z.eqb_spec (bound bs a) (bound bs k)) as [E|Hne].
  - apply (boundaries_inj p bs) in E; [|done|lia|lia]. unfold a in E. destruct (decide (m ≤ k)%nat); [|lia]. subst m.
    rewrite decide_False by lia. f_equal. lia.
  - rewrite (lo_next _ _ _ V) by done. f_equal. unfold a in *. destruct (decide (m ≤ k)%nat) as [Hle|].
    + assert (m ≠ k) by (intros ->; done). rewrite decide_True by lia. lia.
    + rewrite decide_False by lia. lia.
Qed.

Lemma after_prev k m : (k + 2 < length bs)%nat → (m + 1 < length bs - 1)%nat →
  at_ (if bound bs (k + 2) <? n then put_ (l_prev s) (bound bs (k + 2)) (bound bs k) else l_prev s) (bound (delete (k + 1)%nat bs) m) =
  if decide (m = 0%nat) then -1 else bound (delete (k + 1)%nat bs) (m - 1).
Proof.
  intros Hk Hm. pose proof (lo_bounds _ _ _ V) as B. pose proof (lo_prev_len _ _ _ V) as L. rewrite !after_bound by done.
  set (a := if decide (m ≤ k)%nat then m else S m). assert (a + 1 < length bs)%nat as Ha by (unfold a; case_decide; lia).
  pose proof (next_range a Ha) as Ra.
  assert (at_ (if bound bs (k + 2) <? n then put_ (l_prev s) (bound bs (k + 2)) (bound bs k) else l_prev s) (bound bs a) =
    if decide (a = k + 2)%nat then bound bs k else at_ (l_prev s) (bound bs a)) as ->.
  { destruct (Z.ltb_spec (bound bs (k + 2)) n) as [Hlt|Hge].
    - pose proof (bound_range p bs (k + 2) B ltac:(lia)). unfold n in *. rewrite at_put by lia.
      destruct (Z.eqb_spec (bound bs a) (bound bs (k + 2))) as [E|Hne].
      + apply (boundaries_inj p bs) in E; [|done|lia|lia]. by rewrite decide_True.
      + rewrite decide_False; [done|]. intros ->. done.
    - rewrite decide_False; [done|]. intros ->. lia. }
  destruct (decide (a = k + 2)%nat) as [Ea|Hna].
  - unfold a in Ea. destruct (decide (m ≤ k)%nat); [lia|]. assert (m = S k) as -> by lia. rewrite decide_False, decide_True by lia. f_equal. lia.
  - rewrite (lo_prev _ _ _ V) by done. unfold a in *. destruct (decide (m ≤ k)%nat).
    + destruct (decide (m = 0%nat)); [done|]. rewrite decide_True by lia. done.
    + rewrite (decide_False (P := S m = 0%nat)), (decide_False (P := m = 0%nat)), decide_False by lia. f_equal. lia.
Qed.

(** A pair's rank set and offered to the heap: what [offer_spec] says of the entries. *)
Record offered (i merged : Z) (ranks heap ranks' heap' : list Z) : Prop := mkOffered {
  of_len : n = Z.of_nat (length ranks');
  of_rank : ∀ x, 0 <= x < n → at_ ranks' x = if decide (x = i) then merged else at_ ranks x;
  of_ordered : ordered heap';
  of_keeps : ∀ e, e ∈ heap → e ∈ heap';
  of_new : merged < noRank → pair_entry merged i ∈ heap';
  of_from : ∀ e, e ∈ heap' → e ∈ heap ∨ ∃ r, e = pair_entry r i ∧ 0 <= r < noRank;
  of_size : (length heap' ≤ S (length heap))%nat;
}.

Lemma offer_offered ranks heap i merged : n = Z.of_nat (length ranks) → 0 <= i < n → at_ ranks i = noRank → 0 <= merged <= noRank → ordered heap →
  let '(ranks', heap') := offer ranks heap i merged in offered i merged ranks heap ranks' heap'.
Proof.
  intros Hn Hi Hr Hm Ho. pose proof (offer_spec ranks heap i merged n Hn Hi Hr Hm Ho) as O. destruct (offer _ _ _ _) as [ranks' heap'].
  destruct O as (O1 & O2 & O3 & O4 & O5 & O6 & O7). constructor; try done. intros e He. destruct (O6 e He) as [|[-> ?] ]; [by left|right].
  eexists; split; [done|lia].
Qed.

Lemma not_offered ranks heap i : n = Z.of_nat (length ranks) → at_ ranks i = noRank → ordered heap → offered i noRank ranks heap ranks heap.
Proof.
  intros Hn Hr Ho. constructor; auto; [|intros H; exfalso; revert H; apply Z.lt_irrefl]. intros x Hx. by destruct (decide (x = i)) as [->|].
Qed.

Lemma kept_range bs' k : 0 <= rank_kept p bs' k <= noRank.
Proof. unfold rank_kept. case_decide; [apply rank_range|vm_compute; done]. Qed.

Lemma distinct_bounds a b : (a < length bs)%nat → (b < length bs)%nat → a ≠ b → bound bs a ≠ bound bs b.
Proof. intros Ha Hb Hab Eab. apply Hab. eapply boundaries_inj; [apply V|done..]. Qed.

(** The pair that starts with the merged part. *)
Lemma offer_right k ranks heap : (k + 2 < length bs)%nat → n = Z.of_nat (length ranks) → at_ ranks (bound bs k) = noRank → ordered heap →
  let next := put_ (l_next s) (bound bs k) (bound bs (k + 2)) in
  let '(ranks', heap') := if bound bs (k + 2) <? n then offer ranks heap (bound bs k) (rank (sub p (bound bs k) (at_ next (bound bs (k + 2))))) else (ranks, heap) in
  offered (bound bs k) (rank_kept p (delete (k + 1)%nat bs) k) ranks heap ranks' heap'.
Proof.
  intros Hk Hn Hr Ho next. pose proof (lo_bounds _ _ _ V) as B. pose proof (after_length k Hk) as LB. pose proof (next_range k ltac:(lia)) as Rk.
  destruct (Z.ltb_spec (bound bs (k + 2)) n) as [Hlt|Hge].
  - assert (k + 3 < length bs)%nat as Hk3.
    { destruct (decide (k + 3 < length bs)%nat); [done|]. replace (k + 2)%nat with (length bs - 1)%nat in Hlt by lia.
      rewrite (b_last _ _ B) in Hlt. unfold n in Hlt. lia. }
    assert (rank (sub p (bound bs k) (at_ next (bound bs (k + 2)))) = rank_kept p (delete (k + 1)%nat bs) k) as ->.
    { unfold rank_kept. rewrite LB, decide_True by lia. unfold pair_at. rewrite !after_bound by done. rewrite decide_True, decide_False by lia.
      do 2 f_equal. unfold next. pose proof (lo_next_len _ _ _ V). pose proof (bound_range p bs (k + 2) B ltac:(lia)). rewrite at_put by (unfold n in *; lia).
      rewrite (proj2 (Z.eqb_neq _ _)) by (apply distinct_bounds; lia). rewrite (lo_next _ _ _ V) by lia. f_equal. lia. }
    apply offer_offered; try done. apply kept_range.
  - assert (length bs = k + 3)%nat as Hk3.
    { destruct (decide (length bs = k + 3)%nat); [done|]. pose proof (next_range (k + 2) ltac:(lia)). lia. }
    assert (rank_kept p (delete (k + 1)%nat bs) k = noRank) as -> by (unfold rank_kept; rewrite LB, decide_False by lia; done).
    by apply not_offered.
Qed.

(** The pair that ends with the merged part, when there is one. *)
Lemma offer_left k ranks heap : (k + 2 < length bs)%nat → n = Z.of_nat (length ranks) → ordered heap →
  let q := if decide (k = 0%nat) then -1 else bound bs (k - 1) in
  let '(ranks', heap') := if q >=? 0 then offer (put_ ranks q noRank) heap q (rank (sub p q (bound bs (k + 2)))) else (ranks, heap) in
  if decide (k = 0%nat) then ranks' = ranks ∧ heap' = heap
  else offered (bound bs (k - 1)) (rank_kept p (delete (k + 1)%nat bs) (k - 1)) ranks heap ranks' heap'.
Proof.
  intros Hk Hn Ho. cbv zeta. pose proof (after_length k Hk) as LB. destruct (decide (k = 0%nat)) as [->|Hk0]; [done|].
  pose proof (next_range (k - 1) ltac:(lia)) as Rq. rewrite Z.geb_leb, (proj2 (Z.leb_le _ _)) by lia.
  assert (rank (sub p (bound bs (k - 1)) (bound bs (k + 2))) = rank_kept p (delete (k + 1)%nat bs) (k - 1)) as ->.
  { unfold rank_kept. rewrite LB, decide_True by lia. unfold pair_at. rewrite !after_bound by done. rewrite decide_True, decide_False by lia. do 3 f_equal. lia. }
  pose proof (offer_offered (put_ ranks (bound bs (k - 1)) noRank) heap (bound bs (k - 1)) (rank_kept p (delete (k + 1)%nat bs) (k - 1))) as O.
  destruct (offer _ _ _ _) as [ranks' heap'].
  destruct O as [O1 O2 O3 O4 O5 O6 O7]; [by rewrite put_length|done|rewrite at_put by lia; by rewrite Z.eqb_refl|apply kept_range|done|].
  constructor; try done. intros x Hx. rewrite O2 by done. case_decide; [done|]. rewrite at_put by lia. by rewrite (proj2 (Z.eqb_neq _ _)).
Qed.

(** The ranks without those of the two parts merged. *)
Lemma cleared_ranks k x : (k + 2 < length bs)%nat → 0 <= x < n →
  at_ (put_ (put_ (l_rank s) (bound bs (k + 1)) noRank) (bound bs k) noRank) x =
  if decide (x = bound bs k) then noRank else if decide (x = bound bs (k + 1)) then noRank else at_ (l_rank s) x.
Proof.
  intros Hk Hx. pose proof (lo_rank_len _ _ _ V) as LR. fold n in LR. pose proof (next_range k ltac:(lia)). pose proof (next_range (k + 1) ltac:(lia)).
  rewrite !at_put by (rewrite ?put_length; lia). destruct (Z.eqb_spec x (bound bs k)), (decide (x = bound bs k)); try done.
  destruct (Z.eqb_spec x (bound bs (k + 1))), (decide (x = bound bs (k + 1))); done.
Qed.

(** The state that the merge of part [k] leaves. *)
Lemma merged_ok k ranks heap : l_heap s ≠ [] → (k + 2 < length bs)%nat → hget (l_heap s) 0 = pair_entry (pair_at p bs k) (bound bs k) →
  n = Z.of_nat (length ranks) →
  (∀ x, 0 <= x < n → at_ ranks x =
    if decide (x = bound bs k) then rank_kept p (delete (k + 1)%nat bs) k
    else if decide (x = bound bs (k + 1)) then noRank
    else if decide ((0 < k)%nat ∧ x = bound bs (k - 1)) then rank_kept p (delete (k + 1)%nat bs) (k - 1)
    else at_ (l_rank s) x) →
  ordered heap → (∀ e, e ∈ popHeap (l_heap s) → e ∈ heap) →
  (rank_kept p (delete (k + 1)%nat bs) k < noRank → pair_entry (rank_kept p (delete (k + 1)%nat bs) k) (bound bs k) ∈ heap) →
  ((0 < k)%nat → rank_kept p (delete (k + 1)%nat bs) (k - 1) < noRank →
    pair_entry (rank_kept p (delete (k + 1)%nat bs) (k - 1)) (bound bs (k - 1)) ∈ heap) →
  (∀ e, e ∈ heap → e ∈ popHeap (l_heap s) ∨ ∃ r i, e = pair_entry r i ∧ 0 <= i < n ∧ 0 <= r < noRank) →
  large_ok p (delete (k + 1)%nat bs)
    (mkLarge (put_ (l_next s) (bound bs k) (bound bs (k + 2)))
       (if bound bs (k + 2) <? n then put_ (l_prev s) (bound bs (k + 2)) (bound bs k) else l_prev s) ranks heap (l_parts s - 1)).
Proof.
  intros Hne Hk E Hn HR Ho Hkeep Hnew Hnew' Hfrom. destruct (popped Hne) as (P1 & P2 & P3 & P4 & P5 & P6). rewrite E in P4.
  pose proof (after_length k Hk) as LB. destruct (after_ranks k ranks Hk Hn HR) as [R1 R2]. pose proof size_bound as HS.
  constructor; cbn [l_next l_prev l_rank l_heap l_parts]; rewrite ?LB.
  - apply boundaries_delete; [apply V|done].
  - rewrite put_length. apply V.
  - case_match; rewrite ?put_length; apply V.
  - done.
  - intros m Hm. by apply after_next.
  - intros m Hm. by apply after_prev.
  - done.
  - done.
  - done.
  - intros e He. destruct (Hfrom e He) as [Hp|]; [|done]. by apply (lo_entries _ _ _ V), P3.
  - intros m Hm. assert (pair_at p (delete (k + 1)%nat bs) m = rank_kept p (delete (k + 1)%nat bs) m) as ->
      by (unfold rank_kept; by rewrite LB, decide_True by lia).
    destruct (decide (m = k)) as [->|Hmk]; [rewrite after_bound, decide_True by done; done|].
    destruct (decide (S m = k)) as [<-|Hsk].
    { rewrite after_bound, decide_True by lia. replace (S m - 1)%nat with m in Hnew' by lia. apply Hnew'. lia. }
    rewrite after_kept by done. intros Hr. apply Hkeep. rewrite after_bound by done.
    set (a := if decide (m < k)%nat then m else S m) in *. replace (if decide (m ≤ k)%nat then m else S m) with a
      by (unfold a; destruct (decide (m < k)%nat), (decide (m ≤ k)%nat); lia).
    assert (a + 2 < length bs ∧ a ≠ k)%nat as [Ha Hak] by (unfold a; destruct (decide (m < k)%nat); lia).
    unfold rank_kept in *. rewrite decide_True in * by done. apply P4; [by apply (lo_live _ _ _ V)|].
    intros Eq. pose proof (next_range a ltac:(lia)). pose proof (next_range k ltac:(lia)). apply pair_entry_inj in Eq as [_ Eq]; [|unfold n in *; lia..].
    revert Eq. apply distinct_bounds; lia.
  - pose proof (lo_parts _ _ _ V). lia.
Qed.

Lemma valid_step k : l_heap s ≠ [] → let e := hget (l_heap s) 0 in (k + 2 < length bs)%nat →
  e = pair_entry (pair_at p bs k) (bound bs k) → at_ (l_rank s) (e mod 2 ^ 32) = Z.shiftr e 32 →
  large_ok p (delete (k + 1)%nat bs) (large_step rank p s) ∧ (length (l_heap (large_step rank p s)) ≤ length (l_heap s) + 1)%nat.
Proof.
  intros Hne e Hk E Hr. destruct (popped Hne) as (P1 & P2 & P3 & P4 & P5 & P6). fold e in P2, P4, P6. pose proof size_bound as HS.
  pose proof (next_range k ltac:(lia)) as Rk. pose proof (next_range (k + 1) ltac:(lia)) as Rj.
  destruct (pair_entry_split (pair_at p bs k) (bound bs k) ltac:(unfold n in *; lia)) as [E1 _]. rewrite <- E in E1.
  unfold large_step. fold n. fold e. rewrite Hr, Z.eqb_refl, E1. cbn [negb].
  rewrite (lo_next _ _ _ V k) by lia. rewrite (lo_next _ _ _ V (k + 1)) by lia. replace (k + 1 + 1)%nat with (k + 2)%nat by lia.
  set (ranks0 := put_ (put_ (l_rank s) (bound bs (k + 1)) noRank) (bound bs k) noRank).
  assert (n = Z.of_nat (length ranks0)) as L0 by (unfold ranks0; rewrite !put_length; apply V).
  pose proof (λ x, cleared_ranks k x Hk) as H0. fold ranks0 in H0.
  pose proof (offer_right k ranks0 (popHeap (l_heap s)) Hk L0 ltac:(rewrite H0 by done; by rewrite decide_True) P1) as F. cbv zeta in F.
  destruct (if bound bs (k + 2) <? n then offer ranks0 _ _ _ else _) as [ranks1 heap1]. destruct F as [F1 F2 F3 F4 F5 F6 F7].
  assert (at_ (if bound bs (k + 2) <? n then put_ (l_prev s) (bound bs (k + 2)) (bound bs k) else l_prev s) (bound bs k) =
    if decide (k = 0%nat) then -1 else bound bs (k - 1)) as ->.
  { pose proof (after_prev k k Hk ltac:(lia)) as HP. rewrite !after_bound in HP by done. rewrite decide_True in HP by lia. rewrite HP.
    case_decide; [done|]. by rewrite decide_True by lia. }
  pose proof (offer_left k ranks1 heap1 Hk F1 F3) as G. cbv zeta in G. destruct (if _ >=? 0 then offer _ _ _ _ else _) as [ranks2 heap2].
  pose proof (merged_ok k ranks2 heap2 Hne Hk E) as M. cbn [l_heap]. destruct (decide (k = 0%nat)) as [Ek|Hk0].
  - destruct G as [-> ->]. split; [|lia]. apply M; [done| |done|done|done|intros; lia|].
    + intros x Hx. rewrite F2, H0 by done. destruct (decide (x = bound bs k)); [done|]. destruct (decide (x = bound bs (k + 1))); [done|].
      by rewrite decide_False by lia.
    + intros x Hx. destruct (F6 x Hx) as [|(r & -> & ?)]; [by left|right]. eauto.
  - destruct G as [G1 G2 G3 G4 G5 G6 G7]. split; [|lia]. pose proof (next_range (k - 1) ltac:(lia)) as Rq. apply M; [done| |done|by auto|by auto|by auto|].
    + intros x Hx. rewrite G2 by done. pose proof (distinct_bounds (k - 1) k ltac:(lia) ltac:(lia) ltac:(lia)).
      pose proof (distinct_bounds (k - 1) (k + 1) ltac:(lia) ltac:(lia) ltac:(lia)). rewrite F2, H0 by done.
      destruct (decide (x = bound bs (k - 1))) as [->|]; [rewrite !decide_False by done; rewrite decide_True by lia; done|].
      destruct (decide (x = bound bs k)); [done|]. destruct (decide (x = bound bs (k + 1))); [done|].
      by rewrite decide_False by (intros [_ ?]; done).
    + intros x Hx. destruct (G6 x Hx) as [Hx1|(r & -> & ?)]; [|right; eauto]. destruct (F6 x Hx1) as [|(r & -> & ?)]; [by left|right]. eauto.
Qed.
End Step.

(** ** The loop *)

Definition work (bs heap : list Z) : nat := length heap + 3 * (length bs - 2).

Lemma large_loop_ok fuel p bs s : size_of p <= maxPiece → large_ok p bs s → (work bs (l_heap s) ≤ fuel)%nat →
  ∃ s' bs', large_loop rank fuel p s = Some s' ∧ large_ok p bs' s' ∧ bpe rank (parts_of p bs) (parts_of p bs').
Proof.
  intros Hp. revert bs s. induction fuel as [|fuel IH]; intros bs s V Hf.
  { unfold work in Hf. destruct (l_heap s) as [|e h] eqn:Eh; [|simpl in Hf; lia]. exists s, bs. unfold large_loop. rewrite Eh.
    split; [done|]. split; [done|]. apply bpe_done_bounds; [intros; apply rank_range|apply V|]. intros j Hj.
    destruct (decide (pair_at p bs j < noRank)) as [Hr|]; [|lia]. pose proof (lo_live _ _ _ V j Hj Hr) as H. rewrite Eh in H. by apply not_elem_of_nil in H. }
  cbn [large_loop]. destruct (l_heap s) as [|e h] eqn:Eh.
  { exists s, bs. split; [done|]. split; [done|]. apply bpe_done_bounds; [intros; apply rank_range|apply V|]. intros j Hj.
    destruct (decide (pair_at p bs j < noRank)) as [Hr|]; [|lia]. pose proof (lo_live _ _ _ V j Hj Hr) as H. rewrite Eh in H. by apply not_elem_of_nil in H. }
  assert (l_heap s ≠ []) as Hne by (by rewrite Eh). rewrite <- Eh in Hf.
  destruct (decide (at_ (l_rank s) (hget (l_heap s) 0 mod 2 ^ 32) = Z.shiftr (hget (l_heap s) 0) 32)) as [Hr|Hr].
  - destruct (valid_entry p bs s V Hp Hne Hr) as (k & Hk & E & _ & Hb). destruct (valid_step p bs s V Hp k Hne Hk E Hr) as [V' Hl].
    pose proof (length_delete bs (k + 1)%nat (lookup_lt_is_Some_2 bs (k + 1) ltac:(lia))) as LB. destruct (IH _ _ V') as (s' & bs' & E1 & E2 & E3); [unfold work in *; lia|].
    exists s', bs'. split; [done|]. split; [done|]. apply (bpe_merge _ _ _ k); [done|]. rewrite <- parts_of_delete; [done|apply V|done].
  - destruct (stale_step p bs s V Hp Hne Hr) as [V' Hl]. apply (IH _ _ V'). unfold work in *. lia.
Qed.

Lemma fill_spec l n f i : (n ≤ length l)%nat → length (fill l n f) = length l ∧ fill l n f !! i = if decide (i < n)%nat then Some (f i) else l !! i.
Proof.
  unfold fill. induction n as [|n IH]; intros Hn; [done|]. destruct IH as [IH1 IH2]; [lia|].
  rewrite seq_S, fold_left_app. cbn [fold_left Nat.add]. split; [by rewrite length_insert|]. destruct (decide (i = n)) as [->|].
  - by rewrite list_lookup_insert_eq, decide_True by lia.
  - rewrite list_lookup_insert_ne, IH2 by done. repeat case_decide; lia || done.
Qed.

Lemma fill_length l n f : (n ≤ length l)%nat → length (fill l n f) = length l.
Proof. intros H. apply (fill_spec l n f 0 H). Qed.

Lemma at_fill l n f i : (n ≤ length l)%nat → at_ (fill l n f) i = if decide (Z.to_nat i < n)%nat then f (Z.to_nat i) else at_ l i.
Proof. intros H. unfold at_. rewrite (proj2 (fill_spec l n f (Z.to_nat i) H)). by case_decide. Qed.

Definition fits (sc : scratch) (n : nat) : Prop :=
  length (sc_next sc) = n ∧ length (sc_prev sc) = n ∧ length (sc_rank sc) = n ∧ sc_heap sc = [].

Lemma large_start_ok p sc : p ≠ [] → fits sc (length p) →
  large_ok p (byte_bounds p) (large_start rank p sc) ∧ (length (l_heap (large_start rank p sc)) ≤ length p - 1)%nat.
Proof.
  intros Hne (F1 & F2 & F3 & F4). assert (1 ≤ length p)%nat as H1 by (destruct p; [done|]; simpl; lia).
  pose (pair := λ i : nat, rank (sub p (Z.of_nat i) (Z.of_nat i + 2))). unfold large_start. set (found := omap _ _). rewrite F4.
  assert (found = omap (λ i, if negb (pair i =? noRank) then Some (pair_entry (pair i) (Z.of_nat i)) else None) (seq 0 (length p - 1))) as Ef by done. cbn [app].
  destruct (heapify_ok found) as [O1 O2]. pose proof (byte_boundaries p) as B. pose proof (byte_bounds_length p) as LB.
  assert (∀ k, (k + 2 < length (byte_bounds p))%nat → pair_at p (byte_bounds p) k = pair k) as HP.
  { intros k Hk. unfold pair_at, pair. rewrite !byte_bound by lia. replace (Z.of_nat (k + 2)) with (Z.of_nat k + 2) by lia. done. }
  assert (∀ e, e ∈ found ↔ ∃ i, (i < length p - 1)%nat ∧ pair i ≠ noRank ∧ e = pair_entry (pair i) (Z.of_nat i)) as HF.
  { intros e. rewrite Ef, list_elem_of_omap. split.
    - intros (i & Hi%elem_of_seq & E). exists i. destruct (Z.eqb_spec (pair i) noRank); [done|]. injection E as <-. split; [lia|done].
    - intros (i & Hi & Hr & ->). exists i. split; [apply elem_of_seq; lia|]. by rewrite (proj2 (Z.eqb_neq _ _)). }
  assert (∀ e, e ∈ heapify found ↔ e ∈ found) as HE by (intros e; split; intros He; [by rewrite <- O2|by rewrite O2]).
  split; [|cbn [l_heap]; rewrite O2; rewrite Ef; etrans; [apply omap_length_le|by rewrite length_seq] ].
  constructor; cbn [l_next l_prev l_rank l_heap l_parts]; rewrite ?LB; unfold size_of.
  - done.
  - rewrite fill_length by lia. lia.
  - rewrite fill_length by lia. lia.
  - rewrite fill_length, put_length by (rewrite ?put_length; lia). lia.
  - intros k Hk. rewrite at_fill, !byte_bound by lia. rewrite decide_True by lia. lia.
  - intros k Hk. rewrite at_fill, byte_bound by lia. rewrite decide_True by lia. rewrite Nat2Z.id. destruct (decide (k = 0%nat)) as [->|]; [done|].
    rewrite byte_bound by lia. lia.
  - intros k Hk. rewrite at_fill, byte_bound by (rewrite ?put_length; lia). rewrite Nat2Z.id. unfold rank_kept. rewrite LB.
    destruct (decide (k < length p - 1)%nat).
    + rewrite decide_True by lia. rewrite HP by lia. done.
    + rewrite decide_False by lia. rewrite at_put by lia. by rewrite (proj2 (Z.eqb_eq _ _)) by lia.
  - intros i Hi Hno. exfalso. apply (Hno (Z.to_nat i)); [lia|]. rewrite byte_bound by lia. lia.
  - done.
  - intros e (i & Hi & Hr & ->)%HE%HF. exists (pair i), (Z.of_nat i). split; [done|]. split; [lia|]. unfold pair in *.
    pose proof (rank_range (sub p (Z.of_nat i) (Z.of_nat i + 2))). lia.
  - intros k Hk Hr. apply HE, HF. exists k. rewrite HP in * by lia. rewrite byte_bound by lia. split; [lia|]. split; [lia|done].
  - lia.
Qed.

Lemma mergeLarge_ok p sc : p ≠ [] → size_of p <= maxPiece → fits sc (length p) →
  ∃ s bs, mergeLarge rank p sc = Some s ∧ large_ok p bs s ∧ bpe rank (singles p) (parts_of p bs).
Proof.
  intros Hne Hp Hf. assert (length p ≠ 0%nat) as H1 by (by destruct p). destruct (large_start_ok p sc Hne Hf) as [V Hl]. rewrite <- byte_parts. apply large_loop_ok; [done|done|].
  unfold work. rewrite byte_bounds_length. lia.
Qed.

(** The chain of parts is walked to its end. *)
Lemma walk_parts_ok p bs s fuel k : large_ok p bs s → (k < length bs)%nat → (length bs ≤ fuel + k + 1)%nat →
  walk_parts rank fuel p (l_next s) (bound bs k) = rank <$> drop k (parts_of p bs).
Proof.
  intros V. revert k. pose proof (lo_bounds _ _ _ V) as B. induction fuel as [|fuel IH]; intros k Hk Hf; cbn [walk_parts].
  { by rewrite drop_ge by (rewrite parts_of_length; lia). }
  destruct (Z.ltb_spec (bound bs k) (size_of p)) as [Hlt|Hge].
  - assert (k + 1 < length bs)%nat as Hk1.
    { destruct (decide (k + 1 < length bs)%nat); [done|]. replace k with (length bs - 1)%nat in Hlt by lia. rewrite (b_last _ _ B) in Hlt. lia. }
    rewrite (lo_next _ _ _ V) by done. rewrite IH by lia. replace (k + 1)%nat with (S k) by lia.
    by rewrite (drop_S (parts_of p bs) _ k (parts_of_lookup p bs k ltac:(lia))).
  - assert (¬ (k + 1 < length bs)%nat) as Hk1.
    { intros H. pose proof (b_sorted _ _ B k (length bs - 1) ltac:(lia) ltac:(lia)) as H1. rewrite (b_last _ _ B) in H1. lia. }
    by rewrite drop_ge by (rewrite parts_of_length; lia).
Qed.
End Large.

(** ** The pool *)

(** The arrays of a scratch are of one length; its heap keeps whatever it held. *)
Definition pooled_ok (sc : scratch) : Prop := length (sc_prev sc) = length (sc_next sc) ∧ length (sc_rank sc) = length (sc_next sc).

Lemma getScratch_fits sc n : pooled_ok sc → (1 ≤ n)%nat → fits (getScratch sc n) n.
Proof.
  intros [P1 P2] Hn. unfold getScratch. destruct (Nat.ltb_spec (length (sc_next sc)) n) as [H|H].
  - assert (n ≤ Z.to_nat (Z.max 256 (Z.shiftl 1 (bits_Len (Z.of_nat n - 1)))))%nat as Hs.
    { rewrite Z.shiftl_1_l. unfold bits_Len. destruct (Z.eqb_spec (Z.of_nat n - 1) 0); [lia|].
      destruct (Z.log2_spec (Z.of_nat n - 1) ltac:(lia)) as [_ H2]. rewrite <- Z.add_1_r in H2. lia. }
    unfold fits. cbn [sc_next sc_prev sc_rank sc_heap]. rewrite !length_take, !length_replicate. split; [lia|]. split; [lia|]. split; [lia|done].
  - unfold fits. cbn [sc_next sc_prev sc_rank sc_heap]. rewrite !length_take. split; [lia|]. split; [lia|]. split; [lia|done].
Qed.
