(* ===== verification/TokenPiece.v ===== *)
(** * Tokens of a piece

    [countPiece] and [appendPiece] ([internal/operations/tokenization/estimate/bpe.go]) over the
    two merge routines: the tokens are those of the definition for any piece that is merged
    whole, a longer piece is cut into chunks, and the bytes are always all kept. *)

From S2P Require Import Prelude Go Source SourceParser TokenVocab TokenVocabFacts TokenHeap TokenMerge TokenMergeFacts TokenLarge.
From Stdlib Require Import Ascii.
Local Open Scope Z_scope.

(** ** Chunks *)

Lemma chunk_from_range tries p n : n <= maxPiece → maxPiece - 4 < n - Z.of_nat tries + 1 →
  maxPiece - 4 < chunk_from tries p n <= maxPiece.
Proof.
  revert n. induction tries as [|tries IH]; intros n Hn Hl; cbn [chunk_from]; [lia|].
  destruct (opt_test _ _); [lia|]. apply IH; lia.
Qed.

Lemma chunkLen_range p : 1 <= chunkLen p <= maxPiece.
Proof.
  pose proof (chunk_from_range UTFMax p maxPiece ltac:(lia) ltac:(unfold UTFMax; lia)) as H. unfold chunkLen.
  change maxPiece with 262144 in *. lia.
Qed.

Lemma chunks_ok fuel p : p ≠ [] → (length p ≤ fuel)%nat →
  concat (chunks fuel p) = p ∧ Forall (λ c, c ≠ [] ∧ size_of c <= maxPiece) (chunks fuel p).
Proof.
  revert p. induction fuel as [|fuel IH]; intros p Hne Hf; [by destruct p; [|simpl in Hf; lia]|]. cbn [chunks].
  rewrite Z.gtb_ltb. destruct (Z.ltb_spec maxPiece (size_of p)) as [Hlt|Hge].
  - pose proof (chunkLen_range p) as R. unfold size_of in Hlt.
    destruct (IH (drop (Z.to_nat (chunkLen p)) p)) as [IH1 IH2].
    { intros E. apply (f_equal length) in E. rewrite length_drop in E. simpl in E. lia. }
    { rewrite length_drop. lia. }
    cbn [concat]. rewrite IH1, take_drop. split; [done|]. constructor; [|done]. unfold size_of. rewrite length_take. split; [|lia].
    intros E. apply (f_equal length) in E. rewrite length_take in E. simpl in E. lia.
  - cbn [concat]. rewrite app_nil_r. split; [done|]. repeat constructor; done.
Qed.

Lemma singles_concat p : concat (singles p) = p.
Proof. unfold singles. induction p as [|x p IH]; [done|]. cbn. by rewrite IH. Qed.

Section Piece.
Context (rank : text → Z) (rank_range : ∀ t, 0 <= rank t <= noRank).
Context (pool : text → scratch) (pool_ok : ∀ t, pooled_ok (pool t)).

Let rank_le : ∀ t, rank t <= noRank := λ t, proj2 (rank_range t).

(** The tokens of a piece merged whole. *)
Lemma large_piece p : p ≠ [] → size_of p <= maxPiece →
  ∃ qs, bpe rank (singles p) qs ∧ countLarge rank pool p = Some (Z.of_nat (length qs)) ∧
    ∀ dst, appendLarge rank pool dst p = Some (dst ++ (rank <$> qs)).
Proof.
  intros Hne Hp. assert (1 ≤ length p)%nat as H1 by (destruct p; [done|]; simpl; lia).
  destruct (mergeLarge_ok rank rank_range p (getScratch (pool p) (length p)) Hne Hp (getScratch_fits _ _ (pool_ok p) H1)) as (s & bs & E & V & Hb).
  exists (parts_of p bs). split; [done|]. unfold countLarge, appendLarge. rewrite E. cbn [fmap option_fmap option_map mbind option_bind].
  pose proof (lo_bounds _ _ _ _ V) as B. pose proof (boundaries_length p bs B) as HL. split.
  - rewrite parts_of_length, (lo_parts _ _ _ _ V). f_equal. lia.
  - intros dst. do 2 f_equal. assert (bound bs 0 = 0) as E0 by (unfold bound; by rewrite (b_first _ _ B)). rewrite <- E0.
    rewrite (walk_parts_ok rank p bs s (length p) 0 V HL); [by rewrite drop_0|].
    (* every part has a byte *)
    assert (∀ k, (k < length bs)%nat → Z.of_nat k <= bound bs k) as Hk.
    { induction k as [|k IH]; intros Hk; [by rewrite E0|]. pose proof (b_sorted _ _ B k (S k) ltac:(lia) Hk). specialize (IH ltac:(lia)). lia. }
    specialize (Hk (length bs - 1)%nat ltac:(lia)). rewrite (b_last _ _ B) in Hk. unfold size_of in Hk. lia.
Qed.

Lemma small_piece p : p ≠ [] → (length p ≤ smallPiece)%nat →
  ∃ qs, bpe rank (singles p) qs ∧ let '(n, bounds) := mergeSmall rank p in
    n = length qs ∧ ((λ i, rank (sub p (bound bounds i) (bound bounds (i + 1)))) <$> seq 0 n) = rank <$> qs.
Proof.
  intros Hne Hl. pose proof (mergeSmall_ok rank rank_le p Hne Hl) as H. destruct (mergeSmall rank p) as [n bounds].
  destruct H as (bs & Ebs & Hn & B & Hb). exists (parts_of p bs). split; [done|].
  assert (length bs = S n) as L by (rewrite Ebs, length_take; lia). split; [rewrite parts_of_length; lia|].
  apply list_eq. intros i. rewrite !list_lookup_fmap. destruct (decide (i < n)%nat) as [Hi|Hi].
  - rewrite lookup_seq_lt, parts_of_lookup by lia. cbn [fmap option_fmap option_map]. do 2 f_equal.
    rewrite Ebs, !take_bound by lia. f_equal. f_equal. lia.
  - rewrite !lookup_ge_None_2; [done|rewrite parts_of_length; lia|rewrite length_seq; lia].
Qed.

Lemma large_pieces cs : (∀ c, rank [c] ≠ noRank) → Forall (λ c, c ≠ [] ∧ size_of c <= maxPiece) cs →
  ∃ qs, concat qs = concat cs ∧ Forall (λ t, rank t ≠ noRank) qs ∧
    (∀ n, fold_left (add_count rank pool) cs (Some n) = Some (n + Z.of_nat (length qs))) ∧
    (∀ dst, fold_left (add_piece rank pool) cs (Some dst) = Some (dst ++ (rank <$> qs))).
Proof.
  intros Hbyte. induction 1 as [|c cs [Hne Hc] _ (qs & E & Hr & Hn & Hd)].
  { exists []. repeat split; try done; intros; cbn [fold_left]; [by rewrite Z.add_0_r|by rewrite app_nil_r]. }
  destruct (large_piece c Hne Hc) as (rs & Hb & Cn & Cd). exists (rs ++ qs). cbn [fold_left concat]. rewrite concat_app, E.
  split; [by rewrite (bpe_concat rank _ _ Hb), singles_concat|]. split.
  { apply Forall_app. split; [|done]. apply (bpe_ranked rank _ _ Hb). unfold singles. apply Forall_fmap, Forall_true. auto. }
  split.
  - intros n. unfold add_count at 2. rewrite Cn. cbn [mbind option_bind]. rewrite Hn, length_app. f_equal. lia.
  - intros dst. unfold add_piece at 2. cbn [mbind option_bind]. rewrite Cd, Hd, fmap_app, app_assoc. done.
Qed.

(** C29. A piece is merged exactly as byte-pair encoding is defined. A piece that is a token is that
    token. Any other piece that is merged whole, whether by scanning an array or with a linked list
    and a heap that keeps stale entries, ends, whatever the pooled arrays held, in the parts that
    merging the leftmost pair of the lowest rank until none is a token gives, of which there is one
    outcome: the count is their number, and the tokens appended are their ranks in order. *)
Theorem piece_merged_exactly p : p ≠ [] → size_of p <= maxPiece →
  if decide (rank p = noRank) then
    ∃ qs, bpe rank (singles p) qs ∧ (∀ qs', bpe rank (singles p) qs' → qs' = qs) ∧
      countPiece rank pool p = Some (Z.of_nat (length qs)) ∧ ∀ dst, appendPiece rank pool dst p = Some (dst ++ (rank <$> qs))
  else countPiece rank pool p = Some 1 ∧ ∀ dst, appendPiece rank pool dst p = Some (dst ++ [rank p]).
Proof.
  intros Hne Hp. unfold countPiece, appendPiece. destruct (Z.eqb_spec (rank p) noRank) as [E|E]; [|by rewrite decide_False].
  rewrite decide_True by done. cbn [negb]. destruct (Nat.leb_spec (length p) smallPiece) as [Hs|Hs].
  - destruct (small_piece p Hne Hs) as (qs & Hb & H). exists qs. split; [done|]. split; [intros; by eapply bpe_unique|].
    destruct (mergeSmall rank p) as [n bounds]. destruct H as [-> ->]. done.
  - destruct (large_piece p Hne Hp) as (qs & Hb & Hc & Hd). exists qs. split; [done|]. split; [intros; by eapply bpe_unique|].
    assert (chunks (length p) p = [p]) as ->.
    { destruct (length p); [done|]. cbn [chunks]. by rewrite Z.gtb_ltb, (proj2 (Z.ltb_ge _ _)). }
    cbn [fold_left add_count add_piece mbind option_bind]. rewrite Hc. done.
Qed.

(** The tokens of any piece are its bytes. *)
Lemma piece_tokens p : p ≠ [] → (∀ c, rank [c] ≠ noRank) →
  ∃ qs, concat qs = p ∧ Forall (λ t, rank t ≠ noRank) qs ∧ countPiece rank pool p = Some (Z.of_nat (length qs)) ∧
    ∀ dst, appendPiece rank pool dst p = Some (dst ++ (rank <$> qs)).
Proof.
  intros Hne Hbyte. unfold countPiece, appendPiece. destruct (Z.eqb_spec (rank p) noRank) as [E|E]; cbn [negb].
  2: { exists [p]. cbn [concat]. rewrite app_nil_r. repeat split; auto. }
  destruct (Nat.leb_spec (length p) smallPiece) as [Hs|Hs].
  - destruct (small_piece p Hne Hs) as (qs & Hb & H). exists qs.
    split; [by rewrite (bpe_concat rank _ _ Hb), singles_concat|]. split.
    { apply (bpe_ranked rank _ _ Hb). unfold singles. apply Forall_fmap, Forall_true. auto. }
    destruct (mergeSmall rank p) as [n bounds]. destruct H as [-> ->]. done.
  - destruct (chunks_ok (length p) p Hne (le_n _)) as [C1 C2]. destruct (large_pieces _ Hbyte C2) as (qs & E1 & E2 & E3 & E4).
    exists qs. rewrite E1, E3. done.
Qed.
End Piece.

(** ** A long run merged with the heap *)

(** Single bytes, [aa] and [aaaa] are tokens. *)
Definition sample_rank (t : text) : Z :=
  match t with
  | [c] => code c
  | _ => if bool_decide (t = txt "aa") then 300 else if bool_decide (t = txt "aaaa") then 301 else noRank
  end.

Lemma sample_rank_range t : 0 <= sample_rank t <= noRank.
Proof.
  assert (∀ r : Z, r = 300 ∨ r = 301 ∨ r = noRank → 0 <= r <= noRank) as H by (intros r [-> | [-> | ->] ]; split; vm_compute; discriminate).
  unfold sample_rank. destruct t as [|c [|d t] ]; [apply H; auto| |].
  - pose proof (code_bound c). change noRank with 4294967295. lia.
  - repeat case_bool_decide; apply H; auto.
Qed.

Definition sample_pool (t : text) : scratch := mkScratch [] [] [] [].

(** Forty-three times [a], too long for [mergeSmall]. *)
Definition sample_run : text := replicate 43 "a"%char.

Lemma piece_merged_exactly_witness :
  countPiece sample_rank sample_pool sample_run = Some 12 ∧
  ∃ qs, bpe sample_rank (singles sample_run) qs ∧ length qs = 12%nat.
Proof.
  pose proof (piece_merged_exactly sample_rank sample_rank_range sample_pool (λ _, conj eq_refl eq_refl) sample_run
    ltac:(discriminate) ltac:(vm_compute; discriminate)) as H.
  assert (sample_rank sample_run = noRank) as Er by (vm_compute; reflexivity). rewrite decide_True in H by exact Er.
  destruct H as (qs & H1 & H2 & H3 & _).
  assert (countPiece sample_rank sample_pool sample_run = Some 12) as Hc by (vm_compute; reflexivity).
  split; [exact Hc|]. exists qs. split; [exact H1|]. rewrite H3 in Hc. injection Hc as Hc. lia.
Defined.
