(* ===== verification/TokenScan.v ===== *)
(** * Splitting text into pieces

    The pre-tokenizers of [internal/operations/tokenization/estimate]: the table of character
    classes ([classes.go]) and the scanners written out from the patterns of the two encodings
    ([scan.go]). A position in the text is kept as the text left to read, and a scanner returns
    the bytes its piece takes. The loops that test for ASCII before they decode a rune look at
    the same class as [look]. *)

From S2P Require Import Prelude Go Source SourceParser TokenVocab.
From Stdlib Require Import Ascii.
Local Open Scope Z_scope.

(** ** Runes *)

Definition RuneError : Z := 0xFFFD.
Definition MaxRune : Z := 0x10FFFF.
Definition RuneSelf : Z := 0x80.

(** [utf8.DecodeRuneInString] of a text that is not empty. *)
Definition decode_rune (s : text) : Z * nat :=
  let cont (b : ascii) (lo hi : Z) := (lo <=? code b) && (code b <=? hi) in
  let low (b : ascii) := Z.land (code b) 0x3F in
  match s with
  | [] => (RuneError, 0%nat)
  | a :: rest =>
      let x := code a in
      if x <? 0x80 then (x, 1%nat)
      else match rest with
      | [] => (RuneError, 1%nat)
      | b :: rest =>
          if (0xC2 <=? x) && (x <=? 0xDF) then
            if cont b 0x80 0xBF then (Z.lor (Z.shiftl (Z.land x 0x1F) 6) (low b), 2%nat) else (RuneError, 1%nat)
          else match rest with
          | [] => (RuneError, 1%nat)
          | c :: rest =>
              let three := (Z.lor (Z.lor (Z.shiftl (Z.land x 0x0F) 12) (Z.shiftl (low b) 6)) (low c), 3%nat) in
              if (0xE0 <=? x) && (x <=? 0xEF) then
                if (if x =? 0xE0 then cont b 0xA0 0xBF else if x =? 0xED then cont b 0x80 0x9F else cont b 0x80 0xBF) && cont c 0x80 0xBF
                then three else (RuneError, 1%nat)
              else match rest with
              | [] => (RuneError, 1%nat)
              | d :: _ =>
                  if (0xF0 <=? x) && (x <=? 0xF4) then
                    if (if x =? 0xF0 then cont b 0x90 0xBF else if x =? 0xF4 then cont b 0x80 0x8F else cont b 0x80 0xBF) &&
                       cont c 0x80 0xBF && cont d 0x80 0xBF
                    then (Z.lor (Z.lor (Z.lor (Z.shiftl (Z.land x 0x07) 18) (Z.shiftl (low b) 12)) (Z.shiftl (low c) 6)) (low d), 4%nat)
                    else (RuneError, 1%nat)
                  else (RuneError, 1%nat)
              end
          end
      end
  end.

(** ** Classes *)

Definition cUpper : Z := 1.
Definition cLower : Z := 2.
Definition cLetter : Z := 4.
Definition cNumber : Z := 8.
Definition cSpace : Z := 16.

(** A range of [unicode.RangeTable]: its bounds and stride. *)
Record range := mkRange { Lo : Z; Hi : Z; Stride : Z }.

Record classTable := mkClassTable { t_ascii : list Z; t_index : list Z; t_blocks : list (list Z) }.

Definition block_at (t : classTable) (b : Z) : list Z := default [] (t_blocks t !! Z.to_nat b).

Definition set (t : classTable) (r bits : Z) : classTable :=
  let page := Z.shiftr r 8 in
  let b := at_ (t_index t) page in
  let '(index, blocks, b) :=
    if b =? 0 then
      let blocks := t_blocks t ++ [replicate 256 0] in
      let b := (Z.of_nat (length blocks) - 1) mod 2 ^ 16 in
      (put_ (t_index t) page b, blocks, b)
    else (t_index t, t_blocks t, b) in
  let block := default [] (blocks !! Z.to_nat b) in
  mkClassTable (t_ascii t) index (<[Z.to_nat b := put_ block (Z.land r 0xff) (Z.lor (at_ block (Z.land r 0xff)) bits)]> blocks).

Definition class (t : classTable) (r : Z) : Z :=
  if MaxRune <? r mod 2 ^ 32 then 0
  else at_ (block_at t (at_ (t_index t) (Z.shiftr r 8))) (Z.land r 0xff).

(** The code points of a range, from [cp] on. *)
Fixpoint set_range (fuel : nat) (t : classTable) (cp : Z) (r : range) (bits : Z) : classTable :=
  match fuel with
  | O => t
  | S fuel => if cp <=? Hi r then set_range fuel (set t cp bits) (cp + Stride r) r bits else t
  end.

Definition set_ranges (t : classTable) (rs : list range) (bits : Z) : classTable :=
  fold_left (λ t r, set_range (Z.to_nat (Hi r - Lo r + 1)) t (Lo r) r bits) rs t.

(** The range tables of package [unicode] the code names, each its 16-bit ranges and then its
    32-bit ones. *)
Record unicode := mkUnicode {
  unicode_Lu : list range; unicode_Lt : list range; unicode_Ll : list range; unicode_Lm : list range; unicode_Lo : list range;
  unicode_M : list range; unicode_N : list range; unicode_White_Space : list range;
}.

Definition categories (u : unicode) : list (list range * Z) :=
  [(unicode_Lu u, Z.lor cUpper cLetter); (unicode_Lt u, Z.lor cUpper cLetter); (unicode_Ll u, Z.lor cLower cLetter);
   (unicode_Lm u, Z.lor (Z.lor cUpper cLower) cLetter); (unicode_Lo u, Z.lor (Z.lor cUpper cLower) cLetter);
   (unicode_M u, Z.lor cUpper cLower); (unicode_N u, cNumber); (unicode_White_Space u, cSpace)].

Definition no_classes : classTable :=
  mkClassTable (replicate 128 0) (replicate (Z.to_nat (Z.shiftr MaxRune 8 + 1)) 0) [replicate 256 0].

Definition classes (u : unicode) : classTable :=
  let t := fold_left (λ t c, set_ranges t c.1 c.2) (categories u) no_classes in
  mkClassTable ((λ r, class t (Z.of_nat r)) <$> seq 0 128) (t_index t) (t_blocks t).

(** [look]: the classes and width of the rune at the start of the text. *)
Definition look (t : classTable) (s : text) : Z * nat :=
  match s with
  | [] => (0, 0%nat)
  | b :: _ => if code b <? RuneSelf then (at_ (t_ascii t) (code b), 1%nat) else let '(r, w) := decode_rune s in (class t r, w)
  end.

Definition carries (c mask : Z) : bool := negb (Z.land c mask =? 0).

Section Scan.
Context (t : classTable).

(** The bytes of the longest run whose classes pass a test. *)
Fixpoint run_while (p : Z → bool) (fuel : nat) (s : text) : nat :=
  match fuel, s with
  | S fuel, _ :: _ => let '(c, w) := look t s in if p c then (w + run_while p fuel (drop w s))%nat else 0%nat
  | _, _ => 0%nat
  end.

Definition run (s : text) (mask : Z) : nat := run_while (λ c, carries c mask) (length s) s.
Definition skip (s : text) (mask : Z) : nat := run_while (λ c, negb (carries c mask)) (length s) s.

Definition first_is (s : text) (z : Z) : bool := match s with b :: _ => code b =? z | [] => false end.

(** ** Scanners *)

Definition contraction (s : text) : nat :=
  match s with
  | [] => 0%nat
  | a :: rest =>
      let a := code a in
      if Contains [0x73; 0x53; 0x64; 0x44; 0x6D; 0x4D; 0x74; 0x54] a then 1%nat
      else if Contains [0x6C; 0x4C] a then if first_is rest 0x6C || first_is rest 0x4C then 2%nat else 0%nat
      else if Contains [0x76; 0x56; 0x72; 0x52] a then if first_is rest 0x65 || first_is rest 0x45 then 2%nat else 0%nat
      else if a =? 0xC5 then if first_is rest 0xBF then 2%nat else 0%nat
      else 0%nat
  end.

Definition punctuationEnd (s : text) : option nat :=
  let j := if first_is s 0x20 then 1%nat else 0%nat in
  match skip (drop j s) (Z.lor (Z.lor cSpace cLetter) cNumber) with
  | O => None
  | n => Some (j + n)%nat
  end.

Definition is_break (s : text) : bool := first_is s 0x0A || first_is s 0x0D.

(** The loop of [whitespace]: the end of the run, the end of its last line break and the start
    of its last rune. *)
Fixpoint whitespace_loop (fuel : nat) (s : text) (e : nat) (lineBreak : option nat) (last : nat) : nat * option nat * nat * text :=
  match fuel, s with
  | S fuel, _ :: _ =>
      let '(c, w) := look t s in
      if carries c cSpace
      then whitespace_loop fuel (drop w s) (e + w) (if is_break s then Some (e + 1)%nat else lineBreak) e
      else (e, lineBreak, last, s)
  | _, _ => (e, lineBreak, last, s)
  end.

Definition whitespace (s : text) (atEnd : bool) : nat :=
  let '(e, lineBreak, last, rest) := whitespace_loop (length s) s 0 None 0 in
  match rest, lineBreak with
  | [], _ => if atEnd then e else default e lineBreak
  | _, Some b => b
  | _, None => if Nat.ltb 0 last then last else e
  end.

(** At most [n] runes that are numbers. *)
Fixpoint digits_end (n : nat) (s : text) : nat :=
  match n, s with
  | S n, _ :: _ => let '(c, w) := look t s in if carries c cNumber then (w + digits_end n (drop w s))%nat else 0%nat
  | _, _ => 0%nat
  end.

(** The bytes at the start that are among some. *)
Fixpoint bytes_while (set : list Z) (s : text) : nat :=
  match s with b :: rest => if Contains set (code b) then S (bytes_while set rest) else 0%nat | [] => 0%nat end.

Definition not_break (s : text) : bool := negb (first_is s 0x0D) && negb (first_is s 0x0A).

(** The alternatives the two scanners share, from the numbers on. *)
Definition scan_rest (breaks : list Z) (atEnd : bool) (s : text) : nat :=
  let '(c, w) := look t s in
  if carries c cNumber then digits_end 3 s
  else match punctuationEnd s with
  | Some e => (e + bytes_while breaks (drop e s))%nat
  | None => if carries c cSpace then whitespace s atEnd else w
  end.

Definition scanCL100k (s : text) : nat :=
  let '(c, w) := look t s in
  let n := if first_is s 0x27 then contraction (drop 1 s) else 0%nat in
  if Nat.ltb 0 n then (1 + n)%nat
  else
    let j := if negb (carries c (Z.lor cLetter cNumber)) && not_break s then w else 0%nat in
    let rest := drop j s in
    if match rest with [] => false | _ => carries (look t rest).1 cLetter end then (j + run rest cLetter)%nat
    else scan_rest [0x0A; 0x0D] true s.

Definition withContraction (s : text) (e : nat) : nat :=
  let rest := drop e s in
  if first_is rest 0x27 then let n := contraction (drop 1 rest) in if Nat.ltb 0 n then (e + 1 + n)%nat else e else e.

(** The loop of [mixedCase]: the end of the run of the first class, and of its last rune that is
    in both. *)
Fixpoint mixed_loop (fuel : nat) (s : text) (e : nat) (shared : option nat) : nat * option nat * text :=
  match fuel, s with
  | S fuel, _ :: _ =>
      let '(c, w) := look t s in
      if carries c cUpper then mixed_loop fuel (drop w s) (e + w) (if carries c cLower then Some (e + w)%nat else shared)
      else (e, shared, s)
  | _, _ => (e, shared, s)
  end.

Definition mixedCase (s : text) : option nat :=
  let '(e, shared, rest) := mixed_loop (length s) s 0 None in
  if match rest with [] => false | _ => carries (look t rest).1 cLower end then Some (e + run rest cLower)%nat else shared.

Definition upperFirst (s : text) : option nat :=
  let e := run s cUpper in
  match e with O => None | _ => Some (e + run (drop e s) cLower)%nat end.

(** A word that starts at byte [i], if the flag allows it and it matches. *)
Definition word_at (allowed : bool) (match_word : text → option nat) (s : text) (i : nat) : option nat :=
  if allowed then match match_word (drop i s) with Some e => Some (withContraction s (i + e)) | None => None end else None.

Definition scanO200k (s : text) : nat :=
  let '(c, w) := look t s in
  let prefix := negb (carries c (Z.lor cLetter cNumber)) && not_break s in
  let word := carries c (Z.lor cUpper cLower) in
  match word_at prefix mixedCase s w with
  | Some e => e
  | None =>
      match word_at word mixedCase s 0 with
      | Some e => e
      | None =>
          match word_at prefix upperFirst s w with
          | Some e => e
          | None => match word_at word upperFirst s 0 with Some e => e | None => scan_rest [0x0A; 0x0D; 0x2F] false s end
          end
      end
  end.
End Scan.
