(* ===== verification/TokenRegex.v ===== *)
(** * The patterns of the encodings

    The regular expressions that split text for [cl100k_base] and [o200k_base], as the comments of
    [internal/operations/tokenization/estimate/scan.go] quote them, with the meaning a backtracking
    engine gives them: alternatives in order, greedy repetition that gives runes back, possessive
    repetition that does not, lookahead and the end of the text. The scanners are proved to find the
    match such an engine finds first. *)

From S2P Require Import Prelude Go Source SourceParser TokenVocab TokenVocabFacts TokenScan.
From Stdlib Require Import Ascii.
Local Open Scope Z_scope.
Local Open Scope olp_scope.

(** ** Expressions *)

Inductive regex :=
  | Rune (p : Z → bool) | Many (p : Z → bool) | Seq (a b : regex) | Alt (a b : regex) | Empty
  | Atomic (a : regex) | AtEnd | NotFollowed (p : Z → bool).

Definition advance (w : nat) (o : option nat) : option nat := (λ n, (w + n)%nat) <$> o.

(** Greedy repetition: the most runes first, and one fewer each time the rest fails. *)
Fixpoint many (p : Z → bool) (k : text → option nat) (fuel : nat) (s : text) : option nat :=
  match fuel, s with
  | S fuel, _ :: _ => let '(r, w) := decode_rune s in if p r then advance w (many p k fuel (drop w s)) <|> k s else k s
  | _, _ => k s
  end.

(** The first match at the start of a text after which the rest, [k], matches: its width. *)
Fixpoint find (e : regex) (s : text) (k : text → option nat) : option nat :=
  match e with
  | Rune p => match s with [] => None | _ => let '(r, w) := decode_rune s in if p r then advance w (k (drop w s)) else None end
  | Many p => many p k (length s) s
  | Seq a b => find a s (λ s, find b s k)
  | Alt a b => find a s k <|> find b s k
  | Empty => k s
  | Atomic a => match find a s (λ _, Some 0%nat) with Some w => advance w (k (drop w s)) | None => None end
  | AtEnd => match s with [] => k s | _ => None end
  | NotFollowed p => match s with [] => k s | _ => if p (decode_rune s).1 then None else k s end
  end.

Definition first_match (e : regex) (s : text) : option nat := find e s (λ _, Some 0%nat).

Definition maybe (a : regex) : regex := Alt a Empty.
Definition plus (p : Z → bool) : regex := Seq (Rune p) (Many p).
Definition is_rune (z r : Z) : bool := r =? z.

(** A letter with the case folded; [s] is also what U+017F folds to. *)
Definition folds (z r : Z) : bool := (r =? z) || (r =? z - 32) || ((z =? 0x73) && (r =? 0x17F)).

Section Patterns.
Context (t : classTable).

Definition has (mask r : Z) : bool := carries (class t r) mask.
Definition lacks (mask r : Z) : bool := negb (carries (class t r) mask).
Definition is_newline (r : Z) : bool := (r =? 0x0A) || (r =? 0x0D).
Definition leading (r : Z) : bool := lacks (Z.lor cLetter cNumber) r && negb (is_newline r).
Definition symbol : Z → bool := lacks (Z.lor (Z.lor cSpace cLetter) cNumber).
Definition up_to_three (p : Z → bool) : regex := Seq (Rune p) (maybe (Seq (Rune p) (maybe (Rune p)))).

(** ['(?i:[sdmt]|ll|ve|re)|[^\r\n\p{L}\p{N}]?+\p{L}++|\p{N}{1,3}+| ?[^\s\p{L}\p{N}]++[\r\n]*+|\s++$|\s*[\r\n]|\s+(?!\S)|\s] *)
Definition cl100k : regex :=
  Alt (Seq (Rune (is_rune 0x27))
        (Alt (Rune (λ r, folds 0x73 r || folds 0x64 r || folds 0x6D r || folds 0x74 r))
          (Alt (Seq (Rune (folds 0x6C)) (Rune (folds 0x6C)))
            (Alt (Seq (Rune (folds 0x76)) (Rune (folds 0x65))) (Seq (Rune (folds 0x72)) (Rune (folds 0x65)))))))
  (Alt (Seq (Atomic (maybe (Rune leading))) (Atomic (plus (has cLetter))))
  (Alt (Atomic (up_to_three (has cNumber)))
  (Alt (Seq (maybe (Rune (is_rune 0x20))) (Seq (Atomic (plus symbol)) (Atomic (Many is_newline))))
  (Alt (Seq (Atomic (plus (has cSpace))) AtEnd)
  (Alt (Seq (Many (has cSpace)) (Rune is_newline))
  (Alt (Seq (plus (has cSpace)) (NotFollowed (lacks cSpace))) (Rune (has cSpace)))))))).

(** [(?i:'s|'t|'re|'ve|'m|'ll|'d)] *)
Definition contractions : regex :=
  let after (e : regex) := Seq (Rune (is_rune 0x27)) e in
  Alt (after (Rune (folds 0x73))) (Alt (after (Rune (folds 0x74))) (Alt (after (Seq (Rune (folds 0x72)) (Rune (folds 0x65))))
    (Alt (after (Seq (Rune (folds 0x76)) (Rune (folds 0x65)))) (Alt (after (Rune (folds 0x6D)))
      (Alt (after (Seq (Rune (folds 0x6C)) (Rune (folds 0x6C)))) (after (Rune (folds 0x64)))))))).

(** The pattern of [o200k_base], alternative by alternative. *)
Definition o200k : regex :=
  Alt (Seq (maybe (Rune leading)) (Seq (Many (has cUpper)) (Seq (plus (has cLower)) (maybe contractions))))
  (Alt (Seq (maybe (Rune leading)) (Seq (plus (has cUpper)) (Seq (Many (has cLower)) (maybe contractions))))
  (Alt (up_to_three (has cNumber))
  (Alt (Seq (maybe (Rune (is_rune 0x20))) (Seq (plus symbol) (Many (λ r, is_newline r || (r =? 0x2F)))))
  (Alt (Seq (Many (has cSpace)) (plus is_newline))
  (Alt (Seq (plus (has cSpace)) (NotFollowed (lacks cSpace))) (plus (has cSpace))))))).
End Patterns.

(** ** Runes *)

Lemma decode_width s : s ≠ [] → (1 ≤ (decode_rune s).2 ≤ length s)%nat.
Proof.
  unfold decode_rune. destruct s as [|a [|b [|c [|d s] ] ] ]; [done|..]; intros _; repeat (case_match; try done); simpl; lia.
Qed.

(** A rune of one byte is that byte. *)
Lemma decode_low a s : code a < 0x80 → decode_rune (a :: s) = (code a, 1%nat).
Proof. intros H. unfold decode_rune. by rewrite (proj2 (Z.ltb_lt _ _)). Qed.

Lemma low_bits b : Z.land (code b) 0x3F = code b mod 64.
Proof. change 0x3F with (Z.ones 6). by rewrite Z.land_ones. Qed.

Lemma lor2 a b : 0 <= b < 64 → Z.lor (Z.shiftl a 6) b = a * 64 + b.
Proof. intros. by rewrite lor_shiftl_add by lia. Qed.

Lemma lor3 a b c : 0 <= b < 64 → 0 <= c < 64 → Z.lor (Z.lor (Z.shiftl a 12) (Z.shiftl b 6)) c = a * 4096 + b * 64 + c.
Proof.
  intros Hb Hc. replace (Z.shiftl a 12) with (Z.shiftl (Z.shiftl a 6) 6) by (rewrite Z.shiftl_shiftl; [done|lia]).
  rewrite <- Z.shiftl_lor, lor2, lor2 by lia. lia.
Qed.

Lemma lor4 a b c d : 0 <= b < 64 → 0 <= c < 64 → 0 <= d < 64 →
  Z.lor (Z.lor (Z.lor (Z.shiftl a 18) (Z.shiftl b 12)) (Z.shiftl c 6)) d = a * 262144 + b * 4096 + c * 64 + d.
Proof.
  intros Hb Hc Hd. replace (Z.shiftl a 18) with (Z.shiftl (Z.shiftl a 12) 6) by (rewrite Z.shiftl_shiftl; [done|lia]).
  replace (Z.shiftl b 12) with (Z.shiftl (Z.shiftl b 6) 6) by (rewrite Z.shiftl_shiftl; [done|lia]).
  rewrite <- !Z.shiftl_lor, lor2, lor3 by lia. lia.
Qed.

(** The runes of several bytes are not ASCII, and one of them has the bytes of U+017F. *)
Lemma decode_high a s : 0x80 <= code a → let '(r, w) := decode_rune (a :: s) in
  0x80 <= r ∧ (r = 0x17F ↔ code a = 0xC5 ∧ ∃ b s', s = b :: s' ∧ code b = 0xBF) ∧ (r = 0x17F → w = 2%nat).
Proof.
  intros H. unfold decode_rune. rewrite (proj2 (Z.ltb_ge _ _)) by done. pose proof (code_bound a) as Ba. unfold RuneError.
  destruct s as [|b s]; [split; [lia|]; split; [split; [lia|naive_solver]|lia]|]. pose proof (code_bound b) as Bb.
  assert (0 <= code b mod 64 < 64) as Mb by (apply Z.mod_pos_bound; lia). rewrite !low_bits.
  assert (∀ x, 0x80 <= x <= 0xBF → x mod 64 = x - 0x80) as Hm by (intros; Z.to_euclidean_division_equations; lia).
  destruct (_ && _) eqn:E2; [split_bools; bool_to_prop|].
  { destruct (_ && _) eqn:E3; [split_bools; bool_to_prop|].
    - rewrite lor2 by lia. rewrite Hm by lia. change 0x1F with (Z.ones 5). rewrite Z.land_ones by lia. change (2 ^ 5) with 32.
      assert (code a mod 32 = code a - 0xC0) as -> by (Z.to_euclidean_division_equations; lia). split; [lia|]. split; [|done]. split.
      + intros Er. split; [lia|]. exists b, s. split; [done|lia].
      + intros (? & b' & s' & [= <- <-] & ?). lia.
    - split; [lia|]. split; [|lia]. split; [lia|]. intros (? & b' & s' & [= <- <-] & Eb). exfalso. rewrite Eb in E3. by vm_compute in E3. }
  assert (code a ≠ 0xC5) as Hn by (intros Ea; rewrite Ea in E2; by vm_compute in E2). clear E2.
  assert (∀ r w, 0x180 <= r → 0x80 <= r ∧ (r = 0x17F ↔ code a = 0xC5 ∧ ∃ b' s', b :: s = b' :: s' ∧ code b' = 0xBF) ∧ (r = 0x17F → w = 2%nat)) as Big.
  { intros r w Hr. split; [lia|]. split; [split; [lia|naive_solver]|lia]. }
  destruct s as [|c s]; [by apply Big|]. pose proof (code_bound c). rewrite !low_bits. assert (0 <= code c mod 64 < 64) as Mc by (apply Z.mod_pos_bound; lia).
  destruct (_ && _) eqn:E3; [split_bools; bool_to_prop|].
  { destruct (_ && _) eqn:E4; [|by apply Big]. apply Big. rewrite lor3 by lia. change 0x0F with (Z.ones 4). rewrite Z.land_ones by lia. change (2 ^ 4) with 16.
    assert (code a mod 16 = code a - 0xE0) as -> by (Z.to_euclidean_division_equations; lia).
    apply andb_true_iff in E4 as [E4 _]. destruct (Z.eqb_spec (code a) 0xE0); [split_bools; bool_to_prop; rewrite Hm by lia; lia|lia]. }
  clear E3. destruct s as [|d s]; [by apply Big|]. pose proof (code_bound d). rewrite !low_bits. assert (0 <= code d mod 64 < 64) as Md by (apply Z.mod_pos_bound; lia).
  destruct (_ && _) eqn:E4; [split_bools; bool_to_prop|by apply Big].
  destruct (_ && _) eqn:E5; [|by apply Big]. apply Big. rewrite lor4 by lia. change 0x07 with (Z.ones 3). rewrite Z.land_ones by lia. change (2 ^ 3) with 8.
  assert (code a mod 8 = code a - 0xF0) as -> by (Z.to_euclidean_division_equations; lia).
  apply andb_true_iff in E5 as [E5 _]. apply andb_true_iff in E5 as [E5 _].
  destruct (Z.eqb_spec (code a) 0xF0); [split_bools; bool_to_prop; rewrite Hm by lia; lia|lia].
Qed.

(** What is decoded is a code point. *)
Lemma decode_code_point s : 0 <= (decode_rune s).1 <= MaxRune.
Proof.
  unfold decode_rune, RuneError, MaxRune. destruct s as [|a s]; [cbn; lia|]. pose proof (code_bound a).
  destruct (Z.ltb_spec (code a) 0x80); [cbn; lia|]. destruct s as [|b s]; [cbn; lia|]. rewrite !low_bits.
  assert (∀ x, 0 <= x mod 64 < 64) as M by (intros; apply Z.mod_pos_bound; lia). pose proof (M (code b)).
  assert (∀ x, 0x80 <= x <= 0xBF → x mod 64 = x - 0x80) as Hm by (intros; Z.to_euclidean_division_equations; lia).
  destruct (_ && _).
  { destruct (_ && _); cbn [fst]; [|lia]. rewrite lor2 by lia. change 0x1F with (Z.ones 5). rewrite Z.land_ones by lia. pose proof (Z.mod_pos_bound (code a) (2 ^ 5) ltac:(lia)). lia. }
  destruct s as [|c s]; [cbn; lia|]. rewrite !low_bits. pose proof (M (code c)). destruct (_ && _).
  { destruct (_ && _); cbn [fst]; [|lia]. rewrite lor3 by lia. change 0x0F with (Z.ones 4). rewrite Z.land_ones by lia. pose proof (Z.mod_pos_bound (code a) (2 ^ 4) ltac:(lia)). lia. }
  destruct s as [|d s]; [cbn; lia|]. rewrite !low_bits. pose proof (M (code d)). destruct ((0xF0 <=? code a) && _) eqn:E4; [split_bools; bool_to_prop|cbn; lia].
  destruct (_ && _) eqn:E5; cbn [fst]; [|lia]. rewrite lor4 by lia. change 0x07 with (Z.ones 3). rewrite Z.land_ones by lia. change (2 ^ 3) with 8.
  assert (code a mod 8 = code a - 0xF0) as -> by (Z.to_euclidean_division_equations; lia).
  apply andb_true_iff in E5 as [E5 _]. apply andb_true_iff in E5 as [E5 _].
  destruct (Z.eqb_spec (code a) 0xF0); [lia|]. destruct (Z.eqb_spec (code a) 0xF4); [split_bools; bool_to_prop; rewrite (Hm (code b)) by lia; lia|lia].
Qed.

(** A rune that is ASCII is the first byte. *)
Lemma rune_is s z : 0 <= z < 0x80 → s ≠ [] → ((decode_rune s).1 =? z) = first_is s z ∧ (first_is s z = true → (decode_rune s).2 = 1%nat).
Proof.
  intros Hz Hs. destruct s as [|a s]; [done|]. cbn [first_is]. destruct (Z.lt_ge_cases (code a) 0x80) as [H|H].
  - by rewrite decode_low.
  - pose proof (decode_high a s H) as D. destruct (decode_rune (a :: s)) as [r w]. destruct D as (D & _). cbn [fst snd].
    rewrite !(proj2 (Z.eqb_neq _ _)) by lia. done.
Qed.

(** ** Runs *)

Fixpoint runes (p : Z → bool) (fuel : nat) (s : text) : nat :=
  match fuel, s with
  | S fuel, _ :: _ => let '(r, w) := decode_rune s in if p r then (w + runes p fuel (drop w s))%nat else 0%nat
  | _, _ => 0%nat
  end.

(** The bytes of the longest run of runes that pass a test. *)
Definition run_of (p : Z → bool) (s : text) : nat := runes p (length s) s.

Lemma runes_fuel p fuel fuel' s : (length s ≤ fuel)%nat → (length s ≤ fuel')%nat → runes p fuel s = runes p fuel' s.
Proof.
  revert fuel' s. induction fuel as [|fuel IH]; intros fuel' s H H'; [destruct s; [by destruct fuel'|simpl in H; lia]|].
  destruct s as [|a s]; [by destruct fuel'|]. destruct fuel' as [|fuel']; [simpl in H'; lia|]. cbn [runes].
  pose proof (decode_width (a :: s) ltac:(done)) as W. destruct (decode_rune (a :: s)) as [r w]. cbn [snd] in W. destruct (p r); [|done]. f_equal.
  apply IH; rewrite length_drop; lia.
Qed.

Lemma run_of_cons p s : s ≠ [] → run_of p s = let '(r, w) := decode_rune s in if p r then (w + run_of p (drop w s))%nat else 0%nat.
Proof.
  intros Hs. unfold run_of. destruct s as [|a s]; [done|]. cbn [length runes]. pose proof (decode_width (a :: s) ltac:(done)) as W.
  destruct (decode_rune (a :: s)) as [r w]. cbn [snd length] in W. destruct (p r); [|done]. f_equal. apply runes_fuel; rewrite length_drop; cbn [length]; lia.
Qed.

Lemma many_fuel p k fuel fuel' s : (length s ≤ fuel)%nat → (length s ≤ fuel')%nat → many p k fuel s = many p k fuel' s.
Proof.
  revert fuel' s. induction fuel as [|fuel IH]; intros fuel' s H H'; [destruct s; [by destruct fuel'|simpl in H; lia]|].
  destruct s as [|a s]; [by destruct fuel'|]. destruct fuel' as [|fuel']; [simpl in H'; lia|]. cbn [many].
  pose proof (decode_width (a :: s) ltac:(done)) as W. destruct (decode_rune (a :: s)) as [r w]. cbn [snd] in W. destruct (p r); [|done].
  rewrite (IH fuel' (drop w (a :: s))); [done|rewrite length_drop; lia..].
Qed.

Lemma find_many_nil p k : find (Many p) [] k = k [].
Proof. done. Qed.

Lemma find_many p s k : s ≠ [] →
  find (Many p) s k = let '(r, w) := decode_rune s in if p r then advance w (find (Many p) (drop w s) k) <|> k s else k s.
Proof.
  intros Hs. cbn [find]. destruct s as [|a s]; [done|]. cbn [length many]. pose proof (decode_width (a :: s) ltac:(done)) as W.
  destruct (decode_rune (a :: s)) as [r w]. cbn [snd length] in W. destruct (p r); [|done].
  rewrite (many_fuel p k (length s) (length (drop w (a :: s)))); [done|rewrite length_drop; cbn [length]; lia|done].
Qed.

Lemma find_rune p s k : s ≠ [] → find (Rune p) s k = let '(r, w) := decode_rune s in if p r then advance w (k (drop w s)) else None.
Proof. intros Hs. by destruct s. Qed.

(** Induction on a text by its runes. *)
Lemma rune_ind (P : text → Prop) : P [] → (∀ s, s ≠ [] → P (drop (decode_rune s).2 s) → P s) → ∀ s, P s.
Proof.
  intros H0 H s. induction s as [s IH] using (induction_ltof1 _ (@length ascii)). unfold ltof in IH. destruct s as [|a s]; [done|]. apply H; [done|].
  apply IH. pose proof (decode_width (a :: s) ltac:(done)). rewrite length_drop. lia.
Qed.

Lemma advance_add v w o : advance v (advance w o) = advance (v + w) o.
Proof. destruct o; cbn; [f_equal; lia|done]. Qed.

Lemma advance_0 o : advance 0 o = o.
Proof. by destruct o. Qed.

Definition total (k : text → option nat) : Prop := ∀ s, is_Some (k s).

(** What follows always matches, so the longest run is taken. *)
Lemma many_total p s k : total k → find (Many p) s k = advance (run_of p s) (k (drop (run_of p s) s)).
Proof.
  intros Hk. induction s as [|s Hs IH] using rune_ind; [cbn; by rewrite advance_0|]. rewrite find_many, run_of_cons by done.
  destruct (decode_rune s) as [r w]. cbn [snd] in IH. destruct (p r); [|by rewrite advance_0]. rewrite IH, advance_add, drop_drop.
  destruct (Hk (drop (w + run_of p (drop w s)) s)) as [v ->]. done.
Qed.

Lemma plus_total p s k : total k → s ≠ [] →
  find (plus p) s k = if p (decode_rune s).1 then advance (run_of p s) (k (drop (run_of p s) s)) else None.
Proof.
  intros Hk Hs. cbn [find plus]. change (find (Rune p) s (λ s, find (Many p) s k) = if p (decode_rune s).1 then advance (run_of p s) (k (drop (run_of p s) s)) else None).
  rewrite find_rune, run_of_cons by done. destruct (decode_rune s) as [r w]. cbn [fst]. destruct (p r); [|done].
  by rewrite many_total, advance_add, drop_drop.
Qed.

Lemma plus_nil p k : find (plus p) [] k = None.
Proof. done. Qed.

Definition fin : text → option nat := λ _, Some 0%nat.

Lemma fin_total : total fin.
Proof. intros s. by eexists. Qed.

Lemma atomic_plus p s k : s ≠ [] →
  find (Atomic (plus p)) s k = if p (decode_rune s).1 then advance (run_of p s) (k (drop (run_of p s) s)) else None.
Proof.
  intros Hs. change (find (Atomic (plus p)) s k) with (match find (plus p) s fin with Some w => advance w (k (drop w s)) | None => None end).
  rewrite plus_total by (done || apply fin_total). destruct (p _); [|done]. cbn. by rewrite Nat.add_0_r.
Qed.

Lemma atomic_many p s k : find (Atomic (Many p)) s k = advance (run_of p s) (k (drop (run_of p s) s)).
Proof.
  change (find (Atomic (Many p)) s k) with (match find (Many p) s fin with Some w => advance w (k (drop w s)) | None => None end).
  rewrite many_total by apply fin_total. cbn. by rewrite Nat.add_0_r.
Qed.

(** The run ends at the end of the text or before a rune that does not pass. *)
Lemma run_of_stop p s : drop (run_of p s) s = [] ∨ p (decode_rune (drop (run_of p s) s)).1 = false.
Proof.
  induction s as [|s Hs IH] using rune_ind; [by left|]. rewrite run_of_cons by done. destruct (decode_rune s) as [r w] eqn:E. cbn [snd] in IH.
  destruct (p r) eqn:Ep; [by rewrite <- drop_drop|]. right. by rewrite drop_0, E.
Qed.

Lemma run_of_0 p s : s ≠ [] → run_of p s = 0%nat ↔ p (decode_rune s).1 = false.
Proof.
  intros Hs. rewrite run_of_cons by done. pose proof (decode_width s Hs) as W. destruct (decode_rune s) as [r w]. cbn [fst snd] in *. destruct (p r); split; try done. lia.
Qed.

(** ** Matches are in the text *)

Definition within (k : text → option nat) : Prop := ∀ s n, k s = Some n → (n ≤ length s)%nat.

Lemma advance_within w s k n : within k → (w ≤ length s)%nat → advance w (k (drop w s)) = Some n → (w ≤ n ≤ length s)%nat.
Proof.
  intros Hk Hw H. destruct (k (drop w s)) as [m|] eqn:E; [|done]. injection H as <-. apply Hk in E. rewrite length_drop in E. lia.
Qed.

Lemma many_within p k : within k → within (λ s, find (Many p) s k).
Proof.
  intros Hk s. induction s as [|s Hs IH] using rune_ind; intros n H; [by apply Hk in H|]. rewrite find_many in H by done.
  pose proof (decode_width s Hs) as W. destruct (decode_rune s) as [r w]. cbn [snd] in *. destruct (p r); [|by apply Hk].
  destruct (find (Many p) (drop w s) k) as [m|]; [|by apply Hk]. injection H as <-. specialize (IH m eq_refl). rewrite length_drop in IH. lia.
Qed.

Lemma find_within e k : within k → within (λ s, find e s k).
Proof.
  revert k. induction e as [p|p|a IHa b IHb|a IHa b IHb| |a IHa| |p]; intros k Hk s n H.
  - destruct s as [|c s]; [done|]. rewrite find_rune in H by done. pose proof (decode_width (c :: s) ltac:(done)) as W. destruct (decode_rune (c :: s)) as [r w]. cbn [snd] in W.
    destruct (p r); [|done]. apply advance_within in H; [lia|done|lia].
  - by apply many_within in H.
  - exact (IHa _ (IHb k Hk) s n H).
  - cbn [find] in H. destruct (find a s k) eqn:E; [injection H as <-; by apply (IHa k Hk)|by apply (IHb k Hk)].
  - by apply Hk.
  - cbn [find] in H. destruct (find a s _) as [w|] eqn:E; [|done]. apply (IHa fin) in E; [|by intros ? ? [= <-]; lia]. by apply advance_within in H; [lia|..].
  - destruct s; [by apply Hk in H|done].
  - destruct s as [|c s]; [by apply Hk in H|]. cbn [find] in H. destruct (p _); [done|by apply Hk].
Qed.

(** An expression that cannot match the empty text takes at least a byte. *)
Fixpoint consumes (e : regex) : bool :=
  match e with
  | Rune _ => true
  | Seq a b => consumes a || consumes b
  | Alt a b => consumes a && consumes b
  | Atomic a => consumes a
  | Many _ | Empty | AtEnd | NotFollowed _ => false
  end.

Definition positive (k : text → option nat) : Prop := ∀ s n, k s = Some n → (1 ≤ n)%nat.

Lemma positive_keeps e k : positive k → positive (λ s, find e s k).
Proof.
  revert k. induction e as [p|p|a IHa b IHb|a IHa b IHb| |a IHa| |p]; intros k Hk s n H; cbn [find] in H.
  - destruct s as [|c s]; [done|]. destruct (decode_rune (c :: s)) as [r w]. destruct (p r); [|done]. destruct (k _) as [m|] eqn:E; [|done]. injection H as <-. apply Hk in E. lia.
  - change (find (Many p) s k = Some n) in H. revert n H. induction s as [|s Hs IH] using rune_ind; intros n H; [by apply Hk in H|]. rewrite find_many in H by done.
    destruct (decode_rune s) as [r w]. cbn [snd] in *. destruct (p r); [|by apply Hk in H]. destruct (find (Many p) (drop w s) k) as [m|]; [|by apply Hk in H].
    injection H as <-. specialize (IH m eq_refl). lia.
  - exact (IHa _ (IHb k Hk) s n H).
  - destruct (find a s k) eqn:E; [injection H as <-; by apply (IHa k Hk) in E|by apply (IHb k Hk) in H].
  - by apply Hk in H.
  - destruct (find a s _) as [w|]; [|done]. destruct (k _) as [m|] eqn:E; [|done]. injection H as <-. apply Hk in E. lia.
  - destruct s; [by apply Hk in H|done].
  - destruct s as [|c s]; [by apply Hk in H|]. destruct (p _); [done|by apply Hk in H].
Qed.

Lemma consumes_positive e k : consumes e = true → positive (λ s, find e s k).
Proof.
  revert k. induction e as [p|p|a IHa b IHb|a IHa b IHb| |a IHa| |p]; intros k Hc s n H; try done; cbn [find consumes] in *.
  - destruct s as [|c s]; [done|]. pose proof (decode_width (c :: s) ltac:(done)) as W. destruct (decode_rune (c :: s)) as [r w]. cbn [snd] in W. destruct (p r); [|done].
    destruct (k _); [|done]. injection H as <-. lia.
  - apply orb_true_iff in Hc as [Hc|Hc]; [by apply (IHa _ Hc) in H|]. exact (positive_keeps a _ (IHb k Hc) s n H).
  - apply andb_true_iff in Hc as [Ha Hb]. destruct (find a s k) eqn:E; [injection H as <-; by apply (IHa k Ha) in E|by apply (IHb k Hb) in H].
  - destruct (find a s _) as [w|] eqn:E; [|done]. apply (IHa _ Hc) in E. destruct (k _); [|done]. injection H as <-. lia.
Qed.

Lemma first_match_bounds e s n : consumes e = true → first_match e s = Some n → (1 ≤ n ≤ length s)%nat.
Proof.
  intros Hc H. split; [by apply (consumes_positive e fin Hc s)|]. apply (find_within e fin); [|done]. intros ? ? [= <-]. lia.
Qed.
