(* ===== verification/TokenScanExact.v ===== *)
(** * The scanners find the first match of their patterns

    Alternative by alternative: what the scanner computes is what the backtracking engine finds,
    for every text, valid UTF-8 or not, over any table of classes in which the space and the line
    breaks are white space and neither letters nor numbers, and every letter has a case class. *)

From S2P Require Import Prelude Go Source SourceParser TokenVocab TokenVocabFacts TokenScan TokenRegex.
From Stdlib Require Import Ascii.
Local Open Scope Z_scope.
Local Open Scope olp_scope.

(** What the scanners rely on of the table. *)
Record table_ok (t : classTable) : Prop := mkTableOk {
  ascii_ok : ∀ b, 0 <= b < 128 → at_ (t_ascii t) b = class t b;
  white_ok : ∀ r, r = 0x20 ∨ r = 0x0A ∨ r = 0x0D →
    carries (class t r) cSpace = true ∧ carries (class t r) (Z.lor cLetter cNumber) = false;
  letters_ok : ∀ r, 0 <= r <= MaxRune → carries (class t r) cLetter = true → carries (class t r) (Z.lor cUpper cLower) = true;
}.

Lemma carries_lor c a b : carries c (Z.lor a b) = carries c a || carries c b.
Proof.
  unfold carries. rewrite Z.land_lor_distr_r. destruct (Z.eqb_spec (Z.land c a) 0) as [->|Ha]; cbn [negb orb]; [by rewrite Z.lor_0_l|].
  rewrite (proj2 (Z.eqb_neq _ _)); [done|]. intros E. apply Z.lor_eq_0_iff in E as [? _]. done.
Qed.

Lemma Contains_cons x l a : Contains (x :: l) a = (a =? x) || Contains l a.
Proof.
  unfold Contains. destruct (Z.eqb_spec a x) as [->|H]; cbn [orb].
  - apply bool_decide_true. by left.
  - apply bool_decide_ext. rewrite elem_of_cons. naive_solver.
Qed.

Lemma Contains_nil a : Contains (A := Z) [] a = false.
Proof. apply bool_decide_false. apply not_elem_of_nil. Qed.

(** Bytes among some ASCII characters are the runes among them. *)
Lemma bytes_while_run (set : list Z) (p : Z → bool) s : Forall (λ z, 0 <= z < 0x80) set → (∀ r, p r = Contains set r) → bytes_while set s = run_of p s.
Proof.
  intros Hset Hp. induction s as [|a s IH]; [done|]. rewrite run_of_cons by done. cbn [bytes_while].
  destruct (Z.lt_ge_cases (code a) 0x80) as [H|H].
  - rewrite decode_low by done. rewrite Hp. by rewrite IH.
  - pose proof (decode_high a s H) as D. destruct (decode_rune (a :: s)) as [r w]. destruct D as [D _].
    assert (∀ z, 0x80 <= z → Contains set z = false) as Hno.
    { intros z Hz. apply bool_decide_false. intros Hin. rewrite Forall_forall in Hset. specialize (Hset z Hin). lia. }
    by rewrite Hp, !Hno by lia.
Qed.

(** ** Contractions *)

Lemma find_folds z s k : 0x61 <= z <= 0x7A → z ≠ 0x73 →
  find (Rune (folds z)) s k = if first_is s z || first_is s (z - 32) then advance 1 (k (drop 1 s)) else None.
Proof.
  intros Hz Hs. destruct s as [|a s]; [done|]. rewrite find_rune by done. destruct (rune_is (a :: s) z ltac:(lia) ltac:(done)) as [E1 W1].
  destruct (rune_is (a :: s) (z - 32) ltac:(lia) ltac:(done)) as [E2 W2]. destruct (decode_rune (a :: s)) as [r w]. cbn [fst snd] in *.
  unfold folds. rewrite E1, E2, (proj2 (Z.eqb_neq _ _) Hs). cbn [andb]. rewrite orb_false_r. destruct (first_is (a :: s) z || first_is (a :: s) (z - 32)) eqn:E; [|done].
  apply orb_true_iff in E as [E|E]; [rewrite W1 by done|rewrite W2 by done]; done.
Qed.

Lemma find_folds_s s k :
  find (Rune (folds 0x73)) s k =
  if first_is s 0x73 || first_is s 0x53 then advance 1 (k (drop 1 s))
  else if first_is s 0xC5 && first_is (drop 1 s) 0xBF then advance 2 (k (drop 2 s)) else None.
Proof.
  destruct s as [|a s]; [done|]. rewrite find_rune by done. destruct (rune_is (a :: s) 0x73 ltac:(lia) ltac:(done)) as [E1 W1].
  destruct (rune_is (a :: s) 0x53 ltac:(lia) ltac:(done)) as [E2 W2].
  assert (∀ r w, decode_rune (a :: s) = (r, w) → (r =? 0x17F) = first_is (a :: s) 0xC5 && first_is s 0xBF ∧ (r = 0x17F → w = 2%nat)) as D.
  { intros r w Ed. destruct (Z.lt_ge_cases (code a) 0x80) as [H|H].
    - rewrite decode_low in Ed by done. injection Ed as <- <-. cbn [first_is]. rewrite !(proj2 (Z.eqb_neq _ _)) by lia. split; [done|lia].
    - pose proof (decode_high a s H) as D. rewrite Ed in D. destruct D as (_ & D & W). split; [|done].
      apply eq_true_iff_eq. rewrite Z.eqb_eq, D, andb_true_iff. cbn [first_is]. rewrite Z.eqb_eq. apply and_iff_compat_l. split.
      + intros (b & s' & -> & Eb). cbn. by apply Z.eqb_eq.
      + destruct s as [|b s']; [done|]. cbn. intros ?%Z.eqb_eq. eauto. }
  destruct (decode_rune (a :: s)) as [r w]. cbn [fst snd] in *. destruct (D r w eq_refl) as [E3 W3]. unfold folds. rewrite E1.
  change (0x73 - 32) with 0x53. rewrite E2, E3. change (0x73 =? 0x73) with true. cbn [andb]. change (drop 1 (a :: s)) with s.
  destruct (first_is (a :: s) 0x73); [cbn [orb]; by rewrite W1|]. destruct (first_is (a :: s) 0x53); [cbn [orb]; by rewrite W2|]. cbn [orb].
  destruct (first_is (a :: s) 0xC5 && first_is s 0xBF) eqn:E4; [|done]. rewrite W3; [done|]. by apply Z.eqb_eq.
Qed.

(** A contraction's letters: its width when there is one. *)
Definition contracted (s : text) : option nat := match contraction s with O => None | n => Some n end.

Lemma first_is_excl s y z : first_is s y = true → y ≠ z → first_is s z = false.
Proof. destruct s as [|a s]; [done|]. cbn. intros ->%Z.eqb_eq ?. by apply Z.eqb_neq. Qed.

(** The cases of the first byte. *)
Lemma contracted_cases s : contracted s =
  if first_is s 0x73 || first_is s 0x53 || first_is s 0x64 || first_is s 0x44 || first_is s 0x6D || first_is s 0x4D || first_is s 0x74 || first_is s 0x54 then Some 1%nat
  else if first_is s 0x6C || first_is s 0x4C then if first_is (drop 1 s) 0x6C || first_is (drop 1 s) 0x4C then Some 2%nat else None
  else if first_is s 0x76 || first_is s 0x56 || first_is s 0x72 || first_is s 0x52 then if first_is (drop 1 s) 0x65 || first_is (drop 1 s) 0x45 then Some 2%nat else None
  else if first_is s 0xC5 && first_is (drop 1 s) 0xBF then Some 2%nat else None.
Proof.
  destruct s as [|a s]; [done|]. unfold contracted, contraction. rewrite !Contains_cons, !Contains_nil, !orb_false_r. cbn [first_is]. rewrite !orb_assoc.
  destruct (_ || _ || _ || _ || _ || _ || _ || _); [done|]. destruct (_ || _); [by destruct (_ || _)|].
  destruct (_ || _ || _ || _); [by destruct (_ || _)|]. destruct (_ =? _); [|done]. cbn [andb]. by destruct (first_is _ _).
Qed.

(** Case analysis on the first byte: once it is known, no other test passes. *)
Ltac split_first s :=
  repeat match goal with
    | |- context [first_is s ?z] =>
        let E := fresh "F" in
        destruct (first_is s z) eqn:E; cbn [orb andb];
        [repeat match goal with |- context [first_is s ?y] => rewrite (first_is_excl s z y E) by lia; cbn [orb andb] end|]
    end.

Ltac upper_case :=
  change (0x64 - 32) with 0x44; change (0x6D - 32) with 0x4D; change (0x74 - 32) with 0x54; change (0x6C - 32) with 0x4C;
  change (0x76 - 32) with 0x56; change (0x72 - 32) with 0x52; change (0x65 - 32) with 0x45.

Lemma letters_cl100k s :
  find (Alt (Rune (λ r, folds 0x73 r || folds 0x64 r || folds 0x6D r || folds 0x74 r))
          (Alt (Seq (Rune (folds 0x6C)) (Rune (folds 0x6C)))
            (Alt (Seq (Rune (folds 0x76)) (Rune (folds 0x65))) (Seq (Rune (folds 0x72)) (Rune (folds 0x65)))))) s fin = contracted s.
Proof.
  rewrite contracted_cases.
  assert (∀ k, find (Rune (λ r, folds 0x73 r || folds 0x64 r || folds 0x6D r || folds 0x74 r)) s k =
    find (Rune (folds 0x73)) s k <|> find (Rune (folds 0x64)) s k <|> find (Rune (folds 0x6D)) s k <|> find (Rune (folds 0x74)) s k) as Hk.
  { intros k. destruct s as [|a s]; [done|]. cbn [find]. destruct (decode_rune (a :: s)) as [r w].
    destruct (folds 0x73 r), (folds 0x64 r), (folds 0x6D r), (folds 0x74 r); cbn [orb]; try done; by destruct (advance w _). }
  change (find (Rune (λ r, folds 0x73 r || folds 0x64 r || folds 0x6D r || folds 0x74 r)) s fin <|>
    (find (Rune (folds 0x6C)) s (λ s, find (Rune (folds 0x6C)) s fin) <|> find (Rune (folds 0x76)) s (λ s, find (Rune (folds 0x65)) s fin) <|>
     find (Rune (folds 0x72)) s (λ s, find (Rune (folds 0x65)) s fin)) = 
    if first_is s 0x73 || first_is s 0x53 || first_is s 0x64 || first_is s 0x44 || first_is s 0x6D || first_is s 0x4D || first_is s 0x74 || first_is s 0x54 then Some 1%nat
  else if first_is s 0x6C || first_is s 0x4C then if first_is (drop 1 s) 0x6C || first_is (drop 1 s) 0x4C then Some 2%nat else None
  else if first_is s 0x76 || first_is s 0x56 || first_is s 0x72 || first_is s 0x52 then if first_is (drop 1 s) 0x65 || first_is (drop 1 s) 0x45 then Some 2%nat else None
  else if first_is s 0xC5 && first_is (drop 1 s) 0xBF then Some 2%nat else None).
  rewrite Hk, find_folds_s. rewrite !find_folds by lia. upper_case.
  split_first s; rewrite ?find_folds by lia; upper_case; try done; split_first (drop 1 s); done.
Qed.

Lemma find_is z s k : 0 <= z < 0x80 → find (Rune (is_rune z)) s k = if first_is s z then advance 1 (k (drop 1 s)) else None.
Proof.
  intros Hz. destruct s as [|a s]; [done|]. rewrite find_rune by done. destruct (rune_is (a :: s) z Hz ltac:(done)) as [E W].
  destruct (decode_rune (a :: s)) as [r w]. cbn [fst snd] in *. unfold is_rune. rewrite E. destruct (first_is (a :: s) z); [by rewrite W|done].
Qed.

(** The width of the contraction that may follow a word. *)
Definition suffix (s : text) : nat := withContraction s 0.

Lemma withContraction_add s e : withContraction s e = (e + suffix (drop e s))%nat.
Proof. unfold suffix, withContraction. rewrite drop_0. destruct (first_is _ _); [|lia]. destruct (Nat.ltb _ _); lia. Qed.

Lemma find_contractions s k : k = fin → find (maybe contractions) s k = Some (suffix s).
Proof.
  intros ->. change (find contractions s fin <|> Some 0%nat = Some (suffix s)).
  assert (find contractions s fin = if first_is s 0x27 then advance 1 (contracted (drop 1 s)) else None) as ->.
  { cbn [contractions find]. change (find (Rune (is_rune 0x27)) s (λ s, find (Rune (folds 0x73)) s fin) <|>
      (find (Rune (is_rune 0x27)) s (λ s, find (Rune (folds 0x74)) s fin) <|>
      (find (Rune (is_rune 0x27)) s (λ s, find (Rune (folds 0x72)) s (λ s, find (Rune (folds 0x65)) s fin)) <|>
      (find (Rune (is_rune 0x27)) s (λ s, find (Rune (folds 0x76)) s (λ s, find (Rune (folds 0x65)) s fin)) <|>
      (find (Rune (is_rune 0x27)) s (λ s, find (Rune (folds 0x6D)) s fin) <|>
      (find (Rune (is_rune 0x27)) s (λ s, find (Rune (folds 0x6C)) s (λ s, find (Rune (folds 0x6C)) s fin)) <|>
      find (Rune (is_rune 0x27)) s (λ s, find (Rune (folds 0x64)) s fin)))))) = if first_is s 0x27 then advance 1 (contracted (drop 1 s)) else None).
    rewrite !find_is by lia. destruct (first_is s 0x27); [|done]. rewrite find_folds_s, contracted_cases. rewrite !find_folds by lia. upper_case.
    generalize (drop 1 s). clear s. intros s. split_first s; rewrite ?find_folds by lia; upper_case; try done; split_first (drop 1 s); done. }
  unfold suffix, withContraction, contracted. rewrite drop_0. destruct (first_is s 0x27); [|done]. by destruct (contraction _).
Qed.

Lemma atomic_fin e s : find (Atomic e) s fin = find e s fin.
Proof.
  change (find (Atomic e) s fin) with (match find e s fin with Some w => Some (w + 0)%nat | None => None end). destruct (find e s fin); [f_equal; lia|done].
Qed.

Section Table.
Context (t : classTable) (Ht : table_ok t).

Lemma look_decode s : s ≠ [] → look t s = (class t (decode_rune s).1, (decode_rune s).2).
Proof.
  destruct s as [|a s]; [done|]. intros _. cbn [look]. unfold RuneSelf. destruct (Z.ltb_spec (code a) 0x80) as [H|H].
  - rewrite decode_low by done. cbn. rewrite (ascii_ok t Ht); [done|]. pose proof (code_bound a). lia.
  - by destruct (decode_rune (a :: s)).
Qed.

Lemma run_while_fuel p fuel s : (length s ≤ fuel)%nat → run_while t p fuel s = runes (λ r, p (class t r)) fuel s.
Proof.
  revert s. induction fuel as [|fuel IH]; intros s H; [done|]. destruct s as [|a s]; [done|]. cbn [run_while runes]. rewrite look_decode by done.
  pose proof (decode_width (a :: s) ltac:(done)) as W. destruct (decode_rune (a :: s)) as [r w]. cbn [fst snd] in *. destruct (p _); [|done]. rewrite IH; [done|]. rewrite length_drop. simpl in *. lia.
Qed.

Lemma run_run_of s mask : run t s mask = run_of (has t mask) s.
Proof. apply run_while_fuel. done. Qed.

Lemma skip_run_of s mask : skip t s mask = run_of (lacks t mask) s.
Proof. apply run_while_fuel. done. Qed.

(** ** Numbers *)

Lemma digits_cons n s : s ≠ [] →
  digits_end t (S n) s = let '(r, w) := decode_rune s in if has t cNumber r then (w + digits_end t n (drop w s))%nat else 0%nat.
Proof. intros Hs. destruct s as [|a s]; [done|]. cbn [digits_end]. rewrite look_decode by done. by destruct (decode_rune (a :: s)). Qed.

Lemma maybe_digits e n s : (∀ s, s ≠ [] → find e s fin = if has t cNumber (decode_rune s).1 then Some (digits_end t (S n) s) else None) → find e [] fin = None →
  find (maybe e) s fin = Some (digits_end t (S n) s).
Proof.
  intros He H0. change (find e s fin <|> Some 0%nat = Some (digits_end t (S n) s)). destruct s as [|a s]; [by rewrite H0|]. rewrite He by done.
  rewrite digits_cons by done. destruct (decode_rune (a :: s)) as [r w]. cbn [fst]. by destruct (has t cNumber r).
Qed.

Lemma digit_then e n s : (∀ s, find e s fin = Some (digits_end t n s)) → s ≠ [] →
  find (Seq (Rune (has t cNumber)) e) s fin = if has t cNumber (decode_rune s).1 then Some (digits_end t (S n) s) else None.
Proof.
  intros He Hs. change (find (Rune (has t cNumber)) s (λ s, find e s fin) = if has t cNumber (decode_rune s).1 then Some (digits_end t (S n) s) else None).
  rewrite find_rune, digits_cons by done. destruct (decode_rune s) as [r w]. cbn [fst]. destruct (has t cNumber r); [|done]. by rewrite He.
Qed.

Lemma find_numbers s : s ≠ [] → find (up_to_three (has t cNumber)) s fin = if has t cNumber (decode_rune s).1 then Some (digits_end t 3 s) else None.
Proof.
  assert (∀ s, s ≠ [] → find (Rune (has t cNumber)) s fin = if has t cNumber (decode_rune s).1 then Some (digits_end t 1 s) else None) as H1.
  { intros s' Hs. rewrite find_rune, digits_cons by done. destruct (decode_rune s') as [r w]. cbn [fst]. by destruct (has t cNumber r). }
  intros Hs. apply digit_then; [|done]. clear s Hs. intros s. apply maybe_digits; [|done]. intros s' Hs'. apply digit_then; [|done].
  intros s2. by apply maybe_digits.
Qed.

(** ** Punctuation *)

Lemma white_not_symbol r : r = 0x20 ∨ r = 0x0A ∨ r = 0x0D → symbol t r = false.
Proof. intros H. destruct (white_ok t Ht r H) as [W _]. unfold symbol, lacks. by rewrite !carries_lor, W. Qed.

(** A run of symbols and the bytes taken after it. *)
Definition symbols (breaks : list Z) (s : text) : option nat :=
  match run_of (symbol t) s with O => None | n => Some (n + bytes_while breaks (drop n s))%nat end.

Lemma find_punctuation body breaks s : (∀ s, body s = symbols breaks s) → s ≠ [] →
  find (maybe (Rune (is_rune 0x20))) s body = (λ e, (e + bytes_while breaks (drop e s))%nat) <$> punctuationEnd t s.
Proof.
  intros Hb Hs. change (find (Rune (is_rune 0x20)) s body <|> body s = (λ e, (e + bytes_while breaks (drop e s))%nat) <$> punctuationEnd t s).
  rewrite find_is by lia. unfold punctuationEnd. rewrite skip_run_of. change (lacks t _) with (symbol t). rewrite !Hb. unfold symbols.
  destruct (first_is s 0x20) eqn:E.
  - assert (run_of (symbol t) s = 0%nat) as ->.
    { apply run_of_0; [done|]. apply white_not_symbol. left. apply Z.eqb_eq. by rewrite (proj1 (rune_is s 0x20 ltac:(lia) Hs)). }
    destruct (run_of (symbol t) (drop 1 s)) as [|n]; [done|]. cbn [advance fmap option_fmap option_map]. rewrite drop_drop. done.
  - rewrite drop_0. by destruct (run_of (symbol t) s).
Qed.

Lemma symbols_greedy breaks p s : (∀ r, p r = Contains breaks r) → Forall (λ z, 0 <= z < 0x80) breaks →
  find (Seq (plus (symbol t)) (Many p)) s fin = symbols breaks s ∧ find (Seq (Atomic (plus (symbol t))) (Atomic (Many p))) s fin = symbols breaks s.
Proof.
  intros Hp Hb. change (find (plus (symbol t)) s (λ s, find (Many p) s fin) = symbols breaks s ∧ find (Atomic (plus (symbol t))) s (λ s, find (Atomic (Many p)) s fin) = symbols breaks s).
  destruct s as [|a s]; [done|]. rewrite plus_total; [|intros s'; rewrite many_total by apply fin_total; by eexists|done]. rewrite atomic_plus by done.
  rewrite many_total by apply fin_total. rewrite atomic_many. unfold symbols.
  destruct (symbol t (decode_rune (a :: s)).1) eqn:E.
  - destruct (run_of (symbol t) (a :: s)) eqn:En; [apply run_of_0 in En; [congruence|done]|].
    rewrite (bytes_while_run breaks p _ Hb Hp). cbn [advance fin fmap option_fmap option_map]. split; f_equal; lia.
  - by rewrite (proj2 (run_of_0 (symbol t) (a :: s) ltac:(done)) E).
Qed.

(** ** White space *)

Notation sp := (has t cSpace).

Lemma newline_space r : is_newline r = true → sp r = true.
Proof. intros H. apply orb_true_iff in H as [H%Z.eqb_eq|H%Z.eqb_eq]; apply (white_ok t Ht); auto. Qed.

Lemma is_break_rune s : s ≠ [] → is_break s = is_newline (decode_rune s).1 ∧ (is_break s = true → (decode_rune s).2 = 1%nat).
Proof.
  intros Hs. unfold is_break, is_newline. destruct (rune_is s 0x0A ltac:(lia) Hs) as [-> W1]. destruct (rune_is s 0x0D ltac:(lia) Hs) as [-> W2].
  split; [done|]. intros [H|H]%orb_true_iff; auto.
Qed.

(** The end of the last line break of the run of white space, and the start of its last rune. *)
Definition last_break (s : text) : option nat := find (Many sp) s (λ s, find (Rune is_newline) s fin).
Definition starts_space (s : text) : option nat := match s with [] => None | _ => if sp (decode_rune s).1 then Some 0%nat else None end.
Definition last_start (s : text) : option nat := find (Many sp) s starts_space.

Lemma last_break_cons s : s ≠ [] → last_break s = let '(r, w) := decode_rune s in
  if sp r then advance w (last_break (drop w s)) <|> (if is_newline r then Some w else None) else None.
Proof.
  intros Hs. unfold last_break. rewrite find_many by done. pose proof (find_rune is_newline s fin Hs) as ->. destruct (decode_rune s) as [r w].
  cbn [advance fin fmap option_fmap option_map]. rewrite Nat.add_0_r. destruct (sp r) eqn:E; [done|]. destruct (is_newline r) eqn:En; [|done]. apply newline_space in En. congruence.
Qed.

Lemma last_start_cons s : s ≠ [] → last_start s = let '(r, w) := decode_rune s in
  if sp r then Some (default 0%nat (advance w (last_start (drop w s)))) else None.
Proof.
  intros Hs. unfold last_start. rewrite find_many by done. unfold starts_space at 2 3. destruct s as [|a s]; [done|]. destruct (decode_rune (a :: s)) as [r w].
  cbn [fst]. destruct (sp r); [|done]. by destruct (advance w _).
Qed.

Lemma whitespace_loop_spec fuel s e lb l : (length s ≤ fuel)%nat →
  whitespace_loop t fuel s e lb l =
  ((e + run_of sp s)%nat, advance e (last_break s) <|> lb, default l (advance e (last_start s)), drop (run_of sp s) s).
Proof.
  revert s e lb l. induction fuel as [|fuel IH]; intros s e lb l H.
  { destruct s; [|simpl in H; lia]. cbn. by rewrite Nat.add_0_r. }
  destruct s as [|a s]; [cbn; by rewrite Nat.add_0_r|]. cbn [whitespace_loop]. rewrite look_decode, run_of_cons, last_break_cons, last_start_cons by done.
  destruct (is_break_rune (a :: s) ltac:(done)) as [Eb Wb]. pose proof (decode_width (a :: s) ltac:(done)) as W.
  destruct (decode_rune (a :: s)) as [r w]. cbn [fst snd] in *. change (carries (class t r) cSpace) with (sp r). destruct (sp r); [|cbn; by rewrite Nat.add_0_r].
  rewrite IH by (rewrite length_drop; cbn [length] in *; lia). rewrite drop_drop, Eb.
  assert ((e + (w + run_of sp (drop w (a :: s))) = e + w + run_of sp (drop w (a :: s)))%nat) as -> by lia. f_equal. f_equal; [f_equal|].
  - rewrite <- advance_add. destruct (last_break _); [done|]. cbn. destruct (is_newline r); [|by destruct lb]. cbn. by rewrite Wb.
  - rewrite <- advance_add. destruct (last_start _); cbn; [done|lia].
Qed.

Definition not_followed (s : text) : option nat := find (NotFollowed (lacks t cSpace)) s fin.

Lemma not_followed_cons s : s ≠ [] → not_followed s = if sp (decode_rune s).1 then Some 0%nat else None.
Proof. destruct s as [|a s]; [done|]. intros _. unfold not_followed, lacks, has. cbn [find]. by destruct (carries _ _). Qed.

(** A greedy run not followed by anything but white space: all of it at the end of the text, and all but its last rune elsewhere. *)
Lemma find_not_followed s :
  find (Many sp) s not_followed = match drop (run_of sp s) s with [] => Some (run_of sp s) | _ => last_start s end.
Proof.
  induction s as [|s Hs IH] using rune_ind; [done|]. rewrite find_many, run_of_cons, last_start_cons, not_followed_cons by done.
  destruct (decode_rune s) as [r w] eqn:E. cbn [fst snd] in *. destruct (sp r) eqn:Er.
  - rewrite IH, drop_drop. destruct (drop (w + _) s); [done|]. by destruct (last_start _).
  - rewrite drop_0. by destruct s.
Qed.

(** A line break more makes no difference to where the last one ends. *)
Lemma last_break_plus s : find (Many sp) s (λ s, find (plus is_newline) s fin) = last_break s.
Proof.
  induction s as [|s Hs IH] using rune_ind; [done|]. rewrite find_many, last_break_cons by done. rewrite plus_total by (done || apply fin_total).
  pose proof (run_of_cons is_newline s Hs) as Er. destruct (decode_rune s) as [r w]. cbn [fst snd] in *.
  destruct (is_newline r) eqn:En; [rewrite (newline_space r En)|by destruct (sp r); rewrite ?IH]. rewrite IH.
  destruct (last_break (drop w s)) as [b|] eqn:Eb; [done|]. cbn. f_equal. rewrite Nat.add_0_r, Er.
  enough (run_of is_newline (drop w s) = 0%nat) by lia. destruct (drop w s) as [|a s'] eqn:Ed; [done|]. rewrite <- Ed in *. apply run_of_0; [by rewrite Ed|].
  rewrite last_break_cons in Eb by (by rewrite Ed). destruct (decode_rune (drop w s)) as [r' w']. cbn [fst]. destruct (is_newline r') eqn:En'; [|done].
  rewrite (newline_space r' En') in Eb. by destruct (advance w' _).
Qed.

Lemma whitespace_spec s atEnd : s ≠ [] → sp (decode_rune s).1 = true →
  whitespace t s atEnd =
  match drop (run_of sp s) s with
  | [] => if atEnd then run_of sp s else default (run_of sp s) (last_break s)
  | _ => default (default (run_of sp s) (advance (decode_rune s).2 (last_start (drop (decode_rune s).2 s)))) (last_break s)
  end.
Proof.
  intros Hs Hr. unfold whitespace. rewrite whitespace_loop_spec by done. rewrite advance_0, Nat.add_0_l. destruct (drop (run_of sp s) s) as [|b s'].
  { by destruct (last_break s). }
  destruct (last_break s); [done|]. cbn [default]. rewrite last_start_cons by done. pose proof (decode_width s Hs) as W. destruct (decode_rune s) as [r w].
  cbn [fst snd] in *. rewrite Hr. by destruct (last_start (drop w s)), w; [lia|..|lia|].
Qed.

Lemma find_whitespace_end s : s ≠ [] →
  find (Seq (Atomic (plus sp)) AtEnd) s fin = if sp (decode_rune s).1 then match drop (run_of sp s) s with [] => Some (run_of sp s) | _ => None end else None.
Proof.
  intros Hs. change (find (Atomic (plus sp)) s (λ s, find AtEnd s fin) = if sp (decode_rune s).1 then match drop (run_of sp s) s with [] => Some (run_of sp s) | _ => None end else None).
  rewrite atomic_plus by done. destruct (sp _); [|done]. destruct (drop _ s); [cbn; f_equal; lia|done].
Qed.

(** The alternatives from [\s*[\r\n]] on, with the last of them still to try. *)
Lemma find_whitespace_tail s single : s ≠ [] → sp (decode_rune s).1 = true → (drop (decode_rune s).2 s ≠ [] → run_of sp s = (decode_rune s).2 → single = Some (run_of sp s)) →
  last_break s <|> (find (Seq (plus sp) (NotFollowed (lacks t cSpace))) s fin <|> single) = Some (whitespace t s false).
Proof.
  intros Hs Hr H1. rewrite whitespace_spec by done. destruct (last_break s) as [b|]; [by destruct (drop (run_of sp s) s)|].
  change (find (Rune sp) s (λ s, find (Many sp) s not_followed) <|> single = Some match drop (run_of sp s) s with [] => run_of sp s
    | _ => default (run_of sp s) (advance (decode_rune s).2 (last_start (drop (decode_rune s).2 s))) end).
  rewrite find_rune by done. rewrite run_of_cons in * by done. destruct (decode_rune s) as [r w]. cbn [fst snd] in *. rewrite Hr in *.
  rewrite find_not_followed, drop_drop. destruct (drop (w + _) s) as [|b s'] eqn:Ed; [done|].
  destruct (last_start (drop w s)) as [l|] eqn:El; [done|]. cbn. assert (drop w s ≠ []) as Hne.
  { intros E. rewrite <- drop_drop, E, drop_nil in Ed. done. }
  apply H1; [done|]. enough (run_of sp (drop w s) = 0%nat) by lia. apply run_of_0; [done|]. rewrite last_start_cons in El by done.
  destruct (decode_rune (drop w s)) as [r' w']. cbn [fst]. by destruct (sp r').
Qed.

(** ** The alternatives after the words *)

Lemma not_break_rune s : s ≠ [] → not_break s = negb (is_newline (decode_rune s).1).
Proof.
  intros Hs. unfold not_break, is_newline. destruct (rune_is s 0x0A ltac:(lia) Hs) as [-> _]. destruct (rune_is s 0x0D ltac:(lia) Hs) as [-> _].
  by destruct (first_is s 0x0A), (first_is s 0x0D).
Qed.

(** What is no letter, number or symbol is white space. *)
Lemma rest_space s : s ≠ [] → has t cLetter (decode_rune s).1 = false → has t cNumber (decode_rune s).1 = false → punctuationEnd t s = None → sp (decode_rune s).1 = true.
Proof.
  intros Hs Hl Hn Hp. destruct (first_is s 0x20) eqn:E.
  - apply (white_ok t Ht). left. apply Z.eqb_eq. by rewrite (proj1 (rune_is s 0x20 ltac:(lia) Hs)).
  - unfold punctuationEnd in Hp. rewrite E, drop_0, skip_run_of in Hp. destruct (run_of _ s) eqn:En; [|done]. apply run_of_0 in En; [|done].
    unfold lacks in En. rewrite !carries_lor in En. unfold has in *. rewrite Hl, Hn, !orb_false_r in En. by apply negb_false_iff in En.
Qed.

Lemma find_rest tail punct numbers breaks atEnd s : s ≠ [] → has t cLetter (decode_rune s).1 = false →
  numbers = (if has t cNumber (decode_rune s).1 then Some (digits_end t 3 s) else None) →
  punct = (λ e, (e + bytes_while breaks (drop e s))%nat) <$> punctuationEnd t s →
  (sp (decode_rune s).1 = true → tail = Some (whitespace t s atEnd)) →
  numbers <|> (punct <|> tail) = Some (scan_rest t breaks atEnd s).
Proof.
  intros Hs Hl -> -> Htail. unfold scan_rest. rewrite look_decode by done. fold (has t cNumber (decode_rune s).1). fold (sp (decode_rune s).1).
  destruct (has t cNumber _) eqn:En; [done|]. destruct (punctuationEnd t s) eqn:Ep; [done|]. cbn [fmap option_fmap option_map].
  rewrite (rest_space s) in * by done. by rewrite Htail.
Qed.

(** ** The scanner of cl100k *)

Definition word_cl100k (s : text) : option nat :=
  let j := if leading t (decode_rune s).1 then (decode_rune s).2 else 0%nat in
  match run_of (has t cLetter) (drop j s) with O => None | n => Some (j + n)%nat end.

Lemma plus_run p s : find (Atomic (plus p)) s fin = match run_of p s with O => None | n => Some n end.
Proof.
  destruct s as [|a s]; [done|]. rewrite atomic_plus by done. destruct (p _) eqn:E.
  - destruct (run_of p (a :: s)) eqn:En; [apply run_of_0 in En; [congruence|done]|]. cbn. f_equal. lia.
  - by rewrite (proj2 (run_of_0 p (a :: s) ltac:(done)) E).
Qed.

Lemma find_word_cl100k s : s ≠ [] → find (Seq (Atomic (maybe (Rune (leading t)))) (Atomic (plus (has t cLetter)))) s fin = word_cl100k s.
Proof.
  intros Hs. change (match find (Rune (leading t)) s fin <|> Some 0%nat with Some w => advance w (find (Atomic (plus (has t cLetter))) (drop w s) fin) | None => None end = word_cl100k s).
  rewrite find_rune by done. unfold word_cl100k. destruct (decode_rune s) as [r w]. cbn [fst snd].
  destruct (leading t r); cbn [advance fin fmap option_fmap option_map union option_union union_with option_union_with]; rewrite ?Nat.add_0_r, plus_run; by destruct (run_of _ _).
Qed.

Lemma word_cl100k_letter s : s ≠ [] → has t cLetter (decode_rune s).1 = true → is_Some (word_cl100k s).
Proof.
  intros Hs Hl. unfold word_cl100k, leading, lacks. rewrite carries_lor. fold (has t cLetter (decode_rune s).1). rewrite Hl. cbn [orb negb andb]. rewrite drop_0.
  destruct (run_of _ s) eqn:E; [|by eexists]. apply run_of_0 in E; [congruence|done].
Qed.

Lemma tail_cl100k s : s ≠ [] → sp (decode_rune s).1 = true →
  find (Seq (Atomic (plus sp)) AtEnd) s fin <|> (last_break s <|> (find (Seq (plus sp) (NotFollowed (lacks t cSpace))) s fin <|> find (Rune sp) s fin))
  = Some (whitespace t s true).
Proof.
  intros Hs Hr. rewrite find_whitespace_end by done. rewrite Hr. rewrite (find_whitespace_tail s (find (Rune sp) s fin)); [|done..|].
  - rewrite !whitespace_spec by done. by destruct (drop (run_of sp s) s).
  - intros _ ->. rewrite find_rune by done. destruct (decode_rune s) as [r w]. cbn [fst snd] in *. rewrite Hr. cbn. f_equal. lia.
Qed.

Lemma cl100k_alternatives s : first_match (cl100k t) s =
  find (Seq (Rune (is_rune 0x27)) (Alt (Rune (λ r, folds 0x73 r || folds 0x64 r || folds 0x6D r || folds 0x74 r))
          (Alt (Seq (Rune (folds 0x6C)) (Rune (folds 0x6C)))
            (Alt (Seq (Rune (folds 0x76)) (Rune (folds 0x65))) (Seq (Rune (folds 0x72)) (Rune (folds 0x65))))))) s fin <|>
  (find (Seq (Atomic (maybe (Rune (leading t)))) (Atomic (plus (has t cLetter)))) s fin <|>
  (find (Atomic (up_to_three (has t cNumber))) s fin <|>
  (find (maybe (Rune (is_rune 0x20))) s (λ s, find (Seq (Atomic (plus (symbol t))) (Atomic (Many is_newline))) s fin) <|>
  (find (Seq (Atomic (plus sp)) AtEnd) s fin <|> (last_break s <|> (find (Seq (plus sp) (NotFollowed (lacks t cSpace))) s fin <|> find (Rune sp) s fin)))))).
Proof. reflexivity. Qed.

(** A rune of a class comes next when the run of that class is not empty. *)
Lemma look_run mask s : match s with [] => false | _ => carries (look t s).1 mask end = match run_of (has t mask) s with O => false | _ => true end.
Proof.
  destruct s as [|a s]; [done|]. rewrite look_decode by done. cbn [fst]. fold (has t mask (decode_rune (a :: s)).1). destruct (has t mask _) eqn:E.
  - destruct (run_of (has t mask) (a :: s)) eqn:En; [apply run_of_0 in En; [congruence|done]|done].
  - by rewrite (proj2 (run_of_0 (has t mask) (a :: s) ltac:(done)) E).
Qed.

Lemma newlines r : is_newline r = Contains [0x0A; 0x0D] r.
Proof. by rewrite !Contains_cons, Contains_nil, orb_false_r. Qed.

Lemma scan_cl100k s : s ≠ [] → first_match (cl100k t) s = Some (scanCL100k t s).
Proof.
  intros Hs. rewrite cl100k_alternatives, find_word_cl100k, atomic_fin by done.
  change (find (Seq (Rune (is_rune 0x27)) ?e) s fin) with (find (Rune (is_rune 0x27)) s (λ s, find e s fin)). rewrite find_is by lia. rewrite letters_cl100k.
  unfold scanCL100k. rewrite look_decode, not_break_rune by done. fold (lacks t (Z.lor cLetter cNumber) (decode_rune s).1). fold (leading t (decode_rune s).1).
  unfold contracted. destruct (first_is s 0x27) eqn:Eq; [destruct (contraction (drop 1 s)); [|done]|]; cbn [Nat.ltb Nat.leb advance fmap option_fmap option_map].
  all: rewrite look_run, run_run_of; destruct (word_cl100k s) as [n|] eqn:Ew;
    [unfold word_cl100k in Ew; destruct (run_of (has t cLetter) _); [done|by injection Ew as <-]|].
  all: assert (has t cLetter (decode_rune s).1 = false) as Hl by
    (destruct (has t cLetter (decode_rune s).1) eqn:El; [destruct (word_cl100k_letter s Hs El); congruence|done]).
  all: unfold word_cl100k in Ew; destruct (run_of (has t cLetter) _); [|done].
  all: apply find_rest; [done|done|by apply find_numbers| |by apply tail_cl100k].
  all: apply find_punctuation; [|done]; intros s'; apply symbols_greedy; [apply newlines|repeat constructor; lia].
Qed.

(** ** The scanner of o200k *)

Notation up := (has t cUpper).
Notation low := (has t cLower).

(** The end of the last rune of the run of the first class that is in both. *)
Definition in_both (r : Z) : bool := up r && low r.
Definition last_shared (s : text) : option nat := find (Many up) s (λ s, find (Rune in_both) s fin).

Lemma last_shared_cons s : s ≠ [] → last_shared s = let '(r, w) := decode_rune s in
  if up r then advance w (last_shared (drop w s)) <|> (if low r then Some w else None) else None.
Proof.
  intros Hs. unfold last_shared. rewrite find_many by done. rewrite (find_rune in_both) by done. destruct (decode_rune s) as [r w]. unfold in_both.
  cbn [advance fin fmap option_fmap option_map]. rewrite Nat.add_0_r. by destruct (up r).
Qed.

Lemma mixed_loop_spec fuel s e shared : (length s ≤ fuel)%nat →
  mixed_loop t fuel s e shared = ((e + run_of up s)%nat, advance e (last_shared s) <|> shared, drop (run_of up s) s).
Proof.
  revert s e shared. induction fuel as [|fuel IH]; intros s e shared H.
  { destruct s; [|simpl in H; lia]. cbn. by rewrite Nat.add_0_r. }
  destruct s as [|a s]; [cbn; by rewrite Nat.add_0_r|]. cbn [mixed_loop]. rewrite look_decode, run_of_cons, last_shared_cons by done.
  pose proof (decode_width (a :: s) ltac:(done)) as W. destruct (decode_rune (a :: s)) as [r w]. cbn [fst snd] in *.
  fold (up r) (low r). destruct (up r); [|cbn; by rewrite Nat.add_0_r].
  rewrite IH by (rewrite length_drop; cbn [length] in *; lia). rewrite drop_drop.
  assert ((e + (w + run_of up (drop w (a :: s))) = e + w + run_of up (drop w (a :: s)))%nat) as -> by lia. f_equal. f_equal.
  rewrite <- advance_add. destruct (last_shared _); [done|]. cbn. by destruct (low r), shared.
Qed.

Lemma mixedCase_spec s : mixedCase t s =
  match run_of low (drop (run_of up s) s) with O => last_shared s | n => Some (run_of up s + n)%nat end.
Proof.
  unfold mixedCase. rewrite mixed_loop_spec by done. rewrite look_run, run_run_of, advance_0. destruct (run_of low _); [by destruct (last_shared s)|done].
Qed.

(** A word with the contraction that follows it. *)
Definition extended (s : text) (o : option nat) : option nat := (λ e, (e + suffix (drop e s))%nat) <$> o.

Lemma suffix_total : total (λ s, find (maybe contractions) s fin).
Proof. intros s. rewrite find_contractions by done. by eexists. Qed.

Lemma lower_then s : find (plus low) s (λ s, find (maybe contractions) s fin) =
  extended s (match run_of low s with O => None | n => Some n end).
Proof.
  destruct s as [|a s]; [done|]. rewrite plus_total by (done || apply suffix_total). destruct (low _) eqn:E.
  - destruct (run_of low (a :: s)) eqn:En; [apply run_of_0 in En; [congruence|done]|]. by rewrite find_contractions.
  - by rewrite (proj2 (run_of_0 low (a :: s) ltac:(done)) E).
Qed.

Lemma extended_advance w s o : advance w (extended (drop w s) o) = extended s (advance w o).
Proof. destruct o; [|done]. cbn. rewrite drop_drop. f_equal. lia. Qed.

Lemma nothing_shared s : last_shared s = None → run_of low (drop (run_of up s) s) = 0%nat → run_of low s = 0%nat.
Proof.
  destruct s as [|a s]; [done|]. intros Hs Hl. apply run_of_0; [done|]. rewrite last_shared_cons in Hs by done. rewrite (run_of_cons up) in Hl by done.
  destruct (decode_rune (a :: s)) as [r w] eqn:E. cbn [fst]. destruct (up r); [by destruct (advance _ _), (low r)|].
  rewrite drop_0 in Hl. apply run_of_0 in Hl; [|done]. by rewrite E in Hl.
Qed.

(** Giving runes of the first class back stops at the last rune in both. *)
Lemma find_mixed s : find (Seq (Many up) (Seq (plus low) (maybe contractions))) s fin = extended s (mixedCase t s).
Proof.
  change (find (Many up) s (λ s, find (plus low) s (λ s, find (maybe contractions) s fin)) = extended s (mixedCase t s)). rewrite mixedCase_spec.
  induction s as [|s Hs IH] using rune_ind; [done|]. rewrite find_many, lower_then, last_shared_cons by done.
  rewrite (run_of_cons up) by done. pose proof (run_of_cons low s Hs) as Hlow. pose proof (decode_width s Hs) as W. destruct (decode_rune s) as [r w]. cbn [snd] in IH, W.
  destruct (up r) eqn:Eu; [|rewrite drop_0; by destruct (run_of low s)].
  rewrite IH, extended_advance, drop_drop. destruct (run_of low (drop (w + _) s)) as [|n] eqn:En; [|cbn [advance fmap option_fmap option_map]; by rewrite Nat.add_assoc].
  destruct (last_shared (drop w s)) as [b|] eqn:Eb; [done|]. cbn [advance fmap option_fmap option_map].
  change (extended s None <|> ?o) with o. rewrite Hlow. destruct (low r) eqn:El; [|done].
  rewrite <- drop_drop in En. rewrite (nothing_shared _ Eb En), Nat.add_0_r. by destruct w; [lia|].
Qed.

Lemma find_upper s : find (Seq (plus up) (Seq (Many low) (maybe contractions))) s fin = extended s (upperFirst t s).
Proof.
  change (find (plus up) s (λ s, find (Many low) s (λ s, find (maybe contractions) s fin)) = extended s (upperFirst t s)).
  unfold upperFirst. rewrite !run_run_of. destruct s as [|a s]; [done|].
  assert (total (λ s, find (Many low) s (λ s, find (maybe contractions) s fin))) as Htot.
  { intros s'. rewrite many_total by apply suffix_total. rewrite find_contractions by done. by eexists. }
  rewrite plus_total by done. destruct (up _) eqn:E.
  - destruct (run_of up (a :: s)) as [|n] eqn:En; [apply run_of_0 in En; [congruence|done]|].
    rewrite many_total by apply suffix_total. rewrite find_contractions by done. rewrite drop_drop. cbn [advance extended fmap option_fmap option_map]. f_equal. lia.
  - by rewrite (proj2 (run_of_0 up (a :: s) ltac:(done)) E).
Qed.

(** The optional prefix: with it first, then without. *)
Lemma find_prefixed word match_word s : (∀ s, find word s fin = extended s (match_word s)) → s ≠ [] →
  find (Seq (maybe (Rune (leading t))) word) s fin =
  word_at (leading t (decode_rune s).1) match_word s (decode_rune s).2 <|> word_at true match_word s 0.
Proof.
  intros Hw Hs. change (find (Rune (leading t)) s (λ s, find word s fin) <|> find word s fin =
    word_at (leading t (decode_rune s).1) match_word s (decode_rune s).2 <|> word_at true match_word s 0).
  rewrite find_rune by done. destruct (decode_rune s) as [r w]. cbn [fst snd]. unfold word_at. rewrite !Hw, drop_0.
  assert (∀ w, advance w (extended (drop w s) (match_word (drop w s))) = match match_word (drop w s) with Some e => Some (withContraction s (w + e)) | None => None end) as H.
  { intros w'. rewrite extended_advance. destruct (match_word _); [|done]. cbn. by rewrite withContraction_add. }
  pose proof (H 0%nat) as H0. rewrite advance_0, drop_0 in H0. rewrite H0, H. by destruct (leading t r).
Qed.

(** A text that does not start with a word rune has no word without a prefix. *)
Lemma not_word s : s ≠ [] → carries (class t (decode_rune s).1) (Z.lor cUpper cLower) = false → mixedCase t s = None ∧ upperFirst t s = None.
Proof.
  intros Hs Hw. rewrite carries_lor in Hw. apply orb_false_iff in Hw as [Hu Hl]. fold (up (decode_rune s).1) in Hu. fold (low (decode_rune s).1) in Hl.
  apply (run_of_0 up s Hs) in Hu as Eu. apply (run_of_0 low s Hs) in Hl as El. unfold upperFirst. rewrite mixedCase_spec, run_run_of, Eu, drop_0, El. split; [|done].
  rewrite last_shared_cons by done. destruct (decode_rune s) as [r w]. cbn [fst] in Hu. by rewrite Hu.
Qed.

Lemma letter_word s : s ≠ [] → has t cLetter (decode_rune s).1 = true → is_Some (mixedCase t s) ∨ is_Some (upperFirst t s).
Proof.
  intros Hs Hl. apply (letters_ok t Ht) in Hl; [|apply decode_code_point]. rewrite carries_lor in Hl. fold (up (decode_rune s).1) in Hl. fold (low (decode_rune s).1) in Hl.
  unfold upperFirst. rewrite mixedCase_spec, !run_run_of. destruct (run_of up s) eqn:Eu; [left|right; by eexists].
  apply run_of_0 in Eu; [|done]. rewrite Eu in Hl. cbn [orb] in Hl. rewrite drop_0. destruct (run_of low s) eqn:El; [|by eexists]. apply run_of_0 in El; [congruence|done].
Qed.

Lemma tail_o200k s : s ≠ [] → sp (decode_rune s).1 = true →
  find (Many sp) s (λ s, find (plus is_newline) s fin) <|> (find (Seq (plus sp) (NotFollowed (lacks t cSpace))) s fin <|> find (plus sp) s fin)
  = Some (whitespace t s false).
Proof.
  intros Hs Hr. rewrite last_break_plus. apply find_whitespace_tail; [done..|]. intros _ _. rewrite plus_total by (done || apply fin_total). rewrite Hr. cbn. f_equal. lia.
Qed.

Lemma o200k_alternatives s : first_match (o200k t) s =
  find (Seq (maybe (Rune (leading t))) (Seq (Many up) (Seq (plus low) (maybe contractions)))) s fin <|>
  (find (Seq (maybe (Rune (leading t))) (Seq (plus up) (Seq (Many low) (maybe contractions)))) s fin <|>
  (find (up_to_three (has t cNumber)) s fin <|>
  (find (maybe (Rune (is_rune 0x20))) s (λ s, find (Seq (plus (symbol t)) (Many (λ r, is_newline r || (r =? 0x2F)))) s fin) <|>
  (find (Many sp) s (λ s, find (plus is_newline) s fin) <|> (find (Seq (plus sp) (NotFollowed (lacks t cSpace))) s fin <|> find (plus sp) s fin))))).
Proof. reflexivity. Qed.

Lemma scan_o200k s : s ≠ [] → first_match (o200k t) s = Some (scanO200k t s).
Proof.
  intros Hs. rewrite o200k_alternatives. rewrite (find_prefixed _ (mixedCase t)) by (apply find_mixed || done). rewrite (find_prefixed _ (upperFirst t)) by (apply find_upper || done).
  unfold scanO200k. rewrite look_decode, not_break_rune by done. fold (lacks t (Z.lor cLetter cNumber) (decode_rune s).1). fold (leading t (decode_rune s).1).
  assert (∀ m, m = mixedCase t ∨ m = upperFirst t → word_at (carries (class t (decode_rune s).1) (Z.lor cUpper cLower)) m s 0 = word_at true m s 0) as Hword.
  { intros m Hm. destruct (carries _ _) eqn:Ec; [done|]. destruct (not_word s Hs Ec) as [E1 E2]. unfold word_at. rewrite drop_0. by destruct Hm as [-> | ->]; rewrite ?E1, ?E2. }
  rewrite !Hword by auto.
  destruct (word_at _ (mixedCase t) s _); [done|]. destruct (word_at true (mixedCase t) s 0) eqn:Em; [done|].
  destruct (word_at _ (upperFirst t) s _); [done|]. destruct (word_at true (upperFirst t) s 0) eqn:Eu; [done|].
  assert (has t cLetter (decode_rune s).1 = false) as Hl.
  { destruct (has t cLetter _) eqn:El; [|done]. unfold word_at in Em, Eu. rewrite drop_0 in Em, Eu. by destruct (letter_word s Hs El) as [ [? E] | [? E] ]; rewrite E in *. }
  cbn [union option_union union_with option_union_with]. apply find_rest; [done|done|by apply find_numbers| |by apply tail_o200k].
  apply find_punctuation; [|done]. intros s'. apply symbols_greedy; [|repeat constructor; lia]. intros r. unfold is_newline. rewrite !Contains_cons, Contains_nil. by rewrite orb_false_r, orb_assoc.
Qed.
End Table.
