(* ===== verification/TokenClasses.v ===== *)
(** * The table of classes is the categories

    The two-stage table of [internal/operations/tokenization/estimate/classes.go], filled range by
    range from the tables of package [unicode]: looking a code point up gives the classes of the
    categories that hold it, no more and no less, and the flat half for ASCII says the same. The
    scanners rely on three consequences of it, [table_ok]. *)

From S2P Require Import Prelude Go Source SourceParser TokenVocab TokenVocabFacts TokenScan TokenRegex TokenScanExact.
From Stdlib Require Import Ascii.
Local Open Scope Z_scope.
Local Open Scope olp_scope.

(** ** Ranges *)

(** A code point of a range: within its bounds, a whole number of strides from the first. *)
Definition in_range (cp : Z) (r : range) : bool := (Lo r <=? cp) && (cp <=? Hi r) && ((cp - Lo r) mod Stride r =? 0).

Record range_ok (r : range) : Prop := mkRangeOk { lo_ok : 0 <= Lo r; hi_ok : Hi r <= MaxRune; stride_ok : 1 <= Stride r <= MaxRune }.

(** The classes of a code point: those of the categories that hold it. *)
Definition classes_of (cs : list (list range * Z)) (cp : Z) : Z :=
  fold_left (λ c k, if existsb (in_range cp) k.1 then Z.lor c k.2 else c) cs 0.

(** ** The table *)

Definition pages : Z := Z.shiftr MaxRune 8 + 1.

(** Every page has a block, the pages nothing touched share block 0 of no classes, and no two others share one. *)
Record table_wf (t : classTable) : Prop := mkTableWf {
  wf_index : Z.of_nat (length (t_index t)) = pages;
  wf_entries : ∀ p, 0 <= p < pages → 0 <= at_ (t_index t) p < Z.of_nat (length (t_blocks t));
  wf_zero : block_at t 0 = replicate 256 0;
  wf_blocks : ∀ b, 0 <= b < Z.of_nat (length (t_blocks t)) → length (block_at t b) = 256%nat;
  wf_apart : ∀ p q, 0 <= p < pages → 0 <= q < pages → at_ (t_index t) p = at_ (t_index t) q → at_ (t_index t) p ≠ 0 → p = q;
  wf_count : length (t_blocks t) = S (full (t_index t));
}.

Definition cell (t : classTable) (r : Z) : Z := at_ (block_at t (at_ (t_index t) (Z.shiftr r 8))) (Z.land r 0xff).

Definition code_point (r : Z) : Prop := 0 <= r <= MaxRune.

Lemma class_cell t r : code_point r → class t r = cell t r.
Proof. intros [H0 H1]. unfold class. unfold MaxRune in *. rewrite Z.mod_small by lia. by rewrite (proj2 (Z.ltb_ge _ _)). Qed.

Lemma page_split r : code_point r → 0 <= Z.shiftr r 8 < pages ∧ 0 <= Z.land r 0xff < 256 ∧ r = Z.shiftr r 8 * 256 + Z.land r 0xff.
Proof.
  intros [H0 H1]. unfold pages, MaxRune in *. change 0xff with (Z.ones 8). rewrite Z.land_ones, !Z.shiftr_div_pow2 by lia. change (2 ^ 8) with 256.
  change (0x10FFFF / 256) with 4351. Z.to_euclidean_division_equations. lia.
Qed.

Lemma same_point r q : code_point r → code_point q → Z.shiftr q 8 = Z.shiftr r 8 → (Z.land q 0xff =? Z.land r 0xff) = (q =? r).
Proof.
  intros Hr Hq E. destruct (page_split r Hr) as (_ & _ & Er), (page_split q Hq) as (_ & _ & Eq). rewrite E in Eq.
  destruct (Z.eqb_spec (Z.land q 0xff) (Z.land r 0xff)), (Z.eqb_spec q r); try done; lia.
Qed.

Lemma full_put_new l i x : at_ l i = 0 → x ≠ 0 → 0 <= i < Z.of_nat (length l) → full (put_ l i x) = S (full l).
Proof. intros H Hx Hi. rewrite full_put_exact by done. rewrite decide_True by done. lia. Qed.

Lemma full_length l : (full l ≤ length l)%nat.
Proof. apply length_filter. Qed.

(** Adding classes to a page that has its own block. *)
Lemma set_owned t r bits : table_wf t → code_point r → at_ (t_index t) (Z.shiftr r 8) ≠ 0 →
  table_wf (set t r bits) ∧ ∀ q, code_point q → cell (set t r bits) q = if q =? r then Z.lor (cell t r) bits else cell t q.
Proof.
  intros [W1 W2 W3 W4 W5 W6] Hr Hb. destruct (page_split r Hr) as (Hp & Hl & _). pose proof (W2 _ Hp) as Hbr.
  unfold set. rewrite (proj2 (Z.eqb_neq _ _) Hb). change (default [] (t_blocks t !! Z.to_nat ?b)) with (block_at t b). set (b := at_ (t_index t) (Z.shiftr r 8)) in *.
  set (blk := put_ (block_at t b) (Z.land r 255) _).
  assert (∀ c, 0 <= c → block_at (mkClassTable (t_ascii t) (t_index t) (<[Z.to_nat b:=blk]> (t_blocks t))) c = if c =? b then blk else block_at t c) as Hblk.
  { intros c Hc. unfold block_at. cbn [t_blocks]. destruct (Z.eqb_spec c b) as [->|]; [by rewrite list_lookup_insert_eq by lia|by rewrite list_lookup_insert_ne by lia]. }
  split.
  - split; cbn [t_index t_blocks]; rewrite ?length_insert; try done.
    + rewrite Hblk by done. by rewrite (proj2 (Z.eqb_neq _ _)) by lia.
    + intros c Hc. rewrite Hblk by lia. destruct (Z.eqb_spec c b); [|by apply W4]. unfold blk. rewrite put_length. apply W4. lia.
  - intros q Hq. unfold cell at 1. cbn [t_index]. destruct (page_split q Hq) as (Hpq & Hlq & _). pose proof (W2 _ Hpq). rewrite Hblk by lia.
    destruct (Z.eqb_spec (at_ (t_index t) (Z.shiftr q 8)) b) as [E|E].
    + assert (Z.shiftr q 8 = Z.shiftr r 8) as Ep by (apply W5; [done|done|done|by rewrite E]). unfold blk. rewrite at_put by (rewrite ?W4; lia).
      rewrite same_point by done. unfold cell. rewrite Ep. fold b. done.
    + rewrite (proj2 (Z.eqb_neq q r)); [done|]. intros ->. done.
Qed.

(** Adding classes to a page that had none: it gets a block. *)
Lemma set_fresh t r bits : table_wf t → code_point r → at_ (t_index t) (Z.shiftr r 8) = 0 →
  table_wf (set t r bits) ∧ ∀ q, code_point q → cell (set t r bits) q = if q =? r then Z.lor (cell t r) bits else cell t q.
Proof.
  intros [W1 W2 W3 W4 W5 W6] Hr Hb. destruct (page_split r Hr) as (Hp & Hl & _). set (n := length (t_blocks t)) in *.
  assert (1 <= Z.of_nat n <= pages) as Hn.
  { pose proof (full_put_new (t_index t) (Z.shiftr r 8) 1 Hb ltac:(done) ltac:(lia)) as Hf.
    pose proof (full_length (put_ (t_index t) (Z.shiftr r 8) 1)) as Hle. rewrite put_length in Hle. lia. }
  unfold pages, MaxRune in Hn. change (Z.shiftr 0x10FFFF 8 + 1) with 4352 in Hn.
  unfold set. rewrite Hb, Z.eqb_refl, length_app. cbn [length]. fold n. rewrite Z.mod_small by lia. replace (Z.of_nat (n + 1) - 1) with (Z.of_nat n) by lia.
  rewrite Nat2Z.id. rewrite lookup_app_r, Nat.sub_diag by done. cbn [lookup list_lookup default id]. rewrite insert_app_r_alt, Nat.sub_diag by done. cbn [insert list_insert].
  set (blk := put_ _ (Z.land r 255) _). set (t' := mkClassTable _ _ _).
  assert (∀ p, 0 <= p < pages → at_ (t_index t') p = if p =? Z.shiftr r 8 then Z.of_nat n else at_ (t_index t) p) as Hidx.
  { intros p Hpp. cbn [t' t_index]. apply at_put; lia. }
  assert (∀ c, 0 <= c → block_at t' c = if c =? Z.of_nat n then blk else block_at t c) as Hblk.
  { intros c Hc. unfold block_at. cbn [t' t_blocks]. destruct (Z.eqb_spec c (Z.of_nat n)) as [->|].
    - rewrite Nat2Z.id, lookup_app_r, Nat.sub_diag; done.
    - destruct (decide (c < Z.of_nat n)); [rewrite lookup_app_l by (fold n; lia); done|].
      rewrite !lookup_ge_None_2; [done|fold n; lia|rewrite length_app; fold n; cbn; lia]. }
  split.
  - split.
    + cbn [t' t_index]. by rewrite put_length.
    + intros p Hpp. rewrite Hidx by done. cbn [t' t_blocks]. rewrite length_app. fold n. cbn [length]. destruct (_ =? _); [lia|]. pose proof (W2 p Hpp). lia.
    + rewrite Hblk by done. by rewrite (proj2 (Z.eqb_neq _ _)) by lia.
    + intros c Hc. cbn [t' t_blocks] in Hc. rewrite length_app in Hc. fold n in Hc. cbn [length] in Hc. rewrite Hblk by lia.
      destruct (Z.eqb_spec c (Z.of_nat n)); [unfold blk; by rewrite put_length, length_replicate|apply W4; fold n; lia].
    + intros p q Hpp Hqq. rewrite !Hidx by done. pose proof (W2 p Hpp). pose proof (W2 q Hqq).
      destruct (Z.eqb_spec p (Z.shiftr r 8)), (Z.eqb_spec q (Z.shiftr r 8)); [lia|intros; lia..|by apply W5].
    + cbn [t' t_blocks t_index]. rewrite length_app, full_put_new by (done || lia). fold n. cbn [length]. lia.
  - intros q Hq. destruct (page_split q Hq) as (Hpq & Hlq & _). pose proof (W2 _ Hpq). unfold cell at 1. rewrite Hidx by done.
    destruct (Z.eqb_spec (Z.shiftr q 8) (Z.shiftr r 8)) as [Ep|Ep].
    + rewrite Hblk by lia. rewrite Z.eqb_refl. unfold blk. rewrite at_put by (rewrite ?length_replicate; lia). rewrite same_point by done.
      unfold cell. rewrite Ep, Hb, W3. rewrite !at_replicate by lia. done.
    + rewrite Hblk by lia. rewrite (proj2 (Z.eqb_neq _ (Z.of_nat n))) by lia. rewrite (proj2 (Z.eqb_neq q r)); [done|]. intros ->. done.
Qed.

Lemma set_exact t r bits : table_wf t → code_point r →
  table_wf (set t r bits) ∧ ∀ q, code_point q → cell (set t r bits) q = if q =? r then Z.lor (cell t r) bits else cell t q.
Proof. intros Hw Hr. destruct (decide (at_ (t_index t) (Z.shiftr r 8) = 0)); [by apply set_fresh|by apply set_owned]. Qed.

(** ** Ranges and categories *)

Lemma set_range_exact fuel t cp r bits : table_wf t → range_ok r → 0 <= cp → Hi r - cp < Z.of_nat fuel →
  table_wf (set_range fuel t cp r bits) ∧
  ∀ q, code_point q → cell (set_range fuel t cp r bits) q =
    if (cp <=? q) && (q <=? Hi r) && ((q - cp) mod Stride r =? 0) then Z.lor (cell t q) bits else cell t q.
Proof.
  intros Hw Hr. pose proof Hr as [_ Hhi Hst]. revert t cp Hw. induction fuel as [|fuel IH]; intros t cp Hw Hcp Hf.
  { split; [done|]. intros q Hq. destruct (Z.leb_spec cp q); [|done]. by rewrite (proj2 (Z.leb_gt q (Hi r))) by lia. }
  cbn [set_range]. destruct (Z.leb_spec cp (Hi r)) as [Hle|Hgt].
  - destruct (set_exact t cp bits Hw ltac:(unfold code_point; lia)) as [Hw' Hc]. destruct (IH _ (cp + Stride r) Hw' ltac:(lia) ltac:(lia)) as [Hw'' Hc'].
    split; [done|]. intros q Hq. rewrite Hc', Hc by done. destruct (Z.eqb_spec q cp) as [->|Hne].
    + rewrite (proj2 (Z.leb_gt (cp + Stride r) cp)) by lia. rewrite Z.leb_refl, (proj2 (Z.leb_le cp (Hi r)) Hle), Z.sub_diag, Z.mod_0_l by lia. done.
    + assert ((cp + Stride r <=? q) && (q <=? Hi r) && ((q - (cp + Stride r)) mod Stride r =? 0) = (cp <=? q) && (q <=? Hi r) && ((q - cp) mod Stride r =? 0)) as ->; [|done].
      replace (q - (cp + Stride r)) with (q - cp + (-1) * Stride r) by lia. rewrite Z.mod_add by lia.
      destruct (Z.leb_spec (cp + Stride r) q), (Z.leb_spec cp q); try done; [lia|]. destruct (q <=? Hi r); [|done]. cbn [andb]. symmetry. apply Z.eqb_neq.
      rewrite Z.mod_small by lia. lia.
  - split; [done|]. intros q Hq. destruct (Z.leb_spec cp q); [|done]. by rewrite (proj2 (Z.leb_gt q (Hi r))) by lia.
Qed.

Lemma lor_twice a b : Z.lor (Z.lor a b) b = Z.lor a b.
Proof. by rewrite <- Z.lor_assoc, Z.lor_diag. Qed.

Lemma set_ranges_exact rs t bits : table_wf t → Forall range_ok rs →
  table_wf (set_ranges t rs bits) ∧
  ∀ q, code_point q → cell (set_ranges t rs bits) q = if existsb (in_range q) rs then Z.lor (cell t q) bits else cell t q.
Proof.
  intros Hw Hrs. revert t Hw. induction Hrs as [|r rs Hr _ IH]; intros t Hw; [done|]. pose proof Hr as [Hlo _ _].
  destruct (set_range_exact (Z.to_nat (Hi r - Lo r + 1)) t (Lo r) r bits Hw Hr Hlo ltac:(lia)) as [Hw' Hc]. destruct (IH _ Hw') as [Hw'' Hc'].
  split; [exact Hw''|]. intros q Hq. unfold set_ranges in *. cbn [fold_left existsb]. rewrite Hc', Hc by done. fold (in_range q r).
  destruct (in_range q r), (existsb (in_range q) rs); cbn [orb]; rewrite ?lor_twice; done.
Qed.

Definition tables_ok (u : unicode) : Prop := Forall (λ c, Forall range_ok c.1) (categories u).

Lemma no_classes_wf : table_wf no_classes ∧ ∀ q, code_point q → cell no_classes q = 0.
Proof.
  assert (∀ p, 0 <= p < pages → at_ (t_index no_classes) p = 0) as Hz by (intros p Hp; apply at_replicate; unfold pages in Hp; lia). split.
  - split; try done.
    + intros p Hp. rewrite Hz by done. done.
    + intros b Hb. cbn in Hb. by replace b with 0 by lia.
    + intros p q Hp _ _. by rewrite Hz.
  - intros q Hq. destruct (page_split q Hq) as (Hp & Hl & _). unfold cell. rewrite Hz by done. by apply at_replicate.
Qed.

Lemma fold_categories cs t c0 : table_wf t → Forall (λ c, Forall range_ok c.1) cs → ∀ q, code_point q → cell t q = c0 →
  cell (fold_left (λ t c, set_ranges t c.1 c.2) cs t) q = fold_left (λ c k, if existsb (in_range q) k.1 then Z.lor c k.2 else c) cs c0.
Proof.
  intros Hw Hcs q Hq. revert t c0 Hw. induction Hcs as [|[rs bits] cs Hrs _ IH]; intros t c0 Hw <-; [done|]. cbn [fold_left fst snd].
  destruct (set_ranges_exact rs t bits Hw Hrs) as [Hw' Hc]. apply IH; [done|]. by rewrite Hc.
Qed.

Lemma classes_cell u q : tables_ok u → code_point q → class (classes u) q = classes_of (categories u) q.
Proof.
  intros Hu Hq. rewrite class_cell by done. destruct no_classes_wf as [Hw Hz]. unfold classes_of. rewrite <- (fold_categories (categories u) no_classes 0 Hw Hu q Hq (Hz q Hq)). done.
Qed.

Lemma classes_ascii u b : 0 <= b < 128 → at_ (t_ascii (classes u)) b = class (classes u) b.
Proof.
  intros Hb. unfold at_. cbn [classes t_ascii]. rewrite list_lookup_fmap, lookup_seq_lt by lia. cbn. rewrite Z2Nat.id by lia. done.
Qed.

(** The table of character classes says of every code point what the categories of package
    [unicode] say: its classes are those of the categories whose ranges hold it, strides included,
    and no others; the flat array for ASCII agrees with the table of blocks; and a rune that is no
    code point has none. *)
Theorem classes_exact u : tables_ok u →
  (∀ r, 0 <= r <= MaxRune → class (classes u) r = classes_of (categories u) r) ∧
  (∀ b, 0 <= b < RuneSelf → at_ (t_ascii (classes u)) b = classes_of (categories u) b) ∧
  (∀ r, - 2 ^ 31 <= r < 2 ^ 31 → ¬ (0 <= r <= MaxRune) → class (classes u) r = 0).
Proof.
  intros Hu. split; [intros r Hr; by apply classes_cell|]. split.
  - intros b Hb. unfold RuneSelf in Hb. rewrite classes_ascii by done. apply classes_cell; [done|]. unfold code_point, MaxRune. lia.
  - intros r Hr Hn. unfold class. unfold MaxRune in *. rewrite (proj2 (Z.ltb_lt _ _)); [done|]. Z.to_euclidean_division_equations. lia.
Qed.
