(* ===== verification/TokenEncode.v ===== *)
(** * Encoding and counting text

    [Encoding] of [internal/operations/tokenization/estimate/encoding.go]: an encoding whose rank
    file is parsed once, the loop that encodes a text piece by piece, and the one that counts the
    pieces of a prefix. *)

From S2P Require Import Prelude Go Source SourceParser TokenVocab TokenHeap TokenMerge TokenScan.
From Stdlib Require Import Ascii.
Local Open Scope Z_scope.

(** An error of the rank file, with the name of the encoding before it. *)
Definition load_error : Type := text * rank_error.

(** An [Encoding]: the fields [load] sets are [None] until it has run. *)
Record Encoding := mkEncoding {
  e_name : text; e_ranks : text; e_scan : classTable → text → nat;
  e_once : bool; e_vocab : option vocab; e_classes : option classTable; e_err : option load_error;
}.

Definition O200kBase (ranks : text) : Encoding := mkEncoding (txt "o200k_base") ranks scanO200k false None None None.
Definition CL100kBase (ranks : text) : Encoding := mkEncoding (txt "cl100k_base") ranks scanCL100k false None None None.

Section Encode.
(** The tables of package [unicode], and what the pool of working sets gives for a piece. *)
Context (u : unicode) (pool : text → scratch).

(** [load]; [None] when the parse panics or does not end. *)
Definition load (e : Encoding) : option (Encoding * option load_error) :=
  if e_once e then Some (e, e_err e)
  else
    match newVocab (e_ranks e) with
    | Built v => Some (mkEncoding (e_name e) (e_ranks e) (e_scan e) true (Some v) (Some (classes u)) None, None)
    | Refused err => Some (mkEncoding (e_name e) (e_ranks e) (e_scan e) true None (Some (classes u)) (Some (e_name e, err)), Some (e_name e, err))
    | Panicked | Endless => None
    end.

(** The rank of the bytes of a part. *)
Definition rank_of (v : vocab) (t : text) : Z := default noRank (vocab_rank v t).

Section Loops.
Context (v : vocab) (scan : text → nat).

(** The loop of [Encode]: [rest] is [text[i:]]. *)
Fixpoint encode_loop (fuel : nat) (ids : list Z) (rest : text) : option (list Z) :=
  match rest with
  | [] => Some ids
  | _ =>
      match fuel with
      | O => None
      | S fuel =>
          let w := scan rest in
          match appendPiece (rank_of v) pool ids (take w rest) with
          | Some ids => encode_loop fuel ids (drop w rest)
          | None => None
          end
      end
  end.

(** The loop of [countPrefix]. *)
Fixpoint count_loop (fuel : nat) (limit tokens covered : Z) (rest : text) : option (Z * Z) :=
  match rest with
  | [] => Some (tokens, covered)
  | _ =>
      match fuel with
      | O => None
      | S fuel =>
          let w := scan rest in
          let end_ := covered + Z.of_nat w in
          if end_ >? limit then Some (tokens, covered)
          else match countPiece (rank_of v) pool (take w rest) with
               | Some n => count_loop fuel limit (tokens + n) end_ (drop w rest)
               | None => None
               end
      end
  end.
End Loops.

(** The tables of an encoding that has loaded. *)
Definition with_tables {A} (e : Encoding) (f : vocab → (text → nat) → option A) : option (Encoding * (load_error + A)) :=
  match load e with
  | Some (e, Some err) => Some (e, inl err)
  | Some (e, None) =>
      match e_vocab e, e_classes e with
      | Some v, Some t => match f v (e_scan e t) with Some a => Some (e, inr a) | None => None end
      | _, _ => None
      end
  | None => None
  end.

Definition Encode (e : Encoding) (s : text) : option (Encoding * (load_error + list Z)) :=
  with_tables e (λ v scan, encode_loop v scan (length s) [] s).

Definition countPrefix (e : Encoding) (s : text) (limit : Z) : option (Encoding * (load_error + Z * Z)) :=
  with_tables e (λ v scan, count_loop v scan (length s) limit 0 0 s).

Definition Count (e : Encoding) (s : text) : option (Encoding * (load_error + Z)) :=
  match countPrefix e s (size_of s) with
  | Some (e, inr (n, _)) => Some (e, inr n)
  | Some (e, inl err) => Some (e, inl err)
  | None => None
  end.

(** [Preload]: both encodings, the second only when the first is parsed. *)
Definition Preload (o cl : Encoding) : option (Encoding * Encoding * option load_error) :=
  match load o with
  | Some (o, Some err) => Some (o, cl, Some err)
  | Some (o, None) => match load cl with Some (cl, err) => Some (o, cl, err) | None => None end
  | None => None
  end.
End Encode.
