(* ===== verification/TokenEncodeFacts.v ===== *)
(** * Encoding loses nothing, and counting agrees with it

    Over the tables of package [unicode], the scanners split text where the patterns of their
    encodings first match; encoding then decodes to the text it was given, and counting, of the
    text or of a prefix, is the number of tokens encoding gives the same pieces. *)

From S2P Require Import Prelude Go Source SourceParser TokenVocab TokenVocabFacts TokenHeap TokenMerge TokenMergeFacts TokenLarge TokenPiece.
From S2P Require Import TokenScan TokenRegex TokenScanExact TokenClasses TokenEncode.
From Stdlib Require Import Ascii.
Local Open Scope Z_scope.
Local Open Scope olp_scope.

(** ** The tables of package unicode *)

Definition in_table (rs : list range) (r : Z) : bool := existsb (in_range r) rs.

(** The ranges are of code points, and the space and the line breaks are white space and neither
    letters nor numbers. *)
Record unicode_ok (u : unicode) : Prop := mkUnicodeOk {
  ranges_ok : tables_ok u;
  white : ∀ r, r = 0x20 ∨ r = 0x0A ∨ r = 0x0D → in_table (unicode_White_Space u) r = true ∧
    in_table (unicode_Lu u) r = false ∧ in_table (unicode_Lt u) r = false ∧ in_table (unicode_Ll u) r = false ∧
    in_table (unicode_Lm u) r = false ∧ in_table (unicode_Lo u) r = false ∧ in_table (unicode_N u) r = false;
}.

Lemma classes_table_ok u : unicode_ok u → table_ok (classes u).
Proof.
  intros [Hu Hw]. split.
  - intros b Hb. apply classes_ascii. done.
  - intros r Hr. assert (code_point r) as Hp by (unfold code_point, MaxRune; lia). rewrite classes_cell by done. destruct (Hw r Hr) as (W & E1 & E2 & E3 & E4 & E5 & E6).
    unfold in_table in *. unfold classes_of. cbn [fold_left categories fst snd]. rewrite W, E1, E2, E3, E4, E5, E6. destruct (existsb (in_range r) (unicode_M u)); vm_compute; done.
  - intros r Hr. rewrite classes_cell by done. unfold classes_of. cbn [fold_left categories fst snd].
    destruct (existsb (in_range r) (unicode_Lu u)), (existsb (in_range r) (unicode_Lt u)), (existsb (in_range r) (unicode_Ll u)), (existsb (in_range r) (unicode_Lm u)),
      (existsb (in_range r) (unicode_Lo u)), (existsb (in_range r) (unicode_M u)), (existsb (in_range r) (unicode_N u)), (existsb (in_range r) (unicode_White_Space u)); vm_compute; done.
Qed.

(** A small alphabet for the witnesses. *)
Definition sample_unicode : unicode :=
  mkUnicode [mkRange 0x41 0x5A 1] [] [mkRange 0x61 0x7A 1; mkRange 0x17F 0x181 2] [] [mkRange 0x4E00 0x4EFF 1] [mkRange 0x300 0x30F 1] [mkRange 0x30 0x39 1]
    [mkRange 0x09 0x0D 1; mkRange 0x20 0x20 1].

Lemma sample_unicode_ok : unicode_ok sample_unicode.
Proof.
  split.
  - unfold tables_ok, sample_unicode. cbn. repeat constructor; vm_compute; discriminate.
  - intros r [-> | [-> | ->] ]; vm_compute; auto 10.
Qed.

Lemma classes_exact_witness : tables_ok sample_unicode ∧ class (classes sample_unicode) 0x181 = Z.lor cLower cLetter ∧ class (classes sample_unicode) 0x180 = 0.
Proof.
  assert (tables_ok sample_unicode) as H by exact (ranges_ok _ sample_unicode_ok). split; [exact H|]. destruct (classes_exact sample_unicode H) as [E _].
  rewrite !E by (unfold MaxRune; lia). split; reflexivity.
Defined.

(** Splitting text for [cl100k_base] finds what its pattern matches. At the start of any text
    that is not empty, valid UTF-8 or not, the scanner takes exactly the piece that a backtracking
    engine finds first for the pattern, alternatives in order, possessive and greedy repetition and
    lookahead included; the piece is not empty and is in the text. *)
Theorem scan_cl100k_first_match u s : unicode_ok u → s ≠ [] →
  first_match (cl100k (classes u)) s = Some (scanCL100k (classes u) s) ∧ (1 ≤ scanCL100k (classes u) s ≤ length s)%nat.
Proof.
  intros Hu Hs. pose proof (scan_cl100k (classes u) (classes_table_ok u Hu) s Hs) as E. split; [done|]. by apply (first_match_bounds (cl100k (classes u))).
Qed.

Lemma scan_cl100k_first_match_witness :
  first_match (cl100k (classes sample_unicode)) (txt "'Ll go") = Some 3%nat ∧ first_match (cl100k (classes sample_unicode)) (txt "  ab1") = Some 1%nat.
Proof.
  split; (etransitivity; [apply scan_cl100k_first_match; [exact sample_unicode_ok|discriminate]|vm_compute; reflexivity]).
Defined.

(** C30. Splitting text for [o200k_base] finds what its pattern matches. Its repetitions give runes
    back, and a mark can be a prefix or part of the word: at the start of any text that is not
    empty the scanner takes exactly the piece that a backtracking engine finds first; the piece is
    not empty and is in the text. *)
Theorem scan_o200k_first_match u s : unicode_ok u → s ≠ [] →
  first_match (o200k (classes u)) s = Some (scanO200k (classes u) s) ∧ (1 ≤ scanO200k (classes u) s ≤ length s)%nat.
Proof.
  intros Hu Hs. pose proof (scan_o200k (classes u) (classes_table_ok u Hu) s Hs) as E. split; [done|]. by apply (first_match_bounds (o200k (classes u))).
Qed.

(** Two capitals and an ideograph before another capital, and a line break inside white space. *)
Definition sample_mixed : text := txt "AB" ++ of_codes [0xE4; 0xB8; 0x80] ++ txt "X".
Definition sample_spaces : text := txt " " ++ of_codes [0x0A; 0x20; 0x20] ++ txt "x".

Lemma scan_o200k_first_match_witness :
  first_match (o200k (classes sample_unicode)) sample_mixed = Some 5%nat ∧ first_match (o200k (classes sample_unicode)) sample_spaces = Some 2%nat.
Proof.
  split; (etransitivity; [apply scan_o200k_first_match; [exact sample_unicode_ok|discriminate]|vm_compute; reflexivity]).
Defined.

(** ** Loops over the pieces *)

(** What the ids of tokens stand for. *)
Definition decode (v : vocab) (ids : list Z) : text := concat (token v <$> ids).

(** The pieces a scanner splits a text into. *)
Fixpoint pieces (scan : text → nat) (fuel : nat) (s : text) : list text :=
  match fuel, s with
  | S fuel, _ :: _ => take (scan s) s :: pieces scan fuel (drop (scan s) s)
  | _, _ => []
  end.

(** A vocabulary of [n] tokens in which every byte is one, and the lookup gives the rank of exactly the tokens. *)
Record serves (v : vocab) (n : nat) : Prop := mkServes {
  serve_few : Z.of_nat n < rankMask;
  serve_rank : ∀ t, ∃ r, vocab_rank v t = Some r ∧ ((r = noRank ∧ t ∉ tokens v n) ∨ tokens v n !! Z.to_nat r = Some t ∧ 0 <= r < Z.of_nat n);
  serve_byte : ∀ a, [a] ∈ tokens v n;
}.

Lemma built_serves data v : newVocab data = Built v → ∃ n, serves v n.
Proof. intros E. pose proof (newVocab_exact data) as H. unfold vocab_exact in H. rewrite E in H. destruct H as (n & Hn & _ & Hr & _ & Hb). exists n. split; [lia|done..]. Qed.

Lemma few_ranks n : Z.of_nat n < rankMask → Z.of_nat n < noRank.
Proof. intros H. change rankMask with 262143 in H. change noRank with 4294967295. lia. Qed.

(** An id that is the rank of a token of the vocabulary. *)
Definition token_id (v : vocab) (r : Z) : Prop := vocab_rank v (token v r) = Some r ∧ r ≠ noRank.

Section Pieces.
Context (v : vocab) (n : nat) (Hv : serves v n) (pool : text → scratch) (pool_ok : ∀ t, pooled_ok (pool t)).
Context (scan : text → nat) (scan_ok : ∀ s, s ≠ [] → (1 ≤ scan s ≤ length s)%nat).

Lemma rank_of_range t : 0 <= rank_of v t <= noRank.
Proof.
  unfold rank_of. destruct (serve_rank v n Hv t) as (r & -> & [ [-> _] | [_ Hr] ]); cbn; [change noRank with 4294967295; lia|]. pose proof (few_ranks n (serve_few v n Hv)). lia.
Qed.

Lemma rank_of_token t : rank_of v t ≠ noRank → token v (rank_of v t) = t ∧ token_id v (rank_of v t).
Proof.
  unfold rank_of, token_id. destruct (serve_rank v n Hv t) as (r & Er & [ [-> _] | [E Hr] ]); rewrite Er; [done|]. cbn. intros Hne.
  unfold tokens in E. apply list_lookup_fmap_Some in E as (i & -> & [-> Hi]%lookup_seq).
  replace (Z.of_nat (0 + Z.to_nat r)) with r in * by lia. done.
Qed.

Lemma rank_of_byte a : rank_of v [a] ≠ noRank.
Proof.
  unfold rank_of. destruct (serve_rank v n Hv [a]) as (r & -> & [ [_ E] | [_ Hr] ]); [by destruct (E (serve_byte v n Hv a))|]. cbn.
  pose proof (few_ranks n (serve_few v n Hv)). lia.
Qed.

Definition piece_ids (p : text) : list Z := default [] (appendPiece (rank_of v) pool [] p).

(** The ids of a piece, counted, decoded and in range. *)
Lemma piece_ids_ok p : p ≠ [] →
  (∀ dst, appendPiece (rank_of v) pool dst p = Some (dst ++ piece_ids p)) ∧ countPiece (rank_of v) pool p = Some (Z.of_nat (length (piece_ids p))) ∧
  decode v (piece_ids p) = p ∧ Forall (token_id v) (piece_ids p).
Proof.
  intros Hp. destruct (piece_tokens (rank_of v) rank_of_range pool pool_ok p Hp rank_of_byte) as (qs & E & Hq & Hc & Ha).
  assert (piece_ids p = rank_of v <$> qs) as -> by (unfold piece_ids; by rewrite Ha). rewrite length_fmap. split; [done|]. split; [done|].
  unfold decode. split; [|apply Forall_fmap; eapply Forall_impl; [done|]; intros t Ht; by apply rank_of_token].
  rewrite <- E. f_equal. clear -Hv Hq. induction Hq as [|t qs Ht _ IH]; [done|]. cbn. f_equal; [by apply rank_of_token|done].
Qed.

Lemma decode_app l k : decode v (l ++ k) = decode v l ++ decode v k.
Proof. unfold decode. by rewrite fmap_app, concat_app. Qed.

(** The pieces tile the text. *)
Lemma pieces_tile fuel s : (length s ≤ fuel)%nat → concat (pieces scan fuel s) = s ∧ Forall (λ p, p ≠ []) (pieces scan fuel s).
Proof.
  revert s. induction fuel as [|fuel IH]; intros s H; [destruct s; [done|simpl in H; lia]|]. destruct s as [|a s]; [done|]. cbn [pieces].
  destruct (scan_ok (a :: s) ltac:(done)) as [H1 H2]. destruct (IH (drop (scan (a :: s)) (a :: s))) as [Ec Hf]; [rewrite length_drop; cbn [length] in *; lia|].
  cbn [concat]. rewrite Ec, take_drop. split; [done|]. constructor; [|done]. destruct (scan (a :: s)); [lia|done].
Qed.

Definition all_ids (ps : list text) : list Z := concat (piece_ids <$> ps).

Lemma all_ids_ok ps : Forall (λ p, p ≠ []) ps → decode v (all_ids ps) = concat ps ∧ Forall (token_id v) (all_ids ps).
Proof.
  unfold all_ids. induction 1 as [|p ps Hp _ [IH1 IH2] ]; [done|]. destruct (piece_ids_ok p Hp) as (_ & _ & E & Hr). cbn [fmap list_fmap concat].
  rewrite decode_app, E, IH1. split; [done|]. by apply Forall_app.
Qed.

Lemma encode_loop_ok fuel ids s : (length s ≤ fuel)%nat → encode_loop pool v scan fuel ids s = Some (ids ++ all_ids (pieces scan fuel s)).
Proof.
  revert ids s. induction fuel as [|fuel IH]; intros ids s H; [destruct s; [cbn; by rewrite app_nil_r|simpl in H; lia]|].
  destruct s as [|a s]; [cbn; by rewrite app_nil_r|]. cbn [encode_loop pieces]. destruct (scan_ok (a :: s) ltac:(done)) as [H1 H2].
  destruct (piece_ids_ok (take (scan (a :: s)) (a :: s))) as (Ea & _); [destruct (scan (a :: s)); [lia|done]|]. rewrite Ea.
  rewrite IH by (rewrite length_drop; cbn [length] in *; lia). by rewrite <- app_assoc.
Qed.

(** The count is of the pieces that end within the limit. *)
Lemma count_loop_ok fuel limit tokens covered s : (length s ≤ fuel)%nat → covered <= limit →
  ∃ k, (k ≤ length (pieces scan fuel s))%nat ∧ let ps := take k (pieces scan fuel s) in
    let covered' := covered + size_of (concat ps) in
    count_loop pool v scan fuel limit tokens covered s = Some (tokens + Z.of_nat (length (all_ids ps)), covered') ∧
    covered' <= limit ∧ ∀ p, pieces scan fuel s !! k = Some p → limit < covered' + size_of p.
Proof.
  revert tokens covered s. induction fuel as [|fuel IH]; intros tokens covered s H Hl.
  { destruct s; [|simpl in H; lia]. exists 0%nat. split; [lia|]. cbn. rewrite !Z.add_0_r. done. }
  destruct s as [|a s]; [exists 0%nat; split; [lia|]; cbn; rewrite !Z.add_0_r; done|]. cbn [count_loop pieces]. destruct (scan_ok (a :: s) ltac:(done)) as [H1 H2].
  assert (size_of (take (scan (a :: s)) (a :: s)) = Z.of_nat (scan (a :: s))) as Ew by (unfold size_of; rewrite length_take; lia).
  rewrite Z.gtb_ltb. destruct (Z.ltb_spec limit (covered + Z.of_nat (scan (a :: s)))) as [Hgt|Hle].
  { exists 0%nat. split; [lia|]. cbn [take concat]. change (size_of []) with 0. rewrite !Z.add_0_r. split; [done|]. split; [done|]. intros p [= <-]. lia. }
  destruct (piece_ids_ok (take (scan (a :: s)) (a :: s))) as (_ & -> & _); [destruct (scan (a :: s)); [lia|done]|].
  destruct (IH (tokens + Z.of_nat (length (piece_ids (take (scan (a :: s)) (a :: s))))) (covered + Z.of_nat (scan (a :: s))) (drop (scan (a :: s)) (a :: s)))
    as (k & Hk & E & Hc & Hn); [rewrite length_drop; cbn [length] in *; lia|done|].
  exists (S k). cbn [length]. split; [lia|]. cbn [take concat lookup list_lookup]. rewrite E. unfold all_ids. cbn [fmap list_fmap concat]. unfold size_of in *. rewrite !length_app, !Nat2Z.inj_add, Ew.
  split; [f_equal; f_equal; lia|]. split; [lia|]. intros p Hp. specialize (Hn p Hp). lia.
Qed.

Lemma piece_after fuel s k p : (length s ≤ fuel)%nat → pieces scan fuel s !! k = Some p →
  let rest := drop (length (concat (take k (pieces scan fuel s)))) s in rest ≠ [] ∧ p = take (scan rest) rest.
Proof.
  revert fuel s. induction k as [|k IH]; intros fuel s H E.
  - destruct fuel, s; try done. injection E as <-. done.
  - destruct fuel as [|fuel], s as [|a s]; try done. cbn [pieces lookup list_lookup] in E. destruct (scan_ok (a :: s) ltac:(done)) as [H1 H2].
    apply IH in E; [|rewrite length_drop; cbn [length] in *; lia]. cbn [pieces take concat]. rewrite length_app, length_take, Nat.min_l by done. by rewrite <- drop_drop.
Qed.
End Pieces.

(** ** Encodings *)

Section Encodings.
Context (u : unicode) (Hu : unicode_ok u) (pool : text → scratch) (pool_ok : ∀ t, pooled_ok (pool t)).

(** One of the two encodings over some rank file, parsed or not yet. *)
Record encoding_ok (e : Encoding) : Prop := mkEncodingOk {
  scan_of : e_scan e = scanO200k ∨ e_scan e = scanCL100k;
  once_of : e_once e = true →
    e_classes e = Some (classes u) ∧
    match newVocab (e_ranks e) with
    | Built v => e_vocab e = Some v ∧ e_err e = None
    | Refused err => e_err e = Some (e_name e, err)
    | Panicked | Endless => False
    end;
}.

(** The encoding once it has loaded. *)
Definition loaded (e : Encoding) (v : vocab) : Prop :=
  encoding_ok e ∧ e_once e = true ∧ e_vocab e = Some v ∧ e_classes e = Some (classes u) ∧ e_err e = None.

Lemma load_built e v : encoding_ok e → newVocab (e_ranks e) = Built v → ∃ e', load u e = Some (e', None) ∧ loaded e' v ∧ e_scan e' = e_scan e ∧ (load u e' = Some (e', None)).
Proof.
  intros [Hs Ho] E. unfold load, loaded. destruct (e_once e) eqn:Eo.
  - destruct (Ho eq_refl) as [Hc Hv]. pose proof Hv as Hv'. rewrite E in Hv. destruct Hv as [Ev Ee]. exists e. rewrite Eo, Ee. split; [done|]. split; [|done]. repeat split; try done.
  - rewrite E. eexists. split; [done|]. cbn. split; [|done]. repeat split; try done. cbn. rewrite E. done.
Qed.

Lemma load_refused e err : encoding_ok e → newVocab (e_ranks e) = Refused err → ∃ e', load u e = Some (e', Some (e_name e, err)).
Proof.
  intros [_ Ho] E. unfold load. destruct (e_once e); [|rewrite E; eauto]. destruct (Ho eq_refl) as [_ Hv]. rewrite E in Hv. rewrite Hv. eauto.
Qed.

Lemma scan_advances e s : encoding_ok e → s ≠ [] → (1 ≤ e_scan e (classes u) s ≤ length s)%nat.
Proof.
  intros He Hs. pose proof (classes_table_ok u Hu) as Ht. destruct (scan_of e He) as [-> | ->].
  - by apply (first_match_bounds (o200k (classes u))); [|apply scan_o200k].
  - by apply (first_match_bounds (cl100k (classes u))); [|apply scan_cl100k].
Qed.

Lemma with_tables_built {A} e v e' (f : vocab → (text → nat) → option A) : load u e = Some (e', None) → loaded e' v → e_scan e' = e_scan e →
  with_tables u e f = match f v (e_scan e (classes u)) with Some a => Some (e', inr a) | None => None end.
Proof. intros El (_ & _ & Ev & Ec & _) Es. unfold with_tables. by rewrite El, Ev, Ec, Es. Qed.

(** Encoding and counting a prefix, side by side. *)
Lemma encode_and_count e v s : encoding_ok e → newVocab (e_ranks e) = Built v → ∃ e', loaded e' v ∧
  ∀ limit, 0 <= limit → ∃ ids ids' covered,
    Encode u pool e s = Some (e', inr (ids ++ ids')) ∧ countPrefix u pool e s limit = Some (e', inr (Z.of_nat (length ids), covered)) ∧
    decode v ids = take (Z.to_nat covered) s ∧ decode v ids' = drop (Z.to_nat covered) s ∧ Forall (token_id v) (ids ++ ids') ∧
    0 <= covered <= Z.min limit (size_of s) ∧ (covered < size_of s → limit < covered + Z.of_nat (e_scan e (classes u) (drop (Z.to_nat covered) s))).
Proof.
  intros He E. destruct (load_built e v He E) as (e' & El & Hl & Es & _). exists e'. split; [done|]. intros limit H0.
  destruct (built_serves _ v E) as [n Hv]. pose proof (λ s, scan_advances e s He) as Hscan. unfold Encode, countPrefix. rewrite !(with_tables_built e v e') by done.
  set (scan := e_scan e (classes u)) in *.
  rewrite (encode_loop_ok v n Hv pool pool_ok scan Hscan (length s) [] s) by done. cbn [app].
  destruct (count_loop_ok v n Hv pool pool_ok scan Hscan (length s) limit 0 0 s (le_n _) H0) as (k & Hk & Ec & Hc & Hn). rewrite Ec.
  destruct (pieces_tile scan Hscan (length s) s (le_n _)) as [Et Hf]. set (ps := pieces scan (length s) s) in *.
  assert (all_ids v pool ps = all_ids v pool (take k ps) ++ all_ids v pool (drop k ps)) as Ea by (unfold all_ids; by rewrite <- concat_app, <- fmap_app, take_drop).
  assert (s = concat (take k ps) ++ concat (drop k ps)) as Esp by (by rewrite <- concat_app, take_drop).
  destruct (all_ids_ok v n Hv pool pool_ok (take k ps) (Forall_take _ _ _ Hf)) as [D1 F1]. destruct (all_ids_ok v n Hv pool pool_ok (drop k ps) (Forall_drop _ _ _ Hf)) as [D2 F2].
  exists (all_ids v pool (take k ps)), (all_ids v pool (drop k ps)), (0 + size_of (concat (take k ps))). rewrite <- Ea. cbn [Z.add] in *.
  split; [done|]. split; [done|]. unfold size_of in *. rewrite Z.add_0_l, Nat2Z.id in *.
  split; [rewrite D1, Esp at 1; by rewrite take_app_length|]. split; [rewrite D2, Esp at 1; by rewrite drop_app_length|].
  split; [rewrite Ea; by apply Forall_app|].
  split; [apply (f_equal length) in Esp; rewrite length_app in Esp; lia|]. intros Hlt.
  destruct (ps !! k) as [p|] eqn:Ep.
  - specialize (Hn p eq_refl). destruct (piece_after scan Hscan (length s) s k p (le_n _) Ep) as [Hr ->]. fold ps in Hr, Hn.
    destruct (Hscan _ Hr) as [_ Hle]. rewrite length_take, Nat.min_l in Hn by done. done.
  - apply lookup_ge_None in Ep. rewrite take_ge in Hlt by done. rewrite Et in Hlt. lia.
Qed.
(** A text within the limit is counted whole. *)
Lemma encode_whole e v s limit : encoding_ok e → newVocab (e_ranks e) = Built v → size_of s <= limit → ∃ e' ids, loaded e' v ∧
  Encode u pool e s = Some (e', inr ids) ∧ countPrefix u pool e s limit = Some (e', inr (Z.of_nat (length ids), size_of s)) ∧
  decode v ids = s ∧ Forall (token_id v) ids.
Proof.
  intros He E Hs. destruct (encode_and_count e v s He E) as (e' & Hl & H).
  destruct (H limit) as (ids & ids' & c & EE & EC & D1 & D2 & F & Hc & Hn); [unfold size_of in *; lia|].
  assert (c = size_of s) as ->.
  { destruct (decide (c < size_of s)) as [Hlt|]; [|lia]. specialize (Hn Hlt). destruct (scan_advances e (drop (Z.to_nat c) s) He) as [_ Hle].
    - intros E0. apply (f_equal length) in E0. rewrite length_drop in E0. unfold size_of in *. cbn in E0. lia.
    - rewrite length_drop in Hle. unfold size_of in *. lia. }
  unfold size_of in *. rewrite Nat2Z.id in *. rewrite drop_all in D2. rewrite take_ge in D1 by done.
  assert (ids' = []) as ->.
  { destruct ids' as [|r ids']; [done|]. apply Forall_app in F as [_ F]. apply Forall_cons in F as [ [F1 F2] _]. unfold decode in D2. cbn in D2.
    apply app_eq_nil in D2 as [D2 _]. rewrite D2 in F1. cbn in F1. congruence. }
  rewrite app_nil_r in *. exists e', ids. done.
Qed.
End Encodings.

(** C28. Encoding loses nothing. For either encoding, over any rank file that parses and on the
    first use or any later one, encoding any text succeeds: every id is the rank of a token, the
    tokens of the ids put together are the text, and counting the text gives their number. *)
Theorem encode_decodes u pool e v s : unicode_ok u → (∀ t, pooled_ok (pool t)) → encoding_ok u e → newVocab (e_ranks e) = Built v →
  ∃ e' ids, Encode u pool e s = Some (e', inr ids) ∧ encoding_ok u e' ∧ decode v ids = s ∧ Forall (token_id v) ids ∧
    Count u pool e s = Some (e', inr (Z.of_nat (length ids))).
Proof.
  intros Hu Hp He E. destruct (encode_whole u Hu pool Hp e v s (size_of s) He E ltac:(done)) as (e' & ids & Hl & EE & EC & D & F).
  exists e', ids. split; [done|]. split; [apply Hl|]. split; [done|]. split; [done|]. unfold Count. by rewrite EC.
Qed.

Definition sample_text : text := txt "AB'll abc  123".

Lemma encode_decodes_witness : ∃ v e' ids, newVocab sample_ranks = Built v ∧
  Encode sample_unicode sample_pool (O200kBase sample_ranks) sample_text = Some (e', inr ids) ∧ decode v ids = sample_text.
Proof.
  destruct (newVocab sample_ranks) as [v| | |] eqn:E; [|exfalso; pose proof sample_ranks_built as H; rewrite E in H; exact H..].
  destruct (encode_decodes sample_unicode sample_pool (O200kBase sample_ranks) v sample_text sample_unicode_ok
    (λ _, conj eq_refl eq_refl)) as (e' & ids & H1 & _ & H2 & _).
  - split; [left; reflexivity|discriminate].
  - exact E.
  - exists v, e', ids. split; [reflexivity|]. split; [exact H1|exact H2].
Defined.

(** Counting a prefix counts the tokens encoding the whole text gives it. The prefix ends within
    the limit and on a boundary between pieces, the count is of the ids, in order, that encoding
    the whole text gives the prefix, the other ids decode to the rest of the text, and the piece
    that comes next would cross the limit. *)
Theorem count_prefix_tokens u pool e v s limit : unicode_ok u → (∀ t, pooled_ok (pool t)) → encoding_ok u e → newVocab (e_ranks e) = Built v → 0 <= limit →
  ∃ e' ids ids' covered,
    Encode u pool e s = Some (e', inr (ids ++ ids')) ∧ countPrefix u pool e s limit = Some (e', inr (Z.of_nat (length ids), covered)) ∧
    decode v ids = take (Z.to_nat covered) s ∧ decode v ids' = drop (Z.to_nat covered) s ∧ 0 <= covered <= Z.min limit (size_of s) ∧
    (covered < size_of s → limit < covered + Z.of_nat (e_scan e (classes u) (drop (Z.to_nat covered) s))).
Proof.
  intros Hu Hp He E H0. destruct (encode_and_count u Hu pool Hp e v s He E) as (e' & _ & H). destruct (H limit H0) as (ids & ids' & c & H1 & H2 & H3 & H4 & _ & H5 & H6).
  exists e', ids, ids', c. done.
Qed.

Lemma count_prefix_tokens_witness : ∃ v e' n covered, newVocab sample_ranks = Built v ∧
  countPrefix sample_unicode sample_pool (CL100kBase sample_ranks) sample_text 7 = Some (e', inr (n, covered)) ∧ covered <= 7.
Proof.
  destruct (newVocab sample_ranks) as [v| | |] eqn:E; [|exfalso; pose proof sample_ranks_built as H; rewrite E in H; exact H..].
  destruct (count_prefix_tokens sample_unicode sample_pool (CL100kBase sample_ranks) v sample_text 7 sample_unicode_ok
    (λ _, conj eq_refl eq_refl)) as (e' & ids & ids' & c & _ & H1 & _ & _ & H2 & _).
  - split; [right; reflexivity|discriminate].
  - exact E.
  - lia.
  - exists v, e', (Z.of_nat (length ids)), c. split; [reflexivity|]. split; [exact H1|lia].
Defined.

(** An encoding whose rank file does not parse says so, every time, with its name. *)
Lemma encode_refused u pool e err s : encoding_ok u e → newVocab (e_ranks e) = Refused err →
  ∃ e', Encode u pool e s = Some (e', inl (e_name e, err)) ∧ Count u pool e s = Some (e', inl (e_name e, err)).
Proof. intros He E. destruct (load_refused u e err He E) as [e' El]. exists e'. unfold Encode, Count, countPrefix, with_tables. by rewrite El. Qed.

(** The sample text in the tokens of the sample file: six bytes, [abc] and five more. *)
Lemma sample_text_encoded :
  match Encode sample_unicode sample_pool (O200kBase sample_ranks) sample_text with
  | Some (_, inr ids) => ids = [65; 66; 39; 108; 108; 32; 257; 32; 32; 49; 50; 51]
  | _ => False
  end.
Proof. vm_compute. reflexivity. Qed.
