(* ===== verification/TokenMeter.v ===== *)
(** * Counters and meters

    [internal/operations/tokenization/estimate]: the family of a model and its counter
    ([registry.go]), the overhead of a chat format ([framing.go]) and the meter that counts the
    first part of a request exactly and charges the rest at its ratio ([meter.go]). The factors of
    the signed catalogue and [strings.ToLower] are parameters. Loading an encoding answers the
    same each time, so a counter holds an encoding and not its place in memory. *)

From S2P Require Import Prelude Go Source SourceParser TokenVocab TokenHeap TokenMerge TokenScan TokenEncode.
From Stdlib Require Import Ascii SpecFloat.
Local Open Scope Z_scope.

(** ** Saturating arithmetic *)

Definition MaxTokens : Z := Z.shiftl 1 53 - 1.

Definition multiplyBounded (a b : Z) : Z := if a >? Z.quot MaxTokens b then MaxTokens else wrap64 (a * b).
Definition addBounded (a b : Z) : Z := if a >? MaxTokens - b then MaxTokens else a + b.

(** ** The heuristic *)

Definition CharsPerToken : Z := 4.

(** [utf8.RuneCountInString] *)
Fixpoint rune_count (fuel : nat) (s : text) : Z :=
  match fuel, s with
  | S fuel, _ :: _ => 1 + rune_count fuel (drop (decode_rune s).2 s)
  | _, _ => 0
  end.

Definition HeuristicTokens (s : text) : Z := (rune_count (length s) s + CharsPerToken - 1) / CharsPerToken.
Definition HeuristicBytesTokens (n : Z) : Z := (n + CharsPerToken - 1) / CharsPerToken.

(** ** Families *)

Definition FamilyOpenAIO200k : string := "openai-o200k".
Definition FamilyOpenAICL100k : string := "openai-cl100k".
Definition FamilyAnthropic : string := "anthropic".
Definition FamilyGemini : string := "gemini".
Definition FamilyOther : string := "other".

Definition ProvenanceTokenizer : string := "tokenizer".
Definition ProvenanceCalibrated : string := "calibrated".
Definition ProvenanceHeuristic : string := "heuristic".

Definition isAlnum (b : ascii) : bool := (0x61 <=? code b) && (code b <=? 0x7A) || (0x30 <=? code b) && (code b <=? 0x39).

(** [strings.HasPrefix] *)
Definition starts_with (s p : text) : bool := bool_decide (p `prefix_of` s).

(** [strings.Index] *)
Definition index_of (s sub : text) : option nat := List.find (λ i, starts_with (drop i s) sub) (seq 0 (S (length s))).

Definition separated (o : option ascii) : bool := match o with None => true | Some b => negb (isAlnum b) end.

(** The byte before an index. *)
Definition before (s : text) (i : nat) : option ascii := match i with O => None | S i => s !! i end.

Fixpoint has_part_from (fuel : nat) (name part : text) (from : nat) : bool :=
  match fuel with
  | O => false
  | S fuel =>
      if Nat.ltb from (length name) then
        match index_of (drop from name) part with
        | None => false
        | Some i =>
            let start := (from + i)%nat in
            let end_ := (start + length part)%nat in
            if separated (before name start) && separated (name !! end_) then true
            else has_part_from fuel name part (S start)
        end
      else false
  end.

Definition hasPart (name part : text) : bool := has_part_from (length name) name part 0.

Definition openAIExact : list (text * string) :=
  [(txt "o1", FamilyOpenAIO200k); (txt "o3", FamilyOpenAIO200k); (txt "o4-mini", FamilyOpenAIO200k);
   (txt "gpt-5", FamilyOpenAIO200k); (txt "gpt-4.1", FamilyOpenAIO200k); (txt "gpt-4o", FamilyOpenAIO200k);
   (txt "gpt-4", FamilyOpenAICL100k); (txt "gpt-3.5-turbo", FamilyOpenAICL100k); (txt "gpt-3.5", FamilyOpenAICL100k);
   (txt "gpt-35-turbo", FamilyOpenAICL100k); (txt "davinci-002", FamilyOpenAICL100k); (txt "babbage-002", FamilyOpenAICL100k);
   (txt "text-embedding-ada-002", FamilyOpenAICL100k); (txt "text-embedding-3-small", FamilyOpenAICL100k);
   (txt "text-embedding-3-large", FamilyOpenAICL100k)].

Definition openAIPrefixes : list (text * string) :=
  [(txt "o1-", FamilyOpenAIO200k); (txt "o3-", FamilyOpenAIO200k); (txt "o4-mini-", FamilyOpenAIO200k);
   (txt "gpt-5", FamilyOpenAIO200k); (txt "gpt-4.5-", FamilyOpenAIO200k); (txt "gpt-4.1-", FamilyOpenAIO200k);
   (txt "chatgpt-4o-", FamilyOpenAIO200k); (txt "gpt-4o-", FamilyOpenAIO200k); (txt "gpt-oss-", FamilyOpenAIO200k);
   (txt "gpt-4-", FamilyOpenAICL100k); (txt "gpt-3.5-turbo-", FamilyOpenAICL100k); (txt "gpt-35-turbo-", FamilyOpenAICL100k)].

Definition openAIFamily (name : text) : option string :=
  match List.find (λ e, bool_decide (e.1 = name)) openAIExact with
  | Some e => Some e.2
  | None => snd <$> List.find (λ p, starts_with name p.1) openAIPrefixes
  end.

(** What follows the last slash, and what precedes the first colon. *)
Fixpoint after_slash (name : text) : option text :=
  match name with
  | [] => None
  | c :: rest => match after_slash rest with Some t => Some t | None => if Ascii.eqb c "/" then Some rest else None end
  end.

Fixpoint before_colon (name : text) : text :=
  match name with [] => [] | c :: rest => if Ascii.eqb c ":" then [] else c :: before_colon rest end.

(** [strings.TrimPrefix] *)
Definition trim_prefix (s p : text) : text := if starts_with s p then drop (length p) s else s.

Section Registry.
(** [strings.ToLower(strings.TrimSpace(s))], and the factor the catalogue measured for a family. *)
Context (lowered : text → text) (factors : string → option float64).

Definition FamilyOf (model : text) : string :=
  let name := lowered model in
  let name := default name (after_slash name) in
  let name := before_colon (trim_prefix name (txt "ft:")) in
  match openAIFamily name with
  | Some family => family
  | None => if hasPart name (txt "claude") then FamilyAnthropic else if hasPart name (txt "gemini") then FamilyGemini else FamilyOther
  end.

Record Counter := mkCounter { c_family : string; c_encoding : option Encoding; c_factor : float64 }.

(** [familyFactors()[family]]: zero for a family that was not measured. *)
Definition familyFactor (family : string) : float64 := default fzero (factors family).

Definition ForModel (o200k cl100k : Encoding) (model : text) : Counter :=
  let family := FamilyOf model in
  if decide (family = FamilyOpenAIO200k) then mkCounter family (Some o200k) fzero
  else if decide (family = FamilyOpenAICL100k) then mkCounter family (Some cl100k) fzero
  else if decide (family = FamilyAnthropic ∨ family = FamilyGemini) then mkCounter family None (familyFactor family)
  else mkCounter FamilyOther None (familyFactor FamilyOther).
End Registry.

(** [int64(math.Ceil(f))]; what does not fit becomes the least integer, as on amd64. *)
Definition ceil_int64 (f : float64) : Z :=
  match f with
  | S754_zero _ => 0
  | S754_finite s m e =>
      let v := if s then Zneg m else Zpos m in
      let c := if 0 <=? e then v * 2 ^ e else - (- v / 2 ^ (- e)) in
      if (MinInt64 <=? c) && (c <=? MaxInt64) then c else MinInt64
  | _ => MinInt64
  end.

(** [c.factor <= 0 || c.factor == 1] *)
Definition plain_factor (factor : float64) : bool := fle factor fzero || feq factor (fOfZ 1).

Definition scale (c : Counter) (heuristic : Z) : Z * string :=
  if plain_factor (c_factor c) then (heuristic, ProvenanceHeuristic)
  else (ceil_int64 (SFmul 53 1024 (fOfZ heuristic) (c_factor c)), ProvenanceCalibrated).

Definition Counter_Family (c : Counter) : string := if decide (c_family c = EmptyString) then FamilyOther else c_family c.

(** ** Framing *)

Definition TokensPerMessage : Z := 3.
Definition TokensPerName : Z := 1.
Definition ReplyPrimingTokens : Z := 3.

Record Framing := mkFraming { PerMessage : Z; PerName : Z; ReplyTokens : Z }.

Definition Counter_Framing (c : Counter) : Framing :=
  if decide (c_family c = FamilyOpenAIO200k ∨ c_family c = FamilyOpenAICL100k)
  then mkFraming TokensPerMessage TokensPerName ReplyPrimingTokens else mkFraming 0 0 0.

Definition Overhead (f : Framing) (messages names : Z) : Z :=
  if messages <=? 0 then 0 else messages * PerMessage f + names * PerName f + ReplyTokens f.

(** ** Meters *)

Definition ExactBytes : Z := Z.shiftl 32 10.
Definition minSample : Z := Z.quot ExactBytes 8.
Definition scanWindow : Z := Z.shiftl 2 10.

Record Meter := mkMeter {
  m_counter : Counter; m_encoding : option Encoding; m_budget : Z; m_tokens : Z; m_exactBytes : Z; m_tailBytes : Z; m_heuristic : Z;
}.

Definition measured (s : text) (known : Z) : Z := if known >=? 0 then known else HeuristicTokens s.

(** The loop of [prefixOf], from the cut at [n] down. *)
Fixpoint prefix_cut (n : nat) (s : text) : nat :=
  match n with
  | O => O
  | S n' => match s !! n with Some c => if RuneStart c then n else prefix_cut n' s | None => n end
  end.

Definition prefixOf (s : text) (n : Z) : text := if n >=? size_of s then s else take (prefix_cut (Z.to_nat n) s) s.

Section Meters.
Context (u : unicode) (pool : text → scratch).

(** [n, covered, _ = encoding.countPrefix(text, limit)] *)
Definition prefix_count (e : Encoding) (s : text) (limit : Z) : Z * Z :=
  match countPrefix u pool e s limit with Some (_, inr nc) => nc | _ => (0, 0) end.

(** [Counter.Meter]; [None] when parsing the rank file panics. *)
Definition Counter_Meter (c : Counter) : option Meter :=
  match c_encoding c with
  | None => Some (mkMeter c None 0 0 0 0 0)
  | Some e =>
      match load u e with
      | Some (e, None) => Some (mkMeter c (Some e) ExactBytes 0 0 0 0)
      | Some (_, Some _) => Some (mkMeter c None 0 0 0 0 0)
      | None => None
      end
  end.

Definition meter_add (m : Meter) (s : text) (rest heuristic : Z) : Meter :=
  if bool_decide (s = []) && (rest =? 0) then m
  else match m_encoding m with
  | None => mkMeter (m_counter m) None (m_budget m) (m_tokens m) (m_exactBytes m) (m_tailBytes m) (m_heuristic m + measured s heuristic)
  | Some e =>
      let '(n, covered) :=
        if (m_tailBytes m =? 0) && (m_budget m >? 0) then prefix_count e (prefixOf s (m_budget m + scanWindow)) (m_budget m) else (0, 0) in
      let budget := m_budget m - covered in
      let tokens := m_tokens m + n in
      let exact := m_exactBytes m + covered in
      if (covered <? size_of s) || (rest >? 0) then
        if exact =? 0 then mkMeter (m_counter m) None budget tokens exact (m_tailBytes m) (m_heuristic m + measured s heuristic)
        else mkMeter (m_counter m) (Some e) budget tokens exact (m_tailBytes m + (size_of s - covered) + rest) (m_heuristic m)
      else mkMeter (m_counter m) (Some e) budget tokens exact (m_tailBytes m) (m_heuristic m)
  end.

Definition Meter_Add (m : Meter) (s : text) : Meter := meter_add m s 0 (-1).

Definition Total (m : Meter) : Z * string :=
  match m_encoding m with
  | None => scale (m_counter m) (m_heuristic m)
  | Some _ =>
      if m_tailBytes m =? 0 then (m_tokens m, ProvenanceTokenizer)
      else if m_exactBytes m <? minSample then (addBounded (m_tokens m) (HeuristicBytesTokens (m_tailBytes m)), ProvenanceHeuristic)
      else (m_tokens m + Z.quot (m_tailBytes m * m_tokens m + m_exactBytes m - 1) (m_exactBytes m), ProvenanceCalibrated)
  end.

(** [Counter.Count] *)
Definition Counter_Count (c : Counter) (s : text) : option (Z * string) := (λ m, Total (Meter_Add m s)) <$> Counter_Meter c.
End Meters.
