(* ===== verification/TokenPrompt.v ===== *)
(** * What a prompt keeps and how it is counted

    The input a walk gathers ([input] of [internal/operations/tokenization/estimate/walk.go]): its
    text as segments that keep only what a counter reads, its roles, messages and flat charges;
    and how a counter counts one ([prompt.go]). *)

From S2P Require Import Prelude Go Source SourceParser TokenVocab TokenHeap TokenMerge TokenScan TokenEncode TokenMeter.
From Stdlib Require Import Ascii.
Local Open Scope Z_scope.

Definition ImageTokens : Z := 1000.
Definition MediaTokens : Z := 2000.
Definition retainBytes : Z := ExactBytes + 2 * scanWindow.

Record segment := mkSegment { s_text : text; s_rest : Z; s_heuristic : Z }.

#[export] Instance segment_eq_dec : EqDecision segment.
Proof. solve_decision. Defined.

Record input := mkInput {
  in_text : list segment; in_kept : Z; in_retain : Z; in_bytes : Z; in_heuristic : Z; in_roles : list text;
  in_messages : Z; in_names : Z; in_flat : Z; in_approx : bool;
}.

Definition no_input : input := mkInput [] 0 0 0 0 [] 0 0 0 false.

Definition with_segments (i : input) (segments : list segment) (kept : Z) : input :=
  mkInput segments kept (in_retain i) (in_bytes i) (in_heuristic i) (in_roles i) (in_messages i) (in_names i) (in_flat i) (in_approx i).

(** The charge and size of one text. *)
Definition charged (i : input) (s : text) : input :=
  mkInput (in_text i) (in_kept i) (in_retain i) (in_bytes i + size_of s) (addBounded (in_heuristic i) (HeuristicTokens s)) (in_roles i)
    (in_messages i) (in_names i) (in_flat i) (in_approx i).

(** The last segment, when it keeps no text. *)
Definition gathered (segments : list segment) : option (list segment * segment) :=
  match rev segments with
  | last :: before => if bool_decide (s_text last = []) then Some (rev before, last) else None
  | [] => None
  end.

Definition addText (i : input) (s : text) : input :=
  match s with
  | [] => i
  | _ =>
      let charge := HeuristicTokens s in
      let i := charged i s in
      let retain := if in_retain i >? 0 then in_retain i else retainBytes in
      let room := retain - in_kept i in
      if room >=? size_of s then with_segments i (in_text i ++ [mkSegment s 0 charge]) (in_kept i + size_of s)
      else if room >? 0 then
        let prefix := prefixOf s room in
        with_segments i (in_text i ++ [mkSegment prefix (size_of s - size_of prefix) charge]) retain
      else
        match gathered (in_text i) with
        | Some (before, last) =>
            with_segments i (before ++ [mkSegment [] (s_rest last + size_of s) (addBounded (s_heuristic last) charge)]) (in_kept i)
        | None => with_segments i (in_text i ++ [mkSegment [] (size_of s) charge]) (in_kept i)
        end
  end.

Definition addFlat (i : input) (tokens : Z) : input :=
  mkInput (in_text i) (in_kept i) (in_retain i) (in_bytes i) (in_heuristic i) (in_roles i) (in_messages i) (in_names i) (addBounded (in_flat i) tokens) (in_approx i).

(** [in.approx = true] *)
Definition guessed (i : input) : input :=
  mkInput (in_text i) (in_kept i) (in_retain i) (in_bytes i) (in_heuristic i) (in_roles i) (in_messages i) (in_names i) (in_flat i) true.

Definition addMedia (i : input) (tokens : Z) : input := guessed (addFlat i tokens).

(** [in.messages++], [in.roles = append(in.roles, role)] and [in.names++] *)
Definition addMessage (i : input) : input :=
  mkInput (in_text i) (in_kept i) (in_retain i) (in_bytes i) (in_heuristic i) (in_roles i) (in_messages i + 1) (in_names i) (in_flat i) (in_approx i).
Definition addRole (i : input) (role : text) : input :=
  mkInput (in_text i) (in_kept i) (in_retain i) (in_bytes i) (in_heuristic i) (in_roles i ++ [role]) (in_messages i) (in_names i) (in_flat i) (in_approx i).
Definition addName (i : input) : input :=
  mkInput (in_text i) (in_kept i) (in_retain i) (in_bytes i) (in_heuristic i) (in_roles i) (in_messages i) (in_names i + 1) (in_flat i) (in_approx i).

(** [empty] *)
Definition input_empty (i : input) : bool :=
  bool_decide (in_text i = []) && bool_decide (in_roles i = []) && (in_messages i =? 0) && (in_flat i =? 0).

(** [strings.Compare] *)
Fixpoint compare_text (a b : text) : comparison :=
  match a, b with
  | [], [] => Eq
  | [], _ => Lt
  | _, [] => Gt
  | x :: a, y :: b => match Z.compare (code x) (code y) with Eq => compare_text a b | c => c end
  end.

Definition roleBytes (roles : list text) : Z := foldr (λ r n, size_of r + n) 0 roles.

(** [Weaker] *)
Definition provenance_rank (p : string) : Z := if decide (p = ProvenanceTokenizer) then 0 else if decide (p = ProvenanceCalibrated) then 1 else 2.
Definition Weaker (a b : string) : string := if provenance_rank b >? provenance_rank a then b else a.

Record Tally_Count := mkCount { Tokens : Z; CountProvenance : string }.

#[export] Instance count_eq_dec : EqDecision Tally_Count.
Proof. solve_decision. Defined.

Section Counting.
(** [slices.SortFunc], whose order of equal elements is not specified. *)
Context (SortFunc : ∀ A, cmp A → list A → list A).

Definition sameElements {A} `{EqDecision A} (a b : list A) (compare : cmp A) : bool :=
  bool_decide (SortFunc A compare a = SortFunc A compare b).

(** [equal] *)
Definition input_equal (i o : input) : bool :=
  if negb (in_flat i =? in_flat o) || negb (Bool.eqb (in_approx i) (in_approx o)) || negb (in_messages i =? in_messages o) ||
     negb (in_names i =? in_names o) || negb (in_bytes i =? in_bytes o) ||
     negb (Nat.eqb (length (in_text i)) (length (in_text o))) || negb (Nat.eqb (length (in_roles i)) (length (in_roles o)))
  then false
  else if bool_decide (in_text i = in_text o) && bool_decide (in_roles i = in_roles o) then true
  else if in_bytes i + roleBytes (in_roles i) >? ExactBytes then false
  else sameElements (in_text i) (in_text o) (λ a b, compare_text (s_text a) (s_text b)) && sameElements (in_roles i) (in_roles o) compare_text.

Context (u : unicode) (pool : text → scratch).

Definition add_segment (m : Meter) (s : segment) : Meter := meter_add u pool m (s_text s) (s_rest s) (s_heuristic s).

(** [countWithBudget]: the count, and the budget left when one is shared. [None] when parsing
    the rank file panics. *)
Definition countWithBudget (c : Counter) (i : input) (primed : bool) (budget : option Z) : option (Tally_Count * option Z) :=
  match Counter_Meter u c with
  | None => None
  | Some m =>
      let m :=
        match budget with
        | None => m
        | Some b =>
            let left := Z.min (m_budget m) b in
            mkMeter (m_counter m) (if left =? 0 then None else m_encoding m) left (m_tokens m) (m_exactBytes m) (m_tailBytes m) (m_heuristic m)
        end in
      let shared (m : Meter) := match budget with Some _ => Some (m_budget m) | None => None end in
      match m_encoding m with
      | None => let '(tokens, provenance) := scale c (in_heuristic i) in Some (mkCount (addBounded tokens (in_flat i)) provenance, shared m)
      | Some _ =>
          let m := fold_left add_segment (in_text i) m in
          let m := match m_encoding m with Some _ => fold_left (Meter_Add u pool) (in_roles i) m | None => m end in
          let '(tokens, provenance) := Total m in
          match m_encoding m with
          | None => Some (mkCount (addBounded tokens (in_flat i)) provenance, shared m)
          | Some _ =>
              let f := Counter_Framing c in
              let f := if primed then mkFraming (PerMessage f) (PerName f) 0 else f in
              let tokens := addBounded tokens (Overhead f (in_messages i) (in_names i)) in
              let provenance := if in_approx i && bool_decide (provenance = ProvenanceTokenizer) then ProvenanceCalibrated else provenance in
              Some (mkCount (addBounded tokens (in_flat i)) provenance, shared m)
          end
      end
  end.

(** [count] *)
Definition count_input (c : Counter) (i : input) (primed : bool) : option Tally_Count := fst <$> countWithBudget c i primed None.
End Counting.
