(* ===== verification/TokenPromptFacts.v ===== *)
(** * Counting what a prompt keeps

    A prompt keeps the first bytes of its text and the size of the rest, and two prompts share
    their counts when they read alike. Both are sound: no counter would count the whole text
    otherwise, and prompts found equal are counted the same. *)

From S2P Require Import Prelude Go Source SourceParser TokenVocab TokenVocabFacts TokenHeap TokenMerge TokenMergeFacts TokenLarge TokenPiece.
From S2P Require Import TokenScan TokenRegex TokenScanExact TokenClasses TokenEncode TokenEncodeFacts TokenMeter TokenPrompt.
From Stdlib Require Import Ascii.
Local Open Scope Z_scope.
Local Open Scope olp_scope.

(** ** What a meter asks of an encoding *)

(** Counting a prefix stays within the limit and the text, and counts a text that fits whole, whatever the limit. *)
Class Tokenizer (count : text → Z → Z * Z) : Prop := {
  covered_within : ∀ s limit, 0 <= limit → 0 <= (count s limit).2 <= Z.min limit (size_of s);
  counted_whole : ∀ s limit, size_of s <= limit → count s limit = ((count s (size_of s)).1, size_of s);
  counted_empty : ∀ limit, count [] limit = (0, 0);
}.

Section Encodings.
Context (u : unicode) (Hu : unicode_ok u) (pool : text → scratch) (pool_ok : ∀ t, pooled_ok (pool t)).

(** A load without an error leaves an encoding whose rank file was parsed. *)
Lemma load_parsed e e' : encoding_ok u e → load u e = Some (e', None) → ∃ v, newVocab (e_ranks e') = Built v ∧ loaded u e' v.
Proof.
  intros He El. pose proof He as [Hs Ho]. unfold load in El. destruct (e_once e) eqn:Eo.
  - destruct (Ho eq_refl) as [Hc Hv]. injection El as <- Ee. destruct (newVocab (e_ranks e)) as [v|err| |] eqn:E; try done; [|congruence].
    exists v. split; [done|]. destruct Hv as [Hv _]. exact (conj He (conj Eo (conj Hv (conj Hc Ee)))).
  - destruct (newVocab (e_ranks e)) as [v|err| |] eqn:E; try done. injection El as <-. exists v. cbn. split; [done|]. repeat split; try done. cbn. by rewrite E.
Qed.

Lemma prefix_count_empty e limit : prefix_count u pool e [] limit = (0, 0).
Proof.
  unfold prefix_count, countPrefix, with_tables. destruct (load u e) as [ [e' [err|] ]|]; [done| |done]. destruct (e_vocab e'); [|done]. by destruct (e_classes e').
Qed.

#[export] Instance parsed_tokenizer e v : loaded u e v → newVocab (e_ranks e) = Built v → Tokenizer (prefix_count u pool e).
Proof.
  intros Hl E. pose proof Hl as (He & _). split.
  - intros s limit H0. destruct (encode_and_count u Hu pool pool_ok e v s He E) as (e' & _ & H). destruct (H limit H0) as (ids & ids' & c & _ & Ec & D1 & _ & F & Hc & _).
    unfold prefix_count. rewrite Ec. cbn. done.
  - intros s limit Hs. destruct (encode_whole u Hu pool pool_ok e v s limit He E Hs) as (e' & ids & _ & E1 & Ec & _).
    destruct (encode_whole u Hu pool pool_ok e v s (size_of s) He E ltac:(done)) as (e2 & ids2 & _ & E2 & Ec2 & _).
    rewrite E1 in E2. injection E2 as <- <-. unfold prefix_count. by rewrite Ec, Ec2.
  - apply prefix_count_empty.
Qed.
End Encodings.

(** ** Saturation *)

Lemma addBounded_min a b : addBounded a b = Z.min MaxTokens (a + b).
Proof. unfold addBounded. rewrite Z.gtb_ltb. destruct (Z.ltb_spec (MaxTokens - b) a); lia. Qed.

Lemma MaxTokens_pos : 0 < MaxTokens.
Proof. done. Qed.

Lemma rune_count_nonneg fuel s : 0 <= rune_count fuel s.
Proof. revert s. induction fuel as [|fuel IH]; intros [|a s]; cbn [rune_count]; try lia. specialize (IH (drop (decode_rune (a :: s)).2 (a :: s))). lia. Qed.

Lemma heuristic_nonneg s : 0 <= HeuristicTokens s.
Proof. unfold HeuristicTokens, CharsPerToken. pose proof (rune_count_nonneg (length s) s). apply Z.div_pos; lia. Qed.

Lemma size_cons (a : ascii) s : 0 < size_of (a :: s).
Proof. unfold size_of. cbn. lia. Qed.

(** ** Inputs and the texts they were given *)

(** An input some walk gathered, with the texts it was given in order. *)
Inductive walked : input → list text → Prop :=
  | walked_none : walked no_input []
  | walked_text i ts s : walked i ts → walked (addText i s) (ts ++ [s])
  | walked_flat i ts n : walked i ts → walked (addFlat i n) ts
  | walked_guess i ts : walked i ts → walked (guessed i) ts
  | walked_message i ts : walked i ts → walked (addMessage i) ts
  | walked_role i ts r : walked i ts → walked (addRole i r) ts
  | walked_name i ts : walked i ts → walked (addName i) ts.

Definition whole_segment (s : text) : segment := mkSegment s 0 (HeuristicTokens s).

(** The segments the texts would be, had they all been kept. *)
Definition whole (ts : list text) : list segment := whole_segment <$> filter (λ s, s ≠ []) ts.

(** Cutting each text to the room left, with no segments gathered. *)
Definition cut_text (st : list segment * Z) (s : text) : list segment * Z :=
  let '(segments, kept) := st in
  match s with
  | [] => st
  | _ =>
      let room := retainBytes - kept in
      if room >=? size_of s then (segments ++ [whole_segment s], kept + size_of s)
      else if room >? 0 then (segments ++ [mkSegment (prefixOf s room) (size_of s - size_of (prefixOf s room)) (HeuristicTokens s)], retainBytes)
      else (segments ++ [mkSegment [] (size_of s) (HeuristicTokens s)], kept)
  end.

Definition cut (ts : list text) : list segment * Z := fold_left cut_text ts ([], 0).

Definition charges (l : list segment) : Z := foldr (λ s n, s_heuristic s + n) 0 l.
Definition text_charges (ts : list text) : Z := foldr (λ s n, HeuristicTokens s + n) 0 ts.
Definition text_bytes (ts : list text) : Z := foldr (λ s n, size_of s + n) 0 ts.

Lemma foldr_sum_app {A} (f : A → Z) l k : foldr (λ s n, f s + n) 0 (l ++ k) = foldr (λ s n, f s + n) 0 l + foldr (λ s n, f s + n) 0 k.
Proof. induction l as [|x l IH]; cbn; lia. Qed.

(** Segments a walk makes: with a size and a charge, kept whole or cut. *)
Definition segment_ok (s : segment) : Prop := 0 <= s_rest s ∧ 0 <= s_heuristic s ∧ (s_text s = [] → 0 < s_rest s) ∧ (s_rest s = 0 → s = whole_segment (s_text s)).

Lemma charges_nonneg l : Forall segment_ok l → 0 <= charges l.
Proof. unfold charges. induction 1 as [|x l (_ & Hx & _) _ IH]; cbn; lia. Qed.

Lemma prefixOf_take s n : 0 <= n → ∃ k, prefixOf s n = take k s ∧ (Z.of_nat k <= n).
Proof.
  intros Hn. unfold prefixOf. rewrite Z.geb_leb. destruct (Z.leb_spec (size_of s) n) as [|H]; [exists (length s); rewrite take_ge by done; auto|].
  exists (prefix_cut (Z.to_nat n) s). split; [done|]. enough (∀ m, (prefix_cut m s ≤ m)%nat) as Hc by (specialize (Hc (Z.to_nat n)); lia).
  induction m as [|m IH]; [done|]. cbn [prefix_cut]. destruct (s !! S m); [destruct (RuneStart _)|]; lia.
Qed.

Lemma prefixOf_size s n : 0 <= n → size_of (prefixOf s n) <= Z.min n (size_of s).
Proof. intros Hn. destruct (prefixOf_take s n Hn) as (k & -> & Hk). unfold size_of. rewrite length_take. lia. Qed.

Record gathers (i : input) (ts : list text) : Prop := mkGathers {
  g_retain : in_retain i = 0;
  g_kept : in_kept i = (cut ts).2;
  g_ok : Forall segment_ok (in_text i);
  g_heuristic : in_heuristic i = Z.min MaxTokens (charges (in_text i));
  g_bytes : in_bytes i = text_bytes ts;
  g_bound : text_charges ts <= MaxTokens → charges (in_text i) = text_charges ts;
}.

Lemma gathered_spec l before last : gathered l = Some (before, last) → l = before ++ [last] ∧ s_text last = [].
Proof.
  unfold gathered. destruct (rev l) as [|x r] eqn:E; [done|]. case_bool_decide as H; [|done]. intros [= <- <-]. split; [|done].
  rewrite <- (rev_involutive l), E. done.
Qed.

Lemma whole_ok s : s ≠ [] → segment_ok (whole_segment s).
Proof. intros Hs. split; [done|]. split; [apply heuristic_nonneg|]. cbn. split; done. Qed.

Lemma cut_ok s n h : 0 < n → 0 <= h → segment_ok (mkSegment s n h).
Proof. intros Hn Hh. split; cbn; [lia|]. split; [done|]. split; lia. Qed.

Lemma cut_app ts s : cut (ts ++ [s]) = cut_text (cut ts) s.
Proof. unfold cut. by rewrite fold_left_app. Qed.

Lemma cut_text_kept st s : s ≠ [] →
  (cut_text st s).2 = let room := retainBytes - st.2 in if room >=? size_of s then st.2 + size_of s else if room >? 0 then retainBytes else st.2.
Proof.
  destruct st as [l k], s as [|a s]; [done|]. intros _. cbn [cut_text snd].
  destruct (retainBytes - k >=? size_of (a :: s)); [done|]. by destruct (retainBytes - k >? 0).
Qed.

Lemma gathers_text i ts s : gathers i ts → gathers (addText i s) (ts ++ [s]).
Proof.
  intros [G1 G2 G3 G4 G5 G6]. destruct s as [|a s0] eqn:Es.
  { cbn [addText]. split; try done; [by rewrite cut_app; cbn; destruct (cut ts)|unfold text_bytes; rewrite foldr_sum_app, G5; unfold text_bytes; cbn [foldr]; change (size_of []) with 0; lia|].
    unfold text_charges. rewrite foldr_sum_app. cbn [foldr]. change (HeuristicTokens []) with 0. rewrite !Z.add_0_r. exact G6. }
  rewrite <- Es. assert (s ≠ []) as Hs by (by rewrite Es). assert (0 < size_of s) as Hp by (rewrite Es; apply size_cons). pose proof (heuristic_nonneg s) as Hh.
  assert (addText i s = let j := charged i s in let room := retainBytes - in_kept i in
    if room >=? size_of s then with_segments j (in_text i ++ [whole_segment s]) (in_kept i + size_of s)
    else if room >? 0 then with_segments j (in_text i ++ [mkSegment (prefixOf s room) (size_of s - size_of (prefixOf s room)) (HeuristicTokens s)]) retainBytes
    else match gathered (in_text i) with
         | Some (before, last) => with_segments j (before ++ [mkSegment [] (s_rest last + size_of s) (addBounded (s_heuristic last) (HeuristicTokens s))]) (in_kept i)
         | None => with_segments j (in_text i ++ [mkSegment [] (size_of s) (HeuristicTokens s)]) (in_kept i)
         end) as ->.
  { rewrite Es. cbn [addText charged in_retain in_kept in_text]. by rewrite G1. }
  assert (∀ x, charges (in_text i ++ [x]) = charges (in_text i) + s_heuristic x) as Hch.
  { intros x. unfold charges. rewrite (foldr_sum_app s_heuristic). cbn. lia. }
  assert (text_charges (ts ++ [s]) = text_charges ts + HeuristicTokens s) as Htc by (unfold text_charges; rewrite foldr_sum_app; cbn; lia).
  assert (text_bytes (ts ++ [s]) = text_bytes ts + size_of s) as Htb by (unfold text_bytes; rewrite foldr_sum_app; cbn; lia).
  pose proof (charges_nonneg _ G3) as Hc0.
  assert ((cut (ts ++ [s])).2 = let room := retainBytes - in_kept i in if room >=? size_of s then in_kept i + size_of s else if room >? 0 then retainBytes else in_kept i) as Hk.
  { rewrite cut_app, G2, cut_text_kept by done. done. }
  cbn zeta in *. destruct (_ >=? _) eqn:E1; [|destruct (_ >? 0) eqn:E2; [|destruct (gathered _) as [ [before last]|] eqn:E3] ].
  - split; cbn [with_segments charged in_retain in_kept in_text in_heuristic in_bytes]; try done.
    + apply Forall_app. split; [done|]. apply Forall_singleton. by apply whole_ok.
    + rewrite addBounded_min, Hch, G4. cbn. lia.
    + rewrite Htb. lia.
    + rewrite Htc, Hch. intros. rewrite G6 by lia. done.
  - split; cbn [with_segments charged in_retain in_kept in_text in_heuristic in_bytes]; try done.
    + apply Forall_app. split; [done|]. apply Forall_singleton, cut_ok; [|done]. pose proof (prefixOf_size s (retainBytes - in_kept i)).
      rewrite Z.geb_leb in E1. rewrite Z.gtb_ltb in E2. bool_to_prop. lia.
    + rewrite addBounded_min, Hch, G4. cbn. lia.
    + rewrite Htb. lia.
    + rewrite Htc, Hch. intros. rewrite G6 by lia. done.
  - apply gathered_spec in E3 as [Et El].
    assert (charges (in_text i) = charges before + s_heuristic last) as Hb by (rewrite Et; unfold charges; rewrite (foldr_sum_app s_heuristic); cbn; lia).
    rewrite Et in G3. apply Forall_app in G3 as [G3 Hl]. pose proof (charges_nonneg _ G3) as Hb0. apply Forall_cons in Hl as [ (L1 & L2 & L3 & _) _]. specialize (L3 El).
    assert (∀ x, charges (before ++ [x]) = charges before + s_heuristic x) as Hch' by (intros x; unfold charges; rewrite (foldr_sum_app s_heuristic); cbn; lia).
    split; cbn [with_segments charged in_retain in_kept in_text in_heuristic in_bytes]; try done.
    + apply Forall_app. split; [done|]. pose proof MaxTokens_pos. apply Forall_singleton, cut_ok; rewrite ?addBounded_min; lia.
    + rewrite addBounded_min, Hch', G4, Hb. cbn [s_heuristic]. rewrite addBounded_min. lia.
    + rewrite Htb. lia.
    + rewrite Htc, Hch'. cbn [s_heuristic]. intros Hle. rewrite addBounded_min. specialize (G6 ltac:(lia)). lia.
  - split; cbn [with_segments charged in_retain in_kept in_text in_heuristic in_bytes]; try done.
    + apply Forall_app. split; [done|]. by apply Forall_singleton, cut_ok.
    + rewrite addBounded_min, Hch, G4. cbn. lia.
    + rewrite Htb. lia.
    + rewrite Htc, Hch. intros. rewrite G6 by lia. done.
Qed.

Lemma walked_gathers i ts : walked i ts → gathers i ts.
Proof. induction 1; [split; done|by apply gathers_text|..]; (destruct IHwalked as [G1 G2 G3 G4 G5 G6]; by split). Qed.

(** ** Meters over segments *)

Section Meters.
Context (u : unicode) (pool : text → scratch).
Notation add := (add_segment u pool).

(** A text that was not kept adds its size to the tail, or its charge. *)
Lemma add_unkept m n h : 0 < n → 0 <= h →
  add m (mkSegment [] n h) =
  match m_encoding m with
  | None => mkMeter (m_counter m) None (m_budget m) (m_tokens m) (m_exactBytes m) (m_tailBytes m) (m_heuristic m + h)
  | Some e =>
      if m_exactBytes m =? 0 then mkMeter (m_counter m) None (m_budget m) (m_tokens m) (m_exactBytes m) (m_tailBytes m) (m_heuristic m + h)
      else mkMeter (m_counter m) (Some e) (m_budget m) (m_tokens m) (m_exactBytes m) (m_tailBytes m + n) (m_heuristic m)
  end.
Proof.
  intros Hn Hh. unfold add_segment, meter_add. cbn [s_text s_rest s_heuristic]. rewrite bool_decide_true by done. rewrite (proj2 (Z.eqb_neq n 0)) by lia. cbn [andb].
  assert (measured [] h = h) as -> by (unfold measured; rewrite Z.geb_leb; by rewrite (proj2 (Z.leb_le 0 h))).
  destruct (m_encoding m) as [e|]; [|done].
  assert (prefixOf [] (m_budget m + scanWindow) = []) as -> by (unfold prefixOf; destruct (_ >=? _); [done|by rewrite take_nil]).
  rewrite prefix_count_empty. assert (n >? 0 = true) as -> by (rewrite Z.gtb_ltb; by apply Z.ltb_lt).
  change (size_of []) with 0.
  destruct ((m_tailBytes m =? 0) && _); rewrite orb_true_r, !Z.sub_0_r, !Z.add_0_r; by destruct (_ =? 0).
Qed.

Lemma add_gathered m n1 h1 n2 h2 : 0 < n1 → 0 < n2 → 0 <= h1 → 0 <= h2 →
  add m (mkSegment [] (n1 + n2) (h1 + h2)) = add (add m (mkSegment [] n1 h1)) (mkSegment [] n2 h2).
Proof.
  intros N1 N2 H1 H2. rewrite !add_unkept by lia. destruct (m_encoding m) as [e|]; [|cbn; f_equal; lia].
  destruct (Z.eqb_spec (m_exactBytes m) 0) as [E|E]; cbn [m_encoding m_exactBytes m_counter m_budget m_tokens m_tailBytes m_heuristic]; [f_equal; lia|].
  rewrite (proj2 (Z.eqb_neq _ _) E). f_equal; lia.
Qed.

(** Gathering the texts past the room changes no meter. *)
Lemma gathered_meter i ts m : walked i ts → text_charges ts <= MaxTokens → fold_left add (in_text i) m = fold_left add (cut ts).1 m.
Proof.
  intros Hw. induction Hw as [|i ts s Hw IH| | | | |]; try done. intros Hle.
  assert (text_charges ts + HeuristicTokens s <= MaxTokens) as Hle' by (unfold text_charges in *; rewrite foldr_sum_app in Hle; cbn in Hle; lia).
  pose proof (heuristic_nonneg s) as Hh. specialize (IH ltac:(lia)). rewrite cut_app. destruct (walked_gathers i ts Hw) as [G1 G2 G3 _ _ G6].
  destruct s as [|a s0] eqn:Es; [by destruct (cut ts)|]. rewrite <- Es in *. assert (0 < size_of s) as Hp by (rewrite Es; apply size_cons).
  destruct (cut ts) as [l k]. cbn [fst snd] in *. subst k.
  assert (∀ x, fold_left add (in_text i ++ [x]) m = fold_left add (l ++ [x]) m) as Hsnoc by (intros x; by rewrite !fold_left_app, IH).
  unfold addText, cut_text. rewrite Es. rewrite <- Es. cbn [charged in_retain in_kept in_text]. rewrite G1. change (0 >? 0) with false. cbv iota.
  destruct (_ >=? _); [apply Hsnoc|]. destruct (_ >? 0); [apply Hsnoc|]. destruct (gathered (in_text i)) as [ [before last]|] eqn:Eg; [|apply Hsnoc].
  apply gathered_spec in Eg as [Et El]. cbn [with_segments in_text fst]. rewrite !fold_left_app, <- IH, Et, fold_left_app. cbn [fold_left].
  rewrite Et in G3. apply Forall_app in G3 as [Gb G3]. pose proof (charges_nonneg _ Gb) as Hb0. apply Forall_cons in G3 as [ (L1 & L2 & L3 & _) _]. specialize (L3 El).
  destruct last as [lt ln lh]. cbn in El, L1, L2, L3. subst lt. cbn [s_rest s_heuristic]. rewrite <- add_gathered by done. f_equal. f_equal.
  rewrite addBounded_min. specialize (G6 ltac:(lia)). rewrite Et in G6. unfold charges in G6. rewrite (foldr_sum_app s_heuristic) in G6. cbn in G6.
  unfold charges in Hb0. lia.
Qed.

(** ** Cutting *)

Lemma prefix_cut_le n s : (prefix_cut n s ≤ n)%nat.
Proof. induction n as [|n IH]; [done|]. cbn [prefix_cut]. destruct (s !! S n); [destruct (RuneStart _)|]; lia. Qed.

Lemma prefix_cut_take n r s : (n < r)%nat → prefix_cut n (take r s) = prefix_cut n s.
Proof. induction n as [|n IH]; intros H; [done|]. cbn [prefix_cut]. rewrite lookup_take_lt by lia. by rewrite IH by lia. Qed.

Lemma prefix_cut_between n room s : (prefix_cut room s ≤ n)%nat → (n ≤ room)%nat → (room < length s)%nat → prefix_cut n s = prefix_cut room s.
Proof.
  induction room as [|room IH]; intros H1 H2 H3; [by replace n with 0%nat by lia|]. destruct (decide (n = S room)) as [->|Hn]; [done|].
  cbn [prefix_cut] in *. destruct (lookup_lt_is_Some_2 s (S room) H3) as [c Ec]. rewrite Ec in *. destruct (RuneStart c); [lia|]. apply IH; lia.
Qed.

(** Cutting a text that was cut further out is cutting the text. *)
Lemma prefixOf_prefixOf s room n : 0 <= n <= room → room < size_of s → prefixOf (prefixOf s room) n = prefixOf s n.
Proof.
  intros Hn Hr. unfold prefixOf at 2 3. rewrite !Z.geb_leb, !(proj2 (Z.leb_gt _ _)) by lia. set (r := prefix_cut (Z.to_nat room) s).
  assert (r ≤ Z.to_nat room)%nat as Hle by apply prefix_cut_le. unfold size_of in *.
  assert (length (take r s) = r) as Hlen by (rewrite length_take; lia). unfold prefixOf, size_of. rewrite Hlen, Z.geb_leb.
  destruct (Z.leb_spec (Z.of_nat r) n) as [H|H].
  - f_equal. symmetry. apply prefix_cut_between; lia.
  - rewrite prefix_cut_take by lia. rewrite take_take. f_equal. pose proof (prefix_cut_le (Z.to_nat n) s). lia.
Qed.

Section Cut.
Context (e : Encoding) `{!Tokenizer (prefix_count u pool e)} (limit : Z) (Hlimit : limit <= ExactBytes).

(** A meter that has counted every byte of the texts exactly, or has given up on the rest of them. *)
Definition tracks (m : Meter) (kept : Z) : Prop :=
  m_encoding m = None ∨
  m_encoding m = Some e ∧ (0 < m_tailBytes m ∧ 0 < m_exactBytes m ∨ m_tailBytes m = 0 ∧ m_exactBytes m = kept ∧ 0 <= kept ∧ m_budget m = limit - kept ∧ 0 <= m_budget m).

Definition cut_segment (s : text) (kept : Z) : segment :=
  let room := retainBytes - kept in
  if room >=? size_of s then whole_segment s
  else if room >? 0 then mkSegment (prefixOf s room) (size_of s - size_of (prefixOf s room)) (HeuristicTokens s)
  else mkSegment [] (size_of s) (HeuristicTokens s).

(** What adding a segment does, in terms of the text it stands for. *)
Lemma add_part m p s kept : tracks m kept → s ≠ [] → 0 <= size_of p <= size_of s → (size_of p < size_of s ∨ p = s) →
  (m_encoding m = Some e → m_tailBytes m = 0 → 0 < m_budget m →
     prefixOf p (m_budget m + scanWindow) = prefixOf s (m_budget m + scanWindow) ∧ (size_of p < size_of s → m_budget m < size_of s)) →
  add m (mkSegment p (size_of s - size_of p) (HeuristicTokens s)) = add m (whole_segment s).
Proof.
  intros Ht Hs Hp Hps Hpre. pose proof (heuristic_nonneg s) as Hh. assert (0 < size_of s) as Hpos by (destruct s; [done|apply size_cons]).
  assert (∀ t, measured t (HeuristicTokens s) = HeuristicTokens s) as Hm by (intros t; unfold measured; rewrite Z.geb_leb; by rewrite (proj2 (Z.leb_le _ _))).
  unfold add_segment, meter_add, whole_segment. cbn [s_text s_rest s_heuristic]. rewrite !Hm, (bool_decide_false (s = [])) by done. cbn [andb].
  assert (bool_decide (p = []) && (size_of s - size_of p =? 0) = false) as ->.
  { apply andb_false_iff. destruct Hps as [Hlt | ->]; [right; apply Z.eqb_neq; lia|left; by apply bool_decide_false]. }
  destruct (m_encoding m) as [e'|] eqn:Ee; [|done]. destruct Ht as [?|[Ee' Ht] ]; [congruence|]. rewrite Ee in Ee'. injection Ee' as ->.
  assert (∃ n c, ∀ q, q = p ∨ q = s → (size_of p < size_of s → c < size_of s) ∧
    (if (m_tailBytes m =? 0) && (m_budget m >? 0) then prefix_count u pool e (prefixOf q (m_budget m + scanWindow)) (m_budget m) else (0, 0)) = (n, c)) as (n & c & Hnc).
  { destruct (Z.eqb_spec (m_tailBytes m) 0) as [E0|E0]; [|exists 0, 0; done]. rewrite Z.gtb_ltb. destruct (Z.ltb_spec 0 (m_budget m)) as [Eb|Eb]; [|exists 0, 0; done].
    destruct (Hpre eq_refl E0 Eb) as [E Hb]. pose proof (covered_within (prefixOf s (m_budget m + scanWindow)) (m_budget m) ltac:(lia)) as Hc.
    destruct (prefix_count u pool e (prefixOf s _) _) as [n c] eqn:En. cbn [snd] in Hc. exists n, c. intros q Hq. split; [intros Hlt; specialize (Hb Hlt); lia|].
    cbn [andb]. destruct Hq as [-> | ->]; [by rewrite E|done]. }
  destruct (Hnc p ltac:(auto)) as [Hc ->]. destruct (Hnc s ltac:(auto)) as [_ ->]. rewrite !Z.gtb_ltb.
  destruct Hps as [Hlt | ->]; [|by rewrite Z.sub_diag].
  rewrite (proj2 (Z.ltb_lt c (size_of s)) (Hc Hlt)), (proj2 (Z.ltb_lt 0 (size_of s - size_of p))) by lia. rewrite orb_true_r. cbn [orb].
  destruct (m_exactBytes m + c =? 0); [done|]. f_equal. lia.
Qed.

Lemma add_cut m s kept : tracks m kept → s ≠ [] → add m (cut_segment s kept) = add m (whole_segment s).
Proof.
  intros Ht Hs. assert (0 < size_of s) as Hpos by (destruct s; [done|apply size_cons]). unfold cut_segment. rewrite Z.geb_leb, Z.gtb_ltb.
  destruct (Z.leb_spec (size_of s) (retainBytes - kept)) as [|Hr]; [done|].
  assert (m_encoding m = Some e → m_tailBytes m = 0 → 0 < m_budget m → m_budget m + scanWindow < retainBytes - kept) as Hroom.
  { intros Ee E0 Hb. destruct Ht as [?|[_ [ [? _] | (_ & _ & _ & Eb & _) ] ] ]; [congruence|lia|]. unfold retainBytes. assert (0 < scanWindow) by done. lia. }
  assert (0 < scanWindow) as Hw by done.
  destruct (Z.ltb_spec 0 (retainBytes - kept)) as [H0|H0].
  - pose proof (prefixOf_size s (retainBytes - kept) ltac:(lia)) as Hsz. apply (add_part m _ s kept Ht Hs); [unfold size_of in *; lia|lia|].
    intros Ee E0 Hb. specialize (Hroom Ee E0 Hb). split; [apply prefixOf_prefixOf; lia|lia].
  - pose proof (add_part m [] s kept Ht Hs) as H. change (size_of []) with 0 in H. rewrite Z.sub_0_r in H. apply H; [lia|lia|].
    intros Ee E0 Hb. specialize (Hroom Ee E0 Hb). lia.
Qed.

(** What was kept still tells where the meter is. *)
Lemma add_whole_tracks m s kept : tracks m kept → s ≠ [] →
  tracks (add m (whole_segment s)) (let room := retainBytes - kept in if room >=? size_of s then kept + size_of s else if room >? 0 then retainBytes else kept).
Proof.
  intros Ht Hs. assert (0 < size_of s) as Hpos by (destruct s; [done|apply size_cons]). unfold tracks, add_segment, meter_add, whole_segment. cbn [s_text s_rest s_heuristic].
  rewrite (bool_decide_false (s = [])) by done. cbn [andb]. destruct Ht as [->|[-> Ht] ]; [by left|].
  change (0 >? 0) with false. rewrite Z.gtb_ltb.
  destruct Ht as [ [H1 H2] | (H1 & H2 & H3 & H4 & H5) ].
  - rewrite (proj2 (Z.eqb_neq (m_tailBytes m) 0)) by lia. cbn [andb]. rewrite orb_false_r, (proj2 (Z.ltb_lt 0 (size_of s))), (proj2 (Z.eqb_neq (m_exactBytes m + 0) 0)) by lia.
    right. cbn. split; [done|]. left. lia.
  - rewrite H1. change (0 =? 0) with true. cbn [andb].
    assert (∃ n c, (if 0 <? m_budget m then prefix_count u pool e (prefixOf s (m_budget m + scanWindow)) (m_budget m) else (0, 0)) = (n, c) ∧ 0 <= c <= m_budget m ∧ c <= size_of s) as (n & c & -> & Hc & Hcs).
    { destruct (Z.ltb_spec 0 (m_budget m)); [|exists 0, 0; split; [done|lia] ]. pose proof (covered_within (prefixOf s (m_budget m + scanWindow)) (m_budget m) ltac:(lia)) as Hc.
      assert (0 < scanWindow) by done. pose proof (prefixOf_size s (m_budget m + scanWindow) ltac:(lia)). destruct (prefix_count _ _ _ _ _) as [n c]. exists n, c. cbn in Hc. split; [done|lia]. }
    rewrite orb_false_r. destruct (Z.ltb_spec c (size_of s)) as [Hlt|Hge].
    + destruct (Z.eqb_spec (m_exactBytes m + c) 0) as [E|E]; [by left|]. right. cbn. split; [done|]. left. lia.
    + assert (c = size_of s) as -> by lia. right. cbn. split; [done|]. right. rewrite Z.geb_leb.
      assert (size_of s <= retainBytes - kept) as Hle by (unfold retainBytes; assert (0 < scanWindow) by done; lia). rewrite (proj2 (Z.leb_le _ _) Hle). lia.
Qed.

Lemma cut_text_segment l k s : s ≠ [] → cut_text (l, k) s = (l ++ [cut_segment s k], (cut_text (l, k) s).2).
Proof.
  destruct s as [|a s]; [done|]. intros _. unfold cut_segment. cbn [cut_text].
  destruct (retainBytes - k >=? size_of (a :: s)); [done|]. by destruct (retainBytes - k >? 0).
Qed.

(** A meter reads the same of texts kept whole and of texts cut. *)
Lemma cut_meter m ts : m_encoding m = Some e → m_tailBytes m = 0 → m_exactBytes m = 0 → m_budget m = limit → 0 <= limit →
  fold_left add (cut ts).1 m = fold_left add (whole ts) m ∧ tracks (fold_left add (whole ts) m) (cut ts).2.
Proof.
  intros E1 E2 E3 E4 E5. induction ts as [|s ts IH] using rev_ind; [split; [done|]; right; split; [done|]; right; cbn; lia|].
  destruct IH as [IH Ht]. rewrite cut_app. unfold whole in *. rewrite filter_app. destruct (cut ts) as [l k]. cbn [fst snd] in *.
  destruct s as [|a s0] eqn:Es; [rewrite filter_cons_False by (intros []; done); rewrite filter_nil, app_nil_r; done|]. rewrite <- Es. assert (s ≠ []) as Hs by (by rewrite Es).
  rewrite filter_cons_True, filter_nil, fmap_app, fold_left_app by done. cbn [fmap list_fmap fold_left].
  rewrite cut_text_segment by done. cbn [fst snd]. rewrite cut_text_kept by done. cbn [snd]. split; [|by apply add_whole_tracks].
  rewrite fold_left_app, IH. cbn [fold_left]. by apply add_cut.
Qed.
End Cut.
End Meters.

(** ** Counts *)

Definition counter_ok (u : unicode) (c : Counter) : Prop := match c_encoding c with Some e => encoding_ok u e | None => True end.

Section Counts.
Context (u : unicode) (Hu : unicode_ok u) (pool : text → scratch) (pool_ok : ∀ t, pooled_ok (pool t)).
Context (c : Counter) (Hc : counter_ok u c).

(** A meter starts with nothing counted, over an encoding that counts as promised or over none. *)
Lemma counter_meter m : Counter_Meter u c = Some m →
  m = mkMeter c None 0 0 0 0 0 ∨ ∃ e, m = mkMeter c (Some e) ExactBytes 0 0 0 0 ∧ Tokenizer (prefix_count u pool e).
Proof.
  unfold Counter_Meter, counter_ok in *. destruct (c_encoding c) as [e|]; [|intros [= <-]; by left].
  destruct (load u e) as [ [e' [err|] ]|] eqn:El; [intros [= <-]; by left| |done]. intros [= <-]. right. exists e'. split; [done|].
  destruct (load_parsed u e e' Hc El) as (v & E & Hl). exact (parsed_tokenizer u Hu pool pool_ok e' v Hl E).
Qed.

(** The meter a count starts from, within what is left of a shared budget. *)
Definition within_budget (m : Meter) (budget : option Z) : Meter :=
  match budget with
  | None => m
  | Some b =>
      let left := Z.min (m_budget m) b in
      mkMeter (m_counter m) (if left =? 0 then None else m_encoding m) left (m_tokens m) (m_exactBytes m) (m_tailBytes m) (m_heuristic m)
  end.

(** Counting reads the segments only through the meter. *)
Lemma count_by_meter i j primed budget : in_heuristic i = in_heuristic j → in_roles i = in_roles j → in_messages i = in_messages j →
  in_names i = in_names j → in_flat i = in_flat j → in_approx i = in_approx j →
  (∀ m, Counter_Meter u c = Some m → m_encoding (within_budget m budget) ≠ None →
     fold_left (add_segment u pool) (in_text i) (within_budget m budget) = fold_left (add_segment u pool) (in_text j) (within_budget m budget)) →
  countWithBudget u pool c i primed budget = countWithBudget u pool c j primed budget.
Proof.
  intros E1 E2 E3 E4 E5 E6 H. unfold countWithBudget. destruct (Counter_Meter u c) as [m|]; [|done]. specialize (H m eq_refl).
  fold (within_budget m budget). cbv zeta. destruct (m_encoding (within_budget m budget)) as [e|] eqn:E.
  - rewrite H by done. by rewrite E2, E3, E4, E5, E6.
  - by rewrite E1, E5.
Qed.

Lemma keeps_enough i ts primed budget : walked i ts → text_charges ts <= MaxTokens → (∀ b, budget = Some b → 0 <= b) →
  countWithBudget u pool c i primed budget = countWithBudget u pool c (with_segments i (whole ts) 0) primed budget.
Proof.
  intros Hw Hle Hb. apply count_by_meter; try done. intros m Em He. rewrite (gathered_meter u pool i ts _ Hw Hle). cbn [with_segments in_text].
  destruct (counter_meter m Em) as [->|(e & -> & HT)]; [by destruct budget; cbn in He; [destruct (_ =? 0)|] |].
  assert (0 <= ExactBytes) as Hpos by done.
  destruct budget as [b|]; [specialize (Hb b eq_refl)|]; cbn in He |- *.
  - destruct (Z.eqb_spec (Z.min ExactBytes b) 0); [done|]. apply (cut_meter u pool e (Z.min ExactBytes b)); try done; cbn; lia.
  - by apply (cut_meter u pool e ExactBytes).
Qed.
End Counts.

(** C34. A prompt keeps only the first bytes of its text, and no count depends on the rest. For any
    walk of a prompt, in which the texts come in any order among the roles and charges, counting
    what was kept, with the sizes of what was cut or left out, gives every counter the count and
    the provenance, and leaves the shared budget, that counting all of the text would. *)
Theorem prompt_keeps_enough u pool c i ts primed budget : unicode_ok u → (∀ t, pooled_ok (pool t)) → counter_ok u c → walked i ts →
  text_charges ts <= MaxTokens → (∀ b, budget = Some b → 0 <= b) →
  countWithBudget u pool c i primed budget = countWithBudget u pool c (with_segments i (whole ts) 0) primed budget.
Proof. intros Hu Hp Hc Hw Hle Hb. by apply keeps_enough. Qed.

Definition sample_counter : Counter := mkCounter FamilyOpenAICL100k (Some (CL100kBase sample_ranks)) fzero.

Lemma sample_counter_ok : counter_ok sample_unicode sample_counter.
Proof. split; [right; reflexivity|discriminate]. Qed.

(** Three texts and a budget of five bytes: the first is counted exactly, and the others and the
    role are charged by their size. *)
Lemma prompt_keeps_enough_witness :
  let i := addText (addRole (addText (addText no_input (txt "abc")) (txt "abcab")) (txt "user")) (txt "ab ab") in
  let ts := [txt "abc"; txt "abcab"; txt "ab ab"] in
  countWithBudget sample_unicode sample_pool sample_counter i false (Some 5) =
    countWithBudget sample_unicode sample_pool sample_counter (with_segments i (whole ts) 0) false (Some 5) ∧
  countWithBudget sample_unicode sample_pool sample_counter i false (Some 5) = Some (mkCount 5 ProvenanceHeuristic, Some 2).
Proof.
  intros i ts. split; [|vm_compute; reflexivity].
  apply (prompt_keeps_enough sample_unicode sample_pool sample_counter i ts false (Some 5) sample_unicode_ok (λ _, conj eq_refl eq_refl) sample_counter_ok).
  - apply (walked_text _ [txt "abc"; txt "abcab"]), walked_role, (walked_text _ [txt "abc"]), (walked_text _ []), walked_none.
  - vm_compute. discriminate.
  - intros b [= <-]. discriminate.
Defined.

(** ** Prompts that read alike *)

Section Alike.
Context (u : unicode) (pool : text → scratch) (e : Encoding) `{!Tokenizer (prefix_count u pool e)}.

Definition whole_count (s : text) : Z := (prefix_count u pool e s (size_of s)).1.
Definition whole_counts (ts : list text) : Z := foldr (λ s n, whole_count s + n) 0 ts.

(** A meter that has counted some more texts exactly. *)
Definition counting (m : Meter) (tokens bytes : Z) : Meter :=
  mkMeter (m_counter m) (Some e) (m_budget m - bytes) (m_tokens m + tokens) (m_exactBytes m + bytes) 0 (m_heuristic m).

Lemma add_exact m s h : m_encoding m = Some e → m_tailBytes m = 0 → size_of s <= m_budget m →
  meter_add u pool m s 0 h = counting m (whole_count s) (size_of s).
Proof.
  intros Ee Et Hs. unfold meter_add, counting, whole_count. destruct s as [|a s0] eqn:Es.
  { rewrite bool_decide_true, counted_empty by done. cbn [andb fst]. destruct m; cbn in *. subst. change (0 =? 0) with true. change (size_of []) with 0.
    cbv iota. f_equal; lia. }
  rewrite <- Es in *. assert (0 < size_of s) as Hp by (rewrite Es; apply size_cons). rewrite bool_decide_false by (by rewrite Es). cbn [andb]. rewrite Ee, Et. change (0 =? 0) with true. cbn [andb].
  rewrite Z.gtb_ltb, (proj2 (Z.ltb_lt 0 (m_budget m))) by lia. assert (prefixOf s (m_budget m + scanWindow) = s) as ->.
  { unfold prefixOf. assert (0 < scanWindow) by done. rewrite Z.geb_leb, (proj2 (Z.leb_le _ _)) by lia. done. }
  rewrite counted_whole by done. rewrite Z.ltb_irrefl. done.
Qed.

Lemma counting_counting m t1 b1 t2 b2 : counting (counting m t1 b1) t2 b2 = counting m (t1 + t2) (b1 + b2).
Proof. unfold counting. cbn. f_equal; lia. Qed.

Lemma fold_exact {A} (f : Meter → A → Meter) (text_of : A → text) l m :
  (∀ m x, x ∈ l → m_encoding m = Some e → m_tailBytes m = 0 → size_of (text_of x) <= m_budget m → f m x = counting m (whole_count (text_of x)) (size_of (text_of x))) →
  m_encoding m = Some e → m_tailBytes m = 0 → text_bytes (text_of <$> l) <= m_budget m → 0 <= m_budget m →
  fold_left f l m = counting m (whole_counts (text_of <$> l)) (text_bytes (text_of <$> l)).
Proof.
  revert m. induction l as [|x l IH]; intros m Hf Ee Et Hb H0.
  { unfold counting. destruct m; cbn in *. subst. f_equal; lia. }
  assert (0 <= text_bytes (text_of <$> l)) as Hp.
  { clear. induction l as [|x l IH]; cbn; [done|]. unfold text_bytes, size_of in *. cbn in *. lia. }
  cbn [fmap list_fmap fold_left] in *. unfold text_bytes, whole_counts in *. cbn [foldr] in *. unfold size_of in *.
  rewrite Hf; [|by left|done|done|lia]. rewrite IH; [|..].
  - rewrite counting_counting. done.
  - intros m' y Hy. apply Hf. by right.
  - done.
  - done.
  - cbn. lia.
  - cbn. lia.
Qed.

Lemma segments_exact l m : Forall (λ s, s = whole_segment (s_text s)) l → m_encoding m = Some e → m_tailBytes m = 0 → text_bytes (s_text <$> l) <= m_budget m → 0 <= m_budget m →
  fold_left (add_segment u pool) l m = counting m (whole_counts (s_text <$> l)) (text_bytes (s_text <$> l)).
Proof.
  intros Hl Ee Et Hb H0. apply fold_exact; try done. intros m' x Hx Ee' Et' Hs. rewrite Forall_forall in Hl. rewrite (Hl x Hx). unfold add_segment. cbn [s_text s_rest s_heuristic whole_segment].
  by apply add_exact.
Qed.
End Alike.

Lemma text_bytes_perm ts ts' : ts ≡ₚ ts' → text_bytes ts = text_bytes ts'.
Proof. unfold text_bytes. induction 1; cbn; lia. Qed.

Lemma whole_counts_perm u pool e ts ts' : ts ≡ₚ ts' → whole_counts u pool e ts = whole_counts u pool e ts'.
Proof. unfold whole_counts. induction 1; cbn; lia. Qed.

Lemma charges_perm l l' : l ≡ₚ l' → charges l = charges l'.
Proof. unfold charges. induction 1; cbn; lia. Qed.

(** Nothing was cut of a prompt that is short. *)
Lemma short_whole i ts : walked i ts → in_bytes i <= retainBytes → Forall (λ s, s = whole_segment (s_text s)) (in_text i) ∧ text_bytes (s_text <$> in_text i) = in_bytes i ∧ in_kept i = in_bytes i ∧
  s_text <$> in_text i = filter (λ s, s ≠ []) ts.
Proof.
  intros Hw. induction Hw as [|i ts s Hw IH| | | | |]; try done. intros Hle. pose proof (walked_gathers _ _ Hw) as [G1 _ _ _ _ _].
  destruct s as [|a s0] eqn:Es; [rewrite filter_app, filter_cons_False by (intros []; done); rewrite filter_nil, app_nil_r; by apply IH|].
  rewrite <- Es in *. assert (0 < size_of s) as Hp by (rewrite Es; apply size_cons).
  assert (in_bytes (addText i s) = in_bytes i + size_of s) as Eb.
  { unfold addText. rewrite Es. cbn [charged]. destruct (_ >=? _); [done|]. destruct (_ >? 0); [done|]. by destruct (gathered _) as [ [? ?]|]. }
  rewrite Eb in *. destruct (IH ltac:(lia)) as (IH1 & IH2 & IH3 & IH4).
  assert (addText i s = with_segments (charged i s) (in_text i ++ [whole_segment s]) (in_kept i + size_of s)) as ->.
  { unfold addText. rewrite Es. rewrite <- Es. cbn [charged in_retain in_kept in_text]. rewrite G1. change (0 >? 0) with false. cbv iota. rewrite Z.geb_leb, (proj2 (Z.leb_le _ _)) by lia. done. }
  cbn [with_segments in_text in_kept]. rewrite fmap_app. unfold text_bytes in *. rewrite foldr_sum_app. cbn [fmap list_fmap foldr s_text whole_segment]. split; [|split; [lia|split; [lia|] ] ].
  - apply Forall_app. split; [done|]. by repeat constructor.
  - rewrite IH4, filter_app, filter_cons_True, filter_nil by (by rewrite Es). done.
Qed.

Section Equal.
Context (SortFunc : ∀ A, cmp A → list A → list A) (SortFunc_perm : ∀ A c l, SortFunc A c l ≡ₚ l).

Lemma sameElements_perm {A} `{EqDecision A} (a b : list A) c : sameElements SortFunc a b c = true → a ≡ₚ b.
Proof. unfold sameElements. intros H%bool_decide_eq_true. by rewrite <- (SortFunc_perm A c a), H, SortFunc_perm. Qed.

(** What [equal] compares: either everything but what the charges tell, or the same parts of a short prompt. *)
Lemma input_equal_spec i o : input_equal SortFunc i o = true →
  in_flat i = in_flat o ∧ in_approx i = in_approx o ∧ in_messages i = in_messages o ∧ in_names i = in_names o ∧ in_bytes i = in_bytes o ∧
  (in_text i = in_text o ∧ in_roles i = in_roles o ∨
   in_bytes i + roleBytes (in_roles i) <= ExactBytes ∧ in_text i ≡ₚ in_text o ∧ in_roles i ≡ₚ in_roles o).
Proof.
  unfold input_equal. destruct (_ || _) eqn:E; [done|]. repeat (apply orb_false_iff in E as [E ?]). repeat match goal with H : negb _ = false |- _ => apply negb_false_iff in H end.
  intros Hq. repeat match goal with H : Bool.eqb _ _ = true |- _ => apply Bool.eqb_prop in H end. bool_to_prop. repeat (split; [congruence|]).
  destruct (bool_decide (in_text i = in_text o) && bool_decide (in_roles i = in_roles o)) eqn:Eq.
  - apply andb_true_iff in Eq as [E1%bool_decide_eq_true E2%bool_decide_eq_true]. by left.
  - right. rewrite Z.gtb_ltb in Hq. destruct (Z.ltb_spec ExactBytes (in_bytes i + roleBytes (in_roles i))); [done|]. apply andb_true_iff in Hq as [P1%sameElements_perm P2%sameElements_perm]. done.
Qed.

Lemma roleBytes_bytes l : roleBytes l = text_bytes l.
Proof. done. Qed.

(** A short prompt is the sum of its parts. *)
Lemma short_count u pool c i ts primed : unicode_ok u → (∀ t, pooled_ok (pool t)) → counter_ok u c → walked i ts → in_bytes i + roleBytes (in_roles i) <= ExactBytes →
  count_input u pool c i primed =
  m ← Counter_Meter u c;
  Some (match m_encoding m with
        | None => let '(tokens, provenance) := scale c (in_heuristic i) in mkCount (addBounded tokens (in_flat i)) provenance
        | Some e =>
            let f := Counter_Framing c in
            let f := if primed then mkFraming (PerMessage f) (PerName f) 0 else f in
            mkCount (addBounded (addBounded (whole_counts u pool e (s_text <$> in_text i) + whole_counts u pool e (in_roles i)) (Overhead f (in_messages i) (in_names i))) (in_flat i))
              (if in_approx i then ProvenanceCalibrated else ProvenanceTokenizer)
        end).
Proof.
  intros Hu Hp Hc Hw Hs. unfold count_input, countWithBudget. destruct (Counter_Meter u c) as [m|] eqn:Em; [|done]. cbn [mbind option_bind].
  destruct (counter_meter u Hu pool Hp c Hc m Em) as [->|(e & -> & HT)]; [cbn; by destruct (scale c _)|]. cbn [m_encoding].
  assert (0 <= roleBytes (in_roles i)) as Hr by (unfold roleBytes, size_of; clear; induction (in_roles i); cbn; lia).
  assert (ExactBytes < retainBytes) as Hx by done. destruct (short_whole i ts Hw ltac:(lia)) as (H1 & H2 & _).
  assert (0 <= in_bytes i) as Hb0.
  { rewrite <- H2. unfold text_bytes, size_of. clear. induction (s_text <$> in_text i); cbn; lia. }
  rewrite (segments_exact u pool e); [|done|done|done|cbn; lia|done]. cbn [counting m_encoding].
  rewrite (fold_exact u pool e (Meter_Add u pool) id); [|by intros; apply add_exact|done|done|cbn; rewrite list_fmap_id, <- roleBytes_bytes; lia|cbn; lia].
  rewrite list_fmap_id, counting_counting. unfold Total. cbn [counting m_encoding m_tailBytes m_tokens Z.add]. change (0 =? 0) with true. cbv iota. cbn [fmap option_fmap option_map fst].
  rewrite bool_decide_true by done. by rewrite andb_true_r.
Qed.
End Equal.

Lemma equal_counted SortFunc u pool c i ts o ts' primed : (∀ A c l, SortFunc A c l ≡ₚ l) →
  unicode_ok u → (∀ t, pooled_ok (pool t)) → counter_ok u c → walked i ts → walked o ts' → input_equal SortFunc i o = true →
  count_input u pool c i primed = count_input u pool c o primed.
Proof.
  intros Hsort Hu Hp Hc Hi Ho E. destruct (input_equal_spec SortFunc Hsort i o E) as (E1 & E2 & E3 & E4 & E5 & [ [E6 E7] | (Hs & P1 & P2) ]).
  - assert (in_heuristic i = in_heuristic o) as Eh by (by rewrite (g_heuristic _ _ (walked_gathers _ _ Hi)), (g_heuristic _ _ (walked_gathers _ _ Ho)), E6).
    unfold count_input. f_equal. apply (count_by_meter u pool c); try done. by rewrite E6.
  - assert (in_heuristic i = in_heuristic o) as Eh by (by rewrite (g_heuristic _ _ (walked_gathers _ _ Hi)), (g_heuristic _ _ (walked_gathers _ _ Ho)), (charges_perm _ _ P1)).
    rewrite (short_count u pool c i ts) by done. rewrite (short_count u pool c o ts') by (done || rewrite <- E5, !roleBytes_bytes in *; by rewrite <- (text_bytes_perm _ _ P2)).
    rewrite Eh, E1, E2, E3, E4. destruct (Counter_Meter u c) as [m|]; [|done]. cbn [mbind option_bind]. f_equal. destruct (m_encoding m) as [e|]; [|done].
    by rewrite (whole_counts_perm u pool e _ _ P2), (whole_counts_perm u pool e (s_text <$> in_text i) (s_text <$> in_text o)) by (by rewrite P1).
Qed.

(** Prompts found equal are counted the same. When [equal] says two walked prompts read alike,
    which for short prompts allows their texts and their roles in any order, every counter, primed
    or not, counts the two the same, tokens and provenance, so that one may share the counts of
    the other. *)
Theorem equal_inputs_counted_alike SortFunc u pool c i ts o ts' primed : (∀ A c l, SortFunc A c l ≡ₚ l) →
  unicode_ok u → (∀ t, pooled_ok (pool t)) → counter_ok u c → walked i ts → walked o ts' → input_equal SortFunc i o = true →
  count_input u pool c i primed = count_input u pool c o primed.
Proof. apply equal_counted. Qed.

(** The same two texts in another order. *)
Lemma equal_inputs_counted_alike_witness :
  let i := addText (addText no_input (txt "abc ab")) (txt "b") in
  let o := addText (addText no_input (txt "b")) (txt "abc ab") in
  count_input sample_unicode sample_pool sample_counter i true = count_input sample_unicode sample_pool sample_counter o true ∧ i ≠ o.
Proof.
  intros i o. split; [|discriminate].
  apply (equal_inputs_counted_alike (λ A c l, SortStableFunc c l) sample_unicode sample_pool sample_counter i [txt "abc ab"; txt "b"] o [txt "b"; txt "abc ab"] true
    (λ A c l, SortStableFunc_Permutation c l) sample_unicode_ok (λ _, conj eq_refl eq_refl) sample_counter_ok).
  - apply (walked_text _ [txt "abc ab"]), (walked_text _ []), walked_none.
  - apply (walked_text _ [txt "b"]), (walked_text _ []), walked_none.
  - vm_compute. reflexivity.
Defined.
