(* ===== verification/TokenWalk.v ===== *)
(** * Walking a request

    The walker of [internal/operations/tokenization/estimate] ([walk.go], [node.go]): which fields
    of which dialect are prompt, read from the request's parsed document into an input. A node is
    a value of the document, or none; the branch of [node] that decodes the raw JSON of a
    provider's defaults is not modelled. The walk is an action over the input, which ends without
    a result only when its fuel does; it is enough when it is the number of values of the
    document. *)

From S2P Require Import Prelude Go Amount Source SourceParser SourceGrammar SourceExact SourceSound SourceValues.
From S2P Require Import TokenVocab TokenHeap TokenMerge TokenScan TokenEncode TokenMeter TokenPrompt.
From Stdlib Require Import Ascii.
Local Open Scope Z_scope.

(** ** Formats *)

Definition Chat : string := "chat".
Definition Completions : string := "completions".
Definition Responses : string := "responses".
Definition InputTokens : string := "input_tokens".
Definition Embeddings : string := "embeddings".
Definition Moderation : string := "moderation".
Definition MistralFIM : string := "mistral_fim".
Definition CohereChat : string := "cohere_chat".

(** [Format.Surface] *)
Definition Surface (f : string) : string :=
  if decide (f ∈ ["anthropic"; "anthropic_count"; "anthropic_file"; "anthropic_batch"]%string) then "anthropic"
  else if decide (f ∈ ["gemini"; "gemini_stream"; "gemini_count"; "gemini_interactions"; "gemini_live"; "gemini_file"; "gemini_batch"]%string) then "gemini"
  else if decide (f ∈ ["bedrock"; "bedrock_invoke"]%string) then "bedrock"
  else if decide (f ∈ ["mistral_fim"; "cohere_chat"; "cloud_batch"; "native_duplex"; "passthrough"]%string) then "native"
  else "openai".

(** [Format.Operation] *)
Definition Operation (f : string) : string :=
  if decide (f ∈ ["decisions"; "systemone"]%string) then "decision"
  else if decide (f ∈ ["input_tokens"; "anthropic_count"; "gemini_count"]%string) then "token_count"
  else if decide (f ∈ ["embeddings"; "gemini_embeddings"; "gemini_embeddings_batch"; "vertex_embeddings"; "bedrock_embeddings"]%string) then "embeddings"
  else if decide (f = "moderation"%string) then "moderation"
  else if decide (f ∈ ["rerank"; "bedrock_rerank"]%string) then "rerank"
  else if decide (f = "documentai_process"%string) then "ocr"
  else if decide (f ∈ ["anthropic_file"; "gemini_file"]%string) then "file"
  else if decide (f ∈ ["anthropic_batch"; "gemini_batch"; "cloud_batch"]%string) then "batch"
  else if decide (f ∈ ["gemini_live"; "native_duplex"]%string) then "realtime"
  else if decide (f ∈ ["image_generation"; "image_edit"; "image_variation"; "speech"; "transcription"; "translation"; "video_create"; "video_list"; "video_get";
    "video_content"; "video_delete"; "file"; "batch"; "realtime"; "bedrock_invoke"; "ocr"; "search"; "passthrough"]%string) then f
  else "generation".

(** ** Actions over the input *)

Definition W (A : Type) : Type := input → option (A * input).

Definition ret {A} (a : A) : W A := λ i, Some (a, i).
Definition bind {A B} (w : W A) (f : A → W B) : W B := λ i, match w i with Some (a, i) => f a i | None => None end.
Definition modify (f : input → input) : W unit := λ i, Some (tt, f i).
Definition out_of_fuel : W unit := λ _, None.

Declare Scope walk_scope.
Delimit Scope walk_scope with walk.
Notation "a ;;; b" := (bind a (λ _, b)) (at level 100, right associativity) : walk_scope.
Notation "'step' x := a 'in' b" := (bind a (λ x, b)) (at level 100, x name, a at level 99, b at level 200) : walk_scope.
Local Open Scope walk_scope.

Fixpoint each {A} (f : A → W unit) (l : list A) : W unit :=
  match l with [] => ret tt | x :: l => f x ;;; each f l end.

Definition when (b : bool) (w : W unit) : W unit := if b then w else ret tt.
Definition unless (b : bool) (w : W unit) : W unit := if b then ret tt else w.

(** A JSON string literal of plain characters. *)
Definition quoted (s : string) : text := "034"%char :: txt s ++ ["034"%char].

(** [json.Compact] of a valid document: white space outside strings is dropped. *)
Fixpoint compact (in_string escaped : bool) (s : text) : text :=
  match s with
  | [] => []
  | c :: rest =>
      if in_string then c :: compact (escaped || negb (Ascii.eqb c "034")) (negb escaped && Ascii.eqb c "092") rest
      else if is_space c then compact false false rest
      else c :: compact (Ascii.eqb c "034") false rest
  end.

(** [SchemaText] *)
Definition SchemaText (raw : text) : text := compact false false raw.

(** [json.Unmarshal] of a value's source into a [uint32]: a number written as one, or null. *)
Definition unmarshal_uint32 (kind : Kind) (raw : text) : bool :=
  match kind with
  | Null => true
  | Number => forallb digit_byte raw && (name_value raw <=? MaxUint32)
  | _ => false
  end.

Section Walk.
Context (d : document).

(** ** Nodes *)

(** A value of the document, or none. *)
Definition jnode : Type := option nat.

Definition kind_at (n : jnode) : Kind := match n with Some i => Value_Kind d i | None => Absent end.
Definition present (n : jnode) : bool := match kind_at n with Absent => false | _ => true end.
Definition isNull (n : jnode) : bool := match kind_at n with Null => true | _ => false end.
Definition source (n : jnode) : text := match n with Some i => Value_Raw d i | None => [] end.
Definition source_is (n : jnode) (s : string) : bool := bool_decide (source n = quoted s).

Definition text_at (n : jnode) : option text :=
  match n with
  | Some i =>
      match Value_Kind d i with
      | Null => Some []
      | _ => match Value_text d i with Some (t, true) => Some t | _ => None end
      end
  | None => None
  end.

Definition array_at (n : jnode) : option (list jnode) :=
  match n with
  | Some i => match Value_Kind d i with Null => Some [] | Array => Some (Some <$> Elements d i) | _ => None end
  | None => None
  end.

Definition elements_at (n : jnode) : list jnode := default [] (array_at n).

(** The object of a node, if it is one, and its members. *)
Definition object_at (n : jnode) : option nat :=
  match n with Some i => match Value_Kind d i with Object => Some i | _ => None end | None => None end.
Definition exists_ (o : option nat) : bool := match o with Some _ => true | None => false end.
Definition get (o : option nat) (name : string) : jnode := match o with Some i => Value_Lookup d i (txt name) | None => None end.

(** ** The walker *)

Definition w_text (n : jnode) : W bool :=
  match text_at n with Some t => modify (λ i, addText i t) ;;; ret true | None => ret false end.

Definition toolText (n : jnode) : W bool := step ok := w_text n in when ok (modify guessed) ;;; ret ok.

(** A reading whose answer is not looked at. *)
Definition w_text_ (n : jnode) : W unit := w_text n ;;; ret tt.
Definition toolText_ (n : jnode) : W unit := toolText n ;;; ret tt.

Definition schema (n : jnode) : W unit :=
  match SchemaText (source n) with [] => ret tt | t => modify (λ i, guessed (addText i t)) end.

Definition roleOf (n : jnode) : option text :=
  if source_is n "user" then Some (txt "user")
  else if source_is n "assistant" then Some (txt "assistant")
  else if source_is n "system" then Some (txt "system")
  else if source_is n "tool" then Some (txt "tool")
  else if source_is n "developer" then Some (txt "developer")
  else text_at n.

Definition w_role (n : jnode) : W unit := match roleOf n with Some role => modify (λ i, addRole i role) | None => ret tt end.

Definition message (item : option nat) : W unit :=
  modify addMessage ;;; w_role (get item "role") ;;;
  when (match text_at (get item "name") with Some _ => true | None => false end) (modify addName).

Definition reasoning (item : option nat) : W unit :=
  each (λ n, toolText_ (get (object_at n) "text")) (elements_at (get item "summary")) ;;; modify guessed.

Definition instructions (n : jnode) : W unit :=
  match text_at n with
  | Some (c :: t) => modify (λ i, addRole (addMessage (addText i (c :: t))) (txt "system"))
  | _ => ret tt
  end.

Definition part_of_content (n : jnode) : W unit :=
  let part := object_at n in
  if negb (exists_ part) then w_text_ n
  else
    let kind := default [] (text_at (get part "type")) in
    if Contains [txt "image_url"; txt "input_image"] kind then modify (λ i, addMedia i ImageTokens)
    else if Contains [txt "input_audio"; txt "input_file"; txt "file"] kind then modify (λ i, addMedia i MediaTokens)
    else w_text_ (get part "text") ;;; w_text_ (get part "refusal").

Definition content (n : jnode) : W unit := step ok := w_text n in unless ok (each part_of_content (elements_at n)).

(** The definition a call or a tool holds under [function], or the value itself. *)
Definition function_of (n : jnode) : option nat :=
  let call := object_at n in
  let function := object_at (get call "function") in
  if exists_ function then function else call.

Definition tool_call (n : jnode) : W unit :=
  let call := function_of n in toolText_ (get call "name") ;;; toolText_ (get call "arguments").

Definition item_of (n : jnode) : W unit :=
  let item := object_at n in
  when (exists_ item)
    (message item ;;;
     when (source_is (get item "type") "reasoning") (reasoning item) ;;;
     content (get item "content") ;;; content (get item "output") ;;;
     w_text_ (get item "name") ;;;
     each (λ name, toolText_ (get item name)) ["tool_call_id"; "call_id"; "arguments"]%string ;;;
     each tool_call (elements_at (get item "tool_calls"))).

Definition items (n : jnode) : W unit :=
  step ok := w_text n in
  if (ok : bool) then modify (λ i, addRole (addMessage i) (txt "user")) else each item_of (elements_at n).

Definition tool_of (n : jnode) : W unit :=
  let tool := function_of n in toolText_ (get tool "name") ;;; toolText_ (get tool "description") ;;; schema (get tool "parameters").

Definition tools (n : jnode) : W unit := each tool_of (elements_at n).

Definition responseSchemas : list string := ["responseSchema"; "responseJsonSchema"]%string.

Definition generationConfig (n : jnode) : W unit := let config := object_at n in each (λ member, schema (get config member)) responseSchemas.

(** The member of a member of a node. *)
Definition path (n : jnode) (names : list string) : jnode := fold_left (λ n name, get (object_at n) name) names n.

Definition structured (family : string) (field : string → jnode) : W unit :=
  (if decide (family = Chat) then schema (path (field "response_format") ["json_schema"; "schema"]%string)
   else if decide (family ∈ [Responses; InputTokens]) then schema (path (field "text") ["format"; "schema"]%string)
   else ret tt) ;;;
  (if decide (Surface family = "anthropic"%string) then
     schema (path (field "output_config") ["format"; "schema"]%string) ;;; schema (path (field "output_format") ["schema"]%string)
   else if decide (Surface family = "gemini"%string) then generationConfig (field "generationConfig")
   else if decide (Surface family = "bedrock"%string) then
     let s := path (field "outputConfig") ["textFormat"; "structure"; "jsonSchema"; "schema"]%string in
     step ok := toolText s in unless ok (schema s)
   else ret tt).

Fixpoint embedding (fuel : nat) (n : jnode) : W unit :=
  match fuel with
  | O => out_of_fuel
  | S fuel =>
      step ok := w_text n in
      unless ok (each (λ item,
        if unmarshal_uint32 (kind_at item) (source item) then modify (λ i, addFlat i 1) else embedding fuel item) (elements_at n))
  end.

(** The keys of native content, and those a tool call or its result is held under. *)
Definition dialect_keys : list string := ["text"; "content"; "parts"; "contents"; "systemInstruction"; "functionResponse"; "functionCall"; "input"; "output"]%string.
Definition tool_keys : list string := ["functionResponse"; "functionCall"; "input"; "output"]%string.

Fixpoint dialect (fuel : nat) (n : jnode) : W unit :=
  match fuel with
  | O => out_of_fuel
  | S fuel =>
      if negb (present n) then ret tt
      else
        step ok := w_text n in
        if (ok : bool) then ret tt
        else match array_at n with
        | Some items => each (dialect fuel) items
        | None =>
            let f := object_at n in
            if negb (exists_ f) then ret tt
            else if present (get f "inlineData") || present (get f "fileData") || source_is (get f "type") "image" then modify (λ i, addMedia i ImageTokens)
            else if source_is (get f "type") "thinking" then toolText_ (get f "thinking") ;;; modify guessed
            else if source_is (get f "type") "redacted_thinking" then modify guessed
            else if source_is (get f "type") "document" then
              let source := object_at (get f "source") in
              if source_is (get source "type") "text" then toolText_ (get source "data") ;;; modify guessed
              else if source_is (get source "type") "content" then dialect fuel (get source "content") ;;; modify guessed
              else modify (λ i, addMedia i MediaTokens)
            else
              when (source_is (get f "type") "tool_use" || source_is (get f "type") "tool_result") (modify guessed) ;;;
              each (λ key,
                when (present (get f key)) (when (Contains tool_keys key) (modify guessed) ;;; dialect fuel (get f key))) dialect_keys
        end
  end.

(** A message of a native conversation, for the framing. *)
Definition dialect_message (n : jnode) : W unit :=
  let item := object_at n in when (exists_ item) (modify addMessage ;;; w_role (get item "role")).

Definition w_system (n : jnode) : W unit := when (present n && negb (isNull n)) (modify (λ i, addRole (addMessage i) (txt "system"))).

Definition dialectMessages (fuel : nat) (n : jnode) : W unit := dialect fuel n ;;; each dialect_message (elements_at n).
Definition dialectSystem (fuel : nat) (n : jnode) : W unit := dialect fuel n ;;; w_system n.

Definition dialectRequest (fuel : nat) (n : jnode) : W unit :=
  dialect fuel n ;;;
  let inner := object_at n in
  schema (get inner "tools") ;;; generationConfig (get inner "generationConfig") ;;;
  each dialect_message (elements_at (get inner "contents")) ;;; w_system (get inner "systemInstruction").

Definition walkInput (fuel : nat) (family : string) (field : string → jnode) : W unit :=
  (if decide (family = Completions) then embedding fuel (field "prompt")
   else if decide (family = Chat) then items (field "messages")
   else if decide (family = Embeddings) then embedding fuel (field "input")
   else if decide (family ∈ [Responses; InputTokens; Moderation]) then items (field "input") ;;; instructions (field "instructions")
   else ret tt) ;;;
  if decide (Surface family ≠ "openai"%string) then
    dialectMessages fuel (field "messages") ;;; dialectSystem fuel (field "system") ;;;
    dialectMessages fuel (field "contents") ;;; dialectSystem fuel (field "systemInstruction") ;;;
    dialectRequest fuel (field "generateContentRequest") ;;;
    (if decide (family = MistralFIM) then w_text_ (field "prompt") ;;; w_text_ (field "suffix")
     else if decide (family = CohereChat) then schema (field "documents")
     else ret tt) ;;;
    schema (field "tools") ;;;
    when (bool_decide (Surface family = "bedrock"%string)) (schema (field "toolConfig")) ;;;
    structured family field
  else tools (field "tools") ;;; structured family field.

(** [requestFields] *)
Definition requestFields (name : string) : jnode := Value_Lookup d 0 (txt name).

(** Fuel enough for any value of the document. *)
Definition walk_fuel : nat := S (length (d_nodes d)).

Definition walk_document (family : string) : option input := snd <$> walkInput walk_fuel family requestFields no_input.
End Walk.
