(* ===== verification/TokenWalkFacts.v ===== *)
(** * Walks end, and gather an input

    Walking the document of any request the parser accepts, in any dialect, ends with the fuel it
    is given, and only gathers texts, charges, roles and messages: the counts of the prompt are
    those of the texts it read. *)

From S2P Require Import Prelude Go Amount Source SourceParser SourceGrammar SourceExact SourceSound SourceValues.
From S2P Require Import TokenVocab TokenVocabFacts TokenHeap TokenMerge TokenMergeFacts TokenLarge TokenPiece TokenScan TokenRegex TokenScanExact TokenClasses.
From S2P Require Import TokenEncode TokenEncodeFacts TokenMeter TokenPrompt TokenPromptFacts TokenWalk.
From Stdlib Require Import Ascii.
Local Open Scope Z_scope.

(** ** Actions that end and gather *)

Definition gathering (i : input) : Prop := ∃ ts, walked i ts.

Definition gathers_on {A} (w : W A) : Prop := ∀ i, gathering i → ∃ a i', w i = Some (a, i') ∧ gathering i'.

Create HintDb walk.

Lemma gathers_ret {A} (a : A) : gathers_on (ret a).
Proof. intros i Hi. by exists a, i. Qed.

Lemma gathers_bind {A B} (w : W A) (f : A → W B) : gathers_on w → (∀ a, gathers_on (f a)) → gathers_on (bind w f).
Proof. intros Hw Hf i Hi. destruct (Hw i Hi) as (a & i' & E & Hi'). unfold bind. rewrite E. by apply Hf. Qed.

Lemma gathers_modify f : (∀ i, gathering i → gathering (f i)) → gathers_on (modify f).
Proof. intros Hf i Hi. exists tt, (f i). split; [done|]. by apply Hf. Qed.

Lemma gathers_each {A} (f : A → W unit) l : (∀ x, x ∈ l → gathers_on (f x)) → gathers_on (each f l).
Proof.
  induction l as [|x l IH]; intros H; [apply gathers_ret|]. cbn [each]. apply gathers_bind; [apply H; by left|]. intros _. apply IH. intros y Hy. apply H. by right.
Qed.

Lemma gathers_when b w : (b = true → gathers_on w) → gathers_on (when b w).
Proof. destruct b; intros H; [by apply H|apply gathers_ret]. Qed.

Lemma gathers_unless b w : gathers_on w → gathers_on (unless b w).
Proof. destruct b; intros H; [apply gathers_ret|done]. Qed.

Lemma gathering_text i s : gathering i → gathering (addText i s).
Proof. intros [ts H]. exists (ts ++ [s]). by constructor. Qed.
Lemma gathering_flat i n : gathering i → gathering (addFlat i n).
Proof. intros [ts H]. exists ts. by constructor. Qed.
Lemma gathering_guessed i : gathering i → gathering (guessed i).
Proof. intros [ts H]. exists ts. by constructor. Qed.
Lemma gathering_message i : gathering i → gathering (addMessage i).
Proof. intros [ts H]. exists ts. by constructor. Qed.
Lemma gathering_role i r : gathering i → gathering (addRole i r).
Proof. intros [ts H]. exists ts. by constructor. Qed.
Lemma gathering_name i : gathering i → gathering (addName i).
Proof. intros [ts H]. exists ts. by constructor. Qed.
Lemma gathering_media i n : gathering i → gathering (addMedia i n).
Proof. intros H. by apply gathering_guessed, gathering_flat. Qed.

#[export] Hint Resolve gathers_ret gathers_bind gathers_modify gathers_each gathers_when gathers_unless
  gathering_text gathering_flat gathering_guessed gathering_message gathering_role gathering_name gathering_media : walk.

(** Cases of an action, then the rules above. *)
Ltac walk := intros; repeat (first [apply gathers_ret | apply gathers_bind | apply gathers_each | apply gathers_when | apply gathers_unless
  | apply gathers_modify; solve [eauto 6 with walk] | solve [eauto with walk] | case_match | intro]).

Section Document.
Context (d : document).

Lemma w_text_gathers n : gathers_on (w_text d n).
Proof. unfold w_text. walk. Qed.

Lemma toolText_gathers n : gathers_on (toolText d n).
Proof. unfold toolText. apply gathers_bind; [apply w_text_gathers|]. walk. Qed.

Lemma w_text__gathers n : gathers_on (w_text_ d n).
Proof. unfold w_text_. apply gathers_bind; [apply w_text_gathers|]. walk. Qed.

Lemma toolText__gathers n : gathers_on (toolText_ d n).
Proof. unfold toolText_. apply gathers_bind; [apply toolText_gathers|]. walk. Qed.

Lemma schema_gathers n : gathers_on (schema d n).
Proof. unfold schema. walk. Qed.

Lemma w_role_gathers n : gathers_on (w_role d n).
Proof. unfold w_role. walk. Qed.

#[local] Hint Resolve w_text_gathers toolText_gathers w_text__gathers toolText__gathers schema_gathers w_role_gathers : walk.

Lemma message_gathers o : gathers_on (message d o).
Proof. unfold message. walk. Qed.

Lemma reasoning_gathers o : gathers_on (reasoning d o).
Proof. unfold reasoning. walk. Qed.

Lemma instructions_gathers n : gathers_on (instructions d n).
Proof. unfold instructions. walk. Qed.

Lemma part_gathers n : gathers_on (part_of_content d n).
Proof. unfold part_of_content. walk. Qed.

#[local] Hint Resolve message_gathers reasoning_gathers instructions_gathers part_gathers : walk.

Lemma content_gathers n : gathers_on (content d n).
Proof. unfold content. walk. Qed.

Lemma tool_call_gathers n : gathers_on (tool_call d n).
Proof. unfold tool_call. walk. Qed.

#[local] Hint Resolve content_gathers tool_call_gathers : walk.

Lemma item_gathers n : gathers_on (item_of d n).
Proof. unfold item_of. walk. Qed.

#[local] Hint Resolve item_gathers : walk.

Lemma items_gathers n : gathers_on (items d n).
Proof. unfold items. walk. Qed.

Lemma tools_gathers n : gathers_on (tools d n).
Proof. unfold tools, tool_of. walk. Qed.

Lemma generationConfig_gathers n : gathers_on (generationConfig d n).
Proof. unfold generationConfig. walk. Qed.

#[local] Hint Resolve items_gathers tools_gathers generationConfig_gathers : walk.

Lemma structured_gathers family field : gathers_on (structured d family field).
Proof. unfold structured. walk. Qed.

Lemma dialect_message_gathers n : gathers_on (dialect_message d n).
Proof. unfold dialect_message. walk. Qed.

Lemma w_system_gathers n : gathers_on (w_system d n).
Proof. unfold w_system. walk. Qed.

#[local] Hint Resolve structured_gathers dialect_message_gathers w_system_gathers : walk.

(** ** Depth *)

(** A value the document represents, or none, with as many nodes after it as the fuel allows. *)
Definition deep (fuel : nat) (n : jnode) : Prop :=
  (0 < fuel)%nat ∧ ∀ i, n = Some i → (∃ t, represents (d_raw d) (d_nodes d) i t) ∧ (length (d_nodes d) - i < fuel)%nat.

(** The values a value holds. *)
Definition child (i j : nat) : Prop := (i < j)%nat ∧ ∃ t, represents (d_raw d) (d_nodes d) j t.

Lemma all2_elem {A B} (P : A → B → Prop) l k x : all2 P l k → x ∈ l → ∃ y, P x y.
Proof.
  revert l. induction k as [|y k IH]; intros [|z l]; simpl; try done; try (intros _ H; by apply elem_of_nil in H).
  intros [H HA] [->|Hx]%elem_of_cons; [eauto|by eapply IH].
Qed.

Lemma element_child i t e : represents (d_raw d) (d_nodes d) i t → e ∈ Elements d i → child i e.
Proof.
  intros R. unfold Elements, Value_Kind, node_at. destruct t as [|b|x|b|l|l]; destruct R as (n & Hn & Hk & _ & H); rewrite Hn; simpl; rewrite Hk; simpl;
    try (intros H'; by apply elem_of_nil in H'). destruct H as [_ H]. intros He. destruct (all2_elem _ _ _ _ H He) as (t' & Hi & R). split; [done|]. by exists t'.
Qed.

Lemma lookup_child i t name j : represents (d_raw d) (d_nodes d) i t → Value_Lookup d i name = Some j → child i j.
Proof.
  intros R. unfold Value_Lookup, Value_Kind, node_at. destruct t as [|b|x|b|l|l]; destruct R as (n & Hn & Hk & _ & H); rewrite Hn; simpl; rewrite Hk; simpl; try done.
  destruct H as [_ H]. unfold find_member. destruct (List.find _ (n_members n)) as [m|] eqn:E; [|done]. intros [= <-]. apply find_some in E as [Hin _].
  apply list_elem_of_In in Hin. destruct (all2_elem _ _ _ _ H Hin) as (t' & _ & Hi & R). split; [done|]. by exists (t'.2).
Qed.

Lemma child_deep fuel n i j : deep (S fuel) n → n = Some i → child i j → deep fuel (Some j).
Proof.
  intros [_ Hd] E [Hlt [t R] ]. destruct (Hd i E) as [_ Hf]. pose proof R as R'. destruct t; destruct R' as (x & Hx & _); apply lookup_lt_Some in Hx; split; try lia;
    intros k [= <-]; (split; [by eexists|lia]).
Qed.

Lemma deep_none fuel : (0 < fuel)%nat → deep fuel None.
Proof. intros H. split; [done|]. done. Qed.

Lemma deep_elements fuel n x : deep (S fuel) n → x ∈ elements_at d n → deep fuel x.
Proof.
  intros Hd. destruct n as [i|]; [|cbn; intros H; by apply elem_of_nil in H]. unfold elements_at, array_at. destruct (proj2 Hd i eq_refl) as [ [t R] _].
  destruct (Value_Kind d i) eqn:Ek; cbn; try (intros H; by apply elem_of_nil in H). intros (e & -> & He)%list_elem_of_fmap. eapply child_deep; [done..|]. by eapply element_child.
Qed.

(** A member is deep in the fuel left, which is some when the object is there. *)
Lemma deep_get fuel n name : deep (S fuel) n → (∃ i, n = Some i ∧ (i < length (d_nodes d))%nat) → deep fuel (get d (object_at d n) name).
Proof.
  intros Hd (i & -> & Hi). assert (0 < fuel)%nat as Hf by (destruct (proj2 Hd i eq_refl); lia). unfold object_at. destruct (Value_Kind d i); cbn [get]; try (by apply deep_none).
  destruct (Value_Lookup d i (txt name)) as [j|] eqn:E; [|by apply deep_none]. destruct (proj2 Hd i eq_refl) as [ [t R] _]. eapply child_deep; [done..|]. by eapply lookup_child.
Qed.

Lemma deep_valid fuel i : deep fuel (Some i) → (i < length (d_nodes d))%nat.
Proof. intros [_ H]. destruct (H i eq_refl) as [ [t R] _]. destruct t; destruct R as (x & Hx & _); by apply lookup_lt_Some in Hx. Qed.

Lemma deep_more fuel fuel' n : deep fuel n → (fuel ≤ fuel')%nat → deep fuel' n.
Proof. intros [H0 H] Hle. split; [lia|]. intros i Hi. destruct (H i Hi). split; [done|lia]. Qed.

Lemma embedding_gathers fuel n : deep fuel n → gathers_on (embedding d fuel n).
Proof.
  revert n. induction fuel as [|fuel IH]; intros n Hd; [by destruct Hd; lia|]. cbn [embedding]. apply gathers_bind; [eauto with walk|]. intros ok. apply gathers_unless, gathers_each.
  intros x Hx. destruct (unmarshal_uint32 _ _); [walk|]. apply IH. by eapply deep_elements.
Qed.

Lemma dialect_gathers fuel n : deep fuel n → gathers_on (dialect d fuel n).
Proof.
  revert n. induction fuel as [|fuel IH]; intros n Hd; [by destruct Hd; lia|]. cbn [dialect]. destruct n as [i|]; [|walk]. pose proof (deep_valid _ _ Hd) as Hi.
  destruct (present d (Some i)); cbn [negb]; [|walk]. apply gathers_bind; [eauto with walk|]. intros [|]; [walk|].
  destruct (array_at d (Some i)) as [xs|] eqn:Ea.
  { apply gathers_each. intros x Hx. apply IH. eapply deep_elements; [done|]. unfold elements_at. by rewrite Ea. }
  assert (∀ name, deep fuel (get d (object_at d (Some i)) name)) as Hget by (intros name; apply deep_get; eauto).
  assert (∀ m name, deep fuel m → gathers_on (dialect d fuel (get d (object_at d m) name))) as Hdoc.
  { intros m name Hm. apply IH. destruct m as [j|]; [|cbn; apply deep_none; by destruct Hm]. eapply deep_more; [|apply Nat.le_refl].
    destruct fuel as [|fuel]; [by destruct Hm; lia|]. pose proof (deep_valid _ _ Hm). eapply deep_more; [apply deep_get; eauto|lia]. }
  repeat case_match; solve [walk].
Qed.

Lemma walkInput_gathers fuel family field : (∀ name, deep fuel (field name)) → gathers_on (walkInput d fuel family field).
Proof.
  intros Hf. assert (∀ name, gathers_on (embedding d fuel (field name))) as He by (intros; by apply embedding_gathers).
  assert (∀ name, gathers_on (dialect d fuel (field name))) as Hd by (intros; by apply dialect_gathers).
  unfold walkInput, dialectMessages, dialectSystem, dialectRequest. walk.
Qed.
End Document.

(** ** Requests *)

(** Walking a document the parser returned ends, whatever it holds and in every dialect. *)
Lemma walk_document_gathers data limits d family : ParseJSON data limits = ok d → ∃ i, walk_document d family = Some i ∧ gathering i.
Proof.
  intros E. destruct (ParseJSON_outcome data limits) as (o & Eo & H). rewrite E in Eo. injection Eo as <-. destruct H as (Hr & t & _ & R & _). rewrite <- Hr in R.
  destruct (walkInput_gathers d (walk_fuel d) family (requestFields d)) with (i := no_input) as ([] & i & Ei & Hi).
  - intros name. unfold requestFields, walk_fuel. destruct (Value_Lookup d 0 (txt name)) as [j|] eqn:El; [|apply deep_none; lia].
    destruct (lookup_child d 0 t _ j R El) as [Hj Ht]. split; [lia|]. intros k [= <-]. split; [done|lia].
  - exists []. constructor.
  - exists i. unfold walk_document. by rewrite Ei.
Qed.

(** Walking the value under a name of the document's root, as a prompt of its own. *)
Lemma embedding_item_gathers data limits d name i e : ParseJSON data limits = ok d → Value_Lookup d 0 name = Some i → e ∈ Elements d i →
  ∃ o, embedding d (walk_fuel d) (Some e) no_input = Some (tt, o) ∧ gathering o.
Proof.
  intros E El He. destruct (ParseJSON_outcome data limits) as (o & Eo & H). rewrite E in Eo. injection Eo as <-. destruct H as (Hr & t & _ & R & _). rewrite <- Hr in R.
  destruct (lookup_child d 0 t _ i R El) as [_ [ti Ri] ]. destruct (element_child d i ti e Ri He) as [Hlt Hte].
  destruct (embedding_gathers d (walk_fuel d) (Some e)) with (i := no_input) as ([] & o & Ei & Hi).
  - split; [unfold walk_fuel; lia|]. intros k [= <-]. split; [done|unfold walk_fuel; lia].
  - exists []. constructor.
  - by exists o.
Qed.
