(* ===== verification/TokenEmbeddings.v ===== *)
(** * Embeddings requests counted from their source

    The parts together, for the request whose prompt is plain: the source of an embeddings request
    is parsed, its document walked and what was gathered counted. What comes out is a function of
    the JSON tree alone: the tokens of each text it holds, and one for each token id. *)

From S2P Require Import Prelude Go Amount Source SourceParser SourceGrammar SourceExact SourceSound SourceValues.
From S2P Require Import TokenVocab TokenVocabFacts TokenHeap TokenMerge TokenMergeFacts TokenLarge TokenPiece TokenScan TokenRegex TokenScanExact TokenClasses.
From S2P Require Import TokenEncode TokenEncodeFacts TokenMeter TokenPrompt TokenPromptFacts TokenWalk TokenWalkFacts.
From Stdlib Require Import Ascii SpecFloat.
Local Open Scope Z_scope.
Local Open Scope olp_scope.

(** ** What an input tree holds *)

(** A token id: a number written as a 32-bit integer, or null, which decodes as one. *)
Definition is_token (t : json) : bool :=
  match t with
  | JNull => true
  | JNumber raw => forallb digit_byte raw && (name_value raw <=? MaxUint32)
  | _ => false
  end.

(** The texts, at any depth of arrays and in order. *)
Fixpoint texts_of (t : json) : list text :=
  match t with
  | JString b => [default [] (SourceParser.decode b)]
  | JArray l => flat_map (λ t', if is_token t' then [] else texts_of t') l
  | _ => []
  end.

(** The number of token ids. *)
Fixpoint ids_of (t : json) : Z :=
  match t with
  | JArray l => foldr (λ t' n, (if is_token t' then 1 else ids_of t') + n) 0 l
  | _ => 0
  end.

(** The member of a name, once decoded. *)
Definition member_of (t : json) (name : text) : option json :=
  match t with JObject l => snd <$> List.find (λ m, bool_decide (name_of m.1 = name)) l | _ => None end.

(** ** The walk of a tree *)

(** Two inputs that differ in their texts and flat charges only. *)
Definition same_frame (i o : input) : Prop :=
  in_roles o = in_roles i ∧ in_messages o = in_messages i ∧ in_names o = in_names i ∧ in_approx o = in_approx i.

#[export] Instance same_frame_preorder : PreOrder same_frame.
Proof. split; [done|]. intros i o p (A & B & C & D) (A' & B' & C' & D'). repeat split; congruence. Qed.

Lemma addText_frame i s : same_frame i (addText i s) ∧ in_flat (addText i s) = in_flat i.
Proof. unfold addText. destruct s; [done|]. cbn [charged]. repeat case_match; done. Qed.

Section Document.
Context (d : document).
Notation rep := (represents (d_raw d) (d_nodes d)).

(** What an action adds: texts and token ids. *)
Definition adds (w : W unit) (ts : list text) (n : Z) : Prop :=
  ∀ i ts0, walked i ts0 → in_flat i <= MaxTokens →
    ∃ i', w i = Some (tt, i') ∧ walked i' (ts0 ++ ts) ∧ same_frame i i' ∧ in_flat i' = Z.min MaxTokens (in_flat i + n).

Lemma adds_ret : adds (ret tt) [] 0.
Proof. intros i ts0 Hw Hf. exists i. rewrite app_nil_r. repeat split; try done. lia. Qed.

Lemma adds_bind w k ts n ts' n' : 0 <= n → 0 <= n' → adds w ts n → adds k ts' n' → adds (bind w (λ _, k)) (ts ++ ts') (n + n').
Proof.
  intros H0 H0' Hw Hk i ts0 Hi Hf. destruct (Hw i ts0 Hi Hf) as (i1 & E1 & W1 & F1 & N1). destruct (Hk i1 (ts0 ++ ts) W1 ltac:(lia)) as (i2 & E2 & W2 & F2 & N2).
  exists i2. unfold bind. rewrite E1, E2, (assoc_L (++)). split; [done|]. split; [done|]. split; [by transitivity i1|]. lia.
Qed.

Lemma adds_text s : adds (modify (λ i, addText i s)) [s] 0.
Proof.
  intros i ts0 Hi Hf. destruct (addText_frame i s) as [F N]. exists (addText i s). split; [done|]. split; [by constructor|]. split; [done|]. rewrite N. lia.
Qed.

Lemma adds_id : adds (modify (λ i, addFlat i 1)) [] 1.
Proof. intros i ts0 Hi Hf. exists (addFlat i 1). rewrite app_nil_r. split; [done|]. split; [by constructor|]. split; [done|]. cbn. by rewrite addBounded_min. Qed.

Lemma ids_nonneg t : 0 <= ids_of t.
Proof.
  induction t as [| | | |l IH|] using json_ind; cbn [ids_of]; try done. induction IH as [|t l Ht _ IH]; cbn [foldr]; [done|]. destruct (is_token t); lia.
Qed.

(** Reading a represented value. *)
Lemma rep_node j t : rep j t → ∃ n, node_at d j = n ∧ n_kind n = kind_of t ∧ Val t (Value_Raw d j) ∧
  match t with JArray l => all2 (λ e t', (j < e)%nat ∧ rep e t') (n_elements n) l | _ => True end.
Proof.
  intros R. unfold Value_Raw, node_at. destruct t; destruct R as (n & Hn & Hk & Hv & H); rewrite Hn; exists n; repeat split; try done. apply H.
Qed.

Lemma rep_kind j t : rep j t → Value_Kind d j = kind_of t.
Proof. intros (n & <- & H & _)%rep_node. done. Qed.

(** A value is a token id by its source exactly when the tree says so. *)
Lemma rep_token j t : rep j t → unmarshal_uint32 (kind_at d (Some j)) (source d (Some j)) = is_token t.
Proof.
  intros R. cbn [kind_at source]. rewrite (rep_kind j t R). destruct (rep_node j t R) as (n & _ & _ & V & _). destruct t; try done. cbn. by inversion V.
Qed.

Lemma rep_text j t : rep j t → w_text d (Some j) =
  match t with
  | JNull => bind (modify (λ i, addText i [])) (λ _, ret true)
  | JString b => bind (modify (λ i, addText i (default [] (SourceParser.decode b)))) (λ _, ret true)
  | _ => ret false
  end.
Proof.
  intros R. unfold w_text, text_at. rewrite (rep_kind j t R). destruct t as [| | |b| |]; try done; cbn [kind_of]; unfold Value_text; try (by rewrite (rep_kind j _ R)).
  fold (Value_text d j). destruct (Value_text_string d j b R) as (s & Es & Et). rewrite Et, Es. done.
Qed.

Lemma embedding_adds t : ∀ fuel j, rep j t → (length (d_nodes d) - j < fuel)%nat → adds (embedding d fuel (Some j)) (texts_of t) (ids_of t).
Proof.
  induction t as [| | |b|l IH|] using json_ind; intros [|fuel] j R Hf; try lia; cbn [embedding]; rewrite (rep_text j _ R).
  - exact adds_ret.
  - unfold elements_at, array_at. rewrite (rep_kind j _ R). apply adds_ret.
  - unfold elements_at, array_at. rewrite (rep_kind j _ R). apply adds_ret.
  - intros i ts0 Hi Hl. destruct (adds_text (default [] (SourceParser.decode b)) i ts0 Hi Hl) as (i' & E & H). exists i'. split; [|exact H]. by unfold bind; rewrite E.
  - destruct (rep_node j _ R) as (n & En & Hk & _ & HA). unfold elements_at, array_at. rewrite (rep_kind j _ R). cbn [kind_of default from_option id].
    unfold Elements. rewrite (rep_kind j _ R), En. cbn [kind_of]. unfold bind at 1, ret at 1.
    change (adds (each (λ item, if unmarshal_uint32 (kind_at d item) (source d item) then modify (λ i, addFlat i 1) else embedding d fuel item) (Some <$> n_elements n)) (texts_of (JArray l)) (ids_of (JArray l))).
    clear R En Hk. revert HA. generalize (n_elements n) as es. induction IH as [|t l Ht _ IH]; intros [|e es] HA; try done; [apply adds_ret|].
    destruct HA as [ [Hlt Re] HA]. cbn [fmap list_fmap each texts_of ids_of flat_map foldr].
    assert (∀ x, 0 <= ids_of x) as Hpos by exact ids_nonneg. apply adds_bind; [destruct (is_token t); [done|apply Hpos]|exact (Hpos (JArray l))| |by apply IH].
    rewrite (rep_token e t Re). destruct (is_token t) eqn:Et; [apply adds_id|]. apply Ht; [done|].
    destruct t; destruct Re as (x & Hx & _); apply lookup_lt_Some in Hx; lia.
  - unfold elements_at, array_at. rewrite (rep_kind j _ R). apply adds_ret.
Qed.

Lemma rep_member t name : rep 0 t → match member_of t name with Some t' => ∃ j, Value_Lookup d 0 name = Some j ∧ rep j t' | None => Value_Lookup d 0 name = None end.
Proof.
  intros R. unfold Value_Lookup. rewrite (rep_kind 0 t R). destruct t as [| | | | |l]; try done. cbn [kind_of member_of].
  destruct R as (n & Hn & _ & _ & _ & HA). unfold node_at. rewrite Hn. cbn [default from_option id].
  assert (all2 (λ m bt, m.1 = name_of bt.1 ∧ rep m.2 bt.2) (n_members n) l) as H by (revert HA; apply all2_weaken; tauto).
  pose proof (find_member_agrees rep name _ _ H) as G. unfold agrees in G. destruct (find_member name (n_members n)), (snd <$> _); try done. eauto.
Qed.

(** The walk of an embeddings request that names no tools. *)
Lemma embeddings_adds t : rep 0 t → requestFields d "tools" = None →
  let prompt := default JNull (member_of t (txt "input")) in
  ∃ i, walk_document d Embeddings = Some i ∧ walked i (texts_of prompt) ∧ same_frame no_input i ∧ in_flat i = Z.min MaxTokens (ids_of prompt).
Proof.
  intros R Ht prompt. assert (adds (embedding d (walk_fuel d) (requestFields d "input")) (texts_of prompt) (ids_of prompt)) as Ha.
  { unfold requestFields, prompt. pose proof (rep_member t (txt "input") R) as Hm. destruct (member_of t (txt "input")) as [t'|]; [|rewrite Hm; exact adds_ret].
    destruct Hm as (j & -> & Rj). apply embedding_adds; [done|]. unfold walk_fuel. lia. }
  destruct (Ha no_input [] walked_none ltac:(done)) as (i & E & Hw & Hs & Hn). exists i. split; [|by rewrite Z.add_0_l in Hn].
  unfold walk_document, walkInput. rewrite decide_False, decide_False, decide_True by done. unfold bind at 1. rewrite E.
  rewrite decide_False by (vm_compute; tauto). unfold tools. by rewrite Ht.
Qed.
End Document.

(** ** The count *)

Section Tokens.
Context (u : unicode) (Hu : unicode_ok u) (pool : text → scratch) (pool_ok : ∀ t, pooled_ok (pool t)).

(** The number of tokens a text encodes to. *)
Definition tokens_of (e : Encoding) (s : text) : Z := match Encode u pool e s with Some (_, inr ids) => Z.of_nat (length ids) | _ => 0 end.
Definition all_tokens (e : Encoding) (ts : list text) : Z := foldr (λ s n, tokens_of e s + n) 0 ts.

(** What a meter counts of a text, once the encoding has loaded, is its tokens. *)
Lemma whole_count_tokens e v e' s : encoding_ok u e → newVocab (e_ranks e) = Built v → load u e = Some (e', None) → whole_count u pool e' s = tokens_of e s.
Proof.
  intros He E El. destruct (load_parsed u e e' He El) as (v' & E' & Hl). pose proof Hl as (He' & _).
  destruct (encode_whole u Hu pool pool_ok e' v' s (size_of s) He' E' ltac:(done)) as (e2 & ids & _ & E1 & E2 & _). unfold whole_count, prefix_count. rewrite E2. cbn [fst].
  unfold tokens_of. enough (Encode u pool e s = Encode u pool e' s) as -> by (by rewrite E1).
  destruct (load_built u e v He E) as (e0 & El0 & Hl0 & Es & El1). rewrite El in El0. injection El0 as <-.
  unfold Encode. by rewrite (with_tables_built u e v e' _ El Hl0 Es), (with_tables_built u e' v e' _ El1 Hl0 eq_refl), Es.
Qed.

Lemma tokens_empty e v : encoding_ok u e → newVocab (e_ranks e) = Built v → tokens_of e [] = 0.
Proof. intros He E. destruct (load_built u e v He E) as (e0 & El0 & Hl0 & Es & _). unfold tokens_of, Encode. by rewrite (with_tables_built u e v e0 _ El0 Hl0 Es). Qed.

Lemma all_tokens_filter e v ts : encoding_ok u e → newVocab (e_ranks e) = Built v → all_tokens e (filter (λ s, s ≠ []) ts) = all_tokens e ts.
Proof.
  intros He E. pose proof (tokens_empty e v He E) as H0. unfold all_tokens. induction ts as [|s ts IH]; [done|]. rewrite filter_cons. case_decide as H; cbn [foldr]; [lia|].
  subst s. lia.
Qed.

Lemma all_tokens_nonneg e ts : 0 <= all_tokens e ts.
Proof. unfold all_tokens. induction ts as [|s ts IH]; cbn; [done|]. unfold tokens_of at 1. repeat case_match; lia. Qed.
End Tokens.

(** C32. A short embeddings request, from its source to its count. Any source the parser accepts
    is the JSON of some tree; when the request names no tools, walking its document ends and, if
    what it gathered is at most the bytes that are counted exactly, every counter over a rank file
    that parses counts the sum of the tokens each text of the tree's input encodes to, at any depth
    of arrays, and one for each token id, saturated at what the limiter stores, as a tokenizer's
    count. *)
Theorem embeddings_counted_exactly u pool c e v data limits d :
  unicode_ok u → (∀ t, pooled_ok (pool t)) → encoding_ok u e → newVocab (e_ranks e) = Built v → c_encoding c = Some e →
  ParseJSON data limits = ok d → requestFields d "tools" = None →
  ∃ t i, admissible (effective limits) t data ∧ walk_document d Embeddings = Some i ∧
    let prompt := default JNull (member_of t (txt "input")) in
    in_bytes i = text_bytes (texts_of prompt) ∧
    (in_bytes i <= ExactBytes →
     count_input u pool c i false = Some (mkCount (Z.min MaxTokens (all_tokens u pool e (texts_of prompt) + ids_of prompt)) ProvenanceTokenizer)).
Proof.
  intros Hu Hp He Ev Ec E Ht. destruct (ParseJSON_outcome data limits) as (o & Eo & H). rewrite E in Eo. injection Eo as <-.
  destruct H as (Hr & t & A & R & _). rewrite <- Hr in R.
  destruct (embeddings_adds d t R Ht) as (i & Ei & Hw & (F1 & F2 & F3 & F4) & Hn). exists t, i. split; [done|]. split; [done|]. intros prompt. fold prompt in Hw, Hn.
  split; [exact (g_bytes _ _ (walked_gathers _ _ Hw))|]. intros Hb. assert (ExactBytes <= retainBytes) as Hx by done.
  rewrite (short_count u pool c i _ false Hu Hp) by (done || (unfold counter_ok; by rewrite Ec) || rewrite F1; cbn; lia).
  destruct (short_whole i _ Hw) as (_ & _ & _ & Hts); [lia|].
  destruct (load_built u e v He Ev) as (e' & El & _). unfold Counter_Meter. rewrite Ec, El. cbn [mbind option_bind m_encoding].
  rewrite F1, F2, F4, Hts. cbn [in_roles in_messages in_approx no_input whole_counts foldr Overhead Z.leb]. unfold Overhead. change (0 <=? 0) with true. cbv iota.
  assert (whole_counts u pool e' (filter (λ s, s ≠ []) (texts_of prompt)) = all_tokens u pool e (texts_of prompt)) as ->.
  { rewrite <- (all_tokens_filter u pool e v _ He Ev). unfold whole_counts, all_tokens. generalize (filter (λ s, s ≠ []) (texts_of prompt)) as ts.
    induction ts as [|s ts IH]; cbn; [done|]. by rewrite IH, (whole_count_tokens u Hu pool Hp e v e'). }
  f_equal. f_equal. pose proof (all_tokens_nonneg u pool e (texts_of prompt)). pose proof (ids_nonneg prompt). pose proof MaxTokens_pos. rewrite !addBounded_min, Hn. lia.
Qed.

(** A source with single quotes read as double ones. *)
Definition json_source (s : string) : text := map (λ c, if Ascii.eqb c "'" then "034"%char else c) (txt s).

(** A batch of two texts, one nested, with three token ids. *)
Lemma embeddings_counted_exactly_witness :
  let data := json_source "{'model':'m','input':['abc',[7,['ab\u0063'],12],3]}" in
  ∃ v t, newVocab sample_ranks = Built v ∧ admissible (effective (mkLimits 0 0 0)) t data ∧
    Z.min MaxTokens (all_tokens sample_unicode sample_pool (O200kBase sample_ranks) (texts_of (default JNull (member_of t (txt "input")))) +
      ids_of (default JNull (member_of t (txt "input")))) = 5.
Proof.
  intros data. destruct (newVocab sample_ranks) as [v| | |] eqn:E; [|exfalso; pose proof sample_ranks_built as H; rewrite E in H; exact H..].
  destruct (ParseJSON data (mkLimits 0 0 0)) as [ [err|d]|] eqn:Ed; [vm_compute in Ed; discriminate Ed| |vm_compute in Ed; discriminate Ed].
  assert (requestFields d "tools" = None ∧ ∃ i, walk_document d Embeddings = Some i ∧ in_bytes i <= ExactBytes ∧
    count_input sample_unicode sample_pool (mkCounter FamilyOpenAIO200k (Some (O200kBase sample_ranks)) fzero) i false = Some (mkCount 5 ProvenanceTokenizer)) as (Ht & i & Ei & Hb & Ec).
  { vm_compute in Ed. injection Ed as <-. split; [vm_compute; reflexivity|]. eexists. split; [vm_compute; reflexivity|]. split; [vm_compute; discriminate|vm_compute; reflexivity]. }
  destruct (embeddings_counted_exactly sample_unicode sample_pool (mkCounter FamilyOpenAIO200k (Some (O200kBase sample_ranks)) fzero) (O200kBase sample_ranks) v data
    (mkLimits 0 0 0) d sample_unicode_ok (λ _, conj eq_refl eq_refl)) as (t & i' & A & Ei' & _ & H);
    [split; [left; reflexivity|discriminate]|exact E|reflexivity|exact Ed|exact Ht|].
  exists v, t. split; [reflexivity|]. split; [exact A|].
  rewrite Ei in Ei'. injection Ei' as <-. specialize (H Hb). rewrite Ec in H. injection H as H. symmetry. exact H.
Defined.
