(* ===== verification/TokenTally.v ===== *)
(** * Prompts, their shared counts and estimates

    [Prompt] of [internal/operations/tokenization/estimate/prompt.go]: a request walked once,
    counted on demand and once for each family, which shares its counts with the prompts that read
    alike; and the estimate admission reserves, with the reply the request allows
    ([OutputBounds] of [walk.go]). Tallies are shared by reference, so they are entries of a store;
    each is used under its own lock, so a run is a sequence of calls. Estimates are for a request
    whose defaults were already merged, which is a call with no defaults. *)

From S2P Require Import Prelude Go Amount Source SourceParser SourceGrammar SourceExact SourceSound SourceValues.
From S2P Require Import TokenVocab TokenHeap TokenMerge TokenScan TokenEncode TokenMeter TokenPrompt TokenWalk.
From Stdlib Require Import Ascii SpecFloat.
Local Open Scope Z_scope.

(** ** Requests *)

Record request := mkRequest { r_family : string; r_document : document }.

Definition Request_Field (r : request) (name : string) : text := source (r_document r) (requestFields (r_document r) name).

Record counted := mkCounted { ct_family : string; ct_count : Tally_Count; ct_context : Z }.

(** The counts of one prompt, and the families they were counted for, in order. *)
Record tally := mkTally { t_counted : list counted; t_observed : list string }.

Definition new_tally : tally := mkTally [] [].

Record Prompt := mkPrompt { p_request : option request; p_generation : bool; p_in : input; p_tally : nat; p_retainedInput : Z }.

Definition is_completions (r : option request) : bool := match r with Some r => bool_decide (r_family r = Completions) | None => false end.

Definition WithRetainedInputTokens (p : Prompt) (tokens : Z) : Prompt :=
  mkPrompt (p_request p) (p_generation p) (p_in p) (p_tally p) (Z.min (Z.max tokens 0) MaxTokens).

Definition retainedCount (p : Prompt) (count : Tally_Count) (context : Z) : Tally_Count * Z :=
  (mkCount (addBounded (Tokens count) (p_retainedInput p)) (CountProvenance count), addBounded context (p_retainedInput p)).

(** The prompts of a completions request that holds several. *)
Definition batch_items (r : option request) : option (list nat) :=
  match r with
  | Some r =>
      if decide (r_family r = Completions) then
        let items := match requestFields (r_document r) "prompt" with Some i => Elements (r_document r) i | None => [] end in
        match items with
        | e :: _ => match Value_Kind (r_document r) e with KString | Array => Some items | _ => None end
        | [] => None
        end
      else None
  | None => None
  end.

(** The tallies in use, by the place each was given. *)
Notation store := (gmap nat tally).

Section Counting.
Context (SortFunc : ∀ A, cmp A → list A → list A) (u : unicode) (pool : text → scratch).

(** One prompt of a batch: the count so far, the largest context and the budget left. *)
Definition count_item (d : document) (c : Counter) (st : option (option Tally_Count * Z * Z)) (item : nat) : option (option Tally_Count * Z * Z) :=
  match st with
  | None => None
  | Some (count, context, budget) =>
      match embedding d (walk_fuel d) (Some item) no_input with
      | None => None
      | Some (_, single) =>
          match countWithBudget u pool c single false (Some budget) with
          | Some (part, Some budget) =>
              let provenance := match count with None => CountProvenance part | Some k => Weaker (CountProvenance k) (CountProvenance part) end in
              let tokens := addBounded (match count with None => 0 | Some k => Tokens k end) (Tokens part) in
              Some (Some (mkCount tokens provenance), Z.max context (Tokens part), budget)
          | _ => None
          end
      end
  end.

(** What a prompt counts to, without the counts it shares. *)
Definition fresh_count (p : Prompt) (c : Counter) : option (Tally_Count * Z) :=
  match p_request p, batch_items (p_request p) with
  | Some r, Some items =>
      match fold_left (count_item (r_document r) c) items (Some (None, 0, ExactBytes)) with
      | Some (Some count, context, _) => Some (count, context)
      | _ => None
      end
  | _, _ => match count_input u pool c (p_in p) false with Some count => Some (count, Tokens count) | None => None end
  end.

(** [Prompt.input] *)
Definition Prompt_input (st : store) (p : Prompt) (c : Counter) : option (store * (Tally_Count * Z)) :=
  let family := Counter_Family c in
  let t := default new_tally (st !! p_tally p) in
  match List.find (λ e, bool_decide (ct_family e = family)) (t_counted t) with
  | Some e => Some (st, retainedCount p (ct_count e) (ct_context e))
  | None =>
      match fresh_count p c with
      | Some (count, context) =>
          Some (<[p_tally p := mkTally (t_counted t ++ [mkCounted family count context]) (t_observed t ++ [family])]> st, retainedCount p count context)
      | None => None
      end
  end.

(** [Walk] of a request, with the tally it is given a place for. *)
Definition Walk (place : nat) (r : option request) : option Prompt :=
  match r with
  | None => Some (mkPrompt None true no_input place 0)
  | Some r =>
      match walk_document (r_document r) (r_family r) with
      | Some i => Some (mkPrompt (Some r) (bool_decide (Operation (r_family r) = "generation"%string)) i place 0)
      | None => None
      end
  end.

(** [Follow]; following itself changes nothing, so the objects are not compared. *)
Definition Follow (p from : Prompt) : Prompt :=
  let differ := match p_request p, p_request from with
    | Some a, Some b => (is_completions (Some a) || is_completions (Some b)) && negb (bool_decide (Request_Field a "prompt" = Request_Field b "prompt"))
    | _, _ => false
    end in
  if differ then p
  else if input_equal SortFunc (p_in p) (p_in from) then mkPrompt (p_request p) (p_generation p) (p_in p) (p_tally from) (p_retainedInput p)
  else p.
End Counting.

(** ** Estimates *)

Definition DefaultOutputTokens : Z := 4096.

(** [integerValue]: a number written as an integer of 64 bits. *)
Definition integerValue (d : document) (n : jnode) : option Z :=
  match kind_at d n with
  | Number =>
      let raw := source d n in
      let '(negative, digits) := match raw with c :: rest => if Ascii.eqb c "-" then (true, rest) else (false, raw) | [] => (false, []) end in
      if forallb digit_byte digits && negb (bool_decide (digits = [])) then
        let v := if (negative : bool) then - name_value digits else name_value digits in
        if (MinInt64 <=? v) && (v <=? MaxInt64) then Some v else None
      else None
  | _ => None
  end.

(** The first bound the request names. *)
Definition first_integer (d : document) (names : list string) : option Z := head (omap (λ name, integerValue d (requestFields d name)) names).

(** [fieldOf] with no defaults is the field of the request. *)
Definition field_integer (r : option request) (name : string) : option Z :=
  match r with Some r => integerValue (r_document r) (requestFields (r_document r) name) | None => None end.

Definition member_integer (r : request) (field member : string) : option Z :=
  integerValue (r_document r) (path (r_document r) (requestFields (r_document r) field) [member]).

(** How many prompts a completions request holds, when it holds several. *)
Definition prompt_copies (r : request) : option Z :=
  match array_at (r_document r) (requestFields (r_document r) "prompt") with
  | Some ((first :: _) as items) =>
      match kind_at (r_document r) first with KString | Array => Some (Z.of_nat (length items)) | _ => None end
  | _ => None
  end.

Definition output_fields (family : string) : list string :=
  if decide (family = Completions) then ["max_tokens"]%string
  else if decide (family = Responses) then ["max_output_tokens"]%string
  else ["max_completion_tokens"; "max_tokens"]%string.

(** [OutputBounds] of a request, with no defaults. *)
Definition OutputBounds (r : option request) : option Z * Z :=
  match r with
  | None => (None, 1)
  | Some r =>
      let family := r_family r in
      let output := first_integer (r_document r) (output_fields family) in
      let output := if decide (family = "bedrock"%string) then match member_integer r "inferenceConfig" "maxTokens" with Some v => Some v | None => output end else output in
      let gemini := bool_decide (Surface family = "gemini"%string) in
      let output := if gemini then match member_integer r "generationConfig" "maxOutputTokens" with Some v => Some v | None => output end else output in
      let candidates := if gemini then default 1 (member_integer r "generationConfig" "candidateCount") else 1 in
      let candidates := if decide (family = Chat ∨ family = Completions) then default candidates (field_integer (Some r) "n") else candidates in
      if decide (family = Completions) then
        let candidates := match field_integer (Some r) "best_of" with Some best => Z.max candidates best | None => candidates end in
        (output, match prompt_copies r with Some n => multiplyBounded candidates n | None => candidates end)
      else (output, candidates)
  end.

Record Estimate := mkEstimate {
  EInput : Z; ContextInput : Z; EOutput : option Z; Candidates : Z; EProvenance : string; EFamily : string; e_generation : bool; e_inputCopies : Z;
}.

Definition InputExposure (e : Estimate) : Z := multiplyBounded (EInput e) (Z.max (e_inputCopies e) 1).

Definition Reply (e : Estimate) : Z :=
  if negb (e_generation e) then 0
  else multiplyBounded (Z.max (default DefaultOutputTokens (EOutput e)) 1) (Z.max (Candidates e) 1).

(** [Estimate.Tokens] *)
Definition Estimate_Tokens (e : Estimate) : Z :=
  if negb (e_generation e) then Z.max (EInput e) 1 else Z.max (addBounded (InputExposure e) (Reply e)) 1.

(** The copies of the input a completions request is charged for. *)
Definition input_copies (r : option request) : Z :=
  if is_completions r then fold_left (λ copies name, match field_integer r name with Some n => Z.max copies n | None => copies end) ["n"; "best_of"]%string 1 else 0.

(** [Prompt.Estimate] with no defaults. *)
Definition Prompt_Estimate (u : unicode) (pool : text → scratch) (st : store) (p : Prompt) (c : Counter) : option (store * Estimate) :=
  match Prompt_input u pool st p c with
  | None => None
  | Some (st, (count, context)) =>
      if negb (p_generation p) then
        Some (st, mkEstimate (Z.max (Tokens count) 1) (Z.max context 1) None 1 (CountProvenance count) (Counter_Family c) false 0)
      else
        let '(output, candidates) := OutputBounds (p_request p) in
        Some (st, mkEstimate (Tokens count) context output candidates (CountProvenance count) (Counter_Family c) true (input_copies (p_request p)))
  end.
