(* ===== verification/Utf8.v ===== *)
(** * UTF-8

    Valid text is the encodings of its runes, one after the other: [utf8.Valid], [WriteRune] and
    [DecodeRune] agree. What a valid string body decodes to is valid, and a part of a valid text
    that starts and ends in ASCII is valid. *)

From S2P Require Import Prelude Go Amount Source SourceParser SourceGrammar SourceExact SourceSound SourceValues TokenVocab TokenScan TokenRegex.
From Stdlib Require Import Ascii.
Local Open Scope Z_scope.
Local Open Scope olp_scope.

(** A rune that has an encoding. *)
Definition valid_rune (r : Z) : Prop := 0 <= r < 0xD800 ∨ 0xE000 <= r <= MaxRune.

Lemma code_byte_of z : 0 <= z < 256 → code (byte_of z) = z.
Proof. intros H. unfold code, byte_of. rewrite N_ascii_embedding by lia. lia. Qed.

Lemma byte_of_code c : byte_of (code c) = c.
Proof. apply code_inj, code_byte_of, code_bound. Qed.

(** The encoding of a rune, by its length. *)
Inductive encoded (r : Z) : text → Prop :=
  | encoded_1 c : code c = r → r < 0x80 → encoded r [c]
  | encoded_2 a b : 0xC2 <= code a <= 0xDF → 0x80 <= code b <= 0xBF → r = (code a - 0xC0) * 64 + (code b - 0x80) → encoded r [a; b]
  | encoded_3 a b c : 0xE0 <= code a <= 0xEF → 0x80 <= code b <= 0xBF → 0x80 <= code c <= 0xBF → (code a = 0xE0 → 0xA0 <= code b) → (code a = 0xED → code b <= 0x9F) →
      r = (code a - 0xE0) * 4096 + (code b - 0x80) * 64 + (code c - 0x80) → encoded r [a; b; c]
  | encoded_4 a b c d : 0xF0 <= code a <= 0xF4 → 0x80 <= code b <= 0xBF → 0x80 <= code c <= 0xBF → 0x80 <= code d <= 0xBF →
      (code a = 0xF0 → 0x90 <= code b) → (code a = 0xF4 → code b <= 0x8F) →
      r = (code a - 0xF0) * 262144 + (code b - 0x80) * 4096 + (code c - 0x80) * 64 + (code d - 0x80) → encoded r [a; b; c; d].

Ltac bytes := Z.to_euclidean_division_equations; lia.

Lemma encode_encoded r : valid_rune r → encoded r (encode_rune r).
Proof.
  unfold valid_rune, MaxRune. intros H. unfold encode_rune. destruct (Z.ltb_spec r 0x80); [constructor; [apply code_byte_of; lia|done]|].
  destruct (Z.ltb_spec r 0x800).
  { constructor; rewrite ?code_byte_of by bytes; bytes. }
  destruct (Z.ltb_spec r 0x10000).
  { constructor; rewrite ?code_byte_of by bytes; try bytes. }
  constructor; rewrite ?code_byte_of by bytes; try bytes.
Qed.

Lemma encoded_rune r p : encoded r p → valid_rune r ∧ p = encode_rune r.
Proof.
  assert (∀ c z, code c = z → c = byte_of z) as Hb by (intros c z <-; by rewrite byte_of_code).
  intros [c E H|a b Ha Hb' E|a b c Ha Hb' Hc He Hd E|a b c d Ha Hb' Hc Hd He Hf E]; unfold valid_rune, MaxRune, encode_rune.
  - pose proof (code_bound c). split; [lia|]. rewrite (proj2 (Z.ltb_lt _ _)) by done. by rewrite <- (Hb c r).
  - split; [lia|]. rewrite (proj2 (Z.ltb_ge _ _)), (proj2 (Z.ltb_lt _ _)) by lia. f_equal; [apply Hb; bytes|]. f_equal; apply Hb; bytes.
  - split; [lia|]. rewrite !(proj2 (Z.ltb_ge _ _)), (proj2 (Z.ltb_lt _ _)) by lia. f_equal; [apply Hb; bytes|]. f_equal; [apply Hb; bytes|]. f_equal; apply Hb; bytes.
  - split; [lia|]. rewrite !(proj2 (Z.ltb_ge _ _)) by lia. f_equal; [apply Hb; bytes|]. f_equal; [apply Hb; bytes|]. f_equal; [apply Hb; bytes|]. f_equal; apply Hb; bytes.
Qed.

Lemma continuation_true c lo hi : lo <= code c <= hi → continuation c lo hi = true.
Proof. intros. unfold continuation. apply andb_true_iff. split; apply Z.leb_le; lia. Qed.

Lemma continuation_spec c lo hi : continuation c lo hi = true → lo <= code c <= hi.
Proof. unfold continuation. intros [? ?]%andb_true_iff. by split; apply Z.leb_le. Qed.

Ltac decide_tests := repeat match goal with
  | |- context [Z.ltb ?a ?b] => first [rewrite (proj2 (Z.ltb_lt a b)) by lia|rewrite (proj2 (Z.ltb_ge a b)) by lia]
  | |- context [Z.leb ?a ?b] => first [rewrite (proj2 (Z.leb_le a b)) by lia|rewrite (proj2 (Z.leb_gt a b)) by lia]
  | |- context [Z.eqb ?a ?b] => first [rewrite (proj2 (Z.eqb_eq a b)) by lia|rewrite (proj2 (Z.eqb_neq a b)) by lia]
  | |- context [continuation ?c ?lo ?hi] => rewrite (continuation_true c lo hi) by lia
  end; cbn [andb].

Lemma utf8_encoded r p y : encoded r p → utf8_Valid (p ++ y) = utf8_Valid y.
Proof.
  intros [c E H|a b Ha Hb E|a b c Ha Hb Hc He Hd E|a b c d Ha Hb Hc Hd He Hf E]; cbn [app utf8_Valid].
  - by rewrite (proj2 (Z.ltb_lt _ _)) by lia.
  - decide_tests. done.
  - destruct (Z.eq_dec (code a) 0xE0); [decide_tests; done|]. destruct (Z.eq_dec (code a) 0xED); decide_tests; done.
  - destruct (Z.eq_dec (code a) 0xF0); [decide_tests; done|]. destruct (Z.eq_dec (code a) 0xF4); decide_tests; done.
Qed.

(** A valid text starts with the encoding of a rune. *)
Lemma utf8_cases s : utf8_Valid s = true → s = [] ∨ ∃ r p q, s = p ++ q ∧ encoded r p ∧ utf8_Valid q = true.
Proof.
  destruct s as [|a s]; [by left|]. intros V. right. cbn [utf8_Valid] in V. pose proof (code_bound a). destruct (Z.ltb_spec (code a) 0x80).
  { exists (code a), [a], s. split; [done|]. split; [by constructor|done]. }
  destruct s as [|b s]; [done|]. destruct ((0xC2 <=? code a) && (code a <=? 0xDF)) eqn:E2.
  { apply andb_true_iff in E2 as [? ?], V as [Hb%continuation_spec V]. bool_to_prop. eexists _, [a; b], s. split; [done|]. split; [by constructor|done]. }
  destruct s as [|c s]; [done|].
  assert (∀ lo hi, (lo = 0x80 ∨ lo = 0xA0) → (hi = 0xBF ∨ hi = 0x9F) → 0xE0 <= code a <= 0xEF → (code a = 0xE0 → lo = 0xA0) → (code a = 0xED → hi = 0x9F) →
    continuation b lo hi && continuation c 0x80 0xBF && utf8_Valid s = true → ∃ r p q, a :: b :: c :: s = p ++ q ∧ encoded r p ∧ utf8_Valid q = true) as H3.
  { intros lo hi Hl Hh Ha He Hd V'. apply andb_true_iff in V' as [ [Hb%continuation_spec Hc%continuation_spec]%andb_true_iff V']. eexists _, [a; b; c], s. split; [done|]. split; [constructor; try done; lia|done]. }
  destruct (Z.eqb_spec (code a) 0xE0); [apply (H3 0xA0 0xBF); (done || lia)|]. destruct (Z.eqb_spec (code a) 0xED); [apply (H3 0x80 0x9F); (done || lia)|].
  destruct ((0xE1 <=? code a) && (code a <=? 0xEF)) eqn:E3; [apply andb_true_iff in E3 as [?%Z.leb_le ?%Z.leb_le]; apply (H3 0x80 0xBF); (done || lia)|].
  destruct s as [|d s]; [done|].
  assert (∀ lo hi, (lo = 0x80 ∨ lo = 0x90) → (hi = 0xBF ∨ hi = 0x8F) → 0xF0 <= code a <= 0xF4 → (code a = 0xF0 → lo = 0x90) → (code a = 0xF4 → hi = 0x8F) →
    continuation b lo hi && (continuation c 0x80 0xBF && continuation d 0x80 0xBF && utf8_Valid s) = true → ∃ r p q, a :: b :: c :: d :: s = p ++ q ∧ encoded r p ∧ utf8_Valid q = true) as H4.
  { intros lo hi Hl Hh Ha He Hd V'. apply andb_true_iff in V' as [Hb%continuation_spec [ [Hc%continuation_spec Hd'%continuation_spec]%andb_true_iff V']%andb_true_iff].
    eexists _, [a; b; c; d], s. split; [done|]. split; [constructor; try done; lia|done]. }
  destruct (Z.eqb_spec (code a) 0xF0); [apply (H4 0x90 0xBF); (done || lia)|]. destruct (Z.eqb_spec (code a) 0xF4); [apply (H4 0x80 0x8F); (done || lia)|].
  destruct ((0xF1 <=? code a) && (code a <=? 0xF3)) eqn:E4; [apply andb_true_iff in E4 as [?%Z.leb_le ?%Z.leb_le]; apply (H4 0x80 0xBF); (done || lia)|done].
Qed.

Lemma encoded_length r p : encoded r p → (1 ≤ length p)%nat.
Proof. intros []; cbn; lia. Qed.

(** A valid text, rune by rune. *)
Lemma utf8_ind (P : text → Prop) : P [] → (∀ r p q, encoded r p → utf8_Valid q = true → P q → P (p ++ q)) → ∀ s, utf8_Valid s = true → P s.
Proof.
  intros H0 HS s. remember (length s) as n eqn:E. revert s E. induction (lt_wf n) as [n _ IH]. intros s -> V.
  destruct (utf8_cases s V) as [->|(r & p & q & -> & Hp & Vq)]; [done|]. apply (HS r); [done|done|]. eapply IH; [|done|done].
  pose proof (encoded_length r p Hp). rewrite length_app. lia.
Qed.

Lemma utf8_app x y : utf8_Valid x = true → utf8_Valid y = true → utf8_Valid (x ++ y) = true.
Proof. intros Vx Vy. revert x Vx. apply utf8_ind; [done|]. intros r p q Hp Vq IH. by rewrite <- (assoc_L (++)), (utf8_encoded r). Qed.

Lemma utf8_of_ascii c : code c < 0x80 → utf8_Valid [c] = true.
Proof. intros H. cbn. by rewrite (proj2 (Z.ltb_lt _ _)). Qed.

(** Where an ASCII byte cuts a valid text, both sides are valid. *)
Lemma utf8_cut x c y : code c < 0x80 → utf8_Valid (x ++ c :: y) = true → utf8_Valid x = true ∧ utf8_Valid (c :: y) = true.
Proof.
  intros Hc. remember (length x) as n eqn:E. revert x E. induction (lt_wf n) as [n _ IH]. intros x -> V.
  destruct x as [|a x]; [done|]. destruct (utf8_cases _ V) as [?|(r & p & q & E & Hp & Vq)]; [done|].
  assert (∃ x', a :: x = p ++ x' ∧ q = x' ++ c :: y) as (x' & Ex & ->).
  { apply app_eq_app in E as [k [ [E1 E2]|[E1 E2] ] ]; [by exists k|]. destruct k as [|c' k]; [rewrite app_nil_r in E1; exists []; rewrite app_nil_r; cbn in E2; by rewrite E2|].
    injection E2 as <- _. exfalso. assert (c ∈ drop 1 p) as Hin by (rewrite E1; cbn; set_solver).
    clear -Hp Hin Hc. destruct Hp as [c1|a1 b1 ? ? ?|a1 b1 c1 ? ? ? ? ? ?|a1 b1 c1 d1 ? ? ? ? ? ? ?]; cbn [drop] in Hin; rewrite ?elem_of_cons, ?elem_of_nil in Hin;
      repeat (destruct Hin as [-> | Hin]; [lia|]); try done. }
  destruct (IH (length x')) with (x := x') as [V1 V2]; [|done|done|].
  - pose proof (encoded_length r p Hp). apply (f_equal length) in Ex. rewrite length_app in Ex. cbn in Ex |- *. lia.
  - split; [|done]. rewrite Ex, (utf8_encoded r) by done. done.
Qed.

(** A part of a valid text that starts and ends in ASCII is valid. *)
Definition framed (s : text) : Prop := (∃ c s', s = c :: s' ∧ code c < 0x80) ∧ (∃ s' c, s = s' ++ [c] ∧ code c < 0x80).

Lemma utf8_framed x s y : framed s → utf8_Valid (x ++ s ++ y) = true → utf8_Valid s = true.
Proof.
  intros [(c & s1 & E1 & Hc) (s2 & e & E2 & He)] V. rewrite E1 in V. cbn [app] in V. apply utf8_cut in V as [_ V]; [|done].
  change (c :: s1 ++ y) with ((c :: s1) ++ y) in V. rewrite <- E1, E2, <- (assoc_L (++)) in V. cbn [app] in V. apply utf8_cut in V as [V _]; [|done]. rewrite E2. apply utf8_app; [done|by apply utf8_of_ascii].
Qed.

Lemma decode_encoded r p y : encoded r p → decode_rune (p ++ y) = (r, length p).
Proof.
  assert (∀ x, 0x80 <= code x <= 0xBF → Z.land (code x) 0x3F = code x - 0x80) as Hm by (intros; rewrite low_bits; bytes).
  intros [c E H|a b Ha Hb E|a b c Ha Hb Hc He Hd E|a b c d Ha Hb Hc Hd He Hf E]; cbn [app].
  - rewrite decode_low by lia. by rewrite E.
  - unfold decode_rune. decide_tests. rewrite Hm, lor2 by lia. change 0x1F with (Z.ones 5). rewrite Z.land_ones by lia. f_equal. subst r. change (2 ^ 5) with 32. bytes.
  - assert (Z.land (code a) 0x0F = code a - 0xE0) as Ea by (change 0x0F with (Z.ones 4); rewrite Z.land_ones by lia; change (2 ^ 4) with 16; bytes).
    unfold decode_rune. rewrite Ea, !Hm, lor3 by lia. subst r.
    destruct (Z.eq_dec (code a) 0xE0); [decide_tests; done|]. destruct (Z.eq_dec (code a) 0xED); decide_tests; done.
  - assert (Z.land (code a) 0x07 = code a - 0xF0) as Ea by (change 0x07 with (Z.ones 3); rewrite Z.land_ones by lia; change (2 ^ 3) with 8; bytes).
    unfold decode_rune. rewrite Ea, !Hm, lor4 by lia. subst r.
    destruct (Z.eq_dec (code a) 0xF0); [decide_tests; done|]. destruct (Z.eq_dec (code a) 0xF4); decide_tests; done.
Qed.

(** ** Decoding strings *)

Lemma unquote_more fuel : ∀ fuel' b t, (fuel ≤ fuel')%nat → unquote fuel b = Some t → unquote fuel' b = Some t.
Proof.
  induction fuel as [|fuel IH]; intros [|fuel'] b t L H; try done; try lia. cbn [unquote] in *.
  assert (∀ (f : text → text) b', f <$> unquote fuel b' = Some t → f <$> unquote fuel' b' = Some t) as Hf.
  { intros f b'. destruct (unquote fuel b') as [x|] eqn:E; [|done]. by rewrite (IH fuel' b' x) by (done || lia). }
  repeat (case_match; try done); by apply Hf.
Qed.

Lemma plain_high c : 0x80 <= code c → plain c = true ∧ Ascii.eqb c "092" = false ∧ Ascii.eqb c "034" = false.
Proof.
  intros H. assert (Ascii.eqb c "092" = false ∧ Ascii.eqb c "034" = false) as [E1 E2] by (split; apply Ascii.eqb_neq; intros ->; vm_compute in H; done).
  unfold plain. rewrite E1, E2. rewrite (proj2 (Z.ltb_ge _ _)) by lia. done.
Qed.

Lemma encoded_high r p : encoded r p → 0x80 <= r → Forall (λ c, 0x80 <= code c) p.
Proof. intros Hp H. destruct Hp; repeat constructor; lia. Qed.

(** Bytes past ASCII stand for themselves. *)
Lemma unquote_high p b fuel : Forall (λ c, 0x80 <= code c) p → unquote (length p + fuel) (p ++ b) = app p <$> unquote fuel b.
Proof.
  induction 1 as [|c p Hc _ IH]; cbn [length Nat.add app]; [by destruct (unquote fuel b)|]. cbn [unquote]. destruct (plain_high c Hc) as (_ & -> & _). cbn [negb].
  rewrite IH. by destruct (unquote fuel b).
Qed.

Lemma chars_high p b : Forall (λ c, 0x80 <= code c) p → chars b → chars (p ++ b).
Proof. induction 1 as [|c p Hc _ IH]; [done|]. intros Hb. cbn. apply chars_plain; [apply plain_high; done|by apply IH]. Qed.

Lemma hex_digit_ascii c n : hex_digit c = Some n → code c < 0x80 ∧ 0 <= n < 16.
Proof. unfold hex_digit. repeat case_match; intros [= <-]; split_bools; bool_to_prop; lia. Qed.

Lemma hex4_ascii a b c d n : hex4 a b c d = Some n → 0 <= n < 0x10000 ∧ Forall (λ c, code c < 0x80) [a; b; c; d].
Proof.
  unfold hex4. destruct (hex_digit a) as [w|] eqn:A, (hex_digit b) as [x|] eqn:B, (hex_digit c) as [y|] eqn:C, (hex_digit d) as [z|] eqn:D; try done. intros [= <-].
  apply hex_digit_ascii in A, B, C, D. split; [lia|]. repeat constructor; tauto.
Qed.

Lemma utf8_rune r : valid_rune r → utf8_Valid (encode_rune r) = true.
Proof. intros H. rewrite <- (app_nil_r (encode_rune r)). by rewrite (utf8_encoded r) by (by apply encode_encoded). Qed.

(** One escape stands for valid text. *)
Lemma unquote_escape e : escaped e → Forall (λ c, code c < 0x80) e ∧
  ∃ out, utf8_Valid out = true ∧ ∀ fuel s, unquote (S fuel) ("092"%char :: e ++ s) = app out <$> unquote fuel s.
Proof.
  intros [c Hc|h1 h2 h3 h4 n Hn Hs|h1 h2 h3 h4 n l1 l2 l3 l4 low Hn Hh Hl Hw].
  - assert (c ∈ ["034"; "092"; "/"; "b"; "f"; "n"; "r"; "t"]%char) as Hin.
    { apply existsb_exists in Hc as (x & Hx & ->%Ascii.eqb_eq). by apply list_elem_of_In. }
    rewrite !elem_of_cons, elem_of_nil in Hin. repeat (destruct Hin as [-> | Hin]; [split; [by repeat constructor|]; eexists [_]; split; [|intros; cbn; by destruct (unquote fuel s)]; done|]). done.
  - destruct (hex4_ascii _ _ _ _ _ Hn) as [B F]. split; [by constructor|]. exists (encode_rune n). split; [apply utf8_rune; unfold valid_rune, MaxRune; lia|]. intros fuel s. cbn [app unquote].
    change (Ascii.eqb "092" "092") with true. cbn [negb]. simpl Ascii.eqb. cbv iota. rewrite Hn. cbn [default from_option id].
    destruct (Z.leb_spec 0xD800 n), (Z.leb_spec n 0xDFFF); cbn [andb]; try lia; done.
  - destruct (hex4_ascii _ _ _ _ _ Hn) as [B F], (hex4_ascii _ _ _ _ _ Hl) as [B' F'].
    split; [apply Forall_cons; split; [done|]; apply (Forall_app_2 _ [h1; h2; h3; h4]); [done|]; by do 2 constructor|].
    exists (encode_rune ((n - 0xD800) * 1024 + (low - 0xDC00) + 0x10000)). split; [apply utf8_rune; unfold valid_rune, MaxRune; lia|]. intros fuel s. cbn [app unquote].
    change (Ascii.eqb "092" "092") with true. cbn [negb]. simpl Ascii.eqb. cbv iota. rewrite Hn, Hl. cbn [default from_option id].
    decide_tests. done.
Qed.

Lemma utf8_ascii_cons c y : code c < 0x80 → utf8_Valid (c :: y) = utf8_Valid y.
Proof. intros H. cbn. by rewrite (proj2 (Z.ltb_lt _ _)). Qed.

Lemma utf8_ascii_app e y : Forall (λ c, code c < 0x80) e → utf8_Valid (e ++ y) = utf8_Valid y.
Proof. induction 1 as [|c e Hc _ IH]; [done|]. cbn [app]. by rewrite utf8_ascii_cons. Qed.

(** What a valid body decodes to is valid, whatever valid text it follows. *)
Lemma decode_valid b : chars b → ∀ x fuel t, utf8_Valid (x ++ b) = true → unquote fuel b = Some t → utf8_Valid (x ++ t) = true.
Proof.
  induction 1 as [|c b P C IH|e b He C IH]; intros x [|fuel] t V E; try done.
  - by injection E as <-.
  - cbn [unquote] in E. rewrite (plain_backslash c P) in E. cbn [negb] in E. destruct (unquote fuel b) as [t'|] eqn:E'; [|done]. injection E as <-.
    change (x ++ c :: t') with (x ++ [c] ++ t'). rewrite (assoc_L (++)). apply (IH _ fuel); [|done]. by rewrite <- (assoc_L (++)).
  - destruct (unquote_escape e He) as (F & out & Vo & Ho). rewrite Ho in E. destruct (unquote fuel b) as [t'|] eqn:E'; [|done]. injection E as <-.
    apply utf8_cut in V as [Vx Vb]; [|done]. rewrite utf8_ascii_cons, utf8_ascii_app in Vb by done. apply utf8_app; [done|]. apply utf8_app; [done|]. exact (IH [] fuel t' Vb E').
Qed.

Lemma name_valid b : chars b → utf8_Valid b = true → utf8_Valid (name_of b) = true.
Proof.
  intros C V. unfold name_of. destruct (existsb _ b); [|done]. unfold decode. destruct (unquote_total b (S (length b)) C) as (t & E); [lia|]. rewrite E. exact (decode_valid b C [] _ t V E).
Qed.
