(* ===== verification/OverlayGrammar.v ===== *)
(** * A text is the JSON of one tree

    The grammar is unambiguous, so a document the parser returns has one tree. And the parts of a
    valid text that start and end in ASCII, as every value and every name does, are valid UTF-8,
    what a string decodes to included. *)

From S2P Require Import Prelude Go Amount Source SourceParser SourceGrammar SourceExact SourceSound SourceValues Utf8.
From Stdlib Require Import Ascii Wf_nat.
Local Open Scope Z_scope.
Local Open Scope olp_scope.

(** ** Unambiguity *)

Definition one_value (t : json) (s : text) : Prop := ∀ t' s' r r', Val t' s' → s ++ r = s' ++ r' → follow r → follow r' → t = t' ∧ s = s'.
Definition one_list (l : list json) (s : text) : Prop := ∀ l' s' r r', Elems l' s' → s ++ r = s' ++ r' → l = l' ∧ s = s'.
Definition one_object (l : list (text * json)) (s : text) : Prop := ∀ l' s' r r', Mems l' s' → s ++ r = s' ++ r' → l = l' ∧ s = s'.

Lemma numeral_other t s c : numeral t → t = c :: s → number_start c.
Proof. intros H ->. destruct (numeral_start _ H) as (c' & s' & [= <- <-] & Hc). done. Qed.

(** Two numerals, or two strings, at the head of the same text are the same. *)
Lemma numeral_one t t' r r' : numeral t → numeral t' → t ++ r = t' ++ r' → follow r → follow r' → t = t'.
Proof.
  intros H H' E F F'. pose proof (number_complete 0 t r H F) as N. rewrite E, (number_complete 0 t' r' H' F') in N. injection N as ->. by apply app_inv_tail in E.
Qed.

Lemma quoted_one b b' r r' : chars b → chars b' → quoted b ++ r = quoted b' ++ r' → b = b' ∧ r = r'.
Proof.
  intros H H' E. pose proof (string_complete 0 b r H) as N. rewrite E, (string_complete 0 b' r' H') in N. injection N as ->. apply app_inv_tail in E.
  unfold quoted in E. injection E as E. by apply app_inv_tail in E.
Qed.

(** The blanks before a text that starts with none. *)
Lemma blank_one w w' x x' : blank w → blank w' → space x = x → space x' = x' → w ++ x = w' ++ x' → w = w' ∧ x = x'.
Proof.
  intros B B' S S' E. pose proof (space_blank w x B) as N. rewrite E, space_blank, S, S' in N by done. subst x'. split; [by apply app_inv_tail in E|done].
Qed.

Lemma follow_close c r : c ∈ [","; "]"; "}"]%char → follow (c :: r).
Proof. rewrite !elem_of_cons, elem_of_nil. intros [-> | [-> | [-> | [] ] ] ]; cbn; auto. Qed.

(** The byte a value starts with tells its kind. *)
Definition starts_as (t : json) (c : ascii) : Prop :=
  match t with
  | JNull => c = "n"%char | JBool true => c = "t"%char | JBool false => c = "f"%char | JNumber _ => number_start c
  | JString _ => c = "034"%char | JArray _ => c = "["%char | JObject _ => c = "{"%char
  end.

Lemma Val_starts_as t s : Val t s → ∃ c s', s = c :: s' ∧ starts_as t c.
Proof. intros [ | | |x H| | | | | ]; cbn; eauto. destruct (numeral_start _ H) as (c & s' & -> & Hc). eauto. Qed.

Definition same_kind (t t' : json) : Prop := match t, t' with JBool a, JBool b => a = b | _, _ => kind_of t = kind_of t' end.

Lemma starts_as_kind t t' c : starts_as t c → starts_as t' c → same_kind t t'.
Proof.
  assert (∀ c', starts_as t' c' → starts_as t c' → ∀ x, t = JNumber x ∨ t' = JNumber x → ∃ y z, t = JNumber y ∧ t' = JNumber z) as Hn.
  { intros c' H' H x [-> | ->]; cbn in *; [destruct t' as [|[]| | | |]|destruct t as [|[]| | | |] ]; cbn in *; eauto; subst c'; by destruct H as [H|H] || destruct H' as [H'|H']. }
  intros H H'. destruct t as [|[]|x| | |] eqn:Et, t' as [|[]|y| | |] eqn:Et'; cbn in *; try done; try (by subst c);
    first [destruct (Hn c H' H x (or_introl eq_refl)) as (? & ? & ? & ?)|destruct (Hn c H' H y (or_intror eq_refl)) as (? & ? & ? & ?)]; done.
Qed.

Lemma Val_same_kind t s t' s' r r' : Val t s → Val t' s' → s ++ r = s' ++ r' → same_kind t t'.
Proof.
  intros V V' E. destruct (Val_starts_as _ _ V) as (c & x & -> & H), (Val_starts_as _ _ V') as (c' & x' & -> & H'). injection E as <- _. by eapply starts_as_kind.
Qed.

Lemma space_head c r : is_space c = false → space (c :: r) = c :: r.
Proof. apply space_cons. Qed.

(** A value with its blanks at the head of the same text, up to the byte that ends it. *)
Lemma padded_one t s w w' c x t2 s2 w2 w2' c2 x2 : one_value t s → Val t s → blank w → blank w' → Val t2 s2 → blank w2 → blank w2' →
  c ∈ [","; "]"; "}"]%char → c2 ∈ [","; "]"; "}"]%char → w ++ s ++ w' ++ c :: x = w2 ++ s2 ++ w2' ++ c2 :: x2 →
  t = t2 ∧ w ++ s ++ w' = w2 ++ s2 ++ w2' ∧ c = c2 ∧ x = x2.
Proof.
  intros IH V B B' V2 B2 B2' C C2 E. destruct (blank_one w w2 (s ++ w' ++ c :: x) (s2 ++ w2' ++ c2 :: x2)) as [<- E1]; [done|done|by apply (space_Val t)|by apply (space_Val t2)|done|].
  destruct (IH t2 s2 (w' ++ c :: x) (w2' ++ c2 :: x2)) as [<- <-]; [done|done|by apply blank_follow; [|apply follow_close]..|]. apply app_inv_head in E1.
  assert (∀ c : ascii, c ∈ [","; "]"; "}"]%char → is_space c = false) as Hs by (intros z; rewrite !elem_of_cons, elem_of_nil; intros [-> | [-> | [-> | [] ] ] ]; done).
  destruct (blank_one w' w2' (c :: x) (c2 :: x2)) as [<- E2]; [done|done|by apply space_head, Hs|by apply space_head, Hs|done|]. injection E2 as <- <-. done.
Qed.

Lemma array_one l s w r r' : Elems l s → blank w → s ++ r = w ++ "]"%char :: r' → False.
Proof. intros H B E. pose proof (Elems_take l s r H) as T. rewrite E, space_blank in T by done. done. Qed.

Lemma object_one l s w r r' : Mems l s → blank w → s ++ r = w ++ "}"%char :: r' → False.
Proof. intros H B E. pose proof (Mems_take l s r H) as T. rewrite E, space_blank in T by done. done. Qed.

Lemma close_one w w' c c' r r' : blank w → blank w' → is_space c = false → is_space c' = false → w ++ c :: r = w' ++ c' :: r' → w = w' ∧ c = c' ∧ r = r'.
Proof. intros B B' S S' E. destruct (blank_one w w' (c :: r) (c' :: r')) as [-> [= -> ->] ]; try done; by apply space_head. Qed.

(** A member up to its value. *)
Lemma key_one b w w1 w2 x b' v v1 v2 x' : blank w → chars b → blank w1 → blank v → chars b' → blank v1 →
  w ++ quoted b ++ w1 ++ ":"%char :: w2 ++ x = v ++ quoted b' ++ v1 ++ ":"%char :: v2 ++ x' → w = v ∧ b = b' ∧ w1 = v1 ∧ w2 ++ x = v2 ++ x'.
Proof.
  intros B C B1 B' C' B1' E. destruct (blank_one w v (quoted b ++ w1 ++ ":"%char :: w2 ++ x) (quoted b' ++ v1 ++ ":"%char :: v2 ++ x')) as [<- E1]; [done|done|by apply space_quoted..|done|].
  destruct (quoted_one _ _ _ _ C C' E1) as [<- E2]. destruct (close_one w1 v1 ":"%char ":"%char (w2 ++ x) (v2 ++ x')) as (<- & _ & E3); done.
Qed.

Lemma grammar_one : (∀ t s, Val t s → one_value t s) ∧ (∀ l s, Elems l s → one_list l s) ∧ (∀ l s, Mems l s → one_object l s).
Proof.
  assert (∀ t s, Val t s → ∀ t' s' r r', Val t' s' → s ++ r = s' ++ r' → same_kind t t') as Hk by (intros; by eapply Val_same_kind).
  apply grammar_ind.
  - intros t' s' r r' V E _ _. pose proof (Hk _ _ V_null _ _ _ _ V E) as K. destruct t' as [|[]| | | |]; try done. by inversion V.
  - intros t' s' r r' V E _ _. pose proof (Hk _ _ V_true _ _ _ _ V E) as K. destruct t' as [|[]| | | |]; try done. by inversion V.
  - intros t' s' r r' V E _ _. pose proof (Hk _ _ V_false _ _ _ _ V E) as K. destruct t' as [|[]| | | |]; try done. by inversion V.
  - intros x N t' s' r r' V E F F'. pose proof (Hk _ _ (V_number x N) _ _ _ _ V E) as K. destruct t' as [|[]|y| | |]; try done. inversion V; subst.
    by rewrite (numeral_one x s' r r').
  - intros b C t' s' r r' V E F F'. pose proof (Hk _ _ (V_string b C) _ _ _ _ V E) as K. destruct t' as [|[]|y|b'| |]; try done. inversion V; subst.
    by destruct (quoted_one b b' r r') as [-> _].
  - intros w B t' s' r r' V E _ _. pose proof (Hk _ _ (V_array_empty w B) _ _ _ _ V E) as K. destruct t' as [|[]|y|b'|l'|]; try done.
    inversion V as [| | | | |w' B' E1 E2|l2 s2 HE E1 E2| |]; subst; injection E as E; rewrite <- ?app_assoc in E.
    + by destruct (close_one w w' "]"%char "]"%char r r') as (-> & _ & _).
    + exfalso. by eapply array_one.
  - intros l s HE IH t' s' r r' V E _ _. pose proof (Hk _ _ (V_array l s HE) _ _ _ _ V E) as K. destruct t' as [|[]|y|b'|l'|]; try done.
    inversion V as [| | | | |w' B' E1 E2|l2 s2 HE' E1 E2| |]; subst; injection E as E; rewrite <- ?app_assoc in E.
    + exfalso. by eapply array_one.
    + by destruct (IH l' s2 r r' HE' E) as [-> ->].
  - intros w B t' s' r r' V E _ _. pose proof (Hk _ _ (V_object_empty w B) _ _ _ _ V E) as K. destruct t' as [|[]|y|b'|l'|l']; try done.
    inversion V as [| | | | | | |w' B' E1 E2|l2 s2 HE ND E1 E2]; subst; injection E as E; rewrite <- ?app_assoc in E.
    + by destruct (close_one w w' "}"%char "}"%char r r') as (-> & _ & _).
    + exfalso. by eapply object_one.
  - intros l s HE IH ND t' s' r r' V E _ _. pose proof (Hk _ _ (V_object l s HE ND) _ _ _ _ V E) as K. destruct t' as [|[]|y|b'|l'|l']; try done.
    inversion V as [| | | | | | |w' B' E1 E2|l2 s2 HE' ND' E1 E2]; subst; injection E as E; rewrite <- ?app_assoc in E.
    + exfalso. by eapply object_one.
    + by destruct (IH l' s2 r r' HE' E) as [-> ->].
  - intros t w s w' B V IH B' l' s' r r' HE E. inversion HE as [t2 w2 s2 w2' B2 V2 B2' E1 E2|t2 l2 w2 s2 w2' q B2 V2 B2' HE2 E1 E2]; subst; rewrite <- !app_assoc in E; cbn in E.
    + destruct (padded_one t s w w' "]"%char r t2 s2 w2 w2' "]"%char r') as (-> & E3 & _ & _); [done..|set_solver|set_solver|done|]. rewrite !(assoc_L (++)) in *. by rewrite E3.
    + by destruct (padded_one t s w w' "]"%char r t2 s2 w2 w2' ","%char (q ++ r')) as (_ & _ & ? & _); [done..|set_solver|set_solver|done|].
  - intros t l w s w' q B V IH B' HEl IHl l' s' r r' HE E. inversion HE as [t2 w2 s2 w2' B2 V2 B2' E1 E2|t2 l2 w2 s2 w2' q2 B2 V2 B2' HE2 E1 E2]; subst; rewrite <- !app_assoc in E; cbn in E.
    + by destruct (padded_one t s w w' ","%char (q ++ r) t2 s2 w2 w2' "]"%char r') as (_ & _ & ? & _); [done..|set_solver|set_solver|done|].
    + destruct (padded_one t s w w' ","%char (q ++ r) t2 s2 w2 w2' ","%char (q2 ++ r')) as (-> & E3 & _ & E4); [done..|set_solver|set_solver|done|].
      destruct (IHl l2 q2 r r' HE2 E4) as [-> ->]. rewrite !(assoc_L (++)) in *. by rewrite E3.
  - intros b t w w1 w2 s w3 B C B1 B2 V IH B3 l' s' r r' HE E.
    inversion HE as [b2 t2 v v1 v2 s2 v3 D D0 D1 D2 V2 D3 E1 E2|b2 t2 l2 v v1 v2 s2 v3 q D D0 D1 D2 V2 D3 HE2 E1 E2]; subst; rewrite <- !app_assoc in E; cbn [app] in E; rewrite <- !app_assoc in E; cbn [app] in E.
    + destruct (key_one b w w1 w2 (s ++ w3 ++ "}"%char :: r) b2 v v1 v2 (s2 ++ v3 ++ "}"%char :: r')) as (-> & -> & -> & E3); [done..|].
      destruct (padded_one t s w2 w3 "}"%char r t2 s2 v2 v3 "}"%char r') as (-> & E4 & _ & _); [done..|set_solver|set_solver|done|]. split; [done|]. rewrite !(assoc_L (++)) in *. by rewrite E4.
    + destruct (key_one b w w1 w2 (s ++ w3 ++ "}"%char :: r) b2 v v1 v2 (s2 ++ v3 ++ ","%char :: q ++ r')) as (-> & -> & -> & E3); [done..|].
      by destruct (padded_one t s w2 w3 "}"%char r t2 s2 v2 v3 ","%char (q ++ r')) as (_ & _ & ? & _); [done..|set_solver|set_solver|done|].
  - intros b t l w w1 w2 s w3 q B C B1 B2 V IH B3 HEl IHl l' s' r r' HE E.
    inversion HE as [b2 t2 v v1 v2 s2 v3 D D0 D1 D2 V2 D3 E1 E2|b2 t2 l2 v v1 v2 s2 v3 q2 D D0 D1 D2 V2 D3 HE2 E1 E2]; subst; rewrite <- !app_assoc in E; cbn [app] in E; rewrite <- !app_assoc in E; cbn [app] in E.
    + destruct (key_one b w w1 w2 (s ++ w3 ++ ","%char :: q ++ r) b2 v v1 v2 (s2 ++ v3 ++ "}"%char :: r')) as (-> & -> & -> & E3); [done..|].
      by destruct (padded_one t s w2 w3 ","%char (q ++ r) t2 s2 v2 v3 "}"%char r') as (_ & _ & ? & _); [done..|set_solver|set_solver|done|].
    + destruct (key_one b w w1 w2 (s ++ w3 ++ ","%char :: q ++ r) b2 v v1 v2 (s2 ++ v3 ++ ","%char :: q2 ++ r')) as (-> & -> & -> & E3); [done..|].
      destruct (padded_one t s w2 w3 ","%char (q ++ r) t2 s2 v2 v3 ","%char (q2 ++ r')) as (-> & E4 & _ & E5); [done..|set_solver|set_solver|done|].
      destruct (IHl l2 q2 r r' HE2 E5) as [-> ->]. split; [done|]. rewrite !(assoc_L (++)) in *. by rewrite E4.
Qed.

(** A text with blanks around one value. *)
Definition Doc (t : json) (x : text) : Prop := ∃ w s w', x = w ++ s ++ w' ∧ blank w ∧ blank w' ∧ Val t s.

Lemma Doc_Val t s : Val t s → Doc t s.
Proof. intros V. exists [], s, []. by rewrite app_nil_r. Qed.

Lemma Doc_one t t' x : Doc t x → Doc t' x → t = t'.
Proof.
  intros (w & s & w' & -> & B & B' & V) (v & s' & v' & E & D & D' & V').
  destruct (blank_one w v (s ++ w') (s' ++ v')) as [_ E1]; [done|done|by apply (space_Val t)|by apply (space_Val t')|done|].
  destruct (proj1 grammar_one t s V t' s' w' v' V' E1) as [-> _]; [rewrite <- (app_nil_r w'); by apply blank_follow|rewrite <- (app_nil_r v'); by apply blank_follow|done].
Qed.

(** ** Values are framed by ASCII *)

Definition ends_ascii (s : text) : Prop := ∃ s' c, s = s' ++ [c] ∧ code c < 0x80.

Lemma ends_app x s : ends_ascii s → ends_ascii (x ++ s).
Proof. intros (s' & c & -> & H). exists (x ++ s'), c. by rewrite (assoc_L (++)). Qed.

Lemma ends_cons a s : ends_ascii s → ends_ascii (a :: s).
Proof. apply (ends_app [a]). Qed.

Lemma ends_one c : code c < 0x80 → ends_ascii [c].
Proof. by exists [], c. Qed.

Lemma digit_ascii c : digit_byte c = true → code c < 0x80.
Proof. unfold digit_byte. intros [_ H%Z.leb_le]%andb_true_iff. lia. Qed.

Lemma digits_end ds : forallb digit_byte ds = true → ds ≠ [] → ends_ascii ds.
Proof.
  intros D N. destruct ds as [|c ds _] using rev_ind; [done|]. exists ds, c. split; [done|]. rewrite forallb_app in D. apply andb_true_iff in D as [_ D]. cbn in D. rewrite andb_true_r in D. by apply digit_ascii.
Qed.

Lemma numeral_end t : numeral t → ends_ascii t.
Proof.
  intros [sign i f e _ Hi Hf He]. apply ends_app. assert (ends_ascii i) as Ei.
  { destruct Hi as [|d ds Hd Hs]; [by apply ends_one|]. apply digits_end; [|done]. cbn. rewrite Hs, andb_true_r. unfold digit_byte. apply andb_true_iff in Hd as [?%Z.leb_le ?%Z.leb_le].
    apply andb_true_iff. split; apply Z.leb_le; lia. }
  destruct He as [|x s ds _ _ [D N] ]; [|by apply ends_app, ends_app, ends_cons, ends_app, digits_end]. rewrite app_nil_r.
  destruct Hf as [|ds [D N] ]; [by rewrite app_nil_r|by apply ends_app, ends_cons, digits_end].
Qed.

Lemma Elems_end l s : Elems l s → ends_ascii s.
Proof. induction 1 as [t w s w'|t l w s w' r _ _ _ _ IH]; [by apply ends_app, ends_app, ends_app, ends_one|by apply ends_app, ends_app, ends_app, ends_cons]. Qed.

Lemma Mems_end l s : Mems l s → ends_ascii s.
Proof.
  induction 1 as [b t w w1 w2 s w3|b t l w w1 w2 s w3 r _ _ _ _ _ _ _ IH]; [by apply ends_app, ends_app, ends_app, ends_cons, ends_app, ends_app, ends_app, ends_one|].
  by apply ends_app, ends_app, ends_app, ends_cons, ends_app, ends_app, ends_app, ends_cons.
Qed.

Lemma Val_framed t s : Val t s → framed s.
Proof.
  intros V. split.
  - destruct (Val_starts_as _ _ V) as (c & s' & -> & H). exists c, s'. split; [done|]. destruct t as [|[]| | | |]; cbn in H; try (by subst c). destruct H as [-> | H]; [done|by apply digit_ascii].
  - destruct V as [| | |x N|b C|w B|l s HE|w B|l s HE ND].
    + by exists (txt "nul"), "l"%char.
    + by exists (txt "tru"), "e"%char.
    + by exists (txt "fals"), "e"%char.
    + by apply numeral_end.
    + by apply ends_cons, ends_app, ends_one.
    + by apply ends_cons, ends_app, ends_one.
    + apply ends_cons. by eapply Elems_end.
    + by apply ends_cons, ends_app, ends_one.
    + apply ends_cons. by eapply Mems_end.
Qed.

Lemma quoted_framed b : framed (quoted b).
Proof. split; [by exists "034"%char, (b ++ ["034"%char])|]. by apply (ends_cons "034"%char), ends_app, ends_one. Qed.

Lemma quoted_valid b : utf8_Valid (quoted b) = true → utf8_Valid b = true.
Proof. unfold quoted. rewrite utf8_ascii_cons by done. intros V. by apply utf8_cut in V as [V _]. Qed.

(** The names of an object of a valid text are valid. *)
Lemma Mems_names l s x y : Mems l s → utf8_Valid (x ++ s ++ y) = true → Forall (λ m, utf8_Valid (name_of m.1) = true) l.
Proof.
  intros H. revert x. assert (∀ x b rest, chars b → utf8_Valid (x ++ quoted b ++ rest) = true → utf8_Valid (name_of b) = true) as Hb.
  { intros x b rest C V. apply name_valid; [done|]. apply quoted_valid. by apply (utf8_framed x _ rest), V; apply quoted_framed. }
  induction H as [b t w w1 w2 s w3 _ C|b t l w w1 w2 s w3 r _ C _ _ _ _ _ IH]; intros x V.
  - constructor; [|done]. cbn. rewrite <- !(assoc_L (++)), (assoc_L (++) x w) in V. by eapply Hb.
  - constructor; [cbn; rewrite <- !(assoc_L (++)), (assoc_L (++) x w) in V; by eapply Hb|].
    apply (IH (x ++ w ++ quoted b ++ w1 ++ ":"%char :: w2 ++ s ++ w3 ++ [","%char])). etransitivity; [|exact V]. f_equal. by do 3 (rewrite <- ?app_assoc; cbn [app]).
Qed.

(** The text of every node of a valid document is valid. *)
Lemma represents_valid raw nodes i t : utf8_Valid raw = true → represents raw nodes i t →
  ∃ n, nodes !! i = Some n ∧ Val t (slice raw (n_start n) (n_end n)) ∧ utf8_Valid (slice raw (n_start n) (n_end n)) = true.
Proof.
  intros V R. assert (∃ n, nodes !! i = Some n ∧ Val t (slice raw (n_start n) (n_end n))) as (n & Hn & Hv) by (destruct t; destruct R as (n & Hn & _ & Hv & _); eauto).
  exists n. split; [done|]. split; [done|]. apply (utf8_framed (take (n_start n) raw) _ (drop (n_end n - n_start n) (drop (n_start n) raw))); [by eapply Val_framed|].
  unfold slice. by rewrite take_drop, take_drop.
Qed.

Lemma represents_names raw nodes i l : utf8_Valid raw = true → represents raw nodes i (JObject l) → Forall (λ m, utf8_Valid (name_of m.1) = true) l ∧ NoDup (map (λ m, name_of m.1) l).
Proof.
  intros V (n & _ & Hv & Hs)%represents_valid; [|done]. inversion Hv as [| | | | | | |w B E1 E2|l' s M ND E1 E2]; subst; [split; [done|constructor]|]. split; [|done].
  rewrite <- E2 in Hs. apply (Mems_names l s ["{"%char] []); [done|]. by rewrite app_nil_r.
Qed.
