(* ===== verification/TokenTallyFacts.v ===== *)
(** * Shared counts are the counts, and estimates fit the limiter *)

From S2P Require Import Prelude Go Amount Source SourceParser SourceGrammar SourceExact SourceSound SourceValues.
From S2P Require Import TokenVocab TokenVocabFacts TokenHeap TokenMerge TokenMergeFacts TokenLarge TokenPiece TokenScan TokenRegex TokenScanExact TokenClasses.
From S2P Require Import TokenEncode TokenEncodeFacts TokenMeter TokenPrompt TokenPromptFacts TokenWalk TokenWalkFacts TokenEmbeddings TokenTally Utf8 OverlayGrammar.
From Stdlib Require Import Ascii SpecFloat.
Local Open Scope Z_scope.
Local Open Scope olp_scope.

(** ** The same prompt counts the same *)

(** Two documents hold one tree at two places. *)
Definition same_tree (d d' : document) (j j' : nat) : Prop :=
  ∃ t, represents (d_raw d) (d_nodes d) j t ∧ represents (d_raw d') (d_nodes d') j' t.

Lemma rep_inside d j t : represents (d_raw d) (d_nodes d) j t → (j < length (d_nodes d))%nat.
Proof. destruct t; intros (n & Hn & _); by apply lookup_lt_Some in Hn. Qed.

Lemma each_same {A B} (f : A → W unit) (g : B → W unit) l k : Forall2 (λ x y, ∀ i, f x i = g y i) l k → ∀ i, each f l i = each g k i.
Proof.
  induction 1 as [|x y l k H _ IH]; intros i; cbn [each]; [done|]. unfold bind. rewrite H. destruct (g y i) as [ [? i']|]; [apply IH|done].
Qed.

(** The elements of two arrays of one tree, pair by pair. *)
Lemma same_elements d d' j j' l : represents (d_raw d) (d_nodes d) j (JArray l) → represents (d_raw d') (d_nodes d') j' (JArray l) →
  Forall2 (λ e e', ∃ t, t ∈ l ∧ (j < e)%nat ∧ (j' < e')%nat ∧ represents (d_raw d) (d_nodes d) e t ∧ represents (d_raw d') (d_nodes d') e' t)
    (Elements d j) (Elements d' j').
Proof.
  intros R R'. unfold Elements. rewrite (rep_kind d j _ R), (rep_kind d' j' _ R'). cbn [kind_of].
  destruct (rep_node d j _ R) as (n & -> & _ & _ & H), (rep_node d' j' _ R') as (n' & -> & _ & _ & H'). clear R R'.
  revert H H'. generalize (n_elements n) as es, (n_elements n') as es'.
  induction l as [|t l IH]; intros [|e es] [|e' es'] H H'; try done. destruct H as [ [L Re] H], H' as [ [L' Re'] H']. constructor.
  - exists t. split; [left|done].
  - eapply Forall2_impl; [by apply IH|]. cbn. intros x x' (t' & Ht & Hrest). exists t'. split; [by right|done].
Qed.

(** Walking one tree gathers the same, whatever document it is read from. *)
Lemma embedding_same d d' t : ∀ fuel fuel' j j', represents (d_raw d) (d_nodes d) j t → represents (d_raw d') (d_nodes d') j' t →
  (length (d_nodes d) - j < fuel)%nat → (length (d_nodes d') - j' < fuel')%nat → ∀ i, embedding d fuel (Some j) i = embedding d' fuel' (Some j') i.
Proof.
  induction t as [| | | |l IH|] using json_ind; intros [|fuel] [|fuel'] j j' R R' F F' i; try lia; cbn [embedding]; rewrite (rep_text d j _ R), (rep_text d' j' _ R').
  all: try (unfold elements_at, array_at; rewrite (rep_kind d j _ R), (rep_kind d' j' _ R'); done).
  - unfold elements_at, array_at. rewrite (rep_kind d j _ R), (rep_kind d' j' _ R'). cbn [kind_of default from_option id].
    unfold bind, ret, unless. apply each_same. apply Forall2_fmap. eapply Forall2_impl; [by apply same_elements|].
    intros e e' (t & Ht & L & L' & Re & Re') i'. rewrite (rep_token d e t Re), (rep_token d' e' t Re').
    destruct (is_token t); [done|]. rewrite Forall_forall in IH. pose proof (rep_inside _ _ _ Re). pose proof (rep_inside _ _ _ Re'). eapply (IH t Ht); [done|done|lia|lia].
Qed.

(** A request whose document the parser returned. *)
Definition parsed (r : option request) : Prop := match r with Some r => ∃ data limits, ParseJSON data limits = ok (r_document r) | None => True end.

(** Requests whose prompts may follow one another: two completions requests, whose prompts are
    counted one by one; two that are not, or none; and one of each when the other dialect has no
    prompt of its own, which it would read in another way. *)
Definition comparable_requests (a b : option request) : Prop :=
  is_completions a = is_completions b ∨
  match a, b with
  | Some x, Some y => if is_completions a then requestFields (r_document y) "prompt" = None else requestFields (r_document x) "prompt" = None
  | _, _ => False
  end.

(** What a completions request names as its prompt is a value of its own source. *)
Lemma prompt_value r : parsed (Some r) →
  match requestFields (r_document r) "prompt" with
  | Some j => ∃ t, represents (d_raw (r_document r)) (d_nodes (r_document r)) j t ∧ Val t (Request_Field r "prompt") ∧ Request_Field r "prompt" ≠ []
  | None => Request_Field r "prompt" = []
  end.
Proof.
  intros (data & limits & E). destruct (ParseJSON_outcome data limits) as (o & Eo & H). rewrite E in Eo. injection Eo as <-. destruct H as (Hr & t & _ & R & _). rewrite <- Hr in R.
  pose proof (rep_member (r_document r) t (txt "prompt") R) as Hm. unfold Request_Field. unfold requestFields in *.
  destruct (member_of t (txt "prompt")) as [t'|]; [|by rewrite Hm]. destruct Hm as (j & -> & Rj). exists t'. split; [done|].
  destruct (rep_node _ _ _ Rj) as (_ & _ & _ & V & _). split; [exact V|]. destruct (Val_starts _ _ V) as (c & x & Ex & _). cbn [source]. by rewrite Ex.
Qed.

(** Completions requests whose prompt is the same text hold the same tree. *)
Lemma same_prompt a b : parsed (Some a) → parsed (Some b) → Request_Field a "prompt" = Request_Field b "prompt" →
  match requestFields (r_document a) "prompt", requestFields (r_document b) "prompt" with
  | Some j, Some j' => same_tree (r_document a) (r_document b) j j'
  | None, None => True
  | _, _ => False
  end.
Proof.
  intros Ha%prompt_value Hb%prompt_value E. destruct (requestFields (r_document a) "prompt") as [j|], (requestFields (r_document b) "prompt") as [j'|]; [|rewrite E in Ha; naive_solver..|done].
  destruct Ha as (t & R & V & _), Hb as (t' & R' & V' & _). rewrite E in V. rewrite (Doc_one t t' _ (Doc_Val _ _ V) (Doc_Val _ _ V')) in R. by exists t'.
Qed.

(** ** Families *)

Lemma openAIFamily_cases name f : openAIFamily name = Some f → f = FamilyOpenAIO200k ∨ f = FamilyOpenAICL100k.
Proof.
  assert (forallb (λ e : text * string, bool_decide (e.2 = FamilyOpenAIO200k ∨ e.2 = FamilyOpenAICL100k)) (openAIExact ++ openAIPrefixes) = true) as Hb by (vm_compute; done).
  assert (∀ e, In e (openAIExact ++ openAIPrefixes) → e.2 = FamilyOpenAIO200k ∨ e.2 = FamilyOpenAICL100k) as H.
  { intros e He. apply forallb_forall with (x := e) in Hb; [|done]. by apply bool_decide_eq_true in Hb. }
  unfold openAIFamily. destruct (List.find _ openAIExact) as [e|] eqn:E.
  - intros [= <-]. apply H. apply in_or_app. left. by apply find_some in E as [? _].
  - destruct (List.find _ openAIPrefixes) as [e|] eqn:E2; [|done]. intros [= <-]. apply H. apply in_or_app. right. by apply find_some in E2 as [? _].
Qed.

Section Models.
Context (lowered : text → text) (factors : string → option float64) (o200k cl100k : Encoding).
Notation model_counter := (ForModel lowered factors o200k cl100k).
Notation family_of := (FamilyOf lowered).

Lemma FamilyOf_cases m : family_of m ∈ [FamilyOpenAIO200k; FamilyOpenAICL100k; FamilyAnthropic; FamilyGemini; FamilyOther].
Proof.
  unfold FamilyOf. destruct (openAIFamily _) as [f|] eqn:E; [destruct (openAIFamily_cases _ _ E) as [-> | ->]; set_solver|].
  repeat case_match; set_solver.
Qed.

(** A counter is that of its model's family, and of no other. *)
Lemma ForModel_family m : Counter_Family (model_counter m) = family_of m.
Proof.
  pose proof (FamilyOf_cases m) as H. unfold Counter_Family, ForModel. rewrite !elem_of_cons, elem_of_nil in H.
  destruct H as [->|[->|[->|[->|[->|[] ] ] ] ] ]; done.
Qed.

Lemma ForModel_same m m' : family_of m = family_of m' → model_counter m = model_counter m'.
Proof. unfold ForModel. by intros ->. Qed.

(** ** Runs *)

Context (SortFunc : ∀ A, cmp A → list A → list A) (SortFunc_perm : ∀ A c l, SortFunc A c l ≡ₚ l).
Context (u : unicode) (Hu : unicode_ok u) (pool : text → scratch) (pool_ok : ∀ t, pooled_ok (pool t)).
Context (Ho : encoding_ok u o200k) (Hcl : encoding_ok u cl100k).

Lemma model_counter_ok m : counter_ok u (model_counter m).
Proof. unfold counter_ok, ForModel. by repeat case_decide. Qed.

Notation fresh := (fresh_count u pool).

(** Calls on the prompts of requests, in any order. *)
Inductive call_step : store * list Prompt → store * list Prompt → Prop :=
  | step_walk st ps place r p : parsed r → st !! place = None → Walk place r = Some p → call_step (st, ps) (<[place := new_tally]> st, ps ++ [p])
  | step_retain st ps i p n : ps !! i = Some p → call_step (st, ps) (st, ps ++ [WithRetainedInputTokens p n])
  | step_follow st ps i j p q : ps !! i = Some p → ps !! j = Some q → comparable_requests (p_request p) (p_request q) → call_step (st, ps) (st, <[i := Follow SortFunc p q]> ps)
  | step_input st ps i p m st' r : ps !! i = Some p → Prompt_input u pool st p (model_counter m) = Some (st', r) → call_step (st, ps) (st', ps).

Inductive runs : store * list Prompt → Prop :=
  | runs_none : runs (∅, [])
  | runs_step s s' : runs s → call_step s s' → runs s'.

(** What a tally holds is what each prompt that shares it would count. *)
Definition tally_true (t : tally) (p : Prompt) : Prop :=
  ∀ e, e ∈ t_counted t → ∀ m, family_of m = ct_family e → fresh p (model_counter m) = Some (ct_count e, ct_context e).

Definition tally_once (t : tally) : Prop := NoDup (t_observed t) ∧ t_observed t = ct_family <$> t_counted t.

Record shared_ok (st : store) (ps : list Prompt) : Prop := mkSharedOk {
  so_gathers : ∀ p, p ∈ ps → gathering (p_in p);
  so_parsed : ∀ p, p ∈ ps → parsed (p_request p);
  so_place : ∀ p, p ∈ ps → is_Some (st !! p_tally p);
  so_true : ∀ p t, p ∈ ps → st !! p_tally p = Some t → tally_true t p;
  so_alike : ∀ p q, p ∈ ps → q ∈ ps → p_tally p = p_tally q → ∀ m, fresh p (model_counter m) = fresh q (model_counter m);
  so_once : ∀ k t, st !! k = Some t → tally_once t;
}.

(** The counts of a prompt do not depend on its tally or on what is retained. *)
Lemma fresh_frame p q c : p_request p = p_request q → p_in p = p_in q → fresh p c = fresh q c.
Proof. intros E1 E2. unfold fresh_count. by rewrite E1, E2. Qed.

(** Following was not refused: the prompts that are counted one by one are the same. *)
Definition same_batches (a b : option request) : Prop :=
  match a, b with
  | Some x, Some y => (is_completions a || is_completions b) = false ∨ Request_Field x "prompt" = Request_Field y "prompt"
  | _, _ => True
  end.

Lemma batch_items_other r : is_completions r = false → batch_items r = None.
Proof. destruct r as [r|]; [|done]. unfold is_completions, batch_items. intros H%bool_decide_eq_false. by rewrite decide_False. Qed.

Lemma batch_items_none x : requestFields (r_document x) "prompt" = None → batch_items (Some x) = None.
Proof. intros E. unfold batch_items. rewrite E. by case_decide. Qed.

Lemma count_item_same d d' c st e e' : same_tree d d' e e' → count_item u pool d c st e = count_item u pool d' c st e'.
Proof.
  intros (t & R & R'). destruct st as [ [ [count context] budget]|]; [|done]. unfold count_item.
  rewrite (embedding_same d d' t (walk_fuel d) (walk_fuel d') e e' R R'); [done|unfold walk_fuel; lia..].
Qed.

Lemma count_items_same d d' c es es' : Forall2 (same_tree d d') es es' → ∀ st, fold_left (count_item u pool d c) es st = fold_left (count_item u pool d' c) es' st.
Proof. induction 1 as [|e e' es es' H _ IH]; intros st; cbn [fold_left]; [done|]. by rewrite (count_item_same d d' c st e e' H). Qed.

(** The prompts of one text are counted one by one alike, batch boundaries included. *)
Lemma batches_alike x y : parsed (Some x) → parsed (Some y) → is_completions (Some x) = true → is_completions (Some y) = true →
  Request_Field x "prompt" = Request_Field y "prompt" →
  match batch_items (Some x), batch_items (Some y) with
  | Some es, Some es' => Forall2 (same_tree (r_document x) (r_document y)) es es'
  | None, None => True
  | _, _ => False
  end.
Proof.
  intros Hx Hy Cx Cy E. pose proof (same_prompt x y Hx Hy E) as Hs. unfold is_completions in Cx, Cy. apply bool_decide_eq_true in Cx, Cy.
  unfold batch_items. rewrite !decide_True by done.
  destruct (requestFields (r_document x) "prompt") as [j|], (requestFields (r_document y) "prompt") as [j'|]; try done.
  destruct Hs as (t & R & R'). assert (Forall2 (same_tree (r_document x) (r_document y)) (Elements (r_document x) j) (Elements (r_document y) j')) as HF.
  { destruct t as [| | | |l|]; try (unfold Elements; rewrite (rep_kind _ j _ R), (rep_kind _ j' _ R'); constructor).
    eapply Forall2_impl; [by apply same_elements|]. intros e e' (t & _ & _ & _ & Re & Re'). by exists t. }
  destruct HF as [|e e' es es' (t' & Re & Re') HF]; [done|]. rewrite (rep_kind _ e _ Re), (rep_kind _ e' _ Re'). destruct t'; try done; cbn [kind_of]; constructor; try done; by eexists.
Qed.

Lemma follow_alike p q m : gathering (p_in p) → gathering (p_in q) → parsed (p_request p) → parsed (p_request q) →
  comparable_requests (p_request p) (p_request q) → same_batches (p_request p) (p_request q) →
  input_equal SortFunc (p_in p) (p_in q) = true → fresh p (model_counter m) = fresh q (model_counter m).
Proof.
  intros [ts Hp] [ts' Hq] Pp Pq Hc Hs E. pose proof (equal_counted SortFunc u pool (model_counter m) _ ts _ ts' false SortFunc_perm Hu pool_ok (model_counter_ok m) Hp Hq E) as Hcount.
  assert (batch_items (p_request p) = None → batch_items (p_request q) = None → fresh p (model_counter m) = fresh q (model_counter m)) as Hnone.
  { intros Bp Bq. unfold fresh_count. rewrite Bp, Bq, Hcount. by destruct (p_request p), (p_request q). }
  unfold comparable_requests in Hc. destruct (is_completions (p_request p)) eqn:Cp, (is_completions (p_request q)) eqn:Cq; cycle 1.
  - destruct (p_request p) as [x|], (p_request q) as [y|]; try naive_solver. destruct Hc as [Hc|Hc]; [done|].
    destruct Hs as [Hs|Hs]; [by rewrite Cp in Hs|]. apply Hnone; [|by apply batch_items_none]. apply batch_items_none.
    pose proof (prompt_value y Pq) as Vy. rewrite Hc in Vy. pose proof (prompt_value x Pp) as Vx. destruct (requestFields (r_document x) "prompt") as [j|]; [|done].
    destruct Vx as (_ & _ & _ & N). congruence.
  - destruct (p_request p) as [x|], (p_request q) as [y|]; try naive_solver. destruct Hc as [Hc|Hc]; [done|].
    destruct Hs as [Hs|Hs]; [by rewrite Cp, Cq in Hs|]. apply Hnone; [by apply batch_items_none|]. apply batch_items_none.
    pose proof (prompt_value x Pp) as Vx. rewrite Hc in Vx. pose proof (prompt_value y Pq) as Vy. destruct (requestFields (r_document y) "prompt") as [j|]; [|done].
    destruct Vy as (_ & _ & _ & N). congruence.
  - apply Hnone; by apply batch_items_other.
  - destruct (p_request p) as [x|] eqn:Ep, (p_request q) as [y|] eqn:Eq; try done. destruct Hs as [Hs|Hs]; [by rewrite Cp in Hs|].
    pose proof (batches_alike x y Pp Pq Cp Cq Hs) as Hb. destruct (batch_items (Some x)) as [es|] eqn:Bx, (batch_items (Some y)) as [es'|] eqn:By; try done; [|by apply Hnone].
    unfold fresh_count. by rewrite Ep, Eq, Bx, By, (count_items_same _ _ _ _ _ Hb).
Qed.

Notation Input := (Prompt_input u pool).

(** ** Each call keeps the shared counts true *)

Lemma walk_gathers place r p : parsed r → Walk place r = Some p → gathering (p_in p) ∧ parsed (p_request p) ∧ p_tally p = place.
Proof.
  unfold Walk. destruct r as [r|]; [|intros _ [= <-]; split; [exists []; constructor|done] ]. intros Hr H. pose proof Hr as (data & limits & E).
  destruct (walk_document_gathers data limits (r_document r) (r_family r) E) as (i & Ei & Hi). rewrite Ei in H. injection H as <-. done.
Qed.

Lemma shared_none : shared_ok ∅ [].
Proof. split; try (intros p; intros; by match goal with H : _ ∈ [] |- _ => apply elem_of_nil in H end). intros k t H. by apply lookup_empty_Some in H. Qed.

(** A prompt that joins: it has a tally, and counts like those that share it. *)
Lemma shared_join st ps ps' p : shared_ok st ps → (∀ q, q ∈ ps' → q ∈ ps ∨ q = p) → gathering (p_in p) → parsed (p_request p) → (∃ q, q ∈ ps ∧ p_tally q = p_tally p ∧ ∀ m, fresh p (model_counter m) = fresh q (model_counter m)) → shared_ok st ps'.
Proof.
  intros [Hg Hpa Hpl Ht Ha Ho1] Hin Hp Hpp (q & Hq & Eq & Hf). split.
  - intros r [Hr | ->]%Hin; auto.
  - intros r [Hr | ->]%Hin; auto.
  - intros r [Hr | ->]%Hin; [auto|]. rewrite <- Eq. auto.
  - intros r t [Hr | ->]%Hin E; [by apply Ht|]. rewrite <- Eq in E. intros e He m Hm. rewrite Hf. by apply (Ht q t Hq E e He).
  - intros a b [Ha' | ->]%Hin [Hb | ->]%Hin E m; [by apply Ha|rewrite Hf; apply Ha; congruence|rewrite Hf; apply Ha; congruence|done].
  - done.
Qed.

Lemma shared_walk st ps place p : shared_ok st ps → st !! place = None → gathering (p_in p) → parsed (p_request p) → p_tally p = place → shared_ok (<[place := new_tally]> st) (ps ++ [p]).
Proof.
  intros [Hg Hpa Hpl Ht Ha Ho1] Hn Hp Hpp Ep. assert (∀ q, q ∈ ps → p_tally q ≠ place) as Hne by (intros q Hq E; destruct (Hpl q Hq); congruence).
  assert (∀ q, q ∈ ps ++ [p] → q ∈ ps ∨ q = p) as Hin by (intros q [Hq|Hq%list_elem_of_singleton]%elem_of_app; auto). split.
  - intros q [Hq | ->]%Hin; auto.
  - intros q [Hq | ->]%Hin; auto.
  - intros q [Hq | ->]%Hin; [rewrite lookup_insert_ne by (intros E; by apply (Hne q Hq))|rewrite Ep, lookup_insert_eq]; eauto.
  - intros q t [Hq | ->]%Hin E; [rewrite lookup_insert_ne in E by (intros E'; by apply (Hne q Hq)); by apply Ht|].
    rewrite Ep, lookup_insert_eq in E. injection E as <-. intros e He%elem_of_nil. done.
  - intros a b [Ha' | ->]%Hin [Hb | ->]%Hin E m; [by apply Ha|exfalso|exfalso|done]; [apply (Hne a Ha')|apply (Hne b Hb)]; congruence.
  - intros k t. rewrite lookup_insert_Some. intros [ [<- <-]|[_ E] ]; [split; [constructor|done]|by apply (Ho1 k)].
Qed.

(** A tally does not hold a family it is asked for twice. *)
Lemma shared_counted t f : tally_once t → List.find (λ e, bool_decide (ct_family e = f)) (t_counted t) = None → f ∉ t_observed t.
Proof.
  intros [_ ->] Hn Hf. apply list_elem_of_fmap in Hf as (e & -> & He). apply list_elem_of_In, (find_none _ _ Hn), bool_decide_eq_false in He. done.
Qed.

Lemma shared_input st ps p m st' r : shared_ok st ps → p ∈ ps → Input st p (model_counter m) = Some (st', r) → shared_ok st' ps.
Proof.
  intros Hok Hp E. pose proof Hok as [Hg Hpa Hpl Ht Ha Ho1]. unfold Prompt_input in E. destruct (Hpl p Hp) as [t Et]. rewrite Et in E. cbn [default from_option id] in E.
  rewrite ForModel_family in E. destruct (List.find _ _) as [e|] eqn:Ef; [by injection E as <- _|].
  destruct (fresh p (model_counter m)) as [ [count context]|] eqn:Ec; [|done]. injection E as <- _.
  pose proof (shared_counted t _ (Ho1 _ _ Et) Ef) as Hnew. split; try done.
  - intros q Hq. destruct (decide (p_tally q = p_tally p)) as [-> | Hne]; [rewrite lookup_insert_eq; eauto|rewrite lookup_insert_ne by done; auto].
  - intros q t' Hq. destruct (decide (p_tally q = p_tally p)) as [Eq | Hne]; [|rewrite lookup_insert_ne by done; by apply Ht].
    rewrite Eq, lookup_insert_eq. intros [= <-] e [He | ->%list_elem_of_singleton]%elem_of_app m' Hm; [apply (Ht q t Hq); [congruence|done|done]|].
    cbn in *. rewrite (Ha q p Hq Hp Eq), (ForModel_same m' m Hm). done.
  - intros k t'. rewrite lookup_insert_Some. intros [ [<- <-]|[_ E] ]; [|by apply (Ho1 k)]. destruct (Ho1 _ _ Et) as [N Eo]. split; cbn.
    + apply NoDup_app. split; [done|]. split; [|apply NoDup_singleton]. intros x Hx ->%list_elem_of_singleton. done.
    + by rewrite fmap_app, Eo.
Qed.

(** Following shares only where the prompts read alike and batches agree. *)
Lemma Follow_cases p q : Follow SortFunc p q = p ∨
  input_equal SortFunc (p_in p) (p_in q) = true ∧ same_batches (p_request p) (p_request q) ∧
  Follow SortFunc p q = mkPrompt (p_request p) (p_generation p) (p_in p) (p_tally q) (p_retainedInput p).
Proof.
  unfold Follow, same_batches. destruct (input_equal SortFunc (p_in p) (p_in q)); [|repeat case_match; auto].
  destruct (p_request p) as [x|], (p_request q) as [y|]; auto. destruct (is_completions (Some x) || is_completions (Some y)); [|auto].
  cbn [andb]. destruct (bool_decide_reflect (Request_Field x "prompt" = Request_Field y "prompt")); cbn [negb]; auto.
Qed.

Lemma call_shared st ps st' ps' : call_step (st, ps) (st', ps') → shared_ok st ps → shared_ok st' ps'.
Proof.
  intros Hs Hok. inversion Hs; subst.
  - destruct (walk_gathers _ _ _ ltac:(eassumption) ltac:(eassumption)) as (? & ? & ?). by apply shared_walk.
  - assert (p ∈ ps) as Hp by (by eapply list_elem_of_lookup_2). apply (shared_join st' ps _ (WithRetainedInputTokens p n)); [done| |exact (so_gathers _ _ Hok p Hp)|exact (so_parsed _ _ Hok p Hp)|].
    + intros q [Hq|Hq%list_elem_of_singleton]%elem_of_app; auto.
    + exists p. split; [done|]. split; [done|]. intros m. by apply fresh_frame.
  - assert (p ∈ ps) as Hp by (by eapply list_elem_of_lookup_2). assert (q ∈ ps) as Hq by (by eapply list_elem_of_lookup_2).
    apply (shared_join st' ps _ (Follow SortFunc p q)); [done|..].
    + intros r Hr. apply list_elem_of_lookup in Hr as [k Hk]. apply list_lookup_insert_Some in Hk as [ (_ & <- & _)|[_ Hk] ]; [by right|left; by eapply list_elem_of_lookup_2].
    + destruct (Follow_cases p q) as [-> | (_ & _ & ->) ]; exact (so_gathers _ _ Hok p Hp).
    + destruct (Follow_cases p q) as [-> | (_ & _ & ->) ]; exact (so_parsed _ _ Hok p Hp).
    + destruct (Follow_cases p q) as [-> | (E & Sb & ->) ]; [exists p; auto|]. exists q. split; [done|]. split; [done|]. intros m.
      rewrite <- (follow_alike p q m) by (by apply (so_gathers _ _ Hok) || by apply (so_parsed _ _ Hok) || done). by apply fresh_frame.
  - by eapply shared_input; [|eapply list_elem_of_lookup_2|].
Qed.

Lemma runs_shared s : runs s → shared_ok s.1 s.2.
Proof. induction 1 as [|[st ps] [st' ps'] Hr IH Hs]; [apply shared_none|]. by apply (call_shared st ps). Qed.

(** What a prompt is told is what it counts to. *)
Lemma input_fresh st ps p m : shared_ok st ps → p ∈ ps →
  snd <$> Input st p (model_counter m) = (λ r, retainedCount p r.1 r.2) <$> fresh p (model_counter m).
Proof.
  intros [Hg Hpa Hpl Ht Ha Ho1] Hp. unfold Prompt_input. destruct (Hpl p Hp) as [t Et]. rewrite Et. cbn [default from_option id]. rewrite ForModel_family.
  destruct (List.find _ _) as [e|] eqn:Ef; [|by destruct (fresh p _) as [ [count context]|] ]. apply find_some in Ef as [He Hf%bool_decide_eq_true].
  rewrite (Ht p t Hp Et e); [done|by apply list_elem_of_In|done].
Qed.
End Models.

(** C33. Shared counts are true. In every run of calls on prompts (walking a parsed request, adding
    what a provider retains, following another prompt, counting for a model) in any order, what any
    prompt is then told for any model is what counting it alone would find, the largest prompt of a
    batch of completions included, whichever prompts and models the counts it shares came from; and
    each tally was counted for each family at most once. A completions request may follow any
    other, however its batch divides the same tokens, and a request of another dialect as long as
    that one has no prompt of its own. *)
Theorem counts_shared_true lowered factors o200k cl100k SortFunc u pool st ps p m :
  (∀ A c l, SortFunc A c l ≡ₚ l) → unicode_ok u → (∀ t, pooled_ok (pool t)) → encoding_ok u o200k → encoding_ok u cl100k →
  runs lowered factors o200k cl100k SortFunc u pool (st, ps) → p ∈ ps →
  let c := ForModel lowered factors o200k cl100k m in
  snd <$> Prompt_input u pool st p c = (λ r, retainedCount p r.1 r.2) <$> fresh_count u pool p c ∧
  ∀ k t, st !! k = Some t → NoDup (t_observed t).
Proof.
  intros Hs Hu Hp Ho Hcl Hr Hin c. pose proof (runs_shared lowered factors o200k cl100k SortFunc Hs u Hu pool Hp Ho Hcl _ Hr) as Hok. cbn [fst snd] in Hok.
  split; [by eapply input_fresh|]. intros k t Hk. exact (proj1 (so_once _ _ _ _ _ _ _ _ Hok k t Hk)).
Qed.

(** Two chat requests that hold the same messages in another order. *)
Definition parsed_document (s : string) : document := match ParseJSON (json_source s) (mkLimits 0 0 0) with Some (inr d) => d | _ => mkDocument [] [] (mkLimits 0 0 0) end.

Definition sample_chat : request :=
  mkRequest Chat (parsed_document "{'messages':[{'role':'system','content':'abc'},{'role':'user','content':'ab','name':'b'}],'n':3}").
Definition sample_reordered : request :=
  mkRequest Chat (parsed_document "{'messages':[{'role':'user','name':'b','content':'ab'},{'content':'abc','role':'system'}]}").

Definition sample_prompt (place : nat) (r : request) : Prompt := default (mkPrompt None true no_input place 0) (Walk place (Some r)).
Definition sample_store : store := <[1%nat := new_tally]> (<[0%nat := mkTally [mkCounted FamilyOpenAICL100k (mkCount 23 ProvenanceTokenizer) 23] [FamilyOpenAICL100k] ]> ∅).
Definition sample_follower : Prompt := Follow (λ A c l, SortStableFunc c l) (sample_prompt 1 sample_reordered) (sample_prompt 0 sample_chat).

(** The first is counted for a model, and the second follows it. *)
Lemma sample_run : runs id (λ _, None) (O200kBase sample_ranks) (CL100kBase sample_ranks) (λ A c l, SortStableFunc c l) sample_unicode sample_pool
  (sample_store, [sample_prompt 0 sample_chat; sample_follower]).
Proof.
  set (p0 := sample_prompt 0 sample_chat). set (p1 := sample_prompt 1 sample_reordered).
  eapply (runs_step _ _ _ _ _ _ _ (sample_store, [p0; p1])); [|].
  2: { apply (step_follow _ _ _ _ _ _ _ sample_store [p0; p1] 1 0 p1 p0); [reflexivity|reflexivity|left; split; vm_compute; reflexivity]. }
  eapply runs_step; [eapply runs_step; [eapply runs_step; [apply runs_none|] |] |].
  - apply (step_walk _ _ _ _ _ _ _ ∅ [] 0 (Some sample_chat) p0); [|reflexivity|vm_compute; reflexivity].
    exists (json_source "{'messages':[{'role':'system','content':'abc'},{'role':'user','content':'ab','name':'b'}],'n':3}"), (mkLimits 0 0 0). vm_compute. reflexivity.
  - eapply (step_input _ _ _ _ _ _ _ _ _ 0 p0 (txt "gpt-4")); [reflexivity|vm_compute; reflexivity].
  - apply (step_walk _ _ _ _ _ _ _ _ [p0] 1 (Some sample_reordered) p1); [|reflexivity|vm_compute; reflexivity].
    exists (json_source "{'messages':[{'role':'user','name':'b','content':'ab'},{'content':'abc','role':'system'}]}"), (mkLimits 0 0 0). vm_compute. reflexivity.
Qed.

(** Two completions requests of the same token ids, divided into prompts in different ways: they
    read the same, and the second follows the first once that is counted. *)
Definition sample_batch : request := mkRequest Completions (parsed_document "{'prompt':[[1,2,3],[4]]}").
Definition sample_divided : request := mkRequest Completions (parsed_document "{'prompt':[[1,2],[3,4]]}").
Definition batch_store : store := <[1%nat := new_tally]> (<[0%nat := mkTally [mkCounted FamilyOpenAICL100k (mkCount 4 ProvenanceTokenizer) 3] [FamilyOpenAICL100k] ]> ∅).
Definition batch_follower : Prompt := Follow (λ A c l, SortStableFunc c l) (sample_prompt 1 sample_divided) (sample_prompt 0 sample_batch).

Lemma batch_run : runs id (λ _, None) (O200kBase sample_ranks) (CL100kBase sample_ranks) (λ A c l, SortStableFunc c l) sample_unicode sample_pool
  (batch_store, [sample_prompt 0 sample_batch; batch_follower]).
Proof.
  set (p0 := sample_prompt 0 sample_batch). set (p1 := sample_prompt 1 sample_divided).
  eapply (runs_step _ _ _ _ _ _ _ (batch_store, [p0; p1])); [|].
  2: { apply (step_follow _ _ _ _ _ _ _ batch_store [p0; p1] 1 0 p1 p0); [reflexivity|reflexivity|left; vm_compute; reflexivity]. }
  eapply runs_step; [eapply runs_step; [eapply runs_step; [apply runs_none|] |] |].
  - apply (step_walk _ _ _ _ _ _ _ ∅ [] 0 (Some sample_batch) p0); [|reflexivity|vm_compute; reflexivity].
    exists (json_source "{'prompt':[[1,2,3],[4]]}"), (mkLimits 0 0 0). vm_compute. reflexivity.
  - eapply (step_input _ _ _ _ _ _ _ _ _ 0 p0 (txt "gpt-4")); [reflexivity|vm_compute; reflexivity].
  - apply (step_walk _ _ _ _ _ _ _ _ [p0] 1 (Some sample_divided) p1); [|reflexivity|vm_compute; reflexivity].
    exists (json_source "{'prompt':[[1,2],[3,4]]}"), (mkLimits 0 0 0). vm_compute. reflexivity.
Qed.

(** The second chat is told the count made for the first, for another model of the family; the
    second batch reads the same as the first, but shares nothing with it and is told its own largest
    prompt, of two tokens and not three. *)
Lemma counts_shared_true_witness :
  let c := ForModel id (λ _, None) (O200kBase sample_ranks) (CL100kBase sample_ranks) (txt "openai/gpt-4-turbo") in
  let told st p := snd <$> Prompt_input sample_unicode sample_pool st p c in
  let alone p := (λ r, retainedCount p r.1 r.2) <$> fresh_count sample_unicode sample_pool p c in
  p_tally sample_follower = 0%nat ∧ told sample_store sample_follower = Some (mkCount 23 ProvenanceTokenizer, 23) ∧
  told sample_store sample_follower = alone sample_follower ∧
  input_equal (λ A c l, SortStableFunc c l) (p_in batch_follower) (p_in (sample_prompt 0 sample_batch)) = true ∧ p_tally batch_follower = 1%nat ∧
  alone (sample_prompt 0 sample_batch) = Some (mkCount 4 ProvenanceTokenizer, 3) ∧
  told batch_store batch_follower = Some (mkCount 4 ProvenanceTokenizer, 2) ∧ told batch_store batch_follower = alone batch_follower.
Proof.
  assert (∀ st ps p, runs id (λ _, None) (O200kBase sample_ranks) (CL100kBase sample_ranks) (λ A c l, SortStableFunc c l) sample_unicode sample_pool (st, ps) → p ∈ ps →
    snd <$> Prompt_input sample_unicode sample_pool st p (ForModel id (λ _, None) (O200kBase sample_ranks) (CL100kBase sample_ranks) (txt "openai/gpt-4-turbo")) =
    (λ r, retainedCount p r.1 r.2) <$> fresh_count sample_unicode sample_pool p (ForModel id (λ _, None) (O200kBase sample_ranks) (CL100kBase sample_ranks) (txt "openai/gpt-4-turbo"))) as H.
  { intros st ps p Hr Hp. refine (proj1 (counts_shared_true id (λ _, None) (O200kBase sample_ranks) (CL100kBase sample_ranks) (λ A c l, SortStableFunc c l) sample_unicode sample_pool
      st ps p (txt "openai/gpt-4-turbo") (λ A c l, SortStableFunc_Permutation c l) sample_unicode_ok (λ _, conj eq_refl eq_refl) _ _ Hr Hp));
    [split; [left; reflexivity|discriminate]|split; [right; reflexivity|discriminate] ]. }
  intros c told alone. split; [vm_compute; reflexivity|]. split; [vm_compute; reflexivity|]. split; [apply (H _ _ _ sample_run); right; left|].
  split; [vm_compute; reflexivity|]. split; [vm_compute; reflexivity|]. split; [vm_compute; reflexivity|]. split; [vm_compute; reflexivity|].
  apply (H _ _ _ batch_run). right. left.
Defined.

(** ** Estimates *)

Lemma multiplyBounded_min a b : 0 <= a → 1 <= b → multiplyBounded a b = Z.min MaxTokens (a * b).
Proof.
  intros Ha Hb. unfold multiplyBounded. rewrite Z.gtb_ltb, Z.quot_div_nonneg by (pose proof MaxTokens_pos; lia).
  pose proof (Z.mul_div_le MaxTokens b ltac:(lia)). pose proof (Z.mul_succ_div_gt MaxTokens b ltac:(lia)).
  destruct (Z.ltb_spec (MaxTokens / b) a) as [H1|H1]; [nia|]. assert (a * b <= MaxTokens) by nia.
  assert (0 <= a * b) by nia. rewrite wrap64_small; [lia|]. assert (MinInt64 <= 0 ∧ MaxTokens <= MaxInt64) by done. unfold is_int64. lia.
Qed.

Lemma input_saturates u pool st p c st' count context : Prompt_input u pool st p c = Some (st', (count, context)) → Tokens count <= MaxTokens ∧ context <= MaxTokens.
Proof.
  unfold Prompt_input. destruct (List.find _ _) as [e|]; [|destruct (fresh_count u pool p c) as [ [k x]|]; [|done] ]; intros [= _ <- <-]; cbn; rewrite !addBounded_min; lia.
Qed.

(** C35. What admission reserves for a request: the prompt's tokens for each copy it is charged for
    and, for a generation, the largest reply the request allows, the bound it names or the default
    one, at least one, times the candidates it asks for. It is that sum in full integers, with no
    product or sum wrapping around, saturated at the largest integer the limiter stores, and at
    least one; and an estimate is made whenever the prompt can be counted. *)
Theorem estimate_saturates u pool st p c st' count context : Prompt_input u pool st p c = Some (st', (count, context)) →
  ∃ e, Prompt_Estimate u pool st p c = Some (st', e) ∧ 1 <= Estimate_Tokens e <= MaxTokens ∧ 0 <= Reply e <= MaxTokens ∧
    let bounds := OutputBounds (p_request p) in
    let reply := Z.max (default DefaultOutputTokens bounds.1) 1 * Z.max bounds.2 1 in
    (0 <= Tokens count →
     Estimate_Tokens e = Z.max 1 (Z.min MaxTokens (if p_generation p then Tokens count * Z.max (input_copies (p_request p)) 1 + reply else Tokens count))).
Proof.
  intros E. destruct (input_saturates _ _ _ _ _ _ _ _ E) as [Hle _]. pose proof MaxTokens_pos as Hpos. unfold Prompt_Estimate. rewrite E. destruct (p_generation p); cbn [negb].
  - destruct (OutputBounds (p_request p)) as [output candidates]. eexists. split; [done|]. unfold Estimate_Tokens, Reply, InputExposure. cbn [e_generation EOutput Candidates EInput e_inputCopies negb fst snd].
    rewrite (multiplyBounded_min (Z.max (default DefaultOutputTokens output) 1)) by lia. rewrite addBounded_min. split; [lia|]. split; [nia|].
    intros H0. rewrite multiplyBounded_min by lia. nia.
  - eexists. split; [done|]. unfold Estimate_Tokens, Reply. cbn. split; [lia|]. split; [lia|]. lia.
Qed.

(** A completions request of two prompts, for two candidates of at most ten tokens each, and one
    that asks for more than fits. *)
Definition sample_completions : request := mkRequest Completions (parsed_document "{'prompt':['abc','ab'],'max_tokens':10,'n':2}").
Definition sample_greedy : request := mkRequest Chat (parsed_document "{'messages':[],'max_tokens':9007199254740991,'n':9223372036854775807}").

Lemma estimate_saturates_witness :
  let p r := mkPrompt (Some r) true no_input 0 0 in
  (∃ e, Prompt_Estimate sample_unicode sample_pool ∅ (p sample_completions) sample_counter =
      Some (<[0%nat := mkTally [mkCounted FamilyOpenAICL100k (mkCount 2 ProvenanceTokenizer) 1] [FamilyOpenAICL100k] ]> ∅, e) ∧ Estimate_Tokens e = 2 * 2 + 10 * 4) ∧
  (∃ e st, Prompt_Estimate sample_unicode sample_pool ∅ (p sample_greedy) sample_counter = Some (st, e) ∧ Estimate_Tokens e = MaxTokens).
Proof.
  intros p. split.
  - edestruct (estimate_saturates sample_unicode sample_pool ∅ (p sample_completions) sample_counter) as (e & E & _ & _ & H); [vm_compute; reflexivity|].
    exists e. split; [exact E|]. rewrite H by discriminate. vm_compute. reflexivity.
  - edestruct (estimate_saturates sample_unicode sample_pool ∅ (p sample_greedy) sample_counter) as (e & E & _ & _ & H); [vm_compute; reflexivity|].
    exists e. eexists. split; [exact E|]. rewrite H by discriminate. vm_compute. reflexivity.
Defined.
