(* ===== verification/Overlay.v ===== *)
(** * Requests and their overlays

    [internal/oif/envelope.go] and [registry.go]: a request keeps its source, and every change the
    gateway makes to it is an overlay with a provenance. [Apply] checks the changes of an overlay,
    prints the document with them and parses what it printed; [prepareIdentity] lets a request
    through to a provider of its own dialect only with changes a rule of the dialect allows. A
    document that is not valid is [None], and so is the zero value. *)

From S2P Require Import Prelude Go Amount Source SourceParser SourceGrammar SourceExact SourceSound SourceValues.
From S2P Require Import TokenVocab TokenScan TokenMeter TokenPrompt.
From Stdlib Require Import Ascii.
Local Open Scope Z_scope.
Local Open Scope olp_scope.

(** ** Strings as [json.Marshal] writes them *)

Definition hex_char (n : Z) : ascii := default "0"%char (txt "0123456789abcdef" !! Z.to_nat n).

(** [htmlSafeSet] *)
Definition html_safe (c : ascii) : bool :=
  (0x20 <=? code c) && (code c <? 0x80) && negb (existsb (Ascii.eqb c) ["034"; "&"; "<"; ">"; "092"]%char).

(** A byte below [utf8.RuneSelf] that is not safe. *)
Definition escaped_byte (c : ascii) : text :=
  "092"%char ::
  if existsb (Ascii.eqb c) ["092"; "034"]%char then [c]
  else if Ascii.eqb c "008" then ["b"%char]
  else if Ascii.eqb c "012" then ["f"%char]
  else if Ascii.eqb c "010" then ["n"%char]
  else if Ascii.eqb c "013" then ["r"%char]
  else if Ascii.eqb c "009" then ["t"%char]
  else txt "u00" ++ [hex_char (code c / 16); hex_char (code c mod 16)].

Fixpoint marshal_body (fuel : nat) (s : text) : text :=
  match fuel, s with
  | S fuel, c :: rest =>
      if code c <? 0x80 then (if html_safe c then [c] else escaped_byte c) ++ marshal_body fuel rest
      else
        let '(r, size) := decode_rune s in
        if (r =? RuneError) && Nat.eqb size 1 then "092"%char :: txt "ufffd" ++ marshal_body fuel rest
        else if (r =? 0x2028) || (r =? 0x2029) then "092"%char :: txt "u202" ++ hex_char (Z.land r 15) :: marshal_body fuel (drop size s)
        else take size s ++ marshal_body fuel (drop size s)
  | _, _ => []
  end.

(** [json.Marshal] of a string. *)
Definition marshal_string (s : text) : text := quoted (marshal_body (length s) s).

(** ** Changes *)

Definition ProviderDefault : string := "provider_default".
Definition IdentityBinding : string := "identity_binding".
Definition ResourceBinding : string := "resource_binding".
Definition TransportOption : string := "transport_option".

Record Change := mkChange { c_Pointer : text; c_Value : text; c_Remove : bool; c_Origin : string; c_Reason : string }.

Record Provenance := mkProvenance { v_Pointer : text; v_Origin : string; v_Reason : string }.

Inductive overlay_error := OverlayError (message : string) | OverlaySource (e : SourceError).

(** [strings.ReplaceAll] of a string of two bytes. *)
Fixpoint replace_pair (a b : ascii) (by_ : text) (s : text) : text :=
  match s with
  | x :: ((y :: r) as s') => if Ascii.eqb x a && Ascii.eqb y b then by_ ++ replace_pair a b by_ r else x :: replace_pair a b by_ s'
  | _ => s
  end.

(** The check of [unescape]: a tilde comes with a zero or a one. *)
Fixpoint well_escaped (s : text) : bool :=
  match s with
  | [] => true
  | c :: s' =>
      if Ascii.eqb c "~" then match s' with e :: s'' => (Ascii.eqb e "0" || Ascii.eqb e "1") && well_escaped s'' | [] => false end
      else well_escaped s'
  end.

(** [unescape] *)
Definition pointer_unescape (s : text) : option text :=
  if well_escaped s then Some (replace_pair "~" "0" ["~"%char] (replace_pair "~" "1" ["/"%char] s)) else None.

(** [strings.LastIndex(p, "/")] *)
Fixpoint last_slash (p : text) : option nat :=
  match p with
  | [] => None
  | c :: p' => match last_slash p' with Some i => Some (S i) | None => if Ascii.eqb c "/" then Some O else None end
  end.

(** The pointers above one, from the nearest up. *)
Fixpoint ancestors (fuel : nat) (p : text) : list text :=
  match fuel, last_slash p with
  | S fuel, Some i => take i p :: ancestors fuel (take i p)
  | _, _ => []
  end.

Definition by_path (changes : list Change) (p : text) : option Change := List.find (λ c, bool_decide (c_Pointer c = p)) changes.

(** ** Applying an overlay *)

Section Apply.
Context (d : document).

Definition check_pointer (c : Change) : overlay_error + unit :=
  match c_Pointer c with
  | [] => if c_Remove c then inl (OverlayError "cannot remove document") else inr tt
  | p =>
      match last_slash p with
      | None => inl (OverlayError "invalid overlay pointer")
      | Some i =>
          match Document_Lookup d (take i p) with
          | None => inl (OverlayError "overlay parent does not exist")
          | Some parent =>
              let exists_ := match Document_Lookup d p with Some _ => true | None => false end in
              let kind := Value_Kind d parent in
              let object := match kind with Object => true | _ => false end in
              let array := match kind with Array => true | _ => false end in
              if negb object && (negb array || negb exists_ || c_Remove c) then inl (OverlayError "overlay would change array structure")
              else if c_Remove c && negb exists_ then inl (OverlayError "overlay removal does not exist")
              else match pointer_unescape (drop (S i) p) with
                   | None => inl (OverlayError "invalid JSON pointer escape")
                   | Some _ => inr tt
                   end
          end
      end
  end.

(** One turn of the loop over the changes. *)
Definition check_change (used : Z) (seen : list Change) (c : Change) : option (overlay_error + unit) :=
  if size_of (c_Value c) >? MaxBytes (d_limits d) - used then Some (inl (OverlayError "overlay exceeds byte limit"))
  else if bool_decide (c_Origin c = EmptyString) || bool_decide (c_Reason c = EmptyString) then Some (inl (OverlayError "overlay requires provenance"))
  else match by_path seen (c_Pointer c) with
  | Some _ => Some (inl (OverlayError "duplicate overlay path"))
  | None =>
      match check_pointer c with
      | inl e => Some (inl e)
      | inr _ =>
          if c_Remove c then Some (inr tt)
          else match ParseJSON (c_Value c) (d_limits d) with
               | Some (inl e) => Some (inl (OverlaySource e))
               | Some (inr _) => Some (inr tt)
               | None => None
               end
      end
  end.

Fixpoint check_changes (used : Z) (seen changes : list Change) : option (overlay_error + list Change) :=
  match changes with
  | [] => Some (inr seen)
  | c :: rest =>
      match check_change used seen c with
      | Some (inr _) => check_changes (used + size_of (c_Value c)) (seen ++ [c]) rest
      | Some (inl e) => Some (inl e)
      | None => None
      end
  end.

Definition overlapping (changes : list Change) (paths : list text) : bool :=
  existsb (λ p, existsb (λ a, match by_path changes a with Some _ => true | None => false end) (ancestors (length p) p)) paths.

Fixpoint join (pieces : list text) : text :=
  match pieces with
  | [] => []
  | [x] => x
  | x :: pieces => x ++ ","%char :: join pieces
  end.

Definition value_raw (v : option nat) : text := match v with Some i => Value_Raw d i | None => [] end.
Definition value_kind (v : option nat) : Kind := match v with Some i => Value_Kind d i | None => Absent end.

(** Elements with their indexes from a number on. *)
Fixpoint indexed {A} (i : nat) (l : list A) : list (nat * A) := match l with [] => [] | x :: l => (i, x) :: indexed (S i) l end.

Section Render.
Context (changes : list Change) (paths : list text).

(** A pointer whose last part is a member added at the path: its name. *)
Definition added_name (path : text) (seen : list text) (p : text) : option text :=
  if Contains seen p || negb (starts_with p (path ++ ["/"%char])) then None
  else
    let rest := trim_prefix p (path ++ ["/"%char]) in
    if existsb (Ascii.eqb "/") rest then None else Some (default [] (pointer_unescape rest)).

(** [write]: the pointers seen and the members written so far, with one more member. *)
Definition write (rend : option nat → text → option text) (path : text) (st : option (list text * list text)) (name : text) (child : option nat)
  : option (list text * list text) :=
  match st with
  | None => None
  | Some (seen, pieces) =>
      let p := Pointer path name in
      let seen := seen ++ [p] in
      if match by_path changes p with Some c => c_Remove c | None => false end then Some (seen, pieces)
      else match rend child p with Some x => Some (seen, pieces ++ [marshal_string name ++ ":"%char :: x]) | None => None end
  end.

(** The members of a value, then those the overlay adds. *)
Definition write_members (rend : option nat → text → option text) (path : text) (members : list (text * nat)) : option (list text * list text) :=
  fold_left (λ st m, write rend path st m.1 (Some m.2)) members (Some ([], [])).

Definition write_added (rend : option nat → text → option text) (path : text) (st : option (list text * list text)) : option (list text * list text) :=
  fold_left (λ st p,
    match st with
    | None => None
    | Some (seen, _) => match added_name path seen p with Some name => write rend path st name None | None => st end
    end) paths st.

(** [render]; [None] when the fuel ends. *)
Fixpoint render (fuel : nat) (v : option nat) (path : text) : option text :=
  match fuel with
  | O => None
  | S fuel =>
      match by_path changes path with
      | Some c => Some (c_Value c)
      | None =>
          if negb (existsb (λ p, starts_with p (path ++ ["/"%char])) paths) then Some (value_raw v)
          else
            match value_kind v, v with
            | Array, Some i =>
                (λ pieces, "["%char :: join pieces ++ ["]"%char]) <$>
                  mapM (λ e, render fuel (Some e.2) (Pointer path (decimal_name e.1))) (indexed 0 (Elements d i))
            | _, _ =>
                let members := match v with Some i => Members d i | None => [] end in
                (λ st, "{"%char :: join st.2 ++ ["}"%char]) <$> write_added (render fuel) path (write_members (render fuel) path members)
            end
      end
  end.
End Render.

(** Fuel enough for any value of the document, and one more for what is added. *)
Definition render_fuel : nat := S (S (length (d_nodes d))).

Definition apply_to (changes : list Change) : option (overlay_error + document) :=
  match changes with
  | [] => Some (inr d)
  | _ =>
      if Z.of_nat (length changes) >? MaxNodes (d_limits d) then Some (inl (OverlayError "overlay exceeds node limit"))
      else match check_changes 0 [] changes with
      | None => None
      | Some (inl e) => Some (inl e)
      | Some (inr seen) =>
          let paths := SortStableFunc compare_text (c_Pointer <$> seen) in
          if overlapping seen paths then Some (inl (OverlayError "overlapping overlay paths"))
          else match render seen paths render_fuel (Some O) [] with
          | None => None
          | Some out =>
              match ParseJSON out (d_limits d) with
              | Some (inl e) => Some (inl (OverlaySource e))
              | Some (inr d') => Some (inr d')
              | None => None
              end
          end
      end
  end.
End Apply.

(** [Apply] *)
Definition Apply (source : option document) (changes : list Change) : option (overlay_error + document) :=
  match source with None => Some (inl (OverlayError "missing source")) | Some d => apply_to d changes end.
