(* ===== verification/OverlayText.v ===== *)
(** * Names and pointers of an overlay

    What [json.Marshal] writes for a name is a string that decodes to it, and the pointers an
    overlay may use are those of names, one for each. *)

From S2P Require Import Prelude Go Amount Source SourceParser SourceGrammar SourceExact SourceSound SourceValues Utf8.
From S2P Require Import TokenVocab TokenScan TokenMeter TokenPrompt Overlay OverlayGrammar.
From Stdlib Require Import Ascii.
Local Open Scope Z_scope.
Local Open Scope olp_scope.

(** ** Names *)

(** A body that decodes to a text, with some fuel. *)
Definition spells (b s : text) : Prop := chars b ∧ utf8_Valid b = true ∧ ∃ fuel, unquote fuel b = Some s.

Lemma spells_name b s : spells b s → name_of b = s.
Proof.
  intros (C & _ & fuel & E). unfold name_of. assert (∀ t, unquote (S (length b)) b = Some t → t = s) as H.
  { intros t Et. apply (unquote_more _ (Nat.max fuel (S (length b)))) in E, Et; try lia. congruence. }
  destruct (existsb _ b) eqn:B; [|by apply H, unquote_plain; [|lia] ].
  unfold decode. destruct (unquote_total b (S (length b)) C) as (t & Et); [lia|]. rewrite Et. by apply H.
Qed.

Lemma spells_escape e b out s : escaped e → (∀ fuel s, unquote (S fuel) ("092"%char :: e ++ s) = app out <$> unquote fuel s) → spells b s → spells ("092"%char :: e ++ b) (out ++ s).
Proof.
  intros He Ho (C & V & fuel & E). split; [by apply chars_escape|]. split.
  - destruct (unquote_escape e He) as [F _]. by rewrite utf8_ascii_cons, utf8_ascii_app.
  - exists (S fuel). rewrite Ho, E. done.
Qed.

Lemma byte_escape c : code c < 0x80 → html_safe c = false → ∃ e, escaped_byte c = "092"%char :: e ∧ escaped e ∧
  ∀ fuel s, unquote (S fuel) ("092"%char :: e ++ s) = app [c] <$> unquote fuel s.
Proof.
  intros Hc Hs. unfold escaped_byte. destruct (existsb (Ascii.eqb c) ["092"; "034"]%char) eqn:E1.
  { exists [c]. cbn in E1. rewrite !orb_true_iff, !Ascii.eqb_eq in E1. destruct E1 as [-> | [-> | ?] ]; [..|done]; (split; [done|]; split; [by constructor|]; intros; cbn; by destruct (unquote fuel s)). }
  destruct (Ascii.eqb_spec c "008"); [subst; eexists; split; [done|]; split; [by constructor|]; intros; cbn; by destruct (unquote fuel s)|].
  destruct (Ascii.eqb_spec c "012"); [subst; eexists; split; [done|]; split; [by constructor|]; intros; cbn; by destruct (unquote fuel s)|].
  destruct (Ascii.eqb_spec c "010"); [subst; eexists; split; [done|]; split; [by constructor|]; intros; cbn; by destruct (unquote fuel s)|].
  destruct (Ascii.eqb_spec c "013"); [subst; eexists; split; [done|]; split; [by constructor|]; intros; cbn; by destruct (unquote fuel s)|].
  destruct (Ascii.eqb_spec c "009"); [subst; eexists; split; [done|]; split; [by constructor|]; intros; cbn; by destruct (unquote fuel s)|].
  assert (hex4 "0" "0" (hex_char (code c / 16)) (hex_char (code c mod 16)) = Some (code c)) as Hx.
  { clear -Hc. revert Hc. destruct c as [ [] [] [] [] [] [] [] [] ]; vm_compute; intros; done || discriminate. }
  eexists. split; [done|]. split; [apply (escaped_unit "0" "0" _ _ _ Hx); lia|]. intros fuel s. cbn [txt String.list_ascii_of_string app unquote].
  change (Ascii.eqb "092" "092") with true. cbn [negb]. simpl Ascii.eqb. cbv iota. rewrite Hx. cbn [default from_option id]. pose proof (code_bound c). decide_tests.
  unfold encode_rune. rewrite (proj2 (Z.ltb_lt _ _)) by done. rewrite byte_of_code. by destruct (unquote fuel s).
Qed.

Lemma marshal_spells s : utf8_Valid s = true → ∀ fuel, (length s ≤ fuel)%nat → spells (marshal_body fuel s) s.
Proof.
  revert s. apply (utf8_ind (λ s, ∀ fuel, (length s ≤ fuel)%nat → spells (marshal_body fuel s) s)).
  { intros [|fuel] _; (split; [constructor|]; split; [done|]; by exists 1%nat). }
  intros r p q Hp V IH fuel L. rewrite length_app in L. destruct (Z.lt_ge_cases r 0x80) as [Hr|Hr].
  - destruct Hp as [c E _| | |]; [|lia..]. destruct fuel as [|fuel]; [cbn in L; lia|]. specialize (IH fuel ltac:(cbn in L; lia)). cbn [app marshal_body]. rewrite (proj2 (Z.ltb_lt _ _)) by lia.
    destruct (html_safe c) eqn:Hs.
    + destruct IH as (C & V' & g & E'). assert (plain c = true) as P.
      { unfold html_safe in Hs. apply andb_true_iff in Hs as [ [H1%Z.leb_le _]%andb_true_iff H2]. apply negb_true_iff in H2. cbn in H2. rewrite !orb_false_iff in H2. destruct H2 as (H2 & _ & _ & _ & H3 & _).
        unfold plain. rewrite H2, H3, (proj2 (Z.ltb_ge _ _)) by lia. done. }
      split; [by apply chars_plain|]. split; [cbn [app]; by rewrite utf8_ascii_cons by lia|]. exists (S g). cbn [app unquote]. rewrite (plain_backslash c P). cbn [negb]. by rewrite E'.
    + destruct (byte_escape c ltac:(lia) Hs) as (e & -> & He & Ho). by apply (spells_escape e _ [c]).
  - assert (2 ≤ length p)%nat as Lp by (destruct Hp; cbn; lia). pose proof (encoded_high r p Hp Hr) as F. destruct fuel as [|fuel]; [lia|]. specialize (IH fuel ltac:(lia)).
    destruct p as [|a p']; [cbn in Lp; lia|]. cbn [app marshal_body]. inversion F as [|? ? Ha _ E1]; subst. rewrite (proj2 (Z.ltb_ge _ _)) by lia.
    change (a :: p' ++ q) with ((a :: p') ++ q). rewrite (decode_encoded r _ q Hp). cbn [Nat.eqb]. replace (Nat.eqb (length (a :: p')) 1) with false by (symmetry; apply Nat.eqb_neq; lia).
    rewrite andb_false_r, take_app_length, drop_app_length. destruct ((r =? 0x2028) || (r =? 0x2029)) eqn:E2.
    + destruct (encoded_rune r _ Hp) as [_ ->]. apply orb_true_iff in E2. assert (hex4 "2" "0" "2" (hex_char (Z.land r 15)) = Some r) as Hx by (destruct E2 as [->%Z.eqb_eq | ->%Z.eqb_eq]; done).
      change ("092"%char :: txt "u202" ++ hex_char (Z.land r 15) :: marshal_body fuel q) with ("092"%char :: ["u"; "2"; "0"; "2"; hex_char (Z.land r 15)]%char ++ marshal_body fuel q).
      apply spells_escape; [|intros; destruct E2 as [->%Z.eqb_eq | ->%Z.eqb_eq]; cbn; by destruct (unquote fuel0 s)|done].
      apply (escaped_unit "2" "0" "2" _ r Hx). destruct E2 as [->%Z.eqb_eq | ->%Z.eqb_eq]; lia.
    + destruct IH as (C & V' & g & E'). split; [by apply chars_high|]. split; [by rewrite (utf8_encoded r)|]. exists (length (a :: p') + g)%nat. rewrite unquote_high by done. by rewrite E'.
Qed.

(** The name a member is written under. *)
Definition key (name : text) : text := marshal_body (length name) name.

Lemma key_spells name : utf8_Valid name = true → spells (key name) name.
Proof. intros V. by apply marshal_spells. Qed.

(** ** Pointers *)

Lemma unescape_pairs s : well_escaped s = true → replace_pair "~" "0" ["~"%char] (replace_pair "~" "1" ["/"%char] s) = default [] (unescape s) ∧ is_Some (unescape s).
Proof.
  remember (length s) as n eqn:E. revert s E. induction (lt_wf n) as [n _ IH]. intros [|c s] -> W; [by split|]. cbn [well_escaped] in W.
  destruct (Ascii.eqb_spec c "~") as [-> | Hc].
  - destruct s as [|e s]; [done|]. apply andb_true_iff in W as [We W]. destruct (IH (length s) ltac:(cbn; lia) s eq_refl W) as [IH1 [t Et] ]. rewrite Et in IH1. cbn [default from_option id] in IH1.
    apply orb_true_iff in We as [->%Ascii.eqb_eq | ->%Ascii.eqb_eq].
    + assert (replace_pair "~" "1" ["/"%char] ("~" :: "0" :: s)%char = "~"%char :: "0"%char :: replace_pair "~" "1" ["/"%char] s) as -> by (by destruct s).
      cbn. rewrite Et. cbn. split; [by rewrite IH1|done].
    + cbn [replace_pair]. change (Ascii.eqb "~" "~" && Ascii.eqb "1" "1") with true. cbv iota. cbn [app].
      assert (∀ x, replace_pair "~" "0" ["~"%char] ("/"%char :: x) = "/"%char :: replace_pair "~" "0" ["~"%char] x) as -> by (by intros [|y x]). cbn. rewrite Et. cbn. split; [by rewrite IH1|done].
  - assert (∀ e by_ x, replace_pair "~" e by_ (c :: x) = c :: replace_pair "~" e by_ x) as Hr.
    { intros e by_ [|y x]; [done|]. cbn [replace_pair]. rewrite (proj2 (Ascii.eqb_neq _ _) Hc). done. }
    destruct (IH (length s) ltac:(cbn; lia) s eq_refl W) as [IH1 [t Et] ]. rewrite !Hr. cbn [unescape]. rewrite (proj2 (Ascii.eqb_neq _ _) Hc). cbn [negb]. rewrite Et in *. cbn in *. split; [by rewrite IH1|done].
Qed.

Lemma unescape_well s t : unescape s = Some t → well_escaped s = true.
Proof.
  remember (length s) as n eqn:E. revert s t E. induction (lt_wf n) as [n _ IH]. intros [|c s] t -> H; [done|]. cbn [unescape well_escaped] in *.
  destruct (Ascii.eqb c "~"); cbn [negb] in H.
  - destruct s as [|e s]; [done|]. destruct (Ascii.eqb e "0"); [|destruct (Ascii.eqb e "1"); [|done] ]; destruct (unescape s) as [t'|] eqn:Et; try done; cbn; by apply (IH (length s) ltac:(cbn; lia) s t').
  - destruct (unescape s) as [t'|] eqn:Et; [|done]. by apply (IH (length s) ltac:(cbn; lia) s t').
Qed.

(** The two ways to read the escapes of a pointer agree. *)
Lemma pointer_unescape_eq s : pointer_unescape s = unescape s.
Proof.
  unfold pointer_unescape. destruct (well_escaped s) eqn:W.
  - destruct (unescape_pairs s W) as [-> [t ->] ]. done.
  - destruct (unescape s) as [t|] eqn:E; [|done]. by rewrite (unescape_well _ _ E) in W.
Qed.

Definition no_slash (s : text) : Prop := existsb (Ascii.eqb "/") s = false.

Lemma no_slash_cons c s : no_slash (c :: s) ↔ c ≠ "/"%char ∧ no_slash s.
Proof. unfold no_slash. cbn [existsb]. rewrite orb_false_iff, Ascii.eqb_neq. naive_solver. Qed.

Lemma esc_no_slash n : no_slash (esc n).
Proof.
  induction n as [|c n IH]; [done|]. rewrite esc_cons. destruct (Ascii.eqb c "~") eqn:T; [by cbn|]. destruct (Ascii.eqb_spec c "/"); [by cbn|]. cbn [app]. by apply no_slash_cons.
Qed.

(** A part of a pointer is the one spelling of its name. *)
Lemma unescape_esc_inv s n : unescape s = Some n → no_slash s → s = esc n.
Proof.
  remember (length s) as k eqn:E. revert s n E. induction (lt_wf k) as [k _ IH]. intros [|c s] n -> H S; [by injection H as <-|]. cbn [unescape] in H. apply no_slash_cons in S as [Sc S].
  destruct (Ascii.eqb_spec c "~") as [-> | Hc]; cbn [negb] in H.
  - destruct s as [|e s]; [done|]. apply no_slash_cons in S as [Se S]. destruct (Ascii.eqb_spec e "0") as [-> |]; [|destruct (Ascii.eqb_spec e "1") as [-> |]; [|done] ];
      destruct (unescape s) as [t|] eqn:Et; try done; injection H as <-; rewrite esc_cons; cbn; by rewrite <- (IH (length s) ltac:(cbn; lia) s t).
  - destruct (unescape s) as [t|] eqn:Et; [|done]. injection H as <-. rewrite esc_cons, (proj2 (Ascii.eqb_neq _ _) Hc), (proj2 (Ascii.eqb_neq _ _) Sc). cbn. by rewrite <- (IH (length s) ltac:(cbn; lia) s t).
Qed.

Lemma esc_inj a b : esc a = esc b → a = b.
Proof. intros E. apply (f_equal unescape) in E. rewrite !unescape_esc in E. congruence. Qed.

Lemma pointer_snoc ns n : pointer_of (ns ++ [n]) = Pointer (pointer_of ns) n.
Proof. unfold pointer_of. by rewrite foldl_app. Qed.

Lemma pointer_flat ns : pointer_of ns = flat_map (λ n, "/"%char :: esc n) ns.
Proof. unfold pointer_of. by rewrite pointer_of_app. Qed.

Lemma split_app x y : split (x ++ "/"%char :: y) = split x ++ split y.
Proof.
  induction x as [|c x IH]; [done|]. cbn [app split]. rewrite IH. destruct (Ascii.eqb c "/"); [done|]. destruct (split x) as [|p ps] eqn:E; [|done].
  destruct x as [|a x]; [done|]. cbn in E. destruct (Ascii.eqb a "/"); [done|]. by destruct (split x).
Qed.

Lemma split_not_nil s : split s ≠ [].
Proof. destruct s as [|c s]; [done|]. cbn. destruct (Ascii.eqb c "/"); [done|]. by destruct (split s). Qed.

(** A pointer split at its slashes is the names it goes through, from nothing. *)
Lemma split_names ns : split (pointer_of ns) = [] :: map esc ns.
Proof. rewrite pointer_flat. destruct ns as [|n ns]; [done|]. cbn [flat_map app split]. change (Ascii.eqb "/" "/") with true. cbv iota. f_equal. apply split_pointer. Qed.

Lemma map_esc_inj a b : map esc a = map esc b → a = b.
Proof. revert b. induction a as [|x a IH]; intros [|y b]; try done. cbn. intros [= ->%esc_inj E]. f_equal. by apply IH. Qed.

Lemma pointer_inj a b : pointer_of a = pointer_of b → a = b.
Proof. intros E. apply (f_equal split) in E. rewrite !split_names in E. injection E as E. by apply map_esc_inj. Qed.

(** Below a pointer, by its text and by its names. *)
Lemma pointer_below a b : starts_with (pointer_of b) (pointer_of a ++ ["/"%char]) = true ↔ ∃ n rest, b = a ++ n :: rest.
Proof.
  unfold starts_with. rewrite bool_decide_eq_true. split.
  - intros [z E]. rewrite <- (assoc_L (++)) in E. apply (f_equal split) in E. cbn [app] in E. rewrite split_app, !split_names in E. injection E as E.
    apply map_eq_app in E as (b1 & b2 & -> & E1 & E2). apply map_esc_inj in E1 as ->.
    destruct b2 as [|n rest]; [|eauto]. by destruct (split_not_nil z).
  - intros (n & rest & ->). rewrite !pointer_flat, flat_map_app. cbn [flat_map]. exists (esc n ++ flat_map (λ n, "/"%char :: esc n) rest). by rewrite <- (assoc_L (++)).
Qed.

(** What follows the slash of a name directly below. *)
Lemma pointer_rest a n rest : trim_prefix (pointer_of (a ++ n :: rest)) (pointer_of a ++ ["/"%char]) = esc n ++ flat_map (λ n, "/"%char :: esc n) rest.
Proof.
  unfold trim_prefix. rewrite (proj2 (pointer_below a _)) by eauto. rewrite (pointer_flat (a ++ _)), flat_map_app, <- pointer_flat. cbn [flat_map].
  replace (pointer_of a ++ ("/"%char :: esc n) ++ flat_map (λ n, "/"%char :: esc n) rest) with ((pointer_of a ++ ["/"%char]) ++ esc n ++ flat_map (λ n, "/"%char :: esc n) rest) by (by rewrite <- (assoc_L (++))).
  apply drop_app_length.
Qed.

(** ** Parents *)

Lemma last_slash_none s : last_slash s = None ↔ no_slash s.
Proof.
  unfold no_slash. induction s as [|c s IH]; [done|]. cbn [last_slash existsb]. rewrite orb_false_iff, <- IH, (Ascii.eqb_sym "/" c). destruct (last_slash s) as [i|]; [naive_solver|]. destruct (Ascii.eqb c "/"); naive_solver.
Qed.

Lemma last_slash_app x s : no_slash s → last_slash (x ++ "/"%char :: s) = Some (length x).
Proof.
  intros H%last_slash_none. induction x as [|c x IH]; cbn [app last_slash length]; [by rewrite H|by rewrite IH].
Qed.

Lemma last_slash_some p i : last_slash p = Some i → p = take i p ++ "/"%char :: drop (S i) p ∧ no_slash (drop (S i) p).
Proof.
  revert i. induction p as [|c p IH]; intros i; [done|]. cbn [last_slash]. destruct (last_slash p) as [k|] eqn:E.
  - intros [= <-]. destruct (IH k eq_refl) as [E1 E2]. cbn [take drop app]. split; [by f_equal|done].
  - destruct (Ascii.eqb_spec c "/") as [-> |]; [|done]. intros [= <-]. split; [done|]. by apply last_slash_none.
Qed.

Lemma pointer_last ns n : last_slash (pointer_of (ns ++ [n])) = Some (length (pointer_of ns)).
Proof. rewrite pointer_snoc. unfold Pointer. fold (esc n). apply last_slash_app, esc_no_slash. Qed.

Lemma pointer_parent ns n : take (length (pointer_of ns)) (pointer_of (ns ++ [n])) = pointer_of ns.
Proof. rewrite pointer_snoc. unfold Pointer. apply take_app_length. Qed.

(** Every pointer above is among the ancestors. *)
Lemma ancestors_above a n rest fuel : (length (pointer_of (a ++ n :: rest)) ≤ fuel)%nat → pointer_of a ∈ ancestors fuel (pointer_of (a ++ n :: rest)).
Proof.
  revert fuel. induction rest as [|m rest IH] using rev_ind; intros fuel L.
  - destruct fuel as [|fuel]; [rewrite pointer_snoc in L; unfold Pointer in L; rewrite length_app in L; cbn in L; lia|]. cbn [ancestors]. rewrite pointer_last, pointer_parent. by left.
  - rewrite (app_comm_cons rest), (assoc_L (++)) in L |- *. destruct fuel as [|fuel]; [rewrite pointer_snoc in L; unfold Pointer in L; rewrite length_app in L; cbn in L; lia|].
    cbn [ancestors]. rewrite pointer_last, pointer_parent. right. apply IH. rewrite pointer_snoc in L. unfold Pointer in L. rewrite length_app in L. cbn in L. lia.
Qed.

Lemma flat_split s : flat_map (λ p, "/"%char :: p) (split s) = "/"%char :: s.
Proof.
  induction s as [|c s IH]; [done|]. cbn [split]. destruct (Ascii.eqb_spec c "/") as [-> |].
  - cbn [flat_map app]. by rewrite IH.
  - pose proof (split_not_nil s) as N. destruct (split s) as [|p ps]; [done|]. cbn [flat_map app] in *. injection IH as IH. by rewrite IH.
Qed.

Lemma split_no_slash s p : p ∈ split s → no_slash p.
Proof.
  revert p. induction s as [|c s IH]; intros p; [by intros ->%list_elem_of_singleton|]. cbn [split]. destruct (Ascii.eqb_spec c "/") as [-> | Hc].
  - intros [-> | H]%elem_of_cons; [done|by apply IH].
  - pose proof (split_not_nil s) as N. destruct (split s) as [|q qs]; [done|]. intros [-> | H]%elem_of_cons; [|by apply IH; right]. apply no_slash_cons. split; [done|]. apply IH. by left.
Qed.

Section Lookup.
Context (d : document).

Lemma lookup_parts_names parts : ∀ v i, lookup_parts d v parts = Some i → (∀ p, p ∈ parts → no_slash p) → ∃ ns, parts = map esc ns.
Proof.
  induction parts as [|p parts IH]; intros v i H S; [by exists []|]. cbn [lookup_parts] in H. destruct (unescape p) as [n|] eqn:E; [|done]. cbn [mbind option_bind] in H.
  destruct (match Value_Kind d v with Array => _ | _ => _ end) as [v'|]; [|done]. cbn [mbind option_bind] in H. destruct (IH v' i H) as [ns ->]; [by intros; apply S; right|].
  exists (n :: ns). cbn. f_equal. apply unescape_esc_inv; [done|]. apply S. by left.
Qed.

(** A pointer that finds a value is that of names. *)
Lemma lookup_names p i : Document_Lookup d p = Some i → ∃ ns, p = pointer_of ns.
Proof.
  destruct p as [|c s]; [by exists []|]. cbn [Document_Lookup]. destruct (Ascii.eqb_spec c "/") as [-> |]; [|done]. intros H.
  destruct (lookup_parts_names _ _ _ H) as [ns E]; [apply split_no_slash|]. exists ns. rewrite <- flat_split, E, pointer_flat. clear. induction ns as [|n ns IH]; [done|]. cbn. by rewrite IH.
Qed.
End Lookup.

(** ** Byte-string reach *)

Lemma reach_app t a b : reach t (a ++ b) = reach t a ≫= λ t', reach t' b.
Proof.
  revert t. induction a as [|n a IH]; intros t; [done|]. cbn [app reach]. destruct t; try done.
  - destruct (nth_named 0 n l); [apply IH|done].
  - destruct (snd <$> List.find _ l); [apply IH|done].
Qed.

(** What a pointer finds in a document that represents a tree. *)
Lemma lookup_reach d t ns : represents (d_raw d) (d_nodes d) 0 t → Z.of_nat (count_of t) <= MaxInt64 →
  match reach t ns with
  | Some t' => ∃ i, Document_Lookup d (pointer_of ns) = Some i ∧ represents (d_raw d) (d_nodes d) i t'
  | None => Document_Lookup d (pointer_of ns) = None
  end.
Proof.
  intros R HB. pose proof (lookup_parts_agrees d ns 0 t HB R) as G. rewrite Document_Lookup_pointer. unfold agrees in G.
  destruct (lookup_parts d 0 (map esc ns)), (reach t ns); try done. eauto.
Qed.
