(* ===== verification/OverlayTree.v ===== *)
(** * The tree an overlay makes, and its text

    An overlay as a map from the names that lead to a value to what replaces it, the edit of a tree
    it stands for, and what the edited tree holds where; then that the text [render] writes is the
    JSON of that tree, whatever the order in which the changes are kept. *)

From S2P Require Import Prelude Go Amount Source SourceParser SourceGrammar SourceExact SourceSound SourceValues Utf8.
From S2P Require Import TokenVocab TokenScan TokenMeter TokenPrompt Overlay OverlayGrammar OverlayText.
From Stdlib Require Import Ascii.
Local Open Scope Z_scope.
Local Open Scope olp_scope.

Fixpoint strict_prefix (a b : list text) : bool :=
  match a, b with
  | [], _ :: _ => true
  | x :: a, y :: b => bool_decide (x = y) && strict_prefix a b
  | _, _ => false
  end.

Lemma strict_prefix_spec a b : strict_prefix a b = true ↔ ∃ n rest, b = a ++ n :: rest.
Proof.
  revert b. induction a as [|x a IH]; intros [|y b]; cbn; try (split; [done|by intros (? & ? & ?)]); [split; [eauto|done]|].
  rewrite andb_true_iff, bool_decide_eq_true, IH. split; [intros [<- (n & r & ->)]; eauto|intros (n & r & [= -> ->]); eauto].
Qed.

(** The name directly below. *)
Definition child_of (ns p : list text) : option text :=
  match drop (length ns) p with [n] => if bool_decide (take (length ns) p = ns) then Some n else None | _ => None end.

Lemma child_of_spec ns p n : child_of ns p = Some n ↔ p = ns ++ [n].
Proof.
  unfold child_of. split.
  - destruct (drop (length ns) p) as [|m [|] ] eqn:E; try done. case_bool_decide as Et; [|done]. intros [= <-]. by rewrite <- (take_drop (length ns) p), Et, E.
  - intros ->. rewrite drop_app_length, take_app_length. by rewrite bool_decide_true.
Qed.

Lemma unique_key {A B} (l : list (A * B)) k x y : NoDup l.*1 → (k, x) ∈ l → (k, y) ∈ l → x = y.
Proof.
  induction l as [|[a b] l IH]; [by intros _ H%elem_of_nil|]. cbn. intros [N ND]%NoDup_cons Hx Hy. rewrite elem_of_cons in Hx, Hy.
  assert (∀ z, (k, z) ∈ l → k ∈ l.*1) as Hin by (intros z H; apply list_elem_of_fmap; by exists (k, z)).
  destruct Hx as [Hx|Hx], Hy as [Hy|Hy]; [congruence|..|by apply IH]; [injection Hx as -> ->|injection Hy as -> ->]; destruct N; eauto.
Qed.

Section Edit.
Context (over : list (list text * option json)).

Definition find_over (ns : list text) : option (option json) := snd <$> List.find (λ e, bool_decide (e.1 = ns)) over.
Definition under (ns : list text) : bool := existsb (λ e, strict_prefix ns e.1) over.
Definition removed (ns : list text) : bool := match find_over ns with Some None => true | _ => false end.

(** The members added to an object that has the names. *)
Definition added (ns names : list text) : list (text * json) :=
  omap (λ e, match child_of ns e.1, e.2 with Some n, Some v => if bool_decide (n ∈ names) then None else Some (key n, v) | _, _ => None end) over.

Fixpoint edit (ns : list text) (t : json) {struct t} : json :=
  match find_over ns with
  | Some (Some v) => v
  | _ =>
      if negb (under ns) then t
      else match t with
      | JArray l => JArray ((fix go i l := match l with [] => [] | t' :: l' => edit (ns ++ [decimal_name i]) t' :: go (S i) l' end) 0%nat l)
      | JObject l =>
          JObject (flat_map (λ m, if removed (ns ++ [name_of m.1]) then [] else [(key (name_of m.1), edit (ns ++ [name_of m.1]) m.2)]) l ++ added ns (map (λ m, name_of m.1) l))
      | _ => JObject (added ns [])
      end
  end.

Definition edit_elements (ns : list text) (i : nat) (l : list json) : list json := map (λ e, edit (ns ++ [decimal_name e.1]) e.2) (indexed i l).
Definition edit_members (ns : list text) (l : list (text * json)) : list (text * json) :=
  flat_map (λ m, if removed (ns ++ [name_of m.1]) then [] else [(key (name_of m.1), edit (ns ++ [name_of m.1]) m.2)]) l.

Lemma edit_eq ns t : edit ns t =
  match find_over ns with
  | Some (Some v) => v
  | _ =>
      if negb (under ns) then t
      else match t with
      | JArray l => JArray (edit_elements ns 0 l)
      | JObject l => JObject (edit_members ns l ++ added ns (map (λ m, name_of m.1) l))
      | _ => JObject (added ns [])
      end
  end.
Proof.
  destruct t; try done. cbn [edit]. destruct (find_over ns) as [ [v|]|]; try done; (destruct (negb (under ns)); [done|]); f_equal;
    unfold edit_elements; generalize 0%nat as i; induction l as [|t' l IH]; intros i; cbn; try done; by rewrite IH.
Qed.

(** ** What an overlay over a tree promises *)

Context (t0 : json).

Record over_ok : Prop := mkOverOk {
  over_once : NoDup over.*1;
  over_apart : ∀ e e', e ∈ over → e' ∈ over → strict_prefix e.1 e'.1 = false;
  over_named : ∀ e, e ∈ over → Forall (λ n, utf8_Valid n = true) e.1;
  over_placed : ∀ e, e ∈ over →
    e.1 = [] ∧ e.2 ≠ None ∨
    ∃ ns n, e.1 = ns ++ [n] ∧ (e.2 = None → is_Some (reach t0 e.1)) ∧
      ((∃ l, reach t0 ns = Some (JObject l)) ∨ (∃ l, reach t0 ns = Some (JArray l)) ∧ is_Some (reach t0 e.1) ∧ e.2 ≠ None);
  tree_named : ∀ ns l, reach t0 ns = Some (JObject l) → Forall (λ m, utf8_Valid (name_of m.1) = true) l ∧ NoDup (map (λ m, name_of m.1) l);
}.

Context (Hok : over_ok).

Lemma find_over_in ns o : find_over ns = Some o ↔ (ns, o) ∈ over.
Proof.
  unfold find_over. split.
  - destruct (List.find _ over) as [e|] eqn:E; [|done]. intros [= <-]. apply find_some in E as [Hin <-%bool_decide_eq_true]. destruct e. by apply list_elem_of_In.
  - intros Hin. destruct (List.find _ over) as [e|] eqn:E.
    + apply find_some in E as [Hin' Ee%bool_decide_eq_true]. apply list_elem_of_In in Hin'. destruct e as [p q]. cbn in *. subst p. f_equal. eapply unique_key; [apply over_once|..]; done.
    + apply list_elem_of_In, (find_none _ _ E) in Hin. by apply bool_decide_eq_false in Hin.
Qed.

Lemma under_spec ns : under ns = true ↔ ∃ n rest o, (ns ++ n :: rest, o) ∈ over.
Proof.
  unfold under. rewrite existsb_exists. split.
  - intros ([p o] & Hin & (n & rest & E)%strict_prefix_spec). cbn in E. subst p. exists n, rest, o. by apply list_elem_of_In.
  - intros (n & rest & o & Hin). exists (ns ++ n :: rest, o). split; [by apply list_elem_of_In|]. apply strict_prefix_spec. eauto.
Qed.

(** Above a change there is none. *)
Lemma apart ns n rest o : (ns ++ n :: rest, o) ∈ over → find_over ns = None.
Proof.
  intros Hin. destruct (find_over ns) as [o'|] eqn:E; [|done]. apply find_over_in in E. pose proof (over_apart Hok _ _ E Hin) as H. cbn in H.
  assert (strict_prefix ns (ns ++ n :: rest) = true) by (apply strict_prefix_spec; eauto). congruence.
Qed.

(** Above a change the tree is an array or an object. *)
Lemma under_container ns t : under ns = true → reach t0 ns = Some t → (∃ l, t = JArray l) ∨ (∃ l, t = JObject l).
Proof.
  intros (n & rest & o & Hin)%under_spec E. assert (∀ b x, reach t (n :: b) = Some x → (∃ l, t = JArray l) ∨ (∃ l, t = JObject l)) as Hd by (intros b x; destruct t; cbn; eauto; done).
  destruct (over_placed Hok _ Hin) as [ [E1 _]|(ps & m & E1 & _ & H)]; cbn in *; [by destruct ns|].
  assert (∃ x, reach t0 ps = Some x ∧ ((∃ l, x = JArray l) ∨ (∃ l, x = JObject l))) as (x & Ex & Hx) by naive_solver.
  destruct rest as [|r rest _] using rev_ind.
  - apply app_inj_tail in E1 as [<- _]. rewrite E in Ex. injection Ex as <-. done.
  - rewrite (app_comm_cons rest), (assoc_L (++)) in E1. apply app_inj_tail in E1 as [<- _]. rewrite reach_app, E in Ex. cbn [mbind option_bind] in Ex. by eapply Hd.
Qed.

Lemma nth_named_map {A B} (f : nat * A → B) k name l : nth_named k name (map f (indexed k l)) = (λ x : nat * A, f x) <$> nth_named k name (indexed k l).
Proof. revert k. induction l as [|x l IH]; intros k; [done|]. cbn. case_bool_decide; [done|apply IH]. Qed.

Lemma nth_named_indexed {A} k name (l : list A) : nth_named k name (indexed k l) = match nth_named k name l with Some x => Some (Z.to_nat (name_value name), x) | None => None end.
Proof.
  revert k. induction l as [|x l IH]; intros k; [done|]. cbn [indexed nth_named map]. case_bool_decide as E; [|apply IH]. subst name. by rewrite (proj2 (decimal_name_canonical k)), Nat2Z.id.
Qed.

Lemma nth_named_decimal {A} k name (l : list A) x : nth_named k name l = Some x → decimal_name (Z.to_nat (name_value name)) = name.
Proof.
  revert k. induction l as [|y l IH]; intros k; [done|]. cbn [indexed nth_named map]. case_bool_decide as E; [|apply IH]. subst name. intros _. by rewrite (proj2 (decimal_name_canonical k)), Nat2Z.id.
Qed.

Lemma nth_edit ns name l : nth_named 0 name (edit_elements ns 0 l) = edit (ns ++ [name]) <$> nth_named 0 name l.
Proof.
  unfold edit_elements. rewrite nth_named_map, nth_named_indexed. destruct (nth_named 0 name l) as [x|] eqn:E; [|done]. cbn [fmap option_fmap option_map fst snd]. by rewrite (nth_named_decimal 0 name l x).
Qed.

Notation named l n := (snd <$> List.find (λ m, bool_decide (name_of m.1 = n)) l).

Lemma find_named_app {A} n (l k : list (text * A)) : named (l ++ k) n = match named l n with Some x => Some x | None => named k n end.
Proof. induction l as [|m l IH]; [done|]. cbn. case_bool_decide; [done|apply IH]. Qed.

Lemma named_in {A} n (l : list (text * A)) x : named l n = Some x → ∃ m, m ∈ l ∧ name_of m.1 = n ∧ m.2 = x.
Proof. destruct (List.find _ l) as [m|] eqn:E; [|done]. intros [= <-]. apply find_some in E as [Hin ?%bool_decide_eq_true]. exists m. split; [by apply list_elem_of_In|done]. Qed.

Lemma named_none {A} n (l : list (text * A)) : named l n = None ↔ n ∉ map (λ m, name_of m.1) l.
Proof.
  induction l as [|m l IH]; cbn; [split; [intros _ H%elem_of_nil; done|done]|]. rewrite not_elem_of_cons. case_bool_decide as E; cbn; [naive_solver|]. rewrite IH. naive_solver.
Qed.

Lemma named_edit ns n l : Forall (λ m, utf8_Valid (name_of m.1) = true) l →
  named (edit_members ns l) n = if removed (ns ++ [n]) then None else edit (ns ++ [n]) <$> named l n.
Proof.
  induction 1 as [|m l Hv _ IH]; [by destruct (removed _)|]. unfold edit_members in *. cbn [flat_map]. rewrite find_named_app, IH. cbn [List.find fmap option_fmap option_map].
  case_bool_decide as E; [subst n; destruct (removed (ns ++ [name_of m.1])) eqn:Er; [done|]; cbn|destruct (removed (ns ++ [name_of m.1])); [done|]; cbn].
  - by rewrite (spells_name _ _ (key_spells _ Hv)), bool_decide_true.
  - by rewrite (spells_name _ _ (key_spells _ Hv)), bool_decide_false.
Qed.

Lemma added_in ns names m : m ∈ added ns names → ∃ n, (ns ++ [n], Some m.2) ∈ over ∧ n ∉ names ∧ name_of m.1 = n ∧ m.1 = key n ∧ utf8_Valid n = true.
Proof.
  unfold added. intros ([p o] & Hin & E)%list_elem_of_omap. cbn [fst snd] in E. destruct (child_of ns p) as [n|] eqn:Ec; [|done]. apply child_of_spec in Ec as ->. cbn in E. destruct o as [v|]; [|done].
  case_bool_decide as Hn; [done|]. injection E as <-. exists n. cbn [fst snd]. pose proof (over_named Hok _ Hin) as Hv. cbn [fst] in Hv. apply Forall_app in Hv as [_ [Hv _]%Forall_cons].
  split; [done|]. split; [done|]. split; [by apply spells_name, key_spells|done].
Qed.

Lemma named_added ns names n : named (added ns names) n = if bool_decide (n ∈ names) then None else match find_over (ns ++ [n]) with Some (Some v) => Some v | _ => None end.
Proof.
  destruct (named (added ns names) n) as [x|] eqn:E.
  - apply named_in in E as (m & (n' & Hin & Hn & E1 & E2 & _)%added_in & E3 & <-). rewrite E1 in E3. clear E2. subst. rewrite bool_decide_false by done. apply find_over_in in Hin. by rewrite Hin.
  - apply named_none in E. case_bool_decide as Hn; [done|]. destruct (find_over (ns ++ [n])) as [ [v|]|] eqn:Ef; try done. exfalso. apply E. apply find_over_in in Ef.
    apply list_elem_of_fmap. exists (key n, v). pose proof (over_named Hok _ Ef) as Hv. cbn [fst] in Hv. apply Forall_app in Hv as [_ [Hv _]%Forall_cons].
    split; [cbn; symmetry; by apply spells_name, key_spells|]. unfold added. apply list_elem_of_omap. exists (ns ++ [n], Some v). split; [done|]. cbn.
    rewrite (proj2 (child_of_spec ns _ n)) by done. by rewrite bool_decide_false.
Qed.

(** The member of a name after an edit. *)
Lemma named_both ns n l : reach t0 ns = Some (JObject l) →
  named (edit_members ns l ++ added ns (map (λ m, name_of m.1) l)) n =
  match find_over (ns ++ [n]) with
  | Some None => None
  | Some (Some v) => Some v
  | None => edit (ns ++ [n]) <$> named l n
  end.
Proof.
  intros E. destruct (tree_named Hok _ _ E) as [Hv _]. rewrite find_named_app, named_edit, named_added by done. unfold removed.
  destruct (named l n) as [x|] eqn:En; cbn [fmap option_fmap option_map].
  - assert (n ∈ map (λ m, name_of m.1) l) as Hin by (apply named_in in En as (m & Hm & <- & _); apply list_elem_of_fmap; eauto). rewrite (bool_decide_true _ Hin).
    destruct (find_over (ns ++ [n])) as [ [v|]|] eqn:Ef; [|done|done]. by rewrite edit_eq, Ef.
  - apply named_none in En. rewrite (bool_decide_false _ En). by destruct (find_over (ns ++ [n])) as [ [v|]|].
Qed.

Lemma reach_step t n rest : reach t (n :: rest) = (match t with JArray l => nth_named 0 n l | JObject l => named l n | _ => None end) ≫= λ t', reach t' rest.
Proof. by destruct t. Qed.

Lemma named_same {A} n (l : list (text * A)) : (snd <$> List.find (λ m, bool_decide (name_of m.1 = n)) l) = named l n.
Proof. done. Qed.

(** Away from the changes the tree is as it was. *)
Lemma reach_kept rest : ∀ ns t, reach t0 ns = Some t → (∀ k, (k ≤ length rest)%nat → find_over (ns ++ take k rest) = None) → under (ns ++ rest) = false →
  reach (edit ns t) rest = reach t rest.
Proof.
  induction rest as [|n rest IH]; intros ns t E Hf Hu.
  - rewrite app_nil_r in Hu. pose proof (Hf 0%nat ltac:(done)) as Hn. cbn in Hn. rewrite app_nil_r in Hn. by rewrite edit_eq, Hn, Hu.
  - pose proof (Hf 0%nat ltac:(lia)) as Hn. cbn in Hn. rewrite app_nil_r in Hn. rewrite edit_eq, Hn. destruct (under ns) eqn:Eu; cbn [negb]; [|done].
    assert (∀ t', reach t0 (ns ++ [n]) = Some t' → reach (edit (ns ++ [n]) t') rest = reach t' rest) as Hstep.
    { intros t' Et. apply IH; [done|intros k Hk; rewrite <- (assoc_L (++)); apply (Hf (S k)); cbn; lia|by rewrite <- (assoc_L (++))]. }
    pose proof (Hf 1%nat ltac:(cbn; lia)) as H1. cbn in H1. rewrite take_0 in H1.
    destruct (under_container ns t Eu E) as [ [l ->]|[l ->] ]; rewrite !reach_step.
    + rewrite nth_edit. destruct (nth_named 0 n l) as [t'|] eqn:En; [|done]. cbn. apply Hstep. by rewrite reach_app, E; cbn; rewrite En.
    + rewrite named_both, H1 by done. destruct (named l n) as [t'|] eqn:En; [|done]. cbn. apply Hstep. rewrite reach_app, E. cbn [mbind option_bind]. by rewrite reach_step, En.
Qed.

(** At a change and below it the tree is what the change says. *)
Lemma reach_changed p : ∀ ns t o q, reach t0 ns = Some t → (ns ++ p, o) ∈ over → (p = [] → o ≠ None) →
  reach (edit ns t) (p ++ q) = match o with Some v => reach v q | None => None end.
Proof.
  induction p as [|n p IH]; intros ns t o q E Hin Ho.
  - rewrite app_nil_r in Hin. apply find_over_in in Hin. rewrite edit_eq, Hin. destruct o; [done|by destruct Ho].
  - assert (find_over ns = None) as Hn by (by eapply apart). assert (under ns = true) as Eu by (apply under_spec; eauto). rewrite edit_eq, Hn, Eu. cbn [negb app].
    assert (∀ t', reach t0 (ns ++ [n]) = Some t' → (p = [] → o ≠ None) → reach (edit (ns ++ [n]) t') (p ++ q) = match o with Some v => reach v q | None => None end) as Hstep.
    { intros t' Et Hp. apply IH; [done|by rewrite <- (assoc_L (++))|done]. }
    destruct (over_placed Hok _ Hin) as [ [E1 _]|(ps & m & E1 & Hrm & Hpl)]; cbn [fst snd] in E1; [by destruct ns|]. cbn [fst snd] in Hrm, Hpl.
    destruct (under_container ns t Eu E) as [ [l ->]|[l ->] ]; rewrite reach_step.
    + rewrite nth_edit. destruct (nth_named 0 n l) as [t'|] eqn:En; cbn.
      * apply Hstep; [by rewrite reach_app, E; cbn; rewrite En|]. intros ->. apply app_inj_tail in E1 as [<- _]. rewrite E in Hpl. naive_solver.
      * exfalso. destruct p as [|r p _] using rev_ind.
        { apply app_inj_tail in E1 as [<- _]. rewrite E in Hpl. destruct Hpl as [ [? ?]|(_ & [x Hx] & _)]; [done|]. rewrite reach_app, E in Hx. cbn in Hx. by rewrite En in Hx. }
        rewrite (app_comm_cons p), (assoc_L (++)) in E1. apply app_inj_tail in E1 as [<- _]. rewrite reach_app, E in Hpl. cbn in Hpl. rewrite En in Hpl. naive_solver.
    + rewrite named_both by done. destruct p as [|r p _] using rev_ind.
      * assert (find_over (ns ++ [n]) = Some o) as -> by (by apply find_over_in). destruct o as [v|]; done.
      * assert (find_over (ns ++ [n]) = None) as ->.
        { destruct p as [|p1 p]; [apply (apart _ r [] o)|apply (apart _ p1 (p ++ [r]) o)]; rewrite <- (assoc_L (++)); done. }
        rewrite (app_comm_cons p), (assoc_L (++)) in E1. apply app_inj_tail in E1 as [<- _]. destruct (named l n) as [t'|] eqn:En.
        { cbn. apply Hstep; [rewrite reach_app, E; cbn [mbind option_bind]; by rewrite reach_step, En|by destruct p]. }
        exfalso. rewrite reach_app, E in Hpl. cbn [mbind option_bind] in Hpl. rewrite reach_step, En in Hpl. naive_solver.
Qed.
End Edit.

(** ** Lists of values and of members *)

(** A text that is the JSON of a tree and valid UTF-8. *)
Definition prints (t : json) (x : text) : Prop := Doc t x ∧ utf8_Valid x = true.

(** A member as it is written: the body of its key spells a name. *)
Definition piece (e : text * json) (x : text) : Prop := ∃ y, x = quoted e.1 ++ ":"%char :: y ∧ prints e.2 y ∧ spells e.1 (name_of e.1).

Lemma join_cons x y xs : join (x :: y :: xs) = x ++ ","%char :: join (y :: xs).
Proof. done. Qed.

Lemma join_valid xs : Forall (λ x, utf8_Valid x = true) xs → utf8_Valid (join xs) = true.
Proof.
  induction 1 as [|x xs V F IH]; [done|]. destruct xs as [|y xs]; [done|]. rewrite join_cons. apply utf8_app; [done|]. by rewrite utf8_ascii_cons.
Qed.

Lemma join_elems l xs : Forall2 prints l xs → l ≠ [] → Elems l (join xs ++ ["]"%char]).
Proof.
  induction 1 as [|t x l xs [(w & s & w' & -> & B & B' & V) _] F IH]; [done|]. intros _. destruct F as [|t2 x2 l2 xs2 H2 F2].
  - cbn [join]. rewrite <- !(assoc_L (++)). by apply E_last.
  - rewrite join_cons, <- !(assoc_L (++)). cbn [app]. apply E_more; try done. by apply IH.
Qed.

Lemma array_prints l xs : Forall2 prints l xs → prints (JArray l) ("["%char :: join xs ++ ["]"%char]).
Proof.
  intros F. split.
  - apply Doc_Val. destruct (decide (l = [])) as [-> |N]; [inversion F; subst; by apply (V_array_empty [])|]. apply V_array. by apply join_elems.
  - rewrite utf8_ascii_cons by done. apply utf8_app; [|done]. apply join_valid. clear -F. induction F as [|t x l xs [_ V] _ IH]; by constructor.
Qed.

Lemma join_members l xs : Forall2 piece l xs → l ≠ [] → Mems l (join xs ++ ["}"%char]).
Proof.
  induction 1 as [|e x l xs (y & -> & [(w & s & w' & -> & B & B' & V) _] & (C & _)) F IH]; [done|]. intros _. destruct e as [b t]. cbn [fst snd] in *. destruct F as [|e2 x2 l2 xs2 H2 F2].
  - cbn [join]. rewrite <- !(assoc_L (++)). cbn [app]. rewrite <- !(assoc_L (++)). by apply (M_last b t [] [] w s w').
  - rewrite join_cons, <- !(assoc_L (++)). cbn [app]. rewrite <- !(assoc_L (++)). apply (M_more b t _ [] [] w s w'); try done. by apply IH.
Qed.

Lemma piece_valid e x : piece e x → utf8_Valid x = true.
Proof.
  intros (y & -> & [_ V] & (_ & Vb & _)). unfold quoted. cbn [app]. rewrite utf8_ascii_cons, <- (assoc_L (++)) by done. cbn [app]. apply utf8_app; [done|]. by rewrite !utf8_ascii_cons.
Qed.

Lemma object_prints l xs : Forall2 piece l xs → NoDup (map (λ m, name_of m.1) l) → prints (JObject l) ("{"%char :: join xs ++ ["}"%char]).
Proof.
  intros F ND. split.
  - apply Doc_Val. destruct (decide (l = [])) as [-> |N]; [inversion F; subst; by apply (V_object_empty [])|]. apply V_object; [|done]. by apply join_members.
  - rewrite utf8_ascii_cons by done. apply utf8_app; [|done]. apply join_valid. clear -F. induction F as [|t x l xs H _ IH]; constructor; [by eapply piece_valid|done].
Qed.

(** ** Rendering *)

Section Render.
Context (d : document) (changes : list Change) (paths : list text) (over : list (list text * option json)) (t0 : json).
Context (Hok : over_ok over t0).
Context (Hpaths : paths = (λ e, pointer_of e.1) <$> over).
Context (Hfind : ∀ ns,
  match find_over over ns with
  | Some (Some v) => ∃ c, by_path changes (pointer_of ns) = Some c ∧ c_Remove c = false ∧ prints v (c_Value c)
  | Some None => ∃ c, by_path changes (pointer_of ns) = Some c ∧ c_Remove c = true
  | None => by_path changes (pointer_of ns) = None
  end).
Context (Hvalid : utf8_Valid (d_raw d) = true).

Notation rep := (represents (d_raw d) (d_nodes d)).
Notation rendered := (render d changes paths).
Notation edited := (edit over).

Lemma below_under ns : existsb (λ p, starts_with p (pointer_of ns ++ ["/"%char])) paths = under over ns.
Proof.
  rewrite Hpaths. unfold under. generalize over as l. induction l as [|[p o] l IH]; [done|]. cbn [fmap list_fmap existsb fst]. f_equal; [|done].
  apply eq_true_iff_eq. rewrite pointer_below. symmetry. apply strict_prefix_spec.
Qed.

Lemma drop_removed ns : match by_path changes (pointer_of ns) with Some c => c_Remove c | None => false end = removed over ns.
Proof. unfold removed. pose proof (Hfind ns) as H. destruct (find_over over ns) as [ [v|]|]; [destruct H as (c & -> & -> & _)|destruct H as (c & -> & ->)|rewrite H]; done. Qed.

(** A member that is written. *)
Lemma write_kept rend ns seen pieces name child x : removed over (ns ++ [name]) = false → rend child (pointer_of (ns ++ [name])) = Some x →
  write changes rend (pointer_of ns) (Some (seen, pieces)) name child = Some (seen ++ [pointer_of (ns ++ [name])], pieces ++ [quoted (key name) ++ ":"%char :: x]).
Proof. intros Hr Hx. unfold write. rewrite <- pointer_snoc, drop_removed, Hr, Hx. done. Qed.

Lemma write_removed rend ns seen pieces name child : removed over (ns ++ [name]) = true →
  write changes rend (pointer_of ns) (Some (seen, pieces)) name child = Some (seen ++ [pointer_of (ns ++ [name])], pieces).
Proof. intros Hr. unfold write. by rewrite <- pointer_snoc, drop_removed, Hr. Qed.

Lemma key_piece name t x : utf8_Valid name = true → prints t x → piece (key name, t) (quoted (key name) ++ ":"%char :: x).
Proof. intros V P. exists x. split; [done|]. split; [done|]. cbn [fst]. pose proof (key_spells name V) as S. by rewrite (spells_name _ _ S). Qed.

(** The members of an object, as the edit leaves them. *)
Lemma members_written rend ns ms l : all2 (λ m bt, m.1 = name_of bt.1 ∧
    (removed over (ns ++ [m.1]) = false → ∃ x, rend (Some m.2) (pointer_of (ns ++ [m.1])) = Some x ∧ prints (edited (ns ++ [m.1]) bt.2) x)) ms l →
  Forall (λ m, utf8_Valid (name_of m.1) = true) l → ∀ seen pieces,
  ∃ xs, fold_left (λ st m, write changes rend (pointer_of ns) st m.1 (Some m.2)) ms (Some (seen, pieces)) =
      Some (seen ++ map (λ m : text * json, pointer_of (ns ++ [name_of m.1])) l, pieces ++ xs) ∧ Forall2 piece (edit_members over ns l) xs.
Proof.
  revert l. induction ms as [|m ms IH]; intros [|bt l] HA HV seen pieces; try done; [exists []; rewrite !app_nil_r; split; [done|constructor]|].
  destruct HA as [ [Em Hx] HA]. apply Forall_cons in HV as [Hv HV]. cbn [fold_left map]. unfold edit_members. cbn [flat_map]. rewrite <- Em in *.
  destruct (removed over (ns ++ [m.1])) eqn:Er.
  - rewrite write_removed by done. destruct (IH l HA HV (seen ++ [pointer_of (ns ++ [m.1])]) pieces) as (xs & E & F). exists xs. rewrite E, <- (assoc_L (++)). done.
  - destruct (Hx eq_refl) as (x & Ex & Px). rewrite (write_kept _ _ _ _ _ _ x) by done.
    destruct (IH l HA HV (seen ++ [pointer_of (ns ++ [m.1])]) (pieces ++ [quoted (key m.1) ++ ":"%char :: x])) as (xs & E & F).
    exists ((quoted (key m.1) ++ ":"%char :: x) :: xs). rewrite E, <- !(assoc_L (++)). split; [done|]. cbn [app]. constructor; [by apply key_piece|done].
Qed.

(** A pointer of the overlay that adds a member. *)
Lemma added_name_spec ns (names seen : list text) p : (∀ n, pointer_of (ns ++ [n]) ∈ seen ↔ n ∈ names) →
  added_name (pointer_of ns) seen (pointer_of p) = match child_of ns p with Some n => if bool_decide (n ∈ names) then None else Some n | None => None end.
Proof.
  intros Hs. unfold added_name. destruct (starts_with (pointer_of p) (pointer_of ns ++ ["/"%char])) eqn:Eb.
  - apply pointer_below in Eb as (n & rest & ->). rewrite pointer_rest. cbn [negb]. rewrite orb_false_r. destruct rest as [|r rest].
    + rewrite (proj2 (child_of_spec ns _ n)) by done. cbn [flat_map]. rewrite app_nil_r. fold (no_slash (esc n)). pose proof (esc_no_slash n) as Hn. unfold no_slash in Hn. rewrite Hn, pointer_unescape_eq, unescape_esc. cbn [default from_option id].
      destruct (bool_decide_reflect (n ∈ names)) as [Hin|Hin]; [|].
      * by rewrite (proj2 (Contains_true _ _)) by (by apply Hs).
      * destruct (Contains seen _) eqn:E; [|done]. apply Contains_true, Hs in E. done.
    + assert (child_of ns (ns ++ n :: r :: rest) = None) as ->.
      { destruct (child_of ns _) as [m|] eqn:E; [|done]. apply child_of_spec in E. apply app_inv_head in E. done. }
      destruct (Contains _ _); [done|]. cbn [flat_map]. rewrite existsb_app. cbn [app existsb]. rewrite Ascii.eqb_refl. by rewrite orb_true_r.
  - cbn [negb]. rewrite orb_true_r. destruct (child_of ns p) as [n|] eqn:E; [|done]. apply child_of_spec in E as ->. assert (starts_with (pointer_of (ns ++ [n])) (pointer_of ns ++ ["/"%char]) = true) by (apply pointer_below; eauto). congruence.
Qed.

Lemma added_fresh os ns names n : (∀ e, e ∈ os → child_of ns e.1 ≠ Some n) → added os ns (names ++ [n]) = added os ns names.
Proof.
  intros H. unfold added. induction os as [|e os IH]; [done|]. cbn [omap list_omap]. rewrite IH by (intros e' He; apply H; by right). assert (child_of ns e.1 ≠ Some n) as Hn by (apply H; by left).
  destruct (child_of ns e.1) as [m|]; [|done]. destruct e.2 as [v|]; [|done]. assert (bool_decide (m ∈ names ++ [n]) = bool_decide (m ∈ names)) as ->; [|done].
  apply bool_decide_ext. rewrite elem_of_app, list_elem_of_singleton. naive_solver.
Qed.

(** The members an overlay adds, in the order of their pointers. *)
Lemma added_written rend ns os : NoDup os.*1 → (∀ e, e ∈ os → e ∈ over) → ∀ names seen pieces,
  (∀ n, pointer_of (ns ++ [n]) ∈ seen ↔ n ∈ names) →
  (∀ n v, (ns ++ [n], Some v) ∈ os → ∃ x, rend None (pointer_of (ns ++ [n])) = Some x ∧ prints v x) → (∀ n, (ns ++ [n], None) ∈ os → n ∈ names) →
  ∃ seen' xs, fold_left (λ st p,
      match st with
      | None => None
      | Some (seen, _) => match added_name (pointer_of ns) seen p with Some name => write changes rend (pointer_of ns) st name None | None => st end
      end) ((λ e, pointer_of e.1) <$> os) (Some (seen, pieces)) = Some (seen', pieces ++ xs) ∧ Forall2 piece (added os ns names) xs.
Proof.
  induction os as [|[p o] os IH]; intros ND Hin names seen pieces Hs Hx Hr; [exists seen, []; rewrite app_nil_r; split; [done|constructor]|].
  cbn [fmap list_fmap] in ND. apply NoDup_cons in ND as [Np ND]. cbn [fmap list_fmap fold_left fst]. rewrite (added_name_spec ns names seen p Hs).
  assert (∀ names seen pieces, (∀ n, pointer_of (ns ++ [n]) ∈ seen ↔ n ∈ names) → (∀ n, (ns ++ [n], None) ∈ os → n ∈ names) →
    ∃ seen' xs, fold_left (λ st p,
      match st with
      | None => None
      | Some (seen, _) => match added_name (pointer_of ns) seen p with Some name => write changes rend (pointer_of ns) st name None | None => st end
      end) ((λ e, pointer_of e.1) <$> os) (Some (seen, pieces)) = Some (seen', pieces ++ xs) ∧ Forall2 piece (added os ns names) xs) as IH'.
  { intros. apply IH; try done; [intros e He; apply Hin; by right|intros n v H1; apply Hx; by right]. }
  unfold added at 1. cbn [omap list_omap fst snd]. fold (added os ns names). destruct (child_of ns p) as [n|] eqn:Ec; [|apply IH'; [done|intros n H1; apply Hr; by right] ].
  apply child_of_spec in Ec as ->. destruct (bool_decide_reflect (n ∈ names)) as [Hn|Hn].
  { destruct (IH' names seen pieces Hs) as (seen' & xs & E & F); [intros m H1; apply Hr; by right|]. exists seen', xs. split; [done|]. by destruct o. }
  destruct o as [v|]; [|destruct Hn; apply Hr; by left]. destruct (Hx n v) as (x & Ex & Px); [by left|].
  assert ((ns ++ [n], Some v) ∈ over) as Ho by (apply Hin; by left).
  assert (removed over (ns ++ [n]) = false) as Hrem by (unfold removed; by rewrite (proj2 (find_over_in over t0 Hok _ _) Ho)).
  rewrite (write_kept _ _ _ _ _ _ x) by done.
  destruct (IH' (names ++ [n]) (seen ++ [pointer_of (ns ++ [n])]) (pieces ++ [quoted (key n) ++ ":"%char :: x])) as (seen' & xs & E & F).
  - intros m. rewrite !elem_of_app, !list_elem_of_singleton, Hs. assert (pointer_of (ns ++ [m]) = pointer_of (ns ++ [n]) ↔ m = n) as ->; [|done].
    split; [|by intros ->]. intros E1%pointer_inj. by apply app_inj_tail in E1 as [_ ->].
  - intros m H1. apply elem_of_app. left. apply Hr. by right.
  - exists seen', ((quoted (key n) ++ ":"%char :: x) :: xs). rewrite E, <- (assoc_L (++)). split; [done|]. constructor.
    + apply key_piece; [|done]. pose proof (over_named over t0 Hok _ Ho) as V. cbn [fst] in V. by apply Forall_app in V as [_ [V _]%Forall_cons].
    + rewrite added_fresh in F; [done|]. intros e He Hc. apply child_of_spec in Hc. apply Np, list_elem_of_fmap. exists e. by rewrite Hc.
Qed.

(** ** The names of an edited object *)

Lemma members_names ns l : Forall (λ m, utf8_Valid (name_of m.1) = true) l →
  map (λ m, name_of m.1) (edit_members over ns l) = filter (λ n, removed over (ns ++ [n]) = false) (map (λ m, name_of m.1) l).
Proof.
  induction 1 as [|m l Hv _ IH]; [done|]. unfold edit_members in *. cbn [flat_map map]. rewrite map_app, IH, filter_cons. destruct (removed over (ns ++ [name_of m.1])).
  - by rewrite decide_False.
  - rewrite decide_True by done. cbn [map app fst]. by rewrite (spells_name _ _ (key_spells _ Hv)).
Qed.

Lemma added_once os ns names : NoDup os.*1 → (∀ e, e ∈ os → e ∈ over) → NoDup (map (λ m, name_of m.1) (added os ns names)) ∧
  ∀ m, m ∈ added os ns names → ∃ n, (ns ++ [n], Some m.2) ∈ os ∧ name_of m.1 = n ∧ n ∉ names.
Proof.
  induction os as [|[p o] os IH]; intros ND Hin; [split; [constructor|intros m H; by apply elem_of_nil in H]|]. cbn [fmap list_fmap] in ND. apply NoDup_cons in ND as [Np ND].
  destruct (IH ND) as [N1 N2]; [intros e He; apply Hin; by right|]. unfold added. cbn [omap list_omap fst snd]. fold (added os ns names).
  assert (∀ m, m ∈ added os ns names → ∃ n, (ns ++ [n], Some m.2) ∈ (p, o) :: os ∧ name_of m.1 = n ∧ n ∉ names) as N2'.
  { intros m Hm. destruct (N2 m Hm) as (n & ? & ? & ?). exists n. split; [by right|done]. }
  destruct (child_of ns p) as [n|] eqn:Ec; [|done]. destruct o as [v|]; [|done]. case_bool_decide as Hn; [done|]. apply child_of_spec in Ec as ->.
  assert (name_of (key n) = n) as Ek.
  { apply spells_name, key_spells. pose proof (over_named over t0 Hok _ (Hin _ (list_elem_of_here _ _))) as V. cbn [fst] in V. by apply Forall_app in V as [_ [V _]%Forall_cons]. }
  cbn [map fst]. rewrite Ek. split.
  - constructor; [|done]. intros (m & E & Hm)%list_elem_of_fmap. destruct (N2 m Hm) as (n' & Ho & E' & _). rewrite <- E in E'. subst n'.
    apply Np, list_elem_of_fmap. eexists. by split; [|exact Ho].
  - intros m [-> | Hm]%elem_of_cons; [|by apply N2']. exists n. cbn [fst snd]. split; [by left|done].
Qed.

Lemma edited_once ns l : Forall (λ m, utf8_Valid (name_of m.1) = true) l → NoDup (map (λ m, name_of m.1) l) →
  NoDup (map (λ m, name_of m.1) (edit_members over ns l ++ added over ns (map (λ m, name_of m.1) l))).
Proof.
  intros HV ND. destruct (added_once over ns (map (λ m, name_of m.1) l) (over_once over t0 Hok) (λ _ H, H)) as [N1 N2]. rewrite map_app, members_names by done.
  apply NoDup_app. split; [by apply NoDup_filter|]. split; [|done]. intros n [_ Hn]%list_elem_of_filter (m & -> & Hm)%list_elem_of_fmap. destruct (N2 m Hm) as (n' & _ & <- & H). done.
Qed.

(** ** Rendering prints the edited tree *)

Lemma named_once {A} (l : list (text * A)) m : NoDup (map (λ m, name_of m.1) l) → m ∈ l → snd <$> List.find (λ m', bool_decide (name_of m'.1 = name_of m.1)) l = Some m.2.
Proof.
  induction l as [|m' l IH]; [by intros _ H%elem_of_nil|]. cbn [map]. intros [N ND]%NoDup_cons [-> | Hm]%elem_of_cons; cbn [List.find]; [by rewrite bool_decide_true|].
  rewrite bool_decide_false; [by apply IH|]. intros E. apply N. rewrite E. apply list_elem_of_fmap. eauto.
Qed.

Lemma elements_rendered rend ns es l : ∀ i, all2 (λ e t, rep e t) es l →
  (∀ k e t, es !! k = Some e → l !! k = Some t → ∃ x, rend (Some e) (pointer_of (ns ++ [decimal_name (i + k)])) = Some x ∧ prints (edited (ns ++ [decimal_name (i + k)]) t) x) →
  ∃ xs, mapM (λ e, rend (Some e.2) (Pointer (pointer_of ns) (decimal_name e.1))) (indexed i es) = Some xs ∧ Forall2 prints (edit_elements over ns i l) xs.
Proof.
  revert l. induction es as [|e es IH]; intros [|t l] i HA H; try done; [exists []; split; [done|constructor]|]. destruct HA as [_ HA].
  destruct (H 0%nat e t eq_refl eq_refl) as (x & Ex & Px). rewrite Nat.add_0_r in Ex, Px.
  destruct (IH l (S i) HA) as (xs & E & F). { intros k e' t' He Ht. destruct (H (S k) e' t' He Ht) as (x' & Ex' & Px'). exists x'. by rewrite Nat.add_succ_r in Ex', Px'. }
  exists (x :: xs). cbn [indexed mapM fst snd]. rewrite <- pointer_snoc, Ex. cbn [mbind option_bind]. rewrite E. split; [done|]. unfold edit_elements. cbn [indexed map fst snd]. by constructor.
Qed.

Lemma array_kept ns l n : reach t0 ns = Some (JArray l) → find_over over (ns ++ [n]) ≠ Some None.
Proof.
  intros E Ho. apply (find_over_in over t0 Hok) in Ho. destruct (over_placed over t0 Hok _ Ho) as [ [E1 _]|(ps & m & E1 & _ & H)]; cbn [fst snd] in *; [by destruct ns|].
  apply app_inj_tail in E1 as [<- _]. naive_solver.
Qed.

Lemma render_prints fuel : ∀ j t ns, rep j t → reach t0 ns = Some t → find_over over ns ≠ Some None → (S (length (d_nodes d)) - j < fuel)%nat →
  ∃ x, rendered fuel (Some j) (pointer_of ns) = Some x ∧ prints (edited ns t) x.
Proof.
  induction fuel as [|fuel IH]; intros j t ns R E Hn Hf; [lia|]. cbn [render]. rewrite edit_eq. pose proof (Hfind ns) as H.
  destruct (find_over over ns) as [ [v|]|] eqn:Eo; [destruct H as (c & -> & _ & Hp); eauto|done|]. rewrite H, below_under.
  destruct (represents_valid _ _ _ _ Hvalid R) as (n & Hnode & Hval & Hutf). pose proof (lookup_lt_Some _ _ _ Hnode) as Hlt.
  assert (node_at d j = n) as Hna by (unfold node_at; by rewrite Hnode).
  destruct (under over ns) eqn:Eu; cbn [negb].
  2: { eexists. split; [done|]. cbn [value_raw]. unfold Value_Raw. rewrite Hna. split; [by apply Doc_Val|done]. }
  destruct (under_container over t0 Hok ns t Eu E) as [ [l ->]|[l ->] ]; destruct R as (n' & Hn' & Hk & _ & Hc); rewrite Hnode in Hn'; injection Hn' as <-; cbn [value_kind]; unfold Value_Kind; rewrite Hna, Hk; cbn [kind_of].
  - destruct Hc as [_ HA]. destruct (elements_rendered (rendered fuel) ns (n_elements n) l 0) as (xs & Ex & F).
    + revert HA. apply all2_weaken. tauto.
    + intros k e t' He Ht. cbn [Nat.add]. assert (reach t0 (ns ++ [decimal_name k]) = Some t') as Er by (rewrite reach_app, E; cbn [mbind option_bind]; rewrite reach_step; change k with (0 + k)%nat; rewrite nth_named_at, Ht; done).
      assert ((j < e)%nat ∧ rep e t') as [Hje Re].
      { clear -HA He Ht. revert l k HA He Ht. induction (n_elements n) as [|e0 es IH]; intros [|t1 l] [|k] HA He Ht; try done; destruct HA as [Ha HA]; [by injection He as ->; injection Ht as ->|by apply (IH l k)]. }
      apply IH; [done|done|by eapply array_kept|lia].
    + unfold Elements, Value_Kind. rewrite Hna, Hk. cbn [kind_of]. rewrite Ex. eexists. split; [done|]. by apply array_prints.
  - destruct Hc as [_ HA]. destruct (tree_named over t0 Hok ns l E) as [HV ND].
    destruct (members_written (rendered fuel) ns (n_members n) l) with (seen := @nil text) (pieces := @nil text) as (xs & Ex & F); [|done|].
    + revert HA. apply all2_mono, Forall_forall. intros bt Hbt m (Em & Hjm & Rm). split; [done|]. intros Hrem. apply IH; [done| | |lia].
      * rewrite reach_app, E. cbn [mbind option_bind]. rewrite reach_step, Em, named_once by done. done.
      * unfold removed in Hrem. by destruct (find_over over (ns ++ [m.1])) as [ [v|]|].
    + destruct (added_written (rendered fuel) ns over (over_once over t0 Hok) (λ _ H, H) (map (λ m, name_of m.1) l) (map (λ m : text * json, pointer_of (ns ++ [name_of m.1])) l) xs) as (seen' & ys & Ey & Fy).
      * intros m. split.
        -- intros (b & E1%pointer_inj & Hb)%list_elem_of_fmap. apply app_inj_tail in E1 as [_ ->]. apply list_elem_of_fmap. eauto.
        -- intros (b & -> & Hb)%list_elem_of_fmap. apply list_elem_of_fmap. eauto.
      * intros m v Hv. apply (find_over_in over t0 Hok) in Hv. pose proof (Hfind (ns ++ [m])) as Hc. rewrite Hv in Hc. destruct Hc as (c & Ec & _ & Pc). destruct fuel as [|fuel]; [lia|]. cbn [render]. rewrite Ec. eauto.
      * intros m Hm. destruct (over_placed over t0 Hok _ Hm) as [ [E1 _]|(ps & m' & E1 & Hr & _)]; cbn [fst snd] in *; [by destruct ns|]. destruct (Hr eq_refl) as [x Hx]. rewrite reach_app, E in Hx.
        cbn [mbind option_bind] in Hx. rewrite reach_step in Hx. destruct (snd <$> List.find _ l) as [t'|] eqn:En; [|done]. apply named_in in En as (b & Hb & <- & _). apply list_elem_of_fmap. eauto.
      * unfold write_members, write_added, Members, Value_Kind. rewrite Hna, Hk. cbn [kind_of]. rewrite Ex. cbn [app]. rewrite <- Hpaths in Ey. rewrite Ey. cbn [fmap option_fmap option_map snd]. eexists. split; [done|].
        apply object_prints; [by apply Forall2_app|by apply edited_once].
Qed.
End Render.
