(* ===== verification/OverlayFacts.v ===== *)
(** * Overlays change what they name, and nothing else

    [Apply] on a document the parser returned: what the document it returns holds at every pointer,
    and when it fails. *)

From S2P Require Import Prelude Go Amount Source SourceParser SourceGrammar SourceExact SourceSound SourceValues Utf8.
From S2P Require Import TokenVocab TokenScan TokenMeter TokenPrompt Overlay OverlayGrammar OverlayText OverlayTree TokenEmbeddings.
From Stdlib Require Import Ascii.
Local Open Scope Z_scope.
Local Open Scope olp_scope.

(** ** Documents the parser returned *)

(** A document with the tree it represents, within limits an [int] holds. *)
Record parsed_as (d : document) (t : json) : Prop := mkParsedAs {
  pa_valid : utf8_Valid (d_raw d) = true;
  pa_tree : represents (d_raw d) (d_nodes d) 0 t;
  pa_count : Z.of_nat (count_of t) <= MaxInt64;
  pa_limits : effective (d_limits d) = d_limits d;
  pa_nodes : MaxNodes (d_limits d) <= MaxInt64;
  pa_doc : Doc t (d_raw d);
}.

Lemma effective_twice l : effective (effective l) = effective l.
Proof.
  unfold effective. cbn. assert (∀ a b, 0 < b → (if (if a <=? 0 then b else a) <=? 0 then b else if a <=? 0 then b else a) = if a <=? 0 then b else a) as H.
  { intros a b Hb. destruct (Z.leb_spec a 0) as [?|H]; [by rewrite (proj2 (Z.leb_gt _ _))|by rewrite (proj2 (Z.leb_gt _ _))]. }
  by rewrite !H.
Qed.

Lemma ParseJSON_limits data limits d : ParseJSON data limits = ok d → d_limits d = effective limits.
Proof.
  unfold ParseJSON. destruct (_ >? _); [done|]. destruct (negb _); [done|]. destruct (value _ _ _ _ _ _) as [ [e|[ [i nodes] rest] ]|]; cbn; try done. destruct (space rest); [|done]. by intros [= <-].
Qed.

Lemma effective_nodes l : MaxNodes l <= MaxInt64 → MaxNodes (effective l) <= MaxInt64.
Proof. unfold effective. cbn. intros H. destruct (_ <=? _); [by vm_compute|done]. Qed.

Lemma parse_parsed data limits d : ParseJSON data limits = ok d → MaxNodes limits <= MaxInt64 → ∃ t, parsed_as d t ∧ admissible (effective limits) t data ∧ d_raw d = data.
Proof.
  intros E HM. destruct (ParseJSON_outcome data limits) as (o & Eo & H). rewrite E in Eo. injection Eo as <-. destruct H as (Hr & t & A & R & _). exists t. split; [|done].
  pose proof (ParseJSON_limits _ _ _ E) as El. pose proof (effective_nodes _ HM). destruct A as (_ & V & Hd & _ & HN). split; rewrite ?Hr, ?El; try done; [lia|apply effective_twice].
Qed.

(** ** What the checks say *)

Section Checks.
Context (d : document) (t0 : json) (Hd : parsed_as d t0).

Lemma by_path_in changes p c : by_path changes p = Some c → c ∈ changes ∧ c_Pointer c = p.
Proof. unfold by_path. intros H. apply find_some in H as [Hin E%bool_decide_eq_true]. split; [by apply list_elem_of_In|done]. Qed.

Lemma by_path_none changes p c : by_path changes p = None → c ∈ changes → c_Pointer c ≠ p.
Proof. unfold by_path. intros H Hin%list_elem_of_In E. apply (find_none _ _ H) in Hin. by apply bool_decide_eq_false in Hin. Qed.

Lemma by_path_once changes c : NoDup (c_Pointer <$> changes) → c ∈ changes → by_path changes (c_Pointer c) = Some c.
Proof.
  intros ND Hc. destruct (by_path changes (c_Pointer c)) as [c'|] eqn:E; [|by eapply by_path_none in E]. apply by_path_in in E as [Hin E]. f_equal.
  clear -ND Hc Hin E. induction changes as [|x l IH]; [by apply elem_of_nil in Hc|]. cbn [fmap list_fmap] in ND. apply NoDup_cons in ND as [N ND]. rewrite elem_of_cons in Hc, Hin.
  destruct Hc as [-> | Hc], Hin as [-> | Hin]; [done|..|by apply IH]; exfalso; apply N, list_elem_of_fmap; eauto.
Qed.

Definition value_ok (c : Change) : Prop := c_Remove c = false → ∃ v, prints v (c_Value c).

Lemma parse_prints s l d' : ParseJSON s l = ok d' → ∃ v, prints v s.
Proof. intros E. destruct (ParseJSON_outcome s l) as (o & Eo & H). rewrite E in Eo. injection Eo as <-. destruct H as (_ & v & (_ & V & Hv & _) & _). by exists v. Qed.

Lemma check_changes_ok used seen changes r : check_changes d used seen changes = Some (inr r) → NoDup (c_Pointer <$> seen) →
  r = seen ++ changes ∧ NoDup (c_Pointer <$> r) ∧ ∀ c, c ∈ changes → check_pointer d c = inr tt ∧ value_ok c.
Proof.
  revert used seen. induction changes as [|c changes IH]; intros used seen H ND.
  { injection H as <-. rewrite app_nil_r. split; [done|]. split; [done|]. intros c Hc. by apply elem_of_nil in Hc. }
  cbn [check_changes] in H. destruct (check_change d used seen c) as [ [e|[] ]|] eqn:Ec; try done.
  unfold check_change in Ec. destruct (_ >? _); [done|]. destruct (_ || _); [done|]. destruct (by_path seen (c_Pointer c)) eqn:Eb; [done|]. destruct (check_pointer d c) as [e|[] ] eqn:Ep; [done|].
  destruct (IH _ _ H) as (-> & ND' & Hc).
  { rewrite fmap_app. apply NoDup_app. split; [done|]. split; [|apply NoDup_singleton]. intros p (c' & -> & Hc')%list_elem_of_fmap E%list_elem_of_singleton. by apply (by_path_none _ _ c') in Eb. }
  rewrite <- (assoc_L (++)) in *. split; [done|]. split; [done|]. intros c' [-> | Hc']%elem_of_cons; [|by apply Hc]. split; [done|]. unfold value_ok. intros Er. rewrite Er in Ec.
  destruct (ParseJSON (c_Value c) (d_limits d)) as [ [e|d']|] eqn:E; try done. by eapply parse_prints.
Qed.

(** Where a checked change is in the tree. *)
Lemma check_pointer_ok c : check_pointer d c = inr tt →
  c_Pointer c = [] ∧ c_Remove c = false ∨
  ∃ ns n, c_Pointer c = pointer_of (ns ++ [n]) ∧ (c_Remove c = true → is_Some (reach t0 (ns ++ [n]))) ∧
    ((∃ l, reach t0 ns = Some (JObject l)) ∨ (∃ l, reach t0 ns = Some (JArray l)) ∧ is_Some (reach t0 (ns ++ [n])) ∧ c_Remove c = false).
Proof.
  destruct Hd as [_ R HB _ _ _]. unfold check_pointer. destruct (c_Pointer c) as [|a p'] eqn:Ep; [destruct (c_Remove c); [done|by left] |]. rewrite <- Ep. intros H. right.
  destruct (last_slash (c_Pointer c)) as [i|] eqn:El; [|done]. destruct (last_slash_some _ _ El) as [E1 E2].
  destruct (Document_Lookup d (take i (c_Pointer c))) as [parent|] eqn:Epar; [|done]. destruct (lookup_names _ _ _ Epar) as [ns Ens].
  pose proof (lookup_reach d t0 ns R HB) as Hns. rewrite <- Ens, Epar in Hns. destruct (reach t0 ns) as [tp|] eqn:Er; [|done]. destruct Hns as (i' & [= <-] & Rp).
  assert (Value_Kind d parent = kind_of tp) as Hk.
  { unfold Value_Kind, node_at. destruct tp; destruct Rp as (nd & Hnd & Hk & _); rewrite Hnd; done. }
  rewrite Hk in H.
  assert (∀ b : bool, (if b then @inl overlay_error unit (OverlayError "overlay removal does not exist") else match pointer_unescape (drop (S i) (c_Pointer c)) with None => inl (OverlayError "invalid JSON pointer escape") | Some _ => inr tt end) = inr tt →
    b = false ∧ ∃ n, c_Pointer c = pointer_of (ns ++ [n])) as Hn.
  { intros [|]; [done|]. rewrite pointer_unescape_eq. destruct (unescape _) as [n|] eqn:En; [|done]. intros _. split; [done|]. exists n. apply unescape_esc_inv in En; [|done]. rewrite pointer_snoc. unfold Pointer. fold (esc n). by rewrite <- Ens, <- En. }
  destruct (negb _ && _) eqn:Ea; [done|]. apply Hn in H as [Hrm [n En] ]. exists ns, n. rewrite <- En.
  pose proof (lookup_reach d t0 (ns ++ [n]) R HB) as Hc. rewrite <- En in Hc. split; [done|]. rewrite Er.
  assert ((match Document_Lookup d (c_Pointer c) with Some _ => true | None => false end) = true → is_Some (reach t0 (ns ++ [n]))) as Hex by (intros He; destruct (reach t0 (ns ++ [n])); [done|by rewrite Hc in He]).
  split; [intros Hc1; rewrite Hc1 in Hrm; apply Hex; by apply negb_false_iff|]. destruct tp; cbn [kind_of negb andb] in Ea; try done; [|left; eauto]. right. split; [eauto|].
  cbn [orb] in Ea. apply orb_false_iff in Ea as [Ea1 Ea2]. split; [apply Hex; by apply negb_false_iff|done].
Qed.

(** ** The overlay a list of checked changes is *)

(** A change and the entry it makes. *)
Definition entry (c : Change) (e : list text * option json) : Prop :=
  c_Pointer c = pointer_of e.1 ∧ match e.2 with Some v => c_Remove c = false ∧ prints v (c_Value c) | None => c_Remove c = true end.

Lemma entries changes : (∀ c, c ∈ changes → check_pointer d c = inr tt ∧ value_ok c) → ∃ es, Forall2 entry changes es.
Proof.
  induction changes as [|c changes IH]; intros H; [by exists []|]. destruct IH as [es F]; [intros c' Hc; apply H; by right|]. destruct (H c) as [Hp Hv]; [by left|].
  assert (∃ ns, c_Pointer c = pointer_of ns) as [ns Ens] by (destruct (check_pointer_ok c Hp) as [ [E _]|(ns & n & E & _)]; [by exists []|eauto]).
  destruct (c_Remove c) eqn:Er; [by exists ((ns, None) :: es); constructor|]. destruct (Hv Er) as [v Pv]. by exists ((ns, Some v) :: es); constructor.
Qed.

(** The entries in the order of the sorted pointers, with what they promise. *)
Record made (changes : list Change) (paths : list text) (over : list (list text * option json)) : Prop := mkMade {
  made_over : over_ok over t0;
  made_paths : paths = (λ e, pointer_of e.1) <$> over;
  made_find : ∀ ns,
    match find_over over ns with
    | Some (Some v) => ∃ c, by_path changes (pointer_of ns) = Some c ∧ c_Remove c = false ∧ prints v (c_Value c)
    | Some None => ∃ c, by_path changes (pointer_of ns) = Some c ∧ c_Remove c = true
    | None => by_path changes (pointer_of ns) = None
    end;
  made_change : ∀ c, c ∈ changes → ∃ e, e ∈ over ∧ entry c e;
  made_entry : ∀ e, e ∈ over → ∃ c, c ∈ changes ∧ entry c e;
}.

Lemma esc_valid n : ∀ x, utf8_Valid (x ++ esc n) = true → utf8_Valid (x ++ n) = true.
Proof.
  induction n as [|c n IH]; intros x V; [done|]. rewrite esc_cons in V.
  assert (∀ a b, (a = "~"%char) → code b < 0x80 → utf8_Valid (x ++ [a; b] ++ esc n) = true → utf8_Valid (x ++ c :: n) = true ∨ 0x80 <= code c) as Hp.
  { intros a b -> Hb V'. cbn [app] in V'. apply utf8_cut in V' as [Vx V']; [|done]. rewrite !utf8_ascii_cons in V' by done. specialize (IH [] V'). destruct (Z.lt_ge_cases (code c) 0x80); [left|by right].
    apply utf8_app; [done|]. by rewrite utf8_ascii_cons. }
  destruct (Ascii.eqb_spec c "~") as [-> |]; [by destruct (Hp "~"%char "0"%char eq_refl eq_refl V)|]. destruct (Ascii.eqb_spec c "/") as [-> |]; [by destruct (Hp "~"%char "1"%char eq_refl eq_refl V)|].
  change (x ++ c :: n) with (x ++ [c] ++ n). rewrite (assoc_L (++)). apply IH. by rewrite <- (assoc_L (++)).
Qed.

Lemma pointer_valid ns : utf8_Valid (pointer_of ns) = true → Forall (λ n, utf8_Valid n = true) ns.
Proof.
  induction ns as [|n ns IH] using rev_ind; [by constructor|]. rewrite pointer_snoc. unfold Pointer. fold (esc n). intros V. apply utf8_cut in V as [V1 V2]; [|done].
  apply Forall_app. split; [by apply IH|]. constructor; [|done]. rewrite utf8_ascii_cons in V2 by done. by apply (esc_valid n []).
Qed.

Lemma tree_names ns l : reach t0 ns = Some (JObject l) → Forall (λ m, utf8_Valid (name_of m.1) = true) l ∧ NoDup (map (λ m, name_of m.1) l).
Proof.
  destruct Hd as [V R HB _ _ _]. intros E. pose proof (lookup_reach d t0 ns R HB) as H. rewrite E in H. destruct H as (i & _ & Ri). by eapply represents_names.
Qed.

Lemma make changes : NoDup (c_Pointer <$> changes) → (∀ c, c ∈ changes → check_pointer d c = inr tt ∧ value_ok c) → Forall (λ c, utf8_Valid (c_Pointer c) = true) changes →
  let paths := SortStableFunc compare_text (c_Pointer <$> changes) in overlapping changes paths = false → ∃ over, made changes paths over.
Proof.
  intros ND Hc HV paths Hov. destruct (entries changes Hc) as [es F]. assert (c_Pointer <$> changes = (λ e, pointer_of e.1) <$> es) as Ep by (clear -F; induction F as [|c e l k [H _] _ IH]; cbn; [done|by rewrite IH, H]).
  assert (paths ≡ₚ c_Pointer <$> changes) as Pp by apply SortStableFunc_Permutation. rewrite Ep in Pp. destruct (Permutation_map_inv _ _ Pp) as (over & Eo & Po).
  assert (∀ e, e ∈ over → ∃ c, c ∈ changes ∧ entry c e) as He.
  { intros e Hin. rewrite <- Po in Hin. apply list_elem_of_lookup in Hin as [k Hk]. destruct (Forall2_lookup_r _ _ _ _ _ F Hk) as (c & Hck & Hent). exists c. split; [by eapply list_elem_of_lookup_2|done]. }
  assert (∀ c, c ∈ changes → ∃ e, e ∈ over ∧ entry c e) as Hce.
  { intros c Hin. apply list_elem_of_lookup in Hin as [k Hk]. destruct (Forall2_lookup_l _ _ _ _ _ F Hk) as (e & Hek & Hent). exists e. split; [rewrite <- Po; by eapply list_elem_of_lookup_2|done]. }
  assert (NoDup over.*1) as No.
  { apply (NoDup_fmap_1 pointer_of). rewrite <- list_fmap_compose. unfold compose. change (NoDup (map (λ e : list text * option json, pointer_of e.1) over)). rewrite <- Eo. rewrite Pp, <- Ep. done. }
  assert (over_ok over t0) as Hok.
  { split.
    - done.
    - intros e e' Hin Hin'. apply not_true_iff_false. intros (n & rest & E)%strict_prefix_spec. destruct (He e Hin) as (c & Hcin & [Ec _]).
      unfold overlapping in Hov. apply not_true_iff_false in Hov. apply Hov, existsb_exists. exists (pointer_of e'.1). split; [apply list_elem_of_In; rewrite Eo; apply list_elem_of_fmap; eauto|].
      apply existsb_exists. exists (pointer_of e.1). split; [apply list_elem_of_In; rewrite E; by apply ancestors_above|]. rewrite <- Ec. by rewrite by_path_once.
    - intros e Hin. destruct (He e Hin) as (c & Hcin & [Ec _]). apply pointer_valid. rewrite <- Ec. by eapply Forall_forall in HV.
    - intros e Hin. destruct (He e Hin) as (c & Hcin & [Ec Eo2]). destruct (Hc c Hcin) as [Hp _]. destruct (check_pointer_ok c Hp) as [ [E1 E2]|(ns & n & E1 & E2 & E3)].
      + left. split; [apply pointer_inj; by rewrite <- Ec|]. intros Hn. rewrite Hn in Eo2. congruence.
      + right. exists ns, n. assert (e.1 = ns ++ [n]) as E4 by (apply pointer_inj; by rewrite <- Ec). rewrite E4. split; [done|]. split; [intros Hn; apply E2; by rewrite Hn in Eo2|].
        destruct E3 as [H|(H1 & H2 & H3)]; [by left|right]. split; [done|]. split; [done|]. intros Hn. rewrite Hn in Eo2. congruence.
    - apply tree_names. }
  exists over. split; try done. intros ns. destruct (find_over over ns) as [o|] eqn:Ef.
  - apply (find_over_in over t0 Hok) in Ef. destruct (He _ Ef) as (c & Hcin & [Ec Hent]). cbn [fst snd] in *. pose proof (by_path_once changes c ND Hcin) as Hb. rewrite Ec in Hb. destruct o as [v|]; eauto.
  - destruct (by_path changes (pointer_of ns)) as [c|] eqn:Eb; [|done]. exfalso. apply by_path_in in Eb as [Hcin Ec]. destruct (Hce c Hcin) as ([ns' o] & Hin & [E _]). cbn [fst] in E. rewrite Ec in E. apply pointer_inj in E as <-.
    apply (find_over_in over t0 Hok) in Hin. congruence.
Qed.

(** What an overlay prints is the JSON of the edited tree. *)
Lemma overlay_prints changes paths over : made changes paths over → ∃ out, render d changes paths (render_fuel d) (Some 0%nat) [] = Some out ∧ prints (edit over [] t0) out.
Proof.
  intros [Hok Hp Hf _ _]. destruct Hd as [V R _ _ _]. apply (render_prints d changes paths over t0 Hok Hp Hf V (render_fuel d) 0 t0 []); [done|done| |unfold render_fuel; lia].
  intros E. apply (find_over_in over t0 Hok) in E. destruct (over_placed over t0 Hok _ E) as [ [_ H]|(ns & n & H & _)]; cbn [fst snd] in *; [done|by destruct ns].
Qed.
End Checks.

(** ** Applying *)

(** The tree two trees agree on away from the changes, which hold where they say. *)
Definition overlaid (changes : list Change) (t t' : json) : Prop :=
  (∀ c, c ∈ changes → ∃ ns, c_Pointer c = pointer_of ns ∧
    ∀ q, if c_Remove c then reach t' (ns ++ q) = None else ∃ v, Doc v (c_Value c) ∧ reach t' (ns ++ q) = reach v q) ∧
  (∀ ns, (∀ c p, c ∈ changes → c_Pointer c = pointer_of p → ¬ p `prefix_of` ns ∧ ¬ ns `prefix_of` p) → reach t' ns = reach t ns).

Lemma overlaid_none t : overlaid [] t t.
Proof. split; [|done]. intros c H. by apply elem_of_nil in H. Qed.

Lemma made_overlaid t changes paths over : made t changes paths over → overlaid changes t (edit over [] t).
Proof.
  intros [Hok Hp Hf Hc He]. split.
  - intros c Hin. destruct (Hc c Hin) as ([ns o] & Ho & [Ec Hent]). cbn [fst snd] in *. exists ns. split; [done|]. intros q.
    rewrite (reach_changed over t Hok ns [] t o q) by (done || (intros ->; destruct (over_placed over t Hok _ Ho) as [ [_ H]|(ps & n & H & _)]; cbn [fst snd] in *; [done|by destruct ps])).
    destruct o as [v|]; [|by rewrite Hent]. destruct Hent as [-> [Dv _] ]. eauto.
  - intros ns Haway. apply (reach_kept over t Hok ns [] t); [done| |].
    + intros k Hk. cbn [app]. destruct (find_over over (take k ns)) as [o|] eqn:Ef; [|done]. exfalso. apply (find_over_in over t Hok) in Ef. destruct (He _ Ef) as (c & Hin & [Ec _]).
      destruct (Haway c _ Hin Ec) as [H _]. apply H. cbn [fst]. apply prefix_take.
    + apply not_true_iff_false. cbn [app]. intros (n & rest & o & Ho)%under_spec. destruct (He _ Ho) as (c & Hin & [Ec _]). destruct (Haway c _ Hin Ec) as [_ H]. apply H. cbn [fst]. by exists (n :: rest).
Qed.

(** The parser refuses the value of a change. *)
Definition value_refused (d : document) (changes : list Change) (s : SourceError) : Prop :=
  ∃ c, c ∈ changes ∧ c_Remove c = false ∧ ParseJSON (c_Value c) (d_limits d) = Some (inl s) ∧ ∀ v, ¬ admissible (d_limits d) v (c_Value c).

Definition sorted_paths (changes : list Change) : list text := SortStableFunc compare_text (c_Pointer <$> changes).

(** What [render] writes for an overlay. *)
Definition printed (d : document) (changes : list Change) : option text := render d changes (sorted_paths changes) (render_fuel d) (Some 0%nat) [].

Lemma check_changes_refused d t changes : parsed_as d t → ∀ used seen,
  ∃ o, check_changes d used seen changes = Some o ∧ ∀ s, o = inl (OverlaySource s) → value_refused d changes s.
Proof.
  intros Hd. induction changes as [|c l IH]; intros used seen; [by eexists|]. cbn [check_changes]. unfold check_change at 1.
  destruct (_ >? _); [by eexists|]. destruct (_ || _); [by eexists|]. destruct (by_path seen (c_Pointer c)); [by eexists|].
  assert (∀ used seen, ∃ o, check_changes d used seen l = Some o ∧ ∀ s, o = inl (OverlaySource s) → value_refused d (c :: l) s) as IH'.
  { intros us se. destruct (IH us se) as (o & E & H). exists o. split; [done|]. intros s Es. destruct (H s Es) as (c' & ? & ?). exists c'. split; [by right|done]. }
  destruct (check_pointer d c) as [e|[] ] eqn:Ep.
  { eexists. split; [done|]. intros s [= ->]. exfalso. clear -Ep. unfold check_pointer in Ep. repeat (case_match; try done). }
  destruct (c_Remove c) eqn:Er; [apply IH'|]. destruct (ParseJSON_outcome (c_Value c) (d_limits d)) as ([e|v] & E & H); rewrite E; [|apply IH'].
  eexists. split; [done|]. intros s [= ->]. exists c. split; [by left|]. split; [done|]. split; [done|]. by rewrite <- (pa_limits d t Hd).
Qed.

Lemma apply_cases d t changes : parsed_as d t → changes ≠ [] → Forall (λ c, utf8_Valid (c_Pointer c) = true) changes →
  (∃ e, apply_to d changes = Some (inl e) ∧ ∀ s, e = OverlaySource s → value_refused d changes s) ∨
  ∃ over out, made t changes (sorted_paths changes) over ∧ printed d changes = Some out ∧ prints (edit over [] t) out ∧
    apply_to d changes = match ParseJSON out (d_limits d) with Some (inl e) => Some (inl (OverlaySource e)) | Some (inr d') => Some (inr d') | None => None end.
Proof.
  intros Hd N HV. unfold apply_to. destruct changes as [|c0 cs] eqn:Ech; [done|]. rewrite <- Ech in *. clear N Ech. destruct (_ >? _); [by left; eexists|].
  destruct (check_changes_refused d t changes Hd 0 []) as (o & Eo & Ho). rewrite Eo. destruct o as [e|seen]; [left; exists e; split; [done|]; intros s ->; by apply (Ho s)|].
  destruct (check_changes_ok d _ _ _ _ Eo (NoDup_nil_2)) as (-> & ND & Hc). cbn [app] in *. destruct (overlapping _ _) eqn:Eov; [by left; eexists|]. right.
  destruct (make d t Hd changes ND Hc HV Eov) as [over Hm]. destruct (overlay_prints d t Hd changes _ over Hm) as (out & Er & Hp). exists over, out.
  unfold printed, sorted_paths. rewrite Er. done.
Qed.

Lemma apply_overlaid d t changes d' : parsed_as d t → Forall (λ c, utf8_Valid (c_Pointer c) = true) changes → Apply (Some d) changes = Some (inr d') →
  ∃ t', parsed_as d' t' ∧ d_limits d' = d_limits d ∧ overlaid changes t t'.
Proof.
  intros Hd HV E. cbn [Apply] in E. destruct (decide (changes = [])) as [-> |N].
  { injection E as <-. exists t. split; [done|]. split; [done|apply overlaid_none]. }
  destruct (apply_cases d t changes Hd N HV) as [(e & E' & _)|(over & out & Hm & _ & [Hp _] & E')]; [congruence|]. rewrite E' in E. destruct (ParseJSON out (d_limits d)) as [ [e|d2]|] eqn:Ep; try done. injection E as <-.
  destruct (parse_parsed out (d_limits d) d2 Ep (pa_nodes d t Hd)) as (t' & Hd' & _ & Hraw). exists t'. split; [done|]. split; [by rewrite (ParseJSON_limits _ _ _ Ep), (pa_limits d t Hd)|].
  pose proof (pa_doc d2 t' Hd') as Hdoc. rewrite Hraw in Hdoc. rewrite (Doc_one _ _ _ Hdoc Hp). by eapply made_overlaid.
Qed.

(** C20. An overlay changes what it names and nothing else. When [Apply] returns a document for a
    document the parser returned, each change names one place of the tree: below it the new tree is
    the value of the change, or nothing when it removes, and at every place that is neither below
    nor above a change the new tree is the old one, spelled as it was. Whatever the order of the
    changes, and with the new document the JSON of that one tree. *)
Theorem overlay_applied data limits d changes d' : ParseJSON data limits = ok d → MaxNodes limits <= MaxInt64 →
  Forall (λ c, utf8_Valid (c_Pointer c) = true) changes → Apply (Some d) changes = Some (inr d') →
  ∃ t t', parsed_as d t ∧ parsed_as d' t' ∧ overlaid changes t t'.
Proof.
  intros E HM HV EA. destruct (parse_parsed data limits d E HM) as (t & Hd & _). destruct (apply_overlaid d t changes d' Hd HV EA) as (t' & Hd' & _ & H). eauto.
Qed.

(** A tree whose text is too large for the limits it is parsed within. *)
Definition over_limits (l : Limits) (v : json) (out : text) : Prop :=
  MaxBytes l < Z.of_nat (length out) ∨ MaxDepth l < depth_of v ∨ MaxNodes l < Z.of_nat (count_of v).

Lemma refused_exceeds s l v e : effective l = l → ParseJSON s l = Some (inl e) → prints v s → over_limits l v s.
Proof.
  intros El E [Hd V]. destruct (ParseJSON_outcome s l) as (o & Eo & H). rewrite E in Eo. injection Eo as <-. specialize (H v). rewrite El in H. unfold over_limits.
  destruct (Z.lt_ge_cases (MaxBytes l) (Z.of_nat (length s))) as [|H1]; [by left|right]. destruct (Z.lt_ge_cases (MaxDepth l) (depth_of v)) as [|H2]; [by left|right].
  destruct (Z.lt_ge_cases (MaxNodes l) (Z.of_nat (count_of v))) as [|H3]; [done|]. by destruct H.
Qed.

(** What [render] prints is the JSON of the tree the changes make, and that is too large. *)
Definition result_exceeds (d : document) (changes : list Change) (s : SourceError) : Prop :=
  ∃ t t' out, parsed_as d t ∧ overlaid changes t t' ∧ printed d changes = Some out ∧ prints t' out ∧
    ParseJSON out (d_limits d) = Some (inl s) ∧ over_limits (d_limits d) t' out.

Lemma apply_refused d t changes : parsed_as d t → Forall (λ c, utf8_Valid (c_Pointer c) = true) changes →
  ∃ o, Apply (Some d) changes = Some o ∧ ∀ s, o = inl (OverlaySource s) → value_refused d changes s ∨ result_exceeds d changes s.
Proof.
  intros Hd HV. cbn [Apply]. destruct (decide (changes = [])) as [-> |N]; [by eexists|].
  destruct (apply_cases d t changes Hd N HV) as [(e & -> & He)|(over & out & Hm & Hr & Hp & ->)]; [eexists; split; [done|]; intros s [= ->]; left; by apply He|].
  destruct (ParseJSON_outcome out (d_limits d)) as ([e|d2] & Ep & _); rewrite Ep; [|by eexists]. eexists. split; [done|]. intros s [= ->]. right.
  exists t, (edit over [] t), out. split; [done|]. split; [by eapply made_overlaid|]. split; [done|]. split; [done|]. split; [done|]. eapply refused_exceeds; [by eapply pa_limits|done|done].
Qed.

(** C23. When an overlay fails. [Apply] always returns. When it fails with an error of the parser,
    that is the error of parsing the value of one of the changes, which is not the JSON of any tree
    within the limits; or the error of parsing what [render] printed, and then what it printed is
    the JSON of the tree the changes make, in valid UTF-8, and exceeds the bytes, the depth or the
    number of values the document was parsed within. So it is never refused because the printed
    text is not JSON, names a member twice or holds anything else than the changes say. *)
Theorem overlay_errors data limits d changes : ParseJSON data limits = ok d → MaxNodes limits <= MaxInt64 → Forall (λ c, utf8_Valid (c_Pointer c) = true) changes →
  ∃ o, Apply (Some d) changes = Some o ∧ ∀ s, o = inl (OverlaySource s) → value_refused d changes s ∨ result_exceeds d changes s.
Proof. intros E HM HV. destruct (parse_parsed data limits d E HM) as (t & Hd & _). by apply (apply_refused d t). Qed.

(** ** At work *)

Definition overlay_source : text := json_source "{'model':'m','n':[1,2],'stop':'x'}".

Definition overlay_document : document := match ParseJSON overlay_source (mkLimits 0 0 0) with Some (inr d) => d | _ => mkDocument [] [] (mkLimits 0 0 0) end.

(** A replacement in an array, a member added and one removed. *)
Definition overlay_changes : list Change :=
  [mkChange (txt "/n/1") (json_source "{'k':3}") false ProviderDefault "default";
   mkChange (txt "/user") (json_source "'u'") false IdentityBinding "binding";
   mkChange (txt "/stop") [] true TransportOption "option"].

Definition overlay_printed : text := json_source "{'model':'m','n':[1,{'k':3}],'user':'u'}".

Lemma overlay_applied_witness : ∃ d', Apply (Some overlay_document) overlay_changes = Some (inr d') ∧ d_raw d' = overlay_printed ∧
  ∃ t t', parsed_as overlay_document t ∧ parsed_as d' t' ∧ overlaid overlay_changes t t'.
Proof.
  destruct (Apply (Some overlay_document) overlay_changes) as [ [e|d']|] eqn:E; [exfalso; vm_compute in E; discriminate| |exfalso; vm_compute in E; discriminate].
  exists d'. split; [reflexivity|]. split; [vm_compute in E; injection E as <-; vm_compute; reflexivity|].
  apply (overlay_applied overlay_source (mkLimits 0 0 0) overlay_document overlay_changes d'); [vm_compute; reflexivity|vm_compute; discriminate|repeat constructor|exact E].
Defined.

(** A value that is not JSON, and a result larger than the bytes the document was parsed within. *)
Definition broken_change : list Change := [mkChange (txt "/user") (txt "[1,]") false IdentityBinding "binding"].
Definition large_change : list Change := [mkChange (txt "/user") (json_source "'u'") false IdentityBinding "binding"].
Definition tight_document : document := match ParseJSON overlay_source (mkLimits 40 0 0) with Some (inr d) => d | _ => mkDocument [] [] (mkLimits 0 0 0) end.

Lemma overlay_errors_witness :
  (∃ s, Apply (Some overlay_document) broken_change = Some (inl (OverlaySource s)) ∧ (value_refused overlay_document broken_change s ∨ result_exceeds overlay_document broken_change s)) ∧
  ∃ s, Apply (Some tight_document) large_change = Some (inl (OverlaySource s)) ∧ (value_refused tight_document large_change s ∨ result_exceeds tight_document large_change s).
Proof.
  split.
  - destruct (overlay_errors overlay_source (mkLimits 0 0 0) overlay_document broken_change) as (o & E & H); [vm_compute; reflexivity|vm_compute; discriminate|repeat constructor|].
    destruct o as [ [m|s]|d']; [exfalso; vm_compute in E; discriminate| |exfalso; vm_compute in E; discriminate]. exists s. split; [exact E|]. by apply H.
  - destruct (overlay_errors overlay_source (mkLimits 40 0 0) tight_document large_change) as (o & E & H); [vm_compute; reflexivity|vm_compute; discriminate|repeat constructor|].
    destruct o as [ [m|s]|d']; [exfalso; vm_compute in E; discriminate| |exfalso; vm_compute in E; discriminate]. exists s. split; [exact E|]. by apply H.
Defined.
