(* ===== verification/Envelope.v ===== *)
(** * Request envelopes

    The rest of [internal/oif/envelope.go], and [registry.go] and [blob.go]: a request keeps its
    source beside the document with its overlays and their provenance; [prepareIdentity] lets it
    through to a provider of its own dialect only when a rule of the dialect allows every overlay;
    [PrepareDestination] records any other document with its reason. A [Document] that may be the
    zero value is an option, and so is a [Value]. The copies [clone] and [append] make are the
    values themselves, which nothing changes here, and the adapters a binding carries are left out:
    the registry only hands them on. *)

From S2P Require Import Prelude Go Amount Source SourceParser SourceGrammar SourceExact SourceSound SourceValues.
From S2P Require Import TokenVocab TokenScan TokenMeter TokenPrompt Overlay.
From Stdlib Require Import Ascii.
Local Open Scope Z_scope.
Local Open Scope olp_scope.

(** ** Identities and descriptors *)

Record Identity := mkIdentity { ID : string; Revision : string }.

#[export] Instance Identity_eq_dec : EqDecision Identity.
Proof. solve_decision. Defined.

#[export] Instance Kind_eq_dec : EqDecision Kind.
Proof. solve_decision. Defined.

Record Execution := mkExecution { Delivery : string; Lifetime : string; Submission : string; Effects : list string }.
Record Requirement := mkRequirement { rq_Pointer : string; Obligation : string; Description : string }.
Record Asset := mkAsset { as_ID : string; as_Digest : string; as_MediaType : string; as_Size : Z }.
Record Resource := mkResource { rs_ID : string; rs_Kind : string; Relation : string }.

Record Descriptor := mkDescriptor {
  d_Operation : Identity; d_Dialect : Identity; d_Profile : Identity; d_Client : Identity;
  d_Execution : Execution; d_Requirements : list Requirement; d_Assets : list Asset; d_Resources : list Resource;
}.

(** ** Documents and values that may be zero *)

Notation Document := (option document).

Definition Value : Type := option (document * nat).

Definition vKind (v : Value) : Kind := match v with Some (d, i) => Value_Kind d i | None => Absent end.
Definition vRaw (v : Value) : text := match v with Some (d, i) => Value_Raw d i | None => [] end.
Definition vMembers (v : Value) : list (text * nat) := match v with Some (d, i) => Members d i | None => [] end.
Definition vElements (v : Value) : list nat := match v with Some (d, i) => Elements d i | None => [] end.
Definition vLookup (v : Value) (name : text) : Value := match v with Some (d, i) => pair d <$> Value_Lookup d i name | None => None end.

Definition Valid (d : Document) : bool := match d with Some _ => true | None => false end.
Definition Document_Limits (d : Document) : Limits := match d with Some d => d_limits d | None => effective (mkLimits 0 0 0) end.
Definition Root (d : Document) : Value := match d with Some d => Some (d, O) | None => None end.
Definition DLookup (d : Document) (pointer : text) : Value := match d with Some d => pair d <$> Document_Lookup d pointer | None => None end.

Inductive Presence := Missing | ExplicitNull | Present.

(** [Value.Presence] *)
Definition Value_Presence (v : Value) : Presence := match vKind v with Absent => Missing | Null => ExplicitNull | _ => Present end.

(** ** Requests *)

Record Request := mkRequest { q_descriptor : Descriptor; q_source : Document; q_effective : Document; q_provenance : list Provenance }.

(** What is returned beside an error; [None] when fuel ends. *)
Notation result A := (option (overlay_error + A)).

Definition fails {A} (message : string) : result A := Some (inl (OverlayError message)).

Definition NewRequest (descriptor : Descriptor) (source : Document) : result Request :=
  if negb (Valid source) || bool_decide (ID (d_Operation descriptor) = EmptyString) || bool_decide (ID (d_Dialect descriptor) = EmptyString)
  then fails "request requires source, operation and dialect identities"
  else Some (inr (mkRequest descriptor source source [])).

Definition WithDescriptor (r : Request) (d : Descriptor) : Request := mkRequest d (q_source r) (q_effective r) (q_provenance r).

Definition provenance_of (c : Change) : Provenance := mkProvenance (c_Pointer c) (c_Origin c) (c_Reason c).

Definition WithChanges (r : Request) (changes : list Change) : result Request :=
  match Apply (q_effective r) changes with
  | Some (inr d) => Some (inr (mkRequest (q_descriptor r) (q_source r) (Some d) (q_provenance r ++ (provenance_of <$> changes))))
  | Some (inl e) => Some (inl e)
  | None => None
  end.

(** ** Identity rules *)

(** [strconv.Atoi] *)
Definition strconv_Atoi (s : text) : option Z :=
  let '(negative, digits) := match s with "-"%char :: r => (true, r) | "+"%char :: r => (false, r) | _ => (false, s) end in
  if bool_decide (digits = []) || negb (forallb digit_byte digits) then None
  else
    let n := foldl (λ acc c, 10 * acc + byte_value c) 0 digits in
    if n >? (if negative then MaxInt64 + 1 else MaxInt64) then None else Some (if negative then - n else n).

(** [strings.Join] at slashes. *)
Definition join_path (parts : list text) : text :=
  match parts with [] => [] | p :: ps => p ++ flat_map (λ q, "/"%char :: q) ps end.

(** A segment of a pattern that is a star: the part is the canonical index of an element. *)
Definition index_matches (d : Document) (above : list text) (part : text) : bool :=
  match strconv_Atoi part with
  | None => false
  | Some index =>
      if (index <? 0) || negb (bool_decide (decimal_name (Z.to_nat index) = part)) then false
      else
        match DLookup d (join_path above) with
        | None => false
        | Some _ as parent => bool_decide (vKind parent = Array) && negb (index >=? Z.of_nat (length (vElements parent)))
        end
  end.

(** The loop over the segments, past the parts above. *)
Fixpoint segments_match (d : Document) (above want got : list text) : bool :=
  match want, got with
  | w :: want, g :: got =>
      (if negb (bool_decide (w = ["*"%char])) then bool_decide (w = g) else index_matches d above g) && segments_match d (above ++ [g]) want got
  | _, _ => true
  end.

Definition identityPointerMatches (pattern pointer : text) (d : Document) : bool :=
  if bool_decide (pattern = pointer) && negb (existsb (Ascii.eqb "*") pattern) then true
  else
    let want := split pattern in let got := split pointer in
    if negb (Nat.eqb (length want) (length got)) then false else segments_match d [] want got.

Record IdentityRule := mkRule { u_Pointer : text; u_Origin : string; u_Kind : Kind; u_Validate : option (Value → Value → bool) }.

(** [allowed] *)
Definition allowed (rules : list IdentityRule) (d : Document) (path : text) (origin : string) (before after : Value) : bool :=
  existsb (λ rule, identityPointerMatches (u_Pointer rule) path d && bool_decide (u_Origin rule = origin) && bool_decide (u_Kind rule = vKind after)
    && match u_Validate rule with None => true | Some validate => validate before after end) rules.

(** ** Prepared requests *)

Record Prepared := mkPrepared { p_request : Request; p_destination : Descriptor; p_document : Document; p_provenance : list Provenance; p_identity : bool }.

(** The first loop of [prepareIdentity]: overlays the request already has. *)
Definition provenance_allowed (rules : list IdentityRule) (r : Request) (p : Provenance) : bool :=
  allowed rules (q_effective r) (v_Pointer p) (v_Origin p) (DLookup (q_source r) (v_Pointer p)) (DLookup (q_effective r) (v_Pointer p)).

(** The second: the changes to make. *)
Fixpoint changes_allowed (rules : list IdentityRule) (d : Document) (changes : list Change) : result unit :=
  match changes with
  | [] => Some (inr tt)
  | c :: changes =>
      match ParseJSON (c_Value c) (Document_Limits d) with
      | Some (inr value) =>
          if c_Remove c || negb (allowed rules d (c_Pointer c) (c_Origin c) (DLookup d (c_Pointer c)) (Root (Some value)))
          then fails "overlay is outside the dialect identity contract" else changes_allowed rules d changes
      | Some (inl e) => Some (inl (OverlaySource e))
      | None => None
      end
  end.

Definition prepareIdentity (request : Request) (destination : Descriptor) (changes : list Change) (rules : list IdentityRule) : result Prepared :=
  if negb (bool_decide (d_Operation (q_descriptor request) = d_Operation destination)) || negb (bool_decide (d_Dialect (q_descriptor request) = d_Dialect destination))
  then fails "identity preparation requires identical operation and dialect revisions"
  else if negb (forallb (provenance_allowed rules request) (q_provenance request))
  then fails "request contains an overlay outside the dialect identity contract"
  else match changes_allowed rules (q_effective request) changes with
  | Some (inr _) =>
      match Apply (q_effective request) changes with
      | Some (inr d) => Some (inr (mkPrepared request destination (Some d) (q_provenance request ++ (provenance_of <$> changes)) true))
      | Some (inl e) => Some (inl e)
      | None => None
      end
  | Some (inl e) => Some (inl e)
  | None => None
  end.

(** [oif.PrepareIdentity] *)
Definition PrepareIdentity (request : Request) (destination : Descriptor) (changes : list Change) : result Prepared :=
  prepareIdentity request destination changes [].

Definition PrepareDestination (request : Request) (destination : Descriptor) (d : Document) (origin reason : string) : result Prepared :=
  if negb (Valid d) || bool_decide (origin = EmptyString) || bool_decide (reason = EmptyString)
  then fails "destination requires source and provenance"
  else Some (inr (mkPrepared request destination d (q_provenance request ++ [mkProvenance [] origin reason]) false)).

Definition set_profile (d : Descriptor) (profile : Identity) : Descriptor :=
  mkDescriptor (d_Operation d) (d_Dialect d) profile (d_Client d) (d_Execution d) (d_Requirements d) (d_Assets d) (d_Resources d).

Definition Prepared_WithProfile (p : Prepared) (profile : Identity) : Prepared :=
  mkPrepared (p_request p) (set_profile (p_destination p) profile) (p_document p) (p_provenance p) (p_identity p).

Definition WithProvenance (p : Prepared) (entries : list Provenance) : Prepared :=
  mkPrepared (p_request p) (p_destination p) (p_document p) (p_provenance p ++ entries) (p_identity p).

(** ** Results and events *)

Definition Complete : string := "complete".
Definition Incomplete : string := "incomplete".
Definition Failed : string := "failed".
Definition Pending : string := "pending".

Record Result := mkResult { s_descriptor : Descriptor; s_source : Document; s_outcome : string }.

Definition NewResult (d : Descriptor) (source : Document) (outcome : string) : result Result :=
  if negb (Valid source) then fails "result requires source" else Some (inr (mkResult d source outcome)).

Definition Result_WithProfile (r : Result) (profile : Identity) : Result := mkResult (set_profile (s_descriptor r) profile) (s_source r) (s_outcome r).

Record Framing := mkFraming { f_ID : string; HasID : bool; RetryMillis : Z; HasRetry : bool }.

Record Event := mkEvent { e_descriptor : Descriptor; e_source : Document; e_name : string; e_control : string; e_sequence : Z; e_framing : Framing }.

Definition no_framing : Framing := mkFraming EmptyString false 0 false.

Definition WithFraming (e : Event) (f : Framing) : Event := mkEvent (e_descriptor e) (e_source e) (e_name e) (e_control e) (e_sequence e) f.

Definition NewEvent (d : Descriptor) (source : Document) (name : string) (sequence : Z) : result Event :=
  if negb (Valid source) then fails "event requires source" else Some (inr (mkEvent d source name EmptyString sequence no_framing)).

Definition ControlEvent (d : Descriptor) (name control : string) (sequence : Z) : Event := mkEvent d None name control sequence no_framing.

Definition Event_WithProfile (e : Event) (profile : Identity) : Event :=
  mkEvent (set_profile (e_descriptor e) profile) (e_source e) (e_name e) (e_control e) (e_sequence e) (e_framing e).

(** ** Blobs *)

Record BlobReference := mkBlobReference { b_id : string; b_digest : text; b_mediaType : string; b_size : Z }.

(** [hex.DecodeString]: the number of bytes, unless the digits are not pairs. *)
Fixpoint hex_length (s : text) : option nat :=
  match s with
  | [] => Some O
  | a :: b :: s => match hex_digit a, hex_digit b with Some _, Some _ => S <$> hex_length s | _, _ => None end
  | _ => None
  end.

Definition NewBlobReference (id : string) (digest : text) (mediaType : string) (size : Z) : result BlobReference :=
  if bool_decide (id = EmptyString) || bool_decide (mediaType = EmptyString) || (size <? 0) || negb (bool_decide (hex_length digest = Some 32%nat))
  then fails "blob reference requires identity, SHA-256, media type and nonnegative size"
  else Some (inr (mkBlobReference id digest mediaType size)).

Definition Blob_Valid (b : BlobReference) : bool := negb (bool_decide (b_id b = EmptyString)).

Record BlobRequest := mkBlobRequest { bq_descriptor : Descriptor; bq_source : BlobReference }.

Definition NewBlobRequest (d : Descriptor) (source : BlobReference) : result BlobRequest :=
  if negb (Blob_Valid source) || bool_decide (ID (d_Operation d) = EmptyString) || bool_decide (ID (d_Dialect d) = EmptyString)
  then fails "blob request requires source and operation/dialect identities" else Some (inr (mkBlobRequest d source)).

Record BlobResult := mkBlobResult { bs_descriptor : Descriptor; bs_source : BlobReference; bs_outcome : string }.

Definition NewBlobResult (d : Descriptor) (source : BlobReference) (outcome : string) : result BlobResult :=
  if negb (Blob_Valid source) then fails "blob result requires source" else Some (inr (mkBlobResult d source outcome)).

(** ** The registry *)

Record Binding := mkBinding { b_Dialect : Identity; b_Operation : Identity; b_IdentityRules : list IdentityRule }.

(** The maps of a registry hold an entry for a key once. *)
Record Registry := mkRegistry { g_operations : list Identity; g_bindings : list Binding }.

Definition find_binding (bindings : list Binding) (dialect operation : Identity) : option Binding :=
  List.find (λ b, bool_decide (b_Dialect b = dialect) && bool_decide (b_Operation b = operation)) bindings.

Definition register_operation (operations : list Identity) (op : Identity) : overlay_error + list Identity :=
  if bool_decide (ID op = EmptyString) || bool_decide (Revision op = EmptyString) then inl (OverlayError "operation identity requires a revision")
  else if bool_decide (op ∈ operations) then inl (OverlayError "duplicate operation registration")
  else inr (operations ++ [op]).

Fixpoint register_operations (operations ops : list Identity) : overlay_error + list Identity :=
  match ops with
  | [] => inr operations
  | op :: ops => match register_operation operations op with inr operations => register_operations operations ops | inl e => inl e end
  end.

Definition identity_origins : list string := [IdentityBinding; ResourceBinding; TransportOption].

Definition register_binding (operations : list Identity) (bindings : list Binding) (b : Binding) : overlay_error + list Binding :=
  if bool_decide (ID (b_Dialect b) = EmptyString) || bool_decide (Revision (b_Dialect b) = EmptyString) then inl (OverlayError "dialect identity requires a revision")
  else if negb (bool_decide (b_Operation b ∈ operations)) then inl (OverlayError "unregistered operation")
  else match find_binding bindings (b_Dialect b) (b_Operation b) with
  | Some _ => inl (OverlayError "duplicate dialect/operation binding")
  | None =>
      if negb (forallb (λ rule, bool_decide (u_Origin rule ∈ identity_origins)) (b_IdentityRules b))
      then inl (OverlayError "identity rule cannot authorize semantic transformation")
      else inr (bindings ++ [b])
  end.

Fixpoint register_bindings (operations : list Identity) (bindings bs : list Binding) : overlay_error + list Binding :=
  match bs with
  | [] => inr bindings
  | b :: bs => match register_binding operations bindings b with inr bindings => register_bindings operations bindings bs | inl e => inl e end
  end.

Definition NewRegistry (operations : list Identity) (bindings : list Binding) : overlay_error + Registry :=
  match register_operations [] operations with
  | inl e => inl e
  | inr ops => match register_bindings ops [] bindings with inl e => inl e | inr bs => inr (mkRegistry ops bs) end
  end.

(** [Registry.Binding] *)
Definition Registry_Binding (r : Registry) (dialect operation : Identity) : overlay_error + Binding :=
  match find_binding (g_bindings r) dialect operation with Some b => inr b | None => inl (OverlayError "unregistered dialect/operation contract") end.

Definition bound {A} (r : Registry) (d : Descriptor) (f : Binding → result A) : result A :=
  match Registry_Binding r (d_Dialect d) (d_Operation d) with inr b => f b | inl e => Some (inl e) end.

Definition Registry_PrepareIdentity (r : Registry) (request : Request) (destination : Descriptor) (changes : list Change) : result Prepared :=
  bound r destination (λ b, prepareIdentity request destination changes (b_IdentityRules b)).

Definition Registry_Request (r : Registry) (d : Descriptor) (source : Document) : result Request := bound r d (λ _, NewRequest d source).
Definition Registry_Result (r : Registry) (d : Descriptor) (source : Document) (outcome : string) : result Result := bound r d (λ _, NewResult d source outcome).
Definition Registry_Event (r : Registry) (d : Descriptor) (source : Document) (name : string) (sequence : Z) : result Event := bound r d (λ _, NewEvent d source name sequence).
