(* ===== verification/Dialects.v ===== *)
(** * Dialects and their identity contracts

    [internal/protocols/wire/descriptor.go], the part of [wire/request.go] that changes a request,
    and [internal/protocols/oif.go]: which dialect and operation a family of requests is, the
    registry of contracts with the rules of each dialect, and [PrepareIdentity], which binds the
    published model and asks for usage in a stream. *)

From S2P Require Import Prelude Go Amount TokenWalk Source SourceParser SourceGrammar SourceExact SourceSound SourceValues.
From S2P Require Import TokenVocab TokenScan TokenMeter TokenPrompt Overlay Envelope TokenEmbeddings.
From Stdlib Require Import Ascii.
Local Open Scope Z_scope.
Local Open Scope olp_scope.

(** ** Families *)

Definition Anthropic : string := "anthropic".
Definition AnthropicCount : string := "anthropic_count".
Definition Gemini : string := "gemini".
Definition GeminiStream : string := "gemini_stream".
Definition GeminiCount : string := "gemini_count".
Definition GeminiEmbeddings : string := "gemini_embeddings".
Definition GeminiEmbeddingsBatch : string := "gemini_embeddings_batch".
Definition VertexEmbeddings : string := "vertex_embeddings".
Definition BedrockEmbeddings : string := "bedrock_embeddings".
Definition Rerank : string := "rerank".
Definition BedrockRerank : string := "bedrock_rerank".
Definition Bedrock : string := "bedrock".
Definition bedrock_count : string := "bedrock_count".

Definition wireDialects : list (string * string) :=
  [(Completions, "openai-completions"); (Chat, "openai-chat"); (Responses, "openai-responses"); (InputTokens, "openai-input-tokens");
   (Anthropic, "anthropic-messages"); (AnthropicCount, "anthropic-count-tokens");
   (Gemini, "gemini-generate-content"); (GeminiStream, "gemini-generate-content"); (GeminiCount, "gemini-count-tokens");
   (Embeddings, "openai-embeddings"); (Moderation, "openai-moderation"); (Rerank, "rerank"); (BedrockRerank, "bedrock-rerank");
   (GeminiEmbeddings, "gemini-embeddings"); (GeminiEmbeddingsBatch, "gemini-embeddings-batch");
   (VertexEmbeddings, "vertex-embeddings"); (BedrockEmbeddings, "bedrock-embeddings");
   (Bedrock, "bedrock-converse"); (bedrock_count, "bedrock-count-tokens");
   (MistralFIM, "mistral-fim"); (CohereChat, "cohere-chat-v2")]%string.

Definition Dialect (family : string) : string :=
  match List.find (λ e, bool_decide (e.1 = family)) wireDialects with Some e => e.2 | None => family end.

(** [wire.Descriptor] *)
Definition wire_Descriptor (family : string) (stream : bool) : Descriptor :=
  let delivery := if stream then "incremental"%string else "unary"%string in
  let operation := if bool_decide (family = bedrock_count) then "token_count"%string else Operation family in
  mkDescriptor (mkIdentity operation "1") (mkIdentity (Dialect family) "wire-v1") (mkIdentity "transformed" "1") (mkIdentity EmptyString EmptyString)
    (mkExecution delivery "request" "immediate" ["inference"%string]) [] [] [].

(** ** The contracts *)

Definition families : list string :=
  [Completions; Chat; Responses; Anthropic; Gemini; Bedrock; InputTokens; AnthropicCount; GeminiCount; bedrock_count; Embeddings; GeminiEmbeddings;
   GeminiEmbeddingsBatch; VertexEmbeddings; BedrockEmbeddings; Rerank; BedrockRerank; Moderation; MistralFIM; CohereChat].

Definition field (v : Value) (name : string) : Value := vLookup v (txt name).

(** The usage option is added where there are no options, and is all of them. *)
Definition usage_options (before after : Value) : bool :=
  (bool_decide (vKind before = Absent) || bool_decide (vKind before = Null)) && Nat.eqb (length (vMembers after)) 1
    && bool_decide (vRaw (field after "include_usage") = txt "true").

Definition usage_true (_ after : Value) : bool := bool_decide (vRaw after = txt "true").

Definition resource_pointers : list string :=
  ["/previous_response_id"; "/conversation"; "/conversation/id"; "/input/*/file_id"; "/input/*/content/*/file_id"; "/input/*/output/file_id";
   "/input/*/output/*/file_id"; "/tools/*/vector_store_ids/*"]%string.

Definition is_family (family : string) (fs : list string) : bool := bool_decide (family ∈ fs).

Definition is_gemini (family : string) : bool := bool_decide (Surface family = "gemini"%string).

(** The rules of a family. *)
Definition contract_rules (family : string) : list IdentityRule :=
  (if negb (is_gemini family) && negb (is_family family [Bedrock; bedrock_count; BedrockRerank]) then [mkRule (txt "/model") IdentityBinding KString None] else [])
  ++ (if is_family family [GeminiCount] then [mkRule (txt "/generateContentRequest/model") IdentityBinding KString None] else [])
  ++ (if is_family family [Chat; Completions] then
        [mkRule (txt "/stream_options") TransportOption Object (Some usage_options);
         mkRule (txt "/stream_options/include_usage") TransportOption Boolean (Some usage_true)] else [])
  ++ (if is_family family [Responses] then map (λ pointer, mkRule (txt pointer) ResourceBinding KString None) resource_pointers else [])
  ++ (if is_family family [Gemini] then [mkRule (txt "/cachedContent") ResourceBinding KString None] else []).

Definition contract_binding (family : string) : Binding :=
  let d := wire_Descriptor family false in mkBinding (d_Dialect d) (d_Operation d) (contract_rules family).

Definition contract_operations : list Identity :=
  fold_left (λ ops family, let op := d_Operation (wire_Descriptor family false) in if bool_decide (op ∈ ops) then ops else ops ++ [op]) families [].

(** [buildContracts], which panics where this is an error. *)
Definition buildContracts : overlay_error + Registry := NewRegistry contract_operations (contract_binding <$> families).

(** [contracts] *)
Definition contracts : Registry := match buildContracts with inr r => r | inl _ => mkRegistry [] [] end.

(** ** Requests of a family *)

Record wire_request := mkWire { w_Family : string; w_Route : string; w_Stream : bool; w_source : Request }.

Definition on_source (r : wire_request) (s : result Request) : result wire_request :=
  match s with
  | Some (inr s) => Some (inr (mkWire (w_Family r) (w_Route r) (w_Stream r) s))
  | Some (inl e) => Some (inl e)
  | None => None
  end.

(** [wire.NewRequest] *)
Definition wire_NewRequest (format route : string) (stream : bool) (doc : Document) : result wire_request :=
  match NewRequest (wire_Descriptor format stream) doc with
  | Some (inr s) => Some (inr (mkWire format route stream s))
  | Some (inl e) => Some (inl e)
  | None => None
  end.

Definition WithField (r : wire_request) (name value : text) : result wire_request :=
  on_source r (WithChanges (w_source r) [mkChange (Pointer [] name) value false ResourceBinding "gateway resource reference"]).

(** Every change becomes a resource binding. *)
Definition WithResourceBindings (r : wire_request) (changes : list Change) : result wire_request :=
  on_source r (WithChanges (w_source r) ((λ c, mkChange (c_Pointer c) (c_Value c) (c_Remove c) ResourceBinding (c_Reason c)) <$> changes)).

(** ** Preparing under identity *)

Definition binds_model (family : string) : bool := negb (is_gemini family) && negb (is_family family [Bedrock; bedrock_count]).

Definition model_change (pointer : string) (model : text) : Change := mkChange (txt pointer) (marshal_string model) false IdentityBinding "published route model binding".

Definition usage_change (d : Document) : Change :=
  let '(path, value) :=
    match vKind (DLookup d (txt "/stream_options")) with
    | Object => (txt "/stream_options/include_usage", txt "true")
    | _ => (txt "/stream_options", json_source "{'include_usage':true}")
    end in
  mkChange path value false TransportOption "observe native usage for shared accounting".

Definition identity_changes (r : wire_request) (model : text) : list Change :=
  let d := q_effective (w_source r) in
  (if binds_model (w_Family r) then [model_change "/model" model] else [])
  ++ (if is_family (w_Family r) [GeminiCount] && bool_decide (vKind (DLookup d (txt "/generateContentRequest")) = Object)
      then [model_change "/generateContentRequest/model" (txt "models/" ++ trim_prefix model (txt "models/"))] else [])
  ++ (if w_Stream r && is_family (w_Family r) [Chat; Completions] then [usage_change d] else []).

(** [protocols.PrepareIdentity] *)
Definition protocols_PrepareIdentity (r : wire_request) (model : text) : result Prepared :=
  let d := q_descriptor (w_source r) in
  bound contracts d (λ _, Registry_PrepareIdentity contracts (w_source r) d (identity_changes r model)).
