(* ===== verification/IdentityFacts.v ===== *)
(** * What identity preparation lets through

    A request that [Registry.PrepareIdentity] prepares reaches its provider as its caller wrote it,
    apart from the places the rules of its dialect name: for any sequence of overlays the request
    was given before, and whatever the rules. Then, for the contracts the gateway registers, that
    preparing a fresh request does what it is for: it binds the published model, asks for usage
    where a stream reports it, and keeps the rest. *)

From S2P Require Import Prelude Go Amount TokenWalk Source SourceParser SourceGrammar SourceExact SourceSound SourceValues Utf8.
From S2P Require Import TokenVocab TokenScan TokenMeter TokenPrompt Overlay OverlayGrammar OverlayText OverlayTree OverlayFacts TokenEmbeddings Envelope Dialects.
From Stdlib Require Import Ascii.
Local Open Scope Z_scope.
Local Open Scope olp_scope.

Notation named_validly := (λ c, utf8_Valid (c_Pointer c) = true).

(** ** How a request is made *)

(** The requests made from a document, with the overlays they were given. *)
Inductive made_from (d : document) : list Change → Request → Prop :=
  | from_new desc r : NewRequest desc (Some d) = Some (inr r) → made_from d [] r
  | from_changes cs r changes r' : made_from d cs r → WithChanges r changes = Some (inr r') → made_from d (cs ++ changes) r'
  | from_descriptor cs r desc : made_from d cs r → made_from d cs (WithDescriptor r desc).

(** ** Agreement away from changes *)

Definition comparable (p ns : list text) : Prop := p `prefix_of` ns ∨ ns `prefix_of` p.

#[export] Instance comparable_dec p ns : Decision (comparable p ns).
Proof. unfold comparable. apply _. Defined.

(** Each change points somewhere, and two trees agree wherever that is no part of. *)
Definition agree (cs : list Change) (t t' : json) : Prop :=
  ∃ ps, Forall2 (λ c p, c_Pointer c = pointer_of p) cs ps ∧ ∀ ns, (∀ p, p ∈ ps → ¬ comparable p ns) → reach t' ns = reach t ns.

Lemma agree_none t : agree [] t t.
Proof. exists []. split; [constructor|done]. Qed.

Lemma agree_app cs cs' t t' t'' : agree cs t t' → agree cs' t' t'' → agree (cs ++ cs') t t''.
Proof.
  intros (ps & F & H) (ps' & F' & H'). exists (ps ++ ps'). split; [by apply Forall2_app|]. intros ns N.
  rewrite H', H; [done|..]; intros p Hp; apply N, elem_of_app; auto.
Qed.

Lemma overlaid_agree cs t t' : overlaid cs t t' → agree cs t t'.
Proof.
  intros [Hc Ha]. assert (∃ ps, Forall2 (λ c p, c_Pointer c = pointer_of p) cs ps) as [ps F].
  { clear Ha. induction cs as [|c cs IH]; [by exists []|]. destruct IH as [ps F]; [intros; apply Hc; by right|]. destruct (Hc c) as (p & E & _); [by left|]. exists (p :: ps). by constructor. }
  exists ps. split; [done|]. intros ns N. apply Ha. intros c p Hin E. destruct (proj1 (list_elem_of_lookup _ _) Hin) as [k Hk]. destruct (Forall2_lookup_l _ _ _ _ _ F Hk) as (p' & Hp & E').
  rewrite E in E'. apply pointer_inj in E' as <-. apply list_elem_of_lookup_2, N in Hp. unfold comparable in Hp. tauto.
Qed.

(** Either two trees agree at a place or a change is above or below it. *)
Lemma agree_or cs t t' ns : agree cs t t' → reach t' ns = reach t ns ∨ ∃ c p, c ∈ cs ∧ c_Pointer c = pointer_of p ∧ comparable p ns.
Proof.
  intros (ps & F & H). destruct (decide (Exists (λ p, comparable p ns) ps)) as [E|N].
  - right. apply list.Exists_exists in E as (p & Hp & Hc). apply list_elem_of_lookup in Hp as [k Hk]. destruct (Forall2_lookup_r _ _ _ _ _ F Hk) as (c & Hck & E). exists c, p. split; [by eapply list_elem_of_lookup_2|done].
  - left. apply H. intros p Hp Hc. apply N, list.Exists_exists. eauto.
Qed.

(** What a request made from a document is. *)
Lemma made_request d t cs r : parsed_as d t → made_from d cs r → Forall named_validly cs →
  q_source r = Some d ∧ q_provenance r = provenance_of <$> cs ∧ ∃ d' t', q_effective r = Some d' ∧ parsed_as d' t' ∧ d_limits d' = d_limits d ∧ agree cs t t'.
Proof.
  intros Hd. induction 1 as [desc r E|cs r changes r' _ IH E|cs r desc _ IH]; intros V.
  - unfold NewRequest in E. destruct (_ || _); [done|]. injection E as <-. split; [done|]. split; [done|]. exists d, t. split; [done|]. split; [done|]. split; [done|apply agree_none].
  - apply Forall_app in V as [V1 V2]. destruct (IH V1) as (Hs & Hp & d1 & t1 & He & Hd1 & Hl & Ha). unfold WithChanges in E. rewrite He in E.
    destruct (Apply (Some d1) changes) as [ [e|d2]|] eqn:EA; try done. injection E as <-. destruct (apply_overlaid d1 t1 changes d2 Hd1 V2 EA) as (t2 & Hd2 & Hl2 & Ho).
    cbn [q_source q_provenance q_effective]. split; [done|]. split; [by rewrite fmap_app, Hp|]. exists d2, t2. split; [done|]. split; [done|]. split; [congruence|]. eapply agree_app; [done|]. by apply overlaid_agree.
  - destruct (IH V) as (? & ? & ?). done.
Qed.

(** ** What a rule covers *)

(** A segment of a rule names a part, or is a star for the index of an element. *)
Definition segment_covers (w n : text) : Prop := w = esc n ∨ w = ["*"%char] ∧ ∃ k, n = decimal_name k.

Definition rule_covers (rule : IdentityRule) (ns : list text) : Prop := ∃ ws, split (u_Pointer rule) = [] :: ws ∧ Forall2 segment_covers ws ns.

Lemma esc_digits n : existsb (Ascii.eqb "/") n = false → existsb (Ascii.eqb "~") n = false → esc n = n.
Proof.
  induction n as [|c n IH]; [done|]. cbn [existsb]. rewrite !orb_false_iff, !Ascii.eqb_neq. intros [Hs Sn] [Ht Tn]. rewrite esc_cons, IH by done.
  destruct (Ascii.eqb_spec c "~"); [congruence|]. destruct (Ascii.eqb_spec c "/"); [congruence|done].
Qed.

Lemma esc_decimal k : esc (decimal_name k) = decimal_name k.
Proof.
  destruct (decimal_name_canonical k) as [C _]. unfold canonical in C. destruct (decimal_name k) as [|c r] eqn:E; [done|]. rewrite <- E in *. clear E. apply andb_true_iff in C as [_ D]. rewrite forallb_forall in D.
  apply esc_digits; apply not_true_iff_false; intros (x & Hin & <-%Ascii.eqb_eq)%existsb_exists; by apply D in Hin.
Qed.

Lemma index_matches_decimal d above n : index_matches d above (esc n) = true → ∃ k, n = decimal_name k.
Proof.
  unfold index_matches. destruct (strconv_Atoi _) as [z|]; [|done]. destruct (_ <? _); [done|]. cbn [orb]. case_bool_decide as E; [|done]. intros _. exists (Z.to_nat z). apply esc_inj. by rewrite esc_decimal.
Qed.

Lemma segments_cover d : ∀ ns above ws, length ws = length ns → segments_match d above ws (map esc ns) = true → Forall2 segment_covers ws ns.
Proof.
  induction ns as [|n ns IH]; intros above [|w ws] L H; [constructor|done|done|]. cbn [map segments_match] in H. apply andb_true_iff in H as [Hw H]. constructor; [|by eapply IH; [|done]; injection L].
  destruct (bool_decide (w = _)) eqn:E; cbn [negb] in Hw; [apply bool_decide_eq_true in E; right; split; [done|]; by eapply index_matches_decimal|left; by apply bool_decide_eq_true in Hw].
Qed.

Lemma matches_cover rule ps d : identityPointerMatches (u_Pointer rule) (pointer_of ps) d = true → rule_covers rule ps.
Proof.
  unfold identityPointerMatches, rule_covers. case_bool_decide as E; cbn [andb]; [destruct (existsb _ _); cbn [negb] |].
  2:{ intros _. rewrite E, split_names. exists (map esc ps). split; [done|]. clear E. induction ps; constructor; [by left|done]. }
  all: clear E; rewrite split_names; destruct (Nat.eqb_spec (length (split (u_Pointer rule))) (length ([] :: map esc ps))) as [L|]; [|done]; cbn [negb]; intros H.
  all: destruct (split (u_Pointer rule)) as [|w ws]; [done|]; cbn [segments_match] in H; apply andb_true_iff in H as [Hw H]; cbn [length] in L; rewrite length_map in L.
  all: assert (w = []) as -> by (case_bool_decide; cbn [negb] in Hw; [done|by apply bool_decide_eq_true in Hw]).
  all: exists ws; split; [done|]; eapply segments_cover; [by injection L|done].
Qed.

Lemma allowed_rule rules d p origin before after : allowed rules d (pointer_of p) origin before after = true →
  ∃ rule, rule ∈ rules ∧ rule_covers rule p ∧ u_Origin rule = origin ∧ u_Kind rule = vKind after.
Proof.
  unfold allowed. intros (rule & Hin & [ [ [Hm Ho%bool_decide_eq_true]%andb_true_iff Hk%bool_decide_eq_true]%andb_true_iff _]%andb_true_iff)%existsb_exists.
  exists rule. split; [by apply list_elem_of_In|]. split; [by eapply matches_cover|done].
Qed.

(** ** What preparing says *)

Lemma changes_allowed_all rules d changes : changes_allowed rules d changes = Some (inr tt) → ∀ c, c ∈ changes →
  c_Remove c = false ∧ ∃ value, ParseJSON (c_Value c) (Document_Limits d) = ok value ∧ allowed rules d (c_Pointer c) (c_Origin c) (DLookup d (c_Pointer c)) (Root (Some value)) = true.
Proof.
  induction changes as [|c cs IH]; intros H c'; [by intros ?%elem_of_nil|]. cbn [changes_allowed] in H. destruct (ParseJSON (c_Value c) (Document_Limits d)) as [ [e|v]|] eqn:E; try done.
  destruct (c_Remove c) eqn:Er; [done|]. destruct (allowed _ _ _ _ _ _) eqn:Ea; [|done]. intros [-> | Hin]%elem_of_cons; [|by apply IH]. split; [done|]. by exists v.
Qed.

Record prepares (request : Request) (destination : Descriptor) (changes : list Change) (rules : list IdentityRule) (p : Prepared) : Prop := mkPrepares {
  pr_operation : d_Operation (q_descriptor request) = d_Operation destination;
  pr_dialect : d_Dialect (q_descriptor request) = d_Dialect destination;
  pr_before : ∀ v, v ∈ q_provenance request → provenance_allowed rules request v = true;
  pr_after : changes_allowed rules (q_effective request) changes = Some (inr tt);
  pr_apply : ∃ d, Apply (q_effective request) changes = Some (inr d) ∧ p_document p = Some d;
  pr_provenance : p_provenance p = q_provenance request ++ (provenance_of <$> changes);
  pr_identity : p_identity p = true;
}.

Lemma prepareIdentity_prepares request destination changes rules p : prepareIdentity request destination changes rules = Some (inr p) → prepares request destination changes rules p.
Proof.
  unfold prepareIdentity. intros H. destruct (bool_decide (d_Operation _ = _)) eqn:E1; [|done]. destruct (bool_decide (d_Dialect _ = _)) eqn:E2; [|done]. cbn [negb orb] in H. apply bool_decide_eq_true in E1, E2.
  destruct (forallb _ _) eqn:E3; [|done]. cbn [negb] in H. destruct (changes_allowed _ _ _) as [ [e|[] ]|] eqn:E4; try done. destruct (Apply _ _) as [ [e|d]|] eqn:E5; try done. injection H as <-.
  split; try done; [|eauto]. intros v Hv. rewrite forallb_forall in E3. by apply E3, list_elem_of_In.
Qed.

(** ** Registries *)

Lemma registered_rules ops bs bindings bs' : register_bindings ops bs bindings = inr bs' → (∀ b, b ∈ bs → ∀ rule, rule ∈ b_IdentityRules b → u_Origin rule ∈ identity_origins) →
  ∀ b, b ∈ bs' → ∀ rule, rule ∈ b_IdentityRules b → u_Origin rule ∈ identity_origins.
Proof.
  revert bs. induction bindings as [|b bindings IH]; intros bs H Hb; [by injection H as <-|]. cbn [register_bindings] in H. destruct (register_binding ops bs b) as [e|bs2] eqn:E; [done|]. apply (IH _ H).
  unfold register_binding in E. destruct (_ || _); [done|]. destruct (negb _); [done|]. destruct (find_binding _ _ _); [done|]. destruct (forallb _ _) eqn:Ef; [|done]. injection E as <-.
  intros b' [Hin|Hin]%elem_of_app; [by apply Hb|]. apply list_elem_of_singleton in Hin as ->. intros rule Hr. rewrite forallb_forall in Ef. apply list_elem_of_In, Ef in Hr. by apply bool_decide_eq_true in Hr.
Qed.

Lemma registry_rules ops bindings reg b dialect operation : NewRegistry ops bindings = inr reg → Registry_Binding reg dialect operation = inr b →
  ∀ rule, rule ∈ b_IdentityRules b → u_Origin rule ∈ identity_origins.
Proof.
  unfold NewRegistry, Registry_Binding. destruct (register_operations [] ops) as [e|ops']; [done|]. destruct (register_bindings ops' [] bindings) as [e|bs] eqn:E; [done|]. intros [= <-]. cbn [g_bindings].
  destruct (find_binding bs dialect operation) as [b'|] eqn:Ef; [|done]. intros [= <-]. apply find_some in Ef as [Hin _]. eapply registered_rules; [done|intros ? ?%elem_of_nil; done|by apply list_elem_of_In].
Qed.

(** C21. Identity preparation keeps what the caller wrote. Let a registry prepare under identity a
    request made from a document the parser returned by any sequence of overlays, with more changes
    of its own. Then the provider is of the dialect and the operation of the request, the
    provenance lists every overlay, and at every place of the tree the document sent holds what the
    source held, spelled as it was, unless a rule of that dialect covers a place above or below,
    part for part, with a star for an index only; and a rule has one of the three origins that
    change no meaning. *)
Theorem identity_keeps_source ops bindings reg data limits d cs r destination changes p :
  NewRegistry ops bindings = inr reg → ParseJSON data limits = ok d → MaxNodes limits <= MaxInt64 → made_from d cs r → Forall named_validly (cs ++ changes) →
  Registry_PrepareIdentity reg r destination changes = Some (inr p) →
  d_Operation (q_descriptor r) = d_Operation destination ∧ d_Dialect (q_descriptor r) = d_Dialect destination ∧ p_provenance p = provenance_of <$> (cs ++ changes) ∧
  ∃ b d' t t', Registry_Binding reg (d_Dialect destination) (d_Operation destination) = inr b ∧ parsed_as d t ∧ p_document p = Some d' ∧ parsed_as d' t' ∧
    ∀ ns, reach t' ns = reach t ns ∨ ∃ rule ps, rule ∈ b_IdentityRules b ∧ rule_covers rule ps ∧ comparable ps ns ∧ u_Origin rule ∈ identity_origins.
Proof.
  intros ER EP HM Hmade [V1 V2]%Forall_app H. unfold Registry_PrepareIdentity, bound in H. destruct (Registry_Binding reg _ _) as [e|b] eqn:Eb; [done|].
  apply prepareIdentity_prepares in H as [Ho Hdi Hbefore Hafter (d' & EA & Hdoc) Hprov _]. destruct (parse_parsed data limits d EP HM) as (t & Hd & _).
  destruct (made_request d t cs r Hd Hmade V1) as (Hs & Hp & d1 & t1 & He & Hd1 & _ & Ha). rewrite He in EA. destruct (apply_overlaid d1 t1 changes d' Hd1 V2 EA) as (t' & Hd' & _ & Hov).
  split; [done|]. split; [done|]. split; [by rewrite Hprov, Hp, fmap_app|]. exists b, d', t, t'. repeat (split; [done|]). intros ns.
  destruct (agree_or _ _ _ ns (agree_app _ _ _ _ _ Ha (overlaid_agree _ _ _ Hov))) as [E|(c & ps & Hc & Ec & Hcmp)]; [by left|right].
  assert (∃ before after, allowed (b_IdentityRules b) (q_effective r) (c_Pointer c) (c_Origin c) before after = true) as (before & after & Hall).
  { apply elem_of_app in Hc as [Hc|Hc]; [|destruct (changes_allowed_all _ _ _ Hafter c Hc) as (_ & v & _ & Hall); eauto].
    assert (provenance_of c ∈ q_provenance r) as Hv by (rewrite Hp; apply list_elem_of_fmap; eauto). apply Hbefore in Hv. unfold provenance_allowed in Hv. cbn [v_Pointer v_Origin provenance_of] in Hv. eauto. }
  rewrite Ec in Hall. apply allowed_rule in Hall as (rule & Hin & Hcov & _ & _). exists rule, ps. split; [done|]. split; [done|]. split; [done|]. by eapply registry_rules.
Qed.

(** ** At work *)

Definition sample_dialect : Identity := mkIdentity "openai-responses" "wire-v1".
Definition sample_operation : Identity := mkIdentity "generation" "1".

Definition sample_binding : Binding := mkBinding sample_dialect sample_operation
  [mkRule (txt "/model") IdentityBinding KString None; mkRule (txt "/tools/*/id") ResourceBinding KString None].

Definition sample_descriptor : Descriptor := mkDescriptor sample_operation sample_dialect (mkIdentity "transformed" "1") (mkIdentity EmptyString EmptyString)
  (mkExecution "unary" "request" "immediate" []) [] [] [].

Definition sample_source : text := json_source "{'model':'m','tools':[{'id':'a'},{'id':'b'}],'n':1.50}".
Definition sample_document : document := match ParseJSON sample_source (mkLimits 0 0 0) with Some (inr d) => d | _ => mkDocument [] [] (mkLimits 0 0 0) end.
Definition sample_resource : list Change := [mkChange (txt "/tools/1/id") (json_source "'x'") false ResourceBinding "gateway resource reference"].
Definition sample_model : list Change := [mkChange (txt "/model") (json_source "'upstream'") false IdentityBinding "published route model binding"].

Definition sample_made : result Request :=
  match NewRequest sample_descriptor (Some sample_document) with Some (inr r) => WithChanges r sample_resource | o => o end.

Lemma identity_keeps_source_witness : ∃ reg r p, NewRegistry [sample_operation] [sample_binding] = inr reg ∧ sample_made = Some (inr r) ∧
  Registry_PrepareIdentity reg r sample_descriptor sample_model = Some (inr p) ∧
  (d_raw <$> p_document p) = Some (json_source "{'model':'upstream','tools':[{'id':'a'},{'id':'x'}],'n':1.50}") ∧
  p_provenance p = provenance_of <$> (sample_resource ++ sample_model) ∧
  ∃ b d' t t', Registry_Binding reg sample_dialect sample_operation = inr b ∧ parsed_as sample_document t ∧ p_document p = Some d' ∧ parsed_as d' t' ∧
    ∀ ns, reach t' ns = reach t ns ∨ ∃ rule ps, rule ∈ b_IdentityRules b ∧ rule_covers rule ps ∧ comparable ps ns ∧ u_Origin rule ∈ identity_origins.
Proof.
  destruct (NewRegistry [sample_operation] [sample_binding]) as [e|reg] eqn:ER; [exfalso; vm_compute in ER; discriminate|].
  destruct (NewRequest sample_descriptor (Some sample_document)) as [ [e|r0]|] eqn:E0; [exfalso; vm_compute in E0; discriminate| |exfalso; vm_compute in E0; discriminate].
  destruct (WithChanges r0 sample_resource) as [ [e|r]|] eqn:E1; [exfalso; vm_compute in E0; injection E0 as <-; vm_compute in E1; discriminate| |exfalso; vm_compute in E0; injection E0 as <-; vm_compute in E1; discriminate].
  assert (sample_made = Some (inr r)) as Em by (unfold sample_made; rewrite E0; exact E1).
  destruct (Registry_PrepareIdentity reg r sample_descriptor sample_model) as [ [e|p]|] eqn:Ep;
    [exfalso; vm_compute in Em, ER; injection ER as <-; injection Em as <-; vm_compute in Ep; discriminate| |exfalso; vm_compute in Em, ER; injection ER as <-; injection Em as <-; vm_compute in Ep; discriminate].
  destruct (identity_keeps_source [sample_operation] [sample_binding] reg sample_source (mkLimits 0 0 0) sample_document ([] ++ sample_resource) r sample_descriptor sample_model p ER) as (_ & _ & Hp & H);
    [vm_compute; reflexivity|vm_compute; discriminate|eapply from_changes; [eapply from_new; exact E0|exact E1]|repeat constructor|exact Ep|].
  exists reg, r, p. split; [reflexivity|]. split; [exact Em|]. split; [exact Ep|]. split; [|split; [exact Hp|exact H] ].
  vm_compute in Em, ER. injection ER as <-. injection Em as <-. vm_compute in Ep. injection Ep as <-. vm_compute. reflexivity.
Defined.

(** ** Contracts *)

Lemma contracts_built : buildContracts = inr contracts.
Proof. vm_compute. reflexivity. Qed.

Lemma contract_found family stream : family ∈ families →
  Registry_Binding contracts (d_Dialect (wire_Descriptor family stream)) (d_Operation (wire_Descriptor family stream)) = inr (contract_binding family).
Proof.
  intros H. apply (proj1 (Forall_forall (λ f, Registry_Binding contracts (d_Dialect (wire_Descriptor f stream)) (d_Operation (wire_Descriptor f stream)) = inr (contract_binding f)) families)); [|done].
  clear H. repeat constructor.
Qed.

(** ** Values a change writes *)

Lemma marshal_prints s : utf8_Valid s = true → prints (JString (key s)) (marshal_string s).
Proof.
  intros V. destruct (key_spells s V) as (C & Vk & _). split; [apply Doc_Val; by constructor|]. unfold marshal_string, SourceGrammar.quoted. rewrite utf8_ascii_cons by done. by apply utf8_app.
Qed.

Definition usage_tree : json := JObject [(txt "include_usage", JBool true)].

Lemma usage_prints : prints usage_tree (json_source "{'include_usage':true}").
Proof.
  change (json_source "{'include_usage':true}") with ("{"%char :: join [json_source "'include_usage':true"] ++ ["}"%char]). apply object_prints; [|apply NoDup_singleton].
  constructor; [|constructor]. exists (txt "true"). split; [reflexivity|]. split; [split; [apply Doc_Val; constructor|reflexivity]|].
  assert (spells (txt "include_usage") (txt "include_usage")) as H by exact (key_spells (txt "include_usage") eq_refl). cbn [fst snd]. by rewrite (spells_name _ _ H).
Qed.

Lemma true_prints : prints (JBool true) (txt "true").
Proof. split; [apply Doc_Val; constructor|reflexivity]. Qed.

(** A parsed value is the tree it prints. *)
Lemma parsed_value s l value v : ParseJSON s l = ok value → prints v s → ∃ t, t = v ∧ represents s (d_nodes value) 0 t ∧ d_raw value = s.
Proof.
  intros E [Hv _]. destruct (ParseJSON_outcome s l) as (o & Eo & H). rewrite E in Eo. injection Eo as <-. destruct H as (Hr & t & (_ & _ & Hd & _) & R & _). exists t. split; [by eapply Doc_one|done].
Qed.

Lemma represents_kind d i t : represents (d_raw d) (d_nodes d) i t → Value_Kind d i = kind_of t.
Proof. unfold Value_Kind, node_at. intros R. destruct t; destruct R as (n & Hn & Hk & _); rewrite Hn; done. Qed.

Lemma value_vkind s l value v : ParseJSON s l = ok value → prints v s → vKind (Root (Some value)) = kind_of v.
Proof. intros E P. destruct (parsed_value s l value v E P) as (t & -> & R & Hr). rewrite <- Hr in R. by apply represents_kind. Qed.

Lemma usage_options_true l value before : ParseJSON (json_source "{'include_usage':true}") l = ok value → vKind before = Absent ∨ vKind before = Null →
  usage_options before (Root (Some value)) = true.
Proof.
  intros E Hb. destruct (parsed_value _ l value _ E usage_prints) as (t & -> & R & Hr). rewrite <- Hr in R. pose proof (represents_kind _ _ _ R) as Hk.
  destruct R as (n & Hn & _ & _ & _ & H). unfold usage_options. replace (_ || _) with true by (symmetry; apply orb_true_iff; rewrite !bool_decide_eq_true; tauto). cbn [andb].
  destruct (n_members n) as [|[nm k] [|] ] eqn:En; try done; cbn [all2] in H; [|by destruct H as (_ & ?)]. destruct H as [ (Hnm & _ & Rk) _]. cbn [fst snd] in *.
  assert (nm = txt "include_usage") as -> by (rewrite Hnm; reflexivity).
  unfold Root, field, vMembers, vLookup, Members, Value_Lookup. rewrite Hk. cbn [kind_of usage_tree]. unfold node_at. rewrite Hn. cbn [default from_option id]. rewrite En. cbn [length Nat.eqb andb].
  unfold find_member. cbn [List.find fst snd]. rewrite (bool_decide_true (txt "include_usage" = txt "include_usage")) by done. cbn [fmap option_fmap option_map]. unfold vRaw, Value_Raw, node_at. destruct Rk as (nk & Hnk & _ & Hv & _). cbn [snd]. rewrite Hnk. cbn [default from_option id].
  apply bool_decide_eq_true. by inversion Hv.
Qed.

Lemma usage_true_true l value before : ParseJSON (txt "true") l = ok value → usage_true before (Root (Some value)) = true.
Proof.
  intros E. destruct (parsed_value _ l value _ E true_prints) as (t & -> & R & Hr). unfold usage_true, Root, vRaw, Value_Raw, node_at. destruct R as (n & Hn & _ & Hv & _). rewrite Hn, Hr. cbn [default from_option id].
  apply bool_decide_eq_true. by inversion Hv.
Qed.

(** ** The checks of an overlay whose places are sound *)

Definition value_bytes (cs : list Change) : Z := foldr (λ c n, size_of (c_Value c) + n) 0 cs.

(** Values too large: all of them together for the bytes left, or one for the parser, whose error
    this is though the value is the JSON of a tree. *)
Definition values_exceed (d : document) (used : Z) (cs : list Change) (e : overlay_error) : Prop :=
  match e with
  | OverlayError m => m = "overlay exceeds byte limit"%string ∧ MaxBytes (d_limits d) < used + value_bytes cs
  | OverlaySource s => ∃ c v, c ∈ cs ∧ prints v (c_Value c) ∧ ParseJSON (c_Value c) (d_limits d) = Some (inl s) ∧ over_limits (d_limits d) v (c_Value c)
  end.

(** An error that says that the changes, their values or the document they make are too large, and
    is right. *)
Definition limit_error (d : document) (cs : list Change) (e : overlay_error) : Prop :=
  values_exceed d 0 cs e ∨
  (e = OverlayError "overlay exceeds node limit" ∧ MaxNodes (d_limits d) < Z.of_nat (length cs)) ∨
  ∃ s, e = OverlaySource s ∧ result_exceeds d cs s.

(** A change that no check but those of size refuses. *)
Record sound_change (d : document) (c : Change) : Prop := mkSound {
  so_placed : check_pointer d c = inr tt;
  so_kept : c_Remove c = false;
  so_valued : ∃ v, prints v (c_Value c);
  so_given : c_Origin c ≠ EmptyString ∧ c_Reason c ≠ EmptyString;
  so_valid : utf8_Valid (c_Pointer c) = true;
}.

Lemma value_bytes_nonneg cs : 0 <= value_bytes cs.
Proof. induction cs as [|c cs IH]; cbn [value_bytes foldr]; [lia|]. fold (value_bytes cs). unfold size_of. lia. Qed.

Lemma checks_sound d cs : effective (d_limits d) = d_limits d → Forall (sound_change d) cs → ∀ used seen, NoDup (c_Pointer <$> (seen ++ cs)) →
  check_changes d used seen cs = Some (inr (seen ++ cs)) ∨ ∃ e, check_changes d used seen cs = Some (inl e) ∧ values_exceed d used cs e.
Proof.
  intros El F. induction F as [|c cs [Hp Hr [v Hv] [Ho Hre] _] F IH]; intros used seen ND; [left; by rewrite app_nil_r|].
  cbn [check_changes]. unfold check_change at 1 2. destruct (Z.gtb_spec (size_of (c_Value c)) (MaxBytes (d_limits d) - used)) as [Hs|_].
  { right. eexists. split; [done|]. split; [done|]. cbn [value_bytes foldr]. fold (value_bytes cs). pose proof (value_bytes_nonneg cs). lia. }
  rewrite !bool_decide_false by done. cbn [orb].
  assert (by_path seen (c_Pointer c) = None) as ->.
  { destruct (by_path seen (c_Pointer c)) as [c'|] eqn:E; [|done]. exfalso. apply by_path_in in E as [Hin E]. rewrite fmap_app in ND. apply NoDup_app in ND as (_ & N & _).
    apply (N (c_Pointer c)); [apply list_elem_of_fmap; eauto|by left]. }
  rewrite Hp, Hr. destruct (ParseJSON_outcome (c_Value c) (d_limits d)) as ([e|value] & E & _); rewrite E.
  - right. eexists. split; [done|]. exists c, v. split; [by left|]. split; [done|]. split; [done|]. by eapply refused_exceeds.
  - destruct (IH (used + size_of (c_Value c)) (seen ++ [c])) as [H|(e & H & He)]; rewrite <- ?(assoc_L (++)) in *; [done|by left|].
    right. exists e. split; [done|]. destruct e as [m|s]; cbn [values_exceed value_bytes foldr] in *; [fold (value_bytes cs) in *; destruct He as [-> He]; split; [done|]; lia|].
    destruct He as (c' & v' & Hc' & H'). exists c', v'. split; [by right|done].
Qed.

Lemma apply_sound d t cs : parsed_as d t → Forall (sound_change d) cs → NoDup (c_Pointer <$> cs) → overlapping cs (sorted_paths cs) = false →
  ∃ o, Apply (Some d) cs = Some o ∧ ∀ e, o = inl e → limit_error d cs e.
Proof.
  intros Hd F ND Hov. pose proof (pa_limits d t Hd) as El.
  assert (Forall named_validly cs) as V by (eapply Forall_impl; [exact F|by intros c []]).
  destruct (apply_refused d t cs Hd V) as (o & E & Hs). exists o. split; [done|]. intros e ->. destruct e as [m|s].
  - cbn [Apply] in E. unfold apply_to in E. destruct cs as [|c0 cs0] eqn:Ec; [done|]. rewrite <- Ec in *. clear Ec.
    destruct (Z.gtb_spec (Z.of_nat (length cs)) (MaxNodes (d_limits d))) as [Hn|_]; [injection E as <-; right; left; split; [done|lia]|].
    destruct (checks_sound d cs El F 0 [] ND) as [H|(e2 & H & Hl)]; rewrite H in E; [|injection E as ->; by left]. cbn [app] in E. unfold sorted_paths in Hov. rewrite Hov in E.
    destruct (render _ _ _ _ _ _) as [out|]; [|done]. destruct (ParseJSON out (d_limits d)) as [ [s|d2]|]; done.
  - destruct (Hs s eq_refl) as [(c & Hin & _ & Ep & _)|H]; [left|right; right; eauto]. pose proof (proj1 (Forall_forall _ _) F c Hin) as [_ _ [v Hv] _ _].
    exists c, v. split; [done|]. split; [done|]. split; [done|]. by eapply refused_exceeds.
Qed.

(** Changes that no rule refuses are let through, or their values are too large. *)
Lemma allowed_sound rules d cs : effective (d_limits d) = d_limits d →
  Forall (λ c, c_Remove c = false ∧ ∃ v, prints v (c_Value c) ∧ ∀ value, ParseJSON (c_Value c) (d_limits d) = ok value →
    allowed rules (Some d) (c_Pointer c) (c_Origin c) (DLookup (Some d) (c_Pointer c)) (Root (Some value)) = true) cs →
  changes_allowed rules (Some d) cs = Some (inr tt) ∨ ∃ s, changes_allowed rules (Some d) cs = Some (inl (OverlaySource s)) ∧ values_exceed d 0 cs (OverlaySource s).
Proof.
  intros El. induction 1 as [|c cs (Hr & v & Hv & Ha) F IH]; [by left|]. cbn [changes_allowed Document_Limits]. destruct (ParseJSON_outcome (c_Value c) (d_limits d)) as ([e|value] & E & _); rewrite E.
  - right. eexists. split; [done|]. exists c, v. split; [by left|]. split; [done|]. split; [done|]. by eapply refused_exceeds.
  - rewrite Hr, (Ha value E). cbn [orb negb]. destruct IH as [IH|(s & IH & c' & v' & Hc' & H')]; [by left|]. right. exists s. split; [done|]. exists c', v'. split; [by right|done].
Qed.

(** ** The changes identity preparation makes *)

Definition model_place : list text := [txt "model"].
Definition nested_place : list text := [txt "generateContentRequest"; txt "model"].
Definition options_place : list text := [txt "stream_options"].
Definition usage_place : list text := [txt "stream_options"; txt "include_usage"].

Definition is_object (t : option json) : bool := match t with Some (JObject _) => true | _ => false end.

(** Where the gateway writes in a request of a family: below an object of options, or the options
    where there are none. *)
Definition bound_places (family : string) (stream : bool) (t : json) : list (list text) :=
  (if binds_model family then [model_place] else [])
  ++ (if is_family family [GeminiCount] && is_object (reach t [txt "generateContentRequest"]) then [nested_place] else [])
  ++ (if stream && is_family family [Chat; Completions] then [if is_object (reach t options_place) then usage_place else options_place] else []).

Definition nested_model (model : text) : text := txt "models/" ++ trim_prefix model (txt "models/").

Lemma nested_valid model : utf8_Valid model = true → utf8_Valid (nested_model model) = true.
Proof.
  intros V. unfold nested_model, trim_prefix, starts_with. case_bool_decide as E; [|by apply utf8_app]. destruct E as [rest ->]. rewrite drop_app_length. apply utf8_app; [done|].
  change (txt "models/" ++ rest) with (txt "models" ++ "/"%char :: rest) in V. apply utf8_cut in V as [_ V]; [|done]. by rewrite utf8_ascii_cons in V.
Qed.

Section Fresh.
Context (d : document) (t : json) (Hd : parsed_as d t).

Lemma lookup_kind ns : vKind (DLookup (Some d) (pointer_of ns)) = match reach t ns with Some x => kind_of x | None => Absent end.
Proof.
  pose proof (lookup_reach d t ns (pa_tree d t Hd) (pa_count d t Hd)) as H. unfold DLookup. destruct (reach t ns) as [x|]; [|by rewrite H]. destruct H as (i & -> & R). by apply represents_kind.
Qed.

Lemma is_object_kind ns : bool_decide (vKind (DLookup (Some d) (pointer_of ns)) = Object) = is_object (reach t ns).
Proof. rewrite lookup_kind. destruct (reach t ns) as [ []|]; done. Qed.

Lemma placed c ns n : c_Pointer c = pointer_of (ns ++ [n]) → c_Remove c = false → is_object (reach t ns) = true → check_pointer d c = inr tt.
Proof.
  intros Ep Er Ho. unfold check_pointer. rewrite Ep, Er. clear Ep. destruct (pointer_of (ns ++ [n])) as [|a p] eqn:E; [rewrite pointer_snoc in E; unfold Pointer in E; by destruct (pointer_of ns)|]. rewrite <- E. clear a p E. rewrite pointer_last, pointer_parent. pose proof (is_object_kind ns) as Hk. rewrite Ho in Hk. unfold DLookup in Hk. apply bool_decide_eq_true in Hk.
  destruct (Document_Lookup d (pointer_of ns)) as [i|]; [|done]. cbn [fmap option_fmap option_map vKind] in Hk. rewrite Hk. cbn [negb andb].
  assert (drop (S (length (pointer_of ns))) (pointer_of (ns ++ [n])) = esc n) as ->.
  { rewrite pointer_snoc. unfold Pointer. fold (esc n). change (pointer_of ns ++ "/"%char :: esc n) with (pointer_of ns ++ ["/"%char] ++ esc n). rewrite (assoc_L (++)). replace (S (length (pointer_of ns))) with (length (pointer_of ns ++ ["/"%char])) by (rewrite length_app; cbn; lia). apply drop_app_length. }
  by rewrite pointer_unescape_eq, unescape_esc.
Qed.

Lemma allowed_by rules rule p origin before after : rule ∈ rules → u_Pointer rule = p → existsb (Ascii.eqb "*") p = false → u_Origin rule = origin → u_Kind rule = vKind after →
  match u_Validate rule with None => true | Some validate => validate before after end = true → allowed rules (Some d) p origin before after = true.
Proof.
  intros Hin Hp Hs Ho Hk Hv. unfold allowed. apply existsb_exists. exists rule. split; [by apply list_elem_of_In|]. unfold identityPointerMatches. by rewrite Hp, Hs, Ho, Hk, Hv, !bool_decide_true.
Qed.

Context (family : string) (stream : bool) (model : text) (route : string).
Context (Hroot : is_object (Some t) = true) (Hmodel : utf8_Valid model = true) (Hrerank : family ≠ BedrockRerank).

(** What a stream's options are when usage is to be asked for. *)
Definition options_ready : Prop :=
  stream && is_family family [Chat; Completions] = true → vKind (DLookup (Some d) (pointer_of options_place)) ∈ [Absent; Null; Object].

Definition fresh : wire_request := mkWire family route stream (mkRequest (wire_Descriptor family stream) (Some d) (Some d) []).

Definition sound_allowed (c : Change) : Prop :=
  sound_change d c ∧ c_Remove c = false ∧ ∃ v, prints v (c_Value c) ∧ ∀ value, ParseJSON (c_Value c) (d_limits d) = ok value →
    allowed (contract_rules family) (Some d) (c_Pointer c) (c_Origin c) (DLookup (Some d) (c_Pointer c)) (Root (Some value)) = true.

Lemma model_sound pointer ns n s : txt pointer = pointer_of (ns ++ [n]) → is_object (reach t ns) = true → utf8_Valid s = true → utf8_Valid (txt pointer) = true → existsb (Ascii.eqb "*") (txt pointer) = false →
  mkRule (txt pointer) IdentityBinding KString None ∈ contract_rules family → sound_allowed (model_change pointer s).
Proof.
  intros Ep Ho Hs Vp Hstar Hrule. pose proof (marshal_prints s Hs) as Hv. split; [split; try done; [by eapply placed|eauto]|]. split; [done|]. exists (JString (key s)). split; [done|].
  intros value E. eapply allowed_by; try done. symmetry. by apply (value_vkind _ _ _ _ E Hv).
Qed.

Lemma usage_sound : options_ready → stream && is_family family [Chat; Completions] = true → sound_allowed (usage_change (Some d)).
Proof.
  intros Hr Hs. pose proof (Hr Hs) as Ho. clear Hr. apply andb_true_iff in Hs as [_ Hf]. unfold usage_change. change (txt "/stream_options") with (pointer_of options_place).
  assert (∀ rule, rule ∈ [mkRule (txt "/stream_options") TransportOption Object (Some usage_options); mkRule (txt "/stream_options/include_usage") TransportOption Boolean (Some usage_true)] → rule ∈ contract_rules family) as Hin.
  { intros rule H. unfold contract_rules. rewrite Hf, !elem_of_app. auto. }
  destruct (vKind (DLookup (Some d) (pointer_of options_place))) eqn:Ek; try (exfalso; set_solver +Ho).
  1,2: split; [split; try done; [by apply (placed _ [] (txt "stream_options"))|exists usage_tree; apply usage_prints]|]; split; [done|]; exists usage_tree; (split; [apply usage_prints|]);
    intros value E; eapply allowed_by; [apply Hin; by left|done..| |]; [symmetry; by apply (value_vkind _ _ _ _ E usage_prints)|]; cbn [u_Validate c_Pointer]; apply (usage_options_true _ _ _ E); auto.
  split; [split; try done; [|exists (JBool true); apply true_prints]|].
  - apply (placed _ options_place (txt "include_usage")); [done|done|]. by rewrite <- is_object_kind, Ek.
  - split; [done|]. exists (JBool true). split; [apply true_prints|]. intros value E. eapply allowed_by; [apply Hin; by right; left|done..| |]; [symmetry; by apply (value_vkind _ _ _ _ E true_prints)|]. cbn [u_Validate]. by apply usage_true_true with (d_limits d).
Qed.

Lemma changes_sound : options_ready → Forall sound_allowed (identity_changes fresh model).
Proof.
  intros Hr. unfold identity_changes. cbn [w_source q_effective w_Family w_Stream fresh]. apply Forall_app. split; [|apply Forall_app; split].
  - destruct (binds_model family) eqn:E; [|done]. constructor; [|done]. apply (model_sound _ [] (txt "model")); try done. unfold contract_rules. apply elem_of_app. left.
    unfold binds_model in E. apply andb_true_iff in E as [-> E]. unfold is_family in *. rewrite bool_decide_false; [by left|]. apply negb_true_iff, bool_decide_eq_false in E. set_solver.
  - change (txt "/generateContentRequest") with (pointer_of [txt "generateContentRequest"]). rewrite is_object_kind. destruct (is_family family [GeminiCount]) eqn:E; [|done]. destruct (is_object (reach t _)) eqn:Eo; [|done]. cbn [andb].
    constructor; [|done]. apply (model_sound _ [txt "generateContentRequest"] (txt "model")); try done; [by apply nested_valid|]. unfold contract_rules. rewrite E, !elem_of_app. right. left. by left.
  - destruct (_ && _) eqn:E; [|done]. constructor; [|done]. by apply usage_sound.
Qed.
End Fresh.

Lemma changes_apart r model : let cs := identity_changes r model in
  NoDup (c_Pointer <$> cs) ∧ overlapping cs (sorted_paths cs) = false.
Proof.
  cbv zeta. unfold identity_changes, usage_change. generalize (marshal_string model) as a, (marshal_string (txt "models/" ++ trim_prefix model (txt "models/"))) as b. unfold model_change.
  destruct (binds_model _), (is_family (w_Family r) [GeminiCount] && _), (w_Stream r && _), (vKind (DLookup (q_effective (w_source r)) (txt "/stream_options"))); cbn [app]; (split; [apply (bool_decide_unpack _); vm_compute; exact I|vm_compute; reflexivity]).
Qed.

Lemma changes_places d t family stream model route c : parsed_as d t → c ∈ identity_changes (fresh d family stream route) model →
  ∃ p, p ∈ bound_places family stream t ∧ c_Pointer c = pointer_of p.
Proof.
  intros Hd. unfold identity_changes, bound_places. cbn [w_source q_effective w_Family w_Stream fresh]. change (txt "/generateContentRequest") with (pointer_of [txt "generateContentRequest"]). rewrite (is_object_kind d t Hd).
  rewrite !elem_of_app. intros [H|[H|H] ].
  - destruct (binds_model family); [|by apply elem_of_nil in H]. apply list_elem_of_singleton in H as ->. exists model_place. split; [left; by left|done].
  - destruct (_ && _); [|by apply elem_of_nil in H]. apply list_elem_of_singleton in H as ->. exists nested_place. split; [|done]. rewrite !elem_of_app. right; left; by left.
  - destruct (stream && _); [|by apply elem_of_nil in H]. apply list_elem_of_singleton in H as ->. unfold usage_change. change (txt "/stream_options") with (pointer_of options_place).
    pose proof (is_object_kind d t Hd options_place) as Hk. exists (if is_object (reach t options_place) then usage_place else options_place). rewrite <- Hk.
    split; [rewrite !elem_of_app; right; right; by left|]. by destruct (vKind _).
Qed.

(** What an overlay holds where a change points. *)
Lemma overlaid_holds cs t t' c ns q v : overlaid cs t t' → c ∈ cs → c_Pointer c = pointer_of ns → c_Remove c = false → prints v (c_Value c) → reach t' (ns ++ q) = reach v q.
Proof.
  intros [H _] Hin Ep Er [Hv _]. destruct (H c Hin) as (ns' & E & Hq). rewrite Ep in E. apply pointer_inj in E as <-. specialize (Hq q). rewrite Er in Hq. destruct Hq as (v' & Hv' & ->). by rewrite (Doc_one _ _ _ Hv' Hv).
Qed.

(** A string spelling a text. *)
Definition reads_text (t : json) (ns : list text) (s : text) : Prop := ∃ b, reach t ns = Some (JString b) ∧ name_of b = s.

Lemma model_read cs t t' pointer ns s : overlaid cs t t' → model_change pointer s ∈ cs → txt pointer = pointer_of ns → utf8_Valid s = true → reads_text t' ns s.
Proof.
  intros Ho Hin Ep V. exists (key s). split; [|by apply spells_name, key_spells]. rewrite <- (app_nil_r ns). rewrite (overlaid_holds cs t t' _ ns [] (JString (key s)) Ho Hin); try done. by apply marshal_prints.
Qed.

(** What preparing a fresh request promises of the tree it sends. *)
Record identity_bound (family : string) (stream : bool) (model : text) (t t' : json) : Prop := mkBound {
  bd_model : binds_model family = true → reads_text t' model_place model;
  bd_nested : family = GeminiCount → is_object (reach t [txt "generateContentRequest"]) = true → reads_text t' nested_place (nested_model model);
  bd_usage : stream && is_family family [Chat; Completions] = true → reach t' usage_place = Some (JBool true);
  bd_rest : ∀ ns, (∀ p, p ∈ bound_places family stream t → ¬ comparable p ns) → reach t' ns = reach t ns;
}.

Lemma overlaid_bound d t family stream model route t' : parsed_as d t → utf8_Valid model = true →
  overlaid (identity_changes (fresh d family stream route) model) t t' → identity_bound family stream model t t'.
Proof.
  intros Hd V Ho. pose proof (changes_places d t family stream model route) as Hpl. pose proof (is_object_kind d t Hd [txt "generateContentRequest"]) as Hk.
  unfold identity_changes in *. cbn [w_source q_effective w_Family w_Stream fresh] in *. change (txt "/generateContentRequest") with (pointer_of [txt "generateContentRequest"]) in *. rewrite Hk in *. split.
  - intros Hb. eapply (model_read _ _ _ "/model"); [exact Ho| |done|done]. rewrite Hb. by left.
  - intros Hf Hb. eapply (model_read _ _ _ "/generateContentRequest/model"); [exact Ho| |done|by apply nested_valid]. rewrite Hb. unfold is_family at 1. rewrite bool_decide_true by (rewrite Hf; by left). rewrite !elem_of_app. right. left. by left.
  - intros Hb. destruct (vKind (DLookup (Some d) (pointer_of options_place))) eqn:Eo.
    7: eapply (overlaid_holds _ _ _ (usage_change (Some d)) usage_place [] (JBool true) Ho); [rewrite Hb, !elem_of_app; right; right; by left| | |];
      unfold usage_change; change (txt "/stream_options") with (pointer_of options_place); rewrite Eo; try done; apply true_prints.
    all: eapply (overlaid_holds _ _ _ (usage_change (Some d)) options_place [txt "include_usage"] usage_tree Ho); [rewrite Hb, !elem_of_app; right; right; by left| | |];
      unfold usage_change; change (txt "/stream_options") with (pointer_of options_place); rewrite Eo; try done; apply usage_prints.
  - intros ns N. destruct Ho as [_ Ho]. apply Ho. intros c p Hin Ep. destruct (Hpl c Hd Hin) as (p' & Hp & Ep'). rewrite Ep in Ep'. apply pointer_inj in Ep' as <-. apply N in Hp. unfold comparable in Hp. tauto.
Qed.

(** C22. Identity preparation binds the model and nothing else. For a request fresh from a document
    the parser returned, an object, in a family with a contract other than the rerank of Bedrock,
    and with no [stream_options] but null or an object where a stream of the family is asked for
    usage, preparing returns. It is refused only for size, and rightly: the changes are more than
    the limit on values, their values together have more bytes than the limit, one of them is more
    than the parser's limits allow, or the document they make, printed as JSON, is. The document
    prepared otherwise names the published model where the family's body does, the count request of
    Gemini inside too, asks for usage in a stream of a family that reports it, whatever options the
    caller gave as an object, and keeps every other place of the source as it was. *)
Theorem identity_binds_model family route stream data limits d r model :
  family ∈ families → family ≠ BedrockRerank → ParseJSON data limits = ok d → MaxNodes limits <= MaxInt64 → Value_Kind d 0 = Object → utf8_Valid model = true →
  wire_NewRequest family route stream (Some d) = Some (inr r) → options_ready d family stream →
  ∃ o, protocols_PrepareIdentity r model = Some o ∧
    match o with
    | inl e => limit_error d (identity_changes r model) e
    | inr p => ∃ d' t t', p_document p = Some d' ∧ parsed_as d t ∧ parsed_as d' t' ∧ identity_bound family stream model t t'
    end.
Proof.
  intros Hf Hr EP HM Hk V Er Ho. destruct (parse_parsed data limits d EP HM) as (t & Hd & _). pose proof (pa_limits d t Hd) as El.
  assert (r = fresh d family stream route) as -> by (unfold wire_NewRequest, NewRequest in Er; destruct (_ || _); [done|by injection Er as <-]). clear Er.
  assert (is_object (Some t) = true) as Hroot by (pose proof (represents_kind _ _ _ (pa_tree d t Hd)) as H; rewrite Hk in H; by destruct t).
  pose proof (changes_sound d t Hd family stream model route Hroot V Hr Ho) as F. set (cs := identity_changes _ _) in *.
  unfold protocols_PrepareIdentity, Registry_PrepareIdentity, bound. fold cs. cbn [w_source q_descriptor fresh]. rewrite (contract_found family stream Hf). unfold prepareIdentity. cbn [q_descriptor q_provenance q_effective forallb]. rewrite !bool_decide_true by done. cbn [negb orb].
  destruct (allowed_sound (contract_rules family) d cs El) as [Ha|(s & Ha & Hl)]; [by eapply Forall_impl; [exact F|by intros c [_ H] ]| |].
  all: change (b_IdentityRules (contract_binding family)) with (contract_rules family); rewrite Ha. 2: { eexists. split; [done|]. by left. }
  destruct (changes_apart (fresh d family stream route) model) as [ND Hov]. fold cs in ND, Hov.
  assert (Forall (sound_change d) cs) as F1 by (eapply Forall_impl; [exact F|by intros c [H _] ]).
  destruct (apply_sound d t cs Hd F1 ND Hov) as ([e|d'] & EA & He); rewrite EA; eexists; (split; [done|]); [by apply He|].
  assert (Forall named_validly cs) as Vc by (eapply Forall_impl; [exact F1|by intros c []]).
  destruct (apply_overlaid d t cs d' Hd Vc EA) as (t' & Hd' & _ & Hov'). exists d', t, t'. repeat (split; [done|]). by apply (overlaid_bound d t family stream model route).
Qed.

(** A rerank of Bedrock is never prepared: its contract has no rule for the model that preparing
    binds. *)
Lemma bedrock_rerank_refused r stream model p :
  w_Family r = BedrockRerank → q_descriptor (w_source r) = wire_Descriptor BedrockRerank stream → protocols_PrepareIdentity r model ≠ Some (inr p).
Proof.
  intros Hf Hd. unfold protocols_PrepareIdentity, Registry_PrepareIdentity, bound. rewrite Hd, contract_found by set_solver. intros H%prepareIdentity_prepares. pose proof (pr_after _ _ _ _ _ H) as Ha.
  unfold identity_changes in Ha. rewrite Hf in Ha. change (binds_model BedrockRerank) with true in Ha. cbn [app changes_allowed] in Ha. destruct (ParseJSON _ _) as [ [e|v]|]; done.
Qed.

(** ** At work *)

Definition chat_source : text := json_source "{'model':'route','stream':true,'stream_options':{'x':1.50},'messages':[]}".
Definition chat_document : document := match ParseJSON chat_source (mkLimits 0 0 0) with Some (inr d) => d | _ => mkDocument [] [] (mkLimits 0 0 0) end.
Definition chat_sent : text := json_source "{'model':'gpt','stream':true,'stream_options':{'x':1.50,'include_usage':true},'messages':[]}".

Lemma identity_binds_model_witness : ∃ r o, wire_NewRequest Chat "route" true (Some chat_document) = Some (inr r) ∧ protocols_PrepareIdentity r (txt "gpt") = Some o ∧
  match o with
  | inl _ => False
  | inr p => (d_raw <$> p_document p) = Some chat_sent ∧
      ∃ d' t t', p_document p = Some d' ∧ parsed_as chat_document t ∧ parsed_as d' t' ∧ identity_bound Chat true (txt "gpt") t t'
  end.
Proof.
  destruct (wire_NewRequest Chat "route" true (Some chat_document)) as [ [e|r]|] eqn:Er; [exfalso; vm_compute in Er; discriminate| |exfalso; vm_compute in Er; discriminate].
  destruct (identity_binds_model Chat "route" true chat_source (mkLimits 0 0 0) chat_document r (txt "gpt")) as (o & Eo & H);
    [by right; left|discriminate|vm_compute; reflexivity|vm_compute; discriminate|vm_compute; reflexivity|vm_compute; reflexivity|exact Er| |].
  { intros _. replace (vKind _) with Object by (vm_compute; reflexivity). by right; right; left. }
  exists r, o. split; [reflexivity|]. split; [exact Eo|]. destruct o as [e|p].
  - exfalso. vm_compute in Er. injection Er as <-. vm_compute in Eo. discriminate.
  - split; [|exact H]. vm_compute in Er. injection Er as <-. vm_compute in Eo. injection Eo as <-. vm_compute. reflexivity.
Defined.
